(* ===== verification/_CoqProject ===== *)
-Q . S2P
Prelude.v
RustStr.v
NetClassify.v
Fingerprint.v
RollingMatcher.v
Redact.v
HashesWire.v
Allowlist.v
EgressProxy.v
Relay.v
Effects.v
Json.v
NulRule.v
Protocol.v
Secrets.v
SecretStore.v
Cassandra.v
PlanJson.v
SkillTemplate.v
PythonSkill.v
InjectionGuard.v
ToolHost.v
Asks.v
LoopPure.v
InnerLoop.v
InnerLoopSpec.v
LoopWorld.v
SkillStore.v
AskMessage.v
ResultView.v
TaskStore.v
TaskLifecycle.v
AskRace.v
Channel.v
Conversation.v
SystemPrompt.v
Runner.v
RunnerSpec.v
Handoff.v
WorkerLifecycle.v
Sandbox.v
Seatbelt.v
EgressConfig.v
EgressSpawn.v
ToolDispatch.v
AuditLog.v
Notebook.v
NotebookView.v
PlanSummary.v
Sift.v
SiftTable.v
SiftRun.v
SiftRunSpec.v
NotebookLoop.v
NotebookLoopSpec.v
EnvFile.v
UnitFile.v
Supervisor.v
