(* ===== verification/Prelude.v ===== *)
(** * Kastellan: a verification development

    Kastellan is a self-hosted agent.  A core process takes a task from a queue,
    asks a model for a plan, has the plan reviewed, dispatches its steps to
    sandboxed worker processes and feeds the results back until the task ends, or
    suspends it while an operator answers a question.  Tasks come from the command
    line and from channels.  Workers reach the network only through an egress
    proxy that enforces a host allowlist, refuses private addresses and, on TLS
    tunnels it intercepts, stops the values of provisioned secrets from leaving.
    This library models the parts that carry those guarantees and proves them.

    ** Parts and files

    The egress side, from the bottom up:

    - [NetClassify] is [net-classify/src/lib.rs]: which addresses are never
      dialled, IPv4 embedded in IPv6 included.
    - [Fingerprint], [RollingMatcher], [Redact] and [HashesWire] are
      [leak-scan/src]: the fingerprint of a secret (a 64-bit rolling hash and a
      SHA-256 digest), the streaming matcher with its ring buffer, the redaction
      of a buffer, and the file that provisions fingerprints to the proxy.
    - [Allowlist] is [workers/web-common/src/allowlist.rs].
    - [EgressProxy] is [workers/egress-proxy/src]: [request_line.rs],
      [report.rs] and [proxy.rs]; [handle_conn] is the whole handler of one
      connection, as the list of actions it takes given an environment that says
      what the sockets do.  [Relay] is [mitm/relay.rs], the two pumps of an
      intercepted tunnel as a step relation over read, write and error events in
      any order.
    - [EgressConfig] is what the core decides before it spawns a worker: pins,
      extra trust anchors, routing, the lockdown environment, the names of scratch
      directories ([core/src/egress], [worker_lifecycle/force_route.rs]).
      [EgressSpawn] is the spawn of a worker with its proxy and its broker, every
      failure path included ([core/src/egress], [core/src/broker],
      [tool_host.rs]).
    - [Sandbox] is the Linux sandbox ([sandbox/src/linux_bwrap.rs],
      [linux_cgroup.rs]): the command lines of [systemd-run] and [bwrap] and a
      reader of them; [Seatbelt] the macOS ones.

    The core side:

    - [Json] is [serde_json::Value]; [NulRule] the NUL rule of the database writes
      ([db/src/nul.rs]); [Protocol] is [protocol/src], the line-delimited JSON-RPC
      the core and its workers speak.
    - [Cassandra] is [core/src/cassandra]: plans, the data-classification and the
      constitutional screen, the review chain as [main.rs] wires it, and the plan
      digest.  [PlanJson] holds the serde codecs of a plan.  [InjectionGuard] is
      [injection_guard.rs], the screen of worker output.
    - [SkillTemplate], [PythonSkill] and [SkillStore] are the skills an agent
      crystallises: validation, approval gate, expansion, and their rows in the
      memory table with the operator's trust ladder ([core/src/memory],
      [db/src/memories.rs]).  [SystemPrompt] is the prompt and the memory rows
      that feed it ([core/src/memory], [recall_assembly], [prompt_assembly]).
    - [Secrets] is [core/src/secrets]: the vault of secret references and their
      substitution; [SecretStore] the encrypted rows behind it, their key and the
      operator's commands ([secrets/admin.rs], [db/src/secrets]); [ToolHost] is the chokepoint every worker call goes through,
      [dispatch_with_sink] of [core/src/tool_host.rs]; [ToolDispatch] is the
      scheduler's dispatcher around it ([scheduler/tool_dispatch.rs]); [Handoff]
      the cache of results too large to show ([core/src/handoff.rs]);
      [WorkerLifecycle] the warm workers ([core/src/worker_lifecycle]).
    - [TaskStore] is the [tasks] and [asks] tables with every statement run
      against them ([db/src/tasks.rs], [db/src/asks.rs]); [TaskLifecycle] their
      contract, a board of cards; [AskRace] the same transactions interleaved
      statement by statement.  [Asks] and [AskMessage] are the pure half of
      operator approval and its wire vocabulary.  [Channel] is the inbound path
      of a message with pairing, and replies ([core/src/channel]);
      [Conversation] what a follow-up reads of earlier turns.
    - [LoopPure], [InnerLoop], [InnerLoopSpec] and [LoopWorld] are
      [scheduler/inner_loop.rs] and its modules: one run of a task from its
      context to its outcome, in the monad of [Effects].  [ResultView] and
      [PlanSummary] are what the planner is shown of results and of earlier plans.
      [Runner] and [RunnerSpec] are the lane runner and crash recovery
      ([scheduler/runner.rs]).
    - [Notebook], [NotebookView], [NotebookLoop] and [NotebookLoopSpec] are the
      second agent loop ([scheduler/notebook]): the notebook as a log of rows and
      the fold that replays it, the replies of the model and their checks, the
      message of a turn, and the loop.  [Sift], [SiftTable], [SiftRun] and
      [SiftRunSpec] are its sift ([scheduler/notebook/sift]): a list gone through
      item by item by a sorter, the scrapbook of what was kept, and the table of
      an answer.
    - [EnvFile], [UnitFile] and [Supervisor] are [supervisor/src]: the names of
      services and their environment files with the reports on the operator's
      overlay, the unit files and property lists, and the systemd driver that
      installs and removes them.  The diff of [core/src/install/env_diff.rs] is in
      [EnvFile].
    - [AuditLog] is the audit log and its mirror on disk ([db/src/audit.rs],
      [core/src/audit_mirror.rs]).

    [RustStr] models the string functions of the Rust standard library that the
    sources use, on UTF-8 bytes.  This file holds what all of them share.

    ** What the theorems show

    - Review.  A step is dispatched only after a review of exactly its plan that
      permitted it, or an operator's approval of exactly that plan, in the classic
      loop ([InnerLoopSpec]) and in the notebook loop, a sift's reads included
      ([NotebookLoopSpec]); under the production chain its class lies between the
      task's floor and the plan's ceiling.  Runs end, their counters agree with
      what happened, and skills are only crystallised from grounded work and only
      trusted past the gate ([SkillStore]).
    - Tasks and questions.  Every sequence of database operations follows the
      board ([TaskLifecycle]), also when transactions interleave ([AskRace]); a
      denied task never runs, a lane drains and ends ([RunnerSpec]); an inbound
      message is handled as the abstract gate says ([Channel]).
    - The notebook.  Whatever the model replies and whenever the operator corrects
      it, what the loop writes folds again; a replan keeps finished work; a sift
      shows its sorter screened text only and its counts are those of its rows.
    - What the planner sees.  Earlier plans, results, findings and prompt rows are
      screened, and what is shown fits its budget ([PlanSummary], [ResultView],
      [NotebookView], [SystemPrompt], [Handoff]).
    - Egress.  The proxy dials only approved targets and reports every connection
      ([EgressProxy]); the rolling matcher is the naive scan of every window
      ([RollingMatcher]), so no secret crosses an intercepted tunnel under any
      schedule ([Relay]); the address classifier is a list of CIDR blocks
      ([NetClassify]).  A worker with network access starts only behind its proxy,
      inside the jail its policy says, and a failed spawn leaves no process and no
      directory behind ([EgressSpawn], [Sandbox], [Seatbelt]).
    - Workers.  A worker answers every call once and in order ([Protocol]), there
      is at most one per tool ([WorkerLifecycle]), each is given back
      ([ToolDispatch]), and what it answers is scrubbed of the secrets of the
      request and capped ([ToolHost], [ToolDispatch]).
    - Secrets.  What the operator stores is what the vault redeems, a row moved to
      another name does not open, and the table is a map from names to values; two
      processes that create the key at once may keep different keys
      ([SecretStore]).
    - Audit.  What is stored fits the column's limit and keeps the records it must
      keep; the mirror writes each row once in order, except a row that commits
      late, which it never writes ([AuditLog]).

    - Services.  A key has the value of the last file that declares it, and the
      daemon reports an overlay as applied only if it is ([EnvFile]); a unit file
      and a property list say what their spec says whatever its strings hold
      ([UnitFile]); a unit file is never torn, and it is removed only after the
      manager released the unit and, for a bundle, all its members
      ([Supervisor]).

    Theorems named as defects ([late_commit_is_never_mirrored],
    [empty_replan_blocks_the_answer], [secret_expiring_in_call_is_not_scrubbed],
    [symlink_rewrites_seatbelt_profile] and the like) exhibit behaviour that the
    code's own comments rule out.

    ** Conventions

    Integers are [Z] with the wrap-around of their width written out; bytes are
    [Z] in [0, 255] and strings are lists of them; a [HashMap] whose iteration
    order the code can observe takes that order as a parameter; a panic is the
    outcome [Panic].  Effectful code is a [prog] of [Effects] over an arbitrary
    world [W]: everything it calls out to is a field of a record ([Env], [SiftEnv],
    [NbEnv], [HostOs], [SpawnWorld] and their like) and what it does is an event
    of the trace.  Concurrency is a step relation ([Relay], [AskRace],
    [WorkerLifecycle], [ToolDispatch]) or a world that others may change between
    any two statements ([Runner]).  Third-party code is a parameter: [Sha256] (a
    total function with a fixed digest size), [Aead] (a cipher that opens what it
    sealed under the same key and data), [UnicodeStr], [UnicodeChar] and
    [CharClass] (Unicode tables, exact on ASCII), [JsonText] and [SerdeJson] (the
    JSON text layer), the parsing of floats, and the wording of serde's errors.  A
    decoder of a struct reads objects only: serde's positional array form counts
    as a decode failure.  No theorem assumes SHA-256 to be injective: where a
    collision matters the statement says so.  A prompt's and a model's name in
    audit rows is left out.

    ** Bounds

    - [run_to_terminal] has [max_plans - plan_count + 3] iterations: one per plan
      left, one for the turn that decides to force a synthesis, one for a
      synthesis past the limit and the last one; the notebook loop has its turn cap
      in place of [max_plans].  [run_to_terminal_terminates] and
      [notebook_run_terminates] show that it is enough.
    - [serve_capped] has one unit of fuel per byte of input and one more, since a
      record takes at least a byte; [drain_lane] one per task that can be claimed;
      [catch_up] one per page of rows; the readiness wait of a sidecar 201 polls,
      the source's timeout over its interval; [delay_loop] the doublings up to the
      longest backoff.
    - The chain of sifts is followed for one more link than there are plans
      ([chain_expansion_ends]); the cut of tables, the renaming of escaped keys,
      the lossy decoding of UTF-8 and the searches of [ResultView] and
      [Conversation] have one unit per element of their input and one more.
    - Scores of the injection guard are exact: an [f32] in [0, 1] with the weights
      used is an integer number of [2^-25].

    ** Not modelled

    Processes, sockets, TLS, SQL and clocks, which appear only as parameters of
    the environments above; the wording of prompts; the calls to language models
    (the router, the formulators, the guard model and its calibration); embeddings
    and the memory graph; the transports of the channels (Matrix, e-mail), which
    wrap third-party clients; the workers other than the proxy, which wrap web,
    mail and browser libraries; the launchd driver, the installer and the micro-VM
    images, which copy files and call system tools; migrations. *)

From stdpp Require Import base list numbers strings option.
From Stdlib Require Import ZArith Lia Ascii.

Declare Scope kastellan_scope.
Delimit Scope kastellan_scope with kast.

(** * Outcomes *)

(** A Rust computation either returns a value or panics. *)
Inductive outcome (A : Type) : Type :=
| Ret (a : A)
| Panic.
Arguments Ret {A} _.
Arguments Panic {A}.

(** Rust's [Result<A, E>]. *)
Inductive result (A E : Type) : Type :=
| Ok (a : A)
| Err (e : E).
Arguments Ok {A E} _.
Arguments Err {A E} _.

(** * Automation *)

(** Side conditions the components' laws discharge. *)
Create HintDb kast.

(** [lia] with [/] and [mod] replaced by their defining equations. *)
Ltac div_lia := Z.to_euclidean_division_equations; lia.

(** Two booleans are equal when the propositions they decide are equivalent. *)
Lemma bool_eq_iff (a b : bool) : (a = true <-> b = true) -> a = b.
Proof. destruct a, b; intuition congruence. Qed.

(** Replace every integer comparison of the goal by a variable. *)
Ltac gen_tests :=
  repeat match goal with
         | |- context [Z.eqb ?x ?y] => generalize (Z.eqb x y); intro
         | |- context [Z.leb ?x ?y] => generalize (Z.leb x y); intro
         end.

Ltac bool_props :=
  rewrite ?orb_true_iff, ?andb_true_iff, ?orb_false_iff, ?andb_false_iff,
    ?negb_true_iff, ?negb_false_iff, ?Z.eqb_eq, ?Z.leb_le, ?Z.eqb_neq, ?Z.leb_gt.

(** * Lists *)

(** Lengths of concatenations, for [len_lia]. *)
Create Rewrite HintDb list_len.
#[export] Hint Rewrite @length_app @length_cons @length_nil @length_replicate : list_len.

(** Arithmetic goals about lengths. *)
Ltac len_lia := autorewrite with list_len in *; lia.

(** * Machine integers *)

Section Integers.
Local Open Scope Z_scope.

Definition u8_range (z : Z) : Prop := 0 <= z < 256.
Definition u16_range (z : Z) : Prop := 0 <= z < 65536.
Definition u64_range (z : Z) : Prop := 0 <= z < 18446744073709551616.

(** [u64] arithmetic wraps modulo [2^64]. *)
Definition wrap64 (z : Z) : Z := z mod 18446744073709551616.
Definition wrapping_add (a b : Z) : Z := wrap64 (a + b).
Definition wrapping_sub (a b : Z) : Z := wrap64 (a - b).
Definition wrapping_mul (a b : Z) : Z := wrap64 (a * b).

(** [as u8]: the low byte. *)
Definition as_u8 (z : Z) : Z := z mod 256.

Lemma wrap64_range z : u64_range (wrap64 z).
Proof. apply Z.mod_pos_bound. lia. Qed.

(** The high bits of a [w]-bit integer, selected by a mask, are the quotient
    by the weight of the lowest selected bit. *)
Lemma land_high_mask (w k x : Z) :
  0 <= k <= w -> 0 <= x < 2 ^ w ->
  Z.land x (2 ^ w - 2 ^ k) = (x / 2 ^ k) * 2 ^ k.
Proof.
  intros Hk Hx.
  replace (2 ^ w - 2 ^ k) with (Z.ones (w - k) * 2 ^ k)
    by (rewrite Z.ones_equiv, Z.mul_pred_l, <- Z.pow_add_r by lia;
        f_equal; f_equal; lia).
  rewrite <- Z.shiftl_mul_pow2, <- (Z.shiftl_mul_pow2 (x / _)) by lia.
  rewrite <- Z.shiftr_div_pow2 by lia.
  apply Z.bits_inj'. intros n Hn.
  rewrite Z.land_spec, !Z.shiftl_spec by lia.
  destruct (Z.ltb_spec n k) as [Hlt | Hge].
  - rewrite (Z.testbit_neg_r (Z.ones _)), (Z.testbit_neg_r (Z.shiftr _ _)) by lia.
    apply andb_false_r.
  - rewrite Z.shiftr_spec by lia. replace (n - k + k) with n by lia.
    destruct (Z.ltb_spec n w) as [Hw | Hw].
    + rewrite Z.ones_spec_low by lia. apply andb_true_r.
    + destruct (Z.eq_dec x 0) as [-> | Hx0]; [by rewrite Z.bits_0|].
      rewrite (Z.bits_above_log2 x n); [done | lia |].
      apply Z.lt_le_trans with w; [|lia]. apply Z.log2_lt_pow2; lia.
Qed.

Lemma div_high (hi lo k : Z) : 0 <= lo < k -> (hi * k + lo) / k = hi.
Proof. intros H. rewrite Z.add_comm, Z.div_add, Z.div_small; lia. Qed.
End Integers.

#[export] Hint Resolve wrap64_range : kast.
