(* ===== verification/RustStr.v ===== *)
(** The operations of Rust's [str], [u16], [u64] that the modelled code calls.

    A [&str] / [String] / [&[u8]] is the list of its bytes, each a [Z] in
    [0, 256); a string literal is written [bs "..."].  Slicing a [str] panics
    off a character boundary, so [slice] returns an [outcome].  Case mapping and
    trimming over the whole of Unicode are the interface [UnicodeStr]: the two
    functions with the laws of their documentation, and an instance that treats
    every non-ASCII byte as a character without case. *)

From stdpp Require Import base list numbers strings sets.
From Stdlib Require Import ZArith Lia Ascii.
From S2P Require Import Prelude.
Local Open Scope Z_scope.

Abbreviation bytes := (list Z).

Definition byte_of_ascii (c : ascii) : Z := Z.of_N (N_of_ascii c).

Fixpoint bs (s : string) : bytes :=
  match s with
  | EmptyString => []
  | String c s' => byte_of_ascii c :: bs s'
  end.

Arguments bs s%_string.

(** * Comparison and search *)

Definition bytes_eqb (a b : bytes) : bool := bool_decide (a = b).

(** [s.strip_prefix(p)] *)
Fixpoint strip_prefix (p s : bytes) : option bytes :=
  match p, s with
  | [], _ => Some s
  | x :: p', y :: s' => if x =? y then strip_prefix p' s' else None
  | _ :: _, [] => None
  end.

Definition starts_with (p s : bytes) : bool :=
  match strip_prefix p s with Some _ => true | None => false end.

Definition ends_with (p s : bytes) : bool := starts_with (reverse p) (reverse s).

(** [s.contains(p)] *)
Fixpoint contains (p s : bytes) : bool :=
  starts_with p s || match s with [] => false | _ :: s' => contains p s' end.

(** [s.find(c)] for an ASCII [c]. *)
Fixpoint find_byte (c : Z) (s : bytes) : option nat :=
  match s with
  | [] => None
  | x :: s' => if x =? c then Some 0%nat else S <$> find_byte c s'
  end.

(** [s.split_once(c)] and [s.rsplit_once(c)]. *)
Fixpoint split_once (c : Z) (s : bytes) : option (bytes * bytes) :=
  match s with
  | [] => None
  | x :: s' =>
      if x =? c then Some ([], s')
      else match split_once c s' with Some (h, t) => Some (x :: h, t) | None => None end
  end.

Definition rsplit_once (c : Z) (s : bytes) : option (bytes * bytes) :=
  match split_once c (reverse s) with Some (t, h) => Some (reverse h, reverse t) | None => None end.

(** [s.split(c)]: the pieces between the separators. *)
Fixpoint split (c : Z) (s : bytes) : list bytes :=
  match s with
  | [] => [[]]
  | x :: s' =>
      if x =? c then [] :: split c s'
      else match split c s' with
           | p :: ps => (x :: p) :: ps
           | [] => [[x]]
           end
  end.

(** [s.trim_end_matches(f)] *)
Fixpoint drop_while (f : Z -> bool) (s : bytes) : bytes :=
  match s with
  | [] => []
  | x :: s' => if f x then drop_while f s' else s
  end.

Definition trim_end_matches (f : Z -> bool) (s : bytes) : bytes := reverse (drop_while f (reverse s)).

(** * Slicing *)

(** A byte that starts a character: everything but 0x80..0xBF. *)
Definition is_char_start (b : Z) : bool := negb ((128 <=? b) && (b <? 192)).

Definition is_char_boundary (s : bytes) (i : nat) : bool :=
  match s !! i with
  | Some b => (i =? 0)%nat || is_char_start b
  | None => (i =? length s)%nat
  end.

(** [&s[i..j]] *)
Definition slice (s : bytes) (i j : nat) : outcome bytes :=
  if (i <=? j)%nat && is_char_boundary s i && is_char_boundary s j
  then Ret (take (j - i) (drop i s))
  else Panic.

(** [s.chars().count()] and [s.chars().take(n)]: a character starts at every byte
    that is not a continuation byte. *)
Definition char_count (s : bytes) : nat := length (filter (fun b => is_char_start b = true) s).

Fixpoint take_chars (n : nat) (s : bytes) : bytes :=
  match s with
  | [] => []
  | b :: s' =>
      if is_char_start b then match n with O => [] | S n' => b :: take_chars n' s' end
      else b :: take_chars n s'
  end.

(** UTF-8 decoding, as [Utf8Chunks] does it: whether a character is decoded at
    the front of [s], and the length of it or of the invalid sequence. *)
Definition is_cont (b : Z) : bool := (128 <=? b) && (b <? 192).

Definition byte_at (s : bytes) (i : nat) : Z := default 0 (s !! i).

(** The second byte of a three- and of a four-byte character. *)
Definition second_ok3 (b c : Z) : bool :=
  if b =? 0xe0 then (0xa0 <=? c) && (c <=? 0xbf)
  else if b =? 0xed then (0x80 <=? c) && (c <=? 0x9f)
  else (0x80 <=? c) && (c <=? 0xbf).

Definition second_ok4 (b c : Z) : bool :=
  if b =? 0xf0 then (0x90 <=? c) && (c <=? 0xbf)
  else if b =? 0xf4 then (0x80 <=? c) && (c <=? 0x8f)
  else (0x80 <=? c) && (c <=? 0xbf).

Definition utf8_next (s : bytes) : bool * nat :=
  let b := byte_at s 0 in
  if b <? 128 then (true, 1%nat)
  else if (0xc2 <=? b) && (b <=? 0xdf) then
    if is_cont (byte_at s 1) then (true, 2%nat) else (false, 1%nat)
  else if (0xe0 <=? b) && (b <=? 0xef) then
    if negb (second_ok3 b (byte_at s 1)) then (false, 1%nat)
    else if is_cont (byte_at s 2) then (true, 3%nat) else (false, 2%nat)
  else if (0xf0 <=? b) && (b <=? 0xf4) then
    if negb (second_ok4 b (byte_at s 1)) then (false, 1%nat)
    else if negb (is_cont (byte_at s 2)) then (false, 2%nat)
    else if is_cont (byte_at s 3) then (true, 4%nat) else (false, 3%nat)
  else (false, 1%nat).

Fixpoint lossy_loop (fuel : nat) (s : bytes) : bytes :=
  match fuel, s with
  | O, _ | _, [] => []
  | S fuel', _ =>
      let '(ok, n) := utf8_next s in
      (if ok then take n s else [0xef; 0xbf; 0xbd]) ++ lossy_loop fuel' (drop n s)
  end.

Fixpoint utf8_loop (fuel : nat) (s : bytes) : bool :=
  match fuel, s with
  | O, _ | _, [] => true
  | S fuel', _ => let '(ok, n) := utf8_next s in ok && utf8_loop fuel' (drop n s)
  end.

(** [String::from_utf8(s).is_ok()] and [String::from_utf8_lossy(s)]; a step takes
    at least one byte. *)
Definition is_utf8 (s : bytes) : bool := utf8_loop (length s) s.
Definition from_utf8_lossy (s : bytes) : bytes := lossy_loop (length s) s.

(** [join(sep)] *)
Fixpoint join (sep : bytes) (parts : list bytes) : bytes :=
  match parts with
  | [] => []
  | [p] => p
  | p :: rest => p ++ sep ++ join sep rest
  end.

(** * Integers in text *)

Definition digit_value (c : Z) : option Z :=
  if (48 <=? c) && (c <=? 57) then Some (c - 48)
  else if (97 <=? c) && (c <=? 122) then Some (c - 87)
  else if (65 <=? c) && (c <=? 90) then Some (c - 55)
  else None.

(** The checked accumulation of [from_str_radix]: [None] on a bad digit or on a
    value above [max]. *)
Fixpoint parse_digits (radix max acc : Z) (s : bytes) : option Z :=
  match s with
  | [] => Some acc
  | c :: s' =>
      match digit_value c with
      | Some d =>
          if d <? radix
          then let acc' := acc * radix + d in
               if acc' <=? max then parse_digits radix max acc' s' else None
          else None
      | None => None
      end
  end.

(** [uN::from_str_radix(s, radix)]: a leading [+] is accepted, an empty string
    and a lone sign are not. *)
Definition from_str_radix (radix max : Z) (s : bytes) : option Z :=
  match s with
  | [] => None
  | [43] => None
  | 43 :: s' => parse_digits radix max 0 s'
  | _ => parse_digits radix max 0 s
  end.

Definition u8_max : Z := 255.
Definition u16_max : Z := 65535.
Definition u64_max : Z := 18446744073709551615.

Definition parse_u16 (s : bytes) : option Z := from_str_radix 10 u16_max s.

Definition i64_max : Z := 9223372036854775807.

(** [str::parse::<i64>] *)
Definition parse_i64 (s : bytes) : option Z :=
  match s with
  | [45] => None
  | 45 :: s' => Z.opp <$> parse_digits 10 (i64_max + 1) 0 s'
  | _ => from_str_radix 10 i64_max s
  end.

Definition hex_digit (d : Z) : Z := if d <? 10 then 48 + d else 87 + d.

(** [n] hexadecimal digits of [v], most significant first ([{:0nx}]). *)
Fixpoint hex_fixed (n : nat) (v : Z) : bytes :=
  match n with
  | O => []
  | S n' => hex_fixed n' (v / 16) ++ [hex_digit (v mod 16)]
  end.

(** * ASCII *)

Definition is_ascii_alphanumeric (c : Z) : bool :=
  ((48 <=? c) && (c <=? 57)) || ((65 <=? c) && (c <=? 90)) || ((97 <=? c) && (c <=? 122)).

(** space, \t, \n, \x0C, \r *)
Definition is_ascii_whitespace (c : Z) : bool :=
  (c =? 32) || (c =? 9) || (c =? 10) || (c =? 12) || (c =? 13).

Definition ascii_lower (c : Z) : Z := if (65 <=? c) && (c <=? 90) then c + 32 else c.

Definition to_ascii_lowercase (s : bytes) : bytes := map ascii_lower s.

Lemma ascii_lower_idem c : ascii_lower (ascii_lower c) = ascii_lower c.
Proof. unfold ascii_lower. repeat case_match; lia. Qed.

Definition is_ascii (s : bytes) : bool := forallb (fun c => (0 <=? c) && (c <? 128)) s.

(** [char::is_whitespace] on ASCII adds \x0B to the ASCII set. *)
Definition is_ascii_space (c : Z) : bool := is_ascii_whitespace c || (c =? 11).

Definition trim_ascii (s : bytes) : bytes :=
  trim_end_matches is_ascii_space (drop_while is_ascii_space s).

Lemma drop_while_head f s : match drop_while f s with [] => True | x :: _ => f x = false end.
Proof. induction s as [|x s IH]; simpl; [done|]. by destruct (f x) eqn:E. Qed.

Lemma drop_while_fix f s : match s with [] => True | x :: _ => f x = false end -> drop_while f s = s.
Proof. destruct s as [|x s]; simpl; [done|]. by intros ->. Qed.

Lemma drop_while_suffix f s : exists p, s = p ++ drop_while f s.
Proof. induction s as [|x s [p IH]]; simpl; [by exists []|]. destruct (f x); [exists (x :: p); simpl; by f_equal|by exists []]. Qed.

Lemma drop_while_trim_end f s : drop_while f (trim_end_matches f (drop_while f s)) = trim_end_matches f (drop_while f s).
Proof.
  apply drop_while_fix. unfold trim_end_matches.
  destruct (drop_while_suffix f (reverse (drop_while f s))) as [p Hp].
  set (t := drop_while f (reverse (drop_while f s))) in *.
  pose proof (drop_while_head f s) as Hh.
  assert (Hs : drop_while f s = reverse t ++ reverse p) by (by rewrite <- reverse_app, <- Hp, reverse_involutive).
  rewrite Hs in Hh. destruct (reverse t) as [|x r]; [done|]. by simpl in Hh.
Qed.

Lemma trim_ascii_idem s : trim_ascii (trim_ascii s) = trim_ascii s.
Proof.
  unfold trim_ascii. rewrite drop_while_trim_end. unfold trim_end_matches.
  rewrite reverse_involutive, (drop_while_fix _ (drop_while _ _)); [done|]. apply drop_while_head.
Qed.

Lemma trim_ascii_infix s : exists a b, s = a ++ trim_ascii s ++ b.
Proof.
  destruct (drop_while_suffix is_ascii_space s) as [a Ha].
  destruct (drop_while_suffix is_ascii_space (reverse (drop_while is_ascii_space s))) as [b Hb].
  exists a, (reverse b). unfold trim_ascii, trim_end_matches. rewrite <- reverse_app, <- Hb, reverse_involutive.
  done.
Qed.

(** [str::to_lowercase] and [str::trim]: Unicode tables fix their values outside
    ASCII.  What the code relies on: they agree with the ASCII operations on
    ASCII text, [trim] returns a slice of its argument, and trims all of it. *)
Class UnicodeStr := {
  to_lowercase : bytes -> bytes;
  str_trim : bytes -> bytes;
  to_lowercase_ascii : forall s, is_ascii s = true -> to_lowercase s = to_ascii_lowercase s;
  str_trim_ascii : forall s, is_ascii s = true -> str_trim s = trim_ascii s;
  str_trim_infix : forall s, exists a b, s = a ++ str_trim s ++ b;
  str_trim_idem : forall s, str_trim (str_trim s) = str_trim s;
}.

(** The instance that leaves every non-ASCII byte alone. *)
#[export] Instance ascii_unicode : UnicodeStr := {|
  to_lowercase := to_ascii_lowercase;
  str_trim := trim_ascii;
  to_lowercase_ascii := fun s _ => eq_refl;
  str_trim_ascii := fun s _ => eq_refl;
  str_trim_infix := trim_ascii_infix;
  str_trim_idem := trim_ascii_idem;
|}.

(** * Lemmas *)

Lemma bytes_eqb_eq a b : bytes_eqb a b = true <-> a = b.
Proof. apply bool_decide_eq_true. Qed.

Lemma strip_prefix_Some p s t : strip_prefix p s = Some t <-> s = p ++ t.
Proof.
  revert s. induction p as [|x p IH]; intros s; simpl; [naive_solver|].
  destruct s as [|y s]; [naive_solver|].
  destruct (Z.eqb_spec x y) as [-> | Hne]; [rewrite IH|]; naive_solver.
Qed.

Lemma starts_with_true p s : starts_with p s = true <-> exists t, s = p ++ t.
Proof.
  unfold starts_with. setoid_rewrite <- strip_prefix_Some.
  destruct (strip_prefix p s); naive_solver.
Qed.

Lemma ends_with_true p s : ends_with p s = true <-> exists t, s = t ++ p.
Proof.
  unfold ends_with. rewrite starts_with_true. split; intros [t Ht].
  - exists (reverse t). apply (f_equal reverse) in Ht.
    by rewrite reverse_app, !reverse_involutive in Ht.
  - exists (reverse t). by rewrite Ht, reverse_app.
Qed.

Lemma contains_true p s : contains p s = true <-> exists a b, s = a ++ p ++ b.
Proof.
  induction s as [|x s IH]; simpl; rewrite orb_true_iff, starts_with_true.
  - split; [intros [[t Ht]|]; [by exists [], t|done]|].
    intros (a & b & H). left. exists b. by destruct a.
  - rewrite IH. split.
    + intros [[t Ht] | (a & b & ->)]; [by exists [], t | by exists (x :: a), b].
    + intros ([|y a] & b & H); [left; by exists b|]. right. naive_solver.
Qed.

Lemma split_once_Some c s h t : split_once c s = Some (h, t) <-> s = h ++ c :: t /\ c ∉ h.
Proof.
  revert h t. induction s as [|x s IH]; intros h t; simpl.
  { split; [done|]. by intros [H _]; destruct h. }
  destruct (Z.eqb_spec x c) as [-> | Hne].
  - split; [intros [= <- <-]; split; [done|set_solver]|].
    intros [H Hni]. destruct h as [|y h]; [naive_solver|]. simplify_eq/=. set_solver.
  - destruct (split_once c s) as [[h' t']|] eqn:E.
    + destruct (proj1 (IH h' t') eq_refl) as [-> Hh']. split.
      * intros [= <- <-]. split; [done|set_solver].
      * intros [H Hni]. destruct h as [|y h]; simplify_eq/=.
        assert (Some (h', t') = Some (h, t)) as [= -> ->] by (apply IH; set_solver). done.
    + split; [done|]. intros [H Hni]. destruct h as [|y h]; simplify_eq/=.
      assert (None = Some (h, t)) by (apply IH; set_solver). done.
Qed.

Lemma split_once_None c s : split_once c s = None <-> c ∉ s.
Proof.
  induction s as [|x s IH]; simpl; [set_solver|].
  destruct (Z.eqb_spec x c) as [-> | Hne]; [set_solver|].
  destruct (split_once c s) as [[h t]|] eqn:E; [|set_solver].
  split; [done|]. intros Hni. assert (c ∉ s) as H by set_solver.
  apply IH in H. done.
Qed.

Lemma rsplit_once_Some c s h t : rsplit_once c s = Some (h, t) <-> s = h ++ c :: t /\ c ∉ t.
Proof.
  assert (Hrev : s = h ++ c :: t <-> reverse s = reverse t ++ c :: reverse h).
  { split.
    - intros ->. by rewrite reverse_app, reverse_cons, <- app_assoc.
    - intros H. apply (f_equal reverse) in H.
      by rewrite reverse_app, reverse_cons, !reverse_involutive, <- app_assoc in H. }
  rewrite Hrev, <- (elem_of_reverse _ t), <- split_once_Some. unfold rsplit_once.
  destruct (split_once c (reverse s)) as [[t' h']|]; [|naive_solver].
  split; [intros [= <- <-]; by rewrite !reverse_involutive|].
  intros [= -> ->]. by rewrite !reverse_involutive.
Qed.

Lemma rsplit_once_None c s : rsplit_once c s = None <-> c ∉ s.
Proof.
  rewrite <- (elem_of_reverse _ s), <- split_once_None. unfold rsplit_once.
  by destruct (split_once c (reverse s)) as [[t h]|].
Qed.

Lemma find_byte_Some c s i : find_byte c s = Some i <->
  s !! i = Some c /\ c ∉ take i s.
Proof.
  revert i. induction s as [|x s IH]; intros i; simpl; [set_solver|].
  destruct (Z.eqb_spec x c) as [-> | Hne].
  - destruct i; simpl; [set_solver|]. split; [done|]. set_solver.
  - destruct i as [|i]; simpl.
    + destruct (find_byte c s); naive_solver.
    + specialize (IH i). destruct (find_byte c s) as [j|]; simpl; [|set_solver].
      split; [intros [= ->]; set_solver|]. intros [H1 H2]. f_equal.
      assert (Some j = Some i) as [=] by (apply IH; set_solver). lia.
Qed.

(** ** Hexadecimal round trip *)

Lemma digit_value_hex d : 0 <= d < 16 -> digit_value (hex_digit d) = Some d.
Proof.
  intros Hd. unfold hex_digit, digit_value.
  destruct (Z.ltb_spec d 10).
  - replace (48 <=? 48 + d) with true by (symmetry; apply Z.leb_le; lia).
    replace (48 + d <=? 57) with true by (symmetry; apply Z.leb_le; lia). simpl. f_equal. lia.
  - replace (87 + d <=? 57) with false by (symmetry; apply Z.leb_gt; lia). rewrite andb_false_r.
    replace (97 <=? 87 + d) with true by (symmetry; apply Z.leb_le; lia).
    replace (87 + d <=? 122) with true by (symmetry; apply Z.leb_le; lia). simpl. f_equal. lia.
Qed.

Lemma parse_digits_app radix max acc s t :
  parse_digits radix max acc (s ++ t) =
  match parse_digits radix max acc s with
  | Some acc' => parse_digits radix max acc' t
  | None => None
  end.
Proof.
  revert acc. induction s as [|c s IH]; intros acc; simpl; [done|].
  destruct (digit_value c) as [d|]; [|done]. destruct (d <? radix); [|done].
  destruct (_ <=? max); [apply IH|done].
Qed.

Lemma parse_hex_fixed n v max :
  0 <= v < 16 ^ Z.of_nat n -> v <= max ->
  parse_digits 16 max 0 (hex_fixed n v) = Some v.
Proof.
  revert v. induction n as [|n IH]; intros v Hv Hmax.
  - simpl in *. f_equal. lia.
  - rewrite Nat2Z.inj_succ, Z.pow_succ_r in Hv by lia.
    cbn [hex_fixed]. rewrite parse_digits_app, IH by div_lia.
    cbn [parse_digits]. rewrite digit_value_hex by div_lia.
    replace (v mod 16 <? 16) with true by (symmetry; apply Z.ltb_lt; div_lia).
    replace (v / 16 * 16 + v mod 16) with v by div_lia.
    by replace (v <=? max) with true by (symmetry; apply Z.leb_le; lia).
Qed.

Lemma length_hex_fixed n v : length (hex_fixed n v) = n.
Proof.
  revert v. induction n as [|n IH]; intros v; [done|].
  cbn [hex_fixed]. rewrite length_app, IH. simpl. lia.
Qed.

Lemma hex_fixed_digits n v c : 0 <= v -> c ∈ hex_fixed n v -> 48 <= c <= 57 \/ 97 <= c <= 102.
Proof.
  revert v. induction n as [|n IH]; intros v Hv; cbn [hex_fixed]; [set_solver|].
  rewrite elem_of_app. intros [H|H]; [apply (IH (v / 16)); [div_lia|done]|].
  apply list_elem_of_singleton in H as ->. unfold hex_digit.
  destruct (Z.ltb_spec (v mod 16) 10); div_lia.
Qed.

(** [from_str_radix] reads back what [{:0nx}] wrote. *)
Lemma from_str_radix_hex n v max :
  (0 < n)%nat -> 0 <= v < 16 ^ Z.of_nat n -> v <= max ->
  from_str_radix 16 max (hex_fixed n v) = Some v.
Proof.
  intros Hn Hv Hmax. rewrite <- (parse_hex_fixed n v max) by done.
  destruct (hex_fixed n v) as [|c s] eqn:E.
  { apply (f_equal length) in E. rewrite length_hex_fixed in E. simpl in E. lia. }
  assert (Hc : 48 <= c <= 57 \/ 97 <= c <= 102).
  { apply (hex_fixed_digits n v); [lia|]. rewrite E. set_solver. }
  unfold from_str_radix. destruct c as [|p|p]; try lia.
  do 6 (destruct p as [p|p|]; try lia; try done).
Qed.

(** ** Trimming and case mapping keep what they do not touch *)

Lemma drop_while_keeps f x s : f x = false -> x ∈ s -> x ∈ drop_while f s.
Proof.
  intros Hf. induction s as [|y s IH]; simpl; [done|].
  intros [-> | Hx]%elem_of_cons; [rewrite Hf; set_solver|].
  destruct (f y); [by apply IH|set_solver].
Qed.

Lemma trim_ascii_keeps x s : is_ascii_space x = false -> x ∈ s -> x ∈ trim_ascii s.
Proof.
  intros Hx Hs. unfold trim_ascii, trim_end_matches.
  apply elem_of_reverse, drop_while_keeps; [done|].
  by apply elem_of_reverse, drop_while_keeps.
Qed.

Lemma trim_ascii_subset x s : x ∈ trim_ascii s -> x ∈ s.
Proof.
  unfold trim_ascii, trim_end_matches. intros Hx%elem_of_reverse.
  destruct (drop_while_suffix is_ascii_space s) as [p Hp]. rewrite Hp. apply elem_of_app. right.
  apply elem_of_reverse.
  destruct (drop_while_suffix is_ascii_space (reverse (drop_while is_ascii_space s))) as [q Hq].
  rewrite Hq. set_solver.
Qed.

Lemma is_ascii_subset s t : (forall x, x ∈ s -> x ∈ t) -> is_ascii t = true -> is_ascii s = true.
Proof.
  unfold is_ascii. rewrite !forallb_forall. setoid_rewrite <- list_elem_of_In. auto.
Qed.

Lemma to_ascii_lowercase_keeps x s : ascii_lower x = x -> x ∈ s -> x ∈ to_ascii_lowercase s.
Proof.
  intros Hx Hs. unfold to_ascii_lowercase. apply list_elem_of_In, in_map_iff.
  exists x. by rewrite <- list_elem_of_In.
Qed.

Lemma drop_while_app f ws s : Forall (fun c => f c = true) ws -> drop_while f (ws ++ s) = drop_while f s.
Proof. induction 1 as [|c ws Hc _ IH]; simpl; [done|]. by rewrite Hc. Qed.

Lemma trim_end_matches_app f s c ws :
  f c = false -> Forall (fun x => f x = true) ws ->
  trim_end_matches f (s ++ c :: ws) = s ++ [c].
Proof.
  intros Hc Hws. unfold trim_end_matches. rewrite reverse_app, reverse_cons, <- app_assoc.
  rewrite drop_while_app by by apply Forall_reverse. simpl. rewrite Hc.
  by rewrite reverse_cons, reverse_involutive.
Qed.

Lemma split_app c a b : c ∉ a -> split c (a ++ c :: b) = a :: split c b.
Proof.
  induction a as [|x a IH]; intros Hc; simpl.
  - by rewrite Z.eqb_refl.
  - destruct (Z.eqb_spec x c) as [-> | Hne]; [set_solver|]. rewrite IH by set_solver. done.
Qed.
