(* ===== verification/NetClassify.v ===== *)
(** The SSRF / DNS-rebinding address classifier (src/net-classify/src/lib.rs).

    [Ipv4Addr] is the four octets of [std::net::Ipv4Addr], [Ipv6Addr] the eight
    segments of [std::net::Ipv6Addr]; the [std] predicates the source calls
    ([is_loopback], [is_private], [to_ipv4_mapped], ...) are written out below
    under their own names.  The reference definition is the list of CIDR blocks
    the module's comments announce, read on the 32-bit and 128-bit integer value
    of the address. *)

From stdpp Require Import base list numbers.
From Stdlib Require Import ZArith Lia.
From S2P Require Import Prelude.
Local Open Scope Z_scope.

(** * Addresses *)

Record Ipv4Addr := mkV4 { oct_a : Z; oct_b : Z; oct_c : Z; oct_d : Z }.

Record Ipv6Addr := mkV6 {
  seg0 : Z; seg1 : Z; seg2 : Z; seg3 : Z; seg4 : Z; seg5 : Z; seg6 : Z; seg7 : Z }.

Inductive IpAddr := V4 (ip : Ipv4Addr) | V6 (ip : Ipv6Addr).

Definition wf_v4 (ip : Ipv4Addr) : Prop :=
  u8_range (oct_a ip) /\ u8_range (oct_b ip) /\ u8_range (oct_c ip) /\ u8_range (oct_d ip).

Definition wf_v6 (ip : Ipv6Addr) : Prop :=
  u16_range (seg0 ip) /\ u16_range (seg1 ip) /\ u16_range (seg2 ip) /\ u16_range (seg3 ip) /\
  u16_range (seg4 ip) /\ u16_range (seg5 ip) /\ u16_range (seg6 ip) /\ u16_range (seg7 ip).

Definition wf_ip (ip : IpAddr) : Prop :=
  match ip with V4 v => wf_v4 v | V6 v => wf_v6 v end.

(** * The [std::net] predicates the classifier calls *)

Module Std4.
Definition is_loopback (ip : Ipv4Addr) : bool := oct_a ip =? 127.
Definition is_private (ip : Ipv4Addr) : bool :=
  (oct_a ip =? 10)
  || ((oct_a ip =? 172) && (16 <=? oct_b ip) && (oct_b ip <=? 31))
  || ((oct_a ip =? 192) && (oct_b ip =? 168)).
Definition is_link_local (ip : Ipv4Addr) : bool := (oct_a ip =? 169) && (oct_b ip =? 254).
Definition is_multicast (ip : Ipv4Addr) : bool := (224 <=? oct_a ip) && (oct_a ip <=? 239).
Definition is_unspecified (ip : Ipv4Addr) : bool :=
  (oct_a ip =? 0) && (oct_b ip =? 0) && (oct_c ip =? 0) && (oct_d ip =? 0).
Definition is_broadcast (ip : Ipv4Addr) : bool :=
  (oct_a ip =? 255) && (oct_b ip =? 255) && (oct_c ip =? 255) && (oct_d ip =? 255).
End Std4.

(** [s[0..6] == [a, b, c, d, e, f]]. *)
Definition top6_eqb (ip : Ipv6Addr) (a b c d e f : Z) : bool :=
  (seg0 ip =? a) && (seg1 ip =? b) && (seg2 ip =? c) && (seg3 ip =? d)
  && (seg4 ip =? e) && (seg5 ip =? f).

Module Std6.
Definition is_unspecified (ip : Ipv6Addr) : bool :=
  top6_eqb ip 0 0 0 0 0 0 && (seg6 ip =? 0) && (seg7 ip =? 0).
Definition is_loopback (ip : Ipv6Addr) : bool :=
  top6_eqb ip 0 0 0 0 0 0 && (seg6 ip =? 0) && (seg7 ip =? 1).
Definition is_multicast (ip : Ipv6Addr) : bool := Z.land (seg0 ip) 0xff00 =? 0xff00.
(** The four octets held by two consecutive segments. *)
Definition octets_of (hi lo : Z) : Ipv4Addr :=
  mkV4 (as_u8 (Z.shiftr hi 8)) (as_u8 (Z.land hi 0xff))
       (as_u8 (Z.shiftr lo 8)) (as_u8 (Z.land lo 0xff)).
Definition to_ipv4_mapped (ip : Ipv6Addr) : option Ipv4Addr :=
  if top6_eqb ip 0 0 0 0 0 0xffff then Some (octets_of (seg6 ip) (seg7 ip)) else None.
End Std6.

(** * The classifier *)

Definition is_this_network_v4 (ip : Ipv4Addr) : bool := oct_a ip =? 0.

Definition is_cgnat_v4 (ip : Ipv4Addr) : bool :=
  (oct_a ip =? 100) && ((64 <=? oct_b ip) && (oct_b ip <=? 127)).

Definition is_reserved_v4 (ip : Ipv4Addr) : bool := 240 <=? oct_a ip.

Definition is_denied_v4 (ip : Ipv4Addr) : bool :=
  Std4.is_loopback ip
  || Std4.is_private ip
  || Std4.is_link_local ip
  || Std4.is_multicast ip
  || Std4.is_unspecified ip
  || is_this_network_v4 ip
  || Std4.is_broadcast ip
  || is_cgnat_v4 ip
  || is_reserved_v4 ip.

Definition is_site_local_v6 (ip : Ipv6Addr) : bool := Z.land (seg0 ip) 0xffc0 =? 0xfec0.
Definition is_unique_local_v6 (ip : Ipv6Addr) : bool := Z.land (seg0 ip) 0xfe00 =? 0xfc00.
Definition is_link_local_v6 (ip : Ipv6Addr) : bool := Z.land (seg0 ip) 0xffc0 =? 0xfe80.

Definition is_denied_v6 (ip : Ipv6Addr) : bool :=
  Std6.is_loopback ip
  || Std6.is_unspecified ip
  || Std6.is_multicast ip
  || is_unique_local_v6 ip
  || is_link_local_v6 ip
  || is_site_local_v6 ip.

Definition embedded_transition_v4 (ip : Ipv6Addr) : option Ipv4Addr :=
  let trailing_v4 := Std6.octets_of (seg6 ip) (seg7 ip) in
  if top6_eqb ip 0 0 0 0 0 0 && negb (Std6.is_unspecified ip) && negb (Std6.is_loopback ip)
  then Some trailing_v4
  else if top6_eqb ip 0 0 0 0 0xffff 0 then Some trailing_v4
  else if (seg0 ip =? 0x0064) && (seg1 ip =? 0xff9b)
          && ((seg2 ip =? 0) && (seg3 ip =? 0) && (seg4 ip =? 0) && (seg5 ip =? 0))
  then Some trailing_v4
  else if (seg0 ip =? 0x0064) && (seg1 ip =? 0xff9b) && (seg2 ip =? 0x0001)
  then Some (mkV4 (as_u8 (Z.shiftr (seg3 ip) 8)) (as_u8 (Z.land (seg3 ip) 0xff))
                  (as_u8 (Z.land (seg4 ip) 0xff)) (as_u8 (Z.shiftr (seg5 ip) 8)))
  else if seg0 ip =? 0x2002
  then Some (Std6.octets_of (seg1 ip) (seg2 ip))
  else None.

Definition is_denied_range (ip : IpAddr) : bool :=
  match ip with
  | V4 v4 => is_denied_v4 v4
  | V6 v6 =>
      match Std6.to_ipv4_mapped v6 with
      | Some v4 => is_denied_v4 v4
      | None =>
          match embedded_transition_v4 v6 with
          | Some v4 => is_denied_v4 v4
          | None => is_denied_v6 v6
          end
      end
  end.

(** * Reference definition: CIDR blocks on the integer value of an address *)

Module Cidr.
(** [x] lies in the block [base/len] of a [w]-bit address space. *)
Definition in_block (w : Z) (x : Z) (blk : Z * Z) : bool :=
  let '(base, len) := blk in x / 2 ^ (w - len) =? base / 2 ^ (w - len).

Definition v4_value (ip : Ipv4Addr) : Z :=
  oct_a ip * 2 ^ 24 + (oct_b ip * 2 ^ 16 + (oct_c ip * 2 ^ 8 + oct_d ip)).

(** The low 64 bits and the whole of a 128-bit address. *)
Definition v6_low64 (ip : Ipv6Addr) : Z :=
  seg4 ip * 2 ^ 48 + (seg5 ip * 2 ^ 32 + (seg6 ip * 2 ^ 16 + seg7 ip)).
Definition v6_value (ip : Ipv6Addr) : Z :=
  seg0 ip * 2 ^ 112 + (seg1 ip * 2 ^ 96 + (seg2 ip * 2 ^ 80 + (seg3 ip * 2 ^ 64 + v6_low64 ip))).

(** 127/8, 10/8, 172.16/12, 192.168/16, 169.254/16, 224/4, 0/8, 100.64/10, 240/4. *)
Definition denied_v4_blocks : list (Z * Z) :=
  [ (0x7f000000, 8); (0x0a000000, 8); (0xac100000, 12); (0xc0a80000, 16);
    (0xa9fe0000, 16); (0xe0000000, 4); (0, 8); (0x64400000, 10); (0xf0000000, 4) ].

(** ::1/128, ::/128, ff00::/8, fc00::/7, fe80::/10, fec0::/10. *)
Definition denied_v6_blocks : list (Z * Z) :=
  [ (1, 128); (0, 128); (0xff00 * 2 ^ 112, 8); (0xfc00 * 2 ^ 112, 7);
    (0xfe80 * 2 ^ 112, 10); (0xfec0 * 2 ^ 112, 10) ].

Definition denied32 (x : Z) : bool := existsb (in_block 32 x) denied_v4_blocks.
Definition denied128 (x : Z) : bool := existsb (in_block 128 x) denied_v6_blocks.

(** The IPv4 address (as a 32-bit integer) that a 128-bit address carries:
    ::ffff:0:0/96, ::/96 (less :: and ::1), ::ffff:0:0:0/96, 64:ff9b::/96,
    64:ff9b:1::/48 (split around bits 64..71) and 2002::/16. *)
Definition carried (x : Z) : option Z :=
  if in_block 128 x (0xffff * 2 ^ 32, 96) then Some (x mod 2 ^ 32)
  else if in_block 128 x (0, 96) && negb (x =? 0) && negb (x =? 1) then Some (x mod 2 ^ 32)
  else if in_block 128 x (0xffff * 2 ^ 48, 96) then Some (x mod 2 ^ 32)
  else if in_block 128 x (0x64ff9b * 2 ^ 96, 96) then Some (x mod 2 ^ 32)
  else if in_block 128 x (0x64ff9b0001 * 2 ^ 80, 48)
  then Some ((x / 2 ^ 64) mod 2 ^ 16 * 2 ^ 16
             + ((x / 2 ^ 48) mod 2 ^ 8 * 2 ^ 8 + (x / 2 ^ 40) mod 2 ^ 8))
  else if in_block 128 x (0x2002 * 2 ^ 112, 16) then Some ((x / 2 ^ 80) mod 2 ^ 32)
  else None.

Definition denied (ip : IpAddr) : bool :=
  match ip with
  | V4 v => denied32 (v4_value v)
  | V6 v =>
      match carried (v6_value v) with
      | Some x => denied32 x
      | None => denied128 (v6_value v)
      end
  end.
End Cidr.

(** The fixed-prefix encodings of an IPv4 address inside an IPv6 address. *)
Inductive Encoding :=
| EncMapped | EncCompatible | EncTranslated | EncNat64 | EncNat64Local (u low : Z) (rest : Z)
| Enc6to4 (s3 s4 s5 s6 s7 : Z).

Definition wf_encoding (e : Encoding) : Prop :=
  match e with
  | EncNat64Local u low rest => u8_range u /\ u8_range low /\ 0 <= rest < 2 ^ 32
  | Enc6to4 s3 s4 s5 s6 s7 =>
      u16_range s3 /\ u16_range s4 /\ u16_range s5 /\ u16_range s6 /\ u16_range s7
  | _ => True
  end.

(** [embed e v4] is the IPv6 address that carries [v4] under encoding [e]; the
    remaining fields ([u], [low], ...) are whatever the sender chose. *)
Definition embed (e : Encoding) (v : Ipv4Addr) : Ipv6Addr :=
  let hi := oct_a v * 256 + oct_b v in
  let lo := oct_c v * 256 + oct_d v in
  match e with
  | EncMapped => mkV6 0 0 0 0 0 0xffff hi lo
  | EncCompatible => mkV6 0 0 0 0 0 0 hi lo
  | EncTranslated => mkV6 0 0 0 0 0xffff 0 hi lo
  | EncNat64 => mkV6 0x64 0xff9b 0 0 0 0 hi lo
  | EncNat64Local u low rest =>
      mkV6 0x64 0xff9b 1 hi (u * 256 + oct_c v) (oct_d v * 256 + low)
           (rest / 65536) (rest mod 65536)
  | Enc6to4 s3 s4 s5 s6 s7 => mkV6 0x2002 hi lo s3 s4 s5 s6 s7
  end.

(** Appending a 16-bit segment to the segments above it. *)
Definition hcat (h l : Z) : Z := h * 65536 + l.

Definition pack96 (a b c d e f : Z) : Z := hcat (hcat (hcat (hcat (hcat a b) c) d) e) f.

(** The four octets the /48 branch of [embedded_transition_v4] reads. *)
Definition nat64_local_octets (s3 s4 s5 : Z) : Ipv4Addr :=
  mkV4 (as_u8 (Z.shiftr s3 8)) (as_u8 (Z.land s3 0xff))
       (as_u8 (Z.land s4 0xff)) (as_u8 (Z.shiftr s5 8)).

(** * Lemmas *)

Ltac unfold_ranges := unfold wf_ip, wf_v4, wf_v6, u8_range, u16_range in *.

(** The quotients of a 32-bit address that select its CIDR prefixes. *)
Lemma v4_prefixes a b c d :
  u8_range a -> u8_range b -> u8_range c -> u8_range d ->
  let x := Cidr.v4_value (mkV4 a b c d) in
  x / 2 ^ 24 = a /\ x / 2 ^ 16 = a * 256 + b /\ x / 2 ^ 20 = a * 16 + b / 16 /\
  x / 2 ^ 22 = a * 4 + b / 64 /\ x / 2 ^ 28 = a / 16.
Proof. unfold u8_range, Cidr.v4_value. simpl oct_a; simpl oct_b; simpl oct_c; simpl oct_d. div_lia. Qed.

(** The blocks that are not a plain comparison of octets. *)
Lemma v4_block_tests a b : u8_range a -> u8_range b ->
  (a * 16 + b / 16 =? 0xac1) = (a =? 172) && (16 <=? b) && (b <=? 31) /\
  (a * 256 + b =? 0xc0a8) = (a =? 192) && (b =? 168) /\
  (a * 256 + b =? 0xa9fe) = (a =? 169) && (b =? 254) /\
  (a * 4 + b / 64 =? 401) = (a =? 100) && ((64 <=? b) && (b <=? 127)) /\
  (a / 16 =? 14) = (224 <=? a) && (a <=? 239) /\
  (a / 16 =? 15) = (240 <=? a).
Proof.
  unfold u8_range. intros Ha Hb.
  repeat split; apply bool_eq_iff; bool_props; div_lia.
Qed.

Lemma broadcast_reserved v : Std4.is_broadcast v = true -> is_reserved_v4 v = true.
Proof. unfold Std4.is_broadcast, is_reserved_v4. bool_props. lia. Qed.

Lemma denied32_eq v : wf_v4 v -> Cidr.denied32 (Cidr.v4_value v) = is_denied_v4 v.
Proof.
  destruct v as [a b c d]. intros (Ha & Hb & Hc & Hd).
  destruct (v4_prefixes a b c d Ha Hb Hc Hd) as (P8 & P16 & P12 & P10 & P4).
  destruct (v4_block_tests a b Ha Hb) as (T12 & T16 & T16' & T10 & T4 & T4').
  unfold Cidr.denied32, Cidr.denied_v4_blocks, existsb, Cidr.in_block.
  change (32 - 8) with 24. change (32 - 12) with 20. change (32 - 16) with 16.
  change (32 - 10) with 22. change (32 - 4) with 28.
  rewrite P8, P16, P12, P10, P4.
  change (0xac100000 / 2 ^ 20) with 0xac1. change (0xc0a80000 / 2 ^ 16) with 0xc0a8.
  change (0xa9fe0000 / 2 ^ 16) with 0xa9fe. change (0x64400000 / 2 ^ 22) with 401.
  change (0xe0000000 / 2 ^ 28) with 14. change (0xf0000000 / 2 ^ 28) with 15.
  change (0x7f000000 / 2 ^ 24) with 127. change (0x0a000000 / 2 ^ 24) with 10.
  change (0 / 2 ^ 24) with 0.
  rewrite T12, T16, T16', T10, T4, T4'.
  pose proof (broadcast_reserved (mkV4 a b c d)) as Hbc. unfold is_reserved_v4 in Hbc.
  unfold is_denied_v4. destruct (Std4.is_broadcast _); cbn [oct_a] in Hbc;
    unfold Std4.is_loopback, Std4.is_private, Std4.is_link_local, Std4.is_multicast,
      Std4.is_unspecified, is_this_network_v4, is_cgnat_v4, is_reserved_v4;
    cbn [oct_a oct_b oct_c oct_d]; [rewrite (Hbc eq_refl)|]; gen_tests;
    apply bool_eq_iff; rewrite !orb_true_iff, !andb_true_iff; tauto.
Qed.

Lemma seg_octets s : u16_range s ->
  as_u8 (Z.shiftr s 8) = s / 256 /\ as_u8 (Z.land s 0xff) = s mod 256.
Proof.
  unfold u16_range, as_u8. intros H. rewrite Z.shiftr_div_pow2 by lia.
  change 0xff with (Z.ones 8). rewrite Z.land_ones by lia. change (2 ^ 8) with 256.
  split; [div_lia | apply Z.mod_mod; lia].
Qed.

Lemma octets_of_value hi lo : u16_range hi -> u16_range lo ->
  wf_v4 (Std6.octets_of hi lo) /\ Cidr.v4_value (Std6.octets_of hi lo) = hi * 2 ^ 16 + lo.
Proof.
  intros Hhi Hlo. unfold Std6.octets_of.
  destruct (seg_octets hi Hhi) as [-> ->], (seg_octets lo Hlo) as [-> ->].
  unfold Cidr.v4_value. unfold_ranges. cbn. div_lia.
Qed.

Lemma mask_top_eq (k x base : Z) :
  0 <= k <= 16 -> u16_range x -> base mod 2 ^ k = 0 ->
  (Z.land x (2 ^ 16 - 2 ^ k) =? base) = (x / 2 ^ k =? base / 2 ^ k).
Proof.
  intros Hk Hx Hb. rewrite land_high_mask; [|lia|exact Hx].
  pose proof (Z.pow_pos_nonneg 2 k) as Hp.
  apply Z.div_exact in Hb; [|lia].
  apply eq_bool_prop_intro. rewrite !Is_true_true, !Z.eqb_eq. split; [intros <-|nia].
  rewrite Z.div_mul; lia.
Qed.

(** The 128-bit value of an address, cut at the boundaries the blocks use. *)
Lemma v6_prefixes s0 s1 s2 s3 s4 s5 s6 s7 :
  wf_v6 (mkV6 s0 s1 s2 s3 s4 s5 s6 s7) ->
  let x := Cidr.v6_value (mkV6 s0 s1 s2 s3 s4 s5 s6 s7) in
  x / 2 ^ 112 = s0 /\ x / 2 ^ 80 = s0 * 2 ^ 32 + (s1 * 2 ^ 16 + s2) /\
  x / 2 ^ 32 = s0 * 2 ^ 80 + (s1 * 2 ^ 64 + (s2 * 2 ^ 48 + (s3 * 2 ^ 32 + (s4 * 2 ^ 16 + s5)))) /\
  x mod 2 ^ 32 = s6 * 2 ^ 16 + s7 /\
  (x / 2 ^ 80) mod 2 ^ 32 = s1 * 2 ^ 16 + s2 /\
  (x / 2 ^ 64) mod 2 ^ 16 = s3 /\ (x / 2 ^ 48) mod 2 ^ 8 = s4 mod 256 /\
  (x / 2 ^ 40) mod 2 ^ 8 = s5 / 256.
Proof.
  unfold wf_v6, u16_range, Cidr.v6_value, Cidr.v6_low64.
  cbn [seg0 seg1 seg2 seg3 seg4 seg5 seg6 seg7]. intros Hwf.
  repeat split; div_lia.
Qed.

Lemma hcat_eqb h l h' l' : u16_range l -> u16_range l' ->
  (hcat h l =? hcat h' l') = (h =? h') && (l =? l').
Proof. unfold u16_range, hcat. intros. apply bool_eq_iff. bool_props. lia. Qed.

Lemma pack96_eqb ip a b c d e f : wf_v6 ip ->
  u16_range b -> u16_range c -> u16_range d -> u16_range e -> u16_range f ->
  (pack96 (seg0 ip) (seg1 ip) (seg2 ip) (seg3 ip) (seg4 ip) (seg5 ip) =? pack96 a b c d e f)
  = top6_eqb ip a b c d e f.
Proof. intros (? & ? & ? & ? & ? & ? & ? & ?) ? ? ? ? ?. unfold pack96, top6_eqb. by rewrite !hcat_eqb. Qed.

Lemma in_block_96 ip base a b c d e f : wf_v6 ip ->
  base / 2 ^ (128 - 96) = pack96 a b c d e f ->
  u16_range b -> u16_range c -> u16_range d -> u16_range e -> u16_range f ->
  Cidr.in_block 128 (Cidr.v6_value ip) (base, 96) = top6_eqb ip a b c d e f.
Proof.
  intros Hwf Hb ? ? ? ? ?. unfold Cidr.in_block. rewrite Hb.
  change (128 - 96) with 32.
  rewrite <- pack96_eqb by done. destruct ip as [s0 s1 s2 s3 s4 s5 s6 s7].
  destruct (v6_prefixes _ _ _ _ _ _ _ _ Hwf) as (_ & _ & -> & _).
  f_equal. unfold pack96, hcat. cbn [seg0 seg1 seg2 seg3 seg4 seg5]. lia.
Qed.

Lemma v6_value_small ip n : wf_v6 ip -> u16_range n ->
  (Cidr.v6_value ip =? n) = top6_eqb ip 0 0 0 0 0 0 && (seg6 ip =? 0) && (seg7 ip =? n).
Proof.
  intros Hwf Hn. assert (R0 : u16_range 0) by (unfold u16_range; lia).
  replace (Cidr.v6_value ip) with (hcat (hcat (pack96 (seg0 ip) (seg1 ip) (seg2 ip) (seg3 ip)
    (seg4 ip) (seg5 ip)) (seg6 ip)) (seg7 ip))
    by (unfold Cidr.v6_value, Cidr.v6_low64, pack96, hcat; lia).
  replace n with (hcat (hcat (pack96 0 0 0 0 0 0) 0) n) at 1 by done.
  destruct Hwf as (? & ? & ? & ? & ? & ? & ? & ?) eqn:E. clear E.
  rewrite !hcat_eqb by done. by rewrite pack96_eqb.
Qed.

(** The IPv4 address split around the reserved octet of a /48 prefix. *)
Lemma nat64_local_value s3 s4 s5 : u16_range s3 -> u16_range s4 -> u16_range s5 ->
  let v := mkV4 (as_u8 (Z.shiftr s3 8)) (as_u8 (Z.land s3 0xff))
                (as_u8 (Z.land s4 0xff)) (as_u8 (Z.shiftr s5 8)) in
  wf_v4 v /\ Cidr.v4_value v = s3 * 2 ^ 16 + (s4 mod 256 * 2 ^ 8 + s5 / 256).
Proof.
  intros H3 H4 H5. destruct (seg_octets s3 H3) as [-> ->], (seg_octets s4 H4) as [_ ->],
    (seg_octets s5 H5) as [-> _]. unfold Cidr.v4_value. unfold_ranges. cbn. div_lia.
Qed.

Lemma v6_top_prefixes ip : wf_v6 ip ->
  Cidr.v6_value ip / 2 ^ 120 = seg0 ip / 2 ^ 8 /\
  Cidr.v6_value ip / 2 ^ 121 = seg0 ip / 2 ^ 9 /\
  Cidr.v6_value ip / 2 ^ 118 = seg0 ip / 2 ^ 6.
Proof.
  intros Hwf. destruct ip as [s0 s1 s2 s3 s4 s5 s6 s7].
  destruct (v6_prefixes _ _ _ _ _ _ _ _ Hwf) as (P & _).
  assert (H : forall k, 0 <= k -> Cidr.v6_value (mkV6 s0 s1 s2 s3 s4 s5 s6 s7) / 2 ^ (112 + k) = s0 / 2 ^ k).
  { intros k Hk. rewrite Z.pow_add_r, <- Z.div_div, P by lia. done. }
  split; [apply (H 8)|split; [apply (H 9)|apply (H 6)]]; lia.
Qed.

(** The numeric decoding of a transition address agrees with the two [Option]s
    the classifier consults, in their order. *)
Lemma carried_eq ip : wf_v6 ip ->
  match Cidr.carried (Cidr.v6_value ip) with
  | Some x => exists v, wf_v4 v /\ Cidr.v4_value v = x /\
                (Std6.to_ipv4_mapped ip = Some v \/
                 Std6.to_ipv4_mapped ip = None /\ embedded_transition_v4 ip = Some v)
  | None => Std6.to_ipv4_mapped ip = None /\ embedded_transition_v4 ip = None
  end.
Proof.
  intros Hwf. assert (u16_range 0 /\ u16_range 1 /\ u16_range 0xffff /\ u16_range 0x64
    /\ u16_range 0xff9b) as (R0 & R1 & Rf & R64 & R9b) by (unfold u16_range; lia).
  pose proof (in_block_96 ip (0xffff * 2 ^ 32) 0 0 0 0 0 0xffff Hwf eq_refl
                R0 R0 R0 R0 Rf) as B1.
  pose proof (in_block_96 ip 0 0 0 0 0 0 0 Hwf eq_refl R0 R0 R0 R0 R0) as B2.
  pose proof (in_block_96 ip (0xffff * 2 ^ 48) 0 0 0 0 0xffff 0 Hwf eq_refl
                R0 R0 R0 Rf R0) as B3.
  pose proof (in_block_96 ip (0x64ff9b * 2 ^ 96) 0x64 0xff9b 0 0 0 0 Hwf eq_refl
                R9b R0 R0 R0 R0) as B4.
  unfold Cidr.carried. rewrite B1, B2, B3, B4.
  rewrite !v6_value_small by done.
  destruct ip as [s0 s1 s2 s3 s4 s5 s6 s7].
  destruct (v6_prefixes _ _ _ _ _ _ _ _ Hwf) as (P112 & P80 & _ & M32 & M80 & M64 & M48 & M40).
  rewrite M32, M80, M64, M48, M40. unfold Cidr.in_block.
  change (128 - 48) with 80. change (128 - 16) with 112. rewrite P112, P80.
  destruct Hwf as (H0 & H1 & H2 & H3 & H4 & H5 & H6 & H7).
  cbn [seg0 seg1 seg2 seg3 seg4 seg5 seg6 seg7] in *.
  destruct (octets_of_value s6 s7 H6 H7) as [Wt Vt].
  destruct (octets_of_value s1 s2 H1 H2) as [W6 V6].
  unfold Std6.to_ipv4_mapped, embedded_transition_v4, Std6.is_unspecified, Std6.is_loopback.
  cbn [seg0 seg1 seg2 seg3 seg4 seg5 seg6 seg7].
  change (0x64ff9b0001 * 2 ^ 80 / 2 ^ 80) with (hcat (hcat 0x64 0xff9b) 1).
  change (0x2002 * 2 ^ 112 / 2 ^ 112) with 0x2002.
  replace (s0 * 2 ^ 32 + (s1 * 2 ^ 16 + s2)) with (hcat (hcat s0 s1) s2) by (unfold hcat; lia).
  rewrite !hcat_eqb by done.
  destruct (nat64_local_value s3 s4 s5 H3 H4 H5) as [Wl Vl].
  destruct (top6_eqb _ 0 0 0 0 0 0xffff); [by eauto 10|].
  destruct (_ && _ && _); [by eauto 10|].
  destruct (top6_eqb _ 0 0 0 0 0xffff 0); [by eauto 10|].
  replace ((s0 =? 0x64) && (s1 =? 0xff9b) && ((s2 =? 0) && (s3 =? 0) && (s4 =? 0) && (s5 =? 0)))
    with (top6_eqb (mkV6 s0 s1 s2 s3 s4 s5 s6 s7) 0x64 0xff9b 0 0 0 0)
    by (unfold top6_eqb; cbn [seg0 seg1 seg2 seg3 seg4 seg5]; by rewrite !andb_assoc).
  destruct (top6_eqb _ 0x64 0xff9b 0 0 0 0); [by eauto 10|].
  destruct (_ && _ && _); [by eauto 10|].
  destruct (s0 =? 0x2002); by eauto 10.
Qed.

Lemma denied128_eq ip : wf_v6 ip -> Cidr.denied128 (Cidr.v6_value ip) = is_denied_v6 ip.
Proof.
  intros Hwf. assert (u16_range 0 /\ u16_range 1) as (R0 & R1) by (unfold u16_range; lia).
  pose proof (v6_value_small ip 1 Hwf R1) as L1. pose proof (v6_value_small ip 0 Hwf R0) as L0.
  unfold Cidr.denied128, Cidr.denied_v6_blocks, existsb, Cidr.in_block.
  change (2 ^ (128 - 128)) with 1. rewrite !Z.div_1_r, L1, L0.
  destruct (v6_top_prefixes ip Hwf) as (T8 & T7 & T10).
  change (128 - 8) with 120. change (128 - 7) with 121. change (128 - 10) with 118.
  rewrite T8, T7, T10.
  assert (Hs : u16_range (seg0 ip)) by apply Hwf.
  unfold is_denied_v6, Std6.is_loopback, Std6.is_unspecified, Std6.is_multicast,
    is_unique_local_v6, is_link_local_v6, is_site_local_v6.
  change 0xfe00 with (2 ^ 16 - 2 ^ 9). change 0xffc0 with (2 ^ 16 - 2 ^ 6).
  change (Z.land (seg0 ip) 0xff00) with (Z.land (seg0 ip) (2 ^ 16 - 2 ^ 8)).
  rewrite !mask_top_eq by (done || lia).
  by rewrite orb_false_r, !orb_assoc.
Qed.

Lemma octets_of_pack v : wf_v4 v ->
  Std6.octets_of (oct_a v * 256 + oct_b v) (oct_c v * 256 + oct_d v) = v.
Proof.
  destruct v as [a b c d]. unfold_ranges. cbn [oct_a oct_b oct_c oct_d]. intros Hv.
  unfold Std6.octets_of.
  destruct (seg_octets (a * 256 + b)) as [-> ->]; [unfold u16_range; lia|].
  destruct (seg_octets (c * 256 + d)) as [-> ->]; [unfold u16_range; lia|].
  f_equal; div_lia.
Qed.

Lemma nat64_local_octets_pack v u low : wf_v4 v -> u8_range u -> u8_range low ->
  nat64_local_octets (oct_a v * 256 + oct_b v) (u * 256 + oct_c v) (oct_d v * 256 + low) = v.
Proof.
  destruct v as [a b c d]. unfold_ranges. cbn [oct_a oct_b oct_c oct_d]. intros Hv Hu Hl.
  unfold nat64_local_octets.
  destruct (seg_octets (a * 256 + b)) as [-> ->]; [unfold u16_range; lia|].
  destruct (seg_octets (u * 256 + c)) as [_ ->]; [unfold u16_range; lia|].
  destruct (seg_octets (d * 256 + low)) as [-> _]; [unfold u16_range; lia|].
  f_equal; div_lia.
Qed.

(** ::a.b.c.d: the two addresses left to the IPv6 predicates, :: and ::1, carry
    0.0.0.0 and 0.0.0.1, and both are denied on either side. *)
Lemma compatible_denied v : wf_v4 v ->
  is_denied_range (V6 (embed EncCompatible v)) = is_denied_v4 v.
Proof.
  intros Hv. pose proof (octets_of_pack v Hv) as Hp.
  unfold is_denied_range, embed, embedded_transition_v4, is_denied_v6, Std6.to_ipv4_mapped,
    Std6.is_unspecified, Std6.is_loopback, top6_eqb.
  cbn [seg0 seg1 seg2 seg3 seg4 seg5 seg6 seg7]. rewrite Hp.
  change (0 =? 0xffff) with false. change (0 =? 0) with true. cbn [andb].
  destruct (oct_a v * 256 + oct_b v =? 0) eqn:Ehi; cbn [andb negb]; [|done].
  assert (Hz : is_this_network_v4 v = true).
  { apply Z.eqb_eq in Ehi. unfold is_this_network_v4. apply Z.eqb_eq.
    destruct Hv as (Ha & Hb & _). unfold u8_range in *. lia. }
  assert (Hd : is_denied_v4 v = true) by (unfold is_denied_v4; rewrite Hz, !orb_true_r; done).
  rewrite Hd. destruct (oct_c v * 256 + oct_d v =? 0), (oct_c v * 256 + oct_d v =? 1); done.
Qed.

(** * Theorems *)

(** C18. The classifier decides exactly the deny list its comments announce: for
    every well-formed address, [is_denied_range] answers what the CIDR blocks
    answer on the 32-bit / 128-bit integer value of the address, an IPv6 address
    that carries an IPv4 one (mapped, compatible, translated, both NAT64
    prefixes, 6to4) being judged by the IPv4 address it carries. *)
Theorem is_denied_range_cidr (ip : IpAddr) : wf_ip ip -> is_denied_range ip = Cidr.denied ip.
Proof.
  destruct ip as [v|v]; intros Hwf; simpl; [by rewrite denied32_eq|].
  pose proof (carried_eq v Hwf) as Hc.
  destruct (Cidr.carried _) as [x|].
  - destruct Hc as (w & Hw & <- & [-> | [-> ->]]); by rewrite denied32_eq.
  - destruct Hc as [-> ->]. by rewrite denied128_eq.
Qed.

Lemma is_denied_range_cidr_witness :
  wf_ip (V6 (mkV6 0x64 0xff9b 1 0xc0a8 0x2200 0x0700 0 0)) /\
  is_denied_range (V6 (mkV6 0x64 0xff9b 1 0xc0a8 0x2200 0x0700 0 0))
  = Cidr.denied (V6 (mkV6 0x64 0xff9b 1 0xc0a8 0x2200 0x0700 0 0)).
Proof.
  assert (H : wf_ip (V6 (mkV6 0x64 0xff9b 1 0xc0a8 0x2200 0x0700 0 0)))
    by (cbn; unfold wf_v6, u16_range; cbn; lia).
  split; [exact H | exact (is_denied_range_cidr _ H)].
Defined.

(** No private address can hide in a transition encoding: whichever of the
    fixed-prefix encodings carries it, and whatever the bits the encoding leaves
    free, an embedded IPv4 address is denied exactly when it would be denied as
    itself. *)
Theorem embedded_v4_not_smuggled (e : Encoding) (v : Ipv4Addr) :
  wf_encoding e -> wf_v4 v -> is_denied_range (V6 (embed e v)) = is_denied_range (V4 v).
Proof.
  intros He Hv. pose proof (octets_of_pack v Hv) as Hp.
  destruct e as [| | | |u low rest|s3 s4 s5 s6 s7]; unfold is_denied_range, embed.
  - change (is_denied_v4 (Std6.octets_of (oct_a v * 256 + oct_b v) (oct_c v * 256 + oct_d v))
            = is_denied_v4 v). by rewrite Hp.
  - by apply compatible_denied.
  - change (is_denied_v4 (Std6.octets_of (oct_a v * 256 + oct_b v) (oct_c v * 256 + oct_d v))
            = is_denied_v4 v). by rewrite Hp.
  - change (is_denied_v4 (Std6.octets_of (oct_a v * 256 + oct_b v) (oct_c v * 256 + oct_d v))
            = is_denied_v4 v). by rewrite Hp.
  - destruct He as (Hu & Hl & _).
    change (is_denied_v4 (nat64_local_octets (oct_a v * 256 + oct_b v) (u * 256 + oct_c v)
              (oct_d v * 256 + low)) = is_denied_v4 v).
    by rewrite nat64_local_octets_pack.
  - change (is_denied_v4 (Std6.octets_of (oct_a v * 256 + oct_b v) (oct_c v * 256 + oct_d v))
            = is_denied_v4 v). by rewrite Hp.
Qed.

Lemma embedded_v4_not_smuggled_witness :
  is_denied_range (V6 (embed (EncNat64Local 7 9 1) (mkV4 192 168 0 1)))
  = is_denied_range (V4 (mkV4 192 168 0 1)).
Proof.
  apply (embedded_v4_not_smuggled (EncNat64Local 7 9 1) (mkV4 192 168 0 1));
    cbn; unfold wf_v4, u8_range; cbn; lia.
Defined.
