(* ===== verification/Fingerprint.v ===== *)
(** Secret fingerprints (src/leak-scan/src/fingerprint.rs): length, 64-bit Rabin
    polynomial hash and SHA-256 of a secret value, and the rolling identity both
    scanners rest on.  SHA-256 itself is the third-party crate [sha2]: the
    interface [Sha256] gives the digest function and its 32-byte length. *)

From stdpp Require Import base list numbers gmap sets.
From Stdlib Require Import ZArith Lia.
From S2P Require Import Prelude RustStr.
Local Open Scope Z_scope.

Class Sha256 := {
  sha256 : bytes -> bytes;
  sha256_length : forall b, length (sha256 b) = 32%nat;
  sha256_bytes : forall b, Forall (fun x => 0 <= x < 256) (sha256 b);
}.

(** A digest function for concrete evaluations: the value's first bytes. *)
Definition demo_digest (b : bytes) : bytes :=
  take 32 (((fun x => x mod 256) <$> b) ++ replicate 32 0).

#[refine] Instance demo_sha256 : Sha256 := {| sha256 := demo_digest |}.
Proof.
  - intros b. unfold demo_digest. rewrite length_take, length_app, length_replicate. lia.
  - intros b. unfold demo_digest. apply Forall_take, Forall_app. split.
    + apply Forall_fmap, Forall_true. intros x. simpl. apply Z.mod_pos_bound. lia.
    + apply Forall_replicate. lia.
Defined.

Definition MIN_SECRET_LEN : nat := 8.
Definition MAX_SECRET_LEN : nat := 16 * 1024.
Definition RABIN_BASE : Z := 257.

Record SecretFingerprint := mkFp { fp_len : nat; fp_fp64 : Z; fp_sha256 : bytes }.

Fixpoint pow_loop (n : nat) (p : Z) : Z :=
  match n with O => p | S n' => pow_loop n' (wrapping_mul p RABIN_BASE) end.

Definition pow_base (len : nat) : Z := pow_loop (len - 1) 1.

(** [{b:02x}] for each byte. *)
Definition sha256_hex (d : bytes) : bytes := flat_map (hex_fixed 2) d.

Definition poly_step (h b : Z) : Z := wrapping_add (wrapping_mul h RABIN_BASE) b.

Definition poly (b : bytes) : Z := fold_left poly_step b 0.

(** One step of the rolling window: drop [out], shift, add [b]. *)
Definition roll (cur pow out b : Z) : Z :=
  wrapping_add (wrapping_mul (wrapping_sub cur (wrapping_mul out pow)) RABIN_BASE) b.

Definition fingerprint_value `{Sha256} (value : bytes) : option SecretFingerprint :=
  if (length value <? MIN_SECRET_LEN)%nat || (MAX_SECRET_LEN <? length value)%nat
  then None
  else Some (mkFp (length value) (poly value) (sha256 value)).

(** The table both scanners build: length, then [fp64], then the digests. *)
Abbreviation Targets := (gmap Z (list bytes)).
Abbreviation ByLen := (gmap nat Targets).

Definition add_target (m : ByLen) (p : SecretFingerprint) : ByLen :=
  let inner := default ∅ (m !! fp_len p) in
  let shas := default [] (inner !! fp_fp64 p) in
  <[fp_len p := <[fp_fp64 p := shas ++ [fp_sha256 p]]> inner]> m.

Definition group_by_len (keep : SecretFingerprint -> bool) (ps : list SecretFingerprint) : ByLen :=
  fold_left add_target (List.filter keep ps) ∅.

(** The digests filed under one [fp64]. *)
Definition shas_at (t : Targets) (h : Z) : list bytes := default [] (t !! h).

(** * Lemmas: the polynomial hash *)

(** The hash over the integers, before reduction modulo [2^64]. *)
Definition polyZ (b : bytes) : Z := fold_left (fun h x => h * 257 + x) b 0.

Lemma poly_fold b h : wrap64 (fold_left (fun h x => h * 257 + x) b h) = fold_left poly_step b (wrap64 h).
Proof.
  revert h. induction b as [|x b IH]; intros h; simpl; [done|]. rewrite IH. f_equal.
  unfold poly_step, wrapping_add, wrapping_mul, wrap64, RABIN_BASE.
  rewrite Z.mul_mod_idemp_l, Z.add_mod_idemp_l by lia. done.
Qed.

Lemma poly_polyZ b : poly b = wrap64 (polyZ b).
Proof. unfold poly, polyZ. by rewrite poly_fold. Qed.

Lemma polyZ_snoc b x : polyZ (b ++ [x]) = polyZ b * 257 + x.
Proof. unfold polyZ. by rewrite fold_left_app. Qed.

Lemma polyZ_cons x b : polyZ (x :: b) = x * 257 ^ Z.of_nat (length b) + polyZ b.
Proof.
  induction b as [|y b IH] using rev_ind; [cbn; lia|].
  rewrite app_comm_cons, !polyZ_snoc, IH, length_app, Nat.add_1_r.
  rewrite Nat2Z.inj_succ, Z.pow_succ_r by lia. lia.
Qed.

Lemma pow_loop_wrap n p : pow_loop n (wrap64 p) = wrap64 (p * 257 ^ Z.of_nat n).
Proof.
  revert p. induction n as [|n IH]; intros p.
  - simpl. by rewrite Z.mul_1_r.
  - cbn [pow_loop]. unfold wrapping_mul at 1.
    replace (wrap64 (wrap64 p * RABIN_BASE)) with (wrap64 (p * 257))
      by (unfold wrap64, RABIN_BASE; by rewrite Z.mul_mod_idemp_l by lia).
    rewrite IH. f_equal. rewrite Nat2Z.inj_succ, Z.pow_succ_r by lia. lia.
Qed.

Lemma pow_base_eq n : pow_base (S n) = wrap64 (257 ^ Z.of_nat n).
Proof.
  unfold pow_base. replace (S n - 1)%nat with n by lia.
  change 1 with (wrap64 1). rewrite pow_loop_wrap. f_equal. lia.
Qed.

(** Rolling the hash of a window by one byte gives the hash of the next window. *)
Lemma roll_poly out w b :
  roll (poly (out :: w)) (pow_base (S (length w))) out b = poly (w ++ [b]).
Proof.
  rewrite !poly_polyZ, pow_base_eq, polyZ_snoc, polyZ_cons.
  unfold roll, wrapping_add, wrapping_mul, wrapping_sub, wrap64, RABIN_BASE.
  set (m := 18446744073709551616). set (q := 257 ^ Z.of_nat (length w)).
  assert (Hm : m <> 0) by done.
  rewrite (Z.mul_mod_idemp_r out q m Hm).
  rewrite <- Zminus_mod. replace (out * q + polyZ w - out * q) with (polyZ w) by lia.
  rewrite (Z.mul_mod_idemp_l (polyZ w) 257 m Hm).
  by rewrite (Z.add_mod_idemp_l _ b m Hm).
Qed.

Lemma poly_range b : u64_range (poly b).
Proof. rewrite poly_polyZ. auto with kast. Qed.

(** * Lemmas: the target table *)

(** [t] holds, for the patterns [ps] of length [n], every digest under its hash. *)
Definition targets_ok (n : nat) (ps : list SecretFingerprint) (t : Targets) : Prop :=
  forall h d, d ∈ shas_at t h <-> exists p, p ∈ ps /\ fp_len p = n /\ fp_fp64 p = h /\ fp_sha256 p = d.

Lemma add_target_inner m p n h d :
  d ∈ shas_at (default ∅ (add_target m p !! n)) h <->
  d ∈ shas_at (default ∅ (m !! n)) h \/ (n = fp_len p /\ h = fp_fp64 p /\ d = fp_sha256 p).
Proof.
  unfold add_target, shas_at.
  destruct (decide (n = fp_len p)) as [-> | Hn].
  - rewrite lookup_insert_eq. simpl.
    destruct (decide (h = fp_fp64 p)) as [-> | Hh].
    + rewrite lookup_insert_eq. simpl. rewrite elem_of_app, list_elem_of_singleton. naive_solver.
    + rewrite lookup_insert_ne by done. naive_solver.
  - rewrite lookup_insert_ne by done. naive_solver.
Qed.

Lemma add_target_dom m p n :
  is_Some (add_target m p !! n) <-> is_Some (m !! n) \/ n = fp_len p.
Proof.
  unfold add_target. rewrite lookup_insert_is_Some.
  destruct (decide (n = fp_len p)); naive_solver.
Qed.

Lemma group_fold ps m n :
  (is_Some (fold_left add_target ps m !! n) <->
     is_Some (m !! n) \/ exists p, p ∈ ps /\ fp_len p = n) /\
  (forall h d, d ∈ shas_at (default ∅ (fold_left add_target ps m !! n)) h <->
     d ∈ shas_at (default ∅ (m !! n)) h \/
     exists p, p ∈ ps /\ fp_len p = n /\ fp_fp64 p = h /\ fp_sha256 p = d).
Proof.
  revert m. induction ps as [|q ps IH]; intros m; simpl.
  - split; [|intros h d]; set_solver.
  - destruct (IH (add_target m q)) as [IH1 IH2]. split.
    + rewrite IH1, add_target_dom. set_solver.
    + intros h d. rewrite IH2, add_target_inner. set_solver.
Qed.

Lemma group_by_len_dom keep ps n :
  is_Some (group_by_len keep ps !! n) <-> exists p, p ∈ ps /\ keep p = true /\ fp_len p = n.
Proof.
  unfold group_by_len. rewrite (proj1 (group_fold _ _ _)), lookup_empty.
  setoid_rewrite list_elem_of_In. setoid_rewrite filter_In.
  split; [intros [[? ?]|(p & ? & ?)]; [done|naive_solver]|naive_solver].
Qed.

Lemma group_by_len_targets keep ps n t :
  group_by_len keep ps !! n = Some t -> targets_ok n (List.filter keep ps) t.
Proof.
  intros Ht h d. destruct (group_fold (List.filter keep ps) ∅ n) as [_ H]. specialize (H h d).
  unfold group_by_len in Ht. rewrite Ht in H. simpl in H. rewrite H, lookup_empty.
  unfold shas_at at 1. simpl. rewrite lookup_empty. set_solver.
Qed.
