(* ===== verification/RollingMatcher.v ===== *)
(** The streaming credential-leak matcher (src/leak-scan/src/matcher.rs).

    The matcher state is the source's: one [LenGroup] per distinct secret length
    with its rolling hash, a ring of the last [maxLen + 1] bytes and the count of
    bytes fed.  [feed] mutates all three, so each operation returns the new
    state; a [HashMap] is iterated in an arbitrary order, which is the parameter
    [iter_order], any function that permutes its argument.  Byte counts are
    [nat]: the model is that of a stream shorter than 2^64 bytes. *)

From stdpp Require Import base list numbers gmap sets strings.
From Stdlib Require Import ZArith Lia.
From S2P Require Import Prelude RustStr Fingerprint.
Local Open Scope nat_scope.

Record LeakHit := mkHit { hit_sha256_hex : bytes; hit_offset : nat }.

Record LenGroup := mkGroup {
  g_len : nat; g_pow : Z; g_cur : Z; g_primed : bool; g_targets : Targets }.

Record RollingMatcher := mkMatcher {
  m_groups : list LenGroup; m_ring : bytes; m_cap : nat; m_fed : nat }.

Section Matcher.
Context `{Sha256}.
Variable iter_order : list (nat * Targets) -> list (nat * Targets).
Hypothesis iter_order_perm : forall l, iter_order l ≡ₚ l.

Definition max_key (m : ByLen) : nat := fold_right Nat.max 0 (fst <$> map_to_list m).

Definition new_group (e : nat * Targets) : LenGroup :=
  mkGroup e.1 (pow_base e.1) 0%Z false e.2.

Definition new (patterns : list SecretFingerprint) : RollingMatcher :=
  let by_len := group_by_len (fun p => 0 <? fp_len p) patterns in
  let cap := Nat.max (max_key by_len + 1) 1 in
  mkMatcher (new_group <$> iter_order (map_to_list by_len)) (replicate cap 0%Z) cap 0.

Definition is_empty (m : RollingMatcher) : bool :=
  match m_groups m with [] => true | _ => false end.

(** Copy the [len]-byte window ending at absolute index [i] out of the ring. *)
Definition read_window (ring : bytes) (cap i len : nat) : bytes :=
  (fun k => nth ((i + 1 - len + k) mod cap) ring 0%Z) <$> seq 0 len.

Definition window_poly (ring : bytes) (cap i len : nat) : Z := poly (read_window ring cap i len).

(** The rolling hash of one group once byte [b] sits at absolute index [i]. *)
Definition group_cur (ring : bytes) (cap i : nat) (b : Z) (g : LenGroup) : Z :=
  if g_primed g
  then roll (g_cur g) (g_pow g) (nth ((i - g_len g) mod cap) ring 0%Z) b
  else window_poly ring cap i (g_len g).

(** The inner loop over the length groups: the groups after the one that
    confirms a leak are left as they were. *)
Fixpoint feed_groups (ring : bytes) (cap i : nat) (b : Z) (gs : list LenGroup)
    : list LenGroup * option LeakHit :=
  match gs with
  | [] => ([], None)
  | g :: gs' =>
      if i + 1 <? g_len g then
        let '(r, h) := feed_groups ring cap i b gs' in (g :: r, h)
      else
        let cur := group_cur ring cap i b g in
        let g' := mkGroup (g_len g) (g_pow g) cur true (g_targets g) in
        let window := read_window ring cap i (g_len g) in
        if bool_decide (sha256 window ∈ shas_at (g_targets g) cur)
        then (g' :: gs', Some (mkHit (sha256_hex (sha256 window)) (i + 1 - g_len g)))
        else let '(r, h) := feed_groups ring cap i b gs' in (g' :: r, h)
  end.

(** One byte of the outer loop. *)
Definition feed_byte (m : RollingMatcher) (b : Z) : RollingMatcher * option LeakHit :=
  let i := m_fed m in
  let ring := <[i mod m_cap m := b]> (m_ring m) in
  let '(gs, hit) := feed_groups ring (m_cap m) i b (m_groups m) in
  match hit with
  | Some h => (mkMatcher gs ring (m_cap m) i, Some h)
  | None => (mkMatcher gs ring (m_cap m) (i + 1), None)
  end.

Fixpoint feed_loop (m : RollingMatcher) (chunk : bytes) : RollingMatcher * option LeakHit :=
  match chunk with
  | [] => (m, None)
  | b :: rest =>
      match feed_byte m b with
      | (m', Some h) => (m', Some h)
      | (m', None) => feed_loop m' rest
      end
  end.

Definition feed (m : RollingMatcher) (chunk : bytes) : RollingMatcher * option LeakHit :=
  if is_empty m
  then (mkMatcher (m_groups m) (m_ring m) (m_cap m) (m_fed m + length chunk), None)
  else feed_loop m chunk.

(** Feeding successive chunks, stopping at the first leak as the relay does. *)
Fixpoint feed_chunks (m : RollingMatcher) (cs : list bytes) : RollingMatcher * option LeakHit :=
  match cs with
  | [] => (m, None)
  | c :: rest =>
      match feed m c with
      | (m', Some h) => (m', Some h)
      | (m', None) => feed_chunks m' rest
      end
  end.

(** ** Reference definition *)

(** The [len] bytes of [s] that end just before position [e]. *)
Definition window_at (s : bytes) (e len : nat) : bytes := take len (drop (e - len) s).

(** Pattern [p] is confirmed in the window of [s] that ends at [e]. *)
Definition leak_at (p : SecretFingerprint) (s : bytes) (e : nat) : Prop :=
  0 < fp_len p <= e /\ e <= length s /\
  poly (window_at s e (fp_len p)) = fp_fp64 p /\
  sha256 (window_at s e (fp_len p)) = fp_sha256 p.

(** * Lemmas *)

(** What a length group has to satisfy after the stream [s]. *)
Definition group_ok (ps : list SecretFingerprint) (cap : nat) (s : bytes) (g : LenGroup) : Prop :=
  0 < g_len g < cap /\ g_pow g = pow_base (g_len g) /\
  targets_ok (g_len g) ps (g_targets g) /\
  (if decide (g_len g <= length s)
   then g_primed g = true /\ g_cur g = poly (drop (length s - g_len g) s)
   else g_primed g = false).

(** The ring holds the last [cap] bytes of [s]. *)
Definition ring_ok (cap : nat) (s ring : bytes) : Prop :=
  0 < cap /\ length ring = cap /\
  forall j, j < length s -> length s <= j + cap -> ring !! (j mod cap) = s !! j.

(** The invariant of the matcher for patterns [ps] after stream [s]. *)
Definition matcher_ok (ps : list SecretFingerprint) (s : bytes) (m : RollingMatcher) : Prop :=
  m_fed m = length s /\ (m_groups m <> [] -> ring_ok (m_cap m) s (m_ring m)) /\
  Forall (group_ok ps (m_cap m) s) (m_groups m) /\
  (forall p, p ∈ ps -> 0 < fp_len p -> exists g, g ∈ m_groups m /\ g_len g = fp_len p).

Lemma mod_inj_window cap i j : 0 < cap -> i mod cap = j mod cap -> i <= j -> j < i + cap -> i = j.
Proof.
  intros Hc Hm Hle Hlt. pose proof (Nat.div_mod_eq i cap). pose proof (Nat.div_mod_eq j cap).
  assert (i / cap = j / cap) by nia. lia.
Qed.

Lemma ring_store cap s ring b :
  ring_ok cap s ring -> ring_ok cap (s ++ [b]) (<[length s mod cap := b]> ring).
Proof.
  intros (Hc & Hl & Hr). split; [done|]. split; [by rewrite length_insert|].
  rewrite length_app. simpl. intros j Hj Hw.
  destruct (decide (j = length s)) as [-> | Hne].
  - rewrite list_lookup_insert_eq by (rewrite Hl; apply Nat.mod_upper_bound; lia).
    by rewrite lookup_app_r, Nat.sub_diag by lia.
  - rewrite list_lookup_insert_ne.
    + rewrite lookup_app_l by lia. apply Hr; lia.
    + intros Heq. apply Hne, (mod_inj_window cap); [done|by symmetry|lia|lia].
Qed.

Lemma ring_nth cap s ring j :
  ring_ok cap s ring -> j < length s -> length s <= j + cap ->
  nth (j mod cap) ring 0%Z = nth j s 0%Z.
Proof.
  intros (_ & _ & Hr) Hj Hw. specialize (Hr j Hj Hw).
  by rewrite !nth_lookup, Hr.
Qed.

Lemma read_window_ok cap s ring i len :
  ring_ok cap s ring -> length s = i + 1 -> len <= length s -> len <= cap ->
  read_window ring cap i len = drop (length s - len) s.
Proof.
  intros Hr Hs Hlen Hcap. unfold read_window. apply list_eq. intros k.
  rewrite list_lookup_fmap, lookup_drop.
  destruct (decide (k < len)) as [Hk | Hk].
  - rewrite lookup_seq_lt by done. simpl.
    rewrite (ring_nth cap s) by (done || lia).
    destruct (nth_lookup_or_length s (i + 1 - len + k) 0%Z) as [E|]; [|lia].
    rewrite <- E. f_equal. lia.
  - rewrite lookup_seq_ge by lia. simpl. symmetry. apply lookup_ge_None_2. lia.
Qed.

Lemma window_at_end s len : window_at s (length s) len = drop (length s - len) s.
Proof. unfold window_at. apply take_ge. rewrite length_drop. lia. Qed.

(** The rolled hash is the hash of the window that now ends the stream. *)
Lemma group_cur_ok ps cap s ring b g :
  ring_ok cap (s ++ [b]) ring -> group_ok ps cap s g -> g_len g <= length s + 1 ->
  group_cur ring cap (length s) b g = poly (window_at (s ++ [b]) (length s + 1) (g_len g)).
Proof.
  intros Hr (Hlen & Hpow & _ & Hst) Hle. unfold group_cur.
  replace (length s + 1) with (length (s ++ [b])) by (rewrite length_app; simpl; lia).
  rewrite window_at_end. case_decide as Hd.
  - destruct Hst as [-> ->]. rewrite Hpow.
    assert (Hw : drop (length s - g_len g) s
                 = nth (length s - g_len g) s 0%Z :: drop (S (length s - g_len g)) s).
    { destruct (nth_lookup_or_length s (length s - g_len g) 0%Z) as [E|]; [|lia].
      by apply drop_S. }
    rewrite Hw, (ring_nth cap (s ++ [b])) by (done || rewrite length_app; simpl; lia).
    rewrite app_nth1 by lia.
    assert (Hpl : pow_base (g_len g) = pow_base (S (length (drop (S (length s - g_len g)) s))))
      by (f_equal; rewrite length_drop; lia).
    rewrite Hpl, roll_poly. f_equal. rewrite drop_app_le by (rewrite length_app; simpl; lia).
    f_equal. f_equal. rewrite length_app. simpl. lia.
  - rewrite Hst. unfold window_poly.
    rewrite (read_window_ok cap (s ++ [b])); rewrite ?length_app; simpl; done || lia.
Qed.

Definition leak_hit (p : SecretFingerprint) (e : nat) : LeakHit :=
  mkHit (sha256_hex (fp_sha256 p)) (e - fp_len p).

Lemma group_ok_snoc ps cap s b ring g :
  ring_ok cap (s ++ [b]) ring -> group_ok ps cap s g ->
  group_ok ps cap (s ++ [b])
    (if length s + 1 <? g_len g then g
     else mkGroup (g_len g) (g_pow g) (group_cur ring cap (length s) b g) true (g_targets g)).
Proof.
  intros Hr Hg. pose proof Hg as (Hlen & Hpow & Ht & Hst).
  destruct (Nat.ltb_spec (length s + 1) (g_len g)) as [Hlt | Hge].
  - split_and!; [lia|lia|done|done|]. rewrite length_app. simpl.
    rewrite decide_False by lia. by rewrite decide_False in Hst by lia.
  - split_and!; simpl; [lia|lia|done|done|]. rewrite length_app. simpl.
    rewrite decide_True by lia. split; [done|].
    rewrite (group_cur_ok ps) by done.
    replace (length s + 1) with (length (s ++ [b])) by (rewrite length_app; simpl; lia).
    apply f_equal, window_at_end.
Qed.

(** A group confirms a leak exactly when one of its patterns ends here. *)
Lemma group_confirms ps cap s b ring g :
  ring_ok cap (s ++ [b]) ring -> group_ok ps cap s g -> g_len g <= length s + 1 ->
  let w := read_window ring cap (length s) (g_len g) in
  sha256 w ∈ shas_at (g_targets g) (group_cur ring cap (length s) b g) <->
  exists p, p ∈ ps /\ fp_len p = g_len g /\ leak_at p (s ++ [b]) (length s + 1)
            /\ fp_sha256 p = sha256 w.
Proof.
  intros Hr Hg Hle w. pose proof Hg as (Hlen & _ & Ht & _).
  assert (Hs : length (s ++ [b]) = length s + 1) by (rewrite length_app; simpl; lia).
  assert (Hw : w = window_at (s ++ [b]) (length s + 1) (g_len g)).
  { subst w. rewrite (read_window_ok cap (s ++ [b])) by (done || lia).
    rewrite <- Hs. symmetry. apply window_at_end. }
  rewrite (Ht _ _), (group_cur_ok ps) by done. rewrite Hw.
  split; intros (p & Hp & Hpl & Hrest); exists p; unfold leak_at in *; rewrite Hpl in *;
    naive_solver lia.
Qed.

Lemma feed_groups_spec ps cap s b ring gs :
  ring_ok cap (s ++ [b]) ring -> Forall (group_ok ps cap s) gs ->
  match feed_groups ring cap (length s) b gs with
  | (gs', None) =>
      Forall (group_ok ps cap (s ++ [b])) gs' /\ g_len <$> gs' = g_len <$> gs /\
      (forall p g, p ∈ ps -> g ∈ gs -> fp_len p = g_len g -> ~ leak_at p (s ++ [b]) (length s + 1))
  | (gs', Some h) =>
      g_len <$> gs' = g_len <$> gs /\
      exists p, p ∈ ps /\ leak_at p (s ++ [b]) (length s + 1) /\ h = leak_hit p (length s + 1)
  end.
Proof.
  intros Hr. induction 1 as [|g gs Hg Hgs IH]; simpl; [set_solver|].
  pose proof (group_ok_snoc ps cap s b ring g Hr Hg) as Hg'.
  destruct (Nat.ltb_spec (length s + 1) (g_len g)) as [Hlt | Hge].
  - destruct (feed_groups _ _ _ _ _) as [r [h|]];
      [destruct IH as [IH1 IH2]; by rewrite !fmap_cons, IH1|].
    destruct IH as (IH1 & IH2 & IH3). split_and!; [by constructor | by rewrite !fmap_cons, IH2 |].
    intros p g0 Hp [-> | Hg0]%elem_of_cons Heq; [|by eapply IH3].
    unfold leak_at. lia.
  - pose proof (group_confirms ps cap s b ring g Hr Hg Hge) as Hc. cbv zeta in Hc.
    case_bool_decide as Hin.
    + apply Hc in Hin as (p & Hp & Hpl & Hleak & Hsha). split; [done|].
      exists p. split_and!; [done|done|]. unfold leak_hit. by rewrite Hsha, Hpl.
    + destruct (feed_groups _ _ _ _ _) as [r [h|]];
      [destruct IH as [IH1 IH2]; by rewrite !fmap_cons, IH1|].
      destruct IH as (IH1 & IH2 & IH3). split_and!; [by constructor | by rewrite !fmap_cons, IH2 |].
      intros p g0 Hp [-> | Hg0]%elem_of_cons Heq Hleak; [|by eapply IH3].
      apply Hin, Hc. exists p. split_and!; [done|done|done|].
      destruct Hleak as (_ & _ & _ & <-). rewrite Heq. f_equal.
      assert (Hs : length (s ++ [b]) = length s + 1) by (rewrite length_app; simpl; lia).
      destruct Hg as (? & _). rewrite (read_window_ok cap (s ++ [b])) by (done || lia).
      rewrite <- Hs. apply window_at_end.
Qed.

Lemma feed_byte_spec ps s m b :
  matcher_ok ps s m -> m_groups m <> [] ->
  match feed_byte m b with
  | (m', None) =>
      matcher_ok ps (s ++ [b]) m' /\ m_groups m' <> [] /\
      (forall p, p ∈ ps -> ~ leak_at p (s ++ [b]) (length s + 1))
  | (m', Some h) =>
      exists p, p ∈ ps /\ leak_at p (s ++ [b]) (length s + 1) /\ h = leak_hit p (length s + 1)
  end.
Proof.
  intros (Hfed & Hr & Hg & Hc) Hne. specialize (Hr Hne). unfold feed_byte. rewrite Hfed.
  pose proof (ring_store _ s _ b Hr) as Hr'.
  pose proof (feed_groups_spec ps _ s b _ _ Hr' Hg) as Hf.
  destruct (feed_groups _ _ _ _ _) as [gs [h|]]; [by destruct Hf|].
  destruct Hf as (Hg' & Hl & Hn). split_and!; simpl.
  - split_and!; simpl; [by rewrite length_app|done|done|].
    intros p Hp Hlen. destruct (Hc p Hp Hlen) as (g & Hgin & Hgl).
    assert (g_len g ∈ g_len <$> gs) as Hin by (rewrite Hl; by apply list_elem_of_fmap_2).
    apply list_elem_of_fmap in Hin as (g' & Heq & Hg'in).
    exists g'. split; [done|congruence].
  - intros ->. destruct (m_groups m); [done|]. done.
  - intros p Hp Hleak. destruct (Hc p Hp) as (g & Hgin & Hgl); [apply Hleak|].
    by apply (Hn p g).
Qed.

Lemma leak_at_app p s t e : e <= length s -> leak_at p (s ++ t) e <-> leak_at p s e.
Proof.
  intros He. unfold leak_at. rewrite length_app.
  destruct (decide (fp_len p <= e)) as [Hl | Hl]; [|naive_solver lia].
  replace (window_at (s ++ t) e (fp_len p)) with (window_at s e (fp_len p)); [naive_solver lia|].
  unfold window_at. rewrite drop_app_le by lia. symmetry. apply take_app_le.
  rewrite length_drop. lia.
Qed.

(** What [feed] reports about the stream [s] already fed and the chunk [c]. *)
Definition feed_result (ps : list SecretFingerprint) (s c : bytes)
    (r : RollingMatcher * option LeakHit) : Prop :=
  match r with
  | (m', None) =>
      matcher_ok ps (s ++ c) m' /\
      (forall p e, p ∈ ps -> length s < e -> ~ leak_at p (s ++ c) e)
  | (m', Some h) =>
      exists p e, p ∈ ps /\ length s < e /\ leak_at p (s ++ c) e /\ h = leak_hit p e /\
        (forall q e', q ∈ ps -> length s < e' < e -> ~ leak_at q (s ++ c) e')
  end.

Lemma feed_loop_spec ps s c m :
  matcher_ok ps s m -> m_groups m <> [] -> feed_result ps s c (feed_loop m c).
Proof.
  revert s m. induction c as [|b c IH]; intros s m Hm Hne; simpl.
  - rewrite app_nil_r. split; [done|]. intros p e _ He. unfold leak_at. lia.
  - pose proof (feed_byte_spec ps s m b Hm Hne) as Hb.
    destruct (feed_byte m b) as [m' [h|]]; simpl.
    + destruct Hb as (p & Hp & Hleak & ->). exists p, (length s + 1).
      split_and!; [done|lia| |done|lia].
      rewrite cons_middle, app_assoc. apply leak_at_app; [|done].
      rewrite length_app; simpl; lia.
    + destruct Hb as (Hm' & Hne' & Hn). specialize (IH _ _ Hm' Hne').
      assert (Hlen : length (s ++ [b]) = length s + 1) by (rewrite length_app; simpl; lia).
      assert (Hfirst : forall q, q ∈ ps -> ~ leak_at q (s ++ b :: c) (length s + 1)).
      { intros q Hq. rewrite cons_middle, app_assoc, leak_at_app by lia. by apply Hn. }
      unfold feed_result in *. rewrite Hlen, <- app_assoc in IH. simpl in IH.
      destruct (feed_loop m' c) as [m'' [h|]].
      * destruct IH as (p & e & Hp & He & Hl & -> & Hno).
        exists p, e. split_and!; [done|lia|done|done|]. intros q e' Hq He' Hl'.
        destruct (decide (e' = length s + 1)) as [-> |]; [by eapply Hfirst|].
        by apply (Hno q e'); [|lia|].
      * destruct IH as [Hok Hno]. split; [done|]. intros q e' Hq He' Hl'.
        destruct (decide (e' = length s + 1)) as [-> |]; [by eapply Hfirst|].
        by apply (Hno q e'); [|lia|].
Qed.

Lemma feed_spec ps s c m : matcher_ok ps s m -> feed_result ps s c (feed m c).
Proof.
  intros Hm. unfold feed, is_empty. destruct (m_groups m) as [|g gs] eqn:E.
  - destruct Hm as (Hfed & _ & _ & Hc). rewrite E in Hc. split.
    + split_and!; simpl; [by rewrite Hfed, length_app|done|done|done].
    + intros p e Hp _ Hl. destruct (Hc p Hp) as (g & Hg & _); [apply Hl|]. set_solver.
  - apply feed_loop_spec; [done|]. by rewrite E.
Qed.

Lemma max_key_le (m : ByLen) n t : m !! n = Some t -> n <= max_key m.
Proof.
  intros Hn. unfold max_key. apply elem_of_map_to_list in Hn.
  induction (map_to_list m) as [|[k u] l IH]; [set_solver|].
  rewrite fmap_cons. simpl. apply elem_of_cons in Hn as [[= <- <-]|Hn]; [lia|].
  specialize (IH Hn). lia.
Qed.

Lemma new_ok ps : matcher_ok ps [] (new ps).
Proof.
  unfold new. set (m := group_by_len _ ps).
  split_and!; simpl; [done| | |].
  - intros _. split_and!; [lia|by rewrite length_replicate|]. simpl. lia.
  - rewrite Forall_fmap. apply Forall_forall. intros [n t] Hin. simpl.
    rewrite iter_order_perm in Hin. apply elem_of_map_to_list in Hin.
    pose proof (max_key_le m n t Hin) as Hmax.
    assert (Hpos : 0 < n).
    { destruct (proj1 (group_by_len_dom (fun p => 0 <? fp_len p) ps n)) as (p & _ & Hk & <-);
        [by exists t|]. by apply Nat.ltb_lt in Hk. }
    split_and!; simpl; [done|lia|done| |by rewrite decide_False by lia].
    intros h d. rewrite (group_by_len_targets _ _ _ _ Hin h d).
    setoid_rewrite list_elem_of_In. setoid_rewrite filter_In.
    split; [naive_solver|]. intros (p & Hp & Hl & Hh & Hd). exists p. split_and!; try done.
    apply Nat.ltb_lt. lia.
  - intros p Hp Hlen.
    destruct (proj2 (group_by_len_dom (fun p => 0 <? fp_len p) ps (fp_len p))) as [t Ht];
      [exists p; split_and!; [done|by apply Nat.ltb_lt|done]|].
    exists (new_group (fp_len p, t)). split; [|done].
    apply list_elem_of_fmap_2. rewrite iter_order_perm. by apply elem_of_map_to_list.
Qed.

Lemma feed_loop_app m c d :
  feed_loop m (c ++ d) =
  match feed_loop m c with
  | (m', Some h) => (m', Some h)
  | (m', None) => feed_loop m' d
  end.
Proof.
  revert m. induction c as [|b c IH]; intros m; simpl; [done|].
  destruct (feed_byte m b) as [m' [h|]]; [done|apply IH].
Qed.

Lemma feed_groups_length ring cap i b gs :
  length (feed_groups ring cap i b gs).1 = length gs.
Proof.
  induction gs as [|g gs IH]; simpl; [done|].
  destruct (i + 1 <? g_len g); [|case_bool_decide]; simpl; try done;
    destruct (feed_groups _ _ _ _ _); simpl in *; congruence.
Qed.

Lemma feed_loop_nonempty m c : is_empty (feed_loop m c).1 = is_empty m.
Proof.
  revert m. induction c as [|b c IH]; intros m; simpl; [done|].
  pose proof (feed_groups_length (<[m_fed m mod m_cap m:=b]> (m_ring m)) (m_cap m) (m_fed m) b (m_groups m)) as Hl.
  assert (He : is_empty (feed_byte m b).1 = is_empty m).
  { unfold feed_byte, is_empty. destruct (feed_groups _ _ _ _ _) as [gs [h|]];
      simpl in *; destruct gs, (m_groups m); done. }
  destruct (feed_byte m b) as [m' [h|]]; simpl in *; [done|]. by rewrite IH.
Qed.

Lemma feed_nil m : feed m [] = (m, None).
Proof. unfold feed. destruct m. simpl. rewrite Nat.add_0_r. by destruct (is_empty _). Qed.

Lemma feed_app m c d :
  feed m (c ++ d) =
  match feed m c with
  | (m', Some h) => (m', Some h)
  | (m', None) => feed m' d
  end.
Proof.
  unfold feed. destruct (is_empty m) eqn:E.
  - replace (is_empty _) with true by (symmetry; exact E). simpl.
    by rewrite length_app, Nat.add_assoc.
  - rewrite feed_loop_app. pose proof (feed_loop_nonempty m c) as Hn.
    destruct (feed_loop m c) as [m' [h|]]; [done|]. simpl in Hn. by rewrite Hn, E.
Qed.

Lemma feed_chunks_concat m cs : feed_chunks m cs = feed m (concat cs).
Proof.
  revert m. induction cs as [|c cs IH]; intros m; simpl; [by rewrite feed_nil|].
  rewrite feed_app. destruct (feed m c) as [m' [h|]]; [done|apply IH].
Qed.

(** A provisioned secret that occurs in a stream is a leak of that stream. *)
Lemma secret_leaks v fp s a b :
  fingerprint_value v = Some fp -> s = a ++ v ++ b -> leak_at fp s (length a + length v).
Proof.
  unfold fingerprint_value. intros Hf ->.
  destruct (_ || _) eqn:E; [done|]. injection Hf as <-. unfold leak_at, window_at. simpl.
  apply orb_false_iff in E as [E1 E2]. apply Nat.ltb_ge in E1. unfold MIN_SECRET_LEN in E1.
  replace (length a + length v - length v) with (length a) by lia.
  rewrite drop_app_length, take_app_length, !length_app. split_and!; try lia; done.
Qed.

Lemma feed_new_spec ps s : feed_result ps [] s (feed (new ps) s).
Proof. apply feed_spec, new_ok. Qed.

(** C17. The rolling scan is the naive scan: on a stream [s], the matcher stays
    silent exactly when no window of [s] has the hash and the digest of a
    provisioned fingerprint, and otherwise it reports a fingerprint confirmed
    at the earliest end position, with the digest and the offset of the first
    byte of that window. *)
Theorem feed_reports_first_leak ps s :
  match (feed (new ps) s).2 with
  | None => forall p e, p ∈ ps -> ~ leak_at p s e
  | Some h =>
      exists p e, p ∈ ps /\ leak_at p s e /\ h = leak_hit p e /\
        forall q e', q ∈ ps -> e' < e -> ~ leak_at q s e'
  end.
Proof.
  pose proof (feed_new_spec ps s) as Hf. unfold feed_result in Hf. simpl in Hf.
  destruct (feed (new ps) s) as [m' [h|]]; simpl.
  - destruct Hf as (p & e & Hp & _ & Hl & Hh & Hno). exists p, e. split_and!; try done.
    intros q e' Hq He' Hl'. apply (Hno q e' Hq); [|done]. destruct Hl' as ((? & ?) & _). lia.
  - destruct Hf as (_ & Hno). intros p e Hp Hl. apply (Hno p e Hp); [|done].
    destruct Hl as ((? & ?) & _). lia.
Qed.

(** Chunk boundaries are invisible: feeding a chunk in two pieces leaves
    the same state and gives the same answer as feeding it whole, so a secret
    split across reads is found as if it had arrived at once. *)
Theorem feed_chunk_boundary m c d :
  feed m (c ++ d) =
  match feed m c with
  | (m', Some h) => (m', Some h)
  | (m', None) => feed m' d
  end.
Proof. apply feed_app. Qed.

(** No provisioned secret passes: when the value of a fingerprinted secret
    occurs anywhere in the concatenation of the chunks fed, however it is cut,
    the matcher reports a leak. *)
Theorem fed_secret_is_reported ps v fp cs a b :
  fingerprint_value v = Some fp -> fp ∈ ps -> concat cs = a ++ v ++ b ->
  exists h, (feed_chunks (new ps) cs).2 = Some h.
Proof.
  intros Hf Hp Hs. rewrite feed_chunks_concat.
  pose proof (secret_leaks v fp _ a b Hf Hs) as Hl.
  pose proof (feed_new_spec ps (concat cs)) as Hr. unfold feed_result in Hr.
  destruct (feed (new ps) (concat cs)) as [m' [h|]]; [by exists h|].
  destruct Hr as [_ Hno]. exfalso. apply (Hno fp (length a + length v) Hp); [|done].
  destruct Hl as ((? & ?) & _). simpl. lia.
Qed.
End Matcher.

(** * Witnesses *)

Definition demo_secret : bytes := bs "hunter2-hunter2".
Definition demo_pattern : SecretFingerprint :=
  mkFp 15 (poly demo_secret) (demo_digest demo_secret).

Lemma feed_reports_first_leak_witness :
  (feed (new id [demo_pattern]) (bs "x=hunter2-hunter2;")).2 = Some (leak_hit demo_pattern 17) /\
  exists p e, p ∈ [demo_pattern] /\ leak_at p (bs "x=hunter2-hunter2;") e /\
    leak_hit demo_pattern 17 = leak_hit p e /\
    forall q e', q ∈ [demo_pattern] -> e' < e -> ~ leak_at q (bs "x=hunter2-hunter2;") e'.
Proof.
  assert (E : (feed (new id [demo_pattern]) (bs "x=hunter2-hunter2;")).2
              = Some (leak_hit demo_pattern 17)) by (vm_compute; reflexivity).
  split; [exact E|].
  pose proof (feed_reports_first_leak id (fun l => reflexivity l) [demo_pattern]
                (bs "x=hunter2-hunter2;")) as Hw.
  rewrite E in Hw. exact Hw.
Defined.

Lemma fed_secret_is_reported_witness :
  exists h, (feed_chunks (new id [demo_pattern])
               [bs "key: hunter"; bs "2-hun"; bs "ter2 end"]).2 = Some h.
Proof.
  apply (fed_secret_is_reported id (fun l => reflexivity l) [demo_pattern] demo_secret
           demo_pattern _ (bs "key: ") (bs " end")).
  - reflexivity.
  - apply list_elem_of_singleton. reflexivity.
  - reflexivity.
Defined.
