(* ===== verification/Redact.v ===== *)
(** Bounded-buffer redaction of every provisioned secret
    (src/leak-scan/src/redact.rs).

    [redact] collects the confirmed windows of every pattern length with the
    rolling scan, sorts them, merges strictly overlapping windows into runs and
    splices one marker per run.  Its reference is the same predicate [leak_at]
    the streaming matcher is proved against. *)

From stdpp Require Import base list numbers gmap sets sorting strings.
From Stdlib Require Import ZArith Lia.
From S2P Require Import Prelude RustStr Fingerprint RollingMatcher.
Local Open Scope nat_scope.

Record RedactHit := mkRedactHit { rh_sha256_hex : bytes; rh_offset : nat; rh_len : nat }.

Record RedactOutcome := mkOutcome { ro_bytes : bytes; ro_hits : list RedactHit }.

(** One confirmed window: offset, length, digest. *)
Abbreviation Span := (nat * nat * bytes)%type.

Record Run := mkRun { r_start : nat; r_end : nat; r_spans : list Span }.

(** The joined first-8 hex digits of each digest. *)
Fixpoint join_plus (parts : list bytes) : bytes :=
  match parts with
  | [] => []
  | [p] => p
  | p :: rest => p ++ bs "+" ++ join_plus rest
  end.

Definition marker (hexes : list bytes) : bytes :=
  bs "[redacted:" ++ join_plus (take 8 <$> hexes) ++ bs "]".

(** [raw.sort_by]: earliest offset first, longer window first on a tie. *)
Definition span_le (a b : Span) : Prop :=
  a.1.1 < b.1.1 \/ (a.1.1 = b.1.1 /\ b.1.2 <= a.1.2).

#[export] Instance span_le_dec : RelDecision span_le.
Proof. intros a b. unfold span_le. apply _. Defined.

(** Fold one window into the runs built so far (the last run first). *)
Definition push_span (runs : list Run) (sp : Span) : list Run :=
  let '(off, len, sha) := sp in
  match runs with
  | run :: rest =>
      if off <? r_end run
      then mkRun (r_start run) (Nat.max (r_end run) (off + len)) (r_spans run ++ [sp]) :: rest
      else mkRun off (off + len) [sp] :: runs
  | [] => [mkRun off (off + len) [sp]]
  end.

Definition merge_spans (raw : list Span) : list Run :=
  reverse (fold_left push_span raw []).

(** The distinct digests of a run in first-appearance order, as hex. *)
Definition distinct_hexes (spans : list Span) : list bytes :=
  (fold_left (fun '(seen, hexes) (sp : Span) =>
     if bool_decide (sp.2 ∈ seen) then (seen, hexes)
     else (seen ++ [sp.2], hexes ++ [sha256_hex sp.2])) spans ([], [])).2.

Definition span_hit (sp : Span) : RedactHit := mkRedactHit (sha256_hex sp.2) sp.1.1 sp.1.2.

(** The splice loop, from [cursor] on. *)
Fixpoint splice (input : bytes) (cursor : nat) (runs : list Run) : bytes :=
  match runs with
  | [] => drop cursor input
  | run :: rest =>
      take (r_start run - cursor) (drop cursor input)
      ++ marker (distinct_hexes (r_spans run))
      ++ splice input (r_end run) rest
  end.

(** A run is the union of its windows. *)
Definition run_ok (r : Run) : Prop :=
  r_start r < r_end r /\
  (forall sp, sp ∈ r_spans r -> r_start r <= sp.1.1 /\ sp.1.1 + sp.1.2 <= r_end r) /\
  (forall pos, r_start r <= pos < r_end r ->
     exists sp, sp ∈ r_spans r /\ sp.1.1 <= pos < sp.1.1 + sp.1.2).

(** The runs of a buffer: in order, disjoint, each the union of its windows. *)
Definition runs_ok (runs : list Run) : Prop :=
  Sorted (fun r r' => r_end r <= r_start r') runs /\ Forall run_ok runs.

(** * Lemmas: merging *)

(** The loop invariant of the merge, on the runs in reverse order. *)
Definition rev_runs_ok (done : list Span) (rs : list Run) : Prop :=
  flat_map r_spans (reverse rs) = done /\ Forall run_ok rs /\
  Sorted (fun r r' => r_end r' <= r_start r) rs /\
  Forall (fun r => exists sp, sp ∈ done /\ sp.1.1 = r_start r) rs.

Lemma fresh_run_ok (off len : nat) (sha : bytes) : 0 < len -> run_ok (mkRun off (off + len) [(off, len, sha)]).
Proof.
  intros Hlen. split_and!; simpl; [lia| |].
  - intros sp ->%list_elem_of_singleton. simpl. lia.
  - intros pos Hpos. exists (off, len, sha). split; [set_solver|simpl; lia].
Qed.

Lemma extend_run_ok run (off len : nat) (sha : bytes) :
  run_ok run -> r_start run <= off -> off < r_end run ->
  run_ok (mkRun (r_start run) (Nat.max (r_end run) (off + len)) (r_spans run ++ [(off, len, sha)])).
Proof.
  intros (Hse & Hin & Hcov) Hs He. split_and!; simpl; [lia| |].
  - intros sp [Hsp | ->%list_elem_of_singleton]%elem_of_app; simpl; [|lia].
    destruct (Hin sp Hsp). lia.
  - intros pos Hpos. destruct (decide (pos < r_end run)) as [Hlt | Hge].
    + destruct (Hcov pos) as (sp & Hsp & Hc); [lia|]. exists sp. split; [set_solver|done].
    + exists (off, len, sha). split; [set_solver|simpl; lia].
Qed.

Lemma push_span_ok done rs sp :
  rev_runs_ok done rs -> 0 < sp.1.2 -> (forall sp', sp' ∈ done -> sp'.1.1 <= sp.1.1) ->
  rev_runs_ok (done ++ [sp]) (push_span rs sp).
Proof.
  destruct sp as [[off len] sha]. simpl. intros (Hfl & Hok & Hso & Hst) Hlen Hle.
  destruct rs as [|run rest].
  { simpl in Hfl. subst done. split_and!; simpl.
    - done.
    - constructor; [by apply fresh_run_ok|done].
    - repeat constructor.
    - constructor; [|done]. exists (off, len, sha). split; [set_solver|done]. }
  rewrite reverse_cons, flat_map_app in Hfl. simpl in Hfl. rewrite app_nil_r in Hfl.
  assert (Hst' : Forall (fun r => exists sp, sp ∈ done ++ [(off, len, sha)] /\ sp.1.1 = r_start r)
                   (run :: rest)).
  { eapply Forall_impl; [exact Hst|]. intros r (sp & Hsp & Heq). exists sp. set_solver. }
  apply Forall_cons in Hok as [Hrun Hrest].
  simpl. destruct (Nat.ltb_spec off (r_end run)) as [Hlt | Hge].
  - assert (Hs : r_start run <= off).
    { apply Forall_cons in Hst as [(sp & Hsp & <-) _]. exact (Hle sp Hsp). }
    split_and!.
    + rewrite reverse_cons, flat_map_app. simpl. rewrite app_nil_r, <- Hfl. by rewrite !app_assoc.
    + constructor; [by apply extend_run_ok|done].
    + apply Sorted_inv in Hso as [Hso Hhd]. constructor; [done|].
      destruct Hhd; constructor. done.
    + apply Forall_cons in Hst' as [Hh Ht]. constructor; [|done]. exact Hh.
  - split_and!.
    + rewrite !reverse_cons, !flat_map_app. simpl. by rewrite !app_nil_r, <- Hfl.
    + constructor; [by apply fresh_run_ok|]. by constructor.
    + constructor; [done|]. constructor. done.
    + constructor; [|done]. exists (off, len, sha). split; [set_solver|done].
Qed.

Lemma fold_push_ok done rs rest :
  rev_runs_ok done rs -> Forall (fun sp : Span => 0 < sp.1.2) rest ->
  StronglySorted span_le (done ++ rest) ->
  rev_runs_ok (done ++ rest) (fold_left push_span rest rs).
Proof.
  revert done rs. induction rest as [|sp rest IH]; intros done rs Hok Hpos Hs; simpl.
  - by rewrite app_nil_r.
  - apply Forall_cons in Hpos as [Hp Hpos]. rewrite cons_middle, app_assoc in Hs |- *.
    apply IH; [|done|done]. apply push_span_ok; [done|done|]. intros sp' Hsp'.
    assert (Hle : span_le sp' sp).
    { rewrite <- app_assoc in Hs. eapply (StronglySorted_app_1_elem_of _ _ _ _ _ Hs); set_solver. }
    unfold span_le in Hle. lia.
Qed.

Lemma merge_spans_ok raw :
  Forall (fun sp : Span => 0 < sp.1.2) raw -> StronglySorted span_le raw ->
  runs_ok (merge_spans raw) /\ flat_map r_spans (merge_spans raw) = raw.
Proof.
  intros Hpos Hs. assert (H0 : rev_runs_ok [] []) by (repeat constructor).
  destruct (fold_push_ok [] [] raw H0 Hpos Hs) as (Hfl & Hok & Hso & _).
  unfold merge_spans. split; [|done]. split; [|by apply Forall_reverse].
  exact (Sorted_reverse _ _ Hso).
Qed.

#[export] Instance span_le_total : Total span_le.
Proof. intros [[a b] c] [[a' b'] c']. unfold span_le. simpl. lia. Qed.

#[export] Instance span_le_trans : Transitive span_le.
Proof. intros [[a b] c] [[a' b'] c'] [[a'' b''] c'']. unfold span_le. simpl. lia. Qed.

Section Redact.
Context `{Sha256}.
Variable iter_order : list (nat * Targets) -> list (nat * Targets).
Hypothesis iter_order_perm : forall l, iter_order l ≡ₚ l.

(** The rolling scan for one length; [n] bounds the iterations left. *)
Fixpoint scan_loop (input : bytes) (len : nat) (targets : Targets) (pow : Z)
    (n i : nat) (cur : Z) : list Span :=
  let digest := sha256 (take len (drop i input)) in
  (if bool_decide (digest ∈ shas_at targets cur) then [(i, len, digest)] else [])
  ++ (if length input <=? i + len then []
      else match n with
           | O => []
           | S n' =>
               scan_loop input len targets pow n' (i + 1)
                 (roll cur pow (nth i input 0%Z) (nth (i + len) input 0%Z))
           end).

Definition scan_len (input : bytes) (e : nat * Targets) : list Span :=
  let '(len, targets) := e in
  scan_loop input len targets (pow_base len) (length input - len) 0 (poly (take len input)).

Definition raw_spans (input : bytes) (patterns : list SecretFingerprint) : list Span :=
  let by_len := group_by_len
    (fun p => (0 <? fp_len p) && (fp_len p <=? length input)) patterns in
  flat_map (scan_len input) (iter_order (map_to_list by_len)).

Definition redact (input : bytes) (patterns : list SecretFingerprint) : RedactOutcome :=
  let runs := merge_spans (merge_sort span_le (raw_spans input patterns)) in
  match runs with
  | [] => mkOutcome input []
  | _ => mkOutcome (splice input 0 runs) (span_hit <$> flat_map r_spans runs)
  end.

(** ** The scan finds every window *)

Lemma window_roll input len i :
  0 < len -> i + len < length input ->
  roll (poly (take len (drop i input))) (pow_base len) (nth i input 0%Z) (nth (i + len) input 0%Z)
  = poly (take len (drop (i + 1) input)).
Proof.
  intros Hlen Hi.
  destruct (lookup_lt_is_Some_2 input i) as [x Hx]; [lia|].
  destruct (lookup_lt_is_Some_2 input (i + len)) as [y Hy]; [lia|].
  rewrite (nth_lookup_Some _ _ _ _ Hx), (nth_lookup_Some _ _ _ _ Hy), (drop_S _ _ _ Hx).
  destruct len as [|len]; [lia|]. simpl.
  assert (Hl : length (take len (drop (S i) input)) = len) by (rewrite length_take, length_drop; lia).
  rewrite <- Hl at 2. rewrite roll_poly. f_equal. rewrite Nat.add_1_r.
  symmetry. apply take_S_r. rewrite lookup_drop. rewrite <- Hy. f_equal. lia.
Qed.

Lemma scan_loop_spec input len targets n i o l d :
  0 < len -> i + len <= length input -> length input <= i + len + n ->
  (o, l, d) ∈ scan_loop input len targets (pow_base len) n i (poly (take len (drop i input))) <->
  l = len /\ i <= o /\ o + len <= length input /\
  d = sha256 (take len (drop o input)) /\
  d ∈ shas_at targets (poly (take len (drop o input))).
Proof.
  intros Hlen. revert i. induction n as [|n IH]; intros i Hi Hn; cbn [scan_loop].
  - destruct (Nat.leb_spec (length input) (i + len)); [|lia]. rewrite app_nil_r.
    case_bool_decide as Hin.
    + rewrite list_elem_of_singleton. split; [intros [= -> -> ->]; split_and!; done || lia|].
      intros (-> & ? & ? & -> & ?). by replace o with i by lia.
    + split; [set_solver|]. intros (-> & ? & ? & -> & ?). by replace o with i in * by lia.
  - rewrite elem_of_app. destruct (Nat.leb_spec (length input) (i + len)).
    + case_bool_decide as Hin.
      * rewrite list_elem_of_singleton. split.
        { intros [[= -> -> ->] | ?%elem_of_nil]; [split_and!; done || lia|done]. }
        intros (-> & ? & ? & -> & ?). left. by replace o with i by lia.
      * split; [set_solver|]. intros (-> & ? & ? & -> & ?). by replace o with i in * by lia.
    + rewrite window_roll, IH by lia. split.
      * intros [Hh | (-> & ? & ? & -> & ?)]; [|split_and!; done || lia].
        case_bool_decide; [|set_solver]. apply list_elem_of_singleton in Hh.
        injection Hh as -> -> ->. split_and!; done || lia.
      * intros (-> & ? & ? & -> & Hin). destruct (decide (o = i)) as [-> |].
        -- left. rewrite bool_decide_true by done. set_solver.
        -- right. split_and!; [done|lia|done|done|done].
Qed.

Lemma raw_spans_spec input ps o l d :
  (o, l, d) ∈ raw_spans input ps <->
  exists p, p ∈ ps /\ fp_len p = l /\ fp_sha256 p = d /\ leak_at p input (o + l).
Proof.
  unfold raw_spans. rewrite list_elem_of_In, in_flat_map. split.
  - intros ([n t] & Hin & Hscan).
    rewrite <- list_elem_of_In in Hin. rewrite <- list_elem_of_In in Hscan. rewrite iter_order_perm in Hin.
    apply elem_of_map_to_list in Hin.
    destruct (proj1 (group_by_len_dom _ ps n) (ex_intro _ t Hin)) as (q & _ & Hk & Hq).
    apply andb_true_iff in Hk as [Hk1%Nat.ltb_lt Hk2%Nat.leb_le].
    unfold scan_len in Hscan. change (take n input) with (take n (drop 0 input)) in Hscan.
    apply scan_loop_spec in Hscan as (-> & _ & Hle & -> & Hd); [|lia..].
    apply (group_by_len_targets _ _ _ _ Hin) in Hd as (p & Hp & Hpl & Hh & Hs).
    apply list_elem_of_In, filter_In in Hp as [Hp _]. apply list_elem_of_In in Hp.
    exists p. split_and!; [done|done|done|]. unfold leak_at, window_at.
    rewrite Hpl. replace (o + n - n) with o by lia. split_and!; [lia|lia|lia|done|done].
  - intros (p & Hp & <- & <- & (Hpos & Hle & Hh & Hs)).
    destruct (proj2 (group_by_len_dom
      (fun p => (0 <? fp_len p) && (fp_len p <=? length input)) ps (fp_len p))) as [t Ht].
    { exists p. split_and!; [done| |done]. apply andb_true_iff.
      split; [apply Nat.ltb_lt|apply Nat.leb_le]; lia. }
    exists (fp_len p, t). rewrite <- list_elem_of_In. rewrite <- list_elem_of_In. split.
    { rewrite iter_order_perm. by apply elem_of_map_to_list. }
    unfold window_at in *. replace (o + fp_len p - fp_len p) with o in * by lia.
    unfold scan_len. change (take (fp_len p) input) with (take (fp_len p) (drop 0 input)).
    apply scan_loop_spec; [lia..|].
    split_and!; [done|lia|lia|done|].
    apply (group_by_len_targets _ _ _ _ Ht). exists p. split_and!; try done.
    apply list_elem_of_In, filter_In. rewrite <- list_elem_of_In. split; [done|].
    apply andb_true_iff. split; [apply Nat.ltb_lt|apply Nat.leb_le]; lia.
Qed.

(** The windows of [input] that a pattern of [ps] confirms. *)
Definition confirmed (input : bytes) (ps : list SecretFingerprint) (sp : Span) : Prop :=
  exists p, p ∈ ps /\ fp_len p = sp.1.2 /\ fp_sha256 p = sp.2 /\ leak_at p input (sp.1.1 + sp.1.2).

Lemma sorted_spans_ok input ps :
  let raw := merge_sort span_le (raw_spans input ps) in
  (forall sp, sp ∈ raw <-> confirmed input ps sp) /\
  runs_ok (merge_spans raw) /\ flat_map r_spans (merge_spans raw) = raw.
Proof.
  intros raw. assert (Hin : forall sp, sp ∈ raw <-> confirmed input ps sp).
  { intros [[o l] d]. subst raw. rewrite merge_sort_Permutation. apply raw_spans_spec. }
  split; [exact Hin|]. apply merge_spans_ok; [|by apply StronglySorted_merge_sort; apply _].
  apply Forall_forall. intros sp (p & _ & <- & _ & (Hpos & _))%Hin. lia.
Qed.

(** Redaction removes every confirmed secret and nothing else: the output
    is the input with a set of disjoint, ordered runs each replaced by one
    marker; every window of the input confirmed by a provisioned fingerprint
    lies inside a run, every byte of a run lies inside such a window, and the
    hits list those windows, one per window of the runs. *)
Theorem redact_removes_exactly input ps :
  exists runs,
    runs_ok runs /\
    ro_bytes (redact input ps) = splice input 0 runs /\
    ro_hits (redact input ps) = span_hit <$> flat_map r_spans runs /\
    (forall sp, confirmed input ps sp ->
       exists r, r ∈ runs /\ sp ∈ r_spans r /\
         r_start r <= sp.1.1 /\ sp.1.1 + sp.1.2 <= r_end r) /\
    (forall r, r ∈ runs -> r_end r <= length input /\
       forall pos, r_start r <= pos < r_end r ->
         exists sp, confirmed input ps sp /\ sp.1.1 <= pos < sp.1.1 + sp.1.2).
Proof.
  destruct (sorted_spans_ok input ps) as (Hin & Hok & Hfl).
  set (raw := merge_sort span_le (raw_spans input ps)) in *.
  exists (merge_spans raw).
  assert (Hmem : forall r sp, r ∈ merge_spans raw -> sp ∈ r_spans r -> confirmed input ps sp).
  { intros r sp Hr Hsp. apply Hin. rewrite <- Hfl. apply list_elem_of_In, in_flat_map.
    exists r. by rewrite <- !list_elem_of_In. }
  split_and!; [done| | | |].
  - unfold redact. fold raw. destruct (merge_spans raw); done.
  - unfold redact. fold raw. destruct (merge_spans raw); done.
  - intros sp Hsp%Hin. rewrite <- Hfl in Hsp. apply list_elem_of_In, in_flat_map in Hsp.
    destruct Hsp as (r & Hr & Hsp). apply list_elem_of_In in Hr, Hsp. exists r.
    destruct Hok as [_ Hrok]. rewrite Forall_forall in Hrok.
    destruct (Hrok r Hr) as (_ & Hb & _). specialize (Hb sp Hsp). done.
  - intros r Hr. destruct Hok as [_ Hrok]. rewrite Forall_forall in Hrok.
    destruct (Hrok r Hr) as (Hse & Hb & Hcov).
    assert (Hc : forall pos, r_start r <= pos < r_end r ->
      exists sp, confirmed input ps sp /\ sp.1.1 <= pos < sp.1.1 + sp.1.2).
    { intros pos Hpos. destruct (Hcov pos Hpos) as (sp & Hsp & Hp).
      exists sp. split; [by eapply Hmem|done]. }
    split; [|done]. destruct (Hc (r_end r - 1)) as (sp & (p & _ & <- & _ & (_ & Hle & _)) & Hp); [lia|].
    lia.
Qed.

(** A buffer in which no fingerprint is confirmed comes back unchanged,
    with no hit. *)
Theorem redact_identity input ps :
  (forall p e, p ∈ ps -> ~ leak_at p input e) -> redact input ps = mkOutcome input [].
Proof.
  intros Hno. destruct (sorted_spans_ok input ps) as (Hin & _ & _).
  unfold redact. destruct (merge_sort span_le (raw_spans input ps)) as [|sp raw]; [done|].
  destruct (proj1 (Hin sp)) as (p & Hp & _ & _ & Hl); [set_solver|]. by destruct (Hno _ _ Hp Hl).
Qed.
End Redact.

(** * Witnesses *)

Definition demo_input : bytes := bs "a=hunter2-hunter2&b".

Lemma redact_removes_exactly_witness :
  ro_bytes (redact id demo_input [demo_pattern]) = bs "a=[redacted:68756e74]&b" /\
  exists runs, runs_ok runs /\ ro_bytes (redact id demo_input [demo_pattern]) = splice demo_input 0 runs.
Proof.
  split; [vm_compute; reflexivity|].
  destruct (redact_removes_exactly id (fun l => reflexivity l) demo_input [demo_pattern])
    as (runs & Hok & Hb & _).
  exists runs. exact (conj Hok Hb).
Defined.

Lemma redact_identity_witness :
  redact id (bs "hunter2-hunter") [demo_pattern] = mkOutcome (bs "hunter2-hunter") [].
Proof.
  apply (redact_identity id (fun l => reflexivity l)).
  intros p e Hp%list_elem_of_singleton (H1 & H2 & _). subst p. simpl in H1, H2. lia.
Defined.
