(* ===== verification/HashesWire.v ===== *)
(** The provisioning file of the leak scanner (src/leak-scan/src/wire.rs):
    [secret_hashes.json], written by the core and re-read by the proxy for each
    connection.  [serde_json] is the pair [to_json] / [from_json] of the section,
    with the round trip of a derived [Serialize] / [Deserialize] as hypothesis
    where a theorem needs it.  Slicing a [str] off a character boundary panics,
    so decoding returns an [outcome]. *)

From stdpp Require Import base list numbers gmap sets strings.
From Stdlib Require Import ZArith Lia.
From S2P Require Import Prelude RustStr Fingerprint RollingMatcher.
Local Open Scope Z_scope.

Record WireFp := mkWire { w_len : nat; w_fp64 : bytes; w_sha256 : bytes }.

Record HashesFile := mkFile { hf_version : Z; hf_secrets : list WireFp }.

Definition VERSION : Z := 1.

Definition hex32 (b : bytes) : bytes := flat_map (hex_fixed 2) b.

(** The decoding loop over the byte indices [idxs]: [None] is the early return of
    [.ok()?]. *)
Fixpoint dehex_loop (s : bytes) (idxs : list nat) : outcome (option bytes) :=
  match idxs with
  | [] => Ret (Some [])
  | i :: rest =>
      match slice s (i * 2) (i * 2 + 2) with
      | Panic => Panic
      | Ret two =>
          match from_str_radix 16 u8_max two with
          | None => Ret None
          | Some b =>
              match dehex_loop s rest with
              | Ret (Some out) => Ret (Some (b :: out))
              | r => r
              end
          end
      end
  end.

Definition dehex32 (s : bytes) : outcome (option bytes) :=
  if (length s =? 64)%nat then dehex_loop s (seq 0 32) else Ret None.

Definition decode_one (w : WireFp) : outcome (option SecretFingerprint) :=
  if (w_len w <? MIN_SECRET_LEN)%nat || (MAX_SECRET_LEN <? w_len w)%nat then Ret None
  else match from_str_radix 16 u64_max (w_fp64 w) with
       | None => Ret None
       | Some fp64 =>
           match dehex32 (w_sha256 w) with
           | Panic => Panic
           | Ret None => Ret None
           | Ret (Some sha256) => Ret (Some (mkFp (w_len w) fp64 sha256))
           end
       end.

(** [into_iter().filter_map(decode_one).collect()] *)
Fixpoint decode_all (ws : list WireFp) : outcome (list SecretFingerprint) :=
  match ws with
  | [] => Ret []
  | w :: rest =>
      match decode_one w with
      | Panic => Panic
      | Ret o =>
          match decode_all rest with
          | Panic => Panic
          | Ret fps => Ret (match o with Some fp => fp :: fps | None => fps end)
          end
      end
  end.

Definition encode_one (f : SecretFingerprint) : WireFp :=
  mkWire (fp_len f) (hex_fixed 16 (fp_fp64 f)) (hex32 (fp_sha256 f)).

Section Wire.
Variable to_json : HashesFile -> bytes.
Variable from_json : bytes -> option HashesFile.

Definition serialize_hashes (fps : list SecretFingerprint) : bytes :=
  to_json (mkFile VERSION (encode_one <$> fps)).

Definition parse_hashes (s : bytes) : outcome (list SecretFingerprint) :=
  match from_json s with
  | None => Ret []
  | Some file =>
      if negb (hf_version file =? VERSION) then Ret []
      else decode_all (hf_secrets file)
  end.
End Wire.

(** A fingerprint that [fingerprint_value] can have made. *)
Definition wf_fp (f : SecretFingerprint) : Prop :=
  (MIN_SECRET_LEN <= fp_len f <= MAX_SECRET_LEN)%nat /\ u64_range (fp_fp64 f) /\
  length (fp_sha256 f) = 32%nat /\ Forall u8_range (fp_sha256 f).

(** * Lemmas *)

Lemma hex32_app a b : hex32 (a ++ b) = hex32 a ++ hex32 b.
Proof. apply flat_map_app. Qed.

Lemma length_hex32 b : length (hex32 b) = (2 * length b)%nat.
Proof.
  induction b as [|x b IH]; [done|]. unfold hex32 in *. cbn [flat_map].
  rewrite length_app, length_hex_fixed, IH. simpl. lia.
Qed.

Lemma hex32_ascii b c : Forall u8_range b -> c ∈ hex32 b -> 0 <= c < 128.
Proof.
  intros Hb Hc. apply list_elem_of_In, in_flat_map in Hc as (x & Hx & Hc).
  rewrite Forall_forall in Hb. apply list_elem_of_In in Hx, Hc.
  apply hex_fixed_digits in Hc; [lia|]. destruct (Hb x Hx). lia.
Qed.

Lemma boundary_ascii s i : Forall (fun c => 0 <= c < 128) s -> (i <= length s)%nat ->
  is_char_boundary s i = true.
Proof.
  intros Hs Hi. unfold is_char_boundary. destruct (s !! i) as [c|] eqn:E.
  - rewrite Forall_forall in Hs. specialize (Hs c (list_elem_of_lookup_2 _ _ _ E)).
    apply orb_true_iff. right. unfold is_char_start. apply negb_true_iff, andb_false_iff.
    left. apply Z.leb_gt. lia.
  - apply lookup_ge_None_1 in E. apply Nat.eqb_eq. lia.
Qed.

(** The pair of characters at index [i] of an encoded digest. *)
Lemma slice_hex32 b i x : Forall u8_range b -> b !! i = Some x ->
  slice (hex32 b) (i * 2) (i * 2 + 2) = Ret (hex_fixed 2 x).
Proof.
  intros Hb Hx. pose proof (lookup_lt_Some _ _ _ Hx) as Hi.
  assert (Ha : Forall (fun c => 0 <= c < 128) (hex32 b)).
  { apply Forall_forall. intros c Hc. by eapply hex32_ascii. }
  unfold slice. rewrite !boundary_ascii by (done || rewrite length_hex32; lia).
  destruct (Nat.leb_spec (i * 2) (i * 2 + 2)); [|lia]. simpl. f_equal.
  replace (i * 2 + 2 - i * 2)%nat with 2%nat by lia.
  rewrite <- (take_drop_middle b i x Hx), hex32_app.
  rewrite drop_app_length' by (rewrite length_hex32, length_take; lia).
  unfold hex32. cbn [flat_map]. by rewrite take_app_length' by (by rewrite length_hex_fixed).
Qed.

Lemma dehex_loop_hex32 b k : Forall u8_range b -> (k <= length b)%nat ->
  dehex_loop (hex32 b) (seq (length b - k) k) = Ret (Some (drop (length b - k) b)).
Proof.
  intros Hb. induction k as [|k IH]; intros Hk; cbn [seq dehex_loop].
  - rewrite drop_ge by lia. done.
  - destruct (lookup_lt_is_Some_2 b (length b - S k)) as [x Hx]; [lia|].
    rewrite (slice_hex32 b _ x Hb Hx).
    assert (Hxr : u8_range x) by (rewrite Forall_forall in Hb; apply Hb; by eapply list_elem_of_lookup_2).
    rewrite from_str_radix_hex; [|lia|simpl; unfold u8_range in Hxr; lia|unfold u8_range, u8_max in *; lia].
    replace (S (length b - S k)) with (length b - k)%nat by lia. rewrite IH by lia.
    rewrite (drop_S _ _ _ Hx). do 4 f_equal. lia.
Qed.

Lemma dehex32_hex32 b : length b = 32%nat -> Forall u8_range b -> dehex32 (hex32 b) = Ret (Some b).
Proof.
  intros Hl Hb. unfold dehex32. rewrite length_hex32, Hl. simpl (2 * 32 =? 64)%nat. cbv iota.
  pose proof (dehex_loop_hex32 b 32 Hb) as Hd. rewrite Hl in Hd. apply Hd. lia.
Qed.

(** Equal digests in hexadecimal are equal digests. *)
Lemma sha256_hex_inj `{Sha256} x y : sha256_hex (sha256 x) = sha256_hex (sha256 y) -> sha256 x = sha256 y.
Proof.
  intros E. change (hex32 (sha256 x) = hex32 (sha256 y)) in E. apply (f_equal dehex32) in E.
  rewrite !dehex32_hex32 in E by (apply sha256_length || apply sha256_bytes). by injection E.
Qed.

Lemma decode_encode f : wf_fp f -> decode_one (encode_one f) = Ret (Some f).
Proof.
  destruct f as [n h d]. intros ((H1 & H2) & H3 & H4 & H5). simpl in *.
  unfold decode_one, encode_one. cbn [w_len w_fp64 w_sha256 fp_len fp_fp64 fp_sha256].
  destruct (Nat.ltb_spec n MIN_SECRET_LEN); [lia|].
  destruct (Nat.ltb_spec MAX_SECRET_LEN n); [lia|]. cbn [orb].
  rewrite from_str_radix_hex, dehex32_hex32; [done|done|done|lia| |].
  - unfold u64_range in H3. change (16 ^ Z.of_nat 16) with 18446744073709551616. lia.
  - unfold u64_range, u64_max in *. lia.
Qed.

Lemma decode_encode_all fps : Forall wf_fp fps -> decode_all (encode_one <$> fps) = Ret fps.
Proof.
  induction 1 as [|f fps Hf Hfps IH]; [done|].
  rewrite fmap_cons. cbn [decode_all]. by rewrite decode_encode, IH.
Qed.

Lemma decode_one_len w fp : decode_one w = Ret (Some fp) ->
  (MIN_SECRET_LEN <= fp_len fp <= MAX_SECRET_LEN)%nat.
Proof.
  unfold decode_one. destruct (_ || _) eqn:E; [done|].
  apply orb_false_iff in E as [E1%Nat.ltb_ge E2%Nat.ltb_ge].
  destruct (from_str_radix _ _ _); [|done]. destruct (dehex32 _) as [[d|]|]; [|done|done].
  intros [= <-]. simpl. lia.
Qed.

Lemma decode_all_len ws fps : decode_all ws = Ret fps ->
  Forall (fun fp => (MIN_SECRET_LEN <= fp_len fp <= MAX_SECRET_LEN)%nat) fps.
Proof.
  revert fps. induction ws as [|w ws IH]; intros fps; cbn [decode_all].
  - intros [= <-]. constructor.
  - destruct (decode_one w) as [o|] eqn:E; [|done].
    destruct (decode_all ws) as [rest|]; [|done]. specialize (IH rest eq_refl).
    destruct o as [fp|]; intros [= <-]; [|done].
    constructor; [by eapply decode_one_len|done].
Qed.

Lemma parse_hashes_len from_json s fps : parse_hashes from_json s = Ret fps ->
  Forall (fun fp => (MIN_SECRET_LEN <= fp_len fp <= MAX_SECRET_LEN)%nat) fps.
Proof.
  unfold parse_hashes. destruct (from_json s) as [file|]; [|intros [= <-]; constructor].
  destruct (negb _); [intros [= <-]; constructor|]. apply decode_all_len.
Qed.

Lemma max_key_bound (m : ByLen) k : (forall n, is_Some (m !! n) -> (n <= k)%nat) -> (max_key m <= k)%nat.
Proof.
  intros Hm. unfold max_key.
  assert (Hl : Forall (fun e : nat * Targets => (e.1 <= k)%nat) (map_to_list m)).
  { apply Forall_forall. intros [n t] Hin%elem_of_map_to_list. simpl. apply Hm. by exists t. }
  induction Hl as [|e l He _ IH]; [simpl; lia|]. rewrite fmap_cons. cbn [fold_right]. lia.
Qed.

(** * Theorems *)

(** Provisioning round trip: what the core serializes, the proxy parses
    back, fingerprint for fingerprint. *)
Theorem parse_serialize_hashes to_json from_json fps :
  (forall f, f = mkFile VERSION (encode_one <$> fps) -> from_json (to_json f) = Some f) ->
  Forall wf_fp fps ->
  parse_hashes from_json (serialize_hashes to_json fps) = Ret fps.
Proof.
  intros Hj Hwf. unfold parse_hashes, serialize_hashes. rewrite (Hj _ eq_refl). simpl.
  by apply decode_encode_all.
Qed.

(** A provisioning file cannot drive a large allocation: whatever its
    content, when it parses, the ring buffer of the matcher built from it has at
    most [MAX_SECRET_LEN + 1] bytes. *)
Theorem parsed_ring_bounded iter_order from_json s fps :
  parse_hashes from_json s = Ret fps ->
  (length (m_ring (new iter_order fps)) <= MAX_SECRET_LEN + 1)%nat.
Proof.
  intros Hp%parse_hashes_len. unfold new. cbn [m_ring]. rewrite length_replicate.
  assert (Hm : (max_key (group_by_len (fun p => 0 <? fp_len p)%nat fps) <= MAX_SECRET_LEN)%nat).
  { apply max_key_bound. intros n (p & Hin & _ & <-)%group_by_len_dom.
    rewrite Forall_forall in Hp. by apply Hp. }
  unfold MAX_SECRET_LEN in *. lia.
Qed.

(** A 64-byte digest field whose second character is two bytes long. *)
Definition bad_digest : bytes := bs "0" ++ [195; 169] ++ replicate 61 48.

(** A corrupt entry can crash the reader: the digest field of an otherwise
    valid entry may be 64 bytes of UTF-8 with a character across an even index,
    and slicing it there panics, where the comment on [parse_hashes] promises a
    partial list. *)
Theorem parse_hashes_panics from_json s h rest :
  from_json s = Some (mkFile VERSION (mkWire 8 (hex_fixed 16 h) bad_digest :: rest)) ->
  u64_range h -> parse_hashes from_json s = Panic.
Proof.
  intros Hj Hh. unfold parse_hashes. rewrite Hj. cbn [hf_version hf_secrets decode_all].
  change (negb (VERSION =? VERSION)) with false. cbv iota.
  assert (Hd : decode_one (mkWire 8 (hex_fixed 16 h) bad_digest) = Panic); [|by rewrite Hd].
  unfold decode_one. cbn [w_len w_fp64 w_sha256].
  change ((8 <? MIN_SECRET_LEN)%nat || (MAX_SECRET_LEN <? 8)%nat) with false. cbv iota.
  rewrite from_str_radix_hex; [|lia| |].
  - done.
  - unfold u64_range in Hh. change (16 ^ Z.of_nat 16) with 18446744073709551616. lia.
  - unfold u64_range, u64_max in *. lia.
Qed.

(** * Witnesses *)

(** Stand-ins for [serde_json] that know one file. *)
Definition one_file_to_json (f : HashesFile) : bytes := bs "{}".
Definition one_file_from_json (f : HashesFile) (s : bytes) : option HashesFile := Some f.

Lemma demo_pattern_wf : wf_fp demo_pattern.
Proof.
  split; [|split; [|split]].
  - unfold MIN_SECRET_LEN, MAX_SECRET_LEN. simpl. lia.
  - apply poly_range.
  - exact (@sha256_length demo_sha256 demo_secret).
  - exact (@sha256_bytes demo_sha256 demo_secret).
Qed.

Lemma parse_serialize_hashes_witness :
  parse_hashes (one_file_from_json (mkFile VERSION [encode_one demo_pattern]))
    (serialize_hashes one_file_to_json [demo_pattern]) = Ret [demo_pattern].
Proof.
  apply parse_serialize_hashes.
  - intros f ->. reflexivity.
  - constructor; [apply demo_pattern_wf|constructor].
Defined.

Lemma parsed_ring_bounded_witness :
  (length (m_ring (new id [demo_pattern])) <= MAX_SECRET_LEN + 1)%nat.
Proof.
  apply (parsed_ring_bounded id (one_file_from_json (mkFile VERSION [encode_one demo_pattern])) []).
  vm_compute. reflexivity.
Defined.

Lemma parse_hashes_panics_witness :
  parse_hashes (one_file_from_json (mkFile VERSION [mkWire 8 (hex_fixed 16 7) bad_digest]))
    (bs "{}") = Panic.
Proof.
  apply (parse_hashes_panics _ _ 7 []); [reflexivity | unfold u64_range; lia].
Defined.
