(* ===== verification/Allowlist.v ===== *)
(** The host allowlist of the net-egress workers
    (src/workers/web-common/src/allowlist.rs).

    Entries are trimmed and lowercased with the [UnicodeStr] interface; a rule
    matches one host exactly or a domain with its subdomains, optionally on one
    port only.  [serde_json::from_str] appears in [from_env_json] as the
    parameter [from_json]. *)

From stdpp Require Import base list numbers sets strings.
From Stdlib Require Import ZArith Lia.
From S2P Require Import Prelude RustStr.
Local Open Scope Z_scope.

Inductive HostMatch :=
| Exact (host : bytes)
| Suffix (domain : bytes).

Record Rule := mkRule { matcher : HostMatch; rule_port : option Z }.

Record HostAllowlist := mkAllowlist { rules : list Rule }.

(** ASCII codes of the separators. *)
Definition COLON : Z := 58.
Definition DOT : Z := 46.
Definition OPEN_BRACKET : Z := 91.
Definition CLOSE_BRACKET : Z := 93.

Definition matches (m : HostMatch) (host : bytes) : bool :=
  match m with
  | Exact x => bytes_eqb host x
  | Suffix d => bytes_eqb host d || ends_with (DOT :: d) host
  end.

Section Allowlist.
Context `{UnicodeStr}.

(** [s.trim().to_lowercase()] *)
Definition normalize_host (s : bytes) : bytes := to_lowercase (str_trim s).

Definition parse_host (token : bytes) : option HostMatch :=
  let e := normalize_host token in
  match e with
  | [] => None
  | _ =>
      match strip_prefix [DOT] e with
      | Some domain => match domain with [] => None | _ => Some (Suffix domain) end
      | None => Some (Exact e)
      end
  end.

Definition split_host_port (entry : bytes) : bytes * option Z :=
  let e := str_trim entry in
  let unbracketed :=
    match rsplit_once COLON e with
    | Some (host, port_str) =>
        if negb (contains [COLON] host)
        then match parse_u16 port_str with
             | Some port => (host, Some port)
             | None => (e, None)
             end
        else (e, None)
    | None => (e, None)
    end in
  match strip_prefix [OPEN_BRACKET] e with
  | Some rest =>
      match split_once CLOSE_BRACKET rest with
      | Some (host, after) =>
          (host, match strip_prefix [COLON] after with
                 | Some p => parse_u16 p
                 | None => None
                 end)
      | None => unbracketed
      end
  | None => unbracketed
  end.

Definition host_rule (entry : bytes) : option Rule :=
  match parse_host entry with Some m => Some (mkRule m None) | None => None end.

Definition endpoint_rule (entry : bytes) : option Rule :=
  let '(host, port) := split_host_port entry in
  match parse_host host with Some m => Some (mkRule m port) | None => None end.

Definition from_env_json (from_json : bytes -> result (list bytes) bytes) (raw : bytes)
    : result HostAllowlist bytes :=
  match from_json raw with
  | Err e => Err (bs "allowlist env is not a JSON array of strings: " ++ e)
  | Ok entries => Ok (mkAllowlist (omap host_rule entries))
  end.

Definition from_endpoints (entries : list bytes) : HostAllowlist :=
  mkAllowlist (omap endpoint_rule entries).

Definition is_allowed (al : HostAllowlist) (host : bytes) : bool :=
  let h := normalize_host host in
  existsb (fun r => matches (matcher r) h) (rules al).

Definition is_allowed_endpoint (al : HostAllowlist) (host : bytes) (port : Z) : bool :=
  let h := normalize_host host in
  existsb (fun r => matches (matcher r) h
                    && match rule_port r with None => true | Some p => p =? port end) (rules al).

(** The loop over the rules, with its [matched] flag. *)
Fixpoint port_scoped_loop (h : bytes) (rs : list Rule) (matched : bool) : bool :=
  match rs with
  | [] => matched
  | r :: rest =>
      if matches (matcher r) h
      then match rule_port r with
           | None => false
           | Some _ => port_scoped_loop h rest true
           end
      else port_scoped_loop h rest matched
  end.

Definition is_port_scoped (al : HostAllowlist) (host : bytes) : bool :=
  port_scoped_loop (normalize_host host) (rules al) false.

(** * Reference definitions *)

(** What one parsed rule grants. *)
Definition rule_grants (r : Rule) (h : bytes) (port : Z) : Prop :=
  (match matcher r with
   | Exact x => h = x
   | Suffix d => h = d \/ exists sub, h = sub ++ DOT :: d
   end) /\ (rule_port r = None \/ rule_port r = Some port).

(** * Lemmas *)

Lemma matches_spec m h :
  matches m h = true <->
  match m with
  | Exact x => h = x
  | Suffix d => h = d \/ exists sub, h = sub ++ DOT :: d
  end.
Proof.
  destruct m as [x|d]; simpl; [apply bytes_eqb_eq|].
  by rewrite orb_true_iff, bytes_eqb_eq, ends_with_true.
Qed.

Lemma is_allowed_endpoint_iff al host port :
  is_allowed_endpoint al host port = true <->
  exists r, r ∈ rules al /\ rule_grants r (normalize_host host) port.
Proof.
  unfold is_allowed_endpoint. rewrite existsb_exists. setoid_rewrite list_elem_of_In.
  unfold rule_grants. setoid_rewrite andb_true_iff. setoid_rewrite matches_spec.
  split; intros (r & Hr & Hm & Hp); exists r; (split; [done|]); (split; [done|]);
    destruct (rule_port r) as [p|].
  - right. f_equal. by apply Z.eqb_eq.
  - by left.
  - destruct Hp as [|[= ->]]; [done|]. apply Z.eqb_refl.
  - done.
Qed.

Lemma port_scoped_loop_spec h rs b :
  port_scoped_loop h rs b = true <->
  (b = true \/ exists r, r ∈ rs /\ matches (matcher r) h = true) /\
  (forall r, r ∈ rs -> matches (matcher r) h = true -> rule_port r <> None).
Proof.
  revert b. induction rs as [|r rs IH]; intros b; simpl.
  - set_solver.
  - destruct (matches (matcher r) h) eqn:Em.
    + destruct (rule_port r) as [p|] eqn:Ep.
      * rewrite IH. split.
        -- intros [_ Hall]. split; [right; exists r; set_solver|].
           intros r' [-> | Hr']%elem_of_cons Hm'; [by rewrite Ep|by apply Hall].
        -- intros [_ Hall]. split; [by left|]. set_solver.
      * split; [done|]. intros [_ Hall]. exfalso. apply (Hall r); [set_solver|done|done].
    + rewrite IH. split.
      * intros [Hor Hall]. split; [destruct Hor as [|(r' & ? & ?)]; [by left|right; exists r'; set_solver]|].
        intros r' [-> | Hr']%elem_of_cons Hm'; [congruence|by apply Hall].
      * intros [Hor Hall]. split; [|set_solver].
        destruct Hor as [|(r' & [-> | ?]%elem_of_cons & ?)]; [by left|congruence|right; eauto].
Qed.

Lemma parse_host_grants token m h :
  parse_host token = Some m ->
  match m with
  | Exact x => h = x
  | Suffix d => h = d \/ exists sub, h = sub ++ DOT :: d
  end ->
  forall c, c <> DOT -> c ∈ normalize_host token -> c ∈ h.
Proof.
  unfold parse_host. destruct (normalize_host token) as [|x e] eqn:E; [done|].
  destruct (strip_prefix [DOT] (x :: e)) as [d|] eqn:Ep.
  - apply strip_prefix_Some in Ep. simpl in Ep. injection Ep as -> ->.
    destruct d as [|y d]; [done|]. intros [= <-] Hh c Hc Hin.
    assert (c ∈ y :: d) by set_solver. destruct Hh as [-> | [sub ->]]; set_solver.
  - intros [= <-] -> c _ Hin. done.
Qed.

(** ** Theorems *)

(** An allowlist grants exactly what its entries say: [host:port] is
    allowed iff some entry parses to a rule whose host is the (trimmed,
    lowercased) host, or whose domain is the host or a dot-separated parent of
    it, and which names that port or no port. *)
Theorem allowed_endpoint_iff entries host port :
  is_allowed_endpoint (from_endpoints entries) host port = true <->
  exists entry r, entry ∈ entries /\ endpoint_rule entry = Some r /\
    rule_grants r (normalize_host host) port.
Proof.
  rewrite is_allowed_endpoint_iff. unfold from_endpoints. simpl.
  setoid_rewrite list_elem_of_omap. naive_solver.
Qed.

(** A malformed port never widens a grant: an ASCII entry [host:port]
    whose port is not a [u16] yields a rule that only grants hosts containing
    a colon, on no matter which port, so never the host it misspelt. *)
Theorem malformed_port_grants_no_host entry hst p r h port :
  is_ascii (str_trim entry) = true ->
  str_trim entry = hst ++ COLON :: p -> COLON ∉ hst -> strip_prefix [OPEN_BRACKET] hst = None ->
  hst <> [] -> parse_u16 p = None -> COLON ∉ p ->
  endpoint_rule entry = Some r -> rule_grants r h port -> COLON ∈ h.
Proof.
  intros Hasc He Hch Hob Hne Hport Hcp.
  assert (Hsplit : split_host_port entry = (str_trim entry, None)).
  { unfold split_host_port.
    assert (Hr : rsplit_once COLON (str_trim entry) = Some (hst, p))
      by (by apply rsplit_once_Some).
    assert (Hb : strip_prefix [OPEN_BRACKET] (str_trim entry) = None)
      by (rewrite He; destruct hst as [|x hst]; [done|];
          cbn [strip_prefix app] in *; by destruct (OPEN_BRACKET =? x)).
    rewrite Hb, Hr.
    destruct (contains [COLON] hst) eqn:Ec; simpl; [|by rewrite Hport].
    apply contains_true in Ec as (a & b & ->). set_solver. }
  unfold endpoint_rule. rewrite Hsplit.
  destruct (parse_host (str_trim entry)) as [m|] eqn:Em; [|done].
  intros [= <-] [Hm _]. cbn [matcher] in Hm.
  apply (parse_host_grants _ _ _ Em Hm); [done|].
  unfold normalize_host. rewrite (str_trim_ascii _ Hasc).
  assert (Hin : COLON ∈ trim_ascii (str_trim entry))
    by (apply trim_ascii_keeps; [done|]; rewrite He; set_solver).
  rewrite to_lowercase_ascii.
  - by apply to_ascii_lowercase_keeps.
  - eapply is_ascii_subset; [|exact Hasc]. intros x. apply trim_ascii_subset.
Qed.

(** The audit marker is honest: when a host is reported as port-scoped,
    every grant it enjoys names the port it is used on, and no bare entry
    grants it. *)
Theorem port_scoped_grants al host port :
  is_port_scoped al host = true ->
  is_allowed_endpoint al host port = true <->
  exists r, r ∈ rules al /\ matches (matcher r) (normalize_host host) = true /\
    rule_port r = Some port.
Proof.
  intros [_ Hall]%port_scoped_loop_spec. rewrite is_allowed_endpoint_iff.
  unfold rule_grants. setoid_rewrite <- matches_spec. split.
  - intros (r & Hr & Hm & [Hp|Hp]); [by destruct (Hall r Hr Hm)|eauto].
  - intros (r & Hr & Hm & Hp). eauto 10.
Qed.
End Allowlist.

(** * Witnesses *)

Lemma malformed_port_grants_no_host_witness : COLON ∈ bs "api.example.com:99999".
Proof.
  apply (malformed_port_grants_no_host (bs "api.example.com:99999") (bs "api.example.com")
           (bs "99999") (mkRule (Exact (bs "api.example.com:99999")) None)
           (bs "api.example.com:99999") 443);
    try (vm_compute; reflexivity); try (vm_compute; congruence).
  - apply (bool_decide_eq_false_1 (COLON ∈ _)). vm_compute. reflexivity.
  - apply (bool_decide_eq_false_1 (COLON ∈ _)). vm_compute. reflexivity.
  - split; [reflexivity | left; reflexivity].
Defined.

Lemma port_scoped_grants_witness :
  is_allowed_endpoint (from_endpoints [bs "api.example.com:443"]) (bs "API.example.com") 443 = true.
Proof.
  apply (port_scoped_grants (from_endpoints [bs "api.example.com:443"]) (bs "API.example.com") 443).
  - vm_compute. reflexivity.
  - exists (mkRule (Exact (bs "api.example.com")) (Some 443)). split; [|split].
    + apply list_elem_of_singleton. vm_compute. reflexivity.
    + vm_compute. reflexivity.
    + reflexivity.
Defined.
