(* ===== verification/EgressProxy.v ===== *)
(** The per-connection policy of the egress proxy
    (src/workers/egress-proxy/src/{request_line,proxy,report}.rs): parse the
    CONNECT line, consult the allowlist, resolve and range-check, dial the pinned
    address, then tunnel or intercept.

    The world a connection meets (what the client sent, what the resolver and the
    sockets answer, how interception ended) is the record [ConnEnv];
    [handle_conn] returns the actions it performs in order.  Reason texts are
    the constructors of [Reason], one per format string of the source.  Parsing
    an IP literal ([IpAddr::from_str]) and resolving are parameters. *)

From stdpp Require Import base list numbers sets strings.
From Stdlib Require Import ZArith Lia.
From S2P Require Import Prelude RustStr NetClassify Fingerprint HashesWire Allowlist.
Local Open Scope Z_scope.

(** * request_line.rs *)

Module RequestLine.
Inductive ParseError :=
| NotConnect (method : bytes) | MissingAuthority | MissingVersion | UnterminatedBracket
| MissingPortAfterBracket | MissingPort | EmptyHost | BadPort (port : bytes).

Definition SPACE : Z := 32.
Definition is_crlf (c : Z) : bool := (c =? 13) || (c =? 10).

(** [host:port], with [[v6]:port] for a bracketed IPv6 host. *)
Definition split_authority (authority : bytes) : result (bytes * Z) ParseError :=
  let parts :=
    match strip_prefix [OPEN_BRACKET] authority with
    | Some rest =>
        match find_byte CLOSE_BRACKET rest with
        | None => Err UnterminatedBracket
        | Some close =>
            match strip_prefix [COLON] (drop (close + 1) rest) with
            | None => Err MissingPortAfterBracket
            | Some port => Ok (take close rest, port)
            end
        end
    | None =>
        match rsplit_once COLON authority with
        | None => Err MissingPort
        | Some hp => Ok hp
        end
    end in
  match parts with
  | Err e => Err e
  | Ok (host, port_str) =>
      match host with
      | [] => Err EmptyHost
      | _ => match parse_u16 port_str with
             | None => Err (BadPort port_str)
             | Some port => Ok (host, port)
             end
      end
  end.

Definition parse_connect (line : bytes) : result (bytes * Z) ParseError :=
  let line := trim_end_matches is_crlf line in
  match split SPACE line with
  | [] => Err (NotConnect [])
  | method :: parts =>
      if negb (bytes_eqb method (bs "CONNECT")) then Err (NotConnect method)
      else match parts with
           | [] => Err MissingAuthority
           | authority :: parts' =>
               match parts' with
               | [] => Err MissingVersion
               | _ :: _ => split_authority authority
               end
           end
  end.
End RequestLine.
Import RequestLine.

(** * report.rs *)

Inductive Verdict :=
| Allowed | BlockedAllowlist | BlockedSsrf | BlockedCredentialLeak | BlockedTlsPin.

#[export] Instance verdict_eq_dec : EqDecision Verdict.
Proof. solve_decision. Defined.

Inductive Direction := Request | Response.

Record LeakReport := mkReport { lr_sha256_hex : bytes; lr_offset : nat; lr_direction : Direction }.

Record LeakDecision := mkLeak { ld_sha256 : bytes; ld_offset : nat; ld_direction : bytes }.

Inductive Reason :=
| UnreadableRequest | ParseFailed (e : ParseError)
| NotOnAllowlist (host : bytes) (port : Z) | ResolvedToNothing (host : bytes)
| ResolveFailed (e : bytes) | OnlyDeniedRanges (host : bytes)
| ConnectFailed (e : bytes) | AllowedBut200WriteFailed
| ReasonOk | ReasonHostOnlyEntry
| MitmRuntimeFailed (e : bytes) | CredentialLeakIn (d : Direction)
| PinMismatch | MitmFailed (e : bytes).

Record Decision := mkDecision {
  d_worker : bytes; d_host : bytes; d_port : Z; d_resolved_ip : option IpAddr;
  d_verdict : Verdict; d_reason : Reason; d_tls_intercepted : bool; d_leak : option LeakDecision }.

(** * proxy.rs *)

Inductive Target := Dial (ip : IpAddr) | Block (v : Verdict) (why : Reason).

Definition PIN_MISMATCH_MARKER : bytes := bs "certificate pin mismatch".

Definition direction_str (d : Direction) : bytes :=
  match d with Request => bs "request" | Response => bs "response" end.

Definition blocked (worker host : bytes) (port : Z) (v : Verdict) (why : Reason) : Decision :=
  mkDecision worker host port None v why false None.

Definition classify_mitm_error (err : bytes) : Verdict * Reason :=
  if contains PIN_MISMATCH_MARKER err then (BlockedTlsPin, PinMismatch)
  else (Allowed, MitmFailed err).

Definition looks_like_tls (first_byte : Z) : bool := first_byte =? 0x16.

(** How [mitm::intercept] ended: the runtime could not be built, or its
    [Result<Option<LeakReport>, String>]. *)
Inductive MitmEnd :=
| RuntimeFailed (e : bytes)
| Intercepted (r : result (option LeakReport) bytes).

Record ConnEnv := mkEnv {
  env_line : option bytes;                    (** [read_request_line] *)
  env_connect : IpAddr -> Z -> option bytes;  (** an error of the upstream dial *)
  env_write200 : bool;                        (** the 200 reached the client *)
  env_peek : option Z;                        (** first tunnel byte *)
  env_mitm : MitmEnd }.

Inductive Action :=
| Report (d : Decision) | Reply (status : Z) | Connect (ip : IpAddr) (port : Z)
| Tunnel | Intercept.

Section Proxy.
Context `{UnicodeStr}.
Variable parse_ip : bytes -> option IpAddr.
Variable resolve : bytes -> Z -> result (list IpAddr) bytes.

Definition decide_target (host : bytes) (port : Z) (allow : HostAllowlist) : Target :=
  if negb (is_allowed_endpoint allow host port)
  then Block BlockedAllowlist (NotOnAllowlist host port)
  else match parse_ip host with
       | Some literal => Dial literal
       | None =>
           match resolve host port with
           | Err e => Block BlockedSsrf (ResolveFailed e)
           | Ok [] => Block BlockedSsrf (ResolvedToNothing host)
           | Ok ips =>
               match List.find (fun ip => negb (is_denied_range ip)) ips with
               | Some ip => Dial ip
               | None => Block BlockedSsrf (OnlyDeniedRanges host)
               end
           end
       end.

Definition allowed_reason (allow : HostAllowlist) (host : bytes) : Reason :=
  if is_port_scoped allow host then ReasonOk else ReasonHostOnlyEntry.

(** The decisions [run_mitm] reports after the interception. *)
Definition run_mitm (worker host : bytes) (port : Z) (ip : IpAddr) (e : MitmEnd) : list Action :=
  match e with
  | RuntimeFailed e =>
      [Report (mkDecision worker host port (Some ip) Allowed (MitmRuntimeFailed e) true None)]
  | Intercepted (Ok None) => [Intercept]
  | Intercepted (Ok (Some r)) =>
      [Intercept;
       Report (mkDecision worker host port (Some ip) BlockedCredentialLeak
                 (CredentialLeakIn (lr_direction r)) true
                 (Some (mkLeak (lr_sha256_hex r) (lr_offset r) (direction_str (lr_direction r)))))]
  | Intercepted (Err e) =>
      let '(v, why) := classify_mitm_error e in
      [Intercept; Report (mkDecision worker host port (Some ip) v why true None)]
  end.

Definition handle_conn (env : ConnEnv) (worker : bytes) (allow : HostAllowlist)
    (disable_mitm : bool) : list Action :=
  match env_line env with
  | None => [Report (blocked worker [] 0 BlockedAllowlist UnreadableRequest)]
  | Some line =>
      match parse_connect line with
      | Err e => [Report (blocked worker [] 0 BlockedAllowlist (ParseFailed e)); Reply 400]
      | Ok (host, port) =>
          match decide_target host port allow with
          | Block v why => [Report (blocked worker host port v why); Reply 403]
          | Dial ip =>
              Connect ip port ::
              match env_connect env ip port with
              | Some e =>
                  [Report (mkDecision worker host port (Some ip) Allowed (ConnectFailed e) false None);
                   Reply 502]
              | None =>
                  Reply 200 ::
                  if negb (env_write200 env) then
                    [Report (mkDecision worker host port (Some ip) Allowed
                               AllowedBut200WriteFailed false None)]
                  else
                    let is_tls := negb disable_mitm &&
                      match env_peek env with Some b => looks_like_tls b | None => false end in
                    Report (mkDecision worker host port (Some ip) Allowed
                              (allowed_reason allow host) is_tls None) ::
                    (if is_tls then run_mitm worker host port ip (env_mitm env) else [Tunnel])
              end
          end
      end
  end.

(** The fingerprints a connection scans for: [None] is no configured path, and
    [Some None] a file that cannot be read. *)
Definition load_patterns (from_json : bytes -> option HashesFile) (file : option (option bytes))
    : outcome (list SecretFingerprint) :=
  match file with
  | None => Ret []
  | Some None => Ret []
  | Some (Some s) => parse_hashes from_json s
  end.

(** * Lemmas *)

(** The addresses the policy lets a target reach. *)
Definition reachable_ip (host : bytes) (port : Z) (ip : IpAddr) : Prop :=
  parse_ip host = Some ip \/
  (parse_ip host = None /\ exists ips before after,
     resolve host port = Ok ips /\ ips = before ++ ip :: after /\
     is_denied_range ip = false /\ Forall (fun i => is_denied_range i = true) before).

Lemma find_first_allowed ips ip :
  List.find (fun i => negb (is_denied_range i)) ips = Some ip <->
  exists before after, ips = before ++ ip :: after /\ is_denied_range ip = false /\
    Forall (fun i => is_denied_range i = true) before.
Proof.
  induction ips as [|x ips IH]; simpl.
  - split; [done|]. intros (b & a & E & _). by destruct b.
  - destruct (is_denied_range x) eqn:E; simpl.
    + rewrite IH. split.
      * intros (b & a & -> & Hd & Hb). exists (x :: b), a. split_and!; [done|done|by constructor].
      * intros ([|y b] & a & [= -> ->] & Hd & Hb); [congruence|].
        apply Forall_cons in Hb as [_ Hb]. eauto 10.
    + split.
      * intros [= ->]. exists [], ips. split_and!; [done|done|constructor].
      * intros ([|y b] & a & [= -> ->] & Hd & Hb); [done|].
        apply Forall_cons in Hb as [Hx _]. congruence.
Qed.

Definition reports (acts : list Action) : list Decision :=
  omap (fun a => match a with Report d => Some d | _ => None end) acts.

Lemma decide_target_dial host port allow ip :
  decide_target host port allow = Dial ip <->
  is_allowed_endpoint allow host port = true /\ reachable_ip host port ip.
Proof.
  unfold decide_target, reachable_ip.
  destruct (is_allowed_endpoint allow host port); simpl; [|naive_solver].
  destruct (parse_ip host) as [l|]; [naive_solver|].
  destruct (resolve host port) as [[|i ips]|e].
  - split; [done|]. intros [_ [|(_ & ips & b & a & [= <-] & E & _)]]; [done|]. by destruct b.
  - pose proof (find_first_allowed (i :: ips)) as Hf.
    destruct (List.find _ (i :: ips)) as [x|].
    + split.
      * intros [= <-]. split; [done|]. right. split; [done|].
        destruct (proj1 (Hf x) eq_refl) as (b & a & Hrest). exists (i :: ips), b, a. naive_solver.
      * intros [_ [|(_ & ips' & b & a & [= <-] & Hrest)]]; [done|].
        assert (Some x = Some ip) as [= ->] by (apply Hf; eauto). done.
    + split; [done|]. intros [_ [|(_ & ips' & b & a & [= <-] & Hrest)]]; [done|].
      assert (None = Some ip) by (apply Hf; eauto). done.
  - naive_solver.
Qed.

Lemma decide_target_block host port allow v why :
  decide_target host port allow = Block v why -> v = BlockedAllowlist \/ v = BlockedSsrf.
Proof.
  unfold decide_target. destruct (negb _); [naive_solver|].
  destruct (parse_ip host); [done|]. destruct (resolve host port) as [[|i ips]|e]; [naive_solver| |naive_solver].
  destruct (List.find _ _); naive_solver.
Qed.

Lemma run_mitm_acts worker host port ip e a :
  a ∈ run_mitm worker host port ip e -> a = Intercept \/ exists d, a = Report d /\ d_tls_intercepted d = true.
Proof.
  destruct e as [e | [[r|]|e]]; simpl; [..|destruct (classify_mitm_error e)];
    rewrite ?elem_of_cons, ?list_elem_of_singleton, ?elem_of_nil; naive_solver.
Qed.

Lemma run_mitm_reports worker host port ip e : (length (reports (run_mitm worker host port ip e)) <= 1)%nat.
Proof.
  destruct e as [e | [[r|]|e]]; simpl; [..|destruct (classify_mitm_error e)]; simpl; lia.
Qed.

(** ** Theorems *)


(** Bytes flow in [acts] only after an [Allowed] decision on a dialled address. *)
Definition flows_after_allow (acts : list Action) : Prop :=
  forall pre a post, acts = pre ++ a :: post -> a = Tunnel \/ a = Intercept ->
    exists d rest ip, reports pre = d :: rest /\ d_verdict d = Allowed /\
      d_resolved_ip d = Some ip /\ Connect ip (d_port d) ∈ pre.

Lemma no_flow acts : Tunnel ∉ acts -> Intercept ∉ acts -> flows_after_allow acts.
Proof. intros Ht Hi pre a post -> [-> | ->]; set_solver. Qed.

Lemma flow_after_report ip d tail :
  d_verdict d = Allowed -> d_resolved_ip d = Some ip ->
  flows_after_allow (Connect ip (d_port d) :: Reply 200 :: Report d :: tail).
Proof.
  intros Hv Hr pre a post E Ha.
  destruct pre as [|x1 [|x2 [|x3 pre]]]; simplify_eq/=; [naive_solver..|].
  exists d, (reports pre), ip. split_and!; [done|done|done|set_solver].
Qed.

(** The audit trail is complete and ordered: every connection reports one
    decision, or two when TLS was intercepted; a connection that dials nothing
    reports exactly one decision, a block, and bytes only flow (tunnel or
    interception) after a reported decision with the verdict [Allowed] on the
    address that was dialled. *)
Theorem handle_conn_audit env worker allow disable_mitm :
  let acts := handle_conn env worker allow disable_mitm in
  (1 <= length (reports acts) <= 2)%nat /\
  (length (reports acts) = 2%nat -> Forall (fun d => d_tls_intercepted d = true) (reports acts)) /\
  ((forall ip port, Connect ip port ∉ acts) ->
     exists d, reports acts = [d] /\ (d_verdict d = BlockedAllowlist \/ d_verdict d = BlockedSsrf)) /\
  flows_after_allow acts.
Proof.
  cbv zeta. unfold handle_conn.
  destruct (env_line env) as [line|];
    [|split_and!; simpl; [lia|lia|done|eauto|apply no_flow; set_solver]].
  destruct (parse_connect line) as [[host p]|e];
    [|split_and!; simpl; [lia|lia|done|eauto|apply no_flow; set_solver]].
  destruct (decide_target host p allow) as [ip|v why] eqn:Ed;
    [|apply decide_target_block in Ed; split_and!; simpl; [lia|lia|done|eauto|apply no_flow; set_solver]].
  destruct (env_connect env ip p);
    [split_and!; simpl; [lia|lia|done| |apply no_flow; set_solver]; intros Hno; set_solver|].
  destruct (negb (env_write200 env));
    [split_and!; simpl; [lia|lia|done| |apply no_flow; set_solver]; intros Hno; set_solver|].
  set (is_tls := negb disable_mitm && _).
  set (d := mkDecision _ _ _ _ _ _ _ _).
  assert (Hflow : forall tail, flows_after_allow (Connect ip p :: Reply 200 :: Report d :: tail))
    by (intros tail; by apply (flow_after_report ip d)).
  split_and!; [| | | |apply Hflow]; try (intros Hno; exfalso; apply (Hno ip p); set_solver).
  - change (1 <= S (length (reports (if is_tls then run_mitm worker host p ip (env_mitm env) else [Tunnel]))))%nat. lia.
  - change (S (length (reports (if is_tls then run_mitm worker host p ip (env_mitm env) else [Tunnel]))) <= 2)%nat.
    pose proof (run_mitm_reports worker host p ip (env_mitm env)). destruct is_tls; simpl; lia.
  - destruct is_tls eqn:Et; [|done]. intros _. constructor; [done|].
    apply Forall_forall. intros d' Hd'. unfold reports in Hd'.
    apply list_elem_of_omap in Hd' as (a & Ha & Hm).
    apply run_mitm_acts in Ha. destruct a; naive_solver.
Qed.

(** TLS cannot slip past inspection: on an approved, established tunnel
    whose first byte is a TLS handshake record, with interception enabled, the
    bytes are never passed through, and interception happens for no other
    kind of tunnel. *)
Theorem tls_is_intercepted env worker allow disable_mitm line host port ip :
  env_line env = Some line -> parse_connect line = Ok (host, port) ->
  decide_target host port allow = Dial ip -> env_connect env ip port = None ->
  env_write200 env = true ->
  let acts := handle_conn env worker allow disable_mitm in
  if negb disable_mitm && bool_decide (env_peek env = Some 0x16)
  then Tunnel ∉ acts /\ exists d, head (reports acts) = Some d /\ d_tls_intercepted d = true
  else Tunnel ∈ acts /\ Intercept ∉ acts.
Proof.
  intros Hl Hp Hd Hc Hw. cbv zeta. unfold handle_conn. rewrite Hl, Hp, Hd, Hc, Hw. simpl negb.
  assert (Hpk : match env_peek env with Some b => looks_like_tls b | None => false end
                = bool_decide (env_peek env = Some 0x16)).
  { destruct (env_peek env) as [b|]; [|by rewrite bool_decide_false].
    unfold looks_like_tls. apply bool_eq_iff. rewrite Z.eqb_eq, bool_decide_eq_true. naive_solver. }
  rewrite Hpk. destruct (negb disable_mitm && _).
  - split; [|eexists; split; reflexivity].
    rewrite !not_elem_of_cons. split_and!; [done|done|done|]. intros Hin.
    apply run_mitm_acts in Hin. naive_solver.
  - set_solver.
Qed.
End Proxy.

(** * Request lines *)

(** The request line a client sends for an authority. *)
Definition connect_line (authority : bytes) : bytes :=
  bs "CONNECT" ++ SPACE :: authority ++ SPACE :: bs "HTTP/1." ++ 49 :: [13; 10].

Definition authority_of (bracketed : bool) (host port : bytes) : bytes :=
  if bracketed then OPEN_BRACKET :: host ++ CLOSE_BRACKET :: COLON :: port
  else host ++ COLON :: port.

Lemma parse_connect_line authority : SPACE ∉ authority ->
  parse_connect (connect_line authority) = split_authority authority.
Proof.
  intros Hs.
  assert (Ht : trim_end_matches is_crlf (connect_line authority)
               = bs "CONNECT" ++ SPACE :: authority ++ SPACE :: bs "HTTP/1.1").
  { replace (connect_line authority)
      with ((bs "CONNECT" ++ SPACE :: authority ++ SPACE :: bs "HTTP/1.") ++ 49 :: [13; 10])
      by (unfold connect_line; simpl; by rewrite <- app_assoc).
    rewrite trim_end_matches_app; [|done|by repeat constructor].
    simpl. by rewrite <- app_assoc. }
  unfold parse_connect. rewrite Ht.
  rewrite split_app by (apply (bool_decide_eq_false_1 (SPACE ∈ _)); reflexivity).
  by rewrite split_app.
Qed.

(** CONNECT lines parse to what they name: for a plain or a bracketed host
    and a decimal port, the line a client sends is read back as that host and
    that port. *)
Theorem parse_connect_roundtrip (bracketed : bool) (host port_str : bytes) (port : Z) :
  host <> [] -> SPACE ∉ host -> SPACE ∉ port_str -> COLON ∉ port_str ->
  parse_u16 port_str = Some port ->
  (if bracketed then CLOSE_BRACKET ∉ host else strip_prefix [OPEN_BRACKET] host = None) ->
  parse_connect (connect_line (authority_of bracketed host port_str)) = Ok (host, port).
Proof.
  intros Hne Hsh Hsp Hcp Hport Hb. rewrite parse_connect_line by (destruct bracketed; simpl; set_solver).
  unfold split_authority, authority_of. destruct bracketed.
  - cbn [strip_prefix]. rewrite Z.eqb_refl.
    assert (Hf : find_byte CLOSE_BRACKET (host ++ CLOSE_BRACKET :: COLON :: port_str) = Some (length host)).
    { apply find_byte_Some. rewrite take_app_length. split; [|done].
      by rewrite lookup_app_r, Nat.sub_diag. }
    rewrite Hf, take_app_length.
    replace (drop (length host + 1) (host ++ CLOSE_BRACKET :: COLON :: port_str)) with (COLON :: port_str)
      by (rewrite <- drop_drop, drop_app_length; done).
    cbn [strip_prefix]. rewrite Z.eqb_refl. destruct host; [done|]. by rewrite Hport.
  - assert (Hs : strip_prefix [OPEN_BRACKET] (host ++ COLON :: port_str) = None)
      by (destruct host as [|x host]; [done|]; cbn [strip_prefix app] in *; by destruct (OPEN_BRACKET =? x)).
    rewrite Hs, (proj2 (rsplit_once_Some COLON _ host port_str)) by done.
    destruct host; [done|]. by rewrite Hport.
Qed.

(** * Witnesses *)

Definition demo_allow : HostAllowlist := from_endpoints [bs "example.org:443"].
Definition demo_ip : IpAddr := V4 (mkV4 93 184 216 34).
Definition demo_resolve (host : bytes) (port : Z) : result (list IpAddr) bytes :=
  Ok [V4 (mkV4 127 0 0 1); demo_ip].
Definition demo_env : ConnEnv :=
  mkEnv (Some (connect_line (bs "example.org:443"))) (fun _ _ => None) true (Some 0x16)
    (Intercepted (Ok None)).


Lemma tls_is_intercepted_witness :
  Tunnel ∉ handle_conn (fun _ => None) demo_resolve demo_env (bs "web-fetch") demo_allow false.
Proof.
  pose proof (tls_is_intercepted (fun _ => None) demo_resolve demo_env (bs "web-fetch") demo_allow false
                (connect_line (bs "example.org:443")) (bs "example.org") 443 demo_ip
                eq_refl eq_refl eq_refl eq_refl eq_refl) as Hw.
  exact (proj1 Hw).
Defined.

Lemma parse_connect_roundtrip_witness :
  parse_connect (connect_line (authority_of true (bs "::1") (bs "8443"))) = Ok (bs "::1", 8443).
Proof.
  apply parse_connect_roundtrip; try reflexivity; try (vm_compute; congruence);
    (apply (bool_decide_eq_false_1 (_ ∈ _)); vm_compute; reflexivity).
Defined.
