(* ===== verification/Relay.v ===== *)
(** The scanning relay of an intercepted tunnel
    (src/workers/egress-proxy/src/mitm/relay.rs).

    [pump] reads a chunk, scans it, and only then writes it; two pumps run
    concurrently under one [select!].  A pump is a state machine over the I/O
    events of its direction ([PumpEvent]: what [read] returned, how far
    [write_all] came); [relay_step] lets either unfinished pump take the next
    event, so its reachable states are those of every interleaving, a relay
    that ends while the other pump is in the middle of a write included. *)

From stdpp Require Import base list numbers gmap sets strings.
From Stdlib Require Import ZArith Lia Relations.
From S2P Require Import Prelude RustStr Fingerprint RollingMatcher EgressProxy.
Local Open Scope nat_scope.

Definition RELAY_BUF : nat := 16 * 1024.

(** What a poll of one pump meets: the outcome of a [read], or the progress of
    the [write_all] of the chunk read last. *)
Inductive PumpEvent :=
| ReadErr (e : bytes)                       (** [read] failed *)
| ReadEof                                   (** [read] returned 0 *)
| ReadChunk (chunk : bytes)                 (** [read] filled [buf[..n]] *)
| Wrote (k : nat)                           (** [write_all] moved [k] more bytes *)
| WriteErr (e : bytes).                     (** [write_all] failed *)

Record Pump := mkPump {
  p_matcher : RollingMatcher;
  p_forwarded : bytes;        (** bytes handed to the peer so far *)
  p_pending : bytes;          (** scanned bytes [write_all] still has to move *)
  p_done : bool }.            (** end of stream seen, write half shut down *)

(** [Result<Option<LeakReport>, String>] *)
Abbreviation PumpResult := (result (option LeakReport) bytes).

Record RelayState := mkRelay {
  rs_req : Pump; rs_resp : Pump; rs_final : option PumpResult }.

Definition get_pump (d : Direction) (st : RelayState) : Pump :=
  match d with Request => rs_req st | Response => rs_resp st end.

Definition set_pump (d : Direction) (p : Pump) (f : option PumpResult) (st : RelayState) : RelayState :=
  match d with
  | Request => mkRelay p (rs_resp st) f
  | Response => mkRelay (rs_req st) p f
  end.

Section Relay.
Context `{Sha256}.
Variable iter_order : list (nat * Targets) -> list (nat * Targets).
Hypothesis iter_order_perm : forall l, iter_order l ≡ₚ l.
Variable patterns : list SecretFingerprint.

(** One poll of [pump]: the new state and, when the future resolves, its
    result. *)
Definition pump_step (dir : Direction) (p : Pump) (ev : PumpEvent) : Pump * option PumpResult :=
  match ev with
  | ReadErr e =>
      (p, Some (Err (bs "relay " ++ direction_str dir ++ bs " read: " ++ e)))
  | ReadEof => (mkPump (p_matcher p) (p_forwarded p) (p_pending p) true, Some (Ok None))
  | ReadChunk chunk =>
      match feed (p_matcher p) chunk with
      | (m, Some hit) =>
          (mkPump m (p_forwarded p) (p_pending p) (p_done p),
           Some (Ok (Some (mkReport (hit_sha256_hex hit) (hit_offset hit) dir))))
      | (m, None) => (mkPump m (p_forwarded p) chunk (p_done p), None)
      end
  | Wrote k =>
      (mkPump (p_matcher p) (p_forwarded p ++ take k (p_pending p)) (drop k (p_pending p)) (p_done p),
       None)
  | WriteErr e =>
      (p, Some (Err (bs "relay " ++ direction_str dir ++ bs " write: " ++ e)))
  end.

Definition pump_init : Pump := mkPump (new iter_order patterns) [] [] false.

Definition relay_init : RelayState := mkRelay pump_init pump_init None.

(** What the [select!] loop does with a resolved pump: a leak or an error ends
    the relay, a clean end of stream marks its direction, and the relay ends
    once both directions have. *)
Definition after_pump (d : Direction) (p : Pump) (r : option PumpResult) (st : RelayState) : RelayState :=
  match r with
  | None => set_pump d p None st
  | Some (Err e) => set_pump d p (Some (Err e)) st
  | Some (Ok (Some report)) => set_pump d p (Some (Ok (Some report))) st
  | Some (Ok None) =>
      let st' := set_pump d p None st in
      if p_done (rs_req st') && p_done (rs_resp st')
      then mkRelay (rs_req st') (rs_resp st') (Some (Ok None))
      else st'
  end.

(** The events a pump can meet where it stands: it reads, into the relay
    buffer, only once the previous chunk is written out. *)
Definition wf_event (p : Pump) (ev : PumpEvent) : Prop :=
  match ev with
  | ReadErr _ | ReadEof => p_pending p = []
  | ReadChunk chunk => p_pending p = [] /\ 0 < length chunk <= RELAY_BUF
  | Wrote k => 0 < k <= length (p_pending p)
  | WriteErr _ => p_pending p <> []
  end.

Inductive relay_step : RelayState -> RelayState -> Prop :=
| step_pump st d ev p r :
    rs_final st = None -> p_done (get_pump d st) = false -> wf_event (get_pump d st) ev ->
    pump_step d (get_pump d st) ev = (p, r) ->
    relay_step st (after_pump d p r st).

Definition reachable (st : RelayState) : Prop := clos_refl_trans_1n _ relay_step relay_init st.

(** * Lemmas *)

(** A pump has forwarded a prefix of a stream that holds no confirmed leak. *)
Definition pump_ok (p : Pump) : Prop :=
  exists s, p_forwarded p `prefix_of` s /\
    (forall q e, q ∈ patterns -> ~ leak_at q s e).

(** While its relay runs, what its matcher saw is what it has forwarded and
    what it still has to write, and that is clean. *)
Definition pump_live (p : Pump) : Prop :=
  matcher_ok patterns (p_forwarded p ++ p_pending p) (p_matcher p) /\
  (forall q e, q ∈ patterns -> ~ leak_at q (p_forwarded p ++ p_pending p) e).

Definition relay_ok (st : RelayState) : Prop :=
  pump_ok (rs_req st) /\ pump_ok (rs_resp st) /\
  (rs_final st = None -> pump_live (rs_req st) /\ pump_live (rs_resp st)).

Lemma pump_live_ok p : pump_live p -> pump_ok p.
Proof.
  intros [_ Hn]. exists (p_forwarded p ++ p_pending p). split; [by apply prefix_app_r|done].
Qed.

(** A clean stream extended by a chunk the matcher passes is clean. *)
Lemma clean_app s c :
  (forall q e, q ∈ patterns -> ~ leak_at q s e) ->
  (forall q e, q ∈ patterns -> length s < e -> ~ leak_at q (s ++ c) e) ->
  forall q e, q ∈ patterns -> ~ leak_at q (s ++ c) e.
Proof.
  intros Hn Hno q e Hq Hleak. destruct (decide (e <= length s)) as [Hle | Hgt].
  - apply (Hn q e Hq). by apply (leak_at_app q _ c).
  - apply (Hno q e Hq); [lia|done].
Qed.

Lemma pump_step_ok d p ev p' r :
  pump_live p -> wf_event p ev -> pump_step d p ev = (p', r) ->
  pump_ok p' /\ (r = None \/ r = Some (Ok None) -> pump_live p').
Proof.
  intros Hl Hw Hs. pose proof (pump_live_ok p Hl) as Hok. destruct Hl as [Hm Hn].
  destruct ev as [e| |chunk|k|e]; cbn [pump_step wf_event] in Hs, Hw.
  - injection Hs as <- <-. split; [done|]. intros [|]; done.
  - injection Hs as <- <-. split; [done|]. by intros _.
  - destruct Hw as [Hp _]. rewrite Hp, app_nil_r in *.
    pose proof (feed_spec iter_order iter_order_perm patterns _ chunk _ Hm) as Hf.
    unfold feed_result in Hf. destruct (feed (p_matcher p) chunk) as [m [h|]].
    + injection Hs as <- <-. split; [done|]. intros [|]; done.
    + destruct Hf as [Hm' Hno]. injection Hs as <- <-.
      assert (Hl' : pump_live (mkPump m (p_forwarded p) chunk (p_done p)))
        by (split; [done|by apply clean_app]).
      split; [by apply pump_live_ok|by intros _].
  - injection Hs as <- <-.
    assert (Hl' : pump_live (mkPump (p_matcher p) (p_forwarded p ++ take k (p_pending p))
                               (drop k (p_pending p)) (p_done p)))
      by (split; cbn; rewrite <- app_assoc, take_drop; done).
    split; [by apply pump_live_ok|by intros _].
  - injection Hs as <- <-. split; [done|]. intros [|]; done.
Qed.

Lemma relay_step_ok st st' : relay_ok st -> relay_step st st' -> relay_ok st'.
Proof.
  intros (Hq & Hp & Hlive) Hstep. destruct Hstep as [st d ev p r Hf Hd Hw Hs].
  destruct (Hlive Hf) as [Lq Lp].
  assert (Hl : pump_live (get_pump d st)) by (by destruct d).
  destruct (pump_step_ok d _ ev p r Hl Hw Hs) as [Hok Hlv].
  destruct r as [[[report|]|e]|]; simpl.
  - destruct d; split_and!; simpl; done.
  - specialize (Hlv (or_intror eq_refl)).
    destruct d; simpl; destruct (_ && _); split_and!; simpl; done.
  - destruct d; split_and!; simpl; done.
  - specialize (Hlv (or_introl eq_refl)). destruct d; split_and!; simpl; done.
Qed.

Lemma relay_init_ok : relay_ok relay_init.
Proof.
  assert (Hl : pump_live pump_init).
  { split; [by apply new_ok|]. intros q e _ Hleak. unfold leak_at in Hleak. simpl in Hleak. lia. }
  split_and!; [by apply pump_live_ok..|done].
Qed.

Lemma reachable_ok st : reachable st -> relay_ok st.
Proof.
  intros Hr. unfold reachable in Hr.
  assert (Hgen : forall a b, clos_refl_trans_1n _ relay_step a b -> relay_ok a -> relay_ok b).
  { induction 1 as [|a b c Hab Hbc IH]; [done|]. intros Ha. apply IH. by eapply relay_step_ok. }
  exact (Hgen _ _ Hr relay_init_ok).
Qed.

(** C6. No secret crosses an intercepted tunnel: in every state the relay can
    reach, under every interleaving of the two directions, every split of the
    streams into reads and every I/O failure, the bytes forwarded in either
    direction do not contain the value of a provisioned secret. *)
Theorem relay_forwards_no_secret st d v fp :
  reachable st -> fingerprint_value v = Some fp -> fp ∈ patterns ->
  forall a b, p_forwarded (get_pump d st) <> a ++ v ++ b.
Proof.
  intros Hr Hf Hin a b E. destruct (reachable_ok st Hr) as (Hq & Hp & _).
  assert (Hok : pump_ok (get_pump d st)) by (by destruct d).
  destruct Hok as (s & [t Ht] & Hno).
  apply (Hno fp (length a + length v) Hin). eapply secret_leaks; [done|].
  by rewrite Ht, E, <- !app_assoc.
Qed.

(** A leak is always the end: when a pump reads a chunk that completes a
    provisioned secret, the relay stops with that leak's report, the chunk is
    not forwarded, and no step follows. *)
Theorem relay_leak_is_final st d chunk v fp a b :
  reachable st -> rs_final st = None -> p_pending (get_pump d st) = [] ->
  fingerprint_value v = Some fp -> fp ∈ patterns ->
  p_forwarded (get_pump d st) ++ chunk = a ++ v ++ b ->
  exists p report, pump_step d (get_pump d st) (ReadChunk chunk) = (p, Some (Ok (Some report))) /\
    lr_direction report = d /\ p_forwarded p = p_forwarded (get_pump d st) /\
    (forall st', ~ relay_step (after_pump d p (Some (Ok (Some report))) st) st').
Proof.
  intros Hr Hf Hp Hfp Hin E. destruct (reachable_ok st Hr) as (_ & _ & Hlive).
  assert (Hl : pump_live (get_pump d st)) by (destruct (Hlive Hf); by destruct d).
  destruct Hl as [Hm Hn]. rewrite Hp, app_nil_r in *. cbn [pump_step].
  pose proof (feed_spec iter_order iter_order_perm patterns _ chunk _ Hm) as Hs.
  unfold feed_result in Hs. destruct (feed _ chunk) as [m [h|]].
  - eexists _, _. split; [reflexivity|]. split; [done|]. split; [done|].
    intros st' Hstep. inversion Hstep. destruct d; simpl in *; done.
  - destruct Hs as [_ Hno].
    destruct (clean_app _ _ Hn Hno fp _ Hin (secret_leaks v fp _ a b Hfp E)).
Qed.
End Relay.

(** * Witnesses *)

Definition relay_do (d : Direction) (ev : PumpEvent) (st : RelayState) : RelayState :=
  let '(p, r) := pump_step d (get_pump d st) ev in after_pump d p r st.

Lemma relay_do_step d ev st :
  rs_final st = None -> p_done (get_pump d st) = false -> wf_event (get_pump d st) ev ->
  relay_step st (relay_do d ev st).
Proof.
  intros. unfold relay_do. destruct (pump_step d (get_pump d st) ev) eqn:E. by eapply step_pump.
Qed.

(** The request pump has read and written one innocent chunk. *)
Definition demo_relay : RelayState :=
  relay_do Request (Wrote 17)
    (relay_do Request (ReadChunk (bs "GET /hunter2-hunt")) (relay_init id [demo_pattern])).

Lemma demo_relay_reachable : reachable id [demo_pattern] demo_relay.
Proof.
  eapply Relation_Operators.rt1n_trans.
  { apply (relay_do_step Request (ReadChunk (bs "GET /hunter2-hunt")));
      [reflexivity|reflexivity|split; [reflexivity|vm_compute; lia]]. }
  eapply Relation_Operators.rt1n_trans; [|apply rt1n_refl].
  apply (relay_do_step Request (Wrote 17)); [vm_compute; reflexivity..|vm_compute; lia].
Qed.

Lemma relay_forwards_no_secret_witness :
  p_forwarded (rs_req demo_relay) = bs "GET /hunter2-hunt" /\
  p_forwarded (rs_req demo_relay) <> bs "GET /" ++ demo_secret ++ [].
Proof.
  split; [vm_compute; reflexivity|].
  exact (relay_forwards_no_secret id (fun l => reflexivity l) [demo_pattern] demo_relay Request
           demo_secret demo_pattern demo_relay_reachable eq_refl (list_elem_of_here _ _)
           (bs "GET /") []).
Defined.

Lemma relay_leak_is_final_witness :
  exists p report,
    pump_step Request (rs_req demo_relay) (ReadChunk (bs "er2!"))
      = (p, Some (Ok (Some report))) /\ lr_direction report = Request.
Proof.
  destruct (relay_leak_is_final id (fun l => reflexivity l) [demo_pattern]
              demo_relay Request (bs "er2!") demo_secret
              demo_pattern (bs "GET /") (bs "!") demo_relay_reachable eq_refl eq_refl eq_refl
              (list_elem_of_here _ _) ltac:(vm_compute; reflexivity)) as (p & report & H1 & H2 & _).
  exists p, report. exact (conj H1 H2).
Defined.
