(* ===== verification/Effects.v ===== *)
(** Effectful Rust as programs over an abstract world.

    A program is a function of the world and of the trace of what was done so
    far; it returns a [Result], the new world and the new trace.  The world is
    whatever answers the effects (the database, the model, the workers, the
    clock), so a theorem about a program holds for every behaviour of its
    environment.  The trace is newest first.  [spec m P Q] is the Hoare triple of
    [m]: from a trace that satisfies [P], whatever the world, the result and the
    trace satisfy [Q]. *)

From stdpp Require Import base list.
From S2P Require Import Prelude.

Section Effects.
Context {W Ev E : Type}.

Definition prog (A : Type) : Type := W -> list Ev -> result A E * W * list Ev.

Definition ret {A} (a : A) : prog A := fun w t => (Ok a, w, t).

(** [Err(e)?] *)
Definition throw {A} (e : E) : prog A := fun w t => (Err e, w, t).

Definition bind {A B} (m : prog A) (k : A -> prog B) : prog B := fun w t =>
  match m w t with
  | (Ok a, w', t') => k a w' t'
  | (Err e, w', t') => (Err e, w', t')
  end.

(** An effect answered by the world. *)
Definition effect {A} (f : W -> A * W) : prog A := fun w t => let '(a, w') := f w in (Ok a, w', t).

(** A fallible effect whose error is propagated with [?]. *)
Definition fallible {A} (f : W -> result A E * W) : prog A := fun w t =>
  let '(r, w') := f w in (r, w', t).

(** Record what was done. *)
Definition emit (e : Ev) : prog () := fun w t => (Ok tt, w, e :: t).

(** An audit insert that must succeed, and one that is best-effort: the row is
    in the trace exactly when the insert succeeded. *)
Definition insert_row (f : W -> result () E * W) (row : Ev) : prog () := fun w t =>
  match f w with
  | (Ok _, w') => (Ok tt, w', row :: t)
  | (Err e, w') => (Err e, w', t)
  end.

Definition insert_row_best_effort (f : W -> result () E * W) (row : Ev) : prog () := fun w t =>
  match f w with
  | (Ok _, w') => (Ok tt, w', row :: t)
  | (Err _, w') => (Ok tt, w', t)
  end.

(** ** Triples *)

Definition spec {A} (P : list Ev -> Prop) (m : prog A) (Q : result A E -> list Ev -> Prop) : Prop :=
  forall w t, P t -> let '(r, _, t') := m w t in Q r t'.

Lemma spec_ret {A} (a : A) (P : list Ev -> Prop) (Q : result A E -> list Ev -> Prop) :
  (forall t, P t -> Q (Ok a) t) -> spec P (ret a) Q.
Proof. intros H w t Ht. by apply H. Qed.

Lemma spec_throw {A} e (P : list Ev -> Prop) (Q : result A E -> list Ev -> Prop) :
  (forall t, P t -> Q (Err e) t) -> spec P (throw e) Q.
Proof. intros H w t Ht. by apply H. Qed.

Lemma spec_bind {A B} P (m : prog A) (R : result A E -> list Ev -> Prop) (k : A -> prog B) Q :
  spec P m R -> (forall e t, R (Err e) t -> Q (Err e) t) ->
  (forall a, spec (R (Ok a)) (k a) Q) -> spec P (bind m k) Q.
Proof.
  intros Hm He Hk w t Ht. unfold bind. specialize (Hm w t Ht). destruct (m w t) as [[[a|e] w'] t'].
  - by apply Hk.
  - by apply He.
Qed.

Lemma spec_effect {A} (f : W -> A * W) (P : list Ev -> Prop) (Q : result A E -> list Ev -> Prop) :
  (forall a t, P t -> Q (Ok a) t) -> spec P (effect f) Q.
Proof. intros H w t Ht. unfold effect. destruct (f w) as [a w']. by apply H. Qed.

Lemma spec_fallible {A} (f : W -> result A E * W) (P : list Ev -> Prop) (Q : result A E -> list Ev -> Prop) :
  (forall r t, P t -> Q r t) -> spec P (fallible f) Q.
Proof. intros H w t Ht. unfold fallible. destruct (f w) as [r w']. by apply H. Qed.

Lemma spec_emit e (P : list Ev -> Prop) (Q : result () E -> list Ev -> Prop) :
  (forall t, P t -> Q (Ok tt) (e :: t)) -> spec P (emit e) Q.
Proof. intros H w t Ht. by apply H. Qed.

Lemma spec_insert_row f row (P : list Ev -> Prop) (Q : result () E -> list Ev -> Prop) :
  (forall t, P t -> Q (Ok tt) (row :: t)) -> (forall e t, P t -> Q (Err e) t) ->
  spec P (insert_row f row) Q.
Proof. intros H1 H2 w t Ht. unfold insert_row. destruct (f w) as [[[]|e] w']; eauto. Qed.

Lemma spec_insert_row_best_effort f row (P : list Ev -> Prop) (Q : result () E -> list Ev -> Prop) :
  (forall t, P t -> Q (Ok tt) (row :: t)) -> (forall t, P t -> Q (Ok tt) t) ->
  spec P (insert_row_best_effort f row) Q.
Proof. intros H1 H2 w t Ht. unfold insert_row_best_effort. destruct (f w) as [[[]|e] w']; eauto. Qed.

Lemma spec_weaken {A} (P P' : list Ev -> Prop) (m : prog A) (Q Q' : result A E -> list Ev -> Prop) :
  spec P' m Q' -> (forall t, P t -> P' t) -> (forall r t, Q' r t -> Q r t) -> spec P m Q.
Proof. intros Hm HP HQ w t Ht. specialize (Hm w t (HP t Ht)). destruct (m w t) as [[r w'] t']. auto. Qed.

Lemma spec_exists {A X} (P : X -> list Ev -> Prop) (m : prog A) Q :
  (forall x, spec (P x) m Q) -> spec (fun t => exists x, P x t) m Q.
Proof. intros H w t [x Hx]. by apply (H x). Qed.

Lemma spec_pure {A} (P : list Ev -> Prop) (phi : Prop) (m : prog A) Q :
  (phi -> spec P m Q) -> spec (fun t => P t /\ phi) m Q.
Proof. intros H w t [Ht Hp]. by apply (H Hp). Qed.

Lemma spec_assume {A} (P : list Ev -> Prop) (phi : Prop) (m : prog A) Q :
  (forall t, P t -> phi) -> (phi -> spec P m Q) -> spec P m Q.
Proof. intros Hp H w t Ht. exact (H (Hp t Ht) w t Ht). Qed.

(** ** Sequencing *)

Lemma spec_bind_effect {A B} (f : W -> A * W) (k : A -> prog B) P Q :
  (forall a, spec P (k a) Q) -> spec P (bind (effect f) k) Q.
Proof.
  intros Hk. apply (spec_bind _ _ (fun r t => match r with Ok _ => P t | Err _ => False end));
    [by apply spec_effect|done|done].
Qed.

Lemma spec_bind_fallible {A B} (f : W -> result A E * W) (k : A -> prog B) P Q :
  (forall e t, P t -> Q (Err e) t) -> (forall a, spec P (k a) Q) -> spec P (bind (fallible f) k) Q.
Proof.
  intros He Hk. apply (spec_bind _ _ (fun _ => P)); [by apply spec_fallible|done|done].
Qed.

Lemma spec_bind_emit {B} e (k : () -> prog B) (P P' : list Ev -> Prop) Q :
  (forall t, P t -> P' (e :: t)) -> spec P' (k tt) Q -> spec P (bind (emit e) k) Q.
Proof.
  intros HP Hk. apply (spec_bind _ _ (fun r t => match r with Ok _ => P' t | Err _ => False end));
    [by apply spec_emit|done|by intros []].
Qed.

Lemma spec_bind_row {B} f e (k : () -> prog B) (P P' : list Ev -> Prop) Q :
  (forall t, P t -> P' (e :: t)) -> (forall err t, P t -> Q (Err err) t) ->
  spec P' (k tt) Q -> spec P (bind (insert_row f e) k) Q.
Proof.
  intros HP He Hk. apply (spec_bind _ _ (fun r t => match r with Ok _ => P' t | Err _ => P t end));
    [by apply spec_insert_row|done|by intros []].
Qed.

Lemma spec_bind_best_effort {B} f e (k : () -> prog B) (P : list Ev -> Prop) Q :
  (forall t, P t -> P (e :: t)) -> spec P (k tt) Q ->
  spec P (bind (insert_row_best_effort f e) k) Q.
Proof.
  intros HP Hk. apply (spec_bind _ _ (fun r t => match r with Ok _ => P t | Err _ => False end));
    [by apply spec_insert_row_best_effort|done|by intros []].
Qed.
End Effects.
Arguments prog : clear implicits.

Declare Scope prog_scope.
Delimit Scope prog_scope with prog.
Notation "'let*' x := m 'in' k" := (bind m (fun x => k))
  (at level 200, x pattern, m at level 100, k at level 200, right associativity) : prog_scope.
Notation "m ;;; k" := (bind m (fun _ => k)) (at level 199, right associativity) : prog_scope.
