(* ===== verification/Json.v ===== *)
(** JSON values as the code holds them ([serde_json::Value]): the enum, the
    accessors the sources use, and objects as the sorted key/value sequence a
    [BTreeMap]-backed [serde_json::Map] keeps (the workspace does not enable
    [preserve_order]).  Text is UTF-8 bytes. *)

From stdpp Require Import base list sets numbers strings pretty.
From Stdlib Require Import ZArith Lia.
From S2P Require Import Prelude RustStr.
Local Open Scope Z_scope.

(** A number is an integer or the text of a finite float. *)
Inductive JNum := NInt (z : Z) | NFloat (text : bytes).

Inductive Value :=
| Null
| Bool (b : bool)
| Number (n : JNum)
| String (s : bytes)
| Array (l : list Value)
| Object (m : list (bytes * Value)).

(** Induction with hypotheses for the elements of arrays and objects. *)
Section ValueInd.
Variable P : Value -> Prop.
Hypothesis HNull : P Null.
Hypothesis HBool : forall b, P (Bool b).
Hypothesis HNumber : forall n, P (Number n).
Hypothesis HString : forall s, P (String s).
Hypothesis HArray : forall l, Forall P l -> P (Array l).
Hypothesis HObject : forall m, Forall (fun kv => P kv.2) m -> P (Object m).

Fixpoint Value_ind' (v : Value) : P v :=
  match v with
  | Null => HNull
  | Bool b => HBool b
  | Number n => HNumber n
  | String s => HString s
  | Array l =>
      HArray l ((fix go (l : list Value) : Forall P l :=
        match l with
        | [] => Forall_nil_2 _
        | v :: l' => Forall_cons_2 _ _ _ (Value_ind' v) (go l')
        end) l)
  | Object m =>
      HObject m ((fix go (m : list (bytes * Value)) : Forall (fun kv => P kv.2) m :=
        match m with
        | [] => Forall_nil_2 _
        | kv :: m' => Forall_cons_2 _ _ _ (Value_ind' kv.2) (go m')
        end) m)
  end.
End ValueInd.

(** * Objects *)

(** Byte-lexicographic order, the [Ord] of [String]. *)
Fixpoint bytes_ltb (a b : bytes) : bool :=
  match a, b with
  | _, [] => false
  | [], _ :: _ => true
  | x :: a', y :: b' => (x <? y) || ((x =? y) && bytes_ltb a' b')
  end.

(** [Map::insert]: in key order, replacing an equal key. *)
Fixpoint map_insert {A} (k : bytes) (v : A) (m : list (bytes * A)) : list (bytes * A) :=
  match m with
  | [] => [(k, v)]
  | (k', v') :: m' =>
      if bytes_eqb k k' then (k, v) :: m'
      else if bytes_ltb k k' then (k, v) :: m
      else (k', v') :: map_insert k v m'
  end.

Fixpoint map_get {A} (k : bytes) (m : list (bytes * A)) : option A :=
  match m with
  | [] => None
  | (k', v) :: m' => if bytes_eqb k k' then Some v else map_get k m'
  end.

(** The [json!] object literal. *)
Definition object (fields : list (bytes * Value)) : Value :=
  Object (fold_left (fun m kv => map_insert kv.1 kv.2 m) fields []).

(** * Accessors *)

Definition get (k : bytes) (v : Value) : option Value :=
  match v with Object m => map_get k m | _ => None end.

Definition as_str (v : Value) : option bytes :=
  match v with String s => Some s | _ => None end.

Definition as_array (v : Value) : option (list Value) :=
  match v with Array l => Some l | _ => None end.

(** * Serialising the std types the sources embed *)

Definition opt_value {A} (f : A -> Value) (o : option A) : Value :=
  match o with None => Null | Some a => f a end.

Definition int_value (z : Z) : Value := Number (NInt z).

(** [{}] of an unsigned integer. *)
Definition show_nat (n : nat) : bytes := bs (pretty (N.of_nat n)).

(** * Lemmas *)

Lemma bytes_eqb_refl a : bytes_eqb a a = true.
Proof. by apply bytes_eqb_eq. Qed.

Lemma bytes_eqb_false a b : bytes_eqb a b = false <-> a <> b.
Proof. apply bool_decide_eq_false. Qed.

Lemma map_get_insert {A} k (v : A) m : map_get k (map_insert k v m) = Some v.
Proof.
  induction m as [|[k' v'] m IH]; simpl; [by rewrite bytes_eqb_refl|].
  destruct (bytes_eqb k k') eqn:E; [simpl; by rewrite bytes_eqb_refl|].
  destruct (bytes_ltb k k'); simpl; [by rewrite bytes_eqb_refl|]. by rewrite E.
Qed.

Lemma map_get_insert_ne {A} k k' (v : A) m : k <> k' -> map_get k (map_insert k' v m) = map_get k m.
Proof.
  intros Hne. apply bytes_eqb_false in Hne as Hf.
  induction m as [|[k0 v0] m IH]; simpl; [by rewrite Hf|].
  destruct (bytes_eqb k' k0) eqn:E.
  - apply bytes_eqb_eq in E as ->. simpl. by rewrite Hf.
  - destruct (bytes_ltb k' k0); simpl; [by rewrite Hf|]. by rewrite IH.
Qed.

Lemma opt_value_inj {A} (f : A -> Value) x y :
  (forall a b, f a = f b -> a = b) -> (forall a, f a <> Null) ->
  opt_value f x = opt_value f y -> x = y.
Proof.
  intros Hf Hn. destruct x as [a|], y as [b|]; simpl; intros E; [f_equal; by apply Hf|..|done].
  - by destruct (Hn a).
  - by destruct (Hn b).
Qed.

Lemma map_get_fold {A} k (fs : list (bytes * A)) m :
  k ∉ fs.*1 -> map_get k (fold_left (fun m kv => map_insert kv.1 kv.2 m) fs m) = map_get k m.
Proof.
  revert m. induction fs as [|[k' v'] fs IH]; intros m Hk; [done|]. csimpl in *.
  apply not_elem_of_cons in Hk as [Hne Hk]. rewrite IH by done. by apply map_get_insert_ne.
Qed.

Lemma object_get k v fs : NoDup fs.*1 -> (k, v) ∈ fs -> get k (object fs) = Some v.
Proof.
  intros Hnd Hin. unfold object. simpl. generalize (@nil (bytes * Value)) as m.
  induction fs as [|[k' v'] fs IH]; intros m; [by apply not_elem_of_nil in Hin|]. csimpl in *.
  apply NoDup_cons in Hnd as [Hk Hnd]. apply elem_of_cons in Hin as [[= <- <-] | Hin]; [|by apply IH].
  rewrite map_get_fold by done. apply map_get_insert.
Qed.

(** An object literal determines the values of its fields. *)
Lemma object_inj fs gs : fs.*1 = gs.*1 -> NoDup fs.*1 -> object fs = object gs -> fs = gs.
Proof.
  intros Hk Hnd E. apply list_eq. intros i.
  destruct (fs !! i) as [[k v]|] eqn:Ef.
  - assert (Hg : gs.*1 !! i = Some k) by (by rewrite <- Hk, list_lookup_fmap, Ef).
    rewrite list_lookup_fmap in Hg. destruct (gs !! i) as [[k' v']|] eqn:Eg; [|done].
    injection Hg as ->.
    pose proof (object_get k v fs Hnd (list_elem_of_lookup_2 _ _ _ Ef)) as H1.
    rewrite Hk in Hnd.
    pose proof (object_get k v' gs Hnd (list_elem_of_lookup_2 _ _ _ Eg)) as H2.
    rewrite E, H2 in H1. by injection H1 as ->.
  - assert (Hg : gs.*1 !! i = None) by (by rewrite <- Hk, list_lookup_fmap, Ef).
    rewrite list_lookup_fmap in Hg. by destruct (gs !! i).
Qed.

Lemma map_inj {A} (f : A -> Value) xs ys :
  (forall a b, f a = f b -> a = b) -> map f xs = map f ys -> xs = ys.
Proof.
  intros Hf. revert ys. induction xs as [|x xs IH]; intros [|y ys]; simpl; [done..|].
  intros [= H1 H2]. f_equal; [by apply Hf|by apply IH].
Qed.

(** The keys of a concrete object literal are distinct. *)
Ltac solve_keys := apply (bool_decide_unpack _); vm_compute; exact I.

(** Split an equality of two object literals with the same keys into the
    equalities of their fields. *)
Ltac object_fields H :=
  apply object_inj in H; [|reflexivity|solve_keys].

(** * Decidable equality *)

#[global] Instance JNum_eq_dec : EqDecision JNum.
Proof. solve_decision. Defined.

Fixpoint value_eqb (a b : Value) : bool :=
  match a, b with
  | Null, Null => true
  | Bool x, Bool y => eqb x y
  | Number x, Number y => bool_decide (x = y)
  | String x, String y => bytes_eqb x y
  | Array x, Array y =>
      (fix go (x y : list Value) : bool :=
         match x, y with
         | [], [] => true
         | v :: x', w :: y' => value_eqb v w && go x' y'
         | _, _ => false
         end) x y
  | Object x, Object y =>
      (fix go (x y : list (bytes * Value)) : bool :=
         match x, y with
         | [], [] => true
         | v :: x', w :: y' => bytes_eqb v.1 w.1 && value_eqb v.2 w.2 && go x' y'
         | _, _ => false
         end) x y
  | _, _ => false
  end.

Lemma value_eqb_eq a b : value_eqb a b = true <-> a = b.
Proof.
  revert b. induction a as [|x|x|x|x IH|x IH] using Value_ind'; intros [|y|y|y|y|y]; simpl; try done.
  - rewrite eqb_true_iff. naive_solver.
  - rewrite bool_decide_eq_true. naive_solver.
  - rewrite bytes_eqb_eq. naive_solver.
  - trans (x = y); [|naive_solver]. revert y. induction IH as [|v x Hv Hx IHx]; intros [|w y]; try done.
    rewrite andb_true_iff, Hv, IHx. naive_solver.
  - trans (x = y); [|naive_solver]. revert y.
    induction IH as [|[k v] x Hv Hx IHx]; intros [|[k' w] y]; try done.
    rewrite !andb_true_iff, bytes_eqb_eq, Hv, IHx. naive_solver.
Qed.

#[global] Instance Value_eq_dec : EqDecision Value.
Proof.
  intros a b. destruct (value_eqb a b) eqn:E.
  - left. by apply value_eqb_eq.
  - right. intros ->. by rewrite (proj2 (value_eqb_eq b b) eq_refl) in E.
Defined.

(** * Objects with optional fields *)

Lemma object_map_get k fs : NoDup fs.*1 -> get k (object fs) = map_get k fs.
Proof.
  intros Hnd. destruct (decide (k ∈ fs.*1)) as [Hin | Hout].
  - apply list_elem_of_fmap in Hin as ([k' v] & -> & Hin). rewrite (object_get k' v) by done.
    symmetry. clear -Hnd Hin. induction fs as [|[k0 v0] fs IH]; [by apply not_elem_of_nil in Hin|].
    csimpl in *. apply NoDup_cons in Hnd as [H1 H2].
    apply elem_of_cons in Hin as [[= -> ->] | Hin]; [by rewrite bytes_eqb_refl|].
    destruct (bytes_eqb k' k0) eqn:E; [|by apply IH].
    apply bytes_eqb_eq in E as ->. destruct H1. apply list_elem_of_fmap. by exists (k0, v).
  - unfold object. simpl. rewrite map_get_fold by done. simpl. symmetry.
    clear Hnd. induction fs as [|[k0 v0] fs IH]; [done|]. csimpl in *.
    apply not_elem_of_cons in Hout as [Hne Hout]. apply bytes_eqb_false in Hne. rewrite Hne. by apply IH.
Qed.

(** [skip_serializing_if = "Option::is_none"] *)
Definition opt_field {A} (k : bytes) (f : A -> Value) (o : option A) : list (bytes * Value) :=
  match o with Some a => [(k, f a)] | None => [] end.

Lemma map_get_opt_field {A} k k' (f : A -> Value) o rest :
  map_get k (opt_field k' f o ++ rest) =
  if bytes_eqb k k' then match o with Some a => Some (f a) | None => map_get k rest end
  else map_get k rest.
Proof. destruct o; simpl; by destruct (bytes_eqb k k'). Qed.

(** Evaluate [map_get] of a concrete key in a literal list of fields. *)
Ltac lookup_field :=
  cbn [app map_get];
  repeat (rewrite map_get_opt_field || rewrite bytes_eqb_refl
          || (rewrite (proj2 (bytes_eqb_false _ _)) by done));
  cbn [map_get fmap option_fmap option_map].

Lemma opt_field_sublist {A} k (f : A -> Value) o rest ks :
  sublist rest.*1 ks -> sublist (opt_field k f o ++ rest).*1 (k :: ks).
Proof. intros H. destruct o; simpl; [by apply sublist_skip|by apply sublist_cons]. Qed.

(** A field of a derived [Deserialize]: required, or an [Option] for which a
    missing field and [null] are both [None]. *)
Definition req_field {A} (k : bytes) (f : Value -> option A) (v : Value) : option A := get k v ≫= f.

Definition option_field {A} (k : bytes) (f : Value -> option A) (v : Value) : option (option A) :=
  match get k v with
  | None | Some Null => Some None
  | Some w => Some <$> f w
  end.

Lemma option_field_Some {A} k (f : Value -> option A) v w a :
  get k v = Some w -> w <> Null -> f w = Some a -> option_field k f v = Some (Some a).
Proof. intros Hg Hn Hf. unfold option_field. rewrite Hg. destruct w; by rewrite ?Hf. Qed.

Lemma option_field_enc {A} k (enc : A -> Value) (dec : Value -> option A) v o :
  get k v = enc <$> o -> (forall a, o = Some a -> dec (enc a) = Some a /\ enc a <> Null) ->
  option_field k dec v = Some o.
Proof.
  intros Hg Hc. destruct o as [a|]; simpl in Hg.
  - destruct (Hc a eq_refl). by eapply option_field_Some.
  - unfold option_field. by rewrite Hg.
Qed.

Lemma mapM_enc {A} (enc : A -> Value) (dec : Value -> option A) l :
  Forall (fun a => dec (enc a) = Some a) l -> mapM dec (map enc l) = Some l.
Proof.
  intros H. induction H as [|a l Ha Hl IH]; [done|]. cbn [map mapM]. rewrite Ha.
  cbn [mbind option_bind]. by rewrite IH.
Qed.

Definition array_of {A} (f : Value -> option A) (v : Value) : option (list A) :=
  as_array v ≫= mapM f.

(** * Values as the parser builds them *)

(** Every object of a [serde_json::Value] lists its keys in strictly increasing
    order: that is the representation of the map. *)
Definition key_lt (a b : bytes) : Prop := bytes_ltb a b = true.

#[global] Instance key_lt_dec a b : Decision (key_lt a b).
Proof. unfold key_lt. apply _. Defined.

Fixpoint keys_sorted (ks : list bytes) : bool :=
  match ks with
  | k :: t => forallb (fun k' => bytes_ltb k k') t && keys_sorted t
  | [] => true
  end.

Fixpoint canonical (v : Value) : bool :=
  match v with
  | Array l => forallb canonical l
  | Object m => keys_sorted m.*1 && forallb (fun kv => canonical kv.2) m
  | _ => true
  end.

#[global] Instance key_lt_irrefl : Irreflexive key_lt.
Proof.
  intros a Ha. unfold key_lt in Ha. induction a as [|x a IH]; simpl in Ha; [done|].
  rewrite Z.ltb_irrefl, Z.eqb_refl in Ha. by apply IH.
Qed.

#[global] Instance key_lt_trans : Transitive key_lt.
Proof.
  unfold key_lt. intros a. induction a as [|x a IH]; intros [|y b] [|z c]; simpl; try done.
  rewrite !orb_true_iff, !andb_true_iff, !Z.ltb_lt, !Z.eqb_eq. intros [?|[? ?]] [?|[? ?]]; [left; lia..|].
  right. split; [lia|]. by eapply IH.
Qed.

Lemma key_lt_total a b : key_lt a b \/ a = b \/ key_lt b a.
Proof.
  unfold key_lt. revert b. induction a as [|x a IH]; intros [|y b]; simpl; auto.
  rewrite !orb_true_iff, !andb_true_iff, !Z.ltb_lt, !Z.eqb_eq.
  destruct (Z.lt_total x y) as [?|[->|?]]; [auto| |auto].
  destruct (IH b) as [?|[->|?]]; auto.
Qed.

Lemma key_lt_not a b : key_lt a b -> bytes_eqb b a = false /\ bytes_ltb b a = false.
Proof.
  intros Hab. split.
  - apply bytes_eqb_false. intros ->. by apply (irreflexivity key_lt) in Hab.
  - destruct (bytes_ltb b a) eqn:E; [|done]. exfalso.
    apply (irreflexivity key_lt a). by transitivity b.
Qed.

Lemma map_insert_last {A} k (v : A) m :
  Forall (fun k' => key_lt k' k) m.*1 -> map_insert k v m = m ++ [(k, v)].
Proof.
  intros H. induction m as [|[k' v'] m IH]; simpl; [done|]. csimpl in *.
  apply Forall_cons in H as [H1 H2]. destruct (key_lt_not k' k H1) as [-> ->]. by rewrite IH.
Qed.

Lemma keys_sorted_cons k ks :
  keys_sorted (k :: ks) = true <-> Forall (key_lt k) ks /\ keys_sorted ks = true.
Proof. simpl. rewrite andb_true_iff, forallb_forall, list.Forall_forall. by setoid_rewrite list_elem_of_In. Qed.

Arguments keys_sorted : simpl never.

Lemma fold_insert_sorted {A} (fs m : list (bytes * A)) :
  keys_sorted (m ++ fs).*1 = true -> fold_left (fun m kv => map_insert kv.1 kv.2 m) fs m = m ++ fs.
Proof.
  revert m. induction fs as [|[k v] fs IH]; intros m Hs; simpl; [by rewrite app_nil_r|].
  assert (Hm : map_insert k v m = m ++ [(k, v)]).
  { apply map_insert_last. clear IH. rewrite fmap_app in Hs. csimpl in *.
    induction m as [|[k' v'] m IHm]; csimpl in *; [done|].
    apply keys_sorted_cons in Hs as [Hlt Hs]. apply Forall_app in Hlt as [_ Hlt].
    apply Forall_cons in Hlt as [Hlt _]. constructor; auto. }
  rewrite Hm, IH; rewrite <- !app_assoc; [done|by simpl].
Qed.

(** Rebuilding an object from its own entries gives it back. *)
Lemma object_sorted fs : keys_sorted fs.*1 = true -> object fs = Object fs.
Proof. intros Hs. unfold object. by rewrite fold_insert_sorted. Qed.

Lemma map_insert_keys {A} k (v : A) m x : x ∈ (map_insert k v m).*1 <-> x = k \/ x ∈ m.*1.
Proof.
  induction m as [|[k' v'] m IH]; simpl; [set_solver|].
  destruct (bytes_eqb k k') eqn:E; [apply bytes_eqb_eq in E as ->; csimpl; set_solver|].
  destruct (bytes_ltb k k'); csimpl; [set_solver|]. rewrite !elem_of_cons, IH. tauto.
Qed.

Lemma map_insert_sorted {A} k (v : A) m : keys_sorted m.*1 = true -> keys_sorted (map_insert k v m).*1 = true.
Proof.
  induction m as [|[k' v'] m IH]; [done|]. intros Hs. csimpl in Hs. apply keys_sorted_cons in Hs as [Hlt Hs].
  cbn [map_insert]. destruct (bytes_eqb k k') eqn:E.
  { apply bytes_eqb_eq in E as ->. csimpl. by apply keys_sorted_cons. }
  destruct (bytes_ltb k k') eqn:E'; csimpl; apply keys_sorted_cons.
  - split; [|by apply keys_sorted_cons]. constructor; [done|].
    eapply list.Forall_impl; [exact Hlt|]. intros x Hx. by transitivity k'.
  - split; [|by apply IH]. apply list.Forall_forall. intros x Hx. apply map_insert_keys in Hx as [->|Hx].
    + destruct (key_lt_total k k') as [?|[->|?]]; [congruence| |done]. by rewrite bytes_eqb_refl in E.
    + by eapply list.Forall_forall in Hlt.
Qed.

Lemma keys_sorted_nodup ks : keys_sorted ks = true -> NoDup ks.
Proof.
  induction ks as [|k ks IH]; [constructor|]. rewrite keys_sorted_cons. intros [Hlt Hs].
  constructor; [|by apply IH]. intros Hin. eapply list.Forall_forall in Hlt; [|exact Hin].
  by apply (irreflexivity key_lt) in Hlt.
Qed.

(** Two objects with the same entries are the same object. *)
Lemma map_get_elem {A} k (v : A) m : keys_sorted m.*1 = true -> map_get k m = Some v <-> (k, v) ∈ m.
Proof.
  intros Hs%keys_sorted_nodup. induction m as [|[k' v'] m IH]; csimpl in *; [set_solver|].
  apply NoDup_cons in Hs as [Hk Hs]. rewrite elem_of_cons. destruct (bytes_eqb k k') eqn:E.
  - apply bytes_eqb_eq in E as ->. split; [intros [= ->]; by left|].
    intros [[= ->] | Hin]; [done|]. destruct Hk. apply list_elem_of_fmap. by exists (k', v).
  - apply bytes_eqb_false in E. rewrite IH by done. naive_solver.
Qed.
