(* ===== verification/NulRule.v ===== *)
(** The NUL rule for Postgres writes (src/db/src/nul.rs): a record column is
    escaped, every NUL becoming U+2400 in strings and in keys, an identity
    column is refused.  Escaped keys can collide; the loop that renames them is
    given one unit of fuel per entry of the object and one more, which
    [fresh_key_found] shows to be enough. *)

From stdpp Require Import base list sets numbers strings pretty.
From Stdlib Require Import ZArith Lia.
From S2P Require Import Prelude RustStr Json.
Local Open Scope nat_scope.

(** U+2400 in UTF-8. *)
Definition NUL_ESCAPE : bytes := [226; 144; 128]%Z.

Definition count_nuls (s : bytes) : nat := length (List.filter (fun b => b =? 0)%Z s).

Definition escape_byte (b : Z) : bytes := if (b =? 0)%Z then NUL_ESCAPE else [b].

Definition escape_str (s : bytes) : bytes * nat :=
  let count := count_nuls s in
  if count =? 0 then (s, 0) else (flat_map escape_byte s, count).

Fixpoint map_remove {A} (k : bytes) (m : list (bytes * A)) : list (bytes * A) :=
  match m with
  | [] => []
  | (k', v) :: m' => if bytes_eqb k k' then m' else (k', v) :: map_remove k m'
  end.

Definition has_key {A} (k : bytes) (m : list (bytes * A)) : bool := existsb (bytes_eqb k) m.*1.

Definition has_nul (s : bytes) : bool := existsb (fun b => b =? 0)%Z s.

(** [while map.contains_key(&escaped) { escaped.push(NUL_ESCAPE) }] *)
Fixpoint fresh_key {A} (fuel : nat) (k : bytes) (m : list (bytes * A)) : bytes :=
  match fuel with
  | O => k
  | S f => if has_key k m then fresh_key f (k ++ NUL_ESCAPE) m else k
  end.

(** One key that holds a NUL: removed and inserted again under a free name. *)
Definition rekey_one {A} (m : list (bytes * A)) (key : bytes) : list (bytes * A) :=
  match map_get key m with
  | None => m
  | Some value =>
      let m1 := map_remove key m in
      map_insert (fresh_key (S (length m1)) (escape_str key).1 m1) value m1
  end.

Definition rekey {A} (m : list (bytes * A)) : list (bytes * A) :=
  fold_left rekey_one (List.filter has_nul m.*1) m.

Definition sum_nat (l : list nat) : nat := fold_right Nat.add 0 l.

Definition key_nuls {A} (m : list (bytes * A)) : nat := sum_nat (map (fun k => (escape_str k).2) (List.filter has_nul m.*1)).

Fixpoint escape_value (v : Value) : Value * nat :=
  match v with
  | String s => let '(s', n) := escape_str s in (String s', n)
  | Array l => (Array (map (fun v => (escape_value v).1) l), sum_nat (map (fun v => (escape_value v).2) l))
  | Object m =>
      let m' := map (fun kv => (kv.1, (escape_value kv.2).1)) m in
      (Object (rekey m'), sum_nat (map (fun kv => (escape_value kv.2).2) m) + key_nuls m')
  | other => (other, 0)
  end.

Definition escape_json (v : Value) : Value * nat := escape_value v.

Definition escape_opt_json (v : option Value) : option Value * nat :=
  match v with Some v => let '(v', n) := escape_json v in (Some v', n) | None => (None, 0) end.

Fixpoint json_contains_nul (v : Value) : bool :=
  match v with
  | String s => has_nul s
  | Array l => existsb json_contains_nul l
  | Object m => existsb (fun kv => has_nul kv.1 || json_contains_nul kv.2) m
  | _ => false
  end.

Definition nul_refused (column : bytes) : bytes := bs "refusing to store a NUL (U+0000) in " ++ column.

Definition refuse_nul_in_text (column s : bytes) : result () bytes :=
  if has_nul s then Err (nul_refused column) else Ok tt.

Definition refuse_nul_in_json (column : bytes) (v : Value) : result () bytes :=
  if json_contains_nul v then Err (nul_refused column) else Ok tt.

(** * Reference *)

(** All the NULs of a value, in strings and in keys. *)
Fixpoint nul_total (v : Value) : nat :=
  match v with
  | String s => count_nuls s
  | Array l => sum_nat (map nul_total l)
  | Object m => sum_nat (map (fun kv => count_nuls kv.1 + nul_total kv.2) m)
  | _ => 0
  end.

(** * Lemmas *)

Lemma has_nul_count s : has_nul s = negb (count_nuls s =? 0).
Proof.
  unfold has_nul, count_nuls. induction s as [|b s IH]; [done|]. simpl. rewrite IH.
  destruct (b =? 0)%Z; [done|]. done.
Qed.

Lemma escape_str_count s : (escape_str s).2 = count_nuls s.
Proof. unfold escape_str. destruct (count_nuls s =? 0) eqn:E; [|done]. apply Nat.eqb_eq in E. by rewrite E. Qed.

Lemma escape_str_clean s : has_nul (escape_str s).1 = false.
Proof.
  unfold escape_str. destruct (count_nuls s =? 0) eqn:E; simpl; [by rewrite has_nul_count, E|].
  clear E. unfold has_nul. induction s as [|b s IH]; [done|]. cbn [flat_map]. rewrite existsb_app, IH, orb_false_r.
  unfold escape_byte. destruct (b =? 0)%Z eqn:E; [done|]. simpl. by rewrite E.
Qed.

Lemma escape_str_id s : has_nul s = false -> escape_str s = (s, 0).
Proof. rewrite has_nul_count. unfold escape_str. by intros ->%negb_false_iff. Qed.

Lemma has_key_true {A} k (m : list (bytes * A)) : has_key k m = true <-> k ∈ m.*1.
Proof.
  unfold has_key. rewrite existsb_exists. setoid_rewrite bytes_eqb_eq. setoid_rewrite <- list_elem_of_In. naive_solver.
Qed.

Fixpoint padded (n : nat) (k : bytes) : bytes := match n with O => k | S n' => padded n' (k ++ NUL_ESCAPE) end.

Lemma padded_length n k : length (padded n k) = length k + 3 * n.
Proof. revert k. induction n as [|n IH]; intros k; simpl; [lia|]. rewrite IH, length_app. simpl. lia. Qed.

Lemma padded_clean n k : has_nul k = false -> has_nul (padded n k) = false.
Proof.
  revert k. induction n as [|n IH]; intros k Hk; [done|]. apply IH. unfold has_nul in *. by rewrite existsb_app, Hk.
Qed.

Lemma fresh_key_padded {A} f k (m : list (bytes * A)) : exists n, n <= f /\ fresh_key f k m = padded n k /\
  (forall i, i < n -> padded i k ∈ m.*1) /\ (n < f -> fresh_key f k m ∉ m.*1).
Proof.
  revert k. induction f as [|f IH]; intros k; simpl; [exists 0; split_and!; [done..|lia|lia]|].
  destruct (has_key k m) eqn:E.
  - destruct (IH (k ++ NUL_ESCAPE)) as (n & H1 & H2 & H3 & H4). exists (S n). split_and!; [lia|done| |intros; apply H4; lia].
    intros [|i] Hi; [by apply has_key_true|]. apply H3. lia.
  - exists 0. split_and!; [lia|done|lia|]. intros _ Hin. apply has_key_true in Hin. congruence.
Qed.

(** One attempt per entry and one more find a free key. *)
Lemma fresh_key_found {A} k (m : list (bytes * A)) : fresh_key (S (length m)) k m ∉ m.*1.
Proof.
  destruct (fresh_key_padded (S (length m)) k m) as (n & H1 & H2 & H3 & H4).
  destruct (decide (n < S (length m))) as [?|Hn]; [by apply H4|exfalso].
  assert (Hsub : (fun i => padded i k) <$> seq 0 (S (length m)) ⊆ m.*1).
  { intros x (i & -> & Hi)%list_elem_of_fmap. apply elem_of_seq in Hi. apply H3. lia. }
  assert (Hnd : NoDup ((fun i => padded i k) <$> seq 0 (S (length m)))).
  { apply NoDup_fmap_2_strong; [|apply NoDup_seq]. intros i j _ _ E. apply (f_equal length) in E.
    rewrite !padded_length in E. lia. }
  pose proof (NoDup_submseteq _ _ Hnd Hsub) as Hs. apply submseteq_length in Hs.
  rewrite !length_fmap, length_seq in Hs. lia.
Qed.

Lemma map_get_None {A} k (m : list (bytes * A)) : map_get k m = None -> k ∉ m.*1.
Proof.
  induction m as [|[k' v] m IH]; csimpl; [set_solver|]. destruct (bytes_eqb k k') eqn:E; [done|].
  apply bytes_eqb_false in E. rewrite not_elem_of_cons. auto.
Qed.

Lemma map_remove_perm {A} k (v : A) m : map_get k m = Some v -> m ≡ₚ (k, v) :: map_remove k m.
Proof.
  induction m as [|[k' v'] m IH]; simpl; [done|]. destruct (bytes_eqb k k') eqn:E.
  - apply bytes_eqb_eq in E as ->. by intros [= ->].
  - intros Hm. rewrite IH at 1 by done. constructor.
Qed.

Lemma map_remove_sorted {A} k (m : list (bytes * A)) : keys_sorted m.*1 = true -> keys_sorted (map_remove k m).*1 = true.
Proof.
  induction m as [|[k' v'] m IH]; csimpl; [done|]. rewrite keys_sorted_cons. intros [Hlt Hs].
  destruct (bytes_eqb k k'); [done|]. csimpl. apply keys_sorted_cons. split; [|by apply IH].
  rewrite list.Forall_forall in Hlt |- *. intros x Hx. apply Hlt. clear -Hx.
  induction m as [|[k0 v0] m IH]; [done|]. simpl in Hx. destruct (bytes_eqb k k0); csimpl in *; set_solver.
Qed.

Lemma map_insert_perm {A} k (v : A) m : k ∉ m.*1 -> map_insert k v m ≡ₚ (k, v) :: m.
Proof.
  induction m as [|[k' v'] m IH]; csimpl; [done|]. intros [Hne Hk]%not_elem_of_cons.
  apply bytes_eqb_false in Hne as ->. destruct (bytes_ltb k k'); [done|]. rewrite IH by done. constructor.
Qed.

(** Renaming one key: a permutation of the entries up to the new name. *)
Lemma rekey_one_spec {A} key (v : A) m : keys_sorted m.*1 = true -> map_get key m = Some v ->
  exists k', has_nul k' = false /\ k' ∉ (map_remove key m).*1 /\ keys_sorted (rekey_one m key).*1 = true /\
    rekey_one m key ≡ₚ (k', v) :: map_remove key m.
Proof.
  intros Hs Hg. unfold rekey_one. rewrite Hg. set (m1 := map_remove key m).
  set (k' := fresh_key (S (length m1)) (escape_str key).1 m1). exists k'.
  assert (Hf : k' ∉ m1.*1) by apply fresh_key_found. split_and!; [|done| |by apply map_insert_perm].
  - destruct (fresh_key_padded (S (length m1)) (escape_str key).1 m1) as (n & _ & E & _).
    unfold k'. rewrite E. apply padded_clean, escape_str_clean.
  - apply map_insert_sorted. by apply map_remove_sorted.
Qed.

Lemma fold_rekey_spec {A} ks (m : list (bytes * A)) :
  keys_sorted m.*1 = true -> NoDup ks -> (forall k, k ∈ ks <-> k ∈ m.*1 /\ has_nul k = true) ->
  let m' := fold_left rekey_one ks m in
  keys_sorted m'.*1 = true /\ m'.*2 ≡ₚ m.*2 /\ Forall (fun k => has_nul k = false) m'.*1 /\
  (forall k v, has_nul k = false -> (k, v) ∈ m -> (k, v) ∈ m').
Proof.
  revert m. induction ks as [|key ks IH]; intros m Hs Hnd Hks; simpl.
  { split_and!; [done..| |done]. apply list.Forall_forall. intros k Hk. destruct (has_nul k) eqn:E; [|done].
    exfalso. by apply (not_elem_of_nil k), Hks. }
  destruct (proj1 (Hks key)) as [Hin Hnul]; [left|]. apply NoDup_cons in Hnd as [Hk Hnd].
  destruct (map_get key m) as [v|] eqn:Eg; [|by apply map_get_None in Eg].
  destruct (rekey_one_spec key v m Hs Eg) as (k' & Hc & Hf & Hs' & Hp).
  assert (Hm : m ≡ₚ (key, v) :: map_remove key m) by (by apply map_remove_perm).
  assert (Hnd' : NoDup m.*1) by (by apply keys_sorted_nodup).
  destruct (IH (rekey_one m key)) as (H1 & H2 & H3 & H4); [done..| |].
  - intros k. rewrite Hp. csimpl. rewrite elem_of_cons. rewrite Hm in Hnd'. csimpl in Hnd'.
    apply NoDup_cons in Hnd' as [Hkey _]. specialize (Hks k). rewrite Hm in Hks. csimpl in Hks.
    rewrite !elem_of_cons in Hks. split.
    + intros Hin'. destruct (proj1 Hks (or_intror Hin')) as [[->|?] ?]; [done|]. tauto.
    + intros [[->|Hin'] Hnul']; [congruence|].
      destruct (proj2 Hks (conj (or_intror Hin') Hnul')) as [->|?]; [done|done].
  - split_and!; [done| |done|].
    + rewrite H2, Hp. rewrite Hm at 2. done.
    + intros k x Hkn Hkx. apply H4; [done|]. rewrite Hp. rewrite Hm in Hkx.
      apply elem_of_cons in Hkx as [[= -> ->]|Hkx]; [congruence|]. by right.
Qed.

Lemma filter_nul_spec {A} (m : list (bytes * A)) : keys_sorted m.*1 = true ->
  NoDup (List.filter has_nul m.*1) /\ (forall k, k ∈ List.filter has_nul m.*1 <-> k ∈ m.*1 /\ has_nul k = true).
Proof.
  intros Hs. split; [|intros k; by rewrite !list_elem_of_In, filter_In].
  apply NoDup_ListNoDup, List.NoDup_filter, NoDup_ListNoDup. by apply keys_sorted_nodup.
Qed.

Lemma rekey_spec {A} (m : list (bytes * A)) : keys_sorted m.*1 = true ->
  keys_sorted (rekey m).*1 = true /\ (rekey m).*2 ≡ₚ m.*2 /\ Forall (fun k => has_nul k = false) (rekey m).*1 /\
  (forall k v, has_nul k = false -> (k, v) ∈ m -> (k, v) ∈ rekey m).
Proof. intros Hs. destruct (filter_nul_spec m Hs). by apply fold_rekey_spec. Qed.

Lemma map_keys {A B} (f : A -> B) (m : list (bytes * A)) : (map (fun kv => (kv.1, f kv.2)) m).*1 = m.*1.
Proof. induction m as [|[k v] m IH]; csimpl; congruence. Qed.

Lemma map_values {A B} (f : A -> B) (m : list (bytes * A)) : (map (fun kv => (kv.1, f kv.2)) m).*2 = f <$> m.*2.
Proof. induction m as [|[k v] m IH]; csimpl; congruence. Qed.

Lemma key_nuls_total {A} (m : list (bytes * A)) : key_nuls m = sum_nat (map (fun kv => count_nuls kv.1) m).
Proof.
  unfold key_nuls. induction m as [|[k v] m IH]; [done|]. csimpl. rewrite has_nul_count.
  destruct (count_nuls k =? 0) eqn:E; simpl; [apply Nat.eqb_eq in E; lia|]. by rewrite escape_str_count, IH.
Qed.

Lemma sum_nat_add {A} (f g : A -> nat) l : sum_nat (map f l) + sum_nat (map g l) = sum_nat (map (fun x => g x + f x) l).
Proof. induction l as [|x l IH]; simpl; lia. Qed.

Lemma sum_nat_ext {A} (f g : A -> nat) l : Forall (fun x => f x = g x) l -> sum_nat (map f l) = sum_nat (map g l).
Proof. induction 1; simpl; congruence. Qed.

Lemma existsb_Forall {A} (f : A -> bool) l : existsb f l = false <-> Forall (fun x => f x = false) l.
Proof. induction l as [|x l IH]; simpl; [done|]. rewrite Forall_cons, orb_false_iff, IH. done. Qed.

Lemma forallb_Forall {A} (f : A -> bool) l : forallb f l = true <-> Forall (fun x => f x = true) l.
Proof. induction l as [|x l IH]; simpl; [done|]. rewrite Forall_cons, andb_true_iff, IH. done. Qed.

(** What escaping promises of one value. *)
Definition escaped_ok (v : Value) : Prop :=
  json_contains_nul (escape_value v).1 = false /\ canonical (escape_value v).1 = true /\ (escape_value v).2 = nul_total v.

Lemma escape_object_ok m : keys_sorted m.*1 = true -> Forall (fun kv => escaped_ok kv.2) m -> escaped_ok (Object m).
Proof.
  intros Hs Hm. set (m' := map (fun kv => (kv.1, (escape_value kv.2).1)) m).
  assert (Hk : m'.*1 = m.*1) by apply (map_keys (fun v => (escape_value v).1)).
  assert (Hv : m'.*2 = (fun v => (escape_value v).1) <$> m.*2) by apply (map_values (fun v => (escape_value v).1)).
  destruct (rekey_spec m') as (H1 & H2 & H3 & _); [by rewrite Hk|].
  assert (Hall : Forall (fun v => json_contains_nul v = false /\ canonical v = true) (rekey m').*2).
  { rewrite H2, Hv. rewrite !Forall_fmap. eapply list.Forall_impl; [exact Hm|]. intros [k v] (Ha & Hb & _). done. }
  rewrite Forall_fmap in Hall. rewrite Forall_fmap in H3. split_and!.
  - cbn [escape_value fst json_contains_nul]. fold m'. apply existsb_Forall.
    rewrite list.Forall_forall in *. intros [k v] Hin. simpl. apply orb_false_iff.
    split; [by apply (H3 (k, v))|by apply (Hall (k, v))].
  - cbn [escape_value fst canonical]. fold m'. rewrite H1. apply forallb_Forall.
    rewrite list.Forall_forall in *. intros kv Hin. by apply Hall.
  - cbn [escape_value snd nul_total]. fold m'. rewrite key_nuls_total. unfold m'. rewrite map_map. simpl.
    rewrite sum_nat_add. apply sum_nat_ext. eapply list.Forall_impl; [exact Hm|]. intros [k v] (_ & _ & E). simpl in *. lia.
Qed.

Lemma escape_value_ok v : canonical v = true -> escaped_ok v.
Proof.
  induction v as [|b|n|s|l IH|m IH] using Value_ind'; intros Hc; try done.
  - unfold escaped_ok. cbn [escape_value]. destruct (escape_str s) as [s' n] eqn:E. simpl.
    pose proof (escape_str_clean s) as H1. pose proof (escape_str_count s) as H2. rewrite E in H1, H2. done.
  - cbn [canonical] in Hc. apply forallb_Forall in Hc.
    assert (Hl : Forall escaped_ok l) by (rewrite list.Forall_forall in *; auto).
    split_and!; cbn [escape_value fst snd json_contains_nul canonical nul_total].
    + apply existsb_Forall, Forall_fmap. eapply list.Forall_impl; [exact Hl|]. by intros v (? & _ & _).
    + apply forallb_Forall, Forall_fmap. eapply list.Forall_impl; [exact Hl|]. by intros v (_ & ? & _).
    + apply sum_nat_ext. eapply list.Forall_impl; [exact Hl|]. by intros v (_ & _ & ?).
  - cbn [canonical] in Hc. apply andb_true_iff in Hc as [Hk Hc]. apply forallb_Forall in Hc.
    apply escape_object_ok; [done|]. rewrite list.Forall_forall in *. intros kv Hin. by apply IH, Hc.
Qed.

Lemma rekey_id {A} (m : list (bytes * A)) : Forall (fun k => has_nul k = false) m.*1 -> rekey m = m.
Proof.
  intros Hm. unfold rekey. replace (List.filter has_nul m.*1) with (@nil bytes); [done|].
  symmetry. induction Hm as [|k ks Hk Hks IH]; simpl; [done|]. by rewrite Hk.
Qed.

Lemma sum_nat_zero {A} (l : list A) : sum_nat (map (fun _ => 0) l) = 0.
Proof. by induction l. Qed.

Lemma escape_value_id v : json_contains_nul v = false -> escape_value v = (v, 0).
Proof.
  induction v as [|b|n|s|l IH|m IH] using Value_ind'; intros Hc; try done.
  - cbn [escape_value]. by rewrite escape_str_id.
  - cbn [json_contains_nul] in Hc. apply existsb_Forall in Hc. cbn [escape_value].
    assert (Hl : Forall (fun v => escape_value v = (v, 0)) l) by (rewrite list.Forall_forall in *; auto).
    f_equal; [f_equal|].
    + rewrite <- (map_id l) at 2. apply map_ext_in.
      intros v Hv. apply list_elem_of_In in Hv. rewrite list.Forall_forall in Hl. by rewrite Hl.
    + rewrite <- (sum_nat_zero l). apply sum_nat_ext. eapply list.Forall_impl; [exact Hl|]. by intros v ->.
  - cbn [json_contains_nul] in Hc. apply existsb_Forall in Hc. cbn [escape_value].
    assert (Hm : Forall (fun kv => has_nul kv.1 = false /\ escape_value kv.2 = (kv.2, 0)) m).
    { rewrite list.Forall_forall in *. intros kv Hin. specialize (Hc kv Hin). apply orb_false_iff in Hc as [? ?]. auto. }
    assert (E : map (fun kv => (kv.1, (escape_value kv.2).1)) m = m).
    { clear -Hm. induction Hm as [|[k v] m [_ Hv] Hm IH]; simpl in *; [done|]. by rewrite Hv, IH. }
    rewrite E, rekey_id.
    + f_equal. rewrite key_nuls_total, sum_nat_add, <- (sum_nat_zero m). apply sum_nat_ext.
      eapply list.Forall_impl; [exact Hm|]. intros [k v] [Hk Hv]. simpl in *. rewrite Hv.
      rewrite has_nul_count in Hk. apply negb_false_iff, Nat.eqb_eq in Hk. simpl. lia.
    + rewrite Forall_fmap. eapply list.Forall_impl; [exact Hm|]. by intros kv [? _].
Qed.

(** * Properties *)

(** Escaping a record makes it storable and honest: no NUL is left in any
    string or key at any depth, the count returned is the number of NULs the
    value held, and a value without NULs comes back unchanged. *)
Theorem escape_json_removes_every_nul v :
  canonical v = true ->
  json_contains_nul (escape_json v).1 = false /\ (escape_json v).2 = nul_total v /\
  (json_contains_nul v = false -> escape_json v = (v, 0)).
Proof.
  intros Hc. destruct (escape_value_ok v Hc) as (H1 & _ & H3). split_and!; [done..|]. apply escape_value_id.
Qed.

(** Colliding keys overwrite nothing: escaping an object keeps as many entries,
    with the same escaped values, under distinct keys, and every key that held
    no NUL keeps its own value. *)
Theorem escape_object_keeps_every_value m :
  keys_sorted m.*1 = true ->
  exists m', (escape_json (Object m)).1 = Object m' /\ keys_sorted m'.*1 = true /\
    m'.*2 ≡ₚ (fun v => (escape_value v).1) <$> m.*2 /\
    (forall k v, has_nul k = false -> (k, v) ∈ m -> map_get k m' = Some (escape_value v).1).
Proof.
  intros Hs. set (e := map (fun kv => (kv.1, (escape_value kv.2).1)) m).
  assert (Hk : e.*1 = m.*1) by apply (map_keys (fun v => (escape_value v).1)).
  destruct (rekey_spec e) as (H1 & H2 & _ & H4); [by rewrite Hk|].
  exists (rekey e). split_and!; [done..| |].
  - rewrite H2. unfold e. by rewrite (map_values (fun v => (escape_value v).1)).
  - intros k v Hn Hin. apply map_get_elem; [done|]. apply H4; [done|].
    unfold e. apply (list_elem_of_fmap_2 (fun kv => (kv.1, (escape_value kv.2).1)) m (k, v) Hin).
Qed.

(** * Witnesses *)

(** The two keys the source's comment warns of. *)
Definition colliding : list (bytes * Value) :=
  [(bs "k" ++ [0%Z], String (bs "evil")); (bs "k" ++ NUL_ESCAPE, String (bs "benign"))].

Example colliding_kept :
  escape_json (Object colliding) =
  (Object [(bs "k" ++ NUL_ESCAPE, String (bs "benign")); (bs "k" ++ NUL_ESCAPE ++ NUL_ESCAPE, String (bs "evil"))], 1).
Proof. by vm_compute. Qed.

Lemma escape_json_removes_every_nul_witness : json_contains_nul (escape_json (Object colliding)).1 = false.
Proof. exact (proj1 (escape_json_removes_every_nul (Object colliding) eq_refl)). Defined.

Lemma escape_object_keeps_every_value_witness :
  exists m', (escape_json (Object colliding)).1 = Object m' /\ m'.*2 ≡ₚ [String (bs "evil"); String (bs "benign")].
Proof.
  destruct (escape_object_keeps_every_value colliding eq_refl) as (m' & H1 & _ & H3 & _). exists m'. split; [exact H1|exact H3].
Defined.
