(* ===== verification/Protocol.v ===== *)
(** JSON-RPC over stdio (src/protocol/src): record framing (lib.rs), the worker's
    serve loop (server.rs) and the core's client call (client.rs).

    A stream is the list of bytes the peer has written before closing its end.
    [serve_loop] takes fuel, one unit per record; a record consumes at least one
    byte, so [S (length input)] is always enough ([serve_capped]).  The JSON text
    layer is [serde_json], third-party: the interface [JsonText] states the three
    facts the framing rests on.  A message is the [Value] its derived [Serialize]
    denotes, so the order of the members in the text and repeated members are not
    observed.  [BufReader] and [flush] do not change what is read or written and
    are left out. *)

From stdpp Require Import base list numbers strings option countable.
From Stdlib Require Import ZArith Lia.
From S2P Require Import Prelude RustStr Json.
Local Open Scope nat_scope.

Definition NEWLINE : Z := 10.

(** [serde_json::to_vec] and [from_slice]: compact output has no raw newline and
    is not blank; a parser skips the trailing newline.  [type_error] is the text
    of the error for JSON that does not have the shape of the named type. *)
Class JsonText := {
  to_vec : Value -> bytes;
  from_slice : bytes -> result Value bytes;
  type_error : bytes -> bytes -> bytes;
  to_vec_no_newline : forall v, NEWLINE ∉ to_vec v;
  to_vec_not_blank : forall v, forallb is_ascii_whitespace (to_vec v) = false;
  from_slice_to_vec : forall v, from_slice (to_vec v ++ [NEWLINE]) = Ok v;
}.

#[export] Hint Resolve to_vec_no_newline to_vec_not_blank : kast.

(** * Messages *)

Definition PARSE_ERROR : Z := -32700.
Definition INVALID_REQUEST : Z := -32600.

Record RpcError := mkRpcError { re_code : Z; re_message : bytes; re_data : option Value }.

Definition rpc_error_new (code : Z) (message : bytes) : RpcError := mkRpcError code message None.

Record Request := mkRequest { rq_jsonrpc : bytes; rq_id : Value; rq_method : bytes; rq_params : Value }.

Record Response := mkResponse {
  rs_jsonrpc : bytes; rs_id : Value; rs_result : option Value; rs_error : option RpcError }.

Definition ok_response (id v : Value) : Response := mkResponse (bs "2.0") id (Some v) None.
Definition err_response (id : Value) (e : RpcError) : Response := mkResponse (bs "2.0") id None (Some e).

(** The serde derives.  A derived [Deserialize] reads an object, or an array of
    the fields in order of which only trailing [#[serde(default)]] ones may be
    missing. *)
Definition struct_form (keys : list bytes) (required : nat) (v : Value) : Value :=
  match v with
  | Array l => if (required <=? length l) && (length l <=? length keys) then object (zip keys l) else Null
  | _ => v
  end.

Definition request_to_value (r : Request) : Value :=
  object [(bs "jsonrpc", String (rq_jsonrpc r)); (bs "id", rq_id r);
          (bs "method", String (rq_method r)); (bs "params", rq_params r)].

Definition request_from_value (v : Value) : option Request :=
  let v := struct_form [bs "jsonrpc"; bs "id"; bs "method"; bs "params"] 3 v in
  jsonrpc ← req_field (bs "jsonrpc") as_str v;
  id ← req_field (bs "id") Some v;
  method ← req_field (bs "method") as_str v;
  Some (mkRequest jsonrpc id method (default Null (get (bs "params") v))).

Definition error_fields (e : RpcError) : list (bytes * Value) :=
  [(bs "code", int_value (re_code e)); (bs "message", String (re_message e))] ++
  opt_field (bs "data") id (re_data e) ++ [].

Definition error_to_value (e : RpcError) : Value := object (error_fields e).

Definition i32_from_value (v : Value) : option Z :=
  match v with
  | Number (NInt z) => if ((-2147483648 <=? z) && (z <=? 2147483647))%Z then Some z else None
  | _ => None
  end.

Definition error_from_value (v : Value) : option RpcError :=
  let v := struct_form [bs "code"; bs "message"; bs "data"] 3 v in
  code ← req_field (bs "code") i32_from_value v;
  message ← req_field (bs "message") as_str v;
  data ← option_field (bs "data") Some v;
  Some (mkRpcError code message data).

Definition response_fields (r : Response) : list (bytes * Value) :=
  [(bs "jsonrpc", String (rs_jsonrpc r)); (bs "id", rs_id r)] ++
  opt_field (bs "result") id (rs_result r) ++
  opt_field (bs "error") error_to_value (rs_error r) ++ [].

Definition response_to_value (r : Response) : Value := object (response_fields r).

Definition response_from_value (v : Value) : option Response :=
  let v := struct_form [bs "jsonrpc"; bs "id"; bs "result"; bs "error"] 4 v in
  jsonrpc ← req_field (bs "jsonrpc") as_str v;
  id ← req_field (bs "id") Some v;
  res ← option_field (bs "result") Some v;
  err ← option_field (bs "error") error_from_value v;
  Some (mkResponse jsonrpc id res err).

(** * Framing (lib.rs) *)

Inductive RecordRead := Eof | Line (buf : bytes) | TooLarge.

(** [read_until(b'\n')] on a reader limited to [limit] bytes: what was read, and
    what is left of the stream. *)
Fixpoint read_until (limit : nat) (s : bytes) : bytes * bytes :=
  match limit, s with
  | O, _ => ([], s)
  | _, [] => ([], [])
  | S limit', c :: s' =>
      if (c =? NEWLINE)%Z then ([c], s')
      else let '(buf, rest) := read_until limit' s' in (c :: buf, rest)
  end.

Definition read_capped_record (cap : nat) (s : bytes) : RecordRead * bytes :=
  let '(buf, rest) := read_until (cap + 1) s in
  if length buf =? 0 then (Eof, rest)
  else if cap <? length buf then (TooLarge, rest)
  else (Line buf, rest).

(** * The serve loop (server.rs) *)

Inductive OnProtocolError := Continue | Close.

Inductive ServeEnd := ServeOk | ServeFault (msg : bytes) | OutOfFuel.

Section Serve.
Context `{JsonText} {S : Type}.

(** The trait [Handler]; its state is threaded through. *)
Variable handler : bytes -> Value -> S -> result Value RpcError * S.

Definition write_response (r : Response) : bytes := to_vec (response_to_value r) ++ [NEWLINE].

Definition parse_request (buf : bytes) : result Request bytes :=
  match from_slice buf with
  | Err e => Err e
  | Ok v => match request_from_value v with Some r => Ok r | None => Err (type_error (bs "Request") buf) end
  end.

Fixpoint serve_loop (fuel cap : nat) (on_error : OnProtocolError) (s : bytes) (h : S)
    : bytes * S * ServeEnd :=
  match fuel with
  | O => ([], h, OutOfFuel)
  | Datatypes.S fuel' =>
      match read_capped_record cap s with
      | (Eof, _) => ([], h, ServeOk)
      | (TooLarge, _) =>
          (write_response (err_response Null (rpc_error_new INVALID_REQUEST (bs "request exceeded record cap"))),
           h, match on_error with
              | Continue => ServeOk
              | Close => ServeFault (bs "request exceeded record cap")
              end)
      | (Line buf, rest) =>
          if forallb is_ascii_whitespace buf then serve_loop fuel' cap on_error rest h
          else
            match parse_request buf with
            | Err e =>
                let out := write_response (err_response Null
                             (rpc_error_new PARSE_ERROR (bs "parse error: " ++ e))) in
                match on_error with
                | Continue =>
                    let '(o, h', e') := serve_loop fuel' cap on_error rest h in (out ++ o, h', e')
                | Close => (out, h, ServeFault (bs "malformed request frame"))
                end
            | Ok req =>
                let '(r, h1) := handler (rq_method req) (rq_params req) h in
                let response := match r with
                                | Ok v => ok_response (rq_id req) v
                                | Err e => err_response (rq_id req) e
                                end in
                let '(o, h', e') := serve_loop fuel' cap on_error rest h1 in
                (write_response response ++ o, h', e')
            end
      end
  end.

Definition serve_capped (cap : nat) (on_error : OnProtocolError) (s : bytes) (h : S) : bytes * S * ServeEnd :=
  serve_loop (Datatypes.S (length s)) cap on_error s h.
End Serve.

(** * The client (client.rs) *)

Inductive ClientError :=
| Io (e : bytes)
| Decode (e : bytes)
| EarlyExit
| ResponseTooLarge (cap : nat)
| IdMismatch (expected got : Value)
| Rpc (e : RpcError).

Section Client.
Context `{JsonText}.

(** The request line [call] writes for id [next_id]. *)
Definition request_line (id : Z) (method : bytes) (params : Value) : bytes :=
  to_vec (request_to_value (mkRequest (bs "2.0") (int_value id) method params)) ++ [NEWLINE].

Definition has_result_member (buf : bytes) : bool :=
  match from_slice buf with
  | Ok (Object m) => match map_get (bs "result") m with Some _ => true | None => false end
  | _ => false
  end.

Definition response_to_result (buf : bytes) (id : Value) : result Value ClientError :=
  match from_slice buf with
  | Err e => Err (Decode e)
  | Ok v =>
      match response_from_value v with
      | None => Err (Decode (type_error (bs "Response") buf))
      | Some resp =>
          if value_eqb (rs_id resp) id then
            match rs_error resp with
            | Some err => Err (Rpc err)
            | None =>
                match rs_result resp with
                | Some r => Ok r
                | None =>
                    if has_result_member buf then Ok Null
                    else Err (Decode (bs "response had neither result nor error"))
                end
            end
          else Err (IdMismatch id (rs_id resp))
      end
  end.

(** The reading half of [call]: the result, and what is left of the worker's
    output. *)
Definition read_response (cap : nat) (id : Value) (s : bytes) : result Value ClientError * bytes :=
  match read_capped_record cap s with
  | (Line buf, rest) => (response_to_result buf id, rest)
  | (Eof, rest) => (Err EarlyExit, rest)
  | (TooLarge, rest) => (Err (ResponseTooLarge cap), rest)
  end.
End Client.

(** * Framing lemmas *)

Lemma read_until_line limit line rest :
  NEWLINE ∉ line -> length line < limit ->
  read_until limit (line ++ NEWLINE :: rest) = (line ++ [NEWLINE], rest).
Proof.
  revert limit. induction line as [|c line IH]; intros [|limit] Hn Hl; simpl in *; try lia; [done|].
  apply not_elem_of_cons in Hn as [Hc Hn]. rewrite (proj2 (Z.eqb_neq _ _)) by done.
  by rewrite IH by (done || lia).
Qed.

(** What [read_until] returns: a line with its newline, the first [limit] bytes
    of a longer line, or the unterminated end of the stream. *)
Lemma read_until_spec limit s buf rest :
  read_until limit s = (buf, rest) ->
  buf ++ rest = s /\
  exists line, NEWLINE ∉ line /\
    (buf = line ++ [NEWLINE] /\ length buf <= limit \/
     buf = line /\ length buf = limit \/
     buf = line /\ length buf < limit /\ rest = []).
Proof.
  revert s buf rest. induction limit as [|limit IH]; intros s buf rest E.
  { injection E as <- <-. split; [done|]. exists []. split; [apply not_elem_of_nil|]. naive_solver. }
  destruct s as [|c s]; simpl in E.
  { injection E as <- <-. split; [done|]. exists []. split; [apply not_elem_of_nil|].
    right; right. simpl. split_and!; [done|lia|done]. }
  destruct (Z.eqb_spec c NEWLINE) as [-> | Hc].
  { injection E as <- <-. split; [done|]. exists []. split; [apply not_elem_of_nil|].
    left. simpl. split; [done|lia]. }
  destruct (read_until limit s) as [buf' rest'] eqn:E'. injection E as <- <-.
  destruct (IH _ _ _ E') as (<- & line & Hn & H). split; [done|]. exists (c :: line).
  split; [by apply not_elem_of_cons|]. simpl.
  destruct H as [[-> H] | [[-> H] | (-> & H & ->)]]; simpl.
  - left. split; [done|lia].
  - right; left. split; [done|lia].
  - right; right. split_and!; [done|lia|done].
Qed.

Lemma read_capped_line cap line rest :
  NEWLINE ∉ line -> length line < cap ->
  read_capped_record cap (line ++ [NEWLINE] ++ rest) = (Line (line ++ [NEWLINE]), rest).
Proof.
  intros Hn Hl. unfold read_capped_record. cbn [app]. rewrite read_until_line by (done || lia).
  by rewrite (proj2 (Nat.eqb_neq _ _)), (proj2 (Nat.ltb_ge _ _)) by len_lia.
Qed.

Lemma read_capped_flood cap s :
  NEWLINE ∉ take cap s -> cap < length s -> exists rest, read_capped_record cap s = (TooLarge, rest).
Proof.
  intros Hn Hl. unfold read_capped_record. destruct (read_until (cap + 1) s) as [buf rest] eqn:E.
  exists rest. destruct (read_until_spec _ _ _ _ E) as (<- & line & _ & H).
  rewrite length_app in Hl. rewrite take_app in Hn.
  assert (Hlen : length buf = S cap).
  { destruct H as [[-> H] | [[-> H] | (-> & H & ->)]]; simpl in *; [|lia..].
    destruct (decide (length (line ++ [NEWLINE]) <= cap)) as [Hle | Hgt]; [|lia].
    destruct Hn. apply elem_of_app. left. rewrite take_ge by lia. apply elem_of_app. right.
    apply list_elem_of_here. }
  rewrite Hlen, (proj2 (Nat.ltb_lt _ _)) by lia. done.
Qed.

(** Every record takes at least one byte off the stream. *)
Lemma read_capped_progress cap s buf rest :
  read_capped_record cap s = (Line buf, rest) -> length rest < length s.
Proof.
  unfold read_capped_record. destruct (read_until (cap + 1) s) as [b r] eqn:E.
  apply read_until_spec in E as [<- _]. destruct (length b =? 0) eqn:E0; [done|].
  apply Nat.eqb_neq in E0. destruct (cap <? length b); [done|]. intros [= <- <-].
  len_lia.
Qed.

(** Record framing: reading a record from a stream reports [Eof] only at
    its end; a [Line] is a non-empty prefix of the stream of at most [cap] bytes
    with no newline before its last byte, which is a newline unless the stream
    ends there; and [TooLarge] means that the first [cap] bytes hold no complete
    record, after buffering exactly [cap + 1] bytes, however long the stream. *)
Theorem read_capped_record_frames (cap : nat) (s : bytes) :
  match read_capped_record cap s with
  | (Eof, rest) => s = [] /\ rest = []
  | (Line buf, rest) =>
      buf ++ rest = s /\ 1 <= length buf <= cap /\
      exists line, NEWLINE ∉ line /\ (buf = line ++ [NEWLINE] \/ buf = line /\ rest = [])
  | (TooLarge, rest) =>
      cap < length s /\ NEWLINE ∉ take cap s /\ rest = drop (S cap) s
  end.
Proof.
  unfold read_capped_record. destruct (read_until (cap + 1) s) as [buf rest] eqn:E.
  destruct (read_until_spec _ _ _ _ E) as (<- & line & Hn & H).
  destruct (Nat.eqb_spec (length buf) 0) as [E0 | E0].
  { apply length_zero_iff_nil in E0 as ->. destruct H as [[H _] | [[_ H] | (_ & _ & ->)]]; [|simpl in H; lia|done].
    by destruct line. }
  destruct (Nat.ltb_spec cap (length buf)) as [Hc | Hc].
  - assert (Hb : length buf = S cap) by (destruct H as [[_ H] | [[_ H] | (_ & H & _)]]; lia).
    rewrite length_app. split_and!; [lia| |by rewrite <- Hb, drop_app_length].
    rewrite take_app_le by lia. destruct H as [[-> _] | [[-> _] | (-> & _)]].
    + rewrite length_app in Hb. cbn [length] in Hb. rewrite take_app_le, take_ge by lia. done.
    + contradict Hn. apply elem_of_take in Hn as (i & Hi & _). by eapply list_elem_of_lookup_2.
    + contradict Hn. apply elem_of_take in Hn as (i & Hi & _). by eapply list_elem_of_lookup_2.
  - split_and!; [done|lia|lia|]. exists line. split; [done|].
    destruct H as [[-> _] | [[-> H] | (-> & _ & ->)]]; [by left|lia|by right].
Qed.

(** * Codec round trips *)

(** Errors as the decoder produces them: an [i32] code, and no [null] data. *)
Definition wf_error (e : RpcError) : Prop :=
  (-2147483648 <= re_code e <= 2147483647)%Z /\ re_data e <> Some Null.

(** Look a key up among the fields of an encoded message. *)
Ltac message_field keys :=
  rewrite object_map_get by keys; unfold error_fields, response_fields; lookup_field.

Lemma request_roundtrip r : request_from_value (request_to_value r) = Some r.
Proof.
  destruct r as [j i m p]. unfold request_from_value, request_to_value, req_field.
  cbn [rq_jsonrpc rq_id rq_method rq_params struct_form].
  change (struct_form _ _ (object ?l)) with (object l).
  by repeat (message_field solve_keys; cbn [mbind option_bind as_str]).
Qed.

Lemma error_keys e : NoDup (error_fields e).*1.
Proof.
  apply (sublist_NoDup _ [bs "code"; bs "message"; bs "data"]); [solve_keys|].
  unfold error_fields. cbn [app fmap list_fmap fst]. do 2 apply sublist_skip.
  apply opt_field_sublist, sublist_nil_l.
Qed.

Lemma error_get e :
  get (bs "code") (error_to_value e) = Some (int_value (re_code e)) /\
  get (bs "message") (error_to_value e) = Some (String (re_message e)) /\
  get (bs "data") (error_to_value e) = re_data e.
Proof.
  unfold error_to_value. pose proof (error_keys e) as Hk.
  split_and!; message_field ltac:(exact Hk); [done..|]. by destruct (re_data e).
Qed.

Lemma error_roundtrip e : wf_error e -> error_from_value (error_to_value e) = Some e.
Proof.
  intros [[H1 H2] H3]. destruct (error_get e) as (Hc & Hm & Hd). unfold error_from_value, req_field.
  change (struct_form _ _ (error_to_value e)) with (error_to_value e).
  rewrite Hc, Hm. cbn [mbind option_bind as_str int_value i32_from_value].
  rewrite !(proj2 (Z.leb_le _ _)) by done. cbn [andb mbind option_bind].
  rewrite (option_field_enc (bs "data") id _ _ (re_data e));
    [by destruct e|rewrite Hd; by destruct (re_data e)|intros a Ha; split; [done|unfold id; congruence]].
Qed.

Lemma response_keys r : NoDup (response_fields r).*1.
Proof.
  apply (sublist_NoDup _ [bs "jsonrpc"; bs "id"; bs "result"; bs "error"]); [solve_keys|].
  unfold response_fields. cbn [app fmap list_fmap fst]. do 2 apply sublist_skip.
  do 2 apply opt_field_sublist. apply sublist_nil_l.
Qed.

Lemma response_get r :
  get (bs "jsonrpc") (response_to_value r) = Some (String (rs_jsonrpc r)) /\
  get (bs "id") (response_to_value r) = Some (rs_id r) /\
  get (bs "result") (response_to_value r) = rs_result r /\
  get (bs "error") (response_to_value r) = error_to_value <$> rs_error r.
Proof.
  unfold response_to_value. pose proof (response_keys r) as Hk.
  split_and!; message_field ltac:(exact Hk); [done..| |]; by destruct (rs_result r), (rs_error r).
Qed.

(** A response decodes to itself, but for a [null] result, which is read as an
    absent one. *)
Lemma response_decodes r :
  (forall e, rs_error r = Some e -> wf_error e) ->
  response_from_value (response_to_value r) =
  Some (mkResponse (rs_jsonrpc r) (rs_id r)
          (match rs_result r with Some Null => None | o => o end) (rs_error r)).
Proof.
  intros He. destruct (response_get r) as (Hj & Hi & Hr & Hx). unfold response_from_value, req_field.
  change (struct_form _ _ (response_to_value r)) with (response_to_value r).
  assert (Hres : option_field (bs "result") Some (response_to_value r) =
                 Some (match rs_result r with Some Null => None | o => o end)).
  { unfold option_field. rewrite Hr. by destruct (rs_result r) as [[]|]. }
  assert (Herr : option_field (bs "error") error_from_value (response_to_value r) = Some (rs_error r)).
  { apply (option_field_enc _ error_to_value); [done|].
    intros e E. split; [by apply error_roundtrip, He|done]. }
  by rewrite Hj, Hi, Hres, Herr.
Qed.

(** * Serving a client *)

Section Calls.
Context `{JsonText} {S : Type} (handler : bytes -> Value -> S -> result Value RpcError * S).
Implicit Types (calls : list (bytes * Value)) (answers : list (result Value RpcError)).

(** The lines successive calls write, from id [n] on. *)
Fixpoint request_lines (n : Z) calls : list bytes :=
  match calls with
  | [] => []
  | c :: calls' => request_line n c.1 c.2 :: request_lines (n + 1) calls'
  end.

(** What the handler answers when it is called on each in turn. *)
Fixpoint run_calls calls (h : S) : list (result Value RpcError) * S :=
  match calls with
  | [] => ([], h)
  | c :: calls' =>
      let '(r, h1) := handler c.1 c.2 h in
      let '(rs, h2) := run_calls calls' h1 in (r :: rs, h2)
  end.

Definition answer (id : Value) (r : result Value RpcError) : Response :=
  match r with Ok v => ok_response id v | Err e => err_response id e end.

Fixpoint response_lines (n : Z) answers : list bytes :=
  match answers with
  | [] => []
  | r :: answers' => write_response (answer (int_value n) r) :: response_lines (n + 1) answers'
  end.

(** The reading halves of [k] successive calls. *)
Fixpoint read_responses (cap : nat) (n : Z) (k : nat) (s : bytes)
    : list (result Value ClientError) * bytes :=
  match k with
  | O => ([], s)
  | Datatypes.S k' =>
      let '(r, s1) := read_response cap (int_value n) s in
      let '(rs, s2) := read_responses cap (n + 1) k' s1 in (r :: rs, s2)
  end.

Definition as_client (r : result Value RpcError) : result Value ClientError :=
  match r with Ok v => Ok v | Err e => Err (Rpc e) end.

Definition wf_answer (r : result Value RpcError) : Prop :=
  match r with Ok _ => True | Err e => wf_error e end.

Lemma write_response_fits cap r :
  length (write_response r) <= cap -> length (to_vec (response_to_value r)) < cap.
Proof. unfold write_response. len_lia. Qed.

Lemma has_result_member_written r v : rs_result r = Some v -> has_result_member (write_response r) = true.
Proof.
  intros E. unfold has_result_member, write_response. rewrite from_slice_to_vec.
  destruct (response_get r) as (_ & _ & Hr & _). rewrite E in Hr.
  destruct (response_to_value r); try done. cbn [get] in Hr. by rewrite Hr.
Qed.

(** The client reads the answer to its own request, a [null] result included. *)
Lemma response_to_result_answer id r :
  wf_answer r -> response_to_result (write_response (answer id r)) id = as_client r.
Proof.
  intros Hr. unfold response_to_result, write_response. rewrite from_slice_to_vec, response_decodes
    by (intros e; destruct r; simpl; naive_solver).
  replace (rs_id (answer id r)) with id by by destruct r.
  cbn [rs_id]. rewrite (proj2 (value_eqb_eq id id) eq_refl).
  destruct r as [v|e]; [|done]. cbn [answer ok_response rs_error rs_result as_client]. destruct v; try done.
  change (has_result_member _) with (has_result_member (write_response (ok_response id Null))).
  by rewrite (has_result_member_written _ Null).
Qed.

Lemma read_responses_lines cap n answers rest :
  Forall wf_answer answers ->
  Forall (fun l => length l <= cap) (response_lines n answers) ->
  read_responses cap n (length answers) (concat (response_lines n answers) ++ rest)
  = (map as_client answers, rest).
Proof.
  revert n. induction answers as [|r answers IH]; intros n Hwf Hfit; [done|].
  apply list.Forall_cons in Hwf as [Hr Hwf]. cbn [response_lines] in Hfit.
  apply list.Forall_cons in Hfit as [Hl Hfit].
  cbn [response_lines concat length read_responses]. unfold read_response.
  replace ((_ ++ _) ++ rest) with
    (to_vec (response_to_value (answer (int_value n) r)) ++ [NEWLINE] ++
     (concat (response_lines (n + 1) answers) ++ rest)) by (unfold write_response; by rewrite <- !app_assoc).
  rewrite read_capped_line by auto using write_response_fits with kast.
  cbn iota beta. rewrite IH by done. fold (write_response (answer (int_value n) r)).
  by rewrite response_to_result_answer.
Qed.

(** The fuel is never what ends the loop. *)
Lemma serve_loop_fuel f1 f2 cap on_error s h :
  length s < f1 -> length s < f2 ->
  serve_loop handler f1 cap on_error s h = serve_loop handler f2 cap on_error s h.
Proof.
  revert f2 s h. induction f1 as [|f1 IH]; intros [|f2] s h H1 H2; [lia..|]. cbn [serve_loop].
  destruct (read_capped_record cap s) as [[|buf|] rest] eqn:E; [done| |done].
  apply read_capped_progress in E.
  assert (Hrest : forall h', serve_loop handler f1 cap on_error rest h' = serve_loop handler f2 cap on_error rest h')
    by (intros h'; apply IH; lia).
  destruct (forallb _ buf); [done|]. destruct (parse_request buf); [|by rewrite Hrest].
  destruct (handler _ _ h) as [r h1]. by rewrite Hrest.
Qed.

Lemma serve_capped_loop f cap on_error s h :
  length s < f -> serve_loop handler f cap on_error s h = serve_capped handler cap on_error s h.
Proof. intros Hf. apply serve_loop_fuel; lia. Qed.

Lemma serve_capped_nil cap on_error h : serve_capped handler cap on_error [] h = ([], h, ServeOk).
Proof. unfold serve_capped. cbn [serve_loop length]. unfold read_capped_record. by rewrite Nat.add_1_r. Qed.

(** One step of the loop on a line that is not blank. *)
Lemma serve_capped_line cap on_error line rest h :
  NEWLINE ∉ line -> length line < cap -> forallb is_ascii_whitespace line = false ->
  serve_capped handler cap on_error (line ++ [NEWLINE] ++ rest) h =
  match parse_request (line ++ [NEWLINE]) with
  | Err e =>
      let out := write_response (err_response Null (rpc_error_new PARSE_ERROR (bs "parse error: " ++ e))) in
      match on_error with
      | Continue => let '(o, h', e') := serve_capped handler cap on_error rest h in (out ++ o, h', e')
      | Close => (out, h, ServeFault (bs "malformed request frame"))
      end
  | Ok req =>
      let '(r, h1) := handler (rq_method req) (rq_params req) h in
      let '(o, h', e') := serve_capped handler cap on_error rest h1 in
      (write_response (answer (rq_id req) r) ++ o, h', e')
  end.
Proof.
  intros Hn Hl Hb. unfold serve_capped at 1. cbn [serve_loop].
  rewrite read_capped_line by done. rewrite forallb_app, Hb. cbn [andb].
  assert (Hrest : forall h', serve_loop handler (length (line ++ [NEWLINE] ++ rest)) cap on_error rest h' =
                             serve_capped handler cap on_error rest h').
  { intros h'. apply serve_capped_loop. len_lia. }
  destruct (parse_request _) as [req|e]; [|by rewrite Hrest].
  destruct (handler _ _ h) as [r h1]. by rewrite Hrest.
Qed.

Lemma serve_requests cap on_error n calls rest h :
  Forall (fun l => length l <= cap) (request_lines n calls) ->
  serve_capped handler cap on_error (concat (request_lines n calls) ++ rest) h =
  let '(answers, h1) := run_calls calls h in
  let '(o, h', e) := serve_capped handler cap on_error rest h1 in
  (concat (response_lines n answers) ++ o, h', e).
Proof.
  revert n h. induction calls as [|[m p] calls IH]; intros n h Hfit.
  { simpl. by destruct (serve_capped handler cap on_error rest h) as [[o h'] e]. }
  cbn [request_lines] in Hfit. apply list.Forall_cons in Hfit as [Hl Hfit].
  cbn [request_lines concat fst snd run_calls]. cbn [fst snd] in Hl. unfold request_line in Hl |- *.
  set (v := request_to_value _) in *. rewrite <- !app_assoc.
  rewrite serve_capped_line by (auto with kast || len_lia).
  unfold parse_request. rewrite from_slice_to_vec. unfold v. rewrite request_roundtrip.
  cbn [rq_method rq_params rq_id]. destruct (handler m p h) as [r h1]. rewrite IH by done.
  destruct (run_calls calls h1) as [rs h2].
  destruct (serve_capped handler cap on_error rest h2) as [[o h'] e].
  cbn [response_lines concat]. by rewrite <- app_assoc.
Qed.
End Calls.

Section Serving.
Context `{JsonText} {S : Type} (handler : bytes -> Value -> S -> result Value RpcError * S).


(** A malformed frame is never acted on: after any sequence of good requests, a line that
    is not a request gets one parse-error reply and never reaches the handler.
    Under [Close] serving stops there with an error, so no later byte of the
    connection is acted on; under [Continue] the rest of the stream is served
    as if the line had not been sent. *)
Theorem malformed_frame_policy cap n calls line rest h e :
  Forall (fun l => length l <= cap) (request_lines n calls) ->
  NEWLINE ∉ line -> length line < cap -> forallb is_ascii_whitespace line = false ->
  parse_request (line ++ [NEWLINE]) = Err e ->
  let input := concat (request_lines n calls) ++ line ++ [NEWLINE] ++ rest in
  let '(answers, h1) := run_calls handler calls h in
  let out := concat (response_lines n answers) ++
             write_response (err_response Null (rpc_error_new PARSE_ERROR (bs "parse error: " ++ e))) in
  serve_capped handler cap Close input h = (out, h1, ServeFault (bs "malformed request frame")) /\
  serve_capped handler cap Continue input h =
    (let '(o, h2, end_) := serve_capped handler cap Continue rest h1 in (out ++ o, h2, end_)).
Proof.
  intros Hreq Hn Hl Hb He. cbn zeta. rewrite !serve_requests by done.
  destruct (run_calls handler calls h) as [answers h1].
  rewrite !serve_capped_line, !He by done. cbn zeta. split; [done|].
  destruct (serve_capped handler cap Continue rest h1) as [[o h2] end_]. by rewrite <- app_assoc.
Qed.

(** A flood ends the session: after any sequence of good requests, bytes with no newline
    among the first [cap] end the session under either policy: one
    invalid-request reply, no further handler call, and an error for the caller
    exactly under [Close]. *)
Theorem oversized_frame_ends_session cap on_error n calls flood h :
  Forall (fun l => length l <= cap) (request_lines n calls) ->
  NEWLINE ∉ take cap flood -> cap < length flood ->
  let '(answers, h1) := run_calls handler calls h in
  serve_capped handler cap on_error (concat (request_lines n calls) ++ flood) h =
  (concat (response_lines n answers) ++
     write_response (err_response Null
       (rpc_error_new INVALID_REQUEST (bs "request exceeded record cap"))),
   h1,
   match on_error with Continue => ServeOk | Close => ServeFault (bs "request exceeded record cap") end).
Proof.
  intros Hreq Hn Hl. rewrite serve_requests by done. destruct (run_calls handler calls h) as [answers h1].
  destruct (read_capped_flood cap flood Hn Hl) as [rest Hr]. unfold serve_capped. cbn [serve_loop].
  by rewrite Hr.
Qed.

(** Serving ends: on every input the loop ends (the record reader always
    makes progress); under [Continue] it ends normally, whatever the peer sent. *)
Theorem serve_capped_ends cap on_error s h :
  let '(_, _, end_) := serve_capped handler cap on_error s h in
  end_ <> OutOfFuel /\ (on_error = Continue -> end_ = ServeOk).
Proof.
  remember (length s) as k eqn:Hk. revert s h Hk.
  induction (lt_wf k) as [k _ IH]. intros s h ->. unfold serve_capped. cbn [serve_loop].
  destruct (read_capped_record cap s) as [[|buf|] rest] eqn:E; [done| |by destruct on_error].
  apply read_capped_progress in E.
  assert (Hrest : forall h', let '(_, _, end_) := serve_loop handler (length s) cap on_error rest h' in
                             end_ <> OutOfFuel /\ (on_error = Continue -> end_ = ServeOk)).
  { intros h'. rewrite serve_capped_loop by lia. by eapply IH. }
  destruct (forallb _ buf); [apply Hrest|]. destruct (parse_request buf) as [req|e].
  - destruct (handler _ _ h) as [r h1]. specialize (Hrest h1).
    by destruct (serve_loop handler (length s) cap on_error rest h1) as [[o h'] e'].
  - destruct on_error; [|done]. specialize (Hrest h).
    by destruct (serve_loop handler (length s) cap Continue rest h) as [[o h'] e'].
Qed.
End Serving.

(** * A text layer

    A concrete [JsonText]: a value is written as the digits of its code number.
    It shows that the three laws can hold together, and lets the theorems be
    evaluated. *)

#[global] Instance JNum_countable : Countable JNum.
Proof.
  apply (inj_countable' (fun n => match n with NInt z => inl z | NFloat t => inr t end)
           (fun s => match s with inl z => NInt z | inr t => NFloat t end)). by intros [].
Defined.

Fixpoint value_tree (v : Value) : gen_tree (bool + (JNum + bytes)) :=
  match v with
  | Null => GenNode 0 []
  | Bool b => GenLeaf (inl b)
  | Number n => GenLeaf (inr (inl n))
  | String s => GenLeaf (inr (inr s))
  | Array l => GenNode 1 (map value_tree l)
  | Object m => GenNode 2 (map (fun kv => GenNode 3 [GenLeaf (inr (inr kv.1)); value_tree kv.2]) m)
  end.

Fixpoint tree_value (t : gen_tree (bool + (JNum + bytes))) : Value :=
  match t with
  | GenLeaf (inl b) => Bool b
  | GenLeaf (inr (inl n)) => Number n
  | GenLeaf (inr (inr s)) => String s
  | GenNode 1 l => Array (map tree_value l)
  | GenNode 2 l =>
      Object (map (fun t => match t with
                            | GenNode _ [GenLeaf (inr (inr k)); v] => (k, tree_value v)
                            | _ => ([], Null)
                            end) l)
  | GenNode _ _ => Null
  end.

Lemma tree_value_tree v : tree_value (value_tree v) = v.
Proof.
  induction v as [|x|x|x|x IH|x IH] using Value_ind'; try done; cbn [value_tree tree_value]; f_equal.
  - induction IH as [|v l Hv Hl IHl]; [done|]. cbn [map]. by rewrite Hv, IHl.
  - induction IH as [|[k v] l Hv Hl IHl]; [done|]. cbn [map fst snd]. cbn [snd] in Hv. by rewrite Hv, IHl.
Qed.

#[global] Instance Value_countable : Countable Value := inj_countable' value_tree tree_value tree_value_tree.

Fixpoint digits (p : positive) : bytes :=
  match p with xH => [46%Z] | xO p => 48%Z :: digits p | xI p => 49%Z :: digits p end.

Fixpoint undigits (s : bytes) : option positive :=
  match s with
  | [] => None
  | c :: s' =>
      if (c =? 46)%Z then Some xH
      else if (c =? 48)%Z then xO <$> undigits s'
      else if (c =? 49)%Z then xI <$> undigits s'
      else None
  end.

Lemma undigits_digits p rest : undigits (digits p ++ rest) = Some p.
Proof. induction p as [p IH|p IH|]; simpl; [by rewrite IH..|done]. Qed.

Lemma digits_plain p : NEWLINE ∉ digits p /\ forallb is_ascii_whitespace (digits p) = false.
Proof.
  split; [|by destruct p]. induction p as [p IH|p IH|]; simpl; apply not_elem_of_cons; split; try done.
  apply not_elem_of_nil.
Qed.

Definition digit_parse (s : bytes) : result Value bytes :=
  match undigits s ≫= decode with Some v => Ok v | None => Err (bs "expected value") end.

Lemma digit_roundtrip (v : Value) : digit_parse (digits (encode v) ++ [NEWLINE]) = Ok v.
Proof. unfold digit_parse. rewrite undigits_digits. cbn [mbind option_bind]. by rewrite (decode_encode v). Qed.

Definition digit_text : JsonText := {|
  to_vec v := digits (encode v);
  from_slice := digit_parse;
  type_error ty _ := bs "not a " ++ ty;
  to_vec_no_newline v := proj1 (digits_plain _);
  to_vec_not_blank v := proj2 (digits_plain _);
  from_slice_to_vec := digit_roundtrip;
|}.

(** A worker that echoes its parameters, refuses the method [no] and counts its
    calls. *)
Definition echo (method : bytes) (params : Value) (count : nat) : result Value RpcError * nat :=
  (if bytes_eqb method (bs "no") then Err (mkRpcError (-32001) (bs "denied") (Some params)) else Ok params,
   S count).

Definition echo_calls : list (bytes * Value) :=
  [(bs "a", Null); (bs "no", Bool true); (bs "b", Array [int_value 3; String (bs "x")])].

Definition echo_answers : list (result Value ClientError) :=
  [Ok Null; Err (Rpc (mkRpcError (-32001) (bs "denied") (Some (Bool true))));
   Ok (Array [int_value 3; String (bs "x")])].

Definition CAP : nat := 2000.


(** One good call, then garbage, then another request. *)
Lemma malformed_frame_policy_witness :
  let calls := [(bs "a", Null)] in
  let rest := concat (@request_lines digit_text 2 [(bs "b", Null)]) in
  let input := concat (@request_lines digit_text 1 calls) ++ bs "{]" ++ [NEWLINE] ++ rest in
  (@serve_capped digit_text nat echo CAP Close input 0).1.2 = 1 /\
  (@serve_capped digit_text nat echo CAP Continue input 0).1.2 = 2.
Proof.
  intros calls rest input.
  pose proof (@malformed_frame_policy digit_text nat echo CAP 1 calls (bs "{]") rest 0 (bs "expected value")) as H.
  cbn [run_calls echo calls] in H. destruct H as [H1 H2].
  - apply (bool_decide_unpack _). vm_compute. exact I.
  - apply (bool_decide_unpack _). vm_compute. exact I.
  - apply Nat.ltb_lt. vm_compute. reflexivity.
  - vm_compute. reflexivity.
  - vm_compute. reflexivity.
  - unfold input. rewrite H1, H2. split; [reflexivity|]. vm_compute. reflexivity.
Defined.

(** One good call, then a flood with no newline. *)
Lemma oversized_frame_ends_session_witness :
  (@serve_capped digit_text nat echo CAP Close
     (concat (@request_lines digit_text 1 [(bs "a", Null)]) ++ replicate (S CAP) 97%Z) 0).2
  = ServeFault (bs "request exceeded record cap").
Proof.
  pose proof (@oversized_frame_ends_session digit_text nat echo CAP Close 1 [(bs "a", Null)]
                (replicate (S CAP) 97%Z) 0) as H.
  cbn [run_calls echo fst snd] in H. rewrite H; [reflexivity|..].
  - apply (bool_decide_unpack _). vm_compute. exact I.
  - apply (bool_decide_unpack _). vm_compute. exact I.
  - apply Nat.ltb_lt. vm_compute. reflexivity.
Defined.
