(* ===== verification/Secrets.v ===== *)
(** Opaque secret references (src/core/src/secrets): the in-process vault
    ([vault.rs]), the substitution of references in a request ([substitute.rs])
    and their enumeration ([collect.rs]).

    The vault is a map and the number of times its clock was read: [clock k] is
    what the [k]-th call of [Instant::now] answers, in nanoseconds, so that time
    passes between any two reads and between the references of one request.
    Each operation is one step: the locks of the source make it atomic, but for
    the removal of an expired entry, which the source does under a second lock.
    [Zeroizing] has no observable effect. *)

From stdpp Require Import base list gmap numbers strings option.
From Stdlib Require Import ZArith Lia.
From S2P Require Import Prelude RustStr Fingerprint HashesWire Json.
Local Open Scope nat_scope.

(** * Data *)

Definition DEFAULT_TTL : Z := 3600 * 1000000000.
Definition REF_PREFIX : bytes := bs "secret://".
Definition REF_HEX_LEN : nat := 8.

(** A [SecretRef] is its text. *)
Abbreviation SecretRef := bytes.

Record Entry := mkEntry { en_plaintext : bytes; en_expires_at : Z }.

Inductive RedeemResult := Hit (plaintext : bytes) | Expired | NotFound.

Inductive VaultError := VaultSecrets (e : bytes) | VaultAudit (e : bytes) | EmptyPlaintext | RefCollision.

Record VaultState := mkVault { vs_ttl : Z; vs_map : gmap bytes Entry; vs_tick : nat }.

Definition with_ttl (ttl : Z) : VaultState := mkVault ttl ∅ 0.
Definition vault_new : VaultState := with_ttl DEFAULT_TTL.

Record RedemptionEvent := mkRedemption { rd_ref_hash : bytes }.

Inductive MissingReason := ReasonNotFound | ReasonExpired.

Definition missing_str (r : MissingReason) : bytes :=
  match r with ReasonNotFound => bs "not_found" | ReasonExpired => bs "expired" end.

Inductive SubstituteError :=
| MissingRef (ref_hash : bytes) (reason : MissingReason)
| PlaintextNotUtf8 (ref_hash : bytes).

(** An audit row: actor, action and payload. *)
Record AuditRow := mkRow { ar_actor : bytes; ar_action : bytes; ar_payload : Value }.

Definition is_lower_hex (b : Z) : bool :=
  ((48 <=? b) && (b <=? 57) || (97 <=? b) && (b <=? 102))%Z.

Definition is_well_formed_ref (s : bytes) : bool :=
  (length s =? length REF_PREFIX + REF_HEX_LEN) && starts_with REF_PREFIX s
  && forallb is_lower_hex (drop (length REF_PREFIX) s).

(** [secret://] and the hex digits of four random bytes. *)
Definition mint_ref (tail : bytes) : SecretRef := REF_PREFIX ++ flat_map (hex_fixed 2) tail.

(** The references of a request in document order: string leaves, never keys. *)
Fixpoint for_each_ref (v : Value) : list SecretRef :=
  match v with
  | String s => if is_well_formed_ref s then [s] else []
  | Array l => flat_map for_each_ref l
  | Object m => flat_map (fun kv => for_each_ref kv.2) m
  | _ => []
  end.

Section Secrets.
Context `{Sha256}.
Variable clock : nat -> Z.

Definition ref_hash (r : SecretRef) : bytes := sha256_hex (sha256 r).

(** One reading of the clock. *)
Definition now (s : VaultState) : Z := clock (vs_tick s).
Definition tick (s : VaultState) : VaultState := mkVault (vs_ttl s) (vs_map s) (S (vs_tick s)).

(** * The vault *)

Definition insert_fresh (r : SecretRef) (e : Entry) (s : VaultState) : result SecretRef VaultError * VaultState :=
  match vs_map s !! r with
  | None => (Ok r, mkVault (vs_ttl s) (<[r := e]> (vs_map s)) (vs_tick s))
  | Some _ => (Err RefCollision, s)
  end.

Definition materialized_row (ttl : Z) (name : bytes) (r : SecretRef) (actor : bytes) : AuditRow :=
  mkRow (bs "policy") (bs "secret.materialized")
    (object [(bs "name", String name); (bs "ref_hash", String (ref_hash r));
             (bs "ttl_secs", int_value (ttl / 1000000000)); (bs "actor", String actor)]).

(** [secret], [tail] and [audit] are what the secrets table, the random generator
    and the audit insert answer.  The last component is the rows written. *)
Definition materialize (secret : result bytes bytes) (tail : bytes) (audit : result () bytes)
    (name actor : bytes) (s : VaultState) : result SecretRef VaultError * VaultState * list AuditRow :=
  match secret with
  | Err e => (Err (VaultSecrets e), s, [])
  | Ok [] => (Err EmptyPlaintext, s, [])
  | Ok plaintext =>
      let r := mint_ref tail in
      match audit with
      | Err e => (Err (VaultAudit e), s, [])
      | Ok _ =>
          let '(res, s') := insert_fresh r (mkEntry plaintext (now s + vs_ttl s)) (tick s) in
          (res, s', [materialized_row (vs_ttl s) name r actor])
      end
  end.

Definition redeem (r : SecretRef) (s : VaultState) : RedeemResult * VaultState :=
  match vs_map s !! r with
  | None => (NotFound, tick s)
  | Some e =>
      if (now s <? en_expires_at e)%Z then (Hit (en_plaintext e), tick s)
      else (Expired, mkVault (vs_ttl s) (delete r (vs_map s)) (S (vs_tick s)))
  end.

Definition value_fingerprint (r : SecretRef) (s : VaultState) : option SecretFingerprint * VaultState :=
  (match vs_map s !! r with
   | None => None
   | Some e => if (en_expires_at e <=? now s)%Z then None else fingerprint_value (en_plaintext e)
   end, tick s).

(** * Substitution *)

(** What the walk carries: the vault and the events so far. *)
Abbreviation WalkState := (VaultState * list RedemptionEvent)%type.

Definition walk_string (s : bytes) (ws : WalkState) : Value * WalkState * option SubstituteError :=
  if is_well_formed_ref s then
    let '(r, vs) := redeem s ws.1 in
    match r with
    | Hit plaintext =>
        if is_utf8 plaintext then (String plaintext, (vs, ws.2 ++ [mkRedemption (ref_hash s)]), None)
        else (String s, (vs, ws.2), Some (PlaintextNotUtf8 (ref_hash s)))
    | Expired => (String s, (vs, ws.2), Some (MissingRef (ref_hash s) ReasonExpired))
    | NotFound => (String s, (vs, ws.2), Some (MissingRef (ref_hash s) ReasonNotFound))
    end
  else (String s, ws, None).

(** The loop over elements or entries; the first error stops it, and what was
    already rewritten stays rewritten. *)
Definition walk_items {A} (f : A -> WalkState -> A * WalkState * option SubstituteError) :=
  fix go (l : list A) (ws : WalkState) : list A * WalkState * option SubstituteError :=
    match l with
    | [] => ([], ws, None)
    | x :: l' =>
        let '(x', ws1, e) := f x ws in
        match e with
        | Some _ => (x' :: l', ws1, e)
        | None => let '(l'', ws2, e2) := go l' ws1 in (x' :: l'', ws2, e2)
        end
    end.

Fixpoint walk (v : Value) (ws : WalkState) : Value * WalkState * option SubstituteError :=
  match v with
  | String s => walk_string s ws
  | Array l => let '(l', ws', e) := walk_items walk l ws in (Array l', ws', e)
  | Object m =>
      let '(m', ws', e) :=
        walk_items (fun kv ws => let '(v', ws', e) := walk kv.2 ws in ((kv.1, v'), ws', e)) m ws in
      (Object m', ws', e)
  | _ => (v, ws, None)
  end.

Definition substitute_refs_in_params (v : Value) (s : VaultState)
    : Value * VaultState * result (list RedemptionEvent) SubstituteError :=
  let '(v', (s', events), e) := walk v (s, []) in
  (v', s', match e with None => Ok events | Some err => Err err end).

(** * Enumeration *)

Definition collect_step (acc : list SecretRef * list bytes) (r : SecretRef) : list SecretRef * list bytes :=
  if bool_decide (ref_hash r ∈ acc.2) then acc else (acc.1 ++ [r], acc.2 ++ [ref_hash r]).

Definition collect_refs_in_params (v : Value) : list SecretRef :=
  (fold_left collect_step (for_each_ref v) ([], [])).1.

(** * Substitution: lemmas *)

(** The request with every reference replaced by [f] of it. *)
Fixpoint map_refs (f : SecretRef -> bytes) (v : Value) : Value :=
  match v with
  | String s => if is_well_formed_ref s then String (f s) else String s
  | Array l => Array (map (map_refs f) l)
  | Object m => Object (map (fun kv => (kv.1, map_refs f kv.2)) m)
  | _ => v
  end.

Definition held (m : gmap bytes Entry) (r : SecretRef) : bytes :=
  default [] (en_plaintext <$> m !! r).

(** [r] was redeemable at some reading of the clock before [upto]. *)
Definition redeemed (s : VaultState) (upto : nat) (r : SecretRef) : Prop :=
  exists e k, vs_map s !! r = Some e /\ is_utf8 (en_plaintext e) = true /\
    vs_tick s <= k < upto /\ (clock k < en_expires_at e)%Z.

(** Why the redemption of [r] fails. *)
Definition unredeemable (s : VaultState) (r : SecretRef) (err : SubstituteError) : Prop :=
  match err with
  | MissingRef h ReasonNotFound => h = ref_hash r /\ vs_map s !! r = None
  | MissingRef h ReasonExpired =>
      h = ref_hash r /\ exists e k, vs_map s !! r = Some e /\ vs_tick s <= k /\ (en_expires_at e <= clock k)%Z
  | PlaintextNotUtf8 h =>
      h = ref_hash r /\ exists e, vs_map s !! r = Some e /\ is_utf8 (en_plaintext e) = false
  end.

Definition event_of (r : SecretRef) : RedemptionEvent := mkRedemption (ref_hash r).

(** The outcome of walking a part of the request that holds the references [rs]
    and, when all of them redeem, becomes [good]. *)
Definition substituted {A} (rs : list SecretRef) (good : A) (ws : WalkState)
    (res : A * WalkState * option SubstituteError) : Prop :=
  match res with
  | (a, (s', ev'), None) =>
      a = good /\ vs_map s' = vs_map ws.1 /\ vs_tick s' = vs_tick ws.1 + length rs /\
      ev' = ws.2 ++ map event_of rs /\ Forall (redeemed ws.1 (vs_tick s')) rs
  | (_, _, Some err) => exists r, r ∈ rs /\ unredeemable ws.1 r err
  end.

Lemma subst_string_ok s ws :
  substituted (if is_well_formed_ref s then [s] else [])
    (if is_well_formed_ref s then String (held (vs_map ws.1) s) else String s) ws (walk_string s ws).
Proof.
  destruct ws as [vs ev]. unfold walk_string. destruct (is_well_formed_ref s); simpl.
  2: { by rewrite app_nil_r, Nat.add_0_r. }
  unfold redeem. destruct (vs_map vs !! s) as [e|] eqn:E; simpl.
  2: { exists s. split; [apply list_elem_of_here|by split]. }
  destruct (Z.ltb_spec (now vs) (en_expires_at e)) as [Ht | Ht].
  - destruct (is_utf8 (en_plaintext e)) eqn:Eu.
    + unfold held. rewrite E. simpl. split_and!; [done|done|lia|done|].
      apply list.Forall_singleton. exists e, (vs_tick vs). split_and!; [done..|lia|lia|done].
    + exists s. split; [apply list_elem_of_here|]. split; [done|]. by exists e.
  - exists s. split; [apply list_elem_of_here|]. split; [done|]. exists e, (vs_tick vs). by split_and!.
Qed.

(** What happened in a later state of the same map happened in the earlier one. *)
Lemma unredeemable_later s s' r err :
  vs_map s' = vs_map s -> vs_tick s <= vs_tick s' -> unredeemable s' r err -> unredeemable s r err.
Proof.
  intros Hm Ht. unfold unredeemable. rewrite Hm. destruct err as [h [|]|h]; [done| |done].
  intros (-> & e & k & He & Hk & Hx). split; [done|]. exists e, k. split_and!; [done|lia|done].
Qed.

Lemma redeemed_later s s' u u' r :
  vs_map s' = vs_map s -> vs_tick s <= vs_tick s' -> u' <= u -> redeemed s' u' r -> redeemed s u r.
Proof.
  intros Hm Ht Hu (e & k & He & Hx & Hk & Hc). exists e, k. rewrite Hm in He. split_and!; [done|done|lia|lia|done].
Qed.

Lemma subst_items_ok {A} (f : A -> WalkState -> A * WalkState * option SubstituteError)
    (rs : A -> list SecretRef) (good : gmap bytes Entry -> A -> A) l ws :
  Forall (fun x => forall ws, substituted (rs x) (good (vs_map ws.1) x) ws (f x ws)) l ->
  substituted (flat_map rs l) (map (good (vs_map ws.1)) l) ws (walk_items f l ws).
Proof.
  intros Hf. revert ws. induction Hf as [|x l Hx Hl IH]; intros ws.
  { destruct ws as [s ev]. simpl. by rewrite app_nil_r, Nat.add_0_r. }
  cbn [walk_items flat_map map]. specialize (Hx ws). fold (walk_items f).
  destruct (f x ws) as [[x' [s1 ev1]] [err|]]; simpl in Hx.
  { destruct Hx as (r & Hr & Hu). exists r. split; [apply elem_of_app; by left|done]. }
  destruct Hx as (-> & Hm & Ht & -> & Hx). specialize (IH (s1, ws.2 ++ map event_of (rs x))).
  destruct (walk_items f l _) as [[l' [s2 ev2]] [err|]]; simpl in IH.
  - destruct IH as (r & Hr & Hu). exists r. split; [apply elem_of_app; by right|].
    eapply unredeemable_later; [done|lia|done].
  - destruct IH as (-> & Hm2 & Ht2 & -> & Hx2). simpl. rewrite Hm in Hm2. split_and!.
    + by rewrite Hm.
    + done.
    + rewrite length_app. lia.
    + by rewrite map_app, app_assoc.
    + apply list.Forall_app. split.
      * eapply list.Forall_impl; [exact Hx|]. intros r. apply redeemed_later; [done|lia|lia].
      * eapply list.Forall_impl; [exact Hx2|]. intros r. apply redeemed_later; [done|simpl; lia|lia].
Qed.

Lemma subst_walk_ok v ws : substituted (for_each_ref v) (map_refs (held (vs_map ws.1)) v) ws (walk v ws).
Proof.
  revert ws. induction v as [|b|n|s|l IH|m IH] using Value_ind'; intros ws;
    try (destruct ws as [s ev]; simpl; by rewrite app_nil_r, Nat.add_0_r).
  - apply subst_string_ok.
  - pose proof (subst_items_ok walk for_each_ref (fun m => map_refs (held m)) l ws IH) as Hw.
    cbn [walk]. destruct (walk_items walk l ws) as [[l' [s' ev']] [err|]]; simpl in *; [done|].
    destruct Hw as (-> & Hw). by split.
  - pose proof (subst_items_ok
      (fun kv ws => let '(v', ws', e) := walk kv.2 ws in ((kv.1, v'), ws', e))
      (fun kv => for_each_ref kv.2) (fun mm kv => (kv.1, map_refs (held mm) kv.2)) m ws) as Hw.
    cbn [walk]. destruct (walk_items _ m ws) as [[m' [s' ev']] [err|]]; simpl in *.
    + apply Hw. clear Hw. eapply list.Forall_impl; [exact IH|]. intros [k v] Hv ws0. specialize (Hv ws0). simpl in *.
      destruct (walk v ws0) as [[v' [s0 ev0]] [e0|]]; simpl in *; [done|]. destruct Hv as (-> & Hv). by split.
    + destruct Hw as (-> & Hw); [|by split].
      eapply list.Forall_impl; [exact IH|]. intros [k v] Hv ws0. specialize (Hv ws0). simpl in *.
      destruct (walk v ws0) as [[v' [s0 ev0]] [e0|]]; simpl in *; [done|]. destruct Hv as (-> & Hv). by split.
Qed.

(** What [substitute_refs_in_params] promises, success and failure. *)
Definition substitution_ok (v : Value) (s : VaultState)
    (res : Value * VaultState * result (list RedemptionEvent) SubstituteError) : Prop :=
  match res with
  | (v', s', Ok events) =>
      v' = map_refs (held (vs_map s)) v /\ vs_map s' = vs_map s /\ vs_tick s <= vs_tick s' /\
      events = map event_of (for_each_ref v) /\
      Forall (redeemed s (vs_tick s')) (for_each_ref v)
  | (_, _, Err err) => exists r, r ∈ for_each_ref v /\ unredeemable s r err
  end.

Lemma substitute_refs_ok v s : substitution_ok v s (substitute_refs_in_params v s).
Proof.
  unfold substitute_refs_in_params. pose proof (subst_walk_ok v (s, [])) as Hw.
  destruct (walk v (s, [])) as [[v' [s' ev']] [err|]]; simpl in Hw; [done|].
  destruct Hw as (-> & Hm & Ht & -> & Hr). split_and!; [done|done|simpl; lia|done|done].
Qed.

(** ** Enumeration *)

Lemma collect_fold rs acc :
  (forall h, h ∈ acc.2 -> exists r, r ∈ acc.1 /\ ref_hash r = h) ->
  forall r, r ∈ rs \/ r ∈ acc.1 ->
  exists r', r' ∈ (fold_left collect_step rs acc).1 /\ ref_hash r' = ref_hash r.
Proof.
  revert acc. induction rs as [|q rs IH]; intros acc Hacc r Hr; simpl.
  { destruct Hr as [Hr | Hr]; [by apply not_elem_of_nil in Hr|]. by exists r. }
  unfold collect_step at 2. destruct (bool_decide_reflect (ref_hash q ∈ acc.2)) as [Hin | Hout].
  - destruct Hr as [[-> | Hr]%elem_of_cons | Hr]; [|by apply IH; [|left]|by apply IH; [|right]].
    destruct (Hacc _ Hin) as (q' & Hq' & Hh). rewrite <- Hh. by apply IH; [|right].
  - apply IH; simpl.
    + intros h [Hh | ->%list_elem_of_singleton]%elem_of_app.
      * destruct (Hacc h Hh) as (q' & Hq' & <-). exists q'. split; [apply elem_of_app; by left|done].
      * exists q. split; [apply elem_of_app; right; apply list_elem_of_here|done].
    + destruct Hr as [[-> | Hr]%elem_of_cons | Hr]; [|by left|].
      * right. apply elem_of_app. right. apply list_elem_of_here.
      * right. apply elem_of_app. by left.
Qed.

(** Enumeration loses a reference only to another one with the same hash. *)
Lemma collect_refs_complete v r :
  r ∈ for_each_ref v -> exists r', r' ∈ collect_refs_in_params v /\ ref_hash r' = ref_hash r.
Proof. intros Hr. apply (collect_fold (for_each_ref v) ([], [])); [intros h Hh; by apply not_elem_of_nil in Hh|by left]. Qed.

(** Substitution redeems exactly the references the read-only traversal
    sees.  When it succeeds, the request has every reference replaced by the
    plaintext the vault holds for it and nothing else changed, the vault is as it
    was, there is one event per reference in document order, and each was
    unexpired when it was redeemed.  When it fails, it names a reference of the
    request that was missing, expired or not text.  Whatever it redeems, the
    enumeration the leak scanner is fed from lists too, up to a hash collision. *)
Theorem substitute_refs_redeems_exactly v s :
  substitution_ok v s (substitute_refs_in_params v s) /\
  (forall r, r ∈ for_each_ref v ->
     r ∈ collect_refs_in_params v \/
     exists r', r' ∈ collect_refs_in_params v /\ r' <> r /\ sha256 r' = sha256 r).
Proof.
  split; [apply substitute_refs_ok|]. intros r Hr. destruct (collect_refs_complete v r Hr) as (r' & Hin & Hh).
  destruct (decide (r' = r)) as [-> | Hne]; [by left|]. right. exists r'. split_and!; [done..|].
  by apply sha256_hex_inj.
Qed.

(** * What the other tasks of the process do to the vault *)

Inductive VaultOp :=
| OpMaterialize (secret : result bytes bytes) (tail : bytes) (audit : result () bytes) (name actor : bytes)
| OpRedeem (r : SecretRef)
| OpFingerprint (r : SecretRef)
| OpSubstitute (v : Value)
| OpWait (ticks : nat).

Definition run_op (op : VaultOp) (s : VaultState) : VaultState :=
  match op with
  | OpMaterialize secret tail audit name actor => (materialize secret tail audit name actor s).1.2
  | OpRedeem r => (redeem r s).2
  | OpFingerprint r => (value_fingerprint r s).2
  | OpSubstitute v => (substitute_refs_in_params v s).1.2
  | OpWait n => mkVault (vs_ttl s) (vs_map s) (vs_tick s + n)
  end.

Definition run_ops (ops : list VaultOp) (s : VaultState) : VaultState := fold_left (fun s op => run_op op s) ops s.

(** From [s] to [s'] time does not run backwards, and [r] keeps the entry [e]
    unless a reading of the clock found it expired. *)
Definition keeps (r : SecretRef) (e : Entry) (s s' : VaultState) : Prop :=
  vs_tick s <= vs_tick s' /\
  (vs_map s !! r = Some e ->
   vs_map s' !! r = Some e \/ exists k, vs_tick s <= k < vs_tick s' /\ (en_expires_at e <= clock k)%Z).

Lemma keeps_refl r e s : keeps r e s s.
Proof. split; [done|by left]. Qed.

Lemma keeps_trans r e s1 s2 s3 : keeps r e s1 s2 -> keeps r e s2 s3 -> keeps r e s1 s3.
Proof.
  intros [Ht1 H1] [Ht2 H2]. split; [lia|]. intros E. destruct (H1 E) as [E2 | (k & Hk & Hx)].
  - destruct (H2 E2) as [E3 | (k & Hk & Hx)]; [by left|]. right. exists k. split; [lia|done].
  - right. exists k. split; [lia|done].
Qed.

Lemma keeps_same_map r e s s' : vs_map s' = vs_map s -> vs_tick s <= vs_tick s' -> keeps r e s s'.
Proof. intros Hm Ht. split; [done|]. rewrite Hm. by left. Qed.

Lemma redeem_keeps r e q s : keeps r e s (redeem q s).2.
Proof.
  unfold redeem. destruct (vs_map s !! q) as [e'|] eqn:Eq; [|apply keeps_same_map; simpl; [done|lia]].
  destruct (Z.ltb_spec (now s) (en_expires_at e')) as [Ht | Ht]; [apply keeps_same_map; simpl; [done|lia]|].
  split; simpl; [lia|]. intros E. destruct (decide (q = r)) as [-> | Hne].
  - rewrite E in Eq. injection Eq as <-. right. exists (vs_tick s). split; [lia|done].
  - left. by rewrite lookup_delete_ne.
Qed.

Lemma materialize_keeps r e secret tail audit name actor s :
  keeps r e s (materialize secret tail audit name actor s).1.2.
Proof.
  unfold materialize. destruct secret as [[|b pt]|err]; [apply keeps_refl| |apply keeps_refl].
  destruct audit as [[]|err]; [|apply keeps_refl]. unfold insert_fresh. simpl.
  destruct (vs_map s !! mint_ref tail) as [e'|] eqn:Em; simpl; [apply keeps_same_map; simpl; [done|lia]|].
  split; simpl; [lia|]. intros E. left. rewrite lookup_insert_ne; [done|]. congruence.
Qed.

Lemma walk_string_keeps r e s ws : keeps r e ws.1 (walk_string s ws).1.2.1.
Proof.
  unfold walk_string. destruct (is_well_formed_ref s); [|apply keeps_refl].
  pose proof (redeem_keeps r e s ws.1) as Hk. destruct (redeem s ws.1) as [[pt| |] vs]; simpl in *; [|done..].
  by destruct (is_utf8 pt).
Qed.

Lemma walk_items_keeps {A} r e (f : A -> WalkState -> A * WalkState * option SubstituteError) l ws :
  Forall (fun x => forall ws, keeps r e ws.1 (f x ws).1.2.1) l -> keeps r e ws.1 (walk_items f l ws).1.2.1.
Proof.
  intros Hf. revert ws. induction Hf as [|x l Hx Hl IH]; intros ws; [apply keeps_refl|].
  cbn [walk_items]. fold (walk_items f). specialize (Hx ws). destruct (f x ws) as [[x' ws1] [err|]]; simpl in Hx; [done|].
  specialize (IH ws1). destruct (walk_items f l ws1) as [[l' ws2] err]. by eapply keeps_trans.
Qed.

Lemma walk_keeps r e v ws : keeps r e ws.1 (walk v ws).1.2.1.
Proof.
  revert ws. induction v as [|b|n|s|l IH|m IH] using Value_ind'; intros ws; try apply keeps_refl.
  - apply walk_string_keeps.
  - cbn [walk]. pose proof (walk_items_keeps r e walk l ws IH) as Hk.
    by destruct (walk_items walk l ws) as [[l' ws'] err].
  - cbn [walk]. set (f := fun (kv : bytes * Value) (ws : WalkState) => _).
    pose proof (walk_items_keeps r e f m ws) as Hk.
    destruct (walk_items f m ws) as [[m' ws'] err]. apply Hk.
    eapply list.Forall_impl; [exact IH|]. intros [k v] Hv ws0. specialize (Hv ws0). subst f. simpl in *.
    by destruct (walk v ws0) as [[v' ws1] err'].
Qed.

Lemma run_op_keeps r e op s : keeps r e s (run_op op s).
Proof.
  destruct op as [secret tail audit name actor|q|q|v|n]; simpl.
  - apply materialize_keeps.
  - apply redeem_keeps.
  - apply keeps_same_map; simpl; [done|lia].
  - unfold substitute_refs_in_params. pose proof (walk_keeps r e v (s, [])) as Hk.
    by destruct (walk v (s, [])) as [[v' [s' ev]] err].
  - apply keeps_same_map; simpl; [done|lia].
Qed.

Lemma run_ops_keeps r e ops s : keeps r e s (run_ops ops s).
Proof.
  revert s. induction ops as [|op ops IH]; intros s; [apply keeps_refl|].
  eapply keeps_trans; [apply run_op_keeps|apply IH].
Qed.

(** A minted reference is well formed when the random bytes are bytes. *)
Lemma mint_ref_well_formed tail :
  length tail = 4 -> Forall u8_range tail -> is_well_formed_ref (mint_ref tail) = true.
Proof.
  intros Hl Hb. unfold is_well_formed_ref, mint_ref. rewrite drop_app_length.
  assert (Hlen : length (flat_map (hex_fixed 2) tail) = 2 * length tail).
  { clear. induction tail as [|b tail IH]; [done|]. cbn [flat_map]. rewrite length_app, length_hex_fixed, IH.
    simpl. lia. }
  rewrite length_app, Hlen, Hl. cbn [andb Nat.eqb Nat.add Nat.mul].
  replace (starts_with _ _) with true
    by (symmetry; apply starts_with_true; by exists (flat_map (hex_fixed 2) tail)).
  apply forallb_forall. intros c Hc. apply in_flat_map in Hc as (b & Hin & Hc).
  apply list_elem_of_In in Hin, Hc. rewrite list.Forall_forall in Hb. specialize (Hb b Hin).
  apply hex_fixed_digits in Hc; [|unfold u8_range in Hb; lia]. unfold is_lower_hex.
  apply orb_true_iff. rewrite !andb_true_iff, !Z.leb_le. lia.
Qed.

(** A reference keeps its secret: once minted, whatever the tasks of the
    process then do with the vault (mint, redeem, substitute, fingerprint, in any
    order), redeeming it yields the plaintext it was minted for as long as no
    reading of the clock has reached its deadline; it is well formed, so that it
    is substituted wherever it appears, and its minting is in the audit log. *)
Theorem minted_ref_keeps_its_secret plaintext tail audit name actor s r s1 rows ops :
  length tail = 4 -> Forall u8_range tail ->
  materialize (Ok plaintext) tail audit name actor s = (Ok r, s1, rows) ->
  (forall k, vs_tick s1 <= k <= vs_tick (run_ops ops s1) -> (clock k < now s + vs_ttl s)%Z) ->
  is_well_formed_ref r = true /\
  rows = [materialized_row (vs_ttl s) name r actor] /\
  (redeem r (run_ops ops s1)).1 = Hit plaintext.
Proof.
  intros Hl Hb Em Hclock. unfold materialize in Em. destruct plaintext as [|b pt]; [done|].
  destruct audit as [[]|err]; [|done]. unfold insert_fresh in Em. simpl in Em.
  destruct (vs_map s !! mint_ref tail) as [e'|]; [done|]. injection Em as <- <- <-.
  split; [by apply mint_ref_well_formed|]. split; [done|].
  set (s1 := mkVault _ _ _) in *. set (e := mkEntry (b :: pt) (now s + vs_ttl s)) in *.
  destruct (run_ops_keeps (mint_ref tail) e ops s1) as [Ht Hk].
  unfold redeem. destruct Hk as [-> | (k & Hk & Hx)].
  - subst s1. simpl. apply lookup_insert_eq.
  - rewrite (proj2 (Z.ltb_lt _ _)); [done|]. subst e. simpl. apply Hclock. lia.
  - specialize (Hclock k ltac:(lia)). subst e. simpl in Hx. lia.
Qed.
End Secrets.

(** * Witnesses *)

Definition demo_clock (k : nat) : Z := Z.of_nat k.

Definition demo_secret : bytes := bs "hunter2-hunter2".

Definition demo_ref : SecretRef := bs "secret://0a0b0c0d".

Lemma minted_ref_keeps_its_secret_witness :
  let '(_, s1, _) := materialize demo_clock (Ok demo_secret) [10; 11; 12; 13]%Z (Ok tt) (bs "db") (bs "cli") vault_new in
  (redeem demo_clock demo_ref (run_ops demo_clock [OpWait 5; OpRedeem (bs "secret://00000000"); OpSubstitute (String demo_ref)] s1)).1
  = Hit demo_secret.
Proof.
  apply (minted_ref_keeps_its_secret demo_clock demo_secret [10; 11; 12; 13]%Z (Ok tt) (bs "db") (bs "cli") vault_new
           demo_ref _ _ [OpWait 5; OpRedeem (bs "secret://00000000"); OpSubstitute (String demo_ref)]
           eq_refl ltac:(repeat constructor; discriminate) ltac:(vm_compute; reflexivity)).
  intros k [_ Hk]. vm_compute in Hk. unfold demo_clock. change (now _ vault_new + _)%Z with 3600000000000%Z. lia.
Defined.
