(* ===== verification/SecretStore.v ===== *)
(** Secrets at rest (src/db/src/secrets.rs with secrets/crypto.rs and
    key_provider.rs) and the operator's commands for them
    (src/core/src/secrets/admin.rs): the [secrets] table, the binding of a
    ciphertext to its name, the wrapping key in the OS keyring and its first
    initialisation by processes that run at once.

    AES-256-GCM is the third-party crate [aes_gcm]: the class [Aead], whose one law
    beyond sizes is that decryption accepts exactly the encryptions of its answer,
    as GCM does, which decrypts by counter mode and recomputes the tag.  The nonce
    and the fresh key are what the random generator answered, arguments of the
    operations; a statement that the database does not run answers an error. *)

From stdpp Require Import base list gmap numbers strings option.
From Stdlib Require Import ZArith Lia.
From S2P Require Import Prelude RustStr Fingerprint HashesWire Json Secrets.
Local Open Scope nat_scope.

(** * Constants and errors *)

Definition KEY_LEN : nat := 32.
Definition NONCE_LEN : nat := 12.
Definition AAD_DOMAIN : bytes := bs "kastellan-secrets-v1".
Definition MAX_NAME_LEN : nat := 256.
Definition MAX_PLAINTEXT_LEN : nat := Nat.mul 64 1024.
Definition GCM_TAG_LEN : nat := 16.
Definition MAX_CIPHERTEXT_LEN : nat := MAX_PLAINTEXT_LEN + GCM_TAG_LEN.
Definition KEY_SERVICE : bytes := bs "kastellan".
Definition KEY_ACCOUNT : bytes := bs "secrets-v1".

Inductive SecretsError :=
| InvalidName (why : bytes)
| PlaintextTooLarge (len max : nat)
| CiphertextTooLarge (len max : nat)
| EncryptFailed
| DecryptFailed
| AadMismatch
| NonceLengthInvalid (expected got : nat)
| KeyLengthInvalid (expected got : nat)
| SecretNotFound (name : bytes)
| KeyNotFound (id : bytes)
| Keyring (why : bytes)
| Db (e : bytes).

(** [Display] *)
Definition secrets_error_str (e : SecretsError) : bytes :=
  match e with
  | InvalidName why => bs "secret name is invalid: " ++ why
  | PlaintextTooLarge len max => bs "plaintext is too large: " ++ show_nat len ++ bs " bytes (max " ++ show_nat max ++ bs ")"
  | CiphertextTooLarge len max => bs "stored ciphertext is too large: " ++ show_nat len ++ bs " bytes (max " ++ show_nat max ++ bs ")"
  | EncryptFailed => bs "encryption failed (AES-GCM)"
  | DecryptFailed => bs "decryption failed (AES-GCM authentication tag mismatch " ++ [226; 128; 148]%Z ++
      bs " wrong key, tampered ciphertext, or row swap)"
  | AadMismatch => bs "stored AAD does not bind to the requested name (row was renamed without re-encryption)"
  | NonceLengthInvalid expected got => bs "stored nonce length is wrong: expected " ++ show_nat expected ++ bs " bytes, got " ++ show_nat got
  | KeyLengthInvalid expected got => bs "key length is wrong: expected " ++ show_nat expected ++ bs " bytes, got " ++ show_nat got
  | SecretNotFound name => bs "secret not found: " ++ name
  | KeyNotFound id => bs "wrapping key not in provider: " ++ id
  | Keyring why => bs "keyring access failed: " ++ why
  | Db e => bs "database error: " ++ e
  end.

(** * The pure parts (crypto.rs) *)

Fixpoint check_name_bytes (i : nat) (s : bytes) : result () SecretsError :=
  match s with
  | [] => Ok tt
  | b :: rest =>
      if (b =? 0)%Z then Err (InvalidName (bs "contains NUL at byte " ++ show_nat i))
      else if ((b <? 32) || (b =? 127))%Z
      then Err (InvalidName (bs "control byte 0x" ++ hex_fixed 2 b ++ bs " at byte " ++ show_nat i))
      else check_name_bytes (S i) rest
  end.

Definition validate_name (name : bytes) : result () SecretsError :=
  if bytes_eqb name [] then Err (InvalidName (bs "empty"))
  else if MAX_NAME_LEN <? length name
  then Err (InvalidName (show_nat (length name) ++ bs " bytes (max " ++ show_nat MAX_NAME_LEN ++ bs ")"))
  else check_name_bytes 0 name.

Definition compute_aad (name : bytes) (extra : option bytes) : bytes := AAD_DOMAIN ++ [0%Z] ++ name ++ [0%Z] ++ default [] extra.

(** [Aes256Gcm] of the crate: a key of [KEY_LEN] bytes, a nonce of [NONCE_LEN]. *)
Class Aead := {
  gcm_encrypt : bytes -> bytes -> bytes -> bytes -> option bytes;
  gcm_decrypt : bytes -> bytes -> bytes -> bytes -> option bytes;
  gcm_total : forall key nonce aad msg, length msg <= MAX_PLAINTEXT_LEN -> is_Some (gcm_encrypt key nonce aad msg);
  gcm_length : forall key nonce aad msg c, gcm_encrypt key nonce aad msg = Some c -> length c = length msg + GCM_TAG_LEN;
  gcm_decrypt_iff : forall key nonce aad msg c, gcm_decrypt key nonce aad c = Some msg <-> gcm_encrypt key nonce aad msg = Some c }.

Section Crypto.
Context `{Aead}.

Definition encrypt (key plaintext aad nonce : bytes) : result (bytes * bytes) SecretsError :=
  if MAX_PLAINTEXT_LEN <? length plaintext then Err (PlaintextTooLarge (length plaintext) MAX_PLAINTEXT_LEN)
  else match gcm_encrypt key nonce aad plaintext with Some ct => Ok (ct, nonce) | None => Err EncryptFailed end.

Definition decrypt (key ciphertext nonce aad : bytes) : result bytes SecretsError :=
  match gcm_decrypt key nonce aad ciphertext with Some pt => Ok pt | None => Err DecryptFailed end.
End Crypto.

(** * Key providers (key_provider.rs) *)

Class KeyProvider (P : Type) := { current_id : P -> bytes; get_key : P -> bytes -> result bytes SecretsError }.

Record MapKeyProvider := mkMapProvider { mp_current : bytes; mp_keys : gmap bytes bytes }.

Definition map_provider_new (id key : bytes) : MapKeyProvider := mkMapProvider id {[id := key]}.
Definition map_provider_insert (p : MapKeyProvider) (id key : bytes) : MapKeyProvider := mkMapProvider (mp_current p) (<[id := key]> (mp_keys p)).

#[export] Instance map_key_provider : KeyProvider MapKeyProvider :=
  {| current_id := mp_current;
     get_key p id := match mp_keys p !! id with Some k => Ok k | None => Err (KeyNotFound id) end |}.

Record OsKeyringProvider := mkOsProvider { os_current_id : bytes; os_key_bytes : bytes }.

#[export] Instance os_key_provider : KeyProvider OsKeyringProvider :=
  {| current_id := os_current_id;
     get_key p id := if bytes_eqb id (os_current_id p) then Ok (os_key_bytes p) else Err (KeyNotFound id) |}.

Inductive KeyringOpsError := NoEntry | OtherKeyring (s : bytes).

Definition op_err (e : KeyringOpsError) : bytes := match e with NoEntry => bs "no entry" | OtherKeyring s => s end.

Inductive FirstInit := ExistingKey | FreshKey | RacedConverged.

Definition to_key (b : bytes) : result bytes SecretsError :=
  if Nat.eqb (length b) KEY_LEN then Ok b else Err (KeyLengthInvalid KEY_LEN (length b)).

(** What is left to do after each answer of the keyring. *)
Inductive InitStep := AskGet | AskSet (fresh : bytes) | AskReadBack (fresh : bytes) | Resolved (r : result (bytes * FirstInit) SecretsError).

Definition after_get (fresh : bytes) (answer : result bytes KeyringOpsError) : InitStep :=
  match answer with
  | Ok existing => Resolved (match to_key existing with Ok k => Ok (k, ExistingKey) | Err e => Err e end)
  | Err NoEntry => AskSet fresh
  | Err (OtherKeyring s) => Resolved (Err (Keyring (bs "get_secret failed: " ++ s)))
  end.

Definition after_set (fresh : bytes) (answer : result () KeyringOpsError) : InitStep :=
  match answer with
  | Ok _ => AskReadBack fresh
  | Err e => Resolved (Err (Keyring (bs "set_secret failed: " ++ op_err e)))
  end.

Definition read_back (fresh : bytes) (answer : result bytes KeyringOpsError) : result (bytes * FirstInit) SecretsError :=
  match answer with
  | Ok b => match to_key b with
            | Ok after => if bytes_eqb after fresh then Ok (fresh, FreshKey) else Ok (after, RacedConverged)
            | Err e => Err e
            end
  | Err NoEntry => Err (Keyring (bs "keyring entry vanished immediately after set_secret"))
  | Err (OtherKeyring s) => Err (Keyring (bs "read-back get_secret failed: " ++ s))
  end.

(** [resolve_or_init], on the answers to its three calls of the keyring. *)
Definition resolve_or_init (get1 : result bytes KeyringOpsError) (fresh : bytes) (set : result () KeyringOpsError)
    (get2 : result bytes KeyringOpsError) : result (bytes * FirstInit) SecretsError :=
  match after_get fresh get1 with
  | Resolved r => r
  | _ => match after_set fresh set with
         | Resolved r => r
         | _ => read_back fresh get2
         end
  end.

Definition ensure_initialized_for (service account : bytes) (r : result (bytes * FirstInit) SecretsError) : result OsKeyringProvider SecretsError :=
  match r with Ok (k, _) => Ok (mkOsProvider (service ++ bs "." ++ account) k) | Err e => Err e end.

Definition ensure_initialized (r : result (bytes * FirstInit) SecretsError) : result OsKeyringProvider SecretsError :=
  ensure_initialized_for KEY_SERVICE KEY_ACCOUNT r.

(** * The table (secrets.rs) *)

Record SecretRow := mkSecretRow {
  sx_ciphertext : bytes; sx_nonce : bytes; sx_aad : bytes; sx_key_id : bytes; sx_created_at : Z; sx_updated_at : Z }.

Abbreviation SecretTable := (gmap bytes SecretRow).

Record SecretListing := mkListing { sl_name : bytes; sl_key_id : bytes; sl_created_at : Z; sl_updated_at : Z }.

(** [INSERT ... ON CONFLICT (name) DO UPDATE] at time [now]. *)
Definition upsert (t : SecretTable) (name : bytes) (ct nonce aad key_id : bytes) (now : Z) : SecretTable :=
  <[name := mkSecretRow ct nonce aad key_id (match t !! name with Some r => sx_created_at r | None => now end) now]> t.

(** [ORDER BY name ASC], in the C collation. *)
Fixpoint bytes_leb (a b : bytes) : bool :=
  match a, b with
  | [], _ => true
  | _ :: _, [] => false
  | x :: a', y :: b' => if (x <? y)%Z then true else if (y <? x)%Z then false else bytes_leb a' b'
  end.

Fixpoint insert_listing (l : SecretListing) (ls : list SecretListing) : list SecretListing :=
  match ls with
  | [] => [l]
  | x :: rest => if bytes_leb (sl_name l) (sl_name x) then l :: ls else x :: insert_listing l rest
  end.

Section Table.
Context `{Aead} {P : Type} `{KeyProvider P}.

(** [db] is whether the database ran the statement. *)
Definition put (db : result () bytes) (now : Z) (nonce : bytes) (p : P) (name plaintext : bytes) (extra : option bytes) (t : SecretTable)
    : result () SecretsError * SecretTable :=
  match validate_name name with
  | Err e => (Err e, t)
  | Ok _ =>
      match get_key p (current_id p) with
      | Err e => (Err e, t)
      | Ok key =>
          let aad := compute_aad name extra in
          match encrypt key plaintext aad nonce with
          | Err e => (Err e, t)
          | Ok (ct, nonce) =>
              match db with
              | Err e => (Err (Db e), t)
              | Ok _ => (Ok tt, upsert t name ct nonce aad (current_id p) now)
              end
          end
      end
  end.

Definition get_secret (db : result () bytes) (p : P) (name : bytes) (extra : option bytes) (t : SecretTable) : result bytes SecretsError :=
  match validate_name name with
  | Err e => Err e
  | Ok _ =>
      match db with
      | Err e => Err (Db e)
      | Ok _ =>
          match t !! name with
          | None => Err (SecretNotFound name)
          | Some r =>
              if MAX_CIPHERTEXT_LEN <? length (sx_ciphertext r)
              then Err (CiphertextTooLarge (length (sx_ciphertext r)) MAX_CIPHERTEXT_LEN)
              else if negb (Nat.eqb (length (sx_nonce r)) NONCE_LEN) then Err (NonceLengthInvalid NONCE_LEN (length (sx_nonce r)))
              else if negb (bytes_eqb (sx_aad r) (compute_aad name extra)) then Err AadMismatch
              else match get_key p (sx_key_id r) with
                   | Err e => Err e
                   | Ok key => decrypt key (sx_ciphertext r) (sx_nonce r) (compute_aad name extra)
                   end
          end
      end
  end.

Definition list_secrets (db : result () bytes) (t : SecretTable) : result (list SecretListing) SecretsError :=
  match db with
  | Err e => Err (Db e)
  | Ok _ => Ok (fold_right insert_listing [] (map (fun kr => mkListing kr.1 (sx_key_id kr.2) (sx_created_at kr.2) (sx_updated_at kr.2)) (map_to_list t)))
  end.

Definition delete_secret (db : result () bytes) (name : bytes) (t : SecretTable) : result bool SecretsError * SecretTable :=
  match validate_name name with
  | Err e => (Err e, t)
  | Ok _ => match db with Err e => (Err (Db e), t) | Ok _ => (Ok (bool_decide (is_Some (t !! name))), delete name t) end
  end.

(** * The operator's commands (admin.rs) *)

Inductive AdminOutcome := Created | Updated.
Inductive AdminError := AdminSecrets (e : SecretsError) | AdminAudit (e : bytes).

Definition put_row (name key_id : bytes) : AuditRow :=
  mkRow (bs "cli") (bs "secret.put") (object [(bs "name", String name); (bs "key_id", String key_id)]).
Definition deleted_row (name : bytes) : AuditRow := mkRow (bs "cli") (bs "secret.deleted") (object [(bs "name", String name)]).

(** The last component is the audit rows written. *)
Definition store_secret (db_list db_put audit : result () bytes) (now : Z) (nonce : bytes) (p : P) (name value : bytes) (t : SecretTable)
    : result AdminOutcome AdminError * SecretTable * list AuditRow :=
  match list_secrets db_list t with
  | Err e => (Err (AdminSecrets e), t, [])
  | Ok ls =>
      let existed := existsb (fun l => bytes_eqb (sl_name l) name) ls in
      match put db_put now nonce p name value None t with
      | (Err e, t') => (Err (AdminSecrets e), t', [])
      | (Ok _, t') =>
          match audit with
          | Err e => (Err (AdminAudit e), t', [])
          | Ok _ => (Ok (if existed then Updated else Created), t', [put_row name (current_id p)])
          end
      end
  end.

Definition remove_secret (db audit : result () bytes) (name : bytes) (t : SecretTable)
    : result bool AdminError * SecretTable * list AuditRow :=
  match delete_secret db name t with
  | (Err e, t') => (Err (AdminSecrets e), t', [])
  | (Ok false, t') => (Ok false, t', [])
  | (Ok true, t') => match audit with Err e => (Err (AdminAudit e), t', []) | Ok _ => (Ok true, t', [deleted_row name]) end
  end.
End Table.

(** * Lemmas *)

#[local] Opaque MAX_PLAINTEXT_LEN.

Lemma check_name_no_nul i s : check_name_bytes i s = Ok tt -> 0%Z ∉ s.
Proof.
  revert i. induction s as [|b s IH]; intros i; cbn [check_name_bytes]; [intros _; apply not_elem_of_nil|].
  destruct (Z.eqb_spec b 0); [done|]. destruct (_ || _)%Z; [done|]. intros E%IH. by rewrite not_elem_of_cons.
Qed.

Lemma validate_name_no_nul name : validate_name name = Ok tt -> 0%Z ∉ name.
Proof. unfold validate_name. destruct (bytes_eqb name []); [done|]. destruct (_ <? _); [done|]. apply check_name_no_nul. Qed.

(** What comes before the first NUL and after it. *)
Lemma split_at_nul (a b x y : bytes) : 0%Z ∉ a -> 0%Z ∉ b -> a ++ 0%Z :: x = b ++ 0%Z :: y -> a = b /\ x = y.
Proof.
  revert b. induction a as [|c a IH]; intros [|d b] Ha Hb; cbn [app].
  - by intros [= ->].
  - intros [= <- _]. by apply not_elem_of_cons in Hb as [].
  - intros [= -> _]. by apply not_elem_of_cons in Ha as [].
  - intros [= -> E]. apply not_elem_of_cons in Ha as [_ Ha], Hb as [_ Hb]. by destruct (IH b Ha Hb E) as [-> ->].
Qed.

Lemma compute_aad_inj n1 e1 n2 e2 : 0%Z ∉ n1 -> 0%Z ∉ n2 -> compute_aad n1 e1 = compute_aad n2 e2 -> n1 = n2 /\ default [] e1 = default [] e2.
Proof. unfold compute_aad. intros H1 H2 E%app_inv_head. injection E as E. by apply split_at_nul. Qed.

Section Facts.
Context `{Aead} {P : Type} `{KeyProvider P}.

(** What a put that succeeded did. *)
Lemma put_Ok db now nonce (p : P) name plain extra t t' : put db now nonce p name plain extra t = (Ok tt, t') ->
  exists key ct, validate_name name = Ok tt /\ get_key p (current_id p) = Ok key /\ length plain <= MAX_PLAINTEXT_LEN /\
    gcm_encrypt key nonce (compute_aad name extra) plain = Some ct /\ t' = upsert t name ct nonce (compute_aad name extra) (current_id p) now.
Proof.
  unfold put, encrypt. destruct (validate_name name) as [[]|]; [|done]. destruct (get_key p (current_id p)) as [key|] eqn:Ek; [|done].
  destruct (Nat.ltb_spec MAX_PLAINTEXT_LEN (length plain)); [done|]. destruct (gcm_encrypt _ _ _ _) as [ct|] eqn:Ec; [|done].
  destruct db; [|done]. intros [= <-]. by exists key, ct.
Qed.

(** When a read answers. *)
Lemma get_secret_Ok db (p : P) name extra t plain : get_secret db p name extra t = Ok plain <->
  exists r key, db = Ok tt /\ validate_name name = Ok tt /\ t !! name = Some r /\ length (sx_ciphertext r) <= MAX_CIPHERTEXT_LEN /\
    length (sx_nonce r) = NONCE_LEN /\ sx_aad r = compute_aad name extra /\ get_key p (sx_key_id r) = Ok key /\
    gcm_encrypt key (sx_nonce r) (compute_aad name extra) plain = Some (sx_ciphertext r).
Proof.
  unfold get_secret, decrypt. split.
  - destruct (validate_name name) as [[]|]; [|done]. destruct db as [[]|]; [|done]. destruct (t !! name) as [r|]; [|done].
    destruct (Nat.ltb_spec MAX_CIPHERTEXT_LEN (length (sx_ciphertext r))); [done|].
    destruct (Nat.eqb_spec (length (sx_nonce r)) NONCE_LEN); [|done]. cbn [negb].
    destruct (bytes_eqb (sx_aad r) (compute_aad name extra)) eqn:Ea; [|done]. apply bytes_eqb_eq in Ea. cbn [negb].
    destruct (get_key p (sx_key_id r)) as [key|] eqn:Ek; [|done]. destruct (gcm_decrypt _ _ _ _) eqn:Ed; [|done]. intros [= ->].
    apply gcm_decrypt_iff in Ed. by exists r, key.
  - intros (r & key & -> & -> & -> & Hl & Hn & Ha & -> & Ed). apply gcm_decrypt_iff in Ed.
    destruct (Nat.ltb_spec MAX_CIPHERTEXT_LEN (length (sx_ciphertext r))); [lia|]. rewrite Hn, Nat.eqb_refl. cbn [negb].
    rewrite Ha, bytes_eqb_refl. cbn [negb]. by rewrite Ed.
Qed.

Lemma upsert_lookup t name ct nonce aad id now n :
  upsert t name ct nonce aad id now !! n =
    if bool_decide (n = name) then Some (mkSecretRow ct nonce aad id (match t !! name with Some r => sx_created_at r | None => now end) now) else t !! n.
Proof. unfold upsert. case_bool_decide as E; [subst; by rewrite lookup_insert_eq|by rewrite lookup_insert_ne]. Qed.

(** A name that was put reads back, and no other is touched. *)
Lemma put_get db now nonce (p : P) name plain extra t t' :
  length nonce = NONCE_LEN -> put db now nonce p name plain extra t = (Ok tt, t') ->
  get_secret (Ok tt) p name extra t' = Ok plain /\ forall n, n <> name -> t' !! n = t !! n.
Proof.
  intros Hn (key & ct & Hv & Hk & Hl & Hc & ->)%put_Ok. split.
  - apply get_secret_Ok. eexists _, key. rewrite upsert_lookup, bool_decide_true by done. split_and!; try done. cbn.
    apply gcm_length in Hc. unfold MAX_CIPHERTEXT_LEN. lia.
  - intros n Hne. by rewrite upsert_lookup, bool_decide_false.
Qed.

(** A stored secret reads back: after a put that succeeded, a read of the name
    with the same extra context answers the very plaintext, and every other row is
    as it was. *)
Theorem stored_secret_reads_back db now nonce (p : P) name plain extra t t' :
  length nonce = NONCE_LEN -> put db now nonce p name plain extra t = (Ok tt, t') ->
  get_secret (Ok tt) p name extra t' = Ok plain /\ forall n, n <> name -> t' !! n = t !! n.
Proof. apply put_get. Qed.

(** A read answers only what was encrypted under the name it asks for: the row
    of a secret renamed, or copied to another name, is refused, whatever extra
    context either has; and an answer is a plaintext whose encryption under this
    name's own context is, byte for byte, the stored ciphertext. *)
Theorem renamed_row_is_refused db now nonce (p : P) name plain extra t t' row other extra' db' :
  put db now nonce p name plain extra t = (Ok tt, t') -> t' !! name = Some row -> other <> name ->
  forall q, (forall v, get_secret db' p other extra' (<[other := row]> t') <> Ok v) /\
    (get_secret db' p name extra' t' = Ok q -> q = plain /\ default [] extra' = default [] extra).
Proof.
  intros (key & ct & Hv & Hk & Hl & Hc & ->)%put_Ok Hr Hne q. rewrite upsert_lookup, bool_decide_true in Hr by done. injection Hr as <-. split.
  - intros v (r & key' & _ & Hv' & Hr & _ & _ & Ha & _)%get_secret_Ok. rewrite lookup_insert_eq in Hr. injection Hr as <-. cbn [sx_aad] in Ha.
    apply compute_aad_inj in Ha as [Ha _]; [congruence|by apply validate_name_no_nul..].
  - intros (r & key' & _ & _ & Hr & _ & _ & Ha & Hk' & Hg)%get_secret_Ok. rewrite upsert_lookup, bool_decide_true in Hr by done.
    injection Hr as <-. cbn [sx_aad sx_key_id sx_nonce sx_ciphertext] in Ha, Hk', Hg. rewrite Hk in Hk'. injection Hk' as <-. rewrite <- Ha in Hg.
    apply compute_aad_inj in Ha as [_ Ha]; [|by apply validate_name_no_nul..]. split; [|by rewrite Ha].
    apply gcm_decrypt_iff in Hg, Hc. congruence.
Qed.

(** ** The operator's commands *)

Inductive StoreOp :=
| OpStore (db_list db_put audit : result () bytes) (now : Z) (nonce name value : bytes)
| OpRemove (db audit : result () bytes) (name : bytes).

Definition run_store_op (p : P) (t : SecretTable) (op : StoreOp) : SecretTable :=
  match op with
  | OpStore db_list db_put audit now nonce name value => (store_secret db_list db_put audit now nonce p name value t).1.2
  | OpRemove db audit name => (remove_secret db audit name t).1.2
  end.

(** The same on names and values alone: a command acts when its name is valid, its
    statements run and, for a store, the value fits and the key is at hand. *)
Definition is_ok {A E} (r : result A E) : bool := match r with Ok _ => true | Err _ => false end.

Definition spec_store_op (p : P) (m : gmap bytes bytes) (op : StoreOp) : gmap bytes bytes :=
  match op with
  | OpStore db_list db_put _ _ _ name value =>
      if is_ok db_list && is_ok (validate_name name) && is_ok (get_key p (current_id p)) &&
         (length value <=? MAX_PLAINTEXT_LEN) && is_ok db_put
      then <[name := value]> m else m
  | OpRemove db _ name => if is_ok (validate_name name) && is_ok db then delete name m else m
  end.

Definition fresh_nonce (op : StoreOp) : Prop := match op with OpStore _ _ _ _ nonce _ _ => length nonce = NONCE_LEN | _ => True end.

Definition table_is (p : P) (m : gmap bytes bytes) (t : SecretTable) : Prop :=
  forall n, match m !! n with Some v => get_secret (Ok tt) p n None t = Ok v | None => t !! n = None end.

Lemma get_secret_ext db (p : P) n e t t' : t' !! n = t !! n -> get_secret db p n e t' = get_secret db p n e t.
Proof. intros E. unfold get_secret. by rewrite E. Qed.

Lemma table_is_insert p m t t' name value :
  table_is p m t -> get_secret (Ok tt) p name None t' = Ok value -> (forall n, n <> name -> t' !! n = t !! n) -> table_is p (<[name := value]> m) t'.
Proof.
  intros Hm Hg Hf n. destruct (decide (n = name)) as [->|Hne]; [by rewrite lookup_insert_eq|]. rewrite lookup_insert_ne by done.
  specialize (Hm n). rewrite (get_secret_ext _ _ _ _ t), (Hf n Hne) by auto. done.
Qed.

Lemma put_succeeds db now nonce (p : P) name value t :
  is_ok (validate_name name) && is_ok (get_key p (current_id p)) && (length value <=? MAX_PLAINTEXT_LEN) && is_ok db = true ->
  (put db now nonce p name value None t).1 = Ok tt.
Proof.
  intros ([[Hv Hk]%andb_true_iff Hl%Nat.leb_le]%andb_true_iff & Hd)%andb_true_iff. unfold put, encrypt.
  destruct (validate_name name) as [[]|]; [|done]. destruct (get_key _ _) as [key|]; [|done].
  destruct (Nat.ltb_spec MAX_PLAINTEXT_LEN (length value)); [lia|].
  destruct (gcm_total key nonce (compute_aad name None) value Hl) as [c ->]. by destruct db.
Qed.

Lemma put_fails db now nonce (p : P) name value t :
  is_ok (validate_name name) && is_ok (get_key p (current_id p)) && (length value <=? MAX_PLAINTEXT_LEN) && is_ok db = false ->
  exists e, put db now nonce p name value None t = (Err e, t).
Proof.
  unfold put, encrypt. destruct (validate_name name) as [[]|]; [|by eexists]. destruct (get_key _ _) as [key|]; [|by eexists].
  destruct (Nat.ltb_spec MAX_PLAINTEXT_LEN (length value)) as [|Hl]; [by eexists|].
  destruct (gcm_total key nonce (compute_aad name None) value Hl) as [c ->]. apply Nat.leb_le in Hl. rewrite Hl. destruct db; [done|by eexists].
Qed.

Lemma store_op_spec p m t op : fresh_nonce op -> table_is p m t -> table_is p (spec_store_op p m op) (run_store_op p t op).
Proof.
  intros Hn Hm. destruct op as [dl dp au now nonce name value|db au name]; cbn [run_store_op spec_store_op].
  - unfold store_secret, list_secrets. destruct dl as [[]|]; [|done]. cbn [is_ok andb].
    destruct (is_ok (validate_name name) && is_ok (get_key p (current_id p)) && (length value <=? MAX_PLAINTEXT_LEN) && is_ok dp) eqn:E.
    + pose proof (put_succeeds dp now nonce p name value t E) as Hp.
      destruct (put dp now nonce p name value None t) as [r t'] eqn:Ep. cbn in Hp. subst r.
      destruct (put_get dp now nonce p name value None t t' Hn Ep) as [Hg Hf].
      destruct au; cbn; by apply (table_is_insert p m t).
    + destruct (put_fails dp now nonce p name value t E) as [e ->]. done.
  - unfold remove_secret, delete_secret. destruct (validate_name name) as [[]|]; [|done]. destruct db as [[]|]; [|done]. cbn [is_ok andb].
    assert (Hd : table_is p (delete name m) (delete name t)).
    { intros n. destruct (decide (n = name)) as [->|Hne]; [by rewrite !lookup_delete_eq|]. rewrite !lookup_delete_ne by done.
      specialize (Hm n). destruct (m !! n); [|done]. rewrite (get_secret_ext _ _ _ _ t); [done|by rewrite lookup_delete_ne]. }
    destruct (bool_decide _); [destruct au|]; done.
Qed.

End Facts.

(** * Processes that initialise the keyring at once *)

(** The keyring's entry, and for each process the key it would generate and where
    it stands. *)
Record KeyringSystem := mkKeyring { ks_entry : option bytes; ks_procs : list (bytes * InitStep) }.

Definition entry_answer (e : option bytes) : result bytes KeyringOpsError := match e with Some b => Ok b | None => Err NoEntry end.

(** One call of one process, or a call that the keyring refuses. *)
Inductive keyring_step : KeyringSystem -> KeyringSystem -> Prop :=
| ks_get e ps i fresh : ps !! i = Some (fresh, AskGet) ->
    keyring_step (mkKeyring e ps) (mkKeyring e (<[i := (fresh, after_get fresh (entry_answer e))]> ps))
| ks_set e ps i fresh k : ps !! i = Some (fresh, AskSet k) ->
    keyring_step (mkKeyring e ps) (mkKeyring (Some k) (<[i := (fresh, after_set k (Ok tt))]> ps))
| ks_read_back e ps i fresh k : ps !! i = Some (fresh, AskReadBack k) ->
    keyring_step (mkKeyring e ps) (mkKeyring e (<[i := (fresh, Resolved (read_back k (entry_answer e)))]> ps))
| ks_refused e ps i fresh s why : ps !! i = Some (fresh, s) -> (forall r, s <> Resolved r) ->
    keyring_step (mkKeyring e ps) (mkKeyring e (<[i := (fresh, Resolved (Err (Keyring why)))]> ps)).

Definition about_to_set (s : InitStep) : bool := match s with AskSet _ => true | _ => false end.

(** The entry is a key and no process is about to write. *)
Definition settled (k : bytes) (y : KeyringSystem) : Prop :=
  ks_entry y = Some k /\ length k = KEY_LEN /\ Forall (fun p => about_to_set p.2 = false) (ks_procs y).

Definition resolved_with (y : KeyringSystem) (i : nat) (k : bytes) : Prop :=
  exists fresh how, ks_procs y !! i = Some (fresh, Resolved (Ok (k, how))).

Lemma to_key_ok k : length k = KEY_LEN -> to_key k = Ok k.
Proof. unfold to_key. intros ->. by rewrite Nat.eqb_refl. Qed.

Lemma settled_step k y y' : settled k y -> keyring_step y y' ->
  settled k y' /\ forall i k', resolved_with y' i k' -> resolved_with y i k' \/ k' = k.
Proof.
  intros (He & Hl & Hp) Hs.
  assert (Hins : forall i fresh s, about_to_set s = false -> Forall (fun p => about_to_set p.2 = false) (<[i := (fresh, s)]> (ks_procs y)))
    by (intros; by apply Forall_insert).
  assert (Hrd : forall i fresh s i' k', resolved_with (mkKeyring (Some k) (<[i := (fresh, s)]> (ks_procs y))) i' k' ->
    resolved_with y i' k' \/ exists how, s = Resolved (Ok (k', how))).
  { intros i fresh s i' k' (f & how & E). cbn in E. destruct (decide (i' = i)) as [->|Hne].
    - right. apply list_lookup_insert_Some in E as [(_ & E & _)|(? & _)]; [|done]. injection E as _ ->. by exists how.
    - left. rewrite list_lookup_insert_ne in E by done. by exists f, how. }
  destruct Hs as [e ps i fresh Hi|e ps i fresh q Hi|e ps i fresh q Hi|e ps i fresh s why Hi Hn]; cbn in *; subst e.
  - unfold after_get. cbn [entry_answer]. rewrite (to_key_ok k Hl). split; [split_and!; [done|done|by apply Hins]|].
    intros i' k' [?|(how & E)]%Hrd; [by left|]. right. by injection E.
  - rewrite Forall_lookup in Hp. by specialize (Hp i _ Hi).
  - split; [split_and!; [done|done|by apply Hins]|]. intros i' k' [?|(how & E)]%Hrd; [by left|]. right.
    unfold read_back in E. cbn [entry_answer] in E. rewrite (to_key_ok k Hl) in E. injection E as E.
    destruct (bytes_eqb k q) eqn:Eb; injection E as <- _; [|done]. by apply bytes_eqb_eq in Eb.
  - split; [split_and!; [done|done|by apply Hins]|]. intros i' k' [?|(how & E)]%Hrd; [by left|discriminate].
Qed.

(** First initialisation converges once the writers are through: from any state
    in which the entry holds a key and no process is between finding no entry and
    writing one, however the processes interleave and whichever calls the keyring
    refuses, the entry never changes again and every process that resolves from
    then on resolves to it. *)
Theorem keyring_settles k y y' i k' : settled k y -> rtc keyring_step y y' ->
  ks_entry y' = Some k /\ (resolved_with y' i k' -> resolved_with y i k' \/ k' = k).
Proof.
  intros Hs Hr. assert (H : settled k y' /\ (resolved_with y' i k' -> resolved_with y i k' \/ k' = k)); [|by destruct H as [[? _] ?]].
  induction Hr as [y|y y1 y' H1 _ IH]; [split; [done|by left]|]. destruct (settled_step k y y1 Hs H1) as [Hs1 Hd].
  destruct (IH Hs1) as [Hs' Hk]. split; [done|]. intros [H| ->]%Hk; [by apply Hd|by right].
Qed.

(** First initialisation is not a lock: two processes that both find no entry
    can each end with its own key, when the second writes after the first has read
    its key back; the entry then holds the second's, and what the first encrypts
    cannot be read after a restart. *)
Theorem racing_first_init_can_split k1 k2 : length k1 = KEY_LEN -> length k2 = KEY_LEN -> k1 <> k2 ->
  exists y, rtc keyring_step (mkKeyring None [(k1, AskGet); (k2, AskGet)]) y /\
    resolved_with y 0 k1 /\ resolved_with y 1 k2 /\ ks_entry y = Some k2.
Proof.
  intros H1 H2 Hne.
  exists (mkKeyring (Some k2) [(k1, Resolved (Ok (k1, FreshKey))); (k2, Resolved (Ok (k2, FreshKey)))]).
  split; [|by split_and!; [do 2 eexists..|]].
  assert (Hrb : forall k, length k = KEY_LEN -> read_back k (entry_answer (Some k)) = Ok (k, FreshKey)).
  { intros k Hk. unfold read_back. cbn [entry_answer]. by rewrite (to_key_ok k Hk), bytes_eqb_refl. }
  eapply rtc_l; [by apply (ks_get None [(k1, AskGet); (k2, AskGet)] 0 k1)|].
  eapply rtc_l; [by apply (ks_get None [(k1, AskSet k1); (k2, AskGet)] 1 k2)|].
  eapply rtc_l; [by apply (ks_set None [(k1, AskSet k1); (k2, AskSet k2)] 0 k1 k1)|].
  eapply rtc_l; [by apply (ks_read_back (Some k1) [(k1, AskReadBack k1); (k2, AskSet k2)] 0 k1 k1)|]. rewrite (Hrb k1 H1).
  eapply rtc_l; [by apply (ks_set (Some k1) [(k1, Resolved (Ok (k1, FreshKey))); (k2, AskSet k2)] 1 k2 k2)|].
  eapply rtc_l; [by apply (ks_read_back (Some k2) [(k1, Resolved (Ok (k1, FreshKey))); (k2, AskReadBack k2)] 1 k2 k2)|].
  rewrite (Hrb k2 H2). apply rtc_refl.
Qed.

(** * From the command line to a worker's request *)

Section Materialize.
Context `{Aead} {P : Type} `{KeyProvider P} `{Sha256}.

(** [Vault::materialize] with the table behind it. *)
Definition materialize_stored (db : result () bytes) (p : P) (table : SecretTable) (tail : bytes) (audit : result () bytes) (clock : nat -> Z)
    (name actor : bytes) (s : VaultState) : result SecretRef VaultError * VaultState * list AuditRow :=
  materialize clock match get_secret db p name None table with Ok v => Ok v | Err e => Err (secrets_error_str e) end tail audit name actor s.

(** What the operator stored is what a reference stands for: a secret stored
    with the command line and materialised by the daemon under the same key is
    redeemed as the stored value, byte for byte, until its reference expires; an
    empty value is refused. *)
Theorem stored_secret_is_redeemed dl dp au now nonce (p : P) name value t o t' rows tail actor clock s r s' rows' :
  length nonce = NONCE_LEN ->
  store_secret dl dp au now nonce p name value t = (Ok o, t', rows) ->
  materialize_stored (Ok tt) p t' tail (Ok tt) clock name actor s = (Ok r, s', rows') ->
  (clock (S (vs_tick s)) < clock (vs_tick s) + vs_ttl s)%Z ->
  value <> [] /\ r = mint_ref tail /\ (redeem clock r s').1 = Hit value.
Proof.
  intros Hn Hs Hm Ht. unfold store_secret in Hs. destruct (list_secrets dl t); [|done].
  destruct (put dp now nonce p name value None t) as [[[]|] t1] eqn:Ep; [|done]. destruct au; [|done]. injection Hs as _ -> _.
  destruct (put_get dp now nonce p name value None t t' Hn Ep) as [Hg _].
  unfold materialize_stored, materialize in Hm. rewrite Hg in Hm. destruct value as [|b value]; [done|].
  unfold insert_fresh in Hm. cbn [tick vs_map vs_ttl vs_tick] in Hm. destruct (vs_map s !! mint_ref tail); [done|]. injection Hm as <- <- _.
  split_and!; [done..|]. unfold redeem. cbn [vs_map]. rewrite lookup_insert_eq. cbn [en_expires_at en_plaintext].
  unfold Secrets.now. cbn [vs_tick]. destruct (Z.ltb_spec (clock (S (vs_tick s))) (clock (vs_tick s) + vs_ttl s)); [done|lia].
Qed.
End Materialize.

(** * Witnesses *)

(** A cipher that appends a tag of the key and the bound context. *)
Definition toy_tag (key aad : bytes) : bytes := take GCM_TAG_LEN (reverse aad ++ key ++ replicate GCM_TAG_LEN 0%Z).
Definition toy_open (key aad c : bytes) : option bytes :=
  let n := length c - GCM_TAG_LEN in
  if bytes_eqb c (take n c ++ toy_tag key aad) then Some (take n c) else None.

Lemma toy_tag_length key aad : length (toy_tag key aad) = GCM_TAG_LEN.
Proof. unfold toy_tag. rewrite length_take, !length_app, length_replicate. unfold GCM_TAG_LEN. lia. Qed.

#[local] Instance toy_aead : Aead.
Proof.
  refine {| gcm_encrypt key _ aad msg := Some (msg ++ toy_tag key aad); gcm_decrypt key _ aad c := toy_open key aad c |}.
  - intros. by eexists.
  - intros key _ aad msg c [= <-]. by rewrite length_app, toy_tag_length.
  - intros key _ aad msg c. unfold toy_open. split.
    + destruct (bytes_eqb c _) eqn:E; [|done]. apply bytes_eqb_eq in E. intros [= <-]. by f_equal.
    + intros [= <-]. rewrite length_app, toy_tag_length. replace (length msg + GCM_TAG_LEN - GCM_TAG_LEN) with (length msg) by lia.
      rewrite take_app_length. by rewrite bytes_eqb_refl.
Defined.

Definition toy_key : bytes := replicate 32 7%Z.
Definition toy_nonce : bytes := replicate 12 1%Z.
Definition toy_provider : MapKeyProvider := map_provider_new (bs "k1") toy_key.
Definition toy_put := put (Ok tt) 5 toy_nonce toy_provider (bs "imap") (bs "hunter2") None ∅.
Definition toy_row : SecretRow := mkSecretRow (bs "hunter2" ++ toy_tag toy_key (compute_aad (bs "imap") None)) toy_nonce (compute_aad (bs "imap") None) (bs "k1") 5 5.

Lemma toy_put_ok : toy_put = (Ok tt, <[bs "imap" := toy_row]> ∅).
Proof. vm_compute. reflexivity. Qed.

Lemma stored_secret_reads_back_witness : get_secret (Ok tt) toy_provider (bs "imap") None (<[bs "imap" := toy_row]> ∅) = Ok (bs "hunter2").
Proof.
  exact (proj1 (stored_secret_reads_back (Ok tt) 5 toy_nonce toy_provider (bs "imap") (bs "hunter2") None ∅ (<[bs "imap" := toy_row]> ∅) eq_refl toy_put_ok)).
Defined.

Lemma renamed_row_is_refused_witness :
  get_secret (Ok tt) toy_provider (bs "smtp") None (<[bs "smtp" := toy_row]> (<[bs "imap" := toy_row]> ∅)) <> Ok (bs "hunter2").
Proof.
  refine (proj1 (renamed_row_is_refused (Ok tt) 5 toy_nonce toy_provider (bs "imap") (bs "hunter2") None ∅ (<[bs "imap" := toy_row]> ∅) toy_row
    (bs "smtp") None (Ok tt) toy_put_ok _ _ []) (bs "hunter2")); [apply lookup_insert_eq|discriminate].
Defined.

(** Stored twice, the second time with a failed audit row; another name removed. *)
Definition toy_ops : list StoreOp :=
  [OpStore (Ok tt) (Ok tt) (Ok tt) 5 toy_nonce (bs "imap") (bs "hunter2"); OpStore (Ok tt) (Ok tt) (Ok tt) 6 toy_nonce (bs "api") (bs "x");
   OpStore (Ok tt) (Ok tt) (Err (bs "down")) 7 toy_nonce (bs "imap") (bs "hunter3"); OpRemove (Ok tt) (Ok tt) (bs "api")].


Definition other_key : bytes := replicate 32 9%Z.

Lemma keyring_settles_witness :
  ks_entry (mkKeyring (Some toy_key) [(other_key, Resolved (Ok (toy_key, ExistingKey)))]) = Some toy_key.
Proof.
  refine (proj1 (keyring_settles toy_key (mkKeyring (Some toy_key) [(other_key, AskGet)])
    (mkKeyring (Some toy_key) [(other_key, Resolved (Ok (toy_key, ExistingKey)))]) 0 toy_key _ _)).
  - split_and!; [done|done|repeat constructor].
  - eapply rtc_l; [apply (ks_get (Some toy_key) [(other_key, AskGet)] 0 other_key); reflexivity|apply rtc_refl].
Defined.

Lemma racing_first_init_can_split_witness :
  exists y, rtc keyring_step (mkKeyring None [(toy_key, AskGet); (other_key, AskGet)]) y /\
    resolved_with y 0 toy_key /\ resolved_with y 1 other_key /\ ks_entry y = Some other_key.
Proof. apply (racing_first_init_can_split toy_key other_key); [reflexivity|reflexivity|discriminate]. Defined.

Definition toy_vault : VaultState := with_ttl 100.
Definition toy_materialized := materialize_stored (Ok tt) toy_provider (<[bs "imap" := toy_row]> ∅) [1; 2; 3; 4]%Z (Ok tt) (fun _ => 0%Z) (bs "imap") (bs "boot") toy_vault.

Lemma stored_secret_is_redeemed_witness :
  exists s', (redeem (fun _ => 0%Z) (mint_ref [1; 2; 3; 4]%Z) s').1 = Hit (bs "hunter2").
Proof.
  assert (E : toy_materialized = (Ok (mint_ref [1; 2; 3; 4]%Z), toy_materialized.1.2, toy_materialized.2)) by (vm_compute; reflexivity).
  exists toy_materialized.1.2.
  refine (proj2 (proj2 (stored_secret_is_redeemed (Ok tt) (Ok tt) (Ok tt) 5 toy_nonce toy_provider (bs "imap") (bs "hunter2") ∅ Created
    (<[bs "imap" := toy_row]> ∅) [put_row (bs "imap") (bs "k1")] [1; 2; 3; 4]%Z (bs "boot") (fun _ => 0%Z) toy_vault
    (mint_ref [1; 2; 3; 4]%Z) toy_materialized.1.2 toy_materialized.2 eq_refl _ E _))); vm_compute; reflexivity.
Defined.
