(* ===== verification/Cassandra.v ===== *)
(** Plan review (src/core/src/cassandra): the plan data types (types.rs), the
    resolution of an absent data ceiling (data_ceiling.rs), the Stage -1
    instruction screen (constitutional.rs), the Stage 0 classification policy
    (deterministic.rs), the chain of stages (review.rs) and the digest an
    operator approval binds to (plan_digest.rs). *)

From stdpp Require Import base list numbers strings pretty.
From Stdlib Require Import ZArith Lia.
From S2P Require Import Prelude RustStr Fingerprint HashesWire Json.
Local Open Scope nat_scope.

(** * Data types *)

Definition DECISION_TERMINAL : bytes := bs "task_complete".
Definition DECISION_REFUSED : bytes := bs "refused".

Inductive DataClass := Public | Personal | ClinicalConfidential | Secret.

#[global] Instance DataClass_eq_dec : EqDecision DataClass.
Proof. solve_decision. Defined.

Definition rank (c : DataClass) : Z :=
  match c with Public => 0 | Personal => 1 | ClinicalConfidential => 2 | Secret => 3 end.

Definition as_pascal_str (c : DataClass) : bytes :=
  match c with
  | Public => bs "Public"
  | Personal => bs "Personal"
  | ClinicalConfidential => bs "ClinicalConfidential"
  | Secret => bs "Secret"
  end.

Inductive Severity := Low | Medium | High.

Record PlannedStep := mkStep {
  st_tool : bytes; st_method : bytes; st_parameters : Value;
  st_returns : bytes; st_done_when : bytes; st_classification : DataClass }.

Record RefusedReason := mkRefused { rf_principle : Z; rf_reason : bytes }.

Record L3Param := mkL3Param { l3p_name : bytes; l3p_description : bytes }.

Record L3TemplateStep := mkL3Step { l3s_tool : bytes; l3s_method : bytes; l3s_parameters : Value }.

Record L3SkillCandidate := mkL3Skill {
  l3_name : bytes; l3_description : bytes;
  l3_parameters : list L3Param; l3_steps : list L3TemplateStep }.

Record PythonSkillCandidate := mkPySkill { py_name : bytes; py_description : bytes; py_code : bytes }.

(** [iv_args] is the entry sequence of the source's [BTreeMap]. *)
Record InvokeDirective := mkInvoke {
  iv_name : bytes; iv_args : list (bytes * bytes); iv_params : Value }.

Inductive MalformedInvoke := HasSteps | Terminal | HasL3Skill.

Definition malformed_str (m : MalformedInvoke) : bytes :=
  match m with
  | HasSteps => bs "invoke_skill may not be combined with hand-written steps"
  | Terminal => bs "invoke_skill may not appear on a terminal (task_complete) plan"
  | HasL3Skill => bs "invoke_skill may not be combined with an l3_skill crystallisation"
  end.

Record Plan := mkPlan {
  pl_context : bytes;
  pl_decision : bytes;
  pl_rationale : bytes;
  pl_steps : list PlannedStep;
  pl_result : option Value;
  pl_data_ceiling : option DataClass;
  pl_refused : option RefusedReason;
  pl_floor_request : option DataClass;
  pl_l1_insight : option bytes;
  pl_l3_skill : option L3SkillCandidate;
  pl_invoke_skill : option InvokeDirective;
  pl_python_skill : option PythonSkillCandidate }.

Definition is_terminal (p : Plan) : bool :=
  bytes_eqb (pl_decision p) DECISION_TERMINAL
  && match pl_steps p with [] => true | _ => false end
  && match pl_result p with Some _ => true | None => false end.

Definition is_refused (p : Plan) : bool :=
  match pl_refused p with Some _ => true | None => false end.

Definition completion_insight (p : Plan) : option bytes :=
  if is_terminal p then pl_l1_insight p else None.

Definition completion_skill (p : Plan) : option L3SkillCandidate :=
  if is_terminal p then pl_l3_skill p else None.

Definition completion_python_skill (p : Plan) : option PythonSkillCandidate :=
  if is_terminal p then pl_python_skill p else None.

(** The preconditions of [validate_invoke] on a plan that carries [dir]. *)
Definition validate_directive (p : Plan) (dir : InvokeDirective) : result InvokeDirective MalformedInvoke :=
  match pl_steps p with
  | _ :: _ => Err HasSteps
  | [] =>
      if bytes_eqb (pl_decision p) DECISION_TERMINAL then Err Terminal
      else match pl_l3_skill p with Some _ => Err HasL3Skill | None => Ok dir end
  end.

(** The [expect] on a plan without a directive panics. *)
Definition validate_invoke (p : Plan) : outcome (result InvokeDirective MalformedInvoke) :=
  match pl_invoke_skill p with
  | None => Panic
  | Some dir => Ret (validate_directive p dir)
  end.

Inductive Verdict :=
| Approve
| Advisory (note : bytes)
| Escalate (reason : bytes) (sev : Severity)
| Block (reason : bytes)
| ConstitutionalBlock (principle : Z) (reason : bytes).

(** * Resolving an absent ceiling (data_ceiling.rs) *)

Inductive DataCeilingSource := Declared | FloorResolved.

Definition as_snake_str (s : DataCeilingSource) : bytes :=
  match s with Declared => bs "declared" | FloorResolved => bs "floor_resolved" end.

Record ResolvedCeiling := mkResolved { rc_ceiling : DataClass; rc_source : DataCeilingSource }.

Definition resolve_data_ceiling (declared : option DataClass) (floor : DataClass) : ResolvedCeiling :=
  match declared with
  | Some ceiling => mkResolved ceiling Declared
  | None => mkResolved floor FloorResolved
  end.

(** * The Stage 0 policy (deterministic.rs) *)

Inductive ClassificationViolation :=
| CeilingUnresolved
| CeilingBelowFloor (ceiling floor : DataClass)
| StepClassificationBelowFloor (step_index : nat) (step_class floor : DataClass)
| StepClassificationAboveCeiling (step_index : nat) (step_class ceiling : DataClass).

Definition reason_tag (v : ClassificationViolation) : bytes :=
  match v with
  | CeilingBelowFloor _ _ => bs "ceiling_below_floor"
  | StepClassificationBelowFloor _ _ _ => bs "step_classification_below_floor"
  | StepClassificationAboveCeiling _ _ _ => bs "step_classification_above_ceiling"
  | CeilingUnresolved => bs "ceiling_unresolved"
  end.

Definition format_reason (v : ClassificationViolation) : bytes :=
  bs "data-classification: " ++ reason_tag v ++
  match v with
  | CeilingBelowFloor ceiling floor =>
      bs " — plan.data_ceiling=" ++ as_pascal_str ceiling ++
      bs " is below task.classification_floor=" ++ as_pascal_str floor
  | StepClassificationBelowFloor i c floor =>
      bs " — step " ++ show_nat i ++ bs " classified as " ++ as_pascal_str c ++
      bs " but task.classification_floor=" ++ as_pascal_str floor
  | StepClassificationAboveCeiling i c ceiling =>
      bs " — step " ++ show_nat i ++ bs " classified as " ++ as_pascal_str c ++
      bs " but plan.data_ceiling=" ++ as_pascal_str ceiling
  | CeilingUnresolved =>
      bs " — plan.data_ceiling was never resolved against task.classification_floor; this is a daemon wiring defect, not a bad plan"
  end.

(** The [for (i, s) in steps.iter().enumerate()] search, from index [i]. *)
Fixpoint first_step (bad : DataClass -> bool) (i : nat) (steps : list PlannedStep) : option (nat * DataClass) :=
  match steps with
  | [] => None
  | s :: rest =>
      if bad (st_classification s) then Some (i, st_classification s) else first_step bad (S i) rest
  end.

Definition screen_plan_for_classification_violations (p : Plan) (floor : DataClass)
    : option ClassificationViolation :=
  match pl_data_ceiling p with
  | None => Some CeilingUnresolved
  | Some ceiling =>
      if (rank ceiling <? rank floor)%Z then Some (CeilingBelowFloor ceiling floor)
      else match first_step (fun c => (rank c <? rank floor)%Z) 0 (pl_steps p) with
           | Some (i, c) => Some (StepClassificationBelowFloor i c floor)
           | None =>
               match first_step (fun c => (rank ceiling <? rank c)%Z) 0 (pl_steps p) with
               | Some (i, c) => Some (StepClassificationAboveCeiling i c ceiling)
               | None => None
               end
           end
  end.

(** * The Stage -1 screen (constitutional.rs) *)

(** [str::match_indices]: the positions of the non-overlapping occurrences,
    scanning from [pos]; [fuel] bounds the scan by the text's length. *)
Fixpoint match_indices (fuel : nat) (needle haystack : bytes) (pos : nat) : list nat :=
  match fuel with
  | 0 => []
  | S fuel' =>
      if starts_with needle (drop pos haystack)
      then pos :: match_indices fuel' needle haystack (pos + length needle)
      else match_indices fuel' needle haystack (S pos)
  end.

Definition contains_word (haystack needle : bytes) : bool :=
  existsb (fun pos =>
      let before_ok := (pos =? 0) || negb (is_ascii_alphanumeric (nth (pos - 1) haystack 0%Z)) in
      let e := pos + length needle in
      let after_ok := (e =? length haystack) || negb (is_ascii_alphanumeric (nth e haystack 0%Z)) in
      before_ok && after_ok)
    (match_indices (S (length haystack)) needle haystack 0).

Definition contains_any (terms : list bytes) (s : bytes) : bool :=
  existsb (fun t => contains t s) terms.

Definition weapon_terms : list bytes :=
  [bs "pipe bomb"; bs "build a bomb"; bs "make a bomb"; bs "homemade bomb"; bs "build a weapon";
   bs "build weapons"; bs "build an explosive"; bs "make an explosive"].
Definition impersonation_terms : list bytes :=
  [bs "sign it as me"; bs "sign as me"; bs "impersonate"; bs "pretend to be me";
   bs "claiming that i have personally"].
Definition skip_verification_terms : list bytes :=
  [bs "don't ask me to verify"; bs "do not ask me to verify"; bs "don't ask me first";
   bs "without asking me"; bs "just send it"].
Definition irreversible_terms : list bytes :=
  [bs "permanently delete"; bs "delete every file"; bs "delete all files"; bs "rm -rf";
   bs "wipe out everything"].
Definition skip_confirmation_terms : list bytes :=
  [bs "without asking"; bs "don't ask"; bs "do not ask"; bs "be quick about it";
   bs "without confirmation"].
Definition replication_terms : list bytes :=
  [bs "copy of you"; bs "copy of your own"; bs "second copy of you"; bs "clone yourself";
   bs "clone you in parallel"; bs "spawn a copy of you"; bs "duplicate yourself"].
Definition persistence_terms : list bytes :=
  [bs "systemd"; bs "launchd"; bs "service file"; bs "launchagent"; bs "in parallel later";
   bs "run a second copy"].
Definition oversight_terms : list bytes :=
  [bs "audit log"; bs "audit trail"; bs "the logging"; bs "monitoring"; bs "oversight"].

Definition has_disable_verb (s : bytes) : bool :=
  contains_word s (bs "disable")
  || contains (bs "turn off") s || contains (bs "stop logging") s || contains (bs "pause logging") s
  || contains_word s (bs "silence") || contains_word s (bs "suspend").

(** The screen of the lowercased instruction. *)
Definition first_principle (p1 p2 p3 p4 p5 : bool) : option (Z * bytes) :=
  if p1 then Some (1%Z, bs "physical_harm_instructions")
  else if p2 then Some (2%Z, bs "impersonation")
  else if p3 then Some (3%Z, bs "irreversible_action_without_hitl")
  else if p4 then Some (4%Z, bs "self_modify_or_persist")
  else if p5 then Some (5%Z, bs "suppress_oversight")
  else None.

Definition screen_lowered (s : bytes) : option (Z * bytes) :=
  first_principle
    (contains_any weapon_terms s)
    (contains_any impersonation_terms s && contains_any skip_verification_terms s)
    (contains_any irreversible_terms s && contains_any skip_confirmation_terms s)
    (contains_any replication_terms s && contains_any persistence_terms s)
    (has_disable_verb s && contains_any oversight_terms s).

Definition screen_instruction_for_principle_violations `{UnicodeStr} (instruction : bytes)
    : option (Z * bytes) :=
  screen_lowered (to_lowercase instruction).

(** * The review chain (review.rs) *)

Record ReviewStageContext := mkReviewCtx {
  rx_task_id : Z; rx_instruction : bytes; rx_classification_floor : DataClass; rx_plan_count : Z }.

(** The trait [ReviewStage]. *)
Record ReviewStage := mkStage { stage_name : bytes; stage_review : Plan -> ReviewStageContext -> Verdict }.

Definition ConstitutionalGuard `{UnicodeStr} : ReviewStage :=
  mkStage (bs "stage--1") (fun _ ctx =>
    match screen_instruction_for_principle_violations (rx_instruction ctx) with
    | Some (principle, reason) => ConstitutionalBlock principle reason
    | None => Approve
    end).

Definition DeterministicPolicy : ReviewStage :=
  mkStage (bs "stage-0") (fun plan ctx =>
    match screen_plan_for_classification_violations plan (rx_classification_floor ctx) with
    | Some violation => Block (format_reason violation)
    | None => Approve
    end).

Definition NoopReviewStage : ReviewStage := mkStage (bs "noop") (fun _ _ => Approve).

(** The first verdict that is not [Approve] wins; later stages do not run. *)
Fixpoint chain_review (stages : list ReviewStage) (plan : Plan) (ctx : ReviewStageContext) : Verdict :=
  match stages with
  | [] => Approve
  | stage :: rest =>
      match stage_review stage plan ctx with
      | Approve => chain_review rest plan ctx
      | v => v
      end
  end.

Definition ChainReviewStage (stages : list ReviewStage) : ReviewStage :=
  mkStage (bs "chain") (chain_review stages).

(** The chain the daemon builds. *)
Definition production_chain `{UnicodeStr} : list ReviewStage := [ConstitutionalGuard; DeterministicPolicy].

(** * The digest of a plan (plan_digest.rs) *)

Definition class_value (c : DataClass) : Value := String (as_pascal_str c).

Definition refused_value (r : RefusedReason) : Value :=
  object [(bs "principle", int_value (rf_principle r)); (bs "reason", String (rf_reason r))].

Definition l3_param_value (p : L3Param) : Value :=
  object [(bs "name", String (l3p_name p)); (bs "description", String (l3p_description p))].

Definition l3_step_value (s : L3TemplateStep) : Value :=
  object [(bs "tool", String (l3s_tool s)); (bs "method", String (l3s_method s));
          (bs "parameters", l3s_parameters s)].

Definition l3_skill_value (s : L3SkillCandidate) : Value :=
  object [(bs "name", String (l3_name s)); (bs "description", String (l3_description s));
          (bs "parameters", Array (map l3_param_value (l3_parameters s)));
          (bs "steps", Array (map l3_step_value (l3_steps s)))].

Definition invoke_value (d : InvokeDirective) : Value :=
  object [(bs "name", String (iv_name d));
          (bs "args", Object (map (fun kv => (kv.1, String kv.2)) (iv_args d)));
          (bs "params", iv_params d)].

Definition python_value (s : PythonSkillCandidate) : Value :=
  object [(bs "name", String (py_name s)); (bs "description", String (py_description s));
          (bs "code", String (py_code s))].

Definition step_form (s : PlannedStep) : Value :=
  object [(bs "tool", String (st_tool s)); (bs "method", String (st_method s));
          (bs "parameters", st_parameters s); (bs "classification", class_value (st_classification s))].

Definition CANONICAL_FORM_VERSION : Z := 1.

Definition canonical_form (p : Plan) : Value :=
  object [(bs "v", int_value CANONICAL_FORM_VERSION);
          (bs "decision", String (pl_decision p));
          (bs "steps", Array (map step_form (pl_steps p)));
          (bs "result", opt_value id (pl_result p));
          (bs "data_ceiling", opt_value class_value (pl_data_ceiling p));
          (bs "refused", opt_value refused_value (pl_refused p));
          (bs "floor_request", opt_value class_value (pl_floor_request p));
          (bs "l1_insight", opt_value String (pl_l1_insight p));
          (bs "l3_skill", opt_value l3_skill_value (pl_l3_skill p));
          (bs "invoke_skill", opt_value invoke_value (pl_invoke_skill p));
          (bs "python_skill", opt_value python_value (pl_python_skill p))].

(** [to_vec] is [serde_json::to_vec]. *)
Definition plan_digest `{Sha256} (to_vec : Value -> bytes) (p : Plan) : bytes :=
  sha256_hex (sha256 (to_vec (canonical_form p))).

(** What remains of a plan when its narration is dropped: everything the
    dispatcher and the reviewer act on. *)
Definition strip_step (s : PlannedStep) : PlannedStep :=
  mkStep (st_tool s) (st_method s) (st_parameters s) [] [] (st_classification s).

Definition strip_narration (p : Plan) : Plan :=
  mkPlan [] (pl_decision p) [] (map strip_step (pl_steps p)) (pl_result p) (pl_data_ceiling p)
    (pl_refused p) (pl_floor_request p) (pl_l1_insight p) (pl_l3_skill p) (pl_invoke_skill p)
    (pl_python_skill p).

(** * Lemmas: the classification policy *)

Lemma first_step_None bad i steps :
  first_step bad i steps = None <-> Forall (fun s => bad (st_classification s) = false) steps.
Proof.
  revert i. induction steps as [|s steps IH]; intros i; simpl; [by split|].
  rewrite Forall_cons, <- (IH (S i)). destruct (bad _); naive_solver.
Qed.

Lemma first_step_Some bad i steps j c :
  first_step bad i steps = Some (j, c) ->
  exists s, i <= j /\ steps !! (j - i) = Some s /\ st_classification s = c /\ bad c = true /\
    Forall (fun s => bad (st_classification s) = false) (take (j - i) steps).
Proof.
  revert i. induction steps as [|s steps IH]; intros i; simpl; [done|].
  destruct (bad (st_classification s)) eqn:E.
  - intros [= <- <-]. exists s. rewrite Nat.sub_diag. by split_and!.
  - intros H. destruct (IH _ H) as (s' & Hle & Hs & Hc & Hb & Hall). exists s'.
    replace (j - i) with (S (j - S i)) by lia. simpl. split_and!; [lia|done..|]. by constructor.
Qed.

(** What an approved plan satisfies, and what each violation witnesses. *)
Definition classes_ok (p : Plan) (floor : DataClass) : Prop :=
  exists ceiling, pl_data_ceiling p = Some ceiling /\ (rank floor <= rank ceiling)%Z /\
    Forall (fun s => rank floor <= rank (st_classification s) <= rank ceiling)%Z (pl_steps p).

Lemma screen_plan_None p floor :
  screen_plan_for_classification_violations p floor = None <-> classes_ok p floor.
Proof.
  unfold screen_plan_for_classification_violations, classes_ok.
  destruct (pl_data_ceiling p) as [c|]; [|naive_solver].
  destruct (Z.ltb_spec (rank c) (rank floor)) as [Hlt | Hge].
  { split; [done|]. intros (c' & [= <-] & Hr & _). lia. }
  destruct (first_step _ 0 (pl_steps p)) as [[i d]|] eqn:E1;
    [|destruct (first_step (fun x => (rank c <? rank x)%Z) 0 (pl_steps p)) as [[i d]|] eqn:E2].
  - split; [done|]. intros (c' & _ & _ & Hall).
    apply first_step_Some in E1 as (s & _ & Hs & <- & Hb & _).
    apply (Forall_lookup_1 _ _ _ _ Hall) in Hs. apply Z.ltb_lt in Hb. lia.
  - split; [done|]. intros (c' & [= <-] & _ & Hall).
    apply first_step_Some in E2 as (s & _ & Hs & <- & Hb & _).
    apply (Forall_lookup_1 _ _ _ _ Hall) in Hs. apply Z.ltb_lt in Hb. lia.
  - split; [|done]. intros _. exists c. split_and!; [done..|].
    apply first_step_None in E1, E2. eapply Forall_impl; [apply Forall_and; split; [exact E1|exact E2]|].
    intros s [H1 H2]. apply Z.ltb_ge in H1, H2. lia.
Qed.

Lemma chain_review_Approve stages p ctx :
  chain_review stages p ctx = Approve <-> Forall (fun st => stage_review st p ctx = Approve) stages.
Proof.
  induction stages as [|st stages IH]; simpl; [by split|].
  rewrite Forall_cons, <- IH. destruct (stage_review st p ctx); naive_solver.
Qed.

(** * Lemmas: the instruction screen *)

(** A needle no proper prefix of which is also a suffix: its occurrences cannot
    overlap. *)
Definition unbordered (n : bytes) : bool :=
  forallb (fun k => negb (bytes_eqb (take (length n - k) n) (drop k n))) (seq 1 (length n - 1)).

Lemma starts_with_lookup n s i x :
  starts_with n s = true -> n !! i = Some x -> s !! i = Some x.
Proof. intros (t & ->)%starts_with_true Hx. by apply lookup_app_l_Some. Qed.

Lemma unbordered_no_overlap n h p q :
  unbordered n = true -> starts_with n (drop p h) = true -> starts_with n (drop q h) = true ->
  p < q -> p + length n <= q.
Proof.
  intros Hu Hp Hq Hlt. destruct (decide (p + length n <= q)) as [|Hov]; [done|exfalso].
  unfold unbordered in Hu. rewrite forallb_forall in Hu.
  specialize (Hu (q - p)). rewrite in_seq in Hu.
  apply negb_true_iff in Hu; [|lia]. apply bytes_eqb_false in Hu. apply Hu.
  apply list_eq_same_length with (length n - (q - p));
    [rewrite length_drop; lia|rewrite length_take; lia|].
  intros i x y Hi Hx Hy. apply lookup_take_Some in Hx as [Hx _]. rewrite lookup_drop in Hy.
  apply (starts_with_lookup _ _ _ _ Hq) in Hx. apply (starts_with_lookup _ _ _ _ Hp) in Hy.
  rewrite lookup_drop in Hx, Hy. replace (p + (q - p + i)) with (q + i) in Hy by lia. congruence.
Qed.

Lemma match_indices_sound fuel n h pos q :
  q ∈ match_indices fuel n h pos -> starts_with n (drop q h) = true.
Proof.
  revert pos. induction fuel as [|fuel IH]; intros pos; simpl; [by intros ?%not_elem_of_nil|].
  destruct (starts_with n (drop pos h)) eqn:E; [|apply IH].
  intros [-> | H]%elem_of_cons; [done|by apply (IH (pos + length n))].
Qed.

Lemma match_indices_complete fuel n h pos q :
  unbordered n = true -> n <> [] -> pos <= q <= length h -> length h < pos + fuel ->
  starts_with n (drop q h) = true -> q ∈ match_indices fuel n h pos.
Proof.
  intros Hu Hn. assert (0 < length n) by (destruct n; simpl; [done|lia]).
  revert pos. induction fuel as [|fuel IH]; intros pos Hpos Hf Hq; [lia|]. simpl.
  destruct (decide (q = pos)) as [-> | Hne]; [rewrite Hq; apply list_elem_of_here|].
  destruct (starts_with n (drop pos h)) eqn:E.
  - pose proof (unbordered_no_overlap n h pos q Hu E Hq ltac:(lia)).
    apply list_elem_of_further, IH; [lia..|done].
  - apply IH; [lia..|done].
Qed.

(** No alphanumeric byte at the end of [a], resp. at the start of [b]. *)
Definition ends_word (a : bytes) : Prop :=
  forall c, last a = Some c -> is_ascii_alphanumeric c = false.
Definition begins_word (b : bytes) : Prop :=
  forall c, head b = Some c -> is_ascii_alphanumeric c = false.

Lemma before_ok_iff (a r : bytes) :
  (length a =? 0) || negb (is_ascii_alphanumeric (nth (length a - 1) (a ++ r) 0%Z)) = true <-> ends_word a.
Proof.
  unfold ends_word. destruct a as [|c a _] using rev_ind; [by split|].
  rewrite length_app. simpl. replace (length a + 1 =? 0) with false by (symmetry; apply Nat.eqb_neq; lia).
  replace (length a + 1 - 1) with (length a) by lia.
  rewrite <- app_assoc, app_nth2, Nat.sub_diag by lia. simpl.
  rewrite last_snoc, negb_true_iff. naive_solver.
Qed.

Lemma after_ok_iff (a b : bytes) :
  (length a =? length (a ++ b)) || negb (is_ascii_alphanumeric (nth (length a) (a ++ b) 0%Z)) = true
  <-> begins_word b.
Proof.
  unfold begins_word. rewrite length_app, app_nth2, Nat.sub_diag by lia. destruct b as [|c b]; simpl.
  - rewrite Nat.add_0_r, Nat.eqb_refl. by split.
  - replace (length a =? length a + S (length b)) with false by (symmetry; apply Nat.eqb_neq; lia).
    simpl. rewrite negb_true_iff. naive_solver.
Qed.

Lemma contains_word_true h n :
  unbordered n = true -> n <> [] ->
  contains_word h n = true <-> exists a b, h = a ++ n ++ b /\ ends_word a /\ begins_word b.
Proof.
  intros Hu Hn. unfold contains_word. rewrite existsb_exists. split.
  - intros (q & Hin & Hok). apply list_elem_of_In, match_indices_sound in Hin as Hs.
    apply starts_with_true in Hs as [b Hb].
    assert (Hq : q <= length h).
    { destruct (decide (q <= length h)); [done|]. rewrite drop_ge in Hb by lia.
      destruct n; [done|]. discriminate. }
    exists (take q h), b. rewrite <- (take_drop q h), Hb in Hok.
    assert (Hl : length (take q h) = q) by (rewrite length_take; lia).
    apply andb_true_iff in Hok as [H1 H2]. split_and!.
    + by rewrite <- Hb, take_drop.
    + apply (before_ok_iff _ (n ++ b)). by rewrite Hl.
    + apply (after_ok_iff (take q h ++ n) b). by rewrite length_app, Hl, <- app_assoc.
  - intros (a & b & -> & Ha & Hb). exists (length a). split.
    + apply list_elem_of_In, match_indices_complete; [done..|rewrite !length_app; lia|lia|].
      rewrite drop_app_length. apply starts_with_true. by exists b.
    + apply andb_true_iff. split; [by apply before_ok_iff|].
      rewrite app_assoc, <- length_app. by apply after_ok_iff.
Qed.

Lemma contains_embed t a s b : contains t s = true -> contains t (a ++ s ++ b) = true.
Proof.
  rewrite !contains_true. intros (x & y & ->). exists (a ++ x), (y ++ b). by rewrite <- !app_assoc.
Qed.

Lemma contains_any_embed ts a s b : contains_any ts s = true -> contains_any ts (a ++ s ++ b) = true.
Proof.
  unfold contains_any. rewrite !existsb_exists. intros (t & Ht & Hc). exists t. split; [done|].
  by apply contains_embed.
Qed.

Lemma contains_word_embed n a c s d b :
  unbordered n = true -> n <> [] ->
  is_ascii_alphanumeric c = false -> is_ascii_alphanumeric d = false ->
  contains_word s n = true -> contains_word ((a ++ [c]) ++ s ++ d :: b) n = true.
Proof.
  intros Hu Hn Hc Hd. rewrite !contains_word_true by done. intros (x & y & -> & Hx & Hy).
  exists ((a ++ [c]) ++ x), (y ++ d :: b). split; [by rewrite <- !app_assoc|]. split.
  - intros e. destruct x as [|z x _] using rev_ind.
    + rewrite app_nil_r, last_snoc. by intros [= <-].
    + rewrite app_assoc, last_snoc. intros [= <-]. apply Hx. apply last_snoc.
  - intros e. destruct y as [|z y]; simpl; [by intros [= <-]|]. apply (Hy e).
Qed.

Lemma has_disable_verb_embed a c s d b :
  is_ascii_alphanumeric c = false -> is_ascii_alphanumeric d = false ->
  has_disable_verb s = true -> has_disable_verb ((a ++ [c]) ++ s ++ d :: b) = true.
Proof.
  intros Hc Hd. unfold has_disable_verb. rewrite !orb_true_iff.
  intros [[[[[H|H]|H]|H]|H]|H];
    first [left; left; left; left; left; by apply contains_word_embed
          |left; left; left; left; right; by apply contains_embed
          |left; left; left; right; by apply contains_embed
          |left; left; right; by apply contains_embed
          |left; right; by apply contains_word_embed
          |right; by apply contains_word_embed].
Qed.


Lemma first_principle_mono c1 c2 c3 c4 c5 d1 d2 d3 d4 d5 p r :
  (c1 = true -> d1 = true) -> (c2 = true -> d2 = true) -> (c3 = true -> d3 = true) ->
  (c4 = true -> d4 = true) -> (c5 = true -> d5 = true) ->
  first_principle c1 c2 c3 c4 c5 = Some (p, r) ->
  exists p' r', first_principle d1 d2 d3 d4 d5 = Some (p', r') /\ (p' <= p)%Z.
Proof.
  intros H1 H2 H3 H4 H5. unfold first_principle.
  destruct c1, d1; try (by specialize (H1 eq_refl));
  destruct c2, d2; try (by specialize (H2 eq_refl));
  destruct c3, d3; try (by specialize (H3 eq_refl));
  destruct c4, d4; try (by specialize (H4 eq_refl));
  destruct c5, d5; try (by specialize (H5 eq_refl));
  try done; intros E; injection E as <- _; do 2 eexists; split; try reflexivity; lia.
Qed.

(** A text that keeps every signal of another is screened at least as early. *)
Lemma screen_lowered_mono s t p r :
  (forall ts, contains_any ts s = true -> contains_any ts t = true) ->
  (has_disable_verb s = true -> has_disable_verb t = true) ->
  screen_lowered s = Some (p, r) ->
  exists p' r', screen_lowered t = Some (p', r') /\ (p' <= p)%Z.
Proof.
  intros Ha Hd. unfold screen_lowered.
  apply first_principle_mono; [apply Ha|..]; rewrite !andb_true_iff; intros [H1 H2]; split; auto.
Qed.

Lemma lower_sep c : is_ascii_alphanumeric c = false -> ascii_lower c = c.
Proof.
  unfold is_ascii_alphanumeric, ascii_lower. intros [[_ H]%orb_false_iff _]%orb_false_iff. by rewrite H.
Qed.

(** * Lemmas: the canonical form *)

Lemma class_value_inj a b : class_value a = class_value b -> a = b.
Proof. by destruct a, b. Qed.

Lemma refused_value_inj a b : refused_value a = refused_value b -> a = b.
Proof. intros H. unfold refused_value in H. object_fields H. destruct a, b. by injection H as -> ->. Qed.

Lemma l3_param_value_inj a b : l3_param_value a = l3_param_value b -> a = b.
Proof. intros H. unfold l3_param_value in H. object_fields H. destruct a, b. by injection H as -> ->. Qed.

Lemma l3_step_value_inj a b : l3_step_value a = l3_step_value b -> a = b.
Proof. intros H. unfold l3_step_value in H. object_fields H. destruct a, b. by injection H as -> -> ->. Qed.

Lemma l3_skill_value_inj a b : l3_skill_value a = l3_skill_value b -> a = b.
Proof.
  intros H. unfold l3_skill_value in H. object_fields H. destruct a, b. cbn [l3_name l3_description
    l3_parameters l3_steps] in H. injection H as -> -> H1 H2.
  apply map_inj in H1 as ->; [|apply l3_param_value_inj].
  by apply map_inj in H2 as ->; [|apply l3_step_value_inj].
Qed.

Lemma args_value_inj (a b : list (bytes * bytes)) :
  map (fun kv => (kv.1, String kv.2)) a = map (fun kv => (kv.1, String kv.2)) b -> a = b.
Proof.
  revert b. induction a as [|[k v] a IH]; intros [|[k' v'] b]; simpl; [done..|].
  intros [= -> -> H]. f_equal. by apply IH.
Qed.

Lemma invoke_value_inj a b : invoke_value a = invoke_value b -> a = b.
Proof.
  intros H. unfold invoke_value in H. object_fields H. destruct a, b.
  cbn [iv_name iv_args iv_params] in H. injection H as -> H1 ->. by apply args_value_inj in H1 as ->.
Qed.

Lemma python_value_inj a b : python_value a = python_value b -> a = b.
Proof. intros H. unfold python_value in H. object_fields H. destruct a, b. by injection H as -> -> ->. Qed.

Lemma step_form_strip a b : step_form a = step_form b -> strip_step a = strip_step b.
Proof.
  intros H. unfold step_form in H. object_fields H. injection H as H1 H2 H3 H4.
  assert (st_classification a = st_classification b)
    by (apply class_value_inj; unfold class_value; by rewrite H4).
  unfold strip_step. congruence.
Qed.

Lemma map_step_form xs ys : map step_form xs = map step_form ys -> map strip_step xs = map strip_step ys.
Proof.
  revert ys. induction xs as [|x xs IH]; intros [|y ys]; cbn [map]; [done..|].
  intros H. f_equal; [apply step_form_strip; exact (f_equal (hd Null) H)|].
  apply IH. exact (f_equal (@tl Value) H).
Qed.

Lemma canonical_form_strip p q :
  pl_result p <> Some Null -> pl_result q <> Some Null ->
  canonical_form p = canonical_form q -> strip_narration p = strip_narration q.
Proof.
  intros Hp Hq H. unfold canonical_form in H. object_fields H.
  injection H as H1 H2 H3 H4 H5 H6 H7 H8 H9 H10.
  apply map_step_form in H2.
  assert (E3 : pl_result p = pl_result q).
  { destruct (pl_result p), (pl_result q); unfold id in H3; simpl in H3; congruence. }
  apply opt_value_inj in H4; [|apply class_value_inj|by intros []].
  apply opt_value_inj in H5; [|apply refused_value_inj|done].
  apply opt_value_inj in H6; [|apply class_value_inj|by intros []].
  apply opt_value_inj in H7; [|by intros ? ? [=]|done].
  apply opt_value_inj in H8; [|apply l3_skill_value_inj|done].
  apply opt_value_inj in H9; [|apply invoke_value_inj|done].
  apply opt_value_inj in H10; [|apply python_value_inj|done].
  unfold strip_narration. congruence.
Qed.

Lemma production_chain_Approve `{UnicodeStr} p ctx :
  chain_review production_chain p ctx = Approve <->
  screen_instruction_for_principle_violations (rx_instruction ctx) = None /\
  classes_ok p (rx_classification_floor ctx).
Proof.
  rewrite chain_review_Approve. unfold production_chain. rewrite !Forall_cons, Forall_nil.
  rewrite <- screen_plan_None. cbn [stage_review ConstitutionalGuard DeterministicPolicy].
  destruct (screen_instruction_for_principle_violations _) as [[]|],
    (screen_plan_for_classification_violations _ _); naive_solver.
Qed.

(** The production chain never returns an advisory and never escalates. *)
Lemma production_chain_verdict `{UnicodeStr} p ctx :
  match chain_review production_chain p ctx with
  | Approve | Block _ | ConstitutionalBlock _ _ => True
  | Advisory _ | Escalate _ _ => False
  end.
Proof.
  unfold production_chain. simpl.
  destruct (screen_instruction_for_principle_violations _) as [[]|]; [done|].
  by destruct (screen_plan_for_classification_violations _ _).
Qed.

(** * Theorems *)

(** The classification screen is total enforcement in its declared order:
    it passes a plan exactly when the ceiling is resolved, is not below the task
    floor and every step's class lies between the two; otherwise it reports the
    most fundamental violation, at the lowest step index where that one occurs:
    a step below the floor outranks every step above the ceiling. *)
Theorem screen_plan_reports_first_violation p floor :
  match screen_plan_for_classification_violations p floor with
  | None => classes_ok p floor
  | Some CeilingUnresolved => pl_data_ceiling p = None
  | Some (CeilingBelowFloor c f) =>
      f = floor /\ pl_data_ceiling p = Some c /\ (rank c < rank floor)%Z
  | Some (StepClassificationBelowFloor i c f) =>
      f = floor /\ (exists ceiling, pl_data_ceiling p = Some ceiling /\ (rank floor <= rank ceiling)%Z) /\
      st_classification <$> pl_steps p !! i = Some c /\ (rank c < rank floor)%Z /\
      Forall (fun s => (rank floor <= rank (st_classification s))%Z) (take i (pl_steps p))
  | Some (StepClassificationAboveCeiling i c ceiling) =>
      pl_data_ceiling p = Some ceiling /\ (rank floor <= rank ceiling)%Z /\
      Forall (fun s => (rank floor <= rank (st_classification s))%Z) (pl_steps p) /\
      st_classification <$> pl_steps p !! i = Some c /\ (rank ceiling < rank c)%Z /\
      Forall (fun s => (rank (st_classification s) <= rank ceiling)%Z) (take i (pl_steps p))
  end.
Proof.
  destruct (screen_plan_for_classification_violations p floor) as [v|] eqn:E;
    [|by apply screen_plan_None].
  revert E. unfold screen_plan_for_classification_violations.
  destruct (pl_data_ceiling p) as [c|]; [|by intros [= <-]].
  destruct (Z.ltb_spec (rank c) (rank floor)) as [Hlt | Hge]; [by intros [= <-]|].
  assert (Himp : forall (f g : PlannedStep -> Z) l, Forall (fun s => (f s <? g s)%Z = false) l ->
    Forall (fun s => (g s <= f s)%Z) l).
  { intros f g l H. eapply Forall_impl; [exact H|]. intros s Hs. by apply Z.ltb_ge. }
  destruct (first_step _ 0 (pl_steps p)) as [[i d]|] eqn:E1;
    [|destruct (first_step (fun x => (rank c <? rank x)%Z) 0 (pl_steps p)) as [[i d]|] eqn:E2].
  - intros [= <-]. apply first_step_Some in E1 as (s & _ & Hs & <- & Hb & Hall).
    rewrite Nat.sub_0_r in *. rewrite Hs. apply Z.ltb_lt in Hb. split_and!; [done|by exists c|done..|].
    exact (Himp (fun s => rank (st_classification s)) (fun _ => rank floor) _ Hall).
  - intros [= <-]. apply first_step_None in E1.
    apply first_step_Some in E2 as (s & _ & Hs & <- & Hb & Hall).
    rewrite Nat.sub_0_r in *. rewrite Hs. apply Z.ltb_lt in Hb. split_and!; [done..| |done|done|].
    + exact (Himp (fun s => rank (st_classification s)) (fun _ => rank floor) _ E1).
    + exact (Himp (fun _ => rank c) (fun s => rank (st_classification s)) _ Hall).
  - done.
Qed.

(** Padding does not evade the instruction screen: an ASCII instruction that
    violates a principle still violates one, of at least the same precedence,
    when it is embedded in any longer text that sets it off with a byte that is
    not alphanumeric on either side, the whole-word verbs included. *)
Theorem screen_not_evaded_by_padding `{UnicodeStr} a c s d b p r :
  is_ascii (a ++ c :: s ++ d :: b) = true ->
  is_ascii_alphanumeric c = false -> is_ascii_alphanumeric d = false ->
  screen_instruction_for_principle_violations s = Some (p, r) ->
  exists p' r', screen_instruction_for_principle_violations (a ++ c :: s ++ d :: b) = Some (p', r') /\
    (p' <= p)%Z.
Proof.
  intros Hasc Hc Hd. unfold screen_instruction_for_principle_violations.
  assert (Hs : is_ascii s = true).
  { eapply is_ascii_subset; [|exact Hasc]. intros x Hx. rewrite elem_of_app, elem_of_cons, elem_of_app. by right; right; left. }
  rewrite !to_lowercase_ascii by done. unfold to_ascii_lowercase.
  replace (map ascii_lower (a ++ c :: s ++ d :: b))
    with ((map ascii_lower a ++ [c]) ++ map ascii_lower s ++ d :: map ascii_lower b)
    by (rewrite !map_app; simpl; rewrite map_app; simpl; rewrite !lower_sep, <- app_assoc by done; done).
  apply screen_lowered_mono; intros; [by apply contains_any_embed|by apply has_disable_verb_embed].
Qed.

(** * Witnesses *)

Lemma screen_not_evaded_by_padding_witness :
  exists p' r', screen_instruction_for_principle_violations
      (bs "Hi! Please DISABLE the audit log. Thanks") = Some (p', r') /\ (p' <= 5)%Z.
Proof.
  exact (screen_not_evaded_by_padding (bs "Hi! Please") 32%Z (bs "DISABLE the audit log") 46%Z
           (bs " Thanks") 5%Z (bs "suppress_oversight") eq_refl eq_refl eq_refl eq_refl).
Defined.

(** Passive forms of the whole-word verbs do not fire. *)
Example disabled_is_a_question :
  screen_instruction_for_principle_violations (bs "Is the audit log disabled?") = None.
Proof. vm_compute. reflexivity. Qed.
