(* ===== verification/PlanJson.v ===== *)
(** The wire form of plans and step outcomes: the serde derives of
    src/core/src/cassandra/types.rs (with their [default] and
    [skip_serializing_if] attributes) and of [StepOutcome]
    (src/core/src/scheduler/inner_loop.rs), as encoders and decoders.  A decoder
    reads a struct from an object and ignores unknown keys, as the derive does;
    that a derive also accepts a positional array is not modelled. *)

From stdpp Require Import base list numbers strings option.
From Stdlib Require Import ZArith Lia.
From S2P Require Import Prelude RustStr Json Cassandra.
Local Open Scope nat_scope.

Inductive StepOutcome := StepOk (v : Value) | StepErr (code detail : bytes).

Definition is_err (o : StepOutcome) : bool :=
  match o with StepErr _ _ => true | StepOk _ => false end.

(** * Encoders *)

Definition step_to_value (s : PlannedStep) : Value :=
  object [(bs "tool", String (st_tool s)); (bs "method", String (st_method s));
          (bs "parameters", st_parameters s); (bs "returns", String (st_returns s));
          (bs "done_when", String (st_done_when s));
          (bs "classification", class_value (st_classification s))].

Definition plan_fields (p : Plan) : list (bytes * Value) :=
  [(bs "context", String (pl_context p)); (bs "decision", String (pl_decision p));
   (bs "rationale", String (pl_rationale p));
   (bs "steps", Array (map step_to_value (pl_steps p)))] ++
  opt_field (bs "result") id (pl_result p) ++
  opt_field (bs "data_ceiling") class_value (pl_data_ceiling p) ++
  opt_field (bs "refused") refused_value (pl_refused p) ++
  opt_field (bs "floor_request") class_value (pl_floor_request p) ++
  opt_field (bs "l1_insight") String (pl_l1_insight p) ++
  opt_field (bs "l3_skill") l3_skill_value (pl_l3_skill p) ++
  opt_field (bs "invoke_skill") invoke_value (pl_invoke_skill p) ++
  opt_field (bs "python_skill") python_value (pl_python_skill p) ++ [].

Definition plan_to_value (p : Plan) : Value := object (plan_fields p).

Definition outcome_to_value (o : StepOutcome) : Value :=
  match o with
  | StepOk v => object [(bs "Ok", v)]
  | StepErr code detail =>
      object [(bs "Err", object [(bs "code", String code); (bs "detail", String detail)])]
  end.

(** * Decoders *)

Definition class_from_value (v : Value) : option DataClass :=
  s ← as_str v;
  if bytes_eqb s (bs "Public") then Some Public
  else if bytes_eqb s (bs "Personal") then Some Personal
  else if bytes_eqb s (bs "ClinicalConfidential") then Some ClinicalConfidential
  else if bytes_eqb s (bs "Secret") then Some Secret
  else None.

Definition u8_from_value (v : Value) : option Z :=
  match v with
  | Number (NInt z) => if ((0 <=? z) && (z <=? 255))%Z then Some z else None
  | _ => None
  end.

Definition step_from_value (v : Value) : option PlannedStep :=
  tool ← req_field (bs "tool") as_str v;
  method ← req_field (bs "method") as_str v;
  parameters ← req_field (bs "parameters") Some v;
  returns ← req_field (bs "returns") as_str v;
  done_when ← req_field (bs "done_when") as_str v;
  classification ← req_field (bs "classification") class_from_value v;
  Some (mkStep tool method parameters returns done_when classification).

Definition refused_from_value (v : Value) : option RefusedReason :=
  principle ← req_field (bs "principle") u8_from_value v;
  reason ← req_field (bs "reason") as_str v;
  Some (mkRefused principle reason).

Definition l3_param_from_value (v : Value) : option L3Param :=
  name ← req_field (bs "name") as_str v;
  description ← req_field (bs "description") as_str v;
  Some (mkL3Param name description).

Definition l3_step_from_value (v : Value) : option L3TemplateStep :=
  tool ← req_field (bs "tool") as_str v;
  method ← req_field (bs "method") as_str v;
  parameters ← req_field (bs "parameters") Some v;
  Some (mkL3Step tool method parameters).

Definition l3_skill_from_value (v : Value) : option L3SkillCandidate :=
  name ← req_field (bs "name") as_str v;
  description ← req_field (bs "description") as_str v;
  parameters ← req_field (bs "parameters") (array_of l3_param_from_value) v;
  steps ← req_field (bs "steps") (array_of l3_step_from_value) v;
  Some (mkL3Skill name description parameters steps).

(** The entries of a JSON object of strings, as [BTreeMap<String, String>]. *)
Definition args_from_value (v : Value) : option (list (bytes * bytes)) :=
  match v with
  | Object m => mapM (fun kv => s ← as_str kv.2; Some (kv.1, s)) m
  | _ => None
  end.

(** [args] and [params] are [#[serde(default)]]. *)
Definition invoke_from_value (v : Value) : option InvokeDirective :=
  name ← req_field (bs "name") as_str v;
  args ← match get (bs "args") v with None => Some [] | Some a => args_from_value a end;
  Some (mkInvoke name args (default Null (get (bs "params") v))).

Definition python_from_value (v : Value) : option PythonSkillCandidate :=
  name ← req_field (bs "name") as_str v;
  description ← req_field (bs "description") as_str v;
  code ← req_field (bs "code") as_str v;
  Some (mkPySkill name description code).

Definition plan_from_value (v : Value) : option Plan :=
  context ← req_field (bs "context") as_str v;
  decision ← req_field (bs "decision") as_str v;
  rationale ← req_field (bs "rationale") as_str v;
  steps ← req_field (bs "steps") (array_of step_from_value) v;
  result ← option_field (bs "result") Some v;
  data_ceiling ← option_field (bs "data_ceiling") class_from_value v;
  refused ← option_field (bs "refused") refused_from_value v;
  floor_request ← option_field (bs "floor_request") class_from_value v;
  l1_insight ← option_field (bs "l1_insight") as_str v;
  l3_skill ← option_field (bs "l3_skill") l3_skill_from_value v;
  invoke_skill ← option_field (bs "invoke_skill") invoke_from_value v;
  python_skill ← option_field (bs "python_skill") python_from_value v;
  Some (mkPlan context decision rationale steps result data_ceiling refused floor_request
          l1_insight l3_skill invoke_skill python_skill).

(** Externally tagged: an object with the variant as its only key. *)
Definition outcome_from_value (v : Value) : option StepOutcome :=
  match v with
  | Object [(k, w)] =>
      if bytes_eqb k (bs "Ok") then Some (StepOk w)
      else if bytes_eqb k (bs "Err") then
        code ← req_field (bs "code") as_str w;
        detail ← req_field (bs "detail") as_str w;
        Some (StepErr code detail)
      else None
  | _ => None
  end.

(** * Lemmas *)

(** Read a field of a concrete object literal. *)
Ltac read_field :=
  match goal with
  | |- context [req_field ?k ?f (object ?fs)] =>
      unfold req_field at 1; rewrite (object_map_get k fs) by solve_keys;
      cbn [map_get]; repeat (rewrite bytes_eqb_refl || (rewrite (proj2 (bytes_eqb_false _ _)) by done));
      cbn [mbind option_bind as_str]
  end.

Lemma class_roundtrip c : class_from_value (class_value c) = Some c.
Proof. by destruct c. Qed.

Lemma step_roundtrip s : step_from_value (step_to_value s) = Some s.
Proof.
  unfold step_from_value, step_to_value. destruct s as [t m ps r d c]. cbn -[object bs req_field].
  repeat read_field. by rewrite class_roundtrip.
Qed.

Lemma refused_roundtrip r : (0 <= rf_principle r <= 255)%Z -> refused_from_value (refused_value r) = Some r.
Proof.
  unfold refused_from_value, refused_value. destruct r as [p s]. cbn -[object bs req_field]. intros H.
  repeat read_field. unfold u8_from_value, int_value.
  rewrite (proj2 (Z.leb_le 0 p)), (proj2 (Z.leb_le p 255)) by lia. cbn [andb mbind option_bind].
  by repeat read_field.
Qed.

Lemma l3_param_roundtrip p : l3_param_from_value (l3_param_value p) = Some p.
Proof.
  unfold l3_param_from_value, l3_param_value. destruct p. cbn -[object bs req_field]. by repeat read_field.
Qed.

Lemma l3_step_roundtrip s : l3_step_from_value (l3_step_value s) = Some s.
Proof.
  unfold l3_step_from_value, l3_step_value. destruct s. cbn -[object bs req_field]. by repeat read_field.
Qed.

Lemma l3_skill_roundtrip s : l3_skill_from_value (l3_skill_value s) = Some s.
Proof.
  unfold l3_skill_from_value, l3_skill_value. destruct s as [n d ps ss]. cbn -[object bs req_field].
  repeat read_field. cbn [array_of as_array mbind option_bind].
  rewrite (mapM_enc l3_param_value) by (apply Forall_true, l3_param_roundtrip). cbn [mbind option_bind].
  repeat read_field. cbn [array_of as_array mbind option_bind].
  by rewrite (mapM_enc l3_step_value) by (apply Forall_true, l3_step_roundtrip).
Qed.

Lemma args_roundtrip a : args_from_value (Object (map (fun kv => (kv.1, String kv.2)) a)) = Some a.
Proof.
  cbn [args_from_value]. induction a as [|[k v] a IH]; [done|].
  cbn [map mapM mbind option_bind as_str fst snd]. by rewrite IH.
Qed.

Lemma invoke_roundtrip d : invoke_from_value (invoke_value d) = Some d.
Proof.
  unfold invoke_from_value, invoke_value. destruct d as [n a ps]. cbn -[object bs req_field get args_from_value].
  repeat read_field.
  rewrite (object_get (bs "args") (Object (map (fun kv => (kv.1, String kv.2)) a)))
    by (solve_keys || (by apply list_elem_of_further, list_elem_of_here)).
  rewrite args_roundtrip. cbn [mbind option_bind].
  by rewrite (object_get (bs "params") ps)
    by (solve_keys || (by apply list_elem_of_further, list_elem_of_further, list_elem_of_here)).
Qed.

Lemma python_roundtrip s : python_from_value (python_value s) = Some s.
Proof.
  unfold python_from_value, python_value. destruct s. cbn -[object bs req_field]. by repeat read_field.
Qed.

Lemma outcome_roundtrip o : outcome_from_value (outcome_to_value o) = Some o.
Proof.
  destruct o as [v|code detail]; [done|]. unfold outcome_to_value.
  set (inner := object [(bs "code", String code); (bs "detail", String detail)]).
  change (object [(bs "Err", inner)]) with (Object [(bs "Err", inner)]).
  cbn [outcome_from_value]. rewrite (proj2 (bytes_eqb_false _ _)), bytes_eqb_refl by done.
  subst inner. by repeat read_field.
Qed.

(** Plans as they come out of the decoder: a [null] result is an absent one, and
    a principle is a [u8]. *)
Definition wf_plan (p : Plan) : Prop :=
  pl_result p <> Some Null /\
  (forall r, pl_refused p = Some r -> (0 <= rf_principle r <= 255)%Z).

Definition plan_keys : list bytes :=
  [bs "context"; bs "decision"; bs "rationale"; bs "steps"; bs "result"; bs "data_ceiling";
   bs "refused"; bs "floor_request"; bs "l1_insight"; bs "l3_skill"; bs "invoke_skill";
   bs "python_skill"].

Lemma plan_fields_keys p : NoDup (plan_fields p).*1.
Proof.
  apply (sublist_NoDup _ plan_keys); [solve_keys|].
  unfold plan_fields, plan_keys. cbn [app fmap list_fmap fst].
  do 4 apply sublist_skip. do 8 apply opt_field_sublist. apply sublist_nil_l.
Qed.

(** Look a key up among the fields of an encoded plan. *)
Ltac plan_field :=
  unfold plan_to_value; rewrite object_map_get by apply plan_fields_keys;
  unfold plan_fields; lookup_field.

(** Decode an optional field, given that its encoder round-trips. *)
Ltac option_read key enc o lem :=
  rewrite (option_field_enc (bs key) enc _ _ o);
  [cbn [mbind option_bind]|plan_field; by destruct o|intros a Ha; split; [eapply lem; by eauto|by first [done|destruct a]]].

Lemma plan_roundtrip p : wf_plan p -> plan_from_value (plan_to_value p) = Some p.
Proof.
  intros [Hres Href]. unfold plan_from_value, req_field.
  do 4 (plan_field; cbn [mbind option_bind as_str]).
  cbn [array_of as_array mbind option_bind].
  rewrite (mapM_enc step_to_value) by (apply Forall_true, step_roundtrip). cbn [mbind option_bind].
  rewrite (option_field_enc (bs "result") id _ _ (pl_result p));
    [cbn [mbind option_bind]|plan_field; by destruct (pl_result p)|intros a Ha; split; [done|unfold id; congruence]].
  option_read "data_ceiling"%string class_value (pl_data_ceiling p) class_roundtrip.
  option_read "refused"%string refused_value (pl_refused p) refused_roundtrip.
  option_read "floor_request"%string class_value (pl_floor_request p) class_roundtrip.
  option_read "l1_insight"%string String (pl_l1_insight p) (fun s : bytes => eq_refl (Some s)).
  option_read "l3_skill"%string l3_skill_value (pl_l3_skill p) l3_skill_roundtrip.
  option_read "invoke_skill"%string invoke_value (pl_invoke_skill p) invoke_roundtrip.
  option_read "python_skill"%string python_value (pl_python_skill p) python_roundtrip.
  by destruct p.
Qed.
