(* ===== verification/SkillTemplate.v ===== *)
(** Templated skills (src/core/src/memory): validation and canonical form of a
    crystallised template (l3_crystallise.rs), the approval gate
    (l3_approval.rs) and the invocation engine that fills the template and
    turns it into steps of a plan (l3_invoke/pure.rs, l3_invoke/agent.rs).

    Text is UTF-8 bytes.  The placeholder walks of the source index bytes and
    cut strings only at ASCII braces, and an identifier is ASCII, so the byte
    recursions below visit the positions the loops visit; a character copied
    whole by [interpolate] is copied byte by byte here, its continuation bytes
    never being braces.  The text of a JSON value ([serde_json::to_string]) is a
    parameter. *)

From stdpp Require Import base list sets numbers strings pretty.
From Stdlib Require Import ZArith Lia.
From S2P Require Import Prelude RustStr Fingerprint HashesWire Json Secrets Cassandra.
Local Open Scope nat_scope.

(** * Sets of strings *)

(** [BTreeSet::insert]: the set as its increasing sequence. *)
Fixpoint set_insert (k : bytes) (s : list bytes) : list bytes :=
  match s with
  | [] => [k]
  | x :: t =>
      if bytes_eqb k x then s
      else if bytes_ltb k x then k :: s
      else x :: set_insert k t
  end.

Definition set_contains (k : bytes) (s : list bytes) : bool := existsb (bytes_eqb k) s.

Definition to_set (l : list bytes) : list bytes := fold_left (fun s k => set_insert k s) l [].

(** [a.difference(&b)], in order. *)
Definition difference (a b : list bytes) : list bytes := List.filter (fun k => negb (set_contains k b)) a.

(** * Validation (l3_crystallise.rs) *)

Definition L3_MAX_NAME_BYTES : nat := 64.
Definition L3_MAX_DESC_BYTES : nat := 512.
Definition L3_MAX_PARAM_DESC_BYTES : nat := 256.
Definition L3_MAX_PARAMS : nat := 16.
Definition L3_MAX_STEPS : nat := 32.
Definition L3_MAX_IDENT_BYTES : nat := 64.
Definition L3_MAX_TEMPLATE_BYTES : nat := 4096.

Definition RESERVED_TAG_OPEN : bytes := bs "<skills>".
Definition RESERVED_TAG_CLOSE : bytes := bs "</skills>".

Inductive L3Error := Validation (reason : bytes) | L3Db (e : bytes).

Definition is_lower (c : Z) : bool := ((97 <=? c) && (c <=? 122))%Z.
Definition is_digit (c : Z) : bool := ((48 <=? c) && (c <=? 57))%Z.

Definition is_snake_ident (s : bytes) : bool :=
  match s with
  | [] => false
  | c :: t => is_lower c && forallb (fun c => is_lower c || is_digit c || (c =? 95)%Z) t
  end.

Definition is_tool_ident (s : bytes) : bool :=
  match s with
  | [] => false
  | c :: t =>
      (is_lower c || is_digit c)
      && forallb (fun c => is_lower c || is_digit c || (c =? 95)%Z || (c =? 46)%Z || (c =? 45)%Z) t
  end.

Definition OPEN : bytes := bs "{{".
Definition CLOSE : bytes := bs "}}".

(** The inner loop [while .. j += 1]: the text before the next [}}] and the text
    after it. *)
Fixpoint find_close (s : bytes) : option (bytes * bytes) :=
  match s with
  | [] => None
  | c :: t =>
      match strip_prefix CLOSE s with
      | Some rest => Some ([], rest)
      | None => match find_close t with Some (a, rest) => Some (c :: a, rest) | None => None end
      end
  end.

(** One round of the outer loop consumes at least a byte: the length is fuel. *)
Fixpoint scan_loop (fuel : nat) (s : bytes) (out : list bytes) : result (list bytes) L3Error :=
  match fuel, s with
  | S f, c :: t =>
      match strip_prefix OPEN s with
      | Some rest =>
          match find_close rest with
          | None => Err (Validation (bs "unterminated placeholder '{{'"))
          | Some (ident, rest') =>
              if is_snake_ident ident then scan_loop f rest' (set_insert ident out)
              else Err (Validation (bs "malformed placeholder name '" ++ ident ++ bs "'"))
          end
      | None => scan_loop f t out
      end
  | _, _ => Ok out
  end.

Definition scan_placeholders (s : bytes) (out : list bytes) : result (list bytes) L3Error :=
  scan_loop (length s) s out.

(** [for e in items { f(e, out)?; }] *)
Definition scan_items {A} (f : A -> list bytes -> result (list bytes) L3Error) :
    list A -> list bytes -> result (list bytes) L3Error :=
  fix go l out :=
    match l with
    | [] => Ok out
    | x :: l' => match f x out with Ok out' => go l' out' | Err e => Err e end
    end.

Fixpoint collect_placeholders (v : Value) (out : list bytes) : result (list bytes) L3Error :=
  match v with
  | String s => scan_placeholders s out
  | Array l => scan_items collect_placeholders l out
  | Object m => scan_items (fun kv => collect_placeholders kv.2) m out
  | _ => Ok out
  end.

Definition has_newline (s : bytes) : bool := existsb (fun b => (b =? 10) || (b =? 13))%Z s.
Definition has_control (s : bytes) : bool := existsb (fun b => b <? 32)%Z s.
Definition has_reserved_tag (s : bytes) : bool := contains RESERVED_TAG_OPEN s || contains RESERVED_TAG_CLOSE s.

Definition is_object (v : Value) : bool := match v with Object _ => true | _ => false end.

(** [sort_value_keys]: entries collected, sorted by key (the sort is stable) and
    inserted into a new map. *)
Fixpoint insert_entry (e : bytes * Value) (l : list (bytes * Value)) : list (bytes * Value) :=
  match l with
  | [] => [e]
  | x :: t => if bytes_ltb e.1 x.1 then e :: l else x :: insert_entry e t
  end.

Definition sort_entries (l : list (bytes * Value)) : list (bytes * Value) :=
  fold_left (fun acc e => insert_entry e acc) l [].

Fixpoint sort_value_keys (v : Value) : Value :=
  match v with
  | Object m => object (sort_entries (map (fun kv => (kv.1, sort_value_keys kv.2)) m))
  | Array l => Array (map sort_value_keys l)
  | other => other
  end.

(** A [BTreeMap<String, String>] is its entry sequence. *)
Abbreviation Args := (list (bytes * bytes)).

Section Templates.
Context `{UnicodeStr} `{Sha256} (to_string : Value -> bytes).

(** [insert] reports whether the name is new. *)
Fixpoint validate_params (ps : list L3Param) (declared : list bytes) (norm : list L3Param) :
    result (list bytes * list L3Param) L3Error :=
  match ps with
  | [] => Ok (declared, norm)
  | p :: ps' =>
      let pn := str_trim (l3p_name p) in
      let bad (m : bytes) := Err (Validation (bs "parameter '" ++ pn ++ m)) in
      if negb (is_snake_ident pn) then
        Err (Validation (bs "parameter name '" ++ pn ++ bs "' is not snake_case"))
      else if set_contains pn declared then
        Err (Validation (bs "duplicate parameter '" ++ pn ++ bs "'"))
      else
        let pd := str_trim (l3p_description p) in
        if bytes_eqb pd [] then bad (bs "' has empty description")
        else if has_newline pd then bad (bs "' description contains newline")
        else if has_control pd then bad (bs "' description contains control character")
        else if has_reserved_tag pd then bad (bs "' description contains reserved tag substring")
        else if L3_MAX_PARAM_DESC_BYTES <? length pd then
          bad (bs "' description exceeds " ++ show_nat L3_MAX_PARAM_DESC_BYTES ++ bs " bytes")
        else validate_params ps' (set_insert pn declared) (norm ++ [mkL3Param pn pd])
  end.

Fixpoint validate_steps (ss : list L3TemplateStep) (referenced : list bytes) (norm : list L3TemplateStep) :
    result (list bytes * list L3TemplateStep) L3Error :=
  match ss with
  | [] => Ok (referenced, norm)
  | s :: ss' =>
      let tool := str_trim (l3s_tool s) in
      let method := str_trim (l3s_method s) in
      if (L3_MAX_IDENT_BYTES <? length tool) || negb (is_tool_ident tool) then
        Err (Validation (bs "step tool '" ++ tool ++ bs "' is invalid"))
      else if (L3_MAX_IDENT_BYTES <? length method) || negb (is_tool_ident method) then
        Err (Validation (bs "step method '" ++ method ++ bs "' is invalid"))
      else if negb (is_object (l3s_parameters s)) then
        Err (Validation (bs "step parameters must be a JSON object"))
      else
        match collect_placeholders (l3s_parameters s) referenced with
        | Err e => Err e
        | Ok referenced' =>
            validate_steps ss' referenced' (norm ++ [mkL3Step tool method (l3s_parameters s)])
        end
  end.

Definition canonical_json (c : L3SkillCandidate) : bytes := to_string (sort_value_keys (l3_skill_value c)).

Definition exceeds (what : bytes) (cap n : nat) : bytes :=
  what ++ bs " exceeds " ++ show_nat cap ++ bs " bytes (" ++ show_nat n ++ bs ")".

Definition too_many (what : bytes) (n cap : nat) : bytes :=
  bs "too many " ++ what ++ bs " (" ++ show_nat n ++ bs " > " ++ show_nat cap ++ bs ")".

(** The guards on [name] and [description]; the rest of the source's function
    follows in [validate_l3_skill]. *)
Definition name_error (max : nat) (name : bytes) : option bytes :=
  if bytes_eqb name [] then Some (bs "name is empty after trim")
  else if max <? length name then Some (exceeds (bs "name") max (length name))
  else if negb (is_snake_ident name) then
    Some (bs "name '" ++ name ++ bs "' is not snake_case ([a-z][a-z0-9_]*)")
  else None.

Definition description_error (max : nat) (raw description : bytes) : option bytes :=
  if has_newline raw then Some (bs "description contains newline")
  else if bytes_eqb description [] then Some (bs "description is empty after trim")
  else if has_control description then Some (bs "description contains control character")
  else if has_reserved_tag description then Some (bs "description contains reserved tag substring")
  else if max <? length description then
    Some (exceeds (bs "description") max (length description))
  else None.

Definition validate_l3_skill (c : L3SkillCandidate) : result L3SkillCandidate L3Error :=
  let name := str_trim (l3_name c) in
  match name_error L3_MAX_NAME_BYTES name with
  | Some e => Err (Validation e)
  | None =>
  let description := str_trim (l3_description c) in
  match description_error L3_MAX_DESC_BYTES (l3_description c) description with
  | Some e => Err (Validation e)
  | None =>
  if L3_MAX_PARAMS <? length (l3_parameters c) then
    Err (Validation (too_many (bs "parameters") (length (l3_parameters c)) L3_MAX_PARAMS))
  else
  match validate_params (l3_parameters c) [] [] with
  | Err e => Err e
  | Ok (declared, norm_params) =>
  if length (l3_steps c) =? 0 then
    Err (Validation (bs "skill must have at least one step"))
  else if L3_MAX_STEPS <? length (l3_steps c) then
    Err (Validation (too_many (bs "steps") (length (l3_steps c)) L3_MAX_STEPS))
  else
  match validate_steps (l3_steps c) [] [] with
  | Err e => Err e
  | Ok (referenced, norm_steps) =>
  match difference referenced declared with
  | r :: _ => Err (Validation (bs "undeclared placeholder '" ++ r ++ bs "'"))
  | [] =>
  match difference declared referenced with
  | d :: _ => Err (Validation (bs "unused parameter '" ++ d ++ bs "'"))
  | [] =>
  let normalised := mkL3Skill name description norm_params norm_steps in
  let canonical := canonical_json normalised in
  if L3_MAX_TEMPLATE_BYTES <? length canonical then
    Err (Validation (exceeds (bs "template") L3_MAX_TEMPLATE_BYTES (length canonical)))
  else Ok normalised
  end end end end end end.

Definition compute_template_sha256 (c : L3SkillCandidate) : bytes := sha256_hex (sha256 (canonical_json c)).

(** * The approval gate (l3_approval.rs) *)

Inductive SkillTrust := Untrusted | UserApproved | Pinned.

Definition trust_str (t : SkillTrust) : bytes :=
  match t with
  | Untrusted => bs "untrusted"
  | UserApproved => bs "user_approved"
  | Pinned => bs "pinned"
  end.

Definition from_metadata_str (s : bytes) : SkillTrust :=
  if bytes_eqb s (bs "user_approved") then UserApproved
  else if bytes_eqb s (bs "pinned") then Pinned
  else Untrusted.

Fixpoint scan_secret_refs (v : Value) : list bytes :=
  match v with
  | String s => if starts_with REF_PREFIX s then [s] else []
  | Array l => flat_map scan_secret_refs l
  | Object m => flat_map (fun kv => scan_secret_refs kv.2) m
  | _ => []
  end.

Definition extract_tool_names (payload : Value) : list bytes :=
  match get (bs "tools") payload ≫= as_array with
  | Some arr =>
      fold_left (fun set entry =>
        match get (bs "name") entry ≫= as_str with
        | Some name => set_insert name set
        | None => set
        end) arr []
  | None => []
  end.

Inductive RejectReason :=
| StructuralInvalid (m : bytes)
| SecretRefPresent (step : nat) (found : bytes)
| UnknownTool (tool : bytes)
| NoRegistrySnapshot
| CodeSecretRef (offset : nat) (found : bytes).

Definition reject_str (r : RejectReason) : bytes :=
  match r with
  | StructuralInvalid m => bs "structural validation failed: " ++ m
  | SecretRefPresent step found =>
      bs "step " ++ show_nat step ++ bs " embeds a secret reference '" ++ found ++
      bs "' (skills must not carry baked-in secrets)"
  | UnknownTool tool => bs "tool '" ++ tool ++ bs "' is not registered by the running daemon"
  | NoRegistrySnapshot =>
      bs "no registry.loaded snapshot found; start the daemon once so the tool registry is recorded"
  | CodeSecretRef offset found =>
      bs "code embeds a secret reference '" ++ found ++ bs "' at byte offset " ++ show_nat offset ++
      bs " (skills must not carry baked-in secrets)"
  end.

Inductive ApprovalDecision := GateApprove | GateReject (reasons : list RejectReason).

Definition l3_error_str (e : L3Error) : bytes :=
  match e with
  | Validation m => bs "L3 skill validation failed: " ++ m
  | L3Db m => bs "L3 db error: " ++ m
  end.

Definition secret_reasons (steps : list L3TemplateStep) : list RejectReason :=
  concat (imap (fun i s => map (SecretRefPresent i) (scan_secret_refs (l3s_parameters s))) steps).

(** One reason per distinct unknown tool. *)
Fixpoint unknown_tools (known seen : list bytes) (steps : list L3TemplateStep) : list RejectReason :=
  match steps with
  | [] => []
  | s :: ss =>
      let tool := l3s_tool s in
      if negb (set_contains tool known) && negb (set_contains tool seen)
      then UnknownTool tool :: unknown_tools known (set_insert tool seen) ss
      else unknown_tools known seen ss
  end.

Definition evaluate_approval (template : L3SkillCandidate) (known_tools : list bytes) : ApprovalDecision :=
  match validate_l3_skill template with
  | Err e => GateReject [StructuralInvalid (l3_error_str e)]
  | Ok template =>
      match secret_reasons (l3_steps template) ++ unknown_tools known_tools [] (l3_steps template) with
      | [] => GateApprove
      | reasons => GateReject reasons
      end
  end.

(** * Invocation (l3_invoke/pure.rs) *)

Definition L3_ARG_MAX_VALUE_BYTES : nat := 1024.

Inductive InvokeError :=
| MalformedArg (tok : bytes)
| BadArgName (name : bytes)
| DuplicateArg (name : bytes)
| MissingArgs (names : bytes)
| UnknownArgs (names : bytes)
| BadArgValue (name : bytes)
| ArgValueTooLong (name : bytes) (max got : nat)
| UnsubstitutedPlaceholder (name : bytes).

Definition invoke_error_str (e : InvokeError) : bytes :=
  match e with
  | MalformedArg t => bs "argument '" ++ t ++ bs "' is not of the form name=value"
  | BadArgName n => bs "argument name '" ++ n ++ bs "' is not snake_case"
  | DuplicateArg n => bs "duplicate argument '" ++ n ++ bs "'"
  | MissingArgs n => bs "missing value for declared parameter(s): " ++ n
  | UnknownArgs n => bs "unknown argument(s) not declared by the skill: " ++ n
  | BadArgValue n =>
      bs "argument '" ++ n ++ bs "' value contains a newline, control character, or '{{' / '}}' sequence"
  | ArgValueTooLong n max got =>
      bs "argument '" ++ n ++ bs "' value exceeds " ++ show_nat max ++ bs " bytes (" ++ show_nat got ++ bs ")"
  | UnsubstitutedPlaceholder n => bs "placeholder '{{" ++ n ++ bs "}}' survived substitution (internal error)"
  end.

Fixpoint parse_args_loop (tokens : list bytes) (args : Args) : result Args InvokeError :=
  match tokens with
  | [] => Ok args
  | tok :: rest =>
      match split_once 61 tok with
      | None => Err (MalformedArg tok)
      | Some (name, value) =>
          if negb (is_snake_ident name) then Err (BadArgName name)
          else match map_get name args with
               | Some _ => Err (DuplicateArg name)
               | None => parse_args_loop rest (map_insert name value args)
               end
      end
  end.

Definition parse_args (tokens : list bytes) : result Args InvokeError := parse_args_loop tokens [].

(** A round of the loop consumes at least a byte: the length is fuel. *)
Fixpoint interpolate_loop (fuel : nat) (s : bytes) (args : Args) : bytes :=
  match fuel, s with
  | S f, c :: t =>
      let copy := c :: interpolate_loop f t args in
      match strip_prefix OPEN s with
      | Some rest =>
          match find_close rest with
          | Some (name, rest') =>
              match map_get name args with
              | Some v => v ++ interpolate_loop f rest' args
              | None => copy
              end
          | None => copy
          end
      | None => copy
      end
  | _, _ => []
  end.

Definition interpolate (s : bytes) (args : Args) : bytes := interpolate_loop (length s) s args.

Fixpoint interpolate_value (args : Args) (v : Value) : Value :=
  match v with
  | String s => String (interpolate s args)
  | Array l => Array (map (interpolate_value args) l)
  | Object m => object (map (fun kv => (kv.1, interpolate_value args kv.2)) m)
  | other => other
  end.

Fixpoint placeholder_in (s : bytes) : option bytes :=
  match s with
  | [] => None
  | _ :: t =>
      match strip_prefix OPEN s ≫= find_close with
      | Some (name, _) => Some name
      | None => placeholder_in t
      end
  end.

(** [Iterator::find_map] *)
Definition find_map {A B} (f : A -> option B) : list A -> option B :=
  fix go l := match l with [] => None | x :: t => match f x with Some b => Some b | None => go t end end.

Fixpoint has_placeholder (v : Value) : option bytes :=
  match v with
  | String s => placeholder_in s
  | Array l => find_map has_placeholder l
  | Object m => find_map (fun kv => has_placeholder kv.2) m
  | _ => None
  end.

Fixpoint arg_error (args : Args) : option InvokeError :=
  match args with
  | [] => None
  | (name, value) :: rest =>
      if L3_ARG_MAX_VALUE_BYTES <? length value then
        Some (ArgValueTooLong name L3_ARG_MAX_VALUE_BYTES (length value))
      else if has_control value || contains OPEN value || contains CLOSE value then Some (BadArgValue name)
      else arg_error rest
  end.

Fixpoint substitute_steps (args : Args) (steps : list L3TemplateStep) : result (list L3TemplateStep) InvokeError :=
  match steps with
  | [] => Ok []
  | s :: ss =>
      let parameters := interpolate_value args (l3s_parameters s) in
      match has_placeholder parameters with
      | Some name => Err (UnsubstitutedPlaceholder name)
      | None =>
          match substitute_steps args ss with
          | Ok out => Ok (mkL3Step (l3s_tool s) (l3s_method s) parameters :: out)
          | Err e => Err e
          end
      end
  end.

Definition substitute_template (template : L3SkillCandidate) (args : Args) :
    result (list L3TemplateStep) InvokeError :=
  let declared := to_set (l3p_name <$> l3_parameters template) in
  let supplied := to_set args.*1 in
  match difference declared supplied with
  | (_ :: _) as missing => Err (MissingArgs (join (bs ", ") missing))
  | [] =>
      match difference supplied declared with
      | (_ :: _) as unknown => Err (UnknownArgs (join (bs ", ") unknown))
      | [] =>
          match arg_error args with
          | Some e => Err e
          | None => substitute_steps args (l3_steps template)
          end
      end
  end.

Definition is_runnable (t : SkillTrust) : bool := match t with Untrusted => false | _ => true end.

Definition is_autonomously_invocable (t : SkillTrust) : bool := match t with Pinned => true | _ => false end.

Definition planned_step_from_l3_with_class (s : L3TemplateStep) (class : DataClass) : PlannedStep :=
  mkStep (l3s_tool s) (l3s_method s) (l3s_parameters s) [] [] class.

Definition planned_step_from_l3 (s : L3TemplateStep) : PlannedStep := planned_step_from_l3_with_class s Secret.

(** [InvokeRefusal] is its list of reasons. *)
Definition prepare_invocation (template : L3SkillCandidate) (stored_trust : SkillTrust) (args : Args)
    (live_tools : list bytes) : result (list L3TemplateStep) (list bytes) :=
  if negb (is_runnable stored_trust) then
    Err [bs "skill trust '" ++ trust_str stored_trust ++ bs "' is not runnable (only user_approved / pinned)"]
  else
    match evaluate_approval template live_tools with
    | GateReject reasons => Err (map reject_str reasons)
    | GateApprove =>
        match substitute_template template args with
        | Ok steps => Ok steps
        | Err e => Err [invoke_error_str e]
        end
    end.

(** * The agent's door (l3_invoke/agent.rs) *)

Definition expand_for_agent (template : L3SkillCandidate) (stored_trust : SkillTrust) (args : Args)
    (live_tools : list bytes) (data_ceiling : DataClass) : result (list PlannedStep) (list bytes) :=
  if negb (is_autonomously_invocable stored_trust) then
    Err [bs "skill trust '" ++ trust_str stored_trust ++
         bs "' is not autonomously invocable (agent may invoke only pinned skills)"]
  else
    match prepare_invocation template stored_trust args live_tools with
    | Err reasons => Err reasons
    | Ok concrete => Ok (map (fun s => planned_step_from_l3_with_class s data_ceiling) concrete)
    end.

(** * Reference semantics *)

(** A template string as the literal bytes and the holes it is made of, read
    once and before any argument is known. *)
Inductive Seg := Lit (c : Z) | Hole (n : bytes).

Fixpoint segments_loop (fuel : nat) (s : bytes) : list Seg :=
  match fuel, s with
  | S f, c :: t =>
      match strip_prefix OPEN s ≫= find_close with
      | Some (n, rest) => Hole n :: segments_loop f rest
      | None => Lit c :: segments_loop f t
      end
  | _, _ => []
  end.

Definition segments (s : bytes) : list Seg := segments_loop (length s) s.

Definition render (g : Seg) : bytes := match g with Lit c => [c] | Hole n => OPEN ++ n ++ CLOSE end.

Definition fill (args : Args) (g : Seg) : bytes :=
  match g with Lit c => [c] | Hole n => default (OPEN ++ n ++ CLOSE) (map_get n args) end.

(** Every string leaf rewritten, everything else kept. *)
Fixpoint map_leaves (f : bytes -> bytes) (v : Value) : Value :=
  match v with
  | String s => String (f s)
  | Array l => Array (map (map_leaves f) l)
  | Object m => Object (map (fun kv => (kv.1, map_leaves f kv.2)) m)
  | other => other
  end.

Fixpoint leaves (v : Value) : list bytes :=
  match v with
  | String s => [s]
  | Array l => flat_map leaves l
  | Object m => flat_map (fun kv => leaves kv.2) m
  | _ => []
  end.

Definition fill_value (args : Args) (v : Value) : Value :=
  map_leaves (fun s => flat_map (fill args) (segments s)) v.

(** The holes of a template's steps. *)
Definition holes (v : Value) : list Seg := flat_map segments (leaves v).

(** What validation stores: every field trimmed, the parameters verbatim. *)
Definition trim_param (p : L3Param) : L3Param :=
  mkL3Param (str_trim (l3p_name p)) (str_trim (l3p_description p)).

Definition trim_step (s : L3TemplateStep) : L3TemplateStep :=
  mkL3Step (str_trim (l3s_tool s)) (str_trim (l3s_method s)) (l3s_parameters s).

Definition trim_skill (c : L3SkillCandidate) : L3SkillCandidate :=
  mkL3Skill (str_trim (l3_name c)) (str_trim (l3_description c))
    (trim_param <$> l3_parameters c) (trim_step <$> l3_steps c).

(** * Lemmas *)

Lemma set_insert_elem k s x : x ∈ set_insert k s <-> x = k \/ x ∈ s.
Proof.
  induction s as [|y s IH]; simpl; [set_solver|].
  destruct (bytes_eqb k y) eqn:E; [apply bytes_eqb_eq in E as ->; set_solver|].
  destruct (bytes_ltb k y); set_solver.
Qed.

Lemma set_contains_true k s : set_contains k s = true <-> k ∈ s.
Proof.
  unfold set_contains. rewrite existsb_exists. setoid_rewrite bytes_eqb_eq.
  setoid_rewrite <- list_elem_of_In. naive_solver.
Qed.

Lemma set_contains_false k s : set_contains k s = false <-> k ∉ s.
Proof. rewrite <- set_contains_true. by destruct (set_contains k s). Qed.

Lemma to_set_elem l x : x ∈ to_set l <-> x ∈ l.
Proof.
  unfold to_set. trans (x ∈ @nil bytes \/ x ∈ l); [|set_solver]. generalize (@nil bytes) as s.
  induction l as [|k l IH]; intros s; simpl; [set_solver|]. rewrite IH, set_insert_elem. set_solver.
Qed.

Lemma difference_nil a b : difference a b = [] <-> forall x, x ∈ a -> x ∈ b.
Proof.
  unfold difference. induction a as [|k a IH]; simpl; [set_solver|].
  destruct (set_contains k b) eqn:E; simpl.
  - apply set_contains_true in E. rewrite IH. set_solver.
  - apply set_contains_false in E. split; [done|]. intros Hs. destruct E. set_solver.
Qed.

(** ** Validation is a normal form *)

Lemma validate_params_trim ps d n : validate_params (trim_param <$> ps) d n = validate_params ps d n.
Proof.
  revert d n. induction ps as [|p ps IH]; intros d n; [done|]. cbn [validate_params fmap list_fmap trim_param l3p_name l3p_description].
  rewrite !str_trim_idem. by setoid_rewrite IH.
Qed.

Lemma validate_params_norm ps d n d' n' :
  validate_params ps d n = Ok (d', n') ->
  n' = n ++ (trim_param <$> ps) /\ (forall x, x ∈ d' <-> x ∈ d \/ x ∈ l3p_name <$> (trim_param <$> ps)).
Proof.
  revert d n. induction ps as [|p ps IH]; intros d n; cbn [validate_params].
  { intros [= <- <-]. rewrite app_nil_r. set_solver. }
  repeat case_match; try discriminate. intros Hv. apply IH in Hv as [-> Hd].
  split; [by rewrite <- app_assoc|]. intros x. rewrite Hd, set_insert_elem. csimpl. set_solver.
Qed.

Lemma validate_steps_trim ss r n : validate_steps (trim_step <$> ss) r n = validate_steps ss r n.
Proof.
  revert r n. induction ss as [|s ss IH]; intros r n; [done|].
  cbn [validate_steps fmap list_fmap trim_step l3s_tool l3s_method l3s_parameters].
  rewrite !str_trim_idem. repeat case_match; done.
Qed.

(** ** Placeholders *)

Lemma find_close_Some s n r : find_close s = Some (n, r) -> s = n ++ CLOSE ++ r.
Proof.
  revert n. induction s as [|c t IH]; intros n; cbn [find_close]; [done|].
  destruct (strip_prefix CLOSE (c :: t)) as [rest|] eqn:E.
  - intros [= <- <-]. by apply strip_prefix_Some in E.
  - destruct (find_close t) as [[a r']|]; [|done]. intros [= <- <-]. simpl. f_equal. by apply IH.
Qed.

Lemma find_close_length s n r : find_close s = Some (n, r) -> length r < length s.
Proof. intros ->%find_close_Some. unfold CLOSE. cbn [bs]. len_lia. Qed.

Lemma find_close_app n r : find_close (n ++ CLOSE ++ r) <> None.
Proof.
  induction n as [|c n IH]; [cbn [app]; by cbn|]. cbn [app find_close].
  destruct (strip_prefix CLOSE (c :: n ++ CLOSE ++ r)); [done|]. by destruct (find_close (n ++ CLOSE ++ r)) as [[??]|].
Qed.

Lemma strip_open_length s r : strip_prefix OPEN s = Some r -> length r + 2 = length s.
Proof. intros ->%strip_prefix_Some. unfold OPEN. cbn [bs]. len_lia. Qed.

(** Facts on how much the loops consume. *)
Ltac consume :=
  repeat match goal with
         | H : strip_prefix OPEN _ = Some _ |- _ => apply strip_open_length in H
         | H : find_close _ = Some _ |- _ => apply find_close_length in H
         end; simpl in *; lia.

Lemma interpolate_loop_fuel f g s args :
  length s <= f -> length s <= g -> interpolate_loop f s args = interpolate_loop g s args.
Proof.
  revert g s. induction f as [|f IH]; intros g [|c t] Hf Hg; try (simpl in *; lia); [by destruct g..|].
  destruct g as [|g]; [simpl in *; lia|]. cbn [interpolate_loop].
  assert (Ht : interpolate_loop f t args = interpolate_loop g t args) by (apply IH; simpl in *; lia).
  rewrite Ht. destruct (strip_prefix OPEN (c :: t)) as [rest|] eqn:E; [|done].
  destruct (find_close rest) as [[n r]|] eqn:E2; [|done]. destruct (map_get n args); [|done].
  f_equal. apply IH; consume.
Qed.

Lemma segments_loop_fuel f g s : length s <= f -> length s <= g -> segments_loop f s = segments_loop g s.
Proof.
  revert g s. induction f as [|f IH]; intros g [|c t] Hf Hg; try (simpl in *; lia); [by destruct g..|].
  destruct g as [|g]; [simpl in *; lia|]. cbn [segments_loop].
  destruct (strip_prefix OPEN (c :: t)) as [rest|] eqn:E; cbn [mbind option_bind];
    [destruct (find_close rest) as [[n r]|] eqn:E2|]; f_equal; apply IH; consume.
Qed.

Lemma segments_hole s rest n r :
  strip_prefix OPEN s = Some rest -> find_close rest = Some (n, r) -> segments s = Hole n :: segments r.
Proof.
  intros E E2. unfold segments. destruct s as [|c t]; [done|]. cbn [length segments_loop].
  rewrite E. cbn [mbind option_bind]. rewrite E2. f_equal. apply segments_loop_fuel; consume.
Qed.

Lemma segments_lit c t :
  strip_prefix OPEN (c :: t) ≫= find_close = None -> segments (c :: t) = Lit c :: segments t.
Proof. intros E. unfold segments. cbn [length segments_loop]. by rewrite E. Qed.

Lemma interpolate_hole s rest n r v args :
  strip_prefix OPEN s = Some rest -> find_close rest = Some (n, r) -> map_get n args = Some v ->
  interpolate s args = v ++ interpolate r args.
Proof.
  intros E E2 E3. unfold interpolate. destruct s as [|c t]; [done|]. cbn [length interpolate_loop].
  rewrite E, E2, E3. f_equal. apply interpolate_loop_fuel; consume.
Qed.

Lemma interpolate_lit c t args :
  (forall rest n r, strip_prefix OPEN (c :: t) = Some rest -> find_close rest = Some (n, r) -> map_get n args = None) ->
  interpolate (c :: t) args = c :: interpolate t args.
Proof.
  intros E. unfold interpolate. cbn [length interpolate_loop].
  destruct (strip_prefix OPEN (c :: t)) as [rest|] eqn:E1; [|done].
  destruct (find_close rest) as [[n r]|] eqn:E2; [|done]. by rewrite (E rest n r).
Qed.

(** Text without an opening brace is copied. *)
Lemma interpolate_copy p s args : 123%Z ∉ p -> interpolate (p ++ s) args = p ++ interpolate s args.
Proof.
  induction p as [|c p IH]; intros Hp; [done|]. apply not_elem_of_cons in Hp as [Hc Hp]. simpl.
  rewrite interpolate_lit, IH; [done..|]. intros rest n r E.
  apply strip_prefix_Some in E. unfold OPEN in E. cbn [bs] in E. injection E as Hc' _. by subst c.
Qed.

Lemma snake_no_brace n : is_snake_ident n = true -> 123%Z ∉ n /\ 125%Z ∉ n.
Proof.
  destruct n as [|c t]; [done|]. cbn [is_snake_ident]. rewrite andb_true_iff, forallb_forall.
  setoid_rewrite <- list_elem_of_In. unfold is_lower, is_digit. intros [Hc Ht].
  split; (rewrite not_elem_of_cons; split; [lia|]); intros Hin; apply Ht in Hin; lia.
Qed.

Lemma find_close_snake n r : 125%Z ∉ n -> find_close (n ++ CLOSE ++ r) = Some (n, r).
Proof.
  induction n as [|c n IH]; intros Hn; [done|]. apply not_elem_of_cons in Hn as [Hc Hn]. cbn [app find_close].
  destruct (strip_prefix CLOSE (c :: n ++ CLOSE ++ r)) as [x|] eqn:E; [|by rewrite IH].
  apply strip_prefix_Some in E. unfold CLOSE in E. cbn [bs] in E. injection E as Hc' _. by subst c.
Qed.

Lemma strip_open c t : (exists r, strip_prefix OPEN (c :: t) = Some r) <-> c = 123%Z /\ head t = Some 123%Z.
Proof.
  setoid_rewrite strip_prefix_Some. change OPEN with [123%Z; 123%Z]. cbn [app].
  split.
  - intros [r [= -> ->]]. done.
  - intros [-> Ht]. destruct t as [|d t]; [done|]. injection Ht as ->. by exists t.
Qed.

Lemma contains_open_cons c t :
  contains OPEN (c :: t) = false <-> ~ (c = 123%Z /\ head t = Some 123%Z) /\ contains OPEN t = false.
Proof.
  cbn [contains]. rewrite orb_false_iff, <- strip_open. unfold starts_with.
  destruct (strip_prefix OPEN (c :: t)) eqn:E; naive_solver.
Qed.

Lemma contains_open_app v t : 123%Z ∉ v -> contains OPEN t = false -> contains OPEN (v ++ t) = false.
Proof.
  induction v as [|c v IH]; intros Hv Ht; [done|]. apply not_elem_of_cons in Hv as [Hc Hv]. simpl.
  apply contains_open_cons. split; [naive_solver|by apply IH].
Qed.

Lemma placeholder_in_clean s : contains OPEN s = false -> placeholder_in s = None.
Proof.
  induction s as [|c t IH]; [done|]. intros Hs. apply contains_open_cons in Hs as [Hn Ht].
  cbn [placeholder_in]. destruct (strip_prefix OPEN (c :: t)) eqn:E; [|by apply IH].
  destruct Hn. apply strip_open. by eexists.
Qed.

Lemma scan_loop_clean f s out out' args :
  length s <= f -> scan_loop f s out = Ok out' ->
  (forall n v, map_get n args = Some v -> 123%Z ∉ v) -> (forall n, Hole n ∈ segments s -> is_Some (map_get n args)) ->
  contains OPEN (interpolate s args) = false.
Proof.
  revert s out. induction f as [|f IH]; intros [|c t] out Hf; cbn [scan_loop]; try (simpl in Hf; lia); [done..|].
  intros Hs Hv Hh. destruct (strip_prefix OPEN (c :: t)) as [rest|] eqn:E.
  - destruct (find_close rest) as [[n r]|] eqn:E2; [|done]. destruct (is_snake_ident n); [|done].
    rewrite (segments_hole _ _ _ _ E E2) in Hh. destruct (Hh n) as [v Ev]; [left|].
    rewrite (interpolate_hole _ _ _ _ _ _ E E2 Ev). apply contains_open_app; [by eapply Hv|].
    eapply IH; [|exact Hs|done|]; [consume|]. intros m Hm. apply Hh. by right.
  - rewrite segments_lit in Hh by (by rewrite E). rewrite interpolate_lit by (intros ???; by rewrite E).
    apply contains_open_cons. split.
    + intros [-> Hhd]. destruct t as [|d t]; [done|]. destruct (decide (d = 123%Z)) as [->|Hd]; [done|].
      change (d :: t) with ([d] ++ t) in Hhd. rewrite interpolate_copy in Hhd by set_solver.
      simpl in Hhd. naive_solver.
    + eapply IH; [|exact Hs|done|]; [simpl in *; lia|]. intros m Hm. apply Hh. by right.
Qed.

Definition seg_ok (g : Seg) : Prop := match g with Lit _ => True | Hole n => is_snake_ident n = true end.

Lemma scan_loop_fill f s out out' :
  length s <= f -> scan_loop f s out = Ok out' ->
  Forall seg_ok (segments s) /\
  (forall args, interpolate s args = flat_map (fill args) (segments s)) /\
  (forall x, x ∈ out' <-> x ∈ out \/ Hole x ∈ segments s).
Proof.
  revert s out. induction f as [|f IH]; intros [|c t] out Hf; cbn [scan_loop]; try (simpl in Hf; lia);
    [intros [= ->]; split_and!; [done..|set_solver]..|].
  destruct (strip_prefix OPEN (c :: t)) as [rest|] eqn:E.
  - destruct (find_close rest) as [[n r]|] eqn:E2; [|done].
    destruct (is_snake_ident n) eqn:En; [|done]. intros Hr.
    apply IH in Hr as (Hh & Hfl & Hx); [|consume]. pose proof (segments_hole _ _ _ _ E E2) as Hs.
    rewrite Hs. split_and!.
    + by constructor.
    + intros args. cbn [flat_map fill]. rewrite <- Hfl. destruct (map_get n args) as [v|] eqn:Ea; cbn [default from_option].
      { by apply (interpolate_hole _ rest n). }
      apply snake_no_brace in En as [Ho Hc]. apply strip_prefix_Some in E as ->. apply find_close_Some in E2 as ->.
      change (OPEN ++ n ++ CLOSE ++ r) with (123%Z :: 123%Z :: n ++ CLOSE ++ r).
      rewrite (interpolate_lit 123%Z), (interpolate_lit 123%Z), interpolate_copy, interpolate_copy.
      * by rewrite <- !app_assoc.
      * apply (bool_decide_unpack _). by vm_compute.
      * done.
      * intros rest n' r' E3. apply strip_prefix_Some in E3. unfold OPEN in E3. cbn [bs] in E3.
        destruct n as [|x n]; [done|]. injection E3 as Ex _. subst x. by destruct Ho; left.
      * intros rest n' r' E3 E4. replace rest with (n ++ CLOSE ++ r) in E4.
        { rewrite find_close_snake in E4 by done. by injection E4 as <- _. }
        apply strip_prefix_Some in E3. unfold OPEN in E3. cbn [bs] in E3. by injection E3.
    + intros x. rewrite Hx, set_insert_elem. set_solver.
  - intros Hr. apply IH in Hr as (Hh & Hfl & Hx); [|simpl in *; lia].
    assert (Hs : segments (c :: t) = Lit c :: segments t) by (apply segments_lit; by rewrite E).
    rewrite Hs. split_and!.
    + by constructor.
    + intros args. cbn [flat_map fill app]. rewrite <- Hfl. apply interpolate_lit. intros ???. by rewrite E.
    + intros x. rewrite Hx. set_solver.
Qed.

(** A string the validator accepts: its holes are identifiers, and filling it is
    filling its segments. *)
Record scanned (s : bytes) : Prop := {
  scanned_holes : Forall seg_ok (segments s);
  scanned_fill : forall args, interpolate s args = flat_map (fill args) (segments s);
  scanned_clean : forall args,
    (forall n v, map_get n args = Some v -> 123%Z ∉ v) -> (forall n, Hole n ∈ segments s -> is_Some (map_get n args)) ->
    contains OPEN (interpolate s args) = false }.

Lemma scan_placeholders_spec f s out out' :
  length s <= f -> scan_loop f s out = Ok out' ->
  scanned s /\ (forall x, x ∈ out' <-> x ∈ out \/ Hole x ∈ segments s).
Proof.
  intros Hf Hs. destruct (scan_loop_fill _ _ _ _ Hf Hs) as (Hh & Hfl & Hx).
  split; [split; [done..|]|done]. intros args. by eapply scan_loop_clean.
Qed.

Lemma scan_items_spec {A} (f : A -> list bytes -> result (list bytes) L3Error) (g : A -> list bytes) l out out' :
  Forall (fun a => forall out out', f a out = Ok out' ->
            Forall scanned (g a) /\ (forall x, x ∈ out' <-> x ∈ out \/ Hole x ∈ flat_map segments (g a))) l ->
  scan_items f l out = Ok out' ->
  Forall scanned (flat_map g l) /\ (forall x, x ∈ out' <-> x ∈ out \/ Hole x ∈ flat_map segments (flat_map g l)).
Proof.
  intros Hf. revert out. induction Hf as [|a l Ha Hl IH]; intros out; simpl; [intros [= ->]; set_solver|].
  destruct (f a out) as [o|] eqn:E; [|done]. intros Hr. apply Ha in E as [Hs1 H1]. apply IH in Hr as [Hs2 H2].
  split; [by apply Forall_app|]. intros x. rewrite H2, H1, flat_map_app. set_solver.
Qed.

Lemma collect_spec v out out' : collect_placeholders v out = Ok out' ->
  Forall scanned (leaves v) /\ (forall x, x ∈ out' <-> x ∈ out \/ Hole x ∈ holes v).
Proof.
  revert out out'. unfold holes.
  induction v as [|b|n|s|l IH|m IH] using Value_ind'; intros out out'; cbn [collect_placeholders leaves];
    try (intros [= ->]; set_solver).
  - intros Hs. apply scan_placeholders_spec in Hs as [H1 H2]; [|done]. split; [by apply Forall_singleton|].
    simpl. by rewrite app_nil_r.
  - apply (scan_items_spec collect_placeholders leaves). exact IH.
  - apply (scan_items_spec (fun kv => collect_placeholders kv.2) (fun kv => leaves kv.2)). exact IH.
Qed.

(** What an accepted step satisfies. *)
Definition step_ok (s : L3TemplateStep) : Prop :=
  is_tool_ident (str_trim (l3s_tool s)) = true /\ is_tool_ident (str_trim (l3s_method s)) = true /\
  is_object (l3s_parameters s) = true /\ Forall scanned (leaves (l3s_parameters s)).

Lemma validate_steps_norm ss r n r' n' :
  validate_steps ss r n = Ok (r', n') ->
  n' = n ++ (trim_step <$> ss) /\ Forall step_ok ss /\
  (forall x, x ∈ r' <-> x ∈ r \/ exists s, s ∈ ss /\ Hole x ∈ holes (l3s_parameters s)).
Proof.
  revert r n. induction ss as [|s ss IH]; intros r n; cbn [validate_steps].
  { intros [= <- <-]. rewrite app_nil_r. set_solver. }
  destruct ((_ <? length (str_trim (l3s_tool s))) || _) eqn:E1; [done|].
  destruct ((_ <? length (str_trim (l3s_method s))) || _) eqn:E2; [done|].
  destruct (is_object (l3s_parameters s)) eqn:E3; [|done]. simpl.
  destruct (collect_placeholders _ r) as [r1|] eqn:E4; [|done]. intros Hv.
  apply IH in Hv as (-> & Hok & Hx). apply collect_spec in E4 as [Hs Hr].
  apply orb_false_iff in E1 as [_ E1%negb_false_iff]. apply orb_false_iff in E2 as [_ E2%negb_false_iff].
  split; [by rewrite <- app_assoc|]. split; [by constructor|].
  intros x. rewrite Hx, Hr. set_solver.
Qed.

Lemma has_newline_trim s : has_newline s = false -> has_newline (str_trim s) = false.
Proof.
  destruct (str_trim_infix s) as (a & b & E). unfold has_newline. rewrite E at 1. rewrite !existsb_app.
  rewrite !orb_false_iff. by intros (_ & ? & _).
Qed.

Lemma trim_skill_idem c : trim_skill (trim_skill c) = trim_skill c.
Proof.
  unfold trim_skill. simpl. rewrite !str_trim_idem, <- !list_fmap_compose. f_equal.
  - apply list_fmap_ext. intros _ [n d] _. unfold trim_param. simpl. by rewrite !str_trim_idem.
  - apply list_fmap_ext. intros _ [t m p] _. unfold trim_step. simpl. by rewrite !str_trim_idem.
Qed.

(** The closed world of placeholders: the declared names are the holes. *)
Definition closed_world (c : L3SkillCandidate) : Prop :=
  forall x, x ∈ l3p_name <$> l3_parameters c <-> exists s, s ∈ l3_steps c /\ Hole x ∈ holes (l3s_parameters s).

Lemma validate_norm c c' : validate_l3_skill c = Ok c' ->
  c' = trim_skill c /\ Forall step_ok (l3_steps c) /\ closed_world c' /\ validate_l3_skill c' = Ok c'.
Proof.
  unfold validate_l3_skill at 1. intros Hv.
  destruct (name_error _ _) as [|] eqn:En in Hv; [done|].
  destruct (description_error _ _ _) as [|] eqn:Ed in Hv; [done|].
  destruct (_ <? length (l3_parameters c)) eqn:Ep in Hv; [done|].
  destruct (validate_params _ _ _) as [[d np]|] eqn:Evp in Hv; [|done].
  destruct (length (l3_steps c) =? 0) eqn:E0 in Hv; [done|].
  destruct (_ <? length (l3_steps c)) eqn:Es in Hv; [done|].
  destruct (validate_steps _ _ _) as [[r ns]|] eqn:Evs in Hv; [|done].
  destruct (difference r d) as [|] eqn:E1 in Hv; [|done].
  destruct (difference d r) as [|] eqn:E2 in Hv; [|done].
  destruct (_ <? length _) eqn:Et in Hv; [done|]. injection Hv as <-.
  pose proof (validate_params_norm _ _ _ _ _ Evp) as [Hnp Hd].
  pose proof (validate_steps_norm _ _ _ _ _ Evs) as (Hns & Hok & Hr). simpl in Hnp, Hns. subst np ns.
  repeat split.
  - done.
  - cbn [l3_parameters l3_steps]. intros Hx.
    assert (Hin : x ∈ r) by (apply (proj1 (difference_nil d r) E2), Hd; by right).
    apply Hr in Hin as [Hin | (s & Hin & Hh)]; [set_solver|]. exists (trim_step s).
    split; [by apply list_elem_of_fmap_2|done].
  - cbn [l3_parameters l3_steps]. intros (s & Hin & Hh). apply list_elem_of_fmap in Hin as (s' & -> & Hin).
    assert (Hx : x ∈ d) by (apply (proj1 (difference_nil r d) E1), Hr; right; by exists s').
    apply Hd in Hx as [Hx|Hx]; [set_solver|done].
  - unfold validate_l3_skill. cbn [l3_name l3_description l3_parameters l3_steps].
    rewrite !str_trim_idem, En, !length_fmap, Ep, E0, Es, validate_params_trim, Evp, validate_steps_trim, Evs, E1, E2, Et.
    replace (description_error _ _ _) with (@None bytes); [done|].
    symmetry. revert Ed. unfold description_error. destruct (has_newline (l3_description c)) eqn:Enl; [done|].
    by rewrite (has_newline_trim _ Enl).
Qed.

(** ** The gate *)

Lemma unknown_tools_nil known seen ss :
  unknown_tools known seen ss = [] <-> Forall (fun s => l3s_tool s ∈ known \/ l3s_tool s ∈ seen) ss.
Proof.
  revert seen. induction ss as [|s ss IH]; intros seen; cbn [unknown_tools]; [done|].
  rewrite Forall_cons. destruct (set_contains (l3s_tool s) known) eqn:E1; simpl.
  { apply set_contains_true in E1. rewrite IH. tauto. }
  destruct (set_contains (l3s_tool s) seen) eqn:E2; simpl.
  { apply set_contains_true in E2. rewrite IH. tauto. }
  apply set_contains_false in E1, E2. split; [done|]. tauto.
Qed.

Lemma secret_reasons_nil ss :
  secret_reasons ss = [] <-> Forall (fun s => scan_secret_refs (l3s_parameters s) = []) ss.
Proof.
  unfold secret_reasons. rewrite concat_nil_Forall, Forall_lookup, Forall_lookup.
  setoid_rewrite list_lookup_imap_Some. split.
  - intros Hn i s Hs. specialize (Hn i _ (ex_intro _ s (conj Hs eq_refl))). by apply map_eq_nil in Hn.
  - intros Hn i x (s & Hs & ->). by rewrite (Hn i s Hs).
Qed.

Lemma evaluate_approval_Approve t known : evaluate_approval t known = GateApprove <->
  exists n, validate_l3_skill t = Ok n /\
    Forall (fun s => scan_secret_refs (l3s_parameters s) = []) (l3_steps n) /\
    Forall (fun s => l3s_tool s ∈ known) (l3_steps n).
Proof.
  unfold evaluate_approval. destruct (validate_l3_skill t) as [n|e]; [|naive_solver].
  destruct (_ ++ _) as [|r rs] eqn:E.
  - apply app_eq_nil in E as [E1 E2]. rewrite secret_reasons_nil in E1. rewrite unknown_tools_nil in E2.
    split; [|done]. intros _. exists n. split_and!; [done..|].
    eapply list.Forall_impl; [exact E2|]. set_solver.
  - split; [done|]. intros (n' & [= <-] & H1 & H2). apply secret_reasons_nil in H1. rewrite H1 in E.
    assert (Hu : unknown_tools known [] (l3_steps n) = []).
    { apply unknown_tools_nil. eapply list.Forall_impl; [exact H2|]. auto. }
    by rewrite Hu in E.
Qed.

(** ** Filling *)

Lemma leaves_map f v : leaves (map_leaves f v) = f <$> leaves v.
Proof.
  induction v as [| | |s|l IH|m IH] using Value_ind'; simpl; try done.
  - induction IH as [|v l Hv Hl IHl]; simpl; [done|]. by rewrite Hv, fmap_app, IHl.
  - induction IH as [|[k v] l Hv Hl IHl]; simpl in *; [done|]. by rewrite Hv, fmap_app, IHl.
Qed.

Lemma map_leaves_ext f g v : Forall (fun s => f s = g s) (leaves v) -> map_leaves f v = map_leaves g v.
Proof.
  induction v as [| | |s|l IH|m IH] using Value_ind'; simpl; intros Hf; try done.
  - rewrite Forall_singleton in Hf. by rewrite Hf.
  - f_equal. induction IH as [|v l Hv Hl IHl]; simpl in *; [done|].
    apply Forall_app in Hf as [H1 H2]. f_equal; auto.
  - f_equal. induction IH as [|[k v] l Hv Hl IHl]; simpl in *; [done|].
    apply Forall_app in Hf as [H1 H2]. f_equal; [f_equal|]; auto.
Qed.

(** Only the string leaves change: argument values add no key and no element. *)
Lemma interpolate_value_leaves args v :
  canonical v = true -> interpolate_value args v = map_leaves (fun s => interpolate s args) v.
Proof.
  induction v as [| | |s|l IH|m IH] using Value_ind'; simpl; intros Hc; try done.
  - f_equal. induction IH as [|v l Hv Hl IHl]; simpl in *; [done|].
    apply andb_true_iff in Hc as [H1 H2]. f_equal; auto.
  - apply andb_true_iff in Hc as [Hk Hc]. rewrite object_sorted.
    + f_equal. clear Hk. induction IH as [|[k v] l Hv Hl IHl]; simpl in *; [done|].
      apply andb_true_iff in Hc as [H1 H2]. f_equal; [f_equal|]; auto.
    + rewrite <- Hk. f_equal. clear. induction m as [|[k v] m IH]; csimpl; congruence.
Qed.

Lemma interpolate_value_fill args v :
  canonical v = true -> Forall scanned (leaves v) -> interpolate_value args v = fill_value args v.
Proof.
  intros Hc Hs. rewrite interpolate_value_leaves by done. apply map_leaves_ext.
  eapply list.Forall_impl; [exact Hs|]. intros s [_ Hf]. apply Hf.
Qed.

Lemma find_map_None {A B} (f : A -> option B) l : find_map f l = None <-> Forall (fun a => f a = None) l.
Proof.
  induction l as [|a l IH]; simpl; [done|]. rewrite Forall_cons. destruct (f a); [naive_solver|]. rewrite IH. tauto.
Qed.

Lemma has_placeholder_None v : has_placeholder v = None <-> Forall (fun s => placeholder_in s = None) (leaves v).
Proof.
  induction v as [| | |s|l IH|m IH] using Value_ind'; cbn [has_placeholder leaves]; try done.
  - by rewrite Forall_singleton.
  - rewrite find_map_None. induction IH as [|v l Hv Hl IHl]; simpl; [done|].
    by rewrite Forall_cons, Forall_app, Hv, IHl.
  - rewrite find_map_None. induction IH as [|[k v] l Hv Hl IHl]; simpl in *; [done|].
    by rewrite Forall_cons, Forall_app, Hv, IHl.
Qed.

(** The final check sees every placeholder. *)
Lemma placeholder_in_app a n b : placeholder_in (a ++ OPEN ++ n ++ CLOSE ++ b) <> None.
Proof.
  induction a as [|c a IH].
  - change (placeholder_in (123%Z :: 123%Z :: n ++ CLOSE ++ b) <> None). cbn [placeholder_in].
    change (strip_prefix OPEN (123%Z :: 123%Z :: n ++ CLOSE ++ b)) with (Some (n ++ CLOSE ++ b)).
    cbn [mbind option_bind]. pose proof (find_close_app n b). by destruct (find_close _) as [[??]|].
  - cbn [app placeholder_in]. by destruct (strip_prefix OPEN _ ≫= _) as [[??]|].
Qed.

Lemma placeholder_free_fill args gs n :
  placeholder_in (flat_map (fill args) gs) = None -> Hole n ∈ gs -> is_Some (map_get n args).
Proof.
  intros Hp Hn. apply list_elem_of_split in Hn as (g1 & g2 & ->). rewrite flat_map_app in Hp. cbn [flat_map fill] in Hp.
  destruct (map_get n args); [by eexists|]. cbn [default from_option] in Hp.
  rewrite <- !app_assoc in Hp. by apply placeholder_in_app in Hp.
Qed.

(** ** Substitution *)

Definition filled_step (args : Args) (s : L3TemplateStep) : L3TemplateStep :=
  mkL3Step (l3s_tool s) (l3s_method s) (interpolate_value args (l3s_parameters s)).

Lemma substitute_steps_Ok args ss out : substitute_steps args ss = Ok out <->
  out = filled_step args <$> ss /\
  Forall (fun s => has_placeholder (interpolate_value args (l3s_parameters s)) = None) ss.
Proof.
  revert out. induction ss as [|s ss IH]; intros out; cbn [substitute_steps]; [naive_solver|].
  rewrite Forall_cons. destruct (has_placeholder _) eqn:E; [naive_solver|].
  destruct (substitute_steps args ss) as [o|e].
  - destruct (proj1 (IH o) eq_refl) as [-> Hp]. split; [by intros [= <-]|by intros [-> _]].
  - split; [done|]. intros [_ [_ Hp]]. discriminate (proj2 (IH _) (conj eq_refl Hp)).
Qed.

Definition arg_value_ok (v : bytes) : Prop :=
  length v <= L3_ARG_MAX_VALUE_BYTES /\ has_control v = false /\ contains OPEN v = false /\ contains CLOSE v = false.

Lemma arg_error_None args : arg_error args = None <-> Forall (fun kv => arg_value_ok kv.2) args.
Proof.
  induction args as [|[k v] args IH]; cbn [arg_error]; [done|]. rewrite Forall_cons. unfold arg_value_ok at 1. simpl.
  destruct (_ <? length v) eqn:E1; [apply Nat.ltb_lt in E1; split; [done|lia]|]. apply Nat.ltb_ge in E1.
  destruct (has_control v), (contains OPEN v), (contains CLOSE v); simpl; rewrite ?IH; naive_solver.
Qed.

Lemma substitute_template_Ok t args out : substitute_template t args = Ok out <->
  (forall x, x ∈ args.*1 <-> x ∈ l3p_name <$> l3_parameters t) /\
  Forall (fun kv => arg_value_ok kv.2) args /\ out = filled_step args <$> l3_steps t /\
  Forall (fun s => has_placeholder (interpolate_value args (l3s_parameters s)) = None) (l3_steps t).
Proof.
  unfold substitute_template.
  destruct (difference (to_set (l3p_name <$> l3_parameters t)) (to_set args.*1)) as [|m ms] eqn:E1.
  2: { split; [done|]. intros [Hn _]. assert (E : m :: ms = []); [|done]. rewrite <- E1.
       apply difference_nil. setoid_rewrite to_set_elem. naive_solver. }
  destruct (difference (to_set args.*1) (to_set (l3p_name <$> l3_parameters t))) as [|u us] eqn:E2.
  2: { split; [done|]. intros [Hn _]. assert (E : u :: us = []); [|done]. rewrite <- E2.
       apply difference_nil. setoid_rewrite to_set_elem. naive_solver. }
  rewrite difference_nil in E1, E2. setoid_rewrite to_set_elem in E1. setoid_rewrite to_set_elem in E2.
  destruct (arg_error args) eqn:E3.
  - split; [done|]. rewrite <- arg_error_None. naive_solver.
  - rewrite substitute_steps_Ok. apply arg_error_None in E3. naive_solver.
Qed.

Lemma map_get_Some_elem {A} n (v : A) (m : list (bytes * A)) : map_get n m = Some v -> (n, v) ∈ m.
Proof.
  induction m as [|[k w] m IH]; simpl; [done|]. destruct (bytes_eqb n k) eqn:E.
  - apply bytes_eqb_eq in E as ->. intros [= ->]. by left.
  - intros Hm. right. by apply IH.
Qed.

Lemma map_get_is_Some {A} n (m : list (bytes * A)) : n ∈ m.*1 -> is_Some (map_get n m).
Proof.
  induction m as [|[k w] m IH]; csimpl; [set_solver|]. destruct (bytes_eqb n k) eqn:E; [by eexists|].
  apply bytes_eqb_false in E. rewrite elem_of_cons. naive_solver.
Qed.

Lemma prepare_invocation_Ok t trust args live out : prepare_invocation t trust args live = Ok out <->
  is_runnable trust = true /\ evaluate_approval t live = GateApprove /\ substitute_template t args = Ok out.
Proof.
  unfold prepare_invocation. destruct (is_runnable trust); simpl; [|naive_solver].
  destruct (evaluate_approval t live); [|naive_solver].
  destruct (substitute_template t args); naive_solver.
Qed.

Lemma expand_for_agent_Ok t trust args live ceiling out : expand_for_agent t trust args live ceiling = Ok out <->
  trust = Pinned /\ exists ss, prepare_invocation t trust args live = Ok ss /\
    out = (fun s => planned_step_from_l3_with_class s ceiling) <$> ss.
Proof.
  unfold expand_for_agent. destruct trust; simpl; [naive_solver..|].
  destruct (prepare_invocation t Pinned args live); naive_solver.
Qed.

(** * Properties *)

(** Validation computes a normal form: the stored candidate is the submitted
    one with every field trimmed, its declared parameters are exactly the
    placeholders of its steps, and validating it again returns it unchanged, so
    a crystallised skill always passes the structural re-validation of the
    approval gate and of every invocation. *)
Theorem validate_l3_skill_normal_form c c' :
  validate_l3_skill c = Ok c' -> c' = trim_skill c /\ closed_world c' /\ validate_l3_skill c' = Ok c'.
Proof. intros Hv. apply validate_norm in Hv. tauto. Qed.

(** The agent's door: when a skill expands, the skill is pinned, the
    arguments name exactly the declared parameters with clean bounded values,
    and every step it yields is a step of the template with the same tool and
    method, a tool the live registry has (up to the trim the gate applies), no
    baked-in secret reference in its template, the plan's ceiling as its class,
    and parameters obtained by filling the holes of the template once, holes
    that are all supplied and none of which survives. *)
Theorem expand_for_agent_fills_template t trust args live ceiling steps :
  Forall (fun s => canonical (l3s_parameters s) = true) (l3_steps t) ->
  expand_for_agent t trust args live ceiling = Ok steps ->
  trust = Pinned /\
  (forall x, x ∈ args.*1 <-> x ∈ l3p_name <$> l3_parameters t) /\
  Forall (fun kv => arg_value_ok kv.2) args /\
  Forall2 (fun s p =>
    st_tool p = l3s_tool s /\ st_method p = l3s_method s /\ str_trim (st_tool p) ∈ live /\
    scan_secret_refs (l3s_parameters s) = [] /\ st_classification p = ceiling /\
    st_parameters p = fill_value args (l3s_parameters s) /\
    (forall n, Hole n ∈ holes (l3s_parameters s) -> is_Some (map_get n args)) /\
    has_placeholder (st_parameters p) = None) (l3_steps t) steps.
Proof.
  intros Hc He. apply expand_for_agent_Ok in He as (-> & ss & Hp & ->).
  apply prepare_invocation_Ok in Hp as (_ & Ha & Hs).
  apply substitute_template_Ok in Hs as (Hn & Hargs & -> & Hpl).
  apply evaluate_approval_Approve in Ha as (n & Hv & Hsec & Hlive).
  apply validate_norm in Hv as (-> & Hok & _). unfold trim_skill in Hsec, Hlive. cbn [l3_steps] in *.
  rewrite Forall_fmap in Hsec, Hlive. split_and!; [done..|].
  rewrite <- list_fmap_compose. apply Forall2_fmap_r, Forall_Forall2_diag, list.Forall_forall.
  intros s Hin. rewrite !list.Forall_forall in *. specialize (Hc s Hin). specialize (Hpl s Hin).
  destruct (Hok s Hin) as (_ & _ & _ & Hscan). cbn in Hpl |- *.
  assert (Hf := interpolate_value_fill args _ Hc Hscan).
  split_and!; try done; [by apply (Hlive s Hin)|by apply (Hsec s Hin)|].
  intros m Hm. unfold holes in Hm. apply list_elem_of_In, in_flat_map in Hm as (l & Hl & Hm).
  apply list_elem_of_In in Hl, Hm.
  rewrite Hf, has_placeholder_None in Hpl. unfold fill_value in Hpl. rewrite leaves_map, Forall_fmap in Hpl.
  eapply placeholder_free_fill; [|exact Hm]. by apply (proj1 (list.Forall_forall _ _) Hpl l Hl).
Qed.

Lemma filled_clean t args :
  validate_l3_skill t = Ok t -> Forall (fun s => canonical (l3s_parameters s) = true) (l3_steps t) ->
  (forall x, x ∈ args.*1 <-> x ∈ l3p_name <$> l3_parameters t) -> Forall (fun kv => 123%Z ∉ kv.2) args ->
  Forall (fun s => has_placeholder (interpolate_value args (l3s_parameters s)) = None) (l3_steps t).
Proof.
  intros Hv Hc Hn Hb. apply validate_norm in Hv as (_ & Hok & Hcw & _).
  rewrite list.Forall_forall in Hb. rewrite list.Forall_forall in Hc, Hok |- *.
  intros s Hin. destruct (Hok s Hin) as (_ & _ & _ & Hscan).
  rewrite interpolate_value_leaves by (by apply Hc). apply has_placeholder_None. rewrite leaves_map, Forall_fmap.
  rewrite list.Forall_forall in Hscan |- *. intros l Hl. apply placeholder_in_clean, (scanned_clean _ (Hscan l Hl)).
  - intros n v Hg. apply map_get_Some_elem in Hg. by apply Hb in Hg.
  - intros n Hh. apply map_get_is_Some, Hn, Hcw. exists s. split; [done|].
    apply list_elem_of_In, in_flat_map. exists l. by rewrite <- !list_elem_of_In.
Qed.

(** Nothing spurious stops an approved skill: for a stored template in normal
    form whose steps carry no secret reference and use live tools, arguments
    that name the declared parameters with clean values of at most 1024 bytes
    holding no opening brace always expand, and the result is the template with
    its holes filled. *)
Theorem expand_for_agent_succeeds t args live ceiling :
  validate_l3_skill t = Ok t -> Forall (fun s => canonical (l3s_parameters s) = true) (l3_steps t) ->
  Forall (fun s => scan_secret_refs (l3s_parameters s) = [] /\ l3s_tool s ∈ live) (l3_steps t) ->
  (forall x, x ∈ args.*1 <-> x ∈ l3p_name <$> l3_parameters t) ->
  Forall (fun kv => arg_value_ok kv.2 /\ 123%Z ∉ kv.2) args ->
  expand_for_agent t Pinned args live ceiling =
    Ok ((fun s => mkStep (l3s_tool s) (l3s_method s) (fill_value args (l3s_parameters s)) [] [] ceiling) <$> l3_steps t).
Proof.
  intros Hv Hc Hs Hn Ha. apply Forall_and in Hs as [Hsec Hlive]. apply Forall_and in Ha as [Ha Hb].
  apply expand_for_agent_Ok. split; [done|]. exists (filled_step args <$> l3_steps t). split.
  - apply prepare_invocation_Ok. split_and!; [done| |].
    + apply evaluate_approval_Approve. by exists t.
    + apply substitute_template_Ok. split_and!; try done. by apply filled_clean.
  - rewrite <- list_fmap_compose. apply list_fmap_ext. intros i s Hs.
    apply list_elem_of_lookup_2 in Hs. apply validate_norm in Hv as (_ & Hok & _).
    rewrite list.Forall_forall in Hc, Hok. destruct (Hok s Hs) as (_ & _ & _ & Hscan).
    unfold compose, filled_step, planned_step_from_l3_with_class. simpl.
    by rewrite interpolate_value_fill by auto.
Qed.

Lemma elem_of_unknown_tools known seen ss r : r ∈ unknown_tools known seen ss <->
  exists s, s ∈ ss /\ l3s_tool s ∉ known /\ l3s_tool s ∉ seen /\ r = UnknownTool (l3s_tool s).
Proof.
  revert seen. induction ss as [|s ss IH]; intros seen; cbn [unknown_tools]; [set_solver|].
  destruct (set_contains (l3s_tool s) known) eqn:E1; simpl.
  { apply set_contains_true in E1. rewrite IH. set_solver. }
  destruct (set_contains (l3s_tool s) seen) eqn:E2; simpl.
  { apply set_contains_true in E2. rewrite IH. set_solver. }
  apply set_contains_false in E1, E2. rewrite elem_of_cons, IH. setoid_rewrite set_insert_elem.
  setoid_rewrite elem_of_cons. split.
  - intros [->|(s' & ? & ? & ? & ->)]; [exists s; tauto|exists s'; tauto].
  - intros (s' & [->|Hin] & H1 & H2 & ->); [by left|].
    destruct (decide (l3s_tool s' = l3s_tool s)) as [->|Hne]; [by left|]. right. exists s'. tauto.
Qed.

Lemma elem_of_secret_reasons ss r : r ∈ secret_reasons ss <->
  exists i s f, ss !! i = Some s /\ f ∈ scan_secret_refs (l3s_parameters s) /\ r = SecretRefPresent i f.
Proof.
  unfold secret_reasons. rewrite list_elem_of_In, in_concat. setoid_rewrite <- list_elem_of_In.
  setoid_rewrite elem_of_lookup_imap. split.
  - intros (l & (i & s & -> & Hs) & Hr). apply list_elem_of_fmap in Hr as (f & -> & Hf). by exists i, s, f.
  - intros (i & s & f & Hs & Hf & ->). eexists. split; [exists i, s; split; [reflexivity|exact Hs]|].
    by apply (list_elem_of_fmap_2 (SecretRefPresent i)).
Qed.

Definition is_unknown_tool (r : RejectReason) : bool := match r with UnknownTool _ => true | _ => false end.

Lemma secret_reasons_filter ss : List.filter is_unknown_tool (secret_reasons ss) = [].
Proof.
  destruct (List.filter is_unknown_tool (secret_reasons ss)) as [|r l] eqn:E; [done|].
  assert (Hin : In r (List.filter is_unknown_tool (secret_reasons ss))) by (rewrite E; by left).
  apply filter_In in Hin as [Hin Hb]. apply list_elem_of_In, elem_of_secret_reasons in Hin as (i & s & f & _ & _ & ->).
  done.
Qed.

Lemma unknown_tools_nodup known seen ss : NoDup (List.filter is_unknown_tool (unknown_tools known seen ss)).
Proof.
  revert seen. induction ss as [|s ss IH]; intros seen; cbn [unknown_tools]; [constructor|].
  destruct (set_contains (l3s_tool s) known); simpl; [apply IH|].
  destruct (set_contains (l3s_tool s) seen); simpl; [apply IH|]. constructor; [|apply IH].
  intros Hin. apply list_elem_of_In, filter_In in Hin as [Hin _]. apply list_elem_of_In in Hin.
  apply elem_of_unknown_tools in Hin as (s' & _ & _ & Hn & [= E]). destruct Hn. rewrite E. apply set_insert_elem. by left.
Qed.

(** The approval gate reports every problem: on a structurally valid template
    its reasons are all the [secret://] leaves, each under its step, and each
    unregistered tool once; it approves exactly when there are none. *)
Theorem evaluate_approval_reports_all t known n :
  validate_l3_skill t = Ok n ->
  exists reasons,
    evaluate_approval t known = match reasons with [] => GateApprove | _ => GateReject reasons end /\
    NoDup (List.filter is_unknown_tool reasons) /\
    (forall r, r ∈ reasons <->
      (exists i s f, l3_steps n !! i = Some s /\ f ∈ scan_secret_refs (l3s_parameters s) /\ r = SecretRefPresent i f) \/
      (exists s, s ∈ l3_steps n /\ l3s_tool s ∉ known /\ r = UnknownTool (l3s_tool s))).
Proof.
  intros Hv. exists (secret_reasons (l3_steps n) ++ unknown_tools known [] (l3_steps n)). split_and!.
  - unfold evaluate_approval. rewrite Hv. by destruct (_ ++ _).
  - rewrite List.filter_app, secret_reasons_filter. apply unknown_tools_nodup.
  - intros r. rewrite elem_of_app, elem_of_secret_reasons, elem_of_unknown_tools. set_solver.
Qed.
End Templates.

(** * Witnesses *)

Definition demo_text (v : Value) : bytes := bs "{}".

Definition demo_skill : L3SkillCandidate :=
  mkL3Skill (bs "greet") (bs "greet a person") [mkL3Param (bs "who") (bs "who to greet")]
    [mkL3Step (bs "shell-exec") (bs "shell.exec")
       (object [(bs "argv", Array [String (bs "echo"); String (bs "hello {{who}}!")])])].

Definition demo_args : Args := [(bs "who", bs "{W}orld")].

Example demo_expansion :
  expand_for_agent demo_text demo_skill Pinned demo_args [bs "shell-exec"] Personal =
  Ok [mkStep (bs "shell-exec") (bs "shell.exec")
        (object [(bs "argv", Array [String (bs "echo"); String (bs "hello {W}orld!")])]) [] [] Personal].
Proof. by vm_compute. Qed.

(** Two single braces can meet across a hole: the final check then refuses a
    substitution that left no placeholder of the template. *)
Example demo_spurious :
  substitute_template
    (mkL3Skill [] [] [mkL3Param (bs "a") []; mkL3Param (bs "b") []]
       [mkL3Step [] [] (object [(bs "t", String (bs "{{a}}{{b}}}"))])])
    [(bs "a", bs "{"); (bs "b", bs "{x}")] = Err (UnsubstitutedPlaceholder (bs "x")).
Proof. by vm_compute. Qed.

(** The gate checks the trimmed template and the substitution uses the stored
    one: a row edited to pad its tool name passes the check on [shell-exec] and
    expands to a step naming a tool the registry does not have. *)
Example demo_padded_tool :
  exists steps, expand_for_agent demo_text
    (mkL3Skill (bs "greet") (bs "greet") [] [mkL3Step (bs " shell-exec") (bs "shell.exec") (object [])])
    Pinned [] [bs "shell-exec"] Public = Ok steps /\ st_tool <$> steps = [bs " shell-exec"].
Proof. eexists. split; by vm_compute. Qed.

Lemma validate_l3_skill_normal_form_witness :
  validate_l3_skill demo_text demo_skill = Ok (trim_skill demo_skill) /\ closed_world demo_skill.
Proof.
  assert (Hv : validate_l3_skill demo_text demo_skill = Ok demo_skill) by (by vm_compute).
  destruct (validate_l3_skill_normal_form demo_text demo_skill demo_skill Hv) as (H1 & H2 & H3).
  split; [by rewrite <- H1|exact H2].
Defined.

Lemma expand_for_agent_fills_template_witness :
  exists steps, expand_for_agent demo_text demo_skill Pinned demo_args [bs "shell-exec"] Personal = Ok steps /\
    Forall2 (fun s p => st_parameters p = fill_value demo_args (l3s_parameters s)) (l3_steps demo_skill) steps.
Proof.
  eexists. split; [by vm_compute|].
  refine (Forall2_impl _ _ _ _ (proj2 (proj2 (proj2
    (expand_for_agent_fills_template demo_text demo_skill Pinned demo_args [bs "shell-exec"] Personal _ _ _)))) _);
    [by repeat constructor|by vm_compute|]. intros s p Hp. apply Hp.
Defined.

Lemma expand_for_agent_succeeds_witness :
  expand_for_agent demo_text demo_skill Pinned [(bs "who", bs "you")] [bs "shell-exec"] Public =
  Ok [mkStep (bs "shell-exec") (bs "shell.exec")
        (object [(bs "argv", Array [String (bs "echo"); String (bs "hello you!")])]) [] [] Public].
Proof.
  rewrite (expand_for_agent_succeeds demo_text demo_skill [(bs "who", bs "you")] [bs "shell-exec"] Public).
  - by vm_compute.
  - by vm_compute.
  - by repeat constructor.
  - repeat constructor; apply (bool_decide_unpack _); by vm_compute.
  - intros x. cbn. reflexivity.
  - repeat constructor; try (apply (bool_decide_unpack _); by vm_compute); by vm_compute.
Defined.

Lemma evaluate_approval_reports_all_witness :
  evaluate_approval demo_text demo_skill [bs "web-fetch"] = GateReject [UnknownTool (bs "shell-exec")] /\
  exists reasons, (evaluate_approval demo_text demo_skill [bs "web-fetch"] =
     match reasons with [] => GateApprove | _ => GateReject reasons end) /\ UnknownTool (bs "shell-exec") ∈ reasons.
Proof.
  split; [by vm_compute|].
  destruct (evaluate_approval_reports_all demo_text demo_skill [bs "web-fetch"] demo_skill)
    as (rs & H1 & _ & H2); [by vm_compute|].
  exists rs. split; [exact H1|]. apply H2. right. eexists. split; [left|]. split; [|reflexivity].
  apply (bool_decide_unpack _). by vm_compute.
Defined.
