(* ===== verification/PythonSkill.v ===== *)
(** Python skills (src/core/src/memory): validation and digest of a crystallised
    snippet (l3py_crystallise.rs), its approval gate (l3py_approval.rs) and the
    invocation that runs the stored code verbatim (l3py_invoke/pure.rs,
    l3py_invoke/agent.rs). *)

From stdpp Require Import base list sets numbers strings pretty.
From Stdlib Require Import ZArith Lia.
From S2P Require Import Prelude RustStr Fingerprint HashesWire Json Secrets Cassandra SkillTemplate.
Local Open Scope nat_scope.

(** * Validation (l3py_crystallise.rs) *)

Definition PY_MAX_NAME_BYTES : nat := 64.
Definition PY_MAX_DESC_BYTES : nat := 512.
Definition PY_CODE_CAP : Z := 64 * 1024.

Inductive PyError := PyValidation (reason : bytes) | PyDb (e : bytes).

Definition py_error_str (e : PyError) : bytes :=
  match e with
  | PyValidation m => bs "python skill validation failed: " ++ m
  | PyDb m => bs "python skill db error: " ++ m
  end.

(** Every ASCII control byte but tab and newline, and DEL. *)
Definition bad_code_byte (b : Z) : bool := (((b <? 32) && negb (b =? 9) && negb (b =? 10)) || (b =? 127))%Z.

Definition len (s : bytes) : Z := Z.of_nat (length s).

(** [str::find] of a substring. *)
Fixpoint find_sub (p s : bytes) : option nat :=
  match s with
  | [] => if bytes_eqb p [] then Some 0 else None
  | _ :: t => if starts_with p s then Some 0 else S <$> find_sub p t
  end.

(** [char::is_whitespace] of the first character of UTF-8 text. *)
Definition starts_whitespace (s : bytes) : bool :=
  match s with
  | c :: t =>
      ((9 <=? c) && (c <=? 13))%Z || (c =? 32)%Z
      || match t with
         | d :: u =>
             ((c =? 194) && ((d =? 133) || (d =? 160)))%Z
             || match u with
                | e :: _ =>
                    ((c =? 225) && (d =? 154) && (e =? 128))%Z
                    || ((c =? 226) && (d =? 128)
                        && (((128 <=? e) && (e <=? 138)) || (e =? 168) || (e =? 169) || (e =? 175)))%Z
                    || ((c =? 226) && (d =? 129) && (e =? 159))%Z
                    || ((c =? 227) && (d =? 128) && (e =? 128))%Z
                | [] => false
                end
         | [] => false
         end
  | [] => false
  end.

(** [tail.find(whitespace or quote).unwrap_or(tail.len())] *)
Fixpoint ref_end (s : bytes) : nat :=
  match s with
  | [] => 0
  | c :: t => if starts_whitespace s || (c =? 39)%Z || (c =? 34)%Z then 0 else S (ref_end t)
  end.

(** [search_from] grows by at least the prefix: the length is fuel. *)
Fixpoint scan_code_loop (fuel search_from : nat) (code : bytes) : list RejectReason :=
  match fuel with
  | O => []
  | S f =>
      match find_sub REF_PREFIX (drop search_from code) with
      | None => []
      | Some rel =>
          let offset := search_from + rel in
          let tail := drop offset code in
          CodeSecretRef offset (take (ref_end tail) tail)
            :: scan_code_loop f (offset + length REF_PREFIX) code
      end
  end.

Definition scan_code_secret_refs (code : bytes) : list RejectReason := scan_code_loop (S (length code)) 0 code.

(** * Parameters of a call (l3py_invoke/pure.rs) *)

Definition PY_EXEC_TOOL : bytes := bs "python-exec".
Definition PY_EXEC_METHOD : bytes := bs "python.exec".
Definition HOST_PARAMS_HARD_MAX : Z := 16 * 1024 * 1024.

Inductive PyParamError := NotObject | BadKey (k : bytes) | TooLarge (got max : Z).

Definition show_Z (z : Z) : bytes := bs (pretty z).

Definition py_param_error_str (e : PyParamError) : bytes :=
  match e with
  | NotObject => bs "params must be a JSON object"
  | BadKey k => bs "params name '" ++ k ++ bs "' is not snake_case"
  | TooLarge got max => bs "params serialize to " ++ show_Z got ++ bs " bytes; cap is " ++ show_Z max
  end.

Definition params_is_empty (params : Value) : bool :=
  match params with Null => true | Object [] => true | _ => false end.

Definition python_exec_step (code : bytes) (params : Value) : L3TemplateStep :=
  let fields := map_insert (bs "code") (String code) [] in
  let fields := if params_is_empty params then fields else map_insert (bs "params") params fields in
  mkL3Step PY_EXEC_TOOL PY_EXEC_METHOD (Object fields).

Definition with_python_kind (payload : Value) : Value :=
  match payload with
  | Object m => Object (map_insert (bs "kind") (String (bs "python")) m)
  | _ => payload
  end.

Section Python.
Context `{UnicodeStr} `{Sha256} (to_string : Value -> bytes).

Definition validate_python_skill (c : PythonSkillCandidate) : result PythonSkillCandidate PyError :=
  let name := str_trim (py_name c) in
  match name_error PY_MAX_NAME_BYTES name with
  | Some e => Err (PyValidation e)
  | None =>
  let description := str_trim (py_description c) in
  match description_error PY_MAX_DESC_BYTES (py_description c) description with
  | Some e => Err (PyValidation e)
  | None =>
  if bytes_eqb (py_code c) [] then Err (PyValidation (bs "code is empty"))
  else if (PY_CODE_CAP <? len (py_code c))%Z then
    Err (PyValidation (bs "code exceeds " ++ show_Z PY_CODE_CAP ++ bs " bytes (" ++ show_Z (len (py_code c)) ++ bs ")"))
  else
  match List.find bad_code_byte (py_code c) with
  | Some b =>
      Err (PyValidation (bs "code contains a disallowed control byte 0x" ++ hex_fixed 2 b ++
             bs " (only tab and newline are permitted)"))
  | None =>
  if contains REF_PREFIX (py_code c) then
    Err (PyValidation (bs "code contains a '" ++ REF_PREFIX ++
           bs "' secret reference (skills must not carry baked-in secrets)"))
  else Ok (mkPySkill name description (py_code c))
  end end end.

Definition py_canonical_json (c : PythonSkillCandidate) : bytes :=
  to_string (object [(bs "code", String (py_code c)); (bs "description", String (py_description c));
                     (bs "name", String (py_name c))]).

Definition compute_python_sha256 (c : PythonSkillCandidate) : bytes := sha256_hex (sha256 (py_canonical_json c)).

(** * The approval gate (l3py_approval.rs) *)

Definition evaluate_python_approval (c : PythonSkillCandidate) : ApprovalDecision :=
  match validate_python_skill c with
  | Err e => GateReject [StructuralInvalid (py_error_str e)]
  | Ok candidate =>
      match scan_code_secret_refs (py_code candidate) with
      | [] => GateApprove
      | reasons => GateReject reasons
      end
  end.

(** * Invocation (l3py_invoke) *)

Definition validate_python_params (params : Value) (max_bytes : Z) : result Value PyParamError :=
  match params with
  | Null => Ok params
  | Object m =>
      match List.find (fun k => negb (is_snake_ident k)) m.*1 with
      | Some k => Err (BadKey k)
      | None =>
          let serialized := to_string params in
          if (max_bytes <? len serialized)%Z then Err (TooLarge (len serialized) max_bytes) else Ok params
      end
  | _ => Err NotObject
  end.

Definition prepare_python_invocation (c : PythonSkillCandidate) (stored_trust : SkillTrust) (stored_sha256 : bytes) :
    result bytes (list bytes) :=
  if negb (is_runnable stored_trust) then
    Err [bs "skill is not runnable (trust='" ++ trust_str stored_trust ++ bs "'; requires user_approved or pinned)"]
  else
    match evaluate_python_approval c with
    | GateReject reasons => Err (map reject_str reasons)
    | GateApprove =>
        let recomputed := compute_python_sha256 c in
        if negb (bytes_eqb recomputed stored_sha256) then
          Err [bs "body sha256 drift: stored=" ++ stored_sha256 ++ bs " recomputed=" ++ recomputed ++
               bs " (the approved code is not the code on disk; refusing)"]
        else Ok (py_code c)
    end.

Definition prepare_python_steps (c : PythonSkillCandidate) (stored_trust : SkillTrust) (stored_sha256 : bytes)
    (params : Value) : result (list L3TemplateStep) (list bytes) :=
  match prepare_python_invocation c stored_trust stored_sha256 with
  | Err reasons => Err reasons
  | Ok code =>
      match validate_python_params params HOST_PARAMS_HARD_MAX with
      | Err e => Err [py_param_error_str e]
      | Ok params => Ok [python_exec_step code params]
      end
  end.

Definition expand_python_for_agent (c : PythonSkillCandidate) (stored_trust : SkillTrust) (stored_sha256 : bytes)
    (data_ceiling : DataClass) (params : Value) : result (list PlannedStep) (list bytes) :=
  match stored_trust with
  | Pinned =>
      match prepare_python_invocation c stored_trust stored_sha256 with
      | Err reasons => Err reasons
      | Ok code =>
          match validate_python_params params HOST_PARAMS_HARD_MAX with
          | Err e => Err [py_param_error_str e]
          | Ok params =>
              let step := python_exec_step code params in
              Ok [mkStep (l3s_tool step) (l3s_method step) (l3s_parameters step) [] [] data_ceiling]
          end
      end
  | _ => Err [bs "skill is not autonomously invocable (trust='" ++ trust_str stored_trust ++ bs "'; requires pinned)"]
  end.

(** * Lemmas *)

Definition trim_py (c : PythonSkillCandidate) : PythonSkillCandidate :=
  mkPySkill (str_trim (py_name c)) (str_trim (py_description c)) (py_code c).

(** What every stored snippet satisfies. *)
Definition code_ok (code : bytes) : Prop :=
  code <> [] /\ (len code <= PY_CODE_CAP)%Z /\ Forall (fun b => bad_code_byte b = false) code /\
  contains REF_PREFIX code = false.

Lemma find_None {A} (f : A -> bool) l : List.find f l = None <-> Forall (fun x => f x = false) l.
Proof.
  induction l as [|x l IH]; simpl; [done|]. rewrite Forall_cons. destruct (f x) eqn:E; [naive_solver|]. rewrite IH. tauto.
Qed.

Lemma validate_python_norm c c' : validate_python_skill c = Ok c' ->
  c' = trim_py c /\ code_ok (py_code c) /\ validate_python_skill c' = Ok c'.
Proof.
  unfold validate_python_skill at 1. intros Hv.
  destruct (name_error _ _) as [|] eqn:En in Hv; [done|].
  destruct (description_error _ _ _) as [|] eqn:Ed in Hv; [done|].
  destruct (bytes_eqb (py_code c) []) eqn:E0 in Hv; [done|].
  destruct (_ <? len (py_code c))%Z eqn:E1 in Hv; [done|].
  destruct (List.find bad_code_byte (py_code c)) eqn:E2 in Hv; [done|].
  destruct (contains REF_PREFIX (py_code c)) eqn:E3 in Hv; [done|]. injection Hv as <-.
  split_and!; [done| |].
  - split_and!; [by apply bytes_eqb_false|lia|by apply find_None|done].
  - unfold validate_python_skill. cbn [py_name py_description py_code].
    rewrite !str_trim_idem, En, E0, E1, E2, E3.
    replace (description_error _ _ _) with (@None bytes); [done|].
    symmetry. revert Ed. unfold description_error. destruct (has_newline (py_description c)) eqn:Enl; [done|].
    by rewrite (has_newline_trim _ Enl).
Qed.

Lemma find_sub_Some p s i : find_sub p s = Some i ->
  starts_with p (drop i s) = true /\ (forall j, j < i -> starts_with p (drop j s) = false).
Proof.
  revert i. induction s as [|c t IH]; intros i; cbn [find_sub].
  - destruct (bytes_eqb p []) eqn:E; [|done]. apply bytes_eqb_eq in E as ->. intros [= <-]. split; [done|lia].
  - destruct (starts_with p (c :: t)) eqn:E; [intros [= <-]; split; [done|lia]|].
    destruct (find_sub p t) as [k|]; [|done]. intros [= <-]. destruct (IH k eq_refl) as [H1 H2].
    split; [done|]. intros [|j] Hj; [done|]. apply H2. lia.
Qed.

Lemma find_sub_None p s : find_sub p s = None -> forall j, starts_with p (drop j s) = false.
Proof.
  induction s as [|c t IH]; cbn [find_sub].
  - destruct (bytes_eqb p []) eqn:E; [done|]. intros _ j. rewrite drop_nil. destruct p; [done|]. done.
  - destruct (starts_with p (c :: t)) eqn:E; [done|]. destruct (find_sub p t); [done|].
    intros _ [|j]; [done|]. by apply IH.
Qed.

Lemma starts_with_length p s : starts_with p s = true -> length p <= length s.
Proof. intros [t ->]%starts_with_true. len_lia. Qed.

Lemma scan_code_loop_spec fuel sf code o :
  length code < sf + fuel ->
  (exists f, CodeSecretRef o f ∈ scan_code_loop fuel sf code) <-> sf <= o /\ starts_with REF_PREFIX (drop o code) = true.
Proof.
  assert (Hlen : length REF_PREFIX = 9) by done.
  revert sf. induction fuel as [|fuel IH]; intros sf Hf; cbn [scan_code_loop].
  { split; [set_solver|]. intros [Ho Hs]. apply starts_with_length in Hs. rewrite length_drop in Hs. lia. }
  destruct (find_sub REF_PREFIX (drop sf code)) as [rel|] eqn:E.
  - apply find_sub_Some in E as [H1 H2]. rewrite drop_drop in H1. setoid_rewrite drop_drop in H2.
    setoid_rewrite elem_of_cons. split.
    + intros [f [[= -> _]|Hin]]; [split; [lia|done]|].
      destruct (proj1 (IH (sf + rel + length REF_PREFIX) ltac:(lia)) (ex_intro _ f Hin)). split; [lia|done].
    + intros [Ho Hs]. destruct (decide (o = sf + rel)) as [->|Hne]; [eexists; by left|].
      destruct (decide (o < sf + rel)) as [Hlt|Hge].
      { specialize (H2 (o - sf) ltac:(lia)). replace (sf + (o - sf)) with o in H2 by lia. congruence. }
      assert (Hu : unbordered REF_PREFIX = true) by (by vm_compute).
      pose proof (unbordered_no_overlap _ _ _ _ Hu H1 Hs ltac:(lia)).
      destruct (proj2 (IH (sf + rel + length REF_PREFIX) ltac:(lia))) as [f Hin]; [split; [lia|done]|].
      exists f. by right.
  - split; [set_solver|]. intros [Ho Hs]. pose proof (find_sub_None _ _ E (o - sf)) as Hn.
    rewrite drop_drop in Hn. replace (sf + (o - sf)) with o in Hn by lia. congruence.
Qed.

Lemma scan_code_only fuel sf code r : r ∈ scan_code_loop fuel sf code -> exists o f, r = CodeSecretRef o f.
Proof.
  revert sf. induction fuel as [|fuel IH]; intros sf; cbn [scan_code_loop]; [set_solver|].
  destruct (find_sub _ _); [|set_solver]. intros [->|Hin]%elem_of_cons; [by do 2 eexists|by eapply IH].
Qed.

Lemma scan_code_nil code : contains REF_PREFIX code = false -> scan_code_secret_refs code = [].
Proof.
  intros Hc. destruct (scan_code_secret_refs code) as [|r rs] eqn:E; [done|exfalso].
  assert (Hin : r ∈ scan_code_secret_refs code) by (rewrite E; left).
  destruct (scan_code_only _ _ _ _ Hin) as (o & f & ->).
  destruct (proj1 (scan_code_loop_spec (S (length code)) 0 code o ltac:(lia)) (ex_intro _ f Hin)) as [_ Hs].
  apply starts_with_true in Hs as [t Ht].
  assert (contains REF_PREFIX code = true); [|congruence].
  apply contains_true. exists (take o code), t. by rewrite <- Ht, take_drop.
Qed.

Lemma evaluate_python_Approve c : evaluate_python_approval c = GateApprove <-> exists n, validate_python_skill c = Ok n.
Proof.
  unfold evaluate_python_approval. destruct (validate_python_skill c) as [n|e] eqn:E; [|naive_solver].
  apply validate_python_norm in E as (-> & Hok & _). cbn [trim_py py_code].
  rewrite scan_code_nil by apply Hok. split; [by eexists|done].
Qed.

Lemma prepare_python_Ok c trust sha code : prepare_python_invocation c trust sha = Ok code <->
  is_runnable trust = true /\ (exists n, validate_python_skill c = Ok n) /\ compute_python_sha256 c = sha /\ code = py_code c.
Proof.
  unfold prepare_python_invocation. rewrite <- evaluate_python_Approve.
  destruct (is_runnable trust); simpl; [|naive_solver]. destruct (evaluate_python_approval c); [|naive_solver].
  destruct (bytes_eqb (compute_python_sha256 c) sha) eqn:E; simpl.
  - apply bytes_eqb_eq in E. naive_solver.
  - apply bytes_eqb_false in E. naive_solver.
Qed.

(** The object the digest is taken over. *)
Definition py_form (c : PythonSkillCandidate) : Value :=
  object [(bs "code", String (py_code c)); (bs "description", String (py_description c)); (bs "name", String (py_name c))].

Lemma py_form_inj a b : py_form a = py_form b -> a = b.
Proof. destruct a, b. unfold py_form. intros E. object_fields E. simpl in *. by injection E as -> -> ->. Qed.

(** * Properties *)

(** The code that runs is the code whose digest was stored: when a pinned
    Python skill expands against the digest recorded for a snippet, either it is
    that snippet, name, description and code, or two different canonical objects
    have the same SHA-256; and what runs is exactly one [python.exec] step
    holding that code byte for byte, without a secret reference or a hidden
    control byte, under the plan's ceiling, with the runtime parameters beside
    it only when there are any. *)
Theorem python_runs_stored_code c c0 trust ceiling params steps :
  expand_python_for_agent c trust (compute_python_sha256 c0) ceiling params = Ok steps ->
  trust = Pinned /\ code_ok (py_code c) /\
  (c = c0 \/ (py_form c <> py_form c0 /\ sha256 (to_string (py_form c)) = sha256 (to_string (py_form c0)))) /\
  exists p, steps = [mkStep PY_EXEC_TOOL PY_EXEC_METHOD p [] [] ceiling] /\
    get (bs "code") p = Some (String (py_code c)) /\
    get (bs "params") p = (if params_is_empty params then None else Some params).
Proof.
  unfold expand_python_for_agent. destruct trust; [done..|].
  destruct (prepare_python_invocation _ _ _) as [code|] eqn:Ep; [|done].
  destruct (validate_python_params _ _) as [ps|] eqn:Ev; [|done]. intros [= <-].
  apply prepare_python_Ok in Ep as (_ & [n Hn] & Hd & ->). apply validate_python_norm in Hn as (_ & Hok & _).
  assert (ps = params) as ->. { revert Ev. unfold validate_python_params. repeat case_match; congruence. }
  split_and!; [done..| |].
  - destruct (decide (py_form c = py_form c0)) as [E|E]; [left; by apply py_form_inj|].
    right. split; [done|]. by apply sha256_hex_inj in Hd.
  - eexists. split; [reflexivity|]. unfold python_exec_step. cbn [l3s_parameters get].
    destruct (params_is_empty params); split; reflexivity.
Qed.

(** The [secret://] scan of a snippet reports each occurrence, and nothing
    else: the byte offsets it lists are exactly the positions where the prefix
    occurs. *)
Theorem scan_code_reports_every_reference code o :
  (exists f, CodeSecretRef o f ∈ scan_code_secret_refs code) <-> starts_with REF_PREFIX (drop o code) = true.
Proof. unfold scan_code_secret_refs. rewrite scan_code_loop_spec by lia. split; [tauto|]. intros. split; [lia|done]. Qed.

(** A stored snippet stays approvable and its code is kept verbatim:
    validation trims the name and the description only, returns its own output
    unchanged, and the approval gate accepts exactly what validation accepts,
    its own secret scan never adding a reason. *)
Theorem python_gate_is_validation c :
  (evaluate_python_approval c = GateApprove <-> exists n, validate_python_skill c = Ok n) /\
  (forall n, validate_python_skill c = Ok n ->
     n = trim_py c /\ evaluate_python_approval n = GateApprove /\ validate_python_skill n = Ok n).
Proof.
  split; [apply evaluate_python_Approve|]. intros n Hn. apply validate_python_norm in Hn as (-> & _ & Hn).
  split_and!; [done| |done]. apply evaluate_python_Approve. by eexists.
Qed.
End Python.

(** * Witnesses *)

Definition demo_py : PythonSkillCandidate := mkPySkill (bs "double") (bs "double a number") (bs "print(2 * x)").

Lemma python_runs_stored_code_witness :
  exists steps, expand_python_for_agent demo_text demo_py Pinned (compute_python_sha256 demo_text demo_py) Personal
    (object [(bs "x", int_value 3)]) = Ok steps /\ length steps = 1.
Proof.
  eexists. split; [by vm_compute|].
  destruct (python_runs_stored_code demo_text demo_py demo_py Pinned Personal (object [(bs "x", int_value 3)]) _
    ltac:(by vm_compute)) as (_ & _ & _ & p & -> & _). reflexivity.
Defined.
