(* ===== verification/ToolHost.v ===== *)
(** The dispatch chokepoint (src/core/src/tool_host.rs and its modules
    [secret_scrub.rs], [egress_provision.rs], [post_process.rs] and
    [injection_placeholder.rs]): every call of a worker goes through
    [dispatch_with_sink], which substitutes secret references, provisions the
    leak scanner of the worker's egress sidecar, calls the worker, scrubs and
    screens what it returns and writes the audit rows.

    A dispatch is a program over the vault and an arbitrary outside world.  The
    worker, the guard model, the sidecar file and the audit sink are fields of
    [HostEnv]; while the worker runs, other tasks may use the vault, so a call
    also answers with what they did to it. *)

From stdpp Require Import base list gmap numbers strings option pretty.
From Stdlib Require Import ZArith Lia.
From S2P Require Import Prelude RustStr Fingerprint RollingMatcher Redact HashesWire Effects Json.
From S2P Require Import Protocol Secrets InjectionGuard.
Local Open Scope prog_scope.
Local Open Scope nat_scope.

(** * Data *)

(** [Sandbox] and [HostIo] carry the error's [Display]; they arise before a worker
    serves, when one is acquired. *)
Inductive ToolHostError :=
| Sandbox (e : bytes)
| HostIo (e : bytes)
| Protocol (e : ClientError)
| SecretRedemptionFailed (e : SubstituteError)
| EgressProvisionFailed (err : bytes).

Record ProvisionedSecret := mkProvisioned { pv_ref_hash : bytes; pv_fp : SecretFingerprint }.

Inductive Provision :=
| ProvNoop
| ProvAdded (provisioned : list ProvisionedSecret)
| ProvFailed (pending : nat) (err : bytes).

(** What the guard tier reports; [gr_p] and [gr_tau] are its scores as JSON. *)
Record GuardReport := mkGuardReport {
  gr_blocks : bool; gr_p : option Value; gr_tau : Value; gr_audit_value : Value }.

Record BlockedMeta := mkBlocked {
  bm_tier : bytes; bm_verdict : InjectionVerdict; bm_body : bytes; bm_truncated : bool }.

Record ScreenOutcome := mkScreen {
  so_value : Value; so_blocked : option BlockedMeta; so_guard : option GuardReport }.

Definition TIER_CATALOGUE : bytes := bs "catalogue".
Definition TIER_GUARD_MODEL : bytes := bs "guard_model".
Definition FORGED_MARKER_REASON : bytes := bs "forged_withheld_marker".
Definition WITHHELD_NOTE : bytes := bs "[tool output withheld: failed injection screen]".
Definition INJECTION_BLOCKED_KEY : bytes := bs "injection_blocked".
Definition SCORE_KEY : bytes := bs "score".
Definition REASON_CODES_KEY : bytes := bs "reason_codes".
Definition REQ_KEY : bytes := bs "req".
Definition GUARD_KEY : bytes := bs "guard".
Definition EGRESS_ACTOR : bytes := bs "egress_proxy".

(** What a dispatch does that can be observed: the worker is handed a method
    and parameters, and answers; an audit row is written. *)
Inductive HostEvent :=
| EvCall (method : bytes) (params : Value) (answer : result Value ClientError)
| EvRow (row : AuditRow).

Record GuardTier (X : Type) := mkTier {
  gt_adjudicate : bytes -> bool -> X -> GuardReport * X; gt_no_scannable_text : GuardReport }.
Arguments gt_adjudicate {X}.
Arguments gt_no_scannable_text {X}.

Record HostEnv (X : Type) := mkHost {
  (** [Client::call]: the answer, and what other tasks did to the vault. *)
  h_call : bytes -> Value -> X -> result Value ClientError * list VaultOp * X;
  (** [provision_dispatch_secrets] of the sidecar, when there is one. *)
  h_egress : option (list SecretFingerprint -> X -> result (list SecretFingerprint) bytes * X);
  h_guard : option (GuardTier X);
  (** Whether the insert of a row succeeds. *)
  h_sink : AuditRow -> X -> bool * X;
  h_elapsed_ms : X -> Z * X;
  (** [json!] of an [f32] score, and [{:?}] of a value. *)
  h_f32 : Z -> Value;
  h_debug : Value -> bytes }.
Arguments h_call {X}.
Arguments h_egress {X}.
Arguments h_guard {X}.
Arguments h_sink {X}.
Arguments h_elapsed_ms {X}.
Arguments h_f32 {X}.
Arguments h_debug {X}.

(** * Pure parts *)

(** [score] is already JSON. *)
Definition injection_blocked_placeholder (score : Value) (reason_codes : list bytes) : Value :=
  object [(INJECTION_BLOCKED_KEY, Bool true); (bs "note", String WITHHELD_NOTE);
          (SCORE_KEY, score); (REASON_CODES_KEY, Array (map String reason_codes))].

Definition carries_withheld_marker (v : Value) : bool :=
  match get INJECTION_BLOCKED_KEY v with Some _ => true | None => false end.

Definition build_tool_audit_payload (req : Value) (outcome : result Value bytes) (guard : option Value)
    (elapsed_ms : Z) : Value :=
  object ([(REQ_KEY, req); (bs "ms", int_value elapsed_ms)] ++
          [match outcome with Ok v => (bs "result", v) | Err text => (bs "err", String text) end] ++
          opt_field GUARD_KEY id guard).

(** The [Display] of [ClientError] and [RpcError]. *)
Definition client_error_str (debug : Value -> bytes) (e : ClientError) : bytes :=
  match e with
  | Io e => bs "io: " ++ e
  | Decode e => bs "decode: " ++ e
  | EarlyExit => bs "worker exited before responding"
  | ResponseTooLarge cap => bs "worker response exceeded the " ++ show_nat cap ++ bs "-byte record cap"
  | IdMismatch expected got =>
      bs "response id " ++ debug got ++ bs " does not match request id " ++ debug expected
  | Rpc e => bs "jsonrpc error " ++ bs (pretty (re_code e)) ++ bs ": " ++ re_message e
  end.

Section Scrub.
Context `{Sha256}.
Variable iter_order : list (nat * Targets) -> list (nat * Targets).

(** [scrub_string]: the new text, and the hits. *)
Definition scrub_string (fps : list SecretFingerprint) (s : bytes) : bytes * list RedactHit :=
  let o := redact iter_order s fps in
  match ro_hits o with
  | [] => (s, [])
  | hits => (if is_utf8 (ro_bytes o) then ro_bytes o else from_utf8_lossy (ro_bytes o), hits)
  end.

Fixpoint scrub_value (fps : list SecretFingerprint) (v : Value) : Value * list RedactHit :=
  match v with
  | String s => let '(s', hits) := scrub_string fps s in (String s', hits)
  | Array l =>
      let rs := map (scrub_value fps) l in (Array (map fst rs), flat_map snd rs)
  | Object m =>
      let rs := map (fun kv => (kv.1, scrub_value fps kv.2)) m in
      (Object (map (fun r => (r.1, r.2.1)) rs), flat_map (fun r => r.2.2) rs)
  | _ => (v, [])
  end.

Definition scrub_client_error (fps : list SecretFingerprint) (e : ClientError) : ClientError * list RedactHit :=
  match e with
  | Rpc rpc =>
      let '(message, hits) := scrub_string fps (re_message rpc) in
      match re_data rpc with
      | Some data =>
          let '(data', hits') := scrub_value fps data in
          (Rpc (mkRpcError (re_code rpc) message (Some data')), hits ++ hits')
      | None => (Rpc (mkRpcError (re_code rpc) message None), hits)
      end
  | IdMismatch expected got => let '(got', hits) := scrub_value fps got in (IdMismatch expected got', hits)
  | _ => (e, [])
  end.

(** One row per newly added value, for the first reference that carries it. *)
Fixpoint first_per_value (seen : list bytes) (ps : list ProvisionedSecret) : list ProvisionedSecret :=
  match ps with
  | [] => []
  | p :: ps' =>
      if bool_decide (fp_sha256 (pv_fp p) ∈ seen) then first_per_value seen ps'
      else p :: first_per_value (fp_sha256 (pv_fp p) :: seen) ps'
  end.

Definition select_provisioned_rows (pairs : list ProvisionedSecret) (added : list SecretFingerprint)
    : list ProvisionedSecret :=
  first_per_value [] (filter (fun p => fp_sha256 (pv_fp p) ∈ map fp_sha256 added) pairs).

Definition hit_value (h : RedactHit) : Value :=
  object [(bs "sha256_hex", String (rh_sha256_hex h)); (bs "offset", int_value (Z.of_nat (rh_offset h)));
          (bs "len", int_value (Z.of_nat (rh_len h)))].

Definition scrub_row (tool : bytes) (hits : list RedactHit) : AuditRow :=
  mkRow (bs "policy") (bs "secret.output_scrubbed")
    (object [(bs "tool", String tool); (bs "count", int_value (Z.of_nat (length hits)));
             (bs "hits", Array (map hit_value hits))]).

Definition provision_audit_row (worker name : bytes) (fp : SecretFingerprint) : AuditRow :=
  mkRow EGRESS_ACTOR (bs "egress.secret_hash.provisioned")
    (object [(bs "worker", String worker); (bs "name", String name);
             (bs "value_sha256", String (sha256_hex (fp_sha256 fp)))]).

Definition provision_failed_audit_row (worker : bytes) (pending : nat) (err : bytes) : AuditRow :=
  mkRow EGRESS_ACTOR (bs "egress.secret_hash.provision_failed")
    (object [(bs "worker", String worker); (bs "pending", int_value (Z.of_nat pending));
             (bs "error", String err)]).

Definition redemption_failed_row (tool method : bytes) (e : SubstituteError) (ms : Z) : AuditRow :=
  let '(hash, reason) := match e with
                         | MissingRef h r => (h, missing_str r)
                         | PlaintextNotUtf8 h => (h, bs "plaintext_not_utf8")
                         end in
  mkRow (bs "policy") (bs "secret.redemption_failed")
    (object [(bs "tool", String tool); (bs "method", String method); (bs "ref_hash", String hash);
             (bs "reason", String reason); (bs "ms", int_value ms)]).

Definition redeemed_row (tool method : bytes) (ms : Z) (e : RedemptionEvent) : AuditRow :=
  mkRow (bs "policy") (bs "secret.redeemed")
    (object [(bs "tool", String tool); (bs "method", String method); (bs "ref_hash", String (rd_ref_hash e));
             (bs "ms", int_value ms)]).
End Scrub.

(** * The dispatch *)

Section Dispatch.
Context `{Sha256} `{UnicodeChar}.
Context {X : Type}.
Variable clock : nat -> Z.
Variable iter_order : list (nat * Targets) -> list (nat * Targets).
Hypothesis iter_order_perm : forall l, iter_order l ≡ₚ l.
Variable env : HostEnv X.

Abbreviation M := (prog (VaultState * X) HostEvent ToolHostError).

Definition on_vault {A} (f : VaultState -> A * VaultState) : M A :=
  effect (fun w => let '(a, s) := f w.1 in (a, (s, w.2))).

Definition outside {A} (f : X -> A * X) : M A :=
  effect (fun w => let '(a, x) := f w.2 in (a, (w.1, x))).

(** A best-effort insert: the row is in the trace when it succeeded. *)
Definition row (r : AuditRow) : M () :=
  let* ok := outside (h_sink env r) in if ok : bool then emit (EvRow r) else ret tt.

Fixpoint rows (rs : list AuditRow) : M () :=
  match rs with [] => ret tt | r :: rs' => row r;;; rows rs' end.

(** ** secret_scrub.rs and egress_provision.rs *)

(** The references with a fingerprint, each looked up in turn. *)
Fixpoint fingerprint_refs (rs : list SecretRef) (s : VaultState) : list ProvisionedSecret * VaultState :=
  match rs with
  | [] => ([], s)
  | r :: rs' =>
      let '(fp, s1) := value_fingerprint clock r s in
      let '(ps, s2) := fingerprint_refs rs' s1 in
      (match fp with Some fp => mkProvisioned (ref_hash r) fp :: ps | None => ps end, s2)
  end.

Definition fingerprints_for_dispatch (req : Value) : M (list SecretFingerprint) :=
  let* ps := on_vault (fingerprint_refs (collect_refs_in_params req)) in ret (map pv_fp ps).

Definition compute_provision (req : Value) : M Provision :=
  match h_egress env with
  | None => ret ProvNoop
  | Some provision_dispatch_secrets =>
      let* pairs := on_vault (fingerprint_refs (collect_refs_in_params req)) in
      match pairs with
      | [] => ret ProvNoop
      | _ =>
          let fps := map pv_fp pairs in
          let* r := outside (provision_dispatch_secrets fps) in
          match r with
          | Ok added => ret (ProvAdded (select_provisioned_rows pairs added))
          | Err e => ret (ProvFailed (length fps) e)
          end
      end
  end.

Definition emit_provision (tool : bytes) (p : Provision) : M () :=
  match p with
  | ProvNoop => ret tt
  | ProvAdded ps => rows (map (fun p => provision_audit_row tool (pv_ref_hash p) (pv_fp p)) ps)
  | ProvFailed pending err =>
      row (provision_failed_audit_row tool pending err);;; throw (EgressProvisionFailed err)
  end.

Definition emit_scrub_audit (tool : bytes) (hits : list RedactHit) : M () :=
  match hits with [] => ret tt | _ => row (scrub_row tool hits) end.

(** ** post_process.rs *)

(** The catalogue's verdict, forced to a block on a forged marker. *)
Definition catalogue_verdict (tool : bytes) (body : bytes) (v : Value) : InjectionVerdict :=
  let verdict := screen_with_profile body (for_tool tool) in
  if carries_withheld_marker v
  then mkVerdict (iv_score verdict) BlockInjection (iv_reason_codes verdict ++ [FORGED_MARKER_REASON])
  else verdict.

Definition screen_result (tool : bytes) (v : Value) : M ScreenOutcome :=
  let '(body, truncated) := extract_scannable_text v SCAN_BYTE_CAP in
  let verdict := catalogue_verdict tool body v in
  match iv_decision verdict with
  | BlockInjection =>
      ret (mkScreen (injection_blocked_placeholder (h_f32 env (iv_score verdict)) (iv_reason_codes verdict))
             (Some (mkBlocked TIER_CATALOGUE verdict body truncated)) None)
  | Allow =>
      match h_guard env with
      | None => ret (mkScreen v None None)
      | Some tier =>
          match body with
          | [] => ret (mkScreen v None (Some (gt_no_scannable_text tier)))
          | _ =>
              let* report := outside (gt_adjudicate tier body truncated) in
              if gr_blocks report then
                ret (mkScreen (injection_blocked_placeholder (default (h_f32 env f32_one) (gr_p report))
                                 [TIER_GUARD_MODEL])
                       (Some (mkBlocked TIER_GUARD_MODEL verdict body truncated)) (Some report))
              else ret (mkScreen v None (Some report))
          end
      end
  end.

Definition blocked_row (tool method : bytes) (meta : BlockedMeta) (guard : option GuardReport) : AuditRow :=
  mkRow (bs "policy") (bs "injection.blocked")
    (object ([(bs "tool", String tool); (bs "method", String method);
              (bs "score", h_f32 env (iv_score (bm_verdict meta))); (bs "decision", String (bs "block"));
              (bs "tier", String (bm_tier meta));
              (bs "reason_codes", Array (map String (iv_reason_codes (bm_verdict meta))));
              (bs "body_sha256", String (sha256_hex (sha256 (bm_body meta))));
              (bs "body_byte_len", int_value (Z.of_nat (length (bm_body meta))));
              (bs "body_truncated_at_64kib", Bool (bm_truncated meta))] ++
             match guard with
             | Some report => [(bs "p", opt_value id (gr_p report)); (bs "tau", gr_tau report)]
             | None => []
             end)).

(** The scrub and the screen: what the caller gets, and what the rows record. *)
Definition conclude_call (tool : bytes) (req : Value) (call_result : result Value ClientError)
    : M (result Value ClientError * option BlockedMeta * option GuardReport) :=
  let* fps := fingerprints_for_dispatch req in
  match call_result with
  | Ok v =>
      let* v := match fps with
                | [] => ret v
                | _ => let '(v', hits) := scrub_value iter_order fps v in
                       emit_scrub_audit tool hits;;; ret v'
                end in
      let* o := screen_result tool v in
      ret (Ok (so_value o), so_blocked o, so_guard o)
  | Err e =>
      let* e := match fps with
                | [] => ret e
                | _ => let '(e', hits) := scrub_client_error iter_order fps e in
                       emit_scrub_audit tool hits;;; ret e'
                end in
      ret (Err e, None, None)
  end.

Definition tool_row (tool method : bytes) (req : Value) (final : result Value ClientError)
    (guard : option GuardReport) (ms : Z) : AuditRow :=
  mkRow (bs "tool:" ++ tool) method
    (match final with
     | Ok v => build_tool_audit_payload req (Ok v) (gr_audit_value <$> guard) ms
     | Err e => build_tool_audit_payload req (Err (client_error_str (h_debug env) e)) None ms
     end).

Definition finalize (tool method : bytes) (req : Value) (events : list RedemptionEvent)
    (call_result : result Value ClientError) (ms : Z) : M Value :=
  let* (final, blocked, guard) := conclude_call tool req call_result in
  rows (map (redeemed_row tool method ms) events);;;
  row (tool_row tool method req final guard ms);;;
  match blocked with Some meta => row (blocked_row tool method meta guard) | None => ret tt end;;;
  match final with Ok v => ret v | Err e => throw (Protocol e) end.

(** ** tool_host.rs *)

(** [worker.call]: other tasks run meanwhile. *)
Definition worker_call (method : bytes) (params : Value) : M (result Value ClientError) :=
  let* (answer, ops) := outside (fun x => let '(a, ops, x') := h_call env method params x in ((a, ops), x')) in
  on_vault (fun s => (tt, run_ops clock ops s));;;
  emit (EvCall method params answer);;;
  ret answer.

Definition dispatch_with_sink (tool method : bytes) (params : Value) : M Value :=
  let* (params', r) := on_vault (fun s => let '(v, s', r) := substitute_refs_in_params clock params s in ((v, r), s')) in
  match r with
  | Err e =>
      let* ms := outside (h_elapsed_ms env) in
      row (redemption_failed_row tool method e ms);;;
      throw (SecretRedemptionFailed e)
  | Ok events =>
      let* p := compute_provision params in
      emit_provision tool p;;;
      let* answer := worker_call method params' in
      let* ms := outside (h_elapsed_ms env) in
      finalize tool method params events answer ms
  end.

(** * Programs that only read the clock and write rows *)

(** [m] leaves the vault's entries alone, does nothing observable but write
    audit rows, and its result and the vaults before and after satisfy [Q]. *)
Definition audited {A} (m : M A) (Q : VaultState -> result A ToolHostError -> VaultState -> Prop) : Prop :=
  forall s x t, exists r s' x' rs,
    m (s, x) t = (r, (s', x'), map EvRow rs ++ t) /\
    vs_map s' = vs_map s /\ vs_tick s <= vs_tick s' /\ Q s r s'.

Lemma audited_ret {A} (a : A) (Q : VaultState -> result A ToolHostError -> VaultState -> Prop) :
  (forall s, Q s (Ok a) s) -> audited (ret a) Q.
Proof. intros HQ s x t. by exists (Ok a), s, x, []. Qed.

Lemma audited_throw {A} e (Q : VaultState -> result A ToolHostError -> VaultState -> Prop) :
  (forall s, Q s (Err e) s) -> audited (throw e) Q.
Proof. intros HQ s x t. by exists (Err e), s, x, []. Qed.

Lemma audited_bind {A B} (m : M A) (k : A -> M B) Q1 Q :
  audited m Q1 ->
  (forall e s s', vs_tick s <= vs_tick s' -> Q1 s (Err e) s' -> Q s (Err e) s') ->
  (forall a, audited (k a) (fun s1 r s' => forall s, vs_map s1 = vs_map s -> vs_tick s <= vs_tick s1 ->
     vs_tick s1 <= vs_tick s' -> Q1 s (Ok a) s1 -> Q s r s')) ->
  audited (bind m k) Q.
Proof.
  intros Hm He Hk s x t. destruct (Hm s x t) as (r & s1 & x1 & rs & E & Hs & Ht & HQ).
  unfold bind. rewrite E. destruct r as [a|e].
  - destruct (Hk a s1 x1 (map EvRow rs ++ t)) as (r & s2 & x2 & rs2 & E2 & Hs2 & Ht2 & HQ2).
    exists r, s2, x2, (rs2 ++ rs). rewrite E2, map_app, app_assoc. split_and!; [done|congruence|lia|].
    by apply HQ2.
  - exists (Err e), s1, x1, rs. split_and!; [done..|]. by apply He.
Qed.

(** The common case: a step whose result is not needed. *)
Lemma audited_seq {B} (m : M ()) (k : M B) Q :
  audited m (fun _ r _ => r = Ok tt) ->
  audited k (fun s1 r s' => forall s, vs_map s1 = vs_map s -> vs_tick s <= vs_tick s1 ->
    vs_tick s1 <= vs_tick s' -> Q s r s') ->
  audited (bind m (fun _ => k)) Q.
Proof.
  intros Hm Hk. eapply audited_bind; [exact Hm|done|]. intros [] s x t.
  destruct (Hk s x t) as (r & s' & x' & rs & E & Hs & Ht & HQ). exists r, s', x', rs. split_and!; [done..|].
  intros s0 ????. by apply HQ.
Qed.

Lemma audited_weaken {A} (m : M A) (Q Q' : VaultState -> result A ToolHostError -> VaultState -> Prop) :
  audited m Q -> (forall s r s', vs_tick s <= vs_tick s' -> Q s r s' -> Q' s r s') -> audited m Q'.
Proof.
  intros Hm HQ s x t. destruct (Hm s x t) as (r & s' & x' & rs & E & Hs & Ht & Hq).
  exists r, s', x', rs. split_and!; auto.
Qed.

Lemma audited_outside {A} (f : X -> A * X) : audited (outside f) (fun _ r _ => exists a, r = Ok a).
Proof.
  intros s x t. unfold outside, effect. simpl. destruct (f x) as [a x']. exists (Ok a), s, x', [].
  split_and!; [done..|by exists a].
Qed.

Lemma audited_row r : audited (row r) (fun _ r _ => r = Ok tt).
Proof.
  intros s x t. unfold row, bind, outside, effect. simpl. destruct (h_sink env r x) as [[|] x'].
  - by exists (Ok tt), s, x', [r].
  - by exists (Ok tt), s, x', [].
Qed.

Lemma audited_rows rs : audited (rows rs) (fun _ r _ => r = Ok tt).
Proof.
  induction rs as [|r rs IH]; [by apply audited_ret|]. cbn [rows]. apply audited_seq; [apply audited_row|].
  eapply audited_weaken; [apply IH|done].
Qed.

Lemma audited_scrub tool hits : audited (emit_scrub_audit tool hits) (fun _ r _ => r = Ok tt).
Proof. destruct hits; [by apply audited_ret|apply audited_row]. Qed.

(** * Fingerprints *)

Lemma fingerprint_refs_spec rs s :
  let '(ps, s') := fingerprint_refs rs s in
  vs_map s' = vs_map s /\ vs_tick s <= vs_tick s' /\
  forall r e fp, r ∈ rs -> vs_map s !! r = Some e ->
    (forall k, vs_tick s <= k < vs_tick s' -> (clock k < en_expires_at e)%Z) ->
    fingerprint_value (en_plaintext e) = Some fp -> fp ∈ map pv_fp ps.
Proof.
  revert s. induction rs as [|q rs IH]; intros s; simpl.
  { split_and!; [done..|]. intros r e fp Hr. by apply not_elem_of_nil in Hr. }
  specialize (IH (tick s)). destruct (fingerprint_refs rs (tick s)) as [ps s'] eqn:E.
  destruct IH as (Hm & Ht & IH). simpl in Hm, Ht. split_and!; [done|lia|].
  intros r e fp [-> | Hr]%elem_of_cons He Hc Hf.
  - rewrite He. rewrite (proj2 (Z.leb_gt _ _)) by (apply Hc; lia). rewrite Hf. apply list_elem_of_here.
  - assert (Hin : fp ∈ map pv_fp ps) by (apply (IH r e); [done|done| |done]; intros k Hk; apply Hc; simpl in Hk; lia).
    destruct (match vs_map s !! q with Some _ => _ | None => _ end); [by apply list_elem_of_further|done].
Qed.

(** The fingerprints a scrub between [s] and [s'] works with: every secret of the
    request whose entry no reading of the clock found expired. *)
Definition knows_secrets (req : Value) (s s' : VaultState) (fps : list SecretFingerprint) : Prop :=
  forall r e fp, r ∈ for_each_ref req -> vs_map s !! r = Some e ->
    (forall k, vs_tick s <= k < vs_tick s' -> (clock k < en_expires_at e)%Z) ->
    fingerprint_value (en_plaintext e) = Some fp ->
    fp ∈ fps \/ exists r', r' <> r /\ sha256 r' = sha256 r.

Lemma knows_secrets_wider req s s1 s2 s3 fps :
  (forall r e, vs_map s !! r = Some e ->
     (forall k, vs_tick s <= k < vs_tick s3 -> (clock k < en_expires_at e)%Z) -> vs_map s1 !! r = Some e) ->
  vs_tick s <= vs_tick s1 -> vs_tick s2 <= vs_tick s3 ->
  knows_secrets req s1 s2 fps -> knows_secrets req s s3 fps.
Proof.
  intros Hm H1 H2 Hk r e fp Hr He Hc Hf. apply (Hk r e fp Hr); [by apply Hm| |done].
  intros k Hk'. apply Hc. lia.
Qed.

Lemma fingerprints_for_dispatch_spec req :
  audited (fingerprints_for_dispatch req)
    (fun s r s' => exists fps, r = Ok fps /\ knows_secrets req s s' fps).
Proof.
  intros s x t. unfold fingerprints_for_dispatch, on_vault, bind, effect. simpl.
  pose proof (fingerprint_refs_spec (collect_refs_in_params req) s) as Hf.
  destruct (fingerprint_refs _ s) as [ps s']. destruct Hf as (Hm & Ht & Hf).
  exists (Ok (map pv_fp ps)), s', x, []. split_and!; [done..|]. exists (map pv_fp ps). split; [done|].
  intros r e fp Hr He Hc Hv. destruct (collect_refs_complete req r Hr) as (r' & Hin & Hh).
  destruct (decide (r' = r)) as [-> | Hne]; [left; by eapply Hf|].
  right. exists r'. split; [done|]. by apply sha256_hex_inj.
Qed.

(** * Scrub and screen *)

Lemma redact_no_patterns input : redact iter_order input [] = mkOutcome input [].
Proof.
  unfold redact, raw_spans, group_by_len. simpl. rewrite map_to_list_empty.
  assert (Hi : iter_order [] = []) by (apply Permutation_nil; symmetry; apply iter_order_perm).
  by rewrite Hi.
Qed.

Lemma scrub_string_nil s : scrub_string iter_order [] s = (s, []).
Proof. unfold scrub_string. by rewrite redact_no_patterns. Qed.

Lemma scrub_value_nil v : (scrub_value iter_order [] v).1 = v.
Proof.
  induction v as [|b|n|s|l IH|m IH] using Value_ind'; try done; simpl.
  - by rewrite scrub_string_nil.
  - f_equal. rewrite map_map. induction IH as [|v l Hv Hl IHl]; [done|]. simpl. by rewrite Hv, IHl.
  - f_equal. rewrite map_map. induction IH as [|[k v] l Hv Hl IHl]; [done|]. simpl in *. by rewrite Hv, IHl.
Qed.

Lemma scrub_client_error_nil e : (scrub_client_error iter_order [] e).1 = e.
Proof.
  destruct e as [e|e| |cap|x1 x2|[code message data]]; try done; simpl.
  - pose proof (scrub_value_nil x2) as Hv. destruct (scrub_value iter_order [] x2). simpl in *. by subst.
  - rewrite scrub_string_nil. destruct data as [d|]; [|done].
    pose proof (scrub_value_nil d) as Hv. destruct (scrub_value iter_order [] d). simpl in *. by subst.
Qed.

(** What the caller may be handed instead of a worker's result [v]. *)
Definition passed_on (v out : Value) : Prop :=
  out = v \/ exists score codes, out = injection_blocked_placeholder score codes.

Lemma screen_result_spec tool v :
  audited (screen_result tool v) (fun _ r _ => exists o, r = Ok o /\ passed_on v (so_value o)).
Proof.
  assert (Hret : forall o, passed_on v (so_value o) ->
    audited (ret o) (fun _ r _ => exists o, r = Ok o /\ passed_on v (so_value o)))
    by (intros o Ho; apply audited_ret; intros s; by exists o).
  unfold screen_result. destruct (extract_scannable_text v SCAN_BYTE_CAP) as [body truncated].
  destruct (iv_decision (catalogue_verdict tool body v)).
  2: { apply Hret. right. by eexists _, _. }
  destruct (h_guard env) as [tier|]; [|apply Hret; by left].
  destruct body as [|b body]; [apply Hret; by left|].
  eapply audited_bind; [apply audited_outside|intros e s s' _ [a ?]; done|].
  intros report. eapply audited_weaken.
  - destruct (gr_blocks report); apply Hret; [right; by eexists _, _|by left].
  - intros s r s' _ Hq s0 _ _ _ _. exact Hq.
Qed.

(** What a dispatch makes of the worker's answer. *)
Definition concluded (req : Value) (answer : result Value ClientError) (s s' : VaultState)
    (final : result Value ClientError) : Prop :=
  exists fps, knows_secrets req s s' fps /\
    match answer, final with
    | Ok v, Ok out => passed_on (scrub_value iter_order fps v).1 out
    | Err e, Err e' => e' = (scrub_client_error iter_order fps e).1
    | _, _ => False
    end.

Lemma scrubbed_value_spec tool fps v :
  audited (match fps with
           | [] => ret v
           | _ => let '(v', hits) := scrub_value iter_order fps v in emit_scrub_audit tool hits;;; ret v'
           end) (fun _ r _ => r = Ok (scrub_value iter_order fps v).1).
Proof.
  destruct fps as [|fp fps]; [apply audited_ret; by rewrite scrub_value_nil|].
  destruct (scrub_value iter_order (fp :: fps) v) as [v' hits]. apply audited_seq; [apply audited_scrub|].
  by apply audited_ret.
Qed.

Lemma scrubbed_error_spec tool fps e :
  audited (match fps with
           | [] => ret e
           | _ => let '(e', hits) := scrub_client_error iter_order fps e in emit_scrub_audit tool hits;;; ret e'
           end) (fun _ r _ => r = Ok (scrub_client_error iter_order fps e).1).
Proof.
  destruct fps as [|fp fps]; [apply audited_ret; by rewrite scrub_client_error_nil|].
  destruct (scrub_client_error iter_order (fp :: fps) e) as [e' hits]. apply audited_seq; [apply audited_scrub|].
  by apply audited_ret.
Qed.

Lemma knows_secrets_mono req s s1 s2 s3 fps :
  vs_map s1 = vs_map s -> vs_tick s <= vs_tick s1 -> vs_tick s2 <= vs_tick s3 ->
  knows_secrets req s1 s2 fps -> knows_secrets req s s3 fps.
Proof. intros Hm H1 H2. apply knows_secrets_wider; [|done|done]. intros r e He _. by rewrite Hm. Qed.

Lemma conclude_call_spec tool req answer :
  audited (conclude_call tool req answer)
    (fun s r s' => exists final b g, r = Ok (final, b, g) /\ concluded req answer s s' final).
Proof.
  unfold conclude_call. eapply audited_bind; [apply fingerprints_for_dispatch_spec|by intros e s s' _ (? & ? & _)|].
  intros fps. destruct answer as [v|e].
  - eapply audited_bind; [apply scrubbed_value_spec|by intros|]. intros v'.
    eapply audited_bind; [apply screen_result_spec|by intros e s s' _ (? & ? & _)|]. intros o.
    apply audited_ret. intros s1 s2 _ Ht2 _ (o' & [= <-] & Hp) s3 Hm3 Ht3 _ [= ->] s0 Hm0 Ht0 _ (f & [= <-] & Hk).
    eexists _, _, _. split; [done|]. exists fps. split; [|done].
    apply (knows_secrets_mono _ _ s0 s3); [done|done|lia|done].
  - eapply audited_bind; [apply scrubbed_error_spec|by intros|]. intros e'.
    apply audited_ret. intros s1 s2 Hm2 Ht2 _ [= ->] s0 Hm0 Ht0 _ (f & [= <-] & Hk).
    eexists _, _, _. split; [done|]. exists fps. split; [|done].
    apply (knows_secrets_mono _ _ s0 s2); [done|done|lia|done].
Qed.

Lemma concluded_mono req answer s s1 s2 s3 final :
  vs_map s1 = vs_map s -> vs_tick s <= vs_tick s1 -> vs_tick s2 <= vs_tick s3 ->
  concluded req answer s1 s2 final -> concluded req answer s s3 final.
Proof. intros Hm H1 H2 (fps & Hk & Hf). exists fps. split; [by eapply knows_secrets_mono|done]. Qed.

Definition returned (final : result Value ClientError) : result Value ToolHostError :=
  match final with Ok v => Ok v | Err e => Err (Protocol e) end.

Lemma finalize_spec tool method req events answer ms :
  audited (finalize tool method req events answer ms)
    (fun s r s' => exists final, r = returned final /\ concluded req answer s s' final).
Proof.
  unfold finalize. eapply audited_bind; [apply conclude_call_spec|by intros e s s' _ (? & ? & ? & ? & _)|].
  intros [[final b] g]. apply audited_seq; [apply audited_rows|]. apply audited_seq; [apply audited_row|].
  apply audited_seq; [destruct b; [apply audited_row|by apply audited_ret]|].
  apply (audited_weaken _ (fun s r s' => s' = s /\ r = returned final)).
  - destruct final as [v|e]; [by apply audited_ret|by apply audited_throw].
  - intros s1 r s' _ [-> ->] s2 Hm2 Ht2 _ s3 Hm3 Ht3 _ s4 Hm4 Ht4 _ s0 Hm0 Ht0 _ (f & ? & ? & [= -> <- <-] & Hc).
    exists f. split; [done|]. eapply concluded_mono; [reflexivity|done| |exact Hc]. lia.
Qed.

Lemma compute_provision_spec req : audited (compute_provision req) (fun _ r _ => exists p, r = Ok p).
Proof.
  unfold compute_provision. destruct (h_egress env) as [provision|]; [|apply audited_ret; by eexists].
  eapply (audited_bind _ _ (fun _ r _ => exists ps, r = Ok ps)); [|by intros e s s' _ [? ?]|].
  { intros s x t. unfold on_vault, effect. simpl.
    pose proof (fingerprint_refs_spec (collect_refs_in_params req) s) as Hf.
    destruct (fingerprint_refs _ s) as [ps s']. destruct Hf as (Hm & Ht & _).
    exists (Ok ps), s', x, []. split_and!; [done..|by exists ps]. }
  intros [|p ps]; [apply audited_ret; intros; by eexists|].
  eapply audited_bind; [apply audited_outside|by intros e s s' _ [? ?]|].
  intros [added|e]; apply audited_ret; intros; by eexists.
Qed.

Lemma emit_provision_spec tool p :
  audited (emit_provision tool p) (fun _ r _ => r = Ok tt \/ exists e, r = Err (EgressProvisionFailed e)).
Proof.
  destruct p as [|ps|n err]; simpl.
  - apply audited_ret. by left.
  - eapply audited_weaken; [apply audited_rows|]. by left.
  - apply audited_seq; [apply audited_row|]. apply audited_throw. intros. right. by eexists.
Qed.

(** The calls of the worker in a trace. *)
Definition calls (t : list HostEvent) : list (bytes * Value * result Value ClientError) :=
  flat_map (fun e => match e with EvCall m p a => [(m, p, a)] | EvRow _ => [] end) t.

Lemma calls_rows rs t : calls (map EvRow rs ++ t) = calls t.
Proof. unfold calls. rewrite flat_map_app. induction rs as [|r rs IH]; [done|exact IH]. Qed.

Lemma dispatch_concluded tool method params s x r s' x' t :
  dispatch_with_sink tool method params (s, x) [] = (r, (s', x'), t) ->
  match r with
  | Err (SecretRedemptionFailed e) => calls t = [] /\ exists ref, ref ∈ for_each_ref params /\ unredeemable clock s ref e
  | Err (EgressProvisionFailed _) => calls t = []
  | _ =>
      exists answer final,
        calls t = [(method, map_refs (held (vs_map s)) params, answer)] /\
        r = returned final /\ concluded params answer s s' final
  end.
Proof.
  unfold dispatch_with_sink, bind at 1, on_vault, effect. simpl. intros E.
  pose proof (substitute_refs_ok clock params s) as Hsub.
  destruct (substitute_refs_in_params clock params s) as [[params' s1] [events|err]]; simpl in Hsub.
  2: { revert E. match goal with |- ?m _ _ = _ -> _ => assert (Ha : audited m (fun _ r _ => r = Err (SecretRedemptionFailed err))) end.
       { eapply audited_bind; [apply audited_outside|by intros e s2 s3 _ [? ?]|]. intros ms.
         apply audited_seq; [apply audited_row|]. by apply audited_throw. }
       destruct (Ha s1 x []) as (r2 & s2 & x2 & rs & -> & _ & _ & ->). intros [= <- <- <- <-].
       by rewrite calls_rows. }
  destruct Hsub as (-> & Hm1 & Ht1 & -> & _). unfold bind at 1 in E.
  destruct (compute_provision_spec params s1 x []) as (r2 & s2 & x2 & rs2 & E2 & Hm2 & Ht2 & p & ->).
  rewrite E2 in E. unfold bind at 1 in E.
  destruct (emit_provision_spec tool p s2 x2 (map EvRow rs2 ++ [])) as (r3 & s3 & x3 & rs3 & E3 & Hm3 & Ht3 & Hr3).
  rewrite E3 in E. destruct Hr3 as [-> | [e ->]].
  2: { injection E as <- <- <- <-. by rewrite !calls_rows. }
  unfold worker_call, bind, outside, on_vault, effect, emit, ret in E. simpl in E.
  destruct (h_call env method _ x3) as [[answer ops] x4]. simpl in E.
  destruct (h_elapsed_ms env x4) as [ms x5]. simpl in E.
  set (s4 := run_ops clock ops s3) in *.
  match type of E with finalize _ _ _ _ _ _ _ ?t4 = _ => set (t4' := t4) in * end.
  destruct (finalize_spec tool method params (map event_of (for_each_ref params)) answer ms s4 x5 t4')
    as (r6 & s6 & x6 & rs6 & E6 & Hm6 & Ht6 & final & -> & Hc).
  rewrite E6 in E. injection E as <- <- <- <-.
  assert (Hcalls : calls (map EvRow rs6 ++ t4') = [(method, map_refs (held (vs_map s)) params, answer)])
    by (rewrite calls_rows; subst t4'; cbn [calls flat_map app]; by rewrite !calls_rows).
  assert (Hgoal : exists answer' final', calls (map EvRow rs6 ++ t4') = [(method, map_refs (held (vs_map s)) params, answer')]
            /\ returned final = returned final' /\ concluded params answer' s s6 final').
  { exists answer, final. split_and!; [done..|]. destruct Hc as (fps & Hk & Hf). exists fps. split; [|done].
    assert (Hops : forall r e, keeps clock r e s3 s4) by (intros; apply run_ops_keeps).
    eapply knows_secrets_wider; [| |reflexivity|exact Hk].
    - intros q e He Hclk. destruct (Hops q e) as [Ht4 [Hq | (k & Hk4 & Hx)]]; [congruence|done|].
      specialize (Hclk k ltac:(lia)). lia.
    - destruct (Hops [] (mkEntry [] 0)) as [Ht4 _]. lia. }
  by destruct final as [v|e].
Qed.

End Dispatch.

(** * A secret that expires while its worker runs *)

Section Expiry.
Context `{Sha256} `{UnicodeChar}.
Context {X : Type}.
Variable clock : nat -> Z.
Variable iter_order : list (nat * Targets) -> list (nat * Targets).

Lemma substitute_one_ref r e s :
  is_well_formed_ref r = true -> vs_map s !! r = Some e -> is_utf8 (en_plaintext e) = true ->
  (now clock s < en_expires_at e)%Z ->
  substitute_refs_in_params clock (String r) s = (String (en_plaintext e), tick s, Ok [event_of r]).
Proof.
  intros Hr He Hu Hlive. unfold substitute_refs_in_params. cbn [Secrets.walk]. unfold Secrets.walk_string. rewrite Hr.
  unfold redeem. cbn [fst snd]. by rewrite He, (proj2 (Z.ltb_lt _ _) Hlive), Hu.
Qed.

Lemma fingerprint_expired_ref r e s :
  is_well_formed_ref r = true -> vs_map s !! r = Some e -> (en_expires_at e <= now clock s)%Z ->
  fingerprint_refs clock (collect_refs_in_params (String r)) s = ([], tick s).
Proof.
  intros Hr He Hdead. unfold collect_refs_in_params. cbn [for_each_ref]. rewrite Hr.
  unfold fold_left, collect_step. cbn [snd fst app]. rewrite bool_decide_eq_false_2 by apply not_elem_of_nil.
  cbn [fst fingerprint_refs]. unfold value_fingerprint. by rewrite He, (proj2 (Z.leb_le _ _) Hdead).
Qed.

Lemma screen_allows (env : HostEnv X) tool v :
  h_guard env = None ->
  iv_decision (catalogue_verdict tool (extract_scannable_text v SCAN_BYTE_CAP).1 v) = Allow ->
  screen_result env tool v = ret (mkScreen v None None).
Proof.
  intros Hg Ha. unfold screen_result. destruct (extract_scannable_text v SCAN_BYTE_CAP) as [body truncated].
  cbn [fst] in Ha. by rewrite Ha, Hg.
Qed.

(** The scrub forgets a secret that expires during the call.  The
    fingerprints are looked up after the worker has answered, and an expired
    entry has none; so when the deadline of a redeemed secret passes while the
    worker runs, whatever the worker returns, the plaintext included, reaches the
    caller as it is, if the injection screen allows it. *)
Theorem secret_expiring_in_call_is_not_scrubbed (env : HostEnv X) tool method r e s x n v x' :
  is_well_formed_ref r = true -> vs_map s !! r = Some e -> is_utf8 (en_plaintext e) = true ->
  (now clock s < en_expires_at e)%Z ->
  (en_expires_at e <= clock (S (vs_tick s) + n)%nat)%Z ->
  h_egress env = None -> h_guard env = None ->
  h_call env method (String (en_plaintext e)) x = (Ok v, [OpWait n], x') ->
  iv_decision (catalogue_verdict tool (extract_scannable_text v SCAN_BYTE_CAP).1 v) = Allow ->
  (dispatch_with_sink clock iter_order env tool method (String r) (s, x) []).1.1 = Ok v.
Proof.
  intros Hr He Hu Hlive Hdead Heg Hg Hcall Hscreen.
  unfold dispatch_with_sink, bind at 1, on_vault at 1, effect at 1. cbn [fst snd].
  rewrite (substitute_one_ref r e s) by done. cbn iota beta.
  unfold compute_provision. rewrite Heg. unfold emit_provision, worker_call, bind, outside, effect, emit, ret.
  cbn iota beta. cbn [snd]. rewrite Hcall. cbn [fst snd on_vault effect run_ops fold_left run_op].
  destruct (h_elapsed_ms env x') as [ms x2]. cbn iota beta.
  set (s2 := mkVault _ _ _). set (t2 := EvCall _ _ _ :: _).
  assert (Hc : conclude_call clock iter_order env tool (String r) (Ok v) (s2, x2) t2 =
               (Ok (Ok v, None, None), (tick s2, x2), t2)).
  { unfold conclude_call, fingerprints_for_dispatch, on_vault, effect, bind, ret. cbn [fst snd].
    rewrite (fingerprint_expired_ref r e) by done. cbn [map]. by rewrite (screen_allows env tool v). }
  unfold finalize, bind at 1. rewrite Hc. cbn iota beta.
  destruct (audited_rows env (map (redeemed_row tool method ms) [event_of r]) (tick s2) x2 t2)
    as (r1 & s3 & x3 & rs & E1 & _ & _ & ->).
  unfold bind at 1. rewrite E1. cbn iota beta.
  destruct (audited_row env (tool_row env tool method (String r) (Ok v) None ms) s3 x3 (map EvRow rs ++ t2))
    as (r1 & s4 & x4 & rs' & E2 & _ & _ & ->).
  unfold bind. by rewrite E2.
Qed.
End Expiry.

(** * Witnesses *)

(** A clock that ticks once an hour. *)
Definition hourly (k : nat) : Z := (Z.of_nat k * DEFAULT_TTL)%Z.

Definition demo_vault (expires : Z) : VaultState :=
  mkVault DEFAULT_TTL {[ demo_ref := mkEntry demo_secret expires ]} 0.

(** A worker that echoes its parameters and takes [ticks] readings of the clock. *)
Definition echo_host (ticks : nat) : HostEnv () := {|
  h_call _ params x := (Ok params, [OpWait ticks], x);
  h_egress := None; h_guard := None;
  h_sink _ x := (true, x); h_elapsed_ms x := (1%Z, x); h_f32 := int_value; h_debug _ := [] |}.

Definition demo_dispatch : result Value ToolHostError * (VaultState * ()) * list HostEvent :=
  dispatch_with_sink demo_clock id (echo_host 3) (bs "shell-exec") (bs "run") (String demo_ref)
    (demo_vault 100, tt) [].

Lemma run_parts {A B C D} (o : A * (B * C) * D) : o = (o.1.1, (o.1.2.1, o.1.2.2), o.2).
Proof. by destruct o as [[a [b c]] d]. Qed.


(** When it expires during the call, the echo comes back in the clear. *)
Lemma secret_expiring_in_call_is_not_scrubbed_witness :
  (dispatch_with_sink hourly id (echo_host 3) (bs "shell-exec") (bs "run") (String demo_ref)
     (demo_vault DEFAULT_TTL, tt) []).1.1 = Ok (String demo_secret).
Proof.
  apply (secret_expiring_in_call_is_not_scrubbed hourly id (echo_host 3) (bs "shell-exec") (bs "run") demo_ref
           (mkEntry demo_secret DEFAULT_TTL) (demo_vault DEFAULT_TTL) tt 3 (String demo_secret) tt);
    vm_compute; reflexivity || discriminate.
Defined.
