(* ===== verification/Asks.v ===== *)
(** The pure half of the operator-ask path (src/core/src/scheduler/asks/pure.rs
    and the shared vocabulary of src/db/src/asks.rs and
    src/core/src/channel/ask_message.rs): what a resolved ask decides about one
    plan, the ask deadline, and the codec of a suspended run's history.

    A [PlanRecord] is its plan and its outcomes: the rendered fields of the
    source are a pure function of those two, recomputed by [PlanRecord::new] on
    restore. *)

From stdpp Require Import base list numbers strings option sets.
From Stdlib Require Import ZArith Lia.
From S2P Require Import Prelude RustStr Fingerprint HashesWire Json Cassandra PlanJson.
Local Open Scope nat_scope.

(** * Data *)

Record PlanRecord := mkRecord { rec_plan : Plan; rec_outcomes : list StepOutcome }.

(** The row of [asks] the scheduler reads, less its timestamps. *)
Record Ask := mkAsk {
  ask_id : Z; ask_task_id : Z; ask_kind : bytes; ask_body : bytes; ask_options : Value;
  ask_plan_digest : option bytes; ask_state : bytes; ask_resolved_by : option bytes;
  ask_resolution : option Value; ask_resume_state : option Value }.

Inductive AskChoice := ChoiceApprove | ChoiceDeny.

Definition ask_choice_str (c : AskChoice) : bytes :=
  match c with ChoiceApprove => bs "approve" | ChoiceDeny => bs "deny" end.

Inductive AskDecision := Approved | Denied | NotForThisPlan.

Definition RESOLUTION_CHOICE_KEY : bytes := bs "choice".
Definition RESOLUTION_FREE_TEXT_KEY : bytes := bs "free_text".
Definition ASK_KIND_PLAN_APPROVAL : bytes := bs "plan_approval".
Definition DEFAULT_ASK_DEADLINE_S : Z := 86400.

(** * Operations *)

Definition resolution (choice : bytes) (free_text : option bytes) : Value :=
  match free_text with
  | Some t => object [(RESOLUTION_CHOICE_KEY, String choice); (RESOLUTION_FREE_TEXT_KEY, String t)]
  | None => object [(RESOLUTION_CHOICE_KEY, String choice)]
  end.

(** The options [raise_and_suspend] offers. *)
Definition plan_approval_options : Value :=
  Array [String (ask_choice_str ChoiceApprove); String (ask_choice_str ChoiceDeny)].

Definition resolution_choice (ask : Ask) : option AskChoice :=
  choice ← (ask_resolution ask ≫= get RESOLUTION_CHOICE_KEY) ≫= as_str;
  offered ← as_array (ask_options ask);
  if existsb (fun o => bool_decide (as_str o = Some choice)) offered then
    if bytes_eqb choice (ask_choice_str ChoiceApprove) then Some ChoiceApprove
    else if bytes_eqb choice (ask_choice_str ChoiceDeny) then Some ChoiceDeny
    else None
  else None.

Definition decide_ask (ask : Ask) (digest : bytes) : AskDecision :=
  match resolution_choice ask with
  | Some ChoiceDeny => Denied
  | Some ChoiceApprove =>
      if bool_decide (ask_plan_digest ask = Some digest) then Approved else NotForThisPlan
  | None => NotForThisPlan
  end.

Definition ask_deadline_seconds `{UnicodeStr} (raw : option bytes) : Z :=
  match raw ≫= fun s => parse_i64 (str_trim s) with
  | Some n => if (0 <? n)%Z then n else DEFAULT_ASK_DEADLINE_S
  | None => DEFAULT_ASK_DEADLINE_S
  end.

Record RestoredRun := mkRestored {
  rr_plans : list PlanRecord; rr_advisories : list bytes; rr_blocks : list bytes }.

Definition restored_default : RestoredRun := mkRestored [] [] [].

Definition string_list (v : option Value) : list bytes :=
  match v ≫= as_array with
  | Some a => omap as_str a
  | None => []
  end.

Definition record_to_value (p : PlanRecord) : Value :=
  object [(bs "plan", plan_to_value (rec_plan p));
          (bs "outcomes", Array (map outcome_to_value (rec_outcomes p)))].

Definition resume_state_from (plans : list PlanRecord) (advisories blocks : list bytes) : Value :=
  object [(bs "plans", Array (map record_to_value plans));
          (bs "advisories", Array (map String advisories));
          (bs "blocks", Array (map String blocks))].

Definition restore_record (e : Value) : option PlanRecord :=
  plan ← req_field (bs "plan") plan_from_value e;
  outcomes ← req_field (bs "outcomes") (array_of outcome_from_value) e;
  Some (mkRecord plan outcomes).

(** [collect::<Option<Vec<_>>>]: all or nothing. *)
Definition restore_plans (v : option Value) : option (list PlanRecord) :=
  match v ≫= as_array with
  | Some entries => mapM restore_record entries
  | None => Some []
  end.

Definition restore_resume_state (v : option Value) : RestoredRun :=
  match v with
  | Some (Object m) =>
      mkRestored (default [] (restore_plans (map_get (bs "plans") m)))
        (string_list (map_get (bs "advisories") m)) (string_list (map_get (bs "blocks") m))
  | _ => restored_default
  end.

(** * Lemmas *)

Lemma string_list_strings l : string_list (Some (Array (map String l))) = l.
Proof. unfold string_list. simpl. induction l as [|s l IH]; simpl; [done|]. by f_equal. Qed.

Lemma record_roundtrip r : wf_plan (rec_plan r) -> restore_record (record_to_value r) = Some r.
Proof.
  intros Hwf. unfold restore_record, record_to_value. destruct r as [pl oc].
  cbn [rec_plan rec_outcomes] in *. repeat read_field. rewrite plan_roundtrip by done.
  cbn [array_of as_array mbind option_bind].
  by rewrite (mapM_enc outcome_to_value) by (apply Forall_true, outcome_roundtrip).
Qed.

Lemma resolution_choice_Approve ask :
  resolution_choice ask = Some ChoiceApprove ->
  (exists offered, as_array (ask_options ask) = Some offered /\
     String (ask_choice_str ChoiceApprove) ∈ offered) /\
  (exists r, ask_resolution ask = Some r /\
     get RESOLUTION_CHOICE_KEY r = Some (String (ask_choice_str ChoiceApprove))).
Proof.
  unfold resolution_choice. intros (c & Hc & H)%bind_Some. apply bind_Some in H as (offered & Ho & H).
  apply bind_Some in Hc as (w & (r & Hr & Hw)%bind_Some & Hc). destruct w; try discriminate Hc.
  injection Hc as ->. destruct (existsb _ _) eqn:Hex; [|done].
  destruct (bytes_eqb c (ask_choice_str ChoiceApprove)) eqn:Ec;
    [|by destruct (bytes_eqb c (ask_choice_str ChoiceDeny))].
  apply bytes_eqb_eq in Ec as ->. split; [|by exists r].
  exists offered. split; [done|]. apply existsb_exists in Hex as (o & Hin & Heq).
  apply bool_decide_eq_true in Heq. destruct o; try discriminate Heq. injection Heq as ->.
  by apply list_elem_of_In.
Qed.

Lemma decide_ask_Approved ask digest :
  decide_ask ask digest = Approved ->
  resolution_choice ask = Some ChoiceApprove /\ ask_plan_digest ask = Some digest.
Proof.
  unfold decide_ask. destruct (resolution_choice ask) as [[]|]; [|done..].
  case_bool_decide; naive_solver.
Qed.

(** * Theorems *)

(** C30. An operator approval binds to the plan it was given for: when an ask
    raised for plan [p0] decides [Approved] for a plan [p], then [p] and [p0]
    agree on everything but their narration (the four prose fields nothing acts
    on), unless their two distinct canonical forms are a collision of the digest;
    and the ask does offer, and its resolution does contain, the choice
    "approve". *)
Theorem approval_binds_to_plan `{Sha256} to_vec ask p0 p :
  pl_result p0 <> Some Null -> pl_result p <> Some Null ->
  ask_plan_digest ask = Some (plan_digest to_vec p0) ->
  decide_ask ask (plan_digest to_vec p) = Approved ->
  (strip_narration p = strip_narration p0 \/
   (canonical_form p <> canonical_form p0 /\
    sha256 (to_vec (canonical_form p)) = sha256 (to_vec (canonical_form p0)))) /\
  (exists offered, as_array (ask_options ask) = Some offered /\
     String (ask_choice_str ChoiceApprove) ∈ offered) /\
  (exists r, ask_resolution ask = Some r /\
     get RESOLUTION_CHOICE_KEY r = Some (String (ask_choice_str ChoiceApprove))).
Proof.
  intros Hn0 Hn Hd Ha. apply decide_ask_Approved in Ha as [Hc Hdig]. split.
  - rewrite Hd in Hdig. injection Hdig as Hdig. apply sha256_hex_inj in Hdig.
    destruct (decide (canonical_form p0 = canonical_form p)) as [E|Hne].
    + left. symmetry. by apply canonical_form_strip.
    + right. by split; [intros E; by apply Hne|].
  - by apply resolution_choice_Approve.
Qed.

(** A suspended run comes back whole: restoring what the suspension stored
    gives the plan history in order, with every outcome, and the reviewer's
    advisories and blocks, each in its own list. *)
Theorem resume_state_roundtrip plans advisories blocks :
  Forall (fun r => wf_plan (rec_plan r)) plans ->
  restore_resume_state (Some (resume_state_from plans advisories blocks)) =
  mkRestored plans advisories blocks.
Proof.
  intros Hwf.
  transitivity (mkRestored (default [] (restore_plans (Some (Array (map record_to_value plans)))))
    (string_list (Some (Array (map String advisories)))) (string_list (Some (Array (map String blocks)))));
    [reflexivity|].
  unfold restore_plans. cbn [mbind option_bind as_array]. rewrite !string_list_strings, mapM_enc; [done|].
  eapply Forall_impl; [exact Hwf|]. intros r. apply record_roundtrip.
Qed.

(** * Witnesses *)

Definition demo_step : PlannedStep :=
  mkStep (bs "mail") (bs "mail.send") (object [(bs "to", String (bs "ops@example.org"))])
    (bs "a receipt") (bs "sent") Personal.

Definition demo_plan : Plan :=
  mkPlan (bs "ctx") (bs "send it") (bs "because") [demo_step] None (Some Personal) None None None None
    None None.

(** The same plan, narrated differently. *)
Definition demo_replan : Plan :=
  mkPlan (bs "another context") (bs "send it") (bs "other words")
    [mkStep (bs "mail") (bs "mail.send") (object [(bs "to", String (bs "ops@example.org"))])
       (bs "the id") (bs "accepted") Personal]
    None (Some Personal) None None None None None None.

Definition demo_to_vec (v : Value) : bytes := if value_eqb v (canonical_form demo_plan) then [1%Z] else [2%Z].

Definition demo_ask : Ask :=
  mkAsk 7 3 ASK_KIND_PLAN_APPROVAL (bs "send mail?") plan_approval_options
    (Some (plan_digest demo_to_vec demo_plan)) (bs "resolved") (Some (bs "cli"))
    (Some (resolution (bs "approve") None)) None.

Lemma approval_binds_to_plan_witness :
  decide_ask demo_ask (plan_digest demo_to_vec demo_replan) = Approved /\
  strip_narration demo_replan = strip_narration demo_plan.
Proof.
  assert (Ha : decide_ask demo_ask (plan_digest demo_to_vec demo_replan) = Approved)
    by (vm_compute; reflexivity).
  split; [exact Ha|].
  destruct (approval_binds_to_plan demo_to_vec demo_ask demo_plan demo_replan ltac:(discriminate)
              ltac:(discriminate) eq_refl Ha) as [[H | [H _]] _]; [exact H|].
  destruct H. vm_compute. reflexivity.
Defined.

Lemma resume_state_roundtrip_witness :
  restore_resume_state (Some (resume_state_from
    [mkRecord demo_plan [StepErr (bs "DENIED") (bs "no")]] [bs "be brief"] [])) =
  mkRestored [mkRecord demo_plan [StepErr (bs "DENIED") (bs "no")]] [bs "be brief"] [].
Proof.
  apply resume_state_roundtrip. constructor; [|constructor].
  split; [discriminate|intros r Hr; discriminate Hr].
Defined.
