(* ===== verification/LoopPure.v ===== *)
(** The pure parts of the per-task loop: the task context and its floor
    (src/core/src/scheduler/inner_loop.rs, inner_loop/floor.rs), the two limits
    that end gathering (inner_loop/ceiling.rs), the formulator's errors
    (src/core/src/scheduler/agent.rs, src/llm-router/src/error.rs) and the
    decisions and messages of inner_loop/llm_failure.rs.

    Instants and durations are [Z], in nanoseconds.  Counters
    are [Z]; the sources' [saturating_add] stops at the largest [u32]. *)

From stdpp Require Import base list numbers strings option pretty.
From Stdlib Require Import ZArith Lia.
From S2P Require Import Prelude RustStr Json Cassandra PlanJson Asks.
Local Open Scope nat_scope.

(** * The task context *)

Inductive Lane := Fast | Long.

Inductive ClassificationFloorSource :=
| Operator | CliInferred | AgentRaised | DefaultFloor | ConversationInherited.

Definition floor_source_str (s : ClassificationFloorSource) : bytes :=
  match s with
  | Operator => bs "operator"
  | CliInferred => bs "cli_inferred"
  | AgentRaised => bs "agent_raised"
  | DefaultFloor => bs "default"
  | ConversationInherited => bs "conversation_inherited"
  end.

Record AskDestination := mkDest { ad_channel : bytes; ad_peer : bytes; ad_conversation : bytes }.

Record TaskContext := mkCtx {
  cx_task_id : Z;
  cx_lane : Lane;
  cx_instruction : bytes;
  cx_floor : DataClass;
  cx_floor_source : ClassificationFloorSource;
  cx_floor_signals : list bytes;
  cx_plans : list PlanRecord;
  cx_advisories : list bytes;
  cx_blocks : list bytes;
  cx_plan_count : Z;
  cx_max_plans : Z;
  cx_deadline : option Z;
  cx_resolved_asks : list Ask;
  cx_origin : option AskDestination;
  cx_conversation : list Value;
  cx_conversation_task_ids : option (list Z) }.

(** Field updates. *)
Definition with_floor (c : TaskContext) (f : DataClass) (s : ClassificationFloorSource) (sg : list bytes)
    : TaskContext :=
  mkCtx (cx_task_id c) (cx_lane c) (cx_instruction c) f s sg (cx_plans c) (cx_advisories c)
    (cx_blocks c) (cx_plan_count c) (cx_max_plans c) (cx_deadline c) (cx_resolved_asks c)
    (cx_origin c) (cx_conversation c) (cx_conversation_task_ids c).

Definition with_plan_count (c : TaskContext) (n : Z) : TaskContext :=
  mkCtx (cx_task_id c) (cx_lane c) (cx_instruction c) (cx_floor c) (cx_floor_source c)
    (cx_floor_signals c) (cx_plans c) (cx_advisories c) (cx_blocks c) n (cx_max_plans c)
    (cx_deadline c) (cx_resolved_asks c) (cx_origin c) (cx_conversation c) (cx_conversation_task_ids c).

Definition with_history (c : TaskContext) (plans : list PlanRecord) (adv blk : list bytes) : TaskContext :=
  mkCtx (cx_task_id c) (cx_lane c) (cx_instruction c) (cx_floor c) (cx_floor_source c)
    (cx_floor_signals c) plans adv blk (cx_plan_count c) (cx_max_plans c)
    (cx_deadline c) (cx_resolved_asks c) (cx_origin c) (cx_conversation c) (cx_conversation_task_ids c).

Definition push_plan (c : TaskContext) (r : PlanRecord) : TaskContext :=
  with_history c (cx_plans c ++ [r]) (cx_advisories c) (cx_blocks c).
Definition push_advisory (c : TaskContext) (a : bytes) : TaskContext :=
  with_history c (cx_plans c) (cx_advisories c ++ [a]) (cx_blocks c).
Definition push_blocks (c : TaskContext) (b : list bytes) : TaskContext :=
  with_history c (cx_plans c) (cx_advisories c) (cx_blocks c ++ b).

(** floor.rs: never lowers the floor. *)
Definition apply_floor_raise (c : TaskContext) (p : Plan) : TaskContext * bool :=
  match pl_floor_request p with
  | Some req =>
      if (rank (cx_floor c) <? rank req)%Z then (with_floor c req AgentRaised [], true) else (c, false)
  | None => (c, false)
  end.

(** * The limits (ceiling.rs) *)

Definition PLANNER_MAX_TOKENS : Z := 16384.
Definition CALL_TIMEOUT_FLOOR : Z := 120 * 1000000000.

(** [d.saturating_duration_since(now)] *)
Definition saturating_since (d now : Z) : Z := Z.max 0 (d - now).

Definition call_timeout (configured : Z) (deadline : option Z) (now : Z) : Z :=
  match deadline with
  | None => configured
  | Some d => Z.min configured (Z.max (saturating_since d now) CALL_TIMEOUT_FLOOR)
  end.

Inductive Exhausted := Plans | Time.

Definition exhausted (plan_count max_plans : Z) (deadline : option Z) (now : Z) : option Exhausted :=
  if (max_plans <=? plan_count)%Z then Some Plans
  else match deadline with
       | Some d => if (d <=? now)%Z then Some Time else None
       | None => None
       end.

Definition seconds_left (deadline : option Z) (now : Z) : option Z :=
  (fun d => saturating_since d now / 1000000000)%Z <$> deadline.

(** [show] of a [u32]. *)
Definition show_z (z : Z) : bytes := bs (pretty z).

Definition exhausted_detail (which : Exhausted) (max_plans : Z) (after_synthesis : bool) : bytes :=
  let head :=
    match which with
    | Plans => bs "plan_iteration_cap_exceeded (" ++ show_z max_plans ++ bs ">=" ++ show_z max_plans ++ bs ")"
    | Time => bs "plan_time_ceiling_exceeded"
    end in
  if after_synthesis then head ++ bs "; forced synthesis did not produce a final answer" else head.

(** * The formulator's errors (agent.rs, error.rs) *)

(** The two [reqwest] flags and the text of a transport error; every other
    variant keeps its text. *)
Inductive RouterError :=
| Transport (is_timeout is_connect : bool) (text : bytes)
| OtherRouterError (text : bytes).

Definition is_request_timeout_flags (is_timeout is_connect : bool) : bool := is_timeout && negb is_connect.

Definition router_is_request_timeout (e : RouterError) : bool :=
  match e with Transport t c _ => is_request_timeout_flags t c | OtherRouterError _ => false end.

Record CompletionStats := mkStats {
  cs_prompt_tokens : option Z; cs_cached_prompt_tokens : option Z; cs_completion_tokens : option Z;
  cs_reasoning_tokens : option Z; cs_reasoning_chars : Z; cs_finish_reason : option bytes }.

(** Serialised with explicit [null]s. *)
Definition stats_to_value (s : CompletionStats) : Value :=
  object [(bs "prompt_tokens", opt_value int_value (cs_prompt_tokens s));
          (bs "cached_prompt_tokens", opt_value int_value (cs_cached_prompt_tokens s));
          (bs "completion_tokens", opt_value int_value (cs_completion_tokens s));
          (bs "reasoning_tokens", opt_value int_value (cs_reasoning_tokens s));
          (bs "reasoning_chars", int_value (cs_reasoning_chars s));
          (bs "finish_reason", opt_value String (cs_finish_reason s))].

Inductive AgentError :=
| Router (e : RouterError)
| Decode (detail raw : bytes) (usage : CompletionStats) (latency_ms : Z)
| PromptMissing
| PromptAssembly (text : bytes).

(** [Display]; the text of a [RouterError] includes its own prefix. *)
Definition router_str (e : RouterError) : bytes :=
  match e with Transport _ _ t | OtherRouterError t => t end.

Definition agent_error_str (e : AgentError) : bytes :=
  match e with
  | Router r => bs "router: " ++ router_str r
  | Decode detail _ _ _ => bs "plan decode failed: " ++ detail
  | PromptMissing => bs "agent prompt (agent_planner or agent_notebook) not found in cache"
  | PromptAssembly t => bs "prompt assembly: " ++ t
  end.

Definition is_request_timeout (e : AgentError) : bool :=
  match e with Router r => router_is_request_timeout r | _ => false end.

Definition cut_at_length (u : CompletionStats) : bool :=
  bool_decide (cs_finish_reason u = Some (bs "length")).

Definition is_blank `{UnicodeStr} (raw : bytes) : bool := bytes_eqb (str_trim raw) [].

Definition is_empty_completion `{UnicodeStr} (e : AgentError) : bool :=
  match e with Decode _ raw usage _ => is_blank raw && negb (cut_at_length usage) | _ => false end.

Definition ran_out_of_tokens (e : AgentError) : bool :=
  match e with Decode _ _ usage _ => cut_at_length usage | _ => false end.

Definition non_plan_answer `{UnicodeStr} (e : AgentError) : option bytes :=
  match e with
  | Decode _ raw usage _ => if negb (is_blank raw) && negb (cut_at_length usage) then Some raw else None
  | _ => None
  end.

Definition completion (e : AgentError) : option (CompletionStats * Z * bytes) :=
  match e with Decode _ raw usage latency_ms => Some (usage, latency_ms, raw) | _ => None end.

(** * Failed planning calls (llm_failure.rs) *)

Definition should_force_synthesis (timed_out gathered synth_attempted : bool) : bool :=
  timed_out && gathered && negb synth_attempted.

Definition MAX_METHOD_CHARS : nat := 64.
Definition OTHER_METHOD : bytes := bs "other".

Record GatheredWork := mkWork {
  gw_calls : nat; gw_succeeded : nat; gw_by_method : list (bytes * nat) }.

Definition displayable_method (method : bytes) : bytes :=
  if negb (bytes_eqb method []) && (char_count method <=? MAX_METHOD_CHARS)
     && forallb (fun c => is_ascii_alphanumeric c || (c =? 46)%Z || (c =? 95)%Z || (c =? 45)%Z) method
  then method else OTHER_METHOD.

Definition count_call (w : GatheredWork) (so : PlannedStep * StepOutcome) : GatheredWork :=
  let m := displayable_method (st_method so.1) in
  mkWork (gw_calls w + 1) (gw_succeeded w + if is_err so.2 then 0 else 1)
    (map_insert m (default 0 (map_get m (gw_by_method w)) + 1) (gw_by_method w)).

Definition from_plans (plans : list PlanRecord) : GatheredWork :=
  fold_left (fun w r => fold_left count_call (zip (pl_steps (rec_plan r)) (rec_outcomes r)) w)
    plans (mkWork 0 0 []).

Definition plural (n : nat) : bytes := if n =? 1 then [] else bs "s".

Definition timeout_failure_detail (work : GatheredWork) (router_error : bytes) : bytes :=
  (if gw_calls work =? 0 then
     bs "The language model ran out of time before it finished planning, so no tool was called and no answer was produced."
   else
     bs "The language model ran out of time before it could write an answer, so this task produced none. It had already made "
     ++ show_nat (gw_calls work) ++ bs " tool call" ++ plural (gw_calls work) ++ bs " ("
     ++ show_nat (gw_succeeded work) ++ bs " succeeded): "
     ++ join (bs ", ") (map (fun mn => mn.1 ++ bs " ×" ++ show_nat mn.2) (gw_by_method work)) ++ bs ".")
  ++ bs " Asking for less at once (fewer items, a narrower question) usually fits; the operator can also raise KASTELLAN_LLM_TIMEOUT_MS (a fast-lane task's time ceiling bounds each call too). [llm: "
  ++ router_error ++ bs "]".

Definition decode_failure_detail (empty : bool) (decode_error : bytes) : bytes :=
  (if empty then bs "The language model returned an empty answer, so this task produced none."
   else bs "The language model answered with something that is not a plan, so this task produced none.")
  ++ bs " You can ask again. [llm: " ++ decode_error ++ bs "]".

Definition token_cap_failure_detail (decode_error : bytes) : bytes :=
  bs "The language model used its whole reply budget (" ++ show_z PLANNER_MAX_TOKENS
  ++ bs " tokens) without finishing, so this task produced none. Asking for less at once (fewer items, a narrower question) usually fits. [llm: "
  ++ decode_error ++ bs "]".

Definition forced_synthesis_no_answer_detail (work : GatheredWork) : bytes :=
  bs "A planning call ran out of time, so the task asked the language model to answer from the "
  ++ show_nat (gw_succeeded work) ++ bs " tool result" ++ plural (gw_succeeded work)
  ++ bs " already gathered — and it asked for more tools instead of answering. No answer was produced. Asking for less at once usually fits; the operator can also raise KASTELLAN_LLM_TIMEOUT_MS (a fast-lane task's time ceiling bounds each call too). [llm: forced synthesis after a timeout did not produce a final answer]".

Definition FAILED_ROW_ERROR_CHARS : nat := 512.
Definition FAILED_ROW_RAW_HEAD_CHARS : nat := 512.

Definition formulate_failed_payload (task_id plan_count : Z)
    (synth_turn thinking_suppressed_retry request_timeout : bool) (error : bytes)
    (compl : option (CompletionStats * Z * bytes)) : Value :=
  object ([(bs "task_id", int_value task_id);
           (bs "plan_count", int_value plan_count);
           (bs "synth_turn", Bool synth_turn);
           (bs "thinking_suppressed_retry", Bool thinking_suppressed_retry);
           (bs "request_timeout", Bool request_timeout);
           (bs "error", String (take_chars FAILED_ROW_ERROR_CHARS error))] ++
          match compl with
          | Some (usage, latency_ms, raw) =>
              [(bs "llm_usage", stats_to_value usage); (bs "latency_ms", int_value latency_ms);
               (bs "raw_head", String (take_chars FAILED_ROW_RAW_HEAD_CHARS raw));
               (bs "raw_chars", int_value (Z.of_nat (char_count raw)))]
          | None => []
          end).

(** [u32::saturating_add(1)] *)
Definition sat_succ (n : Z) : Z := Z.min (n + 1) 4294967295.

(** * Lemmas *)

Lemma apply_floor_raise_floor c p c' b :
  apply_floor_raise c p = (c', b) -> (rank (cx_floor c) <= rank (cx_floor c'))%Z.
Proof.
  unfold apply_floor_raise. destruct (pl_floor_request p) as [req|]; [|intros [= <- _]; lia].
  destruct (Z.ltb_spec (rank (cx_floor c)) (rank req)); intros [= <- _]; simpl; lia.
Qed.

(** The three error classes of [formulate_turn] do not overlap. *)
Lemma timeout_not_decode `{UnicodeStr} e :
  is_request_timeout e = true -> is_empty_completion e = false /\ non_plan_answer e = None.
Proof. by destruct e. Qed.
