(* ===== verification/InnerLoop.v ===== *)
(** The per-task loop (src/core/src/scheduler/inner_loop.rs and
    inner_loop/{llm_failure,invoke_expand,execute}.rs): formulate a plan, raise
    the floor, resolve the ceiling, expand an invoked skill, review, dispatch,
    and again until a terminal outcome.

    The loop is a program ([Effects.prog]) over an environment [Env] that holds
    what the source takes as trait objects and database calls; every effect and
    every audit row leaves an [Event] in the trace.  [run_loop] takes fuel, one
    unit per iteration; [InnerLoopSpec] proves how much is always enough. *)

From stdpp Require Import base list numbers strings option.
From Stdlib Require Import ZArith Lia.
From S2P Require Import Prelude RustStr Fingerprint Effects Json Cassandra PlanJson Asks LoopPure.
Local Open Scope prog_scope.

(** * Data *)

Definition MAX_STEPS_PER_PLAN : nat := 64.

Definition DbError : Type := bytes.

(** The formulation facts the loop itself touches; the remaining fields of the
    source's struct are only copied into the audit row. *)
Record FormulationMeta := mkMeta { fm_latency_ms : Z; fm_retry_count : Z; fm_usage : CompletionStats }.

Inductive Outcome :=
| Completed (v : Value)
| Failed (detail : bytes)
| Cancelled
| TimedOut
| Blocked (principle : Z) (reason : bytes)
| Refused (principle : Z) (reason body : bytes)
| AwaitingOperator (ask : Z)
| OperatorDenied (ask : Z) (reason : bytes).

Definition final_state (o : Outcome) : option bytes :=
  match o with
  | Completed _ => Some (bs "completed")
  | Failed _ => Some (bs "failed")
  | Cancelled => Some (bs "cancelled")
  | TimedOut => Some (bs "timed_out")
  | Blocked _ _ => Some (bs "blocked")
  | Refused _ _ _ => Some (bs "refused")
  | OperatorDenied _ _ => Some (bs "blocked")
  | AwaitingOperator _ => None
  end.

Definition result_payload (o : Outcome) : option Value :=
  match o with
  | Completed v => Some v
  | Failed s => Some (object [(bs "kind", String (bs "error")); (bs "detail", String s)])
  | Blocked principle reason =>
      Some (object [(bs "kind", String (bs "blocked")); (bs "principle", int_value principle);
                    (bs "reason", String reason)])
  | Refused principle reason body =>
      Some (object [(bs "kind", String (bs "refused")); (bs "principle", int_value principle);
                    (bs "reason", String reason); (bs "body", String body)])
  | OperatorDenied ask reason =>
      Some (object [(bs "kind", String (bs "denied")); (bs "ask_id", int_value ask);
                    (bs "reason", String reason)])
  | Cancelled | TimedOut | AwaitingOperator _ => None
  end.

Record InnerLoopResult := mkResult {
  ir_outcome : Outcome;
  ir_plan_count : Z;
  ir_dispatch_count : Z;
  ir_failed_llm_calls : Z;
  ir_l1_insight : option bytes;
  ir_l3_skill : option L3SkillCandidate;
  ir_python_skill : option PythonSkillCandidate;
  ir_turn_record : option Value }.

Record ExecState := mkExec { ex_dispatch_count : Z; ex_invoke_used : bool; ex_gathered : bool }.

Definition exec_default : ExecState := mkExec 0 false false.

Inductive StepPolicy := PlanPolicy | SiftReads (cap : nat).

Definition policy_cap (p : StepPolicy) : nat :=
  match p with PlanPolicy => MAX_STEPS_PER_PLAN | SiftReads cap => cap end.

Definition stops_on_error (p : StepPolicy) : bool :=
  match p with PlanPolicy => true | SiftReads _ => false end.

Record Finished := mkFinished {
  fi_outcome : Outcome; fi_insight : option bytes;
  fi_skill : option L3SkillCandidate; fi_python_skill : option PythonSkillCandidate }.

Inductive Executed := ExFinished (f : Finished) | Again | Dispatched.

Definition finished (o : Outcome) : Executed := ExFinished (mkFinished o None None None).

Inductive Turn :=
| Planned (p : Plan) (m : FormulationMeta)
| ForceSynthesis
| TurnFailed (detail : bytes).

Record PinnedSkill := mkPinned { ps_memory_id : Z; ps_template : L3SkillCandidate; ps_body_sha256 : bytes }.
Record PinnedPythonSkill := mkPinnedPy {
  pp_memory_id : Z; pp_candidate : PythonSkillCandidate; pp_body_sha256 : bytes }.

Inductive InvokeExpansion :=
| ExpRefused (reasons : list bytes)
| Expanded (steps : list PlannedStep) (memory_id : Z) (name : bytes).

(** Which door of the formulator a call went through. *)
Inductive CallKind := CallPlan | CallSynthesis | CallWithoutThinking | CallReformat | CallNotebook.

Inductive Event :=
| EvCall (k : CallKind)                                    (** a formulator call *)
| EvFormulateFailed (payload : Value)                      (** agent/plan.formulate_failed *)
| EvDiscarded (payload : Value)                            (** agent/plan.discarded *)
| EvSift (action : bytes) (payload : Value)                (** scheduler/sift.* *)
| EvSort (message : bytes)                                 (** a call to the sorter *)
| EvPlanFormulate (p : Plan) (floor : DataClass) (source : ClassificationFloorSource)
    (ceiling : DataCeilingSource)                          (** agent/plan.formulate *)
| EvInvokeRejected (name : bytes) (reasons : list bytes)   (** l3.invoke.rejected *)
| EvInvoked (memory_id : Z) (name : bytes) (steps : nat)   (** l3.invoked *)
| EvReview (p : Plan) (ctx : ReviewStageContext) (v : Verdict)
| EvVerdict (v : Verdict)                                  (** cassandra:chain/verdict *)
| EvApprovalApplied (ask : Z) (digest : bytes)             (** ask.approval_applied *)
| EvRaise (digest : bytes)                                 (** an ask raised, the task suspended *)
| EvDispatch (task : Z) (s : PlannedStep)
| EvPlanOutcome (executed total : nat) (any_err : bool)    (** scheduler/plan.outcome *)
| EvInvokeOutcome (memory_id : Z) (name : bytes) (executed total : nat) (any_err : bool)
| EvSinkBlocked (payload : Value).                         (** policy/injection.blocked *)

(** * The environment *)

(** The trait objects and database calls of [run_to_terminal]. *)
Record Env (W : Type) := mkEnv {
  e_now : W -> Z * W;
  e_observe_state : W -> result bytes DbError * W;
  e_audit_insert : W -> result () DbError * W;
  e_increment_plan_count : Z -> W -> result () DbError * W;
  e_formulate_plan : TaskContext -> W -> result (Plan * FormulationMeta) AgentError * W;
  e_formulate_synthesis : TaskContext -> W -> result (Plan * FormulationMeta) AgentError * W;
  e_formulate_without_thinking :
    TaskContext -> W -> option (result (Plan * FormulationMeta) AgentError) * W;
  e_formulate_reformat :
    TaskContext -> bool -> bytes -> W -> option (result (Plan * FormulationMeta) AgentError) * W;
  e_dispatch_step : Z -> PlannedStep -> W -> StepOutcome * W;
  e_qualify_method : bytes -> bytes -> option bytes;
  e_known_tools : list bytes;
  e_load_skill : bytes -> W -> result (option PinnedSkill) DbError * W;
  e_load_python_skill : bytes -> W -> result (option PinnedPythonSkill) DbError * W;
  e_expand_for_agent : L3SkillCandidate -> list (bytes * bytes) -> list bytes -> DataClass ->
    result (list PlannedStep) (list bytes);
  e_expand_python_for_agent : PythonSkillCandidate -> bytes -> DataClass -> Value ->
    result (list PlannedStep) (list bytes);
  e_raise_and_suspend : Plan -> bytes -> Severity -> Value -> W -> result Z DbError * W;
  e_sink_block_payloads : PlanRecord -> Z -> Z -> list Value;
  e_turn_record : list PlanRecord -> DataClass -> Value;
  e_to_vec : Value -> bytes;
  e_review : ReviewStage }.
Arguments mkEnv {W}.
Arguments e_now {W}. Arguments e_observe_state {W}. Arguments e_audit_insert {W}.
Arguments e_increment_plan_count {W}. Arguments e_formulate_plan {W}.
Arguments e_formulate_synthesis {W}. Arguments e_formulate_without_thinking {W}.
Arguments e_formulate_reformat {W}. Arguments e_dispatch_step {W}. Arguments e_qualify_method {W}.
Arguments e_known_tools {W}. Arguments e_load_skill {W}. Arguments e_load_python_skill {W}.
Arguments e_expand_for_agent {W}. Arguments e_expand_python_for_agent {W}.
Arguments e_raise_and_suspend {W}. Arguments e_sink_block_payloads {W}. Arguments e_turn_record {W}.
Arguments e_to_vec {W}. Arguments e_review {W}.

Section InnerLoop.
Context `{UnicodeStr} `{Sha256} {W : Type} (env : Env W).

Abbreviation M := (prog W Event DbError).

Definition row (ev : Event) : M () := insert_row (e_audit_insert env) ev.
Definition row_best_effort (ev : Event) : M () := insert_row_best_effort (e_audit_insert env) ev.

(** ** formulate_turn (llm_failure.rs) *)

Definition record_failed_formulation (ctx : TaskContext) (synth_turn suppressed : bool) (e : AgentError)
    : M () :=
  row_best_effort (EvFormulateFailed
    (formulate_failed_payload (cx_task_id ctx) (cx_plan_count ctx) synth_turn suppressed
       (is_request_timeout e) (agent_error_str e) (completion e))).

Definition call (synth_turn : bool) (ctx : TaskContext) : M (result (Plan * FormulationMeta) AgentError) :=
  if synth_turn then emit (EvCall CallSynthesis);;; effect (e_formulate_synthesis env ctx)
  else emit (EvCall CallPlan);;; effect (e_formulate_plan env ctx).

(** An optional attempt: [None] means that no call was made. *)
Definition attempt (k : CallKind) (f : W -> option (result (Plan * FormulationMeta) AgentError) * W)
    : M (option (result (Plan * FormulationMeta) AgentError)) :=
  let* r := effect f in
  match r with
  | Some x => emit (EvCall k);;; ret (Some x)
  | None => ret None
  end.

(** The failure detail of an error that ends the task. *)
Definition failure_detail (ctx : TaskContext) (reasked : bool) (e : AgentError) : bytes :=
  let detail :=
    if is_request_timeout e then timeout_failure_detail (from_plans (cx_plans ctx)) (agent_error_str e)
    else if ran_out_of_tokens e then token_cap_failure_detail (agent_error_str e)
    else match e with
         | Decode _ raw _ _ => decode_failure_detail (is_blank raw) (agent_error_str e)
         | _ => bs "llm: " ++ agent_error_str e
         end in
  if reasked && match non_plan_answer e with None => true | Some _ => false end
  then bs "The language model's first answer was not a plan, so it was asked again. " ++ detail
  else detail.

(** The second half of [formulate_turn]: what the formulation, first attempt
    or retry, comes to. *)
Definition conclude_turn (ctx : TaskContext) (synth_turn gathered synth_attempted : bool)
    (retried suppressed recorded reasked : bool) (failed : Z)
    (formulation : result (Plan * FormulationMeta) AgentError) : M (Turn * Z) :=
  match formulation with
  | Ok (plan, meta) =>
      ret (Planned plan
             (if retried then mkMeta (fm_latency_ms meta) (sat_succ (fm_retry_count meta)) (fm_usage meta)
              else meta), failed)
  | Err e =>
      let* failed' :=
        if recorded then ret failed
        else record_failed_formulation ctx synth_turn suppressed e;;; ret (sat_succ failed) in
      if should_force_synthesis (is_request_timeout e || ran_out_of_tokens e) gathered synth_attempted
      then ret (ForceSynthesis, failed')
      else ret (TurnFailed (failure_detail ctx reasked e), failed')
  end.

Definition formulate_turn (ctx : TaskContext) (synth_turn gathered synth_attempted : bool) (failed : Z)
    : M (Turn * Z) :=
  let conclude := conclude_turn ctx synth_turn gathered synth_attempted in
  let* first := call synth_turn ctx in
  match first with
  | Err e =>
      if synth_turn && is_request_timeout e then
        record_failed_formulation ctx true false e;;;
        let* retry := attempt CallWithoutThinking (e_formulate_without_thinking env ctx) in
        match retry with
        | Some r => conclude true true false false (sat_succ failed) r
        | None => conclude false false true false (sat_succ failed) (Err e)
        end
      else if is_empty_completion e then
        record_failed_formulation ctx synth_turn false e;;;
        let* again := call synth_turn ctx in
        conclude true false false false (sat_succ failed) again
      else
        match non_plan_answer e with
        | Some reply =>
            record_failed_formulation ctx synth_turn false e;;;
            let* retry := attempt CallReformat (e_formulate_reformat env ctx synth_turn reply) in
            match retry with
            | Some r => conclude true true false true (sat_succ failed) r
            | None => conclude false false true false (sat_succ failed) (Err e)
            end
        | None => conclude false false false false failed (Err e)
        end
  | Ok x => conclude false false false false failed (Ok x)
  end.

(** ** expand_invoke_skill (invoke_expand.rs) *)

Definition refuse (name : bytes) (reasons : list bytes) : M InvokeExpansion :=
  row (EvInvokeRejected name reasons);;; ret (ExpRefused reasons).

Definition expanded (steps : list PlannedStep) (memory_id : Z) (name : bytes) : M InvokeExpansion :=
  row (EvInvoked memory_id name (length steps));;; ret (Expanded steps memory_id name).

(** [directive] is [plan.invoke_skill], which the caller found present, so that
    [validate_invoke] does not panic. *)
Definition expand_invoke_skill (plan : Plan) (directive : InvokeDirective) (ceiling : DataClass)
    : M InvokeExpansion :=
  match validate_directive plan directive with
  | Err m => refuse (iv_name directive) [malformed_str m]
  | Ok d =>
      let* pinned := fallible (e_load_skill env (iv_name d)) in
      match pinned with
      | Some p =>
          match e_expand_for_agent env (ps_template p) (iv_args d) (e_known_tools env) ceiling with
          | Err reasons => refuse (iv_name d) reasons
          | Ok steps => expanded steps (ps_memory_id p) (iv_name d)
          end
      | None =>
          let* py := fallible (e_load_python_skill env (iv_name d)) in
          match py with
          | None => refuse (iv_name d) [bs "unknown or non-pinned skill: " ++ iv_name d]
          | Some p =>
              match e_expand_python_for_agent env (pp_candidate p) (pp_body_sha256 p) ceiling (iv_params d) with
              | Err reasons => refuse (iv_name d) reasons
              | Ok steps => expanded steps (pp_memory_id p) (iv_name d)
              end
          end
      end
  end.

(** ** review_and_dispatch (execute.rs) *)

Definition with_ceiling (p : Plan) (c : DataClass) : Plan :=
  mkPlan (pl_context p) (pl_decision p) (pl_rationale p) (pl_steps p) (pl_result p) (Some c)
    (pl_refused p) (pl_floor_request p) (pl_l1_insight p) (pl_l3_skill p) (pl_invoke_skill p)
    (pl_python_skill p).

Definition with_steps (p : Plan) (steps : list PlannedStep) : Plan :=
  mkPlan (pl_context p) (pl_decision p) (pl_rationale p) steps (pl_result p) (pl_data_ceiling p)
    (pl_refused p) (pl_floor_request p) (pl_l1_insight p) (pl_l3_skill p) (pl_invoke_skill p)
    (pl_python_skill p).

Definition qualify_step (s : PlannedStep) : PlannedStep :=
  match e_qualify_method env (st_tool s) (st_method s) with
  | Some m => mkStep (st_tool s) m (st_parameters s) (st_returns s) (st_done_when s) (st_classification s)
  | None => s
  end.

Definition qualify_plan_methods (p : Plan) : Plan := with_steps p (map qualify_step (pl_steps p)).

(** The step loop; [None] when a cancellation was observed between steps. *)
Fixpoint dispatch_steps (policy : StepPolicy) (task : Z) (steps : list PlannedStep) (st : ExecState)
    (outcomes : list StepOutcome) : M (option (list StepOutcome) * ExecState) :=
  match steps with
  | [] => ret (Some outcomes, st)
  | s :: rest =>
      let* state := fallible (e_observe_state env) in
      if bytes_eqb state (bs "cancelled") then ret (None, st)
      else
        emit (EvDispatch task s);;;
        let* o := effect (e_dispatch_step env task s) in
        let st' := mkExec (sat_succ (ex_dispatch_count st)) (ex_invoke_used st) (ex_gathered st) in
        if is_err o && stops_on_error policy then ret (Some (outcomes ++ [o]), st')
        else dispatch_steps policy task rest st' (outcomes ++ [o])
  end.

Fixpoint sink_rows (payloads : list Value) : M () :=
  match payloads with
  | [] => ret tt
  | p :: rest => row_best_effort (EvSinkBlocked p);;; sink_rows rest
  end.

(** Step 4 of the source: run the steps and record what they returned. *)
Definition execute_steps (ctx : TaskContext) (plan : Plan) (invoke : option (Z * bytes))
    (st : ExecState) (policy : StepPolicy) : M (Executed * TaskContext * ExecState) :=
  let cap := policy_cap policy in
  if (cap <? length (pl_steps plan))%nat then
    ret (finished (Failed (bs "plan_step_cap_exceeded (" ++ show_nat (length (pl_steps plan)) ++
           bs " > " ++ show_nat cap ++ bs "); refusing to execute a plan with more than " ++
           show_nat cap ++ bs " steps in one iteration")), ctx, st)
  else
    let* (outcomes, st1) := dispatch_steps policy (cx_task_id ctx) (pl_steps plan) st [] in
    match outcomes with
    | None => ret (finished Cancelled, ctx, st1)
    | Some os =>
        let any_err := existsb is_err os in
        let st2 := mkExec (ex_dispatch_count st1) (ex_invoke_used st1)
                     (ex_gathered st1 || existsb (fun o => negb (is_err o)) os) in
        row (EvPlanOutcome (length os) (length (pl_steps plan)) any_err);;;
        match invoke with
        | Some (memory_id, name) =>
            row (EvInvokeOutcome memory_id name (length os) (length (pl_steps plan)) any_err)
        | None => ret tt
        end;;;
        let record := mkRecord plan os in
        sink_rows (e_sink_block_payloads env record (cx_task_id ctx) (cx_plan_count ctx));;;
        ret (Dispatched, push_plan ctx record, st2)
    end.

(** The text of [result.body], which a refusal carries to the user. *)
Definition refusal_body (p : Plan) : bytes :=
  default [] ((pl_result p ≫= get (bs "body")) ≫= as_str).

(** From the refusal check on: the verdict lets the plan proceed. *)
Definition proceed (ctx : TaskContext) (plan : Plan) (invoke : option (Z * bytes)) (synth_turn : bool)
    (exh : option Exhausted) (st : ExecState) (policy : StepPolicy)
    : M (Executed * TaskContext * ExecState) :=
  match pl_refused plan with
  | Some r => ret (finished (Refused (rf_principle r) (rf_reason r) (refusal_body plan)), ctx, st)
  | None =>
      if is_terminal plan then
        let v := default (object [(bs "kind", String (bs "text")); (bs "body", String [])]) (pl_result plan) in
        let grounded := (1 <=? ex_dispatch_count st)%Z && negb (ex_invoke_used st) && negb synth_turn in
        ret (ExFinished (mkFinished (Completed v) (completion_insight plan)
               (if grounded then completion_skill plan else None)
               (if grounded then completion_python_skill plan else None)), ctx, st)
      else if synth_turn then
        match exh with
        | None => ret (finished (Failed (forced_synthesis_no_answer_detail (from_plans (cx_plans ctx)))), ctx, st)
        | Some which => ret (finished (Failed (exhausted_detail which (cx_max_plans ctx) true)), ctx, st)
        end
      else execute_steps ctx plan invoke st policy
  end.

(** The first resolved ask that approves the plan with this digest. *)
Definition approval_for (ctx : TaskContext) (digest : bytes) : option Ask :=
  find (fun a => match decide_ask a digest with Approved => true | _ => false end) (cx_resolved_asks ctx).

Definition review_ctx (ctx : TaskContext) : ReviewStageContext :=
  mkReviewCtx (cx_task_id ctx) (cx_instruction ctx) (cx_floor ctx) (cx_plan_count ctx).

(** Review and verdict handling. *)
Definition review_phase (ctx : TaskContext) (plan0 : Plan) (invoke : option (Z * bytes))
    (synth_turn : bool) (exh : option Exhausted) (st : ExecState) (policy : StepPolicy)
    : M (Executed * TaskContext * ExecState) :=
  let plan := qualify_plan_methods plan0 in
  let verdict := stage_review (e_review env) plan (review_ctx ctx) in
  emit (EvReview plan (review_ctx ctx) verdict);;;
  row (EvVerdict verdict);;;
  let go c := proceed c plan invoke synth_turn exh st policy in
  match verdict with
  | ConstitutionalBlock principle reason => ret (finished (Blocked principle reason), ctx, st)
  | Block reason =>
      if is_refused plan then go ctx else ret (Again, push_blocks ctx [reason], st)
  | Escalate reason sev =>
      if is_refused plan then go ctx
      else
        let digest := plan_digest (e_to_vec env) plan in
        match approval_for ctx digest with
        | Some approval => row_best_effort (EvApprovalApplied (ask_id approval) digest);;; go ctx
        | None =>
            let resume := resume_state_from (cx_plans ctx) (cx_advisories ctx) (cx_blocks ctx) in
            let* r := effect (e_raise_and_suspend env plan reason sev resume) in
            match r with
            | Ok ask => emit (EvRaise digest);;; ret (finished (AwaitingOperator ask), ctx, st)
            | Err e => ret (finished (Failed (bs "escalation could not be raised: " ++ e)), ctx, st)
            end
        end
  | Advisory c => go (if is_refused plan then ctx else push_advisory ctx c)
  | Approve => go ctx
  end.

Definition review_and_dispatch (ctx0 : TaskContext) (plan0 : Plan) (synth_turn : bool)
    (exh : option Exhausted) (st : ExecState) (policy : StepPolicy)
    : M (Executed * TaskContext * ExecState) :=
  let ctx := fst (apply_floor_raise ctx0 plan0) in
  let resolved := resolve_data_ceiling (pl_data_ceiling plan0) (cx_floor ctx) in
  let plan := with_ceiling plan0 (rc_ceiling resolved) in
  row (EvPlanFormulate plan (cx_floor ctx) (cx_floor_source ctx) (rc_source resolved));;;
  match pl_invoke_skill plan with
  | None => review_phase ctx plan None synth_turn exh st policy
  | Some d =>
      let* x := expand_invoke_skill plan d (rc_ceiling resolved) in
      match x with
      | ExpRefused reasons =>
          ret (Again, push_blocks ctx (map (fun r => bs "invoke_rejected: " ++ r) reasons), st)
      | Expanded steps memory_id name =>
          review_phase ctx (with_steps plan steps) (Some (memory_id, name)) synth_turn exh
            (mkExec (ex_dispatch_count st) true (ex_gathered st)) policy
      end
  end.

(** ** run_to_terminal *)

Record LoopState := mkLoop {
  ls_ctx : TaskContext; ls_st : ExecState; ls_failed : Z; ls_synth_attempted : bool; ls_force_synth : bool }.

Definition turn_record_for (ctx : TaskContext) : option Value :=
  match cx_origin ctx with
  | None => None
  | Some _ => Some (e_turn_record env (cx_plans ctx) (cx_floor ctx))
  end.

(** The [finish!] macro. *)
Definition finish (ctx : TaskContext) (st : ExecState) (failed : Z) (f : Finished) : InnerLoopResult :=
  mkResult (fi_outcome f) (cx_plan_count ctx) (ex_dispatch_count st) failed (fi_insight f) (fi_skill f)
    (fi_python_skill f) (turn_record_for ctx).

Definition finish_with (ctx : TaskContext) (st : ExecState) (failed : Z) (o : Outcome) : InnerLoopResult :=
  finish ctx st failed (mkFinished o None None None).

(** One iteration: the run's result, or the state of the next iteration. *)
Definition iteration (ls : LoopState) : M (InnerLoopResult + LoopState) :=
  let '(mkLoop ctx st failed synth_attempted force_synth) := ls in
  let* state := fallible (e_observe_state env) in
  if bytes_eqb state (bs "cancelled") then ret (inl (finish_with ctx st failed Cancelled))
  else
    let* now := effect (e_now env) in
    let exh := exhausted (cx_plan_count ctx) (cx_max_plans ctx) (cx_deadline ctx) now in
    let over := match exh with Some _ => true | None => false end in
    let synth_turn := (over || force_synth) && ex_gathered st && negb synth_attempted in
    match exh, synth_turn with
    | Some which, false =>
        ret (inl (finish_with ctx st failed (Failed (exhausted_detail which (cx_max_plans ctx) false))))
    | _, _ =>
        let attempted := synth_attempted || synth_turn in
        let* (turn, failed') := formulate_turn ctx synth_turn (ex_gathered st) attempted failed in
        match turn with
        | TurnFailed detail => ret (inl (finish_with ctx st failed' (Failed detail)))
        | ForceSynthesis => ret (inr (mkLoop ctx st failed' attempted true))
        | Planned plan meta =>
            let ctx1 := with_plan_count ctx (cx_plan_count ctx + 1) in
            effect (e_increment_plan_count env (cx_plan_count ctx1));;;
            let* (ex, ctx2, st2) := review_and_dispatch ctx1 plan synth_turn exh st PlanPolicy in
            match ex with
            | ExFinished f => ret (inl (finish ctx2 st2 failed' f))
            | Again | Dispatched => ret (inr (mkLoop ctx2 st2 failed' attempted force_synth))
            end
        end
    end.

Fixpoint run_loop (fuel : nat) (ls : LoopState) : M (option InnerLoopResult) :=
  match fuel with
  | O => ret None
  | S fuel' =>
      let* r := iteration ls in
      match r with
      | inl result => ret (Some result)
      | inr ls' => run_loop fuel' ls'
      end
  end.

Definition loop_init (ctx : TaskContext) : LoopState := mkLoop ctx exec_default 0 false false.

(** Three iterations more than the plans left: one for the turn that decides to
    force a synthesis, one for a synthesis past the limit, and the last one. *)
Definition loop_fuel (ctx : TaskContext) : nat :=
  Z.to_nat (cx_max_plans ctx - cx_plan_count ctx) + 3.

Definition run_to_terminal (ctx : TaskContext) : M (option InnerLoopResult) :=
  run_loop (loop_fuel ctx) (loop_init ctx).
End InnerLoop.
