(* ===== verification/InnerLoopSpec.v ===== *)
(** What the per-task loop guarantees, for every behaviour of the model, the
    workers, the database and the clock: what is dispatched was reviewed and
    permitted, the floor only rises, the loop ends, the counters it reports are
    those of its trace, and a skill is only crystallised from grounded work. *)

From stdpp Require Import base list numbers strings option.
From Stdlib Require Import ZArith Lia.
From S2P Require Import Prelude RustStr Fingerprint Effects Json Cassandra PlanJson Asks LoopPure InnerLoop.
Local Open Scope prog_scope.

(** * Traces *)

Definition is_call (e : Event) : bool := match e with EvCall _ => true | _ => false end.
Definition is_dispatch (e : Event) : bool := match e with EvDispatch _ _ => true | _ => false end.
Definition is_invoked (e : Event) : bool := match e with EvInvoked _ _ _ => true | _ => false end.
Definition is_review (e : Event) : bool := match e with EvReview _ _ _ => true | _ => false end.

Fixpoint count (f : Event -> bool) (t : list Event) : Z :=
  match t with [] => 0 | e :: t' => (if f e then 1 else 0) + count f t' end.

(** The review that governs what happens next. *)
Fixpoint last_review (t : list Event) : option (Plan * ReviewStageContext * Verdict) :=
  match t with
  | [] => None
  | EvReview p rc v :: _ => Some (p, rc, v)
  | _ :: t' => last_review t'
  end.

(** A run that did not run out of iterations: it has a result, or an error. *)
Definition ended {A E} (r : result (option A) E) : Prop :=
  match r with Ok (Some _) => True | Err _ => True | Ok None => False end.

Section Traces.
Context `{Sha256}.
(** [told] are the instructions a reviewer may be shown for this task, and [cap]
    the most steps a plan may run. *)
Variables (to_vec : Value -> bytes) (review : ReviewStage) (ctx0 : TaskContext) (told : bytes -> Prop) (cap : nat).

(** The verdicts under which a plan's steps may run. *)
Definition permits (p : Plan) (v : Verdict) : Prop :=
  match v with
  | Approve | Advisory _ => True
  | Escalate _ _ =>
      exists ask, ask ∈ cx_resolved_asks ctx0 /\ decide_ask ask (plan_digest to_vec p) = Approved
  | Block _ | ConstitutionalBlock _ _ => False
  end.

(** Step [s] may be dispatched after trace [t]. *)
Definition authorised (t : list Event) (s : PlannedStep) : Prop :=
  exists p rc v, last_review t = Some (p, rc, v) /\ s ∈ pl_steps p /\ pl_refused p = None /\
    (length (pl_steps p) <= cap)%nat /\ permits p v.

(** A review is of a plan whose ceiling is resolved, against an instruction of
    the task and a floor no lower than the one the task started with. *)
Definition review_ok (p : Plan) (rc : ReviewStageContext) (v : Verdict) : Prop :=
  v = stage_review review p rc /\ told (rx_instruction rc) /\
  (rank (cx_floor ctx0) <= rank (rx_classification_floor rc))%Z /\ is_Some (pl_data_ceiling p).

Definition event_ok (e : Event) (t : list Event) : Prop :=
  match e with
  | EvDispatch _ s => authorised t s
  | EvReview p rc v => review_ok p rc v
  | _ => True
  end.

Fixpoint trace_ok (t : list Event) : Prop :=
  match t with [] => True | e :: t' => event_ok e t' /\ trace_ok t' end.

(** A trace with its three tallies. *)
Definition tallied (calls dispatches invoked : Z) (t : list Event) : Prop :=
  trace_ok t /\ count is_call t = calls /\ count is_dispatch t = dispatches /\ count is_invoked t = invoked.

Definition neutral (e : Event) : bool :=
  negb (is_call e || is_dispatch e || is_invoked e || is_review e).

Lemma tallied_neutral e c d i t : neutral e = true -> tallied c d i t -> tallied c d i (e :: t).
Proof.
  unfold neutral. rewrite negb_true_iff, !orb_false_iff.
  intros (((H1 & H2) & H3) & H4) (Ht & Hc & Hd & Hi). split_and!; simpl; rewrite ?H1, ?H2, ?H3; try lia.
  split; [|done]. by destruct e.
Qed.

Lemma tallied_call k c d i t : tallied c d i t -> tallied (c + 1) d i (EvCall k :: t).
Proof. intros (Ht & Hc & Hd & Hi). split_and!; simpl; [done|lia..]. Qed.

Lemma tallied_invoked m n k c d i t : tallied c d i t -> tallied c d (i + 1) (EvInvoked m n k :: t).
Proof. intros (Ht & Hc & Hd & Hi). split_and!; simpl; [done|lia..]. Qed.

Lemma trace_ok_app t1 e t2 : trace_ok (t1 ++ e :: t2) -> event_ok e t2 /\ trace_ok t2.
Proof. induction t1 as [|x t1 IH]; simpl; [done|]. intros [_ Ht]. by apply IH. Qed.

Lemma last_review_ok t p rc v : trace_ok t -> last_review t = Some (p, rc, v) -> review_ok p rc v.
Proof.
  induction t as [|e t IH]; [done|]. intros [He Ht]. destruct e; simpl; try (by apply IH).
  by intros [= <- <- <-].
Qed.

Lemma count_nonneg f t : (0 <= count f t)%Z.
Proof. induction t as [|e t IH]; simpl; [done|]. destruct (f e); lia. Qed.
End Traces.

(** Events that move no counter, and the ones that do. *)
Create HintDb loop.
#[export] Hint Resolve tallied_neutral tallied_call tallied_invoked : loop.
#[export] Hint Extern 1 (neutral _ = true) => reflexivity : loop.

Section Loop.
Context `{UnicodeStr} `{Sha256} {W : Type} (env : Env W) (ctx0 : TaskContext) (told : bytes -> Prop) (cap : nat).

Abbreviation T := (tallied (e_to_vec env) (e_review env) ctx0 told cap).
Abbreviation OK := (trace_ok (e_to_vec env) (e_review env) ctx0 told cap).

Lemma T_ok c d i t : T c d i t -> OK t.
Proof. by intros [? _]. Qed.

(** ** One planning turn *)

(** The counter a run reports for [k] failed calls. *)
Definition sat (k : Z) : Z := Z.min k 4294967295.

Lemma sat_succ_sat k : (0 <= k)%Z -> sat_succ (sat k) = sat (k + 1).
Proof. unfold sat_succ, sat. lia. Qed.

(** The turn made [c1 - c] calls: one per recorded failure, and one more when
    it returned a plan. *)
Definition turn_post (gathered attempted : bool) (c d i k : Z) (r : result (Turn * Z) DbError) (t : list Event) : Prop :=
  match r with
  | Ok (turn, failed) => exists c' k', T c' d i t /\ failed = sat k' /\ (k <= k')%Z /\
      match turn with
      | Planned _ _ => (c' - c = k' - k + 1)%Z
      | ForceSynthesis => (c' - c = k' - k)%Z /\ gathered = true /\ attempted = false
      | TurnFailed _ => (c' - c = k' - k)%Z
      end
  | Err _ => False
  end.

Lemma conclude_turn_spec ctx synth gathered attempted retried suppressed (recorded : bool) reasked
    k c d i c0 k0 f :
  (0 <= k0 <= k)%Z ->
  (match f with Ok _ => c - c0 = k - k0 + 1 | Err _ => c - c0 = k - k0 + (if recorded then 0 else 1) end)%Z ->
  spec (T c d i)
    (conclude_turn env ctx synth gathered attempted retried suppressed recorded reasked (sat k) f)
    (turn_post gathered attempted c0 d i k0).
Proof.
  intros Hk Hc. destruct f as [[plan meta]|e]; unfold conclude_turn.
  - apply spec_ret. intros t Ht. exists c, k. split_and!; [done..|lia|done].
  - apply (spec_bind _ _ (fun r t => match r with
      | Ok failed => T c d i t /\ failed = sat (if recorded then k else k + 1) | Err _ => False end)).
    + destruct recorded; [by apply spec_ret|].
      apply spec_bind_best_effort; [by eauto with loop|]. apply spec_ret. intros t Ht.
      split; [done|]. apply sat_succ_sat. lia.
    + done.
    + intros failed. destruct (should_force_synthesis _ _ _) eqn:Ef; apply spec_ret; intros t [Ht ->];
        exists c; eexists; (split_and!; [done|reflexivity|destruct recorded; lia|destruct recorded; lia|..]).
      * unfold should_force_synthesis in Ef. by apply andb_true_iff in Ef as [[_ ?]%andb_true_iff _].
      * unfold should_force_synthesis in Ef. by apply andb_true_iff in Ef as [_ ?%negb_true_iff].
Qed.

Lemma call_spec synth ctx c d i :
  spec (T c d i) (call env synth ctx)
    (fun r t => match r with Ok _ => T (c + 1) d i t | Err _ => False end).
Proof.
  unfold call. destruct synth;
    (eapply spec_bind_emit; [intros t; apply tallied_call|by apply spec_effect]).
Qed.

Lemma attempt_spec kind (f : W -> option (result (Plan * FormulationMeta) AgentError) * W) c d i :
  spec (T c d i) (attempt kind f)
    (fun r t => match r with
       | Ok (Some _) => T (c + 1) d i t | Ok None => T c d i t | Err _ => False end).
Proof.
  unfold attempt. apply spec_bind_effect. intros [x|]; [|by apply spec_ret].
  eapply spec_bind_emit; [intros t; apply tallied_call|by apply spec_ret].
Qed.

Lemma formulate_turn_spec ctx synth gathered attempted k c d i :
  (0 <= k)%Z ->
  spec (T c d i) (formulate_turn env ctx synth gathered attempted (sat k))
    (turn_post gathered attempted c d i k).
Proof.
  intros Hk. unfold formulate_turn.
  apply (spec_bind _ _ _ _ _ (call_spec _ _ _ _ _)); [done|]. intros [x|e].
  { apply conclude_turn_spec; lia. }
  destruct (synth && is_request_timeout e).
  { apply spec_bind_best_effort; [eauto with loop|].
    apply (spec_bind _ _ _ _ _ (attempt_spec _ _ _ _ _)); [done|].
    intros [r|]; rewrite sat_succ_sat by done; apply conclude_turn_spec; [lia|destruct r; lia|lia|lia]. }
  destruct (is_empty_completion e).
  { apply spec_bind_best_effort; [eauto with loop|].
    apply (spec_bind _ _ _ _ _ (call_spec _ _ _ _ _)); [done|].
    intros r; rewrite sat_succ_sat by done; apply conclude_turn_spec; [lia|destruct r; lia]. }
  destruct (non_plan_answer e); [|apply conclude_turn_spec; lia].
  apply spec_bind_best_effort; [eauto with loop|].
  apply (spec_bind _ _ _ _ _ (attempt_spec _ _ _ _ _)); [done|].
  intros [r|]; rewrite sat_succ_sat by done; apply conclude_turn_spec; [lia|destruct r; lia|lia|lia].
Qed.

(** ** Review and dispatch *)

(** The parts of a context a run never changes, and the floor it may raise. *)
Definition same_task (a b : TaskContext) : Prop :=
  cx_task_id b = cx_task_id a /\ cx_instruction b = cx_instruction a /\
  cx_resolved_asks b = cx_resolved_asks a /\ cx_max_plans b = cx_max_plans a /\
  cx_plan_count b = cx_plan_count a /\ (rank (cx_floor a) <= rank (cx_floor b))%Z.

Lemma same_task_refl a : same_task a a.
Proof. by split_and!. Qed.

Lemma same_task_trans a b c : same_task a b -> same_task b c -> same_task a c.
Proof. unfold same_task. intros (E1 & E2 & E3 & E4 & E5 & E6) (F1 & F2 & F3 & F4 & F5 & F6).
  split_and!; congruence || lia. Qed.

Lemma same_task_floor_raise a p : same_task a (fst (apply_floor_raise a p)).
Proof.
  destruct (apply_floor_raise a p) as [b x] eqn:E. pose proof (apply_floor_raise_floor _ _ _ _ E).
  revert E. unfold apply_floor_raise. destruct (pl_floor_request p) as [req|];
    [destruct (_ <? _)%Z|]; intros [= <- _]; by split_and!.
Qed.

Lemma same_task_history a ps adv blk : same_task a (with_history a ps adv blk).
Proof. by split_and!. Qed.

(** The dispatch counter of [st] is that of the trace, and an expansion is
    remembered. *)
Definition exec_ok (st : ExecState) (d i : Z) : Prop :=
  ex_dispatch_count st = sat d /\ (ex_invoke_used st = false -> i = 0%Z).

(** What holds after review and dispatch, whatever the plan came to. *)
Definition rd_post (ctx : TaskContext) (c : Z) (r : result (Executed * TaskContext * ExecState) DbError)
    (t : list Event) : Prop :=
  match r with
  | Ok (ex, ctx', st') =>
      exists d' i', T c d' i' t /\ exec_ok st' d' i' /\ same_task ctx ctx' /\
        match ex with
        | ExFinished f =>
            is_Some (fi_skill f) \/ is_Some (fi_python_skill f) ->
            (exists v, fi_outcome f = Completed v) /\ (1 <= ex_dispatch_count st')%Z /\ ex_invoke_used st' = false
        | _ => True
        end
  | Err _ => OK t
  end.

Lemma rd_post_ret ctx c d i ex ctx' st' (P : list Event -> Prop) :
  (forall t, P t -> T c d i t) -> exec_ok st' d i -> same_task ctx ctx' ->
  match ex with
  | ExFinished f => is_Some (fi_skill f) \/ is_Some (fi_python_skill f) ->
      (exists v, fi_outcome f = Completed v) /\ (1 <= ex_dispatch_count st')%Z /\ ex_invoke_used st' = false
  | _ => True
  end ->
  spec (W := W) P (ret (ex, ctx', st')) (rd_post ctx c).
Proof. intros HP Hex Hs Hf. apply spec_ret. intros t Ht. exists d, i. split_and!; auto. Qed.

(** [T] together with the review in force. *)
Definition reviewed (p : Plan) (rc : ReviewStageContext) (v : Verdict) (c d i : Z) (t : list Event) : Prop :=
  T c d i t /\ last_review t = Some (p, rc, v).

Lemma reviewed_neutral p rc v e c d i t :
  neutral e = true -> reviewed p rc v c d i t -> reviewed p rc v c d i (e :: t).
Proof. intros He [Ht Hl]. split; [by eapply tallied_neutral|]. by destruct e. Qed.

Lemma reviewed_dispatch p rc v c d i task s t :
  s ∈ pl_steps p -> pl_refused p = None -> (length (pl_steps p) <= cap)%nat ->
  permits (e_to_vec env) ctx0 p v ->
  reviewed p rc v c d i t -> reviewed p rc v c (d + 1) i (EvDispatch task s :: t).
Proof.
  intros Hs Hr Hl Hp [(Ht & Hc & Hd & Hi) Hrev]. split; [|done].
  split_and!; simpl; [split; [exists p, rc, v; by split_and!|done]|lia..].
Qed.

Lemma dispatch_steps_spec p rc v policy task steps st outcomes c d i :
  pl_refused p = None -> (length (pl_steps p) <= cap)%nat ->
  permits (e_to_vec env) ctx0 p v -> (forall s, s ∈ steps -> s ∈ pl_steps p) ->
  (0 <= d)%Z -> exec_ok st d i ->
  spec (reviewed p rc v c d i) (dispatch_steps env policy task steps st outcomes)
    (fun r t => match r with
       | Ok (_, st') => exists d', reviewed p rc v c d' i t /\ exec_ok st' d' i
       | Err _ => OK t end).
Proof.
  intros Hr Hl Hp. revert st outcomes d. induction steps as [|s steps IH]; intros st outcomes d Hin Hd Hex.
  { apply spec_ret. intros t Ht. by exists d. }
  simpl. apply spec_bind_fallible; [by intros e t [[? _] _]|]. intros state.
  destruct (bytes_eqb state _); [apply spec_ret; intros t Ht; by exists d|].
  eapply spec_bind_emit.
  { intros t. apply (reviewed_dispatch p rc v c d i task s t); [apply Hin, list_elem_of_here|done..]. }
  apply spec_bind_effect. intros o.
  assert (Hex' : exec_ok (mkExec (sat_succ (ex_dispatch_count st)) (ex_invoke_used st) (ex_gathered st)) (d + 1) i).
  { destruct Hex as [E Hi]. split; simpl; [|done]. rewrite E. by apply sat_succ_sat. }
  destruct (is_err o && stops_on_error policy).
  - apply spec_ret. intros t Ht. by exists (d + 1)%Z.
  - apply IH; [|lia|done]. intros s' Hs'. by apply Hin, list_elem_of_further.
Qed.

Lemma sink_rows_spec payloads c d i :
  spec (T c d i) (sink_rows env payloads) (fun r t => match r with Ok _ => T c d i t | Err _ => False end).
Proof.
  induction payloads as [|x payloads IH]; simpl; [by apply spec_ret|].
  apply spec_bind_best_effort; [eauto with loop|done].
Qed.

Lemma execute_steps_spec ctx p rc v invoke st policy c d i :
  (policy_cap policy <= cap)%nat -> pl_refused p = None -> permits (e_to_vec env) ctx0 p v -> (0 <= d)%Z -> exec_ok st d i ->
  spec (reviewed p rc v c d i) (execute_steps env ctx p invoke st policy) (rd_post ctx c).
Proof.
  intros Hcap Hr Hp Hd Hex. unfold execute_steps.
  destruct (Nat.ltb_spec (policy_cap policy) (length (pl_steps p))) as [|Hl].
  { apply (rd_post_ret ctx c d i); [by intros t [? _]|done|apply same_task_refl|]. by intros [[]|[]]. }
  eapply spec_bind; [apply (dispatch_steps_spec p rc v); done || lia|done|]. intros [[os|] st1].
  - apply spec_exists. intros d'. apply spec_pure. intros Hex'.
    eapply (spec_weaken _ (T c d' i)); [|by intros t [? _]|done].
    eapply spec_bind_row; [intros t Ht; eapply tallied_neutral; [done|exact Ht]|by intros e t [? _]|].
    apply (spec_bind _ _ (fun r t => match r with Ok _ => T c d' i t | Err _ => OK t end)).
    { destruct invoke as [[m n]|]; [|by apply spec_ret].
      apply spec_insert_row; [intros t Ht; by eapply tallied_neutral|by intros e t [? _]]. }
    { done. }
    intros []. apply (spec_bind _ _ _ _ _ (sink_rows_spec _ _ _ _)); [done|]. intros [].
    apply (rd_post_ret ctx c d' i); [done|exact Hex'|apply same_task_history|done].
  - intros w t (d' & [Ht _] & Hex'). exists d', i. split_and!; [done..|apply same_task_refl|].
    by intros [[]|[]].
Qed.

Lemma proceed_spec ctx p rc v invoke synth exh st policy c d i :
  (policy_cap policy <= cap)%nat -> (pl_refused p = None -> permits (e_to_vec env) ctx0 p v) -> (0 <= d)%Z -> exec_ok st d i ->
  spec (reviewed p rc v c d i) (proceed env ctx p invoke synth exh st policy) (rd_post ctx c).
Proof.
  intros Hcap Hp Hd Hex. unfold proceed.
  assert (Hret : forall o, spec (W := W) (reviewed p rc v c d i) (ret (finished o, ctx, st)) (rd_post ctx c)).
  { intros o. apply (rd_post_ret ctx c d i); [by intros t [? _]|done|apply same_task_refl|]. by intros [[]|[]]. }
  destruct (pl_refused p) as [r|] eqn:Er; [apply Hret|].
  destruct (is_terminal p).
  { apply (rd_post_ret ctx c d i); [by intros t [? _]|done|apply same_task_refl|]. cbn [fi_skill fi_python_skill fi_outcome].
    destruct (_ && _ && _) eqn:Eg; [|by intros [[]|[]]]. intros _.
    apply andb_true_iff in Eg as [[Eg1 Eg2]%andb_true_iff _].
    split_and!; [by eexists|by apply Z.leb_le|by apply negb_true_iff]. }
  destruct synth; [destruct exh; apply Hret|]. by apply execute_steps_spec; auto.
Qed.

Lemma rd_post_mono a b c r t : same_task a b -> rd_post b c r t -> rd_post a c r t.
Proof.
  intros Hs. destruct r as [[[ex ctx'] st']|]; [|done]. intros (d' & i' & ? & ? & ? & ?).
  exists d', i'. split_and!; [done..|by eapply same_task_trans|done].
Qed.

(** A context of this run: everything but the history and the plan count as it
    was, the floor at least as high. *)
Definition task_ok (ctx : TaskContext) : Prop :=
  told (cx_instruction ctx) /\ cx_resolved_asks ctx = cx_resolved_asks ctx0 /\
  cx_max_plans ctx = cx_max_plans ctx0 /\ (rank (cx_floor ctx0) <= rank (cx_floor ctx))%Z.

Lemma task_ok_same a b : task_ok a -> same_task a b -> task_ok b.
Proof.
  unfold task_ok, same_task. intros (E1 & E2 & E3 & E4) (F1 & F2 & F3 & F4 & F5 & F6).
  split_and!; congruence || lia.
Qed.

Lemma review_phase_spec ctx p invoke synth exh st policy c d i :
  (policy_cap policy <= cap)%nat -> task_ok ctx -> is_Some (pl_data_ceiling p) -> (0 <= d)%Z -> exec_ok st d i ->
  spec (T c d i) (review_phase env ctx p invoke synth exh st policy) (rd_post ctx c).
Proof.
  intros Hcap (Ei & Ea & _ & Hfl) Hc Hd Hex. unfold review_phase.
  set (q := qualify_plan_methods env p). set (rc := review_ctx ctx).
  set (v := stage_review (e_review env) q rc).
  apply (spec_bind_emit _ _ _ (reviewed q rc v c d i)).
  { intros t (Ht & Hcc & Hdd & Hii). split; [|done]. split_and!; simpl; [|lia..]. split; [|done].
    split_and!; done. }
  eapply spec_bind_row; [intros t; by apply reviewed_neutral|by intros e t [[? _] _]|].
  assert (Hret : forall ex ctx', same_task ctx ctx' ->
    match ex with ExFinished f => fi_skill f = None /\ fi_python_skill f = None | _ => True end ->
    forall P, (forall t, P t -> T c d i t) -> spec (W := W) P (ret (ex, ctx', st)) (rd_post ctx c)).
  { intros ex ctx' Hs Hf P HP. apply (rd_post_ret ctx c d i); [done..|]. destruct ex; [|done..].
    destruct Hf as [-> ->]. by intros [[]|[]]. }
  assert (HR : forall t, reviewed q rc v c d i t -> T c d i t) by (by intros t [? _]).
  assert (Href : is_refused q = true -> pl_refused q <> None) by (unfold is_refused; by destruct (pl_refused q)).
  destruct v as [|note|reason sev|reason|principle reason] eqn:Ev.
  - apply proceed_spec; done.
  - eapply spec_weaken; [by apply (proceed_spec _ q rc (Advisory note))|done|].
    intros r t. apply rd_post_mono. destruct (is_refused q); [apply same_task_refl|apply same_task_history].
  - destruct (is_refused q) eqn:Eq; [apply proceed_spec; [done| |done..]; by intros ?%Href|].
    destruct (approval_for ctx _) as [a|] eqn:Eap.
    + apply spec_bind_best_effort; [intros t; by apply reviewed_neutral|]. apply proceed_spec; [done| |done..].
      intros _. unfold approval_for in Eap. apply find_some in Eap as [Hin Happ]. exists a. rewrite <- Ea.
      split; [by apply list_elem_of_In|]. by destruct (decide_ask a _).
    + apply spec_bind_effect. intros [ask|e]; [|by apply Hret; [apply same_task_refl|..]].
      eapply spec_bind_emit; [intros t Ht; eapply tallied_neutral; [done|exact (HR _ Ht)]|].
      by apply Hret; [apply same_task_refl|..].
  - destruct (is_refused q) eqn:Eq; [apply proceed_spec; [done| |done..]; by intros ?%Href|].
    apply Hret; [apply same_task_history|done|done].
  - by apply Hret; [apply same_task_refl|..].
Qed.

(** An expansion is recorded; a refusal leaves the tallies alone. *)
Definition expand_post (c d i : Z) (r : result InvokeExpansion DbError) (t : list Event) : Prop :=
  match r with
  | Ok (ExpRefused _) => T c d i t
  | Ok (Expanded _ _ _) => T c d (i + 1) t
  | Err _ => OK t
  end.

Lemma refuse_spec name reasons c d i :
  spec (T c d i) (refuse env name reasons) (expand_post c d i).
Proof.
  eapply spec_bind_row; [intros t Ht; eapply tallied_neutral; [done|exact Ht]|by intros e t [? _]|].
  by apply spec_ret.
Qed.

Lemma expanded_spec steps m name c d i :
  spec (T c d i) (expanded env steps m name) (expand_post c d i).
Proof.
  eapply spec_bind_row; [intros t; apply tallied_invoked|by intros e t [? _]|]. by apply spec_ret.
Qed.

Lemma expand_invoke_skill_spec p dir ceiling c d i :
  spec (T c d i) (expand_invoke_skill env p dir ceiling) (expand_post c d i).
Proof.
  unfold expand_invoke_skill. destruct (validate_directive p dir) as [d'|m]; [|apply refuse_spec].
  apply spec_bind_fallible; [by intros e t [? _]|]. intros [x|].
  - destruct (e_expand_for_agent _ _ _ _ _); [apply expanded_spec|apply refuse_spec].
  - apply spec_bind_fallible; [by intros e t [? _]|]. intros [x|]; [|apply refuse_spec].
    destruct (e_expand_python_for_agent _ _ _ _ _); [apply expanded_spec|apply refuse_spec].
Qed.

Lemma review_and_dispatch_spec ctx p synth exh st policy c d i :
  (policy_cap policy <= cap)%nat -> task_ok ctx -> (0 <= d)%Z -> exec_ok st d i ->
  spec (T c d i) (review_and_dispatch env ctx p synth exh st policy) (rd_post ctx c).
Proof.
  intros Hcap Hok Hd Hex. unfold review_and_dispatch.
  pose proof (same_task_floor_raise ctx p) as Hs. set (ctx1 := fst (apply_floor_raise ctx p)) in *.
  pose proof (task_ok_same _ _ Hok Hs) as Hok1.
  set (q := with_ceiling p _).
  eapply spec_bind_row; [intros t Ht; eapply tallied_neutral; [done|exact Ht]|by intros e t [? _]|].
  destruct (pl_invoke_skill q) as [dir|].
  - apply (spec_bind _ _ _ _ _ (expand_invoke_skill_spec _ _ _ _ _ _)); [done|].
    intros [reasons|steps m name]; cbn [expand_post].
    + apply (rd_post_ret ctx c d i); [done..| |done].
      eapply same_task_trans; [exact Hs|apply same_task_history].
    + eapply spec_weaken; [apply (review_phase_spec ctx1)|done|intros r t; by apply rd_post_mono];
        [done|done|done|exact Hd|]. destruct Hex as [E _]. by split.
  - eapply spec_weaken; [apply (review_phase_spec ctx1)|done|intros r t; by apply rd_post_mono]; done.
Qed.

(** ** The loop *)

Hypothesis cap_plan : (MAX_STEPS_PER_PLAN <= cap)%nat.

Definition loop_inv (ls : LoopState) (t : list Event) : Prop :=
  exists c d i k, T c d i t /\ exec_ok (ls_st ls) d i /\ task_ok (ls_ctx ls) /\ ls_failed ls = sat k /\
    (0 <= k)%Z /\ (cx_plan_count (ls_ctx ls) + k = cx_plan_count ctx0 + c)%Z.

(** What a run reports, in terms of its trace. *)
Definition result_ok (r : InnerLoopResult) (t : list Event) : Prop :=
  OK t /\ ir_dispatch_count r = sat (count is_dispatch t) /\
  ir_failed_llm_calls r = sat (count is_call t - (ir_plan_count r - cx_plan_count ctx0)) /\
  (is_Some (ir_l3_skill r) \/ is_Some (ir_python_skill r) ->
   (exists v, ir_outcome r = Completed v) /\ (1 <= count is_dispatch t)%Z /\ count is_invoked t = 0%Z).

(** Iterations left: the plans the cap allows, and the two flags. *)
Definition measure (ls : LoopState) : nat :=
  Z.to_nat (cx_max_plans (ls_ctx ls) - cx_plan_count (ls_ctx ls)) +
  (if ls_synth_attempted ls then 0 else 1) + (if ls_force_synth ls then 0 else 1).

Definition iteration_post (ls : LoopState) (r : result (InnerLoopResult + LoopState) DbError) (t : list Event)
    : Prop :=
  match r with
  | Ok (inl res) => result_ok res t
  | Ok (inr ls') => loop_inv ls' t /\ measure ls' < measure ls
  | Err _ => OK t
  end.

Lemma T_nonneg c d i t : T c d i t -> (0 <= c /\ 0 <= d /\ 0 <= i)%Z.
Proof.
  clear cap_plan. intros (_ & <- & <- & <-). pose proof (count_nonneg is_call t).
  pose proof (count_nonneg is_dispatch t). pose proof (count_nonneg is_invoked t). lia.
Qed.

Lemma result_ok_finish ctx st k c d i f t :
  T c d i t -> exec_ok st d i -> (cx_plan_count ctx + k = cx_plan_count ctx0 + c)%Z ->
  (is_Some (fi_skill f) \/ is_Some (fi_python_skill f) ->
   (exists v, fi_outcome f = Completed v) /\ (1 <= ex_dispatch_count st)%Z /\ ex_invoke_used st = false) ->
  result_ok (finish env ctx st (sat k) f) t.
Proof.
  intros (Ht & <- & <- & Hi) [Ed Hu] Hk Hf. split_and!; simpl; [done|done|f_equal; lia|].
  intros Hs. destruct (Hf Hs) as (Hv & Hd & Hiv). split_and!; [done| |].
  - rewrite Ed in Hd. unfold sat in Hd. lia.
  - rewrite Hi. by apply Hu.
Qed.

(** The iteration from the planning call on. *)
Definition planning (ls : LoopState) (synth : bool) (exh : option Exhausted)
    : prog W Event DbError (InnerLoopResult + LoopState) :=
  let '(mkLoop ctx st failed att force) := ls in
  let* (turn, failed') := formulate_turn env ctx synth (ex_gathered st) (att || synth) failed in
  match turn with
  | TurnFailed detail => ret (inl (finish_with env ctx st failed' (Failed detail)))
  | ForceSynthesis => ret (inr (mkLoop ctx st failed' (att || synth) true))
  | Planned plan meta =>
      let ctx1 := with_plan_count ctx (cx_plan_count ctx + 1) in
      effect (e_increment_plan_count env (cx_plan_count ctx1));;;
      let* (ex, ctx2, st2) := review_and_dispatch env ctx1 plan synth exh st PlanPolicy in
      match ex with
      | ExFinished f => ret (inl (finish env ctx2 st2 failed' f))
      | Again | Dispatched => ret (inr (mkLoop ctx2 st2 failed' (att || synth) force))
      end
  end.

Lemma finish_with_ok ctx st k c d i o t :
  T c d i t -> exec_ok st d i -> (cx_plan_count ctx + k = cx_plan_count ctx0 + c)%Z ->
  result_ok (finish_with env ctx st (sat k) o) t.
Proof. intros Ht Hex Hk. apply (result_ok_finish _ _ _ c d i); [done..|]. by intros [[]|[]]. Qed.

Lemma planning_spec ctx st k att force synth exh c d i :
  exec_ok st d i -> task_ok ctx -> (0 <= k)%Z -> (0 <= d)%Z ->
  (cx_plan_count ctx + k = cx_plan_count ctx0 + c)%Z ->
  (synth = true -> att = false) ->
  (ex_gathered st = true -> att = false -> synth = false -> force = false) ->
  (synth = false -> (cx_plan_count ctx < cx_max_plans ctx)%Z) ->
  spec (T c d i) (planning (mkLoop ctx st (sat k) att force) synth exh)
    (iteration_post (mkLoop ctx st (sat k) att force)).
Proof.
  intros Hex Hok Hk Hd Hpc Hsa Hforce Hlt. unfold planning.
  eapply spec_bind; [by apply formulate_turn_spec|done|]. intros [turn failed].
  apply spec_exists; intros c'. apply spec_exists; intros k'.
  destruct turn as [plan meta| |detail].
  - apply spec_pure. intros (-> & Hk' & Hc'). apply spec_bind_effect. intros _.
    set (ctx1 := with_plan_count ctx _).
    eapply spec_bind; [by apply (review_and_dispatch_spec ctx1)|done|].
    intros [[ex ctx2] st2]. apply spec_exists; intros d2. apply spec_exists; intros i2.
    apply spec_pure. intros (Hex2 & Hs & Hf).
    assert (Hpc2 : (cx_plan_count ctx2 + k' = cx_plan_count ctx0 + c')%Z).
    { destruct Hs as (_ & _ & _ & _ & -> & _). simpl. lia. }
    assert (Hnext : forall t, T c' d2 i2 t ->
      iteration_post (mkLoop ctx st (sat k) att force) (Ok (inr (mkLoop ctx2 st2 (sat k') (att || synth) force))) t).
    { intros t Ht. split.
      - exists c', d2, i2, k'. split_and!; [done..|by eapply (task_ok_same ctx1)|done|lia|done].
      - destruct Hs as (_ & _ & _ & Em & Ec & _). unfold measure. cbn [ls_ctx ls_synth_attempted ls_force_synth].
        rewrite Em, Ec. simpl. destruct synth.
        + rewrite (Hsa eq_refl). simpl. lia.
        + specialize (Hlt eq_refl). rewrite orb_false_r. destruct att, force; lia. }
    destruct ex as [f| |]; apply spec_ret; [|done..].
    intros t Ht. by apply (result_ok_finish _ _ _ c' d2 i2).
  - apply spec_pure. intros (-> & Hk' & Hc' & Hg & Ha). apply orb_false_iff in Ha as [-> ->].
    apply spec_ret. intros t Ht. split.
    + exists c', d, i, k'. split_and!; [done..|lia|cbn; lia].
    + unfold measure. simpl. rewrite (Hforce Hg eq_refl eq_refl). lia.
  - apply spec_pure. intros (-> & Hk' & Hc'). apply spec_ret. intros t Ht.
    apply (finish_with_ok _ _ _ c' d i); [done..|lia].
Qed.

Lemma iteration_spec ls : spec (loop_inv ls) (iteration env ls) (iteration_post ls).
Proof.
  destruct ls as [ctx st failed att force]. unfold loop_inv. cbn [ls_st ls_ctx ls_failed].
  apply spec_exists; intros c. apply spec_exists; intros d. apply spec_exists; intros i.
  apply spec_exists; intros k. apply spec_pure. intros (Hex & Hok & -> & Hk & Hpc).
  apply (spec_assume _ _ _ _ (T_nonneg c d i)). intros Hnn. unfold iteration.
  apply spec_bind_fallible; [by intros e t [? _]|]. intros state.
  destruct (bytes_eqb state _).
  { apply spec_ret. intros t Ht. by apply (finish_with_ok _ _ _ c d i). }
  apply spec_bind_effect. intros now.
  destruct (exhausted _ _ _ now) as [which|] eqn:Ex; cbn [orb andb].
  - destruct (ex_gathered st && negb att) eqn:Es.
    + apply andb_true_iff in Es as [Eg ->%negb_true_iff].
      apply (planning_spec ctx st k false force true (Some which)); done || lia.
    + apply spec_ret. intros t Ht. by apply (finish_with_ok _ _ _ c d i).
  - assert (Hlt : (cx_plan_count ctx < cx_max_plans ctx)%Z).
    { unfold exhausted in Ex. by destruct (Z.leb_spec (cx_max_plans ctx) (cx_plan_count ctx)). }
    apply (planning_spec ctx st k att force (force && ex_gathered st && negb att) None); [done|done|done|lia|done| | |done].
    + intros Es. by apply andb_true_iff in Es as [_ ?%negb_true_iff].
    + intros -> ->. by destruct force.
Qed.

Lemma run_loop_spec fuel ls :
  measure ls < fuel ->
  spec (loop_inv ls) (run_loop env fuel ls)
    (fun r t => match r with Ok (Some res) => result_ok res t | Ok None => False | Err _ => OK t end).
Proof.
  revert ls. induction fuel as [|fuel IH]; intros ls Hm; [lia|]. simpl.
  eapply spec_bind; [apply iteration_spec|done|]. intros [res|ls']; [by apply spec_ret|].
  apply (spec_pure (loop_inv ls')). intros Hlt. apply IH. lia.
Qed.

Hypothesis told_own : told (cx_instruction ctx0).

Lemma run_to_terminal_spec :
  spec (fun t => t = []) (run_to_terminal env ctx0)
    (fun r t => match r with Ok (Some res) => result_ok res t | Ok None => False | Err _ => OK t end).
Proof.
  assert (Hm : measure (loop_init ctx0) < loop_fuel ctx0) by (unfold measure, loop_fuel; simpl; lia).
  apply (spec_weaken _ (loop_inv (loop_init ctx0)) _ _ _ (run_loop_spec _ _ Hm)); [|done].
  intros t ->. exists 0%Z, 0%Z, 0%Z, 0%Z. by split_and!.
Qed.

Lemma run_trace_ok w r w' t : run_to_terminal env ctx0 w [] = (r, w', t) -> OK t.
Proof.
  intros E. pose proof (run_to_terminal_spec w [] eq_refl) as Hs. rewrite E in Hs.
  destruct r as [[res|]|e]; [by destruct Hs|done|done].
Qed.

(** What a dispatch under the production chain was classified as. *)
Lemma dispatch_classified t1 task s t2 :
  e_review env = ChainReviewStage production_chain -> OK (t1 ++ EvDispatch task s :: t2) ->
  exists p rc v ceiling, last_review t2 = Some (p, rc, v) /\ s ∈ pl_steps p /\
    told (rx_instruction rc) /\ screen_instruction_for_principle_violations (rx_instruction rc) = None /\
    pl_data_ceiling p = Some ceiling /\
    (rank (cx_floor ctx0) <= rank (st_classification s) <= rank ceiling)%Z.
Proof.
  clear cap_plan. intros Er E. apply trace_ok_app in E as [(p & rc & v & Hl & Hs & Hr & Hn & Hp) Ht].
  destruct (last_review_ok _ _ _ _ _ _ _ _ _ Ht Hl) as (Hv & Hi & Hf & Hc). rewrite Er in Hv.
  cbn [stage_review ChainReviewStage] in Hv.
  assert (Ha : chain_review production_chain p rc = Approve).
  { pose proof (production_chain_verdict p rc) as Hpc. subst v. by destruct (chain_review _ p rc). }
  apply production_chain_Approve in Ha as [Hsc (ceiling & Hce & _ & Hall)].
  exists p, rc, v, ceiling. split_and!; [done..| |];
    pose proof (proj1 (list.Forall_forall _ _) Hall s Hs); simpl in *; lia.
Qed.
End Loop.

Section Run.
Context `{UnicodeStr} `{Sha256} {W : Type} (env : Env W) (ctx0 : TaskContext).

(** The classic loop shows the reviewer the task's own instruction. *)
Abbreviation own := (fun s => s = cx_instruction ctx0).
Abbreviation OK := (trace_ok (e_to_vec env) (e_review env) ctx0 own MAX_STEPS_PER_PLAN).

Lemma trace_classified t1 task s t2 :
  e_review env = ChainReviewStage production_chain -> OK (t1 ++ EvDispatch task s :: t2) ->
  screen_instruction_for_principle_violations (cx_instruction ctx0) = None /\
  exists p rc v ceiling, last_review t2 = Some (p, rc, v) /\ s ∈ pl_steps p /\
    pl_data_ceiling p = Some ceiling /\
    (rank (cx_floor ctx0) <= rank (st_classification s) <= rank ceiling)%Z.
Proof.
  intros Er E. destruct (dispatch_classified env ctx0 own MAX_STEPS_PER_PLAN t1 task s t2 Er E) as (p & rc & v & ceiling & Hl & Hs & Hi & Hsc & Hc & Hb).
  rewrite Hi in Hsc. split; [done|]. by exists p, rc, v, ceiling.
Qed.

(** ** Theorems *)

(** C3. Nothing is dispatched unreviewed: whatever the model, the reviewer, the
    workers and the database do, each step the loop dispatches belongs to the
    plan most recently reviewed; that review was of this plan with its ceiling
    resolved, under the task's own instruction and a floor at least as high as
    the one the task started with; its verdict was [Approve] or [Advisory], or
    [Escalate] with an operator's approval of exactly this plan; the plan is not
    a self-declared refusal and has at most [MAX_STEPS_PER_PLAN] steps. *)
Theorem dispatched_steps_were_reviewed w r w' t1 task s t2 :
  run_to_terminal env ctx0 w [] = (r, w', t1 ++ EvDispatch task s :: t2) ->
  exists p rc v, last_review t2 = Some (p, rc, v) /\ s ∈ pl_steps p /\
    v = stage_review (e_review env) p rc /\ permits (e_to_vec env) ctx0 p v /\
    pl_refused p = None /\ is_Some (pl_data_ceiling p) /\
    (length (pl_steps p) <= MAX_STEPS_PER_PLAN)%nat /\
    rx_instruction rc = cx_instruction ctx0 /\
    (rank (cx_floor ctx0) <= rank (rx_classification_floor rc))%Z.
Proof.
  intros E%(run_trace_ok env ctx0 own MAX_STEPS_PER_PLAN (le_n _) eq_refl). apply trace_ok_app in E as [(p & rc & v & Hl & Hs & Hr & Hn & Hp) Ht].
  destruct (last_review_ok _ _ _ _ _ _ _ _ _ Ht Hl) as (Hv & Hi & Hf & Hc).
  exists p, rc, v. by split_and!.
Qed.

(** C13. Under the production chain every dispatched step is classified between
    the task's floor and its plan's declared ceiling, and the task's instruction
    passed the constitutional screen: neither a model that omits its ceiling nor
    one that raises its floor changes that. *)
Theorem dispatched_steps_are_classified w r w' t1 task s t2 :
  e_review env = ChainReviewStage production_chain ->
  run_to_terminal env ctx0 w [] = (r, w', t1 ++ EvDispatch task s :: t2) ->
  screen_instruction_for_principle_violations (cx_instruction ctx0) = None /\
  exists p rc v ceiling, last_review t2 = Some (p, rc, v) /\ s ∈ pl_steps p /\
    pl_data_ceiling p = Some ceiling /\
    (rank (cx_floor ctx0) <= rank (st_classification s) <= rank ceiling)%Z.
Proof. intros Er E%(run_trace_ok env ctx0 own MAX_STEPS_PER_PLAN (le_n _) eq_refl). by apply (trace_classified t1 task). Qed.

(** The loop ends: with [max_plans - plan_count + 3] iterations a run
    always reaches a result or a database error, whatever its environment does;
    a forced synthesis and a failing model included. *)
Theorem run_to_terminal_terminates w : ended (run_to_terminal env ctx0 w []).1.1.
Proof.
  pose proof (run_to_terminal_spec env ctx0 own MAX_STEPS_PER_PLAN (le_n _) eq_refl w [] eq_refl) as Hs.
  destruct (run_to_terminal env ctx0 w []) as [[[[res|]|e] w'] t]; done.
Qed.

(** The finalize counters tell the truth: the dispatch counter is the number
    of dispatched steps, and the plans of this run plus its failed calls are the
    number of calls made to the model (each counter stopping at the largest
    [u32]). *)
Theorem run_counters_match_trace w res w' t :
  run_to_terminal env ctx0 w [] = (Ok (Some res), w', t) ->
  ir_dispatch_count res = Z.min (count is_dispatch t) 4294967295 /\
  ir_failed_llm_calls res = Z.min (count is_call t - (ir_plan_count res - cx_plan_count ctx0)) 4294967295.
Proof.
  intros E. pose proof (run_to_terminal_spec env ctx0 own MAX_STEPS_PER_PLAN (le_n _) eq_refl w [] eq_refl) as Hs. rewrite E in Hs.
  by destruct Hs as (_ & Hd & Hf & _).
Qed.

(** A skill is only crystallised from grounded work: when a run hands a
    templated or a Python skill candidate to the memory writer, the task
    completed, it dispatched at least one step, and it ran no pinned skill. *)
Theorem crystallised_skill_is_grounded w res w' t :
  run_to_terminal env ctx0 w [] = (Ok (Some res), w', t) ->
  is_Some (ir_l3_skill res) \/ is_Some (ir_python_skill res) ->
  (exists v, ir_outcome res = Completed v) /\ (1 <= count is_dispatch t)%Z /\ count is_invoked t = 0%Z.
Proof.
  intros E. pose proof (run_to_terminal_spec env ctx0 own MAX_STEPS_PER_PLAN (le_n _) eq_refl w [] eq_refl) as Hs. rewrite E in Hs.
  by destruct Hs as (_ & _ & _ & Hg).
Qed.
End Run.

(** * Witnesses *)

(** A model that plans one step and then completes with a skill candidate. *)
Definition demo_skill : L3SkillCandidate := mkL3Skill (bs "send_report") (bs "sends the report") [] [].

Definition demo_terminal : Plan :=
  mkPlan [] DECISION_TERMINAL [] [] (Some (object [(bs "body", String (bs "done"))])) None None None None
    (Some demo_skill) None None.

Definition demo_meta : FormulationMeta := mkMeta 0 0 (mkStats None None None None 0 None).

Definition demo_loop_env : Env nat := {|
  e_now := fun w => (0%Z, w);
  e_observe_state := fun w => (Ok (bs "running"), w);
  e_audit_insert := fun w => (Ok tt, w);
  e_increment_plan_count := fun _ w => (Ok tt, w);
  e_formulate_plan := fun _ w => (Ok (if Nat.eqb w 0 then demo_plan else demo_terminal, demo_meta), S w);
  e_formulate_synthesis := fun _ w => (Ok (demo_terminal, demo_meta), S w);
  e_formulate_without_thinking := fun _ w => (None, w);
  e_formulate_reformat := fun _ _ _ w => (None, w);
  e_dispatch_step := fun _ _ w => (StepOk Null, w);
  e_qualify_method := fun _ _ => None;
  e_known_tools := [];
  e_load_skill := fun _ w => (Ok None, w);
  e_load_python_skill := fun _ w => (Ok None, w);
  e_expand_for_agent := fun _ _ _ _ => Ok [];
  e_expand_python_for_agent := fun _ _ _ _ => Ok [];
  e_raise_and_suspend := fun _ _ _ _ w => (Ok 1%Z, w);
  e_sink_block_payloads := fun _ _ _ => [];
  e_turn_record := fun _ _ => Null;
  e_to_vec := demo_to_vec;
  e_review := ChainReviewStage production_chain |}.

Definition demo_ctx : TaskContext :=
  mkCtx 3 Fast (bs "send the report") Public DefaultFloor [] [] [] [] 0 5 None [] None [] None.

Definition demo_run := run_to_terminal demo_loop_env demo_ctx 0 [].
Definition demo_trace : list Event := snd demo_run.
Definition demo_result : InnerLoopResult :=
  mkResult (Completed (object [(bs "body", String (bs "done"))])) 2 1 0 None (Some demo_skill) None None.

Lemma dispatched_steps_were_reviewed_witness :
  exists p rc v, last_review (drop 6 demo_trace) = Some (p, rc, v) /\ demo_step ∈ pl_steps p.
Proof.
  destruct (dispatched_steps_were_reviewed demo_loop_env demo_ctx 0 (Ok (Some demo_result)) 2
              (take 5 demo_trace) 3 demo_step (drop 6 demo_trace) ltac:(vm_compute; reflexivity))
    as (p & rc & v & Hl & Hs & _). exact (ex_intro _ p (ex_intro _ rc (ex_intro _ v (conj Hl Hs)))).
Defined.

Lemma dispatched_steps_are_classified_witness :
  screen_instruction_for_principle_violations (bs "send the report") = None.
Proof.
  exact (proj1 (dispatched_steps_are_classified demo_loop_env demo_ctx 0 (Ok (Some demo_result)) 2
              (take 5 demo_trace) 3 demo_step (drop 6 demo_trace) eq_refl ltac:(vm_compute; reflexivity))).
Defined.

Lemma run_counters_match_trace_witness :
  ir_dispatch_count demo_result = Z.min (count is_dispatch demo_trace) 4294967295.
Proof.
  exact (proj1 (run_counters_match_trace demo_loop_env demo_ctx 0 demo_result 2 demo_trace
                  ltac:(vm_compute; reflexivity))).
Defined.

Lemma crystallised_skill_is_grounded_witness : (1 <= count is_dispatch demo_trace)%Z.
Proof.
  exact (proj1 (proj2 (crystallised_skill_is_grounded demo_loop_env demo_ctx 0 demo_result 2 demo_trace
                         ltac:(vm_compute; reflexivity) (or_introl (mk_is_Some _ _ eq_refl))))).
Defined.
