(* ===== verification/LoopWorld.v ===== *)
(** What a run of the inner loop does to the world it acts on.

    [InnerLoopSpec] is about the trace.  Here a predicate of the world is
    followed through a run: [run_to_terminal_world] says that a predicate every
    effect of the environment keeps holds after the run, except that a run which
    ends by raising an ask ends in what raising the ask establishes. *)

From stdpp Require Import base list numbers strings option.
From Stdlib Require Import ZArith Lia.
From S2P Require Import Prelude RustStr Fingerprint Effects Json Cassandra PlanJson Asks LoopPure InnerLoop.
Local Open Scope prog_scope.

(** * Triples over the world *)

Section World.
Context {W Ev E : Type}.
Implicit Types (I : W -> Prop).

(** From a world in [I], whatever the trace, [m] ends in a world [Q] of its
    result. *)
Definition wspec {A} I (m : prog W Ev E A) (Q : result A E -> W -> Prop) : Prop :=
  forall w t, I w -> let '(r, w', _) := m w t in Q r w'.

(** [m] keeps [I]. *)
Definition keeps I {A} (m : prog W Ev E A) : Prop := wspec I m (fun _ w => I w).

Lemma wspec_bind I {A B} (m : prog W Ev E A) (k : A -> prog W Ev E B) Q :
  keeps I m -> (forall e w, I w -> Q (Err e) w) -> (forall a, wspec I (k a) Q) -> wspec I (bind m k) Q.
Proof.
  intros Hm He Hk w t Hw. unfold bind. specialize (Hm w t Hw). destruct (m w t) as [[[a|e] w'] t'];
    [by apply Hk|by apply He].
Qed.

Lemma wspec_ret I {A} (a : A) Q : (forall w, I w -> Q (Ok a) w) -> wspec I (ret a : prog W Ev E A) Q.
Proof. intros HQ w t Hw. by apply HQ. Qed.

Lemma wspec_weaken I {A} (m : prog W Ev E A) (Q Q' : result A E -> W -> Prop) :
  wspec I m Q -> (forall r w, Q r w -> Q' r w) -> wspec I m Q'.
Proof. intros Hm HQ w t Hw. specialize (Hm w t Hw). destruct (m w t) as [[r w'] t']. by apply HQ. Qed.

Lemma keeps_ret I {A} (a : A) : keeps I (ret a : prog W Ev E A).
Proof. by intros w t Hw. Qed.

Lemma keeps_bind I {A B} (m : prog W Ev E A) (k : A -> prog W Ev E B) :
  keeps I m -> (forall a, keeps I (k a)) -> keeps I (bind m k).
Proof. intros Hm Hk. by apply wspec_bind. Qed.

Lemma keeps_emit I e : keeps I (emit e : prog W Ev E ()).
Proof. by intros w t Hw. Qed.

Lemma keeps_effect I {A} (f : W -> A * W) : (forall w, I w -> I (f w).2) -> keeps I (effect f : prog W Ev E A).
Proof. intros Hf w t Hw. unfold effect. specialize (Hf w Hw). by destruct (f w). Qed.

Lemma keeps_fallible I {A} (f : W -> result A E * W) :
  (forall w, I w -> I (f w).2) -> keeps I (fallible f : prog W Ev E A).
Proof. intros Hf w t Hw. unfold fallible. specialize (Hf w Hw). by destruct (f w). Qed.

Lemma keeps_row I f e : (forall w, I w -> I (f w).2) -> keeps I (insert_row f e : prog W Ev E ()).
Proof. intros Hf w t Hw. unfold insert_row. specialize (Hf w Hw). by destruct (f w) as [[]]. Qed.

Lemma keeps_row_best_effort I f e :
  (forall w, I w -> I (f w).2) -> keeps I (insert_row_best_effort f e : prog W Ev E ()).
Proof. intros Hf w t Hw. unfold insert_row_best_effort. specialize (Hf w Hw). by destruct (f w) as [[]]. Qed.

(** What [m] returns, whatever the world and the trace. *)
Definition rspec {A} (m : prog W Ev E A) (R : result A E -> Prop) : Prop := spec (fun _ => True) m (fun r _ => R r).

Lemma rspec_ret {A} (a : A) R : R (Ok a) -> rspec (ret a) R.
Proof. intros HR. by apply spec_ret. Qed.

Lemma rspec_any {A} (m : prog W Ev E A) : rspec m (fun _ => True).
Proof. intros w t _. by destruct (m w t) as [[]]. Qed.

Lemma rspec_bind {A B} (m : prog W Ev E A) (k : A -> prog W Ev E B) R Q :
  rspec m R -> (forall e, R (Err e) -> Q (Err e)) -> (forall a, R (Ok a) -> rspec (k a) Q) -> rspec (bind m k) Q.
Proof.
  intros Hm He Hk w t Ht. unfold bind. specialize (Hm w t Ht). destruct (m w t) as [[[a|e] w'] t'].
  - by apply (Hk a Hm w' t').
  - by apply He.
Qed.

(** Whatever [m] returns. *)
Lemma rspec_then {A B} (m : prog W Ev E A) (k : A -> prog W Ev E B) Q :
  (forall e, Q (Err e)) -> (forall a, rspec (k a) Q) -> rspec (bind m k) Q.
Proof. intros He Hk. eapply rspec_bind; [apply rspec_any|auto|auto]. Qed.
End World.

Lemma wspec_bind_post {W Ev E A B} (I : W -> Prop) (m : prog W Ev E A) (k : A -> prog W Ev E B) R Q :
  wspec I m R -> (forall e w, R (Err e) w -> Q (Err e) w) -> (forall a, wspec (R (Ok a)) (k a) Q) -> wspec I (bind m k) Q.
Proof.
  intros Hm He Hk w t Hw. unfold bind. specialize (Hm w t Hw). destruct (m w t) as [[[a|e] w'] t']; [by apply Hk|by apply He].
Qed.

Lemma wspec_pre {W Ev E A} (I I' : W -> Prop) (m : prog W Ev E A) Q : (forall w, I w -> I' w) -> wspec I' m Q -> wspec I m Q.
Proof. intros HI Hm w t Hw. by apply Hm, HI. Qed.

(** A result's own facts, which no world can change, beside the world's. *)
Lemma wspec_pure {W Ev E A} (I : W -> Prop) (phi : Prop) (m : prog W Ev E A) Q : (phi -> wspec I m Q) -> wspec (fun w => I w /\ phi) m Q.
Proof. intros Hm w t [Hw Hp]. by apply (Hm Hp). Qed.

Lemma wspec_result {W Ev E A} (I : W -> Prop) (m : prog W Ev E A) (R : result A E -> Prop) Q :
  spec (fun _ => True) m (fun r _ => R r) -> wspec I m Q -> wspec I m (fun r w => Q r w /\ R r).
Proof.
  intros Hs Hw w t Hi. specialize (Hs w t Logic.I). specialize (Hw w t Hi). by destruct (m w t) as [[r w'] t'].
Qed.

Create HintDb world.
#[export] Hint Resolve keeps_ret keeps_bind keeps_emit keeps_effect keeps_fallible keeps_row keeps_row_best_effort : world.

(** Follow the program: split its conditionals, close the leaves with [world]. *)
Ltac keep :=
  repeat first
    [ apply keeps_bind; [|intros ?]
    | progress (eauto with world)
    | match goal with
      | |- keeps _ (match ?x with _ => _ end) => destruct x
      | |- keeps _ (if ?x then _ else _) => destruct x
      | |- keeps _ (let '_ := ?x in _) => destruct x
      end ].

(** * A run *)

Section Run.
Context `{UnicodeStr} `{Sha256} {W : Type} (env : Env W).
Variables I S : W -> Prop.

(** Every effect but the raise keeps [I]; a raise that succeeds leads to [S],
    one that fails keeps [I]. *)
Record env_keeps : Prop := {
  ek_now : forall w, I w -> I (e_now env w).2;
  ek_observe : forall w, I w -> I (e_observe_state env w).2;
  ek_audit : forall w, I w -> I (e_audit_insert env w).2;
  ek_count : forall n w, I w -> I (e_increment_plan_count env n w).2;
  ek_plan : forall c w, I w -> I (e_formulate_plan env c w).2;
  ek_synthesis : forall c w, I w -> I (e_formulate_synthesis env c w).2;
  ek_thinking : forall c w, I w -> I (e_formulate_without_thinking env c w).2;
  ek_reformat : forall c b s w, I w -> I (e_formulate_reformat env c b s w).2;
  ek_dispatch : forall id s w, I w -> I (e_dispatch_step env id s w).2;
  ek_skill : forall n w, I w -> I (e_load_skill env n w).2;
  ek_python : forall n w, I w -> I (e_load_python_skill env n w).2;
  ek_raise : forall p r sv v w, I w ->
    match e_raise_and_suspend env p r sv v w with (Ok _, w') => S w' | (Err _, w') => I w' end }.

Hypothesis Hk : env_keeps.

(** Where a run stands after a turn that ended in [ex], after its outcome. *)
Definition outcome_world (o : Outcome) (w : W) : Prop := match o with AwaitingOperator _ => S w | _ => I w end.

Definition turn_world (r : result (Executed * TaskContext * ExecState) DbError) (w : W) : Prop :=
  match r with Ok (ExFinished f, _, _) => outcome_world (fi_outcome f) w | _ => I w end.

Definition iteration_world (r : result (InnerLoopResult + LoopState) DbError) (w : W) : Prop :=
  match r with Ok (inl res) => outcome_world (ir_outcome res) w | _ => I w end.

Definition result_world (r : result (option InnerLoopResult) DbError) (w : W) : Prop :=
  match r with Ok (Some res) => outcome_world (ir_outcome res) w | _ => I w end.

Lemma record_failed_keeps ctx a b e : keeps I (record_failed_formulation env ctx a b e).
Proof. apply keeps_row_best_effort, (ek_audit Hk). Qed.

Lemma conclude_turn_keeps ctx a b c d e f g n r : keeps I (conclude_turn env ctx a b c d e f g n r).
Proof. pose proof record_failed_keeps. unfold conclude_turn. keep. Qed.

Lemma call_keeps b ctx : keeps I (call env b ctx).
Proof. destruct Hk. unfold call. keep. Qed.

Lemma attempt_keeps k (f : W -> option (result (Plan * FormulationMeta) AgentError) * W) :
  (forall w, I w -> I (f w).2) -> keeps I (attempt k f).
Proof. intros Hf. unfold attempt. keep. Qed.

Lemma formulate_turn_keeps ctx a b c n : keeps I (formulate_turn env ctx a b c n).
Proof.
  pose proof record_failed_keeps. pose proof conclude_turn_keeps. pose proof call_keeps.
  unfold formulate_turn. apply keeps_bind; [auto|]. intros [x|e]; [auto|]. destruct Hk.
  destruct (a && is_request_timeout e); [|destruct (is_empty_completion e); [|destruct (non_plan_answer e)]]; auto.
  - apply keeps_bind; [auto|]. intros _. apply keeps_bind; [apply attempt_keeps; auto|]. intros []; auto.
  - apply keeps_bind; [auto|]. intros _. apply keeps_bind; auto.
  - apply keeps_bind; [auto|]. intros _. apply keeps_bind; [apply attempt_keeps; auto|]. intros []; auto.
Qed.

Lemma expand_invoke_skill_keeps p d c : keeps I (expand_invoke_skill env p d c).
Proof. destruct Hk. unfold expand_invoke_skill, refuse, expanded, row. keep. Qed.

Lemma dispatch_steps_keeps policy id steps st os : keeps I (dispatch_steps env policy id steps st os).
Proof.
  destruct Hk. revert st os. induction steps as [|s steps IH]; intros st os; cbn [dispatch_steps]; [apply keeps_ret|].
  keep.
Qed.

Lemma sink_rows_keeps l : keeps I (sink_rows env l).
Proof. destruct Hk. induction l as [|v l IH]; cbn [sink_rows]; unfold row_best_effort; keep. Qed.

(** A turn that dispatches or declines ends without an ask. *)
Lemma execute_steps_world ctx p invoke st policy : wspec I (execute_steps env ctx p invoke st policy) turn_world.
Proof.
  destruct Hk. unfold execute_steps, row. destruct (_ <? _)%nat; [by apply wspec_ret|].
  apply wspec_bind; [apply dispatch_steps_keeps|done|]. intros [[os|] st1]; [|by apply wspec_ret].
  apply wspec_bind; [keep|done|]. intros _. apply wspec_bind; [destruct invoke as [[]|]; keep|done|]. intros _.
  apply wspec_bind; [apply sink_rows_keeps|done|]. intros _. by apply wspec_ret.
Qed.

Lemma proceed_world ctx p invoke synth exh st policy : wspec I (proceed env ctx p invoke synth exh st policy) turn_world.
Proof.
  unfold proceed. destruct (pl_refused p); [by apply wspec_ret|]. destruct (is_terminal p); [by apply wspec_ret|].
  destruct synth; [destruct exh; by apply wspec_ret|apply execute_steps_world].
Qed.

Lemma review_phase_world ctx p invoke synth exh st policy :
  wspec I (review_phase env ctx p invoke synth exh st policy) turn_world.
Proof.
  pose proof (ek_audit Hk) as Ha. unfold review_phase. apply wspec_bind; [keep|done|]. intros _.
  apply wspec_bind; [unfold row; keep|done|]. intros _.
  destruct (stage_review _ _ _); try apply proceed_world; try (by apply wspec_ret).
  - destruct (is_refused _); [apply proceed_world|]. destruct (approval_for _ _).
    + apply wspec_bind; [unfold row_best_effort; keep|done|]. intros _. apply proceed_world.
    + intros w t Hw. unfold bind, effect.
      match goal with |- context [e_raise_and_suspend ?e ?a ?b ?c ?d w] => pose proof (ek_raise Hk a b c d w Hw) as Hr end.
      destruct (e_raise_and_suspend _ _ _ _ _ w) as [[ask|err] w'']; exact Hr.
  - destruct (is_refused _); [apply proceed_world|by apply wspec_ret].
Qed.

Lemma review_and_dispatch_world ctx p synth exh st policy :
  wspec I (review_and_dispatch env ctx p synth exh st policy) turn_world.
Proof.
  pose proof (ek_audit Hk) as Ha. unfold review_and_dispatch. apply wspec_bind; [unfold row; keep|done|]. intros _.
  destruct (pl_invoke_skill _); [|apply review_phase_world].
  apply wspec_bind; [apply expand_invoke_skill_keeps|done|]. intros [reasons|steps m n]; [by apply wspec_ret|].
  apply review_phase_world.
Qed.

(** After a turn the iteration only repackages its result. *)
Lemma wspec_turn ctx p synth exh st policy (k : Executed * TaskContext * ExecState -> InnerLoopResult + LoopState) :
  (forall ex c s, match k (ex, c, s) with
                  | inl res => exists f, ex = ExFinished f /\ ir_outcome res = fi_outcome f
                  | inr _ => forall f, ex <> ExFinished f end) ->
  wspec I (let* x := review_and_dispatch env ctx p synth exh st policy in ret (k x)) iteration_world.
Proof.
  intros Hkx w t Hw. unfold bind. pose proof (review_and_dispatch_world ctx p synth exh st policy w t Hw) as Hr.
  destruct (review_and_dispatch _ _ _ _ _ _ _ w t) as [[[[[ex c] s]|e] w'] t']; cbn; [|exact Hr].
  specialize (Hkx ex c s). destruct (k (ex, c, s)) as [res|ls].
  - destruct Hkx as (f & -> & ->). exact Hr.
  - destruct ex; [by destruct (Hkx f)|exact Hr..].
Qed.

Lemma iteration_world_ok ls : wspec I (iteration env ls) iteration_world.
Proof.
  destruct Hk as [Hnow Hobs _ Hcount _ _ _ _ _ _ _ _]. destruct ls as [ctx st failed att force]. unfold iteration.
  apply wspec_bind; [keep|done|]. intros state. destruct (bytes_eqb _ _); [by apply wspec_ret|].
  apply wspec_bind; [keep|done|]. intros now.
  assert (Hplan : forall synth exh, wspec I
    (let* (turn, failed') := formulate_turn env ctx synth (ex_gathered st) (att || synth) failed in
     match turn with
     | TurnFailed detail => ret (inl (finish_with env ctx st failed' (Failed detail)))
     | ForceSynthesis => ret (inr (mkLoop ctx st failed' (att || synth) true))
     | Planned plan meta =>
         let ctx1 := with_plan_count ctx (cx_plan_count ctx + 1) in
         effect (e_increment_plan_count env (cx_plan_count ctx1));;;
         let* (ex, ctx2, st2) := review_and_dispatch env ctx1 plan synth exh st PlanPolicy in
         match ex with
         | ExFinished f => ret (inl (finish env ctx2 st2 failed' f))
         | Again | Dispatched => ret (inr (mkLoop ctx2 st2 failed' (att || synth) force))
         end
     end) iteration_world).
  { intros synth exh. apply wspec_bind; [apply formulate_turn_keeps|done|]. intros [turn failed'].
    destruct turn as [plan meta| |detail]; [|by apply wspec_ret..].
    apply wspec_bind; [keep|done|]. intros _.
    intros w t Hw. pose proof (wspec_turn (with_plan_count ctx (cx_plan_count ctx + 1)) plan synth exh st PlanPolicy
      (fun x => match x with
                | (ExFinished f, c, s) => inl (finish env c s failed' f)
                | (_, c, s) => inr (mkLoop c s failed' (att || synth) force) end)) as Ht.
    unfold bind in *. specialize (Ht ltac:(intros [f| |] c s; [by eexists|done..]) w t Hw). cbv beta in Ht.
    destruct (review_and_dispatch _ _ _ _ _ _ _ w t) as [[[[[ex c] s]|e] w'] t']; [destruct ex; exact Ht|exact Ht]. }
  destruct (exhausted _ _ _ now) as [which|], (_ && negb att); try apply Hplan. by apply wspec_ret.
Qed.

Lemma run_to_terminal_world ctx : wspec I (run_to_terminal env ctx) result_world.
Proof.
  unfold run_to_terminal. generalize (loop_fuel ctx), (loop_init ctx). intros fuel.
  induction fuel as [|fuel IH]; intros ls; cbn [run_loop]; [by apply wspec_ret|].
  intros w t Hw. unfold bind. pose proof (iteration_world_ok ls w t Hw) as Hi.
  destruct (iteration env ls w t) as [[[[res|ls']|e] w'] t']; [exact Hi|by apply IH|exact Hi].
Qed.
End Run.
