(* ===== verification/SkillStore.v ===== *)
(** The life of a skill in the [memories] table (src/db/src/memories.rs and
    memories/{write,layer_load,search}.rs): the agent's writers
    (l3_crystallise.rs, l3py_crystallise.rs), the operator's trust ladder
    (bin/kastellan-cli/memory_l3, cli_audit/memory.rs), the loaders of the agent's
    door (l3_invoke/agent.rs, l3py_invoke/agent.rs), the operator's run path
    (l3_invoke/operator.rs, l3py_invoke/operator.rs, scheduler/l3_run.rs) and
    the prompt block that surfaces skills (l3_surface.rs).

    A statement of the database is one atomic step.  Every writer first reads
    and decides and then writes, in separate statements, so a writer is split
    into the decision, a function of the table it read, and the [Write] it
    issues later; [step] interleaves them freely. *)

From stdpp Require Import base list sets numbers strings pretty relations.
From Stdlib Require Import ZArith Lia.
From S2P Require Import Prelude RustStr Fingerprint HashesWire Json NulRule Secrets Cassandra PlanJson.
From S2P Require Import SkillTemplate PythonSkill InnerLoop.
Local Open Scope nat_scope.

(** * The table *)

Inductive MemoryLayer := Meta | Index | Stable | Skill | Digest.

#[global] Instance MemoryLayer_eq_dec : EqDecision MemoryLayer.
Proof. solve_decision. Defined.

Definition as_db (l : MemoryLayer) : Z :=
  match l with Meta => 0 | Index => 1 | Stable => 2 | Skill => 3 | Digest => 4 end.

Definition from_db (raw : Z) : result MemoryLayer bytes :=
  if (raw =? 0)%Z then Ok Meta
  else if (raw =? 1)%Z then Ok Index
  else if (raw =? 2)%Z then Ok Stable
  else if (raw =? 3)%Z then Ok Skill
  else if (raw =? 4)%Z then Ok Digest
  else Err (bs "memory layer out of range: " ++ show_Z raw).

Record Memory := mkMemory {
  me_id : Z; me_body : bytes; me_metadata : Value; me_layer : MemoryLayer; me_created_at : Z }.

(** The rows in table order, and the sequence behind [id]. *)
Record Store := mkStore { s_rows : list Memory; s_next : Z }.

(** [metadata->>'key'] of a row the writers below made: those keys hold strings. *)
Definition meta_str (key : bytes) (m : Memory) : option bytes := get key (me_metadata m) ≫= as_str.

Definition is_skill_row (m : Memory) : bool := bool_decide (me_layer m = Skill).

Definition refuse_nul (body : bytes) (metadata : Value) : result () DbError :=
  match refuse_nul_in_text (bs "memories.body") body with
  | Err e => Err e
  | Ok _ => refuse_nul_in_json (bs "memories.metadata") metadata
  end.

Definition insert_row_at_layer (body : bytes) (metadata : Value) (layer : MemoryLayer) (now : Z) (st : Store) :
    result Z DbError * Store :=
  match refuse_nul body metadata with
  | Err e => (Err e, st)
  | Ok _ => (Ok (s_next st), mkStore (s_rows st ++ [mkMemory (s_next st) body metadata layer now]) (s_next st + 1))
  end.

Definition insert_memory_at_layer (body : bytes) (metadata : Value) (layer : MemoryLayer) (now : Z) (st : Store) :
    result Z DbError * Store :=
  match layer with
  | Meta => (Err (bs "L0 (Meta) writes must go through seed_meta_memory; insert_memory_at_layer is for L1/L3/L4 only"), st)
  | _ => insert_row_at_layer body metadata layer now st
  end.

(** [UPDATE .. SET metadata = jsonb_set(metadata, '{trust}', ..) WHERE id AND layer = 3];
    [jsonb_set] on a row whose metadata is not an object fails the statement. *)
Definition set_trust (t : bytes) (m : Memory) : Memory :=
  match me_metadata m with
  | Object fields => mkMemory (me_id m) (me_body m) (Object (map_insert (bs "trust") (String t) fields)) (me_layer m) (me_created_at m)
  | _ => m
  end.

Definition hit (id : Z) (m : Memory) : bool := (me_id m =? id)%Z && is_skill_row m.

Definition set_skill_trust (id : Z) (t : bytes) (st : Store) : result bool DbError * Store :=
  if existsb (fun m => hit id m && negb (is_object (me_metadata m))) (s_rows st) then
    (Err (bs "set_skill_trust id=" ++ show_Z id ++ bs ": cannot set path in scalar"), st)
  else
    (Ok (existsb (hit id) (s_rows st)),
     mkStore (map (fun m => if hit id m then set_trust t m else m) (s_rows st)) (s_next st)).

Definition delete_memory_at_layer (id : Z) (layer : MemoryLayer) (st : Store) : bool * Store :=
  let gone m := (me_id m =? id)%Z && bool_decide (me_layer m = layer) in
  (existsb gone (s_rows st), mkStore (List.filter (fun m => negb (gone m)) (s_rows st)) (s_next st)).

Definition fetch_by_id (id : Z) (st : Store) : option Memory := List.find (fun m => (me_id m =? id)%Z) (s_rows st).

(** [ORDER BY created_at DESC, id DESC] *)
Definition newer (a b : Memory) : bool :=
  ((me_created_at b <? me_created_at a) || ((me_created_at a =? me_created_at b) && (me_id b <? me_id a)))%Z.

Fixpoint insert_newest (m : Memory) (l : list Memory) : list Memory :=
  match l with
  | [] => [m]
  | x :: t => if newer m x then m :: l else x :: insert_newest m t
  end.

Definition load_layer_by_trust (layer : MemoryLayer) (trusts : list bytes) (cap : nat) (st : Store) : list Memory :=
  if (cap =? 0) || (length trusts =? 0) then []
  else
    let hits := List.filter (fun m =>
      bool_decide (me_layer m = layer)
      && match meta_str (bs "trust") m with Some t => set_contains t trusts | None => false end) (s_rows st) in
    take cap (fold_left (fun acc m => insert_newest m acc) hits []).

(** * The agent's writers *)

(** [L3Source::AgentRaised] *)
Record L3Source := mkAgentRaised { src_task_id : Z }.

Inductive L3WriteOutcome := Inserted (memory_id : Z) | SkippedDuplicate (memory_id : Z).

Definition build_l3_metadata (src : L3Source) (c : L3SkillCandidate) (body_sha256 created_at : bytes) : Value :=
  object [(bs "source", String (bs "agent_raised")); (bs "task_id", int_value (src_task_id src));
          (bs "trust", String (bs "untrusted")); (bs "body_sha256", String body_sha256);
          (bs "created_at", String created_at); (bs "template", l3_skill_value c)].

Definition build_python_skill_metadata (src : L3Source) (c : PythonSkillCandidate) (body_sha256 created_at : bytes) : Value :=
  object [(bs "source", String (bs "agent_raised")); (bs "task_id", int_value (src_task_id src));
          (bs "trust", String (bs "untrusted")); (bs "kind", String (bs "python"));
          (bs "body_sha256", String body_sha256); (bs "created_at", String created_at);
          (bs "python", python_value c)].

(** The [EXISTS] check. *)
Definition find_by_sha (sha : bytes) (st : Store) : option Z :=
  me_id <$> List.find (fun m => is_skill_row m && bool_decide (meta_str (bs "body_sha256") m = Some sha)) (s_rows st).

(** A write issued after a decision. *)
Inductive Write :=
| WInsert (body : bytes) (metadata : Value)
| WTrust (id : Z) (t : SkillTrust).

Definition run_write (now : Z) (w : Write) (st : Store) : Store :=
  match w with
  | WInsert body metadata => (insert_memory_at_layer body metadata Skill now st).2
  | WTrust id t => (set_skill_trust id (trust_str t) st).2
  end.

Section Store.
Context `{UnicodeStr} `{Sha256} (to_string : Value -> bytes).

(** [crystallise_l3] up to its [INSERT]: a duplicate's id, or the row to write. *)
Definition crystallise_l3_check (c : L3SkillCandidate) (src : L3Source) (created_at : bytes) (st : Store) :
    result (Z + bytes * Value) L3Error :=
  match validate_l3_skill to_string c with
  | Err e => Err e
  | Ok normalised =>
      let body_sha256 := compute_template_sha256 to_string normalised in
      match find_by_sha body_sha256 st with
      | Some id => Ok (inl id)
      | None => Ok (inr (l3_description normalised, build_l3_metadata src normalised body_sha256 created_at))
      end
  end.

Definition crystallise_l3 (c : L3SkillCandidate) (src : L3Source) (created_at : bytes) (now : Z) (st : Store) :
    result L3WriteOutcome L3Error * Store :=
  match crystallise_l3_check c src created_at st with
  | Err e => (Err e, st)
  | Ok (inl id) => (Ok (SkippedDuplicate id), st)
  | Ok (inr (body, metadata)) =>
      match insert_memory_at_layer body metadata Skill now st with
      | (Ok id, st') => (Ok (Inserted id), st')
      | (Err e, st') => (Err (L3Db e), st')
      end
  end.

Definition crystallise_python_check (c : PythonSkillCandidate) (src : L3Source) (created_at : bytes) (st : Store) :
    result (Z + bytes * Value) PyError :=
  match validate_python_skill c with
  | Err e => Err e
  | Ok normalised =>
      let body_sha256 := compute_python_sha256 to_string normalised in
      match find_by_sha body_sha256 st with
      | Some id => Ok (inl id)
      | None =>
          Ok (inr (py_description normalised, build_python_skill_metadata src normalised body_sha256 created_at))
      end
  end.

Definition crystallise_python_skill (c : PythonSkillCandidate) (src : L3Source) (created_at : bytes) (now : Z)
    (st : Store) : result L3WriteOutcome PyError * Store :=
  match crystallise_python_check c src created_at st with
  | Err e => (Err e, st)
  | Ok (inl id) => (Ok (SkippedDuplicate id), st)
  | Ok (inr (body, metadata)) =>
      match insert_memory_at_layer body metadata Skill now st with
      | (Ok id, st') => (Ok (Inserted id), st')
      | (Err e, st') => (Err (PyDb e), st')
      end
  end.

(** * The operator's ladder (memory_l3/trust.rs, shared.rs, cli_audit/memory.rs) *)

Definition str_array (l : list bytes) : Value := Array (map String l).

Definition cli_row (action : bytes) (payload : Value) : AuditRow := mkRow (bs "cli") action payload.

Definition build_l3_approved_payload (id : Z) (name sha : bytes) (tools : list bytes) : Value :=
  object [(bs "memory_id", int_value id); (bs "skill_name", String name); (bs "body_sha256", String sha);
          (bs "tools", str_array tools)].

Definition build_l3_approve_rejected_payload (id : Z) (name sha : option bytes) (reasons : list bytes) : Value :=
  object ([(bs "memory_id", int_value id)] ++ opt_field (bs "skill_name") String name ++
          opt_field (bs "body_sha256") String sha ++ [(bs "reasons", str_array reasons)]).

Definition build_l3_pinned_payload (id : Z) (name sha : bytes) : Value :=
  object [(bs "memory_id", int_value id); (bs "skill_name", String name); (bs "body_sha256", String sha)].

Definition build_l3_pin_rejected_payload (id : Z) (name : option bytes) (reasons : list bytes) : Value :=
  object [(bs "memory_id", int_value id); (bs "skill_name", opt_value String name); (bs "reasons", str_array reasons)].

Definition build_l3_revoked_payload (id : Z) (updated : bool) : Value :=
  object [(bs "memory_id", int_value id); (bs "updated", Bool updated)].

(** What a command does after its reads: exit with the audit rows written, or
    issue the trust flip and then one audit row. *)
Inductive CliPlan := CliExit (code : Z) (rows : list AuditRow) | CliFlip (w : Write) (row : AuditRow).

Definition load_skill_row (args : list bytes) (st : Store) : result Memory Z :=
  match args with
  | [s] =>
      match parse_i64 s with
      | None => Err 2%Z
      | Some id =>
          match fetch_by_id id st with
          | Some r => if is_skill_row r then Ok r else Err 1%Z
          | None => Err 1%Z
          end
      end
  | _ => Err 2%Z
  end.

Definition row_trust (m : Memory) : SkillTrust := from_metadata_str (default [] (meta_str (bs "trust") m)).

Definition row_template (m : Memory) : option L3SkillCandidate := get (bs "template") (me_metadata m) ≫= l3_skill_from_value.

Definition row_python (m : Memory) : option PythonSkillCandidate := get (bs "python") (me_metadata m) ≫= python_from_value.

Definition is_python_row (m : Memory) : bool := bool_decide (meta_str (bs "kind") m = Some (bs "python")).

(** The latest [registry.loaded] payload, or the error of reading it. *)
Definition decide_against_registry (registry : result (option Value) DbError) (t : L3SkillCandidate) :
    option ApprovalDecision :=
  match registry with
  | Ok (Some p) => Some (evaluate_approval to_string t (extract_tool_names p))
  | Ok None => Some (GateReject [NoRegistrySnapshot])
  | Err _ => None
  end.

Definition approve_rejected (m : Memory) (name : option bytes) (reasons : list bytes) : CliPlan :=
  CliExit 1 [cli_row (bs "l3.approve_rejected")
    (build_l3_approve_rejected_payload (me_id m) name (meta_str (bs "body_sha256") m) reasons)].

Definition pin_rejected (m : Memory) (name : option bytes) (reasons : list bytes) : CliPlan :=
  CliExit 1 [cli_row (bs "l3.pin_rejected") (build_l3_pin_rejected_payload (me_id m) name reasons)].

Definition row_sha (m : Memory) : bytes := default [] (meta_str (bs "body_sha256") m).

Definition approve_python_skill (m : Memory) : CliPlan :=
  match row_python m with
  | None => approve_rejected m None [bs "stored row has kind=python but no parseable 'python'"]
  | Some c =>
      match evaluate_python_approval c with
      | GateApprove =>
          CliFlip (WTrust (me_id m) UserApproved)
            (cli_row (bs "l3.approved") (build_l3_approved_payload (me_id m) (py_name c) (row_sha m) []))
      | GateReject reasons => approve_rejected m (Some (py_name c)) (map reject_str reasons)
      end
  end.

Definition memory_l3_approve (args : list bytes) (registry : result (option Value) DbError) (st : Store) : CliPlan :=
  match load_skill_row args st with
  | Err code => CliExit code []
  | Ok m =>
      if is_python_row m then approve_python_skill m
      else match row_template m with
           | None => approve_rejected m None [bs "stored L3 row has no parseable 'template'"]
           | Some t =>
               match decide_against_registry registry t with
               | None => CliExit 1 []
               | Some GateApprove =>
                   CliFlip (WTrust (me_id m) UserApproved)
                     (cli_row (bs "l3.approved")
                        (build_l3_approved_payload (me_id m) (l3_name t) (row_sha m) (to_set (l3s_tool <$> l3_steps t))))
               | Some (GateReject reasons) => approve_rejected m (Some (l3_name t)) (map reject_str reasons)
               end
           end
  end.

Definition not_approved (t : SkillTrust) : bytes :=
  bs "skill must be user_approved before pinning (current: " ++ trust_str t ++ bs ")".

Definition is_user_approved (t : SkillTrust) : bool := match t with UserApproved => true | _ => false end.

Definition pin_python_skill (m : Memory) : CliPlan :=
  if negb (is_user_approved (row_trust m)) then pin_rejected m None [not_approved (row_trust m)]
  else match row_python m with
       | None => pin_rejected m None [bs "stored row has kind=python but no parseable 'python'"]
       | Some c =>
           match evaluate_python_approval c with
           | GateApprove =>
               CliFlip (WTrust (me_id m) Pinned)
                 (cli_row (bs "l3.pinned") (build_l3_pinned_payload (me_id m) (py_name c) (row_sha m)))
           | GateReject reasons => pin_rejected m (Some (py_name c)) (map reject_str reasons)
           end
       end.

Definition memory_l3_pin (args : list bytes) (registry : result (option Value) DbError) (st : Store) : CliPlan :=
  match load_skill_row args st with
  | Err code => CliExit code []
  | Ok m =>
      if is_python_row m then pin_python_skill m
      else if negb (is_user_approved (row_trust m)) then pin_rejected m None [not_approved (row_trust m)]
      else match row_template m with
           | None => pin_rejected m None [bs "stored L3 row has no parseable 'template'"]
           | Some t =>
               match decide_against_registry registry t with
               | None => CliExit 1 []
               | Some GateApprove =>
                   CliFlip (WTrust (me_id m) Pinned)
                     (cli_row (bs "l3.pinned") (build_l3_pinned_payload (me_id m) (l3_name t) (row_sha m)))
               | Some (GateReject reasons) => pin_rejected m (Some (l3_name t)) (map reject_str reasons)
               end
           end
  end.

(** [l3_revoke_and_audit]: one statement, no gate. *)
Definition l3_revoke_and_audit (id : Z) (st : Store) : result bool DbError * Store * list AuditRow :=
  match set_skill_trust id (trust_str Untrusted) st with
  | (Err e, st') => (Err e, st', [])
  | (Ok updated, st') => (Ok updated, st', [cli_row (bs "l3.revoked") (build_l3_revoked_payload id updated)])
  end.

(** [remove_l3] *)
Definition remove_l3 (id : Z) (st : Store) : bool * Store := delete_memory_at_layer id Skill st.

(** * The agent's loaders *)

Definition SCAN_CAP : nat := 64.

Fixpoint first_named (name : bytes) (rows : list Memory) : option PinnedSkill :=
  match rows with
  | [] => None
  | m :: rest =>
      if negb (is_autonomously_invocable (row_trust m)) then first_named name rest
      else match row_template m with
           | None => first_named name rest
           | Some t =>
               if negb (bytes_eqb (l3_name t) name) then first_named name rest
               else Some (mkPinned (me_id m) t (row_sha m))
           end
  end.

Definition load_pinned_skill_by_name (name : bytes) (st : Store) : option PinnedSkill :=
  first_named name (load_layer_by_trust Skill [bs "pinned"] SCAN_CAP st).

Fixpoint first_python_named (name : bytes) (rows : list Memory) : option PinnedPythonSkill :=
  match rows with
  | [] => None
  | m :: rest =>
      if negb (is_python_row m) then first_python_named name rest
      else if negb (is_autonomously_invocable (row_trust m)) then first_python_named name rest
      else match row_python m with
           | None => first_python_named name rest
           | Some c =>
               if negb (bytes_eqb (py_name c) name) then first_python_named name rest
               else Some (mkPinnedPy (me_id m) c (row_sha m))
           end
  end.

Definition load_pinned_python_skill_by_name (name : bytes) (st : Store) : option PinnedPythonSkill :=
  first_python_named name (load_layer_by_trust Skill [bs "pinned"] SCAN_CAP st).

(** * The operator's run path (l3_invoke/operator.rs, l3py_invoke/operator.rs, scheduler/l3_run.rs) *)

Inductive InvokeReport :=
| ReportRefused (reasons : list bytes)
| ReportDryRun (steps : list L3TemplateStep)
| ReportExecuted (outcomes : list StepOutcome) (steps_total : nat).

Definition build_l3_invoked_payload (id : Z) (name sha : bytes) (arg_names : list bytes) (step_count : nat) : Value :=
  object [(bs "memory_id", int_value id); (bs "skill_name", String name); (bs "body_sha256", String sha);
          (bs "arg_names", str_array arg_names); (bs "step_count", int_value (Z.of_nat step_count))].

Definition build_l3_invoke_outcome_payload (id : Z) (name : bytes) (executed total : nat) (any_err : bool) : Value :=
  object [(bs "memory_id", int_value id); (bs "skill_name", String name);
          (bs "steps_executed", int_value (Z.of_nat executed)); (bs "steps_total", int_value (Z.of_nat total));
          (bs "any_err", Bool any_err)].

Definition build_l3_invoke_rejected_payload (id : Z) (name sha : bytes) (reasons : list bytes) : Value :=
  object [(bs "memory_id", int_value id); (bs "skill_name", String name); (bs "body_sha256", String sha);
          (bs "reasons", str_array reasons)].

Definition L3_RUN_KIND : bytes := bs "l3_run".

Record L3RunRequest := mkRunRequest { rq_memory_id : Z; rq_args : Args; rq_params : Value; rq_execute : bool }.

Definition is_l3_run_payload (payload : Value) : bool :=
  bool_decide (get (bs "kind") payload ≫= as_str = Some L3_RUN_KIND).

Definition as_i64 (v : Value) : option Z :=
  match v with
  | Number (NInt z) => if ((- 9223372036854775808 <=? z) && (z <=? i64_max))%Z then Some z else None
  | _ => None
  end.

Definition as_bool (v : Value) : option bool := match v with Bool b => Some b | _ => None end.

Fixpoint run_args (entries : list (bytes * Value)) (args : Args) : result Args bytes :=
  match entries with
  | [] => Ok args
  | (k, v) :: rest =>
      match as_str v with
      | Some s => run_args rest (map_insert k s args)
      | None => Err (bs "l3_run arg '" ++ k ++ bs "' is not a string")
      end
  end.

Definition parse_l3_run_payload (payload : Value) : result L3RunRequest bytes :=
  if negb (is_l3_run_payload payload) then Err (bs "payload kind is not 'l3_run'")
  else match get (bs "memory_id") payload ≫= as_i64 with
  | None => Err (bs "l3_run payload missing integer 'memory_id'")
  | Some memory_id =>
      let execute := default false (get (bs "execute") payload ≫= as_bool) in
      let args := match get (bs "args") payload with
                  | None => Ok []
                  | Some (Object m) => run_args m []
                  | Some _ => Err (bs "l3_run payload 'args' is not an object")
                  end in
      match args with
      | Err e => Err e
      | Ok args =>
          match get (bs "params") payload with
          | None | Some Null => Ok (mkRunRequest memory_id args Null execute)
          | Some (Object m) => Ok (mkRunRequest memory_id args (Object m) execute)
          | Some _ => Err (bs "l3_run payload 'params' is not an object")
          end
      end
  end.

Section Run.
Context {W : Type} (dispatch_step : PlannedStep -> W -> StepOutcome * W) (known_tools : list bytes).

(** Stops after the first error. *)
Fixpoint run_steps (steps : list L3TemplateStep) (w : W) : list StepOutcome * W :=
  match steps with
  | [] => ([], w)
  | s :: ss =>
      let '(o, w1) := dispatch_step (planned_step_from_l3 s) w in
      if is_err o then ([o], w1)
      else let '(os, w2) := run_steps ss w1 in (o :: os, w2)
  end.

(** The part both operator paths share, from the prepared steps on: [tag] adds
    the [kind] of a Python skill to the audit payloads. *)
Definition invoke_prepared (tag : Value -> Value) (id : Z) (name sha : bytes) (arg_names : list bytes)
    (prepared : result (list L3TemplateStep) (list bytes)) (execute : bool) (w : W) : InvokeReport * list AuditRow * W :=
  match prepared with
  | Err reasons =>
      (ReportRefused reasons,
       [cli_row (bs "l3.invoke_rejected") (tag (build_l3_invoke_rejected_payload id name sha reasons))], w)
  | Ok steps =>
      if negb execute then (ReportDryRun steps, [], w)
      else
        let invoked := cli_row (bs "l3.invoked") (tag (build_l3_invoked_payload id name sha arg_names (length steps))) in
        let '(outcomes, w') := run_steps steps w in
        (ReportExecuted outcomes (length steps),
         [invoked; cli_row (bs "l3.invoke_outcome")
            (tag (build_l3_invoke_outcome_payload id name (length outcomes) (length steps) (existsb is_err outcomes)))], w')
  end.

Definition invoke_l3 (id : Z) (t : L3SkillCandidate) (trust : SkillTrust) (sha : bytes) (args : Args) (execute : bool) :
    W -> InvokeReport * list AuditRow * W :=
  invoke_prepared (fun v => v) id (l3_name t) sha args.*1 (prepare_invocation to_string t trust args known_tools) execute.

Definition invoke_python_skill (id : Z) (c : PythonSkillCandidate) (trust : SkillTrust) (sha : bytes) (params : Value)
    (execute : bool) : W -> InvokeReport * list AuditRow * W :=
  invoke_prepared with_python_kind id (py_name c) sha [] (prepare_python_steps to_string c trust sha params) execute.

Definition refused (reason : bytes) (w : W) : InvokeReport * list AuditRow * W := (ReportRefused [reason], [], w).

Definition run_l3_run_task (fetch : Z -> result (option Memory) DbError) (payload : Value) (w : W) :
    InvokeReport * list AuditRow * W :=
  match parse_l3_run_payload payload with
  | Err e => refused e w
  | Ok req =>
      let id := rq_memory_id req in
      match fetch id with
      | Err e => refused (bs "loading skill id=" ++ show_Z id ++ bs ": " ++ e) w
      | Ok row =>
          match (match row with Some r => if is_skill_row r then Some r else None | None => None end) with
          | None => refused (bs "no layer-3 skill with id=" ++ show_Z id) w
          | Some row =>
              if is_python_row row then
                match row_python row with
                | None => refused (bs "python skill id=" ++ show_Z id ++ bs " has no parseable metadata.python") w
                | Some c => invoke_python_skill id c (row_trust row) (row_sha row) (rq_params req) (rq_execute req) w
                end
              else
                match row_template row with
                | None => refused (bs "skill id=" ++ show_Z id ++ bs " has no parseable template") w
                | Some t => invoke_l3 id t (row_trust row) (row_sha row) (rq_args req) (rq_execute req) w
                end
          end
      end
  end.
End Run.

(** * Surfacing in the prompt (l3_surface.rs) *)

Record SurfacedSkill := mkSurfaced { sf_name : bytes; sf_description : bytes; sf_params : list L3Param; sf_invocable : bool }.

Definition parse_surfaced_skill (m : Memory) : option SurfacedSkill :=
  let invocable := is_autonomously_invocable (row_trust m) in
  if is_python_row m then
    c ← row_python m; Some (mkSurfaced (py_name c) (py_description c) [] invocable)
  else
    c ← row_template m; Some (mkSurfaced (l3_name c) (l3_description c) (l3_parameters c) invocable).

Definition is_surfaceable (t : SkillTrust) : bool := match t with Untrusted => false | _ => true end.

Definition surfaceable_trust_markers : list bytes := [trust_str UserApproved; trust_str Pinned].

Definition L3_SKILLS_CAP_ROWS : nat := 16.
Definition L3_SKILLS_CAP_BYTES : nat := 4096.

(** Character by character on UTF-8 text: the C0 controls and DEL are one byte,
    the C1 controls are 194 followed by 128 to 159, and U+2028/U+2029 are 226,
    128, 168 or 169. *)
Fixpoint escape_skill_field (s : bytes) : bytes :=
  match s with
  | [] => []
  | c :: t =>
      if (c =? 38)%Z then bs "&amp;" ++ escape_skill_field t
      else if (c =? 60)%Z then bs "&lt;" ++ escape_skill_field t
      else if (c =? 62)%Z then bs "&gt;" ++ escape_skill_field t
      else if ((c <? 32) || (c =? 127))%Z then 32%Z :: escape_skill_field t
      else match t with
           | d :: u =>
               if ((c =? 194) && (128 <=? d) && (d <=? 159))%Z then 32%Z :: escape_skill_field u
               else match u with
                    | e :: r =>
                        if ((c =? 226) && (d =? 128) && ((e =? 168) || (e =? 169)))%Z
                        then 32%Z :: escape_skill_field r
                        else c :: escape_skill_field t
                    | [] => c :: escape_skill_field t
                    end
           | [] => [c]
           end
  end.

Definition render_skill_entry (s : SurfacedSkill) : bytes :=
  bs "- " ++ escape_skill_field (sf_name s) ++ (if sf_invocable s then bs " [invocable]" else []) ++
  bs ": " ++ escape_skill_field (sf_description s) ++ [10%Z] ++
  match sf_params s with
  | [] => []
  | ps =>
      bs "  params: " ++
      join (bs ", ") (map (fun p => escape_skill_field (l3p_name p) ++ bs " (" ++
                                    escape_skill_field (l3p_description p) ++ bs ")") ps) ++ [10%Z]
  end.

Fixpoint cap_loop (cap_rows cap_bytes bytes_used : nat) (acc skills : list SurfacedSkill) : list SurfacedSkill :=
  match skills with
  | [] => acc
  | s :: rest =>
      if cap_rows <=? length acc then acc
      else
        let entry_bytes := length (render_skill_entry s) in
        if cap_bytes <? bytes_used + entry_bytes then acc
        else cap_loop cap_rows cap_bytes (bytes_used + entry_bytes) (acc ++ [s]) rest
  end.

Definition cap_surfaced (skills : list SurfacedSkill) (cap_rows cap_bytes : nat) : list SurfacedSkill :=
  if (cap_rows =? 0) || (cap_bytes =? 0) then [] else cap_loop cap_rows cap_bytes 0 [] skills.

Definition load_l3_skills_for_prompt (cap_rows cap_bytes : nat) (st : Store) : list SurfacedSkill :=
  if (cap_rows =? 0) || (cap_bytes =? 0) then []
  else
    let rows := load_layer_by_trust Skill surfaceable_trust_markers cap_rows st in
    cap_surfaced (omap parse_surfaced_skill (List.filter (fun m => is_surfaceable (row_trust m)) rows)) cap_rows cap_bytes.

Definition load_l3_skills_default (st : Store) : list SurfacedSkill :=
  load_l3_skills_for_prompt L3_SKILLS_CAP_ROWS L3_SKILLS_CAP_BYTES st.

(** * The transition system *)

(** A positive decision of the operator's commands, with the registry snapshot
    it was taken against. *)
Inductive Decision := DApprove (id : Z) (registry : option Value) | DPin (id : Z) (registry : option Value).

(** The table, the writes decided and not yet issued, the latest
    [registry.loaded] payload, and the decisions taken, newest first. *)
Record World := mkWorld {
  w_store : Store; w_pending : list Write; w_registry : option Value; w_log : list Decision }.

Definition initial (registry : option Value) : World := mkWorld (mkStore [] 1) [] registry [].

(** The candidates an agent's plan carries are parsed JSON. *)
Definition parsed (c : L3SkillCandidate) : Prop := Forall (fun s => canonical (l3s_parameters s) = true) (l3_steps c).

Inductive step : World -> World -> Prop :=
| step_crystallise st ps reg log c src at_ body md :
    parsed c -> crystallise_l3_check c src at_ st = Ok (inr (body, md)) ->
    step (mkWorld st ps reg log) (mkWorld st (WInsert body md :: ps) reg log)
| step_crystallise_python st ps reg log c src at_ body md :
    crystallise_python_check c src at_ st = Ok (inr (body, md)) ->
    step (mkWorld st ps reg log) (mkWorld st (WInsert body md :: ps) reg log)
| step_approve st ps reg log args id t row :
    memory_l3_approve args (Ok reg) st = CliFlip (WTrust id t) row ->
    step (mkWorld st ps reg log) (mkWorld st (WTrust id t :: ps) reg (DApprove id reg :: log))
| step_pin st ps reg log args id t row :
    memory_l3_pin args (Ok reg) st = CliFlip (WTrust id t) row ->
    step (mkWorld st ps reg log) (mkWorld st (WTrust id t :: ps) reg (DPin id reg :: log))
| step_write st ps1 w ps2 reg log now :
    step (mkWorld st (ps1 ++ w :: ps2) reg log) (mkWorld (run_write now w st) (ps1 ++ ps2) reg log)
| step_lost st ps1 w ps2 reg log :
    step (mkWorld st (ps1 ++ w :: ps2) reg log) (mkWorld st (ps1 ++ ps2) reg log)
| step_revoke st ps reg log id :
    step (mkWorld st ps reg log) (mkWorld (l3_revoke_and_audit id st).1.2 ps reg log)
| step_remove st ps reg log id :
    step (mkWorld st ps reg log) (mkWorld (remove_l3 id st).2 ps reg log)
| step_other st ps reg log body metadata layer now :
    layer <> Skill -> step (mkWorld st ps reg log) (mkWorld (insert_memory_at_layer body metadata layer now st).2 ps reg log)
| step_registry st ps reg log payload :
    step (mkWorld st ps reg log) (mkWorld st ps (Some payload) log).

Definition reachable (w : World) : Prop := exists reg, rtc step (initial reg) w.

(** ** What a decision establishes *)

(** The gate the operator's commands apply to a row. *)
Definition row_gate (registry : option Value) (m : Memory) : Prop :=
  if is_python_row m then exists c, row_python m = Some c /\ evaluate_python_approval c = GateApprove
  else exists t p, row_template m = Some t /\ registry = Some p /\
         evaluate_approval to_string t (extract_tool_names p) = GateApprove.

Definition approved_by (log : list Decision) (m : Memory) : Prop :=
  exists reg, DApprove (me_id m) reg ∈ log /\ row_gate reg m.

(** Approved first, pinned later, the gate passed both times. *)
Definition pinned_by (log : list Decision) (m : Memory) : Prop :=
  exists later reg earlier, log = later ++ DPin (me_id m) reg :: earlier /\ row_gate reg m /\ approved_by earlier m.

Definition trusted_by (log : list Decision) (t : SkillTrust) (m : Memory) : Prop :=
  match t with Untrusted => True | UserApproved => approved_by log m | Pinned => pinned_by log m end.

(** A stored skill is in normal form under the digest of its own content. *)
Definition content_ok (m : Memory) : Prop :=
  if is_python_row m then
    row_template m = None /\
    exists c, row_python m = Some c /\ validate_python_skill c = Ok c /\ row_sha m = compute_python_sha256 to_string c
  else
    exists t, row_template m = Some t /\ parsed t /\ validate_l3_skill to_string t = Ok t /\
      row_sha m = compute_template_sha256 to_string t.

Record row_ok (log : list Decision) (next : Z) (m : Memory) : Prop := {
  ro_id : (me_id m < next)%Z;
  ro_skill : me_layer m = Skill ->
    is_object (me_metadata m) = true /\ content_ok m /\ trusted_by log (row_trust m) m }.

Definition pending_ok (w : World) (wr : Write) : Prop :=
  match wr with
  | WInsert body metadata =>
      is_object metadata = true /\ get (bs "trust") metadata = Some (String (bs "untrusted")) /\
      (forall id now, content_ok (mkMemory id body metadata Skill now))
  | WTrust id t =>
      (id < s_next (w_store w))%Z /\
      forall m, m ∈ s_rows (w_store w) -> me_id m = id -> me_layer m = Skill -> trusted_by (w_log w) t m
  end.

Record world_ok (w : World) : Prop := {
  wo_ids : NoDup (me_id <$> s_rows (w_store w));
  wo_rows : Forall (row_ok (w_log w) (s_next (w_store w))) (s_rows (w_store w));
  wo_pending : Forall (pending_ok w) (w_pending w) }.

(** * Lemmas *)

Lemma trust_str_roundtrip t : from_metadata_str (trust_str t) = t.
Proof. destruct t; by vm_compute. Qed.

Lemma approved_by_mono d log m : approved_by log m -> approved_by (d :: log) m.
Proof. intros (reg & Hin & Hg). exists reg. split; [by right|done]. Qed.

Lemma trusted_by_mono d log t m : trusted_by log t m -> trusted_by (d :: log) t m.
Proof.
  destruct t; simpl; [done|apply approved_by_mono|].
  intros (later & reg & earlier & -> & Hg & Ha). by exists (d :: later), reg, earlier.
Qed.

(** Rows that differ in their trust only. *)
Definition same_content (a b : Memory) : Prop :=
  me_id a = me_id b /\ me_layer a = me_layer b /\ is_object (me_metadata a) = is_object (me_metadata b) /\
  forall k, k <> bs "trust" -> get k (me_metadata a) = get k (me_metadata b).

#[local] Instance same_content_refl : Reflexive same_content.
Proof. intros m. by repeat split. Qed.

Lemma same_content_meta a b k : same_content a b -> k <> bs "trust" -> meta_str k a = meta_str k b.
Proof. intros (_ & _ & _ & Hg) Hk. unfold meta_str. by rewrite Hg. Qed.

Lemma same_content_views a b : same_content a b ->
  is_python_row a = is_python_row b /\ row_template a = row_template b /\ row_python a = row_python b /\ row_sha a = row_sha b.
Proof.
  intros Hs. destruct (Hs) as (_ & _ & _ & Hg). unfold is_python_row, row_template, row_python, row_sha.
  rewrite !(same_content_meta a b), !Hg by (by vm_compute). done.
Qed.

Lemma same_content_ok a b : same_content a b -> content_ok a -> content_ok b.
Proof. intros Hs%same_content_views. destruct Hs as (E1 & E2 & E3 & E4). unfold content_ok. by rewrite E1, E2, E3, E4. Qed.

Lemma same_content_gate reg a b : same_content a b -> row_gate reg a -> row_gate reg b.
Proof. intros Hs%same_content_views. destruct Hs as (E1 & E2 & E3 & E4). unfold row_gate. by rewrite E1, E2, E3. Qed.

Lemma same_content_trusted log t a b : same_content a b -> trusted_by log t a -> trusted_by log t b.
Proof.
  intros Hs. assert (Hid : me_id a = me_id b) by apply Hs.
  assert (Hap : forall l, approved_by l a -> approved_by l b).
  { intros l (reg & Hin & Hg). exists reg. rewrite <- Hid. split; [done|]. by eapply same_content_gate. }
  destruct t; simpl; [done|apply Hap|]. intros (later & reg & earlier & -> & Hg & Ha).
  exists later, reg, earlier. rewrite <- Hid. split_and!; [done|by eapply same_content_gate|by apply Hap].
Qed.

Lemma set_trust_same t m : same_content m (set_trust t m).
Proof.
  unfold set_trust. destruct (me_metadata m) as [| | | | |fields] eqn:E; try reflexivity.
  unfold same_content. cbn [me_id me_layer me_metadata]. rewrite E. split_and!; [done..|].
  intros k Hk. cbn [get]. by rewrite map_get_insert_ne.
Qed.

Lemma set_trust_trust t m : is_object (me_metadata m) = true -> row_trust (set_trust (trust_str t) m) = t.
Proof.
  unfold set_trust, row_trust, meta_str. destruct (me_metadata m) as [| | | | |fields]; try done. intros _.
  cbn [me_metadata get]. rewrite map_get_insert. cbn [mbind option_bind as_str default from_option].
  apply trust_str_roundtrip.
Qed.

Lemma load_skill_row_Ok args st m : load_skill_row args st = Ok m -> m ∈ s_rows st /\ me_layer m = Skill.
Proof.
  unfold load_skill_row. destruct args as [|s [|? ?]]; [done| |done]. destruct (parse_i64 s) as [id|]; [|done].
  destruct (fetch_by_id id st) as [r|] eqn:E; [|done]. destruct (is_skill_row r) eqn:Es; [|done]. intros [= ->].
  apply find_some in E as [Hin _]. split; [by apply list_elem_of_In|]. by apply bool_decide_eq_true in Es.
Qed.

Lemma approve_Flip args reg st id t row : memory_l3_approve args (Ok reg) st = CliFlip (WTrust id t) row ->
  t = UserApproved /\ exists m, m ∈ s_rows st /\ me_layer m = Skill /\ me_id m = id /\ row_gate reg m.
Proof.
  unfold memory_l3_approve. destruct (load_skill_row args st) as [m|] eqn:El; [|done].
  apply load_skill_row_Ok in El as [Hin Hl]. unfold approve_python_skill, approve_rejected, row_gate, decide_against_registry.
  destruct (is_python_row m) eqn:Ep.
  - destruct (row_python m) as [c|] eqn:Ec; [|done]. destruct (evaluate_python_approval c) eqn:Eg; [|done].
    intros [= <- <- _]. split; [done|]. exists m. rewrite Ep. split_and!; [done..|]. by exists c.
  - destruct (row_template m) as [c|] eqn:Ec; [|done]. destruct reg as [p|]; [|done].
    destruct (evaluate_approval _ _ _) eqn:Eg; [|done].
    intros [= <- <- _]. split; [done|]. exists m. rewrite Ep. split_and!; [done..|]. by exists c, p.
Qed.

Lemma pin_Flip args reg st id t row : memory_l3_pin args (Ok reg) st = CliFlip (WTrust id t) row ->
  t = Pinned /\ exists m, m ∈ s_rows st /\ me_layer m = Skill /\ me_id m = id /\ row_gate reg m /\ row_trust m = UserApproved.
Proof.
  unfold memory_l3_pin. destruct (load_skill_row args st) as [m|] eqn:El; [|done].
  apply load_skill_row_Ok in El as [Hin Hl]. unfold pin_python_skill, pin_rejected, row_gate, decide_against_registry.
  destruct (row_trust m) eqn:Et; simpl; [by destruct (is_python_row m)| |by destruct (is_python_row m)].
  destruct (is_python_row m) eqn:Ep.
  - destruct (row_python m) as [c|] eqn:Ec; [|done]. destruct (evaluate_python_approval c) eqn:Eg; [|done].
    intros [= <- <- _]. split; [done|]. exists m. rewrite Ep. split_and!; [done..| |done]. by exists c.
  - destruct (row_template m) as [c|] eqn:Ec; [|done]. destruct reg as [p|]; [|done].
    destruct (evaluate_approval _ _ _) eqn:Eg; [|done].
    intros [= <- <- _]. split; [done|]. exists m. rewrite Ep. split_and!; [done..| |done]. by exists c, p.
Qed.

(** ** Preservation *)

Lemma unique_row w a b : world_ok w -> a ∈ s_rows (w_store w) -> b ∈ s_rows (w_store w) -> me_id a = me_id b -> a = b.
Proof.
  intros [Hnd _ _] Ha Hb Hid. apply list_elem_of_lookup in Ha as [i Hi], Hb as [j Hj].
  assert (i = j) as ->; [|congruence].
  eapply NoDup_lookup; [exact Hnd| |]; rewrite list_lookup_fmap; [by rewrite Hi|rewrite Hj; simpl; congruence].
Qed.

Lemma world_ok_map st ps reg log ps' f :
  world_ok (mkWorld st ps reg log) -> (forall m, same_content m (f m)) ->
  (forall m, m ∈ s_rows st -> me_layer m = Skill -> is_object (me_metadata m) = true ->
     trusted_by log (row_trust m) m -> trusted_by log (row_trust (f m)) m) ->
  Forall (fun w => w ∈ ps) ps' ->
  world_ok (mkWorld (mkStore (map f (s_rows st)) (s_next st)) ps' reg log).
Proof.
  intros [Hnd Hr Hp] Hsame Ht Hps. simpl in *. split; cbn [w_store w_log w_pending s_rows s_next].
  - replace (me_id <$> map f (s_rows st)) with (me_id <$> s_rows st); [done|].
    change (map f (s_rows st)) with (f <$> s_rows st). rewrite <- list_fmap_compose. apply list_fmap_ext.
    intros i m _. by destruct (Hsame m).
  - apply Forall_fmap. rewrite list.Forall_forall in Hr |- *. intros m Hin. destruct (Hr m Hin) as [Hid Hs].
    destruct (Hsame m) as (E1 & E2 & E3 & _). split; unfold compose; [congruence|]. intros Hl.
    rewrite <- E2 in Hl. destruct (Hs Hl) as (Ho & Hc & Htr). split_and!; [congruence|exact (same_content_ok m (f m) (Hsame m) Hc)|].
    eapply same_content_trusted; [apply Hsame|]. by apply Ht.
  - rewrite list.Forall_forall in Hps, Hp |- *. intros w Hw. specialize (Hp w (Hps w Hw)).
    destruct w as [body md|id t]; [done|]. destruct Hp as [Hid Hp]. split; [done|]. simpl in *.
    intros m' Hm' Hmid Hl. apply list_elem_of_fmap in Hm' as (m & -> & Hm). destruct (Hsame m) as (E1 & E2 & _).
    eapply same_content_trusted; [apply Hsame|]. apply Hp; [done|congruence|congruence].
Qed.

Lemma world_ok_set_trust st ps reg log ps' id t :
  world_ok (mkWorld st ps reg log) -> Forall (fun w => w ∈ ps) ps' ->
  (forall m, m ∈ s_rows st -> me_id m = id -> me_layer m = Skill -> trusted_by log t m) ->
  world_ok (mkWorld (set_skill_trust id (trust_str t) st).2 ps' reg log).
Proof.
  intros Hok Hps Ht. unfold set_skill_trust. destruct (existsb _ _) eqn:E.
  - simpl. destruct st. eapply (world_ok_map _ _ _ _ _ (fun m => m)) in Hok; [|done..|exact Hps].
    by rewrite map_id in Hok.
  - eapply world_ok_map; [exact Hok| | |exact Hps].
    + intros m. destruct (hit id m); [apply set_trust_same|reflexivity].
    + intros m Hin Hl Ho Htr. destruct (hit id m) eqn:Eh; [|done]. rewrite set_trust_trust by done.
      unfold hit in Eh. apply andb_true_iff in Eh as [Eh _]. apply Ht; [done|lia|done].
Qed.

Lemma world_ok_filter st ps reg log (f : Memory -> bool) :
  world_ok (mkWorld st ps reg log) ->
  world_ok (mkWorld (mkStore (List.filter f (s_rows st)) (s_next st)) ps reg log).
Proof.
  assert (Hsub : forall m, m ∈ List.filter f (s_rows st) -> m ∈ s_rows st).
  { intros m. rewrite !list_elem_of_In, filter_In. tauto. }
  intros [Hnd Hr Hp]. simpl in *. split; cbn [w_store w_log w_pending s_rows s_next].
  - clear Hr Hp Hsub. induction (s_rows st) as [|m l IH]; simpl; [constructor|]. csimpl in Hnd.
    apply NoDup_cons in Hnd as [H1 H2]. destruct (f m); [|by apply IH]. csimpl. constructor; [|by apply IH].
    intros Hin. apply H1. apply list_elem_of_fmap in Hin as (x & -> & Hin). apply list_elem_of_fmap_2.
    apply list_elem_of_In, filter_In in Hin as [Hin _]. by apply list_elem_of_In.
  - rewrite list.Forall_forall in Hr |- *. auto.
  - eapply list.Forall_impl; [exact Hp|]. intros [|id t]; [done|]. intros [Hid Ht]. split; [done|].
    intros m Hm. apply Ht. by apply Hsub.
Qed.

Lemma insert_memory_store body md layer now st :
  (insert_memory_at_layer body md layer now st).2 = st \/
  (insert_memory_at_layer body md layer now st).2 =
    mkStore (s_rows st ++ [mkMemory (s_next st) body md layer now]) (s_next st + 1).
Proof.
  unfold insert_memory_at_layer, insert_row_at_layer.
  destruct layer; [by left|..]; destruct (refuse_nul body md); auto.
Qed.

Lemma world_ok_insert st ps reg log body md layer now :
  world_ok (mkWorld st ps reg log) ->
  (layer = Skill -> is_object md = true /\ get (bs "trust") md = Some (String (bs "untrusted")) /\
     content_ok (mkMemory (s_next st) body md layer now)) ->
  world_ok (mkWorld (insert_memory_at_layer body md layer now st).2 ps reg log).
Proof.
  intros Hok Hnew. destruct (insert_memory_store body md layer now st) as [-> | ->]; [done|]. set (m := mkMemory (s_next st) body md layer now) in *.
  destruct Hok as [Hnd Hr Hp]. simpl in *.
  assert (Hfresh : forall x, x ∈ s_rows st -> (me_id x < s_next st)%Z).
  { intros x Hx. rewrite list.Forall_forall in Hr. by apply Hr. }
  split; cbn [w_store w_log w_pending s_rows s_next].
  - rewrite fmap_app. apply NoDup_app. split_and!; [done| |apply NoDup_singleton].
    intros i Hi Hi'. apply list_elem_of_fmap in Hi as (x & -> & Hx). apply list_elem_of_singleton in Hi'.
    specialize (Hfresh x Hx). simpl in Hi'. lia.
  - apply Forall_app. split.
    + eapply list.Forall_impl; [exact Hr|]. intros x [Hid Hs]. split; [lia|done].
    + apply Forall_singleton. split; simpl; [lia|]. intros Hs. destruct (Hnew Hs) as (H1 & H2 & H3).
      split_and!; [done..|]. unfold row_trust, meta_str. simpl. rewrite H2. done.
  - eapply list.Forall_impl; [exact Hp|]. intros [|id t]; [done|]. intros [Hid Ht]. simpl in *. split; [lia|].
    intros x Hx Hxi. apply elem_of_app in Hx as [Hx|Hx]; [by apply Ht|].
    apply list_elem_of_singleton in Hx as ->. simpl in Hxi. lia.
Qed.

(** Reading a field of the metadata the writers build. *)
Ltac meta_field := unfold build_l3_metadata, build_python_skill_metadata; rewrite object_map_get by solve_keys; lookup_field.

Lemma crystallise_l3_pending c src at_ st w wr :
  parsed c -> crystallise_l3_check c src at_ st = Ok (inr wr) -> pending_ok w (WInsert wr.1 wr.2).
Proof.
  intros Hp. unfold crystallise_l3_check. destruct (validate_l3_skill to_string c) as [n|] eqn:Ev; [|done].
  apply validate_norm in Ev as (-> & _ & _ & Hv).
  destruct (find_by_sha _ st); [done|]. intros [= <-]. cbn [pending_ok fst snd]. split_and!; [done|by meta_field|].
  intros id now. unfold content_ok, is_python_row, meta_str, row_template, row_sha. cbn [me_metadata].
  rewrite bool_decide_false by (by meta_field).
  exists (trim_skill c). split_and!; [|by apply Forall_fmap|done|].
  - replace (get _ _) with (Some (l3_skill_value (trim_skill c))) by (by meta_field). apply l3_skill_roundtrip.
  - unfold meta_str. cbn [me_metadata]. by replace (get _ _) with
      (Some (String (compute_template_sha256 to_string (trim_skill c)))) by (by meta_field).
Qed.

Lemma crystallise_python_pending c src at_ st w wr :
  crystallise_python_check c src at_ st = Ok (inr wr) -> pending_ok w (WInsert wr.1 wr.2).
Proof.
  unfold crystallise_python_check. destruct (validate_python_skill c) as [n|] eqn:Ev; [|done].
  apply validate_python_norm in Ev as (-> & _ & Hv).
  destruct (find_by_sha _ st); [done|]. intros [= <-]. cbn [pending_ok fst snd]. split_and!; [done|by meta_field|].
  intros id now. unfold content_ok, is_python_row, meta_str, row_python, row_sha. cbn [me_metadata].
  rewrite bool_decide_true by (by meta_field).
  split; [unfold row_template; cbn [me_metadata]; by replace (get (bs "template") _) with (@None Value) by (by meta_field)|].
  exists (trim_py c). split_and!; [|done|].
  - replace (get _ _) with (Some (python_value (trim_py c))) by (by meta_field). apply python_roundtrip.
  - unfold meta_str. cbn [me_metadata]. by replace (get _ _) with
      (Some (String (compute_python_sha256 to_string (trim_py c)))) by (by meta_field).
Qed.

Lemma world_ok_push st ps reg log wr :
  world_ok (mkWorld st ps reg log) -> pending_ok (mkWorld st ps reg log) wr -> world_ok (mkWorld st (wr :: ps) reg log).
Proof. intros [H1 H2 H3] Hw. split; [done..|]. by constructor. Qed.

Lemma world_ok_log st ps reg log d : world_ok (mkWorld st ps reg log) -> world_ok (mkWorld st ps reg (d :: log)).
Proof.
  intros [H1 H2 H3]. simpl in *. split; cbn [w_store w_log w_pending]; [done| |].
  - eapply list.Forall_impl; [exact H2|]. intros m [Hid Hs]. split; [done|]. intros Hl.
    destruct (Hs Hl) as (? & ? & ?). split_and!; [done..|]. by apply trusted_by_mono.
  - eapply list.Forall_impl; [exact H3|]. intros [|id t]; [done|]. intros [Hid Ht]. split; [done|].
    intros m Hm Hi Hl. by apply trusted_by_mono, Ht.
Qed.

Lemma world_ok_drop st ps1 w ps2 reg log :
  world_ok (mkWorld st (ps1 ++ w :: ps2) reg log) -> world_ok (mkWorld st (ps1 ++ ps2) reg log).
Proof.
  intros [H1 H2 H3]. split; [done..|]. simpl in *. apply Forall_app in H3 as [Ha Hb].
  apply Forall_cons in Hb as [_ Hb]. by apply Forall_app.
Qed.

(** A positive decision concerns one row, the one the command read. *)
Lemma world_ok_decision st ps reg log d id t m :
  world_ok (mkWorld st ps reg log) -> m ∈ s_rows st -> me_id m = id -> trusted_by (d :: log) t m ->
  world_ok (mkWorld st (WTrust id t :: ps) reg (d :: log)).
Proof.
  intros Hok Hin Hid Ht. pose proof (world_ok_log st ps reg log d Hok) as Hok'.
  apply world_ok_push; [done|]. split; cbn [w_store w_log].
  - pose proof (proj1 (list.Forall_forall _ _) (wo_rows _ Hok) m Hin) as [Hlt _]. simpl in Hlt. congruence.
  - intros m' Hin' Hid' _. rewrite (unique_row _ m' m Hok); [done..|congruence].
Qed.

Lemma step_preserves w w' : step w w' -> world_ok w -> world_ok w'.
Proof.
  destruct 1 as [st ps reg log c src at_ b md Hp Hc|st ps reg log c src at_ b md Hc|st ps reg log args id t row Ha
    |st ps reg log args id t row Ha|st ps1 wr ps2 reg log now|st ps1 wr ps2 reg log|st ps reg log id
    |st ps reg log id|st ps reg log body md layer now Hl|st ps reg log p]; intros Hok.
  - apply world_ok_push; [done|]. by apply (crystallise_l3_pending c src at_ st _ (b, md)).
  - apply world_ok_push; [done|]. by apply (crystallise_python_pending c src at_ st _ (b, md)).
  - apply approve_Flip in Ha as (-> & m & Hin & Hl & Hid & Hg). eapply world_ok_decision; [done..|].
    exists reg. rewrite Hid. split; [left|done].
  - apply pin_Flip in Ha as (-> & m & Hin & Hl & Hid & Hg & Ht). eapply world_ok_decision; [done..|].
    exists [], reg, log. rewrite Hid. split_and!; [done..|].
    destruct (proj1 (list.Forall_forall _ _) (wo_rows _ Hok) m Hin) as [_ Hs]. destruct (Hs Hl) as (_ & _ & Htr).
    by rewrite Ht in Htr.
  - pose proof (proj1 (Forall_app _ _ _) (wo_pending _ Hok)) as [_ Hw]. apply Forall_cons in Hw as [Hw _].
    destruct wr as [body md|id t]; cbn [run_write].
    + destruct Hw as (H1 & H2 & H3). apply world_ok_insert; [by eapply world_ok_drop|]. intros _. by split_and!.
    + destruct Hw as [_ Ht]. eapply world_ok_set_trust; [exact Hok| |exact Ht].
      simpl. apply list.Forall_forall. intros x. rewrite !elem_of_app, elem_of_cons. tauto.
  - by eapply world_ok_drop.
  - unfold l3_revoke_and_audit. destruct (set_skill_trust id (trust_str Untrusted) st) as [r st'] eqn:E.
    replace (_.1.2) with (set_skill_trust id (trust_str Untrusted) st).2 by (rewrite E; by destruct r).
    eapply world_ok_set_trust; [done| |done]. by apply list.Forall_forall.
  - by apply world_ok_filter.
  - apply world_ok_insert; done.
  - destruct Hok. by split.
Qed.

Lemma skills_reachable_ok w : reachable w -> world_ok w.
Proof.
  intros [reg Hr]. assert (Hi : world_ok (initial reg)) by (split; [apply NoDup_nil_2|constructor..]).
  revert Hi. induction Hr as [|a b c Hs _ IH]; [done|]. intros Ha. by apply IH, (step_preserves a b).
Qed.

(** ** The loaders *)

Lemma insert_newest_elem m l x : x ∈ insert_newest m l <-> x = m \/ x ∈ l.
Proof. induction l as [|y l IH]; simpl; [set_solver|]. destruct (newer m y); set_solver. Qed.

Lemma sorted_elem l acc x : x ∈ fold_left (fun acc m => insert_newest m acc) l acc <-> x ∈ l \/ x ∈ acc.
Proof.
  revert acc. induction l as [|m l IH]; intros acc; simpl; [set_solver|]. rewrite IH, insert_newest_elem. set_solver.
Qed.

Lemma load_layer_by_trust_elem layer trusts cap st m : m ∈ load_layer_by_trust layer trusts cap st ->
  m ∈ s_rows st /\ me_layer m = layer.
Proof.
  unfold load_layer_by_trust. destruct (_ || _); [set_solver|]. intros Hin%elem_of_take.
  destruct Hin as (i & Hi & _). apply list_elem_of_lookup_2, sorted_elem in Hi as [Hi|Hi]; [|set_solver].
  apply list_elem_of_In, filter_In in Hi as [Hi Hf]. apply andb_true_iff in Hf as [Hf _].
  split; [by apply list_elem_of_In|]. by apply bool_decide_eq_true in Hf.
Qed.

Lemma first_named_Some name rows p : first_named name rows = Some p ->
  exists m, m ∈ rows /\ row_trust m = Pinned /\ row_template m = Some (ps_template p) /\ row_sha m = ps_body_sha256 p /\
    me_id m = ps_memory_id p /\ l3_name (ps_template p) = name.
Proof.
  induction rows as [|m rows IH]; cbn [first_named]; [done|].
  assert (Hrest : first_named name rows = Some p -> exists m0, m0 ∈ m :: rows /\ row_trust m0 = Pinned /\
    row_template m0 = Some (ps_template p) /\ row_sha m0 = ps_body_sha256 p /\ me_id m0 = ps_memory_id p /\
    l3_name (ps_template p) = name).
  { intros (x & Hx & Hr)%IH. exists x. split; [by right|done]. }
  destruct (row_trust m) eqn:Et; simpl; [done..|]. destruct (row_template m) as [t|] eqn:Em; [|done].
  destruct (bytes_eqb (l3_name t) name) eqn:En; simpl; [|done]. apply bytes_eqb_eq in En.
  intros [= <-]. exists m. split; [by left|done].
Qed.

(** The name the agent asked for comes first among the pinned rows. *)
Definition sane_steps (live : list bytes) (ceiling : DataClass) (t : L3SkillCandidate) (args : Args) (steps : list PlannedStep) : Prop :=
  Forall2 (fun s p =>
    st_tool p = l3s_tool s /\ st_method p = l3s_method s /\ st_tool p ∈ live /\ st_classification p = ceiling /\
    st_parameters p = fill_value args (l3s_parameters s) /\ has_placeholder (st_parameters p) = None) (l3_steps t) steps.

Lemma trimmed_tools t : validate_l3_skill to_string t = Ok t -> Forall (fun s => str_trim (l3s_tool s) = l3s_tool s) (l3_steps t).
Proof.
  intros Hv. apply validate_norm in Hv as (E & _). rewrite E. unfold trim_skill. cbn [l3_steps].
  apply Forall_fmap, Forall_true. intros s. simpl. apply str_trim_idem.
Qed.

Lemma expand_sane t args live ceiling steps :
  parsed t -> validate_l3_skill to_string t = Ok t ->
  expand_for_agent to_string t Pinned args live ceiling = Ok steps -> sane_steps live ceiling t args steps.
Proof.
  intros Hp Hv He. pose proof (trimmed_tools t Hv) as Ht.
  apply expand_for_agent_Ok in He as (_ & ss & Hi & ->). apply prepare_invocation_Ok in Hi as (_ & Ha & Hs).
  apply substitute_template_Ok in Hs as (_ & _ & -> & Hpl).
  apply evaluate_approval_Approve in Ha as (n & Hv' & _ & Hlive). rewrite Hv in Hv'. injection Hv' as <-.
  apply validate_norm in Hv as (_ & Hok & _). unfold sane_steps. rewrite <- list_fmap_compose.
  apply Forall2_fmap_r, Forall_Forall2_diag, list.Forall_forall. unfold parsed in Hp.
  rewrite list.Forall_forall in Hp, Hlive, Hok, Hpl. intros s Hin. destruct (Hok s Hin) as (_ & _ & _ & Hsc).
  cbn. split_and!; try done; [by apply Hlive|by apply interpolate_value_fill; auto|by apply Hpl].
Qed.

(** * Properties *)

(** C10. The trust ladder under any interleaving of agent writers, operator
    commands, revocations and removals, each split at its database statements: a
    stored skill is always in validated normal form under the digest of its own
    content; one marked [user_approved] was decided on by an operator approve
    whose gate passed on this very content; one marked [pinned] was approved
    first and pinned later, the gate passing both times. *)
Theorem trusted_skills_passed_the_gate w m :
  reachable w -> m ∈ s_rows (w_store w) -> me_layer m = Skill ->
  content_ok m /\
  (row_trust m = UserApproved -> approved_by (w_log w) m) /\
  (row_trust m = Pinned -> pinned_by (w_log w) m).
Proof.
  intros Hr Hin Hl. apply skills_reachable_ok in Hr as [_ Hrows _].
  destruct (proj1 (list.Forall_forall _ _) Hrows m Hin) as [_ Hs]. destruct (Hs Hl) as (_ & Hc & Ht).
  split_and!; [done|..]; intros E; by rewrite E in Ht.
Qed.

(** From the table to the plan: in every reachable table, a skill the agent's
    loader returns for a name is a row of that name which the operator approved
    and then pinned, and when it expands, the steps are the steps of that stored
    template with the holes filled, each with a tool of the live registry, no
    placeholder left, and the plan's ceiling as its class. *)
Theorem agent_skill_is_the_pinned_template w name p args live ceiling steps :
  reachable w -> load_pinned_skill_by_name name (w_store w) = Some p ->
  expand_for_agent to_string (ps_template p) Pinned args live ceiling = Ok steps ->
  exists m, m ∈ s_rows (w_store w) /\ me_id m = ps_memory_id p /\ row_template m = Some (ps_template p) /\
    l3_name (ps_template p) = name /\ pinned_by (w_log w) m /\
    ps_body_sha256 p = compute_template_sha256 to_string (ps_template p) /\
    sane_steps live ceiling (ps_template p) args steps.
Proof.
  intros Hr Hp He. unfold load_pinned_skill_by_name in Hp. apply first_named_Some in Hp as (m & Hin & Ht & Hm & Hsha & Hid & Hn).
  apply load_layer_by_trust_elem in Hin as [Hin Hl]. apply skills_reachable_ok in Hr as [_ Hrows _].
  destruct (proj1 (list.Forall_forall _ _) Hrows m Hin) as [_ Hs]. destruct (Hs Hl) as (_ & Hc & Htr).
  rewrite Ht in Htr. exists m. rewrite <- Hsha. unfold content_ok in Hc.
  destruct (is_python_row m) eqn:Epy.
  - destruct Hc as [Hc _]. by rewrite Hc in Hm.
  - destruct Hc as (t & Et & Hpt & Hv & Hd). rewrite Hm in Et. injection Et as <-.
    split_and!; [done..|]. by apply expand_sane.
Qed.

(** ** The run path *)

(** Every outcome but the last is a success, and the run is short only when the
    last one is an error. *)
Lemma run_steps_spec {W} (d : PlannedStep -> W -> StepOutcome * W) ss w os w' : run_steps d ss w = (os, w') ->
  length os <= length ss /\ Forall (fun o => is_err o = false) (take (length os - 1) os) /\
  (length os < length ss -> exists o, last os = Some o /\ is_err o = true).
Proof.
  revert w os. induction ss as [|s ss IH]; intros w os; cbn [run_steps].
  { intros [= <- <-]. simpl. split_and!; [done..|lia]. }
  destruct (d _ w) as [o w1] eqn:Ed. destruct (is_err o) eqn:Ee.
  { intros [= <- <-]. simpl. split_and!; [lia|done|]. by exists o. }
  destruct (run_steps d ss w1) as [os' w2] eqn:Er. intros [= <- <-]. apply IH in Er as (H1 & H2 & H3).
  split_and!; [simpl; lia| |].
  - destruct os' as [|o' os']; simpl in *; [done|]. rewrite Nat.sub_0_r in H2. by constructor.
  - simpl. intros Hl. destruct H3 as (x & Hx & He); [lia|]. exists x. by destruct os'.
Qed.

(** What the operator's run path may dispatch for a row. *)
Definition run_gate (tools : list bytes) (req : L3RunRequest) (m : Memory) (steps : list L3TemplateStep) : Prop :=
  me_layer m = Skill /\ is_runnable (row_trust m) = true /\
  (if is_python_row m then
     exists c, row_python m = Some c /\ compute_python_sha256 to_string c = row_sha m /\ code_ok (py_code c) /\
       steps = [python_exec_step (py_code c) (rq_params req)]
   else
     exists t, row_template m = Some t /\ evaluate_approval to_string t tools = GateApprove /\
       substitute_template t (rq_args req) = Ok steps).

Lemma prepare_python_steps_Ok c trust sha params steps : prepare_python_steps to_string c trust sha params = Ok steps ->
  is_runnable trust = true /\ compute_python_sha256 to_string c = sha /\ code_ok (py_code c) /\
  steps = [python_exec_step (py_code c) params].
Proof.
  unfold prepare_python_steps. destruct (prepare_python_invocation _ _ _ _) as [code|] eqn:E; [|done].
  apply prepare_python_Ok in E as (Hr & [n Hn] & Hd & ->). apply validate_python_norm in Hn as (_ & Hok & _).
  destruct (validate_python_params _ _ _) as [ps|] eqn:Ep; [|done]. intros [= <-].
  assert (ps = params) as ->; [|done]. revert Ep. unfold validate_python_params. repeat case_match; congruence.
Qed.

(** The operator's run path: nothing is dispatched unless the request asks for
    execution of a stored skill whose trust is runnable and whose gate passes
    now, the code's digest for a Python skill, the live registry for a template;
    then exactly the prepared steps are dispatched in order, up to and including
    the first that fails. *)
Theorem l3_run_dispatches_only_gated {W} (d : PlannedStep -> W -> StepOutcome * W) tools fetch payload w report rows w' :
  run_l3_run_task d tools fetch payload w = (report, rows, w') ->
  match report with
  | ReportExecuted outcomes total =>
      exists req m steps, parse_l3_run_payload payload = Ok req /\ rq_execute req = true /\
        fetch (rq_memory_id req) = Ok (Some m) /\ run_gate tools req m steps /\
        total = length steps /\ run_steps d steps w = (outcomes, w') /\
        length outcomes <= length steps /\ Forall (fun o => is_err o = false) (take (length outcomes - 1) outcomes) /\
        (length outcomes < length steps -> exists o, last outcomes = Some o /\ is_err o = true)
  | _ => w' = w
  end.
Proof.
  unfold run_l3_run_task, refused. destruct (parse_l3_run_payload payload) as [req|] eqn:Ep; [|by intros [= <- <- <-]].
  destruct (fetch _) as [row|] eqn:Ef; [|by intros [= <- <- <-]].
  destruct row as [m|]; [|by intros [= <- <- <-]].
  destruct (is_skill_row m) eqn:Es; [|by intros [= <- <- <-]]. apply bool_decide_eq_true in Es.
  assert (Hgo : forall tag id name sha names prepared,
    (forall steps, prepared = Ok steps -> run_gate tools req m steps) ->
    invoke_prepared d tag id name sha names prepared (rq_execute req) w = (report, rows, w') ->
    match report with
    | ReportExecuted outcomes total =>
        exists req' m' steps, Ok req = Ok (E := bytes) req' /\ rq_execute req' = true /\
          fetch (rq_memory_id req') = Ok (Some m') /\ run_gate tools req' m' steps /\
          total = length steps /\ run_steps d steps w = (outcomes, w') /\
          length outcomes <= length steps /\ Forall (fun o => is_err o = false) (take (length outcomes - 1) outcomes) /\
          (length outcomes < length steps -> exists o, last outcomes = Some o /\ is_err o = true)
    | _ => w' = w
    end).
  { intros tag id name sha names prepared Hg. unfold invoke_prepared.
    destruct prepared as [steps|reasons]; [|by intros [= <- <- <-]].
    destruct (rq_execute req) eqn:Ex; simpl; [|by intros [= <- <- <-]].
    destruct (run_steps d steps w) as [os w2] eqn:Er. intros [= <- <- <-].
    exists req, m, steps. split_and!; try done; [by apply Hg|..]; by apply run_steps_spec in Er as (? & ? & ?). }
  destruct (is_python_row m) eqn:Epy.
  - destruct (row_python m) as [c|] eqn:Ec; [|by intros [= <- <- <-]]. apply Hgo.
    intros steps (H1 & H2 & H3 & H4)%prepare_python_steps_Ok. unfold run_gate. rewrite Epy. split_and!; [done..|]. by exists c.
  - destruct (row_template m) as [t|] eqn:Et; [|by intros [= <- <- <-]]. apply Hgo.
    intros steps (H1 & H2 & H3)%prepare_invocation_Ok. unfold run_gate. rewrite Epy. split_and!; [done..|]. by exists t.
Qed.

(** ** The prompt block *)

(** Text that cannot leave its line or open a tag. *)
Definition inert (s : bytes) : Prop := Forall (fun c => c <> 60%Z /\ c <> 62%Z /\ (32 <= c)%Z) s.

Lemma escape_inert s : inert (escape_skill_field s).
Proof.
  unfold inert. remember (length s) as n eqn:Hn. revert s Hn. induction n as [n IH] using lt_wf_ind. intros [|c t] ->; [constructor|].
  assert (Ht : inert (escape_skill_field t)) by (eapply IH; [|reflexivity]; simpl; lia).
  cbn [escape_skill_field].
  destruct (c =? 38)%Z eqn:E1; [apply Forall_app; split; [by repeat constructor|done]|].
  destruct (c =? 60)%Z eqn:E2; [apply Forall_app; split; [by repeat constructor|done]|].
  destruct (c =? 62)%Z eqn:E3; [apply Forall_app; split; [by repeat constructor|done]|].
  destruct ((c <? 32) || (c =? 127))%Z eqn:E4; [constructor; [lia|done]|].
  apply orb_false_iff in E4 as [E4 _].
  assert (Hc : c <> 60%Z /\ c <> 62%Z /\ (32 <= c)%Z) by lia.
  destruct t as [|d u]; [by apply Forall_singleton|].
  destruct (_ && _); [constructor; [lia|]; eapply IH; [|reflexivity]; simpl; lia|].
  destruct u as [|e r]; [by constructor|].
  destruct (_ && _ && _); [constructor; [lia|]; eapply IH; [|reflexivity]; simpl; lia|]. by constructor.
Qed.

Definition newlines (s : bytes) : nat := length (List.filter (fun c => c =? 10)%Z s).

Lemma newlines_app a b : newlines (a ++ b) = newlines a + newlines b.
Proof. unfold newlines. by rewrite List.filter_app, length_app. Qed.

Lemma newlines_inert s : inert s -> newlines s = 0.
Proof.
  unfold newlines. induction 1 as [|c s (H1 & H2 & H3) Hs IH]; simpl; [done|].
  rewrite (proj2 (Z.eqb_neq c 10)) by lia. done.
Qed.

Lemma inert_app a b : inert a -> inert b -> inert (a ++ b).
Proof. intros. by apply Forall_app. Qed.

Lemma inert_lit s : forallb (fun c => negb (c =? 60) && negb (c =? 62) && (32 <=? c))%Z s = true -> inert s.
Proof.
  intros Hs. apply list.Forall_forall. rewrite forallb_forall in Hs. setoid_rewrite <- list_elem_of_In in Hs.
  intros c Hc. apply Hs in Hc. lia.
Qed.

Lemma inert_join sep l : inert sep -> Forall inert l -> inert (join sep l).
Proof.
  intros Hs. induction 1 as [|a l Ha Hl IH]; [constructor|]. destruct l as [|b l]; [done|].
  change (inert (a ++ sep ++ join sep (b :: l))). by repeat apply inert_app.
Qed.

(** One or two lines, whatever the fields hold. *)
Lemma render_lines s : exists a b, render_skill_entry s = a ++ [10%Z] ++ b /\ inert a /\
  (b = [] \/ exists c, b = c ++ [10%Z] /\ inert c).
Proof.
  unfold render_skill_entry.
  exists (bs "- " ++ escape_skill_field (sf_name s) ++ (if sf_invocable s then bs " [invocable]" else []) ++
          bs ": " ++ escape_skill_field (sf_description s)),
    (match sf_params s with
     | [] => []
     | ps =>
         bs "  params: " ++
         join (bs ", ") (map (fun p => escape_skill_field (l3p_name p) ++ bs " (" ++
                                       escape_skill_field (l3p_description p) ++ bs ")") ps) ++ [10%Z]
     end). split; [by rewrite <- !app_assoc|]. split.
  - repeat apply inert_app;
      first [apply escape_inert | by apply inert_lit | destruct (sf_invocable s); by apply inert_lit].
  - destruct (sf_params s) as [|p ps]; [by left|]. right. rewrite app_assoc. eexists. split; [reflexivity|].
    apply inert_app; [by apply inert_lit|]. apply inert_join; [by apply inert_lit|].
    apply Forall_fmap, Forall_true. intros q. unfold compose.
    repeat apply inert_app; first [apply escape_inert | by apply inert_lit].
Qed.

Lemma cap_loop_spec rows cap used acc skills :
  length acc <= rows -> used <= cap -> used = sum_list_with (length ∘ render_skill_entry) acc ->
  let out := cap_loop rows cap used acc skills in
  length out <= rows /\ sum_list_with (length ∘ render_skill_entry) out <= cap /\
  (exists k, out = acc ++ take k skills).
Proof.
  revert used acc. induction skills as [|s skills IH]; intros used acc Hr Hc ->; cbn [cap_loop].
  { split_and!; [done..|]. exists 0. by rewrite app_nil_r. }
  destruct (rows <=? length acc) eqn:E1; [split_and!; [done..|]; exists 0; by rewrite app_nil_r|].
  destruct (cap <? _) eqn:E2; [split_and!; [done..|]; exists 0; by rewrite app_nil_r|].
  apply Nat.leb_gt in E1. apply Nat.ltb_ge in E2.
  destruct (IH (sum_list_with (length ∘ render_skill_entry) acc + length (render_skill_entry s)) (acc ++ [s]))
    as (H1 & H2 & k & H3).
  - rewrite length_app. simpl. lia.
  - done.
  - rewrite sum_list_with_app. simpl. lia.
  - split_and!; [done..|]. exists (S k). rewrite H3, <- app_assoc. done.
Qed.

Lemma surfaced_row st cap_rows cap_bytes s : s ∈ load_l3_skills_for_prompt cap_rows cap_bytes st ->
  exists m, m ∈ s_rows st /\ me_layer m = Skill /\ is_surfaceable (row_trust m) = true /\ parse_surfaced_skill m = Some s.
Proof.
  unfold load_l3_skills_for_prompt, cap_surfaced. destruct (_ || _); [set_solver|]. intros Hin.
  assert (Hin' : s ∈ omap parse_surfaced_skill (List.filter (fun m => is_surfaceable (row_trust m))
            (load_layer_by_trust Skill surfaceable_trust_markers cap_rows st))).
  { revert Hin. edestruct (cap_loop_spec cap_rows cap_bytes 0 []) as (_ & _ & k & ->); [simpl; lia..|done|].
    simpl. intros (i & Hi & _)%elem_of_take. by apply list_elem_of_lookup_2 in Hi. }
  apply list_elem_of_omap in Hin' as (m & Hm & Hp). apply list_elem_of_In, filter_In in Hm as [Hm Ht].
  apply list_elem_of_In, load_layer_by_trust_elem in Hm as [Hm Hl]. by exists m.
Qed.

(** What the planner sees of skills: in every reachable table, each surfaced
    skill is the name and description of a stored row the operator approved or
    pinned, it is shown as invocable only if it was pinned, its rendering is one
    or two lines whose text holds no angle bracket and no line break whatever
    the fields hold, and the block keeps the row and byte caps. *)
Theorem surfaced_skills_are_approved w cap_rows cap_bytes :
  reachable w ->
  let shown := load_l3_skills_for_prompt cap_rows cap_bytes (w_store w) in
  length shown <= cap_rows /\ sum_list_with (length ∘ render_skill_entry) shown <= cap_bytes /\
  Forall (fun s =>
    (exists a b, render_skill_entry s = a ++ [10%Z] ++ b /\ inert a /\ (b = [] \/ exists c, b = c ++ [10%Z] /\ inert c)) /\
    exists m, m ∈ s_rows (w_store w) /\ parse_surfaced_skill m = Some s /\
      (if sf_invocable s then pinned_by (w_log w) m else approved_by (w_log w) m)) shown.
Proof.
  intros Hr shown. split; [|split].
  - unfold shown, load_l3_skills_for_prompt, cap_surfaced. destruct (_ || _); [simpl; lia|].
    edestruct (cap_loop_spec cap_rows cap_bytes 0 []) as (Hl & _); [simpl; lia..|done|exact Hl].
  - unfold shown, load_l3_skills_for_prompt, cap_surfaced. destruct (_ || _); [simpl; lia|].
    edestruct (cap_loop_spec cap_rows cap_bytes 0 []) as (_ & Hl & _); [simpl; lia..|done|exact Hl].
  - apply list.Forall_forall. intros s Hs. split; [apply render_lines|].
    apply surfaced_row in Hs as (m & Hm & Hl & Ht & Hp). exists m. split_and!; [done..|].
    apply skills_reachable_ok in Hr as [_ Hrows _]. destruct (proj1 (list.Forall_forall _ _) Hrows m Hm) as [_ Hok].
    destruct (Hok Hl) as (_ & _ & Htr).
    assert (Hi : sf_invocable s = is_autonomously_invocable (row_trust m)).
    { revert Hp. unfold parse_surfaced_skill.
      destruct (is_python_row m); [destruct (row_python m)|destruct (row_template m)]; simpl; [|done| |done]; by intros [= <-]. }
    rewrite Hi. by destruct (row_trust m).
Qed.
End Store.

(** * Witnesses *)

Definition demo_registry : option Value :=
  Some (object [(bs "tools", Array [object [(bs "name", String (bs "shell-exec"))]])]).

Definition demo_insert : Write :=
  match crystallise_l3_check demo_text demo_skill (mkAgentRaised 7) (bs "2026-01-01T00:00:00Z") (mkStore [] 1) with
  | Ok (inr (body, md)) => WInsert body md
  | _ => WTrust 0 Untrusted
  end.

Definition demo_stored : Store := run_write 10 demo_insert (mkStore [] 1).
Definition demo_approved : Store := run_write 11 (WTrust 1 UserApproved) demo_stored.
Definition demo_pinned : Store := run_write 12 (WTrust 1 Pinned) demo_approved.

Definition demo_world : World := mkWorld demo_pinned [] demo_registry [DPin 1 demo_registry; DApprove 1 demo_registry].

Lemma demo_reachable : reachable demo_text demo_world.
Proof.
  exists demo_registry. unfold initial.
  eapply rtc_l.
  { eapply (step_crystallise _ _ _ _ _ demo_skill (mkAgentRaised 7) (bs "2026-01-01T00:00:00Z"));
      [by repeat constructor|by vm_compute]. }
  eapply rtc_l; [apply (step_write _ _ [] _ [] _ _ 10)|].
  eapply rtc_l.
  { eapply (step_approve _ _ _ _ _ [bs "1"] 1 UserApproved). by vm_compute. }
  eapply rtc_l; [apply (step_write _ _ [] (WTrust 1 UserApproved) [] _ _ 11)|].
  eapply rtc_l.
  { eapply (step_pin _ _ _ _ _ [bs "1"] 1 Pinned). by vm_compute. }
  eapply rtc_l; [apply (step_write _ _ [] (WTrust 1 Pinned) [] _ _ 12)|].
  apply rtc_refl.
Qed.

Definition demo_row : Memory := default (mkMemory 0 [] Null Skill 0) (head (s_rows demo_pinned)).

Lemma trusted_skills_passed_the_gate_witness : row_trust demo_row = Pinned /\ pinned_by demo_text (w_log demo_world) demo_row.
Proof.
  assert (Ht : row_trust demo_row = Pinned) by (by vm_compute). split; [exact Ht|].
  refine (proj2 (proj2 (trusted_skills_passed_the_gate demo_text demo_world demo_row demo_reachable _ _)) Ht);
    [left|reflexivity].
Defined.

Lemma agent_skill_is_the_pinned_template_witness :
  exists p steps, load_pinned_skill_by_name (bs "greet") demo_pinned = Some p /\
    expand_for_agent demo_text (ps_template p) Pinned demo_args [bs "shell-exec"] Personal = Ok steps /\
    sane_steps [bs "shell-exec"] Personal (ps_template p) demo_args steps.
Proof.
  eexists _, _. split; [by vm_compute|]. split; [by vm_compute|].
  destruct (agent_skill_is_the_pinned_template demo_text demo_world (bs "greet") (mkPinned 1 demo_skill (row_sha demo_row))
    demo_args [bs "shell-exec"] Personal _ demo_reachable ltac:(by vm_compute) ltac:(by vm_compute))
    as (m & _ & _ & _ & _ & _ & _ & Hs). exact Hs.
Defined.

Definition demo_run_payload : Value :=
  object [(bs "kind", String L3_RUN_KIND); (bs "memory_id", int_value 1); (bs "execute", Bool true);
          (bs "args", object [(bs "who", String (bs "you"))])].

Definition demo_dispatch (p : PlannedStep) (n : nat) : StepOutcome * nat := (StepOk Null, S n).

Definition demo_fetch (id : Z) : result (option Memory) DbError := Ok (fetch_by_id id demo_pinned).

Lemma l3_run_dispatches_only_gated_witness :
  exists rows, run_l3_run_task demo_text demo_dispatch [bs "shell-exec"] demo_fetch demo_run_payload 0 =
    (ReportExecuted [StepOk Null] 1, rows, 1) /\
  exists req m steps, run_gate demo_text [bs "shell-exec"] req m steps /\ length steps = 1.
Proof.
  eexists. split; [by vm_compute|].
  destruct (l3_run_dispatches_only_gated demo_text demo_dispatch [bs "shell-exec"] demo_fetch demo_run_payload 0
    (ReportExecuted [StepOk Null] 1) _ 1 ltac:(by vm_compute)) as (req & m & steps & _ & _ & _ & Hg & Hl & _).
  exists req, m, steps. split; [exact Hg|]. symmetry. exact Hl.
Defined.

Lemma surfaced_skills_are_approved_witness :
  length (load_l3_skills_default demo_pinned) = 1 /\
  Forall (fun s => exists m, m ∈ s_rows demo_pinned /\ parse_surfaced_skill m = Some s) (load_l3_skills_default demo_pinned).
Proof.
  split; [by vm_compute|].
  refine (list.Forall_impl _ _ _ (proj2 (proj2
    (surfaced_skills_are_approved demo_text demo_world L3_SKILLS_CAP_ROWS L3_SKILLS_CAP_BYTES demo_reachable))) _).
  intros s [_ (m & Hm & Hp & _)]. by exists m.
Defined.

(** The pin command checks the ladder when it reads the row and does not repeat
    the check in its [UPDATE]: a revocation that lands in between is undone. *)
Theorem pin_overrides_concurrent_revoke :
  exists w row, memory_l3_pin demo_text [bs "1"] (Ok demo_registry) demo_approved = CliFlip w row /\
    let revoked := (l3_revoke_and_audit 1 demo_approved).1.2 in
    (row_trust <$> s_rows revoked = [Untrusted]) /\ (row_trust <$> s_rows (run_write 13 w revoked) = [Pinned]).
Proof. eexists _, _. split; [by vm_compute|]. split; by vm_compute. Qed.
