(* ===== verification/AskMessage.v ===== *)
(** The wire vocabulary of operator asks (src/core/src/channel/ask_message.rs),
    their delivery (src/core/src/scheduler/asks/delivery.rs,
    src/core/src/channel/outbox.rs): what an ask looks like in a conversation,
    how an answer is recognised, and which tokens of a body the containment arm
    hashes.

    Text is UTF-8 bytes; [groups] of InjectionGuard gives its characters.  The
    White_Space property is the table Unicode fixes; [char::is_alphanumeric]
    comes from [CharClass], and the rendering of the deadline, which is the
    [time] crate's, is a parameter. *)

From stdpp Require Import base list sets numbers strings pretty.
From Stdlib Require Import ZArith Lia.
From S2P Require Import Prelude RustStr Json Cassandra InjectionGuard Asks LoopPure.
Local Open Scope nat_scope.

(** * Characters *)

Definition char_is_whitespace (c : Z) : bool :=
  ((9 <=? c) && (c <=? 13) || (c =? 32) || (c =? 0x85) || (c =? 0xa0) || (c =? 0x1680)
   || (0x2000 <=? c) && (c <=? 0x200a) || (c =? 0x2028) || (c =? 0x2029) || (c =? 0x202f)
   || (c =? 0x205f) || (c =? 0x3000))%Z.

Class CharClass := {
  char_is_alphanumeric : Z -> bool;
  alphanumeric_ascii : forall c, (0 <= c < 128)%Z -> char_is_alphanumeric c = is_ascii_alphanumeric c }.

#[export] Instance ascii_class : CharClass :=
  {| char_is_alphanumeric := is_ascii_alphanumeric; alphanumeric_ascii := fun c _ => eq_refl |}.

Definition is_space (g : bytes) : bool := char_is_whitespace (decode_group g).

(** [split_whitespace]: [cur] is the token read so far. *)
Fixpoint ws_tokens (gs : list bytes) (cur : bytes) : list bytes :=
  match gs with
  | [] => match cur with [] => [] | _ => [cur] end
  | g :: gs' =>
      if is_space g then match cur with [] => ws_tokens gs' [] | _ => cur :: ws_tokens gs' [] end
      else ws_tokens gs' (cur ++ g)
  end.

Definition split_whitespace (s : bytes) : list bytes := ws_tokens (groups s) [].

Fixpoint drop_groups (p : Z -> bool) (gs : list bytes) : list bytes :=
  match gs with
  | g :: gs' => if p (decode_group g) then drop_groups p gs' else gs
  | [] => []
  end.

(** [trim_matches] with a character predicate. *)
Definition trim_matches (p : Z -> bool) (s : bytes) : bytes :=
  concat (reverse (drop_groups p (reverse (drop_groups p (groups s))))).

Definition eq_ignore_ascii_case (a b : bytes) : bool := bytes_eqb (to_ascii_lowercase a) (to_ascii_lowercase b).

(** * Recognising an answer *)

Definition CONCERN_CAP : nat := 512.

Definition ACK_NOT_ANSWERABLE : bytes :=
  bs "✗ That approval token isn't answerable. It may be mistyped, or the question may no longer be open.".

Definition ACK_MALFORMED_COMMAND : bytes :=
  bs "Usage: /approve TOKEN or /deny TOKEN — exactly the verb and the token, nothing else.".

Definition destination_from_task_payload (payload : Value) : option AskDestination :=
  if bool_decide (get (bs "kind") payload ≫= as_str = Some (bs "channel")) then
    channel ← get (bs "channel") payload ≫= as_str;
    peer ← get (bs "peer") payload ≫= as_str;
    conversation ← get (bs "conversation") payload ≫= as_str;
    Some (mkDest channel peer conversation)
  else None.

Record AskCommand := mkCommand { ac_choice : AskChoice; ac_token : bytes }.

Definition APPROVE_VERB : bytes := bs "/approve".
Definition DENY_VERB : bytes := bs "/deny".

Definition parse_ask_command (body : bytes) : option AskCommand :=
  match split_whitespace body with
  | [verb; token] =>
      let v := to_ascii_lowercase verb in
      if bytes_eqb v APPROVE_VERB then Some (mkCommand ChoiceApprove token)
      else if bytes_eqb v DENY_VERB then Some (mkCommand ChoiceDeny token)
      else None
  | _ => None
  end.

Definition is_verb (tok : bytes) : bool := eq_ignore_ascii_case tok APPROVE_VERB || eq_ignore_ascii_case tok DENY_VERB.

(** The markers ['>'] and ['|'] before a quoted verb. *)
Definition is_quote_mark (b : Z) : bool := ((b =? 62) || (b =? 124))%Z.

Definition looks_like_ask_command (body : bytes) : bool :=
  existsb (fun tok => is_verb (drop_while is_quote_mark tok)) (split_whitespace body).

Definition is_command_shaped (body : bytes) : bool :=
  match split_whitespace body with first :: _ => is_verb first | [] => false end.

Definition CANDIDATE_BYTE_CAP : nat := 65536.
Definition CANDIDATE_TOKEN_CAP : nat := 1024.

Section Candidates.
Context `{CharClass}.

Definition trim_token (raw : bytes) : bytes := trim_matches (fun c => negb (char_is_alphanumeric c)) raw.

(** The distinct non-empty tokens, in order; [seen] holds what [out] does. *)
Fixpoint push_candidates (toks out : list bytes) : option (list bytes) :=
  match toks with
  | [] => Some out
  | tok :: rest =>
      if (length tok =? 0) || bool_decide (tok ∈ out) then push_candidates rest out
      else if length out =? CANDIDATE_TOKEN_CAP then None
      else push_candidates rest (out ++ [tok])
  end.

Definition candidate_tokens (body : bytes) : option (list bytes) :=
  if CANDIDATE_BYTE_CAP <? length body then None
  else push_candidates (flat_map (fun raw => [raw; trim_token raw]) (split_whitespace body)) [].
End Candidates.

(** * Rendering an ask *)

(** The largest character boundary at or below [n]. *)
Fixpoint floor_boundary (n : nat) (s : bytes) : nat :=
  match n with O => O | S n' => if is_char_boundary s n then n else floor_boundary n' s end.

Definition clamp (s : bytes) (cap : nat) : bytes :=
  if length s <=? cap then s else take (floor_boundary cap s) s ++ bs "… (clamped)".

(** [replace("\r\n", "\n")] *)
Fixpoint replace_crlf (s : bytes) : bytes :=
  match s with
  | [] => []
  | b :: s' =>
      match s' with
      | c :: s'' => if ((b =? 13) && (c =? 10))%Z then 10%Z :: replace_crlf s'' else b :: replace_crlf s'
      | [] => [b]
      end
  end.

Definition is_break (g : bytes) : bool :=
  let c := decode_group g in ((c =? 10) || (c =? 13) || (c =? 0x2028) || (c =? 0x2029))%Z.

(** [split] at the four line breaks. *)
Fixpoint break_lines (gs : list bytes) : list bytes :=
  match gs with
  | [] => [[]]
  | g :: gs' =>
      if is_break g then [] :: break_lines gs'
      else match break_lines gs' with l :: ls => (g ++ l) :: ls | [] => [g] end
  end.

Definition split_breaks (s : bytes) : list bytes := break_lines (groups s).

Definition fence (concern : bytes) : bytes :=
  join [10%Z] (map (fun l => bs "> " ++ l) (split_breaks (replace_crlf concern))).

(** [render_deadline] is the [time] crate's RFC 3339. *)
Definition render_ask (task_id : Z) (concern token deadline : bytes) : bytes :=
  join [10%Z]
    [bs "⚠️ Approval needed — task " ++ show_z task_id; [];
     bs "An operator decision is required before I continue:";
     fence (clamp concern CONCERN_CAP); [];
     bs "This expires " ++ deadline ++ bs ". Reply with one of:"; [];
     APPROVE_VERB ++ bs " " ++ token; DENY_VERB ++ bs " " ++ token].

Definition ack_resolved (choice : AskChoice) (task_id : Z) : bytes :=
  match choice with
  | ChoiceApprove => bs "✓ Approved — task " ++ show_z task_id ++ bs " is resuming."
  | ChoiceDeny => bs "✓ Denied — task " ++ show_z task_id ++ bs " will not proceed."
  end.

(** * Delivery *)

Record OutgoingMessage := mkOut { om_channel : bytes; om_peer : bytes; om_conversation : bytes; om_body : bytes }.

Inductive OutboxError := NoSuchChannel | QueueFull | QueueClosed.

Definition outbox_error_str (e : OutboxError) : bytes :=
  match e with
  | NoSuchChannel => bs "no_such_channel" | QueueFull => bs "queue_full" | QueueClosed => bs "queue_closed"
  end.

(** A channel's bounded queue: whether its pump still reads it, its capacity and
    the asks in it. *)
Record Pump := mkPump { pu_open : bool; pu_cap : nat; pu_queue : list (Z * OutgoingMessage) }.

Definition ChannelOutbox : Type := list (bytes * Pump).

Definition register (id : bytes) (p : Pump) (o : ChannelOutbox) : ChannelOutbox := map_insert id p o.
Definition deregister (id : bytes) (o : ChannelOutbox) : ChannelOutbox :=
  List.filter (fun kv => negb (bytes_eqb kv.1 id)) o.

Definition try_deliver (task_id : Z) (msg : OutgoingMessage) (o : ChannelOutbox) : result () OutboxError * ChannelOutbox :=
  match map_get (om_channel msg) o with
  | None => (Err NoSuchChannel, o)
  | Some p =>
      if negb (pu_open p) then (Err QueueClosed, o)
      else if pu_cap p <=? length (pu_queue p) then (Err QueueFull, o)
      else (Ok tt, map_insert (om_channel msg) (mkPump true (pu_cap p) (pu_queue p ++ [(task_id, msg)])) o)
  end.

Definition REASON_NO_ORIGIN : bytes := bs "task_has_no_channel_origin".
Definition REASON_NO_CHANNEL : bytes := bs "no_channel_configured".

Inductive DeliveryOutcome :=
| Delivered (channel peer : bytes)
| Undelivered (reason : bytes)
| DeliveryFailed (channel reason : bytes).

Definition deliver_ask (outbox : option ChannelOutbox) (dest : option AskDestination) (task_id : Z)
    (concern token deadline : bytes) : DeliveryOutcome * option ChannelOutbox :=
  match dest, outbox with
  | None, _ => (Undelivered REASON_NO_ORIGIN, outbox)
  | Some _, None => (Undelivered REASON_NO_CHANNEL, outbox)
  | Some d, Some o =>
      let msg := mkOut (ad_channel d) (ad_peer d) (ad_conversation d) (render_ask task_id concern token deadline) in
      match try_deliver task_id msg o with
      | (Ok _, o') => (Delivered (ad_channel d) (ad_peer d), Some o')
      | (Err e, o') => (DeliveryFailed (ad_channel d) (outbox_error_str e), Some o')
      end
  end.

Definition delivery_audit_row (ask_id task_id : Z) (o : DeliveryOutcome) : bytes * Value :=
  match o with
  | Delivered channel peer =>
      (bs "ask.delivered",
       object [(bs "ask_id", int_value ask_id); (bs "task_id", int_value task_id); (bs "channel", String channel);
               (bs "peer", String peer)])
  | Undelivered reason =>
      (bs "ask.undelivered",
       object [(bs "ask_id", int_value ask_id); (bs "task_id", int_value task_id); (bs "reason", String reason)])
  | DeliveryFailed channel reason =>
      (bs "ask.delivery_failed",
       object [(bs "ask_id", int_value ask_id); (bs "task_id", int_value task_id); (bs "channel", String channel);
               (bs "reason", String reason)])
  end.

(** * Lemmas *)

(** ** Characters of concatenations *)

Definition wf_group (g : bytes) : Prop :=
  match g with b :: t => is_char_start b = true /\ Forall (fun c => is_char_start c = false) t | [] => False end.

Lemma groups_wf s : starts_char s -> Forall wf_group (groups s).
Proof.
  intros Hs. assert (Hg : match groups s with
                          | (b :: t) :: gs => head s = Some b /\ Forall (fun c => is_char_start c = false) t /\ Forall wf_group gs
                          | [] => s = []
                          | [] :: _ => False
                          end).
  { clear Hs. induction s as [|b s IH]; [done|]. simpl. destruct (groups s) as [|[|c g] gs]; [by subst|done|].
    destruct IH as (Hc & Hg & Hgs). destruct (is_char_start c) eqn:E.
    - split; [done|]. split; [constructor|]. constructor; [by split|done].
    - split; [done|]. split; [by constructor|done]. }
  destruct (groups s) as [|[|b t] gs]; [constructor|done|]. destruct Hg as (Hh & Ht & Hgs). constructor; [|done].
  split; [|done]. destruct s as [|b' s]; [done|]. injection Hh as ->. exact Hs.
Qed.

Lemma groups_tail t : Forall (fun c => is_char_start c = false) t -> forall b, groups (b :: t) = [b :: t].
Proof.
  induction 1 as [|c t Hc Ht IH]; intros b; [done|]. simpl. simpl in IH. rewrite (IH c). by rewrite Hc.
Qed.

Lemma starts_concat gs : Forall wf_group gs -> starts_char (concat gs).
Proof. intros H. destruct gs as [|[|b t] gs]; [done| |]; inversion H as [|? ? Hb]; subst; [done|]. by destruct Hb. Qed.

Lemma groups_concat_wf gs : Forall wf_group gs -> groups (concat gs) = gs.
Proof.
  induction gs as [|g gs IH]; intros Hw; [done|]. inversion Hw as [|? ? Hg Hgs]; subst. simpl.
  rewrite groups_app by by apply starts_concat. rewrite IH by done. destruct g as [|b t]; [done|].
  by rewrite (groups_tail t (proj2 Hg)).
Qed.

Lemma starts_app a b : a <> [] -> starts_char a -> starts_char (a ++ b).
Proof. by destruct a. Qed.

Lemma is_ascii_start c : (0 <= c < 128)%Z -> is_char_start c = true.
Proof. intros H. unfold is_char_start. by rewrite (proj2 (Z.leb_gt 128 c)) by lia. Qed.

(** ASCII text: one byte a character. *)
Definition ascii_text (s : bytes) : Prop := Forall (fun c => 0 <= c < 128)%Z s.

Lemma starts_ascii s : ascii_text s -> starts_char s.
Proof. intros [|c s' Hc]; [done|]. by apply is_ascii_start. Qed.

Lemma groups_ascii s : ascii_text s -> groups s = map (fun c => [c]) s.
Proof.
  induction 1 as [|c s Hc Hs IH]; [done|]. change (c :: s) with ([c] ++ s). rewrite groups_app by by apply starts_ascii.
  by rewrite IH.
Qed.

(** ** Lines *)

Lemma break_lines_ne gs : break_lines gs <> [].
Proof. destruct gs as [|g gs]; simpl; [done|]. destruct (is_break g); [done|]. by destruct (break_lines gs). Qed.

Lemma break_lines_app gs gs' : break_lines (gs ++ [10%Z] :: gs') = break_lines gs ++ break_lines gs'.
Proof.
  induction gs as [|g gs IH]; simpl; [done|]. destruct (is_break g); [by rewrite IH|]. rewrite IH.
  pose proof (break_lines_ne gs). by destruct (break_lines gs).
Qed.

Lemma split_breaks_app a b : starts_char b -> split_breaks (a ++ 10%Z :: b) = split_breaks a ++ split_breaks b.
Proof.
  intros Hb. unfold split_breaks. change (10%Z :: b) with ([10%Z] ++ b). rewrite groups_app by done.
  rewrite (groups_app [10%Z]) by done. apply break_lines_app.
Qed.

Lemma split_breaks_join p ps :
  Forall starts_char (p :: ps) -> split_breaks (join [10%Z] (p :: ps)) = flat_map split_breaks (p :: ps).
Proof.
  revert p. induction ps as [|q ps IH]; intros p Hs; [by simpl; rewrite app_nil_r|].
  change (join [10%Z] (p :: q :: ps)) with (p ++ 10%Z :: join [10%Z] (q :: ps)).
  inversion Hs as [|? ? Hp Hq]; subst. inversion Hq as [|? ? Hq1 Hq2]; subst.
  assert (starts_char (join [10%Z] (q :: ps))) by (destruct ps; [done|]; by destruct q).
  by rewrite split_breaks_app, IH.
Qed.

Lemma one_line s : Forall (fun g => is_break g = false) (groups s) -> split_breaks s = [s].
Proof.
  intros Hs. unfold split_breaks. rewrite <- (groups_concat s) at 2. induction Hs as [|g gs Hg Hgs IH]; [done|].
  simpl. by rewrite Hg, IH.
Qed.

Lemma ascii_one_line s : ascii_text s -> 10%Z ∉ s -> 13%Z ∉ s -> Forall (fun g => is_break g = false) (groups s).
Proof.
  intros Ha H10 H13. rewrite groups_ascii by done. apply Forall_fmap, list.Forall_forall. intros c Hc. cbn.
  unfold ascii_text in Ha. rewrite list.Forall_forall in Ha. specialize (Ha c Hc).
  assert (c <> 10 /\ c <> 13)%Z by (split; intros ->; done). unfold is_break. cbn.
  rewrite !(proj2 (Z.eqb_neq _ _)) by lia. done.
Qed.

(** The segments of a split hold no break and start at a character. *)
Lemma break_lines_segments gs :
  Forall wf_group gs -> Forall (fun l => exists ls, l = concat ls /\ Forall wf_group ls /\ Forall (fun g => is_break g = false) ls) (break_lines gs).
Proof.
  induction 1 as [|g gs Hg Hgs IH]; simpl; [repeat constructor; by exists []|].
  destruct (is_break g) eqn:E; [constructor; [by exists []|done]|].
  destruct (break_lines gs) as [|l ls].
  - repeat constructor. exists [g]. simpl. rewrite app_nil_r. repeat constructor; done.
  - inversion IH as [|? ? (gs' & -> & Hw & Hn) Hls]; subst. constructor; [|done]. exists (g :: gs'). repeat constructor; done.
Qed.

(** ** Fencing *)

Lemma replace_crlf_starts s : starts_char s -> starts_char (replace_crlf s).
Proof.
  destruct s as [|b [|c s]]; [done..|]. intros Hb. cbn [replace_crlf].
  by destruct ((b =? 13) && (c =? 10))%Z.
Qed.

Lemma clamp_starts s n : starts_char s -> starts_char (clamp s n).
Proof.
  intros Hs. unfold clamp. destruct (length s <=? n); [done|]. destruct s as [|b s]; [by rewrite take_nil|].
  by destruct (floor_boundary n (b :: s)).
Qed.

Definition quoted (l : bytes) : bytes := bs "> " ++ l.

Lemma quoted_line l ls : l = concat ls -> Forall wf_group ls -> Forall (fun g => is_break g = false) ls ->
  split_breaks (quoted l) = [quoted l].
Proof.
  intros -> Hw Hn. apply one_line. unfold quoted. rewrite groups_app by by apply starts_concat.
  rewrite groups_concat_wf by done. apply Forall_app. split; [by repeat constructor|done].
Qed.

Lemma fence_lines concern :
  starts_char concern -> split_breaks (fence concern) = map quoted (split_breaks (replace_crlf concern)).
Proof.
  intros Hs. unfold fence. pose proof (break_lines_segments _ (groups_wf _ (replace_crlf_starts _ Hs))) as Hseg.
  fold (split_breaks (replace_crlf concern)) in Hseg. pose proof (break_lines_ne (groups (replace_crlf concern))) as Hne.
  fold (split_breaks (replace_crlf concern)) in Hne. destruct (split_breaks (replace_crlf concern)) as [|l ls]; [done|].
  change (map (fun l => bs "> " ++ l) (l :: ls)) with (map quoted (l :: ls)). cbn [map].
  rewrite split_breaks_join by (constructor; [done|]; apply Forall_fmap, Forall_true; done).
  clear Hne. change (quoted l :: map quoted ls) with (map quoted (l :: ls)).
  induction Hseg as [|x xs (gs & E & Hw & Hn) Hxs IH]; [done|]. cbn [map flat_map]. rewrite IH, (quoted_line x gs) by done. done.
Qed.

Lemma fence_starts concern : starts_char (fence concern).
Proof.
  unfold fence. pose proof (break_lines_ne (groups (replace_crlf concern))) as Hne. unfold split_breaks.
  destruct (break_lines _) as [|l [|l' ls]]; [done|done|done].
Qed.

(** ** Commands *)

(** A line whose first token is read before anything that varies. *)
Lemma first_token_fixed a t rest s :
  starts_char s -> ws_tokens (groups a) [] = t :: rest -> (exists a' g, groups a = a' ++ [g] /\ is_space g = true) ->
  match split_whitespace (a ++ s) with first :: _ => first = t | [] => False end.
Proof.
  intros Hs Ht (a' & g & Ha & Hg). unfold split_whitespace. rewrite groups_app by done. rewrite Ha in *. clear Ha.
  rewrite <- app_assoc. cbn [app]. revert Ht. generalize (@nil Z) as cur. induction a' as [|h a' IH]; intros cur; cbn [app ws_tokens].
  - rewrite Hg. destruct cur as [|c cur]; cbn; [done|]. by intros [= -> _].
  - destruct (is_space h); [|apply IH]. destruct cur as [|c cur]; [apply IH|]. by intros [= -> _].
Qed.

Lemma quoted_not_command l : starts_char l -> is_command_shaped (quoted l) = false.
Proof.
  intros Hl. unfold is_command_shaped. pose proof (first_token_fixed (bs "> ") (bs ">") [] l Hl eq_refl) as Hf.
  ospecialize* Hf; [exists [[62%Z]], [32%Z]; done|]. unfold quoted.
  destruct (split_whitespace (bs "> " ++ l)) as [|first ?]; [done|]. by subst.
Qed.

Lemma ws_tokens_word w cur : Forall (fun c => 0 <= c < 128 /\ char_is_whitespace c = false)%Z w -> cur ++ w <> [] ->
  ws_tokens (map (fun c => [c]) w) cur = [cur ++ w].
Proof.
  revert cur. induction w as [|c w IH]; intros cur Hw Hne; cbn [map ws_tokens].
  - rewrite app_nil_r in *. by destruct cur.
  - inversion Hw as [|? ? [Hc Hs] Hw']; subst. unfold is_space. cbn [decode_group]. rewrite Hs.
    rewrite IH; [by rewrite <- app_assoc|done|]. by destruct cur.
Qed.

Lemma ws_tokens_space w cur gs :
  Forall (fun c => 0 <= c < 128 /\ char_is_whitespace c = false)%Z w -> cur ++ w <> [] ->
  ws_tokens (map (fun c => [c]) w ++ [32%Z] :: gs) cur = (cur ++ w) :: ws_tokens gs [].
Proof.
  revert cur. induction w as [|c w IH]; intros cur Hw Hne; cbn [map ws_tokens app].
  - rewrite app_nil_r in *. by destruct cur.
  - inversion Hw as [|? ? [Hc Hs] Hw']; subst. unfold is_space. cbn [decode_group]. rewrite Hs.
    rewrite IH; [by rewrite <- app_assoc|done|]. by destruct cur.
Qed.

Lemma alnum_not_space c : is_ascii_alphanumeric c = true -> (0 <= c < 128)%Z /\ char_is_whitespace c = false.
Proof.
  unfold is_ascii_alphanumeric, char_is_whitespace. intros Ha. rewrite !orb_true_iff, !andb_true_iff, !Z.leb_le in Ha.
  split; [lia|]. rewrite !orb_false_iff, !andb_false_iff, !Z.eqb_neq, !Z.leb_gt. lia.
Qed.

(** An alphanumeric token after a verb is the second of two tokens. *)
Lemma command_tokens verb token :
  verb ∈ [APPROVE_VERB; DENY_VERB] -> token <> [] -> Forall (fun c => is_ascii_alphanumeric c = true) token ->
  split_whitespace (verb ++ bs " " ++ token) = [verb; token].
Proof.
  intros Hv Hne Ht. assert (Hw : Forall (fun c => 0 <= c < 128 /\ char_is_whitespace c = false)%Z token)
    by (apply (list.Forall_impl _ _ _ Ht); apply alnum_not_space).
  assert (Ha : ascii_text token) by (apply (list.Forall_impl _ _ _ Hw); naive_solver).
  assert (Hverb : Forall (fun c => 0 <= c < 128 /\ char_is_whitespace c = false)%Z verb /\ verb <> []).
  { apply elem_of_cons in Hv as [->|Hv]; [|apply elem_of_cons in Hv as [->|[]%not_elem_of_nil]];
      (split; [|done]; by repeat constructor). }
  destruct Hverb as [Hvw Hvne]. assert (Hva : ascii_text verb) by (apply (list.Forall_impl _ _ _ Hvw); naive_solver).
  assert (Hall : ascii_text (verb ++ bs " " ++ token)) by (apply Forall_app; split; [done|]; apply Forall_app; by split; [repeat constructor|]).
  unfold split_whitespace. rewrite groups_ascii by done. rewrite map_app. cbn [bs map app].
  rewrite (ws_tokens_space verb []) by done. by rewrite (ws_tokens_word token []).
Qed.

(** ** Decimal integers *)

Definition is_decimal (c : Z) : bool := ((48 <=? c) && (c <=? 57) || (c =? 45))%Z.

Lemma pretty_go_decimal n s : Forall (fun c => is_decimal c = true) (bs s) -> Forall (fun c => is_decimal c = true) (bs (pretty_N_go n s)).
Proof.
  revert s. induction (N.lt_wf_0 n) as [n _ IH]. intros s Hs.
  destruct (decide (n = 0)%N) as [->|Hn]; [by rewrite pretty_N_go_0|]. rewrite pretty_N_go_step by lia.
  apply IH; [apply N.div_lt; lia|]. cbn [bs]. constructor; [|done]. unfold pretty_N_char.
  repeat case_match; vm_compute; reflexivity.
Qed.

Lemma show_z_decimal z : Forall (fun c => is_decimal c = true) (show_z z).
Proof.
  assert (Hp : forall n : N, Forall (fun c => is_decimal c = true) (bs (pretty n))).
  { intros n. unfold pretty, pretty_N. case_decide; [by repeat constructor|]. apply pretty_go_decimal. constructor. }
  unfold show_z. destruct z as [|p|p]; [by repeat constructor|apply (Hp (N.pos p))|].
  change (pretty (Z.neg p)) with ("-" +:+ pretty (N.pos p)). constructor; [done|apply (Hp (N.pos p))].
Qed.

Lemma decimal_line z : ascii_text (show_z z) /\ 10%Z ∉ show_z z /\ 13%Z ∉ show_z z.
Proof.
  pose proof (show_z_decimal z) as Hd. rewrite list.Forall_forall in Hd. unfold ascii_text. rewrite list.Forall_forall.
  split_and!.
  - intros c Hc%Hd. unfold is_decimal in Hc. rewrite orb_true_iff, andb_true_iff, !Z.leb_le, Z.eqb_eq in Hc. lia.
  - by intros Hc%Hd.
  - by intros Hc%Hd.
Qed.

(** ** Candidates *)

Section CandidateLemmas.
Context `{CharClass}.

Lemma push_candidates_all toks out l :
  push_candidates toks out = Some l -> forall tok, tok ∈ out \/ (tok ∈ toks /\ tok <> []) -> tok ∈ l.
Proof.
  revert out. induction toks as [|t toks IH]; intros out; cbn [push_candidates].
  - intros [= <-] tok [?|[[]%not_elem_of_nil _]]; done.
  - destruct ((length t =? 0) || bool_decide (t ∈ out)) eqn:E.
    + intros Hl tok [Hin|[[->|Hin]%elem_of_cons Hne]].
      * apply (IH out Hl). by left.
      * apply orb_true_iff in E as [E%Nat.eqb_eq|E%bool_decide_eq_true].
        { by apply nil_length_inv in E. }
        apply (IH out Hl). by left.
      * apply (IH out Hl). by right.
    + destruct (length out =? CANDIDATE_TOKEN_CAP); [done|]. intros Hl tok Htok. apply (IH _ Hl).
      destruct Htok as [Hin|[[->|Hin]%elem_of_cons Hne]]; [left; set_solver|left; set_solver|by right].
Qed.

(** A scan that answers has every word of the body, and every word without its
    punctuation. *)
Lemma candidate_tokens_complete body l raw :
  candidate_tokens body = Some l -> raw ∈ split_whitespace body ->
  (raw <> [] -> raw ∈ l) /\ (trim_token raw <> [] -> trim_token raw ∈ l).
Proof.
  unfold candidate_tokens. destruct (_ <? _); [done|]. intros Hl Hraw.
  assert (Hin : forall tok, tok = raw \/ tok = trim_token raw ->
    tok ∈ flat_map (fun raw => [raw; trim_token raw]) (split_whitespace body)).
  { intros tok Htok. rewrite list_elem_of_In, in_flat_map. exists raw. rewrite <- list_elem_of_In. split; [done|].
    simpl. naive_solver. }
  split; intros Hne; apply (push_candidates_all _ _ _ Hl); right; (split; [apply Hin; auto|done]).
Qed.
End CandidateLemmas.

(** ** The lines of an ask *)

Lemma fixed_line_not_command a t rest s :
  starts_char s -> ws_tokens (groups a) [] = t :: rest -> (exists a' g, groups a = a' ++ [g] /\ is_space g = true) ->
  is_verb t = false -> is_command_shaped (a ++ s) = false.
Proof.
  intros Hs Ht Hsp Hv. pose proof (first_token_fixed a t rest s Hs Ht Hsp) as Hf. unfold is_command_shaped.
  destruct (split_whitespace (a ++ s)); [done|]. by subst.
Qed.

Lemma fixed_one_line a s :
  starts_char s -> Forall (fun g => is_break g = false) (groups a) -> Forall (fun g => is_break g = false) (groups s) ->
  split_breaks (a ++ s) = [a ++ s].
Proof. intros Hs Ha Hg. apply one_line. rewrite groups_app by done. by apply Forall_app. Qed.

(** No line of the fenced concern is a command. *)
Lemma fenced_no_command concern :
  starts_char concern -> List.filter is_command_shaped (split_breaks (fence concern)) = [].
Proof.
  intros Hs. rewrite fence_lines by done. pose proof (break_lines_segments _ (groups_wf _ (replace_crlf_starts _ Hs))) as Hseg.
  fold (split_breaks (replace_crlf concern)) in Hseg.
  induction Hseg as [|l ls (gs & -> & Hw & _) _ IH]; [done|]. cbn [map List.filter].
  by rewrite quoted_not_command by by apply starts_concat.
Qed.

Lemma deadline_line deadline :
  Forall (fun c => 32 <= c < 127)%Z deadline ->
  starts_char (deadline ++ bs ". Reply with one of:") /\
  Forall (fun g => is_break g = false) (groups (deadline ++ bs ". Reply with one of:")).
Proof.
  intros Hd. assert (Ha : Forall (fun c => 32 <= c < 127)%Z (deadline ++ bs ". Reply with one of:"))
    by (apply Forall_app; split; [done|]; by repeat constructor).
  assert (Hx : ascii_text (deadline ++ bs ". Reply with one of:")) by (apply (list.Forall_impl _ _ _ Ha); lia).
  split; [by apply starts_ascii|]. rewrite list.Forall_forall in Ha.
  apply ascii_one_line; [done|intros Hc%Ha; lia|intros Hc%Ha; lia].
Qed.

Lemma command_line verb token :
  verb ∈ [APPROVE_VERB; DENY_VERB] -> Forall (fun c => is_ascii_alphanumeric c = true) token ->
  split_breaks (verb ++ bs " " ++ token) = [verb ++ bs " " ++ token].
Proof.
  intros Hv Ht. assert (Ha : ascii_text (bs " " ++ token)).
  { apply Forall_app. split; [by repeat constructor|]. apply (list.Forall_impl _ _ _ Ht). intros c Hc. by apply alnum_not_space. }
  apply fixed_one_line; [by apply starts_ascii| |].
  - apply elem_of_cons in Hv as [->|Hv]; [|apply elem_of_cons in Hv as [->|[]%not_elem_of_nil]]; by repeat constructor.
  - apply ascii_one_line; [done|..]; rewrite elem_of_app; intros [Hc|Hc]; try (by vm_compute in Hc; set_solver);
      rewrite list.Forall_forall in Ht; by apply Ht in Hc.
Qed.

(** * Properties *)

(** The message that asks an operator offers exactly two commands,
    whatever the concern the model wrote: split at every line break a client may
    honour, the only lines a parser would take for a command are the
    [/approve] and the [/deny] of this ask's token, and each of them parses to
    its own answer. *)
Theorem rendered_ask_offers_two_commands task_id concern token deadline :
  starts_char concern -> token <> [] -> Forall (fun c => is_ascii_alphanumeric c = true) token ->
  Forall (fun c => 32 <= c < 127)%Z deadline ->
  let approve := APPROVE_VERB ++ bs " " ++ token in
  let deny := DENY_VERB ++ bs " " ++ token in
  List.filter is_command_shaped (split_breaks (render_ask task_id concern token deadline)) = [approve; deny] /\
  parse_ask_command approve = Some (mkCommand ChoiceApprove token) /\
  parse_ask_command deny = Some (mkCommand ChoiceDeny token).
Proof.
  intros Hc Hne Htok Hd approve deny.
  assert (Htoks : split_whitespace approve = [APPROVE_VERB; token] /\ split_whitespace deny = [DENY_VERB; token])
    by (split; apply command_tokens; try done; set_solver).
  destruct Htoks as [Ha Hn]. split; [|unfold parse_ask_command; rewrite Ha, Hn; done].
  destruct (decimal_line task_id) as (Hz & Hz10 & Hz13). destruct (deadline_line deadline Hd) as [Hds Hdb].
  assert (Hcl : starts_char (clamp concern CONCERN_CAP)) by by apply clamp_starts.
  unfold render_ask. rewrite split_breaks_join.
  2:{ repeat (constructor; [first [done|apply fence_starts]|]). constructor. }
  cbn [flat_map]. rewrite !List.filter_app, fenced_no_command by done.
  rewrite (fixed_one_line _ (show_z task_id)); [|by apply starts_ascii|by repeat constructor|by apply ascii_one_line].
  rewrite (fixed_one_line (bs "This expires ")); [|done|by repeat constructor|done].
  rewrite !(command_line _ token) by (done || set_solver). fold approve deny.
  assert (Hca : is_command_shaped approve = true) by (unfold is_command_shaped; by rewrite Ha).
  assert (Hcn : is_command_shaped deny = true) by (unfold is_command_shaped; by rewrite Hn).
  cbn [List.filter app]. rewrite Hca, Hcn.
  rewrite (fixed_line_not_command _ (bs "⚠️") [bs "Approval"; bs "needed"; bs "—"; bs "task"] (show_z task_id));
    [|by apply starts_ascii|by vm_compute|by eexists (removelast (groups (bs "⚠️ Approval needed — task "))), _|done].
  rewrite (fixed_line_not_command _ (bs "This") [bs "expires"] _ Hds); [done|by vm_compute| |done].
  by eexists (removelast (groups (bs "This expires "))), _.
Qed.

(** ** Witnesses *)

Lemma rendered_ask_offers_two_commands_witness :
  List.filter is_command_shaped
    (split_breaks (render_ask 7 (bs "ok?" ++ [10%Z] ++ bs "/approve forged") (bs "0a1b") (bs "2026-08-21T09:14:32Z")))
  = [bs "/approve 0a1b"; bs "/deny 0a1b"].
Proof.
  refine (proj1 (rendered_ask_offers_two_commands 7 (bs "ok?" ++ [10%Z] ++ bs "/approve forged") (bs "0a1b")
                   (bs "2026-08-21T09:14:32Z") _ _ _ _)).
  - reflexivity.
  - discriminate.
  - repeat constructor.
  - by repeat constructor.
Defined.
