(* ===== verification/ResultView.v ===== *)
(** The planner's view of a tool result
    (src/core/src/scheduler/inner_loop/result_view.rs): pruning a JSON value to
    caps on strings, arrays and objects, the search for the caps that fit a byte
    budget, and the text the sink screen reads.

    A string cap is an integer, so that [usize::MAX] is its own value; the
    binary search takes fuel, the distance between its ends.  Compact JSON text
    is written out ([to_string]): a float carries its own text. *)

From stdpp Require Import base list sets numbers strings pretty.
From Stdlib Require Import ZArith Lia.
From S2P Require Import Prelude RustStr Json Cassandra InjectionGuard AskMessage.
Local Open Scope nat_scope.

(** * Compact JSON *)

Definition hex_digit (d : Z) : Z := (if d <? 10 then 48 + d else 87 + d)%Z.

Definition json_escape_byte (b : Z) : bytes :=
  if (b =? 34)%Z then bs "\" ++ [34%Z]
  else if (b =? 92)%Z then bs "\\"
  else if (b =? 8)%Z then bs "\b"
  else if (b =? 9)%Z then bs "\t"
  else if (b =? 10)%Z then bs "\n"
  else if (b =? 12)%Z then bs "\f"
  else if (b =? 13)%Z then bs "\r"
  else if (b <? 32)%Z then bs "\u00" ++ [hex_digit (b / 16); hex_digit (b mod 16)]
  else [b].

Definition json_string (s : bytes) : bytes := [34%Z] ++ flat_map json_escape_byte s ++ [34%Z].

Definition num_text (n : JNum) : bytes := match n with NInt z => bs (pretty z) | NFloat t => t end.

(** [serde_json::to_string] *)
Fixpoint to_string (v : Value) : bytes :=
  match v with
  | Null => bs "null"
  | Bool true => bs "true"
  | Bool false => bs "false"
  | Number n => num_text n
  | String s => json_string s
  | Array l => bs "[" ++ join (bs ",") (map to_string l) ++ bs "]"
  | Object m => bs "{" ++ join (bs ",") (map (fun kv => json_string kv.1 ++ bs ":" ++ to_string kv.2) m) ++ bs "}"
  end.

Definition serialised_len (v : Value) : nat := length (to_string v).

(** * Constants *)

Definition LEAF_FLOOR : nat := 64.
Definition DEFAULT_ITEMS : nat := 20.
Definition DEFAULT_KEYS : nat := 64.
Definition OMITTED_KEYS_KEY : bytes := bs "…omitted_keys".
Definition DEPTH_MARKER : bytes := bs "…nested too deeply to show".
Definition ELLIPSIS : bytes := bs "…".
Definition ATOMIC_MAX : nat := 1024.
Definition NON_ASCII_ATOMIC_MAX_CHARS : nat := 255.
Definition KEY_MAX_BYTES : nat := 64.
(** ['_'], ['.'], [':'], ['-'], ['@'], ['/'] *)
Definition KEY_SEPARATORS : list Z := [95; 46; 58; 45; 64; 47]%Z.
Definition VIEW_UNAVAILABLE_KEY : bytes := bs "…view_unavailable".
Definition VIEW_UNAVAILABLE_TEXT : bytes := bs "result too large to summarise within budget".
Definition MIN_VIEW_TOTAL : nat := 128.
Definition USIZE_MAX : Z := 18446744073709551615.

Record PruneLimits := mkLimits { pl_leaf : Z; pl_items : nat; pl_keys : nat }.

(** * Pruning *)

Definition is_separator (c : Z) : bool := bool_decide (c ∈ KEY_SEPARATORS).

Definition is_identifier_key (key : bytes) : bool :=
  negb (length key =? 0) && (length key <=? KEY_MAX_BYTES) && negb (starts_with (bs ".") key)
  && forallb (fun c => is_ascii_alphanumeric c || is_separator c) key.

(** [char::is_control] *)
Definition char_is_control (c : Z) : bool := ((0 <=? c) && (c <? 32) || (127 <=? c) && (c <? 160))%Z.

Definition is_atomic (s : bytes) : bool :=
  if (ATOMIC_MAX <? length s) || existsb (fun c => char_is_whitespace c || char_is_control c) (chars s) then false
  else is_ascii s || contains (bs "://") s || starts_with (bs "/") s || (char_count s <=? NON_ASCII_ATOMIC_MAX_CHARS).

Definition floor_char_boundary (s : bytes) (index : nat) : nat := floor_boundary (Nat.min index (length s)) s.

Definition cut_leaf (s : bytes) (leaf : Z) : bytes :=
  if (Z.of_nat (length s) <=? leaf)%Z || is_atomic s then s
  else
    let e := floor_char_boundary s (Z.to_nat leaf) in
    if length s <=? e + length ELLIPSIS then s else take e s ++ ELLIPSIS.

Definition omitted_items_marker (dropped : nat) : bytes := ELLIPSIS ++ show_nat dropped ++ bs " more items omitted".

(** The fields an object keeps and the number it loses; [n] is [out.len()]. *)
Section PruneFields.
Context (f : Value -> Value) (keys : nat).

Fixpoint prune_fields (m : list (bytes * Value)) (n : nat) : list (bytes * Value) * nat :=
  match m with
  | [] => ([], 0)
  | (k, v) :: m' =>
      if negb (is_identifier_key k) || (keys <=? n) then let '(out, d) := prune_fields m' n in (out, S d)
      else let '(out, d) := prune_fields m' (S n) in ((k, f v) :: out, d)
  end.
End PruneFields.

Fixpoint prune_at (limits : PruneLimits) (value : Value) (depth : nat) : Value :=
  if Nat.leb MAX_WALK_DEPTH depth then String DEPTH_MARKER
  else
    match value with
    | String s => String (cut_leaf s (pl_leaf limits))
    | Array items =>
        let out := take (pl_items limits) (map (fun item => prune_at limits item (S depth)) items) in
        let dropped := length items - pl_items limits in
        Array (if 0 <? dropped then out ++ [String (omitted_items_marker dropped)] else out)
    | Object m =>
        let '(out, dropped) := prune_fields (fun item => prune_at limits item (S depth)) (pl_keys limits) m 0 in
        Object (if 0 <? dropped then map_insert OMITTED_KEYS_KEY (int_value (Z.of_nat dropped)) out else out)
    | scalar => scalar
    end.

Definition prune (value : Value) (limits : PruneLimits) : Value := prune_at limits value 0.

(** * Fitting a budget *)

Definition fit (value : Value) (limits : PruneLimits) (total : nat) : option Value :=
  let pruned := prune value limits in
  if serialised_len pruned <=? total then Some pruned else None.

Fixpoint longest_leaf (value : Value) (depth : nat) : nat :=
  if Nat.leb MAX_WALK_DEPTH depth then 0
  else
    match value with
    | String s => length s
    | Array items => max_list (map (fun v => longest_leaf v (S depth)) items)
    | Object m => max_list (map (fun kv => longest_leaf kv.2 (S depth)) m)
    | _ => 0
    end.

(** The binary search between a cap that fits and one that does not. *)
Fixpoint search_leaf (value : Value) (containers : nat * nat) (total fuel fits fails : nat) (best : Value) : Value :=
  match fuel with
  | O => best
  | S fuel' =>
      if fits + 1 <? fails then
        let mid := fits + (fails - fits) / 2 in
        match fit value (mkLimits (Z.of_nat mid) containers.1 containers.2) total with
        | Some found => search_leaf value containers total fuel' mid fails found
        | None => search_leaf value containers total fuel' fits mid best
        end
      else best
  end.

Definition best_fit_at (value : Value) (containers : nat * nat) (longest total : nat) : option Value :=
  match fit value (mkLimits USIZE_MAX containers.1 containers.2) total with
  | Some found => Some found
  | None =>
      best ← fit value (mkLimits (Z.of_nat LEAF_FLOOR) containers.1 containers.2) total;
      Some (search_leaf value containers total longest LEAF_FLOOR longest best)
  end.

Definition fallback_view : Value := object [(VIEW_UNAVAILABLE_KEY, String VIEW_UNAVAILABLE_TEXT)].

(** The first cap from [n] down to 1 that fits. *)
Fixpoint narrow (try : nat -> option Value) (n : nat) : option Value :=
  match n with
  | O => None
  | S n' => match try n with Some found => Some found | None => narrow try n' end
  end.

Definition render (value : Value) (total : nat) : Value :=
  let longest := longest_leaf value 0 in
  let try items keys := best_fit_at value (items, keys) longest total in
  match try DEFAULT_ITEMS DEFAULT_KEYS with
  | Some found => found
  | None =>
      match narrow (fun items => try items DEFAULT_KEYS) (DEFAULT_ITEMS - 1) with
      | Some found => found
      | None => default fallback_view (narrow (try 1) (DEFAULT_KEYS - 1))
      end
  end.

(** * What the sink screen reads *)

Definition is_upper_byte (c : Z) : bool := ((65 <=? c) && (c <=? 90))%Z.
Definition is_lower_or_digit (c : Z) : bool := ((97 <=? c) && (c <=? 122) || (48 <=? c) && (c <=? 57))%Z.

(** A space before every upper-case letter that follows a lower-case one or a
    digit. *)
Fixpoint split_case (prev : option Z) (s : bytes) : bytes :=
  match s with
  | [] => []
  | c :: s' =>
      let after_lower := match prev with Some p => is_lower_or_digit p | None => false end in
      (if is_upper_byte c && after_lower then [32%Z] else []) ++ c :: split_case (Some c) s'
  end.

Definition key_readings (key : bytes) : list bytes :=
  let spaced := map (fun c => if is_separator c then 32%Z else c) key in
  let split := split_case None spaced in
  if bytes_eqb split spaced then [spaced] else [spaced; split].

Definition nonempty_str (v : Value) : option bytes := match v with String (c :: s) => Some (c :: s) | _ => None end.

Fixpoint collect_screen_parts (value : Value) (depth : nat) : list bytes :=
  if Nat.leb MAX_WALK_DEPTH depth then []
  else
    match value with
    | String s => match s with [] => [] | _ => [s] end
    | Array items => flat_map (fun item => collect_screen_parts item (S depth)) items
    | Object m =>
        flat_map (fun kv =>
          let readings := key_readings kv.1 in
          match nonempty_str kv.2 with
          | Some s => map (fun words => words ++ bs " " ++ s) readings
          | None => readings ++ collect_screen_parts kv.2 (S depth)
          end) m
    | _ => []
    end.

Definition screen_text (view : Value) : bytes := join (bs "
") (collect_screen_parts view 0).

(** * What a view is

    [shown depth v v']: [v'] is [v] cut down, with nothing in it that [v] does
    not have but the core's own marks, each of which counts what is missing. *)

Inductive shown : nat -> Value -> Value -> Prop :=
| ShownDeep depth v : MAX_WALK_DEPTH <= depth -> shown depth v (String DEPTH_MARKER)
| ShownNull depth : shown depth Null Null
| ShownBool depth b : shown depth (Bool b) (Bool b)
| ShownNumber depth n : shown depth (Number n) (Number n)
| ShownString depth s : shown depth (String s) (String s)
| ShownCut depth s e :
    is_atomic s = false -> is_char_boundary s e = true -> e + length ELLIPSIS < length s ->
    shown depth (String s) (String (take e s ++ ELLIPSIS))
| ShownArray depth kept lost out :
    Forall2 (shown (S depth)) kept out ->
    shown depth (Array (kept ++ lost))
      (Array (out ++ match lost with [] => [] | _ => [String (omitted_items_marker (length lost))] end))
| ShownObject depth m kept out lost :
    kept ⊆+ m -> lost = length m - length kept ->
    Forall2 (fun kv kv' => kv.1 = kv'.1 /\ is_identifier_key kv.1 = true /\ shown (S depth) kv.2 kv'.2) kept out ->
    shown depth (Object m)
      (Object (out ++ if 0 <? lost then [(OMITTED_KEYS_KEY, int_value (Z.of_nat lost))] else [])).

(** * Lemmas *)

Lemma floor_boundary_ok n s : floor_boundary n s <= n /\ (n <= length s -> is_char_boundary s (floor_boundary n s) = true).
Proof.
  induction n as [|n IH]; cbn [floor_boundary].
  - split; [done|]. intros _. unfold is_char_boundary. by destruct s.
  - destruct (is_char_boundary s (S n)) eqn:E; [done|]. destruct IH as [H1 H2]. split; [lia|]. intros. apply H2. lia.
Qed.

Lemma cut_leaf_shown depth s leaf : shown depth (String s) (String (cut_leaf s leaf)).
Proof.
  unfold cut_leaf. destruct (Z.of_nat (length s) <=? leaf)%Z; [constructor|]. destruct (is_atomic s) eqn:Ea; [constructor|].
  cbn [orb]. destruct (_ <=? _) eqn:El; [constructor|]. apply Nat.leb_gt in El. apply ShownCut; [done| |done].
  unfold floor_char_boundary. apply floor_boundary_ok. lia.
Qed.

Lemma prune_fields_spec f keys m n :
  let '(out, d) := prune_fields f keys m n in
  exists kept, kept `sublist_of` m /\ d = length m - length kept /\
    Forall2 (fun kv kv' => kv.1 = kv'.1 /\ is_identifier_key kv.1 = true /\ f kv.2 = kv'.2) kept out.
Proof.
  revert n. induction m as [|[k v] m IH]; intros n; cbn [prune_fields].
  { exists []. split_and!; [constructor|done|constructor]. }
  destruct (is_identifier_key k) eqn:Ek; [destruct (keys <=? n)|]; cbn [negb orb].
  - specialize (IH n). destruct (prune_fields f keys m n) as [out d]. destruct IH as (kept & Hs & -> & Hf).
    exists kept. split_and!; [by apply sublist_cons| |done]. apply sublist_length in Hs. cbn. lia.
  - specialize (IH (S n)). destruct (prune_fields f keys m (S n)) as [out d]. destruct IH as (kept & Hs & -> & Hf).
    exists ((k, v) :: kept). split_and!; [by apply sublist_skip|done|by constructor].
  - specialize (IH n). destruct (prune_fields f keys m n) as [out d]. destruct IH as (kept & Hs & -> & Hf).
    exists kept. split_and!; [by apply sublist_cons| |done]. apply sublist_length in Hs. cbn. lia.
Qed.

(** The mark sorts after every identifier, so it comes last. *)
Lemma identifier_before_mark k : is_identifier_key k = true -> bytes_eqb OMITTED_KEYS_KEY k = false /\ bytes_ltb OMITTED_KEYS_KEY k = false.
Proof.
  unfold is_identifier_key. intros [[[Hne _]%andb_true_iff _]%andb_true_iff Hall]%andb_true_iff.
  destruct k as [|c k]; [done|]. cbn [forallb] in Hall. apply andb_true_iff in Hall as [Hc _].
  assert (Hlt : (c < 128)%Z).
  { apply orb_true_iff in Hc as [Hc|Hc]; [by apply alnum_not_space in Hc as [? _]; lia|].
    apply bool_decide_eq_true in Hc. unfold KEY_SEPARATORS in Hc. set_unfold in Hc. lia. }
  change OMITTED_KEYS_KEY with (226%Z :: drop 1 OMITTED_KEYS_KEY). split.
  - apply bytes_eqb_false. intros [= <- _]. lia.
  - cbn [bytes_ltb]. by rewrite (proj2 (Z.ltb_ge _ _)), (proj2 (Z.eqb_neq _ _)) by lia.
Qed.

Lemma insert_mark (out : list (bytes * Value)) v : Forall (fun kv => is_identifier_key kv.1 = true) out ->
  map_insert OMITTED_KEYS_KEY v out = out ++ [(OMITTED_KEYS_KEY, v)].
Proof.
  induction 1 as [|[k w] out Hk Hout IH]; [done|]. cbn [map_insert]. destruct (identifier_before_mark k Hk) as [-> ->].
  by rewrite IH.
Qed.

Lemma prune_shown limits v depth : shown depth v (prune_at limits v depth).
Proof.
  revert depth. induction v as [|b|n|s|l IH|m IH] using Value_ind'; intros depth; cbn [prune_at];
    (destruct (Nat.leb_spec MAX_WALK_DEPTH depth); [by constructor|]); try constructor.
  - apply cut_leaf_shown.
  - set (f := fun item => prune_at limits item (S depth)).
    rewrite <- (take_drop (pl_items limits) l) at 1. rewrite <- fmap_take.
    assert (Hf : Forall2 (shown (S depth)) (take (pl_items limits) l) (f <$> take (pl_items limits) l)).
    { apply Forall2_fmap_r. apply Forall_Forall2_diag. apply Forall_take. eapply list.Forall_impl; [exact IH|].
      intros x Hx. apply Hx. }
    pose proof (ShownArray depth _ (drop (pl_items limits) l) _ Hf) as Hs.
    rewrite length_drop in Hs. destruct (drop (pl_items limits) l) eqn:E.
    + assert (length l - pl_items limits = 0) as -> by (pose proof (length_drop l (pl_items limits)) as Hl; rewrite E in Hl; cbn in Hl; lia). cbn [Nat.ltb Nat.leb]. rewrite !app_nil_r in Hs. rewrite app_nil_r. exact Hs.
    + assert (0 <? length l - pl_items limits = true) as ->; [|done]. apply Nat.ltb_lt. pose proof (length_drop l (pl_items limits)) as Hl. rewrite E in Hl. cbn in Hl. lia.
  - pose proof (prune_fields_spec (fun item => prune_at limits item (S depth)) (pl_keys limits) m 0) as Hp.
    destruct (prune_fields _ _ m 0) as [out d]. destruct Hp as (kept & Hsub & Hd & Hf).
    assert (Hid : Forall (fun kv => is_identifier_key kv.1 = true) out).
    { clear -Hf. induction Hf as [|[k v] [k' v'] ks os (Hk & Hi & _) _ IH]; constructor; [|done]. cbn in *. by subst. }
    assert (Hf' : Forall2 (fun kv kv' => kv.1 = kv'.1 /\ is_identifier_key kv.1 = true /\ shown (S depth) kv.2 kv'.2) kept out).
    { assert (Hin : Forall (fun kv => forall depth, shown depth kv.2 (prune_at limits kv.2 depth)) kept)
        by (apply list.Forall_forall; intros x Hx; rewrite list.Forall_forall in IH; apply IH; by apply (elem_of_submseteq kept _ _ Hx), sublist_submseteq).
      clear -Hf Hin. induction Hf as [|[k v] [k' v'] ks os (Hk & Hi & Hv0) _ IH]; constructor.
      - apply list.Forall_cons in Hin as [Hv _]. split_and!; [done..|]. cbn in *. rewrite <- Hv0. apply Hv.
      - apply IH. by apply list.Forall_cons in Hin as [_ ?]. }
    pose proof (ShownObject depth m kept out d (sublist_submseteq _ _ Hsub) Hd Hf') as Hs.
    destruct (0 <? d); [by rewrite insert_mark|by rewrite app_nil_r in Hs].
Qed.

(** ** The search *)

Lemma fit_Some v limits total found : fit v limits total = Some found ->
  found = prune v limits /\ serialised_len found <= total.
Proof. unfold fit. destruct (_ <=? _) eqn:E; [|done]. intros [= <-]. by apply Nat.leb_le in E. Qed.

(** The cap found fits and the next one does not, unless it cuts nothing any
    more. *)
Definition water_level (v : Value) (containers : nat * nat) (total longest : nat) (found : Value) : Prop :=
  exists cap, LEAF_FLOOR <= cap /\ fit v (mkLimits (Z.of_nat cap) containers.1 containers.2) total = Some found /\
    (longest <= cap + 1 \/ fit v (mkLimits (Z.of_nat (cap + 1)) containers.1 containers.2) total = None).

Lemma search_leaf_spec v containers total longest fuel fits fails best :
  fails - fits <= fuel -> LEAF_FLOOR <= fits ->
  fit v (mkLimits (Z.of_nat fits) containers.1 containers.2) total = Some best ->
  (longest <= fails \/ fit v (mkLimits (Z.of_nat fails) containers.1 containers.2) total = None) ->
  fits < fails \/ longest <= fits + 1 ->
  water_level v containers total longest (search_leaf v containers total fuel fits fails best).
Proof.
  revert fits fails best. induction fuel as [|fuel IH]; intros fits fails best Hfuel Hfl Hb Hf Hlt; cbn [search_leaf].
  { exists fits. split_and!; [done..|]. left. lia. }
  destruct (fits + 1 <? fails) eqn:E.
  - apply Nat.ltb_lt in E. set (mid := fits + (fails - fits) / 2).
    assert (Hmid : fits < mid < fails).
    { unfold mid. pose proof (Nat.div_lt_upper_bound (fails - fits) 2 (fails - fits)).
      assert (1 <= (fails - fits) / 2) by (apply Nat.div_le_lower_bound; lia). lia. }
    destruct (fit v (mkLimits (Z.of_nat mid) _ _) total) as [found|] eqn:Em; apply IH; auto; lia.
  - apply Nat.ltb_ge in E. exists fits. split_and!; [done..|]. destruct Hlt as [Hlt|Hlt]; [|by left].
    assert (fails = fits + 1) as -> by lia. destruct Hf as [Hf|Hf]; [left; lia|by right].
Qed.

Definition best_at (v : Value) (containers : nat * nat) (total : nat) (found : Value) : Prop :=
  fit v (mkLimits USIZE_MAX containers.1 containers.2) total = Some found \/
  fit v (mkLimits USIZE_MAX containers.1 containers.2) total = None
    /\ water_level v containers total (longest_leaf v 0) found.

Lemma best_fit_at_spec v containers total :
  match best_fit_at v containers (longest_leaf v 0) total with
  | Some found => best_at v containers total found
  | None => fit v (mkLimits (Z.of_nat LEAF_FLOOR) containers.1 containers.2) total = None
  end.
Proof.
  unfold best_fit_at, best_at. destruct (fit v (mkLimits USIZE_MAX _ _) total) as [found|]; [by left|].
  destruct (fit v (mkLimits (Z.of_nat LEAF_FLOOR) _ _) total) as [best|] eqn:Eb; cbn [mbind option_bind]; [|done].
  right. split; [done|]. apply search_leaf_spec; [lia|done|done|by left|lia].
Qed.

Lemma narrow_spec try n :
  match narrow try n with
  | Some found => exists k, 1 <= k <= n /\ try k = Some found /\ forall j, k < j <= n -> try j = None
  | None => forall k, 1 <= k <= n -> try k = None
  end.
Proof.
  induction n as [|n IH]; cbn [narrow]; [lia|]. destruct (try (S n)) as [found|] eqn:E.
  - exists (S n). split_and!; [lia..|done|lia].
  - destruct (narrow try n) as [found|].
    + destruct IH as (k & Hk & Ht & Hj). exists k. split_and!; [lia..|done|]. intros j Hj'.
      destruct (decide (j = S n)) as [->|]; [done|]. apply Hj. lia.
    + intros k Hk. destruct (decide (k = S n)) as [->|]; [done|]. apply IH. lia.
Qed.

Lemma best_at_fits v containers total found : best_at v containers total found ->
  (exists limits, found = prune v limits) /\ serialised_len found <= total.
Proof.
  intros [Hf|(_ & cap & _ & Hf & _)]; apply fit_Some in Hf as [-> ?]; eauto.
Qed.

(** Where a rendered view comes from. *)
Lemma render_cases v total :
  (exists containers, best_at v containers total (render v total)) \/ render v total = fallback_view.
Proof.
  unfold render. pose proof (best_fit_at_spec v (DEFAULT_ITEMS, DEFAULT_KEYS) total) as H1.
  destruct (best_fit_at v (DEFAULT_ITEMS, DEFAULT_KEYS) _ total) as [found|]; [by left; eauto|].
  pose proof (narrow_spec (fun items => best_fit_at v (items, DEFAULT_KEYS) (longest_leaf v 0) total) (DEFAULT_ITEMS - 1)) as H2.
  destruct (narrow _ (DEFAULT_ITEMS - 1)) as [found|].
  { destruct H2 as (k & _ & Hk & _). left. exists (k, DEFAULT_KEYS). pose proof (best_fit_at_spec v (k, DEFAULT_KEYS) total) as H3.
    by rewrite Hk in H3. }
  pose proof (narrow_spec (fun keys => best_fit_at v (1, keys) (longest_leaf v 0) total) (DEFAULT_KEYS - 1)) as H3.
  destruct (narrow _ (DEFAULT_KEYS - 1)) as [found|]; [|by right].
  destruct H3 as (k & _ & Hk & _). left. exists (1, k). pose proof (best_fit_at_spec v (1, k) total) as H4.
  by rewrite Hk in H4.
Qed.

(** ** Values that need no pruning *)

Fixpoint plain (v : Value) (depth : nat) : bool :=
  negb (Nat.leb MAX_WALK_DEPTH depth) &&
  match v with
  | String s => (Z.of_nat (length s) <=? USIZE_MAX)%Z
  | Array l => (length l <=? DEFAULT_ITEMS) && forallb (fun x => plain x (S depth)) l
  | Object m => (length m <=? DEFAULT_KEYS) && forallb (fun kv => is_identifier_key kv.1 && plain kv.2 (S depth)) m
  | _ => true
  end.

Definition default_limits : PruneLimits := mkLimits USIZE_MAX DEFAULT_ITEMS DEFAULT_KEYS.

Lemma prune_fields_plain f keys m n :
  n + length m <= keys -> forallb (fun kv => is_identifier_key kv.1) m = true -> Forall (fun kv => f kv.2 = kv.2) m ->
  prune_fields f keys m n = (m, 0).
Proof.
  revert n. induction m as [|[k v] m IH]; intros n Hn Hi Hf; [done|]. cbn [prune_fields forallb length] in *.
  apply andb_true_iff in Hi as [Hk Hi]. cbn in Hk. rewrite Hk. apply list.Forall_cons in Hf as [Hv Hf]. cbn in Hv.
  destruct (Nat.leb_spec keys n); [lia|]. cbn [negb orb]. rewrite IH by (done || lia). by rewrite Hv.
Qed.

Lemma prune_plain v depth : plain v depth = true -> prune_at default_limits v depth = v.
Proof.
  revert depth. induction v as [|b|n|s|l IH|m IH] using Value_ind'; intros depth; cbn [plain prune_at];
    (destruct (Nat.leb MAX_WALK_DEPTH depth); [done|]); cbn [negb andb]; try done.
  - intros Hl. unfold cut_leaf. cbn [pl_leaf default_limits]. by rewrite Hl.
  - intros [Hl Ha]%andb_true_iff. apply Nat.leb_le in Hl. cbn [pl_items default_limits].
    assert (length l - DEFAULT_ITEMS = 0) as -> by lia. cbn [Nat.ltb Nat.leb]. f_equal.
    rewrite take_ge by (rewrite length_map; done). rewrite forallb_forall in Ha.
    assert (Hm : Forall (fun x => prune_at default_limits x (S depth) = x) l).
    { apply list.Forall_forall. intros x Hx. rewrite list.Forall_forall in IH. apply IH; [done|]. apply Ha. by apply list_elem_of_In. }
    clear -Hm. induction Hm as [|x l Hx Hm IH]; [done|]. cbn [map]. by rewrite Hx, IH.
  - intros [Hl Ha]%andb_true_iff. apply Nat.leb_le in Hl. cbn [pl_keys default_limits]. rewrite forallb_forall in Ha.
    rewrite prune_fields_plain; [done|done| |].
    + apply forallb_forall. intros kv Hkv. by specialize (Ha kv Hkv) as [? _]%andb_true_iff.
    + apply list.Forall_forall. intros kv Hkv. rewrite list.Forall_forall in IH. apply IH; [done|].
      by specialize (Ha kv (proj1 (list_elem_of_In _ _) Hkv)) as [_ ?]%andb_true_iff.
Qed.

(** ** The screened text *)

(** What a reader of the value sees: its strings, and its keys read as words. *)
Fixpoint read_texts (v : Value) (depth : nat) : list bytes :=
  if Nat.leb MAX_WALK_DEPTH depth then []
  else
    match v with
    | String s => [s]
    | Array l => flat_map (fun x => read_texts x (S depth)) l
    | Object m => flat_map (fun kv => key_readings kv.1 ++ read_texts kv.2 (S depth)) m
    | _ => []
    end.

(** Every text of the value begins at a character, as a [String] does. *)
Definition wf_texts (v : Value) (depth : nat) : Prop := Forall starts_char (read_texts v depth).

Lemma starts_char_tail b s : starts_char (b :: s) -> forall t, starts_char (b :: s ++ t).
Proof. done. Qed.

Lemma join_embedded x part parts a b :
  part ∈ parts -> part = a ++ x ++ b -> starts_char x -> starts_char b -> embedded x (join [10%Z] parts).
Proof.
  intros Hin Hp Hx Hb. induction parts as [|p ps IH]; [by apply not_elem_of_nil in Hin|].
  apply elem_of_cons in Hin as [->|Hin].
  - subst p. destruct ps as [|q ps]; [by exists a, b|].
    exists a, (b ++ [10%Z] ++ join [10%Z] (q :: ps)). cbn [join]. rewrite <- !app_assoc. split_and!; [done..|]. by destruct b.
  - destruct (IH Hin) as (c & d & Hj & _ & Hd). destruct ps as [|q ps]; [by apply not_elem_of_nil in Hin|].
    exists (p ++ [10%Z] ++ c), d. cbn [join] in *. rewrite Hj, <- !app_assoc. done.
Qed.

(** A part of the screened text that holds a text, at a character boundary. *)
Definition part_of (x : bytes) (parts : list bytes) : Prop :=
  exists part a b, part ∈ parts /\ part = a ++ x ++ b /\ starts_char b.

Lemma part_of_app_l x l l' : part_of x l -> part_of x (l ++ l').
Proof. intros (p & a & b & Hp & E & Hb). exists p, a, b. split_and!; [set_solver|done..]. Qed.

Lemma part_of_app_r x l l' : part_of x l' -> part_of x (l ++ l').
Proof. intros (p & a & b & Hp & E & Hb). exists p, a, b. split_and!; [set_solver|done..]. Qed.

Lemma part_self x l : x ∈ l -> part_of x l.
Proof. intros Hx. exists x, [], []. by rewrite app_nil_r. Qed.

Lemma key_readings_ne key : exists w, w ∈ key_readings key.
Proof. unfold key_readings. destruct (bytes_eqb _ _); eexists; constructor. Qed.

Lemma collect_covers v depth x : x ∈ read_texts v depth -> x <> [] -> part_of x (collect_screen_parts v depth).
Proof.
  revert depth. induction v as [|b|n|s|l IH|m IH] using Value_ind'; intros depth; cbn [read_texts collect_screen_parts];
    (destruct (Nat.leb MAX_WALK_DEPTH depth) eqn:Ed; [by intros Hx%not_elem_of_nil|]);
    try (by intros Hx%not_elem_of_nil).
  - intros ->%list_elem_of_singleton Hne. destruct s; [done|]. apply part_self. constructor.
  - intros Hx Hne. induction IH as [|y l Hy _ IHl]; cbn [flat_map] in *; [by apply not_elem_of_nil in Hx|].
    apply elem_of_app in Hx as [Hx|Hx]; [by apply part_of_app_l, Hy|by apply part_of_app_r, IHl].
  - intros Hx Hne. induction IH as [|[k y] m Hy _ IHm]; cbn [flat_map] in *; [by apply not_elem_of_nil in Hx|].
    apply elem_of_app in Hx as [Hx|Hx]; [apply part_of_app_l|by apply part_of_app_r, IHm]. cbn [fst snd] in *.
    destruct (nonempty_str y) as [s|] eqn:Es.
    + destruct y as [| | |[|c s']| |]; try done. injection Es as <-. apply elem_of_app in Hx as [Hx|Hx].
      * exists (x ++ bs " " ++ c :: s'), [], (bs " " ++ c :: s'). split_and!; [|done..].
        by apply (list_elem_of_fmap_2 (fun words => words ++ bs " " ++ c :: s')).
      * cbn [read_texts] in Hx. destruct (Nat.leb MAX_WALK_DEPTH (S depth)); [by apply not_elem_of_nil in Hx|].
        apply list_elem_of_singleton in Hx as ->. destruct (key_readings_ne k) as [w Hw].
        exists (w ++ bs " " ++ c :: s'), (w ++ bs " "), []. rewrite app_nil_r, <- app_assoc. split_and!; [|done..].
        by apply (list_elem_of_fmap_2 (fun words => words ++ bs " " ++ c :: s')).
    + apply elem_of_app in Hx as [Hx|Hx]; [by apply part_of_app_l, part_self|by apply part_of_app_r, Hy].
Qed.

Section Theorems.
Context `{UnicodeChar}.

(** A view respects its budget: for every budget of at least
    [MIN_VIEW_TOTAL] bytes the compact JSON of the rendered view is within it. *)
Theorem render_within_budget v total : MIN_VIEW_TOTAL <= total -> serialised_len (render v total) <= total.
Proof.
  intros Ht. destruct (render_cases v total) as [(containers & Hb)| ->].
  - by apply best_at_fits in Hb as [_ ?].
  - assert (serialised_len fallback_view = 69) as -> by (vm_compute; reflexivity). unfold MIN_VIEW_TOTAL in Ht. lia.
Qed.

(** A view shows nothing that is not there: every number, boolean and key
    of it is the value's own, an identifier is whole or absent, a cut string is
    a prefix of the original up to a character boundary, and each mark counts
    exactly what its array or object lost; the only other answer is the fixed
    fallback. *)
Theorem render_shows_the_value v total : shown 0 v (render v total) \/ render v total = fallback_view.
Proof.
  destruct (render_cases v total) as [(containers & Hb)| ->]; [|by right]. left.
  apply best_at_fits in Hb as [(limits & ->) _]. apply prune_shown.
Qed.

(** A value that fits is shown as it is. *)
Theorem render_keeps_what_fits v total : plain v 0 = true -> serialised_len v <= total -> render v total = v.
Proof.
  intros Hp Hl. unfold render, best_fit_at, fit, prune. fold default_limits. cbn [fst snd]. fold default_limits.
  rewrite (prune_plain v 0 Hp). by rewrite (proj2 (Nat.leb_le _ _) Hl).
Qed.

(** Nothing shown escapes the sink screen: a block-strength phrase in any
    string of a view, or in any of its keys read as words, blocks the text the
    screen is given. *)
Theorem shown_phrases_are_screened view x r :
  wf_texts view 0 -> x ∈ read_texts view 0 -> r ∈ CATALOGUE -> r_weight r = W75 ->
  contains (r_pattern r) (normalize x) = true ->
  iv_decision (screen_with_profile (screen_text view) Strict) = BlockInjection.
Proof.
  intros Hwf Hx Hr Hw Hc. apply (embedded_strong_blocks x _ r); [|done|done|by left|done].
  assert (Hne : x <> []) by by apply (phrase_needs_text x r).
  destruct (collect_covers view 0 x Hx Hne) as (part & a & b & Hp & E & Hb).
  apply (join_embedded x part _ a b); [done..| |done]. exact (proj1 (list.Forall_forall _ _) Hwf x Hx).
Qed.
End Theorems.

(** * Witnesses *)

Definition demo_hits : Value :=
  object [(bs "hits", Array (replicate 30 (object [(bs "message_id", String (bs "id-42")); (bs "has_attachments", Bool true);
            (bs "ignore all", Null); (bs "subject", String (bs "notes of the meeting on the harbour works and the budget for next year"))])))].

Lemma render_within_budget_witness : serialised_len (render demo_hits 600) <= 600.
Proof. apply render_within_budget. unfold MIN_VIEW_TOTAL. lia. Defined.

Definition demo_record : Value := object [(bs "id", String (bs "id-42")); (bs "n", int_value 3)].

Lemma render_keeps_what_fits_witness : render demo_record 128 = demo_record.
Proof. apply render_keeps_what_fits; [vm_compute; reflexivity|]. vm_compute. lia. Defined.

(** A phrase spelled by a key and its value together is one reading of the key. *)
Lemma shown_phrases_are_screened_witness :
  iv_decision (screen_with_profile (screen_text (object [(bs "IgnoreAllPrevious", int_value 1)])) Strict) = BlockInjection.
Proof.
  apply (shown_phrases_are_screened _ (bs "Ignore All Previous") (mkRule W75 (bs "ignore all previous") (bs "instruction_override") false)).
  - unfold wf_texts. vm_compute. repeat constructor.
  - vm_compute. right. left.
  - apply list_elem_of_further, list_elem_of_here.
  - reflexivity.
  - vm_compute. reflexivity.
Defined.
