(* ===== verification/TaskStore.v ===== *)
(** The [tasks] and [asks] tables and every statement the daemon and the
    operator's tools run against them (src/db/src/tasks.rs,
    src/db/src/tasks/reply_claim.rs, src/db/src/asks.rs).

    A table is a finite map from its primary key to the other columns, with the
    sequence its keys are drawn from.  An operation is a state transformer: a
    transaction that is dropped gives the tables back as they were, less the
    sequence values it drew.  The constraints of the migrations are written out
    where a statement can run into them.  [now] is the timestamp of the
    transaction; instants are in nanoseconds.  A connection that fails is not an
    operation: it either leaves the tables alone or happens after the commit. *)

From stdpp Require Import base gmap list sets numbers strings pretty.
From Stdlib Require Import ZArith Lia.
From S2P Require Import Prelude RustStr Fingerprint HashesWire Json NulRule Cassandra PlanJson Asks LoopPure InnerLoop.
Local Open Scope Z_scope.

(** * Rows *)

Definition lane_as_sql (l : Lane) : bytes := match l with Fast => bs "fast" | Long => bs "long" end.

Definition lane_from_sql (s : bytes) : result Lane DbError :=
  if bytes_eqb s (bs "fast") then Ok Fast
  else if bytes_eqb s (bs "long") then Ok Long
  else Err (bs "unknown lane: " ++ s).

#[global] Instance Lane_eq_dec : EqDecision Lane.
Proof. solve_decision. Defined.

(** The values [tasks_state_check] admits. *)
Inductive TaskState :=
| TsPending | TsRunning | TsAwaitingOperator
| TsCompleted | TsFailed | TsCancelled | TsBlocked | TsTimedOut | TsCrashed | TsRefused.

#[global] Instance TaskState_eq_dec : EqDecision TaskState.
Proof. solve_decision. Defined.

Definition task_states : list TaskState :=
  [TsPending; TsRunning; TsAwaitingOperator; TsCompleted; TsFailed; TsCancelled; TsBlocked; TsTimedOut;
   TsCrashed; TsRefused].

Definition state_as_sql (s : TaskState) : bytes :=
  match s with
  | TsPending => bs "pending" | TsRunning => bs "running" | TsAwaitingOperator => bs "awaiting_operator"
  | TsCompleted => bs "completed" | TsFailed => bs "failed" | TsCancelled => bs "cancelled"
  | TsBlocked => bs "blocked" | TsTimedOut => bs "timed_out" | TsCrashed => bs "crashed"
  | TsRefused => bs "refused"
  end.

(** The CHECK: a text that is none of these states is refused. *)
Definition state_check (s : bytes) : option TaskState :=
  List.find (fun st => bytes_eqb (state_as_sql st) s) task_states.

Definition REPLIED_STATES : list TaskState :=
  [TsCompleted; TsFailed; TsCancelled; TsBlocked; TsTimedOut; TsCrashed; TsRefused].

Definition is_terminal (s : TaskState) : bool := bool_decide (s ∈ REPLIED_STATES).

Inductive ReplyDisposition := Routed | Unroutable.

Record Task := mkTask {
  tk_state : TaskState; tk_lane : Lane; tk_created_at : Z; tk_updated_at : Z; tk_started_at : option Z;
  tk_finished_at : option Z; tk_lease_expires_at : option Z; tk_plan_count : Z; tk_payload : Value;
  tk_result : option Value; tk_turn_record : option Value; tk_reply : option (Z * ReplyDisposition) }.

Inductive AskState := AsPending | AsResolved | AsExpired | AsCancelled.

#[global] Instance AskState_eq_dec : EqDecision AskState.
Proof. solve_decision. Defined.

Definition ask_state_as_sql (s : AskState) : bytes :=
  match s with
  | AsPending => bs "pending" | AsResolved => bs "resolved" | AsExpired => bs "expired"
  | AsCancelled => bs "cancelled"
  end.

(** [asks_resolved_is_complete]: the three resolution columns are set together,
    exactly on a resolved row. *)
Inductive AskOutcome := AoPending | AoResolved (at_ : Z) (by_ : bytes) (resolution : Value) | AoExpired | AoCancelled.

Record AskRow := mkAskRow {
  ar_task_id : Z; ar_kind : bytes; ar_body : bytes; ar_options : Value; ar_plan_digest : option bytes;
  ar_nonce_sha256 : bytes; ar_created_at : Z; ar_deadline_at : Z; ar_resume_state : option Value;
  ar_outcome : AskOutcome }.

Definition ar_state (r : AskRow) : AskState :=
  match ar_outcome r with
  | AoPending => AsPending | AoResolved _ _ _ => AsResolved | AoExpired => AsExpired | AoCancelled => AsCancelled
  end.

Definition decode_ask_row (id : Z) (r : AskRow) : Ask :=
  mkAsk id (ar_task_id r) (ar_kind r) (ar_body r) (ar_options r) (ar_plan_digest r)
    (ask_state_as_sql (ar_state r))
    (match ar_outcome r with AoResolved _ by_ _ => Some by_ | _ => None end)
    (match ar_outcome r with AoResolved _ _ v => Some v | _ => None end)
    (ar_resume_state r).

Record Db := mkDb { db_tasks : gmap Z Task; db_asks : gmap Z AskRow; db_task_seq : Z; db_ask_seq : Z }.

Definition empty_db : Db := mkDb ∅ ∅ 1 1.

Definition set_tasks (m : gmap Z Task) (db : Db) : Db := mkDb m (db_asks db) (db_task_seq db) (db_ask_seq db).
Definition set_asks (m : gmap Z AskRow) (db : Db) : Db := mkDb (db_tasks db) m (db_task_seq db) (db_ask_seq db).

(** * Statements *)

Section Sql.
Context {A : Type}.

(** [UPDATE .. WHERE id = k AND p RETURNING ..] *)
Definition update_one (k : Z) (p : A -> bool) (f : A -> A) (m : gmap Z A) : option (A * gmap Z A) :=
  match m !! k with
  | Some r => if p r then Some (f r, <[k := f r]> m) else None
  | None => None
  end.

(** [UPDATE .. WHERE p RETURNING ..]: the rows as updated, and the table. *)
Definition update_all (p : A -> bool) (f : A -> A) (m : gmap Z A) : list (Z * A) * gmap Z A :=
  (map_to_list (f <$> filter (fun kr => p kr.2 = true) m), (fun r => if p r then f r else r) <$> m).

Definition select_where (p : A -> bool) (m : gmap Z A) : list (Z * A) :=
  List.filter (fun kr => p kr.2) (map_to_list m).

(** [ORDER BY]: insertion by a boolean order. *)
Fixpoint order_insert (before : Z * A -> Z * A -> bool) (x : Z * A) (l : list (Z * A)) : list (Z * A) :=
  match l with
  | [] => [x]
  | y :: l' => if before y x then y :: order_insert before x l' else x :: l
  end.

Definition order_by (before : Z * A -> Z * A -> bool) (l : list (Z * A)) : list (Z * A) :=
  fold_right (order_insert before) [] l.
End Sql.

(** The text [format!] gives a query error, the server's own words left out. *)
Definition query_error (what : bytes) : DbError := bs "postgres query failed: " ++ what.

(** * tasks.rs *)

Definition DEFAULT_DEADLINE_FAST_S : Z := 60.
Definition DEFAULT_DEADLINE_LONG_S : Z := 30 * 60.
Definition DEFAULT_MAX_PLANS_FAST : Z := 20.
Definition DEFAULT_MAX_PLANS_LONG : Z := 25.
Definition DEFAULT_TIME_CEILING_FAST_S : Z := 15 * 60.

Definition insert_pending (lane : Lane) (payload : Value) (now : Z) (db : Db) : result Z DbError * Db :=
  match refuse_nul_in_json (bs "tasks.payload") payload with
  | Err e => (Err e, db)
  | Ok _ =>
      let id := db_task_seq db in
      (Ok id,
       mkDb (<[id := mkTask TsPending lane now now None None None 0 payload None None None]> (db_tasks db))
         (db_asks db) (id + 1) (db_ask_seq db))
  end.

Definition in_state (s : TaskState) (t : Task) : bool := bool_decide (tk_state t = s).

(** The column assignments. *)
Definition task_set (t : Task) (s : TaskState) (now : Z) (started finished lease : option Z) : Task :=
  mkTask s (tk_lane t) (tk_created_at t) now started finished lease (tk_plan_count t) (tk_payload t)
    (tk_result t) (tk_turn_record t) (tk_reply t).

Definition with_result (t : Task) (res turn : option Value) : Task :=
  mkTask (tk_state t) (tk_lane t) (tk_created_at t) (tk_updated_at t) (tk_started_at t) (tk_finished_at t)
    (tk_lease_expires_at t) (tk_plan_count t) (tk_payload t) res turn (tk_reply t).

Definition finish_as (s : TaskState) (now : Z) (t : Task) : Task :=
  task_set t s now (tk_started_at t) (Some now) (tk_lease_expires_at t).

(** [ORDER BY created_at ASC LIMIT 1] *)
Fixpoint oldest (l : list (Z * Task)) : option (Z * Task) :=
  match l with
  | [] => None
  | x :: l' =>
      match oldest l' with
      | Some y => if tk_created_at x.2 <=? tk_created_at y.2 then Some x else Some y
      | None => Some x
      end
  end.

(** [locked]: the rows other transactions hold, which [SKIP LOCKED] passes
    over.  [utc] is the caller's clock, [now] the database's. *)
Definition claim_one (locked : Z -> bool) (lane : Lane) (deadline_seconds utc now : Z) (db : Db) :
    option (Z * Task) * Db :=
  let lease := utc + deadline_seconds * 1000000000 in
  let queue := select_where (fun t => bool_decide (tk_lane t = lane) && in_state TsPending t) (db_tasks db) in
  match oldest (List.filter (fun kt => negb (locked kt.1)) queue) with
  | None => (None, db)
  | Some (id, t) =>
      let t' := task_set t TsRunning now (Some now) (tk_finished_at t) (Some lease) in
      (Some (id, t'), set_tasks (<[id := t']> (db_tasks db)) db)
  end.

Definition finalize (id : Z) (state : bytes) (res turn : option Value) (now : Z) (db : Db) :
    result () DbError * Db :=
  let res := (escape_opt_json res).1 in
  let turn := (escape_opt_json turn).1 in
  match state_check state with
  | Some s =>
      match update_one id (in_state TsRunning) (fun t => with_result (finish_as s now t) res turn) (db_tasks db) with
      | Some (_, m) => (Ok tt, set_tasks m db)
      | None => (Ok tt, db)
      end
  | None =>
      match update_one id (in_state TsRunning) (fun t => t) (db_tasks db) with
      | Some _ => (Err (query_error (bs "tasks finalize")), db)
      | None => (Ok tt, db)
      end
  end.

Definition observe_state (id : Z) (db : Db) : result bytes DbError :=
  match db_tasks db !! id with
  | Some t => Ok (state_as_sql (tk_state t))
  | None => Err (query_error (bs "tasks observe_state"))
  end.

Record Cancellation := mkCancellation { cn_task : Task; cn_previous_state : bytes; cn_asks_cancelled : nat }.

Definition ask_pending (r : AskRow) : bool := bool_decide (ar_state r = AsPending).

Definition close_ask (o : AskOutcome) (r : AskRow) : AskRow :=
  mkAskRow (ar_task_id r) (ar_kind r) (ar_body r) (ar_options r) (ar_plan_digest r) (ar_nonce_sha256 r)
    (ar_created_at r) (ar_deadline_at r) (ar_resume_state r) o.

Definition cancel_for_task (id : Z) (m : gmap Z AskRow) : nat * gmap Z AskRow :=
  let '(rows, m') := update_all (fun r => bool_decide (ar_task_id r = id) && ask_pending r) (close_ask AoCancelled) m in
  (length rows, m').

Definition state_locked_in_tx (id : Z) (db : Db) : option bytes := state_as_sql ∘ tk_state <$> db_tasks db !! id.

Definition cancellable (t : Task) : bool := in_state TsPending t || in_state TsRunning t || in_state TsAwaitingOperator t.

Definition mark_cancelled (id now : Z) (db : Db) : option Cancellation * Db :=
  let '(n1, asks1) := cancel_for_task id (db_asks db) in
  let previous := state_locked_in_tx id db in
  match update_one id cancellable (finish_as TsCancelled now) (db_tasks db) with
  | None => (None, db)
  | Some (task, tasks') =>
      let '(n2, asks2) := cancel_for_task id asks1 in
      (Some (mkCancellation task (default [] previous) (n1 + n2)), set_asks asks2 (set_tasks tasks' db))
  end.

Definition mark_cancelled_if_pending (id now : Z) (db : Db) : option Task * Db :=
  match update_one id (in_state TsPending) (finish_as TsCancelled now) (db_tasks db) with
  | Some (t, m) => (Some t, set_tasks m db)
  | None => (None, db)
  end.

(** A comparison with a NULL column is not true. *)
Definition lease_after (now : Z) (t : Task) : bool :=
  match tk_lease_expires_at t with Some l => now <? l | None => false end.
Definition lease_before (now : Z) (t : Task) : bool :=
  match tk_lease_expires_at t with Some l => l <? now | None => false end.

Definition any_live_worker (now : Z) (db : Db) : bool :=
  existsb (fun kt => in_state TsRunning kt.2 && lease_after now kt.2) (map_to_list (db_tasks db)).

Definition mark_failed_running (id now : Z) (db : Db) : bool * Db :=
  match update_one id (fun t => in_state TsRunning t && lease_after now t) (finish_as TsCrashed now) (db_tasks db) with
  | Some (_, m) => (true, set_tasks m db)
  | None => (false, db)
  end.

Definition CRASHED_DETAIL : bytes := bs "crashed".

Definition error_result (detail : bytes) : Value :=
  object [(bs "kind", String (bs "error")); (bs "detail", String detail)].

(** The other columns of [tk_turn_record] are kept. *)
Definition fail_with (s : TaskState) (detail : bytes) (now : Z) (t : Task) : Task :=
  with_result (finish_as s now t) (Some (error_result detail)) (tk_turn_record t).

Definition sweep_crashed (now : Z) (db : Db) : list (Z * Task) * Db :=
  let '(rows, m) := update_all (fun t => in_state TsRunning t && lease_before now t)
                      (fail_with TsCrashed CRASHED_DETAIL now) (db_tasks db) in
  (rows, set_tasks m db).

Definition set_plan_count (n now : Z) (t : Task) : Task :=
  mkTask (tk_state t) (tk_lane t) (tk_created_at t) now (tk_started_at t) (tk_finished_at t)
    (tk_lease_expires_at t) n (tk_payload t) (tk_result t) (tk_turn_record t) (tk_reply t).

Definition increment_plan_count (id n now : Z) (db : Db) : Db :=
  match update_one id (in_state TsRunning) (set_plan_count n now) (db_tasks db) with
  | Some (_, m) => set_tasks m db
  | None => db
  end.

(** The three writes the ask transactions make on [tasks]; [None] is [false]. *)
Definition suspend_for_ask (id now : Z) (db : Db) : option Db :=
  '(_, m) ← update_one id (in_state TsRunning)
              (fun t => task_set t TsAwaitingOperator now (tk_started_at t) (tk_finished_at t) None) (db_tasks db);
  Some (set_tasks m db).

Definition resume_from_ask (id now : Z) (db : Db) : option Db :=
  '(_, m) ← update_one id (in_state TsAwaitingOperator)
              (fun t => task_set t TsPending now (tk_started_at t) (tk_finished_at t) (tk_lease_expires_at t)) (db_tasks db);
  Some (set_tasks m db).

Definition fail_awaiting_operator (id : Z) (detail : bytes) (now : Z) (db : Db) : option Db :=
  '(_, m) ← update_one id (in_state TsAwaitingOperator) (fail_with TsFailed detail now) (db_tasks db);
  Some (set_tasks m db).

Definition state_in_tx (id : Z) (db : Db) : option bytes := state_as_sql ∘ tk_state <$> db_tasks db !! id.

Definition get_task (id : Z) (db : Db) : option Task := db_tasks db !! id.

(** [LIMIT] of a negative number is clamped to none. *)
Definition limit {A} (n : Z) (l : list A) : list A := take (Z.to_nat (Z.max n 0)) l.

Definition list_tasks (lane : option Lane) (state : option bytes) (n : Z) (db : Db) : list (Z * Task) :=
  limit n (order_by (fun a b => tk_created_at b.2 <=? tk_created_at a.2)
    (select_where (fun t =>
       match lane with Some l => bool_decide (tk_lane t = l) | None => true end
       && match state with Some s => bytes_eqb (state_as_sql (tk_state t)) s | None => true end) (db_tasks db))).

(** * reply_claim.rs *)

Definition disposition_as_sql (d : ReplyDisposition) : bytes :=
  match d with Routed => bs "routed" | Unroutable => bs "unroutable" end.

Record ClaimedReply := mkClaimedReply { cr_created_at : Z; cr_finished_at : option Z }.

Definition with_reply (t : Task) (r : Z * ReplyDisposition) : Task :=
  mkTask (tk_state t) (tk_lane t) (tk_created_at t) (tk_updated_at t) (tk_started_at t) (tk_finished_at t)
    (tk_lease_expires_at t) (tk_plan_count t) (tk_payload t) (tk_result t) (tk_turn_record t) (Some r).

Definition claimable (t : Task) : bool := negb (bool_decide (is_Some (tk_reply t))) && is_terminal (tk_state t).

Definition claim_reply (id : Z) (d : ReplyDisposition) (now : Z) (db : Db) : option ClaimedReply * Db :=
  match update_one id claimable (fun t => with_reply t (now, d)) (db_tasks db) with
  | Some (t, m) => (Some (mkClaimedReply (tk_created_at t) (tk_finished_at t)), set_tasks m db)
  | None => (None, db)
  end.

Definition reply_settled (id : Z) (db : Db) : bool :=
  match db_tasks db !! id with Some t => bool_decide (is_Some (tk_reply t)) | None => false end.

(** What Postgres and Rust print: [jsonb_text] is the text [->>] gives a value
    that is not a string, [str_debug] is [{:?}] of a string. *)
Class Text := { jsonb_text : Value -> bytes; str_debug : bytes -> bytes }.

Section Texts.
Context `{Text}.

(** [payload->>'key'] *)
Definition arrow_text (key : bytes) (v : Value) : option bytes :=
  match get key v with
  | Some (String s) => Some s
  | Some Null | None => None
  | Some other => Some (jsonb_text other)
  end.

Definition text_is (o : option bytes) (s : bytes) : bool := bool_decide (o = Some s).

Definition is_channel_payload (v : Value) : bool := text_is (arrow_text (bs "kind") v) (bs "channel").

Definition unsettled_channel_replies (after_id n : Z) (db : Db) : list Z :=
  limit n (order_by (fun a b => a.1 <=? b.1)
    (List.filter (fun kt => after_id <? kt.1)
       (select_where (fun t => claimable t && is_channel_payload (tk_payload t)) (db_tasks db)))).*1.

(** * asks.rs *)

(** What [raise] gives back: the row and the plaintext nonce. *)
Record RaisedAsk := mkRaised { ra_ask_id : Z; ra_nonce : bytes }.

Record Claimant := mkClaimant { cl_channel : bytes; cl_peer : bytes }.

Definition attribution (c : Claimant) : bytes := cl_channel c ++ bs "/" ++ cl_peer c.

Definition NONCE_BYTES : nat := 5.

(** [drawn] are the bytes of the operating system's generator. *)
Definition generate_nonce (drawn : bytes) : bytes := flat_map (hex_fixed 2) (take NONCE_BYTES drawn).

Definition one_pending_per_task (r : AskRow) (m : gmap Z AskRow) : bool :=
  negb (existsb (fun kr => bool_decide (ar_task_id kr.2 = ar_task_id r) && ask_pending kr.2) (map_to_list m)).

Definition nonce_unused (h : bytes) (m : gmap Z AskRow) : bool :=
  negb (existsb (fun kr => bytes_eqb (ar_nonce_sha256 kr.2) h) (map_to_list m)).

Definition options_ok (v : Value) : bool :=
  match v with Array (_ :: _) => true | _ => false end.

Definition opt_has_nul (o : option bytes) : bool := match o with Some s => has_nul s | None => false end.

(** The INSERT: a NUL is refused when the statement is bound, the constraints
    after the key was drawn. *)
Definition insert_ask (r : AskRow) (db : Db) : result Z DbError * Db :=
  if has_nul (ar_kind r) || json_contains_nul (ar_options r) || opt_has_nul (ar_plan_digest r)
  then (Err (query_error (bs "asks raise insert")), db)
  else
    let id := db_ask_seq db in
    if bool_decide (ar_kind r = ASK_KIND_PLAN_APPROVAL) && options_ok (ar_options r)
       && (ar_created_at r <? ar_deadline_at r) && one_pending_per_task r (db_asks db)
       && nonce_unused (ar_nonce_sha256 r) (db_asks db)
    then (Ok id, mkDb (db_tasks db) (<[id := r]> (db_asks db)) (db_task_seq db) (id + 1))
    else (Err (query_error (bs "asks raise insert")), mkDb (db_tasks db) (db_asks db) (db_task_seq db) (id + 1)).

Definition escape_resume (v : option Value) : option Value :=
  match v with
  | Some v => if json_contains_nul v then (escape_opt_json (Some v)).1 else Some v
  | None => None
  end.

Definition not_running_error (id : Z) (state : bytes) : DbError :=
  bs "asks raise: task " ++ show_z id ++ bs " is in state '" ++ state
  ++ bs "', not 'running', so it cannot be suspended for an ask (already suspended on another ask, terminal, cancelled, or never claimed)".

Section Nonces.
Context `{Sha256}.

Definition nonce_sha256 (nonce : bytes) : bytes := sha256_hex (sha256 nonce).

Definition raise (drawn : bytes) (task_id : Z) (kind body : bytes) (options : Value) (digest : option bytes)
    (deadline_at : Z) (resume_state : option Value) (now : Z) (db : Db) : result RaisedAsk DbError * Db :=
  let nonce := generate_nonce drawn in
  match suspend_for_ask task_id now db with
  | None => (Err (not_running_error task_id (default (bs "<no such task>") (state_in_tx task_id db))), db)
  | Some db1 =>
      let r := mkAskRow task_id kind (escape_str body).1 options digest (nonce_sha256 nonce) now deadline_at
                 (escape_resume resume_state) AoPending in
      match insert_ask r db1 with
      | (Ok ask_id, db2) => (Ok (mkRaised ask_id nonce), db2)
      | (Err e, db2) => (Err e, mkDb (db_tasks db) (db_asks db) (db_task_seq db) (db_ask_seq db2))
      end
  end.

(** The choice must be one of the options the ask offered. *)
Definition reject_choice_outside_options (options : Value) (ask_id : Z) (res : Value) : result () DbError :=
  match get RESOLUTION_CHOICE_KEY res ≫= as_str with
  | None =>
      Err (bs "asks resolve: ask " ++ show_z ask_id
           ++ bs " resolution must be an object with a string `choice`; refusing to store a decision that names no option")
  | Some choice =>
      match as_array options with
      | None =>
          Err (bs "asks resolve: ask " ++ show_z ask_id
               ++ bs " has a non-array `options`, so no choice can be validated against it")
      | Some offered =>
          if existsb (fun o => bool_decide (as_str o = Some choice)) offered then Ok tt
          else Err (bs "asks resolve: ask " ++ show_z ask_id ++ bs " choice " ++ str_debug choice
                    ++ bs " is not one of the " ++ show_nat (length offered)
                    ++ bs " options it offered — refusing to record a decision the operator was never given")
      end
  end.

(** [db] is the transaction so far, [before] what a rollback restores. *)
Definition finish_resolve (ask_id task_id now : Z) (db before : Db) : result () DbError * Db :=
  match resume_from_ask task_id now db with
  | None =>
      (Err (bs "asks resolve: ask " ++ show_z ask_id ++ bs " was pending but task " ++ show_z task_id
            ++ bs " is not awaiting_operator — refusing to resolve an ask whose task cannot resume"), before)
  | Some db' => (Ok tt, db')
  end.

Definition ask_live (now : Z) (r : AskRow) : bool := ask_pending r && (now <? ar_deadline_at r).

(** The tail of both resolvers, from the guarded UPDATE on; the answer is
    [None] when the UPDATE found no row. *)
Definition resolve_row (ask_id : Z) (guard : AskRow -> bool) (by_ : bytes) (res : Value) (now : Z) (db : Db) :
    result (option Z) DbError * Db :=
  match update_one ask_id guard (close_ask (AoResolved now by_ res)) (db_asks db) with
  | None => (Ok None, db)
  | Some (row, m) =>
      match reject_choice_outside_options (ar_options row) ask_id res with
      | Err e => (Err e, db)
      | Ok _ =>
          match finish_resolve ask_id (ar_task_id row) now (set_asks m db) db with
          | (Ok _, db') => (Ok (Some (ar_task_id row)), db')
          | (Err e, db') => (Err e, db')
          end
      end
  end.

Definition resolve (ask_id : Z) (resolved_by : bytes) (res : Value) (now : Z) (db : Db) : result bool DbError * Db :=
  if has_nul resolved_by || json_contains_nul res then (Err (query_error (bs "asks resolve")), db)
  else
    match resolve_row ask_id (ask_live now) resolved_by res now db with
    | (Ok o, db') => (Ok (bool_decide (is_Some o)), db')
    | (Err e, db') => (Err e, db')
    end.

Definition owns (c : Claimant) (payload : Value) : bool :=
  is_channel_payload payload && text_is (arrow_text (bs "channel") payload) (cl_channel c)
  && text_is (arrow_text (bs "peer") payload) (cl_peer c).

Definition live_ask_for_claimant (c : Claimant) (now : Z) (db : Db) (r : AskRow) : bool :=
  ask_live now r && match db_tasks db !! ar_task_id r with Some t => owns c (tk_payload t) | None => false end.

Definition any_live_nonce_for_claimant (nonces : list bytes) (c : Claimant) (now : Z) (db : Db) : bool :=
  existsb (fun kr => bool_decide (ar_nonce_sha256 kr.2 ∈ map nonce_sha256 nonces) && live_ask_for_claimant c now db kr.2)
    (map_to_list (db_asks db)).

(** The row a nonce's digest selects; [asks_nonce] makes it the only one. *)
Definition ask_of_nonce (h : bytes) (db : Db) : option Z :=
  head (select_where (fun r => bytes_eqb (ar_nonce_sha256 r) h) (db_asks db)).*1.

Record ResolvedAsk := mkResolved { rs_ask_id : Z; rs_task_id : Z }.

Definition resolve_with_nonce (nonce : bytes) (c : Claimant) (res : Value) (now : Z) (db : Db) :
    result (option ResolvedAsk) DbError * Db :=
  if has_nul (cl_channel c) || has_nul (cl_peer c) || json_contains_nul res
  then (Err (query_error (bs "asks resolve_with_nonce")), db)
  else
    match ask_of_nonce (nonce_sha256 nonce) db with
    | None => (Ok None, db)
    | Some ask_id =>
        match resolve_row ask_id (live_ask_for_claimant c now db) (attribution c) res now db with
        | (Ok o, db') => (Ok (mkResolved ask_id <$> o), db')
        | (Err e, db') => (Err e, db')
        end
    end.
End Nonces.

Definition ASK_TIMEOUT_DETAIL : bytes := bs "ask_timeout".

Definition ask_overdue (now : Z) (r : AskRow) : bool := ask_pending r && (ar_deadline_at r <? now).

(** The task side of the sweep, row by row. *)
Fixpoint expire_tasks (rows : list (Z * AskRow)) (now : Z) (db : Db) : list (Z * Z) * Db :=
  match rows with
  | [] => ([], db)
  | (ask_id, r) :: rows' =>
      match fail_awaiting_operator (ar_task_id r) ASK_TIMEOUT_DETAIL now db with
      | Some db1 => let '(out, db2) := expire_tasks rows' now db1 in ((ask_id, ar_task_id r) :: out, db2)
      | None => expire_tasks rows' now db
      end
  end.

Definition expire_due (now : Z) (db : Db) : list (Z * Z) * Db :=
  let '(rows, m) := update_all (ask_overdue now) (close_ask AoExpired) (db_asks db) in
  expire_tasks rows now (set_asks m db).

Definition list_pending (n : Z) (db : Db) : list Ask :=
  map (fun kr => decode_ask_row kr.1 kr.2)
    (limit n (order_by (fun a b =>
        (ar_created_at a.2 <? ar_created_at b.2)
        || ((ar_created_at a.2 =? ar_created_at b.2) && (a.1 <=? b.1))) (select_where ask_pending (db_asks db)))).

Definition resolved_at (r : AskRow) : Z := match ar_outcome r with AoResolved at_ _ _ => at_ | _ => 0 end.

Definition resolved_for_task (id : Z) (db : Db) : list Ask :=
  map (fun kr => decode_ask_row kr.1 kr.2)
    (order_by (fun a b =>
       (resolved_at b.2 <? resolved_at a.2) || ((resolved_at a.2 =? resolved_at b.2) && (b.1 <=? a.1)))
      (select_where (fun r => bool_decide (ar_task_id r = id) && bool_decide (ar_state r = AsResolved)) (db_asks db))).

Definition get_ask (id : Z) (db : Db) : option Ask := decode_ask_row id <$> db_asks db !! id.
End Texts.
