(* ===== verification/TaskLifecycle.v ===== *)
(** What the two tables of TaskStore promise, stated on a board where a task and
    its question are one card, and the proof that every sequence of database
    operations follows the board.

    [Op] lists the operations the daemon, the command line and the channels run;
    [spec] says what each does to the board; [database_follows_board] is the
    simulation.  On the board a question without a suspended task, or a suspended
    task without a question, cannot be written down, so the invariants of the
    tables are corollaries. *)

From stdpp Require Import base gmap list sets numbers strings option.
From Stdlib Require Import ZArith Lia.
From S2P Require Import Prelude RustStr Fingerprint HashesWire Json NulRule Cassandra PlanJson Asks LoopPure InnerLoop TaskStore.
Local Open Scope Z_scope.

(** * Operations *)

(** [finalize] as the lane runner calls it: with the state of the run's outcome
    (a suspended run is not finalised), or [completed] for a skill run. *)
Inductive Op :=
| OpInsertPending (lane : Lane) (payload : Value)
| OpClaimOne (locked : Z -> bool) (lane : Lane) (deadline_seconds utc : Z)
| OpFinalize (id : Z) (o : Outcome) (turn : option Value)
| OpFinalizeSkillRun (id : Z) (report : option Value)
| OpCancel (id : Z)
| OpCancelIfPending (id : Z)
| OpFailRunning (id : Z)
| OpSweepCrashed
| OpPlanCount (id n : Z)
| OpClaimReply (id : Z) (d : ReplyDisposition)
| OpRaise (drawn : bytes) (id : Z) (kind body : bytes) (options : Value) (digest : option bytes) (deadline_at : Z)
    (resume_state : option Value)
| OpResolve (k : Z) (by_ : bytes) (res : Value)
| OpResolveWithNonce (nonce : bytes) (c : Claimant) (res : Value)
| OpExpireDue.

(** * The board *)

Inductive Phase :=
| Queued
| Active (lease : Z)
| Suspended (k : Z) (q : AskRow)
| Done (s : TaskState).

Record Card := mkCard { c_lane : Lane; c_created : Z; c_payload : Value; c_phase : Phase }.

(** The cards, and the questions that were settled. *)
Record Board := mkBoard { b_cards : gmap Z Card; b_closed : gmap Z AskRow }.

Definition empty_board : Board := mkBoard ∅ ∅.

Definition with_phase (ph : Phase) (c : Card) : Card := mkCard (c_lane c) (c_created c) (c_payload c) ph.
Definition move (id : Z) (ph : Phase) (b : Board) : Board := mkBoard (alter (with_phase ph) id (b_cards b)) (b_closed b).
Definition close (k : Z) (r : AskRow) (b : Board) : Board := mkBoard (b_cards b) (<[k := r]> (b_closed b)).
Definition phase_at (id : Z) (b : Board) : option Phase := c_phase <$> b_cards b !! id.

Definition outcome_state (o : Outcome) : option TaskState := final_state o ≫= state_check.

(** A queued card on the lane that no other transaction holds. *)
Definition waiting (locked : Z -> bool) (lane : Lane) (b : Board) (id : Z) (c : Card) : Prop :=
  b_cards b !! id = Some c /\ c_phase c = Queued /\ c_lane c = lane /\ locked id = false.

Definition crash_card (now : Z) (c : Card) : Card :=
  match c_phase c with
  | Active lease => if lease <? now then with_phase (Done TsCrashed) c else c
  | _ => c
  end.

Definition expire_card (now : Z) (c : Card) : Card :=
  match c_phase c with
  | Suspended _ q => if ar_deadline_at q <? now then with_phase (Done TsFailed) c else c
  | _ => c
  end.

(** A question was on the board, open or settled. *)
Definition asked (b : Board) (k : Z) (q : AskRow) : Prop :=
  b_closed b !! k = Some q \/ exists id, phase_at id b = Some (Suspended k q).

Section Spec.
Context `{Text} `{Sha256}.

Definition apply_op (now : Z) (o : Op) (db : Db) : Db :=
  match o with
  | OpInsertPending lane payload => (insert_pending lane payload now db).2
  | OpClaimOne locked lane deadline_seconds utc => (claim_one locked lane deadline_seconds utc now db).2
  | OpFinalize id o turn =>
      match final_state o with
      | Some state => (finalize id state (result_payload o) turn now db).2
      | None => db
      end
  | OpFinalizeSkillRun id report => (finalize id (bs "completed") report None now db).2
  | OpCancel id => (mark_cancelled id now db).2
  | OpCancelIfPending id => (mark_cancelled_if_pending id now db).2
  | OpFailRunning id => (mark_failed_running id now db).2
  | OpSweepCrashed => (sweep_crashed now db).2
  | OpPlanCount id n => increment_plan_count id n now db
  | OpClaimReply id d => (claim_reply id d now db).2
  | OpRaise drawn id kind body options digest deadline_at resume_state =>
      (raise drawn id kind body options digest deadline_at resume_state now db).2
  | OpResolve k by_ res => (resolve k by_ res now db).2
  | OpResolveWithNonce nonce c res => (resolve_with_nonce nonce c res now db).2
  | OpExpireDue => (expire_due now db).2
  end.

(** Any sequence of operations, each at its own instant. *)
Definition run_ops (l : list (Z * Op)) (db : Db) : Db := fold_left (fun db o => apply_op o.1 o.2 db) l db.

(** The question [raise] asks, and when the table takes it. *)
Definition question (drawn : bytes) (id : Z) (kind body : bytes) (options : Value) (digest : option bytes)
    (deadline_at : Z) (resume_state : option Value) (now : Z) : AskRow :=
  mkAskRow id kind (escape_str body).1 options digest (nonce_sha256 (generate_nonce drawn)) now deadline_at
    (escape_resume resume_state) AoPending.

Definition well_posed (q : AskRow) : Prop :=
  ar_kind q = ASK_KIND_PLAN_APPROVAL /\ options_ok (ar_options q) = true /\ json_contains_nul (ar_options q) = false
  /\ opt_has_nul (ar_plan_digest q) = false /\ ar_created_at q < ar_deadline_at q.

Definition offers (options res : Value) : Prop :=
  exists choice offered, get RESOLUTION_CHOICE_KEY res = Some (String choice)
    /\ options = Array offered /\ String choice ∈ offered.

(** The question is still open at [now] and the answer is one it offered. *)
Definition answerable (now : Z) (by_ : bytes) (res : Value) (q : AskRow) : Prop :=
  now < ar_deadline_at q /\ has_nul by_ = false /\ json_contains_nul res = false /\ offers (ar_options q) res.

Definition answer (id k now : Z) (by_ : bytes) (res : Value) (q : AskRow) (b : Board) : Board :=
  close k (close_ask (AoResolved now by_ res) q) (move id Queued b).

(** The claimant holds the nonce of a question whose task it owns. *)
Definition entitled (nonce : bytes) (cl : Claimant) (b : Board) (id : Z) (q : AskRow) : Prop :=
  ar_nonce_sha256 q = nonce_sha256 nonce /\ exists c, b_cards b !! id = Some c /\ owns cl (c_payload c) = true.

(** An answer that [ok] admits settles its question; no other changes anything. *)
Definition answers (now : Z) (by_ : bytes) (res : Value) (ok : Z -> Z -> AskRow -> Prop) (b b' : Board) : Prop :=
  let admitted id k q := phase_at id b = Some (Suspended k q) /\ ok id k q /\ answerable now by_ res q in
  (exists id k q, admitted id k q /\ b' = answer id k now by_ res q b)
  \/ ((forall id k q, ~ admitted id k q) /\ b' = b).

Definition spec (now : Z) (o : Op) (b b' : Board) : Prop :=
  match o with
  | OpInsertPending lane payload =>
      if json_contains_nul payload then b' = b
      else exists id, b_cards b !! id = None
             /\ b' = mkBoard (<[id := mkCard lane now payload Queued]> (b_cards b)) (b_closed b)
  | OpClaimOne locked lane deadline_seconds utc =>
      (exists id c, waiting locked lane b id c
         /\ (forall id' c', waiting locked lane b id' c' -> c_created c <= c_created c')
         /\ b' = move id (Active (utc + deadline_seconds * 1000000000)) b)
      \/ ((forall id c, ~ waiting locked lane b id c) /\ b' = b)
  | OpFinalize id o _ =>
      b' = match outcome_state o, phase_at id b with
           | Some s, Some (Active _) => move id (Done s) b
           | _, _ => b
           end
  | OpFinalizeSkillRun id _ => b' = match phase_at id b with Some (Active _) => move id (Done TsCompleted) b | _ => b end
  | OpCancel id =>
      b' = match phase_at id b with
           | Some Queued | Some (Active _) => move id (Done TsCancelled) b
           | Some (Suspended k q) => close k (close_ask AoCancelled q) (move id (Done TsCancelled) b)
           | _ => b
           end
  | OpCancelIfPending id => b' = match phase_at id b with Some Queued => move id (Done TsCancelled) b | _ => b end
  | OpFailRunning id =>
      b' = match phase_at id b with
           | Some (Active lease) => if now <? lease then move id (Done TsCrashed) b else b
           | _ => b
           end
  | OpSweepCrashed => b' = mkBoard (crash_card now <$> b_cards b) (b_closed b)
  | OpPlanCount _ _ | OpClaimReply _ _ => b' = b
  | OpRaise drawn id kind body options digest deadline_at resume_state =>
      let q := question drawn id kind body options digest deadline_at resume_state now in
      let accepted := (exists lease, phase_at id b = Some (Active lease)) /\ well_posed q
                      /\ (forall k' q', asked b k' q' -> ar_nonce_sha256 q' <> ar_nonce_sha256 q) in
      (accepted /\ exists k, (forall q', ~ asked b k q') /\ b' = move id (Suspended k q) b)
      \/ (~ accepted /\ b' = b)
  | OpResolve k by_ res => answers now by_ res (fun _ k' _ => k' = k) b b'
  | OpResolveWithNonce nonce c res => answers now (attribution c) res (fun id _ q => entitled nonce c b id q) b b'
  | OpExpireDue =>
      b_cards b' = expire_card now <$> b_cards b
      /\ (forall k r, b_closed b' !! k = Some r <->
           b_closed b !! k = Some r
           \/ exists id q, phase_at id b = Some (Suspended k q) /\ ar_deadline_at q < now /\ r = close_ask AoExpired q)
  end.

(** A run of the board, one step per operation. *)
Inductive board_run : list (Z * Op) -> Board -> Board -> Prop :=
| run_nil b : board_run [] b b
| run_cons now o l b b1 b2 : spec now o b b1 -> board_run l b1 b2 -> board_run ((now, o) :: l) b b2.
End Spec.

(** * The simulation relation *)

Definition shows (t : Task) (c : Card) : Prop :=
  tk_lane t = c_lane c /\ tk_created_at t = c_created c /\ tk_payload t = c_payload c /\
  match c_phase c with
  | Queued => tk_state t = TsPending
  | Active lease => tk_state t = TsRunning /\ tk_lease_expires_at t = Some lease
  | Suspended _ _ => tk_state t = TsAwaitingOperator
  | Done s => tk_state t = s /\ is_terminal s = true
  end.

Record refines (db : Db) (b : Board) : Prop := mkRefines {
  rf_cards id : option_Forall2 shows (db_tasks db !! id) (b_cards b !! id);
  rf_open id k q : phase_at id b = Some (Suspended k q) ->
    db_asks db !! k = Some q /\ ask_pending q = true /\ ar_task_id q = id;
  rf_asks k r : db_asks db !! k = Some r -> ask_pending r = true ->
    phase_at (ar_task_id r) b = Some (Suspended k r);
  rf_closed k r : b_closed b !! k = Some r <-> db_asks db !! k = Some r /\ ask_pending r = false;
  rf_task_seq id t : db_tasks db !! id = Some t -> id < db_task_seq db;
  rf_ask_seq k r : db_asks db !! k = Some r -> k < db_ask_seq db;
  rf_nonce k k' r r' : db_asks db !! k = Some r -> db_asks db !! k' = Some r' ->
    ar_nonce_sha256 r = ar_nonce_sha256 r' -> k = k' }.

Definition suspended (ph : Phase) : bool := match ph with Suspended _ _ => true | _ => false end.

(** * Lemmas *)

Lemma phase_move id ph b id' :
  phase_at id' (move id ph b) = if decide (id' = id) then (fun _ => ph) <$> phase_at id b else phase_at id' b.
Proof.
  unfold phase_at, move. cbn [b_cards]. destruct (decide (id' = id)) as [->|Hne].
  - rewrite lookup_alter_eq. by destruct (b_cards b !! id).
  - by rewrite lookup_alter_ne.
Qed.

Lemma phase_close id k r b : phase_at id (close k r b) = phase_at id b.
Proof. done. Qed.

Lemma refines_card db b id t :
  refines db b -> db_tasks db !! id = Some t -> exists c, b_cards b !! id = Some c /\ shows t c.
Proof. intros Hr Ht. pose proof (rf_cards _ _ Hr id) as Hf. rewrite Ht in Hf. inversion Hf; eauto. Qed.

Lemma refines_row db b id c :
  refines db b -> b_cards b !! id = Some c -> exists t, db_tasks db !! id = Some t /\ shows t c.
Proof. intros Hr Hc. pose proof (rf_cards _ _ Hr id) as Hf. rewrite Hc in Hf. inversion Hf; eauto. Qed.

Lemma refines_no_card db b id : refines db b -> db_tasks db !! id = None -> b_cards b !! id = None.
Proof. intros Hr Ht. pose proof (rf_cards _ _ Hr id) as Hf. rewrite Ht in Hf. by inversion Hf. Qed.

Lemma phase_card id b c : b_cards b !! id = Some c -> phase_at id b = Some (c_phase c).
Proof. unfold phase_at. by intros ->. Qed.

(** The state column of a row is the phase of its card. *)
Lemma shows_phase t c :
  shows t c ->
  match c_phase c with
  | Queued => tk_state t = TsPending
  | Active lease => tk_state t = TsRunning /\ tk_lease_expires_at t = Some lease
  | Suspended _ _ => tk_state t = TsAwaitingOperator
  | Done s => tk_state t = s /\ is_terminal s = true
  end.
Proof. by intros (_ & _ & _ & H). Qed.

Lemma shows_with t c t' ph :
  shows t c -> tk_lane t' = tk_lane t -> tk_created_at t' = tk_created_at t -> tk_payload t' = tk_payload t ->
  shows t' (with_phase ph c) <->
  match ph with
  | Queued => tk_state t' = TsPending
  | Active lease => tk_state t' = TsRunning /\ tk_lease_expires_at t' = Some lease
  | Suspended _ _ => tk_state t' = TsAwaitingOperator
  | Done s => tk_state t' = s /\ is_terminal s = true
  end.
Proof. intros (H1 & H2 & H3 & _) E1 E2 E3. unfold shows, with_phase. cbn. rewrite E1, E2, E3. naive_solver. Qed.

Ltac lookup_cases k k' :=
  destruct (decide (k = k')) as [->|?];
  [rewrite ?lookup_insert_eq, ?lookup_alter_eq in *|rewrite ?lookup_insert_ne, ?lookup_alter_ne in * by done].

(** One row changes, and its card moves between two phases without a question. *)
Lemma refines_move db b id t t' c ph :
  refines db b -> db_tasks db !! id = Some t -> b_cards b !! id = Some c ->
  suspended (c_phase c) = false -> suspended ph = false -> shows t' (with_phase ph c) ->
  refines (set_tasks (<[id := t']> (db_tasks db)) db) (move id ph b).
Proof.
  intros Hr Ht Hc Hs Hs' Hsh. pose proof (phase_card _ _ _ Hc) as Hp. split; cbn [db_tasks db_asks set_tasks db_task_seq db_ask_seq].
  - intros i. unfold move. cbn [b_cards]. lookup_cases i id; [|apply (rf_cards _ _ Hr)]. rewrite Hc. by constructor.
  - intros i k q. rewrite phase_move. destruct (decide (i = id)) as [->|]; [|apply (rf_open _ _ Hr)].
    rewrite Hp. cbn. intros [= ->]. done.
  - intros k r Hk Hpend. rewrite phase_move. pose proof (rf_asks _ _ Hr k r Hk Hpend) as Ho.
    destruct (decide (ar_task_id r = id)) as [Hid|]; [|done]. rewrite Hid, Hp in Ho. injection Ho as Ho. by rewrite Ho in Hs.
  - apply (rf_closed _ _ Hr).
  - intros i u. lookup_cases i id; [|apply (rf_task_seq _ _ Hr)]. intros _. by apply (rf_task_seq _ _ Hr id t).
  - apply (rf_ask_seq _ _ Hr).
  - apply (rf_nonce _ _ Hr).
Qed.

(** One row changes in columns the board does not show. *)
Lemma refines_touch db b id t t' :
  refines db b -> db_tasks db !! id = Some t ->
  (forall c, shows t c -> shows t' c) -> refines (set_tasks (<[id := t']> (db_tasks db)) db) b.
Proof.
  intros Hr Ht Hsh. split; cbn [db_tasks db_asks set_tasks db_task_seq db_ask_seq]; try apply Hr.
  - intros i. lookup_cases i id; [|apply (rf_cards _ _ Hr)].
    pose proof (rf_cards _ _ Hr id) as Hf. rewrite Ht in Hf. inversion Hf; subst. constructor. auto.
  - intros i u. lookup_cases i id; [|apply (rf_task_seq _ _ Hr)]. intros _. by apply (rf_task_seq _ _ Hr id t).
Qed.

(** A question is settled and its card moves on. *)
Lemma refines_close db b id k q o t t' c ph :
  refines db b -> db_tasks db !! id = Some t -> b_cards b !! id = Some c -> c_phase c = Suspended k q ->
  suspended ph = false -> shows t' (with_phase ph c) -> o <> AoPending ->
  refines (set_asks (<[k := close_ask o q]> (db_asks db)) (set_tasks (<[id := t']> (db_tasks db)) db))
    (close k (close_ask o q) (move id ph b)).
Proof.
  intros Hr Ht Hc Hph Hs' Hsh Ho. pose proof (phase_card _ _ _ Hc) as Hp. rewrite Hph in Hp.
  destruct (rf_open _ _ Hr _ _ _ Hp) as (Hk & Hpend & Hid).
  assert (Hcl : ask_pending (close_ask o q) = false) by (destruct o; done).
  split; cbn [db_tasks db_asks set_tasks set_asks db_task_seq db_ask_seq].
  - intros i. unfold move, close. cbn [b_cards]. lookup_cases i id; [|apply (rf_cards _ _ Hr)]. rewrite Hc. by constructor.
  - intros i k' q'. rewrite phase_close, phase_move. destruct (decide (i = id)) as [->|Hne].
    + rewrite Hp. cbn. intros [= ->]. done.
    + intros H'. destruct (rf_open _ _ Hr _ _ _ H') as (Hk' & Hp' & Hid'). lookup_cases k' k; [|done]. congruence.
  - intros k' r Hk' Hpend'. rewrite phase_close, phase_move. lookup_cases k' k; [congruence|].
    pose proof (rf_asks _ _ Hr k' r Hk' Hpend') as Ho'.
    destruct (decide (ar_task_id r = id)) as [Hid'|]; [|done]. rewrite Hid', Hp in Ho'. congruence.
  - intros k' r. unfold close. cbn [b_closed]. lookup_cases k' k.
    + split; [by intros [= <-]|by intros [[= <-] _]].
    + apply (rf_closed _ _ Hr).
  - intros i u. lookup_cases i id; [|apply (rf_task_seq _ _ Hr)]. intros _. by apply (rf_task_seq _ _ Hr id t).
  - intros k' r. lookup_cases k' k; [|apply (rf_ask_seq _ _ Hr)]. intros _. by apply (rf_ask_seq _ _ Hr k q).
  - intros k1 k2 r1 r2. lookup_cases k1 k; lookup_cases k2 k; [done| | |apply (rf_nonce _ _ Hr)].
    + intros [= <-] H2 E. by apply (rf_nonce _ _ Hr k k2 q r2).
    + intros H1 [= <-] E. by apply (rf_nonce _ _ Hr k1 k r1 q).
Qed.

Lemma update_one_Some {A} k p f (m : gmap Z A) r' m' :
  update_one k p f m = Some (r', m') <-> exists r, m !! k = Some r /\ p r = true /\ r' = f r /\ m' = <[k := f r]> m.
Proof.
  unfold update_one. destruct (m !! k) as [r|]; [destruct (p r) eqn:E|]; split.
  - intros [= <- <-]. by exists r.
  - by intros (x & [= <-] & _ & -> & ->).
  - done.
  - intros (x & [= <-] & Hp & _). congruence.
  - done.
  - by intros (x & ? & _).
Qed.

Lemma update_one_None {A} k p f (m : gmap Z A) :
  update_one k p f m = None <-> forall r, m !! k = Some r -> p r = false.
Proof.
  unfold update_one. destruct (m !! k) as [r|]; [destruct (p r) eqn:E|]; split; try done.
  - intros Hf. specialize (Hf r eq_refl). congruence.
  - by intros _ x [= <-].
Qed.

Lemma in_state_true s t : in_state s t = true <-> tk_state t = s.
Proof. apply bool_decide_eq_true. Qed.

(** The table after one guarded UPDATE. *)
Definition updated {A} (o : option (A * gmap Z Task)) (db : Db) : Db :=
  match o with Some (_, m) => set_tasks m db | None => db end.

(** A guarded UPDATE of one row that moves its card to [ph]. *)
Lemma sim_update db b id p f ph :
  refines db b -> suspended ph = false ->
  (forall t c, shows t c -> p t = true -> suspended (c_phase c) = false /\ shows (f t) (with_phase ph c)) ->
  refines (updated (update_one id p f (db_tasks db)) db)
    (if match db_tasks db !! id with Some t => p t | None => false end then move id ph b else b).
Proof.
  intros Hr Hs Hf. unfold update_one. destruct (db_tasks db !! id) as [t|] eqn:Ht; [|done].
  destruct (p t) eqn:Hp; [|done]. destruct (refines_card _ _ _ _ Hr Ht) as (c & Hc & Hsh).
  destruct (Hf t c Hsh Hp) as [Hs' Hsh']. by apply (refines_move db b id t (f t) c ph).
Qed.

(** Guard of such an UPDATE, read off the card. *)
Ltac by_card Hr id :=
  match goal with
  | |- context [phase_at id ?b] =>
      let t := fresh "t" in let Ht := fresh "Ht" in let c := fresh "c" in let Hc := fresh "Hc" in
      let Hsh := fresh "Hsh" in let s' := fresh "s'" in
      destruct (db_tasks _ !! id) as [t|] eqn:Ht;
      [destruct (refines_card _ _ _ _ Hr Ht) as (c & Hc & Hsh); rewrite (phase_card _ _ _ Hc);
       apply shows_phase in Hsh; unfold in_state; destruct (c_phase c) as [|?lease|?k ?q|s'];
       [rewrite ?Hsh|destruct Hsh as [Hsh ?Hl]; rewrite ?Hsh|rewrite ?Hsh
       |destruct Hsh as [Hsh ?Hterm]; rewrite ?Hsh; destruct s'; try discriminate]
      |pose proof (refines_no_card _ _ _ Hr Ht) as Hc; unfold phase_at; rewrite Hc]
  end.

Lemma shows_state_phase t c s :
  shows t c -> tk_state t = s ->
  match s with
  | TsPending => c_phase c = Queued
  | TsRunning => exists lease, c_phase c = Active lease /\ tk_lease_expires_at t = Some lease
  | TsAwaitingOperator => suspended (c_phase c) = true
  | s => c_phase c = Done s
  end.
Proof.
  intros Hsh <-. apply shows_phase in Hsh. destruct (c_phase c) as [|lease|k q|s'].
  - by rewrite Hsh.
  - destruct Hsh as [-> ?]. eauto.
  - by rewrite Hsh.
  - destruct Hsh as [Hs Ht]. rewrite Hs. by destruct s'.
Qed.

Lemma outcome_state_terminal o s : outcome_state o = Some s -> is_terminal s = true.
Proof. destruct o; vm_compute; naive_solver. Qed.

Section Simulation.
Context `{Text} `{Sha256}.

Lemma sim_insert lane payload now db b :
  refines db b -> exists b', spec now (OpInsertPending lane payload) b b' /\ refines (insert_pending lane payload now db).2 b'.
Proof.
  intros Hr. unfold insert_pending, refuse_nul_in_json. cbn [spec]. destruct (json_contains_nul payload); [by exists b|].
  cbn [snd]. assert (Hn : db_tasks db !! db_task_seq db = None).
  { destruct (_ !! _) eqn:E; [|done]. apply (rf_task_seq _ _ Hr) in E. lia. }
  pose proof (refines_no_card _ _ _ Hr Hn) as Hb. eexists. split; [by exists (db_task_seq db)|].
  assert (Hph : forall i, phase_at i (mkBoard (<[db_task_seq db := mkCard lane now payload Queued]> (b_cards b)) (b_closed b))
                  = if decide (i = db_task_seq db) then Some Queued else phase_at i b).
  { intros i. unfold phase_at. cbn [b_cards]. destruct (decide (i = db_task_seq db)) as [->|];
      [by rewrite lookup_insert_eq|by rewrite lookup_insert_ne]. }
  split; cbn [db_tasks db_asks db_task_seq db_ask_seq b_closed]; try apply Hr.
  - intros i. cbn [b_cards]. lookup_cases i (db_task_seq db); [|apply (rf_cards _ _ Hr)]. constructor. by repeat split.
  - intros i k q. rewrite Hph. destruct (decide _); [done|]. apply (rf_open _ _ Hr).
  - intros k r Hk Hp. pose proof (rf_asks _ _ Hr k r Hk Hp) as Ho. rewrite Hph. destruct (decide _) as [E|]; [|done].
    unfold phase_at in Ho. rewrite E, Hb in Ho. done.
  - intros i u. lookup_cases i (db_task_seq db); [lia|]. intros Hu%(rf_task_seq _ _ Hr). lia.
Qed.

Lemma finalize_updated id s res turn now db :
  (finalize id (state_as_sql s) res turn now db).2
  = updated (update_one id (in_state TsRunning)
      (fun t => with_result (finish_as s now t) (escape_opt_json res).1 (escape_opt_json turn).1) (db_tasks db)) db.
Proof.
  unfold finalize. assert (state_check (state_as_sql s) = Some s) as -> by by destruct s.
  by destruct (update_one _ _ _ _) as [[]|].
Qed.

(** A running task's terminal write. *)
Lemma sim_finalize id s res turn now db b :
  refines db b -> is_terminal s = true ->
  refines (finalize id (state_as_sql s) res turn now db).2
    (match phase_at id b with Some (Active _) => move id (Done s) b | _ => b end).
Proof.
  intros Hr Hs. rewrite finalize_updated.
  pose proof (sim_update db b id (in_state TsRunning)
    (fun t => with_result (finish_as s now t) (escape_opt_json res).1 (escape_opt_json turn).1) (Done s) Hr eq_refl) as Hsim.
  ospecialize* Hsim.
  { intros t c Hsh Hp%in_state_true. destruct (shows_state_phase _ _ _ Hsh Hp) as (l & Hl & _). rewrite Hl.
    split; [done|]. by apply (shows_with t). }
  revert Hsim. by_card Hr id; done.
Qed.
(** ** Claiming *)

Lemma elem_select_where {A} (p : A -> bool) m k r : (k, r) ∈ select_where p m <-> m !! k = Some r /\ p r = true.
Proof.
  unfold select_where. rewrite list_elem_of_In, filter_In, <- list_elem_of_In, elem_of_map_to_list. done.
Qed.

Lemma oldest_Some l x : oldest l = Some x -> x ∈ l /\ forall y, y ∈ l -> tk_created_at x.2 <= tk_created_at y.2.
Proof.
  revert x. induction l as [|a l IH]; intros x; simpl; [done|]. destruct (oldest l) as [y|] eqn:E.
  - destruct (IH y eq_refl) as [Hy Hmin]. destruct (Z.leb_spec (tk_created_at a.2) (tk_created_at y.2)); intros [= <-].
    + split; [apply list_elem_of_here|]. intros z [->|Hz]%elem_of_cons; [lia|]. specialize (Hmin z Hz). lia.
    + split; [by apply list_elem_of_further|]. intros z [->|Hz]%elem_of_cons; [lia|]. by apply Hmin.
  - intros [= <-]. destruct l as [|b l]; [|simpl in E; by destruct (oldest l) as [z|]; [destruct (_ <=? _)|]].
    split; [apply list_elem_of_here|]. intros z [->|Hz%not_elem_of_nil]%elem_of_cons; [lia|done].
Qed.

Lemma oldest_None l : oldest l = None -> l = [].
Proof. destruct l as [|a l]; [done|]. simpl. destruct (oldest l); [by case_match|done]. Qed.

(** The queue [claim_one] scans is the waiting cards. *)
Lemma waiting_queue db b locked lane id t :
  refines db b ->
  (id, t) ∈ List.filter (fun kt => negb (locked kt.1))
              (select_where (fun t => bool_decide (tk_lane t = lane) && in_state TsPending t) (db_tasks db)) <->
  db_tasks db !! id = Some t /\ exists c, waiting locked lane b id c /\ shows t c.
Proof.
  intros Hr. rewrite list_elem_of_In, filter_In, <- list_elem_of_In, elem_select_where. cbn [fst]. split.
  - intros [[Ht [Hl%bool_decide_eq_true Hp%in_state_true]%andb_true_iff] Hk%negb_true_iff]. split; [done|].
    destruct (refines_card _ _ _ _ Hr Ht) as (c & Hc & Hsh). exists c. split; [|done].
    pose proof (shows_state_phase _ _ _ Hsh Hp). repeat split; try done. by destruct Hsh as (<- & _).
  - intros (Ht & c & (Hc & Hq & Hl & Hk) & Hsh). split; [split; [done|]|by apply negb_true_iff].
    pose proof (shows_phase _ _ Hsh) as Hst. rewrite Hq in Hst. apply andb_true_iff. split; [|by apply in_state_true].
    apply bool_decide_eq_true. destruct Hsh as (-> & _). done.
Qed.

Lemma sim_claim locked lane deadline_seconds utc now db b :
  refines db b ->
  exists b', spec now (OpClaimOne locked lane deadline_seconds utc) b b' /\
    refines (claim_one locked lane deadline_seconds utc now db).2 b'.
Proof.
  intros Hr. unfold claim_one. destruct (oldest _) as [[id t]|] eqn:E; cbn [snd spec].
  - apply oldest_Some in E as [(Ht & c & Hw & Hsh)%(waiting_queue _ _ _ _ _ _ Hr) Hmin].
    eexists. split.
    + left. exists id, c. split; [done|]. split; [|done]. intros id' c' Hw'.
      destruct (refines_row _ _ _ _ Hr (proj1 Hw')) as (t' & Ht' & Hsh').
      destruct Hsh as (_ & <- & _). pose proof Hsh' as (_ & <- & _).
      apply (Hmin (id', t')). apply (waiting_queue _ _ _ _ _ _ Hr). eauto.
    + destruct Hw as (Hc & Hq & _). apply (refines_move db b id t _ c); try done; [by rewrite Hq|by apply (shows_with t)].
  - exists b. split; [|done]. right. split; [|done]. intros id c Hw.
    destruct (refines_row _ _ _ _ Hr (proj1 Hw)) as (t & Ht & Hsh). apply oldest_None in E.
    assert ((id, t) ∈ @nil (Z * Task)) as []%not_elem_of_nil. rewrite <- E. apply (waiting_queue _ _ _ _ _ _ Hr). eauto.
Qed.

(** ** Terminal writes *)

Lemma sim_finish_as id s g now db b (hit : Phase -> bool) :
  refines db b -> is_terminal s = true ->
  (forall t c, shows t c -> g t = true -> suspended (c_phase c) = false) ->
  (forall t c, shows t c -> g t = hit (c_phase c)) ->
  refines (updated (update_one id g (finish_as s now) (db_tasks db)) db)
    (match phase_at id b with Some ph => if hit ph then move id (Done s) b else b | None => b end).
Proof.
  intros Hr Hs Hg Hh. pose proof (sim_update db b id g (finish_as s now) (Done s) Hr eq_refl) as Hsim.
  ospecialize* Hsim.
  { intros t c Hsh Hp. split; [by apply (Hg t)|]. by apply (shows_with t). }
  destruct (db_tasks db !! id) as [t|] eqn:Ht.
  - destruct (refines_card _ _ _ _ Hr Ht) as (c & Hc & Hsh). rewrite (phase_card _ _ _ Hc), <- (Hh t c Hsh). done.
  - unfold phase_at. by rewrite (refines_no_card _ _ _ Hr Ht).
Qed.

Lemma sim_cancel_if_pending id now db b :
  refines db b ->
  refines (mark_cancelled_if_pending id now db).2
    (match phase_at id b with Some Queued => move id (Done TsCancelled) b | _ => b end).
Proof.
  intros Hr. replace (mark_cancelled_if_pending id now db).2
    with (updated (update_one id (in_state TsPending) (finish_as TsCancelled now) (db_tasks db)) db)
    by (unfold mark_cancelled_if_pending; by destruct (update_one _ _ _ _) as [[]|]).
  pose proof (sim_finish_as id TsCancelled (in_state TsPending) now db b
                (fun ph => match ph with Queued => true | _ => false end) Hr eq_refl) as Hsim.
  ospecialize* Hsim.
  - intros t c Hsh Hp%in_state_true. by rewrite (shows_state_phase _ _ _ Hsh Hp).
  - intros t c Hsh. apply shows_phase in Hsh. unfold in_state. destruct (c_phase c) as [|l|k q|s]; [by rewrite Hsh|..].
    + by destruct Hsh as [-> _].
    + by rewrite Hsh.
    + destruct Hsh as [-> Hs]. by destruct s.
  - by destruct (phase_at id b) as [[]|].
Qed.

Lemma sim_fail_running id now db b :
  refines db b ->
  refines (mark_failed_running id now db).2
    (match phase_at id b with
     | Some (Active lease) => if now <? lease then move id (Done TsCrashed) b else b
     | _ => b
     end).
Proof.
  intros Hr. replace (mark_failed_running id now db).2
    with (updated (update_one id (fun t => in_state TsRunning t && lease_after now t) (finish_as TsCrashed now) (db_tasks db)) db)
    by (unfold mark_failed_running; by destruct (update_one _ _ _ _) as [[]|]).
  pose proof (sim_finish_as id TsCrashed (fun t => in_state TsRunning t && lease_after now t) now db b
                (fun ph => match ph with Active l => now <? l | _ => false end) Hr eq_refl) as Hsim.
  ospecialize* Hsim.
  - intros t c Hsh [Hp%in_state_true _]%andb_true_iff. by destruct (shows_state_phase _ _ _ Hsh Hp) as (l & -> & _).
  - intros t c Hsh. apply shows_phase in Hsh. unfold in_state, lease_after. destruct (c_phase c) as [|l|k q|s]; [by rewrite Hsh|..].
    + by destruct Hsh as [-> ->].
    + by rewrite Hsh.
    + destruct Hsh as [-> Hs]. by destruct s.
  - by destruct (phase_at id b) as [[]|].
Qed.

Lemma sim_sweep now db b :
  refines db b -> refines (sweep_crashed now db).2 (mkBoard (crash_card now <$> b_cards b) (b_closed b)).
Proof.
  intros Hr. unfold sweep_crashed. cbn [update_all snd].
  assert (Hph : forall i k q, phase_at i (mkBoard (crash_card now <$> b_cards b) (b_closed b)) = Some (Suspended k q)
                  <-> phase_at i b = Some (Suspended k q)).
  { intros i k q. unfold phase_at. cbn [b_cards]. rewrite lookup_fmap. destruct (b_cards b !! i) as [c|]; [|done].
    cbn. unfold crash_card. destruct (c_phase c) eqn:E; try (by rewrite E).
    destruct (lease <? now); cbn; rewrite ?E; split; done. }
  split; cbn [db_tasks db_asks set_tasks db_task_seq db_ask_seq b_closed b_cards]; try apply Hr.
  - intros i. rewrite !lookup_fmap. destruct (rf_cards _ _ Hr i) as [t c Hsh|]; [|constructor]. constructor.
    pose proof (shows_phase _ _ Hsh) as Hst. unfold in_state, lease_before, crash_card.
    destruct (c_phase c) as [|l|k q|s] eqn:E; [by rewrite Hst| |by rewrite Hst|by destruct Hst as [-> ?], s].
    destruct Hst as [-> ->]. cbn. destruct (l <? now); [|done]. by apply (shows_with t).
  - intros i k q Hi%Hph. by apply (rf_open _ _ Hr).
  - intros k r Hk Hp. apply Hph. by apply (rf_asks _ _ Hr).
  - intros i u. rewrite lookup_fmap. intros (t & Ht & _)%fmap_Some. by apply (rf_task_seq _ _ Hr i t).
Qed.
Lemma sim_plan_count id n now db b : refines db b -> refines (increment_plan_count id n now db) b.
Proof.
  intros Hr. unfold increment_plan_count. destruct (update_one _ _ _ _) as [[t m]|] eqn:E; [|done].
  apply update_one_Some in E as (r & Hr' & _ & _ & ->). by apply (refines_touch db b id r).
Qed.

Lemma sim_claim_reply id d now db b : refines db b -> refines (claim_reply id d now db).2 b.
Proof.
  intros Hr. unfold claim_reply. destruct (update_one _ _ _ _) as [[t m]|] eqn:E; [|done].
  apply update_one_Some in E as (r & Hr' & _ & _ & ->). by apply (refines_touch db b id r).
Qed.

(** ** Cancelling *)

Lemma cancel_none id m :
  (forall k r, m !! k = Some r -> ar_task_id r = id -> ask_pending r = false) -> cancel_for_task id m = (0%nat, m).
Proof.
  intros Hn. assert (Hf : forall k r, m !! k = Some r -> bool_decide (ar_task_id r = id) && ask_pending r = false).
  { intros k r Hk. case_bool_decide; [|done]. by eapply Hn. }
  unfold cancel_for_task, update_all. f_equal.
  - assert (filter (fun kr => bool_decide (ar_task_id kr.2 = id) && ask_pending kr.2 = true) m = ∅) as ->;
      [|by rewrite fmap_empty, map_to_list_empty].
    apply map_empty. intros k. apply map_lookup_filter_None. right. intros r Hk. cbn. by rewrite (Hf k r Hk).
  - apply map_eq. intros k. rewrite lookup_fmap. destruct (m !! k) as [r|] eqn:Hk; [|done]. cbn. by rewrite (Hf k r Hk).
Qed.

Lemma cancel_single id m k q :
  m !! k = Some q -> ask_pending q = true -> ar_task_id q = id ->
  (forall k' r, m !! k' = Some r -> ar_task_id r = id -> ask_pending r = true -> k' = k) ->
  cancel_for_task id m = (1%nat, <[k := close_ask AoCancelled q]> m).
Proof.
  intros Hk Hp Hid Hu. unfold cancel_for_task, update_all.
  assert (Hf : filter (fun kr => bool_decide (ar_task_id kr.2 = id) && ask_pending kr.2 = true) m = {[k := q]}).
  { apply map_eq. intros k'. destruct (decide (k' = k)) as [->|Hne].
    - rewrite lookup_singleton_eq. apply map_lookup_filter_Some. split; [done|]. cbn. by rewrite bool_decide_eq_true_2.
    - rewrite lookup_singleton_ne by done. apply map_lookup_filter_None. right. intros r Hr'. cbn.
      case_bool_decide; [|done]. intros Hp'. apply Hne. by eapply Hu. }
  f_equal; [by rewrite Hf, map_fmap_singleton, map_to_list_singleton|].
  apply map_eq. intros k'. rewrite lookup_fmap. lookup_cases k' k.
  - rewrite Hk. cbn. by rewrite Hp, bool_decide_eq_true_2.
  - destruct (m !! k') as [r|] eqn:Hr'; [|done]. cbn. case_bool_decide as Hid'; [|done].
    destruct (ask_pending r) eqn:Hp'; [|done]. exfalso. eauto.
Qed.

(** A card without a question has no pending ask. *)
Lemma no_pending db b id :
  refines db b -> (forall k q, phase_at id b <> Some (Suspended k q)) ->
  forall k r, db_asks db !! k = Some r -> ar_task_id r = id -> ask_pending r = false.
Proof.
  intros Hr Hn k r Hk <-. destruct (ask_pending r) eqn:Hp; [|done]. by destruct (Hn k r), (rf_asks _ _ Hr k r Hk Hp).
Qed.

Lemma only_pending db b id k q :
  refines db b -> phase_at id b = Some (Suspended k q) ->
  forall k' r, db_asks db !! k' = Some r -> ar_task_id r = id -> ask_pending r = true -> k' = k.
Proof.
  intros Hr Hp k' r Hk' <- Hpend. pose proof (rf_asks _ _ Hr k' r Hk' Hpend) as Ho. congruence.
Qed.

Lemma sim_cancel id now db b :
  refines db b ->
  refines (mark_cancelled id now db).2
    (match phase_at id b with
     | Some Queued | Some (Active _) => move id (Done TsCancelled) b
     | Some (Suspended k q) => close k (close_ask AoCancelled q) (move id (Done TsCancelled) b)
     | _ => b
     end).
Proof.
  intros Hr. destruct (phase_at id b) as [ph|] eqn:Hph.
  2:{ unfold phase_at in Hph. apply fmap_None in Hph. unfold mark_cancelled, update_one.
      destruct (db_tasks db !! id) as [t|] eqn:Ht; [|by destruct (cancel_for_task _ _)].
      destruct (refines_card _ _ _ _ Hr Ht) as (c & Hc & _). congruence. }
  pose proof Hph as (c & Hc & Hcp)%fmap_Some. destruct (refines_row _ _ _ _ Hr Hc) as (t & Ht & Hsh).
  pose proof (shows_phase _ _ Hsh) as Hst. rewrite <- Hcp in Hst.
  destruct (suspended ph) eqn:Hs.
  - destruct ph as [| |k q|]; try done. destruct (rf_open _ _ Hr _ _ _ Hph) as (Hk & Hp & Hid).
    unfold mark_cancelled. rewrite (cancel_single id _ k q Hk Hp Hid (only_pending _ _ _ _ _ Hr Hph)).
    unfold update_one. rewrite Ht. assert (cancellable t = true) as -> by (unfold cancellable, in_state; by rewrite Hst).
    rewrite (cancel_none id (<[k := _]> _)).
    + by apply (refines_close db b id k q AoCancelled t _ c); [..|apply (shows_with t)|].
    + intros k' r. lookup_cases k' k; [by intros [= <-]|]. intros Hk' Hid'.
      destruct (ask_pending r) eqn:Hp'; [|done]. by pose proof (only_pending _ _ _ _ _ Hr Hph k' r Hk' Hid' Hp').
  - assert (Hn : forall k q, phase_at id b <> Some (Suspended k q)) by (rewrite Hph; intros k q [= ->]; done).
    unfold mark_cancelled. rewrite (cancel_none id _ (no_pending _ _ _ Hr Hn)). unfold update_one. rewrite Ht.
    assert (Hcn : cancellable t = match ph with Done _ => false | _ => true end).
    { unfold cancellable, in_state. destruct ph as [|l|k q|s]; [by rewrite Hst|by destruct Hst as [-> _]|done|].
      destruct Hst as [-> Hterm]. by destruct s. }
    destruct (cancellable t) eqn:E; [|by destruct ph].
    rewrite (cancel_none id _ (no_pending _ _ _ Hr Hn)). cbn [snd].
    replace (set_asks (db_asks db) _) with (set_tasks (<[id := finish_as TsCancelled now t]> (db_tasks db)) db) by done.
    destruct ph as [|l|k q|s]; try done;
      apply (refines_move db b id t _ c); try done; try (by rewrite <- Hcp); by apply (shows_with t).
Qed.
(** ** Asking *)

Lemma asked_rows db b k q : refines db b -> asked b k q <-> db_asks db !! k = Some q.
Proof.
  intros Hr. split.
  - intros [[Hk _]%(rf_closed _ _ Hr)|(id & Hp)]; [done|]. by apply (rf_open _ _ Hr id).
  - intros Hk. destruct (ask_pending q) eqn:Hp; [right|left; by apply (rf_closed _ _ Hr)].
    exists (ar_task_id q). by apply (rf_asks _ _ Hr).
Qed.

Lemma refines_seq db b n :
  refines db b -> db_ask_seq db <= n -> refines (mkDb (db_tasks db) (db_asks db) (db_task_seq db) n) b.
Proof.
  intros Hr Hn. split; cbn [db_tasks db_asks db_task_seq db_ask_seq]; try apply Hr.
  intros k r Hk%(rf_ask_seq _ _ Hr). lia.
Qed.

(** An active card is suspended on a new question. *)
Lemma refines_suspend db b id t t' c lease q :
  refines db b -> db_tasks db !! id = Some t -> b_cards b !! id = Some c -> c_phase c = Active lease ->
  shows t' (with_phase (Suspended (db_ask_seq db) q) c) -> ask_pending q = true -> ar_task_id q = id ->
  (forall k r, db_asks db !! k = Some r -> ar_nonce_sha256 r <> ar_nonce_sha256 q) ->
  refines (mkDb (<[id := t']> (db_tasks db)) (<[db_ask_seq db := q]> (db_asks db)) (db_task_seq db) (db_ask_seq db + 1))
    (move id (Suspended (db_ask_seq db) q) b).
Proof.
  intros Hr Ht Hc Hph Hsh Hq Hid Hfresh. pose proof (phase_card _ _ _ Hc) as Hp. rewrite Hph in Hp.
  assert (Hn : db_asks db !! db_ask_seq db = None).
  { destruct (db_asks db !! db_ask_seq db) eqn:E; [|done]. apply (rf_ask_seq _ _ Hr) in E. lia. }
  split; cbn [db_tasks db_asks db_task_seq db_ask_seq].
  - intros i. unfold move. cbn [b_cards]. lookup_cases i id; [|apply (rf_cards _ _ Hr)]. rewrite Hc. by constructor.
  - intros i k q'. rewrite phase_move. destruct (decide (i = id)) as [->|Hne].
    + rewrite Hp. cbn. intros [= <- <-]. by rewrite lookup_insert_eq.
    + intros H'. destruct (rf_open _ _ Hr _ _ _ H') as (Hk' & Hp' & Hid'). lookup_cases k (db_ask_seq db); [congruence|done].
  - intros k r. lookup_cases k (db_ask_seq db).
    + intros [= <-] _. by rewrite phase_move, Hid, decide_True, Hp.
    + intros Hk Hpend. rewrite phase_move. pose proof (rf_asks _ _ Hr k r Hk Hpend) as Ho.
      destruct (decide (ar_task_id r = id)) as [E|]; [|done]. rewrite E, Hp in Ho. done.
  - intros k r. unfold move. cbn [b_closed]. lookup_cases k (db_ask_seq db).
    + split; [intros [Hk _]%(rf_closed _ _ Hr); congruence|intros [[= <-] Hf]; congruence].
    + apply (rf_closed _ _ Hr).
  - intros i u. lookup_cases i id; [|apply (rf_task_seq _ _ Hr)]. intros _. by apply (rf_task_seq _ _ Hr id t).
  - intros k r. lookup_cases k (db_ask_seq db); [lia|]. intros Hk%(rf_ask_seq _ _ Hr). lia.
  - intros k1 k2 r1 r2. lookup_cases k1 (db_ask_seq db); lookup_cases k2 (db_ask_seq db); [done| | |apply (rf_nonce _ _ Hr)].
    + intros [= <-] H2 E. by destruct (Hfresh _ _ H2).
    + intros H1 [= <-] E. by destruct (Hfresh _ _ H1).
Qed.

(** What the INSERT asks of a question. *)
Lemma insert_ask_cases q db :
  (exists db', insert_ask q db = (Ok (db_ask_seq db), db') /\ well_posed q
     /\ db' = mkDb (db_tasks db) (<[db_ask_seq db := q]> (db_asks db)) (db_task_seq db) (db_ask_seq db + 1)
     /\ (forall k r, db_asks db !! k = Some r -> ar_nonce_sha256 r <> ar_nonce_sha256 q))
  \/ (exists e n, insert_ask q db = (Err e, mkDb (db_tasks db) (db_asks db) (db_task_seq db) n) /\ db_ask_seq db <= n
     /\ ~ (well_posed q /\ (forall k r, db_asks db !! k = Some r -> ar_nonce_sha256 r <> ar_nonce_sha256 q)
            /\ (forall k r, db_asks db !! k = Some r -> ar_task_id r = ar_task_id q -> ask_pending r = false))).
Proof.
  unfold insert_ask. destruct (has_nul (ar_kind q) || _ || _) eqn:Hnul.
  { right. eexists _, (db_ask_seq db). split; [by destruct db|]. split; [lia|].
    intros [(Hk & _ & Ho & Hd & _) _]. rewrite Hk, Ho, Hd in Hnul. done. }
  apply orb_false_iff in Hnul as [[_ Ho]%orb_false_iff Hd].
  assert (Hu : nonce_unused (ar_nonce_sha256 q) (db_asks db) = true
               <-> forall k r, db_asks db !! k = Some r -> ar_nonce_sha256 r <> ar_nonce_sha256 q).
  { unfold nonce_unused. rewrite negb_true_iff, <- not_true_iff_false, existsb_exists. split.
    - intros Hn k r Hk E. apply Hn. exists (k, r). split; [by apply list_elem_of_In, elem_of_map_to_list|]. by apply bytes_eqb_eq.
    - intros Hn ([k r] & Hin%list_elem_of_In%elem_of_map_to_list & E%bytes_eqb_eq). by apply (Hn k r). }
  destruct (bool_decide _ && _ && _ && _ && _) eqn:E.
  - repeat (apply andb_true_iff in E as [E ?]). left. eexists. split; [done|].
    apply bool_decide_eq_true in E. rewrite Z.ltb_lt in *. split; [done|]. split; [done|]. by apply Hu.
  - right. eexists _, _. split; [done|]. split; [lia|]. intros ((Hk & Hopt & _ & _ & Hdl) & Hn%Hu & Hone).
    apply not_true_iff_false in E. apply E. rewrite Hopt, Hn, (proj2 (Z.ltb_lt _ _) Hdl), bool_decide_eq_true_2 by done. cbn.
    rewrite andb_true_r. unfold one_pending_per_task. apply negb_true_iff, not_true_iff_false. rewrite existsb_exists.
    intros ([k r] & Hin%list_elem_of_In%elem_of_map_to_list & [Ht%bool_decide_eq_true Hp]%andb_true_iff). cbn in *.
    rewrite (Hone k r) in Hp; done.
Qed.

Lemma sim_raise drawn id kind body options digest deadline_at resume_state now db b :
  refines db b ->
  exists b', spec now (OpRaise drawn id kind body options digest deadline_at resume_state) b b' /\
    refines (raise drawn id kind body options digest deadline_at resume_state now db).2 b'.
Proof.
  intros Hr. cbn [spec]. set (q := question _ _ _ _ _ _ _ _ _). unfold raise, suspend_for_ask.
  destruct (update_one id (in_state TsRunning) _ (db_tasks db)) as [[t' m]|] eqn:E; cbn [mbind option_bind].
  2:{ exists b. split; [|done]. right. split; [|done]. intros [(l & Hp) _].
      apply fmap_Some in Hp as (c & Hc & Hcp). destruct (refines_row _ _ _ _ Hr Hc) as (t & Ht & Hsh%shows_phase).
      rewrite <- Hcp in Hsh. rewrite update_one_None in E. specialize (E t Ht). unfold in_state in E.
      by rewrite (proj1 Hsh) in E. }
  apply update_one_Some in E as (t & Ht & Hrun%in_state_true & Ht' & ->).
  destruct (refines_card _ _ _ _ Hr Ht) as (c & Hc & Hsh).
  destruct (shows_state_phase _ _ _ Hsh Hrun) as (l & Hl & _).
  fold (question drawn id kind body options digest deadline_at resume_state now). fold q.
  assert (Hnp : forall k r, db_asks db !! k = Some r -> ar_task_id r = ar_task_id q -> ask_pending r = false).
  { apply (no_pending db b _ Hr). intros k r. cbn. by rewrite (phase_card _ _ _ Hc), Hl. }
  destruct (insert_ask_cases q (set_tasks (<[id := t']> (db_tasks db)) db))
    as [(db' & E & Hw & -> & Hn)|(e & n & E & Hle & Hnot)]; rewrite <- Ht', E; cbn [snd].
  - eexists. split.
    + left. split; [split; [exists l; by rewrite (phase_card _ _ _ Hc), Hl|split; [done|]]|].
      * intros k' q' Hk'%(asked_rows _ _ _ _ Hr). by eapply Hn.
      * exists (db_ask_seq db). split; [|done]. intros q' Hk%(asked_rows _ _ _ _ Hr)%(rf_ask_seq _ _ Hr). lia.
    + by apply (refines_suspend db b id t t' c l q); [..|rewrite Ht'; apply (shows_with t)| | |].
  - exists b. split; [|by apply refines_seq]. right. split; [|done]. intros (_ & Hw & Hn). apply Hnot.
    split; [done|]. split; [|done]. intros k r Hk. apply (Hn k). by apply (asked_rows _ _ _ _ Hr).
Qed.
(** ** Answering *)

Lemma reject_choice_ok options k res :
  match reject_choice_outside_options options k res with Ok _ => offers options res | Err _ => ~ offers options res end.
Proof.
  unfold reject_choice_outside_options, offers. destruct (get RESOLUTION_CHOICE_KEY res) as [v|] eqn:E; cbn;
    [|intros (c & o & [=] & _)].
  destruct v; cbn; try (intros (c & o & [=] & _); done).
  destruct options; cbn; try (intros (c & o & _ & [=] & _); done).
  destruct (existsb _ _) eqn:Hex.
  - apply existsb_exists in Hex as (o & Hin%list_elem_of_In & Ho%bool_decide_eq_true).
    destruct o; try discriminate Ho. injection Ho as ->. by eexists _, _.
  - intros (c & o & [= <-] & [= <-] & Hin). apply not_true_iff_false in Hex. apply Hex.
    apply existsb_exists. eexists. split; [by apply list_elem_of_In|]. by apply bool_decide_eq_true.
Qed.

(** The three ways through the guarded UPDATE; the fourth, a pending ask whose
    task is not suspended, does not exist. *)
Lemma resolve_row_cases k guard by_ res now db b :
  refines db b -> (forall r, guard r = true -> ask_pending r = true) ->
  (resolve_row k guard by_ res now db = (Ok None, db) /\ forall q, db_asks db !! k = Some q -> guard q = false)
  \/ (exists e, (resolve_row k guard by_ res now db).1 = Err e /\ (resolve_row k guard by_ res now db).2 = db
       /\ forall q, db_asks db !! k = Some q -> ~ offers (ar_options q) res)
  \/ (exists id q db', resolve_row k guard by_ res now db = (Ok (Some id), db')
       /\ phase_at id b = Some (Suspended k q) /\ guard q = true /\ offers (ar_options q) res
       /\ refines db' (answer id k now by_ res q b)).
Proof.
  intros Hr Hg. unfold resolve_row.
  destruct (update_one k guard _ (db_asks db)) as [[q' m]|] eqn:E; [|left; split; [done|apply (proj1 (update_one_None _ _ _ _) E)]].
  apply update_one_Some in E as (q & Hk & Hq & -> & ->). right. cbn [ar_options ar_task_id close_ask].
  pose proof (reject_choice_ok (ar_options q) k res) as Hrej.
  destruct (reject_choice_outside_options _ _ _) as [|e]; [right|left; exists e; naive_solver].
  pose proof (rf_asks _ _ Hr k q Hk (Hg q Hq)) as Hp. pose proof Hp as (c & Hc & Hcp)%fmap_Some.
  destruct (refines_row _ _ _ _ Hr Hc) as (t & Ht & Hsh). pose proof (shows_phase _ _ Hsh) as Hst. rewrite <- Hcp in Hst.
  unfold finish_resolve, resume_from_ask, update_one. cbn [db_tasks set_asks]. rewrite Ht.
  rewrite (proj2 (in_state_true _ _) Hst). cbn [mbind option_bind]. eexists _, q, _. split; [done|].
  split; [done|]. split; [done|]. split; [done|]. unfold answer.
  replace (set_tasks _ _) with (set_asks (<[k := close_ask (AoResolved now by_ res) q]> (db_asks db))
    (set_tasks (<[ar_task_id q := task_set t TsPending now (tk_started_at t) (tk_finished_at t) (tk_lease_expires_at t)]> (db_tasks db)) db))
    by done.
  by apply (refines_close db b (ar_task_id q) k q _ t _ c); [..|apply (shows_with t)|].
Qed.

Lemma sim_answers k guard by_ res now db b (ok : Z -> Z -> AskRow -> Prop) :
  refines db b -> has_nul by_ = false -> json_contains_nul res = false ->
  (forall id k' q, phase_at id b = Some (Suspended k' q) -> ok id k' q -> now < ar_deadline_at q -> k' = k /\ guard q = true) ->
  (forall id q, phase_at id b = Some (Suspended k q) -> guard q = true -> ok id k q /\ now < ar_deadline_at q) ->
  (forall r, guard r = true -> ask_pending r = true) ->
  exists b', answers now by_ res ok b b' /\ refines (resolve_row k guard by_ res now db).2 b'.
Proof.
  intros Hr Hb Hv Hto Hof Hg.
  destruct (resolve_row_cases k guard by_ res now db b Hr Hg)
    as [[E Hn]|[(e & E1 & E2 & Hn)|(id & q & db' & E & Hp & Hq & Ho & Hr')]].
  - exists b. rewrite E. split; [|done]. right. split; [|done]. intros id k' q (Hp & Hok & Hlt & _).
    destruct (Hto _ _ _ Hp Hok Hlt) as [-> Hgq]. destruct (rf_open _ _ Hr _ _ _ Hp) as (Hk & _). rewrite (Hn q Hk) in Hgq. done.
  - exists b. rewrite E2. split; [|done]. right. split; [|done]. intros id k' q (Hp & Hok & Hlt & _ & _ & Hoff).
    destruct (Hto _ _ _ Hp Hok Hlt) as [-> Hgq]. destruct (rf_open _ _ Hr _ _ _ Hp) as (Hk & _). by apply (Hn q Hk).
  - exists (answer id k now by_ res q b). rewrite E. split; [|done]. left. exists id, k, q.
    destruct (Hof id q Hp Hq) as [Hok Hlt]. done.
Qed.

Lemma ask_live_iff now q : ask_pending q = true -> ask_live now q = true <-> now < ar_deadline_at q.
Proof. intros Hp. unfold ask_live. rewrite Hp. apply Z.ltb_lt. Qed.

Lemma ask_live_pending now q : ask_live now q = true -> ask_pending q = true.
Proof. by intros [? _]%andb_true_iff. Qed.

Lemma answers_nothing now by_ res ok b :
  has_nul by_ = true \/ json_contains_nul res = true -> answers now by_ res ok b b.
Proof. intros Hn. right. split; [|done]. intros id k q (_ & _ & _ & Hb & Hv & _). destruct Hn; congruence. Qed.

Lemma sim_resolve k by_ res now db b :
  refines db b -> exists b', spec now (OpResolve k by_ res) b b' /\ refines (resolve k by_ res now db).2 b'.
Proof.
  intros Hr. cbn [spec]. unfold resolve. destruct (has_nul by_ || json_contains_nul res) eqn:Hn.
  { exists b. split; [|done]. apply answers_nothing. by apply orb_true_iff. }
  apply orb_false_iff in Hn as [Hb Hv].
  destruct (sim_answers k (ask_live now) by_ res now db b (fun _ k' _ => k' = k) Hr Hb Hv) as (b' & Ha & Hr').
  - intros id k' q Hp -> Hlt. split; [done|]. apply ask_live_iff; [|done]. by apply (rf_open _ _ Hr _ _ _ Hp).
  - intros id q Hp Hl. split; [done|]. apply (ask_live_iff now q); [by eapply ask_live_pending|done].
  - intros r. apply ask_live_pending.
  - exists b'. split; [done|]. by destruct (resolve_row _ _ _ _ _ _) as [[]].
Qed.

Lemma has_nul_app a b : has_nul (a ++ b) = has_nul a || has_nul b.
Proof. apply existsb_app. Qed.

Lemma attribution_nul c : has_nul (attribution c) = has_nul (cl_channel c) || has_nul (cl_peer c).
Proof. unfold attribution. rewrite !has_nul_app. done. Qed.
Lemma ask_of_nonce_Some h db k :
  ask_of_nonce h db = Some k -> exists q, db_asks db !! k = Some q /\ ar_nonce_sha256 q = h.
Proof.
  unfold ask_of_nonce. intros Hk. apply head_Some in Hk as (l & Hl).
  assert (k ∈ (select_where (fun r => bytes_eqb (ar_nonce_sha256 r) h) (db_asks db)).*1) as Hin
    by (rewrite Hl; apply list_elem_of_here).
  apply list_elem_of_fmap in Hin as ([k' q] & -> & [Hq Hh%bytes_eqb_eq]%elem_select_where). eauto.
Qed.

Lemma ask_of_nonce_None h db k q : ask_of_nonce h db = None -> db_asks db !! k = Some q -> ar_nonce_sha256 q <> h.
Proof.
  unfold ask_of_nonce. intros Hn%head_None Hk <-.
  assert (k ∈ (select_where (fun r => bytes_eqb (ar_nonce_sha256 r) (ar_nonce_sha256 q)) (db_asks db)).*1) as Hin.
  { apply list_elem_of_fmap. exists (k, q). split; [done|]. apply elem_select_where. split; [done|]. by apply bytes_eqb_eq. }
  rewrite Hn in Hin. by apply not_elem_of_nil in Hin.
Qed.

(** The claimant of the guard is the owner of the card. *)
Lemma owner_card db b cl id q :
  refines db b -> ar_task_id q = id ->
  match db_tasks db !! ar_task_id q with Some t => owns cl (tk_payload t) | None => false end = true <->
  exists c, b_cards b !! id = Some c /\ owns cl (c_payload c) = true.
Proof.
  intros Hr <-. split.
  - destruct (db_tasks db !! ar_task_id q) as [t|] eqn:Ht; [|done]. intros Ho.
    destruct (refines_card _ _ _ _ Hr Ht) as (c & Hc & (_ & _ & E & _)). exists c. by rewrite <- E.
  - intros (c & Hc & Ho). destruct (refines_row _ _ _ _ Hr Hc) as (t & -> & (_ & _ & -> & _)). done.
Qed.

Lemma sim_resolve_with_nonce nonce cl res now db b :
  refines db b ->
  exists b', spec now (OpResolveWithNonce nonce cl res) b b' /\ refines (resolve_with_nonce nonce cl res now db).2 b'.
Proof.
  intros Hr. cbn [spec]. unfold resolve_with_nonce.
  destruct (has_nul (cl_channel cl) || has_nul (cl_peer cl) || json_contains_nul res) eqn:Hn.
  { exists b. split; [|done]. apply answers_nothing. rewrite attribution_nul. by apply orb_true_iff. }
  apply orb_false_iff in Hn as [Hb Hv]. rewrite <- attribution_nul in Hb.
  destruct (ask_of_nonce _ db) as [k|] eqn:Hk.
  2:{ exists b. split; [|done]. right. split; [|done]. intros id k q (Hp & (Hq & _) & _).
      destruct (rf_open _ _ Hr _ _ _ Hp) as (Hrow & _). by apply (ask_of_nonce_None _ _ _ _ Hk Hrow). }
  apply ask_of_nonce_Some in Hk as (q0 & Hq0 & Hh).
  destruct (sim_answers k (live_ask_for_claimant cl now db) (attribution cl) res now db b
              (fun id _ q => entitled nonce cl b id q) Hr Hb Hv) as (b' & Ha & Hr').
  - intros id k' q Hp (Hhq & Hown) Hlt. destruct (rf_open _ _ Hr _ _ _ Hp) as (Hrow & Hpend & Hid). split.
    + apply (rf_nonce _ _ Hr k' k q q0); congruence.
    + apply andb_true_iff. split; [by apply ask_live_iff|]. by apply (owner_card db b cl id q Hr Hid).
  - intros id q Hp [Hl Ho]%andb_true_iff. destruct (rf_open _ _ Hr _ _ _ Hp) as (Hrow & Hpend & Hid).
    split; [|by apply ask_live_iff]. split; [congruence|]. by apply (owner_card db b cl id q Hr Hid).
  - intros r [Hl _]%andb_true_iff. by apply (ask_live_pending now).
  - exists b'. split; [done|]. by destruct (resolve_row _ _ _ _ _ _) as [[]].
Qed.

(** ** Expiring *)

Lemma expire_tasks_pointwise rows now db :
  let db' := (expire_tasks rows now db).2 in
  db_asks db' = db_asks db /\ db_task_seq db' = db_task_seq db /\ db_ask_seq db' = db_ask_seq db /\
  forall id, db_tasks db' !! id
    = (fun t => if bool_decide (id ∈ (ar_task_id ∘ snd) <$> rows) && in_state TsAwaitingOperator t
                then fail_with TsFailed ASK_TIMEOUT_DETAIL now t else t) <$> db_tasks db !! id.
Proof.
  revert db. induction rows as [|[k r] rows IH]; intros db; cbn zeta.
  { cbn [expire_tasks snd]. repeat split. intros id. destruct (db_tasks db !! id); [|done]. cbn.
    by rewrite bool_decide_eq_false_2 by apply not_elem_of_nil. }
  cbn [expire_tasks]. unfold fail_awaiting_operator.
  destruct (update_one _ _ _ _) as [[t' m]|] eqn:E; cbn [mbind option_bind].
  - apply update_one_Some in E as (t & Ht & Hs & _ & ->). specialize (IH (set_tasks (<[ar_task_id r := fail_with TsFailed ASK_TIMEOUT_DETAIL now t]> (db_tasks db)) db)).
    destruct (expire_tasks _ _ _) as [out db2]. cbn [snd db_asks db_task_seq db_ask_seq db_tasks set_tasks] in *.
    destruct IH as (-> & -> & -> & IH). repeat split. intros id. rewrite IH. lookup_cases id (ar_task_id r).
    + rewrite Ht. cbn. rewrite Hs, andb_false_r. rewrite bool_decide_eq_true_2 by apply list_elem_of_here. done.
    + destruct (db_tasks db !! id) as [u|]; [|done]. cbn. f_equal.
      destruct (in_state TsAwaitingOperator u); [|by rewrite !andb_false_r]. rewrite !andb_true_r.
      rewrite (bool_decide_ext (id ∈ ar_task_id r :: ((ar_task_id ∘ snd) <$> rows)) (id ∈ (ar_task_id ∘ snd) <$> rows));
        [done|]. rewrite elem_of_cons. naive_solver.
  - rewrite update_one_None in E. destruct (IH db) as (-> & -> & -> & IH'). repeat split. intros id. rewrite IH'.
    destruct (db_tasks db !! id) as [u|] eqn:Hu; [|done]. cbn. f_equal.
    destruct (in_state TsAwaitingOperator u) eqn:Hs; [|by rewrite !andb_false_r]. rewrite !andb_true_r.
    rewrite (bool_decide_ext (id ∈ ar_task_id r :: ((ar_task_id ∘ snd) <$> rows)) (id ∈ (ar_task_id ∘ snd) <$> rows));
      [done|]. rewrite elem_of_cons. split; [intros [->|]; [|done]|by right]. specialize (E u Hu). congruence.
Qed.
Lemma ask_overdue_iff now r : ask_overdue now r = true <-> ask_pending r = true /\ ar_deadline_at r < now.
Proof. unfold ask_overdue. by rewrite andb_true_iff, Z.ltb_lt. Qed.

(** The tasks the sweep's rows name are the cards with an overdue question. *)
Lemma overdue_tasks now db b id :
  refines db b ->
  id ∈ (ar_task_id ∘ snd) <$> map_to_list (close_ask AoExpired <$> filter (fun kr => ask_overdue now kr.2 = true) (db_asks db)) <->
  exists k q, phase_at id b = Some (Suspended k q) /\ ar_deadline_at q < now.
Proof.
  intros Hr. rewrite list_elem_of_fmap. split.
  - intros ([k r] & -> & Hin%elem_of_map_to_list). rewrite lookup_fmap in Hin.
    apply fmap_Some in Hin as (q & [Hk [Hp Hlt]%ask_overdue_iff]%map_lookup_filter_Some & ->).
    exists k, q. split; [|done]. exact (rf_asks _ _ Hr k q Hk Hp).
  - intros (k & q & Hp & Hlt). destruct (rf_open _ _ Hr _ _ _ Hp) as (Hk & Hpend & <-).
    exists (k, close_ask AoExpired q). split; [done|]. apply elem_of_map_to_list. rewrite lookup_fmap.
    apply fmap_Some. exists q. split; [|done]. apply map_lookup_filter_Some. split; [done|]. by apply ask_overdue_iff.
Qed.

(** The [asks] table and the cards after the sweep. *)
Definition expired_asks (now : Z) (m : gmap Z AskRow) : gmap Z AskRow :=
  (fun r => if ask_overdue now r then close_ask AoExpired r else r) <$> m.

Lemma expired_asks_Some now m k r :
  expired_asks now m !! k = Some r <->
  exists q, m !! k = Some q /\ r = if ask_overdue now q then close_ask AoExpired q else q.
Proof. unfold expired_asks. rewrite lookup_fmap, fmap_Some. done. Qed.

Lemma expire_card_phase now b b' :
  b_cards b' = expire_card now <$> b_cards b ->
  forall i k q, phase_at i b' = Some (Suspended k q) <-> phase_at i b = Some (Suspended k q) /\ ~ ar_deadline_at q < now.
Proof.
  intros Hb i k q. unfold phase_at. rewrite Hb, lookup_fmap. destruct (b_cards b !! i) as [c|]; [|naive_solver].
  cbn. unfold expire_card. destruct (c_phase c) as [|l|k' q'|s] eqn:E; cbn; rewrite ?E; try naive_solver.
  destruct (Z.ltb_spec (ar_deadline_at q') now); cbn; rewrite ?E; [naive_solver|]. split; [|naive_solver].
  intros [= <- <-]. split; [done|lia].
Qed.

Definition closed_asks (m : gmap Z AskRow) : gmap Z AskRow := filter (fun kr => ask_pending kr.2 = false) m.

Lemma closed_asks_Some m k r : closed_asks m !! k = Some r <-> m !! k = Some r /\ ask_pending r = false.
Proof. apply map_lookup_filter_Some. Qed.

Lemma expired_pending now q : ask_pending (if ask_overdue now q then close_ask AoExpired q else q) = ask_pending q && negb (ask_overdue now q).
Proof. destruct (ask_overdue now q); [by rewrite andb_false_r|by rewrite andb_true_r]. Qed.

Lemma expire_shows now b i t c (P : Prop) `{Decision P} :
  b_cards b !! i = Some c -> shows t c ->
  (P <-> exists k q, phase_at i b = Some (Suspended k q) /\ ar_deadline_at q < now) ->
  shows (if bool_decide P && in_state TsAwaitingOperator t then fail_with TsFailed ASK_TIMEOUT_DETAIL now t else t)
    (expire_card now c).
Proof.
  intros Hc Hsh HP. rewrite (phase_card _ _ _ Hc) in HP. pose proof (shows_phase _ _ Hsh) as Hst.
  unfold in_state, expire_card. destruct (c_phase c) as [|l|k q|s] eqn:E.
  - rewrite Hst. by rewrite andb_false_r.
  - rewrite (proj1 Hst). by rewrite andb_false_r.
  - rewrite Hst, andb_true_r. destruct (Z.ltb_spec (ar_deadline_at q) now).
    + rewrite bool_decide_eq_true_2 by naive_solver. by apply (shows_with t).
    + rewrite bool_decide_eq_false_2; [done|]. intros (k' & q' & [= <- <-] & ?)%HP. lia.
  - destruct Hst as [-> Hs]. destruct s; try done; by rewrite andb_false_r.
Qed.

Lemma sim_expire now db b :
  refines db b -> exists b', spec now OpExpireDue b b' /\ refines (expire_due now db).2 b'.
Proof.
  intros Hr. set (b' := mkBoard (expire_card now <$> b_cards b) (closed_asks (expired_asks now (db_asks db)))).
  pose proof (expire_card_phase now b b' eq_refl) as Hph. exists b'. split.
  - split; [done|]. intros k r. cbn [b_closed b']. rewrite closed_asks_Some, expired_asks_Some. split.
    + intros [(q & Hk & ->) Hp]. rewrite expired_pending in Hp. destruct (ask_overdue now q) eqn:E.
      * right. apply ask_overdue_iff in E as [Hpq Hlt]. exists (ar_task_id q), q. split; [|done]. by apply (rf_asks _ _ Hr).
      * left. apply (rf_closed _ _ Hr). by rewrite andb_true_r in Hp.
    + intros [[Hk Hp]%(rf_closed _ _ Hr)|(id & q & Hp & Hlt & ->)].
      * split; [|done]. exists r. split; [done|]. unfold ask_overdue. by rewrite Hp.
      * destruct (rf_open _ _ Hr _ _ _ Hp) as (Hk & Hpend & _). split; [|done]. exists q. split; [done|].
        by rewrite (proj2 (ask_overdue_iff now q)).
  - unfold expire_due. cbn [update_all]. fold (expired_asks now (db_asks db)).
    pose proof (expire_tasks_pointwise (map_to_list (close_ask AoExpired <$> filter (fun kr => ask_overdue now kr.2 = true) (db_asks db)))
                  now (set_asks (expired_asks now (db_asks db)) db)) as (Ha & Ht & Hs & Hp). cbn [db_asks set_asks db_task_seq db_ask_seq db_tasks] in *.
    split.
    + intros i. rewrite Hp. cbn [b_cards b']. rewrite lookup_fmap.
      destruct (db_tasks db !! i) as [t|] eqn:Hi.
      * destruct (refines_card _ _ _ _ Hr Hi) as (c & Hc & Hsh). rewrite Hc. constructor.
        apply (expire_shows now b i); [done..|]. by apply (overdue_tasks now db b).
      * rewrite (refines_no_card _ _ _ Hr Hi). constructor.
    + intros i k q [Hi Hlt]%Hph. destruct (rf_open _ _ Hr _ _ _ Hi) as (Hk & Hpend & Hid). rewrite Ha. split; [|done].
      apply expired_asks_Some. exists q. split; [done|]. unfold ask_overdue. rewrite Hpend. cbn.
      by rewrite (proj2 (Z.ltb_nlt _ _)).
    + rewrite Ha. intros k r (q & Hk & ->)%expired_asks_Some Hpr. rewrite expired_pending in Hpr.
      apply andb_true_iff in Hpr as [Hpq Hno%negb_true_iff]. rewrite Hno. apply Hph. split; [by apply (rf_asks _ _ Hr)|].
      intros Hlt. by rewrite (proj2 (ask_overdue_iff now q)) in Hno.
    + rewrite Ha. intros k r. apply closed_asks_Some.
    + rewrite Ht. intros i u. rewrite Hp. intros (t & Hi & _)%fmap_Some. by apply (rf_task_seq _ _ Hr i t).
    + rewrite Ha, Hs. intros k r (q & Hk & _)%expired_asks_Some. by apply (rf_ask_seq _ _ Hr k q).
    + rewrite Ha. intros k1 k2 r1 r2 (q1 & H1 & ->)%expired_asks_Some (q2 & H2 & ->)%expired_asks_Some Hn.
      apply (rf_nonce _ _ Hr k1 k2 q1 q2); try done. by destruct (ask_overdue now q1), (ask_overdue now q2).
Qed.

(** ** Every operation *)

Lemma simulation now o db b : refines db b -> exists b', spec now o b b' /\ refines (apply_op now o db) b'.
Proof.
  intros Hr. destruct o; cbn [apply_op].
  - by apply sim_insert.
  - by apply sim_claim.
  - cbn [spec]. eexists. split; [done|]. unfold outcome_state. destruct (final_state o) as [st|] eqn:E; [|done].
    cbn [mbind option_bind]. destruct (state_check st) as [s|] eqn:Es; [|by destruct o; vm_compute in E; simplify_eq].
    assert (st = state_as_sql s) as ->.
    { unfold state_check in Es. apply find_some in Es as [_ Es%bytes_eqb_eq]. done. }
    apply sim_finalize; [done|]. apply (outcome_state_terminal o). unfold outcome_state. rewrite E. exact Es.
  - cbn [spec]. eexists. split; [done|]. by apply (sim_finalize id TsCompleted).
  - eexists. split; [done|]. by apply sim_cancel.
  - eexists. split; [done|]. by apply sim_cancel_if_pending.
  - eexists. split; [done|]. by apply sim_fail_running.
  - eexists. split; [done|]. by apply sim_sweep.
  - eexists. split; [done|]. by apply sim_plan_count.
  - eexists. split; [done|]. by apply sim_claim_reply.
  - by apply sim_raise.
  - by apply sim_resolve.
  - by apply sim_resolve_with_nonce.
  - by apply sim_expire.
Qed.

Lemma refines_empty : refines empty_db empty_board.
Proof. split; try done; intros; try constructor; try done. naive_solver. Qed.

Lemma run_refines l db b : refines db b -> exists b', board_run l b b' /\ refines (run_ops l db) b'.
Proof.
  revert db b. induction l as [|[now o] l IH]; intros db b Hr; [exists b; split; [constructor|done]|].
  destruct (simulation now o db b Hr) as (b1 & Hs & Hr1). destruct (IH _ _ Hr1) as (b2 & Hs2 & Hr2).
  exists b2. split; [by econstructor|done].
Qed.
(** * Invariants of the board *)

(** Every question was well posed, and an answered one was answered in time with
    a choice it offered. *)
Definition settled_well (r : AskRow) : Prop :=
  match ar_outcome r with
  | AoResolved at_ by_ res => answerable at_ by_ res r
  | _ => True
  end.

Definition board_ok (b : Board) : Prop := forall k q, asked b k q -> well_posed q /\ settled_well q.

(** Where the questions of the next board come from. *)
Lemma asked_close k' q' b id ph k q :
  suspended ph = false -> asked (close k' q' (move id ph b)) k q -> asked b k q \/ (k = k' /\ q = q').
Proof.
  intros Hs [Hc|(i & Hi)].
  - unfold close in Hc. cbn [b_closed] in Hc. lookup_cases k k'; [right; by injection Hc|by left; left].
  - left. right. rewrite phase_close, phase_move in Hi. destruct (decide (i = id)) as [->|]; [|eauto].
    destruct (phase_at id b); [|done]. injection Hi as ->. done.
Qed.

Lemma asked_move b id ph k q : suspended ph = false -> asked (move id ph b) k q -> asked b k q.
Proof.
  intros Hs [Hc|(i & Hi)]; [by left|]. rewrite phase_move in Hi. destruct (decide (i = id)) as [->|]; [|right; eauto].
  destruct (phase_at id b); [|done]. injection Hi as ->. done.
Qed.

(** The rows of the next board: old ones, a question just raised, or an old one settled. *)
Definition from_old (b : Board) (k : Z) (q : AskRow) : Prop :=
  asked b k q \/ (well_posed q /\ ar_outcome q = AoPending) \/
  exists q0 o, asked b k q0 /\ q = close_ask o q0 /\
    match o with AoResolved at_ by_ res => answerable at_ by_ res q0 | _ => True end.

Lemma answers_asked now by_ res ok b b' k q : answers now by_ res ok b b' -> asked b' k q -> from_old b k q.
Proof.
  intros [(id & k' & q' & (Hp & _ & Ha) & ->)|[_ ->]] Hq; [|by left].
  apply asked_close in Hq as [?|[-> ->]]; [by left| |done].
  right. right. eexists q', _. split; [right; eauto|done].
Qed.

Lemma spec_asked now o b b' k q : spec now o b b' -> asked b' k q -> from_old b k q.
Proof.
  destruct o; cbn [spec].
  - case_match; [intros ->; by left|]. intros (id & Hn & ->) [Hc|(i & Hi)]; [by left; left|].
    left. right. exists i. unfold phase_at in *. cbn [b_cards] in Hi. lookup_cases i id; done.
  - intros [(id & c & _ & _ & ->)|[_ ->]] Hq; [|by left]. left. by apply asked_move in Hq.
  - intros -> Hq. left. revert Hq. repeat case_match; try done; by apply asked_move.
  - intros -> Hq. left. revert Hq. repeat case_match; try done; by apply asked_move.
  - intros -> Hq. destruct (phase_at id b) as [[|l|k' q'|s]|] eqn:Hp; try (by left); try (left; by apply asked_move in Hq).
    apply asked_close in Hq as [?|[-> ->]]; [by left| |done]. right. right. eexists q', _. split; [right; eauto|done].
  - intros -> Hq. left. revert Hq. repeat case_match; try done; by apply asked_move.
  - intros -> Hq. left. revert Hq. repeat case_match; try done; by apply asked_move.
  - intros -> [Hc|(i & Hi)]; [by left; left|]. left. right. exists i. unfold phase_at in *. cbn [b_cards] in Hi.
    rewrite lookup_fmap in Hi. destruct (b_cards b !! i) as [c|]; [|done]. cbn in *. unfold crash_card in Hi.
    destruct (c_phase c) as [|l| |] eqn:E; try (by rewrite E in Hi). destruct (l <? now); cbn in Hi; congruence.
  - intros -> ?. by left.
  - intros -> ?. by left.
  - intros [[(_ & Hw & _) (k' & _ & ->)]|[_ ->]]; [|by left]. intros [Hc|(i & Hi)]; [by left; left|].
    rewrite phase_move in Hi. destruct (decide (i = id)) as [->|]; [|left; right; eauto].
    destruct (phase_at id b); [|done]. injection Hi as <- <-. right. left. done.
  - apply answers_asked.
  - apply answers_asked.
  - intros [Hcards Hclosed] [Hc|(i & Hi)].
    + apply Hclosed in Hc as [?|(id & q' & Hp & _ & ->)]; [by left; left|]. right. right. eexists q', _. split; [right; eauto|done].
    + apply (expire_card_phase now b b' Hcards) in Hi as [Hi _]. left. right. eauto.
Qed.

Lemma board_ok_step now o b b' : board_ok b -> spec now o b b' -> board_ok b'.
Proof.
  intros Hok Hs k q Hq. destruct (spec_asked now o b b' k q Hs Hq) as [Ha|[[Hw Hp]|(q0 & o' & Ha & -> & Ho)]].
  - by apply (Hok k).
  - split; [done|]. unfold settled_well. by rewrite Hp.
  - destruct (Hok k q0 Ha) as [Hw _]. split; [done|]. unfold settled_well. cbn. destruct o'; done.
Qed.

Lemma board_run_ok l b b' : board_ok b -> board_run l b b' -> board_ok b'.
Proof. intros Hok Hrun. revert Hok. induction Hrun; [done|]. intros Hok. apply IHHrun. by eapply board_ok_step. Qed.

Lemma empty_board_ok : board_ok empty_board.
Proof. by intros k q [?|(i & ?)]. Qed.

(** The board of a reachable database. *)
Lemma reachable_board l : exists b, board_run l empty_board b /\ refines (run_ops l empty_db) b /\ board_ok b.
Proof.
  destruct (run_refines l _ _ refines_empty) as (b & Hb & Hr). exists b. split; [done|]. split; [done|].
  eapply board_run_ok; [apply empty_board_ok|done].
Qed.
(** * How rows evolve *)

(** The immutable columns, the settled reply, and everything the outcome of a
    finished task shows. *)
Definition evolves (t t' : Task) : Prop :=
  tk_payload t' = tk_payload t /\
  (forall r, tk_reply t = Some r -> tk_reply t' = Some r) /\
  (is_terminal (tk_state t) = true ->
   tk_state t' = tk_state t /\ tk_result t' = tk_result t /\ tk_turn_record t' = tk_turn_record t
   /\ tk_finished_at t' = tk_finished_at t).

Lemma evolves_refl t : evolves t t.
Proof. by split_and!. Qed.

Lemma evolves_trans t1 t2 t3 : evolves t1 t2 -> evolves t2 t3 -> evolves t1 t3.
Proof.
  intros (P1 & R1 & T1) (P2 & R2 & T2). split; [congruence|]. split; [auto|]. intros Ht.
  destruct (T1 Ht) as (S1 & Q1 & U1 & F1). rewrite <- S1 in Ht. destruct (T2 Ht) as (S2 & Q2 & U2 & F2).
  split_and!; congruence.
Qed.

(** A row that left its queue or its run is not terminal. *)
Lemma evolves_live t t' :
  is_terminal (tk_state t) = false -> tk_payload t' = tk_payload t -> tk_reply t' = tk_reply t -> evolves t t'.
Proof. intros Ht Hp Hr. split; [done|]. split; [by rewrite Hr|]. rewrite Ht. done. Qed.

Definition rows_evolve (m m' : gmap Z Task) : Prop :=
  forall id t, m !! id = Some t -> exists t', m' !! id = Some t' /\ evolves t t'.

Lemma rows_evolve_refl m : rows_evolve m m.
Proof. intros id t Ht. exists t. split; [done|]. apply evolves_refl. Qed.

Lemma rows_evolve_insert m id t t' : m !! id = Some t -> evolves t t' -> rows_evolve m (<[id := t']> m).
Proof.
  intros Ht He i u Hi. lookup_cases i id; [|exists u; split; [done|apply evolves_refl]].
  exists t'. split; [done|]. congruence.
Qed.

Lemma rows_evolve_update m id p f o m' :
  update_one id p f m = Some (o, m') -> (forall t, p t = true -> evolves t (f t)) -> rows_evolve m m'.
Proof. intros (t & Ht & Hp & _ & ->)%update_one_Some Hf. apply (rows_evolve_insert m id t); auto. Qed.

Lemma rows_evolve_fmap m (f : Task -> Task) : (forall t, evolves t (f t)) -> rows_evolve m (f <$> m).
Proof. intros Hf id t Ht. exists (f t). rewrite lookup_fmap, Ht. auto. Qed.

Ltac live_row :=
  let t := fresh in let Ht := fresh in
  intros t Ht; cbv beta in Ht; apply evolves_live; [|done|done];
  repeat match goal with H : _ && _ = true |- _ => apply andb_true_iff in H as [? ?] end;
  match goal with H : in_state _ _ = true |- _ => apply in_state_true in H; by rewrite H end.

Lemma resolve_row_evolves k guard by_ res now db :
  rows_evolve (db_tasks db) (db_tasks (resolve_row k guard by_ res now db).2).
Proof.
  unfold resolve_row. destruct (update_one k _ _ _) as [[r m]|]; [|apply rows_evolve_refl].
  destruct (reject_choice_outside_options _ _ _); [|apply rows_evolve_refl].
  unfold finish_resolve, resume_from_ask. destruct (update_one _ _ _ (db_tasks _)) as [[x m']|] eqn:E; cbn; [|apply rows_evolve_refl].
  eapply rows_evolve_update; [done|]. live_row.
Qed.

Lemma op_evolves now o db :
  (forall id t, db_tasks db !! id = Some t -> id < db_task_seq db) ->
  rows_evolve (db_tasks db) (db_tasks (apply_op now o db)).
Proof.
  intros Hseq. destruct o; cbn [apply_op].
  - unfold insert_pending. destruct (refuse_nul_in_json _ _); [|apply rows_evolve_refl]. cbn [snd db_tasks].
    intros i u Hi. exists u. split; [|apply evolves_refl]. rewrite lookup_insert_ne; [done|]. specialize (Hseq i u Hi). lia.
  - unfold claim_one. destruct (oldest _) as [[id t]|] eqn:E; [|apply rows_evolve_refl].
    apply oldest_Some in E as [Hin _]. rewrite list_elem_of_In, filter_In, <- list_elem_of_In, elem_select_where in Hin.
    destruct Hin as [[Ht [_ Hp%in_state_true]%andb_true_iff] _]. apply (rows_evolve_insert _ _ t); [done|].
    apply evolves_live; [by rewrite Hp|done..].
  - destruct (final_state o) as [st|]; [|apply rows_evolve_refl]. unfold finalize. destruct (state_check st).
    + destruct (update_one _ _ _ _) as [[x m]|] eqn:E; [|apply rows_evolve_refl].
      eapply rows_evolve_update; [done|]. live_row.
    + destruct (update_one _ _ _ _); apply rows_evolve_refl.
  - rewrite (finalize_updated id TsCompleted). unfold updated. destruct (update_one _ _ _ _) as [[x m]|] eqn:E; [|apply rows_evolve_refl].
    eapply rows_evolve_update; [done|]. live_row.
  - unfold mark_cancelled. destruct (cancel_for_task _ _) as [n1 a1].
    destruct (update_one _ _ _ _) as [[x m]|] eqn:E; [|apply rows_evolve_refl]. destruct (cancel_for_task _ _) as [n2 a2].
    eapply rows_evolve_update; [done|]. intros t Hc. apply evolves_live; [|done..]. unfold cancellable in Hc.
    rewrite !orb_true_iff, !in_state_true in Hc. by destruct Hc as [[->| ->]| ->].
  - unfold mark_cancelled_if_pending. destruct (update_one _ _ _ _) as [[x m]|] eqn:E; [|apply rows_evolve_refl].
    eapply rows_evolve_update; [done|]. live_row.
  - unfold mark_failed_running. destruct (update_one _ _ _ _) as [[x m]|] eqn:E; [|apply rows_evolve_refl].
    eapply rows_evolve_update; [done|]. live_row.
  - apply rows_evolve_fmap. intros t. destruct (in_state TsRunning t && lease_before now t) eqn:E; [|apply evolves_refl].
    apply andb_true_iff in E as [E%in_state_true _]. apply evolves_live; [by rewrite E|done..].
  - unfold increment_plan_count. destruct (update_one _ _ _ _) as [[x m]|] eqn:E; [|apply rows_evolve_refl].
    eapply rows_evolve_update; [done|]. live_row.
  - unfold claim_reply. destruct (update_one _ _ _ _) as [[x m]|] eqn:E; [|apply rows_evolve_refl].
    eapply rows_evolve_update; [done|]. intros t [Hn%negb_true_iff _]%andb_true_iff. apply bool_decide_eq_false in Hn.
    split_and!; try done. intros r Hr. destruct Hn. by exists r.
  - unfold raise, suspend_for_ask. destruct (update_one _ _ _ _) as [[x m]|] eqn:E; cbn [mbind option_bind]; [|apply rows_evolve_refl].
    destruct (insert_ask_cases (question drawn id kind body options digest deadline_at resume_state now) (set_tasks m db))
      as [(db' & E' & _ & -> & _)|(e & n & E' & _)]; unfold question in E'; rewrite E'; [|apply rows_evolve_refl].
    eapply rows_evolve_update; [done|]. live_row.
  - unfold resolve. destruct (_ || _); [apply rows_evolve_refl|].
    pose proof (resolve_row_evolves k (ask_live now) by_ res now db) as He. by destruct (resolve_row _ _ _ _ _ _) as [[] ?].
  - unfold resolve_with_nonce. destruct (_ || _); [apply rows_evolve_refl|].
    destruct (ask_of_nonce _ _) as [k|]; [|apply rows_evolve_refl].
    pose proof (resolve_row_evolves k (live_ask_for_claimant c now db) (attribution c) res now db) as He.
    by destruct (resolve_row _ _ _ _ _ _) as [[] ?].
  - unfold expire_due. cbn [update_all]. intros id t Ht.
    destruct (expire_tasks_pointwise (map_to_list (close_ask AoExpired <$> filter (fun kr => ask_overdue now kr.2 = true) (db_asks db)))
                now (set_asks (expired_asks now (db_asks db)) db)) as (_ & _ & _ & Hp).
    unfold expired_asks in Hp. rewrite Hp. cbn [db_tasks set_asks]. rewrite Ht. eexists. split; [done|].
    destruct (bool_decide _ && in_state TsAwaitingOperator t) eqn:E; [|apply evolves_refl].
    apply andb_true_iff in E as [_ E%in_state_true]. apply evolves_live; [by rewrite E|done..].
Qed.

Lemma run_evolves l db b : refines db b -> rows_evolve (db_tasks db) (db_tasks (run_ops l db)).
Proof.
  revert db b. induction l as [|[now o] l IH]; intros db b Hr; [apply rows_evolve_refl|].
  intros id t Ht. destruct (op_evolves now o db (rf_task_seq _ _ Hr) id t Ht) as (t1 & Ht1 & He1).
  destruct (simulation now o db b Hr) as (b1 & _ & Hr1). destruct (IH _ _ Hr1 id t1 Ht1) as (t2 & Ht2 & He2).
  exists t2. split; [done|]. by eapply evolves_trans.
Qed.

(** ** How questions evolve *)

(** A question is kept, or it was pending and is settled. *)
Definition ask_evolves (q q' : AskRow) : Prop :=
  q' = q \/ (ask_pending q = true /\ exists o, o <> AoPending /\ q' = close_ask o q).

Definition asks_evolve (m m' : gmap Z AskRow) : Prop :=
  forall k q, m !! k = Some q -> exists q', m' !! k = Some q' /\ ask_evolves q q'.

Lemma close_pending o q : o <> AoPending -> ask_pending (close_ask o q) = false.
Proof. by destruct o. Qed.

Lemma ask_evolves_trans q1 q2 q3 : ask_evolves q1 q2 -> ask_evolves q2 q3 -> ask_evolves q1 q3.
Proof.
  intros [->|(Hp & o & Ho & ->)] H2; [done|]. destruct H2 as [->|(Hp' & _)]; [right; eauto|].
  rewrite close_pending in Hp' by done. done.
Qed.

Lemma asks_evolve_refl m : asks_evolve m m.
Proof. intros k q Hk. exists q. split; [done|by left]. Qed.

Lemma asks_evolve_update m k p o x m' :
  update_one k p (close_ask o) m = Some (x, m') -> o <> AoPending -> (forall q, p q = true -> ask_pending q = true) ->
  asks_evolve m m'.
Proof.
  intros (q & Hk & Hp & _ & ->)%update_one_Some Ho Hpend i r Hi. lookup_cases i k; [|exists r; split; [done|by left]].
  eexists. split; [done|]. right. replace r with q by congruence. eauto.
Qed.

Lemma asks_evolve_close m p o :
  o <> AoPending -> (forall q, p q = true -> ask_pending q = true) ->
  asks_evolve m ((fun r => if p r then close_ask o r else r) <$> m).
Proof.
  intros Ho Hpend k q Hk. rewrite lookup_fmap, Hk. eexists. split; [done|]. destruct (p q) eqn:E; [right|by left]. eauto.
Qed.

Lemma asks_evolve_trans m1 m2 m3 : asks_evolve m1 m2 -> asks_evolve m2 m3 -> asks_evolve m1 m3.
Proof.
  intros H12 H23 k q Hk. destruct (H12 k q Hk) as (q2 & Hk2 & He). destruct (H23 k q2 Hk2) as (q3 & Hk3 & He').
  exists q3. split; [done|]. by eapply ask_evolves_trans.
Qed.

Lemma cancel_asks_evolve id m : asks_evolve m (cancel_for_task id m).2.
Proof. apply asks_evolve_close; [done|]. by intros q [_ ?]%andb_true_iff. Qed.

Lemma resolve_row_asks k guard by_ res now db :
  (forall q, guard q = true -> ask_pending q = true) ->
  asks_evolve (db_asks db) (db_asks (resolve_row k guard by_ res now db).2).
Proof.
  intros Hg. unfold resolve_row. destruct (update_one k _ _ _) as [[r m]|] eqn:E; [|apply asks_evolve_refl].
  destruct (reject_choice_outside_options _ _ _); [|apply asks_evolve_refl].
  unfold finish_resolve, resume_from_ask. destruct (update_one _ _ _ (db_tasks _)) as [[x m']|]; cbn; [|apply asks_evolve_refl].
  by eapply asks_evolve_update.
Qed.

Lemma op_asks_evolve now o db :
  (forall k q, db_asks db !! k = Some q -> k < db_ask_seq db) ->
  asks_evolve (db_asks db) (db_asks (apply_op now o db)).
Proof.
  intros Hseq. assert (Hu : forall A (x : option (A * gmap Z Task)), db_asks (updated x db) = db_asks db) by by intros ? [[]|].
  destruct o; cbn [apply_op].
  - unfold insert_pending. destruct (refuse_nul_in_json _ _); apply asks_evolve_refl.
  - unfold claim_one. destruct (oldest _) as [[]|]; apply asks_evolve_refl.
  - destruct (final_state o); [|apply asks_evolve_refl]. unfold finalize.
    destruct (state_check _), (update_one _ _ _ _) as [[]|]; apply asks_evolve_refl.
  - rewrite (finalize_updated id TsCompleted), Hu. apply asks_evolve_refl.
  - unfold mark_cancelled. pose proof (cancel_asks_evolve id (db_asks db)) as H1.
    destruct (cancel_for_task id (db_asks db)) as [n1 a1]. pose proof (cancel_asks_evolve id a1) as H2.
    destruct (update_one _ _ _ _) as [[x m]|]; [|apply asks_evolve_refl]. destruct (cancel_for_task id a1) as [n2 a2].
    by eapply asks_evolve_trans.
  - unfold mark_cancelled_if_pending. destruct (update_one _ _ _ _) as [[]|]; apply asks_evolve_refl.
  - unfold mark_failed_running. destruct (update_one _ _ _ _) as [[]|]; apply asks_evolve_refl.
  - apply asks_evolve_refl.
  - unfold increment_plan_count. destruct (update_one _ _ _ _) as [[]|]; apply asks_evolve_refl.
  - unfold claim_reply. destruct (update_one _ _ _ _) as [[]|]; apply asks_evolve_refl.
  - unfold raise, suspend_for_ask. destruct (update_one _ _ _ _) as [[x m]|]; cbn [mbind option_bind]; [|apply asks_evolve_refl].
    destruct (insert_ask_cases (question drawn id kind body options digest deadline_at resume_state now) (set_tasks m db))
      as [(db' & E' & _ & -> & _)|(e & n & E' & _)]; unfold question in E'; rewrite E'; [|apply asks_evolve_refl].
    intros k q Hk. exists q. split; [|by left]. cbn [snd db_asks set_tasks db_ask_seq].
    rewrite lookup_insert_ne; [done|]. specialize (Hseq k q Hk). lia.
  - unfold resolve. destruct (_ || _); [apply asks_evolve_refl|].
    pose proof (resolve_row_asks k (ask_live now) by_ res now db (fun q => ask_live_pending now q)) as He.
    by destruct (resolve_row _ _ _ _ _ _) as [[] ?].
  - unfold resolve_with_nonce. destruct (_ || _); [apply asks_evolve_refl|].
    destruct (ask_of_nonce _ _) as [k|]; [|apply asks_evolve_refl].
    pose proof (resolve_row_asks k (live_ask_for_claimant c now db) (attribution c) res now db
      (fun q Hq => ask_live_pending now q (proj1 (proj1 (andb_true_iff _ _) Hq)))) as He.
    by destruct (resolve_row _ _ _ _ _ _) as [[] ?].
  - unfold expire_due. cbn [update_all].
    destruct (expire_tasks_pointwise (map_to_list (close_ask AoExpired <$> filter (fun kr => ask_overdue now kr.2 = true) (db_asks db)))
                now (set_asks (expired_asks now (db_asks db)) db)) as (Ha & _).
    unfold expired_asks in Ha. rewrite Ha. apply asks_evolve_close; [done|]. by intros q [? _]%ask_overdue_iff.
Qed.

Lemma run_asks_evolve l db b : refines db b -> asks_evolve (db_asks db) (db_asks (run_ops l db)).
Proof.
  revert db b. induction l as [|[now o] l IH]; intros db b Hr; [apply asks_evolve_refl|].
  destruct (simulation now o db b Hr) as (b1 & _ & Hr1).
  eapply asks_evolve_trans; [apply (op_asks_evolve now o db (rf_ask_seq _ _ Hr))|by apply (IH _ b1)].
Qed.

Lemma run_ops_app l l' db : run_ops (l ++ l') db = run_ops l' (run_ops l db).
Proof. apply fold_left_app. Qed.

(** The sweep leaves no overdue question pending. *)
Lemma expire_due_closes now db b k q :
  refines db b -> db_asks db !! k = Some q -> ask_overdue now q = true ->
  db_asks (apply_op now OpExpireDue db) !! k = Some (close_ask AoExpired q).
Proof.
  intros Hr Hk Hq. cbn [apply_op]. unfold expire_due. cbn [update_all].
  destruct (expire_tasks_pointwise (map_to_list (close_ask AoExpired <$> filter (fun kr => ask_overdue now kr.2 = true) (db_asks db)))
              now (set_asks (expired_asks now (db_asks db)) db)) as (Ha & _).
  unfold expired_asks in Ha. rewrite Ha. cbn [db_asks set_asks]. rewrite lookup_fmap, Hk. cbn. by rewrite Hq.
Qed.
(** What an answer over a channel does, on any tables. *)
Definition answered (nonce : bytes) (cl : Claimant) (res : Value) (now : Z) (db : Db) (rs : ResolvedAsk) (db' : Db) : Prop :=
  exists q t, db_asks db !! rs_ask_id rs = Some q /\ ar_nonce_sha256 q = nonce_sha256 nonce
    /\ ask_pending q = true /\ now < ar_deadline_at q /\ ar_task_id q = rs_task_id rs
    /\ offers (ar_options q) res
    /\ db_tasks db !! rs_task_id rs = Some t /\ owns cl (tk_payload t) = true /\ tk_state t = TsAwaitingOperator
    /\ db_asks db' = <[rs_ask_id rs := close_ask (AoResolved now (attribution cl) res) q]> (db_asks db)
    /\ db_tasks db' = <[rs_task_id rs := task_set t TsPending now (tk_started_at t) (tk_finished_at t) (tk_lease_expires_at t)]>
                        (db_tasks db).

Lemma resolve_with_nonce_effect nonce cl res now db :
  match resolve_with_nonce nonce cl res now db with
  | (Ok (Some rs), db') => answered nonce cl res now db rs db'
  | (_, db') => db' = db
  end.
Proof.
  unfold resolve_with_nonce. destruct (_ || _); [done|]. destruct (ask_of_nonce _ db) as [k|] eqn:Hk; [|done].
  apply ask_of_nonce_Some in Hk as (q & Hq & Hh). unfold resolve_row.
  destruct (update_one k _ _ _) as [[q' m]|] eqn:E; [|done].
  apply update_one_Some in E as (q0 & Hq0 & Hg & -> & ->). assert (q0 = q) as -> by congruence.
  pose proof (reject_choice_ok (ar_options (close_ask (AoResolved now (attribution cl) res) q)) k res) as Hrej.
  destruct (reject_choice_outside_options _ _ _); [|done]. apply andb_true_iff in Hg as [Hl Ho].
  unfold finish_resolve, resume_from_ask. cbn [ar_task_id close_ask db_tasks set_asks].
  destruct (update_one (ar_task_id q) _ _ _) as [[t' m']|] eqn:E; cbn; [|done].
  apply update_one_Some in E as (t & Ht & Hs%in_state_true & -> & ->). rewrite Ht in Ho. exists q, t.
  pose proof (ask_live_pending _ _ Hl) as Hp. apply (ask_live_iff now q Hp) in Hl. by split_and!.
Qed.

(** * Properties *)

(** C1. Refinement: whatever operations the daemon, the command line and the
    channels run, in whatever order and at whatever instants, the two tables
    move as the board does, where a task and its open question are one card:
    each operation takes the step [spec] gives it or, when the board says it
    does not apply, none. *)
Theorem database_follows_board l :
  exists b, board_run l empty_board b /\ refines (run_ops l empty_db) b.
Proof. destruct (reachable_board l) as (b & Hb & Hr & _). eauto. Qed.


(** C16. What was settled stays settled: an ask that was answered, expired or
    cancelled keeps its whole row, and a finished task keeps its state, its
    result, its turn record and its finishing time, whatever runs afterwards. *)
Theorem settled_is_final l l' :
  let db := run_ops l empty_db in let db' := run_ops (l ++ l') empty_db in
  (forall k r, db_asks db !! k = Some r -> ask_pending r = false -> db_asks db' !! k = Some r) /\
  (forall id t, db_tasks db !! id = Some t -> is_terminal (tk_state t) = true ->
     exists t', db_tasks db' !! id = Some t' /\ tk_state t' = tk_state t /\ tk_result t' = tk_result t
       /\ tk_turn_record t' = tk_turn_record t /\ tk_finished_at t' = tk_finished_at t).
Proof.
  cbn zeta. rewrite run_ops_app. destruct (reachable_board l) as (b & _ & Hr & _). split.
  - intros k r Hk Hp. destruct (run_asks_evolve l' _ b Hr k r Hk) as (q' & Hk' & [->|(Hp' & _)]); congruence.
  - intros id t Ht Hterm. destruct (run_evolves l' _ b Hr id t Ht) as (t' & Ht' & _ & _ & Hf). exists t'.
    split; [done|]. by apply Hf.
Qed.


(** An answer over a channel counts only from the peer the task belongs
    to.  When [resolve_with_nonce] reports an ask resolved, the nonce is that
    ask's, the ask was pending and in time, the claimant is the channel and the
    peer recorded on the task, the choice is one the ask offered, the row names
    the claimant, and the task is back in the queue; in every other case,
    errors included, nothing was written, and on tables the operations built the
    error is never that a pending ask's task is not suspended. *)
Theorem channel_answer_is_authorised l nonce cl res now :
  let db := run_ops l empty_db in
  match resolve_with_nonce nonce cl res now db with
  | (Ok (Some rs), db') => answered nonce cl res now db rs db'
  | (Ok None, db') => db' = db
  | (Err e, db') =>
      db' = db /\ (has_nul (attribution cl) = true \/ json_contains_nul res = true
                   \/ exists k q, db_asks db !! k = Some q /\ ar_nonce_sha256 q = nonce_sha256 nonce /\ ~ offers (ar_options q) res)
  end.
Proof.
  cbn zeta. destruct (reachable_board l) as (b & _ & Hr & _). set (db := run_ops l empty_db) in *.
  pose proof (resolve_with_nonce_effect nonce cl res now db) as He.
  destruct (resolve_with_nonce nonce cl res now db) as [[[rs|]|e] db'] eqn:E; try done. split; [done|].
  unfold resolve_with_nonce in E. destruct (_ || json_contains_nul res) eqn:Hn.
  { rewrite attribution_nul. apply orb_true_iff in Hn as [?|?]; auto. }
  destruct (ask_of_nonce _ db) as [k|] eqn:Hk; [|done]. apply ask_of_nonce_Some in Hk as (q & Hq & Hh).
  destruct (resolve_row_cases k (live_ask_for_claimant cl now db) (attribution cl) res now db b Hr)
    as [[E' _]|[(e' & _ & _ & Hno)|(id & q' & db2 & E' & _)]].
  - intros r [Hl _]%andb_true_iff. by apply (ask_live_pending now).
  - by rewrite E' in E.
  - right. right. exists k, q. auto.
  - by rewrite E' in E.
Qed.

(** C39. Every answer on record is one the scheduler understands: an ask raised
    with the plan-approval options and answered decodes to an approval or to a
    denial, never to the unreadable resolution that the scheduler would have to
    let pass. *)
Theorem answered_asks_decode l k a :
  get_ask k (run_ops l empty_db) = Some a -> ask_state a = bs "resolved" -> ask_options a = plan_approval_options ->
  exists choice, resolution_choice a = Some choice.
Proof.
  unfold get_ask. intros (r & Hk & ->)%fmap_Some Hs Ho. cbn in Ho.
  destruct (reachable_board l) as (b & _ & Hr & Hok).
  destruct (Hok k r (proj2 (asked_rows _ _ _ _ Hr) Hk)) as [_ Hset]. unfold settled_well in Hset.
  unfold resolution_choice, decode_ask_row. cbn [ask_resolution ask_options]. cbn [decode_ask_row ask_state] in Hs. unfold ar_state in Hs.
  destruct (ar_outcome r) as [|at_ by_ res| |]; try (vm_compute in Hs; discriminate Hs).
  destruct Hset as (_ & _ & _ & (choice & offered & Hc & Hoff & Hin)). cbn [mbind option_bind]. rewrite Hc.
  cbn [mbind option_bind as_str]. rewrite Ho in *.
  injection Hoff as <-. apply elem_of_cons in Hin as [Hc'|Hin].
  { assert (choice = ask_choice_str ChoiceApprove) as -> by (by injection Hc'). by exists ChoiceApprove. }
  apply elem_of_cons in Hin as [Hc'|Hin%not_elem_of_nil]; [|done].
  assert (choice = ask_choice_str ChoiceDeny) as -> by (by injection Hc'). by exists ChoiceDeny.
Qed.

(** A channel reply is claimed at most once, and only for a finished task:
    after a claim that won, every later claim of the same task loses, whatever
    runs in between. *)
Theorem reply_claimed_once l l' id d d' now now' reply db1 :
  claim_reply id d now (run_ops l empty_db) = (Some reply, db1) ->
  (exists t, db_tasks (run_ops l empty_db) !! id = Some t /\ is_terminal (tk_state t) = true) /\
  claim_reply id d' now' (run_ops l' db1) = (None, run_ops l' db1).
Proof.
  destruct (reachable_board l) as (b & _ & Hr & _). intros Hc. pose proof Hc as Hc'. unfold claim_reply in Hc.
  destruct (update_one _ _ _ _) as [[t' m]|] eqn:E; [|done]. injection Hc as _ <-.
  apply update_one_Some in E as (t & Ht & [_ Hterm]%andb_true_iff & -> & ->). split; [eauto|].
  assert (Hr1 : refines (set_tasks (<[id := with_reply t (now, d)]> (db_tasks (run_ops l empty_db))) (run_ops l empty_db)) b).
  { pose proof (sim_claim_reply id d now _ _ Hr) as H1. by rewrite Hc' in H1. }
  destruct (run_evolves l' _ _ Hr1 id (with_reply t (now, d))) as (t2 & Ht2 & (_ & Hrep & _)); [by cbn; rewrite lookup_insert_eq|].
  unfold claim_reply, update_one. rewrite Ht2. unfold claimable. rewrite (Hrep (now, d)) by done. done.
Qed.

(** The CHECK on [state] does not keep [finalize] to terminal states: called with
    ['pending'] it puts a running task back in the queue, marked finished. *)
Theorem finalize_accepts_pending id now db t :
  db_tasks db !! id = Some t -> tk_state t = TsRunning ->
  exists t', finalize id (bs "pending") None None now db = (Ok tt, set_tasks (<[id := t']> (db_tasks db)) db)
    /\ tk_state t' = TsPending /\ tk_finished_at t' = Some now.
Proof.
  intros Ht Hs. unfold finalize, update_one. rewrite Ht, (proj2 (in_state_true _ _) Hs). by eexists.
Qed.
End Simulation.

(** * Witnesses *)

#[local] Instance demo_text : Text := {| jsonb_text _ := bs "?"; str_debug s := bs "\" ++ s |}.

(** A channel task is submitted, claimed and suspended on a plan approval. *)
Definition demo_payload : Value :=
  object [(bs "kind", String (bs "channel")); (bs "channel", String (bs "matrix")); (bs "peer", String (bs "@op"))].

Definition demo_suspended : list (Z * Op) :=
  [(1, OpInsertPending Fast demo_payload);
   (2, OpClaimOne (fun _ => false) Fast 60 2);
   (3, OpRaise [1; 2; 3; 4; 5] 1 ASK_KIND_PLAN_APPROVAL (bs "send?") plan_approval_options (Some (bs "d")) 10 None)].

Definition demo_nonce : bytes := generate_nonce [1; 2; 3; 4; 5].

(** The operator's peer approves in time and the task runs to its end. *)
Definition demo_approved : list (Z * Op) :=
  demo_suspended ++
  [(4, OpResolveWithNonce demo_nonce (mkClaimant (bs "matrix") (bs "@op")) (resolution (bs "approve") None));
   (5, OpClaimOne (fun _ => false) Fast 60 5);
   (6, OpFinalize 1 (Completed (String (bs "sent"))) None)].

(** Another peer of the channel holds the token and is not heard. *)
Example demo_wrong_peer :
  run_ops (demo_suspended ++ [(4, OpResolveWithNonce demo_nonce (mkClaimant (bs "matrix") (bs "@eve")) (resolution (bs "approve") None))]) empty_db
  = run_ops demo_suspended empty_db.
Proof. vm_compute. reflexivity. Qed.


Lemma answered_asks_decode_witness :
  exists a choice, get_ask 1 (run_ops demo_approved empty_db) = Some a /\ resolution_choice a = Some choice.
Proof.
  destruct (get_ask 1 (run_ops demo_approved empty_db)) as [a|] eqn:E; [|vm_compute in E; discriminate E].
  destruct (answered_asks_decode demo_approved 1 a E) as (choice & Hc).
  - vm_compute in E. injection E as <-. vm_compute. reflexivity.
  - vm_compute in E. injection E as <-. vm_compute. reflexivity.
  - exists a, choice. split; [reflexivity|exact Hc].
Defined.

Lemma reply_claimed_once_witness :
  exists reply db1, claim_reply 1 Routed 7 (run_ops demo_approved empty_db) = (Some reply, db1) /\
    claim_reply 1 Routed 9 (run_ops [(8, OpCancel 1)] db1) = (None, run_ops [(8, OpCancel 1)] db1).
Proof.
  destruct (claim_reply 1 Routed 7 (run_ops demo_approved empty_db)) as [[reply|] db1] eqn:E;
    [|vm_compute in E; discriminate E].
  exists reply, db1. split; [reflexivity|].
  exact (proj2 (reply_claimed_once demo_approved [(8, OpCancel 1)] 1 Routed Routed 7 9 reply db1 E)).
Defined.
