(* ===== verification/AskRace.v ===== *)
(** The transactions of src/db/src/tasks.rs and src/db/src/asks.rs that write one
    task and its asks, interleaved statement by statement under READ COMMITTED.

    TaskStore runs each of them in one piece.  Here any number of them run at
    once against one task row and its ask rows.  A statement on [asks] first
    takes the rows its snapshot shows, then visits them one by one: a row another
    transaction holds blocks it, and once the row is free the predicate is
    checked again on the row's latest version.  A statement on the task row
    passes over it when the predicate fails and otherwise waits for the lock.
    Locks are kept to the end of the transaction, and a transaction may be
    aborted at any point, which is what the deadlock detector does.

    [interleavings_keep_question_and_task_together] shows that no interleaving
    separates a question from its task; [cancel_can_deadlock] exhibits a cycle of
    waiting transactions. *)

From stdpp Require Import base gmap list sets numbers option.
From Stdlib Require Import ZArith Lia.
From S2P Require Import Prelude RustStr Json Asks TaskStore.
Local Open Scope Z_scope.

Inductive Row := RTask | RAsk (k : Z).

#[global] Instance Row_eq_dec : EqDecision Row.
Proof. solve_decision. Defined.
#[global] Instance Row_countable : Countable Row.
Proof.
  refine (inj_countable' (fun r => match r with RTask => None | RAsk k => Some k end)
            (fun o => match o with None => RTask | Some k => RAsk k end) _). by intros [].
Defined.

(** The statements, each named after the function that runs it. *)
Inductive Stmt :=
| CancelForTask                  (** asks: pending to cancelled *)
| StateLockedInTx                (** tasks: SELECT .. FOR UPDATE *)
| MarkCancelled                  (** tasks: cancellable to cancelled, else roll back *)
| SuspendForAsk                  (** tasks: running to awaiting_operator, else roll back *)
| InsertAsk                      (** asks: a new pending row *)
| ResolveAsk (k : Z)             (** asks: this pending ask to resolved, else roll back *)
| ResumeFromAsk                  (** tasks: awaiting_operator to pending, else roll back *)
| ExpireAsks (overdue : gset Z)  (** asks: the overdue pending ones to expired *)
| FailAwaitingOperator           (** tasks: awaiting_operator to failed, if an ask expired *)
| ClaimOne                       (** tasks: pending to running, SKIP LOCKED *)
| Finalize (s : TaskState).      (** tasks: running to a terminal state *)

Inductive Job :=
| JRaise | JCancel | JResolve (k : Z) | JExpire (overdue : gset Z) | JClaim | JFinalize (s : TaskState).

Definition statements (j : Job) : list Stmt :=
  match j with
  | JRaise => [SuspendForAsk; InsertAsk]
  | JCancel => [CancelForTask; StateLockedInTx; MarkCancelled; CancelForTask]
  | JResolve k => [ResolveAsk k; ResumeFromAsk]
  | JExpire overdue => [ExpireAsks overdue; FailAwaitingOperator]
  | JClaim => [ClaimOne]
  | JFinalize s => [Finalize s]
  end.

(** A transaction: the statements left, the rows the current one has still to
    visit, its own writes and its locks. *)
Record Txn := mkTxn {
  tx_prog : list Stmt; tx_todo : option (list Z); tx_task : option TaskState; tx_asks : gmap Z AskState;
  tx_holds : gset Row }.

Definition start (j : Job) : Txn := mkTxn (statements j) None None ∅ ∅.

(** The committed rows, the key sequence and the transactions under way. *)
Record World := mkWorld { w_task : TaskState; w_asks : gmap Z AskState; w_seq : Z; w_txns : gmap nat Txn }.

Definition init : World := mkWorld TsPending ∅ 1 ∅.

Definition view_asks (w : World) (x : Txn) : gmap Z AskState := tx_asks x ∪ w_asks w.
Definition view_task (w : World) (x : Txn) : TaskState := default (w_task w) (tx_task x).

Definition free (w : World) (i : nat) (r : Row) : bool :=
  bool_decide (map_Forall (fun j x => j = i \/ r ∉ tx_holds x) (w_txns w)).

Definition put (i : nat) (x : Txn) (w : World) : World := mkWorld (w_task w) (w_asks w) (w_seq w) (<[i := x]> (w_txns w)).
Definition drop_txn (i : nat) (w : World) : World := mkWorld (w_task w) (w_asks w) (w_seq w) (delete i (w_txns w)).
Definition commit (i : nat) (x : Txn) (w : World) : World :=
  mkWorld (view_task w x) (view_asks w x) (w_seq w) (delete i (w_txns w)).

Definition proceed_to (rest : list Stmt) (x : Txn) : Txn := mkTxn rest None (tx_task x) (tx_asks x) (tx_holds x).
Definition with_todo (l : list Z) (x : Txn) : Txn := mkTxn (tx_prog x) (Some l) (tx_task x) (tx_asks x) (tx_holds x).
Definition write_ask (k : Z) (s : AskState) (x : Txn) : Txn :=
  mkTxn (tx_prog x) (tx_todo x) (tx_task x) (<[k := s]> (tx_asks x)) ({[RAsk k]} ∪ tx_holds x).
Definition lock_task (o : option TaskState) (x : Txn) : Txn :=
  mkTxn (tx_prog x) (tx_todo x) (match o with Some s => Some s | None => tx_task x end) (tx_asks x) ({[RTask]} ∪ tx_holds x).

(** The ask statements: which rows, and what they become. *)
Definition ask_target (s : Stmt) : option ((Z -> bool) * AskState) :=
  match s with
  | CancelForTask => Some (fun _ => true, AsCancelled)
  | ResolveAsk k => Some (fun k' => k' =? k, AsResolved)
  | ExpireAsks overdue => Some (fun k => bool_decide (k ∈ overdue), AsExpired)
  | _ => None
  end.

Definition candidates (w : World) (x : Txn) (p : Z -> bool) : list Z :=
  (map_to_list (filter (fun ks => p ks.1 = true /\ ks.2 = AsPending) (view_asks w x))).*1.

(** What a task statement does when it sees the row in state [v]. *)
Inductive TaskEffect := Hit (o : option TaskState) | Miss | Rollback.

Definition task_effect (s : Stmt) (v : TaskState) : TaskEffect :=
  match s with
  | StateLockedInTx => Hit None
  | MarkCancelled =>
      match v with TsPending | TsRunning | TsAwaitingOperator => Hit (Some TsCancelled) | _ => Rollback end
  | SuspendForAsk => match v with TsRunning => Hit (Some TsAwaitingOperator) | _ => Rollback end
  | ResumeFromAsk => match v with TsAwaitingOperator => Hit (Some TsPending) | _ => Rollback end
  | FailAwaitingOperator => match v with TsAwaitingOperator => Hit (Some TsFailed) | _ => Miss end
  | ClaimOne => match v with TsPending => Hit (Some TsRunning) | _ => Miss end
  | Finalize s => match v with TsRunning => Hit (Some s) | _ => Miss end
  | _ => Miss
  end.

Definition is_claim (s : Stmt) : bool := match s with ClaimOne => true | _ => false end.
Definition is_resolve (s : Stmt) : bool := match s with ResolveAsk _ => true | _ => false end.

(** The sweep fails a task only for an ask it expired. *)
Definition skips (s : Stmt) (x : Txn) : bool :=
  match s with FailAwaitingOperator => bool_decide (tx_asks x = ∅) | _ => false end.

(** One step of transaction [i]; [None] when it is blocked or does not exist. *)
Definition advance (i : nat) (w : World) : option World :=
  x ← w_txns w !! i;
  match tx_prog x with
  | [] => Some (commit i x w)
  | s :: rest =>
      match ask_target s with
      | Some (p, st) =>
          match tx_todo x with
          | None => Some (put i (with_todo (candidates w x p) x) w)
          | Some [] =>
              if is_resolve s && bool_decide (tx_asks x = ∅) then Some (drop_txn i w)
              else Some (put i (proceed_to rest x) w)
          | Some (k :: ks) =>
              if free w i (RAsk k) then
                if bool_decide (view_asks w x !! k = Some AsPending)
                then Some (put i (with_todo ks (write_ask k st x)) w)
                else Some (put i (with_todo ks x) w)
              else None
          end
      | None =>
          match s with
          | InsertAsk =>
              Some (mkWorld (w_task w) (w_asks w) (w_seq w + 1)
                      (<[i := proceed_to rest (write_ask (w_seq w) AsPending x)]> (w_txns w)))
          | _ =>
              if skips s x then Some (put i (proceed_to rest x) w) else
              match task_effect s (view_task w x) with
              | Miss => Some (put i (proceed_to rest x) w)
              | Rollback => Some (drop_txn i w)
              | Hit o =>
                  if free w i RTask then Some (put i (proceed_to rest (lock_task o x)) w)
                  else if is_claim s then Some (put i (proceed_to rest x) w)
                  else None
              end
          end
      end
  end.

Inductive step (w : World) : World -> Prop :=
| step_begin i j : w_txns w !! i = None -> (forall s, j = JFinalize s -> is_terminal s = true) -> step w (put i (start j) w)
| step_advance i w' : advance i w = Some w' -> step w w'
| step_abort i : step w (drop_txn i w).

Definition reachable (w : World) : Prop := rtc step init w.

(** * Waiting *)

(** The row the next step of a transaction has to lock. *)
Definition needs (w : World) (x : Txn) : option Row :=
  match tx_prog x with
  | [] => None
  | s :: _ =>
      match ask_target s with
      | Some _ => match tx_todo x with Some (k :: _) => Some (RAsk k) | _ => None end
      | None =>
          if skips s x || is_claim s then None
          else match task_effect s (view_task w x) with Hit _ => Some RTask | _ => None end
      end
  end.

(** [i] waits for a row [j] holds. *)
Definition waits_for (w : World) (i j : nat) : Prop :=
  i <> j /\ exists x y r, w_txns w !! i = Some x /\ w_txns w !! j = Some y /\ needs w x = Some r /\ r ∈ tx_holds y.

(** * The invariant *)

(** A task is awaiting exactly when it has a pending ask, and then only one. *)
Definition together (t : TaskState) (m : gmap Z AskState) : Prop :=
  if decide (t = TsAwaitingOperator) then exists k, forall k', m !! k' = Some AsPending <-> k' = k
  else forall k, m !! k <> Some AsPending.

Definition quiet (x : Txn) : Prop := tx_task x = None /\ tx_asks x = ∅.

(** The asks a transaction has closed are still pending for everyone else. *)
Definition closing (w : World) (x : Txn) : Prop :=
  forall k s, tx_asks x !! k = Some s -> s <> AsPending /\ w_asks w !! k = Some AsPending.

Definition ready (w : World) (x : Txn) : Prop :=
  quiet x \/ (RTask ∈ tx_holds x /\ together (view_task w x) (view_asks w x)).

(** What is true of a transaction that has these statements left. *)
Definition pos_ok (w : World) (x : Txn) : Prop :=
  match tx_prog x with
  | [SuspendForAsk; InsertAsk] | [ClaimOne] => quiet x
  | [Finalize s] => quiet x /\ is_terminal s = true
  | [InsertAsk] => RTask ∈ tx_holds x /\ tx_task x = Some TsAwaitingOperator /\ w_task w = TsRunning /\ tx_asks x = ∅
  | [CancelForTask; StateLockedInTx; MarkCancelled; CancelForTask]
  | [StateLockedInTx; MarkCancelled; CancelForTask]
  | [ResolveAsk _; ResumeFromAsk] | [ExpireAsks _; FailAwaitingOperator] | [FailAwaitingOperator] =>
      tx_task x = None /\ closing w x
  | [MarkCancelled; CancelForTask] => tx_task x = None /\ closing w x /\ RTask ∈ tx_holds x
  | [CancelForTask] =>
      tx_task x = Some TsCancelled /\ closing w x /\ RTask ∈ tx_holds x /\
      forall todo, tx_todo x = Some todo ->
        forall k, w_asks w !! k = Some AsPending -> is_Some (tx_asks x !! k) \/ k ∈ todo
  | [ResumeFromAsk] => tx_task x = None /\ closing w x /\ tx_asks x <> ∅
  | [] => ready w x
  | _ => False
  end.

Record inv (w : World) : Prop := mkInv {
  i_together : together (w_task w) (w_asks w);
  i_excl i j x y r : w_txns w !! i = Some x -> w_txns w !! j = Some y -> r ∈ tx_holds x -> r ∈ tx_holds y -> i = j;
  i_pos i x : w_txns w !! i = Some x -> pos_ok w x;
  i_own i x k s : w_txns w !! i = Some x -> tx_asks x !! k = Some s -> RAsk k ∈ tx_holds x;
  i_held i x k : w_txns w !! i = Some x -> RAsk k ∈ tx_holds x -> k < w_seq w;
  i_seq k s : w_asks w !! k = Some s -> k < w_seq w }.

(** * Lemmas *)

Lemma together_pending t m k : together t m -> m !! k = Some AsPending -> t = TsAwaitingOperator.
Proof. unfold together. destruct (decide _); [done|]. intros Hn Hk. by destruct (Hn k). Qed.

Lemma together_unique t m k k' : together t m -> m !! k = Some AsPending -> m !! k' = Some AsPending -> k = k'.
Proof.
  intros Ht Hk Hk'. pose proof (together_pending _ _ _ Ht Hk) as ->. unfold together in Ht. rewrite decide_True in Ht by done.
  destruct Ht as (k0 & H0). transitivity k0; [|symmetry]; by apply H0.
Qed.

Lemma together_none t m : t <> TsAwaitingOperator -> (forall k, m !! k <> Some AsPending) -> together t m.
Proof. intros Ht Hn. unfold together. by rewrite decide_False. Qed.

Lemma together_quiet t m k : together t m -> t <> TsAwaitingOperator -> m !! k <> Some AsPending.
Proof. intros Ht Hne Hk. by apply Hne, (together_pending t m k). Qed.

(** With every pending ask closed, no view of the table shows one. *)
Lemma closed_view w x :
  closing w x -> (forall k, w_asks w !! k = Some AsPending -> is_Some (tx_asks x !! k)) ->
  forall k, view_asks w x !! k <> Some AsPending.
Proof.
  intros Hc Hall k. unfold view_asks. rewrite lookup_union_Some_raw. intros [Hk|[Hn Hk]].
  - by destruct (Hc k _ Hk).
  - destruct (Hall k Hk). congruence.
Qed.

Lemma free_spec w i r j x : free w i r = true -> w_txns w !! j = Some x -> r ∈ tx_holds x -> j = i.
Proof. unfold free. intros Hf%bool_decide_eq_true Hj Hr. destruct (Hf j x Hj); done. Qed.

(** The local facts do not mention the sequence or the other transactions. *)
Lemma pos_ok_world w w' x : w_task w' = w_task w -> w_asks w' = w_asks w -> pos_ok w x -> pos_ok w' x.
Proof.
  intros Ht Ha. unfold pos_ok, closing, ready, view_task, view_asks. by rewrite Ht, Ha.
Qed.

(** A transaction takes a step that commits nothing. *)
Lemma inv_put w n i x x' :
  inv w -> w_txns w !! i = Some x -> w_seq w <= n ->
  (forall r, r ∈ tx_holds x' -> r ∈ tx_holds x \/ forall j y, w_txns w !! j = Some y -> r ∈ tx_holds y -> j = i) ->
  (forall k s, tx_asks x' !! k = Some s -> RAsk k ∈ tx_holds x') -> (forall k, RAsk k ∈ tx_holds x' -> k < n) ->
  pos_ok w x' -> inv (mkWorld (w_task w) (w_asks w) n (<[i := x']> (w_txns w))).
Proof.
  intros Hi Hx Hn Hh Ho Hlt Hp. split; cbn [w_task w_asks w_seq w_txns].
  - apply Hi.
  - assert (Hex : forall j y r, j <> i -> w_txns w !! j = Some y -> r ∈ tx_holds x' -> r ∈ tx_holds y -> False).
    { intros j y r Hne Hj Hr Hry. destruct (Hh r Hr) as [Hrx|Hf]; [by apply Hne, (i_excl _ Hi j i y x r)|eauto]. }
    intros j1 j2 y1 y2 r. destruct (decide (j1 = i)) as [->|N1], (decide (j2 = i)) as [->|N2];
      rewrite ?lookup_insert_eq, ?lookup_insert_ne by done; try done.
    + intros [= <-] H2 Hr1 Hr2. exfalso. by eapply (Hex j2 y2 r).
    + intros H1 [= <-] Hr1 Hr2. exfalso. by eapply (Hex j1 y1 r).
    + apply (i_excl _ Hi).
  - intros j y. destruct (decide (j = i)) as [->|]; [rewrite lookup_insert_eq|rewrite lookup_insert_ne by done].
    + intros [= <-]. by apply (pos_ok_world w).
    + intros Hj. apply (pos_ok_world w); [done..|]. by apply (i_pos _ Hi j).
  - intros j y k s. destruct (decide (j = i)) as [->|]; [rewrite lookup_insert_eq|rewrite lookup_insert_ne by done].
    + intros [= <-]. apply Ho.
    + apply (i_own _ Hi).
  - intros j y k. destruct (decide (j = i)) as [->|]; [rewrite lookup_insert_eq|rewrite lookup_insert_ne by done].
    + intros [= <-]. apply Hlt.
    + intros Hj Hk%(i_held _ Hi j y k Hj). lia.
  - intros k s Hk%(i_seq _ Hi). lia.
Qed.

(** The usual case: the locks and the ask writes are the ones it had. *)
Lemma inv_put_same w i x x' :
  inv w -> w_txns w !! i = Some x -> tx_holds x' = tx_holds x -> tx_asks x' = tx_asks x -> pos_ok w x' -> inv (put i x' w).
Proof.
  intros Hi Hx Hh Ha Hp. apply (inv_put w (w_seq w) i x x'); try done.
  - intros r. rewrite Hh. by left.
  - intros k s. rewrite Ha, Hh. by apply (i_own _ Hi i).
  - intros k. rewrite Hh. by apply (i_held _ Hi i).
Qed.

Lemma inv_put_lock w i x x' o :
  inv w -> w_txns w !! i = Some x -> free w i RTask = true -> tx_holds x' = {[RTask]} ∪ tx_holds x -> tx_asks x' = tx_asks x ->
  tx_task x' = o -> pos_ok w x' -> inv (put i x' w).
Proof.
  intros Hi Hx Hf Hh Ha Ho Hp. apply (inv_put w (w_seq w) i x x'); try done.
  - intros r. rewrite Hh, elem_of_union, elem_of_singleton. intros [->|?]; [right|by left]. intros j y. by apply free_spec.
  - intros k s. rewrite Ha, Hh. intros Hk%(i_own _ Hi i x k s Hx). set_solver.
  - intros k. rewrite Hh, elem_of_union, elem_of_singleton. intros [?|?%(i_held _ Hi i x k Hx)]; done.
Qed.

Lemma inv_drop w i : inv w -> inv (drop_txn i w).
Proof.
  intros Hi. split; cbn [drop_txn w_task w_asks w_seq w_txns]; try apply Hi.
  - intros j1 j2 y1 y2 r [_ H1]%lookup_delete_Some [_ H2]%lookup_delete_Some. by apply (i_excl _ Hi).
  - intros j y [_ Hj]%lookup_delete_Some. apply (pos_ok_world w); [done..|]. by apply (i_pos _ Hi j).
  - intros j y k s [_ Hj]%lookup_delete_Some. by apply (i_own _ Hi j).
  - intros j y k [_ Hj]%lookup_delete_Some. by apply (i_held _ Hi j).
Qed.

Lemma inv_begin w i j :
  inv w -> w_txns w !! i = None -> (forall s, j = JFinalize s -> is_terminal s = true) -> inv (put i (start j) w).
Proof.
  intros Hi Hn Hj. split; cbn [put w_task w_asks w_seq w_txns]; try apply Hi.
  - intros j1 j2 y1 y2 r. destruct (decide (j1 = i)) as [->|], (decide (j2 = i)) as [->|];
      rewrite ?lookup_insert_eq, ?lookup_insert_ne by done; try done; [intros [= <-]; set_solver|intros ? [= <-]; set_solver|].
    apply (i_excl _ Hi).
  - intros j1 y. destruct (decide (j1 = i)) as [->|]; [rewrite lookup_insert_eq|rewrite lookup_insert_ne by done].
    + intros [= <-]. destruct j as [| | | | |s]; try (by split). split; [by split|by apply Hj].
    + intros H1. apply (pos_ok_world w); [done..|]. by apply (i_pos _ Hi j1).
  - intros j1 y k s. destruct (decide (j1 = i)) as [->|]; [rewrite lookup_insert_eq|rewrite lookup_insert_ne by done].
    + by intros [= <-].
    + apply (i_own _ Hi).
  - intros j1 y k. destruct (decide (j1 = i)) as [->|]; [rewrite lookup_insert_eq|rewrite lookup_insert_ne by done].
    + intros [= <-]. set_solver.
    + apply (i_held _ Hi).
Qed.

(** ** Commits *)

(** A transaction that is done either wrote nothing or holds the task row, and
    whoever holds the task row is alone in committing. *)
Lemma inv_commit w i x :
  inv w -> w_txns w !! i = Some x -> tx_prog x = [] -> inv (commit i x w).
Proof.
  intros Hi Hx Hprog. pose proof (i_pos _ Hi i x Hx) as Hp. unfold pos_ok in Hp. rewrite Hprog in Hp.
  destruct Hp as [[Ht Ha]|[HT Htog]].
  { replace (commit i x w) with (drop_txn i w); [by apply inv_drop|]. unfold commit, drop_txn, view_task, view_asks.
    rewrite Ht, Ha, (left_id_L ∅ (∪)). done. }
  assert (Hfree : forall j y k s, j <> i -> w_txns w !! j = Some y -> tx_asks y !! k = Some s ->
            view_asks w x !! k = w_asks w !! k).
  { intros j y k s Hne Hj Hk. unfold view_asks. apply lookup_union_r. destruct (tx_asks x !! k) as [s'|] eqn:Hxk; [|done].
    destruct Hne. apply (i_excl _ Hi j i y x (RAsk k)); try done;
      [by apply (i_own _ Hi j y k s)|by apply (i_own _ Hi i x k s')]. }
  assert (HnoT : forall j y, j <> i -> w_txns w !! j = Some y -> RTask ∉ tx_holds y).
  { intros j y Hne Hj HTy. by apply Hne, (i_excl _ Hi j i y x RTask). }
  split; cbn [commit w_task w_asks w_seq w_txns].
  - done.
  - intros j1 j2 y1 y2 r [_ H1]%lookup_delete_Some [_ H2]%lookup_delete_Some. by apply (i_excl _ Hi).
  - intros j y [Hne Hj]%lookup_delete_Some. pose proof (i_pos _ Hi j y Hj) as Hpos. pose proof (HnoT j y (not_eq_sym Hne) Hj) as HT'.
    assert (Hcl : closing w y -> closing (commit i x w) y).
    { intros Hc k s Hk. destruct (Hc k s Hk) as [Hs Hwk]. split; [done|]. cbn [commit w_asks].
      by rewrite (Hfree j y k s (not_eq_sym Hne) Hj Hk). }
    unfold pos_ok, ready in *. repeat case_match; naive_solver.
  - intros j y k s [_ Hj]%lookup_delete_Some. by apply (i_own _ Hi j).
  - intros j y k [_ Hj]%lookup_delete_Some. by apply (i_held _ Hi j).
  - intros k s. unfold view_asks. rewrite lookup_union_Some_raw. intros [Hk|[_ Hk]].
    + apply (i_held _ Hi i x k Hx). by apply (i_own _ Hi i x k s).
    + by apply (i_seq _ Hi k s).
Qed.

(** ** Statements on asks *)

Lemma elem_candidates w x p k : k ∈ candidates w x p <-> view_asks w x !! k = Some AsPending /\ p k = true.
Proof.
  unfold candidates. rewrite list_elem_of_fmap. split.
  - intros ([k' s] & -> & Hin%elem_of_map_to_list). apply map_lookup_filter_Some in Hin as [Hk [Hp Hs]]. cbn in *. by subst.
  - intros [Hk Hp]. exists (k, AsPending). split; [done|]. apply elem_of_map_to_list, map_lookup_filter_Some. done.
Qed.

(** A row the transaction writes was pending for everyone. *)
Lemma view_pending w x k : closing w x -> view_asks w x !! k = Some AsPending -> w_asks w !! k = Some AsPending /\ tx_asks x !! k = None.
Proof.
  intros Hc. unfold view_asks. rewrite lookup_union_Some_raw. intros [Hk|[Hn Hk]]; [by destruct (Hc k _ Hk)|done].
Qed.

Lemma closing_write w x k st : closing w x -> w_asks w !! k = Some AsPending -> st <> AsPending -> closing w (write_ask k st x).
Proof.
  intros Hc Hk Hst k' s'. cbn. destruct (decide (k' = k)) as [->|]; [rewrite lookup_insert_eq|rewrite lookup_insert_ne by done; apply Hc].
  by intros [= <-].
Qed.

Lemma inv_put_write w i x x' k st :
  inv w -> w_txns w !! i = Some x -> free w i (RAsk k) = true -> k < w_seq w ->
  tx_holds x' = {[RAsk k]} ∪ tx_holds x -> tx_asks x' = <[k := st]> (tx_asks x) -> pos_ok w x' -> inv (put i x' w).
Proof.
  intros Hi Hx Hf Hk Hh Ha Hp. apply (inv_put w (w_seq w) i x x'); try done.
  - intros r. rewrite Hh, elem_of_union, elem_of_singleton. intros [->|?]; [right|by left]. intros j y. by apply free_spec.
  - intros k' s. rewrite Ha, Hh. destruct (decide (k' = k)) as [->|]; [rewrite lookup_insert_eq|rewrite lookup_insert_ne by done].
    + intros [= <-]. set_solver.
    + intros Hk'%(i_own _ Hi i x k' s Hx). set_solver.
  - intros k'. rewrite Hh, elem_of_union, elem_of_singleton. intros [[= ->]|?%(i_held _ Hi i x k' Hx)]; done.
Qed.

Lemma target_closes s p st : ask_target s = Some (p, st) -> st <> AsPending.
Proof. by destruct s; intros [= <- <-]. Qed.

(** The programs that start with an ask statement. *)
Lemma ask_stmt_pos w x s rest p st :
  pos_ok w x -> tx_prog x = s :: rest -> ask_target s = Some (p, st) ->
  closing w x /\
  (rest = [] /\ s = CancelForTask /\ tx_task x = Some TsCancelled /\ RTask ∈ tx_holds x
   \/ tx_task x = None /\ (rest = [StateLockedInTx; MarkCancelled; CancelForTask] /\ s = CancelForTask
        \/ rest = [ResumeFromAsk] /\ is_resolve s = true \/ rest = [FailAwaitingOperator] /\ is_resolve s = false)).
Proof.
  unfold pos_ok. intros Hp Hprog Ht. rewrite Hprog in Hp.
  destruct s; try discriminate Ht; repeat case_match; naive_solver.
Qed.

(** The second sweep of a cancel has every pending ask written or ahead of it. *)
Definition covers (w : World) (x : Txn) : Prop :=
  forall todo, tx_todo x = Some todo -> forall k, w_asks w !! k = Some AsPending -> is_Some (tx_asks x !! k) \/ k ∈ todo.

Lemma last_sweep_covers w x : pos_ok w x -> tx_prog x = [CancelForTask] -> covers w x.
Proof. unfold pos_ok. intros Hp E. rewrite E in Hp. exact (proj2 (proj2 (proj2 Hp))). Qed.

(** Within an ask statement. *)
Lemma ask_stmt_keep w x x' s rest p st :
  pos_ok w x -> tx_prog x = s :: rest -> ask_target s = Some (p, st) -> tx_prog x' = s :: rest -> tx_task x' = tx_task x ->
  (RTask ∈ tx_holds x -> RTask ∈ tx_holds x') -> closing w x' -> (rest = [] -> covers w x') -> pos_ok w x'.
Proof.
  intros Hp Hprog Ht Hprog' Htask Hh Hc Hcov. destruct (ask_stmt_pos _ _ _ _ _ _ Hp Hprog Ht) as [_ Hcases].
  unfold pos_ok. rewrite Hprog', Htask.
  destruct Hcases as [(-> & -> & -> & HT)|(-> & [[-> ->]|[[-> Hr]|[-> Hr]]])].
  - split; [done|]. split; [done|]. split; [auto|]. by apply Hcov.
  - done.
  - by destruct s.
  - unfold pos_ok in Hp. rewrite Hprog in Hp. by destruct s.
Qed.

Lemma inv_ask_stmt w i x s rest p st w' :
  inv w -> w_txns w !! i = Some x -> tx_prog x = s :: rest -> ask_target s = Some (p, st) -> advance i w = Some w' -> inv w'.
Proof.
  intros Hi Hx Hprog Ht Hadv. unfold advance in Hadv. rewrite Hx in Hadv. cbn [mbind option_bind] in Hadv.
  rewrite Hprog, Ht in Hadv. pose proof (i_pos _ Hi i x Hx) as Hp.
  destruct (ask_stmt_pos _ _ _ _ _ _ Hp Hprog Ht) as [Hc Hcases].
  destruct (tx_todo x) as [[|k ks]|] eqn:Htodo.
  - destruct (is_resolve s && bool_decide (tx_asks x = ∅)) eqn:Hres; injection Hadv as <-; [by apply inv_drop|].
    apply (inv_put_same w i x); try done. unfold pos_ok. cbn [proceed_to tx_prog].
    destruct Hcases as [(-> & -> & Htask & HT)|(Htask & [[-> _]|[[-> Hr]|[-> _]]])]; cbn [proceed_to tx_task].
    + right. split; [done|]. unfold view_task. cbn [proceed_to tx_task]. rewrite Htask. apply together_none; [done|].
      apply (closed_view w x Hc). intros k Hk.
      destruct (last_sweep_covers w x Hp Hprog [] Htodo k Hk) as [?|?%not_elem_of_nil]; done.
    + done.
    + split; [done|]. split; [done|]. rewrite Hr in Hres. cbn in Hres. by apply bool_decide_eq_false in Hres.
    + done.
  - destruct (free w i (RAsk k)) eqn:Hf; [|done]. case_bool_decide as Hv; injection Hadv as <-.
    + destruct (view_pending w x k Hc Hv) as [Hwk Hnk].
      apply (inv_put_write w i x _ k st); try done; [by apply (i_seq _ Hi k AsPending)|].
      apply (ask_stmt_keep w x _ s rest p st); try done.
      * cbn. set_solver.
      * apply (closing_write w x k st); [done..|]. by apply (target_closes s p).
      * intros -> todo [= <-] k' Hk'. cbn. destruct (decide (k' = k)) as [->|]; [rewrite lookup_insert_eq; eauto|].
        rewrite lookup_insert_ne by done. destruct Hcases as [(_ & -> & _)|(_ & [[? _]|[[? _]|[? _]]])]; try done.
        destruct (last_sweep_covers w x Hp Hprog _ Htodo k' Hk') as [?|[?|?]%elem_of_cons]; [by left|done|by right].
    + apply (inv_put_same w i x); try done. apply (ask_stmt_keep w x _ s rest p st); try done.
      intros -> todo [= <-] k' Hk'. cbn. destruct Hcases as [(_ & -> & _)|(_ & [[? _]|[[? _]|[? _]]])]; try done.
      destruct (last_sweep_covers w x Hp Hprog _ Htodo k' Hk') as [?|[->|?]%elem_of_cons]; [by left| |by right].
      left. destruct (tx_asks x !! k) eqn:E; [done|]. destruct Hv. unfold view_asks. by rewrite lookup_union_r.
  - injection Hadv as <-. apply (inv_put_same w i x); try done. apply (ask_stmt_keep w x _ s rest p st); try done.
    intros -> todo [= <-] k Hk. cbn. destruct (tx_asks x !! k) eqn:E; [by left|right]. apply elem_candidates.
    split; [unfold view_asks; by rewrite lookup_union_r|].
    destruct Hcases as [(_ & -> & _)|(_ & [[? _]|[[? _]|[? _]]])]; try done. by injection Ht as <- <-.
Qed.

(** ** Statements on the task row *)

(** An ask is inserted only while its task is held suspended. *)
Lemma inv_insert_ask w i x rest w' :
  inv w -> w_txns w !! i = Some x -> tx_prog x = InsertAsk :: rest -> advance i w = Some w' -> inv w'.
Proof.
  intros Hi Hx Hprog Hadv. unfold advance in Hadv. rewrite Hx in Hadv. cbn [mbind option_bind] in Hadv.
  rewrite Hprog in Hadv. cbn in Hadv. injection Hadv as <-. pose proof (i_pos _ Hi i x Hx) as Hp. unfold pos_ok in Hp.
  rewrite Hprog in Hp. destruct rest as [|]; [|done]. destruct Hp as (HT & Htask & Hrun & Ha).
  assert (Hfresh : w_asks w !! w_seq w = None).
  { destruct (w_asks w !! w_seq w) eqn:E; [|done]. apply (i_seq _ Hi) in E. lia. }
  apply (inv_put w (w_seq w + 1) i x); [done|done|lia|..].
  - intros r. cbn. rewrite elem_of_union, elem_of_singleton. intros [->|?]; [|by left]. right.
    intros j y Hj Hr%(i_held _ Hi j y _ Hj). lia.
  - intros k s. cbn. rewrite Ha, lookup_insert_Some, lookup_empty. intros [[<- _]|[_ ?]]; [set_solver|done].
  - intros k. cbn. rewrite elem_of_union, elem_of_singleton. intros [[= ->]|?%(i_held _ Hi i x k Hx)]; lia.
  - right. split; [cbn; set_solver|]. unfold view_task, view_asks. cbn. rewrite Htask, Ha. cbn.
    exists (w_seq w). intros k. rewrite lookup_union_Some_raw, lookup_insert_Some, lookup_insert_None, lookup_empty.
    split; [|intros ->; by left; left]. intros [[[-> _]|[_ ?]]|[_ Hk]]; [done..|].
    by destruct (together_quiet _ _ k (i_together _ Hi)); [rewrite Hrun|].
Qed.

(** A statement on the task row that finds it in a state it takes. *)
Lemma hit_pos w x s rest o :
  inv w -> pos_ok w x -> tx_prog x = s :: rest -> skips s x = false -> ask_target s = None -> s <> InsertAsk ->
  task_effect s (view_task w x) = Hit o -> pos_ok w (proceed_to rest (lock_task o x)).
Proof.
  intros Hi Hp Hprog Hsk Ht Hni He. unfold pos_ok in Hp. rewrite Hprog in Hp.
  assert (Hall : tx_task x = None -> closing w x -> tx_asks x <> ∅ -> forall k, view_asks w x !! k <> Some AsPending).
  { intros _ Hc Hne. apply (closed_view w x Hc). intros k Hk. apply map_choose in Hne as (k' & s' & Hk').
    destruct (Hc k' s' Hk') as [_ Hw]. by rewrite (together_unique _ _ _ _ (i_together _ Hi) Hk Hw). }
  assert (Hq : quiet x -> view_task w x = w_task w /\ view_asks w x = w_asks w).
  { intros [E1 E2]. unfold view_task, view_asks. by rewrite E1, E2, (left_id_L ∅ (∪)). }
  destruct s; try discriminate Ht; try done; cbn [task_effect] in He.
  - destruct rest as [|[] [|[] []]]; try done. injection He as <-. destruct Hp as [Hn Hc].
    split; [done|]. split; [done|]. cbn. set_solver.
  - destruct rest as [|[] []]; try done. destruct Hp as (Hn & Hc & HT).
    destruct (view_task w x); try discriminate He; injection He as <-; (split; [done|]; split; [done|]; split; [cbn; set_solver|done]).
  - destruct rest as [|[] []]; try done. destruct (Hq Hp) as [E _]. rewrite E in He.
    destruct (w_task w) eqn:Ew; try discriminate He. injection He as <-. destruct Hp as [Hn Ha].
    split; [cbn; set_solver|]. done.
  - destruct rest; try done. destruct Hp as (Hn & Hc & Hne). destruct (view_task w x); try discriminate He. injection He as <-.
    right. split; [cbn; set_solver|]. apply together_none; [done|]. by apply Hall.
  - destruct rest; try done. destruct Hp as (Hn & Hc). cbn in Hsk. apply bool_decide_eq_false in Hsk.
    destruct (view_task w x); try discriminate He. injection He as <-.
    right. split; [cbn; set_solver|]. apply together_none; [done|]. by apply Hall.
  - destruct rest; try done. destruct (Hq Hp) as [E1 E2]. rewrite E1 in He. destruct (w_task w) eqn:Ew; try discriminate He.
    injection He as <-. right. split; [cbn; set_solver|]. apply together_none; [done|]. intros k.
    change (view_asks w x !! k <> Some AsPending). rewrite E2. apply (together_quiet _ _ k (i_together _ Hi)). by rewrite Ew.
  - destruct rest; try done. destruct Hp as [Hp Hs]. destruct (Hq Hp) as [E1 E2]. rewrite E1 in He.
    destruct (w_task w) eqn:Ew; try discriminate He. injection He as <-. right. split; [cbn; set_solver|].
    apply together_none; [by destruct s|]. intros k.
    change (view_asks w x !! k <> Some AsPending). rewrite E2. apply (together_quiet _ _ k (i_together _ Hi)). by rewrite Ew.
Qed.

(** One that passes over it. *)
Lemma miss_pos w x s rest :
  inv w -> pos_ok w x -> tx_prog x = s :: rest ->
  skips s x = true \/ task_effect s (view_task w x) = Miss \/ is_claim s = true ->
  ask_target s = None -> s <> InsertAsk -> pos_ok w (proceed_to rest x).
Proof.
  intros Hi Hp Hprog Hm Ht Hni. unfold pos_ok in Hp. rewrite Hprog in Hp.
  destruct s; try discriminate Ht; try done; cbn in Hm; try (by naive_solver); try (by destruct (view_task w x); naive_solver).
  - destruct rest; [|done]. destruct Hp as [Hn Hc]. left. split; [done|]. cbn. destruct Hm as [?%bool_decide_eq_true|[Hv|[=]]]; [done|].
    destruct (decide (tx_asks x = ∅)) as [|Hne]; [done|]. apply map_choose in Hne as (k & s' & Hk).
    destruct (Hc k s' Hk) as [_ Hw]. pose proof (together_pending _ _ _ (i_together _ Hi) Hw) as Ha.
    unfold view_task in Hv. rewrite Hn in Hv. cbn in Hv. by rewrite Ha in Hv.
  - destruct rest; [|done]. by left.
  - destruct rest; [|done]. by left; destruct Hp.
Qed.

Lemma inv_advance w i w' : inv w -> advance i w = Some w' -> inv w'.
Proof.
  intros Hi Hadv. destruct (w_txns w !! i) as [x|] eqn:Hx.
  2:{ unfold advance in Hadv. by rewrite Hx in Hadv. }
  destruct (tx_prog x) as [|s rest] eqn:Hprog.
  { unfold advance in Hadv. rewrite Hx in Hadv. cbn in Hadv. rewrite Hprog in Hadv. injection Hadv as <-. by apply inv_commit. }
  destruct (ask_target s) as [[p st]|] eqn:Ht; [by eapply inv_ask_stmt|].
  assert (s = InsertAsk \/ s <> InsertAsk) as [->|Hni] by (destruct s; auto); [by eapply inv_insert_ask|].
  pose proof (i_pos _ Hi i x Hx) as Hp. unfold advance in Hadv. rewrite Hx in Hadv. cbn [mbind option_bind] in Hadv.
  rewrite Hprog, Ht in Hadv.
  assert (Hadv' : (if skips s x then Some (put i (proceed_to rest x) w) else
              match task_effect s (view_task w x) with
              | Miss => Some (put i (proceed_to rest x) w)
              | Rollback => Some (drop_txn i w)
              | Hit o =>
                  if free w i RTask then Some (put i (proceed_to rest (lock_task o x)) w)
                  else if is_claim s then Some (put i (proceed_to rest x) w)
                  else None
              end) = Some w') by (by destruct s).
  clear Hadv. destruct (skips s x) eqn:Hsk.
  { injection Hadv' as <-. apply (inv_put_same w i x); try done. apply (miss_pos w x s); auto. }
  destruct (task_effect s (view_task w x)) as [o| |] eqn:He.
  - destruct (free w i RTask) eqn:Hf.
    + injection Hadv' as <-. eapply (inv_put_lock w i x); try done. by apply (hit_pos w x s).
    + destruct (is_claim s) eqn:Hcl; [|done]. injection Hadv' as <-. apply (inv_put_same w i x); try done.
      apply (miss_pos w x s); auto.
  - injection Hadv' as <-. apply (inv_put_same w i x); try done. apply (miss_pos w x s); auto.
  - injection Hadv' as <-. by apply inv_drop.
Qed.

Lemma inv_init : inv init.
Proof. split; cbn; try done. Qed.

Lemma inv_reachable w : reachable w -> inv w.
Proof.
  intros Hw. refine (rtc_ind_r inv init inv_init _ w Hw). intros w1 w2 _ Hstep Hi.
  destruct Hstep; [by apply inv_begin|by eapply inv_advance|by apply inv_drop].
Qed.

(** * Properties *)

(** C11. However the transactions that raise, answer, expire and cancel a
    question, claim its task and finish it interleave, statement by statement and
    with aborts anywhere, every committed state of the two tables has the task
    awaiting the operator exactly when it has a pending ask, and then only one. *)
Theorem interleavings_keep_question_and_task_together w :
  reachable w -> together (w_task w) (w_asks w).
Proof. intros Hw. apply (inv_reachable w Hw). Qed.

(** ** Schedules *)

(** What the scheduler does next: begin a transaction or move one on. *)
Inductive Act := Begin (i : nat) (j : Job) | Go (i : nat).

Definition act (a : Act) (w : World) : option World :=
  match a with
  | Begin i j => if decide (w_txns w !! i = None) then Some (put i (start j) w) else None
  | Go i => advance i w
  end.

Definition play (l : list Act) : option World := foldl (fun o a => o ≫= act a) (Some init) l.

Definition no_finalize (a : Act) : bool := match a with Begin _ (JFinalize _) => false | _ => true end.

Lemma play_reachable l w : forallb no_finalize l = true -> play l = Some w -> reachable w.
Proof.
  unfold play. revert w. induction l as [|a l IH] using rev_ind; intros w; [by intros _ [= <-]; apply rtc_refl|].
  rewrite forallb_app, foldl_snoc. intros [Hl Ha]%andb_true_iff Hw. cbn in Ha. rewrite andb_true_r in Ha.
  apply bind_Some in Hw as (w1 & H1 & H2). apply (rtc_r init w1); [by apply IH|].
  destruct a as [i j|i]; cbn in H2; [|by eapply step_advance].
  destruct (decide _); [|done]. injection H2 as <-. apply step_begin; [done|]. intros s ->. done.
Qed.

(** The cancel sweeps the asks and finds none; a claimed task then suspends on
    ask 1; the operator's answer takes the ask, the cancel takes the task row,
    and each waits for the other. *)
Definition deadlock_schedule : list Act :=
  [Begin 1 JClaim; Go 1; Go 1;
   Begin 2 JCancel; Go 2; Go 2;
   Begin 3 JRaise; Go 3; Go 3; Go 3;
   Begin 4 (JResolve 1); Go 4; Go 4; Go 4;
   Go 2; Go 2; Go 2].

Definition waiting_on (w : World) (i j : nat) : bool :=
  match w_txns w !! i, w_txns w !! j with
  | Some x, Some y => match needs w x with Some r => bool_decide (r ∈ tx_holds y) | None => false end
  | _, _ => false
  end.

Lemma waiting_on_spec w i j : i <> j -> waiting_on w i j = true -> waits_for w i j.
Proof.
  intros Hne. unfold waiting_on, waits_for. destruct (w_txns w !! i) as [x|]; [|done].
  destruct (w_txns w !! j) as [y|]; [|done]. destruct (needs w x) as [r|] eqn:E; [|done].
  intros Hr%bool_decide_eq_true. split; [done|]. by exists x, y, r.
Qed.

(** The second sweep of [mark_cancelled] can deadlock: a schedule of one
    raise, one cancel and one answer reaches a state where the cancel, holding the
    task row, waits for the ask, and the answer, holding the ask, waits for the
    task row.  (The comment on the function says it cannot.) *)
Theorem cancel_can_deadlock :
  exists w, reachable w /\ waits_for w 2 4 /\ waits_for w 4 2 /\ advance 2 w = None /\ advance 4 w = None.
Proof.
  destruct (play deadlock_schedule) as [w|] eqn:E; [|vm_compute in E; discriminate E].
  exists w. split; [by apply (play_reachable deadlock_schedule)|].
  vm_compute in E. injection E as <-.
  split; [apply waiting_on_spec; [done|vm_compute; reflexivity]|].
  split; [apply waiting_on_spec; [done|vm_compute; reflexivity]|].
  split; vm_compute; reflexivity.
Qed.

(** ** Witnesses *)

(** The raise commits between the two sweeps of a cancel, and the second one
    settles its question. *)
Definition race_schedule : list Act :=
  [Begin 1 JClaim; Go 1; Go 1;
   Begin 2 JCancel; Go 2; Go 2;
   Begin 3 JRaise; Go 3; Go 3; Go 3;
   Go 2; Go 2; Go 2; Go 2; Go 2; Go 2].

Example race_outcome :
  (fun w => (w_task w, map_to_list (w_asks w), map_to_list (w_txns w))) <$> play race_schedule
  = Some (TsCancelled, [(1, AsCancelled)], []).
Proof. vm_compute. reflexivity. Qed.

Lemma interleavings_keep_question_and_task_together_witness :
  exists w, play race_schedule = Some w /\ together (w_task w) (w_asks w).
Proof.
  destruct (play race_schedule) as [w|] eqn:E; [|vm_compute in E; discriminate E].
  exists w. split; [reflexivity|].
  apply (interleavings_keep_question_and_task_together w). apply (play_reachable race_schedule); [reflexivity|exact E].
Defined.
