(* ===== verification/Channel.v ===== *)
(** The channel bus's two ends (src/core/src/channel): the inbound path every
    message of an external peer takes, from the NUL boundary (inbound_nul.rs)
    through authorisation (auth.rs), pairing (pairing.rs, src/db/src/pairings.rs),
    answers and containment (bus_inbound.rs, bus.rs) to screening and the task
    queue (ingest.rs), and the mapping of a finished task to its reply (route.rs).

    The bus acts on the tables of TaskStore and on the pairing tables; every
    database call of a message may fail, as [Faults] chooses.  The registry of
    transports, the pumps and their threads are not here: this is what one
    message does. *)

From stdpp Require Import base gmap list sets numbers strings pretty.
From Stdlib Require Import ZArith Lia.
From S2P Require Import Prelude RustStr Fingerprint HashesWire Json NulRule Cassandra InjectionGuard PlanJson Asks LoopPure InnerLoop.
From S2P Require Import AskMessage TaskStore TaskLifecycle.
Local Open Scope Z_scope.

(** * Messages *)

Record PeerEvidence := mkEvidence { ev_dmarc_pass : bool; ev_presented_token : option bytes }.

Record IncomingMessage := mkIn {
  im_channel : bytes; im_peer : bytes; im_conversation : bytes; im_body : bytes; im_evidence : option PeerEvidence }.

(** * pairings.rs *)

Record Pairing := mkPairing {
  pr_id : Z; pr_channel : bytes; pr_peer : bytes; pr_method : bytes; pr_paired_at : Z; pr_revoked_at : option Z;
  pr_token_sha256 : option bytes }.

Record PairingCode := mkCode {
  pc_id : Z; pc_code_sha256 : bytes; pc_label : option bytes; pc_expires_at : Z; pc_consumed : option (Z * bytes) }.

(** The two tables and their key sequences. *)
Record Registry := mkRegistry { rg_pairings : list Pairing; rg_codes : list PairingCode; rg_seq : Z; rg_code_seq : Z }.

Definition refuse_nul_key (channel peer : bytes) : result () DbError :=
  match refuse_nul_in_text (bs "pairings.channel") channel with
  | Err e => Err e
  | Ok _ => refuse_nul_in_text (bs "pairings.peer") peer
  end.

Definition active_for (channel peer : bytes) (p : Pairing) : bool :=
  bytes_eqb (pr_channel p) channel && bytes_eqb (pr_peer p) peer && bool_decide (pr_revoked_at p = None).

Definition is_paired (channel peer : bytes) (rg : Registry) : bool :=
  match refuse_nul_key channel peer with
  | Err _ => false
  | Ok _ => existsb (active_for channel peer) (rg_pairings rg)
  end.

(** [ON CONFLICT .. DO NOTHING] on the partial unique index. *)
Definition insert_pairing (channel peer method : bytes) (now : Z) (rg : Registry) : result bool DbError * Registry :=
  match refuse_nul_key channel peer with
  | Err e => (Err e, rg)
  | Ok _ =>
      if existsb (active_for channel peer) (rg_pairings rg) then (Ok false, rg)
      else (Ok true, mkRegistry (rg_pairings rg ++ [mkPairing (rg_seq rg) channel peer method now None None])
                       (rg_codes rg) (rg_seq rg + 1) (rg_code_seq rg))
  end.

(** The same without the conflict clause: a second active pairing is an error. *)
Definition insert_pairing_with_token (channel peer method : bytes) (token_sha256 : option bytes) (now : Z) (rg : Registry) :
    result Z DbError * Registry :=
  match refuse_nul_key channel peer with
  | Err e => (Err e, rg)
  | Ok _ =>
      if existsb (active_for channel peer) (rg_pairings rg)
      then (Err (query_error (bs "pairings_active_uniq")), mkRegistry (rg_pairings rg) (rg_codes rg) (rg_seq rg + 1) (rg_code_seq rg))
      else (Ok (rg_seq rg),
            mkRegistry (rg_pairings rg ++ [mkPairing (rg_seq rg) channel peer method now None token_sha256])
              (rg_codes rg) (rg_seq rg + 1) (rg_code_seq rg))
  end.

Definition revoke (now : Z) (p : Pairing) : Pairing :=
  mkPairing (pr_id p) (pr_channel p) (pr_peer p) (pr_method p) (pr_paired_at p) (Some now) (pr_token_sha256 p).

Definition revoke_pairing (channel peer : bytes) (now : Z) (rg : Registry) : result bool DbError * Registry :=
  match refuse_nul_key channel peer with
  | Err e => (Err e, rg)
  | Ok _ =>
      let hits := List.filter (active_for channel peer) (rg_pairings rg) in
      (Ok (length hits =? 1)%nat,
       mkRegistry (map (fun p => if active_for channel peer p then revoke now p else p) (rg_pairings rg))
         (rg_codes rg) (rg_seq rg) (rg_code_seq rg))
  end.

(** No pairing, a pairing without a token, a pairing with one. *)
Definition token_hash_for (channel peer : bytes) (rg : Registry) : option (option bytes) :=
  match refuse_nul_key channel peer with
  | Err _ => None
  | Ok _ => pr_token_sha256 <$> List.find (active_for channel peer) (rg_pairings rg)
  end.

Definition insert_code (code_sha256 : bytes) (label : option bytes) (ttl_minutes utc : Z) (rg : Registry) :
    result Z DbError * Registry :=
  match match label with Some l => refuse_nul_in_text (bs "pairing_codes.label") l | None => Ok tt end with
  | Err e => (Err e, rg)
  | Ok _ =>
      (Ok (rg_code_seq rg), mkRegistry (rg_pairings rg)
         (rg_codes rg ++ [mkCode (rg_code_seq rg) code_sha256 label (utc + ttl_minutes * 60 * 1000000000) None])
         (rg_seq rg) (rg_code_seq rg + 1))
  end.

Definition claimable_code (now : Z) (c : PairingCode) : bool :=
  bool_decide (pc_consumed c = None) && (now <? pc_expires_at c).

Definition any_active_code (now : Z) (rg : Registry) : bool := existsb (claimable_code now) (rg_codes rg).

Definition code_hit (h : bytes) (now : Z) (c : PairingCode) : bool := bytes_eqb (pc_code_sha256 c) h && claimable_code now c.

Definition consume (by_ : bytes) (now : Z) (c : PairingCode) : PairingCode :=
  mkCode (pc_id c) (pc_code_sha256 c) (pc_label c) (pc_expires_at c) (Some (now, by_)).

(** [rows_affected() == 1] *)
Definition claim_code (h by_ : bytes) (now : Z) (rg : Registry) : result bool DbError * Registry :=
  match refuse_nul_in_text (bs "pairing_codes.consumed_by") by_ with
  | Err e => (Err e, rg)
  | Ok _ =>
      (Ok (length (List.filter (code_hit h now) (rg_codes rg)) =? 1)%nat,
       mkRegistry (rg_pairings rg) (map (fun c => if code_hit h now c then consume by_ now c else c) (rg_codes rg)) (rg_seq rg) (rg_code_seq rg))
  end.

(** * auth.rs *)

Inductive UnauthenticReason := PairingHasNoToken | NoEvidence | DmarcFail | NoToken | TokenMismatch.

Definition reason_str (r : UnauthenticReason) : bytes :=
  match r with
  | PairingHasNoToken => bs "pairing_has_no_token" | NoEvidence => bs "no_evidence" | DmarcFail => bs "dmarc_fail"
  | NoToken => bs "no_token" | TokenMismatch => bs "token_mismatch"
  end.

Inductive AuthDecision := Recognised | Rejected | RejectedUnauthentic (r : UnauthenticReason) | RejectedUnverifiable.

(** The fold of [|] over the [^] of the bytes. *)
Definition constant_time_eq (a b : bytes) : bool :=
  if negb (length a =? length b)%nat then false
  else (fold_left (fun acc xy => Z.lor acc (Z.lxor xy.1 xy.2)) (zip a b) 0 =? 0)%Z.

(** What the daemon's database does during one message. *)
Record Faults := mkFaults {
  f_lookup : bool; f_any_code : bool; f_pair : bool; f_resolve : bool; f_live : bool; f_enqueue : bool; f_audit : bool }.

Definition no_faults : Faults := mkFaults false false false false false false false.

(** * inbound_nul.rs *)

Definition REASON_NUL : bytes := bs "nul".
Definition NUL_ESCAPED_BODY_KEY : bytes := bs "nul_escaped_body".

Inductive MalformedField := MfChannel | MfPeer | MfConversation.

Definition malformed_field_str (f : MalformedField) : bytes :=
  match f with MfChannel => bs "channel" | MfPeer => bs "peer" | MfConversation => bs "conversation" end.

Inductive NulScreen := NulClean | BodyEscaped (msg : IncomingMessage) (nuls : nat) | Malformed (f : MalformedField).

Definition with_body (m : IncomingMessage) (body : bytes) : IncomingMessage :=
  mkIn (im_channel m) (im_peer m) (im_conversation m) body (im_evidence m).

Definition screen_nul (m : IncomingMessage) : NulScreen :=
  if has_nul (im_channel m) then Malformed MfChannel
  else if has_nul (im_peer m) then Malformed MfPeer
  else if has_nul (im_conversation m) then Malformed MfConversation
  else let '(escaped, nuls) := escape_str (im_body m) in
       if (nuls =? 0)%nat then NulClean else BodyEscaped (with_body m escaped) nuls.

Record Admission := mkAdmission { ad_msg : IncomingMessage; ad_body_nuls : nat }.

Definition mark (a : Admission) (payload : Value) : Value :=
  if (0 <? ad_body_nuls a)%nat then
    match payload with
    | Object m => Object (map_insert NUL_ESCAPED_BODY_KEY (int_value (Z.of_nat (ad_body_nuls a))) m)
    | v => v
    end
  else payload.

(** * The bus *)

Record Bus := mkBus { bu_db : Db; bu_registry : Registry; bu_audit : list (bytes * Value) }.

Definition set_db (db : Db) (b : Bus) : Bus := mkBus db (bu_registry b) (bu_audit b).
Definition set_registry (rg : Registry) (b : Bus) : Bus := mkBus (bu_db b) rg (bu_audit b).

(** Best-effort. *)
Definition audit (fl : Faults) (action : bytes) (payload : Value) (b : Bus) : Bus :=
  if f_audit fl then b else mkBus (bu_db b) (bu_registry b) (bu_audit b ++ [(action, payload)]).

Definition who (m : IncomingMessage) : list (bytes * Value) :=
  [(bs "channel", String (im_channel m)); (bs "peer", String (im_peer m))].

Definition admit_message (fl : Faults) (m : IncomingMessage) (b : Bus) : option Admission * Bus :=
  match screen_nul m with
  | NulClean => (Some (mkAdmission m 0), b)
  | BodyEscaped m' nuls => (Some (mkAdmission m' nuls), b)
  | Malformed f =>
      (None, audit fl (bs "channel.rejected_malformed")
               (object (who m ++ [(bs "field", String (malformed_field_str f)); (bs "reason", String REASON_NUL)])) b)
  end.

Definition PAIRED_ACK_BODY : bytes := bs "✓ Paired — you can now message me.".

Inductive PairingOutcome := Paired | NotAPairingAttempt.

(** * ingest.rs *)

Definition INGEST_SCAN_BYTE_CAP : Z := 64 * 1024.

Inductive InboundDecision :=
| Enqueue (payload : Value)
| InjectionBlocked (sha : bytes) (reason_codes : list bytes) (score : Z).

Definition build_channel_task_payload (m : IncomingMessage) : Value :=
  object [(bs "kind", String (bs "channel")); (bs "instruction", String (im_body m));
          (bs "classification_floor", String (bs "Public")); (bs "classification_floor_source", String (bs "default"));
          (bs "channel", String (im_channel m)); (bs "peer", String (im_peer m));
          (bs "conversation", String (im_conversation m))].

Definition ack (m : IncomingMessage) (body : bytes) : option OutgoingMessage :=
  Some (mkOut (im_channel m) (im_peer m) (im_conversation m) body).

Definition ASK_REASON_UNRESOLVABLE : bytes := bs "unresolvable".
Definition ASK_REASON_CARRIES_LIVE_TOKEN : bytes := bs "carries_live_token".
Definition ASK_REASON_UNSCANNABLE : bytes := bs "unscannable".
Definition ASK_REASON_MALFORMED : bytes := bs "malformed".

Section Inbound.
Context `{UnicodeStr} `{UnicodeChar} `{CharClass} `{Sha256} `{Text} (f32_value : Z -> Value).

Definition ingest_sha256_hex (b : bytes) : bytes := sha256_hex (sha256 b).

Definition authorize (fl : Faults) (m : IncomingMessage) (rg : Registry) : AuthDecision :=
  if f_lookup fl then RejectedUnverifiable
  else
    match token_hash_for (im_channel m) (im_peer m) rg with
    | None => Rejected
    | Some None => match im_evidence m with Some _ => RejectedUnauthentic PairingHasNoToken | None => Recognised end
    | Some (Some expected) =>
        match im_evidence m with
        | None => RejectedUnauthentic NoEvidence
        | Some ev =>
            if negb (ev_dmarc_pass ev) then RejectedUnauthentic DmarcFail
            else match ev_presented_token ev with
                 | None => RejectedUnauthentic NoToken
                 | Some t =>
                     if constant_time_eq (ingest_sha256_hex t) expected then Recognised
                     else RejectedUnauthentic TokenMismatch
                 end
        end
    end.

(** Claim and bind, in one transaction. *)
Definition try_pair (fl : Faults) (m : IncomingMessage) (now : Z) (rg : Registry) : PairingOutcome * Registry :=
  if f_any_code fl || negb (any_active_code now rg) then (NotAPairingAttempt, rg)
  else
    let h := ingest_sha256_hex (str_trim (im_body m)) in
    let by_ := im_channel m ++ bs "/" ++ im_peer m in
    if f_pair fl then (NotAPairingAttempt, rg)
    else
      match claim_code h by_ now rg with
      | (Ok true, rg1) =>
          match insert_pairing (im_channel m) (im_peer m) (bs "code") now rg1 with
          | (Ok _, rg2) => (Paired, rg2)
          | (Err _, _) => (NotAPairingAttempt, rg)
          end
      | _ => (NotAPairingAttempt, rg)
      end.

Definition screen_body (body : bytes) : InjectionVerdict :=
  screen_with_profile (extract_scannable_text (String body) INGEST_SCAN_BYTE_CAP).1 Strict.

Definition screen_and_classify (m : IncomingMessage) : InboundDecision :=
  let v := screen_body (im_body m) in
  match iv_decision v with
  | BlockInjection => InjectionBlocked (ingest_sha256_hex (im_body m)) (iv_reason_codes v) (iv_score v)
  | Allow => Enqueue (build_channel_task_payload m)
  end.

(** [PgAskResolver]; a failed call is an [Err] that wrote nothing. *)
Definition resolve_answer (fl : Faults) (cmd : AskCommand) (cl : Claimant) (now : Z) (b : Bus) :
    result (option ResolvedAsk) DbError * Bus :=
  if f_resolve fl then (Err (query_error (bs "asks resolve_with_nonce")), b)
  else
    let '(r, db') := resolve_with_nonce (ac_token cmd) cl (resolution (ask_choice_str (ac_choice cmd)) None) now (bu_db b) in
    (r, set_db db' b).

Definition any_live_nonce (fl : Faults) (tokens : list bytes) (cl : Claimant) (now : Z) (b : Bus) : result bool DbError :=
  if f_live fl then Err (query_error (bs "asks any_live_nonce_for_claimant"))
  else Ok (match tokens with [] => false | _ => any_live_nonce_for_claimant tokens cl now (bu_db b) end).

Definition claimant_of (m : IncomingMessage) : Claimant := mkClaimant (im_channel m) (im_peer m).

Definition containment_refusal (fl : Faults) (wired : bool) (m : IncomingMessage) (now : Z) (b : Bus) : option bytes :=
  if negb (looks_like_ask_command (im_body m)) then None
  else if negb wired then Some ASK_REASON_UNSCANNABLE
  else
    match candidate_tokens (im_body m) with
    | None => Some ASK_REASON_UNSCANNABLE
    | Some tokens =>
        match any_live_nonce fl tokens (claimant_of m) now b with
        | Ok true => Some ASK_REASON_CARRIES_LIVE_TOKEN
        | Ok false => None
        | Err _ => Some ASK_REASON_UNSCANNABLE
        end
    end.

Definition answer_rejected (fl : Faults) (m : IncomingMessage) (reason : bytes) (b : Bus) : Bus :=
  audit fl (bs "channel.ask_answer_rejected") (object (who m ++ [(bs "reason", String reason)])) b.

(** The answer to an ask, whatever it comes to. *)
Definition handle_answer (fl : Faults) (m : IncomingMessage) (cmd : AskCommand) (now : Z) (b : Bus) :
    option OutgoingMessage * Bus :=
  match resolve_answer fl cmd (claimant_of m) now b with
  | (Ok (Some rs), b1) =>
      (ack m (ack_resolved (ac_choice cmd) (rs_task_id rs)),
       audit fl (bs "ask.resolved")
         (object [(bs "ask_id", int_value (rs_ask_id rs)); (bs "task_id", int_value (rs_task_id rs));
                  (bs "choice", String (ask_choice_str (ac_choice cmd)));
                  (bs "resolved_by", String (attribution (claimant_of m))); (bs "via", String (bs "channel"))]) b1)
  | (_, b1) => (ack m ACK_NOT_ANSWERABLE, answer_rejected fl m ASK_REASON_UNRESOLVABLE b1)
  end.

Definition enqueue (fl : Faults) (payload : Value) (now : Z) (b : Bus) : result Z DbError * Bus :=
  if f_enqueue fl then (Err (query_error (bs "tasks insert")), b)
  else let '(r, db') := insert_pending Fast payload now (bu_db b) in (r, set_db db' b).

(** Screening and the queue. *)
Definition handle_body (fl : Faults) (a : Admission) (now : Z) (b : Bus) : Bus :=
  let m := ad_msg a in
  match screen_and_classify m with
  | Enqueue payload =>
      match enqueue fl payload now b with
      | (Ok id, b1) =>
          audit fl (bs "channel.received")
            (mark a (object ((bs "task_id", int_value id) :: who m ++ [(bs "conversation", String (im_conversation m))]))) b1
      | (Err _, b1) =>
          audit fl (bs "channel.enqueue_failed")
            (object (who m ++ [(bs "conversation", String (im_conversation m))])) b1
      end
  | InjectionBlocked sha codes score =>
      audit fl (bs "channel.injection_blocked")
        (mark a (object (who m ++ [(bs "sha256", String sha); (bs "reason_codes", Array (map String codes));
                                   (bs "score", f32_value score)]))) b
  end.

(** A recognised peer's message. *)
Definition handle_recognised (fl : Faults) (wired : bool) (a : Admission) (now : Z) (b : Bus) :
    option OutgoingMessage * Bus :=
  let m := ad_msg a in
  match (if wired then parse_ask_command (im_body m) else None) with
  | Some cmd => handle_answer fl m cmd now b
  | None =>
      let refusal :=
        match containment_refusal fl wired m now b with
        | Some r => Some r
        | None => if is_command_shaped (im_body m) then Some ASK_REASON_MALFORMED else None
        end in
      match refusal with
      | Some reason => (ack m ACK_MALFORMED_COMMAND, answer_rejected fl m reason b)
      | None => (None, handle_body fl a now b)
      end
  end.

(** A peer without an active pairing. *)
Definition handle_unpaired (fl : Faults) (pairing : bool) (m : IncomingMessage) (now : Z) (b : Bus) :
    option OutgoingMessage * Bus :=
  let unpaired b := (None, audit fl (bs "channel.rejected_unpaired") (object (who m)) b) in
  match im_evidence m with
  | None =>
      if pairing then
        match try_pair fl m now (bu_registry b) with
        | (Paired, rg) => (ack m PAIRED_ACK_BODY, audit fl (bs "channel.paired") (object (who m)) (set_registry rg b))
        | (NotAPairingAttempt, rg) => unpaired (set_registry rg b)
        end
      else unpaired b
  | Some _ => unpaired b
  end.

Definition handle_inbound (fl : Faults) (pairing wired : bool) (m0 : IncomingMessage) (now : Z) (b0 : Bus) :
    option OutgoingMessage * Bus :=
  match admit_message fl m0 b0 with
  | (None, b) => (None, b)
  | (Some a, b) =>
      let m := ad_msg a in
      match authorize fl m (bu_registry b) with
      | Recognised => handle_recognised fl wired a now b
      | RejectedUnauthentic r =>
          (None, audit fl (bs "channel.rejected_unauthentic") (object (who m ++ [(bs "reason", String (reason_str r))])) b)
      | RejectedUnverifiable => (None, audit fl (bs "channel.rejected_unverifiable") (object (who m)) b)
      | Rejected => handle_unpaired fl pairing m now b
      end
  end.

(** * route.rs *)

Context (to_string : Value -> bytes).

Definition str_field (v : Value) (key : bytes) : option bytes :=
  match get key v ≫= as_str with
  | Some s => match str_trim s with [] => None | _ => Some s end
  | None => None
  end.

Definition completion_body (result : Value) : bytes :=
  match str_field result (bs "body") with
  | Some s => s
  | None => match str_field result (bs "message") with Some s => s | None => to_string result end
  end.

Definition reply_body (result : option Value) : bytes :=
  match result with
  | None => bs "Task finished, but produced no result."
  | Some r =>
      let kind := get (bs "kind") r ≫= as_str in
      let detail := get (bs "detail") r ≫= as_str in
      if text_is kind (bs "error") && text_is detail ASK_TIMEOUT_DETAIL
      then bs "I needed an operator to approve something before continuing, and nobody answered in time, so I stopped."
      else if text_is kind (bs "error") && text_is detail CRASHED_DETAIL
      then bs "Sorry — I was restarted while working on that, so it never finished. Please ask again."
      else if text_is kind (bs "error") then bs "Sorry — that failed: " ++ default (bs "unknown error") detail
      else if text_is kind (bs "blocked")
      then bs "I can't do that (policy: " ++ default (bs "blocked") (get (bs "principle") r ≫= as_str) ++ bs ")."
      else if text_is kind (bs "refused") then default (bs "I have to decline that request.") (str_field r (bs "body"))
      else if text_is kind (bs "denied") then
        match str_field r (bs "reason") with
        | Some reason => bs "An operator declined that: " ++ reason ++ bs "."
        | None => bs "An operator declined that request."
        end
      else completion_body r
  end.

Definition reply_for_completed_task (payload : Value) (result : option Value) : option OutgoingMessage :=
  d ← destination_from_task_payload payload;
  Some (mkOut (ad_channel d) (ad_peer d) (ad_conversation d) (reply_body result)).

(** * kastellan-cli pair

    [up] is whether the admin connection opened; the exit code and what the
    commands leave behind.  A minted code or token is the argument [code]. *)

Definition cli_audit (action : bytes) (payload : Value) (b : Bus) : Bus :=
  mkBus (bu_db b) (bu_registry b) (bu_audit b ++ [(action, payload)]).

Definition opt_text (o : option bytes) : Value := match o with Some s => String s | None => Null end.

Definition pair_issue (up : bool) (code : bytes) (label : option bytes) (ttl utc : Z) (b : Bus) : Z * Bus :=
  if negb up then (1, b)
  else
    let h := ingest_sha256_hex code in
    match insert_code h label ttl utc (bu_registry b) with
    | (Err _, rg) => (1, set_registry rg b)
    | (Ok id, rg) =>
        (0, cli_audit (bs "pairing.code_issued")
              (object [(bs "id", int_value id); (bs "code_sha256", String h); (bs "label", opt_text label);
                       (bs "ttl_minutes", int_value ttl)]) (set_registry rg b))
    end.

(** The value after each flag; [None] is a usage error. *)
Fixpoint issue_token_flags (args : list bytes) (channel peer : option bytes) : option (option bytes * option bytes) :=
  match args with
  | [] => Some (channel, peer)
  | f :: rest =>
      if bytes_eqb f (bs "--channel") then match rest with v :: rest' => issue_token_flags rest' (Some v) peer | [] => None end
      else if bytes_eqb f (bs "--peer") then match rest with v :: rest' => issue_token_flags rest' channel (Some v) | [] => None end
      else None
  end.

Definition parse_issue_token_args (args : list bytes) : option (bytes * bytes) :=
  '(channel, peer) ← issue_token_flags args None None;
  c ← channel; p ← peer;
  let c' := str_trim c in let p' := to_ascii_lowercase (str_trim p) in
  match c', p' with [], _ | _, [] => None | _, _ => Some (c', p') end.

Definition pair_issue_token (up : bool) (token : bytes) (args : list bytes) (now : Z) (b : Bus) : Z * Bus :=
  match parse_issue_token_args args with
  | None => (2, b)
  | Some (channel, peer) =>
      if negb up then (1, b)
      else match token_hash_for channel peer (bu_registry b) with
           | Some _ => (1, b)
           | None =>
               let h := ingest_sha256_hex token in
               match insert_pairing_with_token channel peer (bs "operator") (Some h) now (bu_registry b) with
               | (Err _, rg) => (1, set_registry rg b)
               | (Ok id, rg) =>
                   (0, cli_audit (bs "pairing.token_issued")
                         (object [(bs "id", int_value id); (bs "channel", String channel); (bs "peer", String peer);
                                  (bs "token_sha256", String h)]) (set_registry rg b))
               end
           end
  end.

Definition pair_revoke (up : bool) (args : list bytes) (now : Z) (b : Bus) : Z * Bus :=
  match args with
  | [c; p] =>
      let channel := str_trim c in
      let peer := to_ascii_lowercase (str_trim p) in
      if negb up then (1, b)
      else match revoke_pairing channel peer now (bu_registry b) with
           | (Ok true, rg) =>
               (0, cli_audit (bs "pairing.revoked") (object [(bs "channel", String channel); (bs "peer", String peer)])
                     (set_registry rg b))
           | (Ok false, rg) => (0, set_registry rg b)
           | (Err _, rg) => (1, set_registry rg b)
           end
  | _ => (2, b)
  end.
End Inbound.

(** * What a message may do *)

Section Gate.
Context `{UnicodeStr} `{UnicodeChar} `{CharClass} `{Sha256} `{Text}.

(** The peer holds an active pairing and, where the pairing has a token, showed
    it in a message whose sender the mail system verified. *)
Definition vouched (m : IncomingMessage) (rg : Registry) : Prop :=
  exists p, p ∈ rg_pairings rg /\ pr_channel p = im_channel m /\ pr_peer p = im_peer m /\ pr_revoked_at p = None /\
    match pr_token_sha256 p with
    | None => im_evidence m = None
    | Some h => exists t, im_evidence m = Some (mkEvidence true (Some t)) /\ ingest_sha256_hex t = h
    end.

(** No word of the body, with or without the punctuation around it, is the token
    of an open question of this peer. *)
Definition carries_no_live_token (m : IncomingMessage) (now : Z) (db : Db) : Prop :=
  forall raw tok k q, raw ∈ split_whitespace (im_body m) -> (tok = raw \/ tok = trim_token raw) -> tok <> [] ->
    db_asks db !! k = Some q -> ar_nonce_sha256 q = nonce_sha256 tok ->
    live_ask_for_claimant (claimant_of m) now db q = false.

(** The whole of what one message can change, given its escaped form [m]. *)
Inductive inbound_step (pairing wired : bool) (now : Z) (db : Db) (rg : Registry) (m : IncomingMessage) :
    Db -> Registry -> option OutgoingMessage -> Prop :=
| StepNothing reply :
    (forall o, reply = Some o -> vouched m rg /\ om_channel o = im_channel m /\ om_peer o = im_peer m
       /\ (om_body o = ACK_NOT_ANSWERABLE \/ om_body o = ACK_MALFORMED_COMMAND)) ->
    inbound_step pairing wired now db rg m db rg reply
| StepPaired c before after :
    pairing = true -> im_evidence m = None -> ~ (exists p, p ∈ rg_pairings rg /\ active_for (im_channel m) (im_peer m) p = true) ->
    rg_codes rg = before ++ c :: after -> pc_consumed c = None -> now < pc_expires_at c ->
    pc_code_sha256 c = ingest_sha256_hex (str_trim (im_body m)) ->
    inbound_step pairing wired now db rg m db
      (mkRegistry (rg_pairings rg ++ [mkPairing (rg_seq rg) (im_channel m) (im_peer m) (bs "code") now None None])
         (before ++ consume (im_channel m ++ bs "/" ++ im_peer m) now c :: after) (rg_seq rg + 1) (rg_code_seq rg))
      (ack m PAIRED_ACK_BODY)
| StepAnswered cmd rs db' :
    wired = true -> vouched m rg -> parse_ask_command (im_body m) = Some cmd ->
    answered (ac_token cmd) (claimant_of m) (resolution (ask_choice_str (ac_choice cmd)) None) now db rs db' ->
    inbound_step pairing wired now db rg m db' rg (ack m (ack_resolved (ac_choice cmd) (rs_task_id rs)))
| StepEnqueued :
    vouched m rg -> iv_decision (screen_body (im_body m)) = Allow -> is_command_shaped (im_body m) = false ->
    (looks_like_ask_command (im_body m) = true -> wired = true /\ carries_no_live_token m now db) ->
    json_contains_nul (build_channel_task_payload m) = false ->
    inbound_step pairing wired now db rg m
      (mkDb (<[db_task_seq db := mkTask TsPending Fast now now None None None 0 (build_channel_task_payload m) None None None]>
               (db_tasks db)) (db_asks db) (db_task_seq db + 1) (db_ask_seq db)) rg None.
End Gate.

(** * Lemmas *)

Lemma xor_fold_zero (l : list (Z * Z)) acc :
  fold_left (fun acc xy => Z.lor acc (Z.lxor xy.1 xy.2)) l acc = 0 <-> acc = 0 /\ Forall (fun xy => xy.1 = xy.2) l.
Proof.
  revert acc. induction l as [|[x y] l IH]; intros acc; cbn [fold_left]; [naive_solver constructor|].
  rewrite IH, Z.lor_eq_0_iff, Forall_cons. cbn. rewrite Z.lxor_eq_0_iff. tauto.
Qed.

Lemma zip_all_equal (a b : bytes) : length a = length b -> Forall (fun xy => xy.1 = xy.2) (zip a b) <-> a = b.
Proof.
  revert b. induction a as [|x a IH]; intros [|y b]; try done. cbn. intros [= Hl]. rewrite Forall_cons, (IH b Hl). cbn.
  split; [by intros [-> ->]|by intros [= -> ->]].
Qed.

(** The comparison that looks at every byte decides equality. *)
Lemma constant_time_eq_spec a b : constant_time_eq a b = true <-> a = b.
Proof.
  unfold constant_time_eq. destruct (length a =? length b)%nat eqn:E; cbn [negb].
  - apply Nat.eqb_eq in E. rewrite Z.eqb_eq, xor_fold_zero, (zip_all_equal a b E). tauto.
  - apply Nat.eqb_neq in E. split; [done|]. by intros ->.
Qed.

Lemma refuse_nul_key_ok channel peer :
  refuse_nul_key channel peer = Ok tt <-> has_nul channel = false /\ has_nul peer = false.
Proof.
  unfold refuse_nul_key, refuse_nul_in_text. destruct (has_nul channel), (has_nul peer); naive_solver.
Qed.

Lemma active_for_spec channel peer p :
  active_for channel peer p = true <-> pr_channel p = channel /\ pr_peer p = peer /\ pr_revoked_at p = None.
Proof. unfold active_for. rewrite !andb_true_iff, !bytes_eqb_eq, bool_decide_eq_true. tauto. Qed.

Lemma admit_cases fl m b :
  match admit_message fl m b with
  | (Some a, b') =>
      b' = b /\ ad_msg a = with_body m (escape_str (im_body m)).1
      /\ has_nul (im_channel m) = false /\ has_nul (im_peer m) = false /\ has_nul (im_conversation m) = false
  | (None, b') => bu_db b' = bu_db b /\ bu_registry b' = bu_registry b
  end.
Proof.
  unfold admit_message, screen_nul, audit.
  destruct (has_nul (im_channel m)) eqn:Hc; [by destruct (f_audit fl)|].
  destruct (has_nul (im_peer m)) eqn:Hp; [by destruct (f_audit fl)|].
  destruct (has_nul (im_conversation m)) eqn:Hv; [by destruct (f_audit fl)|].
  destruct (escape_str (im_body m)) as [e n] eqn:E. destruct (n =? 0)%nat eqn:En; [|done].
  apply Nat.eqb_eq in En as ->. pose proof (escape_str_count (im_body m)) as Hn. rewrite E in Hn. cbn in Hn.
  rewrite escape_str_id in E; [|by rewrite has_nul_count, <- Hn]. injection E as <-. by destruct m.
Qed.

(** An audit row is all that [audit] leaves. *)
Lemma audit_db fl a p b : bu_db (audit fl a p b) = bu_db b.
Proof. unfold audit. by destruct (f_audit fl). Qed.

Lemma audit_registry fl a p b : bu_registry (audit fl a p b) = bu_registry b.
Proof. unfold audit. by destruct (f_audit fl). Qed.

Create HintDb bus.
#[export] Hint Rewrite audit_db audit_registry : bus.

Definition clean_field (kv : bytes * Value) : Prop := has_nul kv.1 = false /\ json_contains_nul kv.2 = false.

Lemma map_insert_clean k v m : clean_field (k, v) -> Forall clean_field m -> Forall clean_field (map_insert k v m).
Proof.
  intros Hk. induction 1 as [|[k' v'] m Hf Hm IH]; cbn [map_insert]; [by constructor; [|constructor]|].
  destruct (bytes_eqb k k'); [by constructor|]. destruct (bytes_ltb k k'); constructor; auto.
Qed.

Lemma object_clean fs : Forall clean_field fs -> json_contains_nul (object fs) = false.
Proof.
  intros Hfs. unfold object. assert (Hm : Forall clean_field ([] : list (bytes * Value))) by constructor.
  revert Hm. generalize ([] : list (bytes * Value)). induction Hfs as [|[k v] fs Hf Hfs IH]; intros m Hm; cbn [fold_left].
  - cbn. induction Hm as [|kv m [Hk Hv] Hm IH]; [done|]. cbn. by rewrite Hk, Hv.
  - apply IH. by apply map_insert_clean.
Qed.

Section GateLemmas.
Context `{UnicodeStr} `{UnicodeChar} `{CharClass} `{Sha256} `{Text} (f32_value : Z -> Value).

Lemma token_hash_for_Some channel peer rg h : token_hash_for channel peer rg = Some h ->
  exists p, p ∈ rg_pairings rg /\ active_for channel peer p = true /\ pr_token_sha256 p = h.
Proof.
  unfold token_hash_for. destruct (refuse_nul_key channel peer); [|done].
  intros (p & Hp & ->)%fmap_Some. apply find_some in Hp as [Hin Hp]. exists p. by rewrite list_elem_of_In.
Qed.

Lemma token_hash_for_None channel peer rg : has_nul channel = false -> has_nul peer = false ->
  token_hash_for channel peer rg = None -> ~ exists p, p ∈ rg_pairings rg /\ active_for channel peer p = true.
Proof.
  intros Hc Hp. unfold token_hash_for. rewrite (proj2 (refuse_nul_key_ok channel peer)) by done.
  intros Hf%fmap_None (p & Hin & Ha). rewrite list_elem_of_In in Hin. by rewrite (find_none _ _ Hf p Hin) in Ha.
Qed.

Lemma recognised_vouched fl m rg : authorize fl m rg = Recognised -> vouched m rg.
Proof.
  unfold authorize. destruct (f_lookup fl); [done|]. destruct (token_hash_for _ _ rg) as [h|] eqn:E; [|done].
  apply token_hash_for_Some in E as (p & Hin & (Hc & Hp & Hr)%active_for_spec & <-). intros Ha. exists p.
  split_and!; [done..|]. destruct (pr_token_sha256 p) as [h|], (im_evidence m) as [[d t]|]; try done.
  cbn in Ha. destruct d; [|done]. cbn in Ha. destruct t as [t|]; [|done].
  destruct (constant_time_eq _ h) eqn:Et; [|done]. apply constant_time_eq_spec in Et. eauto.
Qed.

Lemma rejected_unpaired fl m rg : authorize fl m rg = Rejected -> token_hash_for (im_channel m) (im_peer m) rg = None.
Proof.
  unfold authorize. destruct (f_lookup fl); [done|]. destruct (token_hash_for _ _ rg) as [[h|]|]; [|by destruct (im_evidence m)|done].
  destruct (im_evidence m) as [[[] [t|]]|]; try done. cbn. by destruct (constant_time_eq _ _).
Qed.

Lemma singleton_split {A} (f : A -> bool) (g : A -> A) l : length (List.filter f l) = 1%nat ->
  exists before c after, l = before ++ c :: after /\ f c = true /\
    map (fun x => if f x then g x else x) l = before ++ g c :: after.
Proof.
  assert (Hnone : forall l, length (List.filter f l) = 0%nat -> map (fun x => if f x then g x else x) l = l).
  { clear l. induction l as [|x l IH]; intros Hl; [done|]. cbn in *. destruct (f x); [done|]. by rewrite IH. }
  induction l as [|x l IH]; intros Hl; [done|]. cbn in Hl. destruct (f x) eqn:E.
  - exists [], x, l. cbn. rewrite E, Hnone by (cbn in Hl; lia). done.
  - destruct (IH Hl) as (before & c & after & -> & Hc & Hm). exists (x :: before), c, after. split_and!; [done..|].
    rewrite <- app_comm_cons. cbn [map]. by rewrite E, Hm.
Qed.

Lemma try_pair_effect fl m now rg : has_nul (im_channel m) = false -> has_nul (im_peer m) = false ->
  token_hash_for (im_channel m) (im_peer m) rg = None ->
  match try_pair fl m now rg with
  | (NotAPairingAttempt, rg') => rg' = rg
  | (Paired, rg') =>
      exists c before after, rg_codes rg = before ++ c :: after /\ pc_consumed c = None /\ now < pc_expires_at c
        /\ pc_code_sha256 c = ingest_sha256_hex (str_trim (im_body m))
        /\ rg' = mkRegistry (rg_pairings rg ++ [mkPairing (rg_seq rg) (im_channel m) (im_peer m) (bs "code") now None None])
                   (before ++ consume (im_channel m ++ bs "/" ++ im_peer m) now c :: after) (rg_seq rg + 1) (rg_code_seq rg)
  end.
Proof.
  intros Hc Hp Hn. pose proof (token_hash_for_None _ _ _ Hc Hp Hn) as Hun.
  unfold try_pair. destruct (f_any_code fl || _); [done|]. destruct (f_pair fl); [done|].
  unfold claim_code. destruct (refuse_nul_in_text _ _); [|done].
  destruct (length (List.filter _ (rg_codes rg)) =? 1)%nat eqn:El; [|done]. apply Nat.eqb_eq in El.
  destruct (singleton_split _ (consume (im_channel m ++ bs "/" ++ im_peer m) now) _ El) as (before & c & after & Hl & Hf & Hm).
  unfold insert_pairing. rewrite (proj2 (refuse_nul_key_ok _ _)) by done. cbn [rg_pairings rg_codes rg_seq rg_code_seq].
  destruct (existsb _ (rg_pairings rg)) eqn:Ee.
  { apply existsb_exists in Ee as (p & Hin & Ha). destruct Hun. exists p. by rewrite list_elem_of_In. }
  apply andb_true_iff in Hf as [Hh%bytes_eqb_eq Hcl]. apply andb_true_iff in Hcl as [Hco%bool_decide_eq_true Hex%Z.ltb_lt].
  exists c, before, after. by rewrite Hm.
Qed.

Lemma contained fl wired m now b : containment_refusal fl wired m now b = None ->
  looks_like_ask_command (im_body m) = true -> wired = true /\ carries_no_live_token m now (bu_db b).
Proof.
  unfold containment_refusal. intros Hr Hl. rewrite Hl in Hr. cbn [negb] in Hr. destruct wired; [|done]. split; [done|].
  cbn [negb] in Hr. destruct (candidate_tokens (im_body m)) as [toks|] eqn:Ht; [|done]. unfold any_live_nonce in Hr.
  destruct (f_live fl); [done|]. intros raw tok k q Hraw Htok Hne Hq Hh.
  destruct (candidate_tokens_complete _ _ _ Ht Hraw) as [Hraw1 Hraw2].
  assert (Hin : tok ∈ toks) by (destruct Htok as [->| ->]; auto). destruct toks as [|t toks]; [by apply not_elem_of_nil in Hin|].
  destruct (any_live_nonce_for_claimant _ _ now (bu_db b)) eqn:E; [done|].
  destruct (live_ask_for_claimant _ now _ q) eqn:Hlive; [|done]. rewrite <- E. symmetry. apply existsb_exists.
  exists (k, q). split; [by apply list_elem_of_In, elem_of_map_to_list|]. cbn. rewrite Hlive, andb_true_r.
  apply bool_decide_eq_true. rewrite Hh. by apply (list_elem_of_fmap_2 nonce_sha256 (t :: toks)).
Qed.

Lemma payload_clean m : has_nul (im_channel m) = false -> has_nul (im_peer m) = false ->
  has_nul (im_conversation m) = false -> has_nul (im_body m) = false ->
  json_contains_nul (build_channel_task_payload m) = false.
Proof.
  intros Hc Hp Hv Hb. apply object_clean.
  repeat (constructor; [cbn [fst snd json_contains_nul]; split; [vm_compute; reflexivity|first [done|vm_compute; reflexivity]]|]).
  constructor.
Qed.
End GateLemmas.

Section Gated.
Context `{UnicodeStr} `{UnicodeChar} `{CharClass} `{Sha256} `{Text} (f32_value : Z -> Value).

Lemma ack_steps pairing wired now b m body b' : vouched m (bu_registry b) ->
  body = ACK_NOT_ANSWERABLE \/ body = ACK_MALFORMED_COMMAND -> bu_db b' = bu_db b -> bu_registry b' = bu_registry b ->
  inbound_step pairing wired now (bu_db b) (bu_registry b) m (bu_db b') (bu_registry b') (ack m body).
Proof. intros Hv Hb -> ->. apply StepNothing. intros o [= <-]. by split_and!. Qed.

Lemma silent_steps pairing wired now b m b' : bu_db b' = bu_db b -> bu_registry b' = bu_registry b ->
  inbound_step pairing wired now (bu_db b) (bu_registry b) m (bu_db b') (bu_registry b') None.
Proof. intros -> ->. by apply StepNothing. Qed.

Lemma answer_steps fl pairing m cmd now b : vouched m (bu_registry b) -> parse_ask_command (im_body m) = Some cmd ->
  let '(reply, b') := handle_answer fl m cmd now b in
  inbound_step pairing true now (bu_db b) (bu_registry b) m (bu_db b') (bu_registry b') reply.
Proof.
  intros Hv Hc. unfold handle_answer, resolve_answer, answer_rejected.
  destruct (f_resolve fl).
  { apply ack_steps; autorewrite with bus; auto. }
  pose proof (resolve_with_nonce_effect (ac_token cmd) (claimant_of m) (resolution (ask_choice_str (ac_choice cmd)) None) now (bu_db b)) as He.
  destruct (resolve_with_nonce _ _ _ now (bu_db b)) as [[[rs|]|e] db'].
  - autorewrite with bus. by apply StepAnswered.
  - apply ack_steps; autorewrite with bus; auto.
  - apply ack_steps; autorewrite with bus; auto.
Qed.

Lemma body_steps fl pairing wired a now b : vouched (ad_msg a) (bu_registry b) ->
  containment_refusal fl wired (ad_msg a) now b = None -> is_command_shaped (im_body (ad_msg a)) = false ->
  let b' := handle_body f32_value fl a now b in
  inbound_step pairing wired now (bu_db b) (bu_registry b) (ad_msg a) (bu_db b') (bu_registry b') None.
Proof.
  intros Hv Hr Hs. cbn zeta. unfold handle_body, screen_and_classify.
  destruct (iv_decision _) eqn:Hd; [|apply silent_steps; by autorewrite with bus].
  unfold enqueue. destruct (f_enqueue fl); [apply silent_steps; by autorewrite with bus|].
  unfold insert_pending, refuse_nul_in_json. destruct (json_contains_nul _) eqn:Hn; [apply silent_steps; by autorewrite with bus|].
  autorewrite with bus. apply StepEnqueued; [done..| |done]. by apply contained with (fl := fl).
Qed.

Lemma recognised_steps fl pairing wired a now b : vouched (ad_msg a) (bu_registry b) ->
  let '(reply, b') := handle_recognised f32_value fl wired a now b in
  inbound_step pairing wired now (bu_db b) (bu_registry b) (ad_msg a) (bu_db b') (bu_registry b') reply.
Proof.
  intros Hv. unfold handle_recognised, answer_rejected.
  destruct (if wired then parse_ask_command _ else None) as [cmd|] eqn:Hc.
  { destruct wired; [|done]. by apply answer_steps. }
  destruct (containment_refusal fl wired _ now b) as [r|] eqn:Hr; [apply ack_steps; autorewrite with bus; auto|].
  destruct (is_command_shaped _) eqn:Hs; [apply ack_steps; autorewrite with bus; auto|]. by apply body_steps.
Qed.

Lemma unpaired_steps fl pairing wired m now b : has_nul (im_channel m) = false -> has_nul (im_peer m) = false ->
  token_hash_for (im_channel m) (im_peer m) (bu_registry b) = None ->
  let '(reply, b') := handle_unpaired fl pairing m now b in
  inbound_step pairing wired now (bu_db b) (bu_registry b) m (bu_db b') (bu_registry b') reply.
Proof.
  intros Hc Hp Hn. unfold handle_unpaired. destruct (im_evidence m) eqn:He; [apply silent_steps; by autorewrite with bus|].
  destruct pairing; [|apply silent_steps; by autorewrite with bus].
  pose proof (try_pair_effect fl m now (bu_registry b) Hc Hp Hn) as Ht. destruct (try_pair _ _ _ _) as [[|] rg'].
  - destruct Ht as (c & before & after & Hl & Hco & Hex & Hh & ->). autorewrite with bus.
    apply StepPaired with (c := c); try done. by apply token_hash_for_None.
  - subst rg'. apply silent_steps; by autorewrite with bus.
Qed.

Lemma gate_steps fl pairing wired m now b :
  let m' := with_body m (escape_str (im_body m)).1 in
  let '(reply, b') := handle_inbound f32_value fl pairing wired m now b in
  inbound_step pairing wired now (bu_db b) (bu_registry b) m' (bu_db b') (bu_registry b') reply.
Proof.
  cbn zeta. unfold handle_inbound. pose proof (admit_cases fl m b) as Ha. destruct (admit_message fl m b) as [[a|] b1].
  - destruct Ha as (-> & Ham & Hc & Hp & _). rewrite <- Ham.
    replace (im_channel m) with (im_channel (ad_msg a)) in Hc by by rewrite Ham.
    replace (im_peer m) with (im_peer (ad_msg a)) in Hp by by rewrite Ham.
    destruct (authorize fl _ _) eqn:Hauth.
    + apply recognised_steps. by apply recognised_vouched with fl.
    + apply unpaired_steps; [done..|]. by apply rejected_unpaired with fl.
    + apply silent_steps; by autorewrite with bus.
    + apply silent_steps; by autorewrite with bus.
  - destruct Ha as [Hd Hr]. by apply silent_steps.
Qed.
End Gated.

(** * The registry over time *)

Section Registry.
Context `{UnicodeStr} `{UnicodeChar} `{CharClass} `{Sha256} `{Text} (f32_value : Z -> Value).

(** Everything that writes the pairing tables: the three operator commands and a
    message. *)
Inductive Cmd :=
| CmdIssue (up : bool) (code : bytes) (label : option bytes) (ttl : Z)
| CmdIssueToken (up : bool) (token : bytes) (args : list bytes)
| CmdRevoke (up : bool) (args : list bytes)
| CmdMessage (fl : Faults) (pairing wired : bool) (m : IncomingMessage).

Definition apply_cmd (now : Z) (c : Cmd) (b : Bus) : Bus :=
  match c with
  | CmdIssue up code label ttl => (pair_issue up code label ttl now b).2
  | CmdIssueToken up token args => (pair_issue_token up token args now b).2
  | CmdRevoke up args => (pair_revoke up args now b).2
  | CmdMessage fl pairing wired m => (handle_inbound f32_value fl pairing wired m now b).2
  end.

Definition run_cmds (l : list (Z * Cmd)) (b : Bus) : Bus := fold_left (fun b tc => apply_cmd tc.1 tc.2 b) l b.

Definition empty_bus : Bus := mkBus empty_db (mkRegistry [] [] 1 1) [].

Definition active_key (channel peer : bytes) (rg : Registry) : Prop :=
  exists p, p ∈ rg_pairings rg /\ active_for channel peer p = true.

Inductive registry_step (now : Z) (rg : Registry) : Registry -> Prop :=
| RegSame seq : registry_step now rg (mkRegistry (rg_pairings rg) (rg_codes rg) seq (rg_code_seq rg))
| RegCode id h label e cseq :
    registry_step now rg (mkRegistry (rg_pairings rg) (rg_codes rg ++ [mkCode id h label e None]) (rg_seq rg) cseq)
| RegToken channel peer h :
    ~ active_key channel peer rg ->
    registry_step now rg
      (mkRegistry (rg_pairings rg ++ [mkPairing (rg_seq rg) channel peer (bs "operator") now None (Some h)]) (rg_codes rg)
         (rg_seq rg + 1) (rg_code_seq rg))
| RegRevoke channel peer :
    registry_step now rg
      (mkRegistry (map (fun p => if active_for channel peer p then revoke now p else p) (rg_pairings rg)) (rg_codes rg)
         (rg_seq rg) (rg_code_seq rg))
| RegPaired channel peer c before after :
    ~ active_key channel peer rg -> rg_codes rg = before ++ c :: after -> pc_consumed c = None ->
    registry_step now rg
      (mkRegistry (rg_pairings rg ++ [mkPairing (rg_seq rg) channel peer (bs "code") now None None])
         (before ++ consume (channel ++ bs "/" ++ peer) now c :: after) (rg_seq rg + 1) (rg_code_seq rg)).

Lemma reg_same now rg : registry_step now rg rg.
Proof. destruct rg as [ps cs s1 s2]. apply (RegSame now (mkRegistry ps cs s1 s2)). Qed.

Lemma existsb_active channel peer rg : existsb (active_for channel peer) (rg_pairings rg) = true <-> active_key channel peer rg.
Proof. rewrite existsb_exists. unfold active_key. by setoid_rewrite list_elem_of_In. Qed.

Lemma cmd_registry_step now c b : registry_step now (bu_registry b) (bu_registry (apply_cmd now c b)).
Proof.
  destruct c as [up code label ttl|up token args|up args|fl pairing wired m]; cbn [apply_cmd].
  - unfold pair_issue, insert_code. destruct up; [|apply reg_same]. cbn [negb].
    destruct (match label with Some _ => _ | None => _ end); [apply RegCode|apply reg_same].
  - unfold pair_issue_token. destruct (parse_issue_token_args args) as [[channel peer]|]; [|apply reg_same].
    destruct up; [|apply reg_same]. cbn [negb]. destruct (token_hash_for _ _ _); [apply reg_same|].
    unfold insert_pairing_with_token. destruct (refuse_nul_key _ _); [|apply reg_same].
    destruct (existsb _ _) eqn:E; [apply RegSame|]. apply RegToken. by rewrite <- existsb_active, E.
  - unfold pair_revoke. destruct args as [|c [|p [|]]]; try apply reg_same. destruct up; [|apply reg_same]. cbn [negb].
    unfold revoke_pairing. destruct (refuse_nul_key _ _); [|apply reg_same]. destruct (_ =? 1)%nat; apply RegRevoke.
  - pose proof (gate_steps f32_value fl pairing wired m now b) as Hs. cbn zeta in Hs.
    destruct (handle_inbound _ _ _ _ _ _ _) as [reply b']. cbn [snd]. inversion Hs; subst; try apply reg_same. by eapply RegPaired.
Qed.

(** ** The invariant *)

(** The keys of the pairings in force. *)
Definition active_keys (rg : Registry) : list (bytes * bytes) :=
  map (fun p => (pr_channel p, pr_peer p)) (List.filter (fun p => bool_decide (pr_revoked_at p = None)) (rg_pairings rg)).

Definition is_code_pairing (p : Pairing) : bool := bytes_eqb (pr_method p) (bs "code").
Definition is_consumed (c : PairingCode) : bool := bool_decide (pc_consumed c <> None).

(** Where a pairing comes from: a token the operator issued, or a code its peer
    spent. *)
Definition pairing_earned (rg : Registry) (p : Pairing) : Prop :=
  (pr_method p = bs "operator" /\ pr_token_sha256 p <> None) \/
  (pr_method p = bs "code" /\ pr_token_sha256 p = None /\
   exists c, c ∈ rg_codes rg /\ pc_consumed c = Some (pr_paired_at p, pr_channel p ++ bs "/" ++ pr_peer p)).

Definition registry_ok (rg : Registry) : Prop :=
  NoDup (active_keys rg) /\ Forall (pairing_earned rg) (rg_pairings rg) /\
  length (List.filter is_code_pairing (rg_pairings rg)) = length (List.filter is_consumed (rg_codes rg)).

Lemma active_keys_spec channel peer rg : (channel, peer) ∈ active_keys rg <-> active_key channel peer rg.
Proof.
  unfold active_keys, active_key. rewrite list_elem_of_In, in_map_iff. split.
  - intros (p & [= <- <-] & [Hin Ha%bool_decide_eq_true]%filter_In). exists p. rewrite list_elem_of_In, active_for_spec. auto.
  - intros (p & Hin & (<- & <- & Hr)%active_for_spec). exists p. split; [done|]. apply filter_In.
    by rewrite <- list_elem_of_In, bool_decide_eq_true.
Qed.

Lemma active_keys_add ps cs s1 s2 p : pr_revoked_at p = None ->
  active_keys (mkRegistry (ps ++ [p]) cs s1 s2) = active_keys (mkRegistry ps cs s1 s2) ++ [(pr_channel p, pr_peer p)].
Proof. intros Hp. unfold active_keys. cbn [rg_pairings]. rewrite List.filter_app, map_app. cbn. by rewrite bool_decide_eq_true_2. Qed.

Lemma active_keys_new ps cs cs' s1 s2 s1' s2' p : pr_revoked_at p = None ->
  ~ active_key (pr_channel p) (pr_peer p) (mkRegistry ps cs s1 s2) -> NoDup (active_keys (mkRegistry ps cs s1 s2)) ->
  NoDup (active_keys (mkRegistry (ps ++ [p]) cs' s1' s2')).
Proof.
  intros Hp Hun Hn. rewrite active_keys_add by done. apply NoDup_app. split_and!; [done| |by repeat constructor; set_solver].
  intros k Hin Hk%list_elem_of_singleton. subst k. apply Hun, active_keys_spec. exact Hin.
Qed.

Lemma active_keys_revoke (f : Pairing -> bool) ps cs s1 s2 now : NoDup (active_keys (mkRegistry ps cs s1 s2)) ->
  NoDup (active_keys (mkRegistry (map (fun p => if f p then revoke now p else p) ps) cs s1 s2)).
Proof.
  unfold active_keys. cbn [rg_pairings]. intros Hn. apply (sublist_NoDup _ _ Hn). clear Hn.
  induction ps as [|p ps IH]; [done|]. cbn [map List.filter]. destruct (f p).
  - cbn [pr_revoked_at revoke]. rewrite bool_decide_eq_false_2 by done.
    destruct (bool_decide _); [by apply sublist_cons|done].
  - destruct (bool_decide _); [by apply sublist_skip|done].
Qed.

Lemma earned_codes ps cs ps' cs' s1 s2 s1' s2' p :
  (forall c, c ∈ cs -> pc_consumed c <> None -> c ∈ cs') ->
  pairing_earned (mkRegistry ps cs s1 s2) p -> pairing_earned (mkRegistry ps' cs' s1' s2') p.
Proof.
  intros Hcs [?|(Hm & Ht & c & Hc & Hco)]; [by left|right]. split_and!; [done..|]. exists c. split; [|done].
  apply Hcs; [done|]. by rewrite Hco.
Qed.

Lemma code_pairing_one i c p m at_ r t :
  length (List.filter is_code_pairing [mkPairing i c p m at_ r t]) = if bytes_eqb m (bs "code") then 1%nat else 0%nat.
Proof. unfold is_code_pairing. cbn [List.filter pr_method]. by destruct (bytes_eqb m _). Qed.

Lemma registry_ok_step now rg rg' : registry_ok rg -> registry_step now rg rg' -> registry_ok rg'.
Proof.
  destruct rg as [ps cs s1 s2]. intros (Hk & He & Hn) Hs. cbn in Hs, He, Hn.
  inversion Hs as [seq E|id h label e cseq E|channel peer h Hun E|channel peer E|channel peer c before after Hun Hl Hco E];
    clear Hs; subst rg'; cbn [rg_pairings rg_codes rg_seq rg_code_seq] in *.
  - split_and!; [done| |done]. eapply list.Forall_impl; [exact He|]. intros p. by apply earned_codes.
  - split_and!; [done| |].
    + eapply list.Forall_impl; [exact He|]. intros p. apply earned_codes. set_solver.
    + cbn [rg_pairings rg_codes]. rewrite Hn, List.filter_app, length_app. cbn. lia.
  - split_and!; cbn [rg_pairings rg_codes].
    + by eapply (active_keys_new ps _ _ s1 s2).
    + apply Forall_app. split; [|by repeat constructor]. eapply list.Forall_impl; [exact He|]. intros p. by apply earned_codes.
    + rewrite List.filter_app, length_app, Hn, code_pairing_one. change (bytes_eqb (bs "operator") (bs "code")) with false. cbn. lia.
  - split_and!; cbn [rg_pairings rg_codes].
    + by apply active_keys_revoke.
    + apply list.Forall_forall. intros p (p' & -> & Hin)%list_elem_of_fmap. rewrite list.Forall_forall in He.
      specialize (He p' Hin).  destruct (active_for channel peer p'); exact He.
    + rewrite <- Hn. clear. induction ps as [|p ps IH]; [done|]. cbn [map List.filter].
      assert (is_code_pairing (if active_for channel peer p then revoke now p else p) = is_code_pairing p) as ->
        by by destruct (active_for _ _ _). destruct (is_code_pairing p); cbn [length]; congruence.
  - subst cs. split_and!; cbn [rg_pairings rg_codes].
    + by eapply (active_keys_new ps _ _ s1 s2).
    + apply Forall_app. split.
      * eapply list.Forall_impl; [exact He|]. intros p. apply earned_codes. intros c'. rewrite !elem_of_app, !elem_of_cons.
        intros [?|[->|?]]; auto. by rewrite Hco.
      * constructor; [|constructor]. right. split_and!; [done..|].
        exists (consume (channel ++ bs "/" ++ peer) now c). cbn [rg_codes]. split; [set_solver|done].
    + rewrite List.filter_app, length_app, Hn, !List.filter_app, !length_app, code_pairing_one, bytes_eqb_refl.
      cbn [List.filter]. assert (is_consumed c = false) as -> by (unfold is_consumed; by rewrite Hco).
      assert (is_consumed (consume (channel ++ bs "/" ++ peer) now c) = true) as -> by done. cbn [length]. lia.
Qed.

Lemma registry_ok_run l b : registry_ok (bu_registry b) -> registry_ok (bu_registry (run_cmds l b)).
Proof.
  revert b. induction l as [|[now c] l IH]; intros b Hb; [done|]. cbn. apply IH.
  apply (registry_ok_step now _ _ Hb), cmd_registry_step.
Qed.

Lemma empty_registry_ok : registry_ok (bu_registry empty_bus).
Proof. by split_and!; [constructor..|]. Qed.
End Registry.

Lemma fmap_NoDup_inj {A B} (f : A -> B) l x y : NoDup (map f l) -> x ∈ l -> y ∈ l -> f x = f y -> x = y.
Proof.
  induction l as [|z l IH]; cbn; intros Hn Hx Hy E; [by apply not_elem_of_nil in Hx|].
  apply NoDup_cons in Hn as [Hz Hn]. rewrite elem_of_cons in Hx, Hy. destruct Hx as [->|Hx], Hy as [->|Hy]; auto.
  - destruct Hz. rewrite E. by apply (list_elem_of_fmap_2 f).
  - destruct Hz. rewrite <- E. by apply (list_elem_of_fmap_2 f).
Qed.

Lemma to_ascii_lowercase_idem s : to_ascii_lowercase (to_ascii_lowercase s) = to_ascii_lowercase s.
Proof. unfold to_ascii_lowercase. rewrite map_map. apply map_ext. apply ascii_lower_idem. Qed.

(** A verb starts with a slash, so no quote mark is in front of it. *)
Lemma verb_unquoted tok : is_verb tok = true -> drop_while is_quote_mark tok = tok.
Proof.
  assert (Hs : forall rest, to_ascii_lowercase tok = 47 :: rest -> drop_while is_quote_mark tok = tok).
  { intros rest Hr. destruct tok as [|c tok]; [done|]. injection Hr as Hc _. unfold ascii_lower in Hc.
    cbn. unfold is_quote_mark. destruct (c =? 62) eqn:E1; [apply Z.eqb_eq in E1 as ->; vm_compute in Hc; discriminate Hc|].
    destruct (c =? 124) eqn:E2; [apply Z.eqb_eq in E2 as ->; vm_compute in Hc; discriminate Hc|]. done. }
  unfold is_verb, eq_ignore_ascii_case. rewrite orb_true_iff, !bytes_eqb_eq. intros [E|E]; eapply Hs; rewrite E; vm_compute; reflexivity.
Qed.

Lemma first_word_verb body tok rest : split_whitespace body = tok :: rest -> is_verb tok = true -> looks_like_ask_command body = true.
Proof. intros Hs Hv. unfold looks_like_ask_command. rewrite Hs. cbn. by rewrite verb_unquoted, Hv. Qed.

(** A body that mentions no verb is neither an answer nor a malformed one. *)
Lemma plain_body body : looks_like_ask_command body = false -> parse_ask_command body = None /\ is_command_shaped body = false.
Proof.
  intros Hl. unfold parse_ask_command, is_command_shaped. destruct (split_whitespace body) as [|tok rest] eqn:Hs; [done|].
  destruct (is_verb tok) eqn:Hv; [by rewrite (first_word_verb _ _ _ Hs Hv) in Hl|]. split; [|done].
  destruct rest as [|t [|]]; try done. unfold is_verb, eq_ignore_ascii_case in Hv. apply orb_false_iff in Hv as [Ha Hd].
  change (to_ascii_lowercase APPROVE_VERB) with APPROVE_VERB in Ha. change (to_ascii_lowercase DENY_VERB) with DENY_VERB in Hd.
  by rewrite Ha, Hd.
Qed.

Section Delivery.
Context `{UnicodeStr} `{UnicodeChar} `{CharClass} `{Sha256} `{Text} (f32_value : Z -> Value).

Lemma vouched_recognised m rg : registry_ok rg -> has_nul (im_channel m) = false -> has_nul (im_peer m) = false ->
  vouched m rg -> authorize no_faults m rg = Recognised.
Proof.
  intros (Hn & _) Hc Hp (p & Hin & Ec & Ep & Er & Ht). unfold authorize, token_hash_for. cbn [f_lookup no_faults].
  rewrite (proj2 (refuse_nul_key_ok _ _)) by done.
  destruct (List.find _ _) as [p'|] eqn:Hf.
  - apply find_some in Hf as [Hin' (Ec' & Ep' & Er')%active_for_spec]. rewrite <- list_elem_of_In in Hin'.
    assert (p' = p) as ->.
    { apply (fmap_NoDup_inj _ _ _ _ Hn); [apply list_elem_of_In, filter_In; rewrite <- list_elem_of_In, bool_decide_eq_true; auto..|congruence]. }
    cbn [fmap option_fmap option_map]. destruct (pr_token_sha256 p) as [h|]; [|by rewrite Ht].
    destruct Ht as (t & -> & <-). cbn [ev_dmarc_pass ev_presented_token negb].
    by rewrite (proj2 (constant_time_eq_spec _ _) eq_refl).
  - apply (find_none _ _) with (x := p) in Hf; [|by rewrite <- list_elem_of_In].
    by rewrite (proj2 (active_for_spec _ _ _)) in Hf.
Qed.

(** The pairing tables stay as the operator meant them, whatever commands
    and messages arrive: no key has two pairings in force, every pairing carries
    a token of the operator's or was bought by a code that names its peer and
    its instant, and codes are spent one for one. *)
Theorem registry_invariant l : registry_ok (bu_registry (run_cmds f32_value l empty_bus)).
Proof. apply registry_ok_run, empty_registry_ok. Qed.

(** A vouched peer is heard: its message, when it mentions no approval
    command and passes the injection screen, is queued as one task holding the
    body with its NULs escaped, nothing is sent back, and the receipt is
    audited. *)
Theorem vouched_message_is_queued l pairing wired m now :
  let b := run_cmds f32_value l empty_bus in
  let m' := with_body m (escape_str (im_body m)).1 in
  has_nul (im_channel m) = false -> has_nul (im_peer m) = false -> has_nul (im_conversation m) = false ->
  vouched m (bu_registry b) -> looks_like_ask_command (im_body m') = false -> iv_decision (screen_body (im_body m')) = Allow ->
  exists b' payload, handle_inbound f32_value no_faults pairing wired m now b = (None, b') /\
    bu_audit b' = bu_audit b ++ [(bs "channel.received", payload)] /\ bu_registry b' = bu_registry b /\
    db_tasks (bu_db b') = <[db_task_seq (bu_db b) :=
      mkTask TsPending Fast now now None None None 0 (build_channel_task_payload m') None None None]> (db_tasks (bu_db b)).
Proof.
  cbn zeta. set (b := run_cmds f32_value l empty_bus). intros Hc Hp Hv Hvo Hl Hs.
  assert (Hok : registry_ok (bu_registry b)) by apply registry_ok_run, empty_registry_ok.
  unfold handle_inbound. pose proof (admit_cases no_faults m b) as Ha.
  destruct (admit_message no_faults m b) as [[a|] b1] eqn:E.
  2: { exfalso. unfold admit_message, screen_nul in E. rewrite Hc, Hp, Hv in E. destruct (escape_str _) as [e n]. by destruct (n =? 0)%nat. }
  destruct Ha as (-> & Ham & _). rewrite <- Ham in *.
  rewrite (vouched_recognised (ad_msg a)); [|done|by rewrite Ham..].
  destruct (plain_body _ Hl) as [Hpc Hsh]. unfold handle_recognised, containment_refusal. rewrite Hpc, Hl, Hsh.
  assert ((if wired then None else None) = @None AskCommand) as -> by by destruct wired.
  cbn [negb]. unfold handle_body, screen_and_classify. rewrite Hs. unfold enqueue, insert_pending, refuse_nul_in_json.
  cbn [f_enqueue no_faults]. rewrite payload_clean; [|rewrite Ham; first [done|apply escape_str_clean]..].
  eexists _, _. split_and!; [reflexivity|cbn [audit f_audit no_faults bu_audit set_db]; reflexivity|done|done].
Qed.
End Delivery.

(** * Revocation and replies *)

Section Ends.
Context `{UnicodeStr} `{UnicodeChar} `{CharClass} `{Sha256} `{Text} (f32_value : Z -> Value) (to_string : Value -> bytes).

Lemma message_keeps_pairings fl pairing wired m now b p : p ∈ rg_pairings (bu_registry b) ->
  p ∈ rg_pairings (bu_registry (handle_inbound f32_value fl pairing wired m now b).2).
Proof.
  intros Hin. pose proof (gate_steps f32_value fl pairing wired m now b) as Hs. cbn zeta in Hs.
  destruct (handle_inbound _ _ _ _ _ _ _) as [reply b']. cbn [snd]. inversion Hs; cbn [rg_pairings]; subst; try congruence.
  apply elem_of_app. by left.
Qed.

Lemma cmd_keeps_mixed_case now c b p : to_ascii_lowercase (pr_peer p) <> pr_peer p ->
  p ∈ rg_pairings (bu_registry b) -> p ∈ rg_pairings (bu_registry (apply_cmd f32_value now c b)).
Proof.
  intros Hp Hin. destruct c as [up code label ttl|up token args|up args|fl pairing wired m]; cbn [apply_cmd].
  - unfold pair_issue, insert_code. destruct up; [|done]. cbn [negb].
    by destruct (match label with Some _ => _ | None => _ end).
  - unfold pair_issue_token. destruct (parse_issue_token_args args) as [[channel peer]|]; [|done].
    destruct up; [|done]. cbn [negb]. destruct (token_hash_for _ _ _); [done|].
    unfold insert_pairing_with_token. destruct (refuse_nul_key _ _); [|done]. destruct (existsb _ _); [done|].
    apply elem_of_app. by left.
  - unfold pair_revoke. destruct args as [|c [|q [|]]]; try done. destruct up; [|done]. cbn [negb].
    unfold revoke_pairing. destruct (refuse_nul_key _ _); [|done].
    assert (Hmap : p ∈ map (fun p => if active_for (str_trim c) (to_ascii_lowercase (str_trim q)) p then revoke now p else p)
                        (rg_pairings (bu_registry b))).
    { apply list_elem_of_In, in_map_iff. exists p. split; [|by apply list_elem_of_In].
      destruct (active_for _ _ p) eqn:Ha; [|done]. apply active_for_spec in Ha as (_ & Hq & _).
      destruct Hp. by rewrite Hq, to_ascii_lowercase_idem. }
    by destruct (_ =? 1)%nat.
  - by apply message_keeps_pairings.
Qed.

(** [pair revoke] lower-cases the peer it is given, while an in-channel
    pairing stores the peer as the transport spells it: a pairing whose peer has
    an upper-case letter survives every run of the operator's commands, however
    often and with whatever spelling it is revoked. *)
Theorem mixed_case_peer_is_irrevocable l b p :
  to_ascii_lowercase (pr_peer p) <> pr_peer p -> p ∈ rg_pairings (bu_registry b) ->
  p ∈ rg_pairings (bu_registry (run_cmds f32_value l b)).
Proof.
  intros Hp. revert b. induction l as [|[now c] l IH]; intros b Hin; [done|]. cbn. apply IH. by apply cmd_keeps_mixed_case.
Qed.

(** A lower-case peer is out as soon as its revocation reports success. *)
Lemma revoked_peer_rejected c q now b b' m :
  pair_revoke true [c; q] now b = (0, b') -> str_trim c = im_channel m -> to_ascii_lowercase (str_trim q) = im_peer m ->
  ~ vouched m (bu_registry b').
Proof.
  unfold pair_revoke. cbn [negb]. intros Hr Hc Hq (p & Hin & Ec & Ep & Er & _). rewrite Hc, Hq in Hr.
  unfold revoke_pairing in Hr. destruct (refuse_nul_key _ _); [|done].
  assert (Hrg : rg_pairings (bu_registry b') =
    map (fun p => if active_for (im_channel m) (im_peer m) p then revoke now p else p) (rg_pairings (bu_registry b))).
  { destruct (_ =? 1)%nat; by injection Hr as <-. }
  rewrite Hrg in Hin. apply list_elem_of_In, in_map_iff in Hin as (p' & <- & _).
  destruct (active_for _ _ p') eqn:Ha; [by cbn in Er|].
  by rewrite (proj2 (active_for_spec _ _ _)) in Ha.
Qed.

Lemma payload_field k v m : (k, String v) ∈ [(bs "kind", String (bs "channel")); (bs "channel", String (im_channel m));
    (bs "peer", String (im_peer m)); (bs "conversation", String (im_conversation m))] ->
  get k (build_channel_task_payload m) = Some (String v).
Proof.
  intros Hin. apply object_get; [by apply (bool_decide_unpack _)|]. set_solver.
Qed.

(** A channel task belongs to the peer that sent it and to nobody else:
    its reply goes to the sender's conversation, and of all claimants only the
    sender may answer its questions. *)
Theorem channel_task_belongs_to_sender m result cl :
  reply_for_completed_task to_string (build_channel_task_payload m) result
    = Some (mkOut (im_channel m) (im_peer m) (im_conversation m) (reply_body to_string result)) /\
  (owns cl (build_channel_task_payload m) = true <-> cl = claimant_of m).
Proof.
  assert (Hk : get (bs "kind") (build_channel_task_payload m) = Some (String (bs "channel"))) by (apply payload_field; set_solver).
  assert (Hc : get (bs "channel") (build_channel_task_payload m) = Some (String (im_channel m))) by (apply payload_field; set_solver).
  assert (Hp : get (bs "peer") (build_channel_task_payload m) = Some (String (im_peer m))) by (apply payload_field; set_solver).
  assert (Hv : get (bs "conversation") (build_channel_task_payload m) = Some (String (im_conversation m))) by (apply payload_field; set_solver).
  split.
  - unfold reply_for_completed_task, destination_from_task_payload. rewrite Hk, Hc, Hp, Hv. cbn [mbind option_bind as_str].
    by rewrite bool_decide_eq_true_2.
  - unfold owns, is_channel_payload, arrow_text, text_is. rewrite Hk, Hc, Hp, !andb_true_iff, !bool_decide_eq_true.
    destruct cl as [c p]. unfold claimant_of. cbn [cl_channel cl_peer]. split; [|by intros [= -> ->]].
    by intros [[_ [= ->]] [= ->]].
Qed.

(** The reply to a blocked task never names the principle it was blocked
    on: the outcome stores the principle as a number and the reply reads a
    string, so the peer always sees the fallback word. *)
Theorem blocked_reply_hides_principle principle reason :
  reply_body to_string (result_payload (Blocked principle reason)) = bs "I can't do that (policy: blocked).".
Proof. reflexivity. Qed.
End Ends.

(** * Witnesses *)

#[local] Instance channel_demo_text : Text := {| jsonb_text _ := bs "?"; str_debug s := s |}.

Definition demo_f32 (z : Z) : Value := int_value z.

(** A code is issued and ["@Alice:hs"] sends it from Matrix; then she writes. *)
Definition demo_alice (body : bytes) : IncomingMessage := mkIn (bs "matrix") (bs "@Alice:hs") (bs "!room") body None.

Definition demo_paired : list (Z * Cmd) :=
  [(1, CmdIssue true (bs "CODE42") None 10); (2, CmdMessage no_faults true true (demo_alice (bs " CODE42 ")))].

Definition demo_pairing : Pairing := mkPairing 1 (bs "matrix") (bs "@Alice:hs") (bs "code") 2 None None.

(** The code is spent, and a second peer gets nothing with it. *)
Example demo_code_spent :
  handle_inbound demo_f32 no_faults true true (mkIn (bs "matrix") (bs "@Bob:hs") (bs "!room") (bs "CODE42") None) 3
    (run_cmds demo_f32 demo_paired empty_bus)
  = (None, audit no_faults (bs "channel.rejected_unpaired")
             (object [(bs "channel", String (bs "matrix")); (bs "peer", String (bs "@Bob:hs"))]) (run_cmds demo_f32 demo_paired empty_bus)).
Proof. vm_compute. reflexivity. Qed.

(** The operator revokes her, is told that it worked, and she is still heard. *)
Example demo_revoke_misses :
  let '(code, b) := pair_revoke true [bs "matrix"; bs "@Alice:hs"] 4 (run_cmds demo_f32 demo_paired empty_bus) in
  code = 0 /\ authorize no_faults (demo_alice (bs "hi")) (bu_registry b) = Recognised.
Proof. vm_compute. by split. Qed.

Lemma demo_alice_vouched : vouched (demo_alice (bs "list my notes")) (bu_registry (run_cmds demo_f32 demo_paired empty_bus)).
Proof. exists demo_pairing. vm_compute. split_and!; try reflexivity. constructor. Qed.

Lemma vouched_message_is_queued_witness :
  exists b' payload, handle_inbound demo_f32 no_faults true true (demo_alice (bs "list my notes")) 5 (run_cmds demo_f32 demo_paired empty_bus) = (None, b')
    /\ bu_audit b' = bu_audit (run_cmds demo_f32 demo_paired empty_bus) ++ [(bs "channel.received", payload)].
Proof.
  destruct (vouched_message_is_queued demo_f32 demo_paired true true (demo_alice (bs "list my notes")) 5) as (b' & payload & Hi & Ha & _).
  - vm_compute. reflexivity.
  - vm_compute. reflexivity.
  - vm_compute. reflexivity.
  - exact demo_alice_vouched.
  - vm_compute. reflexivity.
  - vm_compute. reflexivity.
  - exists b', payload. split; [exact Hi|exact Ha].
Defined.

Lemma mixed_case_peer_is_irrevocable_witness :
  demo_pairing ∈ rg_pairings (bu_registry (run_cmds demo_f32
    [(6, CmdRevoke true [bs "matrix"; bs "@Alice:hs"]); (7, CmdRevoke true [bs "matrix"; bs "@alice:hs"])]
    (run_cmds demo_f32 demo_paired empty_bus))).
Proof.
  apply mixed_case_peer_is_irrevocable.
  - vm_compute. intros E. discriminate E.
  - vm_compute. constructor.
Defined.
