(* ===== verification/Conversation.v ===== *)
(** Conversational continuity (src/core/src/scheduler/conversation.rs and
    conversation/{record,view,floor}.rs, src/db/src/tasks/turns.rs): what a
    finished channel turn leaves behind, which earlier turns a follow-up reads,
    what the planner is shown of them, and the classification it inherits.

    The query runs on the tables of TaskStore.  The rendering of an instant is
    the [time] crate's and a parameter; compact JSON is ResultView's. *)

From stdpp Require Import base gmap list sets numbers strings pretty.
From Stdlib Require Import ZArith Lia.
From S2P Require Import Prelude RustStr Fingerprint HashesWire Json Cassandra PlanJson InjectionGuard Asks LoopPure InnerLoop AskMessage.
From S2P Require Import ResultView TaskStore Channel.
Local Open Scope nat_scope.

(** * record.rs *)

Definition CALL_PARAMS_CAP : nat := 1024.
Definition RETURNS_MAX_CHARS : nat := 256.
Definition CALLS_PER_TURN : nat := 16.
Definition TURN_RECORD_CAP : nat := 8192.
Definition SCRAPBOOKS_PER_TURN : nat := 8.
Definition FIELD_NAME_MAX_CHARS : nat := 64.

Definition SIFT_TOOL : bytes := bs "sift".
Definition SIFT_READS_DECISION : bytes := bs "sift reads: ".

Record TurnCall := mkTurnCall { tc_tool : bytes; tc_method : bytes; tc_parameters : Value; tc_returns : bytes }.

Record TurnScrapbook := mkScrapbook { sb_scrapbook : bytes; sb_criterion : bytes; sb_fields : list bytes; sb_rows : Z }.

Record TurnRecord := mkTurnRecord {
  tr_calls : list TurnCall; tr_omitted_calls : Z; tr_data_class : DataClass;
  tr_scrapbooks : list TurnScrapbook; tr_omitted_scrapbooks : Z }.

(** ** serde *)

Definition call_to_value (c : TurnCall) : Value :=
  object [(bs "tool", String (tc_tool c)); (bs "method", String (tc_method c)); (bs "parameters", tc_parameters c);
          (bs "returns", String (tc_returns c))].

Definition scrapbook_to_value (s : TurnScrapbook) : Value :=
  object [(bs "scrapbook", String (sb_scrapbook s)); (bs "criterion", String (sb_criterion s));
          (bs "fields", Array (map String (sb_fields s))); (bs "rows", int_value (sb_rows s))].

(** [skip_serializing_if = "is_zero"] *)
Definition count_field (k : bytes) (n : Z) : list (bytes * Value) := if (n =? 0)%Z then [] else [(k, int_value n)].

Definition record_value (r : TurnRecord) : Value :=
  object ([(bs "calls", Array (map call_to_value (tr_calls r)))] ++ count_field (bs "_omitted_calls") (tr_omitted_calls r) ++
          [(bs "data_class", class_value (tr_data_class r))] ++
          (match tr_scrapbooks r with [] => [] | l => [(bs "scrapbooks", Array (map scrapbook_to_value l))] end) ++
          count_field (bs "_omitted_scrapbooks") (tr_omitted_scrapbooks r)).

Definition usize_from_value (v : Value) : option Z :=
  match v with Number (NInt z) => if ((0 <=? z) && (z <=? USIZE_MAX))%Z then Some z else None | _ => None end.

(** [#[serde(default)]] *)
Definition default_field {A} (k : bytes) (f : Value -> option A) (d : A) (v : Value) : option A :=
  match get k v with None => Some d | Some w => f w end.

Definition call_from_value (v : Value) : option TurnCall :=
  tool ← req_field (bs "tool") as_str v; method ← req_field (bs "method") as_str v;
  parameters ← req_field (bs "parameters") Some v; returns ← req_field (bs "returns") as_str v;
  Some (mkTurnCall tool method parameters returns).

Definition scrapbook_from_value (v : Value) : option TurnScrapbook :=
  scrapbook ← req_field (bs "scrapbook") as_str v; criterion ← req_field (bs "criterion") as_str v;
  fields ← req_field (bs "fields") (array_of as_str) v; rows ← req_field (bs "rows") usize_from_value v;
  Some (mkScrapbook scrapbook criterion fields rows).

Definition record_from_value (v : Value) : option TurnRecord :=
  calls ← req_field (bs "calls") (array_of call_from_value) v;
  omitted ← default_field (bs "_omitted_calls") usize_from_value 0%Z v;
  class ← req_field (bs "data_class") class_from_value v;
  scrapbooks ← default_field (bs "scrapbooks") (array_of scrapbook_from_value) [] v;
  omitted_s ← default_field (bs "_omitted_scrapbooks") usize_from_value 0%Z v;
  Some (mkTurnRecord calls omitted class scrapbooks omitted_s).

(** ** Building a record *)

Definition clamp_chars (s : bytes) (max_chars : nat) : bytes :=
  if char_count s <=? max_chars then s else take_chars max_chars s ++ ELLIPSIS.

Definition str_of (v : Value) (k : bytes) : option bytes := get k v ≫= as_str.

(** A missing field of an [Ok] result indexes as [Null]. *)
Definition scrapbook_of (r : PlanRecord) : option TurnScrapbook :=
  match pl_steps (rec_plan r), rec_outcomes r with
  | step :: _, StepOk v :: _ =>
      if negb (bytes_eqb (st_tool step) SIFT_TOOL) then None
      else
        let fields := default [] (get (bs "fields") v ≫= array_of as_str) in
        scrapbook ← str_of v (bs "scrapbook");
        Some (mkScrapbook scrapbook (clamp_chars (default [] (str_of v (bs "criterion"))) RETURNS_MAX_CHARS)
                (map (fun f => clamp_chars f FIELD_NAME_MAX_CHARS) fields)
                (default 0%Z (get (bs "kept") v ≫= usize_from_value)))
  | _, _ => None
  end.

Definition max_class (a b : DataClass) : DataClass := if (rank a <? rank b)%Z then b else a.

Definition call_of (step : PlannedStep) : TurnCall :=
  mkTurnCall (st_tool step) (st_method step) (render (st_parameters step) CALL_PARAMS_CAP)
    (clamp_chars (st_returns step) RETURNS_MAX_CHARS).

(** The steps of one plan that ran, with the class and the calls so far. *)
Fixpoint record_steps (sift_reads : bool) (steps : list (PlannedStep * StepOutcome)) (acc : DataClass * list TurnCall) :
    DataClass * list TurnCall :=
  match steps with
  | [] => acc
  | (step, o) :: rest =>
      record_steps sift_reads rest
        (max_class acc.1 (st_classification step),
         if sift_reads || is_err o then acc.2 else acc.2 ++ [call_of step])
  end.

Definition record_plan (acc : DataClass * list TurnCall) (r : PlanRecord) : DataClass * list TurnCall :=
  record_steps (starts_with SIFT_READS_DECISION (pl_decision (rec_plan r))) (zip (pl_steps (rec_plan r)) (rec_outcomes r)) acc.

Definition drop_oldest {A} (cap : nat) (l : list A) : list A * nat := (drop (length l - cap) l, length l - cap).

Definition record_len (r : TurnRecord) : nat := serialised_len (record_value r).

(** The byte cap: the oldest call goes first, then the oldest scrapbook. *)
Fixpoint fit_record (fuel : nat) (r : TurnRecord) : TurnRecord :=
  match fuel with
  | O => r
  | S fuel' =>
      if TURN_RECORD_CAP <? record_len r then
        match tr_calls r, tr_scrapbooks r with
        | _ :: calls, _ =>
            fit_record fuel' (mkTurnRecord calls (tr_omitted_calls r + 1) (tr_data_class r) (tr_scrapbooks r) (tr_omitted_scrapbooks r))
        | [], _ :: books =>
            fit_record fuel' (mkTurnRecord [] (tr_omitted_calls r) (tr_data_class r) books (tr_omitted_scrapbooks r + 1))
        | [], [] => r
        end
      else r
  end.

Definition from_plans (plans : list PlanRecord) (final_floor : DataClass) : TurnRecord :=
  let '(books, lost_books) := drop_oldest SCRAPBOOKS_PER_TURN (omap scrapbook_of plans) in
  let '(class, all_calls) := fold_left record_plan plans (final_floor, []) in
  let '(calls, lost_calls) := drop_oldest CALLS_PER_TURN all_calls in
  fit_record (length calls + length books)
    (mkTurnRecord calls (Z.of_nat lost_calls) class books (Z.of_nat lost_books)).

(** * turns.rs *)

Record ConversationTurnRow := mkTurnRow {
  cr_task_id : Z; cr_finished_at : Z; cr_payload : Value; cr_result : option Value; cr_turn_record : option Value }.

Record ConversationQuery := mkQuery {
  cq_channel : bytes; cq_peer : bytes; cq_conversation : bytes; cq_window_anchor : Z; cq_exclude_task_id : Z;
  cq_window_hours : Z; cq_limit : Z }.

Definition HOUR_NS : Z := 3600000000000.
Definition I32_MAX : Z := 2147483647.

(** * conversation.rs *)

Definition MAX_TURNS : Z := 3.
Definition WINDOW_HOURS : Z := 5.

Record ConvTurn := mkTurn {
  tn_task_id : Z; tn_finished_at : Z; tn_user : bytes; tn_answer : bytes; tn_record : option TurnRecord;
  tn_data_class : option DataClass }.

Definition conversation_query_for (dest : AskDestination) (task_id created_at : Z) : ConversationQuery :=
  mkQuery (ad_channel dest) (ad_peer dest) (ad_conversation dest) created_at task_id WINDOW_HOURS MAX_TURNS.

(** * view.rs: constants *)

Definition CONVERSATION_BUDGET : nat := 16 * 1024.
Definition USER_TEXT_CAP : nat := 2 * 1024.
Definition ANSWER_CAP : nat := 4 * 1024.
Definition ARRAY_FRAMING_BYTES : nat := 32.
Definition OMITTED_TURNS_KEY : bytes := bs "_omitted_turns".
Definition TIER_CONVERSATION : bytes := bs "conversation".
Definition STATUS_WITHHELD : bytes := bs "withheld".
Definition STATUS_TOO_LARGE : bytes := bs "too large for the conversation budget".
Definition STATUS_UNCLASSIFIED : bytes := bs "unclassified".
Definition OMITTED_CALLS_KEY : bytes := bs "_omitted_calls".
Definition MIN_RENDER_BUDGET : nat := 4 * MIN_VIEW_TOTAL + ARRAY_FRAMING_BYTES.

Record ConversationBlock := mkBlock {
  cb_task_id : Z; cb_score : Z; cb_reason_codes : list bytes; cb_body_sha256 : bytes; cb_body_byte_len : nat }.

Definition clamp_text (s : bytes) (cap : nat) : Value := render (String s) (Nat.max cap MIN_VIEW_TOTAL).

Definition inherit_floor (floor : DataClass) (source : ClassificationFloorSource) (turns : list ConvTurn) :
    DataClass * ClassificationFloorSource :=
  match omap tn_data_class turns with
  | [] => (floor, source)
  | c :: cs =>
      let inherited := fold_left max_class cs c in
      if (rank floor <? rank inherited)%Z then (inherited, ConversationInherited) else (floor, source)
  end.

Section Conversation.
Context `{UnicodeStr} `{UnicodeChar} `{Sha256} `{Text} (rfc3339 : Z -> bytes) (f32_value : Z -> Value).

(** [payload->>'key' = $n] *)
Definition conversation_turns (q : ConversationQuery) (db : Db) : result (list ConversationTurnRow) DbError :=
  if (cq_window_hours q <? -2147483648)%Z || (I32_MAX <? cq_window_hours q)%Z
  then Err (query_error (bs "tasks conversation_turns: window_hours out of range"))
  else
    let hit id t :=
      is_channel_payload (tk_payload t) && text_is (arrow_text (bs "channel") (tk_payload t)) (cq_channel q)
      && text_is (arrow_text (bs "peer") (tk_payload t)) (cq_peer q)
      && text_is (arrow_text (bs "conversation") (tk_payload t)) (cq_conversation q)
      && negb (id =? cq_exclude_task_id q)%Z && is_terminal (tk_state t)
      && match tk_finished_at t with
         | Some f => (cq_window_anchor q - cq_window_hours q * HOUR_NS <=? f)%Z
         | None => false
         end in
    let finished t := default 0%Z (tk_finished_at t) in
    let newer a b := (finished b.2 <? finished a.2)%Z || ((finished a.2 =? finished b.2)%Z && (b.1 <=? a.1)%Z) in
    Ok (map (fun kt => mkTurnRow kt.1 (finished kt.2) (tk_payload kt.2) (tk_result kt.2) (tk_turn_record kt.2))
          (limit (cq_limit q) (order_by newer
             (List.filter (fun kt => hit kt.1 kt.2) (map_to_list (db_tasks db)))))).

Definition turn_from_row (row : ConversationTurnRow) : ConvTurn :=
  mkTurn (cr_task_id row) (cr_finished_at row)
    (default [] (get (bs "instruction") (cr_payload row) ≫= as_str))
    (reply_body to_string (cr_result row))
    (cr_turn_record row ≫= record_from_value)
    (cr_turn_record row ≫= fun v => get (bs "data_class") v ≫= class_from_value).

(** Oldest first. *)
Definition load_conversation (dest : AskDestination) (task_id created_at : Z) (db : Db) : result (list ConvTurn) DbError :=
  match conversation_turns (conversation_query_for dest task_id created_at) db with
  | Ok rows => Ok (reverse (map turn_from_row rows))
  | Err e => Err e
  end.

(** ** view.rs *)

Definition at_ (t : ConvTurn) : bytes := rfc3339 (tn_finished_at t).

Definition status_view (t : ConvTurn) (status : bytes) : Value :=
  object [(bs "at", String (at_ t)); (bs "status", String status)].

Definition render_turn (t : ConvTurn) (user_cap answer_cap : nat) (with_calls : bool) : Value :=
  let extra :=
    match (if with_calls then tn_record t else None) with
    | Some r =>
        [(bs "calls", Array (map call_to_value (tr_calls r)))] ++
        (match tr_scrapbooks r with [] => [] | l => [(bs "scrapbooks", Array (map scrapbook_to_value l))] end) ++
        count_field (bs "_omitted_scrapbooks") (tr_omitted_scrapbooks r) ++
        count_field OMITTED_CALLS_KEY (tr_omitted_calls r)
    | None => []
    end in
  object ([(bs "at", String (at_ t)); (bs "user", clamp_text (tn_user t) user_cap)] ++ extra ++
          [(bs "answer", clamp_text (tn_answer t) answer_cap)]).

Definition screen_turn (t : ConvTurn) (v : Value) : option ConversationBlock :=
  let text := screen_text v in
  let verdict := screen_with_profile text Strict in
  match iv_decision verdict with
  | BlockInjection =>
      Some (mkBlock (tn_task_id t) (iv_score verdict) (iv_reason_codes verdict) (ingest_sha256_hex text) (length text))
  | Allow => None
  end.

(** [admitted::admit], the only way into the output. *)
Definition admit_turn (t : ConvTurn) (v : Value) : Value * list ConversationBlock :=
  match screen_turn t v with
  | None => (v, [])
  | Some block => (status_view t STATUS_WITHHELD, [block])
  end.

Definition candidate (t : ConvTurn) : Value :=
  match tn_data_class t with
  | None => status_view t STATUS_UNCLASSIFIED
  | Some _ => render_turn t USER_TEXT_CAP ANSWER_CAP true
  end.

Definition omitted_mark (n : nat) : list Value :=
  if 0 <? n then [object [(OMITTED_TURNS_KEY, int_value (Z.of_nat n))]] else [].

Definition array_len (rendered : list (ConvTurn * Value)) (omitted : nat) : nat :=
  serialised_len (Array (omitted_mark omitted ++ map snd rendered)).

Fixpoint drop_old_turns (budget : nat) (rendered : list (ConvTurn * Value)) (omitted : nat) :
    list (ConvTurn * Value) * nat :=
  match rendered with
  | _ :: (_ :: _) as rest =>
      if budget <? array_len rendered omitted then drop_old_turns budget rest (S omitted) else (rendered, omitted)
  | _ => (rendered, omitted)
  end.

(** The ladder of smaller candidates; the last one is taken whether or not it
    fits. *)
Fixpoint clamp_ladder (cap : nat) (t : ConvTurn) (candidates : list Value) (value : Value) (blocks : list ConversationBlock) :
    Value * list ConversationBlock :=
  match candidates with
  | [] => (value, blocks)
  | c :: rest =>
      let '(v, bl) := admit_turn t c in
      if serialised_len v <=? cap then (v, blocks ++ bl) else clamp_ladder cap t rest v (blocks ++ bl)
  end.

Definition clamp_last (budget : nat) (rendered : list (ConvTurn * Value)) (blocks : list ConversationBlock) :
    list (ConvTurn * Value) * list ConversationBlock :=
  let cap := budget - ARRAY_FRAMING_BYTES in
  match rendered with
  | [(t, v)] =>
      if cap <? serialised_len v then
        let '(v', blocks') := clamp_ladder cap t
          [render_turn t USER_TEXT_CAP ANSWER_CAP false; render_turn t (budget / 4) (budget / 4) false;
           status_view t STATUS_TOO_LARGE] v blocks in
        ([(t, v')], blocks')
      else (rendered, blocks)
  | _ => (rendered, blocks)
  end.

Definition render_conversation (turns : list ConvTurn) (budget : nat) : list Value * list ConversationBlock :=
  let admitted := map (fun t => (t, admit_turn t (candidate t))) turns in
  let blocks := flat_map (fun ta => ta.2.2) admitted in
  let '(rendered, omitted) := drop_old_turns budget (map (fun ta => (ta.1, ta.2.1)) admitted) 0 in
  let '(rendered', blocks') := clamp_last budget rendered blocks in
  (omitted_mark omitted ++ map snd rendered', blocks').

(** ** load_for_task *)

Record LoadedConversation := mkLoaded {
  lc_turns : list Value; lc_floor : DataClass * ClassificationFloorSource; lc_task_ids : option (list Z);
  lc_blocks : list ConversationBlock }.

(** [up] is whether the read succeeded. *)
Definition load_for_task (up : bool) (task_id created_at : Z) (origin : option AskDestination) (floor : DataClass)
    (source : ClassificationFloorSource) (db : Db) : LoadedConversation :=
  match origin with
  | None => mkLoaded [] (floor, source) (Some []) []
  | Some dest =>
      match (if up then load_conversation dest task_id created_at db else Err (query_error (bs "tasks conversation_turns"))) with
      | Err _ => mkLoaded [] (floor, source) None []
      | Ok turns =>
          let '(rendered, blocks) := render_conversation turns CONVERSATION_BUDGET in
          mkLoaded rendered (inherit_floor floor source turns) (Some (map tn_task_id turns)) blocks
      end
  end.

Definition block_audit_payload (task_id : Z) (b : ConversationBlock) : Value :=
  object [(bs "task_id", int_value task_id); (bs "turn_task_id", int_value (cb_task_id b)); (bs "score", f32_value (cb_score b));
          (bs "decision", String (bs "block")); (bs "tier", String TIER_CONVERSATION);
          (bs "reason_codes", Array (map String (cb_reason_codes b))); (bs "body_sha256", String (cb_body_sha256 b));
          (bs "body_byte_len", int_value (Z.of_nat (cb_body_byte_len b)))].
End Conversation.

(** * Lemmas *)

Lemma rank_max_class a b : rank (max_class a b) = Z.max (rank a) (rank b).
Proof. unfold max_class. destruct (Z.ltb_spec (rank a) (rank b)); lia. Qed.

Lemma fold_max_class cs c : (rank c <= rank (fold_left max_class cs c))%Z /\
  Forall (fun x => (rank x <= rank (fold_left max_class cs c))%Z) cs.
Proof.
  revert c. induction cs as [|x cs IH]; intros c; cbn [fold_left]; [split; [done|constructor]|].
  destruct (IH (max_class c x)) as [H1 H2]. rewrite rank_max_class in H1. split; [lia|]. constructor; [lia|done].
Qed.

(** The inherited floor is at least the task's own and every turn's. *)
Lemma inherit_floor_covers floor source turns :
  let '(f, _) := inherit_floor floor source turns in
  (rank floor <= rank f)%Z /\ (forall t c, t ∈ turns -> tn_data_class t = Some c -> (rank c <= rank f)%Z).
Proof.
  unfold inherit_floor. assert (Hin : forall t c, t ∈ turns -> tn_data_class t = Some c -> c ∈ omap tn_data_class turns).
  { intros t c Ht Hc. apply list_elem_of_omap. eauto. }
  destruct (omap tn_data_class turns) as [|c cs] eqn:E.
  { split; [done|]. intros t c Ht Hc. specialize (Hin t c Ht Hc). by apply not_elem_of_nil in Hin. }
  destruct (fold_max_class cs c) as [H1 H2]. rewrite list.Forall_forall in H2.
  assert (Hall : forall t d, t ∈ turns -> tn_data_class t = Some d -> (rank d <= rank (fold_left max_class cs c))%Z).
  { intros t d Ht Hd. specialize (Hin t d Ht Hd). apply elem_of_cons in Hin as [->|Hin]; [done|by apply H2]. }
  destruct (Z.ltb_spec (rank floor) (rank (fold_left max_class cs c))).
  - split; [lia|done].
  - split; [done|]. intros t d Ht Hd. specialize (Hall t d Ht Hd). lia.
Qed.

(** ** The record *)

Lemma record_steps_class sr steps acc :
  (rank acc.1 <= rank (record_steps sr steps acc).1)%Z /\
  Forall (fun so => (rank (st_classification so.1) <= rank (record_steps sr steps acc).1)%Z) steps.
Proof.
  revert acc. induction steps as [|[s o] steps IH]; intros acc; cbn [record_steps]; [split; [done|constructor]|].
  destruct (IH (max_class acc.1 (st_classification s), if sr || is_err o then acc.2 else acc.2 ++ [call_of s])) as [H1 H2].
  cbn [fst] in H1. rewrite rank_max_class in H1. split; [lia|]. constructor; [cbn [fst]; lia|done].
Qed.

(** The steps a plan record says were dispatched. *)
Definition ran (r : PlanRecord) : list PlannedStep := (zip (pl_steps (rec_plan r)) (rec_outcomes r)).*1.

Lemma record_plans_class plans acc :
  (rank acc.1 <= rank (fold_left record_plan plans acc).1)%Z /\
  (forall r s, r ∈ plans -> s ∈ ran r -> (rank (st_classification s) <= rank (fold_left record_plan plans acc).1)%Z).
Proof.
  revert acc. induction plans as [|r plans IH]; intros acc; cbn [fold_left].
  { split; [done|]. intros r s Hr. by apply not_elem_of_nil in Hr. }
  destruct (IH (record_plan acc r)) as [H1 H2]. unfold record_plan at 1 in H1.
  destruct (record_steps_class (starts_with SIFT_READS_DECISION (pl_decision (rec_plan r)))
              (zip (pl_steps (rec_plan r)) (rec_outcomes r)) acc) as [H3 H4]. split; [lia|].
  intros r' s [->|Hr]%elem_of_cons Hs; [|by apply (H2 r')]. unfold ran in Hs. apply list_elem_of_fmap in Hs as (so & -> & Hso).
  rewrite list.Forall_forall in H4. specialize (H4 so Hso). lia.
Qed.

Lemma fit_record_class fuel r : tr_data_class (fit_record fuel r) = tr_data_class r.
Proof.
  revert r. induction fuel as [|fuel IH]; intros r; cbn [fit_record]; [done|]. destruct (_ <? _); [|done].
  destruct (tr_calls r); [|by rewrite IH]. destruct (tr_scrapbooks r); [done|by rewrite IH].
Qed.

Lemma from_plans_class plans floor :
  (rank floor <= rank (tr_data_class (from_plans plans floor)))%Z /\
  (forall r s, r ∈ plans -> s ∈ ran r -> (rank (st_classification s) <= rank (tr_data_class (from_plans plans floor)))%Z).
Proof.
  unfold from_plans. cbn [drop_oldest]. destruct (record_plans_class plans (floor, [])) as [H1 H2].
  destruct (fold_left record_plan plans (floor, [])) as [class calls]. rewrite fit_record_class. done.
Qed.

Lemma fit_record_fits fuel r : length (tr_calls r) + length (tr_scrapbooks r) <= fuel ->
  record_len (fit_record fuel r) <= TURN_RECORD_CAP \/
  tr_calls (fit_record fuel r) = [] /\ tr_scrapbooks (fit_record fuel r) = [].
Proof.
  revert r. induction fuel as [|fuel IH]; intros r Hf; cbn [fit_record].
  - right. split; apply nil_length_inv; lia.
  - destruct (Nat.ltb_spec TURN_RECORD_CAP (record_len r)); [|by left].
    destruct (tr_calls r) as [|c calls] eqn:Ec; [destruct (tr_scrapbooks r) as [|b books] eqn:Eb|].
    + right. done.
    + apply IH. cbn. cbn in Hf. lia.
    + apply IH. cbn. cbn in Hf. lia.
Qed.

(** The class can be read back whatever else the record holds. *)
Lemma record_class_readable r : (get (bs "data_class") (record_value r) ≫= class_from_value) = Some (tr_data_class r).
Proof.
  unfold record_value. rewrite (object_get _ (class_value (tr_data_class r))).
  - apply class_roundtrip.
  - unfold count_field. destruct (tr_omitted_calls r =? 0)%Z, (tr_scrapbooks r), (tr_omitted_scrapbooks r =? 0)%Z;
      by apply (bool_decide_unpack _).
  - set_solver.
Qed.

(** ** The view *)

Section View.
Context `{UnicodeStr} `{UnicodeChar} `{Sha256} `{Text} (rfc3339 : Z -> bytes).

(** An instant renders to a few dozen plain characters. *)
Hypothesis rfc3339_short : forall z, length (json_string (rfc3339 z)) <= 64.

Lemma status_view_len t status : length (json_string status) <= 128 -> serialised_len (status_view rfc3339 t status) <= 256.
Proof.
  intros Hs. unfold status_view, serialised_len. rewrite object_sorted by done. cbn [to_string map join fst snd].
  rewrite !length_app. pose proof (rfc3339_short (tn_finished_at t)) as Hr. unfold at_.
  change (length (json_string (bs "at"))) with 4. change (length (json_string (bs "status"))) with 8.
  change (length (bs "{")) with 1. change (length (bs "}")) with 1. change (length (bs ":")) with 1. change (length (bs ",")) with 1.
  lia.
Qed.

(** What may stand in the output for a turn: a classified turn's text that passed
    the screen, or a bare status. *)
Definition view_ok (t : ConvTurn) (v : Value) : Prop :=
  (exists status, v = status_view rfc3339 t status) \/
  (is_Some (tn_data_class t) /\ iv_decision (screen_with_profile (screen_text v) Strict) = Allow).

Lemma admit_ok t v : (is_Some (tn_data_class t) \/ exists status, v = status_view rfc3339 t status) ->
  view_ok t (admit_turn rfc3339 t v).1.
Proof.
  intros Hv. unfold admit_turn, screen_turn. destruct (iv_decision _) eqn:E; cbn [fst].
  - destruct Hv as [Hv|Hv]; [by right|by left].
  - left. eauto.
Qed.

Lemma candidate_ok t : view_ok t (admit_turn rfc3339 t (candidate rfc3339 t)).1.
Proof. apply admit_ok. unfold candidate. destruct (tn_data_class t); [left; eauto|right; eauto]. Qed.

Definition views_ok (turns : list ConvTurn) (rendered : list (ConvTurn * Value)) : Prop :=
  Forall (fun tv => tv.1 ∈ turns /\ view_ok tv.1 tv.2) rendered.

Lemma drop_old_turns_cons budget x y rest omitted :
  drop_old_turns budget (x :: y :: rest) omitted =
  if budget <? array_len (x :: y :: rest) omitted then drop_old_turns budget (y :: rest) (S omitted)
  else (x :: y :: rest, omitted).
Proof. done. Qed.

Lemma drop_old_turns_spec budget rendered omitted :
  let '(rendered', omitted') := drop_old_turns budget rendered omitted in
  (exists gone, rendered = gone ++ rendered' /\ omitted' = omitted + length gone) /\
  (rendered = [] \/ rendered' <> []) /\
  (length rendered' <= 1 \/ array_len rendered' omitted' <= budget).
Proof.
  revert omitted. induction rendered as [|x [|y rest] IH]; intros omitted.
  - cbn. split_and!; [by exists []; rewrite Nat.add_0_r|by left|left; lia].
  - cbn. split_and!; [by exists []; rewrite Nat.add_0_r|by right|left; lia].
  - rewrite drop_old_turns_cons. destruct (Nat.ltb_spec budget (array_len (x :: y :: rest) omitted)) as [Hb|Hb].
    + specialize (IH (S omitted)). destruct (drop_old_turns budget (y :: rest) (S omitted)) as [r' o'].
      destruct IH as ((gone & Hg & Ho) & Hne & Hlen). split_and!; [|by right; destruct Hne|done].
      exists (x :: gone). rewrite Hg. split; [done|]. cbn. lia.
    + split_and!; [by exists []; rewrite Nat.add_0_r|by right|by right].
Qed.

Lemma clamp_ladder_ok cap t cands v blocks :
  Forall (fun c => is_Some (tn_data_class t) \/ exists status, c = status_view rfc3339 t status) cands ->
  view_ok t v -> view_ok t (clamp_ladder rfc3339 cap t cands v blocks).1.
Proof.
  intros Hc. revert v blocks. induction Hc as [|c cands Hc _ IH]; intros v blocks Hv; cbn [clamp_ladder]; [done|].
  pose proof (admit_ok t c Hc) as Ha. destruct (admit_turn rfc3339 t c) as [v' bl]. cbn [fst] in Ha.
  destruct (_ <=? _); [done|by apply IH].
Qed.

Lemma clamp_ladder_fits cap t cands v blocks : 256 <= cap ->
  serialised_len (clamp_ladder rfc3339 cap t (cands ++ [status_view rfc3339 t STATUS_TOO_LARGE]) v blocks).1 <= cap.
Proof.
  intros Hcap. revert v blocks. induction cands as [|c cands IH]; intros v blocks; cbn [app clamp_ladder].
  - assert (Hs : serialised_len (admit_turn rfc3339 t (status_view rfc3339 t STATUS_TOO_LARGE)).1 <= 256).
    { unfold admit_turn. destruct (screen_turn _ _); apply status_view_len; vm_compute; lia. }
    destruct (admit_turn _ _ _) as [v' bl]. cbn [fst] in Hs. rewrite (proj2 (Nat.leb_le _ _)) by lia. cbn [fst]. lia.
  - destruct (admit_turn rfc3339 t c) as [v' bl]. destruct (Nat.leb_spec (serialised_len v') cap); [done|]. apply IH.
Qed.

Lemma status_small t status cap : 256 <= cap -> length (json_string status) <= 128 ->
  (cap <? serialised_len (status_view rfc3339 t status)) = false.
Proof. intros Hc Hs. apply Nat.ltb_ge. pose proof (status_view_len t status Hs). lia. Qed.

(** Only statuses of this module occur. *)
Lemma admitted_cases t : 
  (admit_turn rfc3339 t (candidate rfc3339 t)).1 = status_view rfc3339 t STATUS_WITHHELD \/
  (admit_turn rfc3339 t (candidate rfc3339 t)).1 = status_view rfc3339 t STATUS_UNCLASSIFIED \/
  is_Some (tn_data_class t).
Proof.
  unfold admit_turn. destruct (screen_turn _ _); [by left|]. unfold candidate. destruct (tn_data_class t); eauto.
Qed.

Lemma clamp_last_ok turns budget rendered blocks : 288 <= budget ->
  (forall t v, (t, v) ∈ rendered -> v = (admit_turn rfc3339 t (candidate rfc3339 t)).1) ->
  views_ok turns rendered -> views_ok turns (clamp_last rfc3339 budget rendered blocks).1.
Proof.
  intros Hb Hadm Hr. unfold clamp_last. destruct rendered as [|[t v] [|x rest]]; try done.
  destruct (_ <? serialised_len v) eqn:E; [|done].
  assert (Hcls : is_Some (tn_data_class t)).
  { specialize (Hadm t v (list_elem_of_here _ _)). destruct (admitted_cases t) as [Ha|[Ha|Ha]]; [| |done];
      rewrite Ha in Hadm; subst v; rewrite status_small in E; try done; try (vm_compute; lia); unfold ARRAY_FRAMING_BYTES; lia. }
  apply list.Forall_cons in Hr as [[Ht Hv] _]. cbn [fst snd] in Ht, Hv.
  pose proof (clamp_ladder_ok (budget - ARRAY_FRAMING_BYTES) t
    [render_turn rfc3339 t USER_TEXT_CAP ANSWER_CAP false; render_turn rfc3339 t (budget / 4) (budget / 4) false;
     status_view rfc3339 t STATUS_TOO_LARGE] v blocks ltac:(apply list.Forall_forall; by left) Hv) as Hl.
  destruct (clamp_ladder _ _ _ _ _ _) as [v' blocks']. cbn [fst] in *. constructor; [done|constructor].
Qed.

Lemma rendered_first turns :
  let rendered := map (fun ta : ConvTurn * (Value * list ConversationBlock) => (ta.1, ta.2.1))
                    (map (fun t => (t, admit_turn rfc3339 t (candidate rfc3339 t))) turns) in
  (forall t v, (t, v) ∈ rendered -> t ∈ turns /\ v = (admit_turn rfc3339 t (candidate rfc3339 t)).1).
Proof.
  cbn zeta. intros t v Hin. apply list_elem_of_In, in_map_iff in Hin as (ta & [= <- <-] & Hin).
  apply in_map_iff in Hin as (t & <- & Hin). cbn. by rewrite list_elem_of_In.
Qed.

(** Every element of the view is the omission mark or a turn's admissible view. *)
Lemma render_conversation_ok turns budget v : 288 <= budget ->
  v ∈ (render_conversation rfc3339 turns budget).1 ->
  (exists n, v = object [(OMITTED_TURNS_KEY, int_value (Z.of_nat n))]) \/ exists t, t ∈ turns /\ view_ok t v.
Proof.
  intros Hb. unfold render_conversation.
  pose proof (rendered_first turns) as Hf. cbn zeta in Hf.
  set (rendered := map _ (map _ turns)) in *. set (blocks := flat_map _ _).
  pose proof (drop_old_turns_spec budget rendered 0) as Hd. destruct (drop_old_turns budget rendered 0) as [kept omitted].
  destruct Hd as ((gone & Hg & _) & _).
  assert (Hkept : forall t v, (t, v) ∈ kept -> t ∈ turns /\ v = (admit_turn rfc3339 t (candidate rfc3339 t)).1).
  { intros t w Hin. apply Hf. rewrite Hg. apply elem_of_app. by right. }
  assert (Hok : views_ok turns (clamp_last rfc3339 budget kept blocks).1).
  { apply clamp_last_ok; [done|intros t w Hin; by apply Hkept|]. apply list.Forall_forall. intros [t w] Hin.
    destruct (Hkept t w Hin) as [Ht ->]. split; [done|]. apply candidate_ok. }
  destruct (clamp_last rfc3339 budget kept blocks) as [rendered' blocks']. cbn [fst] in *.
  intros [Hv|Hv]%elem_of_app.
  - left. unfold omitted_mark in Hv. destruct (0 <? omitted); [|by apply not_elem_of_nil in Hv].
    apply list_elem_of_singleton in Hv. eauto.
  - right. apply list_elem_of_fmap in Hv as ([t w] & -> & Hin). exists t.
    exact (proj1 (list.Forall_forall _ _) Hok (t, w) Hin).
Qed.

(** ** The budget *)

Lemma omitted_mark_len n : n < 1000 -> length (join (bs ",") (map to_string (omitted_mark n))) <= 22.
Proof.
  intros Hn. assert (Hall : Forall (fun n => length (join (bs ",") (map to_string (omitted_mark n))) <= 22) (seq 0 1000)).
  { apply (bool_decide_unpack _). vm_compute. exact I. }
  rewrite list.Forall_forall in Hall. apply Hall, elem_of_seq. lia.
Qed.

Lemma array_one_len n v cap : n < 1000 -> serialised_len v <= cap ->
  serialised_len (Array (omitted_mark n ++ [v])) <= cap + 25.
Proof.
  intros Hn Hv. pose proof (omitted_mark_len n Hn) as Hm. unfold serialised_len in *. cbn [to_string]. rewrite !length_app.
  change (length (bs "[")) with 1. change (length (bs "]")) with 1.
  unfold omitted_mark in *. destruct (0 <? n); cbn [app map join] in *; [|lia]. rewrite !length_app in *.
  change (length (bs ",")) with 1. lia.
Qed.

Lemma render_conversation_len turns budget : MIN_RENDER_BUDGET <= budget -> length turns < 1000 ->
  serialised_len (Array (render_conversation rfc3339 turns budget).1) <= budget.
Proof.
  intros Hb Hn. unfold MIN_RENDER_BUDGET, MIN_VIEW_TOTAL, ARRAY_FRAMING_BYTES in Hb. unfold render_conversation.
  set (rendered := map _ (map _ turns)). set (blocks := flat_map _ _).
  assert (Hl : length rendered = length turns) by (unfold rendered; by rewrite !length_map).
  pose proof (drop_old_turns_spec budget rendered 0) as Hd. destruct (drop_old_turns budget rendered 0) as [kept omitted].
  destruct Hd as ((gone & Hg & Ho) & _ & Hlen).
  assert (Hom : omitted < 1000) by (rewrite Hg, length_app in Hl; lia).
  unfold clamp_last. destruct kept as [|[t v] [|x rest]].
  - cbn [map fst]. rewrite app_nil_r. unfold serialised_len. cbn [to_string]. rewrite !length_app.
    pose proof (omitted_mark_len omitted Hom). change (length (bs "[")) with 1. change (length (bs "]")) with 1. lia.
  - unfold ARRAY_FRAMING_BYTES. destruct (Nat.ltb_spec (budget - 32) (serialised_len v)) as [Hc|Hc].
    + pose proof (clamp_ladder_fits (budget - 32) t
        [render_turn rfc3339 t USER_TEXT_CAP ANSWER_CAP false; render_turn rfc3339 t (budget / 4) (budget / 4) false]
        v blocks ltac:(lia)) as Hf. cbn [app] in Hf. destruct (clamp_ladder _ _ _ _ _ _) as [v' blocks']. cbn [fst map snd] in *.
      pose proof (array_one_len omitted v' (budget - 32) Hom Hf). lia.
    + cbn [fst map snd]. pose proof (array_one_len omitted v (budget - 32) Hom Hc). lia.
  - destruct Hlen as [Hlen|Hlen]; [cbn in Hlen; lia|exact Hlen].
Qed.

End View.

Section Query.
Context `{UnicodeStr} `{UnicodeChar} `{Sha256} `{Text}.

(** ** The query *)

Lemma order_insert_elem {A} before (x y : Z * A) l : y ∈ order_insert before x l <-> y = x \/ y ∈ l.
Proof.
  induction l as [|z l IH]; cbn [order_insert]; [set_solver|]. destruct (before z x); [|set_solver].
  rewrite !elem_of_cons, IH. set_solver.
Qed.

Lemma order_by_elem {A} before (l : list (Z * A)) y : y ∈ order_by before l <-> y ∈ l.
Proof.
  induction l as [|x l IH]; cbn; [done|]. fold (order_by before l). rewrite order_insert_elem, IH, elem_of_cons. done.
Qed.

(** The task a row of the conversation comes from. *)
Definition turn_task (dest : AskDestination) (id : Z) (db : Db) (k : Z) (t : Task) : Prop :=
  db_tasks db !! k = Some t /\ k <> id /\ owns (mkClaimant (ad_channel dest) (ad_peer dest)) (tk_payload t) = true /\
  text_is (arrow_text (bs "conversation") (tk_payload t)) (ad_conversation dest) = true /\ is_terminal (tk_state t) = true.

Lemma conversation_rows dest id created db rows row :
  conversation_turns (conversation_query_for dest id created) db = Ok rows -> row ∈ rows ->
  exists t, turn_task dest id db (cr_task_id row) t /\ cr_turn_record row = tk_turn_record t.
Proof.
  unfold conversation_turns. destruct (_ || _); [done|]. intros [= <-] Hin.
  apply list_elem_of_fmap in Hin as ([k t] & -> & Hin). unfold limit in Hin. apply elem_of_take in Hin as (i & Hi & _).
  apply list_elem_of_lookup_2 in Hi. apply order_by_elem, list_elem_of_In, filter_In in Hi as [Hi Hh].
  apply list_elem_of_In, elem_of_map_to_list in Hi. exists t. cbn [fst snd cr_task_id cr_turn_record] in *. split; [|done].
  rewrite !andb_true_iff, negb_true_iff, Z.eqb_neq in Hh. unfold turn_task, owns. rewrite !andb_true_iff. naive_solver.
Qed.

Lemma load_conversation_turns dest id created db turns t :
  load_conversation dest id created db = Ok turns -> t ∈ turns ->
  exists task, turn_task dest id db (tn_task_id t) task /\
    tn_data_class t = (tk_turn_record task ≫= fun v => get (bs "data_class") v ≫= class_from_value).
Proof.
  unfold load_conversation. destruct (conversation_turns _ db) as [rows|] eqn:E; [|done]. intros [= <-] Ht.
  rewrite elem_of_reverse in Ht. apply list_elem_of_fmap in Ht as (row & -> & Hrow).
  destruct (conversation_rows _ _ _ _ _ _ E Hrow) as (task & Htask & Hrec). exists task. split; [done|].
  cbn [turn_from_row tn_data_class]. by rewrite Hrec.
Qed.

Lemma limit_length {A} n (l : list A) : length (limit n l) <= Z.to_nat n.
Proof. unfold limit. rewrite length_take. lia. Qed.

Lemma load_conversation_few dest id created db turns : load_conversation dest id created db = Ok turns -> length turns <= 3.
Proof.
  unfold load_conversation, conversation_turns. destruct (_ || _); [done|]. intros [= <-].
  rewrite length_reverse, !length_map. apply (limit_length MAX_TURNS).
Qed.

End Query.

(** * Properties *)

Section Properties.
Context `{UnicodeStr} `{UnicodeChar} `{Sha256} `{Text} (rfc3339 : Z -> bytes).

(** Classification survives the task boundary: a follow-up runs at a floor
    no lower than the final floor of any turn it loaded and than the class of
    any step that turn dispatched, whatever the record's caps dropped. *)
Theorem follow_up_floor_covers_turns id created dest floor source db ids k task plans final_floor :
  let lc := load_for_task rfc3339 true id created (Some dest) floor source db in
  lc_task_ids lc = Some ids -> k ∈ ids -> db_tasks db !! k = Some task ->
  tk_turn_record task = Some (record_value (from_plans plans final_floor)) ->
  (rank final_floor <= rank (lc_floor lc).1)%Z /\
  (forall r s, r ∈ plans -> s ∈ ran r -> (rank (st_classification s) <= rank (lc_floor lc).1)%Z).
Proof.
  cbn zeta. unfold load_for_task. destruct (load_conversation dest id created db) as [turns|e] eqn:E; [|done].
  destruct (render_conversation rfc3339 turns CONVERSATION_BUDGET) as [rendered blocks]. cbn [lc_task_ids lc_floor].
  intros [= <-] Hk Ht Hrec. apply list_elem_of_fmap in Hk as (turn & -> & Hturn).
  destruct (load_conversation_turns _ _ _ _ _ _ E Hturn) as (task' & Htask & Hcls). destruct Htask as [Ht' _].
  assert (task' = task) as -> by congruence. rewrite Hrec in Hcls. cbn [mbind option_bind] in Hcls. rewrite record_class_readable in Hcls.
  pose proof (inherit_floor_covers floor source turns) as Hf. destruct (inherit_floor floor source turns) as [f src]. cbn [fst].
  destruct Hf as [_ Hf]. specialize (Hf turn _ Hturn Hcls). destruct (from_plans_class plans final_floor) as [H3 H4].
  split; [lia|]. intros r s Hr Hs. specialize (H4 r s Hr Hs). lia.
Qed.
(** An instant renders to a few dozen plain characters. *)
Hypothesis rfc3339_short : forall z, length (json_string (rfc3339 z)) <= 64.

(** What a follow-up sees of its conversation is bounded by what it runs
    under.  Its floor is no lower than its own payload's; the block fits its
    budget; and each element is the omission mark or stands for a finished task
    of this very channel, peer and conversation: either a bare status, or text
    that passed the strict injection screen of a task whose stored class is
    readable and no higher than the floor.  A failed read shows nothing. *)
Theorem follow_up_view_is_bounded up id created origin floor source db :
  let lc := load_for_task rfc3339 up id created origin floor source db in
  (rank floor <= rank (lc_floor lc).1)%Z /\
  serialised_len (Array (lc_turns lc)) <= CONVERSATION_BUDGET /\
  (forall v, v ∈ lc_turns lc ->
    (exists n, v = object [(OMITTED_TURNS_KEY, int_value (Z.of_nat n))]) \/
    (exists dest turn task, origin = Some dest /\ turn_task dest id db (tn_task_id turn) task /\
      ((exists status, v = status_view rfc3339 turn status) \/
       (exists c, (tk_turn_record task ≫= fun r => get (bs "data_class") r ≫= class_from_value) = Some c /\
          (rank c <= rank (lc_floor lc).1)%Z /\ iv_decision (screen_with_profile (screen_text v) Strict) = Allow)))).
Proof.
  cbn zeta. unfold load_for_task.
  assert (Hnone : forall ids, let lc := mkLoaded [] (floor, source) ids [] in
    (rank floor <= rank (lc_floor lc).1)%Z /\ serialised_len (Array (lc_turns lc)) <= CONVERSATION_BUDGET /\ forall v, v ∈ lc_turns lc -> False).
  { intros ids. cbn [lc_floor lc_turns fst]. split_and!; [done| |by intros v Hv%not_elem_of_nil].
    unfold serialised_len, CONVERSATION_BUDGET. cbn. lia. }
  destruct origin as [dest|]; [|destruct (Hnone (Some [])) as (? & ? & Hf); split_and!; [done..|intros v Hv; by destruct (Hf v)]].
  destruct (if up then _ else _) as [turns|e] eqn:E;
    [|destruct (Hnone None) as (? & ? & Hf); split_and!; [done..|intros v Hv; by destruct (Hf v)]].
  destruct up; [|done]. pose proof (render_conversation_ok rfc3339 rfc3339_short turns CONVERSATION_BUDGET) as Hok.
  pose proof (render_conversation_len rfc3339 rfc3339_short turns CONVERSATION_BUDGET) as Hlen.
  destruct (render_conversation rfc3339 turns CONVERSATION_BUDGET) as [rendered blocks]. cbn [fst lc_turns lc_floor] in *.
  pose proof (inherit_floor_covers floor source turns) as Hf. destruct (inherit_floor floor source turns) as [f src]. cbn [fst].
  destruct Hf as [Hf1 Hf2]. split_and!; [done| |].
  - apply Hlen; [apply Nat.leb_le; vm_compute; reflexivity|]. pose proof (load_conversation_few _ _ _ _ _ E). lia.
  - intros v Hv. destruct (Hok v) as [?|(t & Ht & Hview)]; [apply Nat.leb_le; vm_compute; reflexivity|done|by left|right].
    destruct (load_conversation_turns _ _ _ _ _ _ E Ht) as (task & Htask & Hcls). exists dest, t, task. split_and!; [done..|].
    destruct Hview as [Hs|[[c Hc] Hscr]]; [by left|right]. exists c. rewrite <- Hcls. split_and!; [done| |done]. by apply (Hf2 t).
Qed.

End Properties.

(** * Witnesses *)

#[local] Instance conversation_demo_text : Text := {| jsonb_text _ := bs "?"; str_debug s := s |}.

Definition demo_rfc3339 (z : Z) : bytes := bs "2026-09-14T10:00:00Z".

Definition demo_dest : AskDestination := mkDest (bs "matrix") (bs "@op") (bs "!room").

Definition demo_conversation_payload (text : bytes) : Value :=
  build_channel_task_payload (mkIn (bs "matrix") (bs "@op") (bs "!room") text None).

(** One finished turn that dispatched a clinical step, and a follow-up. *)
Definition demo_step_run : PlanRecord :=
  mkRecord (mkPlan [] (bs "act") [] [mkStep (bs "mail") (bs "mail.search") (object [(bs "query", String (bs "scan"))]) (bs "hits") [] ClinicalConfidential]
              None None None None None None None None) [StepOk Null].

Definition demo_turn_db : Db :=
  set_tasks {[ 1%Z := mkTask TsCompleted Fast 0 0 (Some 0%Z) (Some 5%Z) None 1 (demo_conversation_payload (bs "find my scan"))
                        (Some (object [(bs "kind", String (bs "text")); (bs "body", String (bs "Found it."))]))
                        (Some (record_value (from_plans [demo_step_run] Public))) None ]} empty_db.

Definition demo_loaded : LoadedConversation := load_for_task demo_rfc3339 true 2 6 (Some demo_dest) Public DefaultFloor demo_turn_db.

(** The follow-up is shown the turn and runs at its class. *)
Example demo_follow_up :
  lc_floor demo_loaded = (ClinicalConfidential, ConversationInherited) /\
  (head (lc_turns demo_loaded) ≫= get (bs "answer")) = Some (String (bs "Found it.")).
Proof. vm_compute. split; reflexivity. Qed.

Lemma follow_up_view_is_bounded_witness :
  serialised_len (Array (lc_turns demo_loaded)) <= CONVERSATION_BUDGET.
Proof.
  refine (proj1 (proj2 (follow_up_view_is_bounded demo_rfc3339 _ true 2 6 (Some demo_dest) Public DefaultFloor demo_turn_db))).
  intros z. vm_compute. lia.
Defined.

Lemma follow_up_floor_covers_turns_witness :
  (rank ClinicalConfidential <= rank (lc_floor demo_loaded).1)%Z.
Proof.
  refine (proj2 (follow_up_floor_covers_turns demo_rfc3339 2 6 demo_dest Public DefaultFloor demo_turn_db [1%Z] 1
                   _ [demo_step_run] Public _ _ _ _) demo_step_run
            (mkStep (bs "mail") (bs "mail.search") (object [(bs "query", String (bs "scan"))]) (bs "hits") [] ClinicalConfidential) _ _).
  - vm_compute. reflexivity.
  - apply list_elem_of_here.
  - vm_compute. reflexivity.
  - reflexivity.
  - apply list_elem_of_here.
  - vm_compute. apply list_elem_of_here.
Defined.
