(* ===== verification/SystemPrompt.v ===== *)
(** The system prompt and the memory rows that feed it (src/core/src/memory:
    l0_seed.rs, l1_promote.rs, layers.rs; src/core/src/recall_assembly;
    src/core/src/prompt_assembly: assemble.rs, allowed_values.rs, pg_builder.rs).

    The rows live in the store of SkillStore.  A body is UTF-8 bytes; the
    escaping below works on bytes, a control character outside ASCII being the
    byte sequence that encodes it.  Embedding, entity linking, the recall lanes
    and the TOML parser are not here: the first two do not change the row, the
    others are arguments. *)

From stdpp Require Import base list sets numbers strings pretty.
From Stdlib Require Import ZArith Lia.
From S2P Require Import Prelude RustStr Fingerprint Json Cassandra SkillTemplate InjectionGuard LoopPure InnerLoop.
From S2P Require Import SkillStore AskMessage TaskStore.
Local Open Scope nat_scope.

(** * Layer 0: the operator's rules (l0_seed.rs, layer_load.rs) *)

Definition L0_DEFAULT_CAP_ROWS : nat := 64.
Definition L0_DEFAULT_CAP_BYTES : nat := 8192.
Definition L0_MAX_BODY_BYTES : nat := 1024.
Definition L0_MAX_ID_LEN : nat := 64.

(** A rule of the file; [L0RuleRaw] has the same fields. *)
Record L0Rule := mkL0Rule { l0_id : bytes; l0_body : bytes; l0_tags : list bytes }.

Definition id_char (c : Z) : bool := ((97 <=? c) && (c <=? 122) || (48 <=? c) && (c <=? 57) || (c =? 95))%Z.

Section Rules.
Context `{UnicodeStr} `{Text}.

Definition validate_id (id : bytes) : result () bytes :=
  match id with
  | [] => Err (bs "rule id is empty")
  | _ =>
      if L0_MAX_ID_LEN <? length id then
        Err (bs "rule id " ++ str_debug id ++ bs " is " ++ show_nat (length id) ++ bs " bytes (max " ++ show_nat L0_MAX_ID_LEN ++ bs ")")
      else if forallb id_char id then Ok tt
      else Err (bs "rule id " ++ str_debug id ++ bs " contains chars outside [a-z0-9_]")
  end.

(** The loop of [parse_l0_rules] over the parsed file. *)
Fixpoint check_rules (seen : list bytes) (raw : list L0Rule) : result (list L0Rule) bytes :=
  match raw with
  | [] => Ok []
  | r :: rest =>
      match validate_id (l0_id r) with
      | Err e => Err e
      | Ok _ =>
          if bool_decide (l0_id r ∈ seen) then Err (bs "duplicate rule id: " ++ str_debug (l0_id r))
          else if bytes_eqb (str_trim (l0_body r)) [] then
            Err (bs "rule " ++ str_debug (l0_id r) ++ bs ": body is empty after trimming")
          else if L0_MAX_BODY_BYTES <? length (l0_body r) then
            Err (bs "rule " ++ str_debug (l0_id r) ++ bs ": body is " ++ show_nat (length (l0_body r)) ++
                 bs " bytes (max " ++ show_nat L0_MAX_BODY_BYTES ++ bs ")")
          else if existsb (fun t => bytes_eqb t []) (l0_tags r) then
            Err (bs "rule " ++ str_debug (l0_id r) ++ bs ": tag is empty")
          else match check_rules (l0_id r :: seen) rest with
               | Ok rules => Ok (r :: rules)
               | Err e => Err e
               end
      end
  end.

Definition parse_l0_rules (raw : list L0Rule) : result (list L0Rule) bytes := check_rules [] raw.
End Rules.

Definition build_l0_metadata (rule_id body_sha256 : bytes) (tags : list bytes) (source_path : bytes) : Value :=
  object [(bs "l0_rule_id", String rule_id); (bs "body_sha256", String body_sha256); (bs "tags", Array (map String tags));
          (bs "source_path", String source_path)].

Definition rule_of (m : Memory) : option bytes := if bool_decide (me_layer m = Meta) then meta_str (bs "l0_rule_id") m else None.

Definition seed_meta_memory (body : bytes) (metadata : Value) (now : Z) (st : Store) : result Z DbError * Store :=
  insert_row_at_layer body metadata Meta now st.

Section Layers.
Context `{UnicodeStr} `{UnicodeChar} `{Sha256}.

(** Both files' [compute_body_sha256]. *)
Definition compute_body_sha256 (body : bytes) : bytes := sha256_hex (sha256 body).

(** The idempotency check. *)
Definition rule_stored (id sha : bytes) (st : Store) : bool :=
  existsb (fun m => bool_decide (rule_of m = Some id) && bool_decide (meta_str (bs "body_sha256") m = Some sha)) (s_rows st).

(** One turn of the loop of [seed_l0_from_rules], whose INSERT runs at [now];
    the flag says whether a row was written. *)
Definition seed_rule (source_path : bytes) (now : Z) (r : L0Rule) (st : Store) : result bool DbError * Store :=
  let sha := compute_body_sha256 (l0_body r) in
  if rule_stored (l0_id r) sha st then (Ok false, st)
  else match seed_meta_memory (l0_body r) (build_l0_metadata (l0_id r) sha (l0_tags r) source_path) now st with
       | (Ok _, st') => (Ok true, st')
       | (Err e, st') => (Err e, st')
       end.

(** [new_rows_written] and [unchanged_skipped] *)
Fixpoint seed_l0_from_rules (source_path : bytes) (rules : list (Z * L0Rule)) (st : Store) : result (nat * nat) DbError * Store :=
  match rules with
  | [] => (Ok (0, 0), st)
  | (now, r) :: rest =>
      match seed_rule source_path now r st with
      | (Err e, st') => (Err e, st')
      | (Ok wrote, st') =>
          match seed_l0_from_rules source_path rest st' with
          | (Err e, st2) => (Err e, st2)
          | (Ok (new, unchanged), st2) => (Ok (if wrote then (S new, unchanged) else (new, S unchanged)), st2)
          end
      end
  end.

Definition newest_first (rows : list Memory) : list Memory := fold_left (fun acc m => insert_newest m acc) rows [].

(** [DISTINCT ON (rule)]: the first row of each rule. *)
Fixpoint distinct_rules (seen : list bytes) (rows : list Memory) : list Memory :=
  match rows with
  | [] => []
  | m :: rest =>
      match rule_of m with
      | Some id => if bool_decide (id ∈ seen) then distinct_rules seen rest else m :: distinct_rules (id :: seen) rest
      | None => distinct_rules seen rest
      end
  end.

Definition load_active_l0 (cap_rows : nat) (st : Store) : list Memory :=
  take cap_rows (distinct_rules [] (newest_first (s_rows st))).

(** The byte budget of both layer loaders: stop at the first row over it. *)
Fixpoint within_bytes (cap used : nat) (rows : list Memory) : list Memory :=
  match rows with
  | [] => []
  | m :: rest =>
      if cap <? used + length (me_body m) then [] else m :: within_bytes cap (used + length (me_body m)) rest
  end.

Definition load_l0_active (cap_rows cap_bytes : nat) (st : Store) : list Memory :=
  if (cap_rows =? 0) || (cap_bytes =? 0) then [] else within_bytes cap_bytes 0 (load_active_l0 cap_rows st).

Definition load_l0_active_default (st : Store) : list Memory := load_l0_active L0_DEFAULT_CAP_ROWS L0_DEFAULT_CAP_BYTES st.

(** * Layer 1: insights (l1_promote.rs, layers.rs) *)

Definition L1_MAX_BODY_BYTES : nat := 512.
Definition L1_TAG_CLOSE : bytes := bs "</l1_insights>".
Definition L1_TAG_OPEN : bytes := bs "<l1_insights>".
Definition L1_DEFAULT_CAP_ROWS : nat := 32.
Definition L1_DEFAULT_CAP_BYTES : nat := 4096.

Inductive L1Source := L1Operator | L1AgentRaised (task_id : Z).

Inductive L1Error :=
| L1Validation (msg : bytes)
| L1InjectionBlocked (score : Z) (reason_codes : list bytes) (body_sha256 : bytes)
| L1Db (e : DbError).

Inductive L1WriteOutcome := L1Inserted (memory_id : Z) | L1SkippedDuplicate (memory_id : Z).

Definition validate_l1_body (body : bytes) : result bytes L1Error :=
  if has_newline body then Err (L1Validation (bs "body contains newline"))
  else
    let trimmed := str_trim body in
    if bytes_eqb trimmed [] then Err (L1Validation (bs "body is empty after trim"))
    else if has_control trimmed then Err (L1Validation (bs "body contains control character"))
    else if contains L1_TAG_OPEN trimmed || contains L1_TAG_CLOSE trimmed then
      Err (L1Validation (bs "body contains reserved tag substring"))
    else if L1_MAX_BODY_BYTES <? length trimmed then
      Err (L1Validation (bs "body exceeds " ++ show_nat L1_MAX_BODY_BYTES ++ bs " bytes (" ++ show_nat (length trimmed) ++ bs ")"))
    else Ok trimmed.

Definition screen_agent_raised_body (trimmed body_sha256 : bytes) : result () L1Error :=
  let verdict := screen_with_profile trimmed Strict in
  match iv_decision verdict with
  | BlockInjection => Err (L1InjectionBlocked (iv_score verdict) (iv_reason_codes verdict) body_sha256)
  | _ => Ok tt
  end.

Definition l1_source_fields (src : L1Source) : list (bytes * Value) :=
  match src with
  | L1Operator => [(bs "source", String (bs "operator"))]
  | L1AgentRaised task_id => [(bs "source", String (bs "agent_raised")); (bs "task_id", int_value task_id)]
  end.

Definition build_l1_metadata (src : L1Source) (body_sha256 created_at : bytes) : Value :=
  object (l1_source_fields src ++ [(bs "body_sha256", String body_sha256); (bs "created_at", String created_at)]).

Definition find_l1_by_sha (sha : bytes) (st : Store) : option Z :=
  me_id <$> List.find (fun m => bool_decide (me_layer m = Index) && bool_decide (meta_str (bs "body_sha256") m = Some sha)) (s_rows st).

(** The EXISTS check and the INSERT are two statements; nothing else runs
    between them here. *)
Definition promote_l1 (body : bytes) (src : L1Source) (created_at : bytes) (now : Z) (st : Store) :
    result L1WriteOutcome L1Error * Store :=
  match validate_l1_body body with
  | Err e => (Err e, st)
  | Ok trimmed =>
      let sha := compute_body_sha256 trimmed in
      match (match src with L1AgentRaised _ => screen_agent_raised_body trimmed sha | L1Operator => Ok tt end) with
      | Err e => (Err e, st)
      | Ok _ =>
          match find_l1_by_sha sha st with
          | Some id => (Ok (L1SkippedDuplicate id), st)
          | None =>
              match insert_memory_at_layer trimmed (build_l1_metadata src sha created_at) Index now st with
              | (Ok id, st') => (Ok (L1Inserted id), st')
              | (Err e, st') => (Err (L1Db e), st')
              end
          end
      end
  end.

Definition build_l1_write_payload (outcome : L1WriteOutcome) (src : L1Source) (body_sha256 : bytes) : Value :=
  let '(action, id) := match outcome with
                       | L1Inserted id => (bs "inserted", id)
                       | L1SkippedDuplicate id => (bs "skipped_duplicate", id) end in
  object (l1_source_fields src ++ [(bs "action", String action); (bs "memory_id", int_value id); (bs "body_sha256", String body_sha256)]).

Definition remove_l1 (id : Z) (st : Store) : bool * Store := delete_memory_at_layer id Index st.

Definition load_layer (layer : MemoryLayer) (cap : nat) (st : Store) : list Memory :=
  take cap (newest_first (List.filter (fun m => bool_decide (me_layer m = layer)) (s_rows st))).

Definition load_l1 (cap_rows cap_bytes : nat) (st : Store) : list Memory :=
  if (cap_rows =? 0) || (cap_bytes =? 0) then [] else within_bytes cap_bytes 0 (load_layer Index cap_rows st).

Definition load_l1_default (st : Store) : list Memory := load_l1 L1_DEFAULT_CAP_ROWS L1_DEFAULT_CAP_BYTES st.

(** * Recall (recall_assembly) *)

Definition L_RECALL_CAP_BYTES : nat := 4096.

(** [ids] and [bodies] are built side by side, as [new] asserts. *)
Record RecalledContext := mkRecalled { rc_rows : list (Z * bytes); rc_query_sha256 : bytes }.

Definition recalled_empty : RecalledContext := mkRecalled [] (sha256_hex (sha256 [])).

Definition screen_recall_rows (rows : list Memory) : list Memory :=
  List.filter (fun m => match iv_decision (screen (me_body m)) with BlockInjection => false | _ => true end) rows.

Definition cap_and_split (rows : list Memory) (cap_bytes : nat) : list (Z * bytes) :=
  map (fun m => (me_id m, me_body m)) (within_bytes cap_bytes 0 rows).

(** [build_with_seeds] from the rows the recall lanes return. *)
Definition build_recalled (query : bytes) (rows : list Memory) : RecalledContext :=
  mkRecalled (cap_and_split (screen_recall_rows rows) L_RECALL_CAP_BYTES) (sha256_hex (sha256 query)).
End Layers.

(** * Framing (assemble.rs, untrusted_text.rs) *)

(** A control character to neutralise at the head of the text, as what follows
    it: C0 and DEL are one byte, C1 is 194 and 128 to 159, U+061C is 216 156,
    U+200E, U+200F and U+2028 to U+202E start with 226 128, U+2066 to U+2069
    with 226 129. *)
Definition neutralised_head (s : bytes) : option bytes :=
  match s with
  | c :: t =>
      if ((c <? 32) || (c =? 127))%Z then Some t
      else match t with
           | d :: u =>
               if ((c =? 194) && (128 <=? d) && (d <=? 159) || (c =? 216) && (d =? 156))%Z then Some u
               else match u with
                    | e :: r =>
                        if ((c =? 226) && ((d =? 128) && ((142 <=? e) && (e <=? 143) || (168 <=? e) && (e <=? 174))
                                           || (d =? 129) && (166 <=? e) && (e <=? 169)))%Z
                        then Some r else None
                    | [] => None
                    end
           | [] => None
           end
  | [] => None
  end.

(** One pass over the text; [fuel] is its length. *)
Fixpoint escape_pass (fuel : nat) (s : bytes) : bytes :=
  match fuel, s with
  | S fuel', c :: t =>
      if (c =? 38)%Z then bs "&amp;" ++ escape_pass fuel' t
      else if (c =? 60)%Z then bs "&lt;" ++ escape_pass fuel' t
      else if (c =? 62)%Z then bs "&gt;" ++ escape_pass fuel' t
      else match neutralised_head (c :: t) with
           | Some rest => 32%Z :: escape_pass fuel' rest
           | None => c :: escape_pass fuel' t
           end
  | _, _ => []
  end.

Definition escape_untrusted_body (body : bytes) : bytes := escape_pass (length body) body.

(** * The allowlist line (allowed_values.rs) *)

Definition ADVERTISED_ALLOWLIST_MAX : nat := 30.
Definition ADVERTISED_ALLOWLIST_MAX_BYTES : nat := 4096.
Definition ENTRY_SEPARATOR : bytes := bs ", ".

Inductive EntryKind := Argv0 | Domain.

Record ToolParam := mkToolParam { tp_name : bytes; tp_description : bytes; tp_required : bool }.
Record ToolDoc := mkToolDoc { td_name : bytes; td_method : bytes; td_summary : bytes; td_params : list ToolParam }.
Record AdvertisedTool := mkAdvertised { at_doc : ToolDoc; at_allowed : option bytes }.

Fixpoint insert_text (s : bytes) (l : list bytes) : list bytes :=
  match l with
  | [] => [s]
  | x :: t => if bytes_ltb s x then s :: l else x :: insert_text s t
  end.

(** [sort_unstable] on strings. *)
Definition sort_texts (l : list bytes) : list bytes := fold_left (fun acc s => insert_text s acc) l [].

Definition quoted (entry : bytes) : bytes := bs "`" ++ escape_untrusted_body entry ++ bs "`".

(** [shown] and [withheld] *)
Fixpoint advertise (used : nat) (shown withheld entries : list bytes) : list bytes * list bytes :=
  match entries with
  | [] => (shown, withheld)
  | e :: rest =>
      let rendered := quoted e in
      let cost := length rendered + (match shown with [] => 0 | _ => length ENTRY_SEPARATOR end) in
      if (length shown <? ADVERTISED_ALLOWLIST_MAX) && (used + cost <=? ADVERTISED_ALLOWLIST_MAX_BYTES)
      then advertise (used + cost) (shown ++ [rendered]) withheld rest
      else advertise used shown (withheld ++ [e]) rest
  end.

Definition select_advertised (entries : list bytes) : list bytes * list bytes := advertise 0 [] [] (sort_texts entries).

Definition no_value_permitted (kind : EntryKind) : bytes :=
  match kind with
  | Argv0 => bs "no argv[0] value is currently permitted — every call to this tool will be refused until an operator adds one and the daemon restarts"
  | Domain => bs "no host is currently permitted — this tool can currently reach nothing, so calls will fail or return no usable content until an operator adds a host and the daemon restarts"
  end.

Definition allowlist_lead (kind : EntryKind) : bytes :=
  match kind with
  | Argv0 => bs "argv[0] must be exactly one of"
  | Domain => bs "only these hosts are reachable (an entry starting with '.' covers that domain and all its subdomains; the leading dot is not part of a hostname you send)"
  end.

Definition render_allowed_values (kind : EntryKind) (entries : list bytes) : bytes :=
  match entries with
  | [] => no_value_permitted kind
  | _ =>
      let '(shown, withheld) := select_advertised entries in
      let total := length shown + length withheld in
      match shown, withheld with
      | [], _ =>
          show_nat total ++ bs " permitted values are configured but each is too long to show here; they are still enforced, so a value that is not among them is refused — ask an operator to shorten them"
      | _, [] => allowlist_lead kind ++ bs ": " ++ join ENTRY_SEPARATOR shown
      | _, _ =>
          bs "showing " ++ show_nat (length shown) ++ bs " of " ++ show_nat total ++ bs " permitted values; "
          ++ allowlist_lead kind ++ bs ": " ++ join ENTRY_SEPARATOR shown
      end
  end.

Definition render_opaque_allowlist (configured : nat) : bytes :=
  show_nat configured ++ bs " permitted values are configured but none is stored in a form this build can describe, so none can be listed here; they are still enforced, so a value that is not among them is refused — ask an operator to correct the rows".

Definition with_allowlist (doc : ToolDoc) (kind : EntryKind) (entries : list bytes) : AdvertisedTool :=
  mkAdvertised doc (Some (render_allowed_values kind entries)).
Definition with_opaque_allowlist (doc : ToolDoc) (configured : nat) : AdvertisedTool :=
  mkAdvertised doc (Some (render_opaque_allowlist configured)).
Definition without_allowlist (doc : ToolDoc) : AdvertisedTool := mkAdvertised doc None.

(** * The prompt (assemble.rs) *)

Definition SUMMARY_HEAD_BYTES : nat := 1024.
Definition MAX_FETCH_BYTES : nat := 256 * 1024.
Definition HANDOFF_TOOL : bytes := bs "handoff".
Definition HANDOFF_METHOD_FETCH : bytes := bs "fetch".

Definition NL : bytes := [10%Z].

Definition render_handoff_block : bytes :=
  bs "<handoff>" ++ NL ++
  bs "Some tool results are too large for the context window. When a tool result is the placeholder object {handoff_ref, byte_len, summary_head, truncated: true}, the full output was stashed and only summary_head — the start of the result, about " ++
  show_nat (SUMMARY_HEAD_BYTES / 1024) ++
  bs " KiB of its text, as JSON with its field names — is shown inline. Its lists and objects stop wherever the head ends, so a field or item missing from it may simply lie past that point, and a count of omitted items inside it counts only what the head held, not the whole result. That head is often enough to proceed without fetching anything more." ++ NL ++
  bs "To read more of the body, emit a step with tool=" ++ [34%Z] ++ HANDOFF_TOOL ++ [34%Z] ++ bs " method=" ++ [34%Z] ++ HANDOFF_METHOD_FETCH ++ [34%Z] ++
  bs " and parameters={handoff_ref, offset?, len?} (offset defaults to 0; len defaults to " ++ show_nat (MAX_FETCH_BYTES / 1024) ++
  bs " KiB and is clamped to that maximum). The step returns {handoff_ref, offset, len, data, encoding, eof}, where len is the number of bytes actually returned. To read the whole body, repeat the fetch with offset increased by len until eof is true." ++ NL ++
  bs "</handoff>" ++ NL ++ NL.

Definition tool_name_line (t : AdvertisedTool) : bytes :=
  bs "- " ++ td_name (at_doc t) ++ bs " (method: " ++ td_method (at_doc t) ++ bs "): " ++ td_summary (at_doc t) ++ NL.

Definition render_param (p : ToolParam) : bytes :=
  tp_name p ++ bs " (" ++ tp_description p ++ bs ") [" ++ (if tp_required p then bs "required" else bs "optional") ++ bs "]".

Definition render_tool_doc (t : AdvertisedTool) : bytes :=
  tool_name_line t ++
  (match td_params (at_doc t) with
   | [] => []
   | ps => bs "  params: " ++ join (bs ", ") (map render_param ps) ++ NL
   end) ++
  match at_allowed t with Some allowed => bs "  allowed: " ++ allowed ++ NL | None => [] end.

(** A block, omitted when it has no entry. *)
Definition block {A} (tag : bytes) (render : A -> bytes) (entries : list A) : bytes :=
  match entries with
  | [] => []
  | _ => bs "<" ++ tag ++ bs ">" ++ NL ++ concat (map render entries) ++ bs "</" ++ tag ++ bs ">" ++ NL ++ NL
  end.

Definition render_tools_block (tools : list AdvertisedTool) : bytes := block (bs "tools") render_tool_doc tools.

(** [while out.ends_with] two newlines, [pop]: on the reversed text. *)
Fixpoint pop_newlines (rev : bytes) : bytes :=
  match rev with
  | a :: ((b :: _) as rest) => if ((a =? 10) && (b =? 10))%Z then pop_newlines rest else rev
  | _ => rev
  end.

Definition assemble_system_prompt (l0 l1 : list Memory) (skills : list SurfacedSkill) (recalled : list (Z * bytes))
    (base : bytes) (tools : list AdvertisedTool) : bytes :=
  let out :=
    bs "<base>" ++ NL ++ trim_end_matches (fun c => c =? 10)%Z base ++ NL ++ bs "</base>" ++ NL ++ NL ++
    render_handoff_block ++
    render_tools_block tools ++
    block (bs "l0_meta_rules") (fun m => bs "- " ++ me_body m ++ NL) l0 ++
    block (bs "l1_insights") (fun m => bs "- " ++ escape_untrusted_body (me_body m) ++ NL) l1 ++
    block (bs "skills") render_skill_entry skills ++
    block (bs "recalled") (fun r => bs "- " ++ escape_untrusted_body r.2 ++ NL) recalled in
  reverse (pop_newlines (reverse out)).

(** * pg_builder.rs *)

Record AssembledPrompt := mkPrompt {
  ap_system_prompt : bytes; ap_l0_count : nat; ap_l1_count : nat; ap_skill_count : nat; ap_recalled_count : nat }.

(** [build_with_recalled]; the current time is not part of this text. *)
Definition build_with_recalled `{UnicodeStr} `{UnicodeChar} (base : bytes) (recalled : RecalledContext) (tools : list AdvertisedTool)
    (st : Store) : AssembledPrompt :=
  let l0 := load_l0_active_default st in
  let l1 := screen_recall_rows (load_l1_default st) in
  let skills := load_l3_skills_default st in
  mkPrompt (assemble_system_prompt l0 l1 skills (rc_rows recalled) base tools)
    (length l0) (length l1) (length skills) (length (rc_rows recalled)).

(** * Lines *)

Lemma split_nl a b : split 10 (a ++ NL ++ b) = split 10 a ++ split 10 b.
Proof.
  induction a as [|x a IH]; [done|]. rewrite <- app_comm_cons. cbn [split]. rewrite IH.
  destruct (x =? 10)%Z; [done|]. destruct (split 10 a) as [|p ps] eqn:E; [|done].
  destruct a as [|y a]; cbn [split] in E; [done|]. destruct (y =? 10)%Z; [done|]. by destruct (split 10 a).
Qed.

Lemma split_one s : 10%Z ∉ s -> split 10 s = [s].
Proof.
  induction s as [|x s IH]; [done|]. intros [Hx Hs]%not_elem_of_cons. cbn [split].
  rewrite (proj2 (Z.eqb_neq x 10)) by congruence. by rewrite IH.
Qed.

Lemma nl_free s : forallb (fun c => negb (c =? 10))%Z s = true -> 10%Z ∉ s.
Proof.
  intros Hs Hin. rewrite forallb_forall in Hs. apply list_elem_of_In in Hin. apply Hs in Hin. by rewrite Z.eqb_refl in Hin.
Qed.

Lemma inert_no_nl s : inert s -> 10%Z ∉ s.
Proof. intros Hs Hin. pose proof (proj1 (list.Forall_forall _ _) Hs _ Hin) as H. simpl in H. lia. Qed.

(** The lines of a text that ends in a newline. *)
Definition entry_lines (text : bytes) : list bytes := removelast (split 10 text).

(** [render] ends in a newline. *)
Definition ended_by_nl (text : bytes) : Prop := exists u, text = u ++ NL.

Lemma entry_lines_nl u : entry_lines (u ++ NL) = split 10 u.
Proof.
  unfold entry_lines. change NL with (NL ++ []). rewrite split_nl. change (split 10 []) with ([[]] : list bytes). apply removelast_last.
Qed.

Lemma split_entry text rest : ended_by_nl text -> split 10 (text ++ rest) = entry_lines text ++ split 10 rest.
Proof. intros [u ->]. rewrite entry_lines_nl, <- app_assoc. apply split_nl. Qed.

Definition block_lines {A} (tag : bytes) (lines : A -> list bytes) (entries : list A) : list bytes :=
  match entries with
  | [] => []
  | _ => [bs "<" ++ tag ++ bs ">"] ++ concat (map lines entries) ++ [bs "</" ++ tag ++ bs ">"; []]
  end.

Lemma split_entries {A} (render : A -> bytes) (lines : A -> list bytes) entries rest :
  (forall e, ended_by_nl (render e) /\ entry_lines (render e) = lines e) ->
  split 10 (concat (map render entries) ++ rest) = concat (map lines entries) ++ split 10 rest.
Proof.
  intros Hr. induction entries as [|e entries IH]; [done|]. cbn [map concat]. rewrite <- !app_assoc.
  destruct (Hr e) as [Hn Hl]. by rewrite split_entry, Hl, IH by done.
Qed.

Lemma split_block {A} tag (render : A -> bytes) (lines : A -> list bytes) entries rest :
  inert tag -> (forall e, ended_by_nl (render e) /\ entry_lines (render e) = lines e) ->
  split 10 (block tag render entries ++ rest) = block_lines tag lines entries ++ split 10 rest.
Proof.
  intros Ht Hr. unfold block, block_lines. destruct entries as [|e entries]; [done|].
  assert (Hone : forall a, 10%Z ∉ a -> split 10 (a ++ tag ++ bs ">") = [a ++ tag ++ bs ">"]).
  { intros a Ha. apply split_one. rewrite !not_elem_of_app. split_and!; [done|by apply inert_no_nl|by apply nl_free]. }
  rewrite <- !app_assoc.
  replace (bs "<" ++ tag ++ bs ">" ++ NL ++ concat (map render (e :: entries)) ++ bs "</" ++ tag ++ bs ">" ++ NL ++ NL ++ rest)
    with ((bs "<" ++ tag ++ bs ">") ++ NL ++ (concat (map render (e :: entries)) ++ (bs "</" ++ tag ++ bs ">") ++ NL ++ [] ++ NL ++ rest))
    by (by rewrite <- !app_assoc).
  rewrite split_nl, (split_entries render lines) by done. rewrite !split_nl, !Hone.
  - reflexivity.
  - by apply nl_free.
  - by apply nl_free.
Qed.

(** * Escaping *)

Lemma neutralised_head_spec c t :
  match neutralised_head (c :: t) with
  | Some rest => length rest <= length t
  | None => (32 <= c)%Z
  end.
Proof.
  unfold neutralised_head. destruct (_ || _)%Z eqn:E; [done|]. apply orb_false_iff in E as [E _].
  assert (Hc : (32 <= c)%Z) by lia.
  destruct t as [|d u]; [done|]. destruct (_ || _); [simpl; lia|].
  destruct u as [|e r]; [done|]. destruct (_ && _); [simpl; lia|done].
Qed.

Lemma escape_pass_inert fuel s : inert (escape_pass fuel s).
Proof.
  revert s. induction fuel as [|fuel IH]; intros [|c t]; cbn [escape_pass]; try constructor.
  destruct (c =? 38)%Z eqn:E1; [apply inert_app; [by apply inert_lit|done]|].
  destruct (c =? 60)%Z eqn:E2; [apply inert_app; [by apply inert_lit|done]|].
  destruct (c =? 62)%Z eqn:E3; [apply inert_app; [by apply inert_lit|done]|].
  pose proof (neutralised_head_spec c t) as Hn. destruct (neutralised_head (c :: t)) as [rest|]; (constructor; [lia|apply IH]).
Qed.

Lemma escape_body_inert s : inert (escape_untrusted_body s).
Proof. apply escape_pass_inert. Qed.

(** More fuel than bytes changes nothing: the pass reaches the end. *)
Lemma escape_pass_fuel f1 f2 s : length s <= f1 -> length s <= f2 -> escape_pass f1 s = escape_pass f2 s.
Proof.
  revert f2 s. induction f1 as [|f1 IH]; intros [|f2] [|c t]; cbn [escape_pass length]; try done; try lia. intros H1 H2.
  pose proof (neutralised_head_spec c t) as Hn.
  rewrite (IH f2 t) by lia. destruct (neutralised_head (c :: t)) as [rest|]; [|done]. by rewrite (IH f2 rest) by lia.
Qed.

Lemma row_line tag_free s : inert tag_free ->
  ended_by_nl (tag_free ++ escape_untrusted_body s ++ NL) /\
  entry_lines (tag_free ++ escape_untrusted_body s ++ NL) = [tag_free ++ escape_untrusted_body s].
Proof.
  intros Ht. rewrite app_assoc. split; [by eexists|]. rewrite entry_lines_nl. apply split_one, inert_no_nl, inert_app; [done|].
  apply escape_body_inert.
Qed.

(** * The allowlist line *)

Lemma quoted_inert e : inert (quoted e).
Proof. repeat apply inert_app; [by apply inert_lit|apply escape_body_inert|by apply inert_lit]. Qed.

Lemma advertise_shown used shown withheld entries : Forall inert shown -> Forall inert (advertise used shown withheld entries).1.
Proof.
  revert used shown withheld. induction entries as [|e entries IH]; intros used shown withheld Hs; cbn [advertise]; [done|].
  destruct (_ && _); apply IH; [|done]. apply Forall_app. split; [done|]. apply Forall_singleton, quoted_inert.
Qed.


Lemma show_nat_inert n : inert (show_nat n).
Proof.
  assert (Hd : show_nat n = show_z (Z.of_N (N.of_nat n))) by (unfold show_nat, show_z; by destruct (N.of_nat n)).
  rewrite Hd. apply (list.Forall_impl _ _ _ (show_z_decimal _)). intros c Hc. unfold is_decimal in Hc.
  rewrite orb_true_iff, andb_true_iff, !Z.leb_le, Z.eqb_eq in Hc. lia.
Qed.

Lemma lead_inert kind : inert (allowlist_lead kind).
Proof. by destruct kind; apply inert_lit. Qed.

Lemma allowed_values_inert kind entries : inert (render_allowed_values kind entries).
Proof.
  unfold render_allowed_values. destruct entries as [|e entries]; [by destruct kind; apply inert_lit|].
  pose proof (advertise_shown 0 [] [] (sort_texts (e :: entries)) ltac:(constructor)) as Hs.
  unfold select_advertised. destruct (advertise _ _ _ _) as [shown withheld]. cbn [fst] in Hs.
  assert (Hj : inert (join ENTRY_SEPARATOR shown)) by (apply inert_join; [by apply inert_lit|done]).
  destruct shown as [|s shown]; [apply inert_app; [apply show_nat_inert|by apply inert_lit]|].
  destruct withheld; repeat apply inert_app; try done; try apply show_nat_inert; try apply lead_inert; by apply inert_lit.
Qed.

Lemma nl_app a b : ended_by_nl b -> ended_by_nl (a ++ b).
Proof. intros [u ->]. exists (a ++ u). apply app_assoc. Qed.

Lemma nl_self : ended_by_nl NL.
Proof. by exists []. Qed.

(** The permitted values, one line after the lines of the compiled-in text. *)
Lemma tool_doc_lines doc kind entries :
  exists head, forall rest, split 10 (render_tool_doc (with_allowlist doc kind entries) ++ rest) =
    head ++ [bs "  allowed: " ++ render_allowed_values kind entries] ++ split 10 rest.
Proof.
  unfold render_tool_doc, with_allowlist. cbn [at_doc at_allowed].
  set (t := mkAdvertised doc _). set (params := match td_params doc with [] => [] | ps => _ end).
  assert (Hh : ended_by_nl (tool_name_line t ++ params)).
  { subst params. unfold tool_name_line. destruct (td_params doc) as [|p ps].
    - rewrite app_nil_r. repeat apply nl_app. apply nl_self.
    - repeat apply nl_app. apply nl_self. }
  exists (entry_lines (tool_name_line t ++ params)). intros rest. rewrite (app_assoc (tool_name_line t)), <- (app_assoc _ _ rest).
  rewrite split_entry by done. f_equal.
  rewrite (app_assoc (bs "  allowed: ")), <- (app_assoc _ NL), split_nl. f_equal. apply split_one, inert_no_nl, inert_app;
    [by apply inert_lit|apply allowed_values_inert].
Qed.

(** Every entry of the tools block ends its last line. *)
Lemma tool_doc_nl t : ended_by_nl (render_tool_doc t).
Proof.
  unfold render_tool_doc, tool_name_line. destruct (at_allowed t); [repeat apply nl_app; apply nl_self|]. rewrite app_nil_r.
  destruct (td_params (at_doc t)); [rewrite app_nil_r|]; repeat apply nl_app; apply nl_self.
Qed.

Lemma skill_entry_lines s : ended_by_nl (render_skill_entry s) /\
  length (entry_lines (render_skill_entry s)) <= 2 /\ Forall inert (entry_lines (render_skill_entry s)).
Proof.
  destruct (render_lines s) as (a & b & -> & Ha & Hb). destruct Hb as [->|(c & -> & Hc)].
  - rewrite app_nil_r. change (a ++ [10%Z]) with (a ++ NL). split; [by eexists|]. rewrite entry_lines_nl, split_one by by apply inert_no_nl.
    split; [simpl; lia|by apply Forall_singleton].
  - change [10%Z] with NL. split; [exists (a ++ NL ++ c); by rewrite <- !app_assoc|].
    replace (a ++ NL ++ c ++ NL) with ((a ++ NL ++ c) ++ NL) by (by rewrite <- !app_assoc).
    rewrite entry_lines_nl, split_nl, !split_one by by apply inert_no_nl. split; [simpl; lia|by repeat constructor].
Qed.

(** * The assembled prompt *)

(** Text that ends with the closing line of a block and a blank line. *)
Definition closed (s : bytes) : Prop := exists y, s = y ++ [62%Z] ++ NL ++ NL.

Lemma closed_app a b : closed b -> closed (a ++ b).
Proof. intros [y ->]. exists (a ++ y). apply app_assoc. Qed.

(** Strip what comes before the last line. *)
Ltac last_line :=
  repeat match goal with
         | |- closed (?a ++ ?b) => lazymatch b with NL ++ NL => fail | _ => apply closed_app end
         end.

Lemma closed_block {A} tag (render : A -> bytes) entries rest :
  rest = [] \/ closed rest -> block tag render entries ++ rest = [] \/ closed (block tag render entries ++ rest).
Proof.
  unfold block. destruct entries as [|e entries]; [done|]. intros Hr. right. destruct Hr as [->|Hr]; [|by apply closed_app].
  rewrite app_nil_r. last_line. by exists [].
Qed.

Lemma pop_closed s : closed s -> exists p, s = p ++ NL ++ NL /\ reverse (pop_newlines (reverse s)) = p ++ NL.
Proof.
  intros [y ->]. exists (y ++ [62%Z]). split; [by rewrite <- !app_assoc|].
  rewrite !reverse_app. change (reverse NL) with NL. change (reverse [62%Z]) with [62%Z]. cbn [NL app pop_newlines].
  change ((10 =? 10) && (10 =? 10))%Z with true. change ((10 =? 10) && (62 =? 10))%Z with false. cbv iota.
  by rewrite !reverse_cons, reverse_involutive.
Qed.

Lemma closed_handoff : closed render_handoff_block.
Proof. unfold render_handoff_block. last_line. by exists (bs "</handoff"). Qed.

Lemma base_lines s rest :
  split 10 (bs "<base>" ++ NL ++ s ++ NL ++ bs "</base>" ++ NL ++ NL ++ rest) =
  [bs "<base>"] ++ split 10 s ++ [bs "</base>"; []] ++ split 10 rest.
Proof.
  rewrite !split_nl. change (NL ++ rest) with ([] ++ NL ++ rest). rewrite split_nl.
  by rewrite !(split_one (bs _)) by (by apply nl_free).
Qed.

Lemma split_handoff rest : split 10 (render_handoff_block ++ rest) = entry_lines render_handoff_block ++ split 10 rest.
Proof. apply split_entry. destruct closed_handoff as [y ->]. repeat apply nl_app. apply nl_self. Qed.


(** * Insights *)

Section Insights.
Context `{UnicodeStr} `{UnicodeChar} `{Sha256}.

Lemma validate_l1_body_Ok body b : validate_l1_body body = Ok b ->
  b = str_trim body /\ b <> [] /\ has_newline body = false /\ has_control b = false /\
  contains L1_TAG_OPEN b = false /\ contains L1_TAG_CLOSE b = false /\ length b <= L1_MAX_BODY_BYTES.
Proof.
  unfold validate_l1_body. destruct (has_newline body); [done|].
  destruct (bytes_eqb _ _) eqn:E1; [done|]. destruct (has_control _) eqn:E2; [done|].
  destruct (_ || _) eqn:E3; [done|]. apply orb_false_iff in E3 as [E3 E4].
  destruct (_ <? _) eqn:E5; [done|]. intros [= <-]. apply Nat.ltb_ge in E5.
  split_and!; try done. intros Hb. rewrite Hb in E1. by rewrite (proj2 (bytes_eqb_eq [] [])) in E1.
Qed.

Lemma screen_agent_Ok b sha : screen_agent_raised_body b sha = Ok tt -> iv_decision (screen_with_profile b Strict) = Allow.
Proof. unfold screen_agent_raised_body. by destruct (iv_decision _). Qed.

(** What the planner can write into every later prompt: an insight an agent
    raises is stored only if it is one non-empty line of at most 512 bytes without
    control characters and without the tags of its block, and the strict injection
    screen allows it; it is then the one new row, at layer 1, under the task's name.
    A body already stored writes nothing and names the row that has it; every
    refusal leaves the table as it was. *)
Theorem promoted_insight_is_screened body task at_ now st :
  let sha := compute_body_sha256 (str_trim body) in
  match promote_l1 body (L1AgentRaised task) at_ now st with
  | (Ok (L1Inserted id), st') =>
      s_rows st' = s_rows st ++ [mkMemory id (str_trim body) (build_l1_metadata (L1AgentRaised task) sha at_) Index now] /\
      str_trim body <> [] /\ length (str_trim body) <= L1_MAX_BODY_BYTES /\ has_newline body = false /\
      has_control (str_trim body) = false /\ contains L1_TAG_OPEN (str_trim body) = false /\
      contains L1_TAG_CLOSE (str_trim body) = false /\
      iv_decision (screen_with_profile (str_trim body) Strict) = Allow /\ find_l1_by_sha sha st = None
  | (Ok (L1SkippedDuplicate id), st') =>
      st' = st /\ exists m, m ∈ s_rows st /\ me_id m = id /\ me_layer m = Index /\ meta_str (bs "body_sha256") m = Some sha
  | (Err _, st') => st' = st
  end.
Proof.
  cbv zeta. unfold promote_l1. destruct (validate_l1_body body) as [b|e] eqn:Ev; [|done].
  apply validate_l1_body_Ok in Ev as (-> & H3 & H4 & H5 & H6 & H7 & H8).
  destruct (screen_agent_raised_body _ _) as [[]|e] eqn:Es; [|done]. apply screen_agent_Ok in Es.
  destruct (find_l1_by_sha _ st) as [id|] eqn:Ef.
  - split; [done|]. unfold find_l1_by_sha in Ef.
    destruct (List.find _ (s_rows st)) as [m|] eqn:Em; [|done]. injection Ef as <-.
    apply find_some in Em as [Hin Hm]. apply andb_true_iff in Hm as [Hl Hs]. exists m.
    split_and!; [by apply list_elem_of_In|done|by apply bool_decide_eq_true in Hl|by apply bool_decide_eq_true in Hs].
  - unfold insert_memory_at_layer, insert_row_at_layer. destruct (refuse_nul _ _); [|done]. by split_and!.
Qed.

(** ** The prompt's rows *)

Lemma within_bytes_prefix cap used rows : exists k, within_bytes cap used rows = take k rows /\
  used + sum_list_with (length ∘ me_body) (within_bytes cap used rows) <= Nat.max used cap /\
  (forall m, rows !! k = Some m -> cap < used + sum_list_with (length ∘ me_body) (take (S k) rows)).
Proof.
  revert used. induction rows as [|m rows IH]; intros used; cbn [within_bytes].
  { exists 0. split_and!; [done|simpl; lia|done]. }
  destruct (cap <? used + length (me_body m)) eqn:E.
  - apply Nat.ltb_lt in E. exists 0. split_and!; [done|simpl; lia|]. intros m' [= <-]. simpl. unfold compose. lia.
  - apply Nat.ltb_ge in E. destruct (IH (used + length (me_body m))) as (k & -> & Hs & Hn). exists (S k).
    cbn [take sum_list_with]. unfold compose in *. split_and!; [done|lia|]. intros m' Hm'. specialize (Hn m' Hm').
    change (take (S (S k)) (m :: rows)) with (m :: take (S k) rows). cbn [sum_list_with]. lia.
Qed.

Lemma newest_first_elem rows m : m ∈ newest_first rows <-> m ∈ rows.
Proof. unfold newest_first. rewrite sorted_elem. set_solver. Qed.

Lemma screen_rows_elem rows m : m ∈ screen_recall_rows rows <-> m ∈ rows /\ iv_decision (screen (me_body m)) = Allow.
Proof.
  unfold screen_recall_rows. rewrite list_elem_of_In, filter_In, <- list_elem_of_In. destruct (iv_decision _); naive_solver.
Qed.

Lemma take_elem {A} k (l : list A) x : x ∈ take k l -> x ∈ l.
Proof. intros Hx. rewrite <- (take_drop k l). apply elem_of_app. by left. Qed.

Lemma sum_filter_le {A} (f : A -> nat) p l : sum_list_with f (List.filter p l) <= sum_list_with f l.
Proof. induction l as [|x l IH]; simpl; [lia|]. destruct (p x); simpl; lia. Qed.

(** The rows the planner reads passed the screen and the budget: every
    insight in the prompt is a row of layer 1 whose text the injection screen
    allows, every recalled body is one the recall returned and the screen allows,
    and each of the two blocks has at most 4096 bytes of bodies, the insights at
    most 32 rows. *)
Theorem prompt_rows_are_screened st query hits :
  let l1 := screen_recall_rows (load_l1_default st) in
  let recalled := rc_rows (build_recalled query hits) in
  (forall m, m ∈ l1 -> m ∈ s_rows st /\ me_layer m = Index /\ iv_decision (screen (me_body m)) = Allow) /\
  length l1 <= L1_DEFAULT_CAP_ROWS /\ sum_list_with (length ∘ me_body) l1 <= L1_DEFAULT_CAP_BYTES /\
  (forall id b, (id, b) ∈ recalled -> iv_decision (screen b) = Allow /\ exists m, m ∈ hits /\ me_id m = id /\ me_body m = b) /\
  sum_list_with (length ∘ snd) recalled <= L_RECALL_CAP_BYTES.
Proof.
  cbv zeta. unfold load_l1_default, load_l1.
  change ((L1_DEFAULT_CAP_ROWS =? 0) || (L1_DEFAULT_CAP_BYTES =? 0)) with false. cbv iota.
  destruct (within_bytes_prefix L1_DEFAULT_CAP_BYTES 0 (load_layer Index L1_DEFAULT_CAP_ROWS st)) as (k & E & Hsum & _).
  destruct (within_bytes_prefix L_RECALL_CAP_BYTES 0 (screen_recall_rows hits)) as (k' & E' & Hsum' & _).
  split_and!.
  - intros m [Hm Ha]%screen_rows_elem. rewrite E in Hm. apply take_elem in Hm. unfold load_layer in Hm.
    apply take_elem, newest_first_elem, list_elem_of_In, filter_In in Hm as [Hm Hl]. apply bool_decide_eq_true in Hl.
    split_and!; [by apply list_elem_of_In|done..].
  - etransitivity; [apply List.filter_length_le|]. rewrite E, length_take. unfold load_layer. rewrite length_take. lia.
  - etransitivity; [apply sum_filter_le|]. lia.
  - intros id b Hb. unfold build_recalled, cap_and_split in Hb. cbn [rc_rows] in Hb. rewrite E' in Hb.
    apply list_elem_of_fmap in Hb as (m & [= -> ->] & Hm). apply take_elem, screen_rows_elem in Hm as [Hm Ha].
    split; [done|]. by exists m.
  - unfold build_recalled, cap_and_split. cbn [rc_rows].
    assert (Hm : forall l : list Memory, sum_list_with (length ∘ snd) (map (fun m => (me_id m, me_body m)) l) = sum_list_with (length ∘ me_body) l)
      by (induction l as [|x l IH]; simpl; [done|]; by rewrite IH).
    rewrite Hm. lia.
Qed.
End Insights.

(** * Rules *)

Section Seeding.
Context `{UnicodeStr} `{UnicodeChar} `{Sha256}.

(** The newest row of a rule. *)
Definition active_rule (id : bytes) (st : Store) : option Memory :=
  List.find (fun m => bool_decide (rule_of m = Some id)) (newest_first (s_rows st)).

(** Every row was written by [now], under an id the sequence gave out. *)
Definition before (now : Z) (st : Store) : Prop :=
  Forall (fun m => me_created_at m <= now /\ me_id m < s_next st)%Z (s_rows st).

Fixpoint ascending (t : Z) (rules : list (Z * L0Rule)) : Prop :=
  match rules with
  | [] => True
  | (now, _) :: rest => (t <= now)%Z /\ ascending now rest
  end.

Lemma newest_append now st m : before now st -> me_created_at m = now -> me_id m = s_next st ->
  newest_first (s_rows st ++ [m]) = m :: newest_first (s_rows st).
Proof.
  intros Hb Hc Hi. unfold newest_first at 1. rewrite fold_left_app. cbn [fold_left]. fold (newest_first (s_rows st)).
  destruct (newest_first (s_rows st)) as [|x l] eqn:E; [done|]. cbn [insert_newest].
  assert (Hx : x ∈ s_rows st) by (apply newest_first_elem; rewrite E; apply list_elem_of_here).
  pose proof (proj1 (list.Forall_forall _ _) Hb _ Hx) as [H3 H4]. unfold newer.
  replace (_ || _)%Z with true; [done|]. symmetry. rewrite orb_true_iff, andb_true_iff, !Z.ltb_lt, Z.eqb_eq. lia.
Qed.

Lemma find_distinct rows seen m : m ∈ distinct_rules seen rows <->
  exists id, rule_of m = Some id /\ id ∉ seen /\ List.find (fun m => bool_decide (rule_of m = Some id)) rows = Some m.
Proof.
  revert seen. induction rows as [|x rows IH]; intros seen; cbn [distinct_rules List.find].
  { split; [by intros ?%not_elem_of_nil|naive_solver]. }
  destruct (rule_of x) as [idx|] eqn:Ex.
  - case_bool_decide as Hin.
    + rewrite IH. split; intros (id & H1' & H2' & H3'); exists id; (split_and!; [done..|]);
        (rewrite bool_decide_eq_false_2 in * by congruence) || rewrite bool_decide_eq_false_2 by congruence; done.
    + rewrite elem_of_cons, IH. split.
      * intros [->|(id & H1' & [H2' H2'']%not_elem_of_cons & H3')].
        -- exists idx. by rewrite bool_decide_eq_true_2.
        -- exists id. rewrite bool_decide_eq_false_2 by congruence. done.
      * intros (id & H1' & H2' & H3'). case_bool_decide as E.
        -- left. congruence.
        -- right. exists id. rewrite not_elem_of_cons. split_and!; try done. congruence.
  - rewrite IH. split; intros (id & H1' & H2' & H3'); exists id; (split_and!; [done..|]);
      (rewrite bool_decide_eq_false_2 in * by congruence) || rewrite bool_decide_eq_false_2 by congruence; done.
Qed.

Lemma seeded_row path now r sha id :
  let m := mkMemory id (l0_body r) (build_l0_metadata (l0_id r) sha (l0_tags r) path) Meta now in
  rule_of m = Some (l0_id r) /\ meta_str (bs "body_sha256") m = Some sha.
Proof. by split. Qed.

(** What one rule of the file does to the table. *)
Lemma seed_rule_spec path now r st wrote st' : before now st -> seed_rule path now r st = (Ok wrote, st') ->
  before now st' /\ wrote = negb (rule_stored (l0_id r) (compute_body_sha256 (l0_body r)) st) /\
  (forall id, id <> l0_id r -> active_rule id st' = active_rule id st /\ forall sha, rule_stored id sha st' = rule_stored id sha st) /\
  (if rule_stored (l0_id r) (compute_body_sha256 (l0_body r)) st then active_rule (l0_id r) st' = active_rule (l0_id r) st
   else exists m, active_rule (l0_id r) st' = Some m /\ me_body m = l0_body r /\ me_created_at m = now).
Proof.
  intros Hb. unfold seed_rule. destruct (rule_stored _ _ st) eqn:Es; [by intros [= <- <-]|].
  unfold seed_meta_memory, insert_row_at_layer. destruct (refuse_nul _ _); [|done]. intros [= <- <-].
  set (m := mkMemory _ _ _ _ _). destruct (seeded_row path now r (compute_body_sha256 (l0_body r)) (s_next st)) as [Hr Hs].
  fold m in Hr, Hs. pose proof (newest_append now st m Hb eq_refl eq_refl) as Hn.
  unfold active_rule, rule_stored. cbn [s_rows s_next]. rewrite Hn. cbn [List.find]. rewrite Hr. split_and!.
  - apply Forall_app. split; [|apply Forall_singleton; simpl; lia]. apply (list.Forall_impl _ _ _ Hb). intros x [? ?]. cbn [s_next]. lia.
  - done.
  - intros id Hid. rewrite bool_decide_eq_false_2 by congruence. split; [done|]. intros sha.
    rewrite existsb_app. cbn [existsb]. rewrite Hr, bool_decide_eq_false_2 by congruence. by rewrite orb_false_r.
  - rewrite bool_decide_eq_true_2 by done. by exists m.
Qed.

Lemma seed_rules_spec path rules t st n u st' :
  before t st -> ascending t rules -> NoDup (map (fun x => l0_id x.2) rules) ->
  seed_l0_from_rules path rules st = (Ok (n, u), st') ->
  n + u = length rules /\
  (forall id, id ∉ map (fun x => l0_id x.2) rules -> active_rule id st' = active_rule id st) /\
  (forall now r, (now, r) ∈ rules ->
     if rule_stored (l0_id r) (compute_body_sha256 (l0_body r)) st then active_rule (l0_id r) st' = active_rule (l0_id r) st
     else exists m, active_rule (l0_id r) st' = Some m /\ me_body m = l0_body r /\ me_created_at m = now).
Proof.
  revert t st n u. induction rules as [|[now r] rules IH]; intros t st n u Hb Ha Hd; cbn [seed_l0_from_rules].
  { intros [= <- <- <-]. split_and!; [done..|]. by intros now r ?%not_elem_of_nil. }
  destruct Ha as [Ht Ha]. cbn [map snd] in Hd. apply NoDup_cons in Hd as [Hnin Hd].
  assert (Hb' : before now st) by (apply (list.Forall_impl _ _ _ Hb); intros; lia).
  destruct (seed_rule path now r st) as [[wrote|e] st1] eqn:E1; [|done].
  destruct (seed_rule_spec _ _ _ _ _ _ Hb' E1) as (Hb1 & Hw & Hother & Hthis).
  destruct (seed_l0_from_rules path rules st1) as [[[n1 u1]|e] st2] eqn:E2; [|done].
  intros E. assert (st2 = st') as -> by (by destruct wrote; injection E).
  destruct (IH now st1 n1 u1 Hb1 Ha Hd E2) as (Hc & Ho & Hr). split_and!.
  - destruct wrote; injection E as <- <-; simpl; lia.
  - intros id [Hid Hid']%not_elem_of_cons. rewrite Ho by done. by apply Hother.
  - intros now' r' [[= -> ->]|Hin]%elem_of_cons.
    + rewrite (Ho (l0_id r)) by done. done.
    + assert (Hne : l0_id r' <> l0_id r).
      { intros Heq. apply Hnin. rewrite <- Heq. apply (list_elem_of_fmap_2 (fun x : Z * L0Rule => l0_id x.2) _ _ Hin). }
      destruct (Hother _ Hne) as [Hact Hst]. specialize (Hr _ _ Hin). by rewrite Hst, Hact in Hr.
Qed.

(** Seeding the operator's rules: every rule of the file is counted as new
    or unchanged.  A version of a rule that was never stored becomes the active one,
    a version that was stored before changes nothing, and a rule the file does not
    name stays as it was; the rows the loader returns are the newest of each rule. *)
Theorem seeded_rules_are_active path rules t st n u st' :
  before t st -> ascending t rules -> NoDup (map (fun x => l0_id x.2) rules) ->
  seed_l0_from_rules path rules st = (Ok (n, u), st') ->
  n + u = length rules /\
  (forall id, id ∉ map (fun x => l0_id x.2) rules -> active_rule id st' = active_rule id st) /\
  (forall now r, (now, r) ∈ rules ->
     if rule_stored (l0_id r) (compute_body_sha256 (l0_body r)) st then active_rule (l0_id r) st' = active_rule (l0_id r) st
     else exists m, active_rule (l0_id r) st' = Some m /\ me_body m = l0_body r /\ me_created_at m = now) /\
  (forall m, m ∈ load_active_l0 (length (s_rows st')) st' -> exists id, rule_of m = Some id /\ active_rule id st' = Some m).
Proof.
  intros Hb Ha Hd E. destruct (seed_rules_spec _ _ _ _ _ _ _ Hb Ha Hd E) as (Hn & Ho & Hr). split_and!; [done..|].
  intros m (id & Hid & _ & Hf)%take_elem%find_distinct. by exists id.
Qed.
End Seeding.

(** * Witnesses *)

Definition demo_rule_a : L0Rule := mkL0Rule (bs "deletion") (bs "Never delete mail.") [].
Definition demo_rule_b : L0Rule := mkL0Rule (bs "deletion") (bs "Delete mail older than a year.") [].
Definition demo_seed (t : Z) (r : L0Rule) (st : Store) : result (nat * nat) DbError * Store :=
  seed_l0_from_rules (bs "l0.toml") [(t, r)] st.
Definition demo_seeded : Store := (demo_seed 2 demo_rule_b (demo_seed 1 demo_rule_a (mkStore [] 1)).2).2.

(** A rule that is put back does not come back: after a rule was edited and
    then restored to its first text, the seed loader takes the old row for the
    current one and writes nothing, and the prompt keeps the edited rule. *)
Theorem restored_rule_stays_edited :
  demo_seed 3 demo_rule_a demo_seeded = (Ok (0, 1), demo_seeded) /\
  map me_body (load_l0_active_default demo_seeded) = [l0_body demo_rule_b].
Proof. split; vm_compute; reflexivity. Qed.

Lemma seeded_rules_are_active_witness :
  exists m, active_rule (bs "deletion") (demo_seed 1 demo_rule_a (mkStore [] 1)).2 = Some m /\ me_body m = bs "Never delete mail.".
Proof.
  assert (E : demo_seed 1 demo_rule_a (mkStore [] 1) = (Ok (1, 0), (demo_seed 1 demo_rule_a (mkStore [] 1)).2)) by (vm_compute; reflexivity).
  destruct (proj1 (proj2 (proj2 (seeded_rules_are_active (bs "l0.toml") [(1%Z, demo_rule_a)] 1 (mkStore [] 1) 1 0 _
    ltac:(constructor) ltac:(split; [lia|exact I]) ltac:(apply NoDup_singleton) E))) 1%Z demo_rule_a ltac:(apply list_elem_of_here))
    as (m & H1 & H2 & _). exact (ex_intro _ m (conj H1 H2)).
Defined.
