(* ===== verification/Runner.v ===== *)
(** The lane runner (src/core/src/scheduler/runner.rs, runner/task_exec.rs,
    runner/audit_rows.rs), the database half of operator asks
    (scheduler/asks/lifecycle.rs), crash recovery (scheduler/crash_recovery.rs)
    and the rows they write (scheduler/audit.rs).

    [drain_lane] claims the tasks of a lane one after the other; [run_one] builds
    the context of a task from its row, its answered asks and its conversation,
    and hands it to the inner loop of InnerLoop, whose environment is built here
    out of the statements of TaskStore.

    The daemon acts on the tables of TaskStore, the memories of SkillStore, the
    outbox of AskMessage and the audit log.  Everything else is [Outside]: the
    model, the workers, the clocks, the random source, and what other processes
    commit to the same tables between any two effects of this one.  A statement may
    fail before or after it committed.  Planning runs in [KASTELLAN_PLANNER_MODE]'s
    default mode; the notebook loop is not modelled.  Instants stay within the
    range of the [time] crate. *)

From stdpp Require Import base list gmap numbers strings option.
From Stdlib Require Import ZArith Lia.
From S2P Require Import Prelude RustStr Fingerprint Effects Json NulRule Secrets Cassandra PlanJson SkillTemplate PythonSkill.
From S2P Require Import InjectionGuard Asks LoopPure InnerLoop SkillStore AskMessage ResultView TaskStore TaskLifecycle Conversation.
From S2P Require Import SystemPrompt.
Local Open Scope prog_scope.

(** * Audit rows (audit.rs) *)

Definition SCHEDULER_AUDIT_ACTOR : bytes := bs "scheduler".
Definition ACTION_TASK_RUNNING : bytes := bs "task.running".
Definition ACTION_TASK_FINALIZE : bytes := bs "task.finalize".
Definition ACTION_ASK_RAISED : bytes := bs "ask.raised".
Definition ACTION_ASK_EXPIRED : bytes := bs "ask.expired".
Definition ACTION_ASK_APPROVAL_APPLIED : bytes := bs "ask.approval_applied".
Definition ACTION_TASK_PREFIX : bytes := bs "task.".
Definition FINALIZE_PROVENANCE_RUNTIME : bytes := bs "runtime".
Definition FINALIZE_PROVENANCE_CRASH_RECOVERY : bytes := bs "crash_recovery".
Definition FINALIZE_PROVENANCE_ASK_EXPIRY : bytes := bs "ask_expiry".

Definition action_task_terminal (state : bytes) : bytes := ACTION_TASK_PREFIX ++ state.

Record TaskFinalizeStats := mkStatsRow {
  fs_plan_count : Z; fs_llm_calls : Z; fs_dispatch_calls : Z; fs_duration_ms : Z; fs_started_at : option Z; fs_finished_at : Z }.

Definition build_lifecycle_payload (task_id : Z) (lane : Lane) (plan_count : Z) : Value :=
  object [(bs "task_id", int_value task_id); (bs "lane", String (lane_as_sql lane)); (bs "plan_count", int_value plan_count)].

(** Milliseconds of a non-negative duration, at most [u64::MAX]. *)
Definition compute_duration_ms (started_at : option Z) (finished_at : Z) : Z :=
  match started_at with
  | None => 0%Z
  | Some start =>
      let millis := Z.quot (finished_at - start) 1000000 in
      if (millis <=? 0)%Z then 0%Z else Z.min millis u64_max
  end.

Definition opt_value {A} (f : A -> Value) (o : option A) : Value := match o with Some a => f a | None => Null end.

Section AuditRows.
Variable rfc3339 : Z -> bytes.

Definition finalize_fields (task_id : Z) (lane : Lane) (state : bytes) (plan_count : Z) (llm dispatch duration : Value)
    (started_at : option Z) (finished_at : Z) (provenance : bytes) : Value :=
  object [(bs "task_id", int_value task_id); (bs "lane", String (lane_as_sql lane)); (bs "state", String state);
          (bs "plan_count", int_value plan_count); (bs "total_llm_calls", llm); (bs "total_dispatch_calls", dispatch);
          (bs "total_duration_ms", duration); (bs "started_at", opt_value (fun t => String (rfc3339 t)) started_at);
          (bs "finished_at", String (rfc3339 finished_at)); (bs "provenance", String provenance)].

Definition build_finalize_payload (task_id : Z) (lane : Lane) (state : bytes) (s : TaskFinalizeStats) : Value :=
  finalize_fields task_id lane state (fs_plan_count s) (int_value (fs_llm_calls s)) (int_value (fs_dispatch_calls s))
    (int_value (fs_duration_ms s)) (fs_started_at s) (fs_finished_at s) FINALIZE_PROVENANCE_RUNTIME.

(** The counters of a dead daemon are unknown, and so is the duration of a task
    that never started. *)
Definition known_duration (started_at : option Z) (finished_at : Z) : Value :=
  opt_value (fun s => int_value (compute_duration_ms (Some s) finished_at)) started_at.

Definition build_crashed_finalize_payload (task_id : Z) (lane : Lane) (plan_count : Z) (started_at : option Z) (finished_at : Z) : Value :=
  finalize_fields task_id lane (bs "crashed") plan_count Null Null (known_duration started_at finished_at) started_at finished_at
    FINALIZE_PROVENANCE_CRASH_RECOVERY.

Definition build_ask_expiry_finalize_payload (task_id : Z) (lane : Lane) (plan_count : Z) (started_at : option Z) (finished_at : Z) : Value :=
  finalize_fields task_id lane (bs "failed") plan_count Null Null (known_duration started_at finished_at) started_at finished_at
    FINALIZE_PROVENANCE_ASK_EXPIRY.
End AuditRows.

Definition build_l3_write_payload (outcome : L3WriteOutcome) (src : L3Source) (skill_name body_sha256 : bytes) : Value :=
  let '(action, id) := match outcome with
                       | Inserted id => (bs "inserted", id)
                       | SkippedDuplicate id => (bs "skipped_duplicate", id) end in
  object [(bs "source", String (bs "agent_raised")); (bs "task_id", int_value (src_task_id src));
          (bs "skill_name", String skill_name); (bs "action", String action); (bs "memory_id", int_value id);
          (bs "body_sha256", String body_sha256)].

Definition severity_value (s : Severity) : Value :=
  String (match s with Low => bs "low" | Medium => bs "medium" | High => bs "high" end).

(** [serde_json::to_value] of a report. *)
Definition report_value (r : InvokeReport) : Value :=
  match r with
  | ReportRefused reasons => object [(bs "Refused", object [(bs "reasons", Array (map String reasons))])]
  | ReportDryRun steps =>
      object [(bs "DryRun", object [(bs "steps", Array (map l3_step_value steps))])]
  | ReportExecuted outcomes total =>
      object [(bs "Executed", object [(bs "outcomes", Array (map outcome_to_value outcomes)); (bs "steps_total", int_value (Z.of_nat total))])]
  end.

(** * The daemon *)

Record Daemon (X : Type) := mkDaemon {
  d_db : Db; d_store : Store; d_outbox : option ChannelOutbox; d_audit : list AuditRow; d_out : X }.
Arguments mkDaemon {X}. Arguments d_db {X}. Arguments d_store {X}. Arguments d_outbox {X}.
Arguments d_audit {X}. Arguments d_out {X}.

(** What happens to a statement: it runs, its connection is lost before it ran,
    or after it committed. *)
Inductive Fault := NoFault | LostBefore | LostAfter.

Record Outside (X : Type) := mkOutside {
  o_others : X -> list (Z * Op) * (Store -> Store) * X;       (** committed by others meanwhile *)
  o_fault : X -> Fault * X;
  o_db_now : X -> Z * X;                                       (** [now()] of the next transaction *)
  o_utc : X -> Z * X;
  o_instant : X -> Z * X;
  o_locked : X -> (Z -> bool) * X;                             (** the rows [SKIP LOCKED] passes over *)
  o_draw : X -> bytes * X;
  o_audit_insert : X -> result () DbError * X;
  o_shutdown : X -> bool * X;
  o_out_dir : Z -> X -> bool * X;                              (** the artifacts directory was created *)
  o_formulate_plan : TaskContext -> X -> result (Plan * FormulationMeta) AgentError * X;
  o_formulate_synthesis : TaskContext -> X -> result (Plan * FormulationMeta) AgentError * X;
  o_formulate_without_thinking : TaskContext -> X -> option (result (Plan * FormulationMeta) AgentError) * X;
  o_formulate_reformat : TaskContext -> bool -> bytes -> X -> option (result (Plan * FormulationMeta) AgentError) * X;
  o_dispatch_step : Z -> PlannedStep -> X -> StepOutcome * X;
  o_dispatch_skill_step : PlannedStep -> X -> StepOutcome * X;
  o_qualify_method : bytes -> bytes -> option bytes;
  o_known_tools : list bytes;
  o_sink_block_payloads : PlanRecord -> Z -> Z -> list Value }.
Arguments mkOutside {X}. Arguments o_others {X}. Arguments o_fault {X}. Arguments o_db_now {X}. Arguments o_utc {X}.
Arguments o_instant {X}. Arguments o_locked {X}. Arguments o_draw {X}. Arguments o_audit_insert {X}. Arguments o_shutdown {X}.
Arguments o_out_dir {X}. Arguments o_formulate_plan {X}. Arguments o_formulate_synthesis {X}.
Arguments o_formulate_without_thinking {X}. Arguments o_formulate_reformat {X}. Arguments o_dispatch_step {X}.
Arguments o_dispatch_skill_step {X}. Arguments o_qualify_method {X}. Arguments o_known_tools {X}. Arguments o_sink_block_payloads {X}.

(** What the runner does, besides the rows of the audit log. *)
Inductive RunEvent :=
| RvClaim (id : Z) (row : Task)
| RvLoop (id : Z) (e : Event)             (** an event of the inner loop *)
| RvSkillRun (id : Z)
| RvOutDir (id : Z)
| RvPruneDir (id : Z)
| RvPurge (id : Z)
| RvFinalize (id : Z) (state : bytes).    (** the UPDATE was issued *)

Definition CONNECTION_LOST : DbError := bs "postgres query failed: connection lost".

Section Daemon.
Context `{UnicodeStr} `{UnicodeChar} `{Sha256} `{Text} {X : Type} (o : Outside X).

Abbreviation D := (Daemon X).

Definition set_db (db : Db) (w : D) : D := mkDaemon db (d_store w) (d_outbox w) (d_audit w) (d_out w).
Definition set_store (st : Store) (w : D) : D := mkDaemon (d_db w) st (d_outbox w) (d_audit w) (d_out w).
Definition set_outbox (b : option ChannelOutbox) (w : D) : D := mkDaemon (d_db w) (d_store w) b (d_audit w) (d_out w).
Definition set_out (x : X) (w : D) : D := mkDaemon (d_db w) (d_store w) (d_outbox w) (d_audit w) x.
Definition push_row (r : AuditRow) (w : D) : D := mkDaemon (d_db w) (d_store w) (d_outbox w) (r :: d_audit w) (d_out w).

(** The rest of the world moves before each effect. *)
Definition settle (w : D) : D :=
  let '(ops, f, x) := o_others o (d_out w) in
  mkDaemon (run_ops ops (d_db w)) (f (d_store w)) (d_outbox w) (d_audit w) x.

Definition outside {A} (f : X -> A * X) (w : D) : A * D :=
  let w := settle w in
  let '(a, x) := f (d_out w) in (a, set_out x w).

(** A statement on the tables, or on the memories: [f] gets [now()]. *)
Definition statement {A} (f : Z -> D -> result A DbError * D) (w : D) : result A DbError * D :=
  let '(now, w1) := outside (o_db_now o) w in
  let '(fault, w2) := outside (o_fault o) w1 in
  match fault with
  | NoFault => f now w2
  | LostBefore => (Err CONNECTION_LOST, w2)
  | LostAfter => (Err CONNECTION_LOST, (f now w2).2)
  end.

Definition on_db {A} (f : Z -> Db -> result A DbError * Db) : D -> result A DbError * D :=
  statement (fun now w => let '(r, db) := f now (d_db w) in (r, set_db db w)).

Definition read_db {A} (f : Db -> A) : D -> result A DbError * D := on_db (fun _ db => (Ok (f db), db)).

Definition read_store {A} (f : Store -> A) : D -> result A DbError * D := statement (fun _ w => (Ok (f (d_store w)), w)).

(** A best-effort row. *)
Definition audit (r : AuditRow) (w : D) : D :=
  match outside (o_audit_insert o) w with
  | (Ok _, w') => push_row r w'
  | (Err _, w') => w'
  end.

Definition scheduler_row (action : bytes) (payload : Value) : AuditRow := mkRow SCHEDULER_AUDIT_ACTOR action payload.

(** * Asks (asks/lifecycle.rs) *)

Section Asking.
(** [rfc3339] and [OffsetDateTime]'s [Display]; [KASTELLAN_ASK_DEADLINE_S]. *)
Variables (rfc3339 time_display : Z -> bytes) (deadline_env : option bytes).

Definition emit_ask_raised (ask_id task_id : Z) (digest : bytes) (sev : Severity) (deadline_at : Z) : D -> D :=
  audit (scheduler_row ACTION_ASK_RAISED
    (object [(bs "ask_id", int_value ask_id); (bs "task_id", int_value task_id); (bs "kind", String ASK_KIND_PLAN_APPROVAL);
             (bs "plan_digest", String digest); (bs "severity", severity_value sev);
             (bs "deadline_at", String (time_display deadline_at))])).

Definition raise_and_suspend (task_id : Z) (dest : option AskDestination) (plan : Plan) (concern : bytes) (sev : Severity)
    (resume_state : option Value) (w : D) : result Z DbError * D :=
  let digest := plan_digest to_string plan in
  let '(utc, w1) := outside (o_utc o) w in
  let deadline_at := (utc + ask_deadline_seconds deadline_env * 1000000000)%Z in
  let '(drawn, w2) := outside (o_draw o) w1 in
  match on_db (raise drawn task_id ASK_KIND_PLAN_APPROVAL concern plan_approval_options (Some digest) deadline_at resume_state) w2 with
  | (Err e, w3) => (Err e, w3)
  | (Ok raised, w3) =>
      let w4 := emit_ask_raised (ra_ask_id raised) task_id digest sev deadline_at w3 in
      let '(outcome, outbox) := deliver_ask (d_outbox w4) dest task_id concern (ra_nonce raised) (rfc3339 deadline_at) in
      let '(action, payload) := delivery_audit_row (ra_ask_id raised) task_id outcome in
      (Ok (ra_ask_id raised), audit (scheduler_row action payload) (set_outbox outbox w4))
  end.

Definition emit_expired_task_rows (task_id : Z) (w : D) : D :=
  match read_db (get_task task_id) w with
  | (Ok (Some t), w1) =>
      let w2 := audit (scheduler_row (action_task_terminal (bs "failed")) (build_lifecycle_payload task_id (tk_lane t) (tk_plan_count t))) w1 in
      let '(finished_at, w3) := match tk_finished_at t with Some f => (f, w2) | None => outside (o_utc o) w2 end in
      audit (scheduler_row ACTION_TASK_FINALIZE
        (build_ask_expiry_finalize_payload rfc3339 task_id (tk_lane t) (tk_plan_count t) (tk_started_at t) finished_at)) w3
  | (_, w1) => w1
  end.

Definition emit_expired (w : D) (e : Z * Z) : D :=
  emit_expired_task_rows e.2
    (audit (scheduler_row ACTION_ASK_EXPIRED (object [(bs "ask_id", int_value e.1); (bs "task_id", int_value e.2)])) w).

Definition sweep_expired_and_audit (w : D) : result nat DbError * D :=
  match on_db (fun now db => let '(expired, db') := expire_due now db in (Ok expired, db')) w with
  | (Err e, w1) => (Err e, w1)
  | (Ok expired, w1) => (Ok (length expired), fold_left emit_expired expired w1)
  end.

(** * Crash recovery (crash_recovery.rs) *)

Definition emit_crashed (w : D) (kt : Z * Task) : D :=
  let '(id, t) := kt in
  let w1 := audit (scheduler_row (action_task_terminal (bs "crashed")) (build_lifecycle_payload id (tk_lane t) (tk_plan_count t))) w in
  let '(finished_at, w2) := match tk_finished_at t with Some f => (f, w1) | None => outside (o_utc o) w1 end in
  audit (scheduler_row ACTION_TASK_FINALIZE
    (build_crashed_finalize_payload rfc3339 id (tk_lane t) (tk_plan_count t) (tk_started_at t) finished_at)) w2.

Definition sweep_and_audit (w : D) : result nat DbError * D :=
  match on_db (fun now db => let '(crashed, db') := sweep_crashed now db in (Ok crashed, db')) w with
  | (Err e, w1) => (Err e, w1)
  | (Ok crashed, w1) => (Ok (length crashed), fold_left emit_crashed crashed w1)
  end.
End Asking.

(** * One task (runner/task_exec.rs) *)

Definition pre_plan_outcome (resolved : list Ask) : option Outcome :=
  (fun denied => OperatorDenied (ask_id denied) (ask_body denied)) <$>
    List.find (fun a => match resolution_choice a with Some ChoiceDeny => true | _ => false end) resolved.

Definition u32_max : Z := 4294967295.
Definition i32_max : Z := 2147483647.

(** [u32::try_from(n).unwrap_or(0)] *)
Definition u32_or_zero (n : Z) : Z := if ((0 <=? n) && (n <=? u32_max))%Z then n else 0%Z.

(** [i32::try_from(n).unwrap_or(i32::MAX)] *)
Definition i32_or_max (n : Z) : Z := if (n <=? i32_max)%Z then n else i32_max.

(** [starting plan_count, max_plans] *)
Definition resume_budget (db_plan_count max_plans : Z) : Z * Z :=
  let carried := u32_or_zero db_plan_count in (carried, Z.min (carried + max_plans) u32_max).

(** In nanoseconds. *)
Definition lane_time_ceiling (lane : Lane) : option Z :=
  match lane with Fast => Some (DEFAULT_TIME_CEILING_FAST_S * 1000000000)%Z | Long => None end.

(** [checked_add]: an [Instant] has 64 bits of seconds. *)
Definition deadline_from (now : Z) (ceiling : option Z) : option Z :=
  c ← ceiling; if (now + c <? 9223372036854775808 * 1000000000)%Z then Some (now + c)%Z else None.

Definition failed_result (detail : bytes) : InnerLoopResult := mkResult (Failed detail) 0 0 0 None None None None.

Section TaskExec.
(** [serde_json::from_str] and the [Debug] of a value. *)
Variables (json_from_str : bytes -> option Value) (value_debug : Value -> bytes).

Definition floor_source_from_value (s : bytes) : option ClassificationFloorSource :=
  List.find (fun src => bytes_eqb (floor_source_str src) s) [Operator; CliInferred; AgentRaised; DefaultFloor; ConversationInherited].

Definition parse_classification_floor_source_from_payload (value : option Value) : result ClassificationFloorSource bytes :=
  match value with
  | None => Ok DefaultFloor
  | Some v =>
      match as_str v with
      | None => Err (bs "classification_floor_source in payload is not a string: " ++ value_debug v)
      | Some s =>
          match floor_source_from_value s with
          | Some (Operator | CliInferred | DefaultFloor) as r => Ok (default DefaultFloor r)
          | Some reserved =>
              Err (bs "classification_floor_source = " ++ str_debug (floor_source_str reserved) ++
                   bs " is reserved for the inner loop — producers must not supply it. Use operator / cli_inferred / default at submission time.")
          | None =>
              Err (bs "unknown classification_floor_source: " ++ str_debug s ++ bs " (expected one of operator, cli_inferred, default)")
          end
      end
  end.

(** The floor field of the payload: the string is parsed as the JSON text between
    quotes. *)
Definition payload_floor (payload : Value) : result DataClass bytes :=
  match get (bs "classification_floor") payload with
  | None => Ok Public
  | Some v =>
      match as_str v with
      | None => Err (bs "classification_floor in payload is not a string: " ++ value_debug v)
      | Some s =>
          match json_from_str ([34%Z] ++ s ++ [34%Z]) ≫= class_from_value with
          | Some c => Ok c
          | None => Err (bs "unknown classification_floor: " ++ str_debug s ++
                         bs " (expected one of Public, Personal, ClinicalConfidential, Secret)")
          end
      end
  end.

Definition payload_text (payload : Value) : bytes := default [] (get (bs "instruction") payload ≫= as_str).

Definition payload_signals (payload : Value) : list bytes :=
  match get (bs "classification_floor_signals") payload ≫= as_array with Some l => omap as_str l | None => [] end.

Definition payload_max_plans (payload : Value) (lane_default : Z) : Z :=
  default lane_default
    (v ← get (bs "max_plans") payload;
     n ← match v with Number (NInt z) => if ((0 <=? z) && (z <=? u64_max))%Z then Some z else None | _ => None end;
     if (n <=? u32_max)%Z then Some n else None).

Variables (rfc3339 time_display : Z -> bytes) (f32_value : Z -> Value) (deadline_env : option bytes) (review : ReviewStage).

(** The inner loop's environment for one task. *)
Definition loop_env (task_id : Z) (origin : option AskDestination) : Env D := {|
  e_now := outside (o_instant o);
  e_observe_state := on_db (fun _ db => (observe_state task_id db, db));
  e_audit_insert := outside (o_audit_insert o);
  e_increment_plan_count := fun n => on_db (fun now db => (Ok tt, increment_plan_count task_id n now db));
  e_formulate_plan := fun c => outside (o_formulate_plan o c);
  e_formulate_synthesis := fun c => outside (o_formulate_synthesis o c);
  e_formulate_without_thinking := fun c => outside (o_formulate_without_thinking o c);
  e_formulate_reformat := fun c b s => outside (o_formulate_reformat o c b s);
  e_dispatch_step := fun id s => outside (o_dispatch_step o id s);
  e_qualify_method := o_qualify_method o;
  e_known_tools := o_known_tools o;
  e_load_skill := fun name => read_store (load_pinned_skill_by_name name);
  e_load_python_skill := fun name => read_store (load_pinned_python_skill_by_name name);
  e_expand_for_agent := fun t args live ceiling => expand_for_agent to_string t Pinned args live ceiling;
  e_expand_python_for_agent := fun c sha ceiling params => expand_python_for_agent to_string c Pinned sha ceiling params;
  e_raise_and_suspend := fun p concern sev resume => raise_and_suspend rfc3339 time_display deadline_env task_id origin p concern sev (Some resume);
  e_sink_block_payloads := o_sink_block_payloads o;
  e_turn_record := fun plans floor => record_value (Conversation.from_plans plans floor);
  e_to_vec := to_string;
  e_review := review |}.

Abbreviation R := (prog D RunEvent DbError).

(** The inner loop's own trace, under the task's name. *)
Definition traced {A} (id : Z) (m : prog D Event DbError A) : R (result A DbError) := fun w t =>
  let '(r, w', t') := m w [] in (Ok r, w', map (RvLoop id) t' ++ t).

Definition update (f : D -> D) : R () := effect (fun w => (tt, f w)).

Definition block_rows (task_id : Z) (blocks : list ConversationBlock) (w : D) : D :=
  fold_left (fun w b => audit (mkRow (bs "policy") (bs "injection.blocked") (block_audit_payload f32_value task_id b)) w) blocks w.

Definition load_turns (id : Z) (created_at : Z) (origin : option AskDestination) (floor : DataClass) (source : ClassificationFloorSource) :
    R LoadedConversation :=
  match origin with
  | None => ret (load_for_task rfc3339 true id created_at origin floor source empty_db)
  | Some _ =>
      let* db := effect (read_db (fun db => db)) in
      ret (match db with
           | Ok db => load_for_task rfc3339 true id created_at origin floor source db
           | Err _ => load_for_task rfc3339 false id created_at origin floor source empty_db
           end)
  end.

Definition run_one (id : Z) (task : Task) (max_plans : Z) : R InnerLoopResult :=
  let payload := tk_payload task in
  match payload_floor payload with
  | Err detail => ret (failed_result detail)
  | Ok floor0 =>
      match parse_classification_floor_source_from_payload (get (bs "classification_floor_source") payload) with
      | Err detail => ret (failed_result detail)
      | Ok source0 =>
          let* resolved := effect (read_db (resolved_for_task id)) in
          match resolved with
          | Err e => ret (failed_result (bs "could not read this task's resolved operator asks: " ++ e))
          | Ok resolved =>
              match pre_plan_outcome resolved with
              | Some outcome => ret (mkResult outcome (u32_or_zero (tk_plan_count task)) 0 0 None None None None)
              | None =>
                  let '(start, max) := resume_budget (tk_plan_count task) (payload_max_plans payload max_plans) in
                  let restored := restore_resume_state (head resolved ≫= ask_resume_state) in
                  let origin := destination_from_task_payload payload in
                  let* loaded := load_turns id (tk_created_at task) origin floor0 source0 in
                  let '(floor, source) := lc_floor loaded in
                  (match rr_plans restored with [] => update (block_rows id (lc_blocks loaded)) | _ => ret tt end);;;
                  let* now := effect (outside (o_instant o)) in
                  let ctx := mkCtx id (tk_lane task) (payload_text payload) floor source (payload_signals payload)
                               (rr_plans restored) (rr_advisories restored) (rr_blocks restored) start max
                               (deadline_from now (lane_time_ceiling (tk_lane task))) resolved origin (lc_turns loaded)
                               (lc_task_ids loaded) in
                  let* run := traced id (run_to_terminal (loop_env id origin) ctx) in
                  emit (RvPurge id);;;
                  ret (match run with
                       | Ok (Some r) => r
                       | Ok None => failed_result []   (* run_to_terminal always has a result *)
                       | Err e => failed_result (bs "inner_loop: " ++ e)
                       end)
              end
          end
      end
  end.

(** * The lane (runner.rs, runner/audit_rows.rs) *)

Definition write_lifecycle_row (action : bytes) (task_id : Z) (lane : Lane) (plan_count : Z) : D -> D :=
  audit (scheduler_row action (build_lifecycle_payload task_id lane plan_count)).

Definition total_llm_calls (r : InnerLoopResult) : Z := Z.min (ir_plan_count r + ir_failed_llm_calls r) u32_max.

Definition write_finalize_row (id : Z) (claimed : Task) (state : bytes) (r : InnerLoopResult) (finished_at : Z) : D -> D :=
  audit (scheduler_row ACTION_TASK_FINALIZE (build_finalize_payload rfc3339 id (tk_lane claimed) state
    (mkStatsRow (i32_or_max (ir_plan_count r)) (total_llm_calls r) (ir_dispatch_count r)
       (compute_duration_ms (tk_started_at claimed) finished_at) (tk_started_at claimed) finished_at))).

(** The three memory hooks; a statement that fails skips the row. *)
Definition write_l1_promoted_row (task_id : Z) (insight : bytes) (w : D) : D :=
  let src := L1AgentRaised task_id in
  let '(created_at, w0) := outside (o_utc o) w in
  match statement (fun now w => let '(r, st) := promote_l1 insight src (rfc3339 created_at) now (d_store w) in (Ok r, set_store st w)) w0 with
  | (Ok (Ok outcome), w1) =>
      audit (scheduler_row (bs "l1.promoted") (build_l1_write_payload outcome src (compute_body_sha256 (str_trim insight)))) w1
  | (Ok (Err (L1InjectionBlocked score codes sha)), w1) =>
      audit (scheduler_row (bs "l1.injection_blocked")
        (object [(bs "task_id", int_value task_id); (bs "source", String (bs "agent_raised")); (bs "decision", String (bs "block"));
                 (bs "score", f32_value score); (bs "reason_codes", Array (map String codes)); (bs "body_sha256", String sha)])) w1
  | (_, w1) => w1
  end.

Definition write_l3_crystallised_row (task_id : Z) (skill : L3SkillCandidate) (w : D) : D :=
  let src := mkAgentRaised task_id in
  let '(created_at, w0) := outside (o_utc o) w in
  match statement (fun now w => let '(r, st) := crystallise_l3 to_string skill src (rfc3339 created_at) now (d_store w) in (Ok r, set_store st w)) w0 with
  | (Ok (Ok outcome), w1) =>
      match validate_l3_skill to_string skill with
      | Ok normalised =>
          audit (scheduler_row (bs "l3.crystallised")
            (build_l3_write_payload outcome src (l3_name normalised) (compute_template_sha256 to_string normalised))) w1
      | Err _ => w1
      end
  | (_, w1) => w1
  end.

Definition write_python_skill_crystallised_row (task_id : Z) (skill : PythonSkillCandidate) (w : D) : D :=
  let src := mkAgentRaised task_id in
  let '(created_at, w0) := outside (o_utc o) w in
  match statement (fun now w => let '(r, st) := crystallise_python_skill to_string skill src (rfc3339 created_at) now (d_store w) in (Ok r, set_store st w)) w0 with
  | (Ok (Ok outcome), w1) =>
      match validate_python_skill skill with
      | Ok normalised =>
          audit (scheduler_row (bs "l3.crystallised")
            (with_python_kind (build_l3_write_payload outcome src (py_name normalised) (compute_python_sha256 to_string normalised)))) w1
      | Err _ => w1
      end
  | (_, w1) => w1
  end.

Definition when {A} (x : option A) (f : A -> D -> D) : R () := match x with Some a => update (f a) | None => ret tt end.

(** An operator's skill run: its rows are best-effort, the report is the task's
    result whatever it says. *)
Definition skill_run (id : Z) (claimed : Task) : R () :=
  let* fetched := effect (read_store (fun st id => fetch_by_id id st)) in
  let fetch mid := match fetched with Ok f => Ok (f mid) | Err e => Err e end in
  let* (report, rows) := effect (outside (fun x =>
    let '(rep, rows, x') := run_l3_run_task to_string (o_dispatch_skill_step o) (o_known_tools o) fetch (tk_payload claimed) x in
    ((rep, rows), x'))) in
  emit (RvSkillRun id);;;
  update (fun w => fold_left (fun w r => audit r w) rows w);;;
  emit (RvFinalize id (bs "completed"));;;
  effect (on_db (finalize id (bs "completed") (Some (report_value report)) None));;;
  update (write_lifecycle_row (action_task_terminal (bs "completed")) id (tk_lane claimed) 0).

Definition agent_run (id : Z) (claimed : Task) (max_plans : Z) : R () :=
  let* dir := effect (outside (o_out_dir o id)) in
  (if dir then emit (RvOutDir id) else ret tt);;;
  let* result := run_one id claimed max_plans in
  match final_state (ir_outcome result) with
  | None => ret tt
  | Some state =>
      let* finished_at := effect (outside (o_utc o)) in
      emit (RvFinalize id state);;;
      effect (on_db (finalize id state (result_payload (ir_outcome result)) (ir_turn_record result)));;;
      update (write_lifecycle_row (action_task_terminal state) id (tk_lane claimed) (i32_or_max (ir_plan_count result)));;;
      update (write_finalize_row id claimed state result finished_at);;;
      when (ir_l1_insight result) (write_l1_promoted_row id);;;
      when (ir_l3_skill result) (write_l3_crystallised_row id);;;
      when (ir_python_skill result) (write_python_skill_crystallised_row id);;;
      if dir then emit (RvPruneDir id) else ret tt
  end.

(** [claim_one] with the clocks and the locks of the moment. *)
Definition claim (lane : Lane) (deadline_seconds : Z) (w : D) : result (option (Z * Task)) DbError * D :=
  let '(utc, w1) := outside (o_utc o) w in
  let '(locked, w2) := outside (o_locked o) w1 in
  on_db (fun now db => let '(r, db') := claim_one locked lane deadline_seconds utc now db in (Ok r, db')) w2.

(** [None] when [fuel] claims were not enough. *)
Fixpoint drain_lane (fuel : nat) (lane : Lane) (deadline_seconds max_plans : Z) : R (option ()) :=
  match fuel with
  | O => ret None
  | S fuel' =>
      let* stop := effect (outside (o_shutdown o)) in
      if stop then ret (Some tt)
      else
        let* claimed := effect (claim lane deadline_seconds) in
        match claimed with
        | Err _ | Ok None => ret (Some tt)
        | Ok (Some (id, task)) =>
            emit (RvClaim id task);;;
            update (write_lifecycle_row ACTION_TASK_RUNNING id (tk_lane task) (tk_plan_count task));;;
            (if is_l3_run_payload (tk_payload task) then skill_run id task else agent_run id task max_plans);;;
            drain_lane fuel' lane deadline_seconds max_plans
        end
  end.
End TaskExec.
End Daemon.
