(* ===== verification/Handoff.v ===== *)
(** The handoff cache (src/core/src/handoff.rs), the head of a large result the
    planner is shown instead of it (src/core/src/cassandra/injection_guard/screened_head.rs)
    and the screening of slices fetched back
    (src/core/src/scheduler/tool_dispatch/fetch_screen.rs).

    A result larger than [DEFAULT_RESULT_BYTE_CAP] is stashed for its task and
    replaced by a placeholder with a head of it; the planner asks for slices by
    reference.  The cache behind its mutex is a value passed through the
    operations.  Lengths and offsets are integers, so that [usize::MAX] and
    saturating addition are written out; the JSON reader is a parameter. *)

From stdpp Require Import base list gmap sets numbers strings option.
From Stdlib Require Import ZArith Lia.
From S2P Require Import Prelude RustStr Fingerprint Json Cassandra InjectionGuard LoopPure AskMessage ResultView ToolHost SystemPrompt.
Local Open Scope Z_scope.

(** * screened_head.rs *)

Definition CUT_MARK : bytes := bs "…".

(** One byte of budget for a node without text. *)
Definition charge_node (node : Value) (cap used : Z) : option Value * bool * Z :=
  if used <? cap then (Some node, false, used + 1) else (None, true, used).

(** A non-empty string. *)
Definition head_string (s : bytes) (cap used : Z) : option Value * bool * Z :=
  let sep := if 0 <? used then 1 else 0 in
  if used + sep + len s <=? cap then (Some (String s), false, used + sep + len s)
  else
    let take_ := floor_boundary (Z.to_nat (Z.min (Z.max 0 (cap - (used + sep))) (len s))) s in
    if (take_ =? 0)%nat || is_atomic s then (None, true, cap)
    else (Some (String (take take_ s ++ CUT_MARK)), true, cap).

(** The loops over the items of an array and the fields of an object: what is
    kept, whether the budget ran out, and the charge. *)
Definition head_items (f : Value -> Z -> option Value * bool * Z) :=
  fix go (items : list Value) (used : Z) : list Value * bool * Z :=
    match items with
    | [] => ([], false, used)
    | x :: items' =>
        let '(kept, stop, used1) := f x used in
        if stop : bool then (option_list kept, true, used1)
        else let '(out, stop', used2) := go items' used1 in (option_list kept ++ out, stop', used2)
    end.

(** Keys come in order, so that inserting one appends it. *)
Definition head_fields (cap : Z) (f : Value -> Z -> option Value * bool * Z) :=
  fix go (m : list (bytes * Value)) (used : Z) : list (bytes * Value) * bool * Z :=
    match m with
    | [] => ([], false, used)
    | (key, x) :: m' =>
        if cap <? used + len key then ([], true, used)
        else
          let '(kept, stop, used1) := f x (used + len key) in
          let here := option_list ((fun k => (key, k)) <$> kept) in
          if stop : bool then (here, true, used1)
          else let '(out, stop', used2) := go m' used1 in (here ++ out, stop', used2)
    end.

Fixpoint head_at (cap : Z) (v : Value) (depth : nat) (used : Z) : option Value * bool * Z :=
  if (MAX_WALK_DEPTH <=? depth)%nat then charge_node Null cap used
  else
    match v with
    | String (c :: s) => head_string (c :: s) cap used
    | Array items =>
        match charge_node Null cap used with
        | (None, stop, used1) => (None, stop, used1)
        | (Some _, _, used1) =>
            let '(out, stop, used2) := head_items (fun x => head_at cap x (S depth)) items used1 in
            (Some (Array out), stop, used2)
        end
    | Object m =>
        match charge_node Null cap used with
        | (None, stop, used1) => (None, stop, used1)
        | (Some _, _, used1) =>
            let '(out, stop, used2) := head_fields cap (fun x => head_at cap x (S depth)) m used1 in
            (Some (Object out), stop, used2)
        end
    | other => charge_node other cap used
    end.

Definition screened_head (v : Value) (byte_cap : Z) : Value :=
  match head_at byte_cap v 0 0 with (Some h, _, _) => h | (None, _, _) => Null end.

Example head_cuts : screened_head (object [(bs "a", String (bs "x xxx xxx xx")); (bs "b", String (bs "never screened"))]) 7
  = object [(bs "a", String (bs "x xx…"))].
Proof. vm_compute. reflexivity. Qed.

Example head_drops_urls :
  screened_head (object [(bs "title", String (bs "a hit")); (bs "url", String (bs "https://example.com/a/long/path"))]) 20
  = object [(bs "title", String (bs "a hit"))].
Proof. vm_compute. reflexivity. Qed.

(** * handoff.rs *)

Definition DEFAULT_RESULT_BYTE_CAP : Z := 64 * 1024.
Definition PER_TASK_BYTE_BUDGET : Z := 64 * 1024 * 1024.
Definition MAX_TRACKED_TASKS : nat := 4096.

(** [HandoffRef::of] and [HandoffRef::parse]; a reference is its text. *)
Definition handoff_ref_of `{Sha256} (body : bytes) : bytes := bs "sha256:" ++ sha256_hex (sha256 body).

Definition is_lower_hex (b : Z) : bool := ((48 <=? b) && (b <=? 57) || (97 <=? b) && (b <=? 102)).

Definition parse_ref (s : bytes) : option bytes :=
  if starts_with (bs "sha256:") s then
    let hex := drop 7 s in
    if (length hex =? 64)%nat && forallb is_lower_hex hex then Some s else None
  else None.

Definition build_handoff_placeholder (v : Value) (r : bytes) (byte_len : Z) : Value :=
  object [(bs "handoff_ref", String r); (bs "byte_len", int_value byte_len);
          (bs "summary_head", screened_head v (Z.of_nat SUMMARY_HEAD_BYTES)); (bs "truncated", Bool true)].

Definition placeholder_ref (v : Value) : option bytes :=
  if bool_decide (get (bs "truncated") v = Some (Bool true)) then (get (bs "handoff_ref") v ≫= as_str) ≫= parse_ref else None.

Record Slice := mkSlice { sl_bytes : bytes; sl_eof : bool }.
Record StashOutcome := mkStash { so_placeholder : Value; so_handoff_ref : bytes; so_byte_len : Z }.
Inductive FetchResult := FetchOk (v : Value) | FetchNotFound (detail : bytes) | FetchInvalidParams (detail : bytes).

(** One task's bodies, oldest first, and the tasks, oldest first. *)
Record TaskBucket := mkBucket { tb_order : list bytes; tb_map : gmap bytes bytes; tb_total : Z }.
Record HandoffCache := mkCache { hc_buckets : gmap Z TaskBucket; hc_order : list Z }.

Definition fresh_bucket : TaskBucket := mkBucket [] ∅ 0.
Definition empty_cache : HandoffCache := mkCache ∅ [].

(** The eviction loop of [put]; the last body stays. *)
Fixpoint evict (order : list bytes) (m : gmap bytes bytes) (total : Z) : TaskBucket :=
  match order with
  | oldest :: (_ :: _) as rest =>
      if PER_TASK_BYTE_BUDGET <? total then
        match m !! oldest with
        | Some b => evict rest (delete oldest m) (total - len b)
        | None => evict rest m total
        end
      else mkBucket order m total
  | _ => mkBucket order m total
  end.

(** The global backstop. *)
Fixpoint evict_tasks (order : list Z) (buckets : gmap Z TaskBucket) : HandoffCache :=
  match order with
  | [] => mkCache buckets []
  | victim :: rest =>
      if (MAX_TRACKED_TASKS <? length order)%nat then evict_tasks rest (delete victim buckets)
      else mkCache buckets order
  end.

Section Cache.
Context `{Sha256}.

Definition put (task_id : Z) (body : bytes) (c : HandoffCache) : bytes * HandoffCache :=
  let r := handoff_ref_of body in
  let found := hc_buckets c !! task_id in
  let bucket := default fresh_bucket found in
  match tb_map bucket !! r with
  | Some _ => (r, c)
  | None =>
      let bucket' := evict (tb_order bucket ++ [r]) (<[r := body]> (tb_map bucket)) (tb_total bucket + len body) in
      let buckets := <[task_id := bucket']> (hc_buckets c) in
      (r, match found with
          | Some _ => mkCache buckets (hc_order c)
          | None => evict_tasks (hc_order c ++ [task_id]) buckets
          end)
  end.

Definition get_slice (task_id : Z) (r : bytes) (offset count : Z) (c : HandoffCache) : option Slice :=
  b ← hc_buckets c !! task_id;
  body ← tb_map b !! r;
  let start := Z.min offset (len body) in
  let end_ := Z.min (Z.min (offset + count) USIZE_MAX) (len body) in
  Some (mkSlice (take (Z.to_nat (end_ - start)) (drop (Z.to_nat start) body)) (len body <=? end_)).

Definition purge_task (task_id : Z) (c : HandoffCache) : HandoffCache :=
  mkCache (delete task_id (hc_buckets c)) (filter (fun t => t <> task_id) (hc_order c)).

Definition stash_if_oversized (task_id : Z) (v : Value) (cap : Z) (c : HandoffCache) : option StashOutcome * HandoffCache :=
  let body := to_string v in
  if len body <=? cap then (None, c)
  else
    let '(r, c') := put task_id body c in
    (Some (mkStash (build_handoff_placeholder v r (len body)) r (len body)), c').

(** [serde_json::from_slice] *)
Variable json_from_slice : bytes -> option Value.

Definition whole (task_id : Z) (r : bytes) (c : HandoffCache) : option Value :=
  s ← get_slice task_id r 0 USIZE_MAX c; json_from_slice (sl_bytes s).
End Cache.

(** ** Fetching *)

(** [Value::as_u64] *)
Definition as_u64 (v : Value) : option Z :=
  match v with Number (NInt z) => if (0 <=? z) && (z <=? USIZE_MAX) then Some z else None | _ => None end.

Definition fetch (task_id : Z) (params : Value) (c : HandoffCache) : FetchResult :=
  match get (bs "handoff_ref") params ≫= as_str with
  | None => FetchInvalidParams (bs "missing 'handoff_ref'")
  | Some ref_str =>
      match parse_ref ref_str with
      | None => FetchInvalidParams (bs "malformed handoff_ref: " ++ ref_str)
      | Some r =>
          let max := Z.of_nat MAX_FETCH_BYTES in
          let offset := default 0 (get (bs "offset") params ≫= as_u64) in
          let count := Z.min (default max (get (bs "len") params ≫= as_u64)) max in
          match get_slice task_id r offset count c with
          | Some s =>
              FetchOk (object [(bs "handoff_ref", String r); (bs "offset", int_value offset);
                               (bs "len", int_value (len (sl_bytes s))); (bs "data", String (from_utf8_lossy (sl_bytes s)));
                               (bs "encoding", String (bs "utf8")); (bs "eof", Bool (sl_eof s))])
          | None => FetchNotFound (bs "no stashed body for " ++ r ++ bs " in this task (unknown or evicted)")
          end
      end
  end.

(** * fetch_screen.rs *)

Section FetchScreen.
Context `{UnicodeChar}.
(** [json!] of an [f32] score. *)
Variable f32_value : Z -> Value.

Definition WITHHELD_DATA : bytes := bs "[fetched content withheld: failed injection screen]".

Definition withhold (v : Value) (verdict : InjectionVerdict) : Value :=
  let withheld := [(bs "data", String WITHHELD_DATA); (INJECTION_BLOCKED_KEY, Bool true);
                   (SCORE_KEY, f32_value (iv_score verdict));
                   (REASON_CODES_KEY, Array (map String (iv_reason_codes verdict)))] in
  match v with
  | Object m => Object (fold_left (fun m kv => map_insert kv.1 kv.2 m) withheld m)
  | _ => object withheld
  end.

Definition screen_fetched_data (v : Value) : Value :=
  match get (bs "data") v ≫= as_str with
  | None => v
  | Some data =>
      let verdict := screen_with_profile data Strict in
      match iv_decision verdict with
      | BlockInjection => withhold v verdict
      | Allow => v
      end
  end.
End FetchScreen.

Example lossy_replaces_split : from_utf8_lossy (drop 1 (bs "é€") ++ [0xf0; 0x9f]) = bs "�€�".
Proof. vm_compute. reflexivity. Qed.

(** * Lemmas: the head lies inside the screened text *)

Lemma take_fitting_app gs1 gs2 r : len (concat gs1) <= r -> take_fitting (gs1 ++ gs2) r = concat gs1 ++ take_fitting gs2 (r - len (concat gs1)).
Proof.
  revert r. induction gs1 as [|g gs1 IH]; intros r Hr; cbn [app concat take_fitting].
  - cbn. by rewrite Z.sub_0_r.
  - cbn [concat] in Hr. rewrite len_app in Hr. destruct (Z.leb_spec (len g) r).
    + rewrite IH by (unfold len in *; lia). rewrite len_app, <- app_assoc. do 3 f_equal. lia.
    + unfold len in *. lia.
Qed.

Lemma starts_char_app a b : starts_char a -> starts_char b -> starts_char (a ++ b).
Proof. by destruct a. Qed.

Lemma take_fitting_starts s r : starts_char s -> starts_char (take_fitting (groups s) r).
Proof.
  intros Hs. destruct s as [|c s]; [done|]. destruct (groups_cons c s) as (g & gs & ->). cbn [take_fitting].
  by destruct (len (c :: g) <=? r).
Qed.

(** A cut at a character boundary keeps what the walk keeps, or less. *)
Lemma boundary_take_fitting i s r : is_char_boundary s i = true -> Z.of_nat i <= r -> starts_char s ->
  extends (take i s) (take_fitting (groups s) r).
Proof.
  intros Hb Hr Hs0. destruct i as [|i]; [exists (take_fitting (groups s) r); split; [done|by apply take_fitting_starts]|].
  assert (Hs : starts_char (drop (S i) s)).
  { unfold is_char_boundary in Hb. destruct (s !! S i) as [b|] eqn:E; [by rewrite (drop_S _ _ _ E)|].
    rewrite drop_ge by (by apply lookup_ge_None). done. }
  rewrite <- (take_drop (S i) s) at 2. rewrite groups_app by done.
  assert (Hl : len (concat (groups (take (S i) s))) <= r).
  { rewrite groups_concat. unfold len. rewrite length_take. lia. }
  rewrite take_fitting_app by done. rewrite groups_concat. eexists. split; [done|]. by apply take_fitting_starts.
Qed.

Lemma extends_app o a b : extends a b -> extends (o ++ a) (o ++ b).
Proof. intros (e & -> & He). exists e. by rewrite app_assoc. Qed.

Lemma boundary_extends i s : is_char_boundary s i = true -> (0 < i)%nat -> extends (take i s) s.
Proof.
  intros Hb Hi. exists (drop i s). split; [by rewrite take_drop|]. unfold is_char_boundary in Hb.
  destruct (s !! i) as [b|] eqn:E; [|by rewrite drop_ge by (by apply lookup_ge_None)].
  rewrite (drop_S _ _ _ E). by destruct (Nat.eqb_spec i 0); [lia|].
Qed.

(** The walk only appends whole characters. *)
Definition appends (f : bytes -> bool -> bytes * bool * bool) : Prop := forall out tr, extends out (f out tr).1.1.

Lemma walk_string_appends s cap : starts_char s -> appends (fun out => walk_string s out cap).
Proof.
  intros Hs out tr. unfold walk_string. destruct s as [|c s]; [apply extends_refl|].
  destruct (_ <=? _); cbn [fst]; [eexists; split; [done|by destruct out]|].
  pose proof (take_fitting_starts (c :: s) (Z.max 0 (cap - (len out + len match out with [] => [] | _ => [10] end))) Hs).
  destruct (0 <? _); [rewrite <- app_assoc|]; (eexists; split; [done|]); [by destruct out|done].
Qed.

Lemma walk_items_appends {A} (f : A -> bytes -> bool -> bytes * bool * bool) l :
  Forall (fun x => appends (f x)) l -> appends (walk_items f l).
Proof.
  induction 1 as [|x l Hx _ IH]; intros out tr; cbn [walk_items]; [apply extends_refl|].
  specialize (Hx out tr). destruct (f x out tr) as [[o t] stop]. destruct stop; [done|]. by eapply extends_trans.
Qed.

(** The values of a container are well-formed when it is. *)
Lemma wf_items l : wf_value (Array l) -> Forall wf_value l.
Proof.
  unfold wf_value. cbn [leaves]. induction l as [|x l IH]; cbn [flat_map]; [constructor|].
  intros [H1 H2]%Forall_app. constructor; [done|by apply IH].
Qed.

Lemma wf_fields m : wf_value (Object m) -> Forall (fun kv => wf_value kv.2) m.
Proof.
  unfold wf_value. cbn [leaves]. induction m as [|x m IH]; cbn [flat_map]; [constructor|].
  intros [H1 H2]%Forall_app. constructor; [done|by apply IH].
Qed.

Lemma walk_appends cap v depth : wf_value v -> appends (walk cap v depth).
Proof.
  revert depth. induction v as [| | |s|l IH|m IH] using Value_ind'; intros depth Hwf out tr; cbn [walk];
    destruct (Nat.leb MAX_WALK_DEPTH depth); try apply extends_refl.
  - apply walk_string_appends. by apply (Forall_inv (P := starts_char)) in Hwf.
  - apply walk_items_appends. apply wf_items in Hwf. eapply list.Forall_impl; [apply (proj2 (list.Forall_and _ _) (conj IH Hwf))|].
    cbn. intros x [Hx ?]. by apply Hx.
  - apply walk_items_appends. apply wf_fields in Hwf. eapply list.Forall_impl; [apply (proj2 (list.Forall_and _ _) (conj IH Hwf))|].
    cbn. intros x [Hx ?]. by apply Hx.
Qed.

Section Inside.
(** [cap]: the head's budget; [cap']: the screen's; [U]: how the head is read. *)
Variables (cap cap' U : Z).
Hypothesis Hcap : cap <= cap'.
Hypothesis HU : cap + 3 <= U.

Abbreviation reading := (bytes -> bool -> bytes * bool * bool).

(** A walk that goes on and leaves [o']. *)
Definition leads (f : reading) (o o' : bytes) : Prop := forall tr, exists tr', f o tr = (o', tr', false).

(** Shown next to screened: they agree while the budget lasts; where it ends, what
    is shown, less the mark, is inside what is screened. *)
Definition inside (o : bytes) (used : Z) (stop : bool) (used' : Z) (shown screened : reading) : Prop :=
  if stop then exists p e, (e = [] \/ e = CUT_MARK) /\ (forall tr, (shown o tr).1.1 = p ++ e) /\ forall tr, extends p (screened o tr).1.1
  else exists o', leads shown o o' /\ leads screened o o' /\ len o' <= used' <= cap /\ used <= used'.

Definition stays : reading := fun o tr => (o, tr, false).

Lemma leads_stays o : leads stays o o.
Proof. intros tr. by exists tr. Qed.

Lemma inside_charge node depth o used (screened : reading) :
  len o <= used <= cap -> leads screened o o -> (forall U, leads (walk U node depth) o o) ->
  let '(kept, stop, used') := charge_node node cap used in
  inside o used stop used' (match kept with Some k => walk U k depth | None => stays end) screened /\ (kept = None -> stop = true).
Proof.
  intros Ho Hs Hn. unfold charge_node. destruct (Z.ltb_spec used cap); (split; [|done]); cbn [inside].
  - exists o. split_and!; [apply Hn|done|lia..].
  - exists o, []. split_and!; [by left|by rewrite app_nil_r|]. intros tr. destruct (Hs tr) as [? ->]. apply extends_refl.
Qed.

Lemma inside_string c s depth o used : (MAX_WALK_DEPTH <=? depth)%nat = false -> starts_char (c :: s) -> len o <= used <= cap ->
  let '(kept, stop, used') := head_string (c :: s) cap used in
  inside o used stop used' (match kept with Some k => walk U k depth | None => stays end) (walk cap' (String (c :: s)) depth)
  /\ (kept = None -> stop = true).
Proof.
  intros Hd Hst Ho. unfold head_string. set (sep := if 0 <? used then 1 else 0). set (sepo := match o with [] => [] | _ => [10] end).
  assert (Hsep : len o + len sepo <= used + sep).
  { subst sep sepo. destruct o as [|x o]; [destruct (0 <? used); unfold len in *; cbn in *; lia|].
    destruct (Z.ltb_spec 0 used); unfold len in *; cbn in *; lia. }
  assert (Hw : forall K t, t <> [] -> len o + len sepo + len t <= K -> leads (walk K (String t) depth) o (o ++ sepo ++ t)).
  { intros K t Ht HK tr. exists tr. cbn [walk]. rewrite Hd. unfold walk_string. destruct t as [|x t]; [done|].
    fold sepo. by destruct (Z.leb_spec (len o + len sepo + len (x :: t)) K); [|lia]. }
  destruct (Z.leb_spec (used + sep + len (c :: s)) cap) as [Hfit|Hover].
  { split; [|done]. exists (o ++ sepo ++ c :: s). rewrite !len_app. split_and!; [apply Hw; [done|lia]..|lia|lia|].
    subst sep. unfold len. destruct (0 <? used); lia. }
  set (n := Z.to_nat _). destruct (floor_boundary_ok n (c :: s)) as [Hle Hbd]. specialize (Hbd ltac:(subst n; unfold len in *; lia)).
  set (k := floor_boundary n (c :: s)) in *. destruct ((k =? 0)%nat || is_atomic (c :: s)) eqn:Ek.
  { split; [|done]. exists o, []. split_and!; [by left|intros; cbn; by rewrite app_nil_r|]. intros tr. apply walk_appends. by constructor. }
  apply orb_false_iff in Ek as [Ek%Nat.eqb_neq _]. split; [|done].
  assert (Hk : Z.of_nat k <= cap - (used + sep)) by (subst n; unfold len in *; lia).
  exists (o ++ sepo ++ take k (c :: s)), CUT_MARK. split_and!; [by right| |].
  - intros tr. assert (Hsh : leads (walk U (String (take k (c :: s) ++ CUT_MARK)) depth) o (o ++ sepo ++ take k (c :: s) ++ CUT_MARK)).
    { apply Hw; [by destruct k|]. rewrite len_app. change (len CUT_MARK) with 3. pose proof (length_take (c :: s) k). unfold len in *. lia. }
    destruct (Hsh tr) as [tr' ->]. cbn [fst]. by rewrite <- !app_assoc.
  - intros tr. cbn [walk]. rewrite Hd. unfold walk_string. fold sepo. destruct (Z.leb_spec (len o + len sepo + len (c :: s)) cap').
    + cbn [fst]. apply extends_app, extends_app, boundary_extends; [done|lia].
    + destruct (Z.ltb_spec 0 (Z.max 0 (cap' - (len o + len sepo)))); [|lia]. cbn [fst]. rewrite <- app_assoc.
      apply extends_app, extends_app, boundary_take_fitting; [done|lia|done].
Qed.

Definition seq_reading (f g : reading) : reading := fun o tr =>
  let '(o', t, stop) := f o tr in if stop : bool then (o', t, true) else g o' t.

Lemma leads_seq f g o o1 o2 : leads f o o1 -> leads g o1 o2 -> leads (seq_reading f g) o o2.
Proof. intros Hf Hg tr. unfold seq_reading. destruct (Hf tr) as [t ->]. apply Hg. Qed.

Lemma inside_step o o1 used used1 used2 stop sh sc shrest screst :
  leads sh o o1 -> leads sc o o1 -> used <= used1 ->
  inside o1 used1 stop used2 shrest screst -> inside o used stop used2 (seq_reading sh shrest) (seq_reading sc screst).
Proof.
  intros Hsh Hsc Hu. destruct stop; cbn [inside].
  - intros (p & e & He & H1 & H2). exists p, e. split_and!; [done|intros tr..]; unfold seq_reading.
    + destruct (Hsh tr) as [t ->]. apply H1.
    + destruct (Hsc tr) as [t ->]. apply H2.
  - intros (o' & H1 & H2 & H3 & H4). exists o'. split_and!; [by eapply leads_seq..|lia|lia|lia].
Qed.

Lemma inside_last o used used' sh sc rest : appends rest ->
  inside o used true used' sh sc -> inside o used true used' (seq_reading sh stays) (seq_reading sc rest).
Proof.
  intros Hr (p & e & He & H1 & H2). exists p, e. split_and!; [done|intros tr..]; unfold seq_reading.
  - specialize (H1 tr). by destruct (sh o tr) as [[a b] []].
  - specialize (H2 tr). destruct (sc o tr) as [[a b] []]; [done|]. eapply extends_trans; [exact H2|]. apply Hr.
Qed.

(** What the head makes of one value, read at [depth]. *)
Definition part_inside (depth : nat) (x : Value) (f : Z -> option Value * bool * Z) : Prop := forall o used, len o <= used <= cap ->
  let '(kept, stop, used') := f used in
  inside o used stop used' (match kept with Some k => walk U k depth | None => stays end) (walk cap' x depth) /\ (kept = None -> stop = true).

Lemma inside_nothing o used used' sc : appends sc -> inside o used true used' stays sc.
Proof. intros Hs. exists o, []. split_and!; [by left|intros; by rewrite app_nil_r|]. intros tr. apply Hs. Qed.

Lemma inside_items f depth items : Forall (fun x => part_inside depth x (f x)) items -> Forall wf_value items ->
  forall o used, len o <= used <= cap ->
  let '(out, stop, used') := head_items f items used in
  inside o used stop used' (walk_items (fun x => walk U x depth) out) (walk_items (fun x => walk cap' x depth) items).
Proof.
  induction 1 as [|x items Hx Hall IH]; intros Hwf o used Ho; cbn [head_items].
  { exists o. split_and!; [apply leads_stays..|lia|lia|lia]. }
  specialize (Hx o used Ho). destruct (f x used) as [[kept stop] used1]. destruct Hx as [Hx Hn]. destruct stop.
  - assert (Hm : forall l, Forall wf_value l -> appends (walk_items (fun x : Value => walk cap' x depth) l)).
    { intros l Hl. apply walk_items_appends. eapply list.Forall_impl; [exact Hl|]. intros y. apply walk_appends. }
    destruct kept as [k|]; [|by apply inside_nothing, Hm].
    apply (inside_last o used used1 (walk U k depth) (walk cap' x depth)); [|done]. by apply Hm; inversion Hwf.
  - destruct kept as [k|]; [|by specialize (Hn eq_refl)]. destruct Hx as (o1 & H1 & H2 & H3 & H4).
    specialize (IH ltac:(by inversion Hwf) o1 used1 H3). destruct (head_items f items used1) as [[out stop'] used2]. by apply (inside_step _ o1 _ used1).
Qed.

Lemma inside_fields f depth m : Forall (fun kx => part_inside depth kx.2 (f kx.2)) m -> Forall (fun kx => wf_value kx.2) m ->
  forall o used, len o <= used <= cap ->
  let '(out, stop, used') := head_fields cap f m used in
  inside o used stop used' (walk_items (fun kx => walk U kx.2 depth) out) (walk_items (fun kx => walk cap' kx.2 depth) m).
Proof.
  induction 1 as [|[key x] m Hx Hall IH]; intros Hwf o used Ho; cbn [head_fields].
  { exists o. split_and!; [apply leads_stays..|lia|lia|lia]. }
  assert (Hm : forall l, Forall (fun kx => wf_value kx.2) l -> appends (walk_items (fun kx : bytes * Value => walk cap' kx.2 depth) l)).
  { intros l Hl. apply walk_items_appends. eapply list.Forall_impl; [exact Hl|]. intros y. apply walk_appends. }
  destruct (Z.ltb_spec cap (used + len key)); [by apply inside_nothing, Hm|].
  cbn [snd] in Hx. specialize (Hx o (used + len key) ltac:(unfold len in *; lia)).
  destruct (f x (used + len key)) as [[kept stop] used1]. destruct Hx as [Hx Hn]. destruct stop.
  - destruct kept as [k|]; [|by apply inside_nothing, Hm].
    apply (inside_last o (used + len key) used1 (walk U k depth) (walk cap' x depth)); [|done]. by apply Hm; inversion Hwf.
  - destruct kept as [k|]; [|by specialize (Hn eq_refl)]. destruct Hx as (o1 & H1 & H2 & H3 & H4).
    specialize (IH ltac:(by inversion Hwf) o1 used1 H3). destruct (head_fields cap f m used1) as [[out stop'] used2].
    apply (inside_step _ o1 _ used1); [done..|unfold len in *; lia|done].
Qed.

Lemma head_inside v depth : wf_value v -> part_inside depth v (head_at cap v depth).
Proof.
  revert depth. induction v as [| | |s|l IH|m IH] using Value_ind'; intros depth Hwf o used Ho; cbn [head_at];
    (destruct (Nat.leb MAX_WALK_DEPTH depth) eqn:Hd; [apply inside_charge; [done|intros tr; cbn [walk]; rewrite Hd; by eexists|intros K tr; cbn [walk]; rewrite Hd; by eexists]|]).
  1-3: apply inside_charge; [done|intros tr; cbn [walk]; rewrite Hd; by eexists|intros K tr; cbn [walk]; rewrite Hd; by eexists].
  - destruct s as [|c s]; [|by apply inside_string; [|apply (Forall_inv (P := starts_char)) in Hwf|]].
    apply inside_charge; [done|intros tr; cbn [walk]; rewrite Hd; by eexists|intros K tr; cbn [walk]; rewrite Hd; by eexists].
  - unfold charge_node. destruct (Z.ltb_spec used cap) as [Hlt|]; [|split; [|done]; by apply inside_nothing, walk_appends].
    assert (Hall : Forall (fun x => part_inside (S depth) x (head_at cap x (S depth))) l)
      by (eapply list.Forall_impl; [apply (proj2 (list.Forall_and _ _) (conj IH (wf_items l Hwf)))|]; cbn; intros x [Hx ?]; by apply Hx).
    pose proof (inside_items (fun x => head_at cap x (S depth)) (S depth) l Hall (wf_items l Hwf) o (used + 1) ltac:(lia)) as Hi.
    destruct (head_items _ l (used + 1)) as [[out stop] used2]. split; [|done].
    cbn [walk]. rewrite Hd. destruct stop; [exact Hi|]. destruct Hi as (o' & H1 & H2 & H3 & H4). exists o'. split; [exact H1|split; [exact H2|lia]].
  - unfold charge_node. destruct (Z.ltb_spec used cap) as [Hlt|]; [|split; [|done]; by apply inside_nothing, walk_appends].
    assert (Hall : Forall (fun kx => part_inside (S depth) kx.2 (head_at cap kx.2 (S depth))) m)
      by (eapply list.Forall_impl; [apply (proj2 (list.Forall_and _ _) (conj IH (wf_fields m Hwf)))|]; cbn; intros x [Hx ?]; by apply Hx).
    pose proof (inside_fields (fun x => head_at cap x (S depth)) (S depth) m Hall (wf_fields m Hwf) o (used + 1) ltac:(lia)) as Hi.
    destruct (head_fields cap _ m (used + 1)) as [[out stop] used2]. split; [|done].
    cbn [walk]. rewrite Hd. destruct stop; [exact Hi|]. destruct Hi as (o' & H1 & H2 & H3 & H4). exists o'. split; [exact H1|split; [exact H2|lia]].
Qed.

Lemma screened_head_inside v : 0 <= cap -> wf_value v ->
  exists p e, (e = [] \/ e = CUT_MARK) /\ (extract_scannable_text (screened_head v cap) U).1 = p ++ e /\
    extends p (extract_scannable_text v cap').1.
Proof.
  intros H0 Hwf. pose proof (head_inside v 0 Hwf [] 0 ltac:(unfold len; cbn; lia)) as Hh. unfold screened_head, extract_scannable_text.
  destruct (head_at cap v 0 0) as [[kept stop] used']. destruct Hh as [Hh Hn].
  assert (Hsh : forall tr, (walk U (match kept with Some h => h | None => Null end) 0 [] tr).1.1
    = (match kept with Some k => walk U k 0 | None => stays end [] tr).1.1) by (intros tr; by destruct kept).
  destruct stop.
  - destruct Hh as (p & e & He & H1 & H2). exists p, e. split; [done|]. specialize (H1 false). specialize (H2 false). rewrite <- Hsh in H1.
    destruct (walk U _ 0 [] false) as [[a b] c], (walk cap' v 0 [] false) as [[a' b'] c']. done.
  - destruct Hh as (o' & H1 & H2 & _). exists o', []. split; [by left|]. rewrite app_nil_r.
    specialize (Hsh false). destruct (H1 false) as [t1 E1], (H2 false) as [t2 E2]. rewrite E1 in Hsh. rewrite E2.
    destruct (walk U _ 0 [] false) as [[a b] c]. split; [done|]. apply extends_refl.
Qed.
End Inside.

(** * Lemmas: a part of an allowed text is allowed *)

Lemma round_to_mono q x y : 0 < q -> x <= y -> round_to q x <= round_to q y.
Proof.
  intros Hq Hxy. unfold round_to. pose proof (Z.div_mod x q ltac:(lia)) as Ex. pose proof (Z.mod_pos_bound x q Hq) as Bx.
  pose proof (Z.div_mod y q ltac:(lia)) as Ey. pose proof (Z.mod_pos_bound y q Hq) as By.
  pose proof (Z.div_le_mono x y q Hq Hxy) as Hd.
  destruct (Z.eq_dec (x / q) (y / q)) as [E|Hne].
  - rewrite E in *. destruct (Z.ltb_spec (2 * (x mod q)) q), (Z.ltb_spec (2 * (y mod q)) q),
      (Z.ltb_spec q (2 * (x mod q))), (Z.ltb_spec q (2 * (y mod q))); destruct (Z.even (y / q)); nia.
  - assert (x / q + 1 <= y / q) by lia.
    destruct (Z.ltb_spec (2 * (x mod q)) q), (Z.ltb_spec (2 * (y mod q)) q),
      (Z.ltb_spec q (2 * (x mod q))), (Z.ltb_spec q (2 * (y mod q))); destruct (Z.even (x / q)), (Z.even (y / q)); nia.
Qed.

Lemma round_to_range q n x : 0 < q -> n * q <= x -> n * q <= round_to q x.
Proof.
  intros Hq Hx. unfold round_to. assert (n <= x / q) by (apply Z.div_le_lower_bound; lia).
  destruct (_ <? _); [nia|]. destruct (_ <? _); [nia|]. destruct (Z.even _); nia.
Qed.

Lemma round_to_upper q n x : 0 < q -> x <= n * q -> round_to q x <= n * q.
Proof.
  intros Hq Hx. unfold round_to. pose proof (Z.div_mod x q ltac:(lia)). pose proof (Z.mod_pos_bound x q Hq).
  assert (x / q <= n) by (apply Z.div_le_upper_bound; lia).
  destruct (Z.eq_dec (x / q) n) as [E|]; [assert (x mod q = 0) as -> by nia; destruct (Z.ltb_spec (2 * 0) q); [nia|lia]|].
  destruct (_ <? _); [nia|]. destruct (_ <? _); [nia|]. destruct (Z.even _); nia.
Qed.

Lemma f32_add_mono a b w : a <= b -> f32_add a w <= f32_add b w.
Proof.
  intros Hab. unfold f32_add.
  destruct (Z.ltb_spec (a + w) 16777216), (Z.ltb_spec (b + w) 16777216); try lia.
  - destruct (Z.ltb_spec (b + w) 33554432);
      [pose proof (round_to_range 2 8388608 (b + w))|pose proof (round_to_range 4 4194304 (b + w))]; lia.
  - destruct (Z.ltb_spec (a + w) 33554432), (Z.ltb_spec (b + w) 33554432); try lia.
    + apply round_to_mono; lia.
    + pose proof (round_to_range 4 8388608 (b + w)). pose proof (round_to_upper 2 16777216 (a + w)). lia.
    + apply round_to_mono; lia.
Qed.

Lemma add_capped_mono a b w : a <= b -> f32_min (f32_add a w) f32_one <= f32_min (f32_add b w) f32_one.
Proof. intros Hab. pose proof (f32_add_mono a b w Hab). unfold f32_min. lia. Qed.

Section ScreenMono.
Context `{UnicodeChar}.

(** Two scans in step: the score and the chat flag of the second are no lower. *)
Lemma scan_mono profile n1 n2 rules a1 a2 cl1 cl2 h1 h2 :
  (forall r, r ∈ rules -> 4 <= r_weight r) -> (forall r, r ∈ rules -> contains (r_pattern r) n1 = true -> contains (r_pattern r) n2 = true) ->
  a1 <= a2 <= f32_one -> (h1 = true -> h2 = true) ->
  let '(s1, _, c1) := scan profile n1 rules a1 cl1 h1 in
  let '(s2, _, c2) := scan profile n2 rules a2 cl2 h2 in s1 <= s2 <= f32_one /\ (c1 = true -> c2 = true).
Proof.
  revert a1 a2 cl1 cl2 h1 h2. induction rules as [|r rules IH]; intros a1 a2 cl1 cl2 h1 h2 Hw Hc Ha Hh; cbn [scan]; [done|].
  assert (Hw' : forall r', r' ∈ rules -> 4 <= r_weight r') by (intros; by apply Hw, list_elem_of_further).
  assert (Hc' : forall r', r' ∈ rules -> contains (r_pattern r') n1 = true -> contains (r_pattern r') n2 = true)
    by (intros r' ?; by apply Hc, list_elem_of_further).
  specialize (Hw r (list_elem_of_here _ _)). specialize (Hc r (list_elem_of_here _ _)).
  assert (Hone : forall a, f32_min a f32_one <= f32_one) by (intros; unfold f32_min; lia).
  destruct (contains (r_pattern r) n1).
  - rewrite Hc by done. destruct profile; [|destruct (r_chat_template r)];
      apply IH; try done; (split; [apply add_capped_mono; lia|apply Hone]).
  - assert (Hup : a1 <= f32_min (f32_add a2 (r_weight r)) f32_one) by (apply add_capped_ge; lia).
    destruct (contains (r_pattern r) n2); [|by apply IH].
    destruct profile; [|destruct (r_chat_template r)]; apply IH; try done; (split; [done|apply Hone]).
Qed.

Lemma screen_of_part p text profile : extends p text ->
  iv_decision (screen_with_profile text profile) = Allow -> iv_decision (screen_with_profile p profile) = Allow.
Proof.
  intros (e & -> & He). unfold screen_with_profile.
  assert (Hcat : forall r, r ∈ CATALOGUE -> contains (r_pattern r) (normalize p) = true -> contains (r_pattern r) (normalize (p ++ e)) = true).
  { intros r _ Hp. rewrite normalize_app by done. by apply (contains_embed _ []). }
  pose proof (scan_mono profile (normalize p) (normalize (p ++ e)) CATALOGUE 0 0 [] [] false false catalogue_weights Hcat ltac:(unfold f32_one; lia) ltac:(done)) as Hs.
  destruct (scan profile (normalize p) _ _ _ _) as [[s1 c1] h1], (scan profile (normalize (p ++ e)) _ _ _ _) as [[s2 c2] h2].
  destruct Hs as [Hs Hh]. cbn [iv_decision]. unfold decision_for_score.
  set (t1 := if h1 then _ else s1). set (t2 := if h2 then _ else s2).
  assert (Ht : t1 <= t2).
  { subst t1 t2. destruct h1; [rewrite Hh by done; apply add_capped_mono; lia|]. destruct h2; [|lia].
    apply add_capped_ge; [vm_compute; by intros [=]|lia|lia]. }
  destruct (Z.leb_spec BLOCK_THRESHOLD t1), (Z.leb_spec BLOCK_THRESHOLD t2); try done; lia.
Qed.
End ScreenMono.

(** * Lemmas: the cache *)

Definition total_of (m : gmap bytes bytes) : Z := map_fold (fun _ b acc => len b + acc) 0 m.

Lemma total_of_insert r b m : m !! r = None -> total_of (<[r := b]> m) = len b + total_of m.
Proof. intros Hr. unfold total_of. by rewrite (map_fold_insert_L (fun _ b acc => len b + acc)) by (intros; lia || done). Qed.

Lemma total_of_delete r b m : m !! r = Some b -> total_of m = len b + total_of (delete r m).
Proof. intros Hr. unfold total_of. apply (map_fold_delete_L (fun _ b acc => len b + acc)); [intros; lia|done]. Qed.

Lemma total_of_nonneg m : 0 <= total_of m.
Proof. unfold total_of. induction m as [|r b m Hr IH] using map_ind; [by rewrite map_fold_empty|]. rewrite (map_fold_insert_L (fun _ b acc => len b + acc)) by (intros; lia || done). unfold len in *. lia. Qed.

Section CacheLemmas.
Context `{Sha256}.

(** The bodies of a task: listed once each, oldest first, under their digests,
    their lengths added up; [budget] bounds them unless there is only one. *)
Record bucket_ok (b : TaskBucket) : Prop := {
  bo_nodup : NoDup (tb_order b);
  bo_listed : forall r, r ∈ tb_order b <-> is_Some (tb_map b !! r);
  bo_total : tb_total b = total_of (tb_map b);
  bo_refs : forall r body, tb_map b !! r = Some body -> r = handoff_ref_of body;
  bo_budget : tb_total b <= PER_TASK_BYTE_BUDGET \/ length (tb_order b) = 1%nat }.

Record cache_ok (c : HandoffCache) : Prop := {
  co_nodup : NoDup (hc_order c);
  co_listed : forall t, t ∈ hc_order c <-> is_Some (hc_buckets c !! t);
  co_count : (length (hc_order c) <= MAX_TRACKED_TASKS)%nat;
  co_buckets : forall t b, hc_buckets c !! t = Some b -> bucket_ok b }.

Lemma evict_ok order m total : NoDup order -> (forall r, r ∈ order <-> is_Some (m !! r)) -> total = total_of m ->
  (forall r body, m !! r = Some body -> r = handoff_ref_of body) -> bucket_ok (evict order m total).
Proof.
  revert m total. induction order as [|r order IH]; intros m total Hnd Hl Ht Hr.
  { split; cbn; [done..|]. left. assert (m = ∅) as ->.
    { apply map_empty. intros i. apply eq_None_not_Some. rewrite <- Hl. apply not_elem_of_nil. }
    rewrite Ht. unfold total_of. rewrite map_fold_empty. unfold PER_TASK_BYTE_BUDGET. lia. }
  cbn [evict]. destruct order as [|r2 order]; [split; cbn; try done; by right|].
  destruct (Z.ltb_spec PER_TASK_BYTE_BUDGET total); [|split; cbn; try done; by left].
  apply list.NoDup_cons in Hnd as [Hni Hnd]. destruct (proj1 (Hl r) ltac:(apply list_elem_of_here)) as [b Hb]. rewrite Hb.
  apply IH; [done| | |].
  - intros r'. destruct (decide (r' = r)) as [->|Hne].
    + rewrite lookup_delete_eq. split; [done|]. by intros [? [=]].
    + rewrite lookup_delete_ne by done. rewrite <- Hl. rewrite (elem_of_cons (r2 :: order)). naive_solver.
  - rewrite Ht, (total_of_delete r b m Hb). lia.
  - intros r' body [_ Hr']%lookup_delete_Some. by apply Hr.
Qed.

(** The body just stashed is never evicted. *)
Lemma evict_keeps_last order r m total : r ∉ order -> tb_map (evict (order ++ [r]) m total) !! r = m !! r.
Proof.
  revert m total. induction order as [|r0 order IH]; intros m total Hni; [done|].
  apply not_elem_of_cons in Hni as [Hne Hni]. cbn [app evict].
  destruct (order ++ [r]) as [|r2 rest] eqn:E; [by destruct order|]. rewrite <- E in *.
  destruct (_ <? _); [|done]. destruct (m !! r0) as [b|]; [|by apply IH].
  rewrite IH by done. by apply lookup_delete_ne.
Qed.

Lemma evict_tasks_ok order buckets : NoDup order -> (forall t, t ∈ order <-> is_Some (buckets !! t)) ->
  (forall t b, buckets !! t = Some b -> bucket_ok b) -> cache_ok (evict_tasks order buckets).
Proof.
  revert buckets. induction order as [|v order IH]; intros buckets Hnd Hl Hb; cbn [evict_tasks].
  { split; cbn; [done..|unfold MAX_TRACKED_TASKS; lia|done]. }
  destruct (Nat.ltb_spec MAX_TRACKED_TASKS (length (v :: order))); [|by split].
  apply list.NoDup_cons in Hnd as [Hni Hnd]. apply IH; [done| |by intros t b [_ ?]%lookup_delete_Some; eapply Hb].
  intros t. destruct (decide (t = v)) as [->|Hne].
  - rewrite lookup_delete_eq. split; [done|]. by intros [? [=]].
  - rewrite lookup_delete_ne by done. rewrite <- Hl. rewrite elem_of_cons. naive_solver.
Qed.

Lemma evict_tasks_keeps_last order t buckets : t ∉ order -> hc_buckets (evict_tasks (order ++ [t]) buckets) !! t = buckets !! t.
Proof.
  revert buckets. induction order as [|v order IH]; intros buckets Hni; cbn [app evict_tasks].
  { destruct (Nat.ltb_spec MAX_TRACKED_TASKS (length [t])) as [Hlt|]; [|done]. unfold MAX_TRACKED_TASKS in Hlt. cbn [length] in Hlt. lia. }
  apply not_elem_of_cons in Hni as [Hne Hni]. destruct (_ <? _)%nat; [|done]. rewrite IH by done. by apply lookup_delete_ne.
Qed.

(** No operation on one task changes what another has, short of evicting it. *)
Lemma evict_tasks_sub order buckets t b : hc_buckets (evict_tasks order buckets) !! t = Some b -> buckets !! t = Some b.
Proof.
  revert buckets. induction order as [|v order IH]; intros buckets; cbn [evict_tasks]; [done|].
  destruct (_ <? _)%nat; [|done]. intros [_ Hd]%IH%lookup_delete_Some. done.
Qed.

Lemma evict_sub order m total r body : tb_map (evict order m total) !! r = Some body -> m !! r = Some body.
Proof.
  revert m total. induction order as [|r0 order IH]; intros m total; cbn [evict]; [done|].
  destruct order as [|r2 order]; [done|]. destruct (_ <? _); [|done].
  destruct (m !! r0); intros Hd%IH; [by apply lookup_delete_Some in Hd as [_ ?]|done].
Qed.

Lemma fresh_bucket_ok : bucket_ok fresh_bucket.
Proof.
  split; cbn; [constructor| |done|done|left; unfold PER_TASK_BYTE_BUDGET; lia].
  intros r. rewrite lookup_empty. split; [by intros Hr%not_elem_of_nil|by intros [? [=]]].
Qed.

Lemma default_bucket_ok c t : cache_ok c -> bucket_ok (default fresh_bucket (hc_buckets c !! t)).
Proof. intros Hc. destruct (hc_buckets c !! t) eqn:E; [by eapply (co_buckets c Hc)|apply fresh_bucket_ok]. Qed.

Lemma put_ok t body c : cache_ok c -> cache_ok (put t body c).2.
Proof.
  intros Hc. unfold put. set (r := handoff_ref_of body). pose proof (default_bucket_ok c t Hc) as Hb.
  set (b := default fresh_bucket (hc_buckets c !! t)) in *. destruct (tb_map b !! r) as [old|] eqn:Er; [done|]. cbn [snd].
  assert (Hni : r ∉ tb_order b) by (rewrite (bo_listed b Hb), Er; by intros [? [=]]).
  set (b' := evict _ _ _). assert (Hb' : bucket_ok b').
  { apply evict_ok.
    - apply list.NoDup_app. split_and!; [apply Hb| |apply list.NoDup_singleton]. intros x Hx ->%list_elem_of_singleton. done.
    - intros r'. rewrite elem_of_app, list_elem_of_singleton, (bo_listed b Hb). destruct (decide (r' = r)) as [->|Hne].
      + rewrite lookup_insert_eq. naive_solver.
      + rewrite lookup_insert_ne by done. naive_solver.
    - rewrite total_of_insert by done. rewrite (bo_total b Hb). lia.
    - intros r' body' [[<- <-]|[_ Hr']]%lookup_insert_Some; [done|by apply (bo_refs b Hb)]. }
  assert (Hall : forall t0 b0, <[t := b']> (hc_buckets c) !! t0 = Some b0 -> bucket_ok b0).
  { intros t0 b0 [[<- <-]|[_ Ht]]%lookup_insert_Some; [done|by eapply (co_buckets c Hc)]. }
  destruct (hc_buckets c !! t) as [b0|] eqn:Et.
  - split; cbn; [apply Hc| |apply Hc|done]. intros t0. rewrite (co_listed c Hc). destruct (decide (t0 = t)) as [->|Hne].
    + rewrite lookup_insert_eq, Et. naive_solver.
    + by rewrite lookup_insert_ne.
  - assert (Hnt : t ∉ hc_order c) by (rewrite (co_listed c Hc), Et; by intros [? [=]]).
    apply evict_tasks_ok; [| |done].
    + apply list.NoDup_app. split_and!; [apply Hc| |apply list.NoDup_singleton]. intros x Hx ->%list_elem_of_singleton. done.
    + intros t0. rewrite elem_of_app, list_elem_of_singleton, (co_listed c Hc). destruct (decide (t0 = t)) as [->|Hne].
      * rewrite lookup_insert_eq. naive_solver.
      * rewrite lookup_insert_ne by done. naive_solver.
Qed.

Lemma purge_ok t c : cache_ok c -> cache_ok (purge_task t c).
Proof.
  intros Hc. split; cbn.
  - apply list.NoDup_filter, Hc.
  - intros t0. rewrite list_elem_of_filter, (co_listed c Hc). destruct (decide (t0 = t)) as [->|Hne].
    + rewrite lookup_delete_eq. split; [by intros [? _]|by intros [? [=]]].
    + rewrite lookup_delete_ne by done. naive_solver.
  - etransitivity; [apply length_filter|apply Hc].
  - intros t0 b [_ Hb]%lookup_delete_Some. by eapply (co_buckets c Hc).
Qed.

(** The body just stashed is there. *)
Lemma put_stored t body c : cache_ok c ->
  exists b body', hc_buckets (put t body c).2 !! t = Some b /\ tb_map b !! handoff_ref_of body = Some body' /\
    (body' = body \/ exists b0, hc_buckets c !! t = Some b0 /\ tb_map b0 !! handoff_ref_of body = Some body').
Proof.
  intros Hc. unfold put. set (r := handoff_ref_of body). pose proof (default_bucket_ok c t Hc) as Hb.
  set (b := default fresh_bucket (hc_buckets c !! t)) in *. destruct (tb_map b !! r) as [old|] eqn:Er.
  { cbn [snd]. destruct (hc_buckets c !! t) as [b0|] eqn:Et; [|done]. exists b0, old. split_and!; [done..|]. right. by exists b0. }
  assert (Hni : r ∉ tb_order b) by (rewrite (bo_listed b Hb), Er; by intros [? [=]]).
  exists (evict (tb_order b ++ [r]) (<[r := body]> (tb_map b)) (tb_total b + len body)), body. cbn [snd]. split_and!; [|by rewrite evict_keeps_last, lookup_insert_eq|by left].
  destruct (hc_buckets c !! t) as [b0|] eqn:Et; [cbn [hc_buckets]; by rewrite lookup_insert_eq|].
  rewrite evict_tasks_keeps_last, lookup_insert_eq; [done|]. rewrite (co_listed c Hc), Et. by intros [? [=]].
Qed.
End CacheLemmas.

(** * Histories of the cache *)

Inductive CacheOp := CPut (task_id : Z) (body : bytes) | CPurge (task_id : Z).

Section Histories.
Context `{Sha256}.

Definition apply_cache (c : HandoffCache) (o : CacheOp) : HandoffCache :=
  match o with CPut t body => (put t body c).2 | CPurge t => purge_task t c end.

Definition cache_after (l : list CacheOp) : HandoffCache := fold_left apply_cache l empty_cache.

Lemma cache_after_ok l : cache_ok (cache_after l).
Proof.
  unfold cache_after. assert (H0 : cache_ok empty_cache).
  { split; cbn; [constructor| |unfold MAX_TRACKED_TASKS; lia|done].
    intros t. rewrite lookup_empty. split; [by intros Ht%not_elem_of_nil|by intros [? [=]]]. }
  revert H0. generalize empty_cache. induction l as [|o l IH]; intros c Hc; [done|]. cbn [fold_left]. apply IH.
  destruct o; [by apply put_ok|by apply purge_ok].
Qed.

(** [body] was stashed for [t] and the task has not been purged since. *)
Definition stashed_for (l : list CacheOp) (t : Z) (body : bytes) : Prop :=
  exists l1 l2, l = l1 ++ CPut t body :: l2 /\ CPurge t ∉ l2.

Lemma stashed_snoc l t body o : o <> CPurge t -> stashed_for l t body -> stashed_for (l ++ [o]) t body.
Proof.
  intros Ho (l1 & l2 & -> & Hp). exists l1, (l2 ++ [o]). rewrite <- app_assoc. split; [done|].
  rewrite elem_of_app, list_elem_of_singleton. naive_solver.
Qed.

Lemma stored_was_stashed l t b r body : hc_buckets (cache_after l) !! t = Some b -> tb_map b !! r = Some body ->
  r = handoff_ref_of body /\ stashed_for l t body.
Proof.
  intros Hb Hr. split; [apply (bo_refs b (co_buckets _ (cache_after_ok l) t b Hb) r body Hr)|].
  revert b Hb Hr. induction l as [|o l IH] using rev_ind; intros b Hb Hr; [done|].
  unfold cache_after in Hb. rewrite fold_left_app in Hb. fold (cache_after l) in Hb. cbn [fold_left] in Hb. destruct o as [t0 body0|t0]; cbn [apply_cache] in Hb.
  - assert (Hs : (t0 = t /\ body0 = body) \/ exists b0, hc_buckets (cache_after l) !! t = Some b0 /\ tb_map b0 !! r = Some body).
    { unfold put in Hb. set (b1 := default fresh_bucket (hc_buckets (cache_after l) !! t0)) in *.
      destruct (tb_map b1 !! handoff_ref_of body0) eqn:Eo; [right; by exists b|]. cbn [snd] in Hb.
      assert (Hins : <[t0 := evict (tb_order b1 ++ [handoff_ref_of body0]) (<[handoff_ref_of body0 := body0]> (tb_map b1)) (tb_total b1 + len body0)]>
                       (hc_buckets (cache_after l)) !! t = Some b)
        by (destruct (hc_buckets (cache_after l) !! t0); [done|by apply evict_tasks_sub in Hb]).
      apply lookup_insert_Some in Hins as [[-> <-]|[Hne Ht]]; [|right; by exists b].
      apply evict_sub, lookup_insert_Some in Hr as [[_ ->]|[_ Hr]]; [by left|]. right. subst b1.
      destruct (hc_buckets (cache_after l) !! t) as [b0|]; [by exists b0|done]. }
    destruct Hs as [[-> ->]|(b0 & Hb0 & Hr0)]; [exists l, []; split; [done|apply not_elem_of_nil]|].
    apply stashed_snoc; [done|]. by apply (IH b0).
  - unfold purge_task in Hb. cbn [hc_buckets] in Hb. apply lookup_delete_Some in Hb as [Hne Hb]. apply stashed_snoc; [congruence|]. by apply (IH b).
Qed.

(** C34. The cache keeps its budgets: after any history of stashes and purges at
    most [MAX_TRACKED_TASKS] tasks have bodies in it, and the bodies of each task
    add up to at most [PER_TASK_BYTE_BUDGET] bytes unless it is a single larger
    one; the running total is exact and every body is listed once under its own
    digest. *)
Theorem handoff_cache_is_bounded l : cache_ok (cache_after l).
Proof. apply cache_after_ok. Qed.

Lemma slice_of_stash l t r offset count s :
  0 <= offset -> 0 <= count ->
  get_slice t r offset count (cache_after l) = Some s ->
  exists body, stashed_for l t body /\ r = handoff_ref_of body /\ (len (sl_bytes s) <= count) /\
    exists before after, body = before ++ sl_bytes s ++ after /\ (len body <= offset \/ len before = offset) /\
      (sl_eof s = true -> after = []).
Proof.
  intros Ho Hc Hs. unfold get_slice in Hs.
  destruct (hc_buckets (cache_after l) !! t) as [b|] eqn:Eb; [|done]. cbn [mbind option_bind] in Hs.
  destruct (tb_map b !! r) as [body|] eqn:Er; [|done]. cbn [mbind option_bind] in Hs. injection Hs as <-.
  destruct (stored_was_stashed l t b r body Eb Er) as [Href Hst]. exists body. cbn [sl_bytes sl_eof].
  set (start := Z.min offset (len body)). set (end_ := Z.min (Z.min (offset + count) USIZE_MAX) (len body)).
  split_and!; [done..| |].
  - unfold len. rewrite length_take, length_drop. subst start end_. unfold len in *. lia.
  - exists (take (Z.to_nat start) body), (drop (Z.to_nat (end_ - start)) (drop (Z.to_nat start) body)).
    rewrite !take_drop. split_and!; [done| |].
    + unfold len. rewrite length_take. subst start. unfold len. lia.
    + intros He%Z.leb_le. apply nil_length_inv. rewrite !length_drop. subst start end_. unfold len in *. lia.
Qed.

(** A task reads only its own stash: whatever was stashed and purged before,
    a slice served to a task is a run of bytes of a body that was stashed for that
    very task, under the digest asked for, and not purged since. *)
Theorem served_slice_belongs_to_task l t r offset count s :
  0 <= offset -> 0 <= count ->
  get_slice t r offset count (cache_after l) = Some s ->
  exists body, stashed_for l t body /\ r = handoff_ref_of body /\ (len (sl_bytes s) <= count) /\
    exists before after, body = before ++ sl_bytes s ++ after /\ (len body <= offset \/ len before = offset) /\
      (sl_eof s = true -> after = []).
Proof. apply slice_of_stash. Qed.

(** Reading page after page until the end of the body. *)
Fixpoint read_pages (fuel : nat) (t : Z) (r : bytes) (offset page : Z) (c : HandoffCache) : option bytes :=
  match fuel with
  | O => None
  | S fuel' =>
      s ← get_slice t r offset page c;
      if sl_eof s then Some (sl_bytes s)
      else rest ← read_pages fuel' t r (offset + len (sl_bytes s)) page c; Some (sl_bytes s ++ rest)
  end.

Lemma read_pages_body fuel t r offset page c b body : hc_buckets c !! t = Some b -> tb_map b !! r = Some body ->
  0 < page -> len body <= USIZE_MAX -> 0 <= offset <= len body -> len body - offset < Z.of_nat fuel ->
  read_pages fuel t r offset page c = Some (drop (Z.to_nat offset) body).
Proof.
  intros Hb Hr Hp Hu. revert offset. induction fuel as [|fuel IH]; intros offset Ho Hf; [lia|]. cbn [read_pages].
  unfold get_slice at 1. rewrite Hb. cbn [mbind option_bind]. rewrite Hr. cbn [mbind option_bind sl_eof sl_bytes].
  set (end_ := Z.min (Z.min (offset + page) USIZE_MAX) (len body)). replace (Z.min offset (len body)) with offset by lia.
  destruct (Z.leb_spec (len body) end_) as [He|He].
  - f_equal. apply take_ge. rewrite length_drop. unfold len in *. lia.
  - assert (Hl : len (take (Z.to_nat (end_ - offset)) (drop (Z.to_nat offset) body)) = page).
    { unfold len in *. rewrite length_take, length_drop. lia. }
    rewrite Hl, IH by lia. cbn [mbind option_bind]. f_equal.
    rewrite <- (take_drop (Z.to_nat (end_ - offset)) (drop (Z.to_nat offset) body)) at 2. f_equal.
    rewrite drop_drop. f_equal. unfold len in *. lia.
Qed.

(** A stashed result can be read back whole: after any history, a result over
    the cap is stashed under a reference that the placeholder names, and reading
    that reference page by page, with any page size, returns exactly its JSON
    text, unless the task already holds a different body with the same digest. *)
Theorem stashed_result_reads_back l t v cap st c' page :
  len (to_string v) <= USIZE_MAX -> 0 < page ->
  (forall b body, hc_buckets (cache_after l) !! t = Some b -> tb_map b !! handoff_ref_of (to_string v) = Some body -> body = to_string v) ->
  stash_if_oversized t v cap (cache_after l) = (Some st, c') ->
  cap < so_byte_len st /\ get (bs "handoff_ref") (so_placeholder st) = Some (String (so_handoff_ref st)) /\
  read_pages (S (length (to_string v))) t (so_handoff_ref st) 0 page c' = Some (to_string v).
Proof.
  intros Hu Hp Hcol. unfold stash_if_oversized. destruct (Z.leb_spec (len (to_string v)) cap); [done|].
  destruct (put_stored t (to_string v) (cache_after l) (cache_after_ok l)) as (b & body & Hb & Hbody & Hor).
  assert (Hr : (put t (to_string v) (cache_after l)).1 = handoff_ref_of (to_string v))
    by (unfold put; cbv zeta; destruct (tb_map (default fresh_bucket _) !! _); reflexivity).
  destruct (put t (to_string v) (cache_after l)) as [r c1]. cbn [fst snd] in *. subst r. intros [= <- <-].
  cbn [so_byte_len so_placeholder so_handoff_ref]. split_and!; [done|reflexivity|].
  assert (body = to_string v) as ->.
  { destruct Hor as [->|(b0 & Hb0 & Hr0)]; [done|by eapply Hcol]. }
  rewrite (read_pages_body _ _ _ 0 page c1 b (to_string v)); [done|done..| |]; unfold len; lia.
Qed.
End Histories.

(** * What the planner is shown *)

Section Shown.
Context `{UnicodeChar}.

(** The head of a stashed result shows only screened text.  When the text the
    output screen reads of a result, at its byte cap, passed, then the text of the
    summary head the planner sees in its place, but for the mark of a cut, is a
    part of that screened text that begins where it begins and ends between two of
    its characters, and it passes the screen by itself. *)
Theorem summary_head_is_screened v profile :
  wf_value v ->
  iv_decision (screen_with_profile (extract_scannable_text v SCAN_BYTE_CAP).1 profile) = Allow ->
  exists head p e, get (bs "summary_head") (build_handoff_placeholder v (bs "r") 0) = Some head /\
    (extract_scannable_text head USIZE_MAX).1 = p ++ e /\ (e = [] \/ e = CUT_MARK) /\
    extends p (extract_scannable_text v SCAN_BYTE_CAP).1 /\
    iv_decision (screen_with_profile p profile) = Allow.
Proof.
  intros Hwf Ha. exists (screened_head v (Z.of_nat SUMMARY_HEAD_BYTES)).
  destruct (screened_head_inside (Z.of_nat SUMMARY_HEAD_BYTES) SCAN_BYTE_CAP USIZE_MAX ltac:(done) ltac:(done) v ltac:(done) Hwf)
    as (p & e & He & Hx & Hext).
  exists p, e. split_and!; [reflexivity|done..|]. by eapply screen_of_part.
Qed.

Lemma chars_ascii s : Forall (fun c => 0 <= c < 128) s -> chars s = s.
Proof.
  intros Hs. unfold chars. assert (Hg : groups s = map (fun c => [c]) s).
  { induction Hs as [|c s Hc Hs IH]; [done|]. cbn [groups map]. rewrite IH. destruct s as [|d s]; [done|]. cbn [map].
    inversion Hs; subst. by rewrite is_ascii_start. }
  rewrite Hg, map_map. cbn. by rewrite map_id.
Qed.

Lemma normalize_ascii s : Forall (fun c => 0 <= c < 128) s -> normalize s = map ascii_lower (filter (fun c => c ∉ zero_width) s).
Proof.
  intros Hs. unfold normalize. rewrite chars_ascii by done. induction Hs as [|c s Hc Hs IH]; [done|].
  rewrite !filter_cons. destruct (decide _); [|done]. cbn [flat_map map]. rewrite char_lower_ascii by done. cbn [app]. by rewrite IH.
Qed.

Lemma ascii_forall s : forallb (fun c => (0 <=? c) && (c <? 128)) s = true -> Forall (fun c => 0 <= c < 128) s.
Proof. rewrite forallb_forall, list.Forall_forall. intros Hs c Hc. apply list_elem_of_In in Hc. specialize (Hs c Hc). lia. Qed.

Lemma screen_ascii s profile : forallb (fun c => (0 <=? c) && (c <? 128)) s = true ->
  iv_decision (screen_with_profile s profile) = iv_decision (@screen_with_profile ascii_char s profile).
Proof.
  intros Hs%ascii_forall. unfold screen_with_profile. rewrite (normalize_ascii s Hs).
  assert (@normalize ascii_char s = map ascii_lower (filter (fun c => c ∉ zero_width) s)) as ->; [|done].
  unfold normalize. rewrite chars_ascii by done. generalize (filter (fun c => c ∉ zero_width) s). intros l. clear.
  induction l as [|c l IH]; [done|]. cbn [flat_map map]. rewrite IH. reflexivity.
Qed.

Lemma fetched_data_spec f32_value v :
  (forall d, (get (bs "data") (screen_fetched_data f32_value v) ≫= as_str) = Some d ->
    iv_decision (screen_with_profile d Strict) = Allow /\ (d = WITHHELD_DATA \/ get (bs "data") v = Some (String d))) /\
  (forall k x, k ∈ [bs "handoff_ref"; bs "offset"; bs "len"; bs "encoding"; bs "eof"] -> get k v = Some x ->
    get k (screen_fetched_data f32_value v) = Some x).
Proof.
  unfold screen_fetched_data. destruct (get (bs "data") v ≫= as_str) as [data|] eqn:Ed.
  2: { split; [intros d Hd; by rewrite Ed in Hd|done]. }
  destruct (get (bs "data") v) as [dv|] eqn:Eg; [|done]. destruct dv; try done. injection Ed as ->.
  destruct (iv_decision (screen_with_profile data Strict)) eqn:Ev.
  { split; [|done]. intros d. rewrite Eg. intros [= <-]. split; [done|by right]. }
  destruct v as [| | | | |m]; try done. unfold withhold. cbn [get] in *. cbn [fold_left fst snd].
  assert (Hk : forall k, k <> REASON_CODES_KEY -> k <> SCORE_KEY -> k <> INJECTION_BLOCKED_KEY -> forall a b c d,
    map_get k (map_insert REASON_CODES_KEY a (map_insert SCORE_KEY b (map_insert INJECTION_BLOCKED_KEY c (map_insert (bs "data") d m))))
    = map_get k (map_insert (bs "data") d m)).
  { intros k H3 H4 H5 a b c d. do 3 (rewrite map_get_insert_ne by done). done. }
  split.
  - intros d. rewrite Hk by done. rewrite map_get_insert. intros [= <-]. split; [|by left].
    rewrite screen_ascii by (vm_compute; reflexivity). vm_compute. reflexivity.
  - intros k x Hin Hx. rewrite list_elem_of_In in Hin. cbn [In] in Hin.
    rewrite Hk by (destruct Hin as [<-|[<-|[<-|[<-|[<-|[]]]]]]; done).
    rewrite map_get_insert_ne by (destruct Hin as [<-|[<-|[<-|[<-|[<-|[]]]]]]; done). done.
Qed.

(** A fetched slice reaches the planner screened: whatever a fetch answered,
    the [data] the planner gets passes the strict screen; it is the fetched text or
    the withheld notice, and every other field of the answer is kept. *)
Theorem fetched_data_is_screened f32_value v :
  (forall d, (get (bs "data") (screen_fetched_data f32_value v) ≫= as_str) = Some d ->
    iv_decision (screen_with_profile d Strict) = Allow /\ (d = WITHHELD_DATA \/ get (bs "data") v = Some (String d))) /\
  (forall k x, k ∈ [bs "handoff_ref"; bs "offset"; bs "len"; bs "encoding"; bs "eof"] -> get k v = Some x ->
    get k (screen_fetched_data f32_value v) = Some x).
Proof. apply fetched_data_spec. Qed.
End Shown.

(** * Witnesses *)

Definition handoff_demo_result : Value := object [(bs "title", String (bs "a hit")); (bs "body", String (bs "x xx xxx"))].

Lemma served_slice_belongs_to_task_witness :
  exists body, stashed_for [CPurge 7; CPut 7 (bs "stashed body")] 7 body /\ len (bs "body") <= 9.
Proof.
  destruct (get_slice 7 (handoff_ref_of (bs "stashed body")) 8 9 (cache_after [CPurge 7; CPut 7 (bs "stashed body")])) as [s|] eqn:E;
    [|vm_compute in E; discriminate E].
  destruct (served_slice_belongs_to_task [CPurge 7; CPut 7 (bs "stashed body")] 7 (handoff_ref_of (bs "stashed body")) 8 9 s
              ltac:(lia) ltac:(lia) E) as (body & Hst & _ & Hl & _).
  exists body. split; [exact Hst|]. vm_compute in E. injection E as <-. exact Hl.
Defined.

Lemma stashed_result_reads_back_witness :
  exists st c1, stash_if_oversized 7 handoff_demo_result 10 (cache_after []) = (Some st, c1) /\ read_pages (S (length (to_string handoff_demo_result))) 7 (so_handoff_ref st) 0 5 c1 = Some (to_string handoff_demo_result).
Proof.
  destruct (stash_if_oversized 7 handoff_demo_result 10 (cache_after [])) as [[st|] c1] eqn:E; [|vm_compute in E; discriminate E].
  exists st, c1. split; [reflexivity|].
  apply (stashed_result_reads_back [] 7 handoff_demo_result 10 st c1 5); [vm_compute; discriminate|lia| |exact E].
  intros b body Hb. vm_compute in Hb. discriminate Hb.
Defined.

Lemma summary_head_is_screened_witness :
  exists head p e, get (bs "summary_head") (build_handoff_placeholder handoff_demo_result (bs "r") 0) = Some head /\ (extract_scannable_text head USIZE_MAX).1 = p ++ e.
Proof.
  destruct (summary_head_is_screened handoff_demo_result Strict) as (head & p & e & H1 & H2 & _).
  - unfold wf_value. vm_compute. repeat constructor.
  - vm_compute. reflexivity.
  - exists head, p, e. split; [exact H1|exact H2].
Defined.
