(* ===== verification/WorkerLifecycle.v ===== *)
(** Warm workers (src/core/src/worker_lifecycle): the lifecycle policies
    (types.rs), the idle-timeout runtime (idle_timeout.rs, idle_timeout/release.rs,
    idle_timeout/liveness.rs) and the handle a dispatch holds (manager.rs).

    A tool has one slot behind an asynchronous mutex.  Callers queue for it, wait
    out the restart backoff, reuse the warm worker or spawn one, hold the lock
    while they use it, and put it back or retire it; a sleeping task tears an idle
    worker down.  The pure parts are functions; what the tasks of the runtime do
    together is the step relation [step] over the slot, the processes alive, the
    callers and the pending tasks.  The mutex may serve its waiters in any order.
    Instants and durations are integers in nanoseconds. *)

From stdpp Require Import base list sets numbers strings option.
From Stdlib Require Import ZArith Lia.
From S2P Require Import Prelude RustStr Json Protocol ToolHost.
Local Open Scope Z_scope.

(** * types.rs *)

Record IdleTimeoutCaps := mkCaps {
  ic_idle_seconds : Z; ic_max_requests : Z; ic_max_age_seconds : Z; ic_grace_period_seconds : Z }.

Record Contract := mkContract { ct_stateless : bool }.

Inductive Lifecycle := SingleUse | IdleTimeout (caps : IdleTimeoutCaps) (contract : Contract).

Inductive LifecycleValidationError := StatelessRequiredForIdleTimeout.

(** [Lifecycle::idle_timeout], the only constructor other crates have. *)
Definition idle_timeout (caps : IdleTimeoutCaps) (contract : Contract) : result Lifecycle LifecycleValidationError :=
  if negb (ct_stateless contract) then Err StatelessRequiredForIdleTimeout else Ok (IdleTimeout caps contract).

(** * idle_timeout.rs: the pure parts *)

Definition U64_MAX : Z := 18446744073709551615.
Definition U32_MAX : Z := 4294967295.
Definition MILLI : Z := 1000000.
Definition SECOND : Z := 1000000000.

(** Durations in nanoseconds. *)
Record RestartBackoff := mkBackoff { rb_base : Z; rb_factor_num : Z; rb_factor_den : Z; rb_cap : Z }.

Definition default_backoff : RestartBackoff := mkBackoff (1 * SECOND) 2 1 (60 * SECOND).

(** [as_millis() as u64] *)
Definition as_millis_u64 (d : Z) : Z := d / MILLI mod (U64_MAX + 1).

(** The loop of [next_delay], [None] on its early return. *)
Fixpoint delay_loop (n : nat) (num den cap_ms delay_ms : Z) : option Z :=
  match n with
  | O => Some delay_ms
  | S n' =>
      let d := Z.min (delay_ms * num) U64_MAX / den in
      if cap_ms <=? d then None else delay_loop n' num den cap_ms d
  end.

Definition next_delay (b : RestartBackoff) (consecutive_restarts : Z) : Z :=
  let cap_ms := as_millis_u64 (rb_cap b) in
  match delay_loop (Z.to_nat consecutive_restarts) (Z.max (rb_factor_num b) 1) (Z.max (rb_factor_den b) 1) cap_ms (as_millis_u64 (rb_base b)) with
  | None => rb_cap b
  | Some d => Z.min d cap_ms * MILLI
  end.

Definition is_request_capped (request_count max_requests : Z) : bool := (0 <? max_requests) && (max_requests <=? request_count).

Definition is_aged_out (age max_age_seconds : Z) : bool := (0 <? max_age_seconds) && (max_age_seconds <=? age / SECOND).

Definition PENDING_ACQUIRES_WARN_THRESHOLD : Z := 5.
Definition PENDING_ACQUIRES_WARN_COOLDOWN : Z := 30 * SECOND.

Definition pending_acquires_should_warn (depth : Z) : bool := PENDING_ACQUIRES_WARN_THRESHOLD <=? depth.

(** [i64::saturating_sub] *)
Definition i64_saturating_sub (a b : Z) : Z := Z.max (-9223372036854775808) (Z.min 9223372036854775807 (a - b)).

Definition debounce_warn (last_warn_nanos now_nanos cooldown : Z) : bool :=
  cooldown <=? i64_saturating_sub now_nanos last_warn_nanos.

(** * liveness.rs *)

Inductive WorkerRetirementCause :=
| ExitedBeforeResponding | PipeBroke | Undecodable | RetiredIdMismatch | RetiredResponseTooLarge.

Definition from_client_error (e : ClientError) : option WorkerRetirementCause :=
  match e with
  | Rpc _ => None
  | EarlyExit => Some ExitedBeforeResponding
  | Io _ => Some PipeBroke
  | Decode _ => Some Undecodable
  | IdMismatch _ _ => Some RetiredIdMismatch
  | ResponseTooLarge _ => Some RetiredResponseTooLarge
  end.

Definition dispatch_indicates_worker_dead {A} (r : result A ToolHostError) : bool :=
  match r with
  | Ok _ => false
  | Err (Sandbox _) => false
  | Err (HostIo _) => false
  | Err (Protocol e) => match from_client_error e with Some _ => true | None => false end
  | Err (SecretRedemptionFailed _) => false
  | Err (EgressProvisionFailed _) => false
  end.

(** * The slot *)

(** A worker process is a number; [ww_*] is its bookkeeping while it is warm. *)
Record WarmWorker := mkWarm { ww_worker : nat; ww_spawned_at : Z; ww_request_count : Z; ww_last_completion : Z }.

(** A teardown task is a number too. *)
Record ToolState := mkState {
  ts_warm : option WarmWorker; ts_next_spawn_allowed_at : option Z; ts_consecutive_restarts : Z;
  ts_idle_teardown_handle : option nat }.

Definition fresh_state : ToolState := mkState None None 0 None.

(** [WorkerHandleKind::IdleTimeout], less the guard and the slot it refers to. *)
Record Handle := mkHandle { hd_worker : nat; hd_spawned_at : Z; hd_request_count_so_far : Z; hd_died : bool }.

Definition report_crash (h : Handle) : Handle := mkHandle (hd_worker h) (hd_spawned_at h) (hd_request_count_so_far h) true.

Section Slot.
Variables (caps : IdleTimeoutCaps) (backoff : RestartBackoff).

(** [acquire_impl] once it has the lock and the backoff has passed: the worker to
    reuse, or the one to drop before a spawn. *)
Inductive Acquired := Reuse (h : Handle) | SpawnAfterDropping (w : option nat).

Definition after_backoff (s : ToolState) : ToolState :=
  mkState (ts_warm s) None (ts_consecutive_restarts s) (ts_idle_teardown_handle s).

Definition take_warm (s : ToolState) : ToolState :=
  mkState None (ts_next_spawn_allowed_at s) (ts_consecutive_restarts s) (ts_idle_teardown_handle s).

Definition acquire_warm (now : Z) (s : ToolState) : Acquired * ToolState :=
  let s := after_backoff s in
  (match ts_warm s with
   | Some w =>
       if negb (is_aged_out (now - ww_spawned_at w) (ic_max_age_seconds caps))
       then Reuse (mkHandle (ww_worker w) (ww_spawned_at w) (ww_request_count w) false)
       else SpawnAfterDropping (Some (ww_worker w))
   | None => SpawnAfterDropping None
   end, take_warm s).

(** A retired worker leaves the slot and its teardown task is aborted. *)
Definition retired (next_spawn : option Z) (restarts : Z) : ToolState := mkState None next_spawn restarts None.

(** [release_idle_timeout_worker]: the slot, the worker dropped, and whether a
    teardown task is spawned, numbered [task].  The task the slot referred to is
    aborted on every path. *)
Definition release (now : Z) (task : nat) (h : Handle) (s : ToolState) : ToolState * option nat * bool :=
  if hd_died h then
    let next_count := Z.min (ts_consecutive_restarts s + 1) U32_MAX in
    let delay := next_delay backoff (Z.max 0 (next_count - 1)) in
    (retired (Some (now + delay)) next_count, Some (hd_worker h), false)
  else
    let new_count := hd_request_count_so_far h + 1 in
    if is_request_capped new_count (ic_max_requests caps) then (retired None 0, Some (hd_worker h), false)
    else if is_aged_out (now - hd_spawned_at h) (ic_max_age_seconds caps) then (retired None 0, Some (hd_worker h), false)
    else
      let schedule := negb (ic_idle_seconds caps =? 0) in
      (mkState (Some (mkWarm (hd_worker h) (hd_spawned_at h) new_count now)) None 0 (if schedule then Some task else None), None, schedule).

(** The body of a teardown task, once it has the lock. *)
Definition teardown (for_last_completion : Z) (s : ToolState) : ToolState * option nat :=
  match ts_warm s with
  | Some w =>
      if ww_last_completion w =? for_last_completion
      then (mkState None (ts_next_spawn_allowed_at s) (ts_consecutive_restarts s) None, Some (ww_worker w))
      else (s, None)
  | None => (s, None)
  end.

(** * The runtime *)

(** Who holds the lock: a caller waiting out the backoff until an instant, one
    whose spawn is under way, or one that uses a worker. *)
Inductive Holder := Backing (until : Z) | Spawning | InFlight (h : Handle).

(** A teardown task: due when its sleep ends. *)
Record Teardown := mkTeardown { td_id : nat; td_due : Z; td_for : Z }.

Inductive LifeEvent :=
| LvSpawn (w : nat) (at_ : Z)
| LvServe (w : nat) (served_before : Z) (age : Z)   (** a request is handed the worker *)
| LvCrash (at_ : Z) (restarts : Z)
| LvDrop (w : nat).

Record System := mkSystem {
  y_now : Z; y_state : ToolState; y_holder : option Holder; y_pending : nat;
  y_tasks : list Teardown; y_live : list nat; y_next : nat; y_trace : list LifeEvent }.

Definition start_system : System := mkSystem 0 fresh_state None 0 [] [] 0 [].

Definition kill (w : option nat) (live : list nat) : list nat :=
  match w with Some w => filter (fun x => x <> w) live | None => live end.

Definition drop_event (w : option nat) : list LifeEvent := match w with Some w => [LvDrop w] | None => [] end.

(** Aborting the task the slot refers to. *)
Definition abort (s : ToolState) (tasks : list Teardown) : list Teardown :=
  match ts_idle_teardown_handle s with Some k => filter (fun t => td_id t <> k) tasks | None => tasks end.

Definition serve_event (now : Z) (h : Handle) : LifeEvent := LvServe (hd_worker h) (hd_request_count_so_far h) (now - hd_spawned_at h).

Inductive step : System -> System -> Prop :=
(** Time passes. *)
| StTick y d : 0 <= d ->
    step y (mkSystem (y_now y + d) (y_state y) (y_holder y) (y_pending y) (y_tasks y) (y_live y) (y_next y) (y_trace y))
(** A caller starts to wait for the lock. *)
| StEnter y :
    step y (mkSystem (y_now y) (y_state y) (y_holder y) (S (y_pending y)) (y_tasks y) (y_live y) (y_next y) (y_trace y))
(** A caller gets the lock and sleeps until the backoff has passed. *)
| StLock y n : y_holder y = None -> y_pending y = S n ->
    step y (mkSystem (y_now y) (y_state y) (Some (Backing (default (y_now y) (ts_next_spawn_allowed_at (y_state y))))) n
              (y_tasks y) (y_live y) (y_next y) (y_trace y))
(** A waiting or sleeping caller is cancelled. *)
| StLeave y n : y_pending y = S n ->
    step y (mkSystem (y_now y) (y_state y) (y_holder y) n (y_tasks y) (y_live y) (y_next y) (y_trace y))
| StGiveUp y until : y_holder y = Some (Backing until) ->
    step y (mkSystem (y_now y) (y_state y) None (y_pending y) (y_tasks y) (y_live y) (y_next y) (y_trace y))
(** The warm worker is reused, or dropped for a spawn. *)
| StReuse y until h s : y_holder y = Some (Backing until) -> until <= y_now y -> acquire_warm (y_now y) (y_state y) = (Reuse h, s) ->
    step y (mkSystem (y_now y) s (Some (InFlight h)) (y_pending y) (y_tasks y) (y_live y) (y_next y)
              (serve_event (y_now y) h :: y_trace y))
| StCold y until w s : y_holder y = Some (Backing until) -> until <= y_now y -> acquire_warm (y_now y) (y_state y) = (SpawnAfterDropping w, s) ->
    step y (mkSystem (y_now y) s (Some Spawning) (y_pending y) (y_tasks y) (kill w (y_live y)) (y_next y)
              (drop_event w ++ y_trace y))
(** The spawn succeeds, or fails and releases the lock. *)
| StSpawned y : y_holder y = Some Spawning ->
    let h := mkHandle (y_next y) (y_now y) 0 false in
    step y (mkSystem (y_now y) (y_state y) (Some (InFlight h)) (y_pending y) (y_tasks y) (y_next y :: y_live y) (S (y_next y))
              (serve_event (y_now y) h :: LvSpawn (y_next y) (y_now y) :: y_trace y))
| StSpawnFailed y : y_holder y = Some Spawning ->
    step y (mkSystem (y_now y) (y_state y) None (y_pending y) (y_tasks y) (y_live y) (y_next y) (y_trace y))
(** The call showed that the worker died. *)
| StCrash y h : y_holder y = Some (InFlight h) ->
    step y (mkSystem (y_now y) (y_state y) (Some (InFlight (report_crash h))) (y_pending y) (y_tasks y) (y_live y) (y_next y) (y_trace y))
(** The handle is dropped. *)
| StRelease y h s w (schedule : bool) : y_holder y = Some (InFlight h) -> release (y_now y) (y_next y) h (y_state y) = (s, w, schedule) ->
    step y (mkSystem (y_now y) s None (y_pending y)
              ((if schedule then [mkTeardown (y_next y) (y_now y + ic_idle_seconds caps * SECOND) (y_now y)] else []) ++ abort (y_state y) (y_tasks y))
              (kill w (y_live y)) (S (y_next y))
              (drop_event w ++ (if hd_died h then [LvCrash (y_now y) (ts_consecutive_restarts s)] else []) ++ y_trace y))
(** A teardown task has slept and gets the lock. *)
| StTeardown y t s w : t ∈ y_tasks y -> td_due t <= y_now y -> y_holder y = None -> teardown (td_for t) (y_state y) = (s, w) ->
    step y (mkSystem (y_now y) s None (y_pending y) (filter (fun x => td_id x <> td_id t) (y_tasks y))
              (kill w (y_live y)) (y_next y) (drop_event w ++ y_trace y)).

Inductive reachable : System -> Prop :=
| ReachStart : reachable start_system
| ReachStep y y' : reachable y -> step y y' -> reachable y'.

(** * Lemmas: what every reachable system satisfies *)

(** The process the slot keeps warm. *)
Definition warm_live (s : ToolState) : list nat := match ts_warm s with Some w => [ww_worker w] | None => [] end.

(** The processes alive are the one in the slot or the one in use. *)
Definition owned (y : System) : Prop :=
  match y_holder y with
  | Some (InFlight h) => ts_warm (y_state y) = None /\ y_live y = [hd_worker h]
  | Some Spawning => ts_warm (y_state y) = None /\ y_live y = []
  | _ => y_live y = warm_live (y_state y)
  end.

Definition below_cap (count : Z) : Prop := 0 < ic_max_requests caps -> count < ic_max_requests caps.
Definition young (age : Z) : Prop := 0 < ic_max_age_seconds caps -> age / SECOND < ic_max_age_seconds caps.

Definition counted (y : System) : Prop :=
  (forall w, ts_warm (y_state y) = Some w -> below_cap (ww_request_count w)) /\
  (forall w n age, LvServe w n age ∈ y_trace y -> below_cap n /\ young age).

(** The tasks alive are the one the slot refers to, if it has not finished. *)
Definition one_task (y : System) : Prop :=
  y_tasks y = [] \/ exists t, y_tasks y = [t] /\ ts_idle_teardown_handle (y_state y) = Some (td_id t).

(** A warm worker has its teardown ahead of it. *)
Definition scheduled (y : System) : Prop :=
  forall w, ts_warm (y_state y) = Some w -> ic_idle_seconds caps <> 0 ->
    exists t, y_tasks y = [t] /\ td_for t = ww_last_completion w /\ td_due t = ww_last_completion w + ic_idle_seconds caps * SECOND.

Lemma is_request_capped_false n : is_request_capped n (ic_max_requests caps) = false -> below_cap n.
Proof. unfold is_request_capped, below_cap. lia. Qed.

Lemma is_aged_out_false age : is_aged_out age (ic_max_age_seconds caps) = false -> young age.
Proof. unfold is_aged_out, young. lia. Qed.

Lemma acquire_warm_state now s a s' : acquire_warm now s = (a, s') ->
  ts_warm s' = None /\ ts_idle_teardown_handle s' = ts_idle_teardown_handle s /\ ts_next_spawn_allowed_at s' = None.
Proof. unfold acquire_warm. intros [= <- <-]. done. Qed.

Lemma kill_own w : kill (Some w) [w] = [].
Proof. unfold kill. rewrite filter_cons, decide_False by naive_solver. apply filter_nil. Qed.

Lemma owned_step y y' : owned y -> step y y' -> owned y'.
Proof.
  unfold owned. intros Ho Hs. destruct Hs; cbn [y_holder y_state y_live] in *; try done.
  - by rewrite H in Ho.
  - by rewrite H in Ho.
  - rewrite H in Ho. unfold acquire_warm in H1. unfold warm_live in Ho. cbn in H1. destruct (ts_warm (y_state y)) as [w|]; [|done].
    destruct (negb _); [|discriminate H1]. injection H1 as <- <-. by rewrite Ho.
  - rewrite H in Ho. destruct (acquire_warm_state _ _ _ _ H1) as (-> & _). split; [done|]. rewrite Ho.
    unfold acquire_warm in H1. cbn in H1. unfold warm_live. destruct (ts_warm (y_state y)) as [w0|]; [destruct (negb _); [discriminate H1|]|]; injection H1 as <- <-; [apply kill_own|done].
  - rewrite H in Ho. destruct Ho as [-> ->]. done.
  - rewrite H in Ho. unfold warm_live. destruct Ho as [-> ->]. done.
  - by rewrite H in Ho.
  - rewrite H in Ho. destruct Ho as [_ ->]. unfold release in H0. destruct (hd_died h).
    { injection H0 as <- <- <-. apply kill_own. }
    destruct (is_request_capped _ _); [injection H0 as <- <- <-; apply kill_own|].
    destruct (is_aged_out _ _); [injection H0 as <- <- <-; apply kill_own|]. by injection H0 as <- <- <-.
  - rewrite H1 in Ho. rewrite Ho. unfold teardown in H2. unfold warm_live. destruct (ts_warm (y_state y)) as [w0|] eqn:Ew; [destruct (_ =? _)|];
      injection H2 as <- <-; [apply kill_own|by rewrite Ew|by rewrite Ew].
Qed.

(** The worker a holder uses was below the cap when it was handed over. *)
Definition in_use_below (y : System) : Prop :=
  match y_holder y with Some (InFlight h) => below_cap (hd_request_count_so_far h) | _ => True end.

Lemma release_warm now k h s s' w b wm : release now k h s = (s', w, b) -> ts_warm s' = Some wm ->
  below_cap (ww_request_count wm) /\ ww_last_completion wm = now /\ w = None /\ b = negb (ic_idle_seconds caps =? 0) /\
  (b = true -> ts_idle_teardown_handle s' = Some k).
Proof.
  unfold release. destruct (hd_died h); [by intros [= <- <- <-]|].
  destruct (is_request_capped _ _) eqn:Ec; [by intros [= <- <- <-]|].
  destruct (is_aged_out _ _); [by intros [= <- <- <-]|]. intros [= <- <- <-] [= <-]. cbn.
  split_and!; [by apply is_request_capped_false|done..|]. by intros ->.
Qed.

Lemma release_handle now k h s s' w b : release now k h s = (s', w, b) ->
  ts_idle_teardown_handle s' = (if b then Some k else None) /\ (b = true -> is_Some (ts_warm s')).
Proof.
  unfold release. destruct (hd_died h); [by intros [= <- <- <-]|].
  destruct (is_request_capped _ _); [by intros [= <- <- <-]|].
  destruct (is_aged_out _ _); [by intros [= <- <- <-]|]. intros [= <- <- <-]. by split; [|intros _; eexists].
Qed.

Lemma teardown_cases c s s' w : teardown c s = (s', w) ->
  (s' = s /\ w = None) \/ (ts_warm s' = None /\ ts_next_spawn_allowed_at s' = ts_next_spawn_allowed_at s).
Proof. unfold teardown. destruct (ts_warm s); [destruct (_ =? _)|]; intros [= <- <-]; cbn; auto. Qed.

Lemma serve_in_cons e w n age tr : LvServe w n age ∈ e :: tr -> LvServe w n age = e \/ LvServe w n age ∈ tr.
Proof. by rewrite elem_of_cons. Qed.

Lemma drop_event_serve x w n age tr : LvServe w n age ∈ drop_event x ++ tr -> LvServe w n age ∈ tr.
Proof. destruct x; cbn; [|done]. by intros [?|?]%elem_of_cons. Qed.

Lemma counted_step y y' : counted y -> in_use_below y -> step y y' -> counted y' /\ in_use_below y'.
Proof.
  unfold counted, in_use_below. intros [Hw Ht] Hu Hs.
  destruct Hs; cbn [y_holder y_state y_trace] in *; try done.
  - unfold acquire_warm in H1. cbn in H1. destruct (ts_warm (y_state y)) as [w|] eqn:Ew; [|done].
    destruct (is_aged_out _ _) eqn:Ea; [done|]. injection H1 as <- <-. cbn [ts_warm hd_request_count_so_far]. specialize (Hw w eq_refl).
    split; [|done]. split; [done|]. intros w' n age [[= -> -> ->]|Hin]%serve_in_cons; [|by eapply Ht].
    split; [done|]. by apply is_aged_out_false.
  - destruct (acquire_warm_state _ _ _ _ H1) as (-> & _). split; [|done]. split; [done|]. intros w' n age Hin%drop_event_serve. by eapply Ht.
  - split; [|unfold h, below_cap; cbn; lia]. split; [done|]. subst h. intros w' n age Hin.
    apply serve_in_cons in Hin as [[= -> -> ->]|Hin]; [|apply serve_in_cons in Hin as [[=]|Hin]; by eapply Ht].
    unfold below_cap, young. cbn [hd_request_count_so_far hd_spawned_at]. rewrite Z.sub_diag, Z.div_0_l by done. lia.
  - rewrite H in Hu. done.
  - split; [|done]. split.
    + intros wm Hwm. by apply (release_warm _ _ _ _ _ _ _ _ H0 Hwm).
    + intros w' n age Hin%drop_event_serve. destruct (hd_died h); [|by eapply Ht]. cbn in Hin.
      apply serve_in_cons in Hin as [[=]|Hin]. by eapply Ht.
  - split; [|done]. split; [|intros w' n age Hin%drop_event_serve; by eapply Ht].
    destruct (teardown_cases _ _ _ _ H2) as [[-> _]|[-> _]]; done.
Qed.

Lemma filter_own (t : Teardown) : filter (fun x => td_id x <> td_id t) [t] = [].
Proof. rewrite filter_cons, decide_False by naive_solver. apply filter_nil. Qed.

Lemma abort_all y : one_task y -> abort (y_state y) (y_tasks y) = [].
Proof.
  unfold one_task, abort. intros [->|(t & -> & ->)]; [by destruct (ts_idle_teardown_handle _)|apply filter_own].
Qed.

(** The slot and its task move together. *)
Lemma scheduled_step y y' : owned y -> one_task y -> scheduled y -> step y y' -> one_task y' /\ scheduled y'.
Proof.
  intros Hown H1t Hsch Hs. pose proof (abort_all y H1t) as Hab. unfold one_task, scheduled in *.
  destruct Hs; cbn [y_holder y_state y_tasks] in *; try done.
  - destruct (acquire_warm_state _ _ _ _ H1) as (-> & -> & _). done.
  - destruct (acquire_warm_state _ _ _ _ H1) as (-> & -> & _). done.
  - rewrite Hab, app_nil_r. destruct (release_handle _ _ _ _ _ _ _ H0) as [Hh _]. split.
    + destruct schedule; [right; by eexists|by left].
    + intros wm Hwm Hi. destruct (release_warm _ _ _ _ _ _ _ _ H0 Hwm) as (_ & -> & _ & -> & _).
      destruct (Z.eqb_spec (ic_idle_seconds caps) 0); [done|]. cbn. by eexists.
  - assert (Hone : filter (fun x => td_id x <> td_id t) (y_tasks y) = []).
    { destruct H1t as [E|(t0 & E & _)]; rewrite E in *; [by apply not_elem_of_nil in H|].
      apply list_elem_of_singleton in H as ->. apply filter_own. }
    rewrite Hone. split; [by left|]. intros wm Hwm Hi. exfalso.
    unfold teardown in H2. destruct (ts_warm (y_state y)) as [w0|] eqn:Ew; [|injection H2 as <- <-; congruence].
    destruct (Hsch w0 eq_refl Hi) as (t0 & E & Hfor & _). rewrite E in H. apply list_elem_of_singleton in H as ->.
    rewrite Hfor, Z.eqb_refl in H2. by injection H2 as <- <-.
Qed.

(** ** Backoff *)

(** The crash after which nothing has been spawned or served yet. *)
Fixpoint unanswered_crash (tr : list LifeEvent) : option (Z * Z) :=
  match tr with
  | LvDrop _ :: tr' => unanswered_crash tr'
  | LvCrash at_ n :: _ => Some (at_, n)
  | _ => None
  end.

Definition allowed_from (crash : Z * Z) : Z := crash.1 + next_delay backoff (Z.max 0 (crash.2 - 1)).

(** Every spawn of the trace waited for the crash before it. *)
Fixpoint spawns_waited (tr : list LifeEvent) : Prop :=
  match tr with
  | [] => True
  | LvSpawn w at_ :: tr' => (forall c, unanswered_crash tr' = Some c -> allowed_from c <= at_) /\ spawns_waited tr'
  | _ :: tr' => spawns_waited tr'
  end.

(** When the caller that comes next may spawn. *)
Definition gate (y : System) : Z :=
  match y_holder y with
  | Some (Backing u) => u
  | Some _ => y_now y
  | None => default (y_now y) (ts_next_spawn_allowed_at (y_state y))
  end.

Record waited (y : System) : Prop := {
  wt_trace : spawns_waited (y_trace y);
  wt_gate : forall c, unanswered_crash (y_trace y) = Some c -> allowed_from c <= gate y;
  wt_backing : forall u, y_holder y = Some (Backing u) ->
    ts_next_spawn_allowed_at (y_state y) = Some u \/ (ts_next_spawn_allowed_at (y_state y) = None /\ u <= y_now y);
  wt_spawning : y_holder y = Some Spawning -> ts_next_spawn_allowed_at (y_state y) = None }.

Lemma unanswered_drop x tr : unanswered_crash (drop_event x ++ tr) = unanswered_crash tr.
Proof. by destruct x. Qed.

Lemma spawns_waited_drop x tr : spawns_waited (drop_event x ++ tr) <-> spawns_waited tr.
Proof. by destruct x. Qed.

Lemma in_use_answered y : reachable y -> forall h, y_holder y = Some (InFlight h) -> unanswered_crash (y_trace y) = None.
Proof.
  induction 1 as [|y y' _ IH Hs]; [done|]. destruct Hs; cbn [y_holder y_trace] in *; try done; try (intros h' Hh; by eapply IH).
Qed.

Lemma release_crash now k h s s' w b : release now k h s = (s', w, b) ->
  if hd_died h then ts_next_spawn_allowed_at s' = Some (allowed_from (now, ts_consecutive_restarts s'))
  else ts_next_spawn_allowed_at s' = None.
Proof.
  unfold release. destruct (hd_died h); [by intros [= <- <- <-]|].
  destruct (is_request_capped _ _); [by intros [= <- <- <-]|].
  destruct (is_aged_out _ _); by intros [= <- <- <-].
Qed.

Lemma waited_step y y' : reachable y -> waited y -> step y y' -> waited y'.
Proof.
  intros Hr [Ht Hg Hb Hsp] Hs. pose proof (in_use_answered y Hr) as Hans. unfold gate in *.
  destruct Hs; (split; cbn [y_holder y_state y_trace y_now gate] in *); unfold gate; cbn [y_holder y_state y_now] in *.
  all: try done.
  - intros c Hc. specialize (Hg c Hc). destruct (y_holder y) as [[]|]; [lia..|]. destruct (ts_next_spawn_allowed_at _); cbn in *; lia.
  - intros u Hu. destruct (Hb u Hu) as [?|[? ?]]; [by left|right; split; [done|lia]].
  - intros c Hc. specialize (Hg c Hc). by rewrite H in Hg.
  - intros u [= <-]. destruct (ts_next_spawn_allowed_at _); cbn; [by left|by right].
  - intros c Hc. specialize (Hg c Hc). rewrite H in Hg. destruct (Hb _ H) as [E|[E ?]]; rewrite E; cbn; lia.
  - by rewrite spawns_waited_drop.
  - intros c Hc. rewrite unanswered_drop in Hc. specialize (Hg c Hc). rewrite H in Hg. lia.
  - intros _. by destruct (acquire_warm_state _ _ _ _ H1) as (_ & _ & ->).
  - split; [|done]. intros c Hc. specialize (Hg c Hc). by rewrite H in Hg.
  - intros c Hc. specialize (Hg c Hc). rewrite H in Hg. by rewrite (Hsp H).
  - intros c Hc. by rewrite (Hans h H) in Hc.
  - rewrite spawns_waited_drop. by destruct (hd_died h).
  - intros c Hc. rewrite unanswered_drop in Hc. pose proof (release_crash _ _ _ _ _ _ _ H0) as Hrc.
    destruct (hd_died h); cbn in Hc; [|by rewrite (Hans h H) in Hc]. injection Hc as <-. by rewrite Hrc.
  - by rewrite spawns_waited_drop.
  - intros c Hc. rewrite unanswered_drop in Hc. specialize (Hg c Hc). rewrite H1 in Hg.
    destruct (teardown_cases _ _ _ _ H2) as [[-> _]|[_ ->]]; done.
Qed.

Lemma reachable_inv y : reachable y -> owned y /\ counted y /\ in_use_below y /\ one_task y /\ scheduled y /\ waited y.
Proof.
  induction 1 as [|y y' Hr (H1 & H2 & H3 & H4 & H5 & H6) Hs].
  - split_and!; [done| |done|by left|done|split; done]. split; [done|]. intros w n age Hin. by apply not_elem_of_nil in Hin.
  - destruct (counted_step _ _ H2 H3 Hs). destruct (scheduled_step _ _ H1 H4 H5 Hs).
    split_and!; [by eapply owned_step|done..|by eapply waited_step].
Qed.


(** No request is served past the caps: a worker handed to a request has
    served fewer than [max_requests] requests before and is younger than
    [max_age_seconds] seconds (where those caps are on). *)
Theorem served_within_caps y w n age : reachable y -> LvServe w n age ∈ y_trace y ->
  (0 < ic_max_requests caps -> n < ic_max_requests caps) /\
  (0 < ic_max_age_seconds caps -> age / SECOND < ic_max_age_seconds caps).
Proof. intros (_ & [_ H2] & _)%reachable_inv Hin. by apply (H2 w n age). Qed.

(** An idle worker is torn down, and not before its time.  While a worker is
    warm its one pending task is due exactly [idle_seconds] after its last request;
    from then on, while nobody holds the slot, that task can run, and it leaves no
    process of the tool alive. *)
Theorem idle_worker_is_torn_down y w : reachable y -> ts_warm (y_state y) = Some w -> ic_idle_seconds caps <> 0 ->
  exists t, y_tasks y = [t] /\ td_due t = ww_last_completion w + ic_idle_seconds caps * SECOND /\
    (y_holder y = None -> td_due t <= y_now y ->
      exists y', step y y' /\ y_live y' = [] /\ y_tasks y' = [] /\ ts_warm (y_state y') = None /\ y_pending y' = y_pending y).
Proof.
  intros (H1 & _ & _ & _ & H5 & _)%reachable_inv Hw Hi. destruct (H5 w Hw Hi) as (t & Et & Hfor & Hdue).
  exists t. split_and!; [done..|]. intros Hh Hn. unfold owned in H1. rewrite Hh in H1. unfold warm_live in H1. rewrite Hw in H1.
  eexists. split.
  - apply (StTeardown y t (mkState None (ts_next_spawn_allowed_at (y_state y)) (ts_consecutive_restarts (y_state y)) None) (Some (ww_worker w)));
      [rewrite Et; apply list_elem_of_here|done|done|]. unfold teardown. by rewrite Hw, Hfor, Z.eqb_refl.
  - cbn [y_live y_tasks y_state ts_warm y_pending]. rewrite Et, H1. split_and!; [apply kill_own|apply filter_own|done..].
Qed.

(** Restarts are spaced out: a worker is spawned after a crash only once the
    delay that crash was given has passed, whoever asked for the worker, however
    many callers gave up waiting in between, and however many spawns failed. *)
Theorem restarts_wait_for_backoff y w at_ tr1 tr2 crash_at restarts : reachable y ->
  y_trace y = tr1 ++ LvSpawn w at_ :: tr2 -> unanswered_crash tr2 = Some (crash_at, restarts) ->
  crash_at + next_delay backoff (Z.max 0 (restarts - 1)) <= at_.
Proof.
  intros (_ & _ & _ & _ & _ & [H6 _ _ _])%reachable_inv E Hc. rewrite E in H6. clear E.
  assert (H7 : spawns_waited (LvSpawn w at_ :: tr2)) by (induction tr1 as [|[] tr1 IH]; cbn in H6; naive_solver).
  destruct H7 as [H7 _]. apply (H7 _ Hc).
Qed.
End Slot.

(** ** The default backoff *)

Lemma default_loop n d : 1 <= d < 60000 ->
  delay_loop n 2 1 60000 d = (if d * 2 ^ Z.of_nat n <? 60000 then Some (d * 2 ^ Z.of_nat n) else None).
Proof.
  revert d. induction n as [|n IH]; intros d Hd; cbn [delay_loop].
  { replace (d * 2 ^ Z.of_nat 0) with d by (cbn; lia). by destruct (Z.ltb_spec d 60000); [|lia]. }
  rewrite Z.div_1_r. replace (Z.min (d * 2) U64_MAX) with (d * 2) by (unfold U64_MAX; lia).
  rewrite Nat2Z.inj_succ, Z.pow_succ_r by lia. assert (0 < 2 ^ Z.of_nat n) by (apply Z.pow_pos_nonneg; lia).
  destruct (Z.leb_spec 60000 (d * 2)).
  - destruct (Z.ltb_spec (d * (2 * 2 ^ Z.of_nat n)) 60000); [nia|done].
  - rewrite IH by lia. by replace (d * 2 * 2 ^ Z.of_nat n) with (d * (2 * 2 ^ Z.of_nat n)) by lia.
Qed.

(** The default delays are 1, 2, 4, 8, 16, 32 seconds and then a minute: after
    [n] restarts the delay is [2 ^ n] seconds, capped at sixty, for every [n] a
    32-bit counter can hold. *)
Theorem default_backoff_doubles n : 0 <= n -> next_delay default_backoff n = Z.min (2 ^ n) 60 * SECOND.
Proof.
  intros Hn. unfold next_delay. change (as_millis_u64 (rb_cap default_backoff)) with 60000.
  change (as_millis_u64 (rb_base default_backoff)) with 1000.
  change (Z.max (rb_factor_num default_backoff) 1) with 2. change (Z.max (rb_factor_den default_backoff) 1) with 1.
  rewrite default_loop by lia. rewrite Z2Nat.id by lia. unfold SECOND, MILLI. cbn [rb_cap default_backoff].
  destruct (Z.ltb_spec (1000 * 2 ^ n) 60000).
  - rewrite !Z.min_l by lia. lia.
  - rewrite Z.min_r by lia. done.
Qed.

(** * Witnesses *)

Definition demo_caps : IdleTimeoutCaps := mkCaps 60 2 3600 5.

(** A worker is spawned for a first request and goes back to its slot. *)
Definition demo_in_use : System :=
  mkSystem 0 fresh_state (Some (InFlight (mkHandle 0 0 0 false))) 0 [] [0%nat] 1 [LvServe 0 0 0; LvSpawn 0 0].
Definition demo_idle : System :=
  mkSystem 0 (mkState (Some (mkWarm 0 0 1 0)) None 0 (Some 1%nat)) None 0 [mkTeardown 1 (60 * SECOND) 0] [0%nat] 2
    [LvServe 0 0 0; LvSpawn 0 0].
(** Or it dies, and a new one is spawned a second later. *)
Definition demo_crashed : System :=
  mkSystem 0 (retired (Some SECOND) 1) None 0 [] [] 2 [LvDrop 0; LvCrash 0 1; LvServe 0 0 0; LvSpawn 0 0].
Definition demo_restarted : System :=
  mkSystem SECOND (retired None 1) (Some (InFlight (mkHandle 2 SECOND 0 false))) 0 [] [2%nat] 3
    [LvServe 2 0 0; LvSpawn 2 SECOND; LvDrop 0; LvCrash 0 1; LvServe 0 0 0; LvSpawn 0 0].

Lemma demo_in_use_reachable : reachable demo_caps default_backoff demo_in_use.
Proof.
  pose proof (ReachStep _ _ _ _ (ReachStart demo_caps default_backoff) (StEnter _ _ start_system)) as R1. cbn in R1.
  pose proof (fun A B => ReachStep _ _ _ _ R1 (StLock _ _ _ 0 A B)) as R2. specialize (R2 eq_refl eq_refl). cbn in R2.
  pose proof (fun A B C => ReachStep _ _ _ _ R2 (StCold _ _ _ 0 None fresh_state A B C)) as R3. specialize (R3 eq_refl ltac:(done) eq_refl). cbn in R3.
  pose proof (fun A => ReachStep _ _ _ _ R3 (StSpawned _ _ _ A)) as R4. exact (R4 eq_refl).
Qed.

Lemma demo_idle_reachable : reachable demo_caps default_backoff demo_idle.
Proof.
  pose proof (fun A B => ReachStep _ _ _ _ demo_in_use_reachable (StRelease _ _ _ (mkHandle 0 0 0 false) (y_state demo_idle) None true A B)) as R.
  exact (R eq_refl eq_refl).
Qed.

Lemma demo_restarted_reachable : reachable demo_caps default_backoff demo_restarted.
Proof.
  pose proof (fun A => ReachStep _ _ _ _ demo_in_use_reachable (StCrash _ _ _ (mkHandle 0 0 0 false) A)) as R1. specialize (R1 eq_refl). cbn in R1.
  pose proof (fun A B => ReachStep _ _ _ _ R1 (StRelease _ _ _ (mkHandle 0 0 0 true) (retired (Some SECOND) 1) (Some 0%nat) false A B)) as R2.
  specialize (R2 eq_refl eq_refl). cbn in R2.
  pose proof (ReachStep _ _ _ _ R2 (StEnter _ _ _)) as R3. cbn in R3.
  pose proof (fun A B => ReachStep _ _ _ _ R3 (StLock _ _ _ 0 A B)) as R4. specialize (R4 eq_refl eq_refl). cbn in R4.
  pose proof (ReachStep _ _ _ _ R4 (StTick _ _ _ SECOND ltac:(done))) as R5. cbn in R5.
  pose proof (fun A B C => ReachStep _ _ _ _ R5 (StCold _ _ _ SECOND None (retired None 1) A B C)) as R6. specialize (R6 eq_refl ltac:(done) eq_refl). cbn in R6.
  pose proof (fun A => ReachStep _ _ _ _ R6 (StSpawned _ _ _ A)) as R7. exact (R7 eq_refl).
Qed.


Lemma served_within_caps_witness : 0 < 2 -> 0 < 2.
Proof.
  exact (proj1 (served_within_caps demo_caps default_backoff demo_restarted 2 0 0 demo_restarted_reachable ltac:(apply list_elem_of_here))).
Defined.

Lemma idle_worker_is_torn_down_witness :
  exists t, y_tasks demo_idle = [t] /\ td_due t = 0 + 60 * SECOND.
Proof.
  destruct (idle_worker_is_torn_down demo_caps default_backoff demo_idle (mkWarm 0 0 1 0) demo_idle_reachable eq_refl ltac:(done))
    as (t & H1 & H2 & _). exists t. split; [exact H1|exact H2].
Defined.

Lemma restarts_wait_for_backoff_witness : 0 + next_delay default_backoff (Z.max 0 (1 - 1)) <= SECOND.
Proof.
  exact (restarts_wait_for_backoff demo_caps default_backoff demo_restarted 2 SECOND [LvServe 2 0 0]
    [LvDrop 0; LvCrash 0 1; LvServe 0 0 0; LvSpawn 0 0] 0 1 demo_restarted_reachable eq_refl eq_refl).
Defined.

Lemma default_backoff_doubles_witness : next_delay default_backoff 5 = Z.min (2 ^ 5) 60 * SECOND.
Proof. exact (default_backoff_doubles 5 ltac:(lia)). Defined.
