(* ===== verification/Sandbox.v ===== *)
(** The Linux sandbox (src/sandbox/src/lib.rs, linux_bwrap.rs, linux_cgroup.rs):
    the policy of a worker, the checks on its paths, the command lines of
    [systemd-run] and [bwrap] and the spawn that puts them together.

    The file system and the process table are a world that answers
    [canonicalize], [is_file], [create_dir_all] and [spawn]; its answers may change
    from call to call.  Paths are their bytes, which are UTF-8 here, so that
    [display] is the identity.  What [bwrap] and [systemd-run] make of a command
    line is written down as readers of their options; how many arguments an
    option of [bwrap] takes is a parameter. *)

From stdpp Require Import base list gmap sets numbers strings option pretty.
From Stdlib Require Import ZArith Lia.
From S2P Require Import Prelude RustStr Json LoopPure Effects.
Local Open Scope Z_scope.
Local Open Scope prog_scope.

(** * Paths of the standard library *)

Inductive Component := RootDir | CurDir | ParentDir | Normal (s : bytes).

#[export] Instance Component_eq_dec : EqDecision Component.
Proof. solve_decision. Defined.

Definition SLASH : Z := 47.

Definition is_absolute (p : bytes) : bool := starts_with [SLASH] p.

(** A path that starts with a [.] of its own keeps it as a component. *)
Definition include_cur_dir (p : bytes) : bool :=
  match p with 46 :: [] | 46 :: 47 :: _ => true | _ => false end.

(** The bytes before the body: the root or the leading [.]. *)
Definition path_head (p : bytes) : bytes :=
  if is_absolute p then [SLASH] else if include_cur_dir p then bs "." else [].

Definition path_body (p : bytes) : list bytes := split SLASH (drop (length (path_head p)) p).

(** Pieces that name nothing. *)
Definition skipped (part : bytes) : bool := bool_decide (part = []) || bytes_eqb part (bs ".").

Definition parse_single_component (part : bytes) : list Component :=
  if skipped part then [] else if bytes_eqb part (bs "..") then [ParentDir] else [Normal part].

(** [Path::components] *)
Definition components (p : bytes) : list Component :=
  (if is_absolute p then [RootDir] else if include_cur_dir p then [CurDir] else []) ++
  mbind parse_single_component (path_body p).

(** The body without the pieces at its end that name nothing, last piece first. *)
Fixpoint trim_right (rev_parts : list bytes) : list bytes :=
  match rev_parts with
  | [] => []
  | x :: rest => if skipped x then trim_right rest else rev_parts
  end.

(** [Path::parent] *)
Definition path_parent (p : bytes) : option bytes :=
  match trim_right (reverse (path_body p)) with
  | [] => if is_absolute p then None else if include_cur_dir p then Some [] else None
  | _ :: rest => Some (path_head p ++ join [SLASH] (reverse (trim_right rest)))
  end.

(** [Path::file_name] *)
Definition path_file_name (p : bytes) : option bytes :=
  match trim_right (reverse (path_body p)) with
  | x :: _ => if bytes_eqb x (bs "..") then None else Some x
  | [] => None
  end.

(** [Path::join] *)
Definition path_join (base name : bytes) : bytes :=
  if is_absolute name then name
  else match last base with
       | None => name
       | Some c => if c =? SLASH then base ++ name else base ++ SLASH :: name
       end.

(** [{:?}] of a character that is not ASCII: itself or an escape, after the
    Unicode tables. *)
Class UnicodeDebug := { escape_unicode : bytes -> bytes }.

Definition hex_short (c : Z) : bytes := if c <? 16 then [hex_digit c] else [hex_digit (c / 16); hex_digit (c mod 16)].

(** [{:?}] of an ASCII character inside a string. *)
Definition debug_ascii (c : Z) : bytes :=
  if c =? 0 then bs "\0" else if c =? 9 then bs "\t" else if c =? 10 then bs "\n" else if c =? 13 then bs "\r"
  else if c =? 34 then [92; 34] else if c =? 92 then [92; 92]
  else if (c <? 32) || (c =? 127) then bs "\u{" ++ hex_short c ++ bs "}"
  else [c].

(** [fuel] is the number of bytes. *)
Fixpoint debug_loop `{UnicodeDebug} (fuel : nat) (s : bytes) : bytes :=
  match fuel, s with
  | S fuel', c :: s' =>
      if c <? 128 then debug_ascii c ++ debug_loop fuel' s'
      else let n := (utf8_next s).2 in escape_unicode (take n s) ++ debug_loop fuel' (drop n s)
  | _, _ => []
  end.

(** [{:?}] of a path. *)
Definition path_debug `{UnicodeDebug} (p : bytes) : bytes := [34] ++ debug_loop (length p) p ++ [34].

(** A [HashMap] keyed by paths: two paths are one key when their components are. *)
Definition path_eqb (p q : bytes) : bool := bool_decide (components p = components q).

Definition PathMap := list (bytes * bytes).

Fixpoint pm_insert (k v : bytes) (m : PathMap) : PathMap :=
  match m with
  | [] => [(k, v)]
  | (k', v') :: m' => if path_eqb k k' then (k', v) :: m' else (k', v') :: pm_insert k v m'
  end.

Fixpoint pm_get (k : bytes) (m : PathMap) : option bytes :=
  match m with
  | [] => None
  | (k', v') :: m' => if path_eqb k k' then Some v' else pm_get k m'
  end.

(** * lib.rs: the policy *)

Inductive Profile := WorkerStrict | WorkerNetClient | WorkerBrowserClient | WorkerMlClient | WorkerMatrixClient.

Inductive Net := NetDeny | NetAllowlist (hosts : list bytes) | ProxyEgress.

Record PersistentStore := mkStore { ps_host_backing : bytes; ps_guest_mount : bytes; ps_size_mib : Z }.

Record SandboxPolicy := mkPolicy {
  sp_fs_read : list bytes; sp_fs_write : list bytes; sp_net : Net; sp_cpu_ms : Z; sp_mem_mb : Z;
  sp_profile : Profile; sp_cpu_quota_pct : option Z; sp_tasks_max : option Z; sp_env : list (bytes * bytes);
  sp_proxy_uds : option bytes; sp_broker_uds : option bytes; sp_persistent_store : option PersistentStore }.

Definition default_policy : SandboxPolicy :=
  mkPolicy [] [] NetDeny 1000 64 WorkerStrict None None [] None None None.

Inductive SandboxError := Backend (reason : bytes).

Definition LANDLOCK_PROFILE_ENV : bytes := bs "KASTELLAN_LANDLOCK_PROFILE".
Definition LANDLOCK_PROFILE_NONE : bytes := bs "none".

Inductive IoError := NotFound (text : bytes) | OtherIo (text : bytes).

Definition io_text (e : IoError) : bytes := match e with NotFound t | OtherIo t => t end.

(** A command to spawn: its words, the environment when it was cleared, and the
    working directory when it was set. *)
Record Cmd := mkCmd { cmd_argv : list bytes; cmd_env : option (list (bytes * bytes)); cmd_cwd : option bytes }.

(** What was asked of the world. *)
Inductive SandboxEv :=
| SbCanonical (asked : bytes) (answer : result bytes IoError)
| SbCreated (dir : bytes)
| SbSpawned (c : Cmd).

(** The operating system. *)
Class HostOs (W : Type) := {
  os_canonicalize : bytes -> W -> result bytes IoError * W;
  os_is_file : bytes -> W -> bool * W;
  os_create_dir_all : bytes -> W -> result () bytes * W;
  os_spawn : Cmd -> W -> result nat bytes * W }.

Section Backend.
Context `{HostOs W} `{UnicodeDebug}.
Notation sandbox A := (prog W SandboxEv SandboxError A).

Definition validate_linux_bind_path (p kind : bytes) : sandbox () :=
  if negb (is_absolute p) then throw (Backend (kind ++ bs " paths must be absolute, got " ++ path_debug p))
  else if existsb (fun c => bool_decide (c = ParentDir)) (components p) then
    throw (Backend (kind ++ bs " paths must not contain '..' components, got " ++ path_debug p))
  else ret tt.

(** [std::fs::canonicalize]; the answer is in the trace. *)
Definition fs_canonicalize (p : bytes) : sandbox (result bytes IoError) :=
  let* r := effect (os_canonicalize p) in
  emit (SbCanonical p r) ;;; ret r.

Definition could_not (p : bytes) (e : IoError) : SandboxError :=
  Backend (bs "could not canonicalize policy path " ++ path_debug p ++ bs ": " ++ io_text e).

Definition canonicalize_one (p : bytes) : sandbox bytes :=
  let* r := fs_canonicalize p in
  match r with
  | Ok resolved => ret resolved
  | Err (NotFound _) =>
      match path_parent p, path_file_name p with
      | Some parent, Some name =>
          let* r := fs_canonicalize parent in
          match r with
          | Ok canon_parent => ret (path_join canon_parent name)
          | Err (NotFound _) => ret p
          | Err pe => throw (could_not p pe)
          end
      | _, _ => ret p
      end
  | Err e => throw (could_not p e)
  end.

(** [for p in … { f(p)?; }] *)
Fixpoint each {A} (f : A -> sandbox ()) (l : list A) : sandbox () :=
  match l with
  | [] => ret tt
  | x :: l' => let* _ := f x in each f l'
  end.

Definition each_opt {A} (f : A -> sandbox ()) (o : option A) : sandbox () :=
  match o with Some x => f x | None => ret tt end.

(** * linux_cgroup.rs *)

Definition DEFAULT_CPU_QUOTA_PCT : Z := 200.
Definition DEFAULT_TASKS_MAX : Z := 64.

Definition build_systemd_run_argv (policy : SandboxPolicy) : list bytes :=
  [bs "systemd-run"; bs "--user"; bs "--scope"; bs "--quiet"; bs "--collect"] ++
  (if 0 <? sp_mem_mb policy then
     [bs "-p"; bs "MemoryMax=" ++ show_z (sp_mem_mb policy) ++ bs "M"; bs "-p"; bs "MemorySwapMax=0"]
   else []) ++
  [bs "-p"; bs "CPUQuota=" ++ show_z (default DEFAULT_CPU_QUOTA_PCT (sp_cpu_quota_pct policy)) ++ bs "%"] ++
  [bs "-p"; bs "TasksMax=" ++ show_z (default DEFAULT_TASKS_MAX (sp_tasks_max policy))] ++
  [bs "--"].

(** * linux_bwrap.rs *)

Definition USERNS_LOCKDOWN_FLAGS : list bytes := [bs "--unshare-user"; bs "--disable-userns"].

Definition push_bind (flag src dest : bytes) : list bytes := [flag; src; dest].

Definition net_flags (policy : SandboxPolicy) : list bytes :=
  match sp_net policy, sp_proxy_uds policy with
  | NetAllowlist _, Some _ => []
  | ProxyEgress, _ | NetAllowlist _, None => [bs "--share-net"]
  | NetDeny, _ => []
  end.

Definition base_flags : list bytes :=
  [bs "--proc"; bs "/proc"; bs "--dev"; bs "/dev"; bs "--tmpfs"; bs "/tmp";
   bs "--ro-bind"; bs "/usr"; bs "/usr"; bs "--symlink"; bs "usr/bin"; bs "/bin";
   bs "--symlink"; bs "usr/sbin"; bs "/sbin"; bs "--symlink"; bs "usr/lib"; bs "/lib";
   bs "--symlink"; bs "usr/lib64"; bs "/lib64";
   bs "--ro-bind-try"; bs "/etc/ld.so.cache"; bs "/etc/ld.so.cache"].

Definition build_argv_with_resolver (policy : SandboxPolicy) (program : bytes) (args : list bytes)
    (resolve : bytes -> bytes) : list bytes :=
  [bs "bwrap"; bs "--unshare-all"] ++ net_flags policy ++ USERNS_LOCKDOWN_FLAGS ++
  [bs "--die-with-parent"; bs "--new-session"; bs "--as-pid-1"; bs "--clearenv"] ++
  mbind (fun '(k, v) => [bs "--setenv"; k; v]) (sp_env policy) ++
  base_flags ++
  mbind (fun path => push_bind (bs "--ro-bind-try") (resolve path) path) (sp_fs_read policy) ++
  mbind (fun path => push_bind (bs "--bind-try") (resolve path) path) (sp_fs_write policy) ++
  match sp_proxy_uds policy with Some uds => push_bind (bs "--bind") (resolve uds) uds | None => [] end ++
  match sp_broker_uds policy with Some uds => push_bind (bs "--bind") (resolve uds) uds | None => [] end ++
  match sp_persistent_store policy with
  | Some ps => [bs "--bind"; resolve (ps_host_backing ps); ps_guest_mount ps]
  | None => []
  end ++
  [bs "--"; program] ++ args.

Definition build_argv (policy : SandboxPolicy) (program : bytes) (args : list bytes) : list bytes :=
  build_argv_with_resolver policy program args (fun p => p).

(** Resolve [p] and remember the answer. *)
Definition resolve_into (resolved : PathMap) (p : bytes) : sandbox PathMap :=
  let* q := canonicalize_one p in ret (pm_insert p q resolved).

Fixpoint resolve_all (resolved : PathMap) (l : list bytes) : sandbox PathMap :=
  match l with
  | [] => ret resolved
  | p :: l' => let* m := resolve_into resolved p in resolve_all m l'
  end.

Definition opt_list {A} (o : option A) : list A := match o with Some x => [x] | None => [] end.

(** The checks before anything is resolved; the store's directory is created. *)
Definition check_bwrap_paths (policy : SandboxPolicy) : sandbox () :=
  each (fun p => validate_linux_bind_path p (bs "policy")) (sp_fs_read policy ++ sp_fs_write policy) ;;;
  each_opt (fun uds => validate_linux_bind_path uds (bs "proxy_uds")) (sp_proxy_uds policy) ;;;
  each_opt (fun uds => validate_linux_bind_path uds (bs "broker_uds")) (sp_broker_uds policy) ;;;
  each_opt (fun ps =>
    each (fun p => validate_linux_bind_path p (bs "persistent_store")) [ps_host_backing ps; ps_guest_mount ps] ;;;
    let* file := effect (os_is_file (ps_host_backing ps)) in
    if (file : bool) then
      throw (Backend (bs "persistent_store host_backing " ++ path_debug (ps_host_backing ps) ++
        bs " is a file, but the bwrap backend expects a directory (a file is the Firecracker ext4-image form)"))
    else
      let* made := effect (os_create_dir_all (ps_host_backing ps)) in
      match made with
      | Ok _ => emit (SbCreated (ps_host_backing ps))
      | Err e => throw (Backend (bs "persistent_store host_backing " ++ path_debug (ps_host_backing ps) ++ bs ": " ++ e))
      end) (sp_persistent_store policy).

(** [cmd.spawn()] *)
Definition spawn_cmd (what : bytes) (c : Cmd) : sandbox nat :=
  emit (SbSpawned c) ;;;
  let* r := effect (os_spawn c) in
  match r with Ok child => ret child | Err e => throw (Backend (what ++ bs " spawn failed: " ++ e)) end.

(** The paths resolved before the spawn, in the order of the code. *)
Definition host_sources (policy : SandboxPolicy) : list bytes :=
  sp_fs_read policy ++ sp_fs_write policy ++ opt_list (sp_proxy_uds policy) ++ opt_list (sp_broker_uds policy) ++
  opt_list (ps_host_backing <$> sp_persistent_store policy).

Definition spawn_bwrap (policy : SandboxPolicy) (program : bytes) (args : list bytes) : sandbox nat :=
  check_bwrap_paths policy ;;;
  let* resolved := resolve_all [] (host_sources policy) in
  let resolve := fun p => default p (pm_get p resolved) in
  let bwrap_argv := build_argv_with_resolver policy program args resolve in
  spawn_cmd (bs "systemd-run+bwrap") (mkCmd (build_systemd_run_argv policy ++ bwrap_argv) None None).

End Backend.

Example components_abs : components (bs "/a//b/./../c.d/") = [RootDir; Normal (bs "a"); Normal (bs "b"); ParentDir; Normal (bs "c.d")].
Proof. reflexivity. Qed.
Example components_rel : components (bs "./a") = [CurDir; Normal (bs "a")].
Proof. reflexivity. Qed.
Example parents : map path_parent [bs "/a/b"; bs "/a//b/"; bs "/a"; bs "/"; bs "a"; bs "./a"; bs "."] =
  [Some (bs "/a"); Some (bs "/a"); Some (bs "/"); None; Some []; Some (bs "."); Some []].
Proof. reflexivity. Qed.
Example file_names : map path_file_name [bs "/a/b/."; bs "/"; bs "/a/.."] = [Some (bs "b"); None; None].
Proof. reflexivity. Qed.

(** * What [bwrap] and [systemd-run] read *)

Section Reader.
(** The number of arguments of an option. *)
Variable arity : bytes -> option nat.

(** Options up to [--], each with its arguments, and the words after it.  [fuel]
    is the number of words. *)
Fixpoint read_options (fuel : nat) (argv : list bytes) : option (list (bytes * list bytes) * list bytes) :=
  match fuel, argv with
  | S fuel', w :: rest =>
      if bytes_eqb w (bs "--") then Some ([], rest)
      else n ← arity w;
           guard (n <= length rest)%nat;;
           '(opts, cmd) ← read_options fuel' (drop n rest);
           Some ((w, take n rest) :: opts, cmd)
  | _, _ => None
  end.

Definition group_words (g : bytes * list bytes) : list bytes := g.1 :: g.2.

Definition reads_as (g : bytes * list bytes) : Prop := g.1 <> bs "--" /\ arity g.1 = Some (length g.2).

Lemma read_options_groups gs cmd fuel :
  Forall reads_as gs -> (length (mbind group_words gs ++ bs "--" :: cmd) <= fuel)%nat ->
  read_options fuel (mbind group_words gs ++ bs "--" :: cmd) = Some (gs, cmd).
Proof.
  revert fuel. induction gs as [|[f a] gs IH]; intros fuel Hgs Hf.
  - destruct fuel; [simpl in Hf; lia|]. reflexivity.
  - apply list.Forall_cons in Hgs as [[Hne Ha] Hgs]. cbn [fst snd] in Hne, Ha.
    change (mbind group_words ((f, a) :: gs)) with ((f :: a) ++ mbind group_words gs) in Hf |- *.
    rewrite <- app_assoc in Hf |- *. cbn [app] in Hf |- *. destruct fuel; [simpl in Hf; lia|].
    cbn [length] in Hf. rewrite length_app in Hf. cbn [read_options].
    destruct (bytes_eqb f (bs "--")) eqn:E; [by apply bytes_eqb_eq in E|].
    rewrite Ha. cbn [mbind option_bind]. rewrite option_guard_True by (rewrite length_app; lia).
    rewrite drop_app_length, take_app_length, IH by (auto || lia). reflexivity.
Qed.
End Reader.

(** ** The jail an option list describes *)

Inductive Mount :=
| Bind (writable optional : bool) (src dest : bytes)
| SpecialFs (kind dest : bytes)
| Symlink (target dest : bytes).

Record Jail := mkJail {
  j_unshared : bool; j_net_shared : bool; j_userns_locked : bool; j_dies_with_parent : bool; j_new_session : bool;
  j_pid1 : bool; j_env : option (list (bytes * bytes)); j_mounts : list Mount }.

Definition open_jail : Jail := mkJail false true false false false false None [].

Definition add_mount (m : Mount) (j : Jail) : Jail :=
  mkJail (j_unshared j) (j_net_shared j) (j_userns_locked j) (j_dies_with_parent j) (j_new_session j) (j_pid1 j)
    (j_env j) (j_mounts j ++ [m]).

(** Each option as bwrap(1) describes it; [None] for one this file does not know. *)
Definition apply_option (j : Jail) (g : bytes * list bytes) : option Jail :=
  let flag s := bytes_eqb g.1 (bs s) in
  match g.2 with
  | [] =>
      if flag "--unshare-all" then
        Some (mkJail true false (j_userns_locked j) (j_dies_with_parent j) (j_new_session j) (j_pid1 j) (j_env j) (j_mounts j))
      else if flag "--share-net" then
        Some (mkJail (j_unshared j) true (j_userns_locked j) (j_dies_with_parent j) (j_new_session j) (j_pid1 j) (j_env j) (j_mounts j))
      else if flag "--unshare-user" then Some j
      else if flag "--disable-userns" then
        Some (mkJail (j_unshared j) (j_net_shared j) true (j_dies_with_parent j) (j_new_session j) (j_pid1 j) (j_env j) (j_mounts j))
      else if flag "--die-with-parent" then
        Some (mkJail (j_unshared j) (j_net_shared j) (j_userns_locked j) true (j_new_session j) (j_pid1 j) (j_env j) (j_mounts j))
      else if flag "--new-session" then
        Some (mkJail (j_unshared j) (j_net_shared j) (j_userns_locked j) (j_dies_with_parent j) true (j_pid1 j) (j_env j) (j_mounts j))
      else if flag "--as-pid-1" then
        Some (mkJail (j_unshared j) (j_net_shared j) (j_userns_locked j) (j_dies_with_parent j) (j_new_session j) true (j_env j) (j_mounts j))
      else if flag "--clearenv" then
        Some (mkJail (j_unshared j) (j_net_shared j) (j_userns_locked j) (j_dies_with_parent j) (j_new_session j) (j_pid1 j) (Some []) (j_mounts j))
      else None
  | [a] =>
      if flag "--proc" || flag "--dev" || flag "--tmpfs" then Some (add_mount (SpecialFs g.1 a) j) else None
  | [a; b] =>
      if flag "--setenv" then
        Some (mkJail (j_unshared j) (j_net_shared j) (j_userns_locked j) (j_dies_with_parent j) (j_new_session j) (j_pid1 j)
                ((fun e => e ++ [(a, b)]) <$> j_env j) (j_mounts j))
      else if flag "--ro-bind" then Some (add_mount (Bind false false a b) j)
      else if flag "--ro-bind-try" then Some (add_mount (Bind false true a b) j)
      else if flag "--bind" then Some (add_mount (Bind true false a b) j)
      else if flag "--bind-try" then Some (add_mount (Bind true true a b) j)
      else if flag "--symlink" then Some (add_mount (Symlink a b) j)
      else None
  | _ => None
  end.

Fixpoint apply_options (j : Jail) (gs : list (bytes * list bytes)) : option Jail :=
  match gs with
  | [] => Some j
  | g :: gs' => j' ← apply_option j g; apply_options j' gs'
  end.

Definition read_jail (arity : bytes -> option nat) (argv : list bytes) : option (Jail * list bytes) :=
  match argv with
  | name :: rest =>
      guard (name = bs "bwrap");;
      '(gs, cmd) ← read_options arity (length rest) rest;
      j ← apply_options open_jail gs;
      Some (j, cmd)
  | [] => None
  end.

(** The options the code uses, with their number of arguments in bwrap(1). *)
Definition documented_arities : list (bytes * nat) :=
  map (fun s => (bs s, 0%nat)) ["--unshare-all"; "--share-net"; "--unshare-user"; "--disable-userns"; "--die-with-parent";
    "--new-session"; "--as-pid-1"; "--clearenv"] ++
  map (fun s => (bs s, 1%nat)) ["--proc"; "--dev"; "--tmpfs"] ++
  map (fun s => (bs s, 2%nat)) ["--setenv"; "--ro-bind"; "--ro-bind-try"; "--bind"; "--bind-try"; "--symlink"].

(** ** The jail of a policy *)

Definition base_mounts : list Mount :=
  [SpecialFs (bs "--proc") (bs "/proc"); SpecialFs (bs "--dev") (bs "/dev"); SpecialFs (bs "--tmpfs") (bs "/tmp");
   Bind false false (bs "/usr") (bs "/usr"); Symlink (bs "usr/bin") (bs "/bin"); Symlink (bs "usr/sbin") (bs "/sbin");
   Symlink (bs "usr/lib") (bs "/lib"); Symlink (bs "usr/lib64") (bs "/lib64");
   Bind false true (bs "/etc/ld.so.cache") (bs "/etc/ld.so.cache")].

Definition granted_mounts (resolve : bytes -> bytes) (policy : SandboxPolicy) : list Mount :=
  map (fun p => Bind false true (resolve p) p) (sp_fs_read policy) ++
  map (fun p => Bind true true (resolve p) p) (sp_fs_write policy) ++
  map (fun p => Bind true false (resolve p) p) (opt_list (sp_proxy_uds policy)) ++
  map (fun p => Bind true false (resolve p) p) (opt_list (sp_broker_uds policy)) ++
  map (fun ps => Bind true false (resolve (ps_host_backing ps)) (ps_guest_mount ps)) (opt_list (sp_persistent_store policy)).

(** The host's network is reachable for the proxy and for an allowlisted worker
    that has no proxy. *)
Definition net_shared (policy : SandboxPolicy) : bool :=
  match sp_net policy with
  | NetDeny => false
  | NetAllowlist _ => negb (bool_decide (is_Some (sp_proxy_uds policy)))
  | ProxyEgress => true
  end.

Definition policy_jail (resolve : bytes -> bytes) (policy : SandboxPolicy) : Jail :=
  mkJail true (net_shared policy) true true true true (Some (sp_env policy)) (base_mounts ++ granted_mounts resolve policy).

(** ** The words of a policy, option by option *)

Definition net_groups (policy : SandboxPolicy) : list (bytes * list bytes) := map (fun f => (f, [])) (net_flags policy).

Definition fixed_groups : list (bytes * list bytes) :=
  map (fun f => (f, [])) (USERNS_LOCKDOWN_FLAGS ++ [bs "--die-with-parent"; bs "--new-session"; bs "--as-pid-1"; bs "--clearenv"]).

Definition base_groups : list (bytes * list bytes) :=
  [(bs "--proc", [bs "/proc"]); (bs "--dev", [bs "/dev"]); (bs "--tmpfs", [bs "/tmp"]);
   (bs "--ro-bind", [bs "/usr"; bs "/usr"]); (bs "--symlink", [bs "usr/bin"; bs "/bin"]);
   (bs "--symlink", [bs "usr/sbin"; bs "/sbin"]); (bs "--symlink", [bs "usr/lib"; bs "/lib"]);
   (bs "--symlink", [bs "usr/lib64"; bs "/lib64"]);
   (bs "--ro-bind-try", [bs "/etc/ld.so.cache"; bs "/etc/ld.so.cache"])].

Definition bind_group (m : Mount) : bytes * list bytes :=
  match m with
  | Bind w o src dest => ((if w then if o then bs "--bind-try" else bs "--bind"
                           else if o then bs "--ro-bind-try" else bs "--ro-bind"), [src; dest])
  | SpecialFs kind dest => (kind, [dest])
  | Symlink target dest => (bs "--symlink", [target; dest])
  end.

Definition policy_groups (resolve : bytes -> bytes) (policy : SandboxPolicy) : list (bytes * list bytes) :=
  (bs "--unshare-all", []) :: net_groups policy ++ fixed_groups ++
  map (fun '(k, v) => (bs "--setenv", [k; v])) (sp_env policy) ++ base_groups ++
  map bind_group (granted_mounts resolve policy).

Lemma mbind_map {A B C} (f : B -> list C) (g : A -> B) l : mbind f (map g l) = mbind (fun x => f (g x)) l.
Proof. induction l as [|x l IH]; [reflexivity|]. cbn [map mbind list_bind]. by f_equal. Qed.

Lemma opt_list_words {A B} (f : A -> list B) o : match o with Some x => f x | None => [] end = mbind f (opt_list o).
Proof. destruct o; [|reflexivity]. cbn [opt_list mbind list_bind]. by rewrite app_nil_r. Qed.

Lemma argv_groups policy program args resolve :
  build_argv_with_resolver policy program args resolve =
  bs "bwrap" :: mbind group_words (policy_groups resolve policy) ++ bs "--" :: program :: args.
Proof.
  unfold build_argv_with_resolver, policy_groups, granted_mounts.
  rewrite !(opt_list_words _ (sp_proxy_uds policy)), !(opt_list_words _ (sp_broker_uds policy)), !(opt_list_words _ (sp_persistent_store policy)).
  cbn [mbind list_bind]. fold (@mbind list list_bind). rewrite !map_app, !bind_app, !mbind_map.
  change (mbind group_words fixed_groups) with (USERNS_LOCKDOWN_FLAGS ++ [bs "--die-with-parent"; bs "--new-session"; bs "--as-pid-1"; bs "--clearenv"]).
  change (mbind group_words base_groups) with base_flags.
  replace (mbind group_words (net_groups policy)) with (net_flags policy)
    by (unfold net_groups, net_flags; destruct (sp_net policy), (sp_proxy_uds policy); reflexivity).
  rewrite <- ?app_assoc. cbn [group_words fst snd app].
  replace (sp_env policy ≫= (fun x => group_words (let '(k, v) := x in (bs "--setenv", [k; v]))))
    with (sp_env policy ≫= (fun '(k, v) => [bs "--setenv"; k; v]))
    by (induction (sp_env policy) as [|[k v] l IH]; [reflexivity|]; cbn [mbind list_bind]; by f_equal).
  reflexivity.
Qed.

Section Jailed.
Variable arity : bytes -> option nat.
Hypothesis arity_documented : Forall (fun '(f, n) => arity f = Some n) documented_arities.

Lemma arity_of f n : (f, n) ∈ documented_arities -> arity f = Some n.
Proof. intros Hin. by apply (proj1 (list.Forall_forall _ _) arity_documented) in Hin. Qed.

(** An option with its arguments, looked up in the documented list. *)
Lemma reads_documented f a : (f, length a) ∈ documented_arities -> reads_as arity (f, a).
Proof.
  intros Hin. split; [|by apply arity_of]. intros E. cbn [fst] in E. subst f. clear -Hin. revert Hin.
  assert (Forall (fun g => g.1 <> bs "--") documented_arities) as Hne by (vm_compute; repeat constructor; discriminate).
  intros Hin. by apply (proj1 (list.Forall_forall _ _) Hne) in Hin.
Qed.

Ltac documented := apply reads_documented; vm_compute; repeat (left || right).

Lemma policy_groups_read resolve policy : Forall (reads_as arity) (policy_groups resolve policy).
Proof.
  unfold policy_groups. apply list.Forall_cons. split; [documented|]. apply list.Forall_app. split.
  { unfold net_groups, net_flags. destruct (sp_net policy), (sp_proxy_uds policy); repeat constructor; documented. }
  apply list.Forall_app. split; [unfold fixed_groups; repeat (apply list.Forall_cons; split; [documented|]); constructor|].
  apply list.Forall_app. split; [apply List.Forall_map, list.Forall_true; intros [k v]; documented|].
  apply list.Forall_app. split; [unfold base_groups; repeat (apply list.Forall_cons; split; [documented|]); constructor|].
  apply List.Forall_map. unfold granted_mounts. rewrite !list.Forall_app, !List.Forall_map.
  repeat split; apply list.Forall_true; intros x; documented.
Qed.


Lemma apply_options_app j gs gs' : apply_options j (gs ++ gs') = j' ← apply_options j gs; apply_options j' gs'.
Proof.
  revert j. induction gs as [|g gs IH]; intros j; [reflexivity|]. cbn [app apply_options].
  destruct (apply_option j g); cbn [mbind option_bind]; [apply IH|reflexivity].
Qed.

(** A jail with its environment and mounts replaced. *)
Definition with_env_mounts (j : Jail) (env : list (bytes * bytes)) (ms : list Mount) : Jail :=
  mkJail (j_unshared j) (j_net_shared j) (j_userns_locked j) (j_dies_with_parent j) (j_new_session j) (j_pid1 j) (Some env) ms.

Lemma apply_setenvs j env0 env :
  j_env j = Some env0 ->
  apply_options j (map (fun '(k, v) => (bs "--setenv", [k; v])) env) = Some (with_env_mounts j (env0 ++ env) (j_mounts j)).
Proof.
  revert j env0. induction env as [|[k v] env IH]; intros j env0 He.
  - cbn [map apply_options]. rewrite app_nil_r. unfold with_env_mounts. destruct j. cbn in He |- *. by subst.
  - cbn [map apply_options]. change (apply_option j (bs "--setenv", [k; v])) with
      (Some (mkJail (j_unshared j) (j_net_shared j) (j_userns_locked j) (j_dies_with_parent j) (j_new_session j) (j_pid1 j)
               ((fun e => e ++ [(k, v)]) <$> j_env j) (j_mounts j))).
    cbn [mbind option_bind]. rewrite (IH _ (env0 ++ [(k, v)])) by (cbn [j_env]; by rewrite He).
    by rewrite <- app_assoc.
Qed.

Lemma apply_binds j ms :
  Forall (fun m => match m with Bind _ _ _ _ => True | _ => False end) ms ->
  apply_options j (map bind_group ms) =
  Some (mkJail (j_unshared j) (j_net_shared j) (j_userns_locked j) (j_dies_with_parent j) (j_new_session j) (j_pid1 j)
          (j_env j) (j_mounts j ++ ms)).
Proof.
  revert j. induction ms as [|m ms IH]; intros j Hms.
  - cbn [map apply_options]. rewrite app_nil_r. by destruct j.
  - apply list.Forall_cons in Hms as [Hm Hms]. cbn [map apply_options].
    assert (apply_option j (bind_group m) = Some (add_mount m j)) as ->
      by (destruct m as [[] [] src dest| |]; [reflexivity..|done|done]).
    cbn [mbind option_bind]. rewrite IH by done. unfold add_mount. cbn. by rewrite <- app_assoc.
Qed.

Lemma granted_are_binds resolve policy :
  Forall (fun m => match m with Bind _ _ _ _ => True | _ => False end) (granted_mounts resolve policy).
Proof. unfold granted_mounts. rewrite !list.Forall_app, !List.Forall_map. repeat split; by apply list.Forall_true. Qed.

Lemma policy_groups_jail resolve policy :
  apply_options open_jail (policy_groups resolve policy) = Some (policy_jail resolve policy).
Proof.
  unfold policy_groups. cbn [apply_options].
  change (apply_option open_jail (bs "--unshare-all", [])) with (Some (mkJail true false false false false false None [])).
  cbn [mbind option_bind]. rewrite apply_options_app.
  assert (apply_options (mkJail true false false false false false None []) (net_groups policy) =
          Some (mkJail true (net_shared policy) false false false false None [])) as ->.
  { unfold net_groups, net_flags, net_shared. by destruct (sp_net policy), (sp_proxy_uds policy). }
  cbn [mbind option_bind]. rewrite apply_options_app.
  assert (forall b, apply_options (mkJail true b false false false false None []) fixed_groups =
          Some (mkJail true b true true true true (Some []) [])) as -> by reflexivity.
  cbn [mbind option_bind]. rewrite apply_options_app, (apply_setenvs _ []) by reflexivity.
  cbn [mbind option_bind]. rewrite apply_options_app.
  assert (forall j, j_mounts j = [] -> apply_options j base_groups =
          Some (mkJail (j_unshared j) (j_net_shared j) (j_userns_locked j) (j_dies_with_parent j) (j_new_session j) (j_pid1 j)
          (j_env j) base_mounts)) as -> by (try done; intros [] E; cbn in E; by subst).
  cbn [mbind option_bind]. rewrite apply_binds by apply granted_are_binds. all: reflexivity.
Qed.

Lemma read_jail_policy policy program args resolve :
  read_jail arity (build_argv_with_resolver policy program args resolve) = Some (policy_jail resolve policy, program :: args).
Proof.
  rewrite argv_groups. unfold read_jail. rewrite option_guard_True by done.
  rewrite read_options_groups by (done || apply policy_groups_read). cbn [mbind option_bind].
  by rewrite policy_groups_jail.
Qed.
End Jailed.

(** * Spawning *)

(** Where [q] came from when it stands for the host path [p]: the file system
    resolved [p], or its directory, or knows neither. *)
Definition resolution (t : list SandboxEv) (p q : bytes) : Prop :=
  SbCanonical p (Ok q) ∈ t \/
  (exists e, SbCanonical p (Err (NotFound e)) ∈ t) /\
  ((exists parent name dir, path_parent p = Some parent /\ path_file_name p = Some name /\
     SbCanonical parent (Ok dir) ∈ t /\ q = path_join dir name) \/
   q = p /\ (path_parent p = None \/ path_file_name p = None \/
     exists parent e, path_parent p = Some parent /\ SbCanonical parent (Err (NotFound e)) ∈ t)).

Definition safe_path (p : bytes) : Prop := is_absolute p = true /\ ParentDir ∉ components p.

Definition policy_paths (policy : SandboxPolicy) : list bytes :=
  host_sources policy ++ opt_list (ps_guest_mount <$> sp_persistent_store policy).

Lemma resolution_mono t t' p q : t ⊆ t' -> resolution t p q -> resolution t' p q.
Proof.
  intros Hsub [H|[[e He] [(parent & name & dir & Hp & Hn & Hd & Hq)|[Hq Hwhy]]]]; [left; by apply Hsub|right; split; [eauto|]..].
  - left. exists parent, name, dir. auto.
  - right. split; [done|]. destruct Hwhy as [?|[?|(parent & e' & ? & ?)]]; [auto..|]. right; right. exists parent, e'. auto.
Qed.

Section Spawning.
Context `{HostOs W} `{UnicodeDebug}.
Notation sandbox A := (prog W SandboxEv SandboxError A).

(** Nothing was spawned in [t], which extends [t0]. *)
Definition quiet (t0 t : list SandboxEv) : Prop :=
  t0 ⊆ t /\ forall c, SbSpawned c ∈ t -> SbSpawned c ∈ t0.

Lemma quiet_refl t : quiet t t.
Proof. by split. Qed.

Lemma quiet_trans a b c : quiet a b -> quiet b c -> quiet a c.
Proof. intros [H1 H2] [H3 H4]. split; [by etransitivity|auto]. Qed.

Lemma quiet_cons a t e : (forall c, e <> SbSpawned c) -> quiet a t -> quiet a (e :: t).
Proof.
  intros He [H1 H2]. split; [intros x Hx; right; auto|]. intros c [E|Hc]%elem_of_cons; [by destruct (He c)|auto].
Qed.

Lemma spec_validate p kind t0 :
  spec (quiet t0) (validate_linux_bind_path p kind : sandbox ())
    (fun r t => quiet t0 t /\ match r with Ok _ => safe_path p | Err _ => True end).
Proof.
  unfold validate_linux_bind_path. destruct (is_absolute p) eqn:Ha; cbn [negb]; [|by apply spec_throw].
  destruct (existsb _ _) eqn:Hx; [by apply spec_throw|]. apply spec_ret. intros t Ht. split; [done|]. split; [done|].
  intros Hin. apply Bool.not_true_iff_false in Hx. apply Hx, existsb_exists. exists ParentDir.
  split; [by apply list_elem_of_In|by apply bool_decide_eq_true].
Qed.

Lemma spec_each {A} (f : A -> sandbox ()) (Q : A -> Prop) l t0 :
  (forall x t1, spec (quiet t1) (f x) (fun r t => quiet t1 t /\ match r with Ok _ => Q x | Err _ => True end)) ->
  spec (quiet t0) (each f l) (fun r t => quiet t0 t /\ match r with Ok _ => Forall Q l | Err _ => True end).
Proof.
  intros Hf. induction l as [|x l IH]; [apply spec_ret; auto|]. cbn [each].
  eapply spec_bind; [apply (Hf x)|by intros|]. intros []. apply spec_pure. intros HQ.
  eapply spec_weaken; [apply IH|done|]. intros [[]|e] t [Ht Hl]; auto.
Qed.

Lemma spec_each_opt {A} (f : A -> sandbox ()) (Q : A -> Prop) o t0 :
  (forall x t1, spec (quiet t1) (f x) (fun r t => quiet t1 t /\ match r with Ok _ => Q x | Err _ => True end)) ->
  spec (quiet t0) (each_opt f o) (fun r t => quiet t0 t /\ match r with Ok _ => Forall Q (opt_list o) | Err _ => True end).
Proof.
  intros Hf. destruct o as [x|]; [|apply spec_ret; cbn; auto]. eapply spec_weaken; [apply Hf|done|].
  intros [[]|e] t [Ht HQ]; cbn; auto.
Qed.

(** The checks let only safe paths pass, and spawn nothing. *)
Lemma spec_check_bwrap_paths policy t0 :
  spec (quiet t0) (check_bwrap_paths policy)
    (fun r t => quiet t0 t /\ match r with Ok _ => Forall safe_path (policy_paths policy) | Err _ => True end).
Proof.
  unfold check_bwrap_paths. eapply spec_bind; [apply (spec_each _ safe_path); intros; apply spec_validate|by intros|].
  intros []. apply spec_pure. intros H1.
  eapply spec_bind; [apply (spec_each_opt _ safe_path); intros; apply spec_validate|by intros|]. intros []. apply spec_pure. intros H2.
  eapply spec_bind; [apply (spec_each_opt _ safe_path); intros; apply spec_validate|by intros|]. intros []. apply spec_pure. intros H3.
  eapply spec_weaken; [apply (spec_each_opt _ (fun ps => Forall safe_path [ps_host_backing ps; ps_guest_mount ps]))|done|].
  - intros ps t1. eapply spec_bind; [apply (spec_each _ safe_path); intros; apply spec_validate|by intros|].
    intros []. apply spec_pure. intros Hps. apply spec_bind_effect. intros [].
    { apply spec_throw. auto. }
    apply spec_bind_effect. intros [[]|e]; [|apply spec_throw; auto]. apply spec_emit. intros t Ht.
    split; [by apply quiet_cons|done].
  - intros [[]|e] t [Ht HQ]; [|done]. split; [done|]. unfold policy_paths, host_sources.
    apply list.Forall_app in H1 as [? ?]. rewrite !list.Forall_app. destruct (sp_persistent_store policy) as [ps|]; cbn in *.
    + apply list.Forall_cons in HQ as [HQ _]. apply list.Forall_cons in HQ as [? HQ]. apply list.Forall_cons in HQ as [? _].
      repeat split; auto.
    + repeat split; auto.
Qed.

Lemma spec_canonicalize_one p t0 :
  spec (quiet t0) (canonicalize_one p)
    (fun r t => quiet t0 t /\ match r with Ok q => resolution t p q | Err _ => True end).
Proof.
  unfold canonicalize_one, fs_canonicalize, resolution. intros w t Ht. unfold bind, effect, emit, ret, throw.
  destruct (os_canonicalize p w) as [[q|[e|e]] w1].
  - split; [by apply quiet_cons|]. left. apply elem_of_cons. by left.
  - destruct (path_parent p) as [parent|] eqn:Hp, (path_file_name p) as [name|] eqn:Hn;
      try (split; [by apply quiet_cons|]; right; split; [exists e; apply elem_of_cons; by left|]; right; by eauto).
    destruct (os_canonicalize parent w1) as [[d|[e'|e']] w2].
    + split; [by repeat (apply quiet_cons; [done|])|]. right. split; [exists e; right; left|].
      left. exists parent, name, d. repeat split; [done..|left].
    + split; [by repeat (apply quiet_cons; [done|])|]. right. split; [exists e; right; left|].
      right. split; [done|]. right; right. exists parent, e'. split; [done|left].
    + split; [by repeat (apply quiet_cons; [done|])|done].
  - split; [by apply quiet_cons|done].
Qed.

Lemma pm_get_insert p k v m : pm_get p (pm_insert k v m) = if path_eqb p k then Some v else pm_get p m.
Proof.
  unfold path_eqb. induction m as [|[k' v'] m IH]; cbn [pm_insert pm_get]; [done|]. unfold path_eqb in *.
  destruct (decide (components k = components k')) as [E|E].
  - rewrite (bool_decide_eq_true_2 _ E). cbn [pm_get]. unfold path_eqb. rewrite E. clear IH. by repeat case_bool_decide.
  - rewrite (bool_decide_eq_false_2 _ E). cbn [pm_get]. unfold path_eqb. rewrite IH.
    destruct (decide (components p = components k')) as [E'|E']; [|by rewrite (bool_decide_eq_false_2 _ E')].
    rewrite (bool_decide_eq_true_2 _ E'), bool_decide_eq_false_2; [done|congruence].
Qed.

(** Every path of [ps] has an entry, which came from the file system. *)
Definition resolved_in (t : list SandboxEv) (m : PathMap) (ps : list bytes) : Prop :=
  forall p, p ∈ ps -> exists p' q, pm_get p m = Some q /\ components p' = components p /\ p' ∈ ps /\ resolution t p' q.

Lemma resolved_in_insert t t' m ps p q :
  t ⊆ t' -> resolved_in t m ps -> resolution t' p q -> resolved_in t' (pm_insert p q m) (ps ++ [p]).
Proof.
  intros Hsub Hm Hq x Hx. rewrite pm_get_insert. unfold path_eqb. destruct (decide (components x = components p)) as [E|E].
  - rewrite (bool_decide_eq_true_2 _ E). exists p, q. repeat split; [done| |done]. apply elem_of_app. right. by left.
  - rewrite (bool_decide_eq_false_2 _ E). apply elem_of_app in Hx as [Hx|Hx%list_elem_of_singleton]; [|by subst].
    destruct (Hm x Hx) as (p' & q' & Hg & Hc & Hin & Hr). exists p', q'. repeat split; [done..| |by apply (resolution_mono t)].
    apply elem_of_app. by left.
Qed.

Lemma spec_resolve_all l m ps t0 :
  spec (fun t => quiet t0 t /\ resolved_in t m ps) (resolve_all m l)
    (fun r t => quiet t0 t /\ match r with Ok m' => resolved_in t m' (ps ++ l) | Err _ => True end).
Proof.
  revert m ps. induction l as [|p l IH]; intros m ps; cbn [resolve_all].
  - apply spec_ret. intros t [Ht Hm]. by rewrite app_nil_r.
  - eapply (spec_bind _ _ (fun r t => quiet t0 t /\ match r with Ok m' => resolved_in t m' (ps ++ [p]) | Err _ => True end)).
    + unfold resolve_into. intros w t [Ht Hm].
      pose proof (spec_canonicalize_one p t w t (quiet_refl t)) as Hc. unfold bind.
      destruct (canonicalize_one p w t) as [[[q|e] w'] t']; destruct Hc as [Hq Hr].
      * split; [by apply (quiet_trans _ t)|]. apply (resolved_in_insert t); [apply Hq|done|done].
      * split; [by apply (quiet_trans _ t)|done].
    + by intros.
    + intros m'. eapply spec_weaken; [apply (IH m' (ps ++ [p]))|done|].
      intros [m''|e] t [Ht Hm]; [|done]. by rewrite <- app_assoc in Hm.
Qed.

Lemma spec_spawn_cmd what c (P : list SandboxEv -> Prop) :
  spec P (spawn_cmd what c) (fun r t => exists t1, P t1 /\ t = SbSpawned c :: t1).
Proof.
  intros w t Ht. unfold spawn_cmd, bind, emit, effect. destruct (os_spawn c w) as [[n|e] w']; cbn; eauto.
Qed.

(** What the spawn hands to [systemd-run], and with which paths resolved. *)
Definition bwrap_command (policy : SandboxPolicy) (program : bytes) (args : list bytes) (resolve : bytes -> bytes) : Cmd :=
  mkCmd (build_systemd_run_argv policy ++ build_argv_with_resolver policy program args resolve) None None.

Lemma spec_spawn_bwrap policy program args :
  spec (fun t => t = []) (spawn_bwrap policy program args)
    (fun _ t => forall c, SbSpawned c ∈ t ->
       Forall safe_path (policy_paths policy) /\
       exists resolved, resolved_in t resolved (host_sources policy) /\
         c = bwrap_command policy program args (fun p => default p (pm_get p resolved))).
Proof.
  unfold spawn_bwrap.
  eapply spec_weaken with (P' := quiet []) (Q' := fun _ t => _); [|intros t ->; apply quiet_refl|intros r t HQ; exact HQ].
  eapply spec_bind; [apply spec_check_bwrap_paths| |].
  { intros e t [Ht _] c Hc. apply Ht in Hc. by apply elem_of_nil in Hc. }
  intros []. apply spec_pure. intros Hsafe.
  eapply spec_bind; [eapply spec_weaken; [apply (spec_resolve_all (host_sources policy) [] [] [])| |intros r t HQ; exact HQ]| |].
  { intros t Ht. split; [done|]. by intros p Hp%elem_of_nil. }
  { intros e t [Ht _] c Hc. apply Ht in Hc. by apply elem_of_nil in Hc. }
  intros m. cbn [app]. eapply spec_weaken; [apply spec_spawn_cmd|intros t Ht; exact Ht|].
  intros r t (t1 & [Ht1 Hm] & ->) c Hc. split; [done|]. exists m. split.
  - intros p Hp. destruct (Hm p Hp) as (p' & q & ? & ? & ? & Hr). exists p', q. repeat split; [done..|].
    eapply resolution_mono; [|done]. intros x Hx. by right.
  - apply elem_of_cons in Hc as [Hc|Hc]; [by injection Hc|]. apply Ht1 in Hc. by apply elem_of_nil in Hc.
Qed.
End Spawning.

(** ** What [systemd-run] reads *)

Definition documented_scope : list (bytes * nat) :=
  map (fun s => (bs s, 0%nat)) ["--user"; "--scope"; "--quiet"; "--collect"] ++ [(bs "-p", 1%nat)].

(** The unit properties set with [-p], and the command run in the scope. *)
Definition read_scope (arity : bytes -> option nat) (argv : list bytes) : option (list bytes * list bytes) :=
  match argv with
  | name :: rest =>
      guard (name = bs "systemd-run");;
      '(gs, cmd) ← read_options arity (length rest) rest;
      Some (mbind (fun g => if bytes_eqb g.1 (bs "-p") then g.2 else []) gs, cmd)
  | [] => None
  end.

(** The limits of a policy: memory without swap when it names one, CPU and tasks
    always. *)
Definition policy_limits (policy : SandboxPolicy) : list bytes :=
  (if 0 <? sp_mem_mb policy then [bs "MemoryMax=" ++ show_z (sp_mem_mb policy) ++ bs "M"; bs "MemorySwapMax=0"] else []) ++
  [bs "CPUQuota=" ++ show_z (default 200 (sp_cpu_quota_pct policy)) ++ bs "%";
   bs "TasksMax=" ++ show_z (default 64 (sp_tasks_max policy))].

Definition scope_groups (policy : SandboxPolicy) : list (bytes * list bytes) :=
  map (fun s => (bs s, [])) ["--user"; "--scope"; "--quiet"; "--collect"] ++
  map (fun l => (bs "-p", [l])) (policy_limits policy).

Lemma scope_words policy :
  build_systemd_run_argv policy = bs "systemd-run" :: mbind group_words (scope_groups policy) ++ [bs "--"].
Proof.
  unfold build_systemd_run_argv, scope_groups, policy_limits, DEFAULT_CPU_QUOTA_PCT, DEFAULT_TASKS_MAX. rewrite bind_app, mbind_map.
  by destruct (0 <? sp_mem_mb policy).
Qed.

Lemma read_scope_policy sarity policy inner :
  Forall (fun '(f, n) => sarity f = Some n) documented_scope ->
  read_scope sarity (build_systemd_run_argv policy ++ inner) = Some (policy_limits policy, inner).
Proof.
  intros Hs. rewrite scope_words. unfold read_scope. cbn [app]. rewrite option_guard_True by done.
  rewrite <- app_assoc. cbn [app]. rewrite (read_options_groups sarity (scope_groups policy) inner); [| |done].
  - cbn [mbind option_bind]. unfold scope_groups, policy_limits. by destruct (0 <? sp_mem_mb policy).
  - assert (forall f a, (f, length a) ∈ documented_scope -> reads_as sarity (f, a)) as Hr.
    { intros f a Hin. split; [|by apply (proj1 (list.Forall_forall _ _) Hs) in Hin]. intros E. cbn [fst] in E. subst f.
      revert Hin. vm_compute. intros Hin. repeat (apply elem_of_cons in Hin as [Hin|Hin]; [discriminate|]). by apply elem_of_nil in Hin. }
    unfold scope_groups. apply list.Forall_app. split.
    + repeat (apply list.Forall_cons; split; [apply Hr; vm_compute; repeat (left || right)|]). constructor.
    + apply List.Forall_map, list.Forall_true. intros l. apply Hr. vm_compute. repeat (left || right).
Qed.

(** * Claims *)

(** C7. Whatever the file system answers, a worker that [spawn_bwrap] starts runs
    in the jail of its policy: [systemd-run] reads the policy's limits, [bwrap]
    reads exactly the jail of the policy and the program with its arguments
    (whatever bytes the environment, the paths and the arguments hold), every path
    of the policy is absolute and without [..], and every host path is bound under
    the name the file system resolved it to. *)
Theorem spawned_worker_is_jailed `{HostOs W} `{UnicodeDebug} arity sarity policy program args (w : W) r w' t c :
  Forall (fun '(f, n) => arity f = Some n) documented_arities ->
  Forall (fun '(f, n) => sarity f = Some n) documented_scope ->
  spawn_bwrap policy program args w [] = (r, w', t) -> SbSpawned c ∈ t ->
  exists resolve inner,
    read_scope sarity (cmd_argv c) = Some (policy_limits policy, inner) /\
    read_jail arity inner = Some (policy_jail resolve policy, program :: args) /\
    Forall safe_path (policy_paths policy) /\
    forall p, p ∈ host_sources policy ->
      exists p', p' ∈ host_sources policy /\ components p' = components p /\ resolution t p' (resolve p).
Proof.
  intros Ha Hs Hrun Hc. pose proof (spec_spawn_bwrap policy program args w [] eq_refl) as Hspec. rewrite Hrun in Hspec.
  destruct (Hspec c Hc) as (Hsafe & resolved & Hres & ->).
  exists (fun p => default p (pm_get p resolved)), (build_argv_with_resolver policy program args (fun p => default p (pm_get p resolved))).
  split; [by apply read_scope_policy|]. split; [by apply read_jail_policy|]. split; [done|].
  intros p Hp. destruct (Hres p Hp) as (p' & q & -> & ? & ? & ?). by exists p'.
Qed.

Lemma spawn_bwrap_ok `{HostOs W} `{UnicodeDebug} policy program args (w : W) n w' t :
  spawn_bwrap policy program args w [] = (Ok n, w', t) -> exists c, SbSpawned c ∈ t.
Proof.
  unfold spawn_bwrap, bind. destruct (check_bwrap_paths policy w []) as [[[[]|e] w1] t1]; [|done].
  destruct (resolve_all [] (host_sources policy) w1 t1) as [[[m|e] w2] t2]; [|done].
  unfold spawn_cmd, bind, emit, effect. destruct (os_spawn _ w2) as [[k|e] w3]; [|done].
  intros [= <- <- <-]. eexists. by left.
Qed.

(** A policy with a path that is relative or holds a [..] component is
    refused: the spawn returns an error and no process is started. *)
Theorem unsafe_path_is_refused `{HostOs W} `{UnicodeDebug} policy program args p (w : W) r w' t :
  p ∈ policy_paths policy -> ~ safe_path p -> spawn_bwrap policy program args w [] = (r, w', t) ->
  (exists e, r = Err e) /\ forall c, SbSpawned c ∉ t.
Proof.
  intros Hp Hun Hrun. pose proof (spec_spawn_bwrap policy program args w [] eq_refl) as Hspec. rewrite Hrun in Hspec.
  assert (forall c, SbSpawned c ∉ t) as Hno.
  { intros c Hc. destruct (Hspec c Hc) as [Hsafe _]. by apply (proj1 (list.Forall_forall _ _) Hsafe) in Hp. }
  split; [|done]. destruct r as [n|e]; [|eauto]. destruct (spawn_bwrap_ok _ _ _ _ _ _ _ Hrun) as [c Hc]. by destruct (Hno c).
Qed.

(** ** A concrete host *)

(** [/srv/in] is a link to [/data/in]; the directory of the socket is one too. *)
#[local] Instance sandbox_demo_os : HostOs () := {|
  os_canonicalize p w :=
    ((if bytes_eqb p (bs "/srv/in") then Ok (bs "/data/in")
      else if bytes_eqb p (bs "/run/kastellan") then Ok (bs "/private/kastellan")
      else Err (NotFound (bs "No such file or directory"))), w);
  os_is_file _ w := (false, w); os_create_dir_all _ w := (Ok tt, w); os_spawn _ w := (Ok 7%nat, w) |}.

#[local] Instance sandbox_demo_debug : UnicodeDebug := {| escape_unicode c := c |}.

Definition sandbox_demo_policy : SandboxPolicy :=
  mkPolicy [bs "/srv/in"] [] (NetAllowlist [bs "example.org:443"]) 1000 64 WorkerNetClient None (Some 8)
    [(bs "X", bs "--share-net")] (Some (bs "/run/kastellan/p.sock")) None None.

Definition lookup_arity (l : list (bytes * nat)) (f : bytes) : option nat :=
  snd <$> List.find (fun g => bytes_eqb g.1 f) l.

Lemma spawned_worker_is_jailed_witness :
  exists c t, snd (spawn_bwrap sandbox_demo_policy (bs "/opt/w") [bs "--bind"] () []) = t /\ SbSpawned c ∈ t /\
    exists resolve inner,
      read_scope (lookup_arity documented_scope) (cmd_argv c) = Some (policy_limits sandbox_demo_policy, inner) /\
      read_jail (lookup_arity documented_arities) inner =
        Some (policy_jail resolve sandbox_demo_policy, [bs "/opt/w"; bs "--bind"]) /\
      Forall safe_path (policy_paths sandbox_demo_policy) /\
      forall p, p ∈ host_sources sandbox_demo_policy ->
        exists p', p' ∈ host_sources sandbox_demo_policy /\ components p' = components p /\ resolution t p' (resolve p).
Proof.
  destruct (spawn_bwrap sandbox_demo_policy (bs "/opt/w") [bs "--bind"] () []) as [[r w'] t] eqn:E.
  assert (exists c, SbSpawned c ∈ t) as [c Hc].
  { apply (spawn_bwrap_ok sandbox_demo_policy (bs "/opt/w") [bs "--bind"] () 7%nat w').
    rewrite E. vm_compute in E. by injection E as <- _ _. }
  exists c, t. split; [done|]. split; [done|].
  apply (spawned_worker_is_jailed (lookup_arity documented_arities) (lookup_arity documented_scope) _ _ _ () r w' t c);
    [vm_compute; repeat constructor|vm_compute; repeat constructor|exact E|exact Hc].
Defined.

Lemma unsafe_path_is_refused_witness :
  exists e, fst (fst (spawn_bwrap (mkPolicy [] [bs "/scratch/../etc"] NetDeny 0 0 WorkerStrict None None [] None None None)
    (bs "/opt/w") [] () [])) = Err e.
Proof.
  destruct (spawn_bwrap _ (bs "/opt/w") [] () []) as [[r w'] t] eqn:E.
  eapply (unsafe_path_is_refused _ _ _ (bs "/scratch/../etc") () r w' t) in E as [He _].
  - exact He.
  - by left.
  - intros [_ Hno]. apply Hno. vm_compute. right. right. left.
Defined.
