(* ===== verification/Seatbelt.v ===== *)
(** The macOS sandboxes: the Seatbelt profile (src/sandbox/src/macos_seatbelt.rs)
    and the command line of Apple's [container] (src/sandbox/src/macos_container.rs).

    A profile is a text of s-expressions; the reader of this file is a machine over
    its bytes, and the theorems compare what it reads with the rules of a policy.
    The operating system is the world of Sandbox.v. *)

From stdpp Require Import base list sets numbers strings option pretty.
From Stdlib Require Import ZArith Lia.
From S2P Require Import Prelude RustStr Json LoopPure Effects Sandbox.
Local Open Scope Z_scope.
Local Open Scope prog_scope.

(** A line of the profile; a double quote is written [~] in the literals of this
    file, which have no other use for it. *)
Definition quoted (s : string) : bytes := map (fun c => if c =? 126 then 34 else c) (bs s).
Definition line (s : string) : bytes := quoted s ++ [10].

(** * macos_seatbelt.rs *)

Definition WORKER_CWD : bytes := bs "/".

Definition base_profile : bytes :=
  mbind line ["(version 1)"; "(deny default)"; "(allow process-fork)"; "(allow process-exec*)";
    "(allow file-read* (literal ~/~))"; "(allow file-read* (subpath ~/usr/lib~))";
    "(allow file-read* (subpath ~/usr/libexec~))"; "(allow file-read* (subpath ~/System/Library~))";
    "(allow file-read-metadata (subpath ~/~))"; "(allow sysctl-read)";
    "(allow file-read* file-write* (literal ~/dev/null~))"; "(allow file-read* file-write* (literal ~/dev/zero~))";
    "(allow file-read* (literal ~/dev/random~))"; "(allow file-read* (literal ~/dev/urandom~))";
    "(allow file-read* file-write* (subpath ~/dev/fd~))"; "(allow file-read* file-write* (literal ~/dev/dtracehelper~))"].

Definition read_line (p : bytes) : bytes := quoted "(allow file-read* (subpath ~" ++ p ++ line "~))".
Definition write_line (p : bytes) : bytes := quoted "(allow file-read* file-write* (subpath ~" ++ p ++ line "~))".

Definition browser_profile : bytes :=
  mbind line ["(allow ipc-posix-shm*)"; "(allow iokit-open)"; "(allow iokit-get-properties)"; "(allow mach-lookup)";
    "(allow mach-register)"; "(allow sysctl-write)"; "(allow system-socket)"].

Definition loopback_profile : bytes :=
  mbind line ["(allow network-bind (local ip ~localhost:*~))"; "(allow network-inbound (local ip ~localhost:*~))";
    "(allow network-outbound (remote ip ~localhost:*~))"].

Definition is_browser (policy : SandboxPolicy) : bool :=
  match sp_profile policy with WorkerBrowserClient => true | _ => false end.

Section Profile.
Context `{UnicodeDebug}.

Definition socket_line (uds : bytes) : bytes :=
  quoted "(allow network-outbound (remote unix-socket (path-literal " ++ path_debug uds ++ line ")))".

Definition build_profile (policy : SandboxPolicy) : bytes :=
  base_profile ++
  mbind read_line (sp_fs_read policy) ++
  mbind write_line (sp_fs_write policy) ++
  match sp_persistent_store policy with Some ps => write_line (ps_guest_mount ps) | None => [] end ++
  (if is_browser policy then browser_profile else []) ++
  match sp_net policy, sp_proxy_uds policy with
  | NetAllowlist _, Some uds =>
      line "(deny network-outbound)" ++ socket_line uds ++ (if is_browser policy then loopback_profile else [])
  | NetAllowlist _, None | ProxyEgress, _ => line "(allow network*)"
  | NetDeny, _ => []
  end ++
  match sp_broker_uds policy with Some uds => socket_line uds | None => [] end.

(** Characters that would end the string of a rule or change the profile. *)
Definition structural (c : Z) : bool :=
  (c =? 34) || (c =? 92) || (c =? 40) || (c =? 41) || (c =? 10) || (c =? 13) || (c =? 0).

(** [{:?}] of such a character. *)
Definition structural_debug (c : Z) : bytes := bs "'" ++ (if c =? 34 then [34] else debug_ascii c) ++ bs "'".

Context `{HostOs W}.
Notation sandbox A := (prog W SandboxEv SandboxError A).

Definition check_seatbelt_path (p : bytes) : sandbox () :=
  if negb (is_absolute p) then throw (Backend (bs "policy paths must be absolute, got " ++ path_debug p))
  else match List.find structural p with
       | Some c => throw (Backend (bs "policy path contains disallowed character " ++ structural_debug c ++ bs ": " ++ path_debug p))
       | None => ret tt
       end.

Definition store_paths (policy : SandboxPolicy) : list bytes :=
  mbind (fun ps => [ps_host_backing ps; ps_guest_mount ps]) (opt_list (sp_persistent_store policy)).

(** [paths.iter().map(canonicalize_one).collect()] *)
Fixpoint canon_list (l : list bytes) : sandbox (list bytes) :=
  match l with
  | [] => ret []
  | p :: l' => let* q := canonicalize_one p in let* qs := canon_list l' in ret (q :: qs)
  end.

Definition canon_opt (o : option bytes) : sandbox (option bytes) :=
  match o with Some p => let* q := canonicalize_one p in ret (Some q) | None => ret None end.

Definition canonicalize_policy_paths (policy : SandboxPolicy) : sandbox SandboxPolicy :=
  let* fs_read := canon_list (sp_fs_read policy) in
  let* fs_write := canon_list (sp_fs_write policy) in
  let* proxy_uds := canon_opt (sp_proxy_uds policy) in
  let* broker_uds := canon_opt (sp_broker_uds policy) in
  let* store := match sp_persistent_store policy with
                | Some ps =>
                    let* host := canonicalize_one (ps_host_backing ps) in
                    let* guest := canonicalize_one (ps_guest_mount ps) in
                    ret (Some (mkStore host guest (ps_size_mib ps)))
                | None => ret None
                end in
  ret (mkPolicy fs_read fs_write (sp_net policy) (sp_cpu_ms policy) (sp_mem_mb policy) (sp_profile policy)
         (sp_cpu_quota_pct policy) (sp_tasks_max policy) (sp_env policy) proxy_uds broker_uds store).

Definition check_seatbelt_store (ps : PersistentStore) : sandbox () :=
  if negb (path_eqb (ps_host_backing ps) (ps_guest_mount ps)) then
    throw (Backend (bs "persistent_store on macOS requires host_backing == guest_mount (no path remap under Seatbelt), got host_backing="
      ++ path_debug (ps_host_backing ps) ++ bs " guest_mount=" ++ path_debug (ps_guest_mount ps)))
  else
    let* file := effect (os_is_file (ps_guest_mount ps)) in
    if (file : bool) then
      throw (Backend (bs "persistent_store guest_mount " ++ path_debug (ps_guest_mount ps) ++
        bs " is a file, but the Seatbelt backend expects a directory (a file is the Firecracker ext4-image form)"))
    else
      let* made := effect (os_create_dir_all (ps_guest_mount ps)) in
      match made with
      | Ok _ => emit (SbCreated (ps_guest_mount ps))
      | Err e => throw (Backend (bs "persistent_store guest_mount " ++ path_debug (ps_guest_mount ps) ++ bs ": " ++ e))
      end.

Definition seatbelt_command (profile program : bytes) (args : list bytes) (env : list (bytes * bytes)) : Cmd :=
  mkCmd ([bs "sandbox-exec"; bs "-p"; profile; program] ++ args) (Some env) (Some WORKER_CWD).

(** The environment is cleared and the policy's pairs set in order. *)
Definition spawn_seatbelt (policy : SandboxPolicy) (program : bytes) (args : list bytes) : sandbox nat :=
  each check_seatbelt_path (sp_fs_read policy ++ sp_fs_write policy ++ opt_list (sp_proxy_uds policy) ++
    opt_list (sp_broker_uds policy) ++ store_paths policy) ;;;
  let* policy := canonicalize_policy_paths policy in
  each_opt check_seatbelt_store (sp_persistent_store policy) ;;;
  spawn_cmd (bs "sandbox-exec") (seatbelt_command (build_profile policy) program args (sp_env policy)).

(** * macos_container.rs *)

Definition CONTAINER_MEM_MIN_MIB : Z := 200.
Definition DEFAULT_IMAGE : bytes := bs "alpine:3.20".

Record ClampedMemory := mkClamped { cm_mib : Z; cm_clamped : bool }.

Definition clamp_memory_to_minimum (requested_mib : Z) : ClampedMemory :=
  if requested_mib <? CONTAINER_MEM_MIN_MIB then mkClamped CONTAINER_MEM_MIN_MIB true else mkClamped requested_mib false.

(** [{}] of the f64 [pct / 100]: the shortest decimal that reads back, which has at
    most two digits after the point for a u32. *)
Definition show_vcpus (pct : Z) : bytes :=
  let whole := show_z (pct / 100) in
  let cents := pct mod 100 in
  if cents =? 0 then whole
  else if cents mod 10 =? 0 then whole ++ bs "." ++ show_z (cents / 10)
  else whole ++ bs "." ++ show_z (cents / 10) ++ show_z (cents mod 10).

Definition container_net (policy : SandboxPolicy) : list bytes :=
  match sp_net policy with NetDeny => [bs "--network"; bs "none"] | NetAllowlist _ | ProxyEgress => [bs "--network"; bs "default"] end.

Definition container_hardening (policy : SandboxPolicy) : list bytes :=
  match sp_profile policy with
  | WorkerStrict | WorkerMlClient =>
      [bs "--read-only"; bs "--cap-drop"; bs "ALL"; bs "--user"; bs "nobody"; bs "--tmpfs"; bs "/tmp"]
  | WorkerNetClient | WorkerBrowserClient | WorkerMatrixClient =>
      [bs "--cap-drop"; bs "ALL"; bs "--user"; bs "nobody"; bs "--tmpfs"; bs "/tmp"]
  end.

Definition container_limits (policy : SandboxPolicy) : list bytes :=
  (if 0 <? sp_mem_mb policy then [bs "-m"; show_z (cm_mib (clamp_memory_to_minimum (sp_mem_mb policy))) ++ bs "M"] else []) ++
  match sp_cpu_quota_pct policy with
  | Some pct => if 0 <? pct then [bs "-c"; show_vcpus pct] else []
  | None => []
  end ++
  match sp_tasks_max policy with Some n => [bs "--ulimit"; bs "nproc=" ++ show_z n ++ bs ":" ++ show_z n] | None => [] end.

Definition container_mounts (policy : SandboxPolicy) : list bytes :=
  mbind (fun s => [bs "--mount"; bs "type=bind,source=" ++ s ++ bs ",target=" ++ s ++ bs ",readonly"]) (sp_fs_read policy) ++
  mbind (fun s => [bs "--mount"; bs "type=bind,source=" ++ s ++ bs ",target=" ++ s]) (sp_fs_write policy).

Definition sets_landlock (policy : SandboxPolicy) : bool :=
  existsb (fun '(k, _) => bytes_eqb k LANDLOCK_PROFILE_ENV) (sp_env policy).

Definition container_env (policy : SandboxPolicy) : list bytes :=
  mbind (fun '(k, v) => [bs "-e"; k ++ bs "=" ++ v]) (sp_env policy) ++
  (if sets_landlock policy then [] else [bs "-e"; LANDLOCK_PROFILE_ENV ++ bs "=" ++ LANDLOCK_PROFILE_NONE]).

Definition build_container_argv (policy : SandboxPolicy) (image program : bytes) (args : list bytes) : list bytes :=
  [bs "container"; bs "run"; bs "--rm"; bs "-i"; bs "--init"; bs "--progress"; bs "none"] ++
  container_net policy ++ container_hardening policy ++ container_limits policy ++ container_mounts policy ++
  container_env policy ++ [image; program] ++ args.

Definition build_image_inspect_argv (image_tag : bytes) : list bytes := [bs "container"; bs "image"; bs "inspect"; image_tag].

Definition check_container_path (p : bytes) : sandbox () :=
  if is_absolute p then ret tt else throw (Backend (bs "policy paths must be absolute, got " ++ path_debug p)).

Definition spawn_container (image : bytes) (policy : SandboxPolicy) (program : bytes) (args : list bytes) : sandbox nat :=
  each check_container_path (sp_fs_read policy ++ sp_fs_write policy) ;;;
  if bool_decide (is_Some (sp_proxy_uds policy)) then
    throw (Backend (bs "MacosContainer cannot enforce force-routed egress (proxy_uds set); refuse rather than grant unrestricted NAT egress"))
  else spawn_cmd (bs "container") (mkCmd (build_container_argv policy image program args) None None).
End Profile.

Example vcpus : map show_vcpus [200; 150; 5; 125] = [bs "2"; bs "1.5"; bs "0.05"; bs "1.25"].
Proof. reflexivity. Qed.

(** * Reading a profile *)

Inductive sexp := Atom (s : bytes) | Str (s : bytes) | SList (l : list sexp).

Inductive Mode := Between | InAtom (rev : bytes) | InStr (rev : bytes) | InEscape (rev : bytes) | InComment.

(** The mode and the open lists, innermost first and each newest first; the last one
    is the top level.  [None] after a parenthesis that closes nothing. *)
Definition Reader : Type := option (Mode * list (list sexp)).

Definition push_top (x : sexp) (stack : list (list sexp)) : list (list sexp) :=
  match stack with top :: rest => (x :: top) :: rest | [] => [[x]] end.

Definition close_list (stack : list (list sexp)) : Reader :=
  match stack with
  | top :: parent :: rest => Some (Between, (SList (rev top) :: parent) :: rest)
  | _ => None
  end.

Definition is_blank (c : Z) : bool := (c =? 32) || (c =? 10) || (c =? 9) || (c =? 13).

Definition between (c : Z) (stack : list (list sexp)) : Reader :=
  if c =? 40 then Some (Between, [] :: stack)
  else if c =? 41 then close_list stack
  else if c =? 34 then Some (InStr [], stack)
  else if c =? 59 then Some (InComment, stack)
  else if is_blank c then Some (Between, stack)
  else Some (InAtom [c], stack).

Definition read_byte (st : Reader) (c : Z) : Reader :=
  match st with
  | None => None
  | Some (Between, stack) => between c stack
  | Some (InAtom a, stack) =>
      if (c =? 40) || (c =? 41) || (c =? 34) || (c =? 59) || is_blank c then between c (push_top (Atom (rev a)) stack)
      else Some (InAtom (c :: a), stack)
  | Some (InStr a, stack) =>
      if c =? 34 then Some (Between, push_top (Str (rev a)) stack)
      else if c =? 92 then Some (InEscape a, stack)
      else Some (InStr (c :: a), stack)
  | Some (InEscape a, stack) => Some (InStr (c :: a), stack)
  | Some (InComment, stack) => if c =? 10 then Some (Between, stack) else Some (InComment, stack)
  end.

Definition run (s : bytes) (st : Reader) : Reader := fold_left read_byte s st.

(** The expressions of a whole text. *)
Definition read_profile (s : bytes) : option (list sexp) :=
  match run s (Some (Between, [[]])) with
  | Some (Between, [top]) => Some (rev top)
  | _ => None
  end.

(** ** The rules of a policy *)

Definition rule (verb : string) (ops : list string) (filters : list sexp) : sexp :=
  SList (Atom (bs verb) :: map (fun o => Atom (bs o)) ops ++ filters).

Definition filter_on (kind : string) (p : bytes) : sexp := SList [Atom (bs kind); Str p].

Definition read_rule (p : bytes) : sexp := rule "allow" ["file-read*"] [filter_on "subpath" p].
Definition write_rule (p : bytes) : sexp := rule "allow" ["file-read*"; "file-write*"] [filter_on "subpath" p].
Definition socket_rule (p : bytes) : sexp :=
  rule "allow" ["network-outbound"] [SList [Atom (bs "remote"); Atom (bs "unix-socket"); filter_on "path-literal" p]].
Definition local_rule (op side : string) : sexp :=
  rule "allow" [op] [SList [Atom (bs side); Atom (bs "ip"); Str (bs "localhost:*")]].

Definition literal_rw (p : string) : sexp := rule "allow" ["file-read*"; "file-write*"] [filter_on "literal" (bs p)].
Definition literal_r (p : string) : sexp := rule "allow" ["file-read*"] [filter_on "literal" (bs p)].

Definition base_rules : list sexp :=
  [SList [Atom (bs "version"); Atom (bs "1")]; rule "deny" ["default"] []; rule "allow" ["process-fork"] [];
   rule "allow" ["process-exec*"] []; literal_r "/"; read_rule (bs "/usr/lib"); read_rule (bs "/usr/libexec");
   read_rule (bs "/System/Library"); rule "allow" ["file-read-metadata"] [filter_on "subpath" (bs "/")];
   rule "allow" ["sysctl-read"] []; literal_rw "/dev/null"; literal_rw "/dev/zero"; literal_r "/dev/random";
   literal_r "/dev/urandom"; write_rule (bs "/dev/fd"); literal_rw "/dev/dtracehelper"].

Definition browser_rules : list sexp :=
  map (fun op => rule "allow" [op] [])
    ["ipc-posix-shm*"; "iokit-open"; "iokit-get-properties"; "mach-lookup"; "mach-register"; "sysctl-write"; "system-socket"].

Definition net_rules (policy : SandboxPolicy) : list sexp :=
  match sp_net policy, sp_proxy_uds policy with
  | NetAllowlist _, Some uds =>
      [rule "deny" ["network-outbound"] []; socket_rule uds] ++
      (if is_browser policy then [local_rule "network-bind" "local"; local_rule "network-inbound" "local";
                                  local_rule "network-outbound" "remote"] else [])
  | NetAllowlist _, None | ProxyEgress, _ => [rule "allow" ["network*"] []]
  | NetDeny, _ => []
  end.

Definition profile_rules (policy : SandboxPolicy) : list sexp :=
  base_rules ++ map read_rule (sp_fs_read policy) ++ map write_rule (sp_fs_write policy) ++
  map (fun ps => write_rule (ps_guest_mount ps)) (opt_list (sp_persistent_store policy)) ++
  (if is_browser policy then browser_rules else []) ++ net_rules policy ++
  map socket_rule (opt_list (sp_broker_uds policy)).

(** ** Reading back *)

(** Bytes a string literal holds as they are. *)
Definition plain (c : Z) : Prop := c <> 34 /\ c <> 92.
(** Bytes [{:?}] does not touch. *)
Definition printable (c : Z) : Prop := plain c /\ 32 <= c < 127.

Section ReadBack.
Context `{UnicodeDebug}.

Lemma run_app a b st : run (a ++ b) st = run b (run a st).
Proof. apply fold_left_app. Qed.

Lemma run_plain p a stack : Forall plain p -> run p (Some (InStr a, stack)) = Some (InStr (rev p ++ a), stack).
Proof.
  revert a. induction p as [|c p IH]; intros a Hp; [reflexivity|]. apply list.Forall_cons in Hp as [[H1 H2] Hp].
  cbn [run fold_left read_byte]. apply Z.eqb_neq in H1, H2. rewrite H1, H2. fold (run p (Some (InStr (c :: a), stack))).
  rewrite IH by done. cbn [rev]. by rewrite <- app_assoc.
Qed.

(** [text] adds [xs] to the top level. *)
Definition adds (text : bytes) (xs : list sexp) : Prop :=
  forall top, run text (Some (Between, [top])) = Some (Between, [rev xs ++ top]).

Lemma adds_nil : adds [] [].
Proof. by intros top. Qed.

Lemma adds_app a b xs ys : adds a xs -> adds b ys -> adds (a ++ b) (xs ++ ys).
Proof. intros Ha Hb top. by rewrite run_app, Ha, Hb, rev_app_distr, app_assoc. Qed.

Lemma adds_if (b : bool) t xs : adds t xs -> adds (if b then t else []) (if b then xs else []).
Proof. by destruct b. Qed.

Lemma adds_each {A} (f : A -> bytes) (g : A -> sexp) l :
  Forall (fun x => adds (f x) [g x]) l -> adds (mbind f l) (map g l).
Proof.
  induction 1 as [|x l Hx Hl IH]; [apply adds_nil|]. cbn [mbind list_bind map]. by apply (adds_app _ _ [g x]).
Qed.

Lemma adds_read p : Forall plain p -> adds (read_line p) [read_rule p].
Proof.
  intros Hp top. unfold read_line. rewrite !run_app.
  change (run (quoted "(allow file-read* (subpath ~") (Some (Between, [top]))) with
    (Some (InStr [], [[Atom (bs "subpath")]; [Atom (bs "file-read*"); Atom (bs "allow")]; top])).
  rewrite run_plain, app_nil_r by done.
  change (run (line "~))") (Some (InStr (rev p), [[Atom (bs "subpath")]; [Atom (bs "file-read*"); Atom (bs "allow")]; top]))) with
    (Some (Between, [SList [Atom (bs "allow"); Atom (bs "file-read*"); SList [Atom (bs "subpath"); Str (rev (rev p))]] :: top])).
  by rewrite rev_involutive.
Qed.

Lemma adds_write p : Forall plain p -> adds (write_line p) [write_rule p].
Proof.
  intros Hp top. unfold write_line. rewrite !run_app.
  change (run (quoted "(allow file-read* file-write* (subpath ~") (Some (Between, [top]))) with
    (Some (InStr [], [[Atom (bs "subpath")]; [Atom (bs "file-write*"); Atom (bs "file-read*"); Atom (bs "allow")]; top])).
  rewrite run_plain, app_nil_r by done.
  change (run (line "~))") (Some (InStr (rev p), [[Atom (bs "subpath")]; [Atom (bs "file-write*"); Atom (bs "file-read*"); Atom (bs "allow")]; top]))) with
    (Some (Between, [SList [Atom (bs "allow"); Atom (bs "file-read*"); Atom (bs "file-write*"); SList [Atom (bs "subpath"); Str (rev (rev p))]] :: top])).
  by rewrite rev_involutive.
Qed.

Lemma debug_printable p fuel : (length p <= fuel)%nat -> Forall printable p -> debug_loop fuel p = p.
Proof.
  revert fuel. induction p as [|c p IH]; intros fuel Hf Hp; [by destruct fuel|]. destruct fuel; [simpl in Hf; lia|].
  apply list.Forall_cons in Hp as [[[H1 H2] H3] Hp]. cbn [debug_loop]. rewrite (proj2 (Z.ltb_lt c 128)) by lia.
  rewrite IH by (simpl in Hf; auto with lia). unfold debug_ascii.
  repeat match goal with |- context [c =? ?k] => rewrite (proj2 (Z.eqb_neq c k)) by lia end.
  by rewrite (proj2 (Z.ltb_ge c 32)) by lia.
Qed.

Lemma adds_socket p : Forall printable p -> adds (socket_line p) [socket_rule p].
Proof.
  intros Hp top. unfold socket_line, path_debug. rewrite debug_printable by done. rewrite !run_app.
  change (run [34] (run (quoted "(allow network-outbound (remote unix-socket (path-literal ") (Some (Between, [top])))) with
    (Some (InStr [], [[Atom (bs "path-literal")]; [Atom (bs "unix-socket"); Atom (bs "remote")]; [Atom (bs "network-outbound"); Atom (bs "allow")]; top])).
  rewrite run_plain, app_nil_r by (eapply list.Forall_impl; [done|by intros c []]).
  set (q := rev p). change (run (line ")))") (run [34] (Some (InStr q, [[Atom (bs "path-literal")]; [Atom (bs "unix-socket"); Atom (bs "remote")]; [Atom (bs "network-outbound"); Atom (bs "allow")]; top])))) with
    (Some (Between, [socket_rule (rev q) :: top])).
  by subst q; rewrite rev_involutive.
Qed.

(** The paths a profile quotes as they are, and those it prints with [{:?}]. *)
Definition quoted_paths (policy : SandboxPolicy) : list bytes :=
  sp_fs_read policy ++ sp_fs_write policy ++ map ps_guest_mount (opt_list (sp_persistent_store policy)).
Definition debug_paths (policy : SandboxPolicy) : list bytes := opt_list (sp_proxy_uds policy) ++ opt_list (sp_broker_uds policy).

Lemma adds_net policy :
  Forall (Forall printable) (opt_list (sp_proxy_uds policy)) ->
  adds match sp_net policy, sp_proxy_uds policy with
       | NetAllowlist _, Some uds =>
           line "(deny network-outbound)" ++ socket_line uds ++ (if is_browser policy then loopback_profile else [])
       | NetAllowlist _, None | ProxyEgress, _ => line "(allow network*)"
       | NetDeny, _ => []
       end (net_rules policy).
Proof.
  intros Hp. unfold net_rules. destruct (sp_net policy), (sp_proxy_uds policy) as [uds|]; try (by intros top); try apply adds_nil.
  apply list.Forall_cons in Hp as [Hp _]. apply (adds_app _ _ [rule "deny" ["network-outbound"] []]); [by intros top|].
  apply (adds_app _ _ [socket_rule uds]); [by apply adds_socket|]. apply adds_if. by intros top.
Qed.

Lemma adds_opt {A} (f : A -> bytes) (g : A -> sexp) o :
  Forall (fun x => adds (f x) [g x]) (opt_list o) -> adds match o with Some x => f x | None => [] end (map g (opt_list o)).
Proof. destruct o as [x|]; intros Hx; [by apply list.Forall_cons in Hx as [? _]|apply adds_nil]. Qed.

Lemma adds_profile policy :
  Forall (Forall plain) (quoted_paths policy) -> Forall (Forall printable) (debug_paths policy) ->
  adds (build_profile policy) (profile_rules policy).
Proof.
  unfold quoted_paths, debug_paths. rewrite !list.Forall_app, List.Forall_map. intros (Hr & Hw & Hs) (Hp & Hb).
  unfold build_profile, profile_rules.
  apply adds_app; [by intros top|]. apply adds_app; [apply adds_each; eapply list.Forall_impl; [done|]; apply adds_read|].
  apply adds_app; [apply adds_each; eapply list.Forall_impl; [done|]; apply adds_write|].
  apply adds_app; [apply (adds_opt (fun ps => write_line (ps_guest_mount ps))); eapply list.Forall_impl; [done|]; intros ps; apply adds_write|].
  apply adds_app; [apply adds_if; by intros top|]. apply adds_app; [by apply adds_net|].
  apply adds_opt. eapply list.Forall_impl; [done|]. apply adds_socket.
Qed.
End ReadBack.

(** * Spawning *)

(** [policy'] is [policy] with every path replaced by what the file system made of it. *)
Record resolved_policy (t : list SandboxEv) (policy policy' : SandboxPolicy) : Prop := {
  rp_read : Forall2 (resolution t) (sp_fs_read policy) (sp_fs_read policy');
  rp_write : Forall2 (resolution t) (sp_fs_write policy) (sp_fs_write policy');
  rp_proxy : Forall2 (resolution t) (opt_list (sp_proxy_uds policy)) (opt_list (sp_proxy_uds policy'));
  rp_broker : Forall2 (resolution t) (opt_list (sp_broker_uds policy)) (opt_list (sp_broker_uds policy'));
  rp_store : Forall2 (fun ps ps' => resolution t (ps_host_backing ps) (ps_host_backing ps') /\
                        resolution t (ps_guest_mount ps) (ps_guest_mount ps'))
               (opt_list (sp_persistent_store policy)) (opt_list (sp_persistent_store policy'));
  rp_rest : sp_net policy' = sp_net policy /\ sp_profile policy' = sp_profile policy /\ sp_env policy' = sp_env policy }.

Lemma resolutions_mono t t' l l' : t ⊆ t' -> Forall2 (resolution t) l l' -> Forall2 (resolution t') l l'.
Proof. intros Hsub Hl. eapply Forall2_impl; [done|]. intros p q. by apply resolution_mono. Qed.

Section Seatbelt.
Context `{HostOs W} `{UnicodeDebug}.
Notation sandbox A := (prog W SandboxEv SandboxError A).

(** [m] asks the file system, spawns nothing and relates its result to the trace. *)
Definition asks {A} (m : sandbox A) (Q : list SandboxEv -> A -> Prop) : Prop :=
  forall w t, let '(r, _, t') := m w t in quiet t t' /\ match r with Ok a => Q t' a | Err _ => True end.

(** Run the next question [m] of the program, which [lem] is about. *)
Ltac ask lem :=
  match goal with
  | |- context [match ?m ?w ?t with _ => _ end] =>
      let Hq := fresh "Hq" in let HQ := fresh "HQ" in
      pose proof (lem w t) as HQ; destruct (m w t) as [[[?|?] ?] ?]; destruct HQ as [Hq HQ]; [|split; [eauto using quiet_trans|done]]
  end.

Lemma asks_canonicalize p : asks (canonicalize_one p) (fun t q => resolution t p q).
Proof. intros w t. apply (spec_canonicalize_one p t w t), quiet_refl. Qed.

Lemma asks_canon_list l : asks (canon_list l) (fun t l' => Forall2 (resolution t) l l').
Proof.
  induction l as [|p l IH]; intros w t; cbn [canon_list].
  { split; [apply quiet_refl|constructor]. }
  unfold bind. ask (asks_canonicalize p). ask IH.
  split; [by eapply quiet_trans|]. constructor; [|done]. eapply resolution_mono; [apply Hq0|done].
Qed.

Lemma asks_canon_opt o : asks (canon_opt o) (fun t o' => Forall2 (resolution t) (opt_list o) (opt_list o')).
Proof.
  destruct o as [p|]; intros w t; cbn [canon_opt].
  - unfold bind. ask (asks_canonicalize p). split; [done|]. constructor; [done|constructor].
  - split; [apply quiet_refl|constructor].
Qed.

Definition store_resolved (t : list SandboxEv) (o o' : option PersistentStore) : Prop :=
  Forall2 (fun ps ps' => resolution t (ps_host_backing ps) (ps_host_backing ps') /\
                         resolution t (ps_guest_mount ps) (ps_guest_mount ps')) (opt_list o) (opt_list o').

Lemma store_resolved_mono t t' o o' : t ⊆ t' -> store_resolved t o o' -> store_resolved t' o o'.
Proof. intros Hsub Ho. eapply Forall2_impl; [exact Ho|]. intros a b []. split; by apply (resolution_mono t). Qed.

Lemma resolved_policy_mono t t' p p' : t ⊆ t' -> resolved_policy t p p' -> resolved_policy t' p p'.
Proof.
  intros Hsub [H1 H2 H3 H4 H5 H6]. constructor; [by apply (resolutions_mono t)..|by apply (store_resolved_mono t)|done].
Qed.

Lemma asks_store o :
  asks (match o with
        | Some ps =>
            let* host := canonicalize_one (ps_host_backing ps) in
            let* guest := canonicalize_one (ps_guest_mount ps) in
            ret (Some (mkStore host guest (ps_size_mib ps)))
        | None => ret None
        end) (fun t o' => store_resolved t o o').
Proof.
  destruct o as [ps|]; intros w t; [|split; [apply quiet_refl|constructor]].
  unfold bind. ask (asks_canonicalize (ps_host_backing ps)). ask (asks_canonicalize (ps_guest_mount ps)).
  split; [by eapply quiet_trans|]. constructor; [|constructor]. split; [|done]. eapply resolution_mono; [apply Hq0|done].
Qed.

Lemma asks_canonicalize_policy policy : asks (canonicalize_policy_paths policy) (fun t p' => resolved_policy t policy p').
Proof.
  intros w t. unfold canonicalize_policy_paths. unfold bind at 1. ask (asks_canon_list (sp_fs_read policy)).
  unfold bind at 1. ask (asks_canon_list (sp_fs_write policy)).
  unfold bind at 1. ask (asks_canon_opt (sp_proxy_uds policy)). unfold bind at 1. ask (asks_canon_opt (sp_broker_uds policy)).
  unfold bind at 1. ask (asks_store (sp_persistent_store policy)).
  split; [eauto using quiet_trans|]. destruct Hq0 as [S1 _], Hq1 as [S2 _], Hq2 as [S3 _], Hq3 as [S4 _].
  constructor; cbn [sp_fs_read sp_fs_write sp_proxy_uds sp_broker_uds sp_persistent_store sp_net sp_profile sp_env]; [..|done];
    eauto using resolutions_mono, store_resolved_mono.
Qed.

Lemma check_seatbelt_path_spec p t0 :
  spec (quiet t0) (check_seatbelt_path p : sandbox ())
    (fun r t => quiet t0 t /\ match r with Ok _ => is_absolute p = true /\ Forall (fun c => structural c = false) p | Err _ => True end).
Proof.
  unfold check_seatbelt_path. destruct (is_absolute p) eqn:Ha; cbn [negb]; [|by apply spec_throw].
  destruct (List.find structural p) as [c|] eqn:Hf; [by apply spec_throw|]. apply spec_ret. intros t Ht. split; [done|]. split; [done|].
  apply list.Forall_forall. intros c Hc. apply (find_none _ _ Hf). by apply list_elem_of_In.
Qed.

Lemma spec_check_seatbelt_store ps t0 :
  spec (quiet t0) (check_seatbelt_store ps : sandbox ()) (fun r t => quiet t0 t /\ match r with Ok _ => True | Err _ => True end).
Proof.
  unfold check_seatbelt_store. destruct (negb _); [apply spec_throw; auto|]. apply spec_bind_effect. intros []; [apply spec_throw; auto|].
  apply spec_bind_effect. intros [[]|e]; [|apply spec_throw; auto]. apply spec_emit. intros t Ht. split; [by apply quiet_cons|done].
Qed.

Definition seatbelt_paths (policy : SandboxPolicy) : list bytes :=
  sp_fs_read policy ++ sp_fs_write policy ++ opt_list (sp_proxy_uds policy) ++ opt_list (sp_broker_uds policy) ++ store_paths policy.

(** What a Seatbelt spawn starts: the command of the resolved policy, whose paths as
    given passed the guard. *)
Lemma spawned_by_seatbelt policy program args (w : W) r w' t c :
  spawn_seatbelt policy program args w [] = (r, w', t) -> SbSpawned c ∈ t ->
  Forall (fun p => is_absolute p = true /\ Forall (fun c => structural c = false) p) (seatbelt_paths policy) /\
  exists policy', resolved_policy t policy policy' /\ c = seatbelt_command (build_profile policy') program args (sp_env policy').
Proof.
  intros Hrun Hc.
  assert (forall e, quiet [] t -> SbSpawned e ∈ t -> False) as Hno by (intros e [_ Hq] He; apply Hq in He; by apply elem_of_nil in He).
  unfold spawn_seatbelt, bind in Hrun. fold (seatbelt_paths policy) in Hrun.
  pose proof (spec_each _ _ (seatbelt_paths policy) [] (fun p t1 => check_seatbelt_path_spec p t1) w [] (quiet_refl [])) as H1.
  destruct (each check_seatbelt_path (seatbelt_paths policy) w []) as [[[[]|e] w1] t1]; destruct H1 as [Q1 H1];
    [|injection Hrun as _ _ ->; by destruct (Hno c)].
  pose proof (asks_canonicalize_policy policy w1 t1) as H2.
  destruct (canonicalize_policy_paths policy w1 t1) as [[[p'|e] w2] t2]; destruct H2 as [Q2 H2];
    [|injection Hrun as _ _ ->; destruct (Hno c); [by apply (quiet_trans _ t1)|done]].
  pose proof (spec_each_opt check_seatbelt_store (fun _ => True) (sp_persistent_store p') t2 spec_check_seatbelt_store w2 t2 (quiet_refl t2)) as H3.
  destruct (each_opt _ _ w2 t2) as [[[[]|e] w3] t3]; destruct H3 as [Q3 _];
    [|injection Hrun as _ _ ->; destruct (Hno c); [eauto using quiet_trans|done]].
  assert (t = SbSpawned (seatbelt_command (build_profile p') program args (sp_env p')) :: t3) as ->.
  { unfold spawn_cmd, bind, emit, effect in Hrun. by destruct (os_spawn _ w3) as [[n|e] w4]; injection Hrun as _ _ <-. }
  split; [done|]. exists p'. split; [apply (resolved_policy_mono t2); [|done]; intros x Hx; right; by apply Q3|].
  apply elem_of_cons in Hc as [Hc|Hc]; [by injection Hc|]. exfalso.
  assert (quiet [] t3) as [_ Hq] by eauto using quiet_trans. apply Hq in Hc. by apply elem_of_nil in Hc.
Qed.
End Seatbelt.

(** ** Which bytes a resolved path has *)

Lemma split_bytes c s x b : x ∈ split c s -> b ∈ x -> b ∈ s.
Proof.
  revert x. induction s as [|y s IH]; intros x Hx Hb; cbn [split] in Hx.
  - apply list_elem_of_singleton in Hx as ->. by apply elem_of_nil in Hb.
  - destruct (y =? c).
    + apply elem_of_cons in Hx as [->|Hx]; [by apply elem_of_nil in Hb|]. right. by apply (IH x).
    + destruct (split c s) as [|p ps] eqn:E.
      * apply list_elem_of_singleton in Hx as ->. apply list_elem_of_singleton in Hb as ->. left.
      * apply elem_of_cons in Hx as [->|Hx].
        -- apply elem_of_cons in Hb as [->|Hb]; [left|]. right. apply (IH p); [left|done].
        -- right. apply (IH x); [by right|done].
Qed.

Lemma trim_right_subset l : trim_right l ⊆ l.
Proof. induction l as [|x l IH]; [done|]. cbn [trim_right]. destruct (skipped x); [|done]. intros y Hy. right. by apply IH. Qed.

Lemma file_name_bytes (P : Z -> Prop) p x : path_file_name p = Some x -> Forall P p -> Forall P x.
Proof.
  unfold path_file_name. destruct (trim_right _) as [|y l] eqn:E; [done|]. destruct (bytes_eqb y _); [done|]. intros [= ->] Hp.
  assert (x ∈ path_body p) as Hx.
  { apply elem_of_reverse, trim_right_subset. rewrite E. left. }
  apply list.Forall_forall. intros b Hb. apply (proj1 (list.Forall_forall P p) Hp).
  eapply subseteq_drop, split_bytes; done.
Qed.

Lemma resolution_bytes (P : Z -> Prop) t p q :
  P SLASH -> (forall a b, SbCanonical a (Ok b) ∈ t -> Forall P b) -> Forall P p -> resolution t p q -> Forall P q.
Proof.
  intros Hs Hans Hp [Hq|[_ [(parent & name & dir & _ & Hn & Hd & ->)|[-> _]]]]; [by eapply Hans| |done].
  assert (Forall P name) as Hname by by eapply file_name_bytes. apply Hans in Hd. unfold path_join.
  destruct (is_absolute name); [done|]. destruct (last dir) as [c|]; [|done].
  destruct (c =? SLASH); [by apply list.Forall_app|]. apply list.Forall_app. split; [done|]. by constructor.
Qed.

Lemma resolutions_bytes (P : Z -> Prop) t l l' :
  P SLASH -> (forall a b, SbCanonical a (Ok b) ∈ t -> Forall P b) ->
  Forall (Forall P) l -> Forall2 (resolution t) l l' -> Forall (Forall P) l'.
Proof.
  intros Hs Hans Hl. induction 1 as [|p q l l' Hpq Hll IH]; [constructor|]. apply list.Forall_cons in Hl as [Hp Hl].
  constructor; [by eapply resolution_bytes|auto].
Qed.

Lemma unstructured_plain p : Forall (fun c => structural c = false) p -> Forall plain p.
Proof.
  intros Hp. eapply list.Forall_impl; [exact Hp|]. intros c Hc. unfold structural in Hc. rewrite !orb_false_iff in Hc.
  destruct Hc as ((((((H1 & H2) & _) & _) & _) & _) & _). apply Z.eqb_neq in H1, H2. by split.
Qed.

(** ** Claims *)

(** The text a Seatbelt worker is confined by says what the policy says: when
    the file system resolves paths to printable names without quotes and
    backslashes, and the policy's sockets are such names, the profile of every
    worker started reads as exactly the rules of the resolved policy, whatever else
    its paths hold. *)
Theorem seatbelt_profile_is_the_policy `{HostOs W} `{UnicodeDebug} policy program args (w : W) r w' t c :
  spawn_seatbelt policy program args w [] = (r, w', t) -> SbSpawned c ∈ t ->
  (forall a b, SbCanonical a (Ok b) ∈ t -> Forall printable b) -> Forall (Forall printable) (debug_paths policy) ->
  exists policy' profile, resolved_policy t policy policy' /\
    cmd_argv c = [bs "sandbox-exec"; bs "-p"; profile; program] ++ args /\ cmd_env c = Some (sp_env policy) /\
    read_profile profile = Some (profile_rules policy').
Proof.
  intros Hrun Hc Hans Hdebug. destruct (spawned_by_seatbelt _ _ _ _ _ _ _ _ Hrun Hc) as (Hguard & p' & Hp' & ->).
  exists p', (build_profile p'). split; [done|]. split; [done|]. destruct Hp' as [Hr Hw Hx Hb Hs (Hn & Hprof & Henv)].
  split; [cbn; by rewrite Henv|]. unfold read_profile.
  assert (Forall (Forall plain) (seatbelt_paths policy)) as Hpl.
  { eapply list.Forall_impl; [exact Hguard|]. intros p [_ Hp]. by apply unstructured_plain. }
  assert (forall a b, SbCanonical a (Ok b) ∈ t -> Forall plain b) as Hansp.
  { intros a b Hab. eapply list.Forall_impl; [by eapply Hans|]. by intros x []. }
  unfold seatbelt_paths, store_paths in Hpl. rewrite !list.Forall_app in Hpl. destruct Hpl as (Pr & Pw & _ & _ & Ps).
  rewrite adds_profile.
  - by rewrite app_nil_r, rev_involutive.
  - unfold quoted_paths. rewrite !list.Forall_app. split; [by apply (resolutions_bytes plain t (sp_fs_read policy))|].
    split; [by apply (resolutions_bytes plain t (sp_fs_write policy))|]. apply List.Forall_map.
    destruct (sp_persistent_store policy) as [ps|], (sp_persistent_store p') as [ps'|]; cbn in Hs |- *; try by inversion Hs.
    apply Forall2_cons in Hs as [[_ Hg] _]. cbn in Ps. do 2 (apply list.Forall_cons in Ps as [? Ps]).
    constructor; [by apply (resolution_bytes plain t (ps_guest_mount ps))|constructor].
  - unfold debug_paths in *. rewrite list.Forall_app in Hdebug |- *. destruct Hdebug.
    assert (printable SLASH) by (split; [done|unfold SLASH; lia]). split; [by apply (resolutions_bytes printable t (opt_list (sp_proxy_uds policy)))|
      by apply (resolutions_bytes printable t (opt_list (sp_broker_uds policy)))].
Qed.

(** A host where the granted directory is a link to one with a quote in its name. *)
#[local] Instance seatbelt_demo_debug : UnicodeDebug := {| escape_unicode c := c |}.

Definition linked_host (target : bytes) : HostOs () := {|
  os_canonicalize p w := (if bytes_eqb p (bs "/srv/in") then Ok target else Ok p, w);
  os_is_file _ w := (false, w); os_create_dir_all _ w := (Ok tt, w); os_spawn _ w := (Ok 7%nat, w) |}.

Definition deny_policy : SandboxPolicy := mkPolicy [bs "/srv/in"] [] NetDeny 0 0 WorkerStrict None None [] None None None.

Definition hostile_target : bytes := quoted "/srv/a~))(allow network*)(allow file-read* (subpath ~/srv/b".

(** The guard against characters that rewrite the profile reads the paths
    before links are resolved: a policy without network whose only path passes the
    guard starts a worker with [(allow network* )] in its profile when the path is a
    link to a suitably named directory. *)
Theorem symlink_rewrites_seatbelt_profile :
  Forall (fun p => is_absolute p = true /\ Forall (fun c => structural c = false) p) (seatbelt_paths deny_policy) /\
  exists c rules, (@spawn_seatbelt _ () (linked_host hostile_target) deny_policy (bs "/opt/w") [] () []).1.1 = Ok 7%nat /\
    SbSpawned c ∈ (@spawn_seatbelt _ () (linked_host hostile_target) deny_policy (bs "/opt/w") [] () []).2 /\
    read_profile (default [] (cmd_argv c !! 2%nat)) = Some rules /\
    rule "allow" ["network*"] [] ∈ rules /\ rule "allow" ["network*"] [] ∉ profile_rules deny_policy.
Proof.
  split; [repeat constructor|].
  destruct (@spawn_seatbelt _ () (linked_host hostile_target) deny_policy (bs "/opt/w") [] () []) as [[r w] t] eqn:E.
  vm_compute in E. injection E as <- <- <-. eexists _, _. split; [reflexivity|]. split; [left|].
  split; [vm_compute; reflexivity|]. split.
  - repeat (left || right).
  - rewrite list_elem_of_In. vm_compute. intros Hin. repeat destruct Hin as [Hin|Hin]; (discriminate || done).
Qed.

Lemma seatbelt_profile_is_the_policy_witness :
  exists c t, SbSpawned c ∈ t /\
    exists policy' profile, resolved_policy t deny_policy policy' /\
      cmd_argv c = [bs "sandbox-exec"; bs "-p"; profile; bs "/opt/w"] ++ [] /\ cmd_env c = Some (sp_env deny_policy) /\
      read_profile profile = Some (profile_rules policy').
Proof.
  destruct (@spawn_seatbelt _ () (linked_host (bs "/data/in (2)")) deny_policy (bs "/opt/w") [] () []) as [[r w] t] eqn:E.
  pose proof E as E'. vm_compute in E'. injection E' as _ _ Et.
  exists (match t with SbSpawned c :: _ => c | _ => mkCmd [] None None end), t.
  assert (SbSpawned (match t with SbSpawned c :: _ => c | _ => mkCmd [] None None end) ∈ t) as Hc by (rewrite <- Et; left).
  split; [exact Hc|].
  apply (@seatbelt_profile_is_the_policy () (linked_host (bs "/data/in (2)")) _ deny_policy (bs "/opt/w") [] () r w t _ E Hc).
  - intros a b Hab. rewrite <- Et in Hab. clear -Hab. rewrite list_elem_of_In in Hab. cbn in Hab.
    destruct Hab as [Hab|[Hab|[]]]; [discriminate|]. injection Hab as _ <-.
    repeat (constructor; [split; [split; discriminate|split; [discriminate|reflexivity]]|]). constructor.
  - constructor.
Defined.

(** * A worker behind the proxy, on every back end *)

(** The worker may use the network only through the proxy's socket. *)
Definition force_routed (policy : SandboxPolicy) (uds : bytes) : Prop :=
  (exists hosts, sp_net policy = NetAllowlist hosts) /\ sp_proxy_uds policy = Some uds.

(** A rule that allows an operation on the network. *)
Definition opens_network (x : sexp) : bool :=
  match x with
  | SList (Atom verb :: rest) =>
      bytes_eqb verb (bs "allow") &&
      existsb (fun y => match y with Atom op => starts_with (bs "network") op | _ => false end) rest
  | _ => false
  end.

Definition loopback_rules : list sexp :=
  [local_rule "network-bind" "local"; local_rule "network-inbound" "local"; local_rule "network-outbound" "remote"].

Lemma closed_rules (P : sexp -> Prop) l : Forall (fun x => opens_network x = false) l -> Forall (fun x => opens_network x = true -> P x) l.
Proof. intros Hl. eapply list.Forall_impl; [exact Hl|]. intros x -> [=]. Qed.

Lemma forced_profile_rules policy uds :
  force_routed policy uds ->
  Forall (fun x => opens_network x = true ->
    x = socket_rule uds \/ (exists b, sp_broker_uds policy = Some b /\ x = socket_rule b) \/
    is_browser policy = true /\ x ∈ loopback_rules) (profile_rules policy).
Proof.
  intros [[hosts Hn] Hu]. unfold profile_rules, net_rules. rewrite Hn, Hu, !list.Forall_app, !List.Forall_map.
  split; [apply closed_rules; by repeat constructor|]. split; [by apply list.Forall_true|]. split; [by apply list.Forall_true|].
  split; [by apply list.Forall_true|]. split; [apply closed_rules; destruct (is_browser policy); by repeat constructor|].
  split; [split; [by repeat (constructor; auto)|]|].
  - destruct (is_browser policy); [|constructor]. apply list.Forall_forall. intros x Hx _. right; right. split; [done|exact Hx].
  - destruct (sp_broker_uds policy) as [b|]; [|constructor]. constructor; [|constructor]. intros _. right; left. by exists b.
Qed.

Lemma container_refuses_forced `{HostOs W} `{UnicodeDebug} image policy uds program args (w : W) r w' t :
  force_routed policy uds -> spawn_container image policy program args w [] = (r, w', t) ->
  (exists e, r = Err e) /\ forall c, SbSpawned c ∉ t.
Proof.
  intros [_ Hu] Hrun. unfold spawn_container, bind in Hrun.
  pose proof (spec_each (check_container_path : bytes -> prog W _ _ _) (fun _ => True) (sp_fs_read policy ++ sp_fs_write policy) []) as Hs.
  assert (forall e, SbSpawned e ∉ []) as Hnil by (intros e; apply not_elem_of_nil).
  ospecialize (Hs _ w [] (quiet_refl [])).
  { intros p t1. unfold check_container_path. destruct (is_absolute p); [apply spec_ret|apply spec_throw]; auto. }
  destruct (each _ _ w []) as [[[[]|e] w1] t1]; destruct Hs as [[_ Hq] _].
  - rewrite Hu, bool_decide_eq_true_2 in Hrun by eauto. injection Hrun as <- _ <-. split; [eauto|].
    intros c Hc. by apply Hq, Hnil in Hc.
  - injection Hrun as <- _ <-. split; [eauto|]. intros c Hc. by apply Hq, Hnil in Hc.
Qed.

(** A worker that is to reach the network only through the proxy's socket has
    no other way: [bwrap] keeps it in a network namespace of its own, the Seatbelt
    rules open nothing but that socket, the broker's and, for the browser, the
    loopback, and [container] refuses to start it. *)
Theorem forced_worker_reaches_only_sockets `{HostOs W} `{UnicodeDebug} arity policy uds image program args resolve (w : W) :
  Forall (fun '(f, n) => arity f = Some n) documented_arities -> force_routed policy uds ->
  (exists j, read_jail arity (build_argv_with_resolver policy program args resolve) = Some (j, program :: args) /\
     j_unshared j = true /\ j_net_shared j = false /\ Bind true false (resolve uds) uds ∈ j_mounts j) /\
  Forall (fun x => opens_network x = true ->
    x = socket_rule uds \/ (exists b, sp_broker_uds policy = Some b /\ x = socket_rule b) \/
    is_browser policy = true /\ x ∈ loopback_rules) (profile_rules policy) /\
  (exists e, (spawn_container image policy program args w []).1.1 = Err e) /\
  forall c, SbSpawned c ∉ (spawn_container image policy program args w []).2.
Proof.
  intros Ha Hf. split.
  - exists (policy_jail resolve policy). split; [by apply read_jail_policy|]. destruct Hf as [[hosts Hn] Hu].
    unfold policy_jail, net_shared, granted_mounts. cbn [j_unshared j_net_shared j_mounts]. rewrite Hn, Hu.
    split; [done|]. split; [done|]. rewrite !elem_of_app. right; right; right; left. cbn. left.
  - split; [by apply forced_profile_rules|]. destruct (spawn_container image policy program args w []) as [[r w'] t] eqn:E.
    by eapply container_refuses_forced.
Qed.

Definition forced_policy : SandboxPolicy :=
  mkPolicy [bs "/srv/in"] [] (NetAllowlist [bs "example.org:443"]) 0 0 WorkerBrowserClient None None [] (Some (bs "/run/p.sock")) None None.

Lemma forced_worker_reaches_only_sockets_witness :
  j_net_shared (policy_jail (fun p => p) forced_policy) = false /\
  exists e, (@spawn_container _ () (linked_host (bs "/data")) DEFAULT_IMAGE forced_policy (bs "/opt/w") [] () []).1.1 = Err e.
Proof.
  destruct (@forced_worker_reaches_only_sockets () (linked_host (bs "/data")) _ (lookup_arity documented_arities) forced_policy
    (bs "/run/p.sock") DEFAULT_IMAGE (bs "/opt/w") [] (fun p => p) ()) as ((j & Hj & _ & Hnet & _) & _ & He & _).
  - vm_compute. repeat constructor.
  - split; [by eexists|reflexivity].
  - split; [reflexivity|exact He].
Defined.
