(* ===== verification/EgressConfig.v ===== *)
(** What the core decides about a worker's way to the network before it spawns
    anything: the operator's certificate pins (src/core/src/egress/cert_pins.rs) and
    extra trust anchors (src/core/src/egress/upstream_ca.rs), the routing decisions
    of src/core/src/worker_lifecycle/force_route.rs, the lockdown environment
    (src/core/src/tool_host/lockdown_env.rs) and the sweep of left-over scratch
    directories (src/core/src/egress/scratch_sweep.rs).

    The core selects pins and anchors with its own reading of the allowlist; the
    proxy enforces the allowlist of Allowlist.v.  Reading and printing JSON and
    addresses are parameters. *)

From stdpp Require Import base list sets numbers strings option pretty.
From Stdlib Require Import ZArith Lia.
From S2P Require Import Prelude RustStr NetClassify Allowlist Json LoopPure Sandbox.
Local Open Scope Z_scope.

(** * cert_pins.rs *)

Definition PIN_PREFIX : bytes := bs "sha256/".

(** The entries of a [BTreeMap], in its order. *)
Definition CertPinMap : Type := list (bytes * list bytes).

Inductive CertPinError :=
| PinShape (text : bytes)
| EmptyPinList (host : bytes)
| BadPrefix (host pin : bytes).

Definition check_pins (host : bytes) (pins : list bytes) : option CertPinError :=
  match pins with
  | [] => Some (EmptyPinList host)
  | _ => BadPrefix host <$> List.find (fun pin => negb (starts_with PIN_PREFIX pin)) pins
  end.

Fixpoint collect_pins (raw : list (bytes * list bytes)) (out : CertPinMap) : result CertPinMap CertPinError :=
  match raw with
  | [] => Ok out
  | (host, pins) :: raw' =>
      match check_pins host pins with
      | Some e => Err e
      | None => collect_pins raw' (map_insert (to_ascii_lowercase host) pins out)
      end
  end.

Definition host_of_endpoint (endpoint : bytes) : bytes :=
  match strip_prefix [OPEN_BRACKET] endpoint with
  | Some rest => match split_once CLOSE_BRACKET rest with Some (host, _) => host | None => endpoint end
  | None => match rsplit_once COLON endpoint with Some (host, _) => host | None => endpoint end
  end.

Definition allowlist_entry_admits (entry_host pinned_host : bytes) : bool :=
  match strip_prefix [DOT] entry_host with
  | Some ((_ :: _) as d) => bytes_eqb pinned_host d || ends_with (DOT :: d) pinned_host
  | _ => bytes_eqb entry_host pinned_host
  end.

(** The entries [select_pins_for_allowlist] keeps. *)
Definition selected_pins (map : CertPinMap) (allowlist : list bytes) : CertPinMap :=
  let entries := List.map (fun ep => to_ascii_lowercase (host_of_endpoint ep)) allowlist in
  List.filter (fun '(host, _) => existsb (fun e => allowlist_entry_admits e host) entries) map.

Section Pins.
(** [serde_json] for [BTreeMap<String, Vec<String>>]. *)
Variables (pins_from_str : bytes -> result (list (bytes * list bytes)) bytes) (pins_to_string : CertPinMap -> bytes).

Definition parse_cert_pins (json : bytes) : result CertPinMap CertPinError :=
  match pins_from_str json with
  | Err e => Err (PinShape e)
  | Ok raw => collect_pins raw []
  end.

Definition select_pins_for_allowlist (map : CertPinMap) (allowlist : list bytes) : option bytes :=
  match selected_pins map allowlist with
  | [] => None
  | selected => Some (pins_to_string selected)
  end.
End Pins.

(** * upstream_ca.rs *)

Definition PEM_CERT_MARKER : bytes := bs "-----BEGIN CERTIFICATE-----".

Definition UpstreamCaMap : Type := list (bytes * bytes).

Inductive UpstreamCaError :=
| CaShape (text : bytes)
| EmptyPath (host : bytes)
| RelativePath (host path : bytes)
| NotPrivateOrigin (host : bytes).

Inductive UpstreamCaSelectError :=
| MixedAllowlist (host : bytes) (others : list bytes)
| MultipleKeyedHosts (hosts : list bytes).

Inductive UpstreamCaFileError :=
| Unreadable (host path reason : bytes)
| NoCertificate (host path marker : bytes).

(** [IpAddr::from_str] and its [Display]: an address reads back as itself, and a
    literal does not start with a dot. *)
Class IpText := {
  ip_parse : bytes -> option IpAddr;
  ip_show : IpAddr -> bytes;
  ip_parse_show : forall ip, ip_parse (ip_show ip) = Some ip;
  ip_parse_dot : forall s, ip_parse (DOT :: s) = None }.

Section UpstreamCa.
Context `{IpText} `{UnicodeStr}.

Definition private_literal_key (host : bytes) : option bytes :=
  match ip_parse host with
  | Some ip => if is_denied_range ip then Some (ip_show ip) else None
  | None => None
  end.

Fixpoint collect_cas (raw : list (bytes * bytes)) (out : UpstreamCaMap) : result UpstreamCaMap UpstreamCaError :=
  match raw with
  | [] => Ok out
  | (host, path) :: raw' =>
      let trimmed := str_trim path in
      match trimmed with
      | [] => Err (EmptyPath host)
      | _ =>
          if negb (is_absolute trimmed) then Err (RelativePath host trimmed)
          else match private_literal_key (str_trim host) with
               | None => Err (NotPrivateOrigin host)
               | Some key => collect_cas raw' (map_insert key trimmed out)
               end
      end
  end.

(** [cas_from_str] is [serde_json::from_str] for [BTreeMap<String, String>]. *)
Definition parse_upstream_cas (cas_from_str : bytes -> result (list (bytes * bytes)) bytes) (json : bytes)
    : result UpstreamCaMap UpstreamCaError :=
  match cas_from_str json with
  | Err e => Err (CaShape e)
  | Ok raw => collect_cas raw []
  end.

Definition canonical_allowlist_host (endpoint : bytes) : bytes :=
  let host := to_ascii_lowercase (host_of_endpoint endpoint) in
  match ip_parse host with Some ip => ip_show ip | None => host end.

(** The distinct hosts of an allowlist, in the order of a [BTreeSet]. *)
Definition allowlist_hosts (allowlist : list bytes) : list bytes :=
  (fold_left (fun m ep => map_insert (canonical_allowlist_host ep) tt m) allowlist []).*1.

Definition select_ca_for_allowlist (map : UpstreamCaMap) (allowlist : list bytes)
    : result (option bytes) UpstreamCaSelectError :=
  let hosts := allowlist_hosts allowlist in
  match List.filter (fun '(host, _) => bool_decide (host ∈ hosts)) map with
  | [] => Ok None
  | [(host, path)] =>
      match List.filter (fun h => negb (bytes_eqb h host)) hosts with
      | [] => Ok (Some path)
      | others => Err (MixedAllowlist host others)
      end
  | many => Err (MultipleKeyedHosts many.*1)
  end.

(** [contents.matches(marker).count()]: matches do not overlap. *)
Fixpoint count_matches (fuel : nat) (marker s : bytes) : nat :=
  match fuel, s with
  | S fuel', _ :: s' =>
      match strip_prefix marker s with
      | Some rest => S (count_matches fuel' marker rest)
      | None => count_matches fuel' marker s'
      end
  | _, _ => O
  end.

Definition check_ca_pem_contents (host path contents : bytes) : result nat UpstreamCaFileError :=
  match count_matches (length contents) PEM_CERT_MARKER contents with
  | O => Err (NoCertificate host path PEM_CERT_MARKER)
  | count => Ok count
  end.

(** * force_route.rs: the decisions *)

(** The value of an environment variable that is set and not blank. *)
Definition present (value : option bytes) : option bytes :=
  match str_trim <$> value with Some [] | None => None | r => r end.

Definition parse_cert_pins_env pins_from_str (value : option bytes) : result (option CertPinMap) CertPinError :=
  match present value with
  | None => Ok None
  | Some raw =>
      match parse_cert_pins pins_from_str raw with
      | Err e => Err e
      | Ok [] => Ok None
      | Ok map => Ok (Some map)
      end
  end.

Definition parse_upstream_cas_env cas_from_str (value : option bytes) : result (option UpstreamCaMap) UpstreamCaError :=
  match present value with
  | None => Ok None
  | Some raw =>
      match parse_upstream_cas cas_from_str raw with
      | Err e => Err e
      | Ok [] => Ok None
      | Ok map => Ok (Some map)
      end
  end.

Fixpoint validate_upstream_cas (read_file : bytes -> result bytes bytes) (map : UpstreamCaMap)
    : result () UpstreamCaFileError :=
  match map with
  | [] => Ok tt
  | (host, path) :: map' =>
      match read_file path with
      | Err e => Err (Unreadable host path e)
      | Ok contents =>
          match check_ca_pem_contents host path contents with
          | Err e => Err e
          | Ok _ => validate_upstream_cas read_file map'
          end
      end
  end.

Definition env_flag_enabled (value : option bytes) : bool :=
  match (fun v => to_ascii_lowercase (str_trim v)) <$> value with
  | Some v => existsb (bytes_eqb v) [bs "1"; bs "true"; bs "yes"; bs "on"]
  | None => false
  end.
End UpstreamCa.

Definition policy_net_is_force_routable (net : Net) : bool := match net with NetAllowlist _ => true | _ => false end.

Definition BROWSER_DRIVER_TOOL : bytes := bs "browser-driver".
Definition MATRIX_TOOL : bytes := bs "matrix".

Definition disable_mitm_for (worker_name : bytes) : bool :=
  bytes_eqb worker_name BROWSER_DRIVER_TOOL || bytes_eqb worker_name MATRIX_TOOL.

Inductive Mitm := Intercept (upstream_extra_ca : option bytes) | Transparent.

Definition is_transparent (m : Mitm) : bool := match m with Transparent => true | Intercept _ => false end.
Definition mitm_extra_ca (m : Mitm) : option bytes := match m with Intercept ca => ca | Transparent => None end.

Inductive ForceRouteAction := Sidecar | Direct.

Definition force_route_action (force_routing_active net_force_routable : bool) : ForceRouteAction :=
  if force_routing_active && net_force_routable then Sidecar else Direct.

Definition ENV_EXTRA_CA_NAME : bytes := bs "KASTELLAN_EGRESS_UPSTREAM_EXTRA_CA".

Definition mitm_for `{UnicodeDebug} (worker_name : bytes) (upstream_extra_ca : option bytes) : result Mitm bytes :=
  if disable_mitm_for worker_name then
    match upstream_extra_ca with
    | Some _ => Err (bs "worker " ++ path_debug worker_name ++ bs ": refusing to spawn — " ++ ENV_EXTRA_CA_NAME ++
        bs " names an extra trust anchor for this worker's origin, but this worker's sidecar runs in transparent-tunnel (no-MITM) mode and never re-originates TLS, so the anchor would be silently inert. Remove that entry.")
    | None => Ok Transparent
    end
  else Ok (Intercept upstream_extra_ca).

(** * lockdown_env.rs *)

Definition ENV_LANDLOCK_RW : bytes := bs "KASTELLAN_LANDLOCK_RW".
Definition ENV_LANDLOCK_RO : bytes := bs "KASTELLAN_LANDLOCK_RO".
Definition ENV_SECCOMP_PROFILE : bytes := bs "KASTELLAN_SECCOMP_PROFILE".
Definition ENV_LANDLOCK_PROFILE : bytes := bs "KASTELLAN_LANDLOCK_PROFILE".
Definition ENV_CPU_MS : bytes := bs "KASTELLAN_CPU_MS".

Definition has_env (k : bytes) (env : list (bytes * bytes)) : bool := existsb (fun kv => bytes_eqb kv.1 k) env.

Definition seccomp_value (p : Profile) : bytes :=
  match p with
  | WorkerStrict => bs "strict" | WorkerNetClient => bs "net_client" | WorkerBrowserClient => bs "browser_client"
  | WorkerMlClient => bs "ml_client" | WorkerMatrixClient => bs "matrix_client"
  end.

Definition with_env (policy : SandboxPolicy) (env : list (bytes * bytes)) : SandboxPolicy :=
  mkPolicy (sp_fs_read policy) (sp_fs_write policy) (sp_net policy) (sp_cpu_ms policy) (sp_mem_mb policy) (sp_profile policy)
    (sp_cpu_quota_pct policy) (sp_tasks_max policy) env (sp_proxy_uds policy) (sp_broker_uds policy) (sp_persistent_store policy).

Record LockdownOverride := mkOverride { lo_var : bytes; lo_value : bytes }.

(** [strings_to_json] is [serde_json::to_string] for a [Vec<String>]. *)
Definition derive_lockdown_env (strings_to_json : list bytes -> bytes) (policy : SandboxPolicy) : SandboxPolicy :=
  let env := sp_env policy in
  let unless (k : bytes) (v : bytes) := if has_env k env then [] else [(k, v)] in
  with_env policy (env ++
    unless ENV_LANDLOCK_RW (strings_to_json (sp_fs_write policy ++ opt_list (ps_guest_mount <$> sp_persistent_store policy))) ++
    unless ENV_LANDLOCK_RO (strings_to_json (sp_fs_read policy)) ++
    unless ENV_SECCOMP_PROFILE (seccomp_value (sp_profile policy)) ++
    (if 0 <? sp_cpu_ms policy then unless ENV_CPU_MS (show_z (sp_cpu_ms policy)) else [])).

Definition disables (kv : bytes * bytes) : bool :=
  if bytes_eqb kv.1 ENV_SECCOMP_PROFILE then bytes_eqb kv.2 (bs "none") || bytes_eqb kv.2 []
  else if bytes_eqb kv.1 ENV_LANDLOCK_PROFILE then bytes_eqb kv.2 (bs "none")
  else false.

Definition detect_lockdown_overrides (policy : SandboxPolicy) : list LockdownOverride :=
  List.map (fun kv => mkOverride kv.1 kv.2) (List.filter disables (sp_env policy)).

(** * scratch_sweep.rs *)

Definition SCRATCH_DIR_PREFIXES : list bytes := [bs "egress-"; bs "matrix-"; bs "email-"; bs "embed-"; bs "search-"].

Definition is_ascii_digit (b : Z) : bool := (48 <=? b) && (b <=? 57).
Definition all_digits (s : bytes) : bool := negb (bool_decide (s = [])) && forallb is_ascii_digit s.

Definition u32_max : Z := 4294967295.
Definition i32_max : Z := 2147483647.

Fixpoint find_map_prefix (name : bytes) (prefixes : list bytes) : option bytes :=
  match prefixes with
  | [] => None
  | p :: ps => match strip_prefix p name with Some rest => Some rest | None => find_map_prefix name ps end
  end.

Definition parse_daemon_pid (name : bytes) : option Z :=
  rest ← find_map_prefix name SCRATCH_DIR_PREFIXES;
  '(pid_str, seq_str) ← split_once 45 rest;
  if negb (all_digits pid_str) then None
  else if negb (all_digits seq_str) then None
  else
    _ ← from_str_radix 10 u64_max seq_str;
    pid ← from_str_radix 10 u32_max pid_str;
    if (pid =? 0) || (i32_max <? pid) then None else Some pid.

Definition orphaned_scratch_should_remove (name : bytes) (our_pid : Z) (alive : Z -> bool) : bool :=
  match parse_daemon_pid name with
  | Some pid => if negb (pid =? our_pid) then negb (alive pid) else false
  | None => false
  end.

(** The directory [make_worker_scratch_dir] and the brokers create. *)
Definition scratch_name (prefix : bytes) (pid seq : Z) : bytes := prefix ++ show_z pid ++ [45] ++ show_z seq.

(** * Decimal numbers *)

Lemma digit_of_pretty d : (d < 10)%N -> digit_value (byte_of_ascii (pretty_N_char d)) = Some (Z.of_N d).
Proof.
  intros Hd. assert (d = 0 \/ d = 1 \/ d = 2 \/ d = 3 \/ d = 4 \/ d = 5 \/ d = 6 \/ d = 7 \/ d = 8 \/ d = 9)%N as Hc by lia.
  by repeat destruct Hc as [->|Hc]; [..|rewrite Hc].
Qed.

Lemma parse_pretty_go n s max :
  Z.of_N n <= max -> parse_digits 10 max 0 (bs (pretty_N_go n s)) = parse_digits 10 max (Z.of_N n) (bs s).
Proof.
  revert s. induction (N.lt_wf_0 n) as [n _ IH]. intros s Hn.
  destruct (decide (n = 0)%N) as [->|Hne]; [by rewrite pretty_N_go_0|]. rewrite pretty_N_go_step by lia.
  assert (n / 10 < n)%N as Hlt by (apply N.div_lt; lia).
  pose proof (N.div_mod' n 10) as Hdm. pose proof (N.mod_lt n 10 ltac:(lia)) as Hm.
  specialize (IH _ Hlt). set (q := (n / 10)%N) in *. clearbody q. rewrite IH by lia.
  cbn [bs parse_digits]. rewrite digit_of_pretty by done. set (d := (n mod 10)%N) in *. clearbody d.
  rewrite (proj2 (Z.ltb_lt _ _)) by lia. replace (Z.of_N q * 10 + Z.of_N d) with (Z.of_N n) by lia.
  by rewrite (proj2 (Z.leb_le _ _)) by lia.
Qed.

Lemma parse_show_z z max : 0 <= z <= max -> parse_digits 10 max 0 (show_z z) = Some z.
Proof.
  intros Hz. destruct z as [|p|p]; [|unfold show_z|lia].
  - change (parse_digits 10 max 0 (show_z 0)) with (if 0 <=? max then Some 0 else None). by rewrite (proj2 (Z.leb_le 0 max)) by lia.
  - change (pretty (Z.pos p)) with (pretty (N.pos p)). unfold pretty, pretty_N. rewrite decide_False by done.
    rewrite parse_pretty_go by (cbn; lia). reflexivity.
Qed.

Lemma digits_go n s : forallb is_ascii_digit (bs s) = true -> forallb is_ascii_digit (bs (pretty_N_go n s)) = true.
Proof.
  revert s. induction (N.lt_wf_0 n) as [n _ IH]. intros s Hs.
  destruct (decide (n = 0)%N) as [->|Hn]; [by rewrite pretty_N_go_0|]. rewrite pretty_N_go_step by lia.
  apply IH; [apply N.div_lt; lia|]. cbn [bs forallb]. rewrite Hs, andb_true_r. unfold pretty_N_char.
  by repeat case_match.
Qed.

Lemma show_z_digits z : 0 <= z -> all_digits (show_z z) = true.
Proof.
  intros Hz. unfold all_digits. apply andb_true_iff. split.
  - apply negb_true_iff, bool_decide_eq_false_2. intros E. pose proof (parse_show_z z z ltac:(lia)) as Hp.
    destruct z as [|p|p]; [done| |lia]. rewrite E in Hp. done.
  - unfold show_z. destruct z as [|p|p]; [done| |lia]. change (pretty (Z.pos p)) with (pretty (N.pos p)).
    unfold pretty, pretty_N. rewrite decide_False by done. by apply digits_go.
Qed.

Lemma from_str_radix_digits max s : all_digits s = true -> from_str_radix 10 max s = parse_digits 10 max 0 s.
Proof.
  unfold all_digits. intros [Hne Hd]%andb_true_iff. destruct s as [|c s]; [done|].
  cbn [forallb] in Hd. apply andb_true_iff in Hd as [Hc _]. unfold is_ascii_digit in Hc. apply andb_true_iff in Hc as [H1 H2].
  apply Z.leb_le in H1, H2. unfold from_str_radix. destruct c as [|p|p]; try lia.
  do 6 (destruct p as [p|p|]; try lia; try done).
Qed.

(** * Scratch directories *)

Lemma split_at_first c a b : c ∉ a -> split_once c (a ++ c :: b) = Some (a, b).
Proof. intros Ha. by apply split_once_Some. Qed.

Lemma digits_no_dash s : all_digits s = true -> 45 ∉ s.
Proof.
  unfold all_digits. intros [_ Hd]%andb_true_iff Hin. rewrite forallb_forall in Hd.
  by apply list_elem_of_In, Hd in Hin.
Qed.

(** The sweep knows the daemon's own directories: the name the spawns give a
    scratch directory reads back as the daemon's process id. *)
Theorem scratch_name_reads_back prefix pid seq :
  prefix ∈ SCRATCH_DIR_PREFIXES -> 0 < pid <= i32_max -> 0 <= seq <= u64_max ->
  parse_daemon_pid (scratch_name prefix pid seq) = Some pid.
Proof.
  intros Hp Hpid Hseq. unfold parse_daemon_pid, scratch_name.
  assert (find_map_prefix (prefix ++ show_z pid ++ [45] ++ show_z seq) SCRATCH_DIR_PREFIXES = Some (show_z pid ++ [45] ++ show_z seq)) as ->.
  { unfold SCRATCH_DIR_PREFIXES in Hp. repeat (apply elem_of_cons in Hp as [->|Hp]; [reflexivity|]). by apply elem_of_nil in Hp. }
  cbn [mbind option_bind]. pose proof (show_z_digits pid ltac:(lia)) as Dp. pose proof (show_z_digits seq ltac:(lia)) as Ds.
  change ([45] ++ show_z seq) with (45 :: show_z seq). rewrite split_at_first by (by apply digits_no_dash). cbn [mbind option_bind].
  rewrite Dp, Ds. cbn [negb]. rewrite !from_str_radix_digits by done. rewrite !parse_show_z by (unfold u32_max, i32_max in *; lia).
  cbn [mbind option_bind]. rewrite (proj2 (Z.eqb_neq pid 0)), (proj2 (Z.ltb_ge i32_max pid)) by lia. reflexivity.
Qed.

Lemma scratch_name_reads_back_witness : parse_daemon_pid (scratch_name (bs "embed-") 4711 0) = Some 4711.
Proof. apply scratch_name_reads_back; [set_solver|done|done]. Defined.

Lemma find_map_prefix_Some name ps rest :
  find_map_prefix name ps = Some rest -> exists p, p ∈ ps /\ name = p ++ rest.
Proof.
  induction ps as [|p ps IH]; cbn [find_map_prefix]; [done|]. destruct (strip_prefix p name) as [r|] eqn:E.
  - intros [= ->]. exists p. split; [left|by apply strip_prefix_Some].
  - intros Hf. destruct (IH Hf) as (q & Hq & ->). exists q. split; [by right|done].
Qed.

(** The sweep removes only directories with the shape of a daemon's scratch
    directory whose process id is in range, is not the daemon's own and belongs to
    no live process. *)
Theorem sweep_spares_live_directories name our_pid alive :
  orphaned_scratch_should_remove name our_pid alive = true ->
  exists prefix pid_str seq_str pid, prefix ∈ SCRATCH_DIR_PREFIXES /\ name = prefix ++ pid_str ++ 45 :: seq_str /\
    all_digits pid_str = true /\ all_digits seq_str = true /\ parse_digits 10 u32_max 0 pid_str = Some pid /\
    0 < pid <= i32_max /\ pid <> our_pid /\ alive pid = false.
Proof.
  unfold orphaned_scratch_should_remove, parse_daemon_pid.
  destruct (find_map_prefix name SCRATCH_DIR_PREFIXES) as [rest|] eqn:Hf; cbn [mbind option_bind]; [|done].
  destruct (split_once 45 rest) as [[ps ss]|] eqn:Hs; cbn [mbind option_bind]; [|done].
  destruct (all_digits ps) eqn:Dp; cbn [negb]; [|done]. destruct (all_digits ss) eqn:Ds; cbn [negb]; [|done].
  rewrite !from_str_radix_digits by done. destruct (parse_digits 10 u64_max 0 ss) as [seq|]; cbn [mbind option_bind]; [|done].
  destruct (parse_digits 10 u32_max 0 ps) as [pid|] eqn:Hp; cbn [mbind option_bind]; [|done].
  destruct ((pid =? 0) || (i32_max <? pid)) eqn:Hr; [done|]. destruct (pid =? our_pid) eqn:Ho; cbn [negb]; [done|].
  intros Ha%negb_true_iff. apply find_map_prefix_Some in Hf as (prefix & Hin & ->). apply split_once_Some in Hs as [-> _].
  exists prefix, ps, ss, pid. apply orb_false_iff in Hr as [H1%Z.eqb_neq H2%Z.ltb_ge]. apply Z.eqb_neq in Ho.
  assert (0 <= pid); [|repeat split; try done; lia].
  clear -Hp. assert (forall s acc, 0 <= acc -> parse_digits 10 u32_max acc s = Some pid -> 0 <= pid) as Hpos; [|by eapply Hpos, Hp].
  induction s as [|c s IH]; intros acc Hacc; cbn [parse_digits]; [by intros [= <-]|].
  destruct (digit_value c) as [d|] eqn:Hd; [|done]. destruct (d <? 10); [|done]. destruct (_ <=? _); [|done].
  apply IH. unfold digit_value in Hd. repeat case_match; simplify_eq; lia.
Qed.

Lemma sweep_spares_live_directories_witness :
  orphaned_scratch_should_remove (bs "egress-77-3") 5 (fun _ => false) = true /\
  exists prefix pid_str seq_str pid, prefix ∈ SCRATCH_DIR_PREFIXES /\ bs "egress-77-3" = prefix ++ pid_str ++ 45 :: seq_str /\
    all_digits pid_str = true /\ all_digits seq_str = true /\ parse_digits 10 u32_max 0 pid_str = Some pid /\
    0 < pid <= i32_max /\ pid <> 5 /\ false = false.
Proof.
  assert (orphaned_scratch_should_remove (bs "egress-77-3") 5 (fun _ => false) = true) as H by (vm_compute; reflexivity).
  split; [exact H|]. exact (sweep_spares_live_directories _ _ _ H).
Defined.

(** * The lockdown environment *)

Lemma has_env_app k a b : has_env k (a ++ b) = has_env k a || has_env k b.
Proof. apply existsb_app. Qed.

Lemma derived_env_prefix tj policy : exists more, sp_env (derive_lockdown_env tj policy) = sp_env policy ++ more /\
  Forall (fun kv => kv.1 ∈ [ENV_LANDLOCK_RW; ENV_LANDLOCK_RO; ENV_SECCOMP_PROFILE; ENV_CPU_MS] /\
                    has_env kv.1 (sp_env policy) = false /\ disables kv = false) more.
Proof.
  eexists. split; [reflexivity|]. unfold derive_lockdown_env.
  assert (forall k v, k ∈ [ENV_LANDLOCK_RW; ENV_LANDLOCK_RO; ENV_SECCOMP_PROFILE; ENV_CPU_MS] -> disables (k, v) = false ->
    Forall (fun kv => kv.1 ∈ [ENV_LANDLOCK_RW; ENV_LANDLOCK_RO; ENV_SECCOMP_PROFILE; ENV_CPU_MS] /\
                      has_env kv.1 (sp_env policy) = false /\ disables kv = false)
      (if has_env k (sp_env policy) then [] else [(k, v)])) as Hu.
  { intros k v Hk Hd. destruct (has_env k (sp_env policy)) eqn:E; [constructor|]. by apply list.Forall_cons. }
  rewrite !list.Forall_app. split; [apply Hu; [set_solver|reflexivity]|]. split; [apply Hu; [set_solver|reflexivity]|].
  split; [apply Hu; [set_solver|by destruct (sp_profile policy)]|].
  destruct (0 <? sp_cpu_ms policy); [apply Hu; [set_solver|reflexivity]|constructor].
Qed.

(** The derived environment only adds: the caller's entries stay in front, what
    is added was missing, the seccomp filter is always named, and no entry the
    derivation adds switches a layer off, so the overrides it reports are the
    caller's. *)
Theorem derived_env_never_unlocks tj policy :
  detect_lockdown_overrides (derive_lockdown_env tj policy) = detect_lockdown_overrides policy /\
  has_env ENV_SECCOMP_PROFILE (sp_env (derive_lockdown_env tj policy)) = true /\
  has_env ENV_LANDLOCK_RW (sp_env (derive_lockdown_env tj policy)) = true /\
  (has_env ENV_SECCOMP_PROFILE (sp_env policy) = false ->
   (ENV_SECCOMP_PROFILE, seccomp_value (sp_profile policy)) ∈ sp_env (derive_lockdown_env tj policy)) /\
  derive_lockdown_env tj (derive_lockdown_env tj policy) = derive_lockdown_env tj policy.
Proof.
  destruct (derived_env_prefix tj policy) as (more & Hmore & Hall).
  assert (has_env ENV_SECCOMP_PROFILE (sp_env (derive_lockdown_env tj policy)) = true /\
          has_env ENV_LANDLOCK_RW (sp_env (derive_lockdown_env tj policy)) = true /\
          has_env ENV_LANDLOCK_RO (sp_env (derive_lockdown_env tj policy)) = true /\
          (0 < sp_cpu_ms policy -> has_env ENV_CPU_MS (sp_env (derive_lockdown_env tj policy)) = true)) as (Hs & Hw & Hr & Hc).
  { unfold derive_lockdown_env. cbn [sp_env with_env].
    assert (forall k v, has_env k (sp_env policy) || has_env k (if has_env k (sp_env policy) then [] else [(k, v)]) = true) as Hk.
    { intros k v. destruct (has_env k (sp_env policy)) eqn:E; [done|]. cbn. by rewrite bytes_eqb_refl. }
    rewrite !has_env_app. split; [|split; [|split]].
    - pose proof (Hk ENV_SECCOMP_PROFILE (seccomp_value (sp_profile policy))) as E. apply orb_true_iff in E as [->| ->]; by rewrite ?orb_true_r.
    - pose proof (Hk ENV_LANDLOCK_RW (tj (sp_fs_write policy ++ opt_list (ps_guest_mount <$> sp_persistent_store policy)))) as E.
      apply orb_true_iff in E as [->| ->]; by rewrite ?orb_true_r.
    - pose proof (Hk ENV_LANDLOCK_RO (tj (sp_fs_read policy))) as E. apply orb_true_iff in E as [->| ->]; by rewrite ?orb_true_r.
    - intros Hpos. rewrite (proj2 (Z.ltb_lt 0 _) Hpos). pose proof (Hk ENV_CPU_MS (show_z (sp_cpu_ms policy))) as E.
      apply orb_true_iff in E as [->| ->]; by rewrite ?orb_true_r. }
  split; [|split; [done|split; [done|split]]].
  - unfold detect_lockdown_overrides. rewrite Hmore, List.filter_app, map_app.
    replace (List.filter disables more) with (@nil (bytes * bytes)); [by rewrite app_nil_r|].
    clear Hmore. induction Hall as [|kv l (_ & _ & Hd) Hl IH]; [done|]. cbn [List.filter]. by rewrite Hd.
  - intros Hno. unfold derive_lockdown_env. cbn [sp_env with_env]. rewrite Hno, !elem_of_app. right; right; right; left. left.
  - remember (derive_lockdown_env tj policy) as p eqn:Ep. assert (sp_cpu_ms p = sp_cpu_ms policy) as Ecpu by by subst.
    unfold derive_lockdown_env. rewrite Hs, Hw, Hr, Ecpu.
    destruct (0 <? sp_cpu_ms policy) eqn:Eb; [rewrite Hc by (by apply Z.ltb_lt)|]; cbn [app]; rewrite ?app_nil_r; by destruct p.
Qed.

Lemma derived_env_never_unlocks_witness :
  (ENV_SECCOMP_PROFILE, bs "strict") ∈ sp_env (derive_lockdown_env (fun _ => bs "[]") default_policy).
Proof. apply (derived_env_never_unlocks (fun _ => bs "[]") default_policy). reflexivity. Defined.

(** * Pins and anchors follow the proxy *)

(** [e] is an allowlist entry for the host [h] in one of the documented shapes:
    [host], [host:port] or [\[host\]], with or without a port, in ASCII and without
    surrounding blanks. *)
Definition names_host (e h : bytes) : Prop :=
  is_ascii e = true /\ trim_ascii e = e /\ trim_ascii h = h /\ h <> [] /\ h <> [DOT] /\
  ((COLON ∉ h /\ head h <> Some OPEN_BRACKET /\
    (e = h \/ exists port, e = h ++ COLON :: port /\ is_Some (parse_u16 port))) \/
   CLOSE_BRACKET ∉ h /\ exists rest, e = OPEN_BRACKET :: h ++ CLOSE_BRACKET :: rest).

Lemma parse_digits_no_colon radix max acc s z : parse_digits radix max acc s = Some z -> COLON ∉ s.
Proof.
  revert acc. induction s as [|c s IH]; intros acc; cbn [parse_digits]; [intros _; apply not_elem_of_nil|].
  destruct (digit_value c) as [d|] eqn:Hd; [|done]. destruct (d <? radix); [|done]. destruct (_ <=? max); [|done].
  intros Hp%IH [E|Hin]%elem_of_cons; [subst c; by vm_compute in Hd|done].
Qed.

Lemma parse_u16_no_colon s : is_Some (parse_u16 s) -> COLON ∉ s.
Proof.
  intros [z Hz]. destruct s as [|c s]; [done|]. unfold parse_u16, from_str_radix in Hz.
  destruct (decide (c = 43)) as [->|Hc].
  - destruct s; [done|]. apply parse_digits_no_colon in Hz. intros [E|Hin]%elem_of_cons; done.
  - assert (parse_digits 10 u16_max 0 (c :: s) = Some z) as Hd; [|by eapply parse_digits_no_colon].
    revert Hz Hc. clear. intros Hz Hc. destruct c as [|p|p]; [done| |done].
    do 6 (destruct p as [p|p|]; try done).
Qed.

Lemma strip_bracket h t : head h <> Some OPEN_BRACKET -> h <> [] -> strip_prefix [OPEN_BRACKET] (h ++ t) = None.
Proof.
  destruct h as [|c h]; [done|]. intros Hc _. cbn [strip_prefix app]. destruct (Z.eqb_spec OPEN_BRACKET c) as [<-|E]; [|done].
  by destruct Hc.
Qed.

Lemma host_of_named e h : names_host e h -> host_of_endpoint e = h.
Proof.
  intros (_ & _ & _ & Hne & _ & [(Hc & Hb & [->|(port & -> & Hp)])|[Hb [rest ->]]]); unfold host_of_endpoint.
  - replace (strip_prefix [OPEN_BRACKET] h) with (@None bytes) by (rewrite <- (app_nil_r h) at 1; by rewrite strip_bracket).
    by rewrite (proj2 (rsplit_once_None COLON h) Hc).
  - rewrite strip_bracket by done.
    assert (rsplit_once COLON (h ++ COLON :: port) = Some (h, port)) as -> by (apply rsplit_once_Some; split; [done|by apply parse_u16_no_colon]).
    done.
  - change (strip_prefix [OPEN_BRACKET] (OPEN_BRACKET :: h ++ CLOSE_BRACKET :: rest)) with (Some (h ++ CLOSE_BRACKET :: rest)).
    cbn iota. by rewrite split_at_first.
Qed.

Section Selection.
Context `{UnicodeStr}.

Lemma split_named e h : names_host e h -> (split_host_port e).1 = h.
Proof.
  intros (Ha & Ht & _ & Hne & _ & Hshape). unfold split_host_port. rewrite str_trim_ascii, Ht by done.
  destruct Hshape as [(Hc & Hb & [->|(port & -> & Hp)])|[Hb [rest ->]]].
  - replace (strip_prefix [OPEN_BRACKET] h) with (@None bytes) by (rewrite <- (app_nil_r h) at 1; by rewrite strip_bracket).
    by rewrite (proj2 (rsplit_once_None COLON h) Hc).
  - rewrite strip_bracket by done.
    assert (rsplit_once COLON (h ++ COLON :: port) = Some (h, port)) as -> by (apply rsplit_once_Some; split; [done|by apply parse_u16_no_colon]).
    destruct (contains [COLON] h) eqn:Hco; cbn [negb].
    + apply contains_true in Hco as (a & b & ->). destruct Hc. rewrite !elem_of_app. right. left. by left.
    + by destruct Hp as [z ->].
  - change (strip_prefix [OPEN_BRACKET] (OPEN_BRACKET :: h ++ CLOSE_BRACKET :: rest)) with (Some (h ++ CLOSE_BRACKET :: rest)).
    cbn iota. by rewrite split_at_first.
Qed.

Lemma is_ascii_app a b : is_ascii (a ++ b) = is_ascii a && is_ascii b.
Proof. apply forallb_app. Qed.

Lemma is_ascii_cons c a : is_ascii (c :: a) = ((0 <=? c) && (c <? 128)) && is_ascii a.
Proof. reflexivity. Qed.

Lemma named_host_ascii e h : names_host e h -> is_ascii h = true.
Proof.
  intros (Ha & _ & _ & _ & _ & [(_ & _ & [->|(port & -> & _)])|[_ [rest ->]]]); [done|..].
  - rewrite is_ascii_app in Ha. by apply andb_true_iff in Ha as [? _].
  - rewrite is_ascii_cons, is_ascii_app in Ha. apply andb_true_iff in Ha as [_ Ha]. by apply andb_true_iff in Ha as [? _].
Qed.

(** On such an entry the core's matcher is the proxy's. *)
Lemma entry_admits_matches e h :
  names_host e h -> exists r, endpoint_rule e = Some r /\
    forall k, allowlist_entry_admits (to_ascii_lowercase h) k = matches (matcher r) k.
Proof.
  intros Hn. pose proof (split_named e h Hn) as Hs. pose proof (named_host_ascii e h Hn) as Ha.
  destruct Hn as (_ & _ & Ht & Hne & Hdot & _). unfold endpoint_rule. destruct (split_host_port e) as [h' port]. cbn in Hs. subst h'.
  unfold parse_host, normalize_host. rewrite str_trim_ascii, Ht, to_lowercase_ascii by done.
  destruct h as [|c h]; [done|]. change (to_ascii_lowercase (c :: h)) with (ascii_lower c :: to_ascii_lowercase h) in *.
  cbn [strip_prefix]. unfold allowlist_entry_admits. cbn [strip_prefix].
  destruct (Z.eqb_spec DOT (ascii_lower c)) as [E|E].
  - destruct h as [|c2 h].
    + exfalso. apply Hdot. f_equal. unfold ascii_lower, DOT in E. destruct ((65 <=? c) && (c <=? 90)) eqn:Eb; [|done].
      apply andb_true_iff in Eb as [?%Z.leb_le ?%Z.leb_le]. lia.
    + eexists. split; [reflexivity|]. intros k. reflexivity.
  - eexists. split; [reflexivity|]. intros k. cbn [matcher matches]. apply bool_eq_iff. rewrite !bytes_eqb_eq. split; congruence.
Qed.

Lemma collect_pins_keys raw out map :
  collect_pins raw out = Ok map -> Forall (fun k => to_ascii_lowercase k = k) out.*1 -> Forall (fun k => to_ascii_lowercase k = k) map.*1.
Proof.
  revert out. induction raw as [|[host pins] raw IH]; intros out; cbn [collect_pins]; [by intros [= ->]|].
  destruct (check_pins host pins); [done|]. intros Hc Ho. apply (IH _ Hc). apply list.Forall_forall. intros k Hk.
  apply map_insert_keys in Hk as [->|Hk]; [|by apply (proj1 (list.Forall_forall _ _) Ho)].
  unfold to_ascii_lowercase. rewrite List.map_map. apply List.map_ext. apply ascii_lower_idem.
Qed.

(** A worker's sidecar gets exactly the pins of the hosts its proxy lets it
    reach: for an allowlist of documented shape, a pinned host is selected if and
    only if the proxy allows a connection to it on some port. *)
Theorem pins_follow_the_proxy from_str json map allowlist k pins :
  parse_cert_pins from_str json = Ok map -> (forall e, e ∈ allowlist -> exists h, names_host e h) ->
  (k, pins) ∈ map -> is_ascii k = true -> trim_ascii k = k ->
  ((k, pins) ∈ selected_pins map allowlist <->
   exists port, is_allowed_endpoint (from_endpoints allowlist) k port = true).
Proof.
  intros Hparse Hal Hin Hka Hkt.
  assert (normalize_host k = k) as Hk.
  { unfold normalize_host. rewrite str_trim_ascii, Hkt, to_lowercase_ascii by done.
    unfold parse_cert_pins in Hparse. destruct (from_str json) as [raw|e]; [|done].
    apply collect_pins_keys in Hparse; [|constructor]. apply (proj1 (list.Forall_forall _ _) Hparse).
    apply list_elem_of_fmap. by exists (k, pins). }
  unfold selected_pins. rewrite !list_elem_of_In, filter_In, <- list_elem_of_In. rewrite existsb_exists.
  transitivity (exists e, e ∈ allowlist /\ allowlist_entry_admits (to_ascii_lowercase (host_of_endpoint e)) k = true).
  { split.
    - intros (_ & x & Hx & Hm). apply in_map_iff in Hx as (e & <- & He). exists e. by rewrite list_elem_of_In.
    - intros (e & He & Hm). split; [done|]. eexists. split; [|exact Hm]. apply in_map_iff. exists e. by rewrite <- list_elem_of_In. }
  setoid_rewrite is_allowed_endpoint_iff. rewrite Hk. unfold from_endpoints. cbn [rules]. split.
  - intros (e & He & Hm). destruct (Hal e He) as [h Hh]. rewrite (host_of_named e h Hh) in Hm.
    destruct (entry_admits_matches e h Hh) as (r & Hr & Hmatch). rewrite Hmatch in Hm. apply matches_spec in Hm.
    exists (default 0 (rule_port r)), r. split; [apply list_elem_of_omap; by exists e|]. split; [done|]. destruct (rule_port r); auto.
  - intros (port & r & Hr & [Hm _]). apply list_elem_of_omap in Hr as (e & He & Hr). destruct (Hal e He) as [h Hh].
    exists e. split; [done|]. rewrite (host_of_named e h Hh). destruct (entry_admits_matches e h Hh) as (r' & Hr' & Hmatch).
    rewrite Hr in Hr'. injection Hr' as <-. rewrite Hmatch. by apply matches_spec.
Qed.

(** ** The extra trust anchor *)

Context `{IpText}.

Lemma allowlist_hosts_spec allowlist h :
  h ∈ allowlist_hosts allowlist <-> exists e, e ∈ allowlist /\ h = canonical_allowlist_host e.
Proof.
  unfold allowlist_hosts. assert (forall (m : list (bytes * ())), h ∈ (fold_left (fun m ep => map_insert (canonical_allowlist_host ep) tt m) allowlist m).*1 <->
    h ∈ m.*1 \/ exists e, e ∈ allowlist /\ h = canonical_allowlist_host e) as Hf.
  { induction allowlist as [|e l IH]; intros m; cbn [fold_left].
    - split; [by left|]. intros [?|(e & He & _)]; [done|by apply elem_of_nil in He].
    - rewrite IH, map_insert_keys. split.
      + intros [[->|Hm]|(x & Hx & ->)]; [right; exists e; split; [left|done]|by left|right; exists x; split; [by right|done]].
      + intros [Hm|(x & [->|Hx]%elem_of_cons & ->)]; [left; by right|left; by left|right; by exists x]. }
  rewrite Hf. split; [|by right]. intros [Hn|?]; [by apply elem_of_nil in Hn|done].
Qed.

Lemma collect_cas_keys raw out map :
  collect_cas raw out = Ok map ->
  Forall (fun '(k, p) => is_absolute p = true /\ exists ip, k = ip_show ip /\ is_denied_range ip = true) out ->
  Forall (fun '(k, p) => is_absolute p = true /\ exists ip, k = ip_show ip /\ is_denied_range ip = true) map.
Proof.
  revert out. induction raw as [|[host path] raw IH]; intros out; cbn [collect_cas]; [by intros [= ->]|].
  destruct (str_trim path) as [|c p] eqn:Ep; [done|]. destruct (is_absolute (c :: p)) eqn:Ea; cbn [negb]; [|done].
  unfold private_literal_key. destruct (ip_parse (str_trim host)) as [ip|]; [|done]. destruct (is_denied_range ip) eqn:Ed; [|done].
  intros Hc Ho. apply (IH _ Hc). clear -Ho Ea Ed. induction out as [|[k v] out IHo]; cbn [map_insert].
  - constructor; [|constructor]. split; [done|by exists ip].
  - apply list.Forall_cons in Ho as [Hk Ho]. repeat case_match; repeat (apply list.Forall_cons; split); eauto.
Qed.

(** An extra trust anchor vouches for one private address only: when a worker is
    given one, every connection its proxy would allow is to the literal address the
    anchor is configured for, and that address is in a range the proxy refuses to
    names, so no public host is ever checked against the operator's anchor. *)
Theorem extra_ca_vouches_for_one_private_address from_str json map allowlist path host port :
  parse_upstream_cas from_str json = Ok map -> (forall e, e ∈ allowlist -> exists h, names_host e h) ->
  select_ca_for_allowlist map allowlist = Ok (Some path) ->
  is_allowed_endpoint (from_endpoints allowlist) host port = true ->
  is_absolute path = true /\ exists ip, (ip_show ip, path) ∈ map /\ is_denied_range ip = true /\ ip_parse (normalize_host host) = Some ip.
Proof.
  intros Hparse Hal Hsel Hallow. unfold parse_upstream_cas in Hparse. destruct (from_str json) as [raw|e]; [|done].
  apply collect_cas_keys in Hparse; [|constructor]. unfold select_ca_for_allowlist in Hsel.
  destruct (List.filter _ map) as [|[key p] [|y l]] eqn:Ef; [done| |by destruct y].
  assert ((key, p) ∈ map) as Hkey.
  { apply list_elem_of_In, (filter_In (fun '(host, _) => bool_decide (host ∈ allowlist_hosts allowlist))). rewrite Ef. by left. }
  destruct (List.filter (fun h => negb (bytes_eqb h key)) _) as [|o os] eqn:Eo; [|done]. injection Hsel as ->.
  pose proof (proj1 (list.Forall_forall _ _) Hparse _ Hkey) as [Habs (ip & -> & Hden)].
  split; [done|]. exists ip. split; [done|]. split; [done|].
  apply is_allowed_endpoint_iff in Hallow as (r & Hr & [Hm _]). apply list_elem_of_omap in Hr as (e & He & Hr).
  assert (canonical_allowlist_host e = ip_show ip) as Hcanon.
  { destruct (bytes_eqb (canonical_allowlist_host e) (ip_show ip)) eqn:E; [by apply bytes_eqb_eq|]. exfalso.
    assert (canonical_allowlist_host e ∈ []) as Hno; [|by apply elem_of_nil in Hno]. rewrite <- Eo. apply list_elem_of_In, filter_In.
    rewrite E, <- list_elem_of_In, allowlist_hosts_spec. split; [by exists e|done]. }
  destruct (Hal e He) as [h Hh]. unfold canonical_allowlist_host in Hcanon. rewrite (host_of_named e h Hh) in Hcanon.
  assert (ip_parse (to_ascii_lowercase h) = Some ip) as Hip.
  { destruct (ip_parse (to_ascii_lowercase h)) as [ip'|] eqn:E.
    - f_equal. apply (f_equal ip_parse) in Hcanon. rewrite !ip_parse_show in Hcanon. by injection Hcanon.
    - rewrite Hcanon, ip_parse_show in E. done. }
  assert (matches (matcher r) (normalize_host host) = true) as Hm' by by apply matches_spec.
  destruct (entry_admits_matches e h Hh) as (r' & Hr' & Hmatch). rewrite Hr in Hr'. injection Hr' as <-.
  rewrite <- Hmatch in Hm'. unfold allowlist_entry_admits in Hm'.
  destruct (strip_prefix [DOT] (to_ascii_lowercase h)) as [d|] eqn:Es.
  - apply strip_prefix_Some in Es. rewrite Es in Hip. change ([DOT] ++ d) with (DOT :: d) in Hip. by rewrite ip_parse_dot in Hip.
  - apply bytes_eqb_eq in Hm'. by rewrite <- Hm'.
Qed.
End Selection.

Lemma pins_follow_the_proxy_witness :
  (bs "api.example.com", [bs "sha256/AA"]) ∈ selected_pins [(bs "api.example.com", [bs "sha256/AA"])] [bs ".Example.com:443"] <->
  exists port, is_allowed_endpoint (from_endpoints [bs ".Example.com:443"]) (bs "api.example.com") port = true.
Proof.
  apply (pins_follow_the_proxy (fun _ => Ok [(bs "API.example.com", [bs "sha256/AA"])]) [] _ _ (bs "api.example.com") [bs "sha256/AA"]);
    [reflexivity| |left|reflexivity|reflexivity].
  intros e He. apply list_elem_of_singleton in He as ->. exists (bs ".Example.com").
  repeat (split; [by vm_compute|]). left. split; [apply (bool_decide_eq_false_1 (COLON ∈ _)); vm_compute; reflexivity|].
  split; [by vm_compute|]. right. exists (bs "443"). split; [reflexivity|by vm_compute; eexists].
Defined.

(** The selection is not the proxy's outside the documented shapes: the proxy
    takes an IPv6 address without brackets as a host and lets the worker reach it,
    while the core cuts it at its last colon, so the address's pin never reaches the
    sidecar. *)
Theorem unbracketed_ipv6_loses_its_pin to_string port :
  let allowlist := [bs "2001:db8::1"] in
  is_allowed_endpoint (from_endpoints allowlist) (bs "2001:db8::1") port = true /\
  select_pins_for_allowlist to_string [(bs "2001:db8::1", [bs "sha256/AA"])] allowlist = None.
Proof. split; vm_compute; reflexivity. Qed.

(** Addresses written as their numbers, which is its own inverse. *)
#[local] Instance plain_ip_text : IpText := {|
  ip_parse s :=
    match s with
    | [4; a; b; c; d] => Some (V4 (mkV4 a b c d))
    | [6; a; b; c; d; e; f; g; h] => Some (V6 (mkV6 a b c d e f g h))
    | _ => None
    end;
  ip_show ip :=
    match ip with
    | V4 (mkV4 a b c d) => [4; a; b; c; d]
    | V6 (mkV6 a b c d e f g h) => [6; a; b; c; d; e; f; g; h]
    end;
  ip_parse_show ip := match ip with V4 (mkV4 _ _ _ _) | V6 (mkV6 _ _ _ _ _ _ _ _) => eq_refl end;
  ip_parse_dot s := eq_refl |}.

Lemma extra_ca_vouches_for_one_private_address_witness :
  is_absolute (bs "/ca.pem") = true /\
  exists ip, (ip_show ip, bs "/ca.pem") ∈ [([4; 10; 1; 1; 3], bs "/ca.pem")] /\ is_denied_range ip = true /\
    ip_parse (normalize_host [4; 10; 1; 1; 3]) = Some ip.
Proof.
  apply (extra_ca_vouches_for_one_private_address (fun _ => Ok [([4; 10; 1; 1; 3], bs " /ca.pem")]) []
           [([4; 10; 1; 1; 3], bs "/ca.pem")] [[4; 10; 1; 1; 3] ++ bs ":443"] (bs "/ca.pem") [4; 10; 1; 1; 3] 443).
  - vm_compute; reflexivity.
  - intros e He. apply list_elem_of_singleton in He as ->. exists [4; 10; 1; 1; 3].
    repeat (split; [by vm_compute|]). left. split; [apply (bool_decide_eq_false_1 (COLON ∈ _)); vm_compute; reflexivity|].
    split; [by vm_compute|]. right. exists (bs "443"). split; [reflexivity|by vm_compute; eexists].
  - vm_compute; reflexivity.
  - vm_compute; reflexivity.
Defined.
