(* ===== verification/EgressSpawn.v ===== *)
(** Spawning a worker with its sidecars: the lockdown spawn (src/core/src/tool_host.rs,
    src/core/src/tool_host/spawn_invocation.rs, scratch.rs), the egress proxy of a
    force-routed worker (src/core/src/egress/spawn.rs, net_worker.rs), the brokers
    (src/core/src/broker), the readiness wait (src/core/src/sidecar_ready.rs) and the
    chokepoint that combines them (src/core/src/worker_lifecycle/force_route.rs).

    The operating system is a world; the trace records directories made and removed
    and processes spawned, found ready and stopped.  A value dropped on an error path
    is an explicit clean-up.  The back ends pipe the standard streams of what they
    start, so building the client does not fail; the threads that drain those
    streams, the watchdog and the decision log are not modelled.  The readiness wait
    polls at most [polls] times in the model; [StillWaiting] marks a run that used
    them up, and [sidecar_wait_ends] shows that 201 polls are enough. *)

From stdpp Require Import base list sets numbers strings option pretty.
From Stdlib Require Import ZArith Lia.
From S2P Require Import Prelude RustStr Json LoopPure Effects Protocol Secrets ToolHost Allowlist Sandbox Seatbelt EgressConfig.
Local Open Scope Z_scope.
Local Open Scope prog_scope.

(** * Data *)

Inductive BrokerKind := Embed | Search.

Definition uds_env (k : BrokerKind) : bytes :=
  match k with Embed => bs "KASTELLAN_EMBED_BROKER_UDS" | Search => bs "KASTELLAN_SEARCH_BROKER_UDS" end.
Definition endpoint_env (k : BrokerKind) : bytes :=
  match k with Embed => bs "KASTELLAN_EMBED_BROKER_ENDPOINT" | Search => bs "KASTELLAN_SEARCH_BROKER_ENDPOINT" end.
Definition scratch_dir_env (k : BrokerKind) : bytes :=
  match k with Embed => bs "KASTELLAN_EMBED_BROKER_SCRATCH_DIR" | Search => bs "KASTELLAN_SEARCH_BROKER_SCRATCH_DIR" end.
Definition uds_file (k : BrokerKind) : bytes := match k with Embed => bs "embed.sock" | Search => bs "search.sock" end.
Definition scratch_prefix (k : BrokerKind) : bytes := match k with Embed => bs "embed-" | Search => bs "search-" end.
Definition kind_debug (k : BrokerKind) : bytes := match k with Embed => bs "Embed" | Search => bs "Search" end.

Record BrokerSpec := mkBrokerSpec { bk_kind : BrokerKind; bk_endpoint : bytes }.
Record BrokerConfig := mkBrokerConfig { bc_kind : BrokerKind; bc_broker_bin : bytes; bc_scratch_root : bytes }.
Record BrokerConfigs := mkBrokerConfigs { bcs_embed : option BrokerConfig; bcs_search : option BrokerConfig }.

Definition for_kind (c : BrokerConfigs) (k : BrokerKind) : option BrokerConfig :=
  match k with Embed => bcs_embed c | Search => bcs_search c end.

Record ForceRoutingConfig := mkForce {
  fc_proxy_bin : bytes; fc_scratch_root : bytes; fc_cert_pins : option CertPinMap; fc_upstream_cas : option UpstreamCaMap }.

Record WorkerSpec := mkWorkerSpec { ws_policy : SandboxPolicy; ws_program : bytes; ws_args : list bytes }.

Record SidecarSpawn := mkSidecarSpawn {
  ss_binary : bytes; ss_allowlist : list bytes; ss_scratch : bytes; ss_worker : bytes;
  ss_cert_pins_json : option bytes; ss_mitm : Mitm; ss_long_lived : bool }.

(** A running sidecar and the directory it owns, if it owns one. *)
Record Running := mkRunning { rn_child : nat; rn_uds : bytes; rn_scratch : option bytes }.

Record SupervisedWorker := mkWorker { wk_child : nat; wk_egress : option Running; wk_broker : option Running }.

Inductive Role := Proxy | Broker | Worker.

Inductive SpawnEv :=
| SvDir (dir : bytes)
| SvSpawn (role : Role) (child : nat) (policy : SandboxPolicy)
| SvReady (child : nat)
| SvStopped (child : nat)
| SvRemoved (dir : bytes).

Inductive SpawnFailure := Failed (e : ToolHostError) | StillWaiting.

(** A failed [waitpid]: [ECHILD] or another error. *)
Record PollError := mkPollError { pe_echild : bool; pe_text : bytes }.

Definition may_kill_after_failed_poll (e : PollError) : bool := negb (pe_echild e).

Inductive SidecarReady := Ready | Exited (status : bytes) | TimedOut | Unpollable (e : PollError).

(** The operating system; [B] names the sandbox back ends. *)
Class SpawnWorld (W B : Type) := {
  sw_spawn : B -> SandboxPolicy -> bytes -> list bytes -> W -> result nat bytes * W;
  sw_exists : bytes -> W -> bool * W;
  sw_try_wait : nat -> W -> result (option bytes) PollError * W;
  sw_now : W -> Z * W;
  sw_sleep : Z -> W -> W;
  sw_next_seq : W -> Z * W;
  sw_create_private_dir : bytes -> W -> result () bytes * W;
  sw_kill : nat -> W -> W;
  sw_remove_file : bytes -> W -> W;
  sw_remove_dir_all : bytes -> W -> W;
  sw_write_secret_hashes : bytes -> W -> W;
  sw_stderr_note : nat -> W -> bytes * W;
  sw_pid : Z }.

(** [serde_json::to_string] of strings and of pins, [Url::parse] reduced to host and
    known port, [{:?}] of a selection error, the platform's [sun_path] size. *)
Class SpawnText := {
  strings_to_json : list bytes -> bytes;
  pins_to_string : CertPinMap -> bytes;
  url_host_port : bytes -> option (option bytes * option Z);
  select_error_text : UpstreamCaSelectError -> bytes;
  sun_path_max : Z }.

(** * Pure parts *)

Definition ENV_UDS : bytes := bs "KASTELLAN_EGRESS_PROXY_UDS".
Definition ENV_CA : bytes := bs "KASTELLAN_EGRESS_PROXY_CA".
Definition ENV_ALLOWLIST : bytes := bs "KASTELLAN_EGRESS_PROXY_ALLOWLIST".
Definition ENV_WORKER : bytes := bs "KASTELLAN_EGRESS_PROXY_WORKER".
Definition ENV_PINS : bytes := bs "KASTELLAN_EGRESS_PROXY_PINS".
Definition ENV_DISABLE_MITM : bytes := bs "KASTELLAN_EGRESS_PROXY_DISABLE_MITM".
Definition ENV_UPSTREAM_EXTRA_CA : bytes := bs "KASTELLAN_EGRESS_PROXY_UPSTREAM_EXTRA_CA".
Definition UDS_FILE_NAME : bytes := bs "egress.sock".
Definition CA_FILE_NAME : bytes := bs "ca.pem".
Definition EGRESS_SCRATCH_DIR_PREFIX : bytes := bs "egress-".
Definition RESOLV_CONF : bytes := bs "/etc/resolv.conf".

(** Durations in milliseconds. *)
Definition READY_TIMEOUT : Z := 5000.
Definition READY_POLL : Z := 25.
Definition SHORT_LIVED_SIDECAR_CPU_MS : Z := 10000.
Definition BROKER_CPU_MS : Z := 10000.

Definition set_paths_env (policy : SandboxPolicy) (fs_read : list bytes) (env : list (bytes * bytes))
    (proxy_uds broker_uds : option bytes) : SandboxPolicy :=
  mkPolicy fs_read (sp_fs_write policy) (sp_net policy) (sp_cpu_ms policy) (sp_mem_mb policy) (sp_profile policy)
    (sp_cpu_quota_pct policy) (sp_tasks_max policy) env proxy_uds broker_uds (sp_persistent_store policy).

Definition without_env (keys : list bytes) (env : list (bytes * bytes)) : list (bytes * bytes) :=
  List.filter (fun kv => negb (existsb (bytes_eqb kv.1) keys)) env.

Definition rewrite_worker_policy (policy : SandboxPolicy) (uds : bytes) (ca : option bytes) : SandboxPolicy :=
  let fs_read := List.filter (fun p => negb (path_eqb p RESOLV_CONF)) (sp_fs_read policy) in
  let env := without_env [ENV_UDS; ENV_CA] (sp_env policy) in
  let fs_read := match ca with
                 | Some ca => if existsb (fun p => path_eqb p ca) fs_read then fs_read else fs_read ++ [ca]
                 | None => fs_read
                 end in
  set_paths_env policy fs_read
    (env ++ [(ENV_UDS, uds)] ++ match ca with Some ca => [(ENV_CA, ca)] | None => [] end) (Some uds) (sp_broker_uds policy).

Definition rewrite_policy_for_broker (policy : SandboxPolicy) (uds : bytes) (kind : BrokerKind) : SandboxPolicy :=
  set_paths_env policy (sp_fs_read policy) (without_env [uds_env kind] (sp_env policy) ++ [(uds_env kind, uds)])
    (sp_proxy_uds policy) (Some uds).

Definition build_program_and_args (binary : bytes) (shim : option bytes) (base_args : list bytes) : bytes * list bytes :=
  match shim with Some shim => (shim, binary :: base_args) | None => (binary, base_args) end.

Definition ENV_WORKER_SCRATCH : bytes := bs "KASTELLAN_WORKER_SCRATCH".
Definition ENV_WORKER_OUT : bytes := bs "KASTELLAN_WORKER_OUT".

Definition grant_dir (var : bytes) (policy : SandboxPolicy) (dir : bytes) : SandboxPolicy :=
  mkPolicy (sp_fs_read policy) (sp_fs_write policy ++ [dir]) (sp_net policy) (sp_cpu_ms policy) (sp_mem_mb policy)
    (sp_profile policy) (sp_cpu_quota_pct policy) (sp_tasks_max policy) (sp_env policy ++ [(var, dir)])
    (sp_proxy_uds policy) (sp_broker_uds policy) (sp_persistent_store policy).

Definition apply_scratch : SandboxPolicy -> bytes -> SandboxPolicy := grant_dir ENV_WORKER_SCRATCH.
Definition apply_workspace_out : SandboxPolicy -> bytes -> SandboxPolicy := grant_dir ENV_WORKER_OUT.

Section Spawn.
Context {W B : Type} `{SpawnWorld W B} `{SpawnText} `{UnicodeStr} `{UnicodeDebug} `{IpText}.
Notation spawning A := (prog W SpawnEv SpawnFailure A).

Definition pins_for (cfg : ForceRoutingConfig) (allowlist : list bytes) : option bytes :=
  fc_cert_pins cfg ≫= fun m => select_pins_for_allowlist pins_to_string m allowlist.

Definition upstream_ca_for (cfg : ForceRoutingConfig) (allowlist : list bytes) : result (option bytes) UpstreamCaSelectError :=
  match fc_upstream_cas cfg with None => Ok None | Some m => select_ca_for_allowlist m allowlist end.

Definition proxy_policy (spec : SidecarSpawn) : SandboxPolicy :=
  let extra_ca := mitm_extra_ca (ss_mitm spec) in
  mkPolicy ([ss_binary spec; RESOLV_CONF; bs "/etc/hosts"; bs "/etc/nsswitch.conf"] ++ opt_list extra_ca)
    [ss_scratch spec] ProxyEgress (if ss_long_lived spec then 0 else SHORT_LIVED_SIDECAR_CPU_MS) 256 WorkerNetClient None None
    ([(ENV_UDS, path_join (ss_scratch spec) UDS_FILE_NAME); (ENV_ALLOWLIST, strings_to_json (ss_allowlist spec));
      (ENV_WORKER, ss_worker spec)] ++
     match ss_cert_pins_json spec with
     | Some pins => if bool_decide (str_trim pins = []) then [] else [(ENV_PINS, pins)]
     | None => []
     end ++
     (if is_transparent (ss_mitm spec) then [(ENV_DISABLE_MITM, bs "1")] else []) ++
     match extra_ca with Some ca => [(ENV_UPSTREAM_EXTRA_CA, ca)] | None => [] end)
    None None None.

Definition broker_allowlist_from_endpoint (endpoint : bytes) : list bytes :=
  match url_host_port endpoint with
  | Some (Some host, port) => [host ++ bs ":" ++ show_z (default 443 port)]
  | _ => []
  end.

Definition broker_policy (binary endpoint scratch : bytes) (kind : BrokerKind) : SandboxPolicy :=
  mkPolicy [binary; RESOLV_CONF; bs "/etc/hosts"; bs "/etc/nsswitch.conf"] [scratch]
    (NetAllowlist (broker_allowlist_from_endpoint endpoint)) BROKER_CPU_MS 256 WorkerNetClient None None
    [(uds_env kind, path_join scratch (uds_file kind)); (endpoint_env kind, endpoint)] None None None.

(** * The readiness wait *)

Fixpoint wait_loop (polls : nat) (deadline : Z) (ready : W -> bool * W) (exited : W -> result (option bytes) PollError * W)
    (w : W) : option SidecarReady * W :=
  match polls with
  | O => (None, w)
  | S polls' =>
      let '(r, w) := ready w in
      if (r : bool) then (Some Ready, w)
      else
        let '(x, w) := exited w in
        match x with
        | Ok (Some status) => (Some (Exited status), w)
        | Err e => (Some (Unpollable e), w)
        | Ok None =>
            let '(now, w) := sw_now w in
            if deadline <=? now then (Some TimedOut, w)
            else wait_loop polls' deadline ready exited (sw_sleep READY_POLL w)
        end
  end.

Definition wait_for_sidecar_ready (polls : nat) (timeout : Z) ready exited (w : W) : option SidecarReady * W :=
  let '(now, w) := sw_now w in wait_loop polls (now + timeout) ready exited w.

(** * The spawns *)

Variable polls : nat.

Definition fail {A} (e : ToolHostError) : spawning A := throw (Failed e).
Definition io {A} (msg : bytes) : spawning A := fail (HostIo msg).
Definition act (f : W -> W) : spawning () := effect (fun w => (tt, f w)).

(** A value whose [Drop] runs when [m] fails. *)
Definition on_error {A} (m : spawning A) (cleanup : spawning ()) : spawning A := fun w t =>
  match m w t with
  | (Ok a, w', t') => (Ok a, w', t')
  | (Err e, w', t') => let '(_, w'', t'') := cleanup w' t' in (Err e, w'', t'')
  end.

Definition stop (child : nat) : spawning () := act (sw_kill child) ;;; emit (SvStopped child).
Definition remove_dir (dir : bytes) : spawning () := act (sw_remove_dir_all dir) ;;; emit (SvRemoved dir).

(** [backend.spawn_under_policy] *)
Definition spawn_under (role : Role) (backend : B) (policy : SandboxPolicy) (program : bytes) (args : list bytes)
    (error : bytes -> ToolHostError) : spawning nat :=
  let* r := effect (sw_spawn backend policy program args) in
  match r with
  | Ok child => emit (SvSpawn role child policy) ;;; ret child
  | Err e => fail (error e)
  end.

Definition spawn_worker (backend : B) (spec : WorkerSpec) : spawning SupervisedWorker :=
  let* child := spawn_under Worker backend (derive_lockdown_env strings_to_json (ws_policy spec)) (ws_program spec) (ws_args spec) ToolHost.Sandbox in
  ret (mkWorker child None None).

(** [create_private_dir] for a fresh [<prefix><pid>-<seq>] whose socket path fits. *)
Definition make_scratch_dir (prefix root file : bytes) (what shorten : bytes) : spawning bytes :=
  let* seq := effect sw_next_seq in
  let dir := path_join root (scratch_name prefix sw_pid seq) in
  let projected_uds := path_join dir file in
  let uds_len := Z.of_nat (length projected_uds) in
  if sun_path_max <? uds_len + 1 then
    io (what ++ bs " socket path is " ++ show_z uds_len ++ bs " bytes (+NUL), over the " ++ show_z sun_path_max ++
        bs "-byte sockaddr_un.sun_path limit — shorten " ++ shorten ++ bs " (projected: " ++ projected_uds ++ bs ")")
  else
    let* made := effect (sw_create_private_dir dir) in
    match made with
    | Ok _ => emit (SvDir dir) ;;; ret dir
    | Err e => io e
    end.

(** Waits for the files, and stops what is not ready; [note] is the sidecar's own
    account of a failure, [on_timeout] the rest of its clean-up. *)
Definition await_ready (child : nat) (files : list bytes) (note : spawning bytes) (on_timeout : spawning ())
    (exited_msg unpollable_msg : bytes -> bytes) (timed_out_msg : bytes) : spawning () :=
  let all_exist := fun w => fold_left (fun '(b, w) f => if (b : bool) then sw_exists f w else (false, w)) files (true, w) in
  let* r := effect (wait_for_sidecar_ready polls READY_TIMEOUT all_exist (sw_try_wait child)) in
  match r with
  | None => throw StillWaiting
  | Some Ready => emit (SvReady child)
  | Some (Exited status) => emit (SvStopped child) ;;; let* n := note in io (exited_msg status ++ n)
  | Some (Unpollable e) =>
      (if may_kill_after_failed_poll e then stop child else emit (SvStopped child)) ;;;
      let* n := note in io (unpollable_msg (pe_text e) ++ n)
  | Some TimedOut => stop child ;;; let* n := note in on_timeout ;;; io (timed_out_msg ++ n)
  end.

Definition check_upstream_extra_ca (m : Mitm) : spawning () :=
  match mitm_extra_ca m with
  | Some ca =>
      if is_absolute ca then ret tt
      else io (bs "egress sidecar: upstream extra CA path must be absolute (it is bound into the proxy jail via fs_read, which rejects relative paths): " ++ path_debug ca)
  | None => ret tt
  end.

(** The two files of the sidecar must not be there before it starts. *)
Definition refuse_planted (spec : SidecarSpawn) : spawning () :=
  let* uds := effect (sw_exists (path_join (ss_scratch spec) UDS_FILE_NAME)) in
  let* ca := if (uds : bool) then ret false else effect (sw_exists (path_join (ss_scratch spec) CA_FILE_NAME)) in
  if uds || (ca : bool) then
    io (bs "egress sidecar: egress sidecar scratch " ++ path_debug (ss_scratch spec) ++ bs " already holds " ++ UDS_FILE_NAME ++ bs " or " ++ CA_FILE_NAME ++
        bs " before the proxy was spawned — refusing to trust a pre-existing socket/CA")
  else ret tt.

Definition spawn_sidecar (backend : B) (spec : SidecarSpawn) : spawning Running :=
  check_upstream_extra_ca (ss_mitm spec) ;;;
  refuse_planted spec ;;;
  let uds_path := path_join (ss_scratch spec) UDS_FILE_NAME in
  let ca_path := path_join (ss_scratch spec) CA_FILE_NAME in
  let* child := spawn_under Proxy backend (derive_lockdown_env strings_to_json (proxy_policy spec)) (ss_binary spec) []
                  (fun e => HostIo (bs "egress sidecar: spawn egress-proxy sidecar: " ++ e)) in
  await_ready child [uds_path; ca_path] (effect (sw_stderr_note child)) (act (sw_remove_file uds_path))
    (fun s => bs "egress sidecar: egress-proxy sidecar exited before becoming ready (" ++ s ++ bs "); ")
    (fun e => bs "egress sidecar: could not poll the egress-proxy sidecar's exit status while waiting for it to become ready (" ++ e ++
       bs ") — our waitpid failed, not the proxy's bind; ")
    (bs "egress sidecar: egress-proxy sidecar did not bind " ++ path_debug uds_path ++ bs " + write " ++ path_debug ca_path ++ bs " within 5s; ") ;;;
  ret (mkRunning child uds_path None).

(** [SidecarHandle::terminate] on drop. *)
Definition drop_sidecar (s : Running) : spawning () := stop (rn_child s) ;;; act (sw_remove_file (rn_uds s)).

(** Best effort: a failed write is only logged. *)
Definition provision_secret_hashes (uds : bytes) : spawning () :=
  match path_parent uds with Some dir => act (sw_write_secret_hashes dir) | None => ret tt end.

Definition spawn_net_worker (backend sidecar_backend : B) (side : SidecarSpawn) (spec : WorkerSpec) : spawning SupervisedWorker :=
  let* sidecar := spawn_sidecar sidecar_backend side in
  on_error
    (provision_secret_hashes (rn_uds sidecar) ;;;
     let ca := match path_parent (rn_uds sidecar) with Some d => path_join d CA_FILE_NAME | None => CA_FILE_NAME end in
     let ca := if is_transparent (ss_mitm side) then None else Some ca in
     let forced := rewrite_worker_policy (ws_policy spec) (rn_uds sidecar) ca in
     let* worker := spawn_worker backend (mkWorkerSpec forced (ws_program spec) (ws_args spec)) in
     ret (mkWorker (wk_child worker) (Some sidecar) (wk_broker worker)))
    (drop_sidecar sidecar).

Definition spawn_forced_net_worker (backend sidecar_backend : B) (side : bytes -> SidecarSpawn) (spec : WorkerSpec) (scratch_root : bytes)
    : spawning SupervisedWorker :=
  let* scratch := make_scratch_dir EGRESS_SCRATCH_DIR_PREFIX scratch_root UDS_FILE_NAME (bs "egress sidecar") (bs "KASTELLAN_EGRESS_SCRATCH_DIR") in
  let* worker := on_error (spawn_net_worker backend sidecar_backend (side scratch) spec) (remove_dir scratch) in
  match wk_egress worker with
  | Some egress => ret (mkWorker (wk_child worker) (Some (mkRunning (rn_child egress) (rn_uds egress) (Some scratch))) (wk_broker worker))
  | None => ret worker
  end.

Definition spawn_worker_maybe_forced (force : option ForceRoutingConfig) (backend sidecar_backend : B) (spec : WorkerSpec)
    (worker_name : bytes) : spawning SupervisedWorker :=
  match force_route_action (bool_decide (is_Some force)) (policy_net_is_force_routable (sp_net (ws_policy spec))), force, sp_net (ws_policy spec) with
  | Sidecar, Some cfg, NetAllowlist allowlist =>
      match upstream_ca_for cfg allowlist with
      | Err e => io (bs "worker " ++ path_debug worker_name ++ bs ": refusing to spawn — " ++ ENV_EXTRA_CA_NAME ++ bs ": " ++ select_error_text e)
      | Ok upstream_extra_ca =>
          match mitm_for worker_name upstream_extra_ca with
          | Err msg => io msg
          | Ok mitm =>
              spawn_forced_net_worker backend sidecar_backend
                (fun scratch => mkSidecarSpawn (fc_proxy_bin cfg) allowlist scratch worker_name (pins_for cfg allowlist) mitm false)
                spec (fc_scratch_root cfg)
          end
      end
  | _, _, _ => spawn_worker backend spec
  end.

(** ** Brokers *)

Definition spawn_broker_in (cfg : BrokerConfig) (spec : BrokerSpec) (backend : B) (scratch : bytes) : spawning Running :=
  let uds_path := path_join scratch (uds_file (bk_kind spec)) in
  act (sw_remove_file uds_path) ;;;
  let* child := spawn_under Broker backend
                  (derive_lockdown_env strings_to_json (broker_policy (bc_broker_bin cfg) (bk_endpoint spec) scratch (bk_kind spec)))
                  (bc_broker_bin cfg) [] ToolHost.Sandbox in
  await_ready child [uds_path] (ret []) (ret tt)
    (fun s => bs "broker exited before binding " ++ path_debug uds_path ++ bs " (status: " ++ s ++ bs ")")
    (fun e => bs "could not poll the broker's exit status while waiting for " ++ path_debug uds_path ++ bs " (" ++ e ++
       bs ") — our waitpid failed, not the broker's bind")
    (bs "broker did not bind " ++ path_debug uds_path ++ bs " within 5s") ;;;
  ret (mkRunning child uds_path (Some scratch)).

Definition spawn_broker (cfg : BrokerConfig) (spec : BrokerSpec) (backend : B) : spawning Running :=
  match broker_allowlist_from_endpoint (bk_endpoint spec) with
  | [] => io (bs "broker endpoint " ++ path_debug (bk_endpoint spec) ++ bs " has no parseable host:port — refusing to spawn")
  | _ =>
      let* scratch := make_scratch_dir (scratch_prefix (bk_kind spec)) (bc_scratch_root cfg) (uds_file (bk_kind spec)) (bs "broker") (scratch_dir_env (bk_kind spec)) in
      on_error (spawn_broker_in cfg spec backend scratch) (remove_dir scratch)
  end.

(** [BrokerSidecar::drop] *)
Definition drop_broker (s : Running) : spawning () :=
  stop (rn_child s) ;;; act (sw_remove_file (rn_uds s)) ;;;
  match rn_scratch s with Some dir => remove_dir dir | None => ret tt end.

Definition spawn_worker_with_optional_broker (force : option ForceRoutingConfig) (broker_configs : BrokerConfigs)
    (backend sidecar_backend : B) (spec : WorkerSpec) (broker : option BrokerSpec) (worker_name : bytes) : spawning SupervisedWorker :=
  match broker with
  | None => spawn_worker_maybe_forced force backend sidecar_backend spec worker_name
  | Some broker_spec =>
      match for_kind broker_configs (bk_kind broker_spec) with
      | None =>
          io (bs "worker " ++ path_debug worker_name ++ bs " requests a " ++ kind_debug (bk_kind broker_spec) ++
              bs " broker but the daemon has no matching broker config (binary not found); refusing to spawn — the manifest already dropped the backend host from egress")
      | Some cfg =>
          let* sidecar := spawn_broker cfg broker_spec sidecar_backend in
          on_error
            (let brokered := rewrite_policy_for_broker (ws_policy spec) (rn_uds sidecar) (bk_kind broker_spec) in
             let* worker := spawn_worker_maybe_forced force backend sidecar_backend (mkWorkerSpec brokered (ws_program spec) (ws_args spec)) worker_name in
             ret (mkWorker (wk_child worker) (wk_egress worker) (Some sidecar)))
            (drop_broker sidecar)
      end
  end.
End Spawn.

(** * The wait ends *)

Section Wait.
Context {W B : Type} `{SpawnWorld W B}.

(** A clock that a sleep moves on and nothing turns back; [clock] reads it. *)
Record steady (clock : W -> Z) (ready : W -> bool * W) (exited : W -> result (option bytes) PollError * W) : Prop := {
  st_now : forall w, (sw_now w).1 = clock w;
  st_now_keeps : forall w, clock w <= clock (sw_now w).2;
  st_ready : forall w, clock w <= clock (ready w).2;
  st_exited : forall w, clock w <= clock (exited w).2;
  st_sleep : forall w d, clock w + d <= clock (sw_sleep d w) }.

Lemma wait_loop_ends clock ready exited polls deadline w :
  steady clock ready exited -> deadline <= clock w + READY_POLL * (Z.of_nat polls - 1) ->
  (0 < polls)%nat -> is_Some (wait_loop polls deadline ready exited w).1.
Proof.
  intros Hs. revert w. induction polls as [|polls IH]; intros w Hd Hp; [lia|]. cbn [wait_loop].
  pose proof (st_ready _ _ _ Hs w). destruct (ready w) as [[] w1]; [done|]. cbn [snd] in *.
  pose proof (st_exited _ _ _ Hs w1). destruct (exited w1) as [[[status|]|e] w2]; [done| |done]. cbn [snd] in *.
  pose proof (st_now _ _ _ Hs w2) as Hn. pose proof (st_now_keeps _ _ _ Hs w2). destruct (sw_now w2) as [now w3]. cbn [fst snd] in *. subst now.
  destruct (Z.leb_spec deadline (clock w2)); [done|].
  pose proof (st_sleep _ _ _ Hs w3 READY_POLL). unfold READY_POLL in *.
  destruct polls as [|polls]; [lia|]. apply IH; lia.
Qed.

(** The wait for a sidecar ends: on a clock that a sleep advances and nothing
    turns back, 201 polls are enough for the sidecar to be ready, gone, unreadable
    or out of its five seconds. *)
Theorem sidecar_wait_ends clock ready exited polls w :
  steady clock ready exited -> (201 <= polls)%nat ->
  is_Some (wait_for_sidecar_ready polls READY_TIMEOUT ready exited w).1.
Proof.
  intros Hs Hp. unfold wait_for_sidecar_ready. pose proof (st_now _ _ _ Hs w) as Hn. pose proof (st_now_keeps _ _ _ Hs w).
  destruct (sw_now w) as [now w1]. cbn [fst snd] in *. subst now.
  apply (wait_loop_ends clock); [done|unfold READY_TIMEOUT, READY_POLL; lia|lia].
Qed.
End Wait.

(** * Nothing is left behind *)

(** The processes that run and the directories that exist after a trace. *)
Fixpoint live_after (t : list SpawnEv) : list nat :=
  match t with
  | [] => []
  | SvSpawn _ c _ :: t' => c :: live_after t'
  | SvStopped c :: t' => List.filter (fun x => negb (x =? c)%nat) (live_after t')
  | _ :: t' => live_after t'
  end.

Fixpoint dirs_after (t : list SpawnEv) : list bytes :=
  match t with
  | [] => []
  | SvDir d :: t' => d :: dirs_after t'
  | SvRemoved d :: t' => List.filter (fun x => negb (bytes_eqb x d)) (dirs_after t')
  | _ :: t' => dirs_after t'
  end.

(** [t'] has at most the resources of [t] and those of [cs] and [ds]. *)
Definition grows (cs : list nat) (ds : list bytes) (t t' : list SpawnEv) : Prop :=
  live_after t' ⊆ live_after t ++ cs /\ dirs_after t' ⊆ dirs_after t ++ ds.

Lemma grows_refl t : grows [] [] t t.
Proof. split; by rewrite app_nil_r. Qed.

Lemma grows_trans cs ds cs' ds' a b c : grows cs ds a b -> grows cs' ds' b c -> grows (cs ++ cs') (ds ++ ds') a c.
Proof.
  intros [H1 H2] [H3 H4]. split; rewrite app_assoc.
  - intros x Hx. apply H3 in Hx. rewrite elem_of_app in *. destruct Hx as [Hx%H1|]; [by left|by right].
  - intros x Hx. apply H4 in Hx. rewrite elem_of_app in *. destruct Hx as [Hx%H2|]; [by left|by right].
Qed.

Lemma grows_weaken cs ds cs' ds' a b : cs ⊆ cs' -> ds ⊆ ds' -> grows cs ds a b -> grows cs' ds' a b.
Proof. intros Hc Hd [H1 H2]. split; etransitivity; [exact H1|set_solver|exact H2|set_solver]. Qed.

Lemma elem_of_keep {A} (f : A -> bool) (x : A) l : x ∈ List.filter f l <-> x ∈ l /\ f x = true.
Proof. by rewrite !list_elem_of_In, filter_In. Qed.

Lemma grows_stop c cs ds a b : grows (c :: cs) ds a b -> grows cs ds a (SvStopped c :: b).
Proof.
  intros [H1 H2]. split; [|exact H2]. cbn [live_after]. intros x [Hx Hne]%elem_of_keep. apply H1 in Hx.
  apply negb_true_iff, Nat.eqb_neq in Hne. set_solver.
Qed.

Lemma grows_removed d cs ds a b : grows cs (d :: ds) a b -> grows cs ds a (SvRemoved d :: b).
Proof.
  intros [H1 H2]. split; [exact H1|]. cbn [dirs_after]. intros x [Hx Hne]%elem_of_keep. apply H2 in Hx.
  apply negb_true_iff, bytes_eqb_false in Hne. set_solver.
Qed.

Section Tidy.
Context {W B : Type} `{SpawnWorld W B} `{SpawnText} `{UnicodeStr} `{UnicodeDebug} `{IpText}.
Notation spawning A := (prog W SpawnEv SpawnFailure A).
Variable polls : nat.

(** [m] keeps what [own] says its result owns, and nothing when it fails. *)
Definition tidy {A} (m : spawning A) (own : A -> list nat * list bytes) : Prop :=
  forall w t, let '(r, _, t') := m w t in
  match r with
  | Ok a => grows (own a).1 (own a).2 t t'
  | Err (Failed _) => grows [] [] t t'
  | Err StillWaiting => True
  end.

Definition owns_nothing {A} : A -> list nat * list bytes := fun _ => ([], []).

Lemma tidy_ret {A} (a : A) own : tidy (ret a) own.
Proof. intros w t. apply (grows_weaken [] []); [set_solver..|apply grows_refl]. Qed.

Lemma tidy_fail {A} e own : tidy (fail e : spawning A) own.
Proof. intros w t. apply grows_refl. Qed.

Lemma tidy_effect {A} (f : W -> A * W) : tidy (effect f) owns_nothing.
Proof. intros w t. unfold effect. destruct (f w). apply grows_refl. Qed.

(** What [m] owns is handed to [k], which owns it or gives it up. *)
Lemma tidy_bind {A C} (m : spawning A) (k : A -> spawning C) ownm own :
  tidy m ownm -> (forall a w t, grows (ownm a).1 (ownm a).2 t t ->
    let '(r, _, t') := k a w t in
    match r with
    | Ok c => forall t0, grows (ownm a).1 (ownm a).2 t0 t -> grows (own c).1 (own c).2 t0 t'
    | Err (Failed _) => forall t0, grows (ownm a).1 (ownm a).2 t0 t -> grows [] [] t0 t'
    | Err StillWaiting => True
    end) -> tidy (bind m k) own.
Proof.
  intros Hm Hk w t. unfold bind. specialize (Hm w t). destruct (m w t) as [[[a|[e|]] w1] t1]; [|done|done].
  specialize (Hk a w1 t1). destruct (k a w1 t1) as [[[c|[e|]] w2] t2]; try done; apply Hk; try done;
    (apply (grows_weaken [] []); [set_solver..|apply grows_refl]).
Qed.

Lemma tidy_seq {A C} (m : spawning A) (k : A -> spawning C) own :
  tidy m owns_nothing -> (forall a, tidy (k a) own) -> tidy (bind m k) own.
Proof.
  intros Hm Hk. apply (tidy_bind m k owns_nothing own Hm). intros a w t _. specialize (Hk a w t).
  destruct (k a w t) as [[[c|[e|]] w2] t2]; [|..|done]; intros t0 Hg0; by apply (grows_trans [] [] _ _ _ t).
Qed.

Lemma tidy_on_error {A} (m : spawning A) cleanup own (cs : list nat) (ds : list bytes) t0 w t :
  tidy m own -> grows cs ds t0 t ->
  (forall w t, grows cs ds t0 t -> let '(_, _, t') := cleanup w t in grows [] [] t0 t') ->
  let '(r, _, t') := on_error m cleanup w t in
  match r with
  | Ok a => grows (cs ++ (own a).1) (ds ++ (own a).2) t0 t'
  | Err (Failed _) => grows [] [] t0 t'
  | Err StillWaiting => True
  end.
Proof.
  intros Hm Hg0 Hc. unfold on_error. specialize (Hm w t). destruct (m w t) as [[[a|[e|]] w1] t1].
  - by apply (grows_trans _ _ _ _ _ t).
  - specialize (Hc w1 t1). destruct (cleanup w1 t1) as [[r w2] t2]. apply Hc.
    rewrite <- (app_nil_r cs), <- (app_nil_r ds). by apply (grows_trans _ _ _ _ _ t).
  - by destruct (cleanup w1 t1) as [[r w2] t2].
Qed.

Lemma stop_spec c w t : exists w', stop c w t = (Ok tt : result () SpawnFailure, w', SvStopped c :: t).
Proof. unfold stop, act, bind, effect, emit. eauto. Qed.

Lemma tidy_spawn_under role backend policy program args error :
  tidy (spawn_under role backend policy program args error) (fun c => ([c], [])).
Proof.
  intros w t. unfold spawn_under, bind, effect. destruct (sw_spawn backend policy program args w) as [[c|e] w1]; [|apply grows_refl].
  split; cbn [live_after dirs_after fst snd]; rewrite ?app_nil_r; set_solver.
Qed.

Lemma tidy_spawn_worker backend spec : tidy (spawn_worker backend spec) (fun wk => ([wk_child wk], [])).
Proof.
  intros w t. unfold spawn_worker, bind. pose proof (tidy_spawn_under Worker backend (derive_lockdown_env strings_to_json (ws_policy spec))
    (ws_program spec) (ws_args spec) ToolHost.Sandbox w t) as Hs. by destruct (spawn_under _ _ _ _ _ _ w t) as [[[c|[e|]] w1] t1].
Qed.

Lemma tidy_make_scratch_dir prefix root file what shorten :
  tidy (make_scratch_dir prefix root file what shorten) (fun d => ([], [d])).
Proof.
  unfold make_scratch_dir. apply tidy_seq; [apply tidy_effect|]. intros seq. destruct (_ <? _); [apply tidy_fail|].
  intros w t. unfold bind, effect. destruct (sw_create_private_dir _ w) as [[[]|e] w1]; [|apply grows_refl].
  split; cbn [live_after dirs_after fst snd]; rewrite ?app_nil_r; set_solver.
Qed.

(** The sidecar is stopped unless it became ready. *)
Lemma await_ready_spec child files note on_timeout m1 m2 m3 t0 cs ds w t :
  tidy note owns_nothing -> tidy on_timeout owns_nothing -> grows (child :: cs) ds t0 t ->
  let '(r, _, t') := await_ready polls child files note on_timeout m1 m2 m3 w t in
  match r with
  | Ok _ => grows (child :: cs) ds t0 t' /\ SvReady child ∈ t'
  | Err (Failed _) => grows cs ds t0 t'
  | Err StillWaiting => True
  end.
Proof.
  intros Hnote Hto Hg0.
  assert (forall {A} (m : spawning A) w t, tidy m owns_nothing -> grows cs ds t0 t ->
    let '(r, _, t') := m w t in match r with Err StillWaiting => True | _ => grows cs ds t0 t' end) as Hafter.
  { intros A m w1 t1 Hm Hg. specialize (Hm w1 t1). destruct (m w1 t1) as [[[a|[e|]] w2] t2]; try done;
      (rewrite <- (app_nil_r cs), <- (app_nil_r ds); by apply (grows_trans _ _ _ _ _ t1)). }
  assert (forall w t msg, grows cs ds t0 t -> let '(r, _, t') := (let* n := note in io (msg ++ n) : spawning ()) w t in
    match r with Ok _ => False | Err (Failed _) => grows cs ds t0 t' | Err StillWaiting => True end) as Hmsg.
  { intros w1 t1 msg Hg. unfold bind. specialize (Hafter _ note w1 t1 Hnote Hg).
    by destruct (note w1 t1) as [[[a|[e|]] w2] t2]. }
  unfold await_ready. unfold bind at 1, effect at 1.
  destruct (wait_for_sidecar_ready _ _ _ _ w) as [[[|status| |e]|] w1].
  - split; [exact Hg0|left].
  - unfold bind at 1, emit. specialize (Hmsg w1 (SvStopped child :: t) (m1 status) ltac:(by apply grows_stop)).
    destruct (bind note _ w1 _) as [[[[]|[e|]] w2] t2]; by try destruct Hmsg.
  - unfold bind at 1. destruct (stop_spec child w1 t) as [w2 ->]. unfold bind at 1.
    specialize (Hafter _ note w2 (SvStopped child :: t) Hnote ltac:(by apply grows_stop)) as Hn.
    destruct (note w2 (SvStopped child :: t)) as [[[n|[e|]] w3] t3]; [|done|done].
    unfold bind. specialize (Hafter _ on_timeout w3 t3 Hto Hn). by destruct (on_timeout w3 t3) as [[[[]|[e|]] w4] t4].
  - unfold bind at 1. assert (exists w2, (if may_kill_after_failed_poll e then stop child else emit (SvStopped child)) w1 t =
      (Ok tt : result () SpawnFailure, w2, SvStopped child :: t)) as [w2 ->].
    { destruct (may_kill_after_failed_poll e); [apply stop_spec|unfold emit; eauto]. }
    specialize (Hmsg w2 (SvStopped child :: t) (m2 (pe_text e)) ltac:(by apply grows_stop)).
    destruct (bind note _ w2 _) as [[[[]|[e'|]] w3] t3]; by try destruct Hmsg.
  - done.
Qed.

Definition sidecar_owns (s : Running) : list nat * list bytes := ([rn_child s], opt_list (rn_scratch s)).
Definition worker_owns (wk : SupervisedWorker) : list nat * list bytes :=
  (wk_child wk :: mbind (fun s => [rn_child s]) (opt_list (wk_egress wk) ++ opt_list (wk_broker wk)),
   mbind (fun s => opt_list (rn_scratch s)) (opt_list (wk_egress wk) ++ opt_list (wk_broker wk))).

Lemma tidy_refuse_planted spec : tidy (refuse_planted spec : spawning ()) owns_nothing.
Proof.
  unfold refuse_planted. apply tidy_seq; [apply tidy_effect|]. intros uds. apply tidy_seq; [destruct uds; [apply tidy_ret|apply tidy_effect]|].
  intros ca. destruct (uds || ca); [apply tidy_fail|apply tidy_ret].
Qed.

(** A spawned child that must become ready. *)
Lemma tidy_spawn_ready role backend policy program args error files note on_timeout m1 m2 m3 (mk : nat -> Running) :
  (forall c, tidy (note c) owns_nothing) -> tidy on_timeout owns_nothing -> (forall c, rn_child (mk c) = c /\ rn_scratch (mk c) = None) ->
  tidy (let* child := spawn_under role backend policy program args error in
        await_ready polls child files (note child) on_timeout m1 m2 m3 ;;; ret (mk child)) sidecar_owns.
Proof.
  intros Hn Ht Hmk. apply (tidy_bind _ _ (fun c => ([c], []))); [apply tidy_spawn_under|]. intros child w t _.
  unfold bind. pose proof (fun t0 Hg0 => await_ready_spec child files (note child) on_timeout m1 m2 m3 t0 [] [] w t (Hn child) Ht Hg0) as Ha.
  destruct (await_ready polls child files (note child) on_timeout m1 m2 m3 w t) as [[[[]|[e|]] w1] t1]; [|exact Ha|done].
  intros t0 Hg0. unfold ret, sidecar_owns. destruct (Hmk child) as [-> ->]. by apply Ha.
Qed.

Lemma tidy_act f : tidy (act f : spawning ()) owns_nothing.
Proof. apply tidy_effect. Qed.

Lemma tidy_spawn_sidecar backend spec : tidy (spawn_sidecar polls backend spec) sidecar_owns.
Proof.
  unfold spawn_sidecar. apply tidy_seq.
  { unfold check_upstream_extra_ca. destruct (mitm_extra_ca _) as [ca|]; [destruct (is_absolute ca)|]; apply tidy_ret || apply tidy_fail. }
  intros _. apply tidy_seq; [apply tidy_refuse_planted|]. intros _.
  apply (tidy_spawn_ready _ _ _ _ _ _ _ (fun c => effect (sw_stderr_note c)) _ _ _ _ (fun c => mkRunning c _ None));
    [intros c; apply tidy_effect|apply tidy_act|done].
Qed.

Lemma drop_sidecar_spec s w t : exists w', drop_sidecar s w t = (Ok tt : result () SpawnFailure, w', SvStopped (rn_child s) :: t).
Proof. unfold drop_sidecar, bind. destruct (stop_spec (rn_child s) w t) as [w1 ->]. unfold act, effect. eauto. Qed.

Lemma spawn_sidecar_no_scratch backend spec w t s w' t' :
  spawn_sidecar polls backend spec w t = (Ok s, w', t') -> rn_scratch s = None.
Proof.
  unfold spawn_sidecar, bind. destruct (check_upstream_extra_ca _ w t) as [[[[]|e] w1] t1]; [|done].
  destruct (refuse_planted spec w1 t1) as [[[[]|e] w2] t2]; [|done]. destruct (spawn_under _ _ _ _ _ _ w2 t2) as [[[c|e] w3] t3]; [|done].
  destruct (await_ready _ _ _ _ _ _ _ _ w3 t3) as [[[[]|e] w4] t4]; [|done]. by intros [= <- _ _].
Qed.

Definition returns {A} (m : spawning A) (P : A -> Prop) : Prop := forall w t a w' t', m w t = (Ok a, w', t') -> P a.

(** Combine a sidecar with the worker started for it. *)
Lemma tidy_with_sidecar {C} (m : spawning Running) (k : Running -> spawning C) (dropped : Running -> spawning ()) ownk own (Pm : Running -> Prop) :
  tidy m sidecar_owns -> returns m Pm -> (forall s, tidy (k s) ownk) ->
  (forall s w t t0, Pm s -> grows [rn_child s] (opt_list (rn_scratch s)) t0 t -> let '(_, _, t') := dropped s w t in grows [] [] t0 t') ->
  (forall s, returns (k s) (fun c => rn_child s :: (ownk c).1 ⊆ (own c).1 /\ opt_list (rn_scratch s) ++ (ownk c).2 ⊆ (own c).2)) ->
  tidy (let* s := m in on_error (k s) (dropped s)) own.
Proof.
  intros Hm HP Hk Hd Hown w t. unfold bind. pose proof (Hm w t) as Hmt. destruct (m w t) as [[[s|[e|]] w1] t1] eqn:Em; [|done|done].
  pose proof (tidy_on_error (k s) (dropped s) ownk [rn_child s] (opt_list (rn_scratch s)) t w1 t1 (Hk s) Hmt (fun w' t' => Hd s w' t' _ (HP _ _ _ _ _ Em))) as Ho.
  unfold on_error in *. destruct (k s w1 t1) as [[[c|[e|]] w2] t2] eqn:Ek.
  - destruct (Hown s _ _ _ _ _ Ek). by eapply grows_weaken; [..|exact Ho].
  - by destruct (dropped s w2 t2) as [[r w3] t3].
  - by destruct (dropped s w2 t2) as [[r w3] t3].
Qed.

(** The worker of a spawn that attaches [s]. *)
Lemma tidy_spawn_net_worker backend sidecar_backend side spec :
  tidy (spawn_net_worker polls backend sidecar_backend side spec) worker_owns.
Proof.
  unfold spawn_net_worker.
  apply (tidy_with_sidecar _ _ _ (fun wk => ([wk_child wk], [])) _ (fun s => rn_scratch s = None));
    [apply tidy_spawn_sidecar|intros w t s w' t'; apply spawn_sidecar_no_scratch| | |].
  - intros s. apply tidy_seq; [unfold provision_secret_hashes; destruct (path_parent _); [apply tidy_act|apply tidy_ret]|]. intros _.
    intros w t. unfold bind. pose proof (tidy_spawn_worker backend (mkWorkerSpec (rewrite_worker_policy (ws_policy spec) (rn_uds s)
      (if is_transparent (ss_mitm side) then None else Some match path_parent (rn_uds s) with Some d => path_join d CA_FILE_NAME | None => CA_FILE_NAME end))
      (ws_program spec) (ws_args spec)) w t) as Hs. by destruct (spawn_worker _ _ w t) as [[[wk|[e|]] w1] t1].
  - intros s w t t0 Hs Hg. destruct (drop_sidecar_spec s w t) as [w' ->]. rewrite Hs in Hg. by apply grows_stop.
  - intros s w t wk w' t'. unfold bind. destruct (provision_secret_hashes (rn_uds s) w t) as [[[[]|e] w1] t1]; [|done].
    destruct (spawn_worker _ _ w1 t1) as [[[wk0|e] w2] t2]; [|done]. intros [= <- _ _]. unfold worker_owns. cbn. split; [set_solver|].
    destruct (rn_scratch s), (wk_broker wk0); cbn; set_solver.
Qed.

Lemma remove_dir_spec d w t : exists w', remove_dir d w t = (Ok tt : result () SpawnFailure, w', SvRemoved d :: t).
Proof. unfold remove_dir, act, bind, effect, emit. eauto. Qed.

Lemma net_worker_egress backend sidecar_backend side spec :
  returns (spawn_net_worker polls backend sidecar_backend side spec) (fun wk => exists s, wk_egress wk = Some s /\ rn_scratch s = None).
Proof.
  intros w t wk w' t'. unfold spawn_net_worker, bind at 1. destruct (spawn_sidecar _ _ _ w t) as [[[s|e] w1] t1] eqn:Es; [|done].
  apply spawn_sidecar_no_scratch in Es. unfold on_error, bind.
  destruct (provision_secret_hashes (rn_uds s) w1 t1) as [[[[]|e] w2] t2].
  - destruct (spawn_worker _ _ w2 t2) as [[[wk0|e] w3] t3].
    + intros [= <- _ _]. by exists s.
    + by destruct (drop_sidecar s w3 t3) as [[r w4] t4].
  - by destruct (drop_sidecar s w2 t2) as [[r w4] t4].
Qed.

Lemma tidy_spawn_forced backend sidecar_backend side spec root :
  tidy (spawn_forced_net_worker polls backend sidecar_backend side spec root) worker_owns.
Proof.
  unfold spawn_forced_net_worker. apply (tidy_bind _ _ (fun d => ([], [d]))); [apply tidy_make_scratch_dir|].
  intros scratch w t _. unfold bind. unfold on_error.
  pose proof (tidy_spawn_net_worker backend sidecar_backend (side scratch) spec w t) as Hn.
  destruct (spawn_net_worker polls backend sidecar_backend (side scratch) spec w t) as [[[wk|[e|]] w1] t1] eqn:En.
  - apply net_worker_egress in En as (s & Es & Hs). rewrite Es. intros t0 Hg0. cbn [ret].
    apply (grows_weaken ([] ++ (worker_owns wk).1) ([scratch] ++ (worker_owns wk).2)); [..|by apply (grows_trans _ _ _ _ _ t)].
    + unfold worker_owns. rewrite Es. cbn. set_solver.
    + unfold worker_owns. rewrite Es. cbn. rewrite Hs. destruct (wk_broker wk); cbn; set_solver.
  - destruct (remove_dir_spec scratch w1 t1) as [w2 ->]. intros t0 Hg0. apply grows_removed.
    apply (grows_trans [] [scratch] [] [] t0 t); done.
  - by destruct (remove_dir scratch w1 t1) as [[r w2] t2].
Qed.

Lemma tidy_weaken {A} (m : spawning A) own own' :
  tidy m own -> (forall a, (own a).1 ⊆ (own' a).1 /\ (own a).2 ⊆ (own' a).2) -> tidy m own'.
Proof.
  intros Hm Hw w t. specialize (Hm w t). destruct (m w t) as [[[a|[e|]] w1] t1]; [|done|done].
  destruct (Hw a). by eapply grows_weaken.
Qed.

Lemma tidy_maybe_forced force backend sidecar_backend spec name :
  tidy (spawn_worker_maybe_forced polls force backend sidecar_backend spec name) worker_owns.
Proof.
  assert (tidy (spawn_worker backend spec) worker_owns) as Hplain.
  { eapply tidy_weaken; [apply tidy_spawn_worker|]. intros wk. unfold worker_owns. cbn. set_solver. }
  unfold spawn_worker_maybe_forced. repeat case_match; try apply Hplain; apply tidy_fail || apply tidy_spawn_forced.
Qed.

Lemma tidy_spawn_broker cfg spec backend : tidy (spawn_broker polls cfg spec backend) sidecar_owns.
Proof.
  unfold spawn_broker. destruct (broker_allowlist_from_endpoint _); [apply tidy_fail|].
  apply (tidy_bind _ _ (fun d => ([], [d]))); [apply tidy_make_scratch_dir|]. intros scratch w t _. unfold on_error.
  assert (tidy (spawn_broker_in polls cfg spec backend scratch) (fun s => ([rn_child s], []))) as Hin.
  { unfold spawn_broker_in. apply tidy_seq; [apply tidy_act|]. intros _.
    apply (tidy_bind _ _ (fun c => ([c], []))); [apply tidy_spawn_under|]. intros child w1 t1 _. unfold bind.
    match goal with |- context [await_ready polls child ?f ?n ?o ?m1 ?m2 ?m3 w1 t1] =>
      pose proof (fun t0 Hg0 => await_ready_spec child f n o m1 m2 m3 t0 [] [] w1 t1 (tidy_ret _ _) (tidy_ret _ _) Hg0) as Ha;
      destruct (await_ready polls child f n o m1 m2 m3 w1 t1) as [[[[]|[e|]] w2] t2] end; [|exact Ha|done].
    intros t0 Hg0. by apply Ha. }
  assert (returns (spawn_broker_in polls cfg spec backend scratch) (fun s => rn_scratch s = Some scratch)) as Hret.
  { intros w1 t1 s w2 t2. unfold spawn_broker_in, bind, act, effect. destruct (spawn_under _ _ _ _ _ _ _ _) as [[[c|e] w3] t3]; [|done].
    destruct (await_ready _ _ _ _ _ _ _ _ w3 t3) as [[[[]|e] w4] t4]; [|done]. by intros [= <- _ _]. }
  specialize (Hin w t). destruct (spawn_broker_in polls cfg spec backend scratch w t) as [[[s|[e|]] w1] t1] eqn:Es.
  - apply Hret in Es. intros t0 Hg0. unfold sidecar_owns. rewrite Es. cbn [fst snd opt_list].
    apply (grows_trans [] [scratch] [rn_child s] [] t0 t) in Hin; done.
  - destruct (remove_dir_spec scratch w1 t1) as [w2 ->]. intros t0 Hg0. apply grows_removed.
    apply (grows_trans [] [scratch] [] [] t0 t); done.
  - by destruct (remove_dir scratch w1 t1) as [[r w2] t2].
Qed.

Lemma spawn_worker_no_broker backend spec : returns (spawn_worker backend spec) (fun wk => wk_broker wk = None).
Proof.
  intros w t wk w' t'. unfold spawn_worker, bind. destruct (spawn_under _ _ _ _ _ _ w t) as [[[c|e] w1] t1]; [|done]. by intros [= <- _ _].
Qed.

Lemma net_worker_no_broker backend sidecar_backend side spec :
  returns (spawn_net_worker polls backend sidecar_backend side spec) (fun wk => wk_broker wk = None).
Proof.
  intros w t wk w' t'. unfold spawn_net_worker, bind at 1. destruct (spawn_sidecar _ _ _ w t) as [[[s|e] w1] t1]; [|done].
  unfold on_error, bind. destruct (provision_secret_hashes _ w1 t1) as [[[[]|e] w2] t2]; [|by destruct (drop_sidecar s w2 t2) as [[r w4] t4]].
  destruct (spawn_worker _ _ w2 t2) as [[[wk0|e] w3] t3] eqn:E; [|by destruct (drop_sidecar s w3 t3) as [[r w4] t4]].
  apply spawn_worker_no_broker in E. by intros [= <- _ _].
Qed.

Lemma returns_fail {A} e (P : A -> Prop) : returns (fail e) P.
Proof. by intros w t a w' t' [=]. Qed.

Lemma maybe_forced_no_broker force backend sidecar_backend spec name :
  returns (spawn_worker_maybe_forced polls force backend sidecar_backend spec name) (fun wk => wk_broker wk = None).
Proof.
  unfold spawn_worker_maybe_forced. repeat case_match; try apply spawn_worker_no_broker; try apply returns_fail.
  intros w t wk w' t'. unfold spawn_forced_net_worker, bind. destruct (make_scratch_dir _ _ _ _ _ w t) as [[[d|e] w1] t1]; [|done].
  unfold on_error. destruct (spawn_net_worker _ _ _ _ _ w1 t1) as [[[wk0|e] w2] t2] eqn:E.
  - apply net_worker_no_broker in E. destruct (wk_egress wk0); by intros [= <- _ _].
  - by destruct (remove_dir d w2 t2) as [[r w3] t3].
Qed.

Lemma drop_broker_spec s w t t0 :
  grows [rn_child s] (opt_list (rn_scratch s)) t0 t -> let '(_, _, t') := (drop_broker s : spawning ()) w t in grows [] [] t0 t'.
Proof.
  intros Hg. unfold drop_broker, bind. destruct (stop_spec (rn_child s) w t) as [w1 ->]. unfold act, effect at 1.
  apply grows_stop in Hg. destruct (rn_scratch s) as [d|]; [|done]. destruct (remove_dir_spec d (sw_remove_file (rn_uds s) w1) (SvStopped (rn_child s) :: t)) as [w2 ->].
  by apply grows_removed.
Qed.

End Tidy.

(** * No worker before its sidecars *)

(** [t'] extends [t]; each worker started in between satisfies [Q] together with the
    trace before it. *)
Fixpoint started_after (Q : SandboxPolicy -> list SpawnEv -> Prop) (new t : list SpawnEv) : Prop :=
  match new with
  | [] => True
  | e :: new' => match e with SvSpawn Worker _ pol => Q pol (new' ++ t) | _ => True end /\ started_after Q new' t
  end.

Definition guards (Q : SandboxPolicy -> list SpawnEv -> Prop) (t t' : list SpawnEv) : Prop :=
  exists new, t' = new ++ t /\ started_after Q new t.

Lemma guards_refl Q t : guards Q t t.
Proof. by exists []. Qed.

Lemma started_app Q a b t : started_after Q (a ++ b) t <-> started_after Q a (b ++ t) /\ started_after Q b t.
Proof.
  induction a as [|e a IH]; cbn [app started_after]; [tauto|]. rewrite IH, <- app_assoc. tauto.
Qed.

Lemma guards_trans Q a b c : guards Q a b -> guards Q b c -> guards Q a c.
Proof.
  intros (n1 & -> & H1) (n2 & -> & H2). exists (n2 ++ n1). split; [by rewrite app_assoc|]. by apply started_app.
Qed.

Lemma guards_cons Q t e : (forall c pol, e = SvSpawn Worker c pol -> Q pol t) -> guards Q t (e :: t).
Proof. intros He. exists [e]. split; [done|]. cbn. split; [|done]. destruct e as [|[]| | |]; try done. by eapply He. Qed.

Lemma guards_sub Q t t' : guards Q t t' -> t ⊆ t'.
Proof. intros (new & -> & _). set_solver. Qed.

Lemma guards_weaken (Q Q' : SandboxPolicy -> list SpawnEv -> Prop) t0 t t' :
  t0 ⊆ t -> guards Q t t' -> (forall pol l, t0 ⊆ l -> Q pol l -> Q' pol l) -> guards Q' t t'.
Proof.
  intros Hsub (new & -> & Hn) HQ. exists new. split; [done|]. induction new as [|e new IH]; [done|]. cbn in *.
  destruct Hn as [He Hn]. split; [|by apply IH]. destruct e as [|[]| | |]; try done. apply HQ; [set_solver|done].
Qed.

Lemma guards_split Q t l1 c pol l2 : guards Q [] t -> t = l1 ++ SvSpawn Worker c pol :: l2 -> Q pol l2.
Proof.
  intros (new & -> & Hn) E. rewrite app_nil_r in E. subst new. apply started_app in Hn as [_ [Hq _]]. by rewrite app_nil_r in Hq.
Qed.

Section Order.
Context {W B : Type} `{SpawnWorld W B} `{SpawnText} `{UnicodeStr} `{UnicodeDebug} `{IpText}.
Notation spawning A := (prog W SpawnEv SpawnFailure A).
Variable polls : nat.

Definition starts {A} (m : spawning A) (Q : SandboxPolicy -> list SpawnEv -> Prop) : Prop :=
  forall w t, guards Q t (m w t).2.

Lemma starts_ret {A} (a : A) Q : starts (ret a) Q.
Proof. intros w t. apply guards_refl. Qed.
Lemma starts_fail {A} e Q : starts (fail e : spawning A) Q.
Proof. intros w t. apply guards_refl. Qed.
Lemma starts_effect {A} (f : W -> A * W) Q : starts (effect f) Q.
Proof. intros w t. unfold effect. destruct (f w). apply guards_refl. Qed.
Lemma starts_emit e Q : (forall c pol, e <> SvSpawn Worker c pol) -> starts (emit e) Q.
Proof. intros He w t. apply guards_cons. intros c pol E. by destruct (He c pol). Qed.

Lemma starts_bind {A C} (m : spawning A) (k : A -> spawning C) Q : starts m Q -> (forall a, starts (k a) Q) -> starts (bind m k) Q.
Proof.
  intros Hm Hk w t. unfold bind. specialize (Hm w t). destruct (m w t) as [[[a|e] w1] t1]; [|done].
  eapply guards_trans; [exact Hm|apply Hk].
Qed.

Lemma starts_on_error {A} (m : spawning A) c Q : starts m Q -> starts c Q -> starts (on_error m c) Q.
Proof.
  intros Hm Hc w t. unfold on_error. specialize (Hm w t). destruct (m w t) as [[[a|e] w1] t1]; [done|].
  specialize (Hc w1 t1). destruct (c w1 t1) as [[r w2] t2]. by eapply guards_trans.
Qed.

(** Everything but the worker's own spawn starts no worker. *)
Ltac no_worker :=
  repeat (apply starts_bind; [|intros]);
  try (apply starts_ret || apply starts_fail || apply starts_effect || (apply starts_emit; done)).

Lemma starts_stop c Q : starts (stop c : spawning ()) Q.
Proof. unfold stop, act. no_worker. Qed.

Lemma starts_make_scratch prefix root file what shorten Q : starts (make_scratch_dir prefix root file what shorten) Q.
Proof. unfold make_scratch_dir. no_worker. destruct (_ <? _); [apply starts_fail|]. no_worker. destruct a0; no_worker. Qed.

Lemma starts_await child files note on_timeout m1 m2 m3 Q :
  starts note Q -> starts on_timeout Q -> starts (await_ready polls child files note on_timeout m1 m2 m3) Q.
Proof.
  intros Hn Ht. unfold await_ready. apply starts_bind; [apply starts_effect|]. intros [[|status| |e]|].
  - by apply starts_emit.
  - apply starts_bind; [by apply starts_emit|]. intros _. apply starts_bind; [done|]. intros n. apply starts_fail.
  - apply starts_bind; [apply starts_stop|]. intros _. apply starts_bind; [done|]. intros n. apply starts_bind; [done|]. intros _. apply starts_fail.
  - apply starts_bind; [destruct (may_kill_after_failed_poll e); [apply starts_stop|by apply starts_emit]|]. intros _.
    apply starts_bind; [done|]. intros n. apply starts_fail.
  - intros w t. apply guards_refl.
Qed.

Lemma starts_spawn_under role backend policy program args error Q :
  role <> Worker -> starts (spawn_under role backend policy program args error) Q.
Proof.
  intros Hr. unfold spawn_under. apply starts_bind; [apply starts_effect|]. intros [c|e]; [|apply starts_fail].
  apply starts_bind; [apply starts_emit; congruence|]. intros _. apply starts_ret.
Qed.

Lemma starts_sidecar backend spec Q : starts (spawn_sidecar polls backend spec) Q.
Proof.
  unfold spawn_sidecar. apply starts_bind.
  { unfold check_upstream_extra_ca. destruct (mitm_extra_ca _) as [ca|]; [destruct (is_absolute ca)|]; apply starts_ret || apply starts_fail. }
  intros _. apply starts_bind.
  { unfold refuse_planted. apply starts_bind; [apply starts_effect|]. intros uds. apply starts_bind; [destruct uds; [apply starts_ret|apply starts_effect]|].
    intros ca. destruct (uds || ca); [apply starts_fail|apply starts_ret]. }
  intros _. apply starts_bind; [by apply starts_spawn_under|]. intros child. apply starts_bind; [|intros _; apply starts_ret].
  apply starts_await; apply starts_effect.
Qed.

Lemma starts_broker cfg spec backend Q : starts (spawn_broker polls cfg spec backend) Q.
Proof.
  unfold spawn_broker. destruct (broker_allowlist_from_endpoint _); [apply starts_fail|].
  apply starts_bind; [apply starts_make_scratch|]. intros scratch. apply starts_on_error.
  - unfold spawn_broker_in, act. apply starts_bind; [apply starts_effect|]. intros _. apply starts_bind; [by apply starts_spawn_under|].
    intros child. apply starts_bind; [|intros _; apply starts_ret]. apply starts_await; apply starts_ret.
  - unfold remove_dir, act. no_worker.
Qed.

(** A sidecar that was found ready. *)
Definition is_ready (role : Role) (child : nat) (policy : SandboxPolicy) (t : list SpawnEv) : Prop :=
  SvReady child ∈ t /\ SvSpawn role child policy ∈ t.

Lemma ready_after_spawn role backend policy program args error files note on_timeout m1 m2 m3 w t c w' t' :
  (let* child := spawn_under role backend policy program args error in
   await_ready polls child files (note child) on_timeout m1 m2 m3 ;;; ret child) w t = (Ok c, w', t') -> is_ready role c policy t'.
Proof.
  unfold spawn_under, bind, effect, emit, ret. destruct (sw_spawn backend policy program args w) as [[child|e] w1]; [|done].
  unfold await_ready. unfold bind at 1, effect at 1.
  destruct (wait_for_sidecar_ready _ _ _ _ w1) as [[[|status| |e]|] w2].
  - intros [= <- _ <-]. split; [left|right; left].
  - unfold bind, emit, io, fail, throw. destruct (note child w2 _) as [[[n|e] w3] t3]; done.
  - unfold bind. destruct (stop_spec (B := B) child w2 (SvSpawn role child policy :: t)) as [w3 ->].
    destruct (note child w3 _) as [[[n|e] w4] t4]; [|done]. destruct (on_timeout w4 t4) as [[[[]|e] w5] t5]; done.
  - unfold bind. destruct ((if may_kill_after_failed_poll e then stop child else emit (SvStopped child)) w2 _) as [[[[]|e'] w3] t3]; [|done].
    destruct (note child w3 t3) as [[[n|e'] w4] t4]; done.
  - done.
Qed.

Lemma sidecar_is_ready backend spec w t s w' t' :
  spawn_sidecar polls backend spec w t = (Ok s, w', t') ->
  rn_uds s = path_join (ss_scratch spec) UDS_FILE_NAME /\
  is_ready Proxy (rn_child s) (derive_lockdown_env strings_to_json (proxy_policy spec)) t'.
Proof.
  unfold spawn_sidecar. unfold bind at 1. destruct (check_upstream_extra_ca _ w t) as [[[[]|e] w1] t1]; [|done].
  unfold bind at 1. destruct (refuse_planted spec w1 t1) as [[[[]|e] w2] t2]; [|done]. cbv zeta. intros Hs.
  match type of Hs with context [await_ready polls _ ?f _ ?o ?m1 ?m2 ?m3] =>
    pose proof (ready_after_spawn Proxy backend (derive_lockdown_env strings_to_json (proxy_policy spec)) (ss_binary spec) []
      (fun e => HostIo (bs "egress sidecar: spawn egress-proxy sidecar: " ++ e)) f (fun c => effect (sw_stderr_note c)) o m1 m2 m3 w2 t2) as Hr end.
  unfold bind in Hs, Hr. destruct (spawn_under _ _ _ _ _ _ w2 t2) as [[[c|e] w3] t3]; [|done].
  destruct (await_ready _ _ _ _ _ _ _ _ w3 t3) as [[[[]|e] w4] t4]; [|done]. injection Hs as <- <- <-. split; [done|]. by eapply Hr.
Qed.

Lemma broker_is_ready cfg spec backend w t s w' t' :
  spawn_broker polls cfg spec backend w t = (Ok s, w', t') ->
  exists scratch, rn_uds s = path_join scratch (uds_file (bk_kind spec)) /\
  is_ready Broker (rn_child s) (derive_lockdown_env strings_to_json (broker_policy (bc_broker_bin cfg) (bk_endpoint spec) scratch (bk_kind spec))) t'.
Proof.
  unfold spawn_broker. destruct (broker_allowlist_from_endpoint _); [done|]. unfold bind at 1.
  destruct (make_scratch_dir _ _ _ _ _ w t) as [[[scratch|e] w1] t1]; [|done]. unfold on_error.
  destruct (spawn_broker_in polls cfg spec backend scratch w1 t1) as [[[s0|e] w2] t2] eqn:Es; [|by destruct (remove_dir scratch w2 t2) as [[r w3] t3]].
  intros [= <- <- <-]. exists scratch. unfold spawn_broker_in in Es. unfold bind at 1, act, effect at 1 in Es. cbv zeta in Es.
  match type of Es with context [await_ready polls _ ?f _ ?o ?m1 ?m2 ?m3] =>
    pose proof (ready_after_spawn Broker backend (derive_lockdown_env strings_to_json (broker_policy (bc_broker_bin cfg) (bk_endpoint spec) scratch (bk_kind spec)))
      (bc_broker_bin cfg) [] ToolHost.Sandbox f (fun c => ret []) o m1 m2 m3) as Hr end.
  unfold bind in Es, Hr. destruct (spawn_under _ _ _ _ _ _ _ t1) as [[[c|e] w3] t3] eqn:Eu; [|done].
  destruct (await_ready _ _ _ _ _ _ _ _ w3 t3) as [[[[]|e] w4] t4] eqn:Ea; [|done]. injection Es as <- <- <-. split; [done|].
  eapply Hr. rewrite Eu, Ea. reflexivity.
Qed.

(** The worker runs behind the proxy: a sidecar for this allowlist was ready before it,
    and its policy leaves it that sidecar's socket alone. *)
Definition behind_proxy (hosts : list bytes) (pol : SandboxPolicy) (earlier : list SpawnEv) : Prop :=
  exists child spol uds, is_ready Proxy child spol earlier /\ sp_net spol = ProxyEgress /\
    (ENV_ALLOWLIST, strings_to_json hosts) ∈ sp_env spol /\ (ENV_UDS, uds) ∈ sp_env spol /\
    force_routed pol uds /\ (forall v, (ENV_UDS, v) ∈ sp_env pol <-> v = uds).

Lemma derived_env_other tj policy k v :
  k ∉ [ENV_LANDLOCK_RW; ENV_LANDLOCK_RO; ENV_SECCOMP_PROFILE; ENV_CPU_MS] ->
  (k, v) ∈ sp_env (derive_lockdown_env tj policy) <-> (k, v) ∈ sp_env policy.
Proof.
  intros Hk. destruct (derived_env_prefix tj policy) as (more & -> & Hall). rewrite elem_of_app. split; [|by left].
  intros [Hin|Hin]; [done|]. apply (proj1 (list.Forall_forall _ _) Hall) in Hin as [Hin _]. done.
Qed.

Lemma without_env_spec keys env k v : (k, v) ∈ without_env keys env <-> (k, v) ∈ env /\ k ∉ keys.
Proof.
  unfold without_env. rewrite elem_of_keep. cbn [fst]. rewrite negb_true_iff, <- not_true_iff_false, existsb_exists.
  split; intros [Hin Hno]; (split; [done|]).
  - intros Hk. apply Hno. exists k. split; [by apply list_elem_of_In|by apply bytes_eqb_eq].
  - intros (x & Hx & E%bytes_eqb_eq). apply Hno. subst x. by apply list_elem_of_In.
Qed.

Lemma rewritten_is_behind hosts policy side uds ca child earlier :
  sp_net policy = NetAllowlist hosts -> ss_allowlist side = hosts -> uds = path_join (ss_scratch side) UDS_FILE_NAME ->
  is_ready Proxy child (derive_lockdown_env strings_to_json (proxy_policy side)) earlier ->
  behind_proxy hosts (derive_lockdown_env strings_to_json (rewrite_worker_policy policy uds ca)) earlier.
Proof.
  intros Hnet Hal Huds Hr. exists child, (derive_lockdown_env strings_to_json (proxy_policy side)), uds.
  split; [done|]. split; [done|].
  split; [apply derived_env_other; [apply (bool_decide_eq_false_1 (_ ∈ _)); by vm_compute|]; rewrite <- Hal; right; left|].
  split; [apply derived_env_other; [apply (bool_decide_eq_false_1 (_ ∈ _)); by vm_compute|]; rewrite Huds; left|].
  split; [split; [by exists hosts|done]|]. intros v. rewrite derived_env_other by (apply (bool_decide_eq_false_1 (_ ∈ _)); by vm_compute).
  unfold rewrite_worker_policy. cbn [sp_env set_paths_env]. rewrite !elem_of_app, without_env_spec, list_elem_of_singleton. split.
  - intros [[_ Hno]|[E|Hc]]; [destruct Hno; left|by injection E|]. destruct ca; [|by apply elem_of_nil in Hc].
    apply list_elem_of_singleton in Hc. by vm_compute in Hc.
  - intros ->. right. by left.
Qed.

Lemma starts_worker backend spec Q :
  (forall t, Q (derive_lockdown_env strings_to_json (ws_policy spec)) t) -> starts (spawn_worker backend spec) Q.
Proof.
  intros HQ w t. unfold spawn_worker, spawn_under, bind, effect, emit, ret.
  destruct (sw_spawn _ _ _ _ w) as [[c|e] w1]; [|apply guards_refl]. apply guards_cons. intros c' pol [= _ <-]. apply HQ.
Qed.

Lemma starts_net_worker hosts backend sidecar_backend side spec :
  sp_net (ws_policy spec) = NetAllowlist hosts -> ss_allowlist side = hosts ->
  starts (spawn_net_worker polls backend sidecar_backend side spec) (behind_proxy hosts).
Proof.
  intros Hnet Hal w t. unfold spawn_net_worker, bind at 1. pose proof (starts_sidecar sidecar_backend side (behind_proxy hosts) w t) as Hs.
  destruct (spawn_sidecar polls sidecar_backend side w t) as [[[s|e] w1] t1] eqn:Es; [|exact Hs].
  apply sidecar_is_ready in Es as [Huds Hr]. eapply guards_trans; [exact Hs|].
  assert (forall m : spawning SupervisedWorker, starts m (fun pol l => t1 ⊆ l -> behind_proxy hosts pol l) -> guards (behind_proxy hosts) t1 (on_error m (drop_sidecar s) w1 t1).2) as Hm.
  { intros m Hm. eapply (guards_weaken _ _ t1); [done|apply (starts_on_error m (drop_sidecar s) (fun pol l => t1 ⊆ l -> behind_proxy hosts pol l) Hm)|auto].
    unfold drop_sidecar, act. apply starts_bind; [apply starts_stop|]. intros _. apply starts_effect. }
  apply Hm. apply starts_bind; [unfold provision_secret_hashes, act; destruct (path_parent _); [apply starts_effect|apply starts_ret]|].
  intros _. apply starts_bind; [|intros wk; apply starts_ret]. apply starts_worker. intros l Hl.
  eapply rewritten_is_behind; [done|done|done|]. destruct Hr as [H1' H2']. split; by apply Hl.
Qed.

Lemma starts_maybe_forced hosts cfg backend sidecar_backend spec name :
  sp_net (ws_policy spec) = NetAllowlist hosts ->
  starts (spawn_worker_maybe_forced polls (Some cfg) backend sidecar_backend spec name) (behind_proxy hosts).
Proof.
  intros Hnet. unfold spawn_worker_maybe_forced. rewrite Hnet. cbn [policy_net_is_force_routable].
  rewrite bool_decide_eq_true_2 by eauto. cbn [force_route_action andb].
  destruct (upstream_ca_for cfg hosts) as [ca|e]; [|apply starts_fail]. destruct (mitm_for name ca) as [mitm|e]; [|apply starts_fail].
  unfold spawn_forced_net_worker. apply starts_bind; [apply starts_make_scratch|]. intros scratch.
  apply starts_bind; [|intros wk; destruct (wk_egress wk); apply starts_ret].
  apply starts_on_error; [by apply starts_net_worker|]. unfold remove_dir, act. no_worker.
Qed.

Lemma starts_maybe_any force backend sidecar_backend spec name (Q : SandboxPolicy -> list SpawnEv -> Prop) :
  (forall t, Q (derive_lockdown_env strings_to_json (ws_policy spec)) t) ->
  (forall uds ca t, Q (derive_lockdown_env strings_to_json (rewrite_worker_policy (ws_policy spec) uds ca)) t) ->
  starts (spawn_worker_maybe_forced polls force backend sidecar_backend spec name) Q.
Proof.
  intros H1' H2'. assert (starts (spawn_worker backend spec) Q) as Hplain by by apply starts_worker.
  unfold spawn_worker_maybe_forced. repeat case_match; try apply Hplain; try apply starts_fail.
  unfold spawn_forced_net_worker. apply starts_bind; [apply starts_make_scratch|]. intros scratch.
  apply starts_bind; [|intros wk; destruct (wk_egress wk); apply starts_ret].
  apply starts_on_error; [|unfold remove_dir, act; no_worker]. unfold spawn_net_worker. apply starts_bind; [apply starts_sidecar|]. intros s.
  apply starts_on_error.
  - apply starts_bind; [unfold provision_secret_hashes, act; destruct (path_parent _); [apply starts_effect|apply starts_ret]|].
    intros _. apply starts_bind; [|intros wk; apply starts_ret]. apply starts_worker. intros t. apply H2'.
  - unfold drop_sidecar, act. apply starts_bind; [apply starts_stop|]. intros _. apply starts_effect.
Qed.

(** The worker's broker was ready before it, and its policy binds that broker's socket. *)
Definition has_broker (kind : BrokerKind) (pol : SandboxPolicy) (earlier : list SpawnEv) : Prop :=
  exists child bpol uds, is_ready Broker child bpol earlier /\ (uds_env kind, uds) ∈ sp_env bpol /\
    sp_broker_uds pol = Some uds /\ (forall v, (uds_env kind, v) ∈ sp_env pol <-> v = uds).

Lemma uds_env_not_lockdown kind : uds_env kind ∉ [ENV_LANDLOCK_RW; ENV_LANDLOCK_RO; ENV_SECCOMP_PROFILE; ENV_CPU_MS].
Proof. destruct kind; apply (bool_decide_eq_false_1 (_ ∈ _)); by vm_compute. Qed.

Lemma uds_env_not_egress kind : uds_env kind ∉ [ENV_UDS; ENV_CA].
Proof. destruct kind; apply (bool_decide_eq_false_1 (_ ∈ _)); by vm_compute. Qed.

(** A worker that declares a broker is only ever started with it: the chokepoint
    refuses when the daemon has no such broker, and every worker it starts comes after
    its broker was found ready, with that broker's socket bound into its jail and named
    in its environment, whether or not it is force-routed as well. *)
Theorem brokered_worker_starts_with_its_broker force configs backend sidecar_backend spec b name w r w' later child pol earlier :
  spawn_worker_with_optional_broker polls force configs backend sidecar_backend spec (Some b) name w [] =
    (r, w', later ++ SvSpawn Worker child pol :: earlier) ->
  for_kind configs (bk_kind b) <> None /\ has_broker (bk_kind b) pol earlier.
Proof.
  cbn [spawn_worker_with_optional_broker]. destruct (for_kind configs (bk_kind b)) as [cfg|] eqn:Ec.
  2: { intros [= _ _ E]. by destruct later. }
  intros Hrun. split; [done|]. unfold bind at 1 in Hrun. pose proof (starts_broker cfg b sidecar_backend (has_broker (bk_kind b)) w []) as Hs.
  destruct (spawn_broker polls cfg b sidecar_backend w []) as [[[s|e] w1] t1] eqn:Es; [|injection Hrun as _ _ ->; by eapply guards_split].
  apply broker_is_ready in Es as (scratch & Huds & Hr).
  assert (guards (has_broker (bk_kind b)) [] (later ++ SvSpawn Worker child pol :: earlier)) as Hg; [|by eapply guards_split].
  eapply guards_trans; [exact Hs|]. match type of Hrun with on_error ?m ?c w1 t1 = _ =>
    assert (guards (has_broker (bk_kind b)) t1 (on_error m c w1 t1).2) as Hm; [|by rewrite Hrun in Hm] end.
  eapply (guards_weaken (fun pol l => t1 ⊆ l -> has_broker (bk_kind b) pol l) _ t1); [done| |auto].
  apply starts_on_error.
  - assert (forall l p, t1 ⊆ l -> sp_broker_uds p = Some (rn_uds s) -> (forall v, (uds_env (bk_kind b), v) ∈ sp_env p <-> v = rn_uds s) ->
      has_broker (bk_kind b) (derive_lockdown_env strings_to_json p) l) as Hp.
    { intros l p Hl Hb He. exists (rn_child s), (derive_lockdown_env strings_to_json (broker_policy (bc_broker_bin cfg) (bk_endpoint b) scratch (bk_kind b))), (rn_uds s).
      split; [destruct Hr; split; by apply Hl|]. split; [apply derived_env_other; [apply uds_env_not_lockdown|]; rewrite Huds; left|].
      split; [done|]. intros v. rewrite derived_env_other by apply uds_env_not_lockdown. apply He. }
    assert (forall v, (uds_env (bk_kind b), v) ∈ sp_env (rewrite_policy_for_broker (ws_policy spec) (rn_uds s) (bk_kind b)) <-> v = rn_uds s) as Hb.
    { intros v. cbn [rewrite_policy_for_broker sp_env set_paths_env]. rewrite elem_of_app, without_env_spec, list_elem_of_singleton. split.
      - intros [[_ Hno]|E]; [by destruct Hno|by apply list_elem_of_singleton in E; injection E].
      - intros ->. right. by apply list_elem_of_singleton. }
    apply starts_bind; [|intros wk; apply starts_ret]. apply starts_maybe_any; [intros l Hl; by apply Hp|]. intros uds ca l Hl.
    apply Hp; [done|done|]. intros v. unfold rewrite_worker_policy. cbn [sp_env set_paths_env ws_policy].
    rewrite !elem_of_app, without_env_spec, Hb. split.
    + intros [[E _]|[Hv|Hv]]; [done| |].
      * apply list_elem_of_singleton in Hv. exfalso. destruct (bk_kind b); by vm_compute in Hv.
      * destruct ca; [|by apply elem_of_nil in Hv]. apply list_elem_of_singleton in Hv. exfalso. destruct (bk_kind b); by vm_compute in Hv.
    + intros ->. left. split; [done|apply uds_env_not_egress].
  - unfold drop_broker, act. apply starts_bind; [apply starts_stop|]. intros _. apply starts_bind; [apply starts_effect|]. intros _.
    destruct (rn_scratch s); [|apply starts_ret]. unfold remove_dir, act. no_worker.
Qed.

(** The broker's own jail does not confine it to its backend: the policy names
    the backend in an allowlist, and without a proxy's socket an allowlist shares the
    host's network. *)
Theorem broker_shares_the_host_network binary endpoint scratch kind :
  sp_net (broker_policy binary endpoint scratch kind) = NetAllowlist (broker_allowlist_from_endpoint endpoint) /\
  net_shared (broker_policy binary endpoint scratch kind) = true /\
  rule "allow" ["network*"] [] ∈ profile_rules (broker_policy binary endpoint scratch kind).
Proof. split; [done|]. split; [done|]. unfold profile_rules, net_rules. rewrite !elem_of_app.
  do 5 right. left. by apply list_elem_of_singleton. Qed.
End Order.

(** * Witnesses *)

(** A machine on which every spawn succeeds and a sidecar's files are there once
    something was started: its clock and the number of processes. *)
Record DemoOs := mkDemoOs { os_clock : Z; os_children : nat }.

#[local] Instance demo_os : SpawnWorld DemoOs () := {|
  sw_spawn _ _ _ _ w := (Ok (os_children w), mkDemoOs (os_clock w) (S (os_children w)));
  sw_exists _ w := ((0 <? os_children w)%nat, w);
  sw_try_wait _ w := (Ok None, w);
  sw_now w := (os_clock w, w);
  sw_sleep d w := mkDemoOs (os_clock w + d) (os_children w);
  sw_next_seq w := (0, w);
  sw_create_private_dir _ w := (Ok tt, w);
  sw_kill _ w := w; sw_remove_file _ w := w; sw_remove_dir_all _ w := w; sw_write_secret_hashes _ w := w;
  sw_stderr_note _ w := ([], w);
  sw_pid := 7 |}.

#[local] Instance demo_text : SpawnText := {|
  strings_to_json l := concat l; pins_to_string _ := []; url_host_port e := Some (Some e, None);
  select_error_text _ := []; sun_path_max := 108 |}.
#[local] Instance demo_debug : UnicodeDebug := {| escape_unicode c := c |}.
#[local] Existing Instance plain_ip_text.

Definition demo_worker_policy (net : Net) : SandboxPolicy :=
  mkPolicy [] [] net 1000 64 WorkerStrict None None [] None None None.
Definition demo_worker (net : Net) : WorkerSpec := mkWorkerSpec (demo_worker_policy net) (bs "/bin/w") [].
Definition demo_force : ForceRoutingConfig := mkForce (bs "/bin/proxy") (bs "/run") None None.
Definition demo_brokers : BrokerConfigs := mkBrokerConfigs (Some (mkBrokerConfig Embed (bs "/bin/embed") (bs "/run"))) None.

Lemma sidecar_wait_ends_witness :
  is_Some (wait_for_sidecar_ready 201 READY_TIMEOUT (fun w : DemoOs => (false, w)) (fun w => (Ok None, w)) (mkDemoOs 3 0)).1.
Proof. apply (sidecar_wait_ends os_clock); [split; intros; cbn; lia|lia]. Defined.



Lemma brokered_worker_starts_with_its_broker_witness :
  exists pol earlier, has_broker Embed pol earlier.
Proof.
  let run := constr:(spawn_worker_with_optional_broker 201 None demo_brokers () () (demo_worker NetDeny) (Some (mkBrokerSpec Embed (bs "h"))) (bs "w") (mkDemoOs 0 0) []) in
  let v := eval vm_compute in run in
  match v with
  | (?r, ?w, SvSpawn Worker ?c ?pol :: ?earlier) =>
      exists pol, earlier; apply (brokered_worker_starts_with_its_broker 201 None demo_brokers () () (demo_worker NetDeny) (mkBrokerSpec Embed (bs "h")) (bs "w")
        (mkDemoOs 0 0) r w [] c pol earlier); vm_compute; reflexivity
  end.
Defined.
