(* ===== verification/ToolDispatch.v ===== *)
(** The scheduler's step dispatcher (src/core/src/scheduler/tool_dispatch.rs with
    method_qualify.rs and result_mapping.rs, src/core/src/untrusted_text.rs): the tool
    registry, the handoff built-in, the workspace directory, the acquisition and
    release of a worker, the dispatch chokepoint, the stash of an oversized result and
    the mapping of errors.

    The lifecycle manager is an interface of the source (a trait object); here it is
    [se_acquire] and [se_release].  Tasks share the vault, the handoff cache and the
    table of workspace directories; a step touches the cache only before it has a
    worker or after its worker has answered, so it is cut there into [begin_step] and
    [finish_step], and the system at the end interleaves those of any number of tasks.
    The trace records what a step does to workers, cache and audit log, and the line
    for the operator.  The debug assertion of [apply_task_out] is not modelled. *)

From stdpp Require Import base list gmap sets numbers strings option pretty.
From Stdlib Require Import ZArith Lia.
From S2P Require Import Prelude RustStr Fingerprint RollingMatcher Redact Json Cassandra PlanJson LoopPure AskMessage ResultView InjectionGuard Effects Protocol Secrets ToolHost Handoff WorkerLifecycle Sandbox EgressSpawn.
Local Open Scope Z_scope.
Local Open Scope prog_scope.

(** * untrusted_text.rs *)

Definition is_neutralised_control (c : Z) : bool :=
  (0 <=? c) && (c <? 32) || (127 <=? c) && (c <? 160) || (c =? 0x2028) || (c =? 0x2029)
  || (c =? 0x061C) || (c =? 0x200E) || (c =? 0x200F)
  || (0x202A <=? c) && (c <=? 0x202E) || (0x2066 <=? c) && (c <=? 0x2069).

Definition neutralise_controls (s : bytes) : bytes :=
  concat (map (fun g => if is_neutralised_control (decode_group g) then [32] else g) (groups s)).

(** * method_qualify.rs *)

Definition qualified_method (requested : bytes) (advertised : list bytes) : option bytes :=
  if bool_decide (requested ∈ advertised) then None
  else if bool_decide (46 ∈ requested) then None
  else match List.filter (ends_with (bs "." ++ requested)) advertised with
       | [first] => Some first
       | _ => None
       end.

(** * result_mapping.rs *)

Definition STEP_ERR_DETAIL_MAX : nat := 200.

Definition METHOD_NOT_FOUND : Z := -32601.
Definition INVALID_PARAMS : Z := -32602.
Definition INTERNAL_ERROR : Z := -32603.
Definition POLICY_DENIED : Z := -32001.
Definition OPERATION_FAILED : Z := -32002.
Definition UPSTREAM_AUTH_FAILED : Z := -32004.

Definition rpc_code_name (code : Z) : bytes :=
  if code =? PARSE_ERROR then bs "PARSE_ERROR"
  else if code =? INVALID_REQUEST then bs "INVALID_REQUEST"
  else if code =? METHOD_NOT_FOUND then bs "METHOD_NOT_FOUND"
  else if code =? INVALID_PARAMS then bs "INVALID_PARAMS"
  else if code =? INTERNAL_ERROR then bs "INTERNAL_ERROR"
  else if code =? POLICY_DENIED then bs "POLICY_DENIED"
  else if code =? OPERATION_FAILED then bs "OPERATION_FAILED"
  else if code =? UPSTREAM_AUTH_FAILED then bs "UPSTREAM_AUTH_FAILED"
  else bs "RPC_ERROR".

Definition upstream_auth_failure_detail (outcome : StepOutcome) : option bytes :=
  match outcome with
  | StepErr code detail =>
      if bytes_eqb code (rpc_code_name UPSTREAM_AUTH_FAILED)
      then Some (neutralise_controls (concat (take STEP_ERR_DETAIL_MAX (groups detail)))) else None
  | StepOk _ => None
  end.

(** [debug] is [{:?}] of a value, for the text of a protocol error. *)
Definition map_dispatch_result (debug : Value -> bytes) (r : result Value ToolHostError) : StepOutcome :=
  match r with
  | Ok v => StepOk v
  | Err (ToolHost.Sandbox e) => StepErr (bs "SPAWN_FAILED") e
  | Err (HostIo e) => StepErr (bs "IO_ERROR") e
  | Err (Protocol (Rpc rpc)) => StepErr (rpc_code_name (re_code rpc)) (re_message rpc)
  | Err (Protocol other) => StepErr (bs "PROTOCOL_ERROR") (client_error_str debug other)
  | Err (SecretRedemptionFailed _) => StepErr (bs "POLICY_DENIED") (bs "secret redemption failed before worker call")
  | Err (EgressProvisionFailed msg) => StepErr (bs "POLICY_DENIED") msg
  end.

(** The [Display] of [SubstituteError] and [ToolHostError]. *)
Definition substitute_error_str (e : SubstituteError) : bytes :=
  match e with
  | MissingRef h reason => bs "substitute: ref " ++ h ++ bs " missing from vault (reason: " ++ missing_str reason ++ bs ")"
  | PlaintextNotUtf8 h => bs "substitute: ref " ++ h ++ bs " plaintext is not valid UTF-8"
  end.

Definition tool_host_error_str (debug : Value -> bytes) (e : ToolHostError) : bytes :=
  match e with
  | ToolHost.Sandbox e => bs "sandbox: " ++ e
  | HostIo e => bs "io: " ++ e
  | Protocol e => bs "protocol: " ++ client_error_str debug e
  | SecretRedemptionFailed e => bs "tool_host: secret redemption failed: " ++ substitute_error_str e
  | EgressProvisionFailed err => bs "tool_host: egress leak-scanner provisioning failed: " ++ err
  end.

(** * The registry *)

Inductive SandboxBackendKind := Bwrap | FirecrackerVm | Seatbelt | Container.

Record ToolEntry := mkToolEntry {
  te_binary : bytes; te_policy : SandboxPolicy; te_wall_clock_ms : option Z; te_lifecycle : Lifecycle;
  te_sandbox_backend : option SandboxBackendKind; te_container_image : option bytes; te_lockdown_shim : option bytes;
  te_ephemeral_scratch : bool; te_broker : option BrokerSpec }.

Record ToolRegistry := mkRegistry { tr_entries : gmap bytes ToolEntry; tr_methods : gmap bytes (list bytes) }.

Definition registry_insert (name : bytes) (entry : ToolEntry) (r : ToolRegistry) : ToolRegistry :=
  mkRegistry (<[name := entry]> (tr_entries r)) (tr_methods r).
Definition set_methods (name : bytes) (methods : list bytes) (r : ToolRegistry) : ToolRegistry :=
  mkRegistry (tr_entries r) (<[name := methods]> (tr_methods r)).
Definition methods_for (r : ToolRegistry) (name : bytes) : list bytes := default [] (tr_methods r !! name).
Definition registry_lookup (r : ToolRegistry) (name : bytes) : option ToolEntry := tr_entries r !! name.

Definition HANDOFF_TOOL : bytes := bs "handoff".
Definition HANDOFF_METHOD_FETCH : bytes := bs "fetch".

Definition is_handoff_fetch (tool method : bytes) : bool :=
  bytes_eqb tool HANDOFF_TOOL && bytes_eqb (default method (strip_prefix (bs "handoff.") method)) HANDOFF_METHOD_FETCH.

Definition build_scheduler_step_failure_payload (tool method : bytes) (req : Value) (err : option bytes) (ms : Z) : Value :=
  object ([(bs "tool", String tool); (bs "method", String method); (REQ_KEY, req)] ++
          opt_field (bs "err") String err ++ [(bs "ms", int_value ms)]).

Definition wants_workspace_out (tool : bytes) : bool := bytes_eqb tool (bs "mail").

Definition with_policy (e : ToolEntry) (p : SandboxPolicy) : ToolEntry :=
  mkToolEntry (te_binary e) p (te_wall_clock_ms e) (te_lifecycle e) (te_sandbox_backend e) (te_container_image e)
    (te_lockdown_shim e) (te_ephemeral_scratch e) (te_broker e).

Definition apply_task_out (tool : bytes) (base : ToolEntry) (out_dir : option bytes) : option ToolEntry :=
  if negb (wants_workspace_out tool) then None
  else dir ← out_dir; Some (with_policy base (apply_workspace_out (te_policy base) dir)).

(** * The dispatcher *)

Inductive StepEvent :=
| SeAcquire (task_id : Z) (tool : bytes) (entry : ToolEntry) (worker : nat)
| SeHost (worker : nat) (e : HostEvent)
| SeReturned (task_id : Z) (worker : nat) (tool method : bytes) (params : Value) (r : result Value ToolHostError)
| SeRelease (worker : nat) (died : bool)
| SeCache (op : CacheOp)
| SeOutDir (task_id : Z) (out_dir : bytes)
| SeRow (row : AuditRow)
| SeOperatorLine (tool method detail : bytes).

(** The vault, the handoff cache, the registered [out/] directories, and the rest. *)
Record StepWorld (X : Type) := mkStepWorld {
  dw_vault : VaultState; dw_cache : HandoffCache; dw_out_dirs : gmap Z bytes; dw_x : X }.
Arguments mkStepWorld {X}.
Arguments dw_vault {X}.
Arguments dw_cache {X}.
Arguments dw_out_dirs {X}.
Arguments dw_x {X}.

Record StepEnv (X : Type) := mkStepEnv {
  se_registry : ToolRegistry;
  (** The lifecycle manager; a worker is called through its [HostEnv]. *)
  se_acquire : bytes -> ToolEntry -> X -> result nat ToolHostError * X;
  se_release : nat -> bool -> X -> X;
  se_host : nat -> HostEnv X;
  se_sink : AuditRow -> X -> bool * X;
  se_elapsed_ms : X -> Z * X;
  (** [json!] of an [f32], and [{:?}] of a value. *)
  se_f32 : Z -> Value;
  se_debug : Value -> bytes }.
Arguments mkStepEnv {X}.
Arguments se_registry {X}.
Arguments se_acquire {X}.
Arguments se_release {X}.
Arguments se_host {X}.
Arguments se_sink {X}.
Arguments se_elapsed_ms {X}.
Arguments se_f32 {X}.
Arguments se_debug {X}.

Section Dispatcher.
Context `{Sha256} `{UnicodeChar} {X : Type}.
Variable clock : nat -> Z.
Variable iter_order : list (nat * Targets) -> list (nat * Targets).
Variable env : StepEnv X.
Abbreviation P A := (prog (StepWorld X) StepEvent Empty_set A).

Definition outside {A} (f : X -> A * X) : P A :=
  effect (fun w => let '(a, x) := f (dw_x w) in (a, mkStepWorld (dw_vault w) (dw_cache w) (dw_out_dirs w) x)).

Definition set_cache (c : HandoffCache) (w : StepWorld X) : StepWorld X :=
  mkStepWorld (dw_vault w) c (dw_out_dirs w) (dw_x w).

Definition write_row (r : AuditRow) : P () :=
  let* ok := outside (se_sink env r) in if ok : bool then emit (SeRow r) else ret tt.

(** The chokepoint's program in the dispatcher's world. *)
Definition call_host (worker : nat) (tool method : bytes) (params : Value) : P (result Value ToolHostError) := fun w t =>
  let '(r, (s, x), ht) := dispatch_with_sink clock iter_order (se_host env worker) tool method params (dw_vault w, dw_x w) [] in
  (Ok r, mkStepWorld s (dw_cache w) (dw_out_dirs w) x, map (SeHost worker) ht ++ t).

Definition serve_handoff (task_id : Z) (step : PlannedStep) : P StepOutcome :=
  let* fetched := effect (fun w => (fetch task_id (st_parameters step) (dw_cache w), w)) in
  let* elapsed_ms := outside (se_elapsed_ms env) in
  let '(label, outcome) :=
    match fetched with
    | FetchOk v => (bs "ok", StepOk (screen_fetched_data (se_f32 env) v))
    | FetchNotFound detail => (bs "not_found", StepErr (bs "HANDOFF_NOT_FOUND") detail)
    | FetchInvalidParams detail => (bs "invalid_params", StepErr (bs "INVALID_PARAMS") detail)
    end in
  let param k := opt_value id (get k (st_parameters step)) in
  write_row (mkRow (bs "policy") (bs "handoff.fetched")
    (object [(bs "task_id", int_value task_id); (bs "handoff_ref", param (bs "handoff_ref")); (bs "offset", param (bs "offset"));
             (bs "len", param (bs "len")); (bs "outcome", String label); (bs "ms", int_value elapsed_ms)])) ;;;
  ret outcome.

Definition step_failed (action : bytes) (step : PlannedStep) (err : option bytes) : P () :=
  let* elapsed_ms := outside (se_elapsed_ms env) in
  write_row (mkRow (bs "scheduler") action
    (build_scheduler_step_failure_payload (st_tool step) (st_method step) (st_parameters step) err elapsed_ms)).

(** The stash branch. *)
Definition cap_result (task_id : Z) (step : PlannedStep) (r : result Value ToolHostError) : P (result Value ToolHostError) :=
  match r with
  | Ok v =>
      if 0 <? task_id then
        let* stash := effect (fun w =>
          let '(o, c) := stash_if_oversized task_id v DEFAULT_RESULT_BYTE_CAP (dw_cache w) in (o, set_cache c w)) in
        match stash with
        | Some stash =>
            emit (SeCache (CPut task_id (to_string v))) ;;;
            write_row (mkRow (bs "policy") (bs "handoff.stashed")
              (object [(bs "task_id", int_value task_id); (bs "tool", String (st_tool step)); (bs "method", String (st_method step));
                       (bs "handoff_ref", String (so_handoff_ref stash)); (bs "byte_len", int_value (so_byte_len stash))])) ;;;
            ret (Ok (so_placeholder stash))
        | None => ret (Ok v)
        end
      else ret (Ok v)
  | Err e => ret (Err e)
  end.

(** A step whose worker has answered. *)
Record Pending := mkPending {
  pd_step : PlannedStep; pd_worker : nat; pd_method : bytes; pd_result : result Value ToolHostError }.

(** The step up to the worker's answer: an outcome when no worker is called. *)
Definition begin_step (task_id : Z) (step : PlannedStep) : P (StepOutcome + Pending) :=
  if is_handoff_fetch (st_tool step) (st_method step) then let* o := serve_handoff task_id step in ret (inl o)
  else
    match registry_lookup (se_registry env) (st_tool step) with
    | None =>
        step_failed (bs "step.unknown_tool") step None ;;;
        ret (inl (StepErr (bs "UNKNOWN_TOOL") (bs "tool '" ++ st_tool step ++ bs "' not registered")))
    | Some base =>
        let* out_dir := effect (fun w => (dw_out_dirs w !! task_id, w)) in
        let entry := default base (apply_task_out (st_tool step) base out_dir) in
        let* acquired := outside (se_acquire env (st_tool step) entry) in
        match acquired with
        | Err e =>
            let err_string := tool_host_error_str (se_debug env) e in
            step_failed (bs "step.spawn_failed") step (Some err_string) ;;;
            ret (inl (StepErr (bs "SPAWN_FAILED") err_string))
        | Ok worker =>
            emit (SeAcquire task_id (st_tool step) entry worker) ;;;
            let method := default (st_method step) (qualified_method (st_method step) (methods_for (se_registry env) (st_tool step))) in
            let* r := call_host worker (st_tool step) method (st_parameters step) in
            emit (SeReturned task_id worker (st_tool step) method (st_parameters step) r) ;;;
            ret (inr (mkPending step worker method r))
        end
    end.

(** The step from the worker's answer on. *)
Definition finish_step (task_id : Z) (p : Pending) : P StepOutcome :=
  let died := dispatch_indicates_worker_dead (pd_result p) in
  outside (fun x => (tt, se_release env (pd_worker p) died x)) ;;;
  emit (SeRelease (pd_worker p) died) ;;;
  let* r := cap_result task_id (pd_step p) (pd_result p) in
  let outcome := map_dispatch_result (se_debug env) r in
  match upstream_auth_failure_detail outcome with
  | Some detail => emit (SeOperatorLine (st_tool (pd_step p)) (pd_method p) detail)
  | None => ret tt
  end ;;;
  ret outcome.

Definition dispatch_step (task_id : Z) (step : PlannedStep) : P StepOutcome :=
  let* b := begin_step task_id step in
  match b with inl outcome => ret outcome | inr p => finish_step task_id p end.

(** The other methods of the dispatcher. *)
Definition purge (task_id : Z) : P () := fun w t =>
  (Ok tt, mkStepWorld (dw_vault w) (purge_task task_id (dw_cache w)) (delete task_id (dw_out_dirs w)) (dw_x w), SeCache (CPurge task_id) :: t).

Definition set_task_out_dir (task_id : Z) (out_dir : bytes) : P () :=
  effect (fun w => (tt, mkStepWorld (dw_vault w) (dw_cache w) (<[task_id := out_dir]> (dw_out_dirs w)) (dw_x w))) ;;;
  emit (SeOutDir task_id out_dir).

Definition known_tools : gset bytes := dom (tr_entries (se_registry env)).
Definition qualify_method (tool method : bytes) : option bytes := qualified_method method (methods_for (se_registry env) tool).
Definition stashed (json_from_slice : bytes -> option Value) (task_id : Z) (r : bytes) (w : StepWorld X) : option Value :=
  whole json_from_slice task_id r (dw_cache w).
End Dispatcher.

(** * What a step does *)

Section Runs.
Context `{Sha256} `{UnicodeChar} {X : Type}.
Variable clock : nat -> Z.
Variable iter_order : list (nat * Targets) -> list (nat * Targets).
Variable env : StepEnv X.
Abbreviation P A := (prog (StepWorld X) StepEvent Empty_set A).

Definition with_x (w : StepWorld X) (x : X) : StepWorld X := mkStepWorld (dw_vault w) (dw_cache w) (dw_out_dirs w) x.

Definition fetch_outcome (r : FetchResult) : StepOutcome :=
  match r with
  | FetchOk v => StepOk (screen_fetched_data (se_f32 env) v)
  | FetchNotFound detail => StepErr (bs "HANDOFF_NOT_FOUND") detail
  | FetchInvalidParams detail => StepErr (bs "INVALID_PARAMS") detail
  end.

(** The entry a worker is acquired with. *)
Definition task_entry (tool : bytes) (base : ToolEntry) (out_dir : option bytes) : ToolEntry :=
  default base (apply_task_out tool base out_dir).

(** The method put on the wire. *)
Definition wire_method (step : PlannedStep) : bytes :=
  default (st_method step) (qualified_method (st_method step) (methods_for (se_registry env) (st_tool step))).

(** [m] writes audit rows and answers with an [a] such that [Q a]. *)
Definition writes_rows {A} (m : P A) (Q : StepWorld X -> A -> Prop) : Prop :=
  forall w t, exists a x rs, m w t = (Ok a, with_x w x, map SeRow rs ++ t) /\ Q w a.

Lemma with_x_same (w : StepWorld X) : with_x w (dw_x w) = w.
Proof. by destruct w. Qed.

Lemma writes_ret {A} (a : A) (Q : StepWorld X -> A -> Prop) : (forall w, Q w a) -> writes_rows (ret a) Q.
Proof. intros HQ w t. exists a, (dw_x w), []. by rewrite with_x_same. Qed.

Lemma writes_outside {A} (f : X -> A * X) : writes_rows (outside f) (fun _ _ => True).
Proof. intros w t. unfold outside, effect. destruct (f (dw_x w)) as [a x]. by exists a, x, []. Qed.

Lemma writes_bind {A B} (m : P A) (k : A -> P B) Qm Q :
  writes_rows m Qm -> (forall a, writes_rows (k a) (fun w b => forall x, Qm (with_x w x) a -> Q (with_x w x) b)) -> writes_rows (bind m k) Q.
Proof.
  intros Hm Hk w t. destruct (Hm w t) as (a & x & rs & E & Ha). unfold bind. rewrite E.
  destruct (Hk a (with_x w x) (map SeRow rs ++ t)) as (b & x2 & rs2 & E2 & Hb).
  exists b, x2, (rs2 ++ rs). rewrite E2, map_app, app_assoc. split; [done|].
  specialize (Hb (dw_x w)). change (with_x (with_x w x) (dw_x w)) with (with_x w (dw_x w)) in Hb. rewrite with_x_same in Hb. auto.
Qed.

Lemma writes_row r : writes_rows (write_row env r) (fun _ _ => True).
Proof.
  intros w t. unfold write_row, bind, outside, effect. destruct (se_sink env r (dw_x w)) as [[] x]; [by exists tt, x, [r]|by exists tt, x, []].
Qed.

Lemma writes_step_failed action step err : writes_rows (step_failed env action step err) (fun _ _ => True).
Proof. unfold step_failed. eapply writes_bind; [apply writes_outside|]. intros ms w t. destruct (writes_row (mkRow (bs "scheduler") action
  (build_scheduler_step_failure_payload (st_tool step) (st_method step) (st_parameters step) err ms)) w t) as (a & x & rs & E & _). by exists a, x, rs. Qed.

Lemma writes_then_ret {A} (m : P ()) (a : A) (Q : StepWorld X -> A -> Prop) :
  writes_rows m (fun _ _ => True) -> (forall w, Q w a) -> writes_rows (m ;;; ret a) Q.
Proof. intros Hm Ha. eapply writes_bind; [exact Hm|]. intros []. apply writes_ret. intros w x _. apply Ha. Qed.

Lemma writes_serve task_id step :
  writes_rows (serve_handoff env task_id step) (fun w o => o = fetch_outcome (fetch task_id (st_parameters step) (dw_cache w))).
Proof.
  unfold serve_handoff. intros w t. unfold bind at 1, effect at 1. set (fetched := fetch task_id (st_parameters step) (dw_cache w)).
  match goal with |- exists a x rs, ?m w t = _ /\ _ => assert (writes_rows m (fun _ o => o = fetch_outcome fetched)) as Hm; [|exact (Hm w t)] end.
  eapply writes_bind; [apply writes_outside|]. intros ms. destruct fetched; apply writes_then_ret; auto using writes_row.
Qed.

(** What [begin_step] did. *)
Inductive begun (task_id : Z) (step : PlannedStep) (w : StepWorld X) : StepOutcome + Pending -> StepWorld X -> list StepEvent -> Prop :=
| BgFetch x rs :
    is_handoff_fetch (st_tool step) (st_method step) = true ->
    begun task_id step w (inl (fetch_outcome (fetch task_id (st_parameters step) (dw_cache w)))) (with_x w x) (map SeRow rs)
| BgRefused x rs code detail :
    is_handoff_fetch (st_tool step) (st_method step) = false ->
    (code = bs "UNKNOWN_TOOL" /\ registry_lookup (se_registry env) (st_tool step) = None \/
     code = bs "SPAWN_FAILED" /\ is_Some (registry_lookup (se_registry env) (st_tool step))) ->
    begun task_id step w (inl (StepErr code detail)) (with_x w x) (map SeRow rs)
| BgCalled base worker x0 x r s x' ht :
    is_handoff_fetch (st_tool step) (st_method step) = false ->
    registry_lookup (se_registry env) (st_tool step) = Some base ->
    let entry := task_entry (st_tool step) base (dw_out_dirs w !! task_id) in
    se_acquire env (st_tool step) entry x0 = (Ok worker, x) ->
    dispatch_with_sink clock iter_order (se_host env worker) (st_tool step) (wire_method step) (st_parameters step) (dw_vault w, x) [] = (r, (s, x'), ht) ->
    begun task_id step w (inr (mkPending step worker (wire_method step) r)) (mkStepWorld s (dw_cache w) (dw_out_dirs w) x')
      (SeReturned task_id worker (st_tool step) (wire_method step) (st_parameters step) r :: map (SeHost worker) ht ++
       [SeAcquire task_id (st_tool step) entry worker]).

Lemma begin_step_runs task_id step w t :
  exists b w' new, begin_step clock iter_order env task_id step w t = (Ok b, w', new ++ t) /\ begun task_id step w b w' new.
Proof.
  unfold begin_step. destruct (is_handoff_fetch (st_tool step) (st_method step)) eqn:Eh.
  { destruct (writes_serve task_id step w t) as (o & x & rs & E & ->). unfold bind. rewrite E. eexists _, _, _. split; [reflexivity|by constructor]. }
  assert (forall action err code detail,
    (code = bs "UNKNOWN_TOOL" /\ registry_lookup (se_registry env) (st_tool step) = None \/
     code = bs "SPAWN_FAILED" /\ is_Some (registry_lookup (se_registry env) (st_tool step))) -> forall x, exists b w' new,
    (step_failed env action step err ;;; ret (inl (StepErr code detail))) (with_x w x) t = (Ok b, w', new ++ t) /\ begun task_id step w b w' new) as Href.
  { intros action err code detail Hc x0.
    destruct (writes_then_ret (step_failed env action step err) (inl (StepErr code detail) : StepOutcome + Pending) (fun _ _ => True)
      (writes_step_failed _ _ _) (fun _ => I) (with_x w x0) t) as (a & x & rs & E & _).
    unfold bind in *. destruct (step_failed env action step err (with_x w x0) t) as [[[|[]] ?] ?]. unfold ret in *. injection E as <- -> ->.
    exists (inl (StepErr code detail)), (with_x w x), (map SeRow rs). split; [reflexivity|by apply BgRefused]. }
  destruct (registry_lookup (se_registry env) (st_tool step)) as [base|] eqn:El.
  2: { pose proof (Href (bs "step.unknown_tool") None (bs "UNKNOWN_TOOL") (bs "tool '" ++ st_tool step ++ bs "' not registered") ltac:(by left) (dw_x w)) as Hr.
       by rewrite with_x_same in Hr. }
  unfold bind at 1, effect at 1. unfold bind at 1, outside at 1, effect at 1. fold (task_entry (st_tool step) base (dw_out_dirs w !! task_id)).
  destruct (se_acquire env (st_tool step) (task_entry (st_tool step) base (dw_out_dirs w !! task_id)) (dw_x w)) as [[worker|e] x] eqn:Ea.
  2: { apply Href. right. by eauto. }
  unfold call_host, bind, emit, ret. cbn [dw_vault dw_x dw_cache dw_out_dirs]. fold (wire_method step).
  destruct (dispatch_with_sink clock iter_order (se_host env worker) (st_tool step) (wire_method step) (st_parameters step) (dw_vault w, x) [])
    as [[r [s x']] ht] eqn:Ed.
  eexists _, _, _. split; [|by eapply BgCalled]. by rewrite <- app_comm_cons, <- app_assoc.
Qed.

Definition oversized (task_id : Z) (r : result Value ToolHostError) : option Value :=
  match r with
  | Ok v => if (0 <? task_id) && (DEFAULT_RESULT_BYTE_CAP <? len (to_string v)) then Some v else None
  | Err _ => None
  end.

(** What the planner gets for a result, and what is stashed. *)
Definition final_result (task_id : Z) (r : result Value ToolHostError) : result Value ToolHostError :=
  match oversized task_id r with
  | Some v => Ok (build_handoff_placeholder v (handoff_ref_of (to_string v)) (len (to_string v)))
  | None => r
  end.
Definition stash_ops (task_id : Z) (r : result Value ToolHostError) : list CacheOp :=
  match oversized task_id r with Some v => [CPut task_id (to_string v)] | None => [] end.

Lemma put_ref t body c : (put t body c).1 = handoff_ref_of body.
Proof. unfold put. destruct (hc_buckets c !! t) as [b|]; cbn [default]; by destruct (tb_map _ !! _). Qed.

Definition with_cache (w : StepWorld X) (ops : list CacheOp) (x : X) : StepWorld X :=
  mkStepWorld (dw_vault w) (fold_left apply_cache ops (dw_cache w)) (dw_out_dirs w) x.

Lemma cap_result_runs task_id step r w t :
  exists x rs, cap_result env task_id step r w t =
    (Ok (final_result task_id r), with_cache w (stash_ops task_id r) x, map SeRow rs ++ map SeCache (stash_ops task_id r) ++ t).
Proof.
  unfold cap_result, final_result, stash_ops, oversized. destruct r as [v|e].
  2: { exists (dw_x w), []. by destruct w. }
  destruct (0 <? task_id); cbn [andb].
  2: { exists (dw_x w), []. by destruct w. }
  unfold bind at 1, effect at 1. unfold stash_if_oversized. rewrite Z.leb_antisym.
  destruct (DEFAULT_RESULT_BYTE_CAP <? len (to_string v)); cbn [negb].
  2: { exists (dw_x w), []. by destruct w. }
  pose proof (put_ref task_id (to_string v) (dw_cache w)) as Hr.
  destruct (put task_id (to_string v) (dw_cache w)) as [r c] eqn:Ep. cbn [fst] in Hr. subst r. cbn [so_placeholder so_handoff_ref so_byte_len].
  unfold bind at 1, emit at 1. unfold bind.
  match goal with |- context [write_row env ?r ?w1 ?t1] => destruct (writes_row r w1 t1) as ([] & x & rs & E & _) end.
  rewrite E. exists x, rs. unfold ret, with_cache, with_x, set_cache. cbn [dw_vault dw_cache dw_out_dirs fold_left apply_cache map app]. by rewrite Ep.
Qed.

Definition operator_line (p : Pending) (o : StepOutcome) : list StepEvent :=
  match upstream_auth_failure_detail o with Some d => [SeOperatorLine (st_tool (pd_step p)) (pd_method p) d] | None => [] end.

Definition step_outcome (task_id : Z) (p : Pending) : StepOutcome :=
  map_dispatch_result (se_debug env) (final_result task_id (pd_result p)).

Lemma finish_step_runs task_id p w t :
  exists x rs, finish_step env task_id p w t =
    (Ok (step_outcome task_id p), with_cache w (stash_ops task_id (pd_result p)) x,
     (operator_line p (step_outcome task_id p) ++ map SeRow rs ++ map SeCache (stash_ops task_id (pd_result p)) ++
      [SeRelease (pd_worker p) (dispatch_indicates_worker_dead (pd_result p))]) ++ t).
Proof.
  unfold finish_step. unfold bind at 1, outside at 1, effect at 1. unfold bind at 1, emit at 1. unfold bind at 1.
  match goal with |- context [cap_result env task_id ?st ?r ?w1 ?t1] => destruct (cap_result_runs task_id st r w1 t1) as (x & rs & E) end.
  rewrite E. fold (step_outcome task_id p). exists x, rs. unfold operator_line, bind, emit, ret.
  destruct (upstream_auth_failure_detail (step_outcome task_id p)); cbn [app]; by rewrite <- !app_assoc.
Qed.
End Runs.

(** * Tasks side by side *)

Record StepSystem (X : Type) := mkStepSystem {
  sy_world : StepWorld X; sy_pending : list (Z * Pending); sy_trace : list StepEvent }.
Arguments mkStepSystem {X}.
Arguments sy_world {X}.
Arguments sy_pending {X}.
Arguments sy_trace {X}.

(** The cache operations of a trace, oldest first. *)
Definition cache_op (e : StepEvent) : list CacheOp := match e with SeCache op => [op] | _ => [] end.
Definition cache_ops (t : list StepEvent) : list CacheOp := reverse (flat_map cache_op t).

(** The directory last registered for a task and not purged since. *)
Fixpoint out_dir_of (task_id : Z) (t : list StepEvent) : option bytes :=
  match t with
  | [] => None
  | SeOutDir k d :: t' => if k =? task_id then Some d else out_dir_of task_id t'
  | SeCache (CPurge k) :: t' => if k =? task_id then None else out_dir_of task_id t'
  | _ :: t' => out_dir_of task_id t'
  end.

Definition acquires (n : nat) (e : StepEvent) : bool := match e with SeAcquire _ _ _ k => (k =? n)%nat | _ => false end.
Definition releases (n : nat) (e : StepEvent) : bool := match e with SeRelease k _ => (k =? n)%nat | _ => false end.
Definition count {A} (f : A -> bool) (l : list A) : nat := length (List.filter f l).

Section Sharing.
Context `{Sha256} `{UnicodeChar} {X : Type}.
Variable clock : nat -> Z.
Variable iter_order : list (nat * Targets) -> list (nat * Targets).
Variable env : StepEnv X.
Abbreviation System := (StepSystem X).

(** One task begins a step or finishes one, the runner registers a directory or
    purges a task, or another part of the daemon moves. *)
Inductive sys_step : System -> System -> Prop :=
| SyBegin task_id step w p t b w' t' :
    begin_step clock iter_order env task_id step w t = (Ok b, w', t') ->
    sys_step (mkStepSystem w p t) (mkStepSystem w' (match b with inl _ => p | inr pd => (task_id, pd) :: p end) t')
| SyFinish task_id pd w p1 p2 t o w' t' :
    finish_step env task_id pd w t = (Ok o, w', t') ->
    sys_step (mkStepSystem w (p1 ++ (task_id, pd) :: p2) t) (mkStepSystem w' (p1 ++ p2) t')
| SyPurge task_id w p t r w' t' :
    purge task_id w t = (r, w', t') -> sys_step (mkStepSystem w p t) (mkStepSystem w' p t')
| SyOutDir task_id d w p t r w' t' :
    set_task_out_dir task_id d w t = (r, w', t') -> sys_step (mkStepSystem w p t) (mkStepSystem w' p t')
| SyElsewhere w p t s x :
    sys_step (mkStepSystem w p t) (mkStepSystem (mkStepWorld s (dw_cache w) (dw_out_dirs w) x) p t).

Inductive reachable : System -> Prop :=
| ReachStart s x : reachable (mkStepSystem (mkStepWorld s empty_cache ∅ x) [] [])
| ReachStep y y' : reachable y -> sys_step y y' -> reachable y'.

(** The chokepoint was asked for [method] of [tool] and answered [r]. *)
Definition chokepoint_answered (worker : nat) (tool method : bytes) (params : Value) (r : result Value ToolHostError) : Prop :=
  exists s x s' x' ht, dispatch_with_sink clock iter_order (se_host env worker) tool method params (s, x) [] = (r, (s', x'), ht).

Definition returned_to (t : list StepEvent) (task_id : Z) (worker : nat) (r : result Value ToolHostError) : Prop :=
  exists tool method params, SeReturned task_id worker tool method params r ∈ t.

(** A worker is in use as often as there are steps waiting with it. *)
Definition in_use (n : nat) (p : list (Z * Pending)) : nat := count (fun kp => (pd_worker kp.2 =? n)%nat) p.

Record consistent (y : System) : Prop := {
  cs_cache : dw_cache (sy_world y) = cache_after (cache_ops (sy_trace y));
  cs_out : forall task_id, dw_out_dirs (sy_world y) !! task_id = out_dir_of task_id (sy_trace y);
  cs_workers : forall n, count (acquires n) (sy_trace y) = (count (releases n) (sy_trace y) + in_use n (sy_pending y))%nat;
  cs_pending : forall task_id p, (task_id, p) ∈ sy_pending y -> returned_to (sy_trace y) task_id (pd_worker p) (pd_result p);
  cs_stashed : forall task_id body, SeCache (CPut task_id body) ∈ sy_trace y ->
    exists worker v, returned_to (sy_trace y) task_id worker (Ok v) /\ oversized task_id (Ok v) = Some v /\ body = to_string v;
  cs_released : forall n died, SeRelease n died ∈ sy_trace y ->
    exists task_id r, returned_to (sy_trace y) task_id n r /\ died = dispatch_indicates_worker_dead r;
  cs_returned : forall task_id worker tool method params r, SeReturned task_id worker tool method params r ∈ sy_trace y ->
    is_Some (registry_lookup (se_registry env) tool) /\ chokepoint_answered worker tool method params r }.

(** What an extension of the trace by [new] has to supply. *)
Lemma consistent_extend w p t w' p' new :
  consistent (mkStepSystem w p t) ->
  dw_cache w' = fold_left apply_cache (cache_ops new) (dw_cache w) ->
  (forall task_id, dw_out_dirs w' !! task_id = out_dir_of task_id (new ++ t)) ->
  (forall n, count (acquires n) new + in_use n p = count (releases n) new + in_use n p')%nat ->
  (forall task_id q, (task_id, q) ∈ p' -> (task_id, q) ∈ p \/ returned_to new task_id (pd_worker q) (pd_result q)) ->
  (forall task_id body, SeCache (CPut task_id body) ∈ new ->
     exists worker v, returned_to (new ++ t) task_id worker (Ok v) /\ oversized task_id (Ok v) = Some v /\ body = to_string v) ->
  (forall n died, SeRelease n died ∈ new -> exists task_id r, returned_to (new ++ t) task_id n r /\ died = dispatch_indicates_worker_dead r) ->
  (forall task_id worker tool method params r, SeReturned task_id worker tool method params r ∈ new ->
    is_Some (registry_lookup (se_registry env) tool) /\ chokepoint_answered worker tool method params r) ->
  consistent (mkStepSystem w' p' (new ++ t)).
Proof.
  intros [C1 C2 C3 C4 C5 C6 C7] D1 D2 D3 D4 D5 D6 D7. cbn [sy_world sy_pending sy_trace] in *.
  assert (forall k n r, returned_to t k n r -> returned_to (new ++ t) k n r) as Hold
    by (intros k n r (a & b & c & Hin); exists a, b, c; apply elem_of_app; by right).
  assert (forall k n r, returned_to new k n r -> returned_to (new ++ t) k n r) as Hnew
    by (intros k n r (a & b & c & Hin); exists a, b, c; apply elem_of_app; by left).
  split; cbn [sy_world sy_pending sy_trace].
  - rewrite D1, C1. unfold cache_after, cache_ops. by rewrite flat_map_app, reverse_app, fold_left_app.
  - exact D2.
  - intros n. unfold count in *. rewrite !List.filter_app, !length_app. specialize (C3 n). specialize (D3 n). unfold in_use, count in *. lia.
  - intros k q [Hq|Hq]%D4; auto.
  - intros k body [Hin|Hin]%elem_of_app; [by apply D5|]. apply C5 in Hin as (n & v & Hr & Hv). exists n, v. split; [auto|done].
  - intros n died [Hin|Hin]%elem_of_app; [by apply D6|]. apply C6 in Hin as (k & r & Hr & Hd). exists k, r. split; [auto|done].
  - intros k n a b c r [Hin|Hin]%elem_of_app; [by eapply D7|by eapply C7].
Qed.
(** Events that touch neither workers nor shared tables. *)
Definition inert (e : StepEvent) : bool := match e with SeRow _ | SeHost _ _ | SeOperatorLine _ _ _ => true | _ => false end.

Lemma inert_cache l : forallb inert l = true -> flat_map cache_op l = [].
Proof. induction l as [|e l IH]; [done|]. cbn. rewrite andb_true_iff. intros [He Hl]. rewrite IH by done. by destruct e. Qed.
Lemma inert_out l k t : forallb inert l = true -> out_dir_of k (l ++ t) = out_dir_of k t.
Proof. induction l as [|e l IH]; [done|]. cbn. rewrite andb_true_iff. intros [He Hl]. rewrite IH by done. by destruct e. Qed.
Lemma inert_count l f : forallb inert l = true -> (forall e, inert e = true -> f e = false) -> count f l = 0%nat.
Proof.
  intros Hl Hf. unfold count. induction l as [|e l IH]; [done|]. cbn in *. rewrite andb_true_iff in Hl. destruct Hl as [He Hl].
  rewrite Hf by done. auto.
Qed.
Lemma inert_in l e : forallb inert l = true -> e ∈ l -> inert e = true.
Proof. rewrite forallb_forall. intros Hl He%list_elem_of_In. auto. Qed.
Lemma inert_rows rs : forallb inert (map SeRow rs) = true.
Proof. by induction rs. Qed.
Lemma inert_host n ht : forallb inert (map (SeHost n) ht) = true.
Proof. by induction ht. Qed.
Lemma inert_line p o : forallb inert (operator_line p o) = true.
Proof. unfold operator_line. by destruct (upstream_auth_failure_detail o). Qed.

Lemma count_app {A} (f : A -> bool) l1 l2 : count f (l1 ++ l2) = (count f l1 + count f l2)%nat.
Proof. unfold count. by rewrite List.filter_app, length_app. Qed.

(** A trace extended by inert events only. *)
Lemma consistent_inert w p t w' new :
  consistent (mkStepSystem w p t) -> dw_cache w' = dw_cache w -> dw_out_dirs w' = dw_out_dirs w -> forallb inert new = true ->
  consistent (mkStepSystem w' p (new ++ t)).
Proof.
  intros Hc H1 H2 Hi. eapply consistent_extend; [exact Hc| | | | | | |].
  - unfold cache_ops. by rewrite inert_cache.
  - intros k. rewrite H2, inert_out by done. apply (cs_out _ Hc).
  - intros n. rewrite !inert_count; [done|done|by intros []|done|by intros []].
  - auto.
  - intros k body Hin%(inert_in new); done.
  - intros n died Hin%(inert_in new); done.
  - intros k n a b c r Hin%(inert_in new); done.
Qed.

Lemma begin_consistent task_id step w p t b w' new :
  consistent (mkStepSystem w p t) -> begun clock iter_order env task_id step w b w' new ->
  consistent (mkStepSystem w' (match b with inl _ => p | inr pd => (task_id, pd) :: p end) (new ++ t)).
Proof.
  intros Hc Hb. destruct Hb as [x rs|x rs code detail|base worker x0 x r s x' ht Hh Hl entry Ha Hd].
  - eapply consistent_inert; [exact Hc|done|done|apply inert_rows].
  - eapply consistent_inert; [exact Hc|done|done|apply inert_rows].
  - assert (returned_to (SeReturned task_id worker (st_tool step) (wire_method env step) (st_parameters step) r :: map (SeHost worker) ht ++
       [SeAcquire task_id (st_tool step) entry worker]) task_id worker r) as Hret by (eexists _, _, _; left).
    eapply consistent_extend; [exact Hc| | | | | | |].
    + unfold cache_ops. cbn [flat_map cache_op app]. rewrite flat_map_app, inert_cache by apply inert_host. done.
    + intros k. cbn [dw_out_dirs app out_dir_of]. rewrite <- app_assoc, inert_out by apply inert_host. apply (cs_out _ Hc).
    + intros n. rewrite !app_comm_cons, !count_app. unfold in_use. cbn [count]. unfold count. cbn [List.filter acquires releases snd pd_worker length].
      fold (count (acquires n) (map (SeHost worker) ht)). fold (count (releases n) (map (SeHost worker) ht)).
      rewrite !inert_count by (try apply inert_host; by intros []). destruct (worker =? n)%nat; cbn [length]; lia.
    + intros k q [[= -> ->]|Hq]%elem_of_cons; [right; done|by left].
    + intros k body. rewrite elem_of_cons, elem_of_app, list_elem_of_singleton. intros [?|[Hin%(inert_in _ _ (inert_host _ _))|?]]; done.
    + intros n died. rewrite elem_of_cons, elem_of_app, list_elem_of_singleton. intros [?|[Hin%(inert_in _ _ (inert_host _ _))|?]]; done.
    + intros k n a c d r0. rewrite elem_of_cons, elem_of_app, list_elem_of_singleton. intros [[= -> -> -> -> -> ->]|[Hin%(inert_in _ _ (inert_host _ _))|?]]; [|done|done].
      split; [by rewrite Hl|]. by eexists _, _, _, _, _.
Qed.

Lemma stash_ops_in task_id r k body : CPut k body ∈ stash_ops task_id r -> exists v, r = Ok v /\ k = task_id /\ oversized task_id r = Some v /\ body = to_string v.
Proof.
  unfold stash_ops. destruct (oversized task_id r) as [v|] eqn:E; [|by intros ?%elem_of_nil]. intros [= -> ->]%list_elem_of_singleton. exists v.
  split; [|done]. unfold oversized in E. destruct r as [u|]; [|done]. destruct (_ && _); [by injection E as ->|done].
Qed.

Lemma stash_ops_out task_id r k t : out_dir_of k (map SeCache (stash_ops task_id r) ++ t) = out_dir_of k t.
Proof. unfold stash_ops. by destruct (oversized task_id r). Qed.
Lemma stash_ops_cache task_id r : flat_map cache_op (map SeCache (stash_ops task_id r)) = stash_ops task_id r.
Proof. unfold stash_ops. by destruct (oversized task_id r). Qed.
Lemma stash_ops_count task_id r f : (forall op, f (SeCache op) = false) -> count f (map SeCache (stash_ops task_id r)) = 0%nat.
Proof. intros Hf. unfold stash_ops, count. destruct (oversized task_id r); [cbn; by rewrite Hf|done]. Qed.

Lemma finish_consistent task_id pd w p1 p2 t x rs :
  consistent (mkStepSystem w (p1 ++ (task_id, pd) :: p2) t) ->
  let r := pd_result pd in
  consistent (mkStepSystem (with_cache w (stash_ops task_id r) x) (p1 ++ p2)
    ((operator_line pd (step_outcome env task_id pd) ++ map SeRow rs ++ map SeCache (stash_ops task_id r) ++
      [SeRelease (pd_worker pd) (dispatch_indicates_worker_dead r)]) ++ t)).
Proof.
  intros Hc r. pose proof (inert_line pd (step_outcome env task_id pd)) as Hl. pose proof (inert_rows rs) as Hr.
  revert Hl Hr. generalize (operator_line pd (step_outcome env task_id pd)) as l. generalize (map SeRow rs) as l'. intros l' l Hl Hr.
  assert (forall e, e ∈ l ++ l' ++ map SeCache (stash_ops task_id r) ++ [SeRelease (pd_worker pd) (dispatch_indicates_worker_dead r)] ->
    inert e = true \/ (exists op, e = SeCache op /\ op ∈ stash_ops task_id r) \/ e = SeRelease (pd_worker pd) (dispatch_indicates_worker_dead r)) as Hin.
  { intros e. rewrite !elem_of_app, list_elem_of_singleton. intros [He|[He|[He| ->]]];
      [left; by apply (inert_in l)|left; by apply (inert_in l')| |by auto]. right. left. apply list_elem_of_fmap in He as (op & -> & Hop). eauto. }
  assert (returned_to t task_id (pd_worker pd) r) as Hret by (apply (cs_pending _ Hc task_id pd), elem_of_app; right; left).
  eapply consistent_extend; [exact Hc| | | | | | |].
  - unfold cache_ops. rewrite !flat_map_app, !inert_cache, stash_ops_cache by done. cbn. rewrite app_nil_r. unfold stash_ops. by destruct (oversized task_id r).
  - intros k. rewrite <- !app_assoc, !inert_out, stash_ops_out by done. cbn. apply (cs_out _ Hc).
  - intros n. rewrite !count_app, !(inert_count l), !(inert_count l'), !stash_ops_count by (done || by intros []).
    unfold in_use. rewrite !count_app. unfold count. cbn. destruct (pd_worker pd =? n)%nat; cbn; lia.
  - intros k q Hq. left. revert Hq. rewrite !elem_of_app, elem_of_cons. tauto.
  - intros k body [?|[(op & [= <-] & Hop)|?]]%Hin; [done| |done]. apply stash_ops_in in Hop as (v & Hv & -> & Ho & ->).
    exists (pd_worker pd), v. rewrite <- Hv. split; [|done]. destruct Hret as (a & b & c & Hx). exists a, b, c. apply elem_of_app. by right.
  - intros n died [?|[(op & [=] & Hop)|[= -> ->]]]%Hin; [done|]. exists task_id, r. split; [|done].
    destruct Hret as (a & b & c & Hx). exists a, b, c. apply elem_of_app. by right.
  - intros k n a b c r0 [?|[(op & [=] & Hop)|?]]%Hin; done.
Qed.

Lemma reachable_consistent y : reachable y -> consistent y.
Proof.
  induction 1 as [s x|y y' _ IH Hs].
  { split; cbn; [done|intros; by rewrite lookup_empty|done|..]; by intros * ?%elem_of_nil. }
  destruct Hs as [task_id step w p t b w' t' E|task_id pd w p1 p2 t o w' t' E|task_id w p t r w' t' E|task_id d w p t r w' t' E|w p t s x].
  - destruct (begin_step_runs clock iter_order env task_id step w t) as (b' & w1 & new & E' & Hb). rewrite E in E'. injection E' as <- <- ->.
    by eapply begin_consistent.
  - destruct (finish_step_runs env task_id pd w t) as (x & rs & E'). rewrite E in E'. injection E' as -> -> ->. by apply finish_consistent.
  - injection E as _ <- <-. apply (consistent_extend w p t _ p [SeCache (CPurge task_id)]); [done|done| |done|by auto|..].
    + intros k. cbn. destruct (Z.eqb_spec task_id k) as [-> |Hne]; [by rewrite lookup_delete_eq|rewrite lookup_delete_ne by done; apply (cs_out _ IH)].
    + intros k body ?%list_elem_of_singleton; done.
    + intros n died ?%list_elem_of_singleton; done.
    + intros k n a b c r0 ?%list_elem_of_singleton; done.
  - injection E as _ <- <-. apply (consistent_extend w p t _ p [SeOutDir task_id d]); [done|done| |done|by auto|..].
    + intros k. cbn. destruct (Z.eqb_spec task_id k) as [-> |Hne]; [by rewrite lookup_insert_eq|rewrite lookup_insert_ne by done; apply (cs_out _ IH)].
    + intros k body ?%list_elem_of_singleton; done.
    + intros n died ?%list_elem_of_singleton; done.
    + intros k n a b c r0 ?%list_elem_of_singleton; done.
  - by apply (consistent_inert w p t _ []).
Qed.

Lemma dispatch_fetch task_id step w t o w' t' :
  is_handoff_fetch (st_tool step) (st_method step) = true ->
  dispatch_step clock iter_order env task_id step w t = (Ok o, w', t') ->
  o = fetch_outcome env (fetch task_id (st_parameters step) (dw_cache w)).
Proof.
  intros Hf E. unfold dispatch_step, bind in E. destruct (begin_step_runs clock iter_order env task_id step w t) as (b & w1 & new & E1 & Hb).
  rewrite E1 in E. destruct Hb as [x rs|x rs code detail Hh|base worker x0 x r s x' ht Hh]; [|congruence..]. by injection E as <- _ _.
Qed.

Lemma as_u64_nonneg (o : option Value) dflt : 0 <= dflt -> 0 <= default dflt (o ≫= as_u64).
Proof. intros Hd. destruct o as [v|]; [|done]. cbn [mbind option_bind]. unfold as_u64. destruct v as [| |[]| | |]; try done. destruct (_ && _) eqn:B; [|done].
  by apply andb_true_iff in B as [?%Z.leb_le _]. Qed.

Lemma fetch_ok task_id params c v : fetch task_id params c = FetchOk v ->
  exists r offset count s, 0 <= offset /\ 0 <= count /\ get_slice task_id r offset count c = Some s /\
    get (bs "data") v = Some (String (from_utf8_lossy (sl_bytes s))).
Proof.
  unfold fetch. destruct (get (bs "handoff_ref") params ≫= as_str) as [ref_str|]; [|done]. destruct (parse_ref ref_str) as [r|]; [|done].
  set (offset := default 0 _). set (count := Z.min _ _). destruct (get_slice task_id r offset count c) as [s|] eqn:E; [|done].
  intros [= <-]. exists r, offset, count, s. split_and!; [| |done|done].
  - unfold offset. by apply as_u64_nonneg.
  - unfold count. apply Z.min_glb; [by apply as_u64_nonneg|lia].
Qed.

(** What a task fetches is its own and screened.  Tasks share one handoff cache
    and their steps interleave freely; still, the data a handoff step serves to a task
    passes the strict screen and is the withheld notice or a run of bytes (decoded
    lossily) of the JSON text of a result that the dispatch chokepoint returned to a
    step of that same task, stashed because it was over the cap, and the task was not
    purged since. *)
Theorem fetched_data_is_own_and_screened y task_id step v w' t' d :
  reachable y -> is_handoff_fetch (st_tool step) (st_method step) = true ->
  dispatch_step clock iter_order env task_id step (sy_world y) (sy_trace y) = (Ok (StepOk v), w', t') ->
  (get (bs "data") v ≫= as_str) = Some d ->
  iv_decision (screen_with_profile d Strict) = Allow /\
  exists worker tool method params result before slice after,
    chokepoint_answered worker tool method params (Ok result) /\
    SeReturned task_id worker tool method params (Ok result) ∈ sy_trace y /\
    stashed_for (cache_ops (sy_trace y)) task_id (to_string result) /\
    to_string result = before ++ slice ++ after /\ (d = WITHHELD_DATA \/ d = from_utf8_lossy slice).
Proof.
  intros Hy%reachable_consistent Hf Hrun Hd. apply dispatch_fetch in Hrun; [|done].
  unfold fetch_outcome in Hrun. destruct (fetch task_id (st_parameters step) (dw_cache (sy_world y))) as [u| |] eqn:Ef; [|done|done].
  injection Hrun as ->. destruct (fetched_data_spec (se_f32 env) u) as [Hs _]. destruct (Hs d Hd) as [Ha Hw]. split; [done|].
  apply fetch_ok in Ef as (r & offset & count & s & Ho & Hcnt & Hg & Hdata). rewrite (cs_cache y Hy) in Hg.
  destruct (slice_of_stash _ _ _ _ _ _ Ho Hcnt Hg) as (body & Hst & _ & _ & before & after & Hb & _).
  assert (SeCache (CPut task_id body) ∈ sy_trace y) as Hin.
  { destruct Hst as (l1 & l2 & Hl & _). assert (CPut task_id body ∈ cache_ops (sy_trace y)) as Hin by (rewrite Hl; set_solver).
    unfold cache_ops in Hin. rewrite elem_of_reverse in Hin. apply list_elem_of_In, in_flat_map in Hin as (e & He & Hop). apply list_elem_of_In in He.
    destruct e; try done. destruct Hop as [->|[]]. done. }
  destruct (cs_stashed y Hy _ _ Hin) as (worker & res & (tool & method & params & Hr) & _ & ->).
  destruct (cs_returned y Hy _ _ _ _ _ _ Hr) as [_ Hch].
  exists worker, tool, method, params, res, before, (sl_bytes s), after. split_and!; try done.
  destruct Hw as [->|Hu]; [by left|]. rewrite Hdata in Hu. injection Hu as <-. by right.
Qed.


(** A worker only gets the workspace of its task: whatever the tasks did
    before, the entry a step's worker is acquired with is the registered one or, for a
    tool that asks for a workspace, the registered one with write access to the
    directory that was last registered for the step's own task and not purged since. *)
Theorem workspace_is_of_the_task y task_id step b w' new entry worker :
  reachable y ->
  begin_step clock iter_order env task_id step (sy_world y) (sy_trace y) = (Ok b, w', new ++ sy_trace y) ->
  SeAcquire task_id (st_tool step) entry worker ∈ new ->
  exists base, registry_lookup (se_registry env) (st_tool step) = Some base /\
    (entry = base \/
     wants_workspace_out (st_tool step) = true /\ exists dir, out_dir_of task_id (sy_trace y) = Some dir /\
       entry = with_policy base (apply_workspace_out (te_policy base) dir)).
Proof.
  intros Hy%reachable_consistent Hrun Hin.
  destruct (begin_step_runs clock iter_order env task_id step (sy_world y) (sy_trace y)) as (b' & w1 & new' & E & Hb).
  rewrite Hrun in E. injection E as <- <- E. apply app_inv_tail in E as <-.
  destruct Hb as [x rs|x rs code detail|base wk x0 x r s x' ht Hh Hl ent Ha Hd].
  - apply list_elem_of_fmap in Hin as (? & [=] & _).
  - apply list_elem_of_fmap in Hin as (? & [=] & _).
  - exists base. split; [done|]. rewrite elem_of_cons, elem_of_app, list_elem_of_singleton in Hin.
    destruct Hin as [[=]|[Hin|[= -> ->]]]; [by apply list_elem_of_fmap in Hin as (? & [=] & _)|].
    unfold ent, task_entry, apply_task_out. destruct (wants_workspace_out (st_tool step)); [|by left]. cbn [negb].
    rewrite <- (cs_out y Hy). destruct (dw_out_dirs (sy_world y) !! task_id) as [dir|]; [|by left]. right. split; [done|]. by exists dir.
Qed.
(** The calls of workers in a trace. *)
Definition step_call (e : StepEvent) : list (bytes * Value * result Value ClientError) :=
  match e with SeHost _ (EvCall m p a) => [(m, p, a)] | _ => [] end.
Definition step_calls (t : list StepEvent) : list (bytes * Value * result Value ClientError) := flat_map step_call t.

Lemma step_calls_host n ht : step_calls (map (SeHost n) ht) = calls ht.
Proof. unfold step_calls, calls. induction ht as [|e ht IH]; [done|]. cbn [map flat_map]. rewrite IH. by destruct e. Qed.

Lemma step_calls_none l : (forall e, e ∈ l -> step_call e = []) -> step_calls l = [].
Proof. unfold step_calls. induction l as [|e l IH]; intros Hl; [done|]. cbn [flat_map]. rewrite Hl, IH; [done| |left]. intros e' He. apply Hl. by right. Qed.

Lemma oversized_spec task_id r v : oversized task_id r = Some v -> r = Ok v /\ 0 < task_id /\ DEFAULT_RESULT_BYTE_CAP < len (to_string v).
Proof.
  unfold oversized. destruct r as [u|]; [|done]. destruct (_ && _) eqn:E; [|done]. intros [= ->].
  apply andb_true_iff in E as [?%Z.ltb_lt ?%Z.ltb_lt]. done.
Qed.

Lemma not_oversized task_id v : oversized task_id (Ok v) = None -> task_id <= 0 \/ len (to_string v) <= DEFAULT_RESULT_BYTE_CAP.
Proof. unfold oversized. destruct (_ && _) eqn:E; [done|]. intros _. apply andb_false_iff in E as [?%Z.ltb_ge|?%Z.ltb_ge]; auto. Qed.

End Sharing.

(** Method completion is exact: a step's method is replaced exactly when it is
    not advertised, has no dot and is the name of precisely one advertised method after
    its dot, and by that method. *)
Theorem qualified_method_iff requested advertised m :
  qualified_method requested advertised = Some m <->
  requested ∉ advertised /\ 46 ∉ requested /\
  exists l1 l2, advertised = l1 ++ m :: l2 /\ (exists ns, m = ns ++ bs "." ++ requested) /\
    forall ns, ns ++ bs "." ++ requested ∉ l1 ++ l2.
Proof.
  unfold qualified_method. destruct (bool_decide (requested ∈ advertised)) eqn:E1; [apply bool_decide_eq_true in E1; split; [done|by intros []]|].
  apply bool_decide_eq_false in E1. destruct (bool_decide (46 ∈ requested)) eqn:E2; [apply bool_decide_eq_true in E2; split; [done|by intros (_ & [] & _)]|].
  apply bool_decide_eq_false in E2. set (f := ends_with (bs "." ++ requested)).
  assert (forall l, List.filter f l = [] <-> forall ns, ns ++ bs "." ++ requested ∉ l) as Hnil.
  { intros l. split.
    - intros Hl ns Hin. assert (ns ++ bs "." ++ requested ∈ List.filter f l) as Hx; [|rewrite Hl in Hx; by apply elem_of_nil in Hx].
      apply list_elem_of_In, filter_In. split; [by apply list_elem_of_In|]. apply ends_with_true. by exists ns.
    - intros Hl. destruct (List.filter f l) as [|x xs] eqn:Ef; [done|]. assert (In x (List.filter f l)) as Hx by (rewrite Ef; by left).
      apply filter_In in Hx as [Hin Hx]. apply ends_with_true in Hx as [ns ->]. destruct (Hl ns). by apply list_elem_of_In. }
  split.
  - intros Hq. destruct (List.filter f advertised) as [|x [|]] eqn:Ef; try done. injection Hq as ->. split_and!; [done|done|].
    assert (In m (List.filter f advertised)) as Hm by (rewrite Ef; by left). apply filter_In in Hm as [Hin Hm].
    apply in_split in Hin as (l1 & l2 & ->). exists l1, l2. split; [done|]. split; [by apply ends_with_true|]. apply Hnil.
    rewrite List.filter_app in Ef |- *. cbn [List.filter] in Ef. rewrite Hm in Ef.
    destruct (List.filter f l1) as [|a l]; [by injection Ef|]. injection Ef as -> Ef. by destruct l.
  - intros (_ & _ & l1 & l2 & -> & Hm & Hns). apply Hnil in Hns. rewrite List.filter_app in Hns |- *. cbn [List.filter].
    apply app_eq_nil in Hns as [-> ->]. apply ends_with_true in Hm. fold f in Hm. by rewrite Hm.
Qed.

Lemma neutralise_groups s : starts_char s ->
  groups (neutralise_controls s) = map (fun g => if is_neutralised_control (decode_group g) then [32] else g) (groups s).
Proof.
  intros Hs. unfold neutralise_controls. apply groups_concat_wf, List.Forall_map. eapply list.Forall_impl; [exact (groups_wf s Hs)|].
  intros g Hg. cbn. destruct (is_neutralised_control (decode_group g)); [|done]. by split; [|constructor].
Qed.

Lemma starts_char_take n s : starts_char s -> starts_char (concat (take n (groups s))).
Proof.
  intros Hs. destruct n as [|n]; [done|]. destruct s as [|b s]; [done|]. destruct (groups_cons b s) as (g & gs & ->). exact Hs.
Qed.

(** The line for the operator cannot be forged: of the detail a worker sent with a
    credential refusal at most 200 characters reach the log, each the worker's own
    character at that place or a space, and none is a control character, a line
    separator or a bidirectional control. *)
Theorem operator_line_is_neutral code detail line :
  starts_char detail ->
  upstream_auth_failure_detail (StepErr code detail) = Some line ->
  (length (chars line) <= STEP_ERR_DETAIL_MAX)%nat /\
  Forall (fun c => is_neutralised_control c = false) (chars line) /\
  Forall2 (fun shown sent => shown = sent \/ shown = 32) (chars line) (take STEP_ERR_DETAIL_MAX (chars detail)).
Proof.
  intros Hs. unfold upstream_auth_failure_detail. destruct (bytes_eqb _ _); [|done]. intros [= <-].
  assert (groups (concat (take STEP_ERR_DETAIL_MAX (groups detail))) = take STEP_ERR_DETAIL_MAX (groups detail)) as Hg.
  { apply groups_concat_wf, Forall_take, groups_wf, Hs. }
  unfold chars. rewrite neutralise_groups by (by apply starts_char_take). rewrite Hg.
  split_and!.
  - rewrite !length_map, length_take. lia.
  - rewrite map_map. apply List.Forall_map, list.Forall_true. intros g. by destruct (is_neutralised_control (decode_group g)) eqn:E.
  - rewrite map_map, firstn_map. clear Hg. induction (take STEP_ERR_DETAIL_MAX (groups detail)) as [|g gs IH]; cbn [map]; constructor; [|exact IH].
    destruct (is_neutralised_control (decode_group g)); [by right|by left].
Qed.

(** No error is lost or disguised as a result: the outcome of a dispatch is an
    error exactly when the dispatch failed, a refusal of the worker keeps its message
    and the name of its code, and codes with a name of their own keep it apart from
    every other code. *)
Theorem dispatch_errors_are_mapped debug r :
  (forall v, map_dispatch_result debug r = StepOk v <-> r = Ok v) /\
  (forall e, r = Err (Protocol (Rpc e)) -> map_dispatch_result debug r = StepErr (rpc_code_name (re_code e)) (re_message e)) /\
  (forall a b, rpc_code_name a = rpc_code_name b -> a = b \/ rpc_code_name a = bs "RPC_ERROR").
Proof.
  split_and!.
  - intros v. destruct r as [u|[| |[]| |]]; cbn; split; try done; by intros [= ->].
  - by intros e ->.
  - intros a b. unfold rpc_code_name.
    repeat match goal with |- context [a =? ?c] => destruct (Z.eqb_spec a c) as [Ha|_] end; [..|by right]; intros E; left;
      revert E; repeat match goal with |- context [b =? ?c] => destruct (Z.eqb_spec b c) as [Hb|_] end; intros E; try congruence; by vm_compute in E.
Qed.

(** * Witnesses *)

(** Two tools, whose workers echo their parameters. *)
Definition demo_entry : ToolEntry := mkToolEntry (bs "/bin/mail") default_policy None SingleUse None None None false None.
Definition demo_registry : ToolRegistry :=
  set_methods (bs "mail") [bs "mail.search"] (registry_insert (bs "mail") demo_entry (mkRegistry ∅ ∅)).
Definition demo_steps : StepEnv () := {|
  se_registry := demo_registry; se_acquire _ _ x := (Ok 7%nat, x); se_release _ _ x := x; se_host _ := echo_host 0;
  se_sink _ x := (true, x); se_elapsed_ms x := (1, x); se_f32 := int_value; se_debug _ := [] |}.
Definition demo_step_of (tool method : bytes) (params : Value) : PlannedStep := mkStep tool method params [] [] Public.
(** A result of 80 kilobytes of JSON. *)
Definition demo_big : Value := Array (repeat (Number (NInt 0)) (Z.to_nat 40000)).
Definition demo_start : StepWorld () := mkStepWorld (demo_vault 100) empty_cache ∅ tt.
Definition demo_begun := begin_step demo_clock id demo_steps 1 (demo_step_of (bs "mail") (bs "search") demo_big) demo_start [].
Definition demo_pending : Pending :=
  match demo_begun.1.1 with Ok (inr p) => p | _ => mkPending (demo_step_of [] [] Null) 0 [] (Ok Null) end.
Definition demo_finished := finish_step demo_steps 1 demo_pending demo_begun.1.2 demo_begun.2.
Definition demo_stashed : StepSystem () := mkStepSystem demo_finished.1.2 [] demo_finished.2.
Definition demo_fetch : PlannedStep := demo_step_of (bs "handoff") (bs "handoff.fetch")
  (object [(bs "handoff_ref", String (handoff_ref_of (to_string demo_big))); (bs "len", int_value 4)]).
Definition demo_fetched := dispatch_step demo_clock id demo_steps 1 demo_fetch (sy_world demo_stashed) (sy_trace demo_stashed).

Lemma outcome_parts {A W T} (o : result A Empty_set * W * T) : exists a, o = (Ok a, o.1.2, o.2).
Proof. destruct o as [[[a|[]] w] t]. by exists a. Qed.

Lemma fetched_parts {W T} (o : result StepOutcome Empty_set * W * T) d :
  match o.1.1 with Ok (StepOk v) => get (bs "data") v ≫= as_str | _ => None end = Some d ->
  exists v, o = (Ok (StepOk v), o.1.2, o.2) /\ (get (bs "data") v ≫= as_str) = Some d.
Proof. destruct o as [[[[v|]|[]] w] t]; [|done]. intros E. by exists v. Qed.

Lemma demo_begun_pending : demo_begun = (Ok (inr demo_pending), demo_begun.1.2, demo_begun.2).
Proof.
  assert (match demo_begun.1.1 with Ok (inr _) => true | _ => false end = true) as Hb by (vm_compute; reflexivity).
  unfold demo_pending. by destruct demo_begun as [[[[o|p]|[]] w] t].
Qed.

Lemma demo_stashed_reachable : reachable demo_clock id demo_steps demo_stashed.
Proof.
  destruct (outcome_parts demo_finished) as [o Ho]. eapply ReachStep; [|exact (SyFinish demo_clock id demo_steps 1 demo_pending _ [] [] _ _ _ _ Ho)].
  eapply ReachStep; [apply ReachStart|]. exact (SyBegin _ _ _ _ _ _ [] _ _ _ _ demo_begun_pending).
Qed.

Lemma fetched_data_is_own_and_screened_witness :
  exists result before slice after, to_string result = before ++ slice ++ after /\ (bs "[0,0" = WITHHELD_DATA \/ bs "[0,0" = from_utf8_lossy slice).
Proof.
  destruct (fetched_parts demo_fetched (bs "[0,0")) as (v & Hv & Hd); [vm_compute; reflexivity|].
  destruct (fetched_data_is_own_and_screened demo_clock id demo_steps demo_stashed 1 demo_fetch v demo_fetched.1.2 demo_fetched.2 (bs "[0,0")
    demo_stashed_reachable eq_refl Hv Hd) as (_ & worker & tool & method & params & res & before & slice & after & _ & _ & _ & Hs & Hw).
  exists res, before, slice, after. exact (conj Hs Hw).
Defined.


Definition demo_mail := begin_step demo_clock id demo_steps 1 (demo_step_of (bs "mail") (bs "search") Null) demo_start [].

Lemma workspace_is_of_the_task_witness :
  exists base, registry_lookup (se_registry demo_steps) (bs "mail") = Some base.
Proof.
  destruct (outcome_parts demo_mail) as [o Ho]. rewrite <- (app_nil_r demo_mail.2) in Ho.
  destruct (workspace_is_of_the_task demo_clock id demo_steps (mkStepSystem demo_start [] []) 1 (demo_step_of (bs "mail") (bs "search") Null) _ _ _ demo_entry 7
    (ReachStart _ _ _ _ _) Ho) as (base & Hb & _); [apply list_elem_of_In; vm_compute; tauto|by exists base].
Defined.

Definition demo_small := dispatch_step demo_clock id demo_steps 1 (demo_step_of (bs "mail") (bs "search") (String demo_ref)) demo_start [].


Lemma operator_line_is_neutral_witness :
  Forall (fun c => is_neutralised_control c = false) (chars (bs "expired  [31m")).
Proof.
  apply (operator_line_is_neutral (bs "UPSTREAM_AUTH_FAILED") (bs "expired" ++ [10; 27] ++ bs "[31m") (bs "expired  [31m")); vm_compute; reflexivity.
Defined.
