(* ===== verification/AuditLog.v ===== *)
(** The audit log (src/db/src/audit.rs with its modules truncate.rs, req_summary.rs,
    nul_escape.rs, insert_outcome.rs and insert_cause.rs) and its mirror on disk
    (src/core/src/audit_mirror.rs): what of a payload is stored, what a failed insert
    says, and which rows reach the JSONL files.

    Postgres and the file system are a world.  The formatting of times is a parameter.
    Byte strings of a [Value] hold bytes, and a float's text is printable, wherever a
    theorem speaks of the serialised text ([wf_text]). *)

From stdpp Require Import base list gmap sets numbers strings option pretty sorting.
From Stdlib Require Import ZArith Lia.
From S2P Require Import Prelude RustStr Fingerprint Json LoopPure AskMessage InjectionGuard ResultView NulRule Effects Secrets ToolHost Handoff Sandbox.
Local Open Scope Z_scope.

(** * nul_escape.rs *)

Definition NUL_ESCAPED_KEY : bytes := bs "_nul_escaped".

Definition escape_payload (payload : Value) : Value :=
  let '(v, count) := escape_value payload in
  if (0 <? count)%nat then
    match v with Object m => Object (map_insert NUL_ESCAPED_KEY (int_value (Z.of_nat count)) m) | _ => v end
  else v.

(** * req_summary.rs *)

Definition REQ_SUMMARY_KEY : bytes := bs "req_summary".
Definition HEAD_MAX_BYTES : nat := 512.

Definition char_boundary_prefix (s : bytes) (cap : nat) : bytes :=
  if (length s <=? cap)%nat then s else take (floor_boundary cap s) s.

(** * truncate.rs *)

Definition PAYLOAD_MAX_BYTES : Z := 4096.
Definition DROP_MARKER_RESERVE : Z := 96.
Definition TASK_ID_KEY : bytes := bs "task_id".
Definition PLAN_COUNT_KEY : bytes := bs "plan_count".
Definition PRESERVED_KEYS : list bytes := [GUARD_KEY; REQ_SUMMARY_KEY; NUL_ESCAPED_KEY; TASK_ID_KEY; PLAN_COUNT_KEY].
Definition DROPPED_PRESERVED_KEY : bytes := bs "_dropped_preserved".
Definition FINGERPRINT_SHA256_KEY : bytes := bs "sha256".
Definition FINGERPRINT_LEN_KEY : bytes := bs "len".
Definition TRUNCATED_MARKER_KEY : bytes := bs "_truncated".

Definition is_truncation_envelope (payload : Value) : bool :=
  match get TRUNCATED_MARKER_KEY payload with Some (Bool b) => b | _ => false end.

(** The loop of [preserve_onto]. *)
Fixpoint preserve_keys (source : list (bytes * Value)) (keys : list bytes) (envelope : list (bytes * Value)) (dropped : list bytes)
    : list (bytes * Value) * list bytes :=
  match keys with
  | [] => (envelope, dropped)
  | key :: rest =>
      match map_get key source with
      | None => preserve_keys source rest envelope dropped
      | Some value =>
          let displaced := map_get key envelope in
          let grown := map_insert key value envelope in
          if len (to_string (Object grown)) + DROP_MARKER_RESERVE <=? PAYLOAD_MAX_BYTES
          then preserve_keys source rest grown dropped
          else preserve_keys source rest
                 (match displaced with Some prev => map_insert key prev grown | None => map_remove key grown end) (dropped ++ [key])
      end
  end.

Definition preserve_onto (envelope source : list (bytes * Value)) (keys : list bytes) : Value :=
  let '(envelope, dropped) := preserve_keys source keys envelope [] in
  match dropped with
  | [] => Object envelope
  | _ => Object (map_insert DROPPED_PRESERVED_KEY (Array (map String dropped)) envelope)
  end.

Section Stored.
Context `{Sha256}.

Definition summarize_req (payload : Value) : option Value :=
  match payload with
  | Object m =>
      req ← map_get REQ_KEY m;
      let text := to_string req in
      Some (object [(bs "head", String (char_boundary_prefix text HEAD_MAX_BYTES)); (bs "sha256", String (sha256_hex (sha256 text)));
                    (bs "len", int_value (len text))])
  | _ => None
  end.

(** The fingerprint of an oversized payload's text. *)
Definition bare_envelope (text : bytes) : list (bytes * Value) :=
  map_insert FINGERPRINT_LEN_KEY (int_value (len text))
    (map_insert FINGERPRINT_SHA256_KEY (String (sha256_hex (sha256 text))) (map_insert TRUNCATED_MARKER_KEY (Bool true) [])).

Definition truncate_payload (payload : Value) : Value :=
  let payload := escape_payload payload in
  let text := to_string payload in
  if len text <=? PAYLOAD_MAX_BYTES then payload
  else
    let bare := bare_envelope text in
    let summary := summarize_req payload in
    match payload with
    | Object m =>
        let source := match summary with Some s => map_insert REQ_SUMMARY_KEY s m | None => map_remove REQ_SUMMARY_KEY m end in
        preserve_onto bare source PRESERVED_KEYS
    | _ => Object bare
    end.

Definition stored_form (row : AuditRow) : AuditRow :=
  mkRow (escape_str (ar_actor row)).1 (escape_str (ar_action row)).1 (truncate_payload (ar_payload row)).
End Stored.

(** * Sizes of serialised objects *)

Definition field_text (kv : bytes * Value) : bytes := json_string kv.1 ++ bs ":" ++ to_string kv.2.

(** What [join] of texts with a one-byte separator costs. *)
Definition joined_len (l : list bytes) : Z := fold_right (fun s n => len s + 1 + n) 0 l.

Lemma join_len c l : l <> [] -> len (join [c] l) + 1 = joined_len l.
Proof.
  induction l as [|x [|y l] IH]; intros Hl; [done|cbn; unfold len; lia|].
  change (join [c] (x :: y :: l)) with (x ++ [c] ++ join [c] (y :: l)). rewrite !len_app.
  specialize (IH ltac:(done)). change (joined_len (x :: y :: l)) with (len x + 1 + joined_len (y :: l)). unfold len at 2. cbn [length]. lia.
Qed.

Lemma joined_len_perm a b : a ≡ₚ b -> joined_len a = joined_len b.
Proof. induction 1 as [|x l l' _ IH|x y l|l l' l'' _ IH1 _ IH2]; cbn [joined_len fold_right] in *; unfold joined_len in *; lia. Qed.

Lemma object_len m : m <> [] -> len (to_string (Object m)) = 1 + joined_len (map field_text m).
Proof.
  intros Hm. cbn [to_string]. change (bs "{") with [123]. change (bs "}") with [125]. change (bs ",") with [44]. rewrite !len_app.
  change (map _ m) with (map field_text m). pose proof (join_len 44 (map field_text m)) as Hj. rewrite <- Hj by (by destruct m). unfold len. cbn [length]. lia.
Qed.

Lemma object_insert_len k v m : m <> [] -> k ∉ m.*1 ->
  len (to_string (Object (map_insert k v m))) = len (to_string (Object m)) + len (json_string k) + 2 + len (to_string v).
Proof.
  intros Hm Hk. pose proof (map_insert_perm k v m Hk) as Hp.
  rewrite !object_len; [|done|intros E; rewrite E in Hp; by apply Permutation_nil_cons in Hp].
  rewrite (joined_len_perm _ (map field_text ((k, v) :: m))) by (by apply fmap_Permutation).
  cbn [map joined_len fold_right]. unfold field_text at 1. cbn [fst snd]. change (bs ":") with [58]. rewrite !len_app. unfold len at 2. cbn [length].
  unfold joined_len. lia.
Qed.

Lemma map_remove_insert {A} k (v : A) m : k ∉ m.*1 -> map_remove k (map_insert k v m) = m.
Proof.
  induction m as [|[k' v'] m IH]; intros Hk; cbn [map_insert].
  - cbn [map_remove]. unfold bytes_eqb. by rewrite bool_decide_eq_true_2.
  - cbn [fmap list_fmap fst] in Hk. apply not_elem_of_cons in Hk as [Hne Hk]. unfold bytes_eqb at 1. rewrite bool_decide_eq_false_2 by done.
    destruct (bytes_ltb k k'); cbn [map_remove]; unfold bytes_eqb.
    + by rewrite bool_decide_eq_true_2.
    + rewrite bool_decide_eq_false_2 by done. by rewrite IH.
Qed.

(** ** The keys that are carried over *)

(** An envelope with room for the marker. *)
Definition has_room (m : list (bytes * Value)) : Prop := len (to_string (Object m)) + DROP_MARKER_RESERVE <= PAYLOAD_MAX_BYTES.

Lemma preserve_keys_spec source keys env dropped :
  NoDup keys -> (forall k, k ∈ keys -> k ∉ env.*1) -> keys_sorted env.*1 = true -> env <> [] -> has_room env ->
  exists d, (preserve_keys source keys env dropped).2 = dropped ++ d /\ d `sublist_of` keys /\
    let env' := (preserve_keys source keys env dropped).1 in
    has_room env' /\ keys_sorted env'.*1 = true /\ env' <> [] /\
    (forall k, k ∉ keys -> map_get k env' = map_get k env) /\
    (forall k, k ∈ keys -> k ∉ d -> map_get k env' = map_get k source) /\
    (forall k, k ∈ d -> map_get k env' = None /\ is_Some (map_get k source)).
Proof.
  revert env dropped. induction keys as [|key keys IH]; intros env dropped Hnd Hdis Hs Hne Hroom; cbn [preserve_keys].
  { exists []. rewrite app_nil_r. split_and!; try done; by intros k ?%elem_of_nil. }
  inversion Hnd as [|? ? Hnk Hnd']; subst. assert (key ∉ env.*1) as Hke by (apply Hdis; left).
  assert (map_get key env = None) as Hgk.
  { destruct (map_get key env) as [x|] eqn:E; [|done]. apply map_get_elem in E; [|done]. destruct Hke. apply list_elem_of_fmap. by exists (key, x). }
  destruct (map_get key source) as [value|] eqn:Eg.
  2: { destruct (IH env dropped) as (d & E1 & E2 & E3); [done|intros k ?; apply Hdis; by right|done..|]. destruct E3 as (R1 & R2 & R3 & R4 & R5 & R6).
       exists d. split_and!; [done|by apply sublist_cons|done..| | |done].
       - intros k [Hk1 Hk2]%not_elem_of_cons. by apply R4.
       - intros k [->|Hk]%elem_of_cons Hd; [|by apply R5]. by rewrite R4, Hgk, Eg by done. }
  rewrite Hgk. destruct (Z.leb_spec (len (to_string (Object (map_insert key value env))) + DROP_MARKER_RESERVE) PAYLOAD_MAX_BYTES) as [Hle|Hgt].
  - destruct (IH (map_insert key value env) dropped) as (d & E1 & E2 & E3); [done| |by apply map_insert_sorted| |done|].
    { intros k Hk. rewrite map_insert_keys. intros [->|Hin]; [done|]. revert Hin. apply Hdis. by right. }
    { intros E. pose proof (map_get_insert key value env) as Hg. by rewrite E in Hg. }
    destruct E3 as (R1 & R2 & R3 & R4 & R5 & R6). exists d. split_and!; [done|by apply sublist_cons|done..| | |done].
    + intros k [Hk1 Hk2]%not_elem_of_cons. rewrite R4 by done. by apply map_get_insert_ne.
    + intros k [->|Hk]%elem_of_cons Hd; [|by apply R5]. by rewrite R4, map_get_insert, Eg by done.
  - rewrite map_remove_insert by done. destruct (IH env (dropped ++ [key])) as (d & E1 & E2 & E3); [done|intros k ?; apply Hdis; by right|done..|].
    destruct E3 as (R1 & R2 & R3 & R4 & R5 & R6). exists (key :: d). rewrite E1, <- app_assoc. split_and!; [done|by apply sublist_skip|done..| | |].
    + intros k [Hk1 Hk2]%not_elem_of_cons. by apply R4.
    + intros k [->|Hk]%elem_of_cons [? Hd]%not_elem_of_cons; [done|by apply R5].
    + intros k [->|Hk]%elem_of_cons; [split; [by rewrite R4|by rewrite Eg]|by apply R6].
Qed.

(** ** Digits and hexadecimal *)

Lemma pretty_go_len k n s : (n < 10 ^ N.of_nat k)%N -> len (bs (pretty_N_go n s)) <= Z.of_nat k + len (bs s).
Proof.
  revert n s. induction k as [|k IH]; intros n s Hn.
  - change (10 ^ N.of_nat 0)%N with 1%N in Hn. assert (n = 0%N) as -> by lia. rewrite pretty_N_go_0. lia.
  - destruct (decide (n = 0%N)) as [->|Hz]; [rewrite pretty_N_go_0; lia|]. rewrite pretty_N_go_step by lia. etrans; [apply IH|].
    + apply N.Div0.div_lt_upper_bound. rewrite Nat2N.inj_succ, N.pow_succ_r' in Hn. lia.
    + cbn [bs]. unfold len. cbn [length]. lia.
Qed.

Lemma int_text_len z : 0 <= z <= USIZE_MAX -> len (to_string (int_value z)) <= 20.
Proof.
  intros Hz. cbn [to_string int_value num_text]. destruct z as [|p|p]; [by vm_compute| |lia].
  change (pretty (Z.pos p)) with (pretty (N.pos p)). unfold pretty, pretty_N. rewrite decide_False by done.
  etrans; [apply (pretty_go_len 20)|by vm_compute]. unfold USIZE_MAX in Hz. change (10 ^ N.of_nat 20)%N with 100000000000000000000%N. lia.
Qed.

Lemma sha256_hex_digits `{Sha256} s c : c ∈ sha256_hex (sha256 s) -> 48 <= c <= 102.
Proof.
  intros Hc. unfold sha256_hex in Hc. apply list_elem_of_In, in_flat_map in Hc as (x & Hx & Hc). apply list_elem_of_In in Hx, Hc.
  pose proof (sha256_bytes s) as Hb. rewrite list.Forall_forall in Hb. specialize (Hb x Hx). apply hex_fixed_digits in Hc; lia.
Qed.

Lemma flat_map_len (f : Z -> bytes) n s : (forall x, length (f x) = n) -> length (flat_map f s) = (length s * n)%nat.
Proof. intros Hf. induction s as [|x s IH]; [done|]. cbn [flat_map length]. rewrite length_app, Hf, IH. lia. Qed.

Lemma sha256_hex_len `{Sha256} s : length (sha256_hex (sha256 s)) = 64%nat.
Proof. unfold sha256_hex. rewrite (flat_map_len _ 2) by done. by rewrite sha256_length. Qed.

Lemma json_plain s : (forall c, c ∈ s -> 48 <= c <= 90 \/ 93 <= c) -> json_string s = [34] ++ s ++ [34].
Proof.
  intros Hs. unfold json_string. f_equal. f_equal. induction s as [|c s IH]; [done|]. cbn [flat_map]. rewrite IH by (intros; apply Hs; by right).
  pose proof (Hs c ltac:(left)) as Hc. unfold json_escape_byte.
  repeat match goal with |- context [c =? ?k] => destruct (Z.eqb_spec c k); [lia|] end. destruct (Z.ltb_spec c 32); [lia|]. done.
Qed.

(** ** Bytes of a serialised value *)

Definition byte_ok (c : Z) : bool := (0 <=? c) && (c <? 256).

(** Strings and keys hold bytes, and the text of a float is printable. *)
Fixpoint wf_text (v : Value) : bool :=
  match v with
  | Number (NFloat t) => forallb (fun c => 32 <=? c) t
  | String s => forallb byte_ok s
  | Array l => forallb wf_text l
  | Object m => forallb (fun kv => forallb byte_ok kv.1 && wf_text kv.2) m
  | _ => true
  end.

Definition printable_text (s : bytes) : Prop := Forall (fun c => 32 <= c) s.

Lemma json_escape_printable b : byte_ok b = true -> printable_text (json_escape_byte b).
Proof.
  unfold byte_ok. intros Hb. apply andb_true_iff in Hb as [H0%Z.leb_le H1%Z.ltb_lt]. unfold json_escape_byte.
  repeat match goal with |- context [if ?c then _ else _] => destruct c eqn:? end;
    try (apply (bool_decide_unpack _); by vm_compute); cbn [bs app]; repeat constructor; try (by vm_compute).
  - unfold ResultView.hex_digit. assert (0 <= b / 16) by (apply Z.div_pos; lia). destruct (Z.ltb_spec (b / 16) 10); lia.
  - unfold ResultView.hex_digit. pose proof (Z.mod_pos_bound b 16). destruct (Z.ltb_spec (b mod 16) 10); lia.
  - lia.
Qed.

Lemma json_string_printable s : forallb byte_ok s = true -> printable_text (json_string s).
Proof.
  intros Hs. unfold json_string, printable_text. rewrite !list.Forall_app. split; [by repeat constructor|]. split; [|by repeat constructor].
  rewrite forallb_forall in Hs. apply list.Forall_forall. intros c Hc. apply list_elem_of_In, in_flat_map in Hc as (b & Hb & Hc).
  apply list_elem_of_In in Hc. pose proof (json_escape_printable b (Hs b Hb)) as Hp. unfold printable_text in Hp. rewrite list.Forall_forall in Hp. auto.
Qed.

Lemma join_printable c l : 32 <= c -> Forall printable_text l -> printable_text (join [c] l).
Proof.
  intros Hc Hl. induction Hl as [|x [|y l] Hx Hl IH]; [constructor|done|].
  change (join [c] (x :: y :: l)) with (x ++ [c] ++ join [c] (y :: l)). unfold printable_text in *. rewrite !list.Forall_app.
  split; [done|]. split; [by repeat constructor|done].
Qed.

Lemma to_string_printable v : wf_text v = true -> printable_text (to_string v).
Proof.
  unfold printable_text. induction v as [|[]|[z|t]|s|l IH|m IH] using Value_ind'; cbn [wf_text to_string]; intros Hw; try by (apply (bool_decide_unpack _); vm_compute).
  - cbn [num_text]. eapply list.Forall_impl; [apply (show_z_decimal z)|]. cbn. intros c Hc. unfold is_decimal in Hc. lia.
  - cbn [num_text]. apply forallb_Forall in Hw. eapply list.Forall_impl; [exact Hw|]. cbn. lia.
  - by apply json_string_printable.
  - change (bs "[") with [91]. change (bs "]") with [93]. change (bs ",") with [44]. rewrite !list.Forall_app. split; [by repeat constructor|]. split; [|by repeat constructor].
    apply join_printable; [lia|]. apply List.Forall_map. apply forallb_Forall in Hw. rewrite list.Forall_forall in *. intros x Hx. by apply IH, Hw.
  - change (bs "{") with [123]. change (bs "}") with [125]. change (bs ",") with [44]. change (bs ":") with [58].
    rewrite !list.Forall_app. split; [by repeat constructor|]. split; [|by repeat constructor].
    apply join_printable; [lia|]. apply List.Forall_map. apply forallb_Forall in Hw. rewrite list.Forall_forall in *. intros [k x] Hx. cbn [fst snd].
    specialize (Hw _ Hx). cbn [fst snd] in Hw. apply andb_true_iff in Hw as [Hk Hv]. unfold printable_text. rewrite !list.Forall_app.
    split; [by apply json_string_printable|]. split; [by repeat constructor|]. by apply (IH (k, x)).
Qed.

(** ** Fields of edited objects *)

Section Fields.
Context (Q : bytes * Value -> Prop).

Lemma map_insert_all k v m : Q (k, v) -> Forall Q m -> Forall Q (map_insert k v m).
Proof.
  intros Hq Hm. induction Hm as [|[k' v'] m Hx Hm IH]; cbn [map_insert]; [by repeat constructor|].
  destruct (bytes_eqb k k'); [by constructor|]. destruct (bytes_ltb k k'); by repeat constructor.
Qed.

Lemma map_remove_all k m : Forall Q m -> Forall Q (map_remove k m).
Proof. intros Hm. induction Hm as [|[k' v'] m Hx Hm IH]; cbn [map_remove]; [constructor|]. destruct (bytes_eqb k k'); [done|by constructor]. Qed.

Lemma map_get_all k v m : Forall Q m -> map_get k m = Some v -> Q (k, v).
Proof.
  intros Hm. induction Hm as [|[k' v'] m Hx Hm IH]; cbn [map_get]; [done|]. destruct (bytes_eqb k k') eqn:E; [|done].
  apply bytes_eqb_eq in E as <-. by intros [= ->].
Qed.

Lemma preserve_keys_all source keys env dropped : Forall Q source -> Forall Q env -> Forall Q (preserve_keys source keys env dropped).1.
Proof.
  intros Hs. revert env dropped. induction keys as [|key keys IH]; intros env dropped He; cbn [preserve_keys]; [done|].
  destruct (map_get key source) as [value|] eqn:Eg; [|by apply IH]. pose proof (map_get_all key value source Hs Eg) as Hq.
  destruct (_ <=? _); [by apply IH, map_insert_all|]. apply IH. destruct (map_get key env) as [prev|] eqn:Ep.
  - apply map_insert_all; [by eapply map_get_all|by apply map_insert_all].
  - by apply map_remove_all, map_insert_all.
Qed.
End Fields.

Lemma map_get_remove_ne {A} k k' (m : list (bytes * A)) : k <> k' -> map_get k (map_remove k' m) = map_get k m.
Proof.
  intros Hne. induction m as [|[k0 v0] m IH]; [done|]. cbn [map_remove]. destruct (bytes_eqb k' k0) eqn:E.
  - apply bytes_eqb_eq in E as <-. cbn [map_get]. apply bytes_eqb_false in Hne. by rewrite Hne.
  - cbn [map_get]. by rewrite IH.
Qed.

Lemma map_get_remove {A} k (m : list (bytes * A)) : keys_sorted m.*1 = true -> map_get k (map_remove k m) = None.
Proof.
  intros Hs. destruct (map_get k (map_remove k m)) as [v|] eqn:E; [|done]. apply map_get_elem in E; [|by apply map_remove_sorted].
  assert (NoDup m.*1) as Hnd by (by apply keys_sorted_nodup).
  destruct (map_get k m) as [u|] eqn:Eu.
  - pose proof (map_remove_perm k u m Eu) as Hp. rewrite (fmap_Permutation fst _ _ Hp) in Hnd. cbn in Hnd. inversion Hnd as [|? ? Hn _]; subst.
    destruct Hn. apply list_elem_of_fmap. by exists (k, v).
  - apply map_get_None in Eu. destruct Eu. assert (forall x, x ∈ map_remove k m -> x ∈ m) as Hsub.
    { clear. induction m as [|[k' v'] m IH]; [done|]. cbn [map_remove]. destruct (bytes_eqb k k'); intros x; set_solver. }
    apply list_elem_of_fmap. exists (k, v). split; [done|by apply Hsub].
Qed.

(** ** The escaped payload *)

Definition field_ok (kv : bytes * Value) : Prop := forallb byte_ok kv.1 = true /\ wf_text kv.2 = true.
Definition field_clean (kv : bytes * Value) : Prop := has_nul kv.1 = false /\ json_contains_nul kv.2 = false.

Lemma escape_str_bytes s : forallb byte_ok s = true -> forallb byte_ok (escape_str s).1 = true.
Proof.
  intros Hs. unfold escape_str. destruct (count_nuls s =? 0)%nat; [done|]. cbn [fst]. rewrite forallb_forall in *. intros c Hc.
  apply in_flat_map in Hc as (b & Hb & Hc). unfold escape_byte in Hc. destruct (b =? 0); [|by destruct Hc as [<-|[]]; auto].
  by destruct Hc as [<-|[<-|[<-|[]]]].
Qed.

Lemma rekey_fields m : Forall field_ok m -> Forall field_ok (rekey m).
Proof.
  intros Hm. unfold rekey. assert (Forall (fun k => forallb byte_ok k = true) (List.filter has_nul m.*1)) as Hk.
  { apply list.Forall_forall. intros k Hk%list_elem_of_In. apply filter_In in Hk as [Hk _]. apply list_elem_of_In, list_elem_of_fmap in Hk as (kv & -> & Hin).
    rewrite list.Forall_forall in Hm. by apply Hm. }
  revert Hk. generalize (List.filter has_nul m.*1). intros ks Hk. revert m Hm. induction Hk as [|k ks Hk Hks IH]; intros m Hm; [done|].
  cbn [fold_left]. apply IH. unfold rekey_one. destruct (map_get k m) as [v|] eqn:E; [|done].
  apply map_insert_all; [|by apply map_remove_all]. destruct (map_get_all _ _ _ _ Hm E) as [_ Hv]. split; [|done]. cbn [fst].
  destruct (fresh_key_padded (S (length (map_remove k m))) (escape_str k).1 (map_remove k m)) as (n & _ & -> & _).
  pose proof (escape_str_bytes k Hk) as Hb. revert Hb. generalize (escape_str k).1. induction n as [|n IHn]; intros s Hs; [done|].
  cbn [padded]. apply IHn. by rewrite forallb_app, Hs.
Qed.

Lemma wf_text_object m : wf_text (Object m) = true <-> Forall field_ok m.
Proof.
  cbn [wf_text]. rewrite forallb_Forall, !list.Forall_forall. unfold field_ok. setoid_rewrite andb_true_iff. done.
Qed.

Lemma escape_value_text v : wf_text v = true -> wf_text (escape_value v).1 = true.
Proof.
  induction v as [|b|n|s|l IH|m IH] using Value_ind'; intros Hw; try done.
  - cbn [escape_value]. pose proof (escape_str_bytes s Hw) as Hs. destruct (escape_str s) as [s' k]. exact Hs.
  - cbn [escape_value fst wf_text] in *. apply forallb_Forall in Hw. apply forallb_Forall, List.Forall_map. rewrite list.Forall_forall in *. auto.
  - apply wf_text_object in Hw. cbn [escape_value fst]. apply wf_text_object, rekey_fields, List.Forall_map. rewrite list.Forall_forall in *.
    intros kv Hin. destruct (Hw kv Hin). split; [done|]. by apply IH.
Qed.

Lemma clean_object m : json_contains_nul (Object m) = false <-> Forall field_clean m.
Proof. cbn [json_contains_nul]. rewrite existsb_Forall, !list.Forall_forall. unfold field_clean. setoid_rewrite orb_false_iff. done. Qed.

Lemma escape_payload_ok p : canonical p = true -> wf_text p = true ->
  json_contains_nul (escape_payload p) = false /\ canonical (escape_payload p) = true /\ wf_text (escape_payload p) = true.
Proof.
  intros Hc Hw. unfold escape_payload. pose proof (escape_value_ok p Hc) as (H1 & H2 & _). pose proof (escape_value_text p Hw) as H3.
  destruct (escape_value p) as [v n]. cbn [fst snd] in *. destruct (0 <? n)%nat; [|done]. destruct v as [| | | | |m]; try done. split_and!.
  - apply clean_object, map_insert_all; [done|by apply clean_object].
  - cbn [canonical] in *. apply andb_true_iff in H2 as [Hk Hf]. rewrite map_insert_sorted by done. cbn [andb].
    apply forallb_Forall in Hf. by apply forallb_Forall, (map_insert_all (fun kv => canonical kv.2 = true)).
  - apply wf_text_object, map_insert_all; [done|by apply wf_text_object].
Qed.

Lemma preserve_keys_dropped source keys env dropped : exists d, (preserve_keys source keys env dropped).2 = dropped ++ d /\ d `sublist_of` keys.
Proof.
  revert env dropped. induction keys as [|key keys IH]; intros env dropped; cbn [preserve_keys]; [exists []; by rewrite app_nil_r|].
  destruct (map_get key source) as [value|].
  2: { destruct (IH env dropped) as (d & -> & Hd). exists d. split; [done|by apply sublist_cons]. }
  destruct (_ <=? _).
  - destruct (IH (map_insert key value env) dropped) as (d & -> & Hd). exists d. split; [done|by apply sublist_cons].
  - match goal with |- context [preserve_keys source keys ?e _] => destruct (IH e (dropped ++ [key])) as (d & -> & Hd) end.
    exists (key :: d). rewrite <- app_assoc. split; [done|by apply sublist_skip].
Qed.

Section Envelope.
Context `{Sha256}.

Lemma bare_envelope_eq text : bare_envelope text =
  [(TRUNCATED_MARKER_KEY, Bool true); (FINGERPRINT_LEN_KEY, int_value (len text)); (FINGERPRINT_SHA256_KEY, String (sha256_hex (sha256 text)))].
Proof. reflexivity. Qed.

Lemma hex_string_len s : len (to_string (String (sha256_hex (sha256 s)))) = 66.
Proof.
  cbn [to_string]. rewrite json_plain.
  - unfold len. rewrite !length_app, sha256_hex_len. done.
  - intros c Hc. unfold sha256_hex in Hc. apply list_elem_of_In, in_flat_map in Hc as (x & Hx & Hc). apply list_elem_of_In in Hx, Hc.
    pose proof (sha256_bytes s) as Hb. rewrite list.Forall_forall in Hb. specialize (Hb x Hx). apply hex_fixed_digits in Hc; lia.
Qed.

Lemma bare_len text : len text <= USIZE_MAX -> len (to_string (Object (bare_envelope text))) <= 122.
Proof.
  intros Ht. rewrite object_len by done. rewrite bare_envelope_eq. cbn [map joined_len fold_right]. unfold field_text. cbn [fst snd]. rewrite !len_app.
  rewrite hex_string_len. pose proof (int_text_len (len text)) as Hi. assert (0 <= len text) by (unfold len; lia).
  assert (len (json_string TRUNCATED_MARKER_KEY) = 12 /\ len (json_string FINGERPRINT_LEN_KEY) = 5 /\ len (json_string FINGERPRINT_SHA256_KEY) = 8
    /\ len (bs ":") = 1 /\ len (to_string (Bool true)) = 4) as (-> & -> & -> & -> & ->) by (by vm_compute). lia.
Qed.

Lemma bare_room text : len text <= USIZE_MAX -> has_room (bare_envelope text).
Proof. intros Ht%bare_len. unfold has_room, DROP_MARKER_RESERVE, PAYLOAD_MAX_BYTES. lia. Qed.

Lemma preserved_apart text k : k ∈ PRESERVED_KEYS -> k ∉ (bare_envelope text).*1.
Proof.
  rewrite bare_envelope_eq. intros Hk Hin. cbn [fmap list_fmap fst] in Hin. revert k Hk Hin.
  apply (proj1 (list.Forall_forall (fun k => k ∉ [TRUNCATED_MARKER_KEY; FINGERPRINT_LEN_KEY; FINGERPRINT_SHA256_KEY]) PRESERVED_KEYS)), (bool_decide_unpack _).
  by vm_compute.
Qed.

Lemma preserved_nodup : NoDup PRESERVED_KEYS.
Proof. apply (bool_decide_unpack _). by vm_compute. Qed.

(** What [preserve_onto] makes of the fingerprint. *)
Lemma preserve_onto_spec text source : len text <= USIZE_MAX ->
  exists env dropped, preserve_keys source PRESERVED_KEYS (bare_envelope text) [] = (env, dropped) /\
    dropped `sublist_of` PRESERVED_KEYS /\ has_room env /\ keys_sorted env.*1 = true /\ env <> [] /\
    (forall k, k ∉ PRESERVED_KEYS -> map_get k env = map_get k (bare_envelope text)) /\
    (forall k, k ∈ PRESERVED_KEYS -> k ∉ dropped -> map_get k env = map_get k source) /\
    (forall k, k ∈ dropped -> map_get k env = None /\ is_Some (map_get k source)).
Proof.
  intros Ht. destruct (preserve_keys_spec source PRESERVED_KEYS (bare_envelope text) []) as (d & E1 & E2 & R).
  { apply preserved_nodup. }
  { apply preserved_apart. }
  { by rewrite bare_envelope_eq. }
  { by rewrite bare_envelope_eq. }
  { by apply bare_room. }
  destruct (preserve_keys source PRESERVED_KEYS (bare_envelope text) []) as [env dropped]. cbn [fst snd app] in *. subst dropped. by exists env, d.
Qed.

Lemma joined_sublist (f : bytes -> bytes) a b : a `sublist_of` b -> joined_len (map f a) <= joined_len (map f b).
Proof. induction 1 as [|x l l' _ IH|x l l' _ IH]; [done| |]; cbn [map joined_len fold_right]; unfold joined_len, len in *; lia. Qed.

Lemma marker_len dropped : dropped `sublist_of` PRESERVED_KEYS -> dropped <> [] ->
  len (json_string DROPPED_PRESERVED_KEY) + 2 + len (to_string (Array (map String dropped))) <= DROP_MARKER_RESERVE.
Proof.
  intros Hs Hne. cbn [to_string]. change (bs "[") with [91]. change (bs "]") with [93]. change (bs ",") with [44]. rewrite !len_app, map_map.
  pose proof (join_len 44 (map (fun k => to_string (String k)) dropped) ltac:(by destruct dropped)) as Hj.
  pose proof (joined_sublist (fun k => to_string (String k)) _ _ Hs) as Hl.
  assert (joined_len (map (fun k => to_string (String k)) PRESERVED_KEYS) = 60) as E by (by vm_compute).
  assert (len (json_string DROPPED_PRESERVED_KEY) = 20 /\ len [91] = 1 /\ len [93] = 1) as (-> & -> & ->) by (by vm_compute).
  unfold DROP_MARKER_RESERVE. lia.
Qed.

Lemma marker_apart env text : (forall k, k ∉ PRESERVED_KEYS -> map_get k env = map_get k (bare_envelope text)) -> DROPPED_PRESERVED_KEY ∉ env.*1.
Proof.
  intros Hg Hin. assert (DROPPED_PRESERVED_KEY ∉ PRESERVED_KEYS) as Hn by (apply (bool_decide_unpack _); by vm_compute).
  apply Hg in Hn. assert (map_get DROPPED_PRESERVED_KEY (bare_envelope text) = None) as E by reflexivity. rewrite E in Hn. by apply map_get_None in Hn.
Qed.

Lemma preserved_fits text source : len text <= USIZE_MAX ->
  len (to_string (preserve_onto (bare_envelope text) source PRESERVED_KEYS)) <= PAYLOAD_MAX_BYTES.
Proof.
  intros Ht. destruct (preserve_onto_spec text source Ht) as (env & d & E & Hd & Hr & _ & Hne & Hg & _). unfold preserve_onto. rewrite E.
  unfold has_room, DROP_MARKER_RESERVE in Hr. destruct d as [|x d]; [lia|].
  rewrite object_insert_len; [|done|by eapply marker_apart]. pose proof (marker_len (x :: d) Hd ltac:(done)). unfold DROP_MARKER_RESERVE in *. lia.
Qed.

Lemma truncate_fits p : len (to_string (escape_payload p)) <= USIZE_MAX -> len (to_string (truncate_payload p)) <= PAYLOAD_MAX_BYTES.
Proof.
  intros Ht. unfold truncate_payload. destruct (Z.leb_spec (len (to_string (escape_payload p))) PAYLOAD_MAX_BYTES); [done|].
  destruct (escape_payload p) as [| | | | |m] eqn:E; try (etrans; [by apply bare_len|by vm_compute]). by apply preserved_fits.
Qed.

(** C32. Every stored payload fits: whatever is handed to the audit log, the JSON
    that is written has at most 4096 bytes. *)
Theorem stored_payload_fits row :
  len (to_string (escape_payload (ar_payload row))) <= USIZE_MAX ->
  len (to_string (ar_payload (stored_form row))) <= PAYLOAD_MAX_BYTES.
Proof. apply truncate_fits. Qed.

Lemma printable_no_nul s : printable_text s -> has_nul s = false.
Proof. intros Hs. unfold has_nul. apply existsb_Forall. eapply list.Forall_impl; [exact Hs|]. cbn. intros c Hc. by apply Z.eqb_neq; lia. Qed.

Lemma hex_no_nul s : has_nul (sha256_hex (sha256 s)) = false.
Proof. apply existsb_Forall, list.Forall_forall. intros c Hc%sha256_hex_digits. apply Z.eqb_neq. lia. Qed.

Lemma summary_clean m s : Forall field_ok m -> summarize_req (Object m) = Some s -> json_contains_nul s = false.
Proof.
  intros Hm. cbn [summarize_req]. destruct (map_get REQ_KEY m) as [req|] eqn:E; [|done]. cbn [mbind option_bind]. intros [= <-].
  destruct (map_get_all _ _ _ _ Hm E) as [_ Hq]. cbn [snd] in Hq. apply to_string_printable in Hq. unfold object. cbn [fold_left fst snd]. apply clean_object.
  assert (forall t, has_nul t = false -> json_contains_nul (String t) = false) as Hstr by done.
  repeat apply map_insert_all; try (split; [by vm_compute|]); [done|apply Hstr, hex_no_nul| |constructor].
  apply Hstr, printable_no_nul. unfold char_boundary_prefix. destruct (_ <=? _)%nat; [done|by apply Forall_take].
Qed.

Lemma truncated_clean p : canonical p = true -> wf_text p = true -> json_contains_nul (truncate_payload p) = false.
Proof.
  intros Hc Hw. destruct (escape_payload_ok p Hc Hw) as (H1 & _ & H3). unfold truncate_payload.
  destruct (_ <=? _); [done|]. assert (forall text, Forall field_clean (bare_envelope text)) as Hbare.
  { intros text. rewrite bare_envelope_eq. repeat constructor; try (by vm_compute). cbn [snd json_contains_nul]. apply hex_no_nul. }
  destruct (escape_payload p) as [| | | | |m]; try (apply clean_object, Hbare).
  apply clean_object in H1. apply wf_text_object in H3. unfold preserve_onto. set (text := to_string (Object m)).
  assert (Forall field_clean (match summarize_req (Object m) with Some s => map_insert REQ_SUMMARY_KEY s m | None => map_remove REQ_SUMMARY_KEY m end)) as Hs.
  { destruct (summarize_req (Object m)) as [s|] eqn:Es; [|by apply map_remove_all]. apply map_insert_all; [|done]. split; [done|]. by eapply summary_clean. }
  revert Hs. generalize (match summarize_req (Object m) with Some s => map_insert REQ_SUMMARY_KEY s m | None => map_remove REQ_SUMMARY_KEY m end). intros source Hs.
  pose proof (preserve_keys_all field_clean source PRESERVED_KEYS (bare_envelope text) [] Hs (Hbare text)) as He.
  assert (forall d, d `sublist_of` PRESERVED_KEYS -> json_contains_nul (Array (map String d)) = false) as Hd.
  { intros d Hd. cbn [json_contains_nul]. apply existsb_Forall, List.Forall_map. cbn [json_contains_nul].
    assert (Forall (fun k => has_nul k = false) PRESERVED_KEYS) as Hall by (apply (bool_decide_unpack _); by vm_compute).
    rewrite list.Forall_forall in *. intros k Hk. apply Hall. eapply elem_of_submseteq; [exact Hk|by apply sublist_submseteq]. }
  pose proof (preserve_keys_dropped source PRESERVED_KEYS (bare_envelope text) []) as Hsub. destruct (preserve_keys source PRESERVED_KEYS (bare_envelope text) []) as [env d].
  cbn [fst snd app] in *. destruct Hsub as (d' & -> & Hsub). destruct d' as [|x d']; [by apply clean_object|]. apply clean_object, map_insert_all; [|done]. split; [done|by apply Hd].
Qed.
(** Storing is idempotent: the tool path applies the storage transform twice,
    and the second pass changes nothing; what is stored holds no NUL. *)
Theorem stored_form_idempotent row :
  canonical (ar_payload row) = true -> wf_text (ar_payload row) = true ->
  len (to_string (escape_payload (ar_payload row))) <= USIZE_MAX ->
  stored_form (stored_form row) = stored_form row /\
  has_nul (ar_actor (stored_form row)) = false /\ has_nul (ar_action (stored_form row)) = false /\
  json_contains_nul (ar_payload (stored_form row)) = false.
Proof.
  intros Hc Hw Hl. pose proof (truncated_clean _ Hc Hw) as Hn. pose proof (truncate_fits _ Hl) as Hf.
  assert (forall s, (escape_str (escape_str s).1).1 = (escape_str s).1) as Hs by (intros s; by rewrite (escape_str_id (escape_str s).1) by apply escape_str_clean).
  split; [|split_and!; [apply escape_str_clean..|done]]. unfold stored_form. cbn [ar_actor ar_action ar_payload]. rewrite !Hs. f_equal.
  unfold truncate_payload at 1. unfold escape_payload at 1 2 3. rewrite escape_value_id by done. cbn [Nat.ltb Nat.leb].
  by rewrite (proj2 (Z.leb_le _ _)).
Qed.

(** The value an envelope's preserved key is taken from. *)
Definition record_of (m : list (bytes * Value)) (k : bytes) : option Value :=
  if bool_decide (k = REQ_SUMMARY_KEY) then summarize_req (Object m) else map_get k m.

Definition summarised (m : list (bytes * Value)) : list (bytes * Value) :=
  match summarize_req (Object m) with Some s => map_insert REQ_SUMMARY_KEY s m | None => map_remove REQ_SUMMARY_KEY m end.

Lemma summarised_get m k : keys_sorted m.*1 = true -> map_get k (summarised m) = record_of m k.
Proof.
  intros Hs. unfold summarised, record_of. case_bool_decide as Hk.
  - subst k. destruct (summarize_req (Object m)); [apply map_get_insert|by apply map_get_remove].
  - destruct (summarize_req (Object m)); [by apply map_get_insert_ne|by apply map_get_remove_ne].
Qed.

(** What an oversized payload leaves behind.  Its row is marked as truncated and
    has the length and the digest of the payload as it would have been stored; each
    of the five preserved keys the payload carried is there unchanged (the request
    summary always the one derived from the request itself) or named among the
    dropped ones, and nothing else of the payload is there. *)
Theorem oversized_payload_keeps_its_records p m :
  canonical p = true -> wf_text p = true -> escape_payload p = Object m ->
  PAYLOAD_MAX_BYTES < len (to_string (Object m)) <= USIZE_MAX ->
  let e := truncate_payload p in
  is_truncation_envelope e = true /\
  get FINGERPRINT_LEN_KEY e = Some (int_value (len (to_string (Object m)))) /\
  get FINGERPRINT_SHA256_KEY e = Some (String (sha256_hex (sha256 (to_string (Object m))))) /\
  exists dropped,
    get DROPPED_PRESERVED_KEY e = (if bool_decide (dropped = []) then None else Some (Array (map String dropped))) /\
    (forall k, k ∈ PRESERVED_KEYS ->
       if bool_decide (k ∈ dropped) then get k e = None /\ is_Some (record_of m k) else get k e = record_of m k) /\
    (forall k, k ∉ PRESERVED_KEYS ->
       k ∉ [TRUNCATED_MARKER_KEY; FINGERPRINT_LEN_KEY; FINGERPRINT_SHA256_KEY; DROPPED_PRESERVED_KEY] -> get k e = None).
Proof.
  intros Hc Hw Em [Hbig Hl]. destruct (escape_payload_ok p Hc Hw) as (_ & H2 & _). rewrite Em in H2. cbn [canonical] in H2. apply andb_true_iff in H2 as [Hsort _].
  cbv zeta. unfold truncate_payload. rewrite Em, (proj2 (Z.leb_gt _ _)) by done. fold (summarised m). set (text := to_string (Object m)) in *.
  destruct (preserve_onto_spec text (summarised m) Hl) as (env & d & E & Hd & _ & Hse & _ & Hg & Hkept & Hdrop). unfold preserve_onto. rewrite E.
  assert (map_get DROPPED_PRESERVED_KEY env = None) as Hdk by (rewrite Hg; [done|apply (bool_decide_unpack _); by vm_compute]).
  set (e := match d with [] => Object env | _ => _ end).
  assert (forall k, k <> DROPPED_PRESERVED_KEY -> get k e = map_get k env) as He.
  { intros k Hk. unfold e. destruct d; [done|]. cbn [get]. by apply map_get_insert_ne. }
  assert (forall k, k ∉ PRESERVED_KEYS -> k <> DROPPED_PRESERVED_KEY -> get k e = map_get k (bare_envelope text)) as Hb
    by (intros k Hk1 Hk2; rewrite He, Hg by done; done).
  assert (forall k, k ∈ PRESERVED_KEYS -> k <> DROPPED_PRESERVED_KEY) as Hpd
    by (apply (proj1 (list.Forall_forall (fun k => k <> DROPPED_PRESERVED_KEY) _)), (bool_decide_unpack _); by vm_compute).
  split_and!.
  - unfold is_truncation_envelope. rewrite Hb; [done|apply (bool_decide_unpack _); by vm_compute|done].
  - rewrite Hb; [done|apply (bool_decide_unpack _); by vm_compute|done].
  - rewrite Hb; [done|apply (bool_decide_unpack _); by vm_compute|done].
  - exists d. split_and!.
    + unfold e. destruct d as [|x d]; [done|]. rewrite bool_decide_eq_false_2 by done. cbn [get]. apply map_get_insert.
    + intros k Hk. rewrite <- (summarised_get m k Hsort), He by (by apply Hpd). case_bool_decide; [by apply Hdrop|by apply Hkept].
    + intros k Hk Hn. rewrite !not_elem_of_cons in Hn. destruct Hn as (N1 & N2 & N3 & N4 & _). rewrite Hb by done. rewrite bare_envelope_eq.
      cbn [map_get]. apply bytes_eqb_false in N1, N2, N3. by rewrite N1, N2, N3.
Qed.

(** The guard's verdict survives truncation: a guard record of at most 3800 bytes
    of JSON is on the envelope of every oversized payload, whatever the request. *)
Theorem guard_record_survives p m g :
  canonical p = true -> wf_text p = true -> escape_payload p = Object m ->
  PAYLOAD_MAX_BYTES < len (to_string (Object m)) <= USIZE_MAX ->
  map_get GUARD_KEY m = Some g -> len (to_string g) <= 3800 ->
  get GUARD_KEY (truncate_payload p) = Some g.
Proof.
  intros Hc Hw Em [Hbig Hl] Hg Hlen. destruct (escape_payload_ok p Hc Hw) as (_ & H2 & _). rewrite Em in H2. cbn [canonical] in H2. apply andb_true_iff in H2 as [Hsort _].
  unfold truncate_payload. rewrite Em, (proj2 (Z.leb_gt _ _)) by done. fold (summarised m). set (text := to_string (Object m)) in *.
  assert (map_get GUARD_KEY (summarised m) = Some g) as Hs by (rewrite summarised_get by done; exact Hg).
  assert (GUARD_KEY ∉ (bare_envelope text).*1) as Hk by (apply preserved_apart; left).
  assert (has_room (map_insert GUARD_KEY g (bare_envelope text))) as Hroom.
  { unfold has_room. rewrite object_insert_len by (done || by rewrite bare_envelope_eq). pose proof (bare_len text Hl).
    assert (len (json_string GUARD_KEY) = 7) as -> by (by vm_compute). unfold DROP_MARKER_RESERVE, PAYLOAD_MAX_BYTES in *. lia. }
  unfold preserve_onto. change PRESERVED_KEYS with (GUARD_KEY :: drop 1 PRESERVED_KEYS). cbn [preserve_keys]. rewrite Hs.
  unfold has_room in Hroom. rewrite (proj2 (Z.leb_le _ _)) by done.
  destruct (preserve_keys_spec (summarised m) (drop 1 PRESERVED_KEYS) (map_insert GUARD_KEY g (bare_envelope text)) []) as (d & E1 & E2 & R1 & R2 & R3 & R4 & _).
  { apply (bool_decide_unpack _). by vm_compute. }
  { intros k Hk'. rewrite map_insert_keys. intros [->|Hin]; [revert Hk'; apply (bool_decide_unpack _); by vm_compute|].
    revert Hin. apply preserved_apart. change PRESERVED_KEYS with (GUARD_KEY :: drop 1 PRESERVED_KEYS). by right. }
  { by apply map_insert_sorted. }
  { intros E. pose proof (map_get_insert GUARD_KEY g (bare_envelope text)) as Hx. by rewrite E in Hx. }
  { done. }
  assert (map_get GUARD_KEY (preserve_keys (summarised m) (drop 1 PRESERVED_KEYS) (map_insert GUARD_KEY g (bare_envelope text)) []).1 = Some g) as Hfin.
  { rewrite R4, map_get_insert; [done|]. apply (bool_decide_unpack _). by vm_compute. }
  destruct (preserve_keys (summarised m) (drop 1 PRESERVED_KEYS) _ []) as [env dropped]. cbn [fst snd] in *.
  destruct dropped; [done|]. cbn [get]. by rewrite map_get_insert_ne by done.
Qed.

(** The request summary is bounded and true: its head is a prefix of the JSON of
    the request, at most 512 bytes of it and ending between two characters. *)
Theorem request_summary_is_bounded m req :
  map_get REQ_KEY m = Some req ->
  exists s head rest, summarize_req (Object m) = Some s /\ get (bs "head") s = Some (String head) /\
    to_string req = head ++ rest /\ len head <= 512 /\ (rest = [] \/ is_char_boundary (to_string req) (length head) = true) /\
    get (bs "len") s = Some (int_value (len (to_string req))).
Proof.
  intros Hr. cbn [summarize_req]. rewrite Hr. cbn [mbind option_bind]. set (text := to_string req).
  assert (length (char_boundary_prefix text HEAD_MAX_BYTES) <= HEAD_MAX_BYTES)%nat as Hlen.
  { unfold char_boundary_prefix. destruct (Nat.leb_spec (length text) HEAD_MAX_BYTES); [done|]. rewrite length_take.
    pose proof (floor_boundary_ok HEAD_MAX_BYTES text). lia. }
  unfold char_boundary_prefix in *. destruct (Nat.leb_spec (length text) HEAD_MAX_BYTES) as [Hle|Hgt].
  - eexists _, text, []. rewrite app_nil_r. split_and!; [reflexivity|reflexivity|done|unfold len, HEAD_MAX_BYTES in *; lia|by left|reflexivity].
  - eexists _, (take (floor_boundary HEAD_MAX_BYTES text) text), (drop (floor_boundary HEAD_MAX_BYTES text) text). destruct (floor_boundary_ok HEAD_MAX_BYTES text) as [Hb1 Hb2].
    split_and!; [reflexivity|reflexivity|by rewrite take_drop|unfold len, HEAD_MAX_BYTES in *; lia| |reflexivity].
    right. rewrite length_take, Nat.min_l by lia. apply Hb2. lia.
Qed.
End Envelope.

(** * insert_outcome.rs, insert_cause.rs *)

Inductive InsertOutcome := NotWritten | UnknownOutcome.

Inductive ClientFault :=
| FaultPoolTimedOut | FaultPoolClosed | FaultConfiguration | FaultInvalidArgument | FaultEncode | FaultDecode
| FaultTls | FaultProtocol | FaultWorkerCrashed | FaultDatabase | FaultOther.

Inductive InsertCause := CauseAnswered (sqlstate : bytes) | CauseIo (kind : Z) (os : option Z) | CauseClient (f : ClientFault) | CauseRowCount.

(** [sqlx::Error] as the classifiers see it; a database error is Postgres's with its
    severity (is it [ERROR]?) and code, or not Postgres's. *)
Inductive SqlxError :=
| SqlxDatabase (pg : option (bool * bytes))
| SqlxIo (kind : Z) (os : option Z)
| SqlxPoolTimedOut | SqlxPoolClosed | SqlxConfiguration | SqlxInvalidArgument | SqlxEncode | SqlxDecode
| SqlxTls | SqlxProtocol | SqlxWorkerCrashed | SqlxOther.

Definition answered_with (severity_is_error : bool) : InsertOutcome := if severity_is_error then NotWritten else UnknownOutcome.

Definition outcome_of (e : SqlxError) : InsertOutcome :=
  match e with
  | SqlxDatabase (Some (severity_is_error, _)) => answered_with severity_is_error
  | SqlxDatabase None => UnknownOutcome
  | SqlxPoolTimedOut | SqlxPoolClosed | SqlxConfiguration | SqlxInvalidArgument | SqlxEncode => NotWritten
  | _ => UnknownOutcome
  end.

(** [SqlState::parse] *)
Definition parse_sqlstate (code : bytes) : option bytes :=
  if (length code =? 5)%nat && forallb (fun c => (48 <=? c) && (c <=? 57) || (65 <=? c) && (c <=? 90)) code then Some code else None.

Definition cause_of (e : SqlxError) : InsertCause :=
  match e with
  | SqlxDatabase pg => match pg ≫= fun p => parse_sqlstate p.2 with Some s => CauseAnswered s | None => CauseClient FaultDatabase end
  | SqlxIo kind os => CauseIo kind os
  | SqlxPoolTimedOut => CauseClient FaultPoolTimedOut
  | SqlxPoolClosed => CauseClient FaultPoolClosed
  | SqlxConfiguration => CauseClient FaultConfiguration
  | SqlxInvalidArgument => CauseClient FaultInvalidArgument
  | SqlxEncode => CauseClient FaultEncode
  | SqlxDecode => CauseClient FaultDecode
  | SqlxTls => CauseClient FaultTls
  | SqlxProtocol => CauseClient FaultProtocol
  | SqlxWorkerCrashed => CauseClient FaultWorkerCrashed
  | SqlxOther => CauseClient FaultOther
  end.

Definition one_row_written (rows_affected : Z) : result () (InsertOutcome * InsertCause) :=
  if rows_affected =? 1 then Ok tt
  else Err (if rows_affected =? 0 then NotWritten else UnknownOutcome, CauseRowCount).

(** [insert_without_id]: what the statement answered for the stored row. *)
Definition insert_without_id `{Sha256} {W} (execute : AuditRow -> W -> result Z SqlxError * W) (row : AuditRow) (w : W)
    : result () (InsertOutcome * InsertCause) * W :=
  let '(done, w) := execute (stored_form row) w in
  (match done with Ok n => one_row_written n | Err e => Err (outcome_of e, cause_of e) end, w).

(** A log of rows and what is known to an observer of Postgres: whether the statement
    wrote its row. *)
Definition honest {W} (table : W -> list AuditRow) (execute : AuditRow -> W -> result Z SqlxError * W) : Prop :=
  forall row w, let '(r, w') := execute row w in
  match r with
  | Ok n => table w' = table w ++ repeat row (Z.to_nat n) /\ 0 <= n
  | Err (SqlxDatabase (Some (true, _))) => table w' = table w
  | Err (SqlxPoolTimedOut | SqlxPoolClosed | SqlxConfiguration | SqlxInvalidArgument | SqlxEncode) => table w' = table w
  | Err _ => table w' = table w \/ table w' = table w ++ [row]
  end.

(** A loss is only reported when it is one: with a Postgres that answers honestly,
    an insert that reports success wrote exactly the stored row, and an insert that
    says "not written" left the table as it was. *)
Theorem reported_loss_is_a_loss `{Sha256} {W} (table : W -> list AuditRow) execute row (w : W) :
  honest table execute ->
  let '(r, w') := insert_without_id execute row w in
  match r with
  | Ok _ => table w' = table w ++ [stored_form row]
  | Err (NotWritten, _) => table w' = table w
  | Err (UnknownOutcome, _) => True
  end.
Proof.
  intros Hh. unfold insert_without_id. specialize (Hh (stored_form row) w). destruct (execute (stored_form row) w) as [[n|e] w'].
  - destruct Hh as [Ht Hn]. unfold one_row_written. destruct (Z.eqb_spec n 1) as [->|]; [done|]. destruct (Z.eqb_spec n 0) as [->|]; [|done].
    by rewrite Ht, app_nil_r.
  - destruct e as [[[[] ?]|]| | | | | | | | | | |]; try done.
Qed.

(** * audit_mirror.rs *)

Local Open Scope prog_scope.

(** A committed row; its time is known by its text and its UTC date. *)
Record LogRow := mkLogRow { lr_id : Z; lr_ts : bytes; lr_date : Z * Z * Z; lr_row : AuditRow }.

Definition CATCHUP_BATCH : nat := 256.

(** [{:0width}] *)
Definition zero_padded (width : nat) (z : Z) : bytes :=
  let digits := show_z (Z.abs z) in
  let width := if z <? 0 then (width - 1)%nat else width in
  (if z <? 0 then bs "-" else []) ++ repeat 48 (width - length digits) ++ digits.

Definition audit_log_path_for (state_dir : bytes) (date : Z * Z * Z) : bytes :=
  let '(year, month, day) := date in
  path_join state_dir (bs "audit-" ++ zero_padded 4 year ++ bs "-" ++ zero_padded 2 month ++ bs "-" ++ zero_padded 2 day ++ bs ".jsonl").

Definition format_jsonl_line (row : LogRow) : bytes :=
  to_string (object [(bs "id", int_value (lr_id row)); (bs "ts", String (lr_ts row)); (bs "actor", String (ar_actor (lr_row row)));
                     (bs "action", String (ar_action (lr_row row))); (bs "payload", ar_payload (lr_row row))]) ++ [10].

(** [SELECT … WHERE id > since ORDER BY id LIMIT limit] *)
Definition before (a b : LogRow) : Prop := lr_id a <= lr_id b.
#[global] Instance before_dec : RelDecision before.
Proof. intros a b. unfold before. apply _. Defined.
#[global] Instance before_total : Total before.
Proof. intros a b. unfold before. lia. Qed.
#[global] Instance before_trans : Transitive before.
Proof. intros a b c. unfold before. lia. Qed.

Definition newer (since : Z) (table : list LogRow) : list LogRow := filter (fun r => since < lr_id r) (merge_sort before table).
Definition fetch_since (since : Z) (limit : nat) (table : list LogRow) : list LogRow := take limit (newer since table).

Record MirrorState := mkMirror { ms_last_seen_id : Z; ms_open_file : option (Z * Z * Z) }.

Inductive CatchUpError := CuFetch (e : bytes) | CuOpenFile (path e : bytes) | CuWrite (path e : bytes) | CuFsync (path e : bytes) | CuFuel.

(** Postgres and the file system; a write that fails may have written a part. *)
Class MirrorWorld (W : Type) := {
  mw_fetch : Z -> nat -> W -> result (list LogRow) bytes * W;
  mw_open : bytes -> W -> result () bytes * W;
  mw_write : bytes -> bytes -> W -> result () (bytes * nat) * W;
  mw_sync : bytes -> W -> result () bytes * W }.

(** What was appended to a file. *)
Inductive MirrorEv := MvAppend (path chunk : bytes).

Section Mirror.
Context {W : Type} `{MirrorWorld W}.
Abbreviation M A := (prog (MirrorState * W) MirrorEv CatchUpError A).

Definition mirror_io {A} (f : W -> A * W) : M A := effect (fun sw => let '(a, w) := f sw.2 in (a, (sw.1, w))).
Definition mirror_state : M MirrorState := effect (fun sw => (sw.1, sw)).
Definition set_mirror (s : MirrorState) : M () := effect (fun sw => (tt, (s, sw.2))).

Definition write_row (state_dir : bytes) (row : LogRow) : M () :=
  let date := lr_date row in
  let path := audit_log_path_for state_dir date in
  let* s := mirror_state in
  (if bool_decide (ms_open_file s = Some date) then ret tt
   else
     match ms_open_file s with
     | Some old => let* _ := mirror_io (mw_sync (audit_log_path_for state_dir old)) in set_mirror (mkMirror (ms_last_seen_id s) None)
     | None => ret tt
     end ;;;
     let* opened := mirror_io (mw_open path) in
     match opened with
     | Ok _ => set_mirror (mkMirror (ms_last_seen_id s) (Some date))
     | Err e => throw (CuOpenFile path e)
     end) ;;;
  let line := format_jsonl_line row in
  let* written := mirror_io (mw_write path line) in
  match written with
  | Err (e, n) => emit (MvAppend path (take n line)) ;;; throw (CuWrite path e)
  | Ok _ =>
      emit (MvAppend path line) ;;;
      let* synced := mirror_io (mw_sync path) in
      match synced with
      | Err e => throw (CuFsync path e)
      | Ok _ => set_mirror (mkMirror (lr_id row) (Some date))
      end
  end.

Fixpoint write_rows (state_dir : bytes) (rows : list LogRow) : M () :=
  match rows with [] => ret tt | row :: rest => write_row state_dir row ;;; write_rows state_dir rest end.

Fixpoint catch_up (fuel : nat) (state_dir : bytes) : M () :=
  match fuel with
  | O => throw CuFuel
  | S fuel' =>
      let* s := mirror_state in
      let* fetched := mirror_io (mw_fetch (ms_last_seen_id s) CATCHUP_BATCH) in
      match fetched with
      | Err e => throw (CuFetch e)
      | Ok rows =>
          write_rows state_dir rows ;;;
          if (length rows <? CATCHUP_BATCH)%nat then ret tt else catch_up fuel' state_dir
      end
  end.
End Mirror.

(** [run_mirror_loop]: the first drain, and one per notification or tick; a failed one
    is logged and the next tries again. *)
Definition start_mirror : MirrorState := mkMirror 0 None.

(** A Postgres with a given table and a disk that never fails. *)
#[export] Instance healthy : MirrorWorld (list LogRow) := {|
  mw_fetch since limit w := (Ok (fetch_since since limit w), w);
  mw_open _ w := (Ok tt, w); mw_write _ _ w := (Ok tt, w); mw_sync _ w := (Ok tt, w) |}.

(** ** A healthy mirror *)

Definition appended (state_dir : bytes) (r : LogRow) : MirrorEv := MvAppend (audit_log_path_for state_dir (lr_date r)) (format_jsonl_line r).

Lemma write_row_healthy dir row s table t :
  write_row dir row (s, table) t = (Ok tt, (mkMirror (lr_id row) (Some (lr_date row)), table), appended dir row :: t).
Proof.
  unfold write_row, mirror_state, mirror_io, set_mirror, bind, effect, emit, ret. cbn [fst snd mw_open mw_sync mw_write healthy].
  destruct (bool_decide (ms_open_file s = Some (lr_date row))); [done|]. by destruct (ms_open_file s).
Qed.

Definition after_rows (s : MirrorState) (rows : list LogRow) : MirrorState :=
  fold_left (fun _ r => mkMirror (lr_id r) (Some (lr_date r))) rows s.

Lemma write_rows_healthy dir rows s table t :
  write_rows dir rows (s, table) t = (Ok tt, (after_rows s rows, table), reverse (map (appended dir) rows) ++ t).
Proof.
  revert s t. induction rows as [|r rows IH]; intros s t; [done|]. cbn [write_rows]. unfold bind. rewrite write_row_healthy, IH.
  cbn [map]. by rewrite reverse_cons, <- app_assoc.
Qed.

Definition later (a b : LogRow) : Prop := lr_id a < lr_id b.

Lemma sorted_strict table : NoDup (map lr_id table) -> StronglySorted later (merge_sort before table).
Proof.
  intros Hnd. assert (NoDup (map lr_id (merge_sort before table))) as Hn.
  { by rewrite (Permutation_map lr_id (merge_sort_Permutation before table)). }
  pose proof (StronglySorted_merge_sort before table) as Hs. induction Hs as [|r l Hs IH Hall]; [constructor|].
  cbn [map] in Hn. inversion Hn as [|? ? Hni Hn']; subst. constructor; [by apply IH|]. rewrite list.Forall_forall in *. intros x Hx.
  specialize (Hall x Hx). unfold before, later in *. assert (lr_id x <> lr_id r); [|lia]. intros E. apply Hni. rewrite <- E. by apply list_elem_of_fmap_2.
Qed.

Lemma newer_sorted since table : NoDup (map lr_id table) -> StronglySorted later (newer since table).
Proof.
  intros Hs%sorted_strict. unfold newer. induction Hs as [|r l Hs IH Hall]; [constructor|]. rewrite filter_cons. destruct (decide _); [|done].
  constructor; [done|]. rewrite list.Forall_forall in *. intros x [_ Hx]%list_elem_of_filter. auto.
Qed.

Lemma newer_after since table c y d : NoDup (map lr_id table) -> newer since table = c ++ y :: d -> newer (lr_id y) table = d.
Proof.
  intros Hnd E. assert (newer (lr_id y) table = filter (fun r => lr_id y < lr_id r) (newer since table)) as ->.
  { assert (since < lr_id y) as Hy. { assert (y ∈ newer since table) as Hin by (rewrite E; set_solver). by apply list_elem_of_filter in Hin as [? _]. }
    unfold newer. rewrite list_filter_filter_l; [done|]. cbn. lia. }
  pose proof (newer_sorted since table Hnd) as Hs. rewrite E in Hs |- *. clear E.
  apply StronglySorted_app in Hs as (Hc & _ & Hd). apply StronglySorted_cons in Hd as [Hd _]. rewrite filter_app.
  assert (filter (fun r => lr_id y < lr_id r) c = []) as ->.
  { apply elem_of_nil_inv. intros x [Hx Hin]%list_elem_of_filter. assert (y ∈ y :: d) as Hyd by left. specialize (Hc x y Hin Hyd). unfold later in Hc. lia. }
  rewrite filter_cons, decide_False by lia. cbn [app]. induction Hd as [|x d Hx Hd IH]; [done|]. rewrite filter_cons, decide_True by exact Hx.
  f_equal. apply IH. intros a b Ha Hb. apply Hc; [done|]. set_solver.
Qed.

Lemma newer_split since table n : NoDup (map lr_id table) -> (n <= length (newer since table))%nat -> (0 < n)%nat ->
  exists y, newer (lr_id y) table = drop n (newer since table) /\ last (take n (newer since table)) = Some y.
Proof.
  intros Hnd Hn Hp. destruct n as [|n]; [lia|]. destruct (newer since table !! n) as [y|] eqn:E; [|apply lookup_ge_None in E; lia].
  exists y. pose proof (take_drop_middle _ _ _ E) as Hmid. split; [symmetry in Hmid; by rewrite (newer_after _ _ _ _ _ Hnd Hmid)|].
  by rewrite (take_S_r _ _ y), last_snoc.
Qed.

Lemma after_rows_last s rows y : last rows = Some y -> after_rows s rows = mkMirror (lr_id y) (Some (lr_date y)).
Proof. intros Hl. destruct rows as [|r rows] using rev_ind; [done|]. rewrite last_snoc in Hl. injection Hl as ->. unfold after_rows. by rewrite fold_left_app. Qed.

Lemma after_rows_app s a b : after_rows s (a ++ b) = after_rows (after_rows s a) b.
Proof. unfold after_rows. by rewrite fold_left_app. Qed.

Lemma catch_up_healthy dir s table t fuel :
  NoDup (map lr_id table) -> (length table < fuel * CATCHUP_BATCH)%nat ->
  catch_up fuel dir (s, table) t =
    (Ok tt, (after_rows s (newer (ms_last_seen_id s) table), table), reverse (map (appended dir) (newer (ms_last_seen_id s) table)) ++ t).
Proof.
  intros Hnd Hf. assert (length (newer (ms_last_seen_id s) table) < fuel * CATCHUP_BATCH)%nat as Hl.
  { eapply Nat.le_lt_trans; [|exact Hf]. unfold newer. etrans; [apply length_filter|]. by rewrite (Permutation_length (merge_sort_Permutation before table)). }
  clear Hf. revert s t Hl. induction fuel as [|fuel IH]; intros s t Hl; [lia|]. cbn [catch_up].
  unfold mirror_state, mirror_io, bind at 1, effect at 1. unfold bind at 1, effect at 1. cbn [fst snd mw_fetch healthy]. unfold bind. rewrite write_rows_healthy.
  unfold fetch_since. set (l := newer (ms_last_seen_id s) table) in *. rewrite length_take.
  destruct (Nat.ltb_spec (CATCHUP_BATCH `min` length l) CATCHUP_BATCH) as [Hlt|Hge].
  { rewrite take_ge by lia. done. }
  destruct (newer_split (ms_last_seen_id s) table CATCHUP_BATCH Hnd) as (y & Hy & Hlast); [fold l; lia|by vm_compute; lia|]. fold l in Hy, Hlast.
  rewrite (after_rows_last _ _ _ Hlast), IH; [|cbn [ms_last_seen_id]; rewrite Hy, length_drop; lia]. cbn [ms_last_seen_id]. rewrite Hy.
  rewrite <- (after_rows_last s _ _ Hlast), <- after_rows_app, take_drop, app_assoc, <- reverse_app, <- map_app, take_drop. done.
Qed.

(** C33. A healthy mirror is complete, exact and done: one catch-up on a table whose ids
    are distinct appends each row with a greater id than the last one seen, once, in
    the order of the ids, as one line in the file of its date, and it ends after at
    most one batch more than the table fills. *)
Theorem catch_up_mirrors_exactly dir s table t fuel :
  NoDup (map lr_id table) -> (length table < fuel * CATCHUP_BATCH)%nat ->
  catch_up fuel dir (s, table) t =
    (Ok tt, (after_rows s (newer (ms_last_seen_id s) table), table), reverse (map (appended dir) (newer (ms_last_seen_id s) table)) ++ t).
Proof. apply catch_up_healthy. Qed.

(** Catch-ups on successive states of the table. *)
Fixpoint drain_all (fuel : nat) (dir : bytes) (tables : list (list LogRow)) (s : MirrorState) (t : list MirrorEv) : MirrorState * list MirrorEv :=
  match tables with
  | [] => (s, t)
  | table :: rest => let '(_, (s', _), t') := catch_up fuel dir (s, table) t in drain_all fuel dir rest s' t'
  end.

Definition drainable (fuel : nat) (table : list LogRow) : Prop := NoDup (map lr_id table) /\ (length table < fuel * CATCHUP_BATCH)%nat.

Lemma last_seen_grows s table : NoDup (map lr_id table) -> ms_last_seen_id s <= ms_last_seen_id (after_rows s (newer (ms_last_seen_id s) table)).
Proof.
  intros Hnd. destruct (newer (ms_last_seen_id s) table) as [|y l] eqn:E using rev_ind; [done|]. rewrite (after_rows_last _ _ y) by apply last_snoc.
  assert (y ∈ newer (ms_last_seen_id s) table) as Hin by (rewrite E; set_solver). apply list_elem_of_filter in Hin as [? _]. cbn. lia.
Qed.

(** C40. A row that is committed late is never mirrored: ids are taken when a statement
    runs and rows become visible when its transaction commits, so a row can appear
    below the id the mirror has already passed; then no later catch-up of the same
    process, whatever is committed in between, writes it. *)
Theorem late_commit_is_never_mirrored fuel dir tables s t row :
  lr_id row <= ms_last_seen_id s -> Forall (drainable fuel) tables ->
  exists rows, (drain_all fuel dir tables s t).2 = reverse (map (appended dir) rows) ++ t /\ row ∉ rows.
Proof.
  intros Hr Ht. revert s t Hr. induction Ht as [|table tables [Hnd Hl] _ IH]; intros s t Hr; cbn [drain_all].
  { exists []. split; [done|apply not_elem_of_nil]. }
  rewrite catch_up_healthy by done. destruct (IH (after_rows s (newer (ms_last_seen_id s) table)) (reverse (map (appended dir) (newer (ms_last_seen_id s) table)) ++ t))
    as (rows & E & Hn); [etrans; [exact Hr|by apply last_seen_grows]|].
  exists (newer (ms_last_seen_id s) table ++ rows). rewrite E, map_app, reverse_app, <- app_assoc. split; [done|].
  rewrite elem_of_app. intros [[Hlt _]%list_elem_of_filter|?]; [lia|done].
Qed.

(** A restart repeats the mirror: the position is not kept on disk, so a second
    process appends every row of the table again to the files of the first. *)
Theorem restart_repeats_every_line fuel dir table :
  drainable fuel table ->
  let rows := newer 0 table in
  let first := drain_all fuel dir [table] start_mirror [] in
  first.2 = reverse (map (appended dir) rows) /\
  (drain_all fuel dir [table] start_mirror first.2).2 = reverse (map (appended dir) (rows ++ rows)).
Proof.
  intros [Hnd Hl]. cbn [drain_all]. rewrite !catch_up_healthy by done. cbn [snd ms_last_seen_id start_mirror]. rewrite app_nil_r. split; [done|].
  by rewrite map_app, reverse_app.
Qed.

(** A row is one line: the text of a mirrored row has a newline at its end and
    nowhere else, whatever the strings of the row hold. *)
Theorem mirror_line_is_one_line row :
  wf_text (ar_payload (lr_row row)) = true -> forallb byte_ok (lr_ts row ++ ar_actor (lr_row row) ++ ar_action (lr_row row)) = true ->
  exists body, format_jsonl_line row = body ++ [10] /\ printable_text body.
Proof.
  intros Hp Hs. rewrite !forallb_app, !andb_true_iff in Hs. destruct Hs as (H1 & H2 & H3). eexists. split; [reflexivity|].
  apply to_string_printable. unfold object. cbn [fold_left fst snd]. apply wf_text_object.
  repeat apply map_insert_all; try (split; [by vm_compute|done]). constructor.
Qed.

(** * Witnesses *)

Definition demo_payload : Value :=
  object [(GUARD_KEY, object [(bs "p", int_value 1)]); (REQ_KEY, object [(bs "argv", String (repeat 97 (Z.to_nat 5000)))]); (TASK_ID_KEY, int_value 7)].
Definition demo_row : AuditRow := mkRow (bs "tool:shell") (bs "run") demo_payload.
Definition demo_fields : list (bytes * Value) := match demo_payload with Object m => m | _ => [] end.

Lemma demo_escaped : escape_payload demo_payload = Object demo_fields.
Proof. vm_compute. reflexivity. Qed.

Lemma demo_size : PAYLOAD_MAX_BYTES < len (to_string (Object demo_fields)) <= USIZE_MAX.
Proof. by vm_compute. Qed.

Lemma stored_payload_fits_witness : len (to_string (ar_payload (stored_form demo_row))) <= PAYLOAD_MAX_BYTES.
Proof. apply (stored_payload_fits demo_row). by vm_compute. Defined.

Lemma stored_form_idempotent_witness : stored_form (stored_form demo_row) = stored_form demo_row.
Proof. apply (stored_form_idempotent demo_row); [vm_compute; reflexivity|vm_compute; reflexivity|by vm_compute]. Defined.

Lemma oversized_payload_keeps_its_records_witness : is_truncation_envelope (truncate_payload demo_payload) = true.
Proof. apply (oversized_payload_keeps_its_records demo_payload demo_fields); [vm_compute; reflexivity..|exact demo_escaped|exact demo_size]. Defined.

Lemma guard_record_survives_witness : get GUARD_KEY (truncate_payload demo_payload) = Some (object [(bs "p", int_value 1)]).
Proof.
  apply (guard_record_survives demo_payload demo_fields); [vm_compute; reflexivity..|exact demo_escaped|exact demo_size|vm_compute; reflexivity|by vm_compute].
Defined.

Lemma request_summary_is_bounded_witness :
  exists s head, summarize_req (Object demo_fields) = Some s /\ get (bs "head") s = Some (String head) /\ len head <= 512.
Proof.
  destruct (request_summary_is_bounded demo_fields (object [(bs "argv", String (repeat 97 (Z.to_nat 5000)))])) as (s & head & rest & H1 & H2 & _ & H3 & _);
    [vm_compute; reflexivity|]. exists s, head. exact (conj H1 (conj H2 H3)).
Defined.

Lemma reported_loss_is_a_loss_witness :
  (insert_without_id (fun row w => (Ok 1, w ++ [row])) demo_row []).2 = [stored_form demo_row].
Proof. exact (reported_loss_is_a_loss id (fun row w => (Ok 1, w ++ [row])) demo_row [] (fun row w => conj eq_refl (Z.le_0_1))). Defined.

Definition demo_log : list LogRow := [mkLogRow 2 (bs "t2") (2026, 9, 2) demo_row; mkLogRow 1 (bs "t1") (2026, 9, 2) demo_row].

Lemma demo_drainable : drainable 1 demo_log.
Proof. split; [apply (bool_decide_unpack _); by vm_compute|by vm_compute; lia]. Qed.

Lemma catch_up_mirrors_exactly_witness :
  (catch_up 1 (bs "/s") (start_mirror, demo_log) []).2 = map (appended (bs "/s")) demo_log.
Proof. rewrite (catch_up_mirrors_exactly (bs "/s") start_mirror demo_log [] 1) by apply demo_drainable. vm_compute. reflexivity. Defined.

Lemma late_commit_is_never_mirrored_witness :
  exists rows, (drain_all 1 (bs "/s") [demo_log] (mkMirror 1 None) []).2 = reverse (map (appended (bs "/s")) rows) ++ [] /\
    mkLogRow 1 (bs "t1") (2026, 9, 2) demo_row ∉ rows.
Proof. apply late_commit_is_never_mirrored; [by vm_compute|]. constructor; [exact demo_drainable|constructor]. Defined.

Lemma restart_repeats_every_line_witness :
  (drain_all 1 (bs "/s") [demo_log] start_mirror (drain_all 1 (bs "/s") [demo_log] start_mirror []).2).2 =
  reverse (map (appended (bs "/s")) (newer 0 demo_log ++ newer 0 demo_log)).
Proof. exact (proj2 (restart_repeats_every_line 1 (bs "/s") demo_log demo_drainable)). Defined.

Lemma mirror_line_is_one_line_witness : exists body, format_jsonl_line (mkLogRow 2 (bs "t2") (2026, 9, 2) demo_row) = body ++ [10] /\ printable_text body.
Proof. apply mirror_line_is_one_line; vm_compute; reflexivity. Defined.
