(* ===== verification/Notebook.v ===== *)
(** The task notebook: the rows of [task_notebook] (src/db/src/notebook.rs),
    their payloads and the fold that replays them
    (src/core/src/scheduler/notebook/state.rs), the replies of the model that
    become rows (reply.rs), the repeated-call guard (repeat.rs), the kinds of
    turn (thinking.rs), and the pure parts of the loop (run.rs, ask.rs,
    formulator.rs, view.rs).

    A payload is decoded the way the derive with [deny_unknown_fields] does: an
    object whose keys are all known and distinct.  The text of a JSON document
    is read by [SerdeJson]: a document is a [Value] whose objects keep the
    members in the order written, repeated keys included; [to_value] is the
    [serde_json::Value] it denotes.  The wording of serde's errors is a
    parameter; that a derive also accepts a positional array is not modelled.
    The [created_at] of a row is left out: nothing here reads it. *)

From stdpp Require Import base list sets numbers strings option pretty sorting.
From Stdlib Require Import ZArith Lia.
From S2P Require Import Prelude RustStr Json NulRule Cassandra PlanJson PythonSkill InjectionGuard ToolDispatch Asks LoopPure AskMessage Conversation Handoff EgressConfig.
Local Open Scope nat_scope.

(** * Payloads *)

Record StepSpec := mkSpec {
  ss_id : Z; ss_purpose : bytes; ss_tool : bytes; ss_done_when : bytes;
  ss_echoed_status : option Value; ss_echoed_note : option Value }.

Record FindingSpec := mkFindingSpec { fd_text : bytes; fd_source : bytes; fd_echoed_step : option Value }.

Record TickPayload := mkTick {
  tp_step : Z; tp_note : bytes; tp_findings : list FindingSpec; tp_summary : bytes;
  tp_classification : DataClass; tp_partial : bool }.

Record FailedStepPayload := mkFailed {
  fp_step : Z; fp_code : bytes; fp_detail : bytes; fp_classification : DataClass }.

Inductive EntryKind := EkSteps | EkTick | EkFailedStep | EkCorrection | EkAnswer | EkInfeasible | EkCancelled.

#[export] Instance EntryKind_eq_dec : EqDecision EntryKind.
Proof. solve_decision. Defined.

Definition ALL_KINDS : list EntryKind := [EkSteps; EkTick; EkFailedStep; EkCorrection; EkAnswer; EkInfeasible; EkCancelled].

Definition kind_as_str (k : EntryKind) : bytes :=
  match k with
  | EkSteps => bs "steps" | EkTick => bs "tick" | EkFailedStep => bs "failed_step"
  | EkCorrection => bs "correction" | EkAnswer => bs "answer" | EkInfeasible => bs "infeasible"
  | EkCancelled => bs "cancelled"
  end.

Definition kind_from_str (s : bytes) : option EntryKind := List.find (fun k => bytes_eqb (kind_as_str k) s) ALL_KINDS.

Record Entry := mkEntry { en_task_id : Z; en_seq : Z; en_kind : EntryKind; en_payload : Value }.

(** ** Encoders: [entry], [serde_json::to_value] of a payload *)

Definition step_spec_value (s : StepSpec) : Value :=
  object [(bs "id", int_value (ss_id s)); (bs "purpose", String (ss_purpose s)); (bs "tool", String (ss_tool s));
          (bs "done_when", String (ss_done_when s))].

Definition finding_value (f : FindingSpec) : Value :=
  object [(bs "text", String (fd_text f)); (bs "source", String (fd_source f))].

Definition steps_payload_value (steps : list StepSpec) : Value :=
  object [(bs "steps", Array (map step_spec_value steps))].

Definition tick_payload_value (p : TickPayload) : Value :=
  object ([(bs "step", int_value (tp_step p)); (bs "note", String (tp_note p));
           (bs "findings", Array (map finding_value (tp_findings p))); (bs "summary", String (tp_summary p));
           (bs "classification", class_value (tp_classification p))]
          ++ if tp_partial p then [(bs "partial", Bool true)] else []).

Definition failed_payload_value (p : FailedStepPayload) : Value :=
  object [(bs "step", int_value (fp_step p)); (bs "code", String (fp_code p)); (bs "detail", String (fp_detail p));
          (bs "classification", class_value (fp_classification p))].

Definition correction_payload_value (text : bytes) : Value := object [(bs "text", String text)].
Definition answer_payload_value (body : bytes) : Value := object [(bs "body", String body)].
Definition infeasible_payload_value (reason : bytes) : Value := object [(bs "reason", String reason)].

(** ** Decoders *)

Definition is_key (ks : list bytes) (k : bytes) : bool := existsb (bytes_eqb k) ks.

Fixpoint distinct_keys (ks : list bytes) : bool :=
  match ks with [] => true | k :: ks' => negb (is_key ks' k) && distinct_keys ks' end.

(** A derived struct with [deny_unknown_fields]: every key is a field, once. *)
Definition deny_unknown (fields : list bytes) (v : Value) : option () :=
  match v with
  | Object m => if forallb (is_key fields) m.*1 && distinct_keys m.*1 then Some () else None
  | _ => None
  end.

(** The [serde_json::Value] a document denotes. *)
Fixpoint to_value (v : Value) : Value :=
  match v with
  | Array l => Array (map to_value l)
  | Object m => object (map (fun kv => (kv.1, to_value kv.2)) m)
  | other => other
  end.

Definition U32_MAX : Z := 4294967295.

Definition uint_from_value (bound : Z) (v : Value) : option Z :=
  match v with
  | Number (NInt z) => if ((0 <=? z) && (z <=? bound))%Z then Some z else None
  | _ => None
  end.

Definition u32_from_value : Value -> option Z := uint_from_value U32_MAX.

Definition bool_from_value (v : Value) : option bool := match v with Bool b => Some b | _ => None end.

(** A [#[serde(default)]] field: missing is the default, [null] is an error. *)
Definition default_field {A} (k : bytes) (d : A) (f : Value -> option A) (v : Value) : option A :=
  match get k v with None => Some d | Some w => f w end.

Definition step_spec_from_value (v : Value) : option StepSpec :=
  _ ← deny_unknown [bs "id"; bs "purpose"; bs "tool"; bs "done_when"; bs "status"; bs "note"] v;
  id ← req_field (bs "id") u32_from_value v;
  purpose ← req_field (bs "purpose") as_str v;
  tool ← req_field (bs "tool") as_str v;
  done_when ← req_field (bs "done_when") as_str v;
  status ← option_field (bs "status") (fun w => Some (to_value w)) v;
  note ← option_field (bs "note") (fun w => Some (to_value w)) v;
  Some (mkSpec id purpose tool done_when status note).

Definition finding_from_value (v : Value) : option FindingSpec :=
  _ ← deny_unknown [bs "text"; bs "source"; bs "step"] v;
  text ← req_field (bs "text") as_str v;
  source ← req_field (bs "source") as_str v;
  step ← option_field (bs "step") (fun w => Some (to_value w)) v;
  Some (mkFindingSpec text source step).

Definition steps_payload_from_value (v : Value) : option (list StepSpec) :=
  _ ← deny_unknown [bs "steps"] v;
  req_field (bs "steps") (array_of step_spec_from_value) v.

Definition tick_payload_from_value (v : Value) : option TickPayload :=
  _ ← deny_unknown [bs "step"; bs "note"; bs "findings"; bs "summary"; bs "classification"; bs "partial"] v;
  step ← req_field (bs "step") u32_from_value v;
  note ← req_field (bs "note") as_str v;
  findings ← req_field (bs "findings") (array_of finding_from_value) v;
  summary ← req_field (bs "summary") as_str v;
  classification ← req_field (bs "classification") class_from_value v;
  partial ← default_field (bs "partial") false bool_from_value v;
  Some (mkTick step note findings summary classification partial).

Definition failed_payload_from_value (v : Value) : option FailedStepPayload :=
  _ ← deny_unknown [bs "step"; bs "code"; bs "detail"; bs "classification"] v;
  step ← req_field (bs "step") u32_from_value v;
  code ← req_field (bs "code") as_str v;
  detail ← req_field (bs "detail") as_str v;
  classification ← req_field (bs "classification") class_from_value v;
  Some (mkFailed step code detail classification).

(** The one-field payloads: [CorrectionPayload], [AnswerPayload], [InfeasiblePayload]. *)
Definition text_payload_from_value (field : bytes) (v : Value) : option bytes :=
  _ ← deny_unknown [field] v;
  req_field field as_str v.

(** * The notebook *)

Inductive StepStatus := Pending | Done | Failed.

#[export] Instance StepStatus_eq_dec : EqDecision StepStatus.
Proof. solve_decision. Defined.

(** [{:?}] *)
Definition status_debug (s : StepStatus) : bytes :=
  match s with Pending => bs "Pending" | Done => bs "Done" | Failed => bs "Failed" end.

Record Step := mkNbStep { sp_spec : StepSpec; sp_status : StepStatus; sp_note : option bytes }.

Record Finding := mkFinding { fn_text : bytes; fn_source : bytes; fn_step : Z; fn_classification : DataClass }.

Record Correction := mkCorrection { co_seq : Z; co_text : bytes }.

Record NotebookState := mkNotebook {
  nb_steps : list Step; nb_summary : option bytes; nb_findings : list Finding; nb_corrections : list Correction;
  nb_touched : list DataClass; nb_terminal : bool; nb_last_seq : Z }.

Definition empty_notebook : NotebookState := mkNotebook [] None [] [] [] false 0.

Definition set_steps (n : NotebookState) (steps : list Step) : NotebookState :=
  mkNotebook steps (nb_summary n) (nb_findings n) (nb_corrections n) (nb_touched n) (nb_terminal n) (nb_last_seq n).

Definition touch (n : NotebookState) (c : DataClass) : NotebookState :=
  mkNotebook (nb_steps n) (nb_summary n) (nb_findings n) (nb_corrections n) (nb_touched n ++ [c]) (nb_terminal n)
    (nb_last_seq n).

Definition is_pending (s : Step) : bool := bool_decide (sp_status s = Pending).

Definition has_id (id : Z) (s : Step) : bool := (ss_id (sp_spec s) =? id)%Z.

Definition current_step (n : NotebookState) : option StepSpec := sp_spec <$> List.find is_pending (nb_steps n).

(** [partition_point] of a list that is in [seq] order. *)
Fixpoint after_seq (seen : Z) (cs : list Correction) : list Correction :=
  match cs with
  | c :: cs' => if (co_seq c <=? seen)%Z then after_seq seen cs' else cs
  | [] => []
  end.

Definition unseen_corrections (n : NotebookState) (seen_seq : Z) : list Correction := after_seq seen_seq (nb_corrections n).

(** The first id that a [HashSet] already holds. *)
Fixpoint listed_twice (ids : list Z) (specs : list StepSpec) : option Z :=
  match specs with
  | [] => None
  | s :: specs' => if existsb (Z.eqb (ss_id s)) ids then Some (ss_id s) else listed_twice (ss_id s :: ids) specs'
  end.

Fixpoint list_step (steps : list Step) (spec : StepSpec) : list Step :=
  match steps with
  | [] => [mkNbStep spec Pending None]
  | s :: steps' =>
      if has_id (ss_id spec) s then
        match sp_status s with Done => s :: steps' | _ => mkNbStep spec Pending None :: steps' end
      else s :: list_step steps' spec
  end.

Definition apply_steps (n : NotebookState) (specs : list StepSpec) : result NotebookState bytes :=
  match listed_twice [] specs with
  | Some id => Err (bs "step id " ++ show_z id ++ bs " is listed twice")
  | None => Ok (set_steps n (fold_left list_step specs (List.filter (fun s => negb (is_pending s)) (nb_steps n))))
  end.

Definition step_mut (n : NotebookState) (id : Z) (or_failed : bool) : result Step bytes :=
  match List.find (has_id id) (nb_steps n) with
  | None => Err (bs "no step " ++ show_z id ++ bs " is listed")
  | Some s =>
      match sp_status s, or_failed with
      | Pending, _ | Failed, true => Ok s
      | done, _ => Err (bs "step " ++ show_z id ++ bs " is already " ++ status_debug done)
      end
  end.

(** The write through the reference [step_mut] returns. *)
Fixpoint write_step (id : Z) (f : Step -> Step) (steps : list Step) : list Step :=
  match steps with
  | [] => []
  | s :: steps' => if has_id id s then f s :: steps' else s :: write_step id f steps'
  end.

Definition finding_of (step : Z) (c : DataClass) (f : FindingSpec) : Finding := mkFinding (fd_text f) (fd_source f) step c.

Definition apply_tick (n : NotebookState) (p : TickPayload) : result NotebookState bytes :=
  match step_mut n (tp_step p) (negb (tp_partial p)) with
  | Err e => Err e
  | Ok _ =>
      let tick s := mkNbStep (sp_spec s) (if tp_partial p then sp_status s else Done) (Some (tp_note p)) in
      Ok (mkNotebook (write_step (tp_step p) tick (nb_steps n)) (Some (tp_summary p))
            (nb_findings n ++ map (finding_of (tp_step p) (tp_classification p)) (tp_findings p)) (nb_corrections n)
            (nb_touched n ++ [tp_classification p]) (nb_terminal n) (nb_last_seq n))
  end.

Definition fail_step (n : NotebookState) (p : FailedStepPayload) : result NotebookState bytes :=
  match step_mut n (fp_step p) false with
  | Err e => Err e
  | Ok _ =>
      Ok (touch (set_steps n (write_step (fp_step p) (fun s => mkNbStep (sp_spec s) Failed (sp_note s)) (nb_steps n)))
            (fp_classification p))
  end.

Definition add_correction (n : NotebookState) (c : Correction) : NotebookState :=
  mkNotebook (nb_steps n) (nb_summary n) (nb_findings n) (nb_corrections n ++ [c]) (nb_touched n) (nb_terminal n)
    (nb_last_seq n).

Definition end_notebook (n : NotebookState) : NotebookState :=
  mkNotebook (nb_steps n) (nb_summary n) (nb_findings n) (nb_corrections n) (nb_touched n) true (nb_last_seq n).

Definition at_seq (n : NotebookState) (seq : Z) : NotebookState :=
  mkNotebook (nb_steps n) (nb_summary n) (nb_findings n) (nb_corrections n) (nb_touched n) (nb_terminal n) seq.

Record FoldError := mkFoldError { fe_seq : Z; fe_kind : bytes; fe_detail : bytes }.

Section Fold.
(** The wording of a decoding error of [serde_json::from_value]. *)
Variable from_value_error : EntryKind -> Value -> bytes.

Definition decode {T} (from_value : Value -> option T) (e : Entry) : result T bytes :=
  match from_value (en_payload e) with
  | Some p => Ok p
  | None => Err (bs "malformed payload: " ++ from_value_error (en_kind e) (en_payload e))
  end.

Definition then_apply {T} (r : result T bytes) (f : T -> result NotebookState bytes) : result NotebookState bytes :=
  match r with Ok p => f p | Err e => Err e end.

(** The [match] on the kind of the entry. *)
Definition apply_entry (n : NotebookState) (e : Entry) : result NotebookState bytes :=
  match en_kind e with
  | EkSteps => then_apply (decode steps_payload_from_value e) (apply_steps n)
  | EkTick => then_apply (decode tick_payload_from_value e) (apply_tick n)
  | EkFailedStep => then_apply (decode failed_payload_from_value e) (fail_step n)
  | EkCorrection =>
      then_apply (decode (text_payload_from_value (bs "text")) e)
        (fun text => Ok (add_correction n (mkCorrection (en_seq e) text)))
  | EkAnswer => then_apply (decode (text_payload_from_value (bs "body")) e) (fun _ => Ok (end_notebook n))
  | EkInfeasible => then_apply (decode (text_payload_from_value (bs "reason")) e) (fun _ => Ok (end_notebook n))
  | EkCancelled => Ok (end_notebook n)
  end.

Definition fold_entry (n : NotebookState) (e : Entry) : result NotebookState FoldError :=
  let fail detail := Err (mkFoldError (en_seq e) (kind_as_str (en_kind e)) detail) in
  if nb_terminal n && negb (bool_decide (en_kind e = EkCorrection)) then fail (bs "an entry after the task ended")
  else match apply_entry n e with Ok n' => Ok (at_seq n' (en_seq e)) | Err detail => fail detail end.

Fixpoint fold_from (n : NotebookState) (entries : list Entry) : result NotebookState FoldError :=
  match entries with
  | [] => Ok n
  | e :: entries' => match fold_entry n e with Ok n' => fold_from n' entries' | Err err => Err err end
  end.

Definition fold (entries : list Entry) : result NotebookState FoldError := fold_from empty_notebook entries.
End Fold.

(** [FoldError]'s [Display] *)
Definition fold_error_str (e : FoldError) : bytes :=
  bs "task notebook entry " ++ show_z (fe_seq e) ++ bs " (" ++ fe_kind e ++ bs "): " ++ fe_detail e.

(** * The table *)

(** A row of [task_notebook]: the kind is text. *)
Record NbRow := mkNbRow { nr_task_id : Z; nr_seq : Z; nr_kind : bytes; nr_payload : Value }.

Definition max_seq (rows : list NbRow) : option Z :=
  fold_right (fun r m => Some (match m with Some m => Z.max (nr_seq r) m | None => nr_seq r end)) None rows.

Definition rows_of (task_id : Z) (t : list NbRow) : list NbRow := List.filter (fun r => (nr_task_id r =? task_id)%Z) t.

(** [append]: the payload is NUL-escaped; the [SELECT .. INSERT] is atomic under
    the task's advisory lock. *)
Definition append (t : list NbRow) (task_id : Z) (kind : EntryKind) (payload : Value) : list NbRow * Z :=
  let seq := (default 0 (max_seq (rows_of task_id t)) + 1)%Z in
  (t ++ [mkNbRow task_id seq (kind_as_str kind) (fst (escape_json payload))], seq).

(** [ORDER BY seq] *)
Fixpoint insert_by_seq (r : NbRow) (rows : list NbRow) : list NbRow :=
  match rows with
  | [] => [r]
  | r' :: rows' => if (nr_seq r <=? nr_seq r')%Z then r :: rows else r' :: insert_by_seq r rows'
  end.

Definition order_by_seq (rows : list NbRow) : list NbRow := fold_right insert_by_seq [] rows.

Definition entry_of_row (r : NbRow) : option Entry :=
  kind ← kind_from_str (nr_kind r); Some (mkEntry (nr_task_id r) (nr_seq r) kind (nr_payload r)).

(** [None] is the invariant error of an unknown kind. *)
Definition entries (t : list NbRow) (task_id after : Z) : option (list Entry) :=
  mapM entry_of_row (order_by_seq (List.filter (fun r => (after <? nr_seq r)%Z) (rows_of task_id t))).

(** * Replies *)

Record TickSpec := mkTickSpec { ts_step : Z; ts_note : bytes; ts_findings : list FindingSpec; ts_summary : bytes }.

Record CallSpec := mkCall {
  cs_step : Z; cs_tool : bytes; cs_method : bytes; cs_parameters : Value; cs_returns : bytes; cs_done_when : bytes;
  cs_classification : DataClass }.

Record OrderBy := mkOrderBy { ob_column : bytes; ob_desc : bool }.

(** [Refs]; its [refs] are the strings. *)
Inductive Refs := One (r : bytes) | Many (rs : list bytes).

Definition refs (r : Refs) : list bytes := match r with One r => [r] | Many rs => rs end.

Record TableSpec := mkTable {
  tb_scrapbook : Refs; tb_columns : option (list bytes); tb_order_by : option OrderBy; tb_limit : option Z }.

Record AnswerSpec := mkAnswer {
  as_body : bytes; as_data_ceiling : option DataClass; as_refused : option RefusedReason; as_table : option TableSpec }.

Record NotebookReply := mkReply {
  rp_tick : option TickSpec; rp_steps : option (list StepSpec); rp_call : option CallSpec; rp_answer : option AnswerSpec;
  rp_infeasible : option bytes }.

Definition is_some {A} (o : option A) : bool := match o with Some _ => true | None => false end.

(** ** Decoders *)

Definition tick_spec_from_value (v : Value) : option TickSpec :=
  _ ← deny_unknown [bs "step"; bs "note"; bs "findings"; bs "summary"] v;
  step ← req_field (bs "step") u32_from_value v;
  note ← req_field (bs "note") as_str v;
  findings ← default_field (bs "findings") [] (array_of finding_from_value) v;
  summary ← req_field (bs "summary") as_str v;
  Some (mkTickSpec step note findings summary).

Definition CALL_FIELDS : list bytes :=
  [bs "step"; bs "tool"; bs "method"; bs "parameters"; bs "returns"; bs "done_when"; bs "classification"].

Definition call_from_value (v : Value) : option CallSpec :=
  _ ← deny_unknown CALL_FIELDS v;
  step ← req_field (bs "step") u32_from_value v;
  tool ← req_field (bs "tool") as_str v;
  method ← req_field (bs "method") as_str v;
  parameters ← req_field (bs "parameters") (fun w => Some (to_value w)) v;
  returns ← req_field (bs "returns") as_str v;
  done_when ← req_field (bs "done_when") as_str v;
  classification ← req_field (bs "classification") class_from_value v;
  Some (mkCall step tool method parameters returns done_when classification).

Definition order_by_from_value (v : Value) : option OrderBy :=
  _ ← deny_unknown [bs "column"; bs "desc"] v;
  column ← req_field (bs "column") as_str v;
  desc ← default_field (bs "desc") false bool_from_value v;
  Some (mkOrderBy column desc).

(** [#[serde(untagged)]]: the first variant that reads. *)
Definition refs_from_value (v : Value) : option Refs :=
  match v with String s => Some (One s) | _ => Many <$> array_of as_str v end.

Definition table_from_value (v : Value) : option TableSpec :=
  _ ← deny_unknown [bs "scrapbook"; bs "columns"; bs "order_by"; bs "limit"] v;
  scrapbook ← req_field (bs "scrapbook") refs_from_value v;
  columns ← option_field (bs "columns") (array_of as_str) v;
  order_by ← option_field (bs "order_by") order_by_from_value v;
  limit ← option_field (bs "limit") (uint_from_value u64_max) v;
  Some (mkTable scrapbook columns order_by limit).

(** [RefusedReason] ignores unknown keys; a repeated field is an error. *)
Definition refused_once (v : Value) : option RefusedReason :=
  match v with
  | Object m =>
      if distinct_keys (List.filter (is_key [bs "principle"; bs "reason"]) m.*1) then refused_from_value v else None
  | _ => None
  end.

Definition answer_from_value (v : Value) : option AnswerSpec :=
  _ ← deny_unknown [bs "body"; bs "data_ceiling"; bs "refused"; bs "table"] v;
  body ← req_field (bs "body") as_str v;
  data_ceiling ← option_field (bs "data_ceiling") class_from_value v;
  refused ← option_field (bs "refused") refused_once v;
  table ← option_field (bs "table") table_from_value v;
  Some (mkAnswer body data_ceiling refused table).

Definition reply_from_value (v : Value) : option NotebookReply :=
  _ ← deny_unknown [bs "tick"; bs "steps"; bs "call"; bs "answer"; bs "infeasible"] v;
  tick ← option_field (bs "tick") tick_spec_from_value v;
  steps ← option_field (bs "steps") (array_of step_spec_from_value) v;
  call ← option_field (bs "call") call_from_value v;
  answer ← option_field (bs "answer") answer_from_value v;
  infeasible ← option_field (bs "infeasible") (text_payload_from_value (bs "reason")) v;
  Some (mkReply tick steps call answer infeasible).

(** ** Parsing *)

(** The JSON reader: the document a whole text is ([from_str]), the first
    document of a text ([Deserializer::into_iter]), and the wording of the
    errors. [sj_whole] says that a text that is one document starts with it. *)
Class SerdeJson := {
  json_doc : bytes -> option Value;
  json_first : bytes -> option Value;
  reply_error : bytes -> bytes;
  lifted_error : Value -> bytes }.

Section Parse.
Context `{SerdeJson}.

(** [parse_json_lenient] at the type [dec] reads; a failure carries no text. *)
Definition parse_json_lenient {T} (dec : Value -> option T) (raw : bytes) : option T :=
  match json_doc raw ≫= dec with
  | Some v => Some v
  | None =>
      match find_sub [123%Z] raw with
      | None => json_doc raw ≫= dec
      | Some start => json_first (drop start raw) ≫= dec
      end
  end.

Definition refused (e : bytes) (hint : bool) : bytes :=
  bs "not a notebook reply: " ++ e ++
  if hint then bs " (a tool call goes inside `call`: {" ++ [34%Z] ++ bs "call" ++ [34%Z] ++ bs ": {" ++ [34%Z] ++ bs "step"
               ++ [34%Z] ++ bs ": …, " ++ [34%Z] ++ bs "tool" ++ [34%Z] ++ bs ": …}})" else [].

(** Move the call fields of the top level into [call]. *)
Definition lifted_call (top : list (bytes * Value)) : list (bytes * Value) :=
  fold_left (fun m f => match map_get f top with Some v => map_insert f v m | None => m end) CALL_FIELDS [].

Definition lift_call (top : list (bytes * Value)) : Value :=
  Object (map_insert (bs "call") (Object (lifted_call top)) (fold_left (fun m f => map_remove f m) CALL_FIELDS top)).

Definition stray_call_field (top : list (bytes * Value)) : bool :=
  existsb (fun f => negb (bytes_eqb f (bs "tool") || bytes_eqb f (bs "done_when")) && has_key f top) CALL_FIELDS.

Definition parse_reply (raw : bytes) : result NotebookReply bytes :=
  match parse_json_lenient reply_from_value raw with
  | Some reply => Ok reply
  | None =>
      match parse_json_lenient (fun v => Some (to_value v)) raw with
      | Some (Object top) =>
          if has_key (bs "call") top || negb (has_key (bs "tool") top) || negb (has_key (bs "method") top)
          then Err (refused (reply_error raw) (stray_call_field top))
          else match reply_from_value (lift_call top) with
               | Some reply => Ok reply
               | None => Err (refused (lifted_error (lift_call top)) false)
               end
      | _ => Err (refused (reply_error raw) false)
      end
  end.
End Parse.

(** ** Checking a reply *)

Definition tick_payload (r : NotebookReply) (c : DataClass) : option TickPayload :=
  t ← rp_tick r;
  Some (mkTick (ts_step t) (ts_note t) (ts_findings t) (ts_summary t) c
          (match rp_call r with Some call => (cs_step call =? ts_step t)%Z | None => false end)).

Definition with_reply_steps (r : NotebookReply) (steps : list StepSpec) : NotebookReply :=
  mkReply (rp_tick r) (Some steps) (rp_call r) (rp_answer r) (rp_infeasible r).

Definition keep_called_step (r : NotebookReply) (n : NotebookState) : NotebookReply :=
  match rp_call r, rp_steps r with
  | Some call, Some steps =>
      if existsb (fun s => ss_id s =? cs_step call)%Z steps then r
      else match List.find (fun s => has_id (cs_step call) s && is_pending s) (nb_steps n) with
           | Some kept => with_reply_steps r (sp_spec kept :: steps)
           | None => r
           end
  | _, _ => r
  end.

(** [max + 1] of [u32]s wraps, as a release build's does. *)
Definition next_id (n : NotebookState) : Z :=
  ((fold_left Z.max (map (fun s => ss_id (sp_spec s)) (nb_steps n)) 0 + 1) mod (U32_MAX + 1))%Z.

Definition not_pending (step : Z) (after : NotebookState) : bytes :=
  let how :=
    match sp_status <$> List.find (has_id step) (nb_steps after) with
    | Some Done =>
        bs "it is done, and a done step is never run again: use its result (a `sift` can go `over` it), or to make the call again with other parameters, list it in `steps` under a new id (e.g. "
        ++ show_z (next_id after) ++ bs ") and call that id"
    | Some Failed => bs "it failed. To retry it, list it in `steps` again"
    | _ => bs "it is not listed. List it in `steps` first"
    end in
  bs "`call.step` " ++ show_z step ++ bs " is not a pending step: " ++ how.

Definition SIFT_TOOL : bytes := bs "sift".
Definition SIFT_READS_DECISION : bytes := bs "sift reads: ".

(** [trim_start] *)
Definition str_trim_start (s : bytes) : bytes := concat (drop_groups char_is_whitespace (groups s)).

(** [SIFT_READS_DECISION.trim_end()] *)
Definition SIFT_MARK : bytes := bs "sift reads:".

Definition count_true (l : list bool) : nat := length (List.filter id l).

(** The check of [tick.step] against the current step. *)
Definition check_tick (r : NotebookReply) (n : NotebookState) (t : TickSpec) : result () bytes :=
  let failed := existsb (fun s => has_id (ts_step t) s && bool_decide (sp_status s = Failed)) (nb_steps n) in
  let progress := match rp_call r with Some c => (cs_step c =? ts_step t)%Z | None => false end in
  let current := match current_step n with Some cur => (ss_id cur =? ts_step t)%Z | None => false end in
  if current then Ok ()
  else if failed && negb progress then Ok ()
  else match current_step n with
       | Some cur => Err (bs "`tick.step` " ++ show_z (ts_step t) ++ bs " is not the current step " ++ show_z (ss_id cur)
                          ++ bs " (nor a failed one)")
       | None => Err (bs "`tick.step` " ++ show_z (ts_step t) ++ bs ": there is no current step to tick")
       end.

Definition apply_reply_tick (r : NotebookReply) (c : DataClass) (n : NotebookState) : result NotebookState bytes :=
  match tick_payload r c with Some p => apply_tick n p | None => Ok n end.

Definition apply_reply_steps (r : NotebookReply) (n : NotebookState) : result NotebookState bytes :=
  match rp_steps r with Some steps => apply_steps n steps | None => Ok n end.

Definition check_call (r : NotebookReply) (after : NotebookState) : result () bytes :=
  match rp_call r with
  | None => Ok ()
  | Some call =>
      if negb (existsb (fun s => has_id (cs_step call) s && is_pending s) (nb_steps after))
      then Err (not_pending (cs_step call) after)
      else if starts_with SIFT_MARK (str_trim_start (cs_returns call))
      then Err (bs "`call.returns` may not begin `" ++ SIFT_MARK ++ bs "`")
      else Ok ()
  end.

Definition validate (r : NotebookReply) (n : NotebookState) : result () bytes :=
  if negb (count_true [is_some (rp_call r); is_some (rp_answer r); is_some (rp_infeasible r)] =? 1)
  then Err (bs "a reply must hold exactly one of `call`, `answer` or `infeasible`")
  else if bool_decide (nb_steps n = []) && negb (is_some (rp_steps r)) then Err (bs "the first reply must list the `steps`")
  else
    match match rp_tick r with Some t => check_tick r n t | None => Ok () end with
    | Err e => Err e
    | Ok _ =>
        match apply_reply_tick r Public n with
        | Err e => Err e
        | Ok ticked =>
            match apply_reply_steps r ticked with
            | Err e => Err e
            | Ok after => check_call r after
            end
        end
    end.

Definition require_answer (r : NotebookReply) : result () bytes :=
  match rp_call r with
  | Some _ => Err (bs "this turn must end the task: reply with `answer` (or `infeasible`), not `call`")
  | None => Ok ()
  end.

(** ** Plans *)

Definition NOTEBOOK_STEP_RATIONALE : bytes := bs "notebook step ".

Definition notebook_step_of (p : Plan) : option Z :=
  rest ← strip_prefix NOTEBOOK_STEP_RATIONALE (pl_rationale p); from_str_radix 10 U32_MAX rest.

Definition call_plan (r : NotebookReply) (call : CallSpec) (floor : DataClass) : Plan :=
  mkPlan (match rp_tick r with Some t => ts_summary t | None => [] end) (cs_returns call)
    (NOTEBOOK_STEP_RATIONALE ++ show_z (cs_step call))
    [mkStep (cs_tool call) (cs_method call) (cs_parameters call) (cs_returns call) (cs_done_when call)
       (cs_classification call)]
    None (Some (max_class (cs_classification call) floor)) None None None None None None.

Definition answer_plan (body : bytes) (ceiling : DataClass) (refusal : option RefusedReason) : Plan :=
  mkPlan [] DECISION_TERMINAL [] [] (Some (object [(bs "kind", String (bs "text")); (bs "body", String body)]))
    (Some ceiling) refusal None None None None None.

Definition answer_ceiling (floor : DataClass) (touched : list DataClass) (declared : option DataClass) : DataClass :=
  fold_left max_class (touched ++ match declared with Some c => [c] | None => [] end) floor.

(** * The repeated-call guard *)

Definition repeated_call_reason (method : bytes) : bytes :=
  bs "repeated call: `" ++ method ++
  bs "` with these exact parameters was already made in this task, so it was not run again — its facts belong in your findings; continue from them, or make a different call".

(** [Number]'s [Display] *)
Definition number_str (n : JNum) : bytes := match n with NInt z => show_z z | NFloat t => t end.

Fixpoint textual (v : Value) : Value :=
  match v with
  | Number n => String (number_str n)
  | Bool b => String (if b then bs "true" else bs "false")
  | Array l => Array (map textual l)
  | Object m => Object (map (fun kv => (kv.1, textual kv.2)) m)
  | other => other
  end.

Definition same_call (a b : PlannedStep) : bool :=
  bytes_eqb (st_tool a) (st_tool b) && bytes_eqb (st_method a) (st_method b)
  && value_eqb (textual (st_parameters a)) (textual (st_parameters b)).

Definition already_made (plans : list PlanRecord) (step : PlannedStep) (held : bytes -> bool) : bool :=
  existsb
    (fun r =>
       existsb
         (fun so => match so with
                    | (s, StepOk v) =>
                        same_call s step && match placeholder_ref v with None => true | Some h => held h end
                    | (_, StepErr _ _) => false
                    end)
         (zip (pl_steps (rec_plan r)) (rec_outcomes r)))
    (List.filter (fun r => negb (starts_with SIFT_READS_DECISION (pl_decision (rec_plan r)))) plans).

(** * Kinds of turn *)

Inductive TurnKind := TkPlan | TkReplan | TkRoutine | TkWriteAnswer | TkForcedAnswer.

#[export] Instance TurnKind_eq_dec : EqDecision TurnKind.
Proof. solve_decision. Defined.

Inductive ThinkingPolicy := Allow | RouterDefault | Suppress.

Definition turn_kind (forced_answer write_answer no_steps_yet replan_due : bool) : TurnKind :=
  if forced_answer then TkForcedAnswer
  else if write_answer then TkWriteAnswer
  else if no_steps_yet then TkPlan
  else if replan_due then TkReplan
  else TkRoutine.

Definition turn_thinking (k : TurnKind) : ThinkingPolicy :=
  match k with
  | TkPlan | TkReplan | TkWriteAnswer => Allow
  | TkRoutine => RouterDefault
  | TkForcedAnswer => Suppress
  end.

Definition rewrite_answer (k : TurnKind) (thinks_by_default : bool) : bool :=
  bool_decide (k = TkRoutine) && negb thinks_by_default.

Definition shows_back_a_missing_table (k : TurnKind) (thinks_by_default : bool) : bool :=
  negb (bool_decide (k = TkForcedAnswer)) && negb (rewrite_answer k thinks_by_default).

(** * The pure parts of the loop *)

Definition NOTEBOOK_TURNS_PER_PLAN : Z := 2.

(** Saturating [u32] arithmetic. *)
Definition sat_u32 (z : Z) : Z := Z.max 0 (Z.min z U32_MAX).

Definition turn_cap (spent max_plans : Z) : Z :=
  sat_u32 (spent + sat_u32 (sat_u32 (max_plans - spent) * NOTEBOOK_TURNS_PER_PLAN)).

Definition with_corrections (base : bytes) (cs : list Correction) : bytes :=
  fold_left (fun s c => s ++ [10; 10]%Z ++ bs "Operator correction: " ++ co_text c) cs base.

Definition touched (n : NotebookState) (plans : list PlanRecord) : list DataClass :=
  nb_touched n ++ concat (map (fun r => map st_classification (take (length (rec_outcomes r)) (pl_steps (rec_plan r)))) plans).

Definition clamp (detail : bytes) : bytes := concat (take STEP_ERR_DETAIL_MAX (groups detail)).

(** The reply [ask] accepts: parsed, trimmed to an answer on the rewrite turn,
    the called step kept in a replan, and checked. *)
Section Check.
Context `{SerdeJson}.

Definition answer_only (k : TurnKind) : bool := bool_decide (k = TkForcedAnswer) || bool_decide (k = TkWriteAnswer).

Definition trim_reply (k : TurnKind) (r : NotebookReply) : NotebookReply :=
  if bool_decide (k = TkWriteAnswer) then mkReply None None (rp_call r) (rp_answer r) (rp_infeasible r) else r.

Definition check_reply (k : TurnKind) (n : NotebookState) (raw : bytes) : result NotebookReply bytes :=
  match parse_reply raw with
  | Err e => Err e
  | Ok r0 =>
      let r := keep_called_step (trim_reply k r0) n in
      match validate r n with
      | Err e => Err e
      | Ok _ =>
          if answer_only k then match require_answer r with Err e => Err e | Ok _ => Ok r end else Ok r
      end
  end.
End Check.

(** [planner_mode]: the daemon's setting. *)
Inductive PlannerMode := Classic | NotebookMode.

Definition planner_mode `{UnicodeStr} (str_debug : bytes -> bytes) (value : option bytes) : result PlannerMode bytes :=
  match str_trim <$> value with
  | None => Ok NotebookMode
  | Some s =>
      if bytes_eqb s [] || bytes_eqb s (bs "notebook") then Ok NotebookMode
      else if bytes_eqb s (bs "classic") then Ok Classic
      else Err (bs "KASTELLAN_PLANNER_MODE=" ++ str_debug s ++ bs " is not a planner mode (expected `classic` or `notebook`)")
  end.

(** [fold_view]: what [task.status] shows. *)
Definition status_str (s : StepStatus) : bytes :=
  match s with Pending => bs "pending" | Done => bs "done" | Failed => bs "failed" end.

Definition step_view (s : Step) : Value :=
  object [(bs "id", int_value (ss_id (sp_spec s))); (bs "purpose", String (ss_purpose (sp_spec s)));
          (bs "tool", String (ss_tool (sp_spec s))); (bs "done_when", String (ss_done_when (sp_spec s)));
          (bs "status", String (status_str (sp_status s))); (bs "note", opt_value String (sp_note s))].

Definition finding_view (f : Finding) : Value :=
  object [(bs "text", String (fn_text f)); (bs "source", String (fn_source f)); (bs "step", int_value (fn_step f));
          (bs "classification", class_value (fn_classification f))].

Definition correction_view (c : Correction) : Value :=
  object [(bs "seq", int_value (co_seq c)); (bs "text", String (co_text c))].

Definition fold_view (from_value_error : EntryKind -> Value -> bytes) (es : list Entry) : result Value bytes :=
  match fold from_value_error es with
  | Err e => Err (fold_error_str e)
  | Ok n =>
      Ok (object [(bs "steps", Array (map step_view (nb_steps n))); (bs "summary", opt_value String (nb_summary n));
                  (bs "findings", Array (map finding_view (nb_findings n)));
                  (bs "corrections", Array (map correction_view (nb_corrections n)));
                  (bs "terminal", Bool (nb_terminal n)); (bs "last_seq", int_value (nb_last_seq n))])
  end.

(** * What is written reads back *)

Lemma fold_insert_keys {A} (fs m : list (bytes * A)) k :
  k ∈ (fold_left (fun m kv => map_insert kv.1 kv.2 m) fs m).*1 -> k ∈ fs.*1 \/ k ∈ m.*1.
Proof.
  revert m. induction fs as [|[k' v] fs IH]; intros m; cbn [fold_left fst snd]; [by right|].
  intros [Hk|Hk]%IH; [left; by apply list_elem_of_further|].
  apply map_insert_keys in Hk as [->|Hk]; [left; by apply list_elem_of_here|by right].
Qed.

Lemma fold_insert_keys_sorted {A} (fs m : list (bytes * A)) : keys_sorted m.*1 = true ->
  keys_sorted (fold_left (fun m kv => map_insert kv.1 kv.2 m) fs m).*1 = true.
Proof. revert m. induction fs as [|kv fs IH]; intros m Hm; [done|]. by apply IH, map_insert_sorted. Qed.

Lemma is_key_true ks k : is_key ks k = true <-> k ∈ ks.
Proof.
  unfold is_key. rewrite existsb_exists. setoid_rewrite bytes_eqb_eq. split.
  - intros (x & Hx & ->). by apply list_elem_of_In.
  - intros Hk. exists k. split; [by apply list_elem_of_In|done].
Qed.

Lemma distinct_keys_true ks : distinct_keys ks = true <-> NoDup ks.
Proof.
  induction ks as [|k ks IH]; cbn [distinct_keys]; [split; [by constructor|done]|].
  rewrite NoDup_cons, andb_true_iff, negb_true_iff, <- not_true_iff_false, is_key_true, IH. done.
Qed.

(** The keys of an object literal are its fields'. *)
Lemma deny_unknown_object fields fs :
  forallb (is_key fields) fs.*1 = true -> deny_unknown fields (object fs) = Some ().
Proof.
  intros Hf. unfold deny_unknown, object. set (m := fold_left _ fs []).
  assert (forallb (is_key fields) m.*1 = true) as ->.
  { apply forallb_forall. intros k Hk. apply list_elem_of_In, fold_insert_keys in Hk as [Hk|Hk]; [|by apply elem_of_nil in Hk].
    rewrite forallb_forall in Hf. by apply Hf, list_elem_of_In. }
  assert (distinct_keys m.*1 = true) as ->; [|done].
  by apply distinct_keys_true, keys_sorted_nodup, fold_insert_keys_sorted.
Qed.

Lemma map_insert_map {A B} (f : A -> B) k v m :
  map (fun kv => (kv.1, f kv.2)) (map_insert k v m) = map_insert k (f v) (map (fun kv => (kv.1, f kv.2)) m).
Proof.
  induction m as [|[k' v'] m IH]; [done|]. cbn [map_insert map fst snd].
  destruct (bytes_eqb k k'); [done|]. destruct (bytes_ltb k k'); [done|]. cbn [map fst snd]. by rewrite IH.
Qed.

Lemma fold_insert_map {A B} (f : A -> B) fs m :
  map (fun kv => (kv.1, f kv.2)) (fold_left (fun m kv => map_insert kv.1 kv.2 m) fs m) =
  fold_left (fun m kv => map_insert kv.1 kv.2 m) (map (fun kv => (kv.1, f kv.2)) fs) (map (fun kv => (kv.1, f kv.2)) m).
Proof.
  revert m. induction fs as [|[k v] fs IH]; intros m; [done|]. cbn [fold_left map fst snd].
  by rewrite IH, map_insert_map.
Qed.

Definition nul_free (v : Value) : Value := (escape_value v).1.
Definition nul_free_str (s : bytes) : bytes := (escape_str s).1.

Lemma nul_free_object fs : forallb (fun k => negb (has_nul k)) fs.*1 = true ->
  nul_free (object fs) = object (map (fun kv => (kv.1, nul_free kv.2)) fs).
Proof.
  intros Hk. unfold nul_free, object. cbn [escape_value fst]. f_equal.
  rewrite (fold_insert_map (fun v => (escape_value v).1) fs []). apply rekey_id.
  apply list.Forall_forall. intros k Hin. apply fold_insert_keys in Hin as [Hin|Hin]; [|by apply elem_of_nil in Hin].
  rewrite forallb_forall in Hk. rewrite <- list_fmap_compose in Hin. apply negb_true_iff, Hk, list_elem_of_In.
  erewrite list_fmap_ext; [exact Hin|]. by intros i [].
Qed.

Lemma nul_free_string s : nul_free (String s) = String (nul_free_str s).
Proof. unfold nul_free, nul_free_str. cbn [escape_value]. by destruct (escape_str s). Qed.

Lemma nul_free_array l : nul_free (Array l) = Array (map nul_free l).
Proof. done. Qed.

Lemma nul_free_class c : nul_free (class_value c) = class_value c.
Proof. by destruct c. Qed.

Lemma nul_free_int z : nul_free (int_value z) = int_value z.
Proof. done. Qed.

Definition clean_spec (s : StepSpec) : StepSpec :=
  mkSpec (ss_id s) (nul_free_str (ss_purpose s)) (nul_free_str (ss_tool s)) (nul_free_str (ss_done_when s)) None None.

Definition clean_finding (f : FindingSpec) : FindingSpec :=
  mkFindingSpec (nul_free_str (fd_text f)) (nul_free_str (fd_source f)) None.

Definition clean_tick (p : TickPayload) : TickPayload :=
  mkTick (tp_step p) (nul_free_str (tp_note p)) (map clean_finding (tp_findings p)) (nul_free_str (tp_summary p))
    (tp_classification p) (tp_partial p).

Definition clean_failed (p : FailedStepPayload) : FailedStepPayload :=
  mkFailed (fp_step p) (nul_free_str (fp_code p)) (nul_free_str (fp_detail p)) (fp_classification p).

Definition u32 (z : Z) : Prop := (0 <= z <= U32_MAX)%Z.

Lemma u32_reads z : u32 z -> u32_from_value (int_value z) = Some z.
Proof.
  intros [H1 H2]. unfold u32_from_value, uint_from_value, int_value.
  by rewrite (proj2 (Z.leb_le 0 z)), (proj2 (Z.leb_le z U32_MAX)).
Qed.

(** Read the fields of an encoded payload: the struct check, the fields that are
    there and the ones that are not. *)
Ltac read_absent :=
  match goal with
  | |- context [option_field ?k ?f (object ?fs)] =>
      unfold option_field at 1; rewrite (object_map_get k fs) by solve_keys
  | |- context [default_field ?k ?d ?f (object ?fs)] =>
      unfold default_field at 1; rewrite (object_map_get k fs) by solve_keys
  end; cbn [map_get]; repeat (rewrite (proj2 (bytes_eqb_false _ _)) by done); cbn [mbind option_bind].

Ltac read_struct :=
  rewrite nul_free_object by (vm_compute; reflexivity);
  cbn [map fst snd];
  rewrite ?nul_free_string, ?nul_free_int, ?nul_free_class, ?nul_free_array;
  rewrite deny_unknown_object by (vm_compute; reflexivity); cbn [mbind option_bind].

Lemma step_spec_reads s : u32 (ss_id s) -> step_spec_from_value (nul_free (step_spec_value s)) = Some (clean_spec s).
Proof.
  intros Hid. unfold step_spec_from_value, step_spec_value. read_struct.
  repeat read_field. rewrite u32_reads by done. cbn [mbind option_bind]. by do 2 read_absent.
Qed.

Lemma finding_reads f : finding_from_value (nul_free (finding_value f)) = Some (clean_finding f).
Proof. unfold finding_from_value, finding_value. read_struct. repeat read_field. by read_absent. Qed.

Lemma mapM_reads {A} (enc : A -> Value) (dec : Value -> option A) (clean : A -> A) l :
  Forall (fun a => dec (nul_free (enc a)) = Some (clean a)) l -> mapM dec (map nul_free (map enc l)) = Some (map clean l).
Proof.
  induction 1 as [|a l Ha _ IH]; [done|]. cbn [map mapM]. rewrite Ha. cbn [mbind option_bind]. by rewrite IH.
Qed.

Lemma steps_payload_reads specs : Forall (fun s => u32 (ss_id s)) specs ->
  steps_payload_from_value (nul_free (steps_payload_value specs)) = Some (map clean_spec specs).
Proof.
  intros H. unfold steps_payload_from_value, steps_payload_value. read_struct. read_field.
  cbn [array_of as_array mbind option_bind]. apply mapM_reads.
  apply (list.Forall_impl _ _ _ H). intros s. apply step_spec_reads.
Qed.

Lemma tick_payload_reads p : u32 (tp_step p) ->
  tick_payload_from_value (nul_free (tick_payload_value p)) = Some (clean_tick p).
Proof.
  intros Hid. unfold tick_payload_from_value, tick_payload_value. destruct p as [step note fs summary c partial].
  cbn [tp_step tp_note tp_findings tp_summary tp_classification tp_partial] in *.
  assert (Hf : mapM finding_from_value (map nul_free (map finding_value fs)) = Some (map clean_finding fs)).
  { apply mapM_reads, Forall_true, finding_reads. }
  destruct partial; cbn [app]; read_struct; repeat read_field; rewrite u32_reads by done;
    cbn [array_of as_array mbind option_bind]; rewrite Hf; cbn [mbind option_bind];
    rewrite class_roundtrip; cbn [mbind option_bind].
  - unfold default_field at 1. rewrite object_map_get by solve_keys. cbn [map_get].
    repeat (rewrite bytes_eqb_refl || (rewrite (proj2 (bytes_eqb_false _ _)) by done)). done.
  - by read_absent.
Qed.

Lemma failed_payload_reads p : u32 (fp_step p) ->
  failed_payload_from_value (nul_free (failed_payload_value p)) = Some (clean_failed p).
Proof.
  intros Hid. unfold failed_payload_from_value, failed_payload_value. read_struct.
  repeat read_field. rewrite u32_reads by done. cbn [mbind option_bind]. by rewrite class_roundtrip.
Qed.

Lemma text_payload_reads field s : has_nul field = false ->
  text_payload_from_value field (nul_free (object [(field, String s)])) = Some (nul_free_str s).
Proof.
  intros Hn. unfold text_payload_from_value. rewrite nul_free_object by (simpl; by rewrite Hn).
  cbn [map fst snd]. rewrite nul_free_string.
  rewrite deny_unknown_object by (cbn [fmap list_fmap forallb fst is_key existsb]; by rewrite bytes_eqb_refl).
  cbn [mbind option_bind]. unfold req_field, object. cbn [fold_left map_insert fst snd get map_get].
  by rewrite bytes_eqb_refl.
Qed.

(** What a writer records, and the row it becomes. *)
Inductive NbEvent :=
| EvSteps (specs : list StepSpec)
| EvTick (p : TickPayload)
| EvFailedStep (p : FailedStepPayload)
| EvCorrection (text : bytes)
| EvAnswer (body : bytes)
| EvInfeasible (reason : bytes)
| EvCancelled.

Definition event_row (ev : NbEvent) : EntryKind * Value :=
  match ev with
  | EvSteps specs => (EkSteps, steps_payload_value specs)
  | EvTick p => (EkTick, tick_payload_value p)
  | EvFailedStep p => (EkFailedStep, failed_payload_value p)
  | EvCorrection text => (EkCorrection, correction_payload_value text)
  | EvAnswer body => (EkAnswer, answer_payload_value body)
  | EvInfeasible reason => (EkInfeasible, infeasible_payload_value reason)
  | EvCancelled => (EkCancelled, Object [])
  end.

(** What the row records of the event: its texts without NUL, and no key the
    model only echoed. *)
Definition clean_event (ev : NbEvent) : NbEvent :=
  match ev with
  | EvSteps specs => EvSteps (map clean_spec specs)
  | EvTick p => EvTick (clean_tick p)
  | EvFailedStep p => EvFailedStep (clean_failed p)
  | EvCorrection text => EvCorrection (nul_free_str text)
  | EvAnswer body => EvAnswer (nul_free_str body)
  | EvInfeasible reason => EvInfeasible (nul_free_str reason)
  | EvCancelled => EvCancelled
  end.

Definition event_wf (ev : NbEvent) : Prop :=
  match ev with
  | EvSteps specs => Forall (fun s => u32 (ss_id s)) specs
  | EvTick p => u32 (tp_step p)
  | EvFailedStep p => u32 (fp_step p)
  | _ => True
  end.

(** The meaning of an event. *)
Definition apply_event (n : NotebookState) (seq : Z) (ev : NbEvent) : result NotebookState bytes :=
  match ev with
  | EvSteps specs => apply_steps n specs
  | EvTick p => apply_tick n p
  | EvFailedStep p => fail_step n p
  | EvCorrection text => Ok (add_correction n (mkCorrection seq text))
  | EvAnswer _ | EvInfeasible _ | EvCancelled => Ok (end_notebook n)
  end.

Lemma written_event_reads fve n task seq ev : event_wf ev ->
  apply_entry fve n (mkEntry task seq (event_row ev).1 (nul_free (event_row ev).2)) = apply_event n seq (clean_event ev).
Proof.
  destruct ev; cbn [event_row event_wf clean_event fst snd]; intros Hwf; unfold apply_entry, decode; cbn [en_kind en_payload].
  - by rewrite steps_payload_reads.
  - by rewrite tick_payload_reads.
  - by rewrite failed_payload_reads.
  - unfold correction_payload_value. by rewrite text_payload_reads.
  - unfold answer_payload_value. by rewrite text_payload_reads.
  - unfold infeasible_payload_value. by rewrite text_payload_reads.
  - done.
Qed.

(** * The step list *)

Definition step_id (s : Step) : Z := ss_id (sp_spec s).
Definition step_ids (n : NotebookState) : list Z := map step_id (nb_steps n).

Lemma listed_twice_None ids specs :
  listed_twice ids specs = None <-> NoDup (map ss_id specs) /\ Forall (fun s => ss_id s ∉ ids) specs.
Proof.
  revert ids. induction specs as [|s specs IH]; intros ids; cbn [listed_twice map].
  - split; [by repeat constructor|done].
  - rewrite NoDup_cons, list.Forall_cons.
    destruct (existsb (Z.eqb (ss_id s)) ids) eqn:E.
    + apply existsb_exists in E as (x & Hx & ->%Z.eqb_eq). split; [done|].
      intros (_ & [Hn _]). contradict Hn. by apply list_elem_of_In.
    + rewrite IH. assert (ss_id s ∉ ids) as Hs.
      { intros Hin. apply not_true_iff_false in E. apply E, existsb_exists. exists (ss_id s).
        split; [by apply list_elem_of_In|by apply Z.eqb_refl]. }
      rewrite !list.Forall_forall. setoid_rewrite not_elem_of_cons. split.
      * intros [Hnd Hf]. split; [split; [|done]|split; [done|]].
        -- intros (x & Hx & Hin)%list_elem_of_fmap. destruct (Hf x Hin). congruence.
        -- intros x Hx. by apply Hf.
      * intros ([Hni Hnd] & [_ Hf]). split; [done|]. intros x Hx. split; [|by apply Hf].
        intros Heq. apply Hni, list_elem_of_fmap. by exists x.
Qed.

(** One listed step, as the doc of [apply_steps] says it. *)
Definition relisted (specs : list StepSpec) (s : Step) : Step :=
  match sp_status s, List.find (fun spec => ss_id spec =? step_id s)%Z specs with
  | Done, _ | _, None => s
  | _, Some spec => mkNbStep spec Pending None
  end.

Definition listed_new (spec : StepSpec) : Step := mkNbStep spec Pending None.

Definition finished (n : NotebookState) : list Step := List.filter (fun s => negb (is_pending s)) (nb_steps n).

Lemma list_step_new steps spec : ss_id spec ∉ map step_id steps -> list_step steps spec = steps ++ [listed_new spec].
Proof.
  induction steps as [|s steps IH]; cbn [map list_step]; [done|]. intros [H1 H2]%not_elem_of_cons.
  unfold has_id. fold (step_id s). rewrite (proj2 (Z.eqb_neq _ _)) by congruence. by rewrite IH.
Qed.

Lemma list_step_old steps spec : NoDup (map step_id steps) -> ss_id spec ∈ map step_id steps ->
  list_step steps spec = map (relisted [spec]) steps.
Proof.
  induction steps as [|s steps IH]; cbn [map list_step]; [intros _ H; by apply elem_of_nil in H|].
  intros [Hn Hnd]%NoDup_cons Hin. unfold has_id. fold (step_id s). unfold relisted at 1. cbn [List.find].
  rewrite (Z.eqb_sym (ss_id spec)). destruct (Z.eqb_spec (step_id s) (ss_id spec)) as [Heq|Hne].
  - rewrite (map_ext_in _ id), map_id; [by destruct (sp_status s)|].
    intros s' Hs'. unfold relisted. cbn [List.find]. rewrite (proj2 (Z.eqb_neq _ _)); [by destruct (sp_status s')|].
    intros Hc. apply Hn. rewrite Heq, Hc. apply list_elem_of_fmap. exists s'. split; [done|by apply list_elem_of_In].
  - rewrite IH; [by destruct (sp_status s)|done|]. apply elem_of_cons in Hin as [Heq|Hin]; [congruence|done].
Qed.

Lemma relisted_id specs s : step_id (relisted specs s) = step_id s.
Proof.
  unfold relisted. destruct (List.find _ specs) as [spec|] eqn:E; [|by destruct (sp_status s)].
  apply List.find_some in E as [_ E%Z.eqb_eq]. by destruct (sp_status s).
Qed.

Lemma find_id_None specs id :
  List.find (fun spec => ss_id spec =? id)%Z specs = None <-> id ∉ map ss_id specs.
Proof.
  split.
  - intros Hf (x & -> & Hx)%list_elem_of_fmap. apply list_elem_of_In in Hx.
    apply (List.find_none _ _ Hf) in Hx. by apply Z.eqb_neq in Hx.
  - intros Hn. destruct (List.find _ specs) as [spec|] eqn:E; [|done].
    apply List.find_some in E as [Hin%list_elem_of_In <-%Z.eqb_eq]. contradict Hn. apply list_elem_of_fmap. by exists spec.
Qed.

Lemma relisted_absent specs s : step_id s ∉ map ss_id specs -> relisted specs s = s.
Proof. intros Hn%find_id_None. unfold relisted. rewrite Hn. by destruct (sp_status s). Qed.

Lemma relisted_compose spec specs s : ss_id spec ∉ map ss_id specs ->
  relisted specs (relisted [spec] s) = relisted (spec :: specs) s.
Proof.
  intros Hn. unfold relisted at 2 3. cbn [List.find]. destruct (Z.eqb_spec (ss_id spec) (step_id s)) as [Heq|Hne].
  - destruct (sp_status s) eqn:E; try (apply relisted_absent; done).
    rewrite relisted_absent; [done|congruence].
  - destruct (sp_status s) eqn:E; unfold relisted; by rewrite E.
Qed.

Definition is_new (steps : list Step) (spec : StepSpec) : bool := negb (existsb (Z.eqb (ss_id spec)) (map step_id steps)).

Lemma is_new_true steps spec : is_new steps spec = true <-> ss_id spec ∉ map step_id steps.
Proof.
  unfold is_new. rewrite negb_true_iff, <- not_true_iff_false, existsb_exists, list_elem_of_In. split; intros Hn; contradict Hn.
  - exists (ss_id spec). split; [done|apply Z.eqb_refl].
  - destruct Hn as (x & Hx & ->%Z.eqb_eq). done.
Qed.

Lemma filter_new_app steps s specs : step_id s ∉ map ss_id specs ->
  List.filter (is_new (steps ++ [s])) specs = List.filter (is_new steps) specs.
Proof.
  intros Hn. apply List.filter_ext_in. intros spec Hin%list_elem_of_In. apply bool_eq_iff. rewrite !is_new_true, map_app.
  rewrite not_elem_of_app. cbn [map]. rewrite list_elem_of_singleton. split; [by intros []|].
  intros H; split; [done|]. intros Heq. apply Hn. rewrite <- Heq. apply list_elem_of_fmap. by exists spec.
Qed.

(** A step list is the old steps, relisted in their place, and then the new ones. *)
Lemma fold_list_step specs steps : NoDup (map step_id steps) -> NoDup (map ss_id specs) ->
  fold_left list_step specs steps = map (relisted specs) steps ++ map listed_new (List.filter (is_new steps) specs).
Proof.
  revert steps. induction specs as [|spec specs IH]; intros steps Hs Hnd; cbn [fold_left map].
  { cbn [List.filter map]. rewrite app_nil_r, (map_ext_in _ id), map_id; [done|].
    intros s _. apply relisted_absent. apply not_elem_of_nil. }
  apply NoDup_cons in Hnd as [Hn Hnd]. cbn [List.filter]. destruct (is_new steps spec) eqn:E.
  - pose proof (proj1 (is_new_true _ _) E) as Hnew. rewrite list_step_new by done. rewrite IH; [|rewrite map_app|done].
    + rewrite map_app, filter_new_app by done. cbn [map]. rewrite <- app_assoc. cbn [app].
      f_equal; [|f_equal; by apply relisted_absent].
      apply map_ext_in. intros s Hin%list_elem_of_In. rewrite <- (relisted_compose spec) by done. f_equal. symmetry.
      apply relisted_absent. cbn [map]. intros Heq%list_elem_of_singleton. apply Hnew. rewrite <- Heq.
      apply list_elem_of_fmap. by exists s.
    + apply NoDup_app. split; [done|]. split; [|by repeat constructor; apply not_elem_of_nil].
      intros x Hx Hx'%list_elem_of_singleton. by subst x.
  - assert (ss_id spec ∈ map step_id steps) as Hin.
    { destruct (decide (ss_id spec ∈ map step_id steps)) as [|Hc]; [done|]. apply is_new_true in Hc. congruence. }
    assert (map step_id (map (relisted [spec]) steps) = map step_id steps) as Hids.
    { rewrite map_map. apply map_ext. intros s. apply relisted_id. }
    rewrite list_step_old by done. rewrite IH; [|by rewrite Hids|done]. unfold is_new at 1. rewrite Hids, map_map.
    f_equal. apply map_ext. intros s. by apply relisted_compose.
Qed.

Lemma apply_steps_spec n specs : NoDup (step_ids n) ->
  (NoDup (map ss_id specs) ->
     apply_steps n specs = Ok (set_steps n (map (relisted specs) (finished n) ++ map listed_new (List.filter (is_new (finished n)) specs)))) /\
  (~ NoDup (map ss_id specs) -> exists id, apply_steps n specs = Err (bs "step id " ++ show_z id ++ bs " is listed twice")).
Proof.
  intros Hn. unfold apply_steps. fold (finished n). destruct (listed_twice [] specs) as [id|] eqn:E.
  - split; [|by exists id]. intros Hnd. enough (listed_twice [] specs = None) by congruence.
    apply listed_twice_None. split; [done|]. apply Forall_true. intros s. apply not_elem_of_nil.
  - apply listed_twice_None in E as [Hnd _]. split; [|done]. intros _. rewrite fold_list_step; [done| |done].
    apply (sublist_NoDup _ (step_ids n)); [done|]. unfold finished, step_ids. induction (nb_steps n) as [|s l IH]; [done|].
    cbn [List.filter map] in *. destruct (negb (is_pending s)); [by apply sublist_skip|by apply sublist_cons].
Qed.

(** * Simulation: what a notebook accepts depends on ids and statuses only *)

Definition same_step (a b : Step) : Prop := step_id a = step_id b /\ sp_status a = sp_status b.

Definition alike (n m : NotebookState) : Prop :=
  Forall2 same_step (nb_steps n) (nb_steps m) /\ nb_terminal n = nb_terminal m.

Lemma alike_refl n : alike n n.
Proof. split; [|done]. induction (nb_steps n); by repeat constructor. Qed.

Lemma find_alike id xs ys : Forall2 same_step xs ys ->
  option_Forall2 same_step (List.find (has_id id) xs) (List.find (has_id id) ys).
Proof.
  induction 1 as [|x y xs ys [H1 H2] _ IH]; [by constructor|]. cbn [List.find]. unfold has_id at 1 3.
  fold (step_id x) (step_id y). rewrite H1. destruct (step_id y =? id)%Z; [by constructor|done].
Qed.

Lemma step_mut_alike n m id f s : alike n m -> step_mut n id f = Ok s -> exists s', step_mut m id f = Ok s'.
Proof.
  intros [H _]. unfold step_mut. destruct (find_alike id _ _ H) as [x y [_ Hs]|]; [|done].
  rewrite Hs. destruct (sp_status y), f; intros [= <-]; eauto.
Qed.

Lemma write_step_alike id f g xs ys : Forall2 same_step xs ys ->
  (forall x y, same_step x y -> same_step (f x) (g y)) -> Forall2 same_step (write_step id f xs) (write_step id g ys).
Proof.
  intros H Hf. induction H as [|x y xs ys Hxy Hl IH]; [constructor|]. cbn [write_step]. unfold has_id.
  fold (step_id x) (step_id y). rewrite (proj1 Hxy). destruct (step_id y =? id)%Z; constructor; auto.
Qed.

Lemma list_step_alike xs ys a b : Forall2 same_step xs ys -> ss_id a = ss_id b ->
  Forall2 same_step (list_step xs a) (list_step ys b).
Proof.
  intros H Hab. induction H as [|x y xs ys Hxy Hl IH]; cbn [list_step]; [by repeat constructor|].
  unfold has_id. fold (step_id x) (step_id y). rewrite Hab, (proj1 Hxy). destruct (step_id y =? ss_id b)%Z; [|by constructor].
  rewrite (proj2 Hxy). destruct (sp_status y); constructor; done.
Qed.

Lemma fold_list_step_alike xs ys a b : Forall2 same_step xs ys -> map ss_id a = map ss_id b ->
  Forall2 same_step (fold_left list_step a xs) (fold_left list_step b ys).
Proof.
  revert xs ys b. induction a as [|s a IH]; intros xs ys [|s' b] H; try done. cbn [map fold_left].
  intros [= H1 H2]. apply IH; [|done]. by apply list_step_alike.
Qed.

Lemma filter_pending_alike xs ys : Forall2 same_step xs ys ->
  Forall2 same_step (List.filter (fun s => negb (is_pending s)) xs) (List.filter (fun s => negb (is_pending s)) ys).
Proof.
  induction 1 as [|x y xs ys Hxy Hl IH]; [constructor|]. cbn [List.filter].
  assert (is_pending x = is_pending y) as -> by (unfold is_pending; by rewrite (proj2 Hxy)).
  destruct (negb (is_pending y)); [by constructor|done].
Qed.

Lemma listed_twice_ids ids a b : map ss_id a = map ss_id b -> listed_twice ids a = listed_twice ids b.
Proof.
  revert ids b. induction a as [|s a IH]; intros ids [|s' b]; try done. cbn [map listed_twice]. intros [= -> H].
  destruct (existsb _ ids); [done|]. by apply IH.
Qed.

(** Events that touch the same steps in the same way. *)
Definition event_alike (e e' : NbEvent) : Prop :=
  match e, e' with
  | EvSteps a, EvSteps b => map ss_id a = map ss_id b
  | EvTick p, EvTick q => tp_step p = tp_step q /\ tp_partial p = tp_partial q
  | EvFailedStep p, EvFailedStep q => fp_step p = fp_step q
  | EvCorrection _, EvCorrection _ | EvAnswer _, EvAnswer _ | EvInfeasible _, EvInfeasible _ | EvCancelled, EvCancelled => True
  | _, _ => False
  end.

Lemma clean_event_alike e : event_alike e (clean_event e).
Proof.
  destruct e; cbn [clean_event event_alike clean_tick clean_failed tp_step tp_partial fp_step]; try done.
  rewrite map_map. by apply map_ext.
Qed.

Lemma apply_event_alike n m e e' q q' n' : alike n m -> event_alike e e' -> apply_event n q e = Ok n' ->
  exists m', apply_event m q' e' = Ok m' /\ alike n' m'.
Proof.
  intros Hnm He. destruct Hnm as [Hs Ht]. destruct e as [a|p|p| | | |], e' as [b|p'|p'| | | |]; try done; cbn [apply_event event_alike] in *.
  - unfold apply_steps. rewrite (listed_twice_ids [] a b) by done. destruct (listed_twice [] b); [done|]. intros [= <-].
    eexists. split; [done|]. split; [|done]. cbn [set_steps nb_steps]. by apply fold_list_step_alike; [apply filter_pending_alike|].
  - destruct He as [H1 H2]. unfold apply_tick. rewrite <- H1, <- H2.
    destruct (step_mut n _ _) as [s|] eqn:E; [|done]. destruct (step_mut_alike _ m _ _ _ (conj Hs Ht) E) as [s' ->].
    intros [= <-]. eexists. split; [done|]. split; [|done]. apply write_step_alike; [done|].
    intros x y [Hx Hy]. split; [done|]. cbn [sp_status]. by rewrite Hy.
  - unfold fail_step. rewrite <- He. destruct (step_mut n _ _) as [s|] eqn:E; [|done].
    destruct (step_mut_alike _ m _ _ _ (conj Hs Ht) E) as [s' ->]. intros [= <-]. eexists. split; [done|].
    split; [|done]. apply write_step_alike; [done|]. by intros x y [Hx Hy].
  - intros [= <-]. by eexists.
  - intros [= <-]. by eexists.
  - intros [= <-]. by eexists.
  - intros [= <-]. by eexists.
Qed.

Definition is_correction (e : NbEvent) : bool := match e with EvCorrection _ => true | _ => false end.

(** Events in order, under the rule of [fold]: nothing but corrections after the end. *)
Inductive applies : NotebookState -> list NbEvent -> NotebookState -> Prop :=
| applies_nil n : applies n [] n
| applies_cons n q e n1 es n2 :
    (nb_terminal n = true -> is_correction e = true) ->
    apply_event n q e = Ok n1 -> applies n1 es n2 -> applies n (e :: es) n2.

(** [shuffle own other all]: the rows of two writers, in the order they landed. *)
Inductive shuffle {A} : list A -> list A -> list A -> Prop :=
| shuffle_nil : shuffle [] [] []
| shuffle_l a xs ys zs : shuffle xs ys zs -> shuffle (a :: xs) ys (a :: zs)
| shuffle_r a xs ys zs : shuffle xs ys zs -> shuffle xs (a :: ys) (a :: zs).

Lemma event_alike_correction e e' : event_alike e e' -> is_correction e = is_correction e'.
Proof. by destruct e, e'. Qed.

(** The entry an event was stored as. *)
Definition stored (ev : NbEvent) (e : Entry) : Prop :=
  en_kind e = (event_row ev).1 /\ en_payload e = nul_free (event_row ev).2 /\ event_wf ev.

Lemma fold_stored fve m e ev : stored ev e -> (nb_terminal m = true -> is_correction ev = true) ->
  fold_entry fve m e = match apply_event m (en_seq e) (clean_event ev) with
                       | Ok m' => Ok (at_seq m' (en_seq e))
                       | Err d => Err (mkFoldError (en_seq e) (kind_as_str (en_kind e)) d)
                       end.
Proof.
  intros (Hk & Hp & Hwf) Ht. unfold fold_entry. destruct e as [task q k p]. cbn [en_kind en_payload en_seq] in *. subst k p.
  replace (nb_terminal m && negb (bool_decide ((event_row ev).1 = EkCorrection))) with false.
  - by rewrite (written_event_reads fve m task q ev Hwf).
  - destruct (nb_terminal m); [|done]. specialize (Ht eq_refl). by destruct ev.
Qed.

(** The corrections of the operator never stop the events of the turn from folding. *)
Lemma fold_shuffled fve n own after others all es : applies n own after -> shuffle own others all ->
  Forall (fun e => is_correction e = true) others -> Forall2 stored all es -> forall m, alike n m ->
  exists m', fold_from fve m es = Ok m' /\ alike after m'.
Proof.
  intros Ha Hs. revert n es Ha. induction Hs as [|e xs ys zs Hs IH|e xs ys zs Hs IH]; intros n es Ha Hc Hst m Hm.
  - inversion Ha; inversion Hst; subst. by exists m.
  - inversion Ha as [|? q ? n1 ? ? Ht He Hrest]; subst. inversion Hst as [|? x ? xs' Hx Hxs]; subst.
    destruct (apply_event_alike n m e (clean_event e) q (en_seq x) n1 Hm (clean_event_alike e) He) as (m1 & H1 & H2).
    destruct (IH n1 xs' Hrest Hc Hxs (at_seq m1 (en_seq x)) H2) as (m' & H3 & H4). exists m'. split; [|done]. cbn [fold_from].
    rewrite (fold_stored fve m x e) by (try done; by rewrite <- (proj2 Hm)). by rewrite H1.
  - apply list.Forall_cons in Hc as [He Hc]. inversion Hst as [|? x ? xs' Hx Hxs]; subst. cbn [fold_from].
    rewrite (fold_stored fve m x e) by done. destruct e as [| | |text| | |]; try done. cbn [clean_event apply_event].
    by apply (IH n xs').
Qed.

(** * What the decoders accept *)

Ltac unbind H :=
  repeat match type of H with (_ ≫= _) = Some _ => let x := fresh "x" in let E := fresh "E" in
           apply bind_Some in H as (x & E & H) end; try injection H as <-.

Lemma u32_accepted v z : u32_from_value v = Some z -> u32 z.
Proof.
  unfold u32_from_value, uint_from_value. destruct v as [| |[k|]| | |]; try done.
  destruct ((0 <=? k) && (k <=? U32_MAX))%Z eqn:E; [|done]. intros [= ->].
  apply andb_true_iff in E as [H1%Z.leb_le H2%Z.leb_le]. by split.
Qed.

Lemma req_u32 k v z : req_field k u32_from_value v = Some z -> u32 z.
Proof. unfold req_field. intros (w & _ & Hw)%bind_Some. by apply (u32_accepted w). Qed.

Lemma step_spec_accepted v s : step_spec_from_value v = Some s -> u32 (ss_id s).
Proof. unfold step_spec_from_value. intros H. unbind H. by eapply req_u32. Qed.

Lemma array_accepted {A} (dec : Value -> option A) (P : A -> Prop) v l :
  (forall v a, dec v = Some a -> P a) -> array_of dec v = Some l -> Forall P l.
Proof.
  intros Hd. unfold array_of. intros (vs & _ & H)%bind_Some. apply mapM_Some in H. induction H; constructor; eauto.
Qed.

Lemma steps_payload_accepted v specs : steps_payload_from_value v = Some specs -> Forall (fun s => u32 (ss_id s)) specs.
Proof.
  unfold steps_payload_from_value. intros H. unbind H. unfold req_field in H. apply bind_Some in H as (w & _ & H).
  by apply (array_accepted _ _ _ _ step_spec_accepted) in H.
Qed.

Definition reply_wf (r : NotebookReply) : Prop :=
  (forall t, rp_tick r = Some t -> u32 (ts_step t)) /\
  (forall steps, rp_steps r = Some steps -> Forall (fun s => u32 (ss_id s)) steps) /\
  (forall c, rp_call r = Some c -> u32 (cs_step c)).

Lemma option_field_accepted {A} k (dec : Value -> option A) (P : A -> Prop) v o :
  (forall v a, dec v = Some a -> P a) -> option_field k dec v = Some o -> forall a, o = Some a -> P a.
Proof.
  intros Hd. unfold option_field. destruct (get k v) as [w|]; [|by intros [= <-]].
  assert (Some <$> dec w = Some o -> forall a, o = Some a -> P a) as Hw.
  { destruct (dec w) as [a'|] eqn:E; [|done]. intros [= <-] a [= <-]. eauto. }
  destruct w; try exact Hw. by intros [= <-].
Qed.

Lemma tick_spec_accepted v t : tick_spec_from_value v = Some t -> u32 (ts_step t).
Proof. unfold tick_spec_from_value. intros H. unbind H. by eapply req_u32. Qed.

Lemma call_accepted v c : call_from_value v = Some c -> u32 (cs_step c).
Proof. unfold call_from_value. intros H. unbind H. by eapply req_u32. Qed.

Lemma reply_accepted v r : reply_from_value v = Some r -> reply_wf r.
Proof.
  unfold reply_from_value. intros H. unbind H. split; [|split]; cbn [rp_tick rp_steps rp_call].
  - by apply (option_field_accepted _ _ _ _ _ tick_spec_accepted E0).
  - apply (option_field_accepted (bs "steps") (array_of step_spec_from_value) _ v); [|done]. intros w l.
    apply array_accepted, step_spec_accepted.
  - by apply (option_field_accepted _ _ _ _ _ call_accepted E2).
Qed.

Section Parsed.
Context `{SerdeJson}.

Lemma lenient_accepted {T} (dec : Value -> option T) raw a :
  parse_json_lenient dec raw = Some a -> exists v, dec v = Some a.
Proof.
  unfold parse_json_lenient. destruct (json_doc raw ≫= dec) as [b|] eqn:E.
  - intros [= ->]. apply bind_Some in E as (v & _ & Hv). by exists v.
  - destruct (find_sub _ raw); [|done]. intros (v & _ & Hv)%bind_Some. by exists v.
Qed.

Lemma parse_reply_wf raw r : parse_reply raw = Ok r -> reply_wf r.
Proof.
  unfold parse_reply. destruct (parse_json_lenient reply_from_value raw) as [r'|] eqn:E.
  - intros [= ->]. apply lenient_accepted in E as [v Hv]. by apply reply_accepted in Hv.
  - destruct (parse_json_lenient (fun v => Some (to_value v)) raw) as [[| | | | |top]|]; try done.
    destruct (has_key _ top || _ || _); [done|]. destruct (reply_from_value _) as [r'|] eqn:E2; [|done].
    intros [= ->]. by apply reply_accepted in E2.
Qed.

End Parsed.

(** * The invariant *)

(** Step ids are distinct [u32]s; the class of every finding is counted. *)
Record notebook_wf (n : NotebookState) : Prop := {
  wf_ids : NoDup (step_ids n);
  wf_u32 : Forall (fun s => u32 (step_id s)) (nb_steps n);
  wf_findings : Forall (fun f => fn_classification f ∈ nb_touched n) (nb_findings n) }.

Lemma write_step_ids id f steps : (forall s, step_id (f s) = step_id s) ->
  map step_id (write_step id f steps) = map step_id steps.
Proof.
  intros Hf. induction steps as [|s steps IH]; [done|]. cbn [write_step]. destruct (has_id id s); cbn [map]; by rewrite ?Hf, ?IH.
Qed.

Lemma ids_u32 steps : Forall (fun s => u32 (step_id s)) steps <-> Forall u32 (map step_id steps).
Proof. by rewrite List.Forall_map. Qed.

Lemma apply_steps_ids n specs n' : NoDup (step_ids n) -> apply_steps n specs = Ok n' ->
  NoDup (step_ids n') /\ (forall i, i ∈ step_ids n' -> i ∈ step_ids n \/ i ∈ map ss_id specs).
Proof.
  intros Hn Ha. destruct (apply_steps_spec n specs Hn) as [H1 H2].
  destruct (decide (NoDup (map ss_id specs))) as [Hnd|Hnd]; [|by destruct (H2 Hnd) as [id E]; rewrite E in Ha].
  rewrite H1 in Ha by done. injection Ha as <-. unfold step_ids at 1 2. cbn [set_steps nb_steps].
  rewrite map_app, !map_map. rewrite (map_ext _ step_id) by (intros s; apply relisted_id).
  rewrite (map_ext (fun x => step_id (listed_new x)) ss_id) by done.
  assert (Hsub : map step_id (finished n) `sublist_of` step_ids n).
  { unfold finished, step_ids. induction (nb_steps n) as [|s l IH]; [done|]. cbn [List.filter map] in *.
    destruct (negb (is_pending s)); [by apply sublist_skip|by apply sublist_cons]. }
  assert (Hsub2 : map ss_id (List.filter (is_new (finished n)) specs) `sublist_of` map ss_id specs).
  { clear H1 H2 Hnd. induction specs as [|s l IH]; [done|]. cbn [List.filter map] in *.
    destruct (is_new _ s); [by apply sublist_skip|by apply sublist_cons]. }
  split.
  - apply NoDup_app. split; [by apply (sublist_NoDup _ _ Hn)|]. split; [|by apply (sublist_NoDup _ _ Hnd)].
    intros x Hx (spec & -> & Hs)%list_elem_of_fmap. apply list_elem_of_In, List.filter_In in Hs as [_ Hs].
    by apply is_new_true in Hs.
  - intros i [Hi|Hi]%elem_of_app; [left|right]; by eapply elem_of_sublist.
Qed.

Lemma touched_more c cs fs : Forall (fun f => fn_classification f ∈ cs) fs ->
  Forall (fun f => fn_classification f ∈ cs ++ [c]) fs.
Proof. intros H. apply (list.Forall_impl _ _ _ H). intros f Hf. by apply elem_of_app; left. Qed.

Lemma apply_steps_wf n specs n' : notebook_wf n -> Forall (fun s => u32 (ss_id s)) specs ->
  apply_steps n specs = Ok n' -> notebook_wf n'.
Proof.
  intros Hwf Hs Ha. destruct (apply_steps_ids n specs n' (wf_ids _ Hwf) Ha) as [H1 H2].
  assert (nb_findings n' = nb_findings n /\ nb_touched n' = nb_touched n) as [Hf Ht].
  { unfold apply_steps in Ha. destruct (listed_twice [] specs); [done|]. by injection Ha as <-. }
  split; [done| |by rewrite Hf, Ht; apply Hwf]. apply ids_u32, list.Forall_forall. intros i [Hi|Hi]%H2.
  - pose proof (proj1 (ids_u32 _) (wf_u32 _ Hwf)) as Hu. rewrite list.Forall_forall in Hu. by apply Hu.
  - apply list_elem_of_fmap in Hi as (s & -> & Hin). rewrite list.Forall_forall in Hs. by apply Hs.
Qed.

Lemma write_step_wf n id f n' : notebook_wf n -> (forall s, step_id (f s) = step_id s) ->
  nb_steps n' = write_step id f (nb_steps n) ->
  Forall (fun x => fn_classification x ∈ nb_touched n') (nb_findings n') -> notebook_wf n'.
Proof.
  intros Hwf Hf Hs Hfs. assert (step_ids n' = step_ids n) as Hids.
  { unfold step_ids. by rewrite Hs, write_step_ids. }
  split; [by rewrite Hids; apply Hwf| |done]. apply ids_u32. change (Forall u32 (step_ids n')). rewrite Hids.
  apply ids_u32, Hwf.
Qed.

Lemma apply_tick_wf n p n' : notebook_wf n -> apply_tick n p = Ok n' -> notebook_wf n'.
Proof.
  intros Hwf. unfold apply_tick. destruct (step_mut _ _ _); [|done]. intros [= <-].
  eapply (write_step_wf n); [done| |done|]; [by intros s|]. cbn [nb_findings nb_touched]. apply list.Forall_app. split.
  - by apply touched_more, Hwf.
  - apply List.Forall_map, Forall_true. intros f. apply elem_of_app. right. by apply list_elem_of_singleton.
Qed.

Lemma fail_step_wf n p n' : notebook_wf n -> fail_step n p = Ok n' -> notebook_wf n'.
Proof.
  intros Hwf. unfold fail_step. destruct (step_mut _ _ _); [|done]. intros [= <-].
  eapply (write_step_wf n); [done| |done|]; [by intros s|]. by apply touched_more, Hwf.
Qed.

Lemma fold_entry_wf fve n e n' : notebook_wf n -> fold_entry fve n e = Ok n' -> notebook_wf n'.
Proof.
  intros Hwf. unfold fold_entry. destruct (nb_terminal n && _); [done|].
  destruct (apply_entry fve n e) as [n1|] eqn:E; [|done]. intros [= <-].
  enough (notebook_wf n1) as [H1 H2 H3] by (by split).
  unfold apply_entry, decode in E. destruct (en_kind e).
  - destruct (steps_payload_from_value _) as [specs|] eqn:Ed; [|done]. apply steps_payload_accepted in Ed.
    by apply (apply_steps_wf n specs).
  - destruct (tick_payload_from_value _) as [p|]; [|done]. by apply (apply_tick_wf n p).
  - destruct (failed_payload_from_value _) as [p|]; [|done]. by apply (fail_step_wf n p).
  - destruct (text_payload_from_value _ _); [|done]. injection E as <-. split; apply Hwf.
  - destruct (text_payload_from_value _ _); [|done]. injection E as <-. split; apply Hwf.
  - destruct (text_payload_from_value _ _); [|done]. injection E as <-. split; apply Hwf.
  - injection E as <-. split; apply Hwf.
Qed.

Lemma fold_from_wf fve es n n' : notebook_wf n -> fold_from fve n es = Ok n' -> notebook_wf n'.
Proof.
  revert n. induction es as [|e es IH]; intros n Hwf; cbn [fold_from]; [by intros [= <-]|].
  destruct (fold_entry fve n e) as [n1|] eqn:E; [|done]. apply IH. by apply (fold_entry_wf fve n e).
Qed.

Lemma fold_wf fve es n : fold fve es = Ok n -> notebook_wf n.
Proof. apply fold_from_wf. split; constructor. Qed.

Lemma fold_from_app fve n es es' :
  fold_from fve n (es ++ es') = match fold_from fve n es with Ok n' => fold_from fve n' es' | Err e => Err e end.
Proof. revert n. induction es as [|e es IH]; intros n; [done|]. cbn [app fold_from]. by destruct (fold_entry fve n e). Qed.

(** * The table *)

(** A task's rows in the table: [1 <= seq], in the order written. *)
Definition rows_ordered (t : list NbRow) : Prop :=
  forall task, StronglySorted (fun a b => (nr_seq a < nr_seq b)%Z) (rows_of task t) /\ Forall (fun r => (1 <= nr_seq r)%Z) (rows_of task t).

Lemma max_seq_bound rows : match max_seq rows with
                           | Some m => Forall (fun r => (nr_seq r <= m)%Z) rows /\ Exists (fun r => nr_seq r = m) rows
                           | None => rows = []
                           end.
Proof.
  induction rows as [|r rows IH]; [done|]. cbn [max_seq fold_right]. change (fold_right _ None rows) with (max_seq rows).
  destruct (max_seq rows) as [m|].
  - destruct IH as [IH1 IH2]. split.
    + constructor; [lia|]. apply (list.Forall_impl _ _ _ IH1). intros x Hx. lia.
    + destruct (Z.le_ge_cases (nr_seq r) m); [rewrite Z.max_r by lia; by right|rewrite Z.max_l by lia; by left].
  - subst rows. split; [by constructor; [lia|]|by left].
Qed.

Lemma rows_of_app task t t' : rows_of task (t ++ t') = rows_of task t ++ rows_of task t'.
Proof. apply List.filter_app. Qed.

Lemma rows_of_one task r : rows_of task [r] = if (nr_task_id r =? task)%Z then [r] else [].
Proof. done. Qed.

Lemma next_seq_above task t : rows_ordered t ->
  let q := (default 0 (max_seq (rows_of task t)) + 1)%Z in
  (1 <= q)%Z /\ Forall (fun r => (nr_seq r < q)%Z) (rows_of task t).
Proof.
  intros Ht q. unfold q. pose proof (max_seq_bound (rows_of task t)) as Hm. destruct (Ht task) as [_ Hpos].
  destruct (max_seq (rows_of task t)) as [m|]; cbn [default].
  - destruct Hm as [H1 (r & Hr & <-)%Exists_exists]. rewrite list.Forall_forall in Hpos. specialize (Hpos r Hr). cbv beta in Hpos.
    split; [unfold id; lia|]. apply (list.Forall_impl _ _ _ H1). intros x Hx. cbv beta in Hx. unfold id. lia.
  - rewrite Hm. split; [lia|constructor].
Qed.

Lemma sorted_snoc {A} (R : A -> A -> Prop) l x : StronglySorted R l -> Forall (fun y => R y x) l -> StronglySorted R (l ++ [x]).
Proof.
  induction 1 as [|y l Hl IH Hy]; cbn [app]; [by repeat constructor|]. intros [Hx Hr]%list.Forall_cons.
  constructor; [by apply IH|]. apply list.Forall_app. by split; [|constructor].
Qed.

Lemma append_ordered t task k v : rows_ordered t -> rows_ordered (append t task k v).1.
Proof.
  intros Ht task'. unfold append. cbn [fst]. rewrite rows_of_app, rows_of_one. cbn [nr_task_id].
  destruct (Z.eqb_spec task task') as [<-|Hne]; [|rewrite app_nil_r; apply Ht].
  destruct (next_seq_above task t Ht) as [H1 H2]. destruct (Ht task) as [H3 H4]. split.
  - by apply sorted_snoc.
  - apply list.Forall_app. split; [done|]. by constructor.
Qed.

Lemma order_sorted rows : StronglySorted (fun a b => (nr_seq a < nr_seq b)%Z) rows -> order_by_seq rows = rows.
Proof.
  induction 1 as [|r rows Hs IH Hr]; [done|]. unfold order_by_seq in *. cbn [fold_right]. rewrite IH.
  destruct rows as [|r' rows]; [done|]. cbn [insert_by_seq]. apply list.Forall_cons in Hr as [Hr _].
  by rewrite (proj2 (Z.leb_le _ _)) by lia.
Qed.

Lemma entries_ordered t task : rows_ordered t -> entries t task 0 = mapM entry_of_row (rows_of task t).
Proof.
  intros Ht. destruct (Ht task) as [H1 H2]. unfold entries. rewrite (List.forallb_filter_id (fun r => 0 <? nr_seq r)%Z).
  - by rewrite order_sorted.
  - apply forallb_Forall. apply (list.Forall_impl _ _ _ H2). intros r Hr. apply Z.ltb_lt. cbv beta in Hr. lia.
Qed.

Lemma kind_reads k : kind_from_str (kind_as_str k) = Some k.
Proof. by destruct k. Qed.

Lemma mapM_app_Some {A B} (f : A -> option B) l l' : mapM f (l ++ l') = (xs ← mapM f l; ys ← mapM f l'; Some (xs ++ ys)).
Proof.
  induction l as [|a l IH]; [cbn; by destruct (mapM f l')|]. cbn [app mapM]. destruct (f a); [|done]. cbn [mbind option_bind].
  rewrite IH. destruct (mapM f l); [|done]. cbn [mbind option_bind]. by destruct (mapM f l').
Qed.

(** An append adds one entry, last, to its own task and none to another. *)
Lemma append_entries t task k v es : rows_ordered t -> entries t task 0 = Some es ->
  entries (append t task k v).1 task 0 = Some (es ++ [mkEntry task (append t task k v).2 k (nul_free v)]) /\
  (forall other, other <> task -> entries (append t task k v).1 other 0 = entries t other 0).
Proof.
  intros Ht He. pose proof (append_ordered t task k v Ht) as Ht'. split.
  - rewrite entries_ordered in He by done. rewrite entries_ordered by done. unfold append. cbn [fst snd].
    rewrite rows_of_app, mapM_app_Some, He, rows_of_one. cbn [nr_task_id]. rewrite Z.eqb_refl.
    cbn [mapM mbind option_bind]. unfold entry_of_row. cbn [nr_kind nr_task_id nr_seq nr_payload]. by rewrite kind_reads.
  - intros other Hne. rewrite !entries_ordered by done. unfold append. cbn [fst]. rewrite rows_of_app, rows_of_one.
    cbn [nr_task_id]. rewrite (proj2 (Z.eqb_neq _ _)) by congruence. by rewrite app_nil_r.
Qed.

(** Writing events one after the other. *)
Definition write_event (task : Z) (t : list NbRow) (ev : NbEvent) : list NbRow :=
  (append t task (event_row ev).1 (event_row ev).2).1.

Lemma write_events evs task t es : Forall event_wf evs -> rows_ordered t -> entries t task 0 = Some es ->
  exists new, entries (fold_left (write_event task) evs t) task 0 = Some (es ++ new) /\ Forall2 stored evs new /\
    rows_ordered (fold_left (write_event task) evs t).
Proof.
  intros Hwf. revert t es. induction Hwf as [|ev evs Hev Hwf IH]; intros t es Ht He; cbn [fold_left].
  - exists []. rewrite app_nil_r. by split.
  - destruct (append_entries t task (event_row ev).1 (event_row ev).2 es Ht He) as [H1 _].
    destruct (IH (write_event task t ev) _ (append_ordered t task _ _ Ht) H1) as (new & H2 & H3 & H4).
    eexists (_ :: new). split; [rewrite H2; by rewrite <- app_assoc|]. split; [|done]. by constructor.
Qed.

(** * An accepted reply folds *)

Definition reply_events (r : NotebookReply) (c : DataClass) : list NbEvent :=
  match tick_payload r c with Some p => [EvTick p] | None => [] end ++
  match rp_steps r with Some steps => [EvSteps steps] | None => [] end.

(** How the turn ends: still open, a failed or blocked call, an answer, a reason
    why not, or a cancel. *)
Inductive turn_end (r : NotebookReply) : list NbEvent -> Prop :=
| end_open : turn_end r []
| end_failed call p : rp_call r = Some call -> fp_step p = cs_step call -> turn_end r [EvFailedStep p]
| end_answer a : rp_answer r = Some a -> turn_end r [EvAnswer (as_body a)]
| end_infeasible reason : rp_infeasible r = Some reason -> turn_end r [EvInfeasible reason]
| end_cancelled : turn_end r [EvCancelled].

Lemma applies_app n a m b p : applies n a m -> applies m b p -> applies n (a ++ b) p.
Proof. induction 1; cbn [app]; [done|]. intros Hb. econstructor; eauto. Qed.

Lemma validate_Ok r n : validate r n = Ok () ->
  exists ticked after, apply_reply_tick r Public n = Ok ticked /\ apply_reply_steps r ticked = Ok after /\
    check_call r after = Ok ().
Proof.
  unfold validate. destruct (negb _); [done|]. destruct (bool_decide _ && _); [done|].
  destruct (match rp_tick r with Some t => check_tick r n t | None => Ok () end); [|done].
  destruct (apply_reply_tick r Public n) as [ticked|]; [|done].
  destruct (apply_reply_steps r ticked) as [after|] eqn:E; [|done]. intros Hc. by exists ticked, after.
Qed.

Lemma apply_tick_terminal n p n' : apply_tick n p = Ok n' -> nb_terminal n' = nb_terminal n.
Proof. unfold apply_tick. destruct (step_mut _ _ _); [|done]. by intros [= <-]. Qed.

Lemma apply_steps_terminal n specs n' : apply_steps n specs = Ok n' -> nb_terminal n' = nb_terminal n.
Proof. unfold apply_steps. destruct (listed_twice _ _); [done|]. by intros [= <-]. Qed.

Lemma check_call_alike r a b : alike a b -> check_call r a = Ok () -> check_call r b = Ok ().
Proof.
  intros [Ha _]. unfold check_call. destruct (rp_call r) as [call|]; [|done].
  assert (existsb (fun s => has_id (cs_step call) s && is_pending s) (nb_steps b) =
          existsb (fun s => has_id (cs_step call) s && is_pending s) (nb_steps a)) as ->; [|by destruct (existsb _ _)].
  induction Ha as [|x y xs ys [Hx Hy] _ IH]; [done|]. cbn [existsb]. rewrite IH.
  unfold has_id, is_pending. fold (step_id x) (step_id y). by rewrite Hx, Hy.
Qed.

Lemma tick_any_class r n c ticked : apply_reply_tick r Public n = Ok ticked -> nb_terminal n = false ->
  exists ticked', apply_reply_tick r c n = Ok ticked' /\ alike ticked ticked' /\ nb_terminal ticked' = false /\
    applies n match tick_payload r c with Some p => [EvTick p] | None => [] end ticked'.
Proof.
  unfold apply_reply_tick, tick_payload. destruct (rp_tick r) as [t|]; cbn [mbind option_bind]; intros H1 Ht.
  - match type of H1 with apply_tick n ?p = _ =>
      destruct (apply_event_alike n n (EvTick p) (EvTick (mkTick (tp_step p) (tp_note p) (tp_findings p) (tp_summary p) c
        (tp_partial p))) 0%Z 0%Z ticked (alike_refl n) (conj eq_refl eq_refl) H1) as (m & Hm & Ha) end.
    exists m. split; [exact Hm|]. split; [exact Ha|]. split; [by rewrite (apply_tick_terminal n _ _ Hm)|].
    econstructor; [by rewrite Ht|exact Hm|constructor].
  - injection H1 as <-. exists n. split; [done|]. split; [apply alike_refl|]. by split; [|constructor].
Qed.

(** What the loop applies is what was checked, whatever class it stamps. *)
Lemma validated_applies r n c : validate r n = Ok () -> nb_terminal n = false ->
  exists ticked after, apply_reply_tick r c n = Ok ticked /\ apply_reply_steps r ticked = Ok after /\
    check_call r after = Ok () /\ applies n (reply_events r c) after /\ nb_terminal after = false.
Proof.
  intros (ticked & after & H1 & H2 & H3)%validate_Ok Ht.
  destruct (tick_any_class r n c ticked H1 Ht) as (ticked' & E1 & E2 & E3 & E4). exists ticked'. unfold reply_events.
  unfold apply_reply_steps in *. destruct (rp_steps r) as [steps|].
  - destruct (apply_event_alike ticked ticked' (EvSteps steps) (EvSteps steps) 0%Z 0%Z after E2 eq_refl H2) as (m & Hm & Ha).
    exists m. split; [done|]. split; [done|]. split; [by apply (check_call_alike r after)|].
    split; [|by rewrite (apply_steps_terminal _ _ _ Hm)].
    eapply applies_app; [exact E4|]. econstructor; [by rewrite E3|exact Hm|constructor].
  - injection H2 as <-. exists ticked'. rewrite app_nil_r. split; [done|]. split; [done|].
    by split; [apply (check_call_alike r ticked)|].
Qed.

Lemma check_call_pending r after call : check_call r after = Ok () -> rp_call r = Some call ->
  exists s, s ∈ nb_steps after /\ step_id s = cs_step call /\ sp_status s = Pending.
Proof.
  unfold check_call. intros Hc Hr. rewrite Hr in Hc. destruct (existsb _ (nb_steps after)) eqn:E; [|done].
  apply existsb_exists in E as (s & Hs & [H1%Z.eqb_eq H2%bool_decide_eq_true]%andb_true_iff).
  exists s. split; [by apply list_elem_of_In|done].
Qed.

Lemma find_unique id steps s : NoDup (map step_id steps) -> s ∈ steps -> step_id s = id -> List.find (has_id id) steps = Some s.
Proof.
  induction steps as [|x steps IH]; cbn [map List.find]; [intros _ H; by apply elem_of_nil in H|].
  intros [Hn Hnd]%NoDup_cons Hin Hid. unfold has_id at 1. fold (step_id x).
  destruct (Z.eqb_spec (step_id x) id) as [He|He]; apply elem_of_cons in Hin as [->|Hin]; try done; [|by apply IH].
  contradict Hn. rewrite He, <- Hid. apply list_elem_of_fmap. by exists s.
Qed.

(** A pending step can be marked failed. *)
Lemma fail_pending n s p : NoDup (step_ids n) -> s ∈ nb_steps n -> step_id s = fp_step p -> sp_status s = Pending ->
  exists n', fail_step n p = Ok n'.
Proof.
  intros Hn Hin Hid Hs. unfold fail_step, step_mut. rewrite (find_unique (fp_step p) (nb_steps n) s) by done. rewrite Hs. eauto.
Qed.

Lemma end_applies r n ends : turn_end r ends -> NoDup (step_ids n) -> nb_terminal n = false -> check_call r n = Ok () ->
  exists n', applies n ends n'.
Proof.
  intros He Hn Ht Hc. destruct He as [|call p Hr Hp|a Ha|reason Hi|].
  - exists n. constructor.
  - destruct (check_call_pending r n call Hc Hr) as (s & H1 & H2 & H3).
    destruct (fail_pending n s p Hn H1 ltac:(congruence) H3) as [n' Hf]. exists n'.
    econstructor; [by rewrite Ht|exact (Hf : apply_event n 0 (EvFailedStep p) = Ok n')|constructor].
  - exists (end_notebook n). apply (applies_cons n 0 _ (end_notebook n)); [by rewrite Ht|done|constructor].
  - exists (end_notebook n). apply (applies_cons n 0 _ (end_notebook n)); [by rewrite Ht|done|constructor].
  - exists (end_notebook n). apply (applies_cons n 0 _ (end_notebook n)); [by rewrite Ht|done|constructor].
Qed.

Lemma applied_wf r n c ticked after : notebook_wf n -> reply_wf r -> apply_reply_tick r c n = Ok ticked ->
  apply_reply_steps r ticked = Ok after -> notebook_wf after.
Proof.
  intros Hn (_ & Hr & _) H1 H2. assert (notebook_wf ticked) as Ht.
  { unfold apply_reply_tick in H1. destruct (tick_payload r c); [by apply (apply_tick_wf n t)|by injection H1 as <-]. }
  unfold apply_reply_steps in H2. destruct (rp_steps r) as [steps|]; [|by injection H2 as <-].
  apply (apply_steps_wf ticked steps); [done|by apply Hr|done].
Qed.

Lemma keep_called_step_wf r n : notebook_wf n -> reply_wf r -> reply_wf (keep_called_step r n).
Proof.
  intros Hn Hr. unfold keep_called_step. destruct (rp_call r) as [call|] eqn:Ec; [|exact Hr].
  destruct (rp_steps r) as [steps|] eqn:Es; [|exact Hr]. destruct (existsb _ steps); [exact Hr|].
  destruct (List.find _ (nb_steps n)) as [kept|] eqn:Ef; [|exact Hr]. destruct Hr as (H1 & H2 & H3).
  split; [exact H1|]. split; [|exact H3]. cbn [with_reply_steps rp_steps]. intros l [= <-]. constructor; [|by apply H2].
  apply List.find_some in Ef as [Hin%list_elem_of_In _]. pose proof (wf_u32 _ Hn) as Hu. rewrite list.Forall_forall in Hu.
  by apply (Hu kept).
Qed.

Lemma check_reply_Ok `{SerdeJson} k n raw r : notebook_wf n -> check_reply k n raw = Ok r -> reply_wf r /\ validate r n = Ok ().
Proof.
  intros Hn. unfold check_reply. destruct (parse_reply raw) as [r0|] eqn:E; [|done]. apply parse_reply_wf in E.
  assert (reply_wf (keep_called_step (trim_reply k r0) n)) as Hwf.
  { apply keep_called_step_wf; [done|]. unfold trim_reply. destruct (bool_decide _); [|done]. destruct E as (H1 & H2 & H3). by split. }
  destruct (validate _ n) as [[]|] eqn:Ev; [|done]. destruct (answer_only k); [|by intros [= <-]].
  destruct (require_answer _); [|done]. by intros [= <-].
Qed.

Lemma reply_events_wf r c : reply_wf r -> Forall event_wf (reply_events r c).
Proof.
  intros (H1 & H2 & _). unfold reply_events, tick_payload. apply list.Forall_app. split.
  - destruct (rp_tick r) as [t|]; cbn [mbind option_bind]; [|constructor]. constructor; [by apply H1|constructor].
  - destruct (rp_steps r) as [steps|]; [|constructor]. constructor; [by apply H2|constructor].
Qed.

Lemma turn_end_wf r ends : reply_wf r -> turn_end r ends -> Forall event_wf ends.
Proof.
  intros (_ & _ & H3) [|call p Hr Hp| | |]; [constructor|constructor; [|constructor]|by repeat constructor..]. cbn [event_wf]. rewrite Hp. by apply H3.
Qed.

Lemma shuffle_Forall {A} (P : A -> Prop) xs ys zs : shuffle xs ys zs -> Forall P xs -> Forall P ys -> Forall P zs.
Proof. induction 1; intros Hx Hy; [constructor|inversion Hx; subst; constructor; auto|inversion Hy; subst; constructor; auto]. Qed.

(** Every entry an accepted reply becomes folds.  Let a task's notebook fold to
    an open state, and let [ask] accept a reply against that state.  Whatever
    class the loop stamps on the tick, the tick and the steps apply to the state
    it holds in memory; and once its rows are written - the tick, the steps and
    the row of how the turn ended, with NULs escaped, and any number of operator
    corrections landing before, between or after them - the task's notebook
    folds again.  While the turn is open, the steps it then shows have the ids
    and statuses the loop holds in memory, and the step the reply calls is
    pending. *)
Theorem accepted_reply_folds `{SerdeJson} fve k raw t task es n r c ends others all :
  rows_ordered t -> entries t task 0 = Some es -> fold fve es = Ok n -> nb_terminal n = false ->
  check_reply k n raw = Ok r -> turn_end r ends -> Forall (fun e => is_correction e = true) others ->
  shuffle (reply_events r c ++ ends) others all ->
  exists ticked after es' n',
    apply_reply_tick r c n = Ok ticked /\ apply_reply_steps r ticked = Ok after /\
    entries (fold_left (write_event task) all t) task 0 = Some es' /\ fold fve es' = Ok n' /\
    (ends = [] ->
       Forall2 same_step (nb_steps after) (nb_steps n') /\
       forall call, rp_call r = Some call ->
         exists s, s ∈ nb_steps n' /\ step_id s = cs_step call /\ sp_status s = Pending).
Proof.
  intros Ht He Hf Hopen Hc Hend Hoth Hsh. pose proof (fold_wf fve es n Hf) as Hwf.
  destruct (check_reply_Ok k n raw r Hwf Hc) as [Hrwf Hv].
  destruct (validated_applies r n c Hv Hopen) as (ticked & after & H1 & H2 & H3 & H4 & H5).
  pose proof (applied_wf r n c ticked after Hwf Hrwf H1 H2) as Hwf'.
  destruct (end_applies r after ends Hend (wf_ids _ Hwf') H5 H3) as [final Hfin].
  assert (Forall event_wf all) as Hall.
  { apply (shuffle_Forall _ _ _ _ Hsh); [apply list.Forall_app; split; [by apply reply_events_wf|by apply (turn_end_wf r)]|].
    apply (list.Forall_impl _ _ _ Hoth). by intros []. }
  destruct (write_events all task t es Hall Ht He) as (new & E1 & E2 & _).
  destruct (fold_shuffled fve n _ final others all new (applies_app _ _ _ _ _ H4 Hfin) Hsh Hoth E2 n (alike_refl n))
    as (n' & E3 & E4).
  exists ticked, after, (es ++ new), n'. split; [done|]. split; [done|]. split; [done|]. split.
  { unfold fold. rewrite fold_from_app. fold (fold fve es). by rewrite Hf. }
  intros ->. inversion Hfin; subst. split; [apply E4|]. intros call Hr. apply (check_call_pending r n' call); [|done].
  by apply (check_call_alike r final).
Qed.

(** * Further properties *)

(** A replan keeps what is finished.  In a notebook that folded, the step list
    [specs] with distinct ids replaces the pending steps: the done steps stay as
    they are, a failed step that is listed is pending again, in its place, with
    the new description, one that is not listed stays failed, and the other
    listed steps follow in the order listed.  A list with an id twice is refused. *)
Theorem replan_keeps_finished_work fve es n specs : fold fve es = Ok n ->
  (NoDup (map ss_id specs) ->
     apply_steps n specs =
     Ok (set_steps n (map (relisted specs) (finished n) ++ map listed_new (List.filter (is_new (finished n)) specs))) /\
     (forall s, s ∈ nb_steps n -> sp_status s = Done -> s ∈ map (relisted specs) (finished n))) /\
  (~ NoDup (map ss_id specs) -> exists id, apply_steps n specs = Err (bs "step id " ++ show_z id ++ bs " is listed twice")).
Proof.
  intros Hf. destruct (apply_steps_spec n specs (wf_ids _ (fold_wf fve es n Hf))) as [H1 H2]. split; [|exact H2].
  intros Hnd. split; [by apply H1|]. intros s Hin Hs. apply list_elem_of_fmap. exists s.
  split; [unfold relisted; by rewrite Hs|]. apply list_elem_of_In, List.filter_In. split; [by apply list_elem_of_In|].
  unfold is_pending. by rewrite Hs.
Qed.

Lemma answer_ceiling_ge floor cs declared c :
  c = floor \/ c ∈ cs \/ declared = Some c -> (rank c <= rank (answer_ceiling floor cs declared))%Z.
Proof.
  unfold answer_ceiling. intros Hc. destruct (fold_max_class (cs ++ match declared with Some c => [c] | None => [] end) floor)
    as [H1 H2]. rewrite list.Forall_forall in H2. destruct Hc as [->|[Hc|Hd]]; [done|apply H2; by apply elem_of_app; left|].
  apply H2, elem_of_app. right. rewrite Hd. by apply list_elem_of_singleton.
Qed.

(** An answer never carries less than the data behind it.  The ceiling of an
    answer is at least the task's floor, the class the model declared, the class
    of every finding in the notebook - shown in the answer or not -, the class
    of every ticked or failed step, and the class of every call dispatched. *)
Theorem answer_ceiling_covers_the_task fve es n plans floor declared : fold fve es = Ok n ->
  let ceiling := answer_ceiling floor (touched n plans) declared in
  (rank floor <= rank ceiling)%Z /\
  (forall d, declared = Some d -> rank d <= rank ceiling)%Z /\
  Forall (fun f => rank (fn_classification f) <= rank ceiling)%Z (nb_findings n) /\
  Forall (fun c => rank c <= rank ceiling)%Z (nb_touched n) /\
  Forall (fun r => Forall (fun so => rank (st_classification so.1) <= rank ceiling)%Z (zip (pl_steps (rec_plan r)) (rec_outcomes r))) plans.
Proof.
  intros Hf ceiling. assert (Ht : forall c, c ∈ touched n plans -> (rank c <= rank ceiling)%Z).
  { intros c Hc. apply answer_ceiling_ge. by right; left. }
  split; [apply answer_ceiling_ge; by left|]. split; [intros d Hd; apply answer_ceiling_ge; by right; right|].
  split; [|split].
  - apply (list.Forall_impl _ _ _ (wf_findings _ (fold_wf fve es n Hf))). intros f Hin. apply Ht. by apply elem_of_app; left.
  - apply list.Forall_forall. intros c Hc. apply Ht. by apply elem_of_app; left.
  - apply list.Forall_forall. intros r Hr. apply list.Forall_forall. intros [s o] Hso. apply Ht, elem_of_app. right.
    apply list_elem_of_In, in_concat. eexists. split; [apply in_map_iff; exists r; split; [reflexivity|by apply list_elem_of_In]|].
    apply list_elem_of_In, list_elem_of_fmap. exists s. split; [done|]. clear -Hso. revert Hso. cbn [fst].
    generalize (rec_outcomes r). induction (pl_steps (rec_plan r)) as [|x xs IH]; intros [|o' os]; cbn [zip_with length take];
      try (intros Hc; by apply elem_of_nil in Hc).
    intros [[= -> ->]|Hc]%elem_of_cons; [by apply list_elem_of_here|]. apply list_elem_of_further. by apply (IH os).
Qed.

(** An empty replan costs the answer.  The turn that rewrites an answer drops
    the reply's step list and is told to send none; when the notebook lists no
    step any more - which a reply with an empty [steps] beside its answer
    makes so, and which [validate] accepts - every reply of that turn is refused. *)
Theorem empty_replan_blocks_the_answer `{SerdeJson} :
  (forall n raw, nb_steps n = [] -> exists e, check_reply TkWriteAnswer n raw = Err e) /\
  (forall n a, nb_steps n <> [] -> Forall (fun s => sp_status s = Pending) (nb_steps n) ->
     let r := mkReply None (Some []) None (Some a) None in
     validate r n = Ok () /\ exists n', apply_reply_steps r n = Ok n' /\ nb_steps n' = []).
Proof.
  split.
  - intros n raw Hn. unfold check_reply. destruct (parse_reply raw) as [r|e]; [|by exists e].
    unfold trim_reply. rewrite bool_decide_true by done.
    assert (keep_called_step (mkReply None None (rp_call r) (rp_answer r) (rp_infeasible r)) n =
            mkReply None None (rp_call r) (rp_answer r) (rp_infeasible r)) as ->.
    { unfold keep_called_step. cbn [rp_call rp_steps]. by destruct (rp_call r). }
    unfold validate. destruct (negb _); [by eexists|]. cbn [rp_steps is_some negb]. rewrite bool_decide_true by done.
    by eexists.
  - intros n a Hn Hp r. assert (apply_reply_steps r n = Ok (set_steps n [])) as Ha.
    { unfold apply_reply_steps, apply_steps. cbn [r rp_steps listed_twice fold_left]. do 2 f_equal.
      clear Hn. induction Hp as [|s l Hs _ IH]; [done|]. cbn [List.filter]. unfold is_pending at 1. by rewrite Hs. }
    split; [|by eexists]. unfold validate. change (rp_tick r) with (@None TickSpec).
    change (apply_reply_tick r Public n) with (@Ok NotebookState bytes n).
    change (negb (is_some (rp_steps r))) with false. rewrite andb_false_r, Ha. reflexivity.
Qed.

(** The turn cap.  A run may spend twice the plans it has left, in turns: the
    cap is at least the turns spent, at most the turns spent plus twice the
    plans left, and exactly that while it fits a [u32]. *)
Theorem turn_cap_doubles_what_is_left spent max_plans : u32 spent -> u32 max_plans ->
  (spent <= turn_cap spent max_plans <= spent + 2 * Z.max 0 (max_plans - spent))%Z /\ u32 (turn_cap spent max_plans) /\
  ((spent + 2 * Z.max 0 (max_plans - spent) <= U32_MAX)%Z ->
     turn_cap spent max_plans = (spent + 2 * Z.max 0 (max_plans - spent))%Z).
Proof. unfold u32, turn_cap, sat_u32, NOTEBOOK_TURNS_PER_PLAN, U32_MAX. intros. lia. Qed.

Lemma trim_start_mark rest : str_trim_start (SIFT_READS_DECISION ++ rest) = SIFT_READS_DECISION ++ rest.
Proof.
  unfold str_trim_start. rewrite <- (groups_concat (SIFT_READS_DECISION ++ rest)) at 2. f_equal.
  change (SIFT_READS_DECISION ++ rest) with ([115%Z] ++ (bs "ift reads: " ++ rest)). by rewrite groups_app.
Qed.

(** The planner's own calls are told apart from a sift's reads.  The plan of a
    call that [validate] accepted names the call's step, its decision is not
    marked as a sift's reads, and its class is within its ceiling; so once it
    succeeded and its result is still held, the same tool and method with the
    same parameters - numbers and booleans compared as text - count as made. *)
Theorem made_call_is_recognised r n call floor plans step v held : validate r n = Ok () -> reply_wf r -> rp_call r = Some call ->
  let plan := call_plan r call floor in
  notebook_step_of plan = Some (cs_step call) /\
  starts_with SIFT_READS_DECISION (pl_decision plan) = false /\
  Forall (fun s => exists c, pl_data_ceiling plan = Some c /\ rank (st_classification s) <= rank c)%Z (pl_steps plan) /\
  (mkRecord plan [StepOk v] ∈ plans -> (forall h, placeholder_ref v = Some h -> held h = true) ->
   st_tool step = cs_tool call -> st_method step = cs_method call ->
   textual (st_parameters step) = textual (cs_parameters call) -> already_made plans step held = true).
Proof.
  intros Hv (_ & _ & Hc) Hr plan. assert (starts_with SIFT_READS_DECISION (cs_returns call) = false) as Hmark.
  { destruct (validate_Ok r n Hv) as (ticked & after & _ & _ & H3). unfold check_call in H3. rewrite Hr in H3.
    destruct (existsb _ _); [|done]. unfold starts_with at 1. destruct (strip_prefix SIFT_READS_DECISION _) as [rest|] eqn:E; [|done].
    apply strip_prefix_Some in E. rewrite E, trim_start_mark in H3. done. }
  split; [|split; [done|split]].
  - unfold notebook_step_of, plan, call_plan. cbn [pl_rationale].
    rewrite (proj2 (strip_prefix_Some _ _ (show_z (cs_step call))) eq_refl). cbn [mbind option_bind].
    destruct (Hc call Hr) as [H1 H2]. rewrite from_str_radix_digits by (by apply show_z_digits). by apply parse_show_z.
  - constructor; [|constructor]. eexists. split; [done|]. cbn [st_classification]. rewrite rank_max_class. lia.
  - intros Hin Hheld Ht Hm Hp. unfold already_made. apply existsb_exists. exists (mkRecord plan [StepOk v]). split.
    + apply List.filter_In. split; [by apply list_elem_of_In|]. cbn [rec_plan plan call_plan pl_decision]. by rewrite Hmark.
    + cbn [rec_plan rec_outcomes plan call_plan pl_steps zip_with existsb]. rewrite orb_false_r. apply andb_true_iff. split.
      * unfold same_call. cbn [st_tool st_method st_parameters]. rewrite Ht, Hm, Hp, !bytes_eqb_refl. by apply value_eqb_eq.
      * destruct (placeholder_ref v) as [h|]; [|done]. by apply Hheld.
Qed.

(** ** Corrections *)

Definition correction_of (e : Entry) : option Correction :=
  match en_kind e with
  | EkCorrection => text ← text_payload_from_value (bs "text") (en_payload e); Some (mkCorrection (en_seq e) text)
  | _ => None
  end.

Lemma fold_entry_corrections fve n e n' : fold_entry fve n e = Ok n' ->
  nb_corrections n' = nb_corrections n ++ match correction_of e with Some c => [c] | None => [] end.
Proof.
  unfold fold_entry. destruct (nb_terminal n && _); [done|]. destruct (apply_entry fve n e) as [n1|] eqn:E; [|done].
  intros [= <-]. cbn [at_seq nb_corrections]. unfold apply_entry, decode, correction_of in *. destruct (en_kind e); rewrite ?app_nil_r.
  - destruct (steps_payload_from_value _); [|done]. cbn [then_apply] in E. unfold apply_steps in E.
    destruct (listed_twice _ _); [done|]. by injection E as <-.
  - destruct (tick_payload_from_value _); [|done]. cbn [then_apply] in E. unfold apply_tick in E.
    destruct (step_mut _ _ _); [|done]. by injection E as <-.
  - destruct (failed_payload_from_value _); [|done]. cbn [then_apply] in E. unfold fail_step in E.
    destruct (step_mut _ _ _); [|done]. by injection E as <-.
  - destruct (text_payload_from_value _ _); [|done]. by injection E as <-.
  - destruct (text_payload_from_value _ _); [|done]. by injection E as <-.
  - destruct (text_payload_from_value _ _); [|done]. by injection E as <-.
  - by injection E as <-.
Qed.

Lemma fold_from_corrections fve n es n' : fold_from fve n es = Ok n' ->
  nb_corrections n' = nb_corrections n ++ omap correction_of es.
Proof.
  revert n. induction es as [|e es IH]; intros n; cbn [fold_from].
  - intros [= <-]. by rewrite app_nil_r.
  - destruct (fold_entry fve n e) as [n1|] eqn:E; [|done]. intros ->%IH. rewrite (fold_entry_corrections fve n e n1 E).
    rewrite <- app_assoc. f_equal. cbn [omap list_omap]. by destruct (correction_of e).
Qed.

Lemma after_seq_filter seen cs : StronglySorted (fun a b => (co_seq a < co_seq b)%Z) cs ->
  after_seq seen cs = List.filter (fun c => (seen <? co_seq c)%Z) cs.
Proof.
  induction 1 as [|c cs Hs IH Hc]; [done|]. cbn [after_seq List.filter].
  destruct (Z.leb_spec (co_seq c) seen) as [Hle|Hgt]; [by rewrite (proj2 (Z.ltb_ge _ _)) by lia|].
  rewrite (proj2 (Z.ltb_lt _ _)) by lia. f_equal. symmetry. apply List.forallb_filter_id, forallb_Forall.
  apply (list.Forall_impl _ _ _ Hc). intros x Hx. apply Z.ltb_lt. lia.
Qed.

Lemma omap_sorted es : StronglySorted (fun a b => (en_seq a < en_seq b)%Z) es ->
  StronglySorted (fun a b => (co_seq a < co_seq b)%Z) (omap correction_of es).
Proof.
  induction 1 as [|e es Hs IH He]; [constructor|]. cbn [omap list_omap]. destruct (correction_of e) as [c|] eqn:Ec; [|done].
  assert (Hseq : forall x y, correction_of x = Some y -> co_seq y = en_seq x).
  { intros x y. unfold correction_of. destruct (en_kind x); try done. destruct (text_payload_from_value _ _); [|done].
    by intros [= <-]. }
  constructor; [done|]. apply list.Forall_forall. intros y (x & Hx & Hy)%list_elem_of_omap.
  rewrite (Hseq x y Hy), (Hseq e c Ec). rewrite list.Forall_forall in He. by apply He.
Qed.

Lemma mapM_sorted rows es : StronglySorted (fun a b => (nr_seq a < nr_seq b)%Z) rows -> mapM entry_of_row rows = Some es ->
  StronglySorted (fun a b => (en_seq a < en_seq b)%Z) es.
Proof.
  assert (Hr : forall r e, entry_of_row r = Some e -> en_seq e = nr_seq r).
  { intros r e. unfold entry_of_row. destruct (kind_from_str _); [|done]. by intros [= <-]. }
  intros Hs Hm. apply mapM_Some in Hm. revert Hs. induction Hm as [|r e rows es He Hm IH]; [constructor|].
  intros Hs. inversion Hs as [|? ? Hs' Hf]; subst. constructor; [by apply IH|]. rewrite (Hr r e He). clear -Hm Hf Hr.
  induction Hm as [|r' e' rows es He Hm IH]; [constructor|]. inversion Hf; subst. constructor; [by rewrite (Hr r' e' He)|by apply IH].
Qed.

(** Every correction reaches the planner and the reviewer.  The corrections of
    a folded notebook are the correction rows of the task in the order they
    landed; a turn shows the planner exactly the ones after the last it was
    shown, and the reviewer's instruction is the task's with every one of them
    appended, in order. *)
Theorem corrections_are_shown_in_order fve t task es n seen base : rows_ordered t -> entries t task 0 = Some es ->
  fold fve es = Ok n ->
  nb_corrections n = omap correction_of es /\
  unseen_corrections n seen = List.filter (fun c => (seen <? co_seq c)%Z) (nb_corrections n) /\
  with_corrections base (nb_corrections n) =
    base ++ concat (map (fun c => [10; 10]%Z ++ bs "Operator correction: " ++ co_text c) (nb_corrections n)).
Proof.
  intros Ht He Hf. apply fold_from_corrections in Hf. cbn [empty_notebook nb_corrections app] in Hf. split; [done|]. split.
  - apply after_seq_filter. rewrite Hf. apply omap_sorted. rewrite entries_ordered in He by done.
    apply (mapM_sorted (rows_of task t)); [apply Ht|done].
  - generalize (nb_corrections n). clear. intros cs. unfold with_corrections. revert base.
    induction cs as [|c cs IH]; intros base; cbn [fold_left map concat]; [by rewrite app_nil_r|].
    rewrite IH. by rewrite <- !app_assoc.
Qed.

(** * Witnesses *)

Definition demo_spec (id : Z) (tool : bytes) : StepSpec := mkSpec id (bs "read mail") tool (bs "facts found") None None.

(** A first turn, a tick of step 1, and a correction. *)
Definition demo_events : list NbEvent :=
  [EvSteps [demo_spec 1 (bs "mail"); demo_spec 2 (bs "calendar")];
   EvTick (mkTick 1 (bs "found") [mkFindingSpec (bs "due Friday") (bs "msg 7") None] (bs "one fact") Personal false);
   EvCorrection (bs "only this year")].

Definition demo_table : list NbRow := fold_left (write_event 9) demo_events [].
Definition demo_fve (k : EntryKind) (v : Value) : bytes := [].
Definition demo_notebook : NotebookState :=
  match entries demo_table 9 0 with
  | Some es => match fold demo_fve es with Ok n => n | Err _ => empty_notebook end
  | None => empty_notebook
  end.

(** A reader that knows one text: a reply that ticks step 2 and calls a new step 3. *)
Definition demo_doc : Value :=
  Object [(bs "tick", Object [(bs "step", int_value 2); (bs "note", String (bs "n")); (bs "summary", String (bs "s"))]);
          (bs "steps", Array [Object [(bs "id", int_value 3); (bs "purpose", String (bs "p")); (bs "tool", String (bs "web"));
                                      (bs "done_when", String (bs "d")); (bs "status", String (bs "pending"))]]);
          (bs "call", Object [(bs "step", int_value 3); (bs "tool", String (bs "web")); (bs "method", String (bs "web.get"));
                              (bs "parameters", Object [(bs "id", int_value 38996)]); (bs "returns", String (bs "page"));
                              (bs "done_when", String (bs "d")); (bs "classification", String (bs "Public"))])].

Definition demo_raw : bytes := bs "{reply}".
Definition demo_serde : SerdeJson :=
  {| json_doc := fun s => if bytes_eqb s demo_raw then Some demo_doc else None; json_first := fun _ => None;
     reply_error := fun _ => []; lifted_error := fun _ => [] |}.

Definition demo_reply : NotebookReply :=
  match @check_reply demo_serde TkRoutine demo_notebook demo_raw with Ok r => r | Err _ => mkReply None None None None None end.

Lemma demo_table_ordered : rows_ordered demo_table.
Proof.
  unfold demo_table, demo_events. cbn [fold_left]. unfold write_event at 1 2 3. do 3 apply append_ordered.
  intros task. split; constructor.
Qed.

Lemma accepted_reply_folds_witness :
  exists ticked after es' n',
    apply_reply_tick demo_reply Personal demo_notebook = Ok ticked /\ apply_reply_steps demo_reply ticked = Ok after /\
    entries (fold_left (write_event 9) (EvCorrection (bs "hurry") :: reply_events demo_reply Personal ++ []) demo_table) 9 0 = Some es' /\
    fold demo_fve es' = Ok n' /\
    ([] = @nil NbEvent ->
       Forall2 same_step (nb_steps after) (nb_steps n') /\
       forall call, rp_call demo_reply = Some call ->
         exists s, s ∈ nb_steps n' /\ step_id s = cs_step call /\ sp_status s = Pending).
Proof.
  refine (@accepted_reply_folds demo_serde demo_fve TkRoutine demo_raw demo_table 9
            (default [] (entries demo_table 9 0)) demo_notebook demo_reply Personal []
            [EvCorrection (bs "hurry")] _ demo_table_ordered _ _ _ _ (end_open _) _ _).
  - vm_compute. reflexivity.
  - vm_compute. reflexivity.
  - vm_compute. reflexivity.
  - vm_compute. reflexivity.
  - repeat constructor.
  - vm_compute. apply shuffle_r. apply shuffle_l. apply shuffle_l. constructor.
Defined.

Lemma replan_keeps_finished_work_witness :
  exists n', apply_steps demo_notebook [demo_spec 1 (bs "mail"); demo_spec 4 (bs "web")] = Ok n' /\
    map (fun s => (step_id s, sp_status s)) (nb_steps n') = [(1%Z, Done); (4%Z, Pending)].
Proof.
  destruct (replan_keeps_finished_work demo_fve (default [] (entries demo_table 9 0)) demo_notebook
              [demo_spec 1 (bs "mail"); demo_spec 4 (bs "web")] ltac:(vm_compute; reflexivity)) as [H _].
  destruct (H ltac:(cbn [map ss_id demo_spec]; apply (bool_decide_unpack _); vm_compute; exact I)) as [H1 _]. eexists. split; [exact H1|].
  vm_compute. reflexivity.
Defined.

Lemma answer_ceiling_covers_the_task_witness :
  (rank Personal <= rank (answer_ceiling Public (touched demo_notebook []) None))%Z.
Proof.
  destruct (answer_ceiling_covers_the_task demo_fve (default [] (entries demo_table 9 0)) demo_notebook [] Public None
              ltac:(vm_compute; reflexivity)) as (_ & _ & Hf & _).
  apply (proj1 (list.Forall_forall _ _) Hf (mkFinding (bs "due Friday") (bs "msg 7") 1 Personal)).
  vm_compute. apply list_elem_of_here.
Defined.

Lemma turn_cap_doubles_what_is_left_witness : turn_cap 10 15 = 20%Z.
Proof.
  destruct (turn_cap_doubles_what_is_left 10 15) as (_ & _ & H); [split; vm_compute; discriminate..|].
  apply H. vm_compute. discriminate.
Defined.

Definition demo_call : CallSpec :=
  mkCall 3 (bs "web") (bs "web.get") (Object [(bs "id", int_value 38996)]) (bs "page") (bs "d") Public.

Lemma made_call_is_recognised_witness :
  already_made [mkRecord (call_plan demo_reply demo_call Public) [StepOk (String (bs "ok"))]]
    (mkStep (bs "web") (bs "web.get") (Object [(bs "id", String (bs "38996"))]) [] [] Public) (fun _ => true) = true.
Proof.
  destruct (made_call_is_recognised demo_reply demo_notebook demo_call Public
    [mkRecord (call_plan demo_reply demo_call Public) [StepOk (String (bs "ok"))]]
    (mkStep (bs "web") (bs "web.get") (Object [(bs "id", String (bs "38996"))]) [] [] Public)
    (String (bs "ok")) (fun _ => true)) as (_ & _ & _ & H).
  - vm_compute. reflexivity.
  - refine (proj1 (@check_reply_Ok demo_serde TkRoutine demo_notebook demo_raw demo_reply _ _)).
    + apply (fold_wf demo_fve (default [] (entries demo_table 9 0))). vm_compute. reflexivity.
    + vm_compute. reflexivity.
  - vm_compute. reflexivity.
  - apply H; [apply list_elem_of_here|done|reflexivity..].
Defined.

Lemma corrections_are_shown_in_order_witness :
  unseen_corrections demo_notebook 2 = [mkCorrection 3 (bs "only this year")].
Proof.
  destruct (corrections_are_shown_in_order demo_fve demo_table 9 (default [] (entries demo_table 9 0)) demo_notebook 2 []
              demo_table_ordered) as (_ & H & _); [vm_compute; reflexivity..|].
  rewrite H. vm_compute. reflexivity.
Defined.
