(* ===== verification/PlanSummary.v ===== *)
(** What the planner is shown of its earlier plans: the sink screen, the calls,
    the outcomes and the size budget of [plans_so_far_summary]
    (src/core/src/scheduler/inner_loop/summary.rs and summary/).

    A [PlanRecord] is its plan and its raw outcomes (Asks); the screened renders
    the code memoizes in it are functions of the two here.  Sizes are [usize]
    values, as [Z], with the code's saturating arithmetic.  [f32_value] is the
    JSON of a screen's score. *)

From stdpp Require Import base list numbers strings option sorting.
From Stdlib Require Import ZArith Lia.
From S2P Require Import Prelude RustStr Json NulRule Fingerprint Cassandra PlanJson InjectionGuard ResultView Asks Conversation ToolHost LoopPure ToolDispatch AuditLog Notebook NotebookView.
Local Open Scope Z_scope.

(** * Constants *)

Definition STEP_OK_SUMMARY_MAX : Z := 16 * 1024.
Definition BATCH_PER_QUERY_SUMMARY_BYTES : Z := 3 * 1024.
Definition STEP_OK_BATCH_SUMMARY_MAX : Z := 24 * 1024.
Definition PLANS_SUMMARY_BUDGET : Z := 96 * 1024.
Definition MIN_SHRUNK_OUTPUT_BYTES : Z := 2 * 1024.
Definition AUDIT_LABEL_MAX_CHARS : nat := 64.
Definition WEB_SEARCH_BATCH_METHOD : bytes := bs "web.search_batch".
Definition TIER_SINK : bytes := bs "sink".
Definition AUDIT_ONLY_KEYS : list bytes := [SCORE_KEY; REASON_CODES_KEY].

Definition STATUS_KEY : bytes := bs "status".
Definition OUTPUT_KEY : bytes := bs "output".
Definition WITHHELD_KEY : bytes := bs "withheld".
Definition ELIDED_KEY : bytes := bs "elided".
Definition CALL_KEY : bytes := bs "call".
Definition PARAMETERS_KEY : bytes := bs "parameters".
Definition WITHHELD_REASON : bytes := bs "failed injection screen".
Definition ELIDED_REASON : bytes := bs "summary budget".
Definition ELIDED_OUTPUT_REASON : bytes := bs "output retrieved, dropped from this summary for space".
(** The length of the key with its quotes, the colon and the comma. *)
Definition CALL_FRAMING_BYTES : Z := 8.

(** * Saturating arithmetic on [usize] *)

Definition sat_add (a b : Z) : Z := Z.min (a + b) USIZE_MAX.
Definition sat_sub (a b : Z) : Z := Z.max (a - b) 0.
Definition sat_mul (a b : Z) : Z := Z.min (a * b) USIZE_MAX.
Definition sat_total (l : list Z) : Z := fold_left sat_add l 0.

Definition size_of (v : Value) : Z := Z.of_nat (serialised_len v).

(** * The budget (budget.rs) *)

Record Fit := mkFit { ft_elide : nat; ft_share : Z }.

Definition floor_cost (b : Z) : Z := Z.min b MIN_SHRUNK_OUTPUT_BYTES.

(** The sizes from the least to the largest. *)
Fixpoint level_of (sorted : list Z) (room : Z) : Z :=
  match sorted with
  | [] => USIZE_MAX
  | size :: rest =>
      let left := Z.of_nat (length sorted) in
      if room / left <? size then room / left else level_of rest (room - size)
  end.

Definition water_level (sizes : list Z) (room : Z) : Z := level_of (merge_sort Z.le sizes) room.

(** How many of the oldest are dropped, [rest] being the floor cost of the others. *)
Fixpoint elide_oldest (marker room : Z) (elide : nat) (rest : Z) (sizes : list Z) : nat :=
  match sizes with
  | [] => elide
  | b :: more =>
      if room <? sat_add (sat_mul marker (Z.of_nat elide)) rest
      then elide_oldest marker room (S elide) (sat_sub rest (floor_cost b)) more
      else elide
  end.

Definition plan_fit (sizes : list Z) (room marker : Z) : Fit :=
  if sat_total sizes <=? room then mkFit 0 USIZE_MAX
  else
    let elide := elide_oldest marker room 0 (sat_total (map floor_cost sizes)) sizes in
    mkFit elide (water_level (drop elide sizes) (sat_sub room (sat_mul marker (Z.of_nat elide)))).

Section Summary.
Context `{UnicodeChar} `{Sha256}.
Variable f32_value : Z -> Value.

(** * The sink screen (sink.rs) *)

Definition clamp_audit_label (s : bytes) : bytes := clamp_chars s AUDIT_LABEL_MAX_CHARS.

Definition sink_screen (tool text : bytes) : option SinkBlock := sink_screen_with (for_tool tool) text.

Definition without_screen_audit_fields (v : Value) : Value :=
  match v with
  | Object m =>
      match map_get INJECTION_BLOCKED_KEY m with
      | Some (Bool true) => Object (fold_left (fun m k => map_remove k m) AUDIT_ONLY_KEYS m)
      | _ => v
      end
  | _ => v
  end.

(** * The calls (call.rs) *)

Record Screened := mkScreened { sd_value : Value; sd_sink_block : option SinkBlock }.

(** The first of the texts the screen blocks. *)
Fixpoint first_block (profile : GuardProfile) (texts : list bytes) : option SinkBlock :=
  match texts with
  | [] => None
  | t :: rest => match sink_screen_with profile t with Some b => Some b | None => first_block profile rest end
  end.

Definition screen_value (value : Value) (also : list bytes) : Screened :=
  match first_block MODEL_AUTHORED_PROFILE (screen_text value :: also) with
  | Some block => mkScreened (String WITHHELD_MARKER) (Some block)
  | None => mkScreened value None
  end.

Definition call_parameters (step : PlannedStep) : Value := render (st_parameters step) CALL_PARAMS_CAP.

Definition call_value (step : PlannedStep) : Value :=
  object [(bs "tool", String (clamp_audit_label (st_tool step))); (bs "method", String (clamp_audit_label (st_method step)));
          (PARAMETERS_KEY, call_parameters step)].

Definition render_call (step : PlannedStep) : Screened := screen_value (call_value step) [screen_text (call_parameters step)].

Definition call_cost (call : Value) : Z := sat_add (size_of call) CALL_FRAMING_BYTES.

Definition without_parameters (call : Value) : option Value :=
  match call with
  | Object m =>
      match map_get PARAMETERS_KEY m with
      | Some _ => Some (Object (map_insert ELIDED_KEY (String ELIDED_REASON) (map_remove PARAMETERS_KEY m)))
      | None => None
      end
  | _ => None
  end.

(** A call in reach of the budget, and what is left to save after it. *)
Definition shrink_call (budget total : Z) (call : option Value) : option Value * Z :=
  match call with
  | Some c =>
      if total <=? budget then (call, total)
      else
        match without_parameters c with
        | Some smaller =>
            if call_cost smaller <? call_cost c
            then (Some smaller, sat_sub total (call_cost c - call_cost smaller))
            else (call, total)
        | None => (call, total)
        end
  | None => (None, total)
  end.

Fixpoint shrink_calls (budget total : Z) (calls : list (option Value)) : list (option Value) * Z :=
  match calls with
  | [] => ([], total)
  | c :: rest =>
      let '(c', total') := shrink_call budget total c in
      let '(rest', total'') := shrink_calls budget total' rest in (c' :: rest', total'')
  end.

Fixpoint apply_call_budget (calls : list (list (option Value))) (total budget : Z) : list (list (option Value)) :=
  match calls with
  | [] => []
  | l :: rest => let '(l', total') := shrink_calls budget total l in l' :: apply_call_budget rest total' budget
  end.

Definition render_decision (decision : bytes) : Screened := screen_value (String decision) [].

(** * The outcomes (summary.rs) *)

Record RenderedStep := mkRendered { rs_value : Value; rs_bytes : Z; rs_elidable : bool; rs_sink_block : option SinkBlock }.

Definition measured (v : Value) (elidable : bool) (block : option SinkBlock) : RenderedStep :=
  mkRendered v (size_of v) elidable block.

Definition output_value (view : Value) : Value := object [(STATUS_KEY, String (bs "ok")); (OUTPUT_KEY, view)].
Definition withheld_value : Value := object [(STATUS_KEY, String (bs "ok")); (WITHHELD_KEY, String WITHHELD_REASON)].
Definition err_value (code detail : bytes) : Value :=
  object [(STATUS_KEY, String (bs "err")); (bs "code", String code); (bs "detail", String detail)].
Definition elided_outcome : Value := object [(STATUS_KEY, String (bs "ok")); (ELIDED_KEY, String ELIDED_OUTPUT_REASON)].

Definition rs_output (view : Value) : RenderedStep := measured (output_value view) true None.
Definition rs_withheld (b : SinkBlock) : RenderedStep := measured withheld_value false (Some b).
Definition rs_err (code detail : bytes) (b : option SinkBlock) : RenderedStep := measured (err_value code detail) false b.
Definition rs_elided : RenderedStep := measured elided_outcome false None.

Definition ok_summary_cap (method : bytes) (value : Value) : Z :=
  if bytes_eqb method WEB_SEARCH_BATCH_METHOD then
    let n := match get (bs "results") value ≫= as_array with Some l => Z.of_nat (length l) | None => 0 end in
    Z.max STEP_OK_SUMMARY_MAX (Z.min (n * BATCH_PER_QUERY_SUMMARY_BYTES) STEP_OK_BATCH_SUMMARY_MAX)
  else STEP_OK_SUMMARY_MAX.

Definition render_ok (tool : bytes) (v : Value) (cap : Value -> Z) : RenderedStep :=
  let v := without_screen_audit_fields v in
  let view := render v (Z.to_nat (cap v)) in
  match sink_screen tool (screen_text view) with
  | Some block => rs_withheld block
  | None => rs_output view
  end.

Definition shown_detail (detail : bytes) : bytes :=
  if Nat.ltb STEP_ERR_DETAIL_MAX (char_count detail) then take_chars STEP_ERR_DETAIL_MAX detail ++ ELLIPSIS else detail.

Definition render_step_outcome (tool method : bytes) (o : StepOutcome) : RenderedStep :=
  match o with
  | StepOk v => render_ok tool v (ok_summary_cap method)
  | StepErr code detail =>
      match sink_screen tool (shown_detail detail) with
      | Some block => rs_err code WITHHELD_MARKER (Some block)
      | None => rs_err code (shown_detail detail) None
      end
  end.

Definition step_tool_and_method (p : Plan) (i : nat) : bytes * bytes :=
  match pl_steps p !! i with Some s => (st_tool s, st_method s) | None => ([], []) end.

(** The renders [PlanRecord::new] stores. *)
Definition rendered (r : PlanRecord) : list RenderedStep :=
  imap (fun i o => let '(tool, method) := step_tool_and_method (rec_plan r) i in render_step_outcome tool method o) (rec_outcomes r).

Definition calls (r : PlanRecord) : list (option Screened) :=
  imap (fun i _ => render_call <$> pl_steps (rec_plan r) !! i) (rec_outcomes r).

Definition decision_shown (r : PlanRecord) : Screened := render_decision (pl_decision (rec_plan r)).

Definition shrunk_output (r : PlanRecord) (i : nat) (cap : Z) : RenderedStep :=
  match rec_outcomes r !! i with
  | Some (StepOk v) =>
      let step := render_ok (step_tool_and_method (rec_plan r) i).1 v (fun _ => cap) in
      if bool_decide (get OUTPUT_KEY (rs_value step) = Some fallback_view) then rs_elided else step
  | _ => rs_elided
  end.

Definition sink_row (r : PlanRecord) (task_id plan_count : Z) (part : bytes) (i : option nat) (b : SinkBlock) : Value :=
  let '(tool, method) := match i with Some i => step_tool_and_method (rec_plan r) i | None => ([], []) end in
  object [(bs "tool", String (clamp_audit_label tool)); (bs "method", String (clamp_audit_label method));
          (bs "task_id", int_value task_id); (bs "plan_count", int_value plan_count);
          (bs "step_index", opt_value (fun i => int_value (Z.of_nat i)) i); (bs "part", String part);
          (bs "score", f32_value (sb_score b)); (bs "decision", String (bs "block")); (bs "tier", String TIER_SINK);
          (bs "reason_codes", Array (map String (sb_reason_codes b))); (bs "body_sha256", String (sb_body_sha256 b));
          (bs "body_byte_len", int_value (Z.of_nat (sb_body_byte_len b)))].

Definition sink_block_audit_payloads (r : PlanRecord) (task_id plan_count : Z) : list Value :=
  let row part i b := sink_row r task_id plan_count part i b in
  let opt part i (o : option SinkBlock) := match o with Some b => [row part i b] | None => [] end in
  opt (bs "decision") None (sd_sink_block (decision_shown r)) ++
  concat (imap (fun i sc =>
    opt (bs "call") (Some i) (sc.2 ≫= sd_sink_block) ++ opt (bs "outcome") (Some i) (rs_sink_block sc.1))
    (zip (rendered r) (calls r))).

Definition with_call (outcome : Value) (call : option Value) : Value :=
  match outcome, call with
  | Object m, Some c => Object (map_insert CALL_KEY c m)
  | _, _ => outcome
  end.

Definition last_step_view (r : PlanRecord) : option Value :=
  match list.last (rendered r) with
  | Some s => Some (with_call (rs_value s) (sd_value <$> (calls r !! (length (rendered r) - 1)%nat ≫= id)))
  | None => None
  end.

(** * Fitting the outcomes *)

Record Fitted := mkFitted { fd_elided : nat; fd_shrunk : nat; fd_blocked : nat }.

Definition touchable (s : RenderedStep) : bool := rs_elidable s && (rs_bytes rs_elided <? rs_bytes s).

Definition wrapper : Z := rs_bytes (rs_output Null) - 4.

Record Passing := mkPassing { pa_seen : nat; pa_fitted : Fitted }.

Definition note_elided (f : Fitted) (blocked : bool) : Fitted :=
  mkFitted (S (fd_elided f)) (fd_shrunk f) (if blocked then S (fd_blocked f) else fd_blocked f).

Definition fit_step (fit : Fit) (shrink : Z -> RenderedStep) (a : Passing) (s : RenderedStep) : RenderedStep * Passing :=
  if negb (touchable s) then (s, a)
  else
    let seen := S (pa_seen a) in
    if Nat.leb seen (ft_elide fit) then (rs_elided, mkPassing seen (note_elided (pa_fitted a) false))
    else if ft_share fit <? rs_bytes s then
      let shrunk := shrink (ft_share fit - wrapper) in
      if rs_elidable shrunk && (rs_bytes shrunk <=? ft_share fit)
      then (shrunk, mkPassing seen (mkFitted (fd_elided (pa_fitted a)) (S (fd_shrunk (pa_fitted a))) (fd_blocked (pa_fitted a))))
      else (rs_elided, mkPassing seen (note_elided (pa_fitted a) (is_some (rs_sink_block shrunk))))
    else (s, mkPassing seen (pa_fitted a)).

Fixpoint fit_steps (fit : Fit) (shrink : nat -> Z -> RenderedStep) (i : nat) (a : Passing) (steps : list RenderedStep)
    : list RenderedStep * Passing :=
  match steps with
  | [] => ([], a)
  | s :: rest =>
      let '(s', a') := fit_step fit (shrink i) a s in
      let '(rest', a'') := fit_steps fit shrink (S i) a' rest in (s' :: rest', a'')
  end.

Fixpoint fit_plans (fit : Fit) (shrink : nat -> nat -> Z -> RenderedStep) (p : nat) (a : Passing)
    (plans : list (list RenderedStep)) : list (list RenderedStep) * Passing :=
  match plans with
  | [] => ([], a)
  | l :: rest =>
      let '(l', a') := fit_steps fit (shrink p) 0 a l in
      let '(rest', a'') := fit_plans fit shrink (S p) a' rest in (l' :: rest', a'')
  end.

Definition bytes_of (plans : list (list RenderedStep)) : list Z := map rs_bytes (concat plans).
Definition touchable_sizes (steps : list RenderedStep) : list Z := map rs_bytes (List.filter touchable steps).
Definition fixed_sizes (steps : list RenderedStep) : list Z := map rs_bytes (List.filter (fun s => negb (touchable s)) steps).

Definition apply_summary_budget (plans : list (list RenderedStep)) (budget : Z) (shrink : nat -> nat -> Z -> RenderedStep)
    : list (list RenderedStep) * Fitted :=
  if sat_total (bytes_of plans) <=? budget then (plans, mkFitted 0 0 0)
  else
    let steps := concat plans in
    let fit := plan_fit (touchable_sizes steps) (sat_sub budget (sat_total (fixed_sizes steps))) (rs_bytes rs_elided) in
    let '(plans', a) := fit_plans fit shrink 0 (mkPassing 0 (mkFitted 0 0 0)) plans in (plans', pa_fitted a).

(** The two passes over the records' renders. *)
Definition call_bytes (cs : list (list (option Value))) : Z :=
  fold_left (fun t c => sat_add t (call_cost c)) (omap id (concat cs)) 0.

Definition shrink_of (plans : list PlanRecord) (p i : nat) (cap : Z) : RenderedStep :=
  match plans !! p with Some r => shrunk_output r i cap | None => rs_elided end.

Definition fit_summary (plans : list PlanRecord) : list (list RenderedStep) * list (list (option Value)) :=
  let cs := map (fun r => map (fmap sd_value) (calls r)) plans in
  let '(steps, _) := apply_summary_budget (map rendered plans) (sat_sub PLANS_SUMMARY_BUDGET (call_bytes cs)) (shrink_of plans) in
  (steps, apply_call_budget cs (sat_add (sat_total (bytes_of steps)) (call_bytes cs)) PLANS_SUMMARY_BUDGET).

Definition summary_entry (r : PlanRecord) (steps : list RenderedStep) (cs : list (option Value)) : Value :=
  object [(bs "decision", sd_value (decision_shown r));
          (bs "step_outcomes", Array (zip_with (fun s c => with_call (rs_value s) c) steps cs))].

Definition render_plans_summary (plans : list PlanRecord) : list Value :=
  let '(steps, cs) := fit_summary plans in
  zip_with (fun r sc => summary_entry r sc.1 sc.2) plans (zip steps cs).

(** What the sift's sorter is shown of a value, or what the screen blocked. *)
Definition sorter_view (tool : bytes) (value : Value) (cap : Z) : result Value SinkBlock :=
  let r := render_ok tool value (fun _ => cap) in
  match rs_sink_block r with
  | Some block => Err block
  | None => Ok (default Null (get OUTPUT_KEY (rs_value r)))
  end.
End Summary.

(** * Sums and levels *)

Definition total (l : list Z) : Z := fold_right Z.add 0 l.

(** What the sizes cost when none keeps more than [share]. *)
Definition capped (share : Z) (l : list Z) : Z := total (map (Z.min share) l).

Lemma total_cons x l : total (x :: l) = x + total l.
Proof. done. Qed.

Lemma total_app a b : total (a ++ b) = total a + total b.
Proof. unfold total. induction a; simpl; lia. Qed.

Lemma total_nonneg l : Forall (Z.le 0) l -> 0 <= total l.
Proof. induction 1; simpl; lia. Qed.

Lemma total_Permutation l l' : l ≡ₚ l' -> total l = total l'.
Proof. induction 1; simpl; lia. Qed.

Lemma sat_total_from l a : Forall (Z.le 0) l -> 0 <= a <= USIZE_MAX -> fold_left sat_add l a = Z.min (a + total l) USIZE_MAX.
Proof.
  intros Hl. revert a. induction Hl as [|x l Hx Hl IH]; intros a Ha; simpl; [lia|].
  pose proof (total_nonneg l Hl). rewrite IH; unfold sat_add; lia.
Qed.

Lemma sat_total_min l : Forall (Z.le 0) l -> sat_total l = Z.min (total l) USIZE_MAX.
Proof. intros Hl. unfold sat_total. rewrite sat_total_from; [f_equal; lia|done|unfold USIZE_MAX; lia]. Qed.

Lemma total_le f g (l : list Z) : Forall (fun x => f x <= g x) l -> total (map f l) <= total (map g l).
Proof. induction 1; simpl; lia. Qed.

Lemma capped_cons s x l : capped s (x :: l) = Z.min s x + capped s l.
Proof. done. Qed.

Lemma capped_const share l : Forall (Z.le share) l -> capped share l = share * Z.of_nat (length l).
Proof. unfold capped. induction 1 as [|x l Hx _ IH]; [simpl; lia|].
  cbn [map length]. rewrite Nat2Z.inj_succ, Z.mul_succ_r, <- IH, total_cons, Z.min_l; [apply Z.add_comm|exact Hx].
Qed.

Lemma capped_ge l share : Forall (fun x => x <= share) l -> capped share l = total l.
Proof. unfold capped. induction 1 as [|x l Hx _ IH]; [done|]. cbn [map] in *. rewrite !total_cons, IH, Z.min_r; [done|exact Hx]. Qed.

Lemma capped_mono l a b : a <= b -> capped a l <= capped b l.
Proof. intros Hab. apply total_le, Forall_true. intros x. lia. Qed.

(** [share] is the largest level at which the sizes fit [room]. *)
Definition is_level (sizes : list Z) (room share : Z) : Prop :=
  capped share sizes <= room /\ (share = USIZE_MAX \/ room < capped (share + 1) sizes).

Lemma level_of_ge b l room : StronglySorted Z.le l -> 0 <= room -> b <= USIZE_MAX -> b * Z.of_nat (length l) <= room -> b <= level_of l room.
Proof.
  intros Hs. revert room. induction Hs as [|size rest Hs IH Hle]; intros room Hr Hb Hl; cbn [level_of]; [done|].
  cbn [length] in *. rewrite Nat2Z.inj_succ in *. set (n := Z.of_nat (length rest)) in *.
  assert (0 <= n) by lia. destruct (Z.ltb_spec (room / Z.succ n) size) as [Hq|Hq].
  - apply Z.div_le_lower_bound; nia.
  - assert (size * Z.succ n <= room).
    { transitivity (room / Z.succ n * Z.succ n); [nia|]. pose proof (Z.mul_div_le room (Z.succ n)). nia. }
    apply IH; [|done|]; nia.
Qed.

Lemma level_of_spec l room : StronglySorted Z.le l -> Forall (fun x => 0 <= x <= USIZE_MAX) l -> 0 <= room < USIZE_MAX ->
  is_level l room (level_of l room) /\ 0 <= level_of l room <= USIZE_MAX.
Proof.
  intros Hs. revert room. induction Hs as [|size rest Hs IH Hle]; intros room Hb Hr.
  { cbn. split; [|unfold USIZE_MAX in *; lia]. split; [unfold capped; simpl; lia|by left]. }
  inversion Hb as [|? ? Hsize Hrest]; subst. cbn [level_of length]. rewrite Nat2Z.inj_succ.
  set (n := Z.of_nat (length rest)). assert (0 <= n) by lia.
  pose proof (Z.mul_div_le room (Z.succ n)) as Hm. pose proof (Z.mul_succ_div_gt room (Z.succ n)) as Hg.
  assert (0 <= room / Z.succ n <= room) by (split; [apply Z.div_pos; lia|nia]).
  destruct (Z.ltb_spec (room / Z.succ n) size) as [Hq|Hq].
  - assert (Hall : forall q, q <= size -> capped q (size :: rest) = q * Z.succ n).
    { intros q Hqs. rewrite capped_const; [by rewrite length_cons, Nat2Z.inj_succ|]. constructor; [done|].
      eapply list.Forall_impl; [exact Hle|]. intros y ?; lia. }
    split; [split|]; [rewrite Hall; nia|right; rewrite Hall; nia|lia].
  - assert (size * Z.succ n <= room) by nia.
    destruct (IH (room - size) Hrest ltac:(nia)) as [[Hfit Hmax] Hbd]. split; [|done].
    assert (size <= level_of rest (room - size)) as Hge by (apply level_of_ge; [done|nia|lia|nia]).
    split; rewrite capped_cons; [lia|].
    destruct Hmax as [?|Hmax]; [by left|right; lia].
Qed.

Lemma capped_Permutation s l l' : l ≡ₚ l' -> capped s l = capped s l'.
Proof. intros Hp. apply total_Permutation. by rewrite Hp. Qed.

Lemma water_level_spec sizes room : Forall (fun x => 0 <= x <= USIZE_MAX) sizes -> 0 <= room < USIZE_MAX ->
  is_level sizes room (water_level sizes room) /\ 0 <= water_level sizes room <= USIZE_MAX /\
  forall b, b <= USIZE_MAX -> b * Z.of_nat (length sizes) <= room -> b <= water_level sizes room.
Proof.
  intros Hb Hr. unfold water_level. pose proof (merge_sort_Permutation Z.le sizes) as Hp.
  assert (StronglySorted Z.le (merge_sort Z.le sizes)) as Hs by apply (StronglySorted_merge_sort Z.le).
  destruct (level_of_spec (merge_sort Z.le sizes) room Hs ltac:(by rewrite Hp) Hr) as [[H3 H4] H5].
  split; [|split; [done|]].
  - split; [by rewrite <- (capped_Permutation _ _ _ Hp)|]. destruct H4 as [?|H4]; [by left|right].
    by rewrite <- (capped_Permutation _ _ _ Hp).
  - intros b H6 H7. apply level_of_ge; [done|lia|done|]. by rewrite (Permutation_length Hp).
Qed.

(** What fitting [sizes] into [room] has to be: the fewest of the oldest
    dropped for every later one to keep its floor, and the rest capped at the
    largest share that fits, never below the floor. *)
Record fit_ok (sizes : list Z) (room marker : Z) (f : Fit) : Prop := {
  fo_elide : (ft_elide f <= length sizes)%nat;
  fo_fewest : forall e, (e < ft_elide f)%nat -> room < marker * Z.of_nat e + total (map floor_cost (drop e sizes));
  fo_fits : (ft_elide f < length sizes)%nat ->
    marker * Z.of_nat (ft_elide f) + capped (ft_share f) (drop (ft_elide f) sizes) <= room;
  fo_most : ft_share f = USIZE_MAX \/
    room < marker * Z.of_nat (ft_elide f) + capped (ft_share f + 1) (drop (ft_elide f) sizes);
  fo_floor : MIN_SHRUNK_OUTPUT_BYTES <= ft_share f }.

Lemma floor_nonneg sizes : Forall (fun x => 0 <= x <= USIZE_MAX) sizes -> 0 <= total (map floor_cost sizes).
Proof. intros Hs. apply total_nonneg, Forall_map. eapply list.Forall_impl; [exact Hs|]. unfold floor_cost, MIN_SHRUNK_OUTPUT_BYTES. simpl. lia. Qed.

Lemma elide_oldest_spec marker room sizes e0 : Forall (fun x => 0 <= x <= USIZE_MAX) sizes -> 0 <= marker -> 0 <= room < USIZE_MAX ->
  let e := elide_oldest marker room e0 (total (map floor_cost sizes)) sizes in
  (e0 <= e <= e0 + length sizes)%nat /\
  (forall k, (k < e - e0)%nat -> room < marker * Z.of_nat (e0 + k) + total (map floor_cost (drop k sizes))) /\
  ((e < e0 + length sizes)%nat -> marker * Z.of_nat e + total (map floor_cost (drop (e - e0) sizes)) <= room).
Proof.
  intros Hs Hm Hr. revert e0. induction Hs as [|b more Hb Hs IH]; intros e0 e; subst e; cbn [elide_oldest].
  { rewrite Nat.sub_diag. split_and!; intros; simpl in *; lia. }
  pose proof (floor_nonneg more Hs) as Hn. cbn [map] in *. rewrite total_cons in *.
  assert (0 <= floor_cost b) by (unfold floor_cost, MIN_SHRUNK_OUTPUT_BYTES; simpl in Hb; lia).
  destruct (Z.ltb_spec room (sat_add (sat_mul marker (Z.of_nat e0)) (floor_cost b + total (map floor_cost more)))) as [Hlt|Hle].
  - replace (sat_sub _ _) with (total (map floor_cost more)) by (unfold sat_sub; lia).
    destruct (IH (S e0)) as (H3 & H4 & H5). set (e := elide_oldest _ _ _ _ _) in *. cbn [length]. split_and!; [lia|lia| |].
    + intros [|k] Hk; cbn [drop map]; [rewrite total_cons, Nat.add_0_r; unfold sat_add, sat_mul in Hlt; lia|].
      replace (e0 + S k)%nat with (S e0 + k)%nat by lia. apply H4. lia.
    + intros He. replace (e - e0)%nat with (S (e - S e0)) by lia. apply H5. lia.
  - rewrite Nat.sub_diag. cbn [drop length map]. rewrite total_cons. split_and!; [lia|lia|lia|].
    intros _. unfold sat_add, sat_mul in Hle. lia.
Qed.

Lemma capped_floor l : capped MIN_SHRUNK_OUTPUT_BYTES l = total (map floor_cost l).
Proof. unfold capped. f_equal. apply map_ext. intros x. apply Z.min_comm. Qed.

Lemma usize_large : MIN_SHRUNK_OUTPUT_BYTES <= USIZE_MAX.
Proof. done. Qed.

Lemma left_room room marker e : 0 <= marker -> 0 <= room -> 0 <= sat_sub room (sat_mul marker (Z.of_nat e)) <= room.
Proof. intros. assert (0 <= marker * Z.of_nat e) by nia. assert (0 < USIZE_MAX) by done. unfold sat_sub, sat_mul. lia. Qed.

Lemma left_room_exact room marker e : marker * Z.of_nat e <= room < USIZE_MAX ->
  sat_sub room (sat_mul marker (Z.of_nat e)) = room - marker * Z.of_nat e.
Proof. unfold sat_sub, sat_mul. lia. Qed.

Lemma water_level_nil room : water_level [] room = USIZE_MAX.
Proof. done. Qed.

Lemma plan_fit_ok sizes room marker : Forall (fun x => 0 <= x <= USIZE_MAX) sizes -> 0 <= marker -> 0 <= room < USIZE_MAX ->
  total (map floor_cost sizes) <= USIZE_MAX -> fit_ok sizes room marker (plan_fit sizes room marker).
Proof.
  intros Hs Hm Hr Hf. unfold plan_fit.
  assert (Forall (Z.le 0) sizes) as Hs0 by (eapply list.Forall_impl; [exact Hs|]; simpl; lia).
  rewrite (sat_total_min sizes) by done.
  destruct (Z.leb_spec (Z.min (total sizes) USIZE_MAX) room) as [Hfit|_].
  { constructor; cbn [ft_elide ft_share drop]; [lia|lia| |by left|apply usize_large].
    intros _. rewrite drop_0, capped_ge; [lia|]. eapply list.Forall_impl; [exact Hs|]. simpl. lia. }
  assert (Forall (Z.le 0) (map floor_cost sizes)) as Hfl.
  { apply Forall_map. eapply list.Forall_impl; [exact Hs|]. unfold floor_cost, MIN_SHRUNK_OUTPUT_BYTES. simpl. lia. }
  rewrite (sat_total_min _ Hfl), Z.min_l by done.
  destruct (elide_oldest_spec marker room sizes 0 Hs Hm Hr) as (H3 & H4 & H5).
  set (e := elide_oldest _ _ _ _ _) in *. rewrite Nat.sub_0_r in *. cbn [Nat.add] in *.
  remember (sat_sub room (sat_mul marker (Z.of_nat e))) as room' eqn:Eroom.
  assert (0 <= room' <= room) as Hroom by (subst room'; apply left_room; lia).
  destruct (water_level_spec (drop e sizes) room') as ([H6 H7] & H8 & _); [by apply Forall_drop|lia|].
  assert (Hin : (e < length sizes)%nat -> room' = room - marker * Z.of_nat e).
  { intros He. specialize (H5 He). pose proof (floor_nonneg (drop e sizes) ltac:(by apply Forall_drop)).
    subst room'. apply left_room_exact. lia. }
  constructor; cbn [ft_elide ft_share]; [lia|done| | |].
  - intros He. specialize (Hin He). lia.
  - destruct H7 as [H7|H7]; [by left|]. destruct (decide (e < length sizes)%nat) as [He|He].
    + right. specialize (Hin He). lia.
    + rewrite drop_ge, water_level_nil by lia. by left.
  - destruct (decide (e < length sizes)%nat) as [He|He].
    + apply Z.nlt_ge. intros Hlt. destruct H7 as [H7|H7]; [pose proof usize_large; lia|].
      specialize (H5 He). rewrite <- capped_floor in H5. specialize (Hin He).
      pose proof (capped_mono (drop e sizes) (water_level (drop e sizes) room' + 1) MIN_SHRUNK_OUTPUT_BYTES). lia.
    + rewrite drop_ge, water_level_nil by lia. apply usize_large.
Qed.

(** * The budget keeps its promise *)

Abbreviation marker := (rs_bytes rs_elided).

Lemma marker_small : 0 < marker <= MIN_SHRUNK_OUTPUT_BYTES.
Proof. vm_compute. split; [done|discriminate]. Qed.

(** What the touchable steps cost after the pass, [seen] of them being behind. *)
Fixpoint fit_cost (f : Fit) (seen : nat) (sizes : list Z) : Z :=
  match sizes with
  | [] => 0
  | b :: more => (if Nat.leb (S seen) (ft_elide f) then marker else Z.min (ft_share f) b) + fit_cost f (S seen) more
  end.

Lemma fit_cost_app f seen a b : fit_cost f seen (a ++ b) = fit_cost f seen a + fit_cost f (seen + length a)%nat b.
Proof.
  revert seen. induction a as [|x a IH]; intros seen; cbn [fit_cost app length]; [by rewrite Nat.add_0_r|].
  rewrite IH. replace (S seen + length a)%nat with (seen + S (length a))%nat by lia. lia.
Qed.

Lemma fit_cost_from f seen sizes : (ft_elide f - seen <= length sizes)%nat ->
  fit_cost f seen sizes = marker * Z.of_nat (ft_elide f - seen) + capped (ft_share f) (drop (ft_elide f - seen) sizes).
Proof.
  revert seen. induction sizes as [|b more IH]; intros seen Hl; cbn [fit_cost length] in *.
  { replace (ft_elide f - seen)%nat with 0%nat by lia. cbn. lia. }
  destruct (Nat.leb_spec (S seen) (ft_elide f)) as [Hle|Hgt].
  - rewrite IH by lia. replace (ft_elide f - seen)%nat with (S (ft_elide f - S seen)) by lia. cbn [drop]. lia.
  - rewrite IH by lia. replace (ft_elide f - S seen)%nat with 0%nat by lia. replace (ft_elide f - seen)%nat with 0%nat by lia.
    rewrite !drop_0, capped_cons. lia.
Qed.

Definition fit_here (f : Fit) (seen : nat) (s : RenderedStep) : Z :=
  if Nat.leb (S seen) (ft_elide f) then marker else Z.min (ft_share f) (rs_bytes s).

Lemma elided_untouchable : touchable rs_elided = false.
Proof. done. Qed.

Lemma fit_step_spec f shrink a s : MIN_SHRUNK_OUTPUT_BYTES <= ft_share f ->
  let '(s', a') := fit_step f shrink a s in
  if touchable s
  then pa_seen a' = S (pa_seen a) /\ rs_bytes s' <= fit_here f (pa_seen a) s /\
       ((S (pa_seen a) <= ft_elide f)%nat -> s' = rs_elided)
  else s' = s /\ a' = a.
Proof.
  intros Hsh. unfold fit_step, fit_here. destruct (touchable s) eqn:Et; cbn [negb]; [|done].
  apply andb_true_iff in Et as [_ Ht%Z.ltb_lt]. pose proof marker_small.
  destruct (Nat.leb_spec (S (pa_seen a)) (ft_elide f)); [split_and!; done|].
  destruct (Z.ltb_spec (ft_share f) (rs_bytes s)); [|split_and!; [done|lia|lia]].
  destruct (rs_elidable _ && _) eqn:Es; cbn [pa_seen]; (split_and!; [done| |lia]); [|lia].
  apply andb_true_iff in Es as [_ Es%Z.leb_le]. lia.
Qed.

Lemma touchable_sizes_cons s l :
  touchable_sizes (s :: l) = if touchable s then rs_bytes s :: touchable_sizes l else touchable_sizes l.
Proof. unfold touchable_sizes. cbn [List.filter]. by destruct (touchable s). Qed.

Lemma fixed_sizes_cons s l :
  fixed_sizes (s :: l) = if touchable s then fixed_sizes l else rs_bytes s :: fixed_sizes l.
Proof. unfold fixed_sizes. cbn [List.filter]. by destruct (touchable s). Qed.

Lemma touchable_sizes_app a b : touchable_sizes (a ++ b) = touchable_sizes a ++ touchable_sizes b.
Proof. unfold touchable_sizes. by rewrite List.filter_app, map_app. Qed.

Lemma fixed_sizes_app a b : fixed_sizes (a ++ b) = fixed_sizes a ++ fixed_sizes b.
Proof. unfold fixed_sizes. by rewrite List.filter_app, map_app. Qed.

Definition untouchable (l : list RenderedStep) : Prop := Forall (fun s => touchable s = false) l.

(** A pass over steps, with [n] of them touchable. *)
Definition passed (f : Fit) (a a' : Passing) (l l' : list RenderedStep) : Prop :=
  pa_seen a' = (pa_seen a + length (touchable_sizes l))%nat /\
  total (map rs_bytes l') <= total (fixed_sizes l) + fit_cost f (pa_seen a) (touchable_sizes l) /\
  ((pa_seen a + length (touchable_sizes l) <= ft_elide f)%nat -> untouchable l') /\
  (untouchable l -> l' = l /\ a' = a).

Lemma fit_steps_passed f shrink i a l : MIN_SHRUNK_OUTPUT_BYTES <= ft_share f ->
  let '(l', a') := fit_steps f shrink i a l in passed f a a' l l'.
Proof.
  intros Hsh. revert i a. induction l as [|s l IH]; intros i a; cbn [fit_steps].
  { split_and!; [cbn; lia|cbn; lia|by constructor|done]. }
  pose proof (fit_step_spec f (shrink i) a s Hsh) as Hs. destruct (fit_step f (shrink i) a s) as [s' a1].
  specialize (IH (S i) a1). destruct (fit_steps f shrink (S i) a1 l) as [l' a']. destruct IH as (H1 & H2 & H3 & H4).
  unfold passed. rewrite touchable_sizes_cons, fixed_sizes_cons. destruct (touchable s) eqn:Et.
  - destruct Hs as (Hseen & Hb & He). rewrite Hseen in *. cbn [map length fit_cost]. rewrite total_cons. unfold fit_here in Hb.
    split_and!; [lia|lia| |intros Hu; inversion Hu; congruence].
    intros Hall. constructor; [rewrite He by lia; apply elided_untouchable|apply H3; lia].
  - destruct Hs as [-> ->]. cbn [map]. rewrite !total_cons. split_and!; [lia|lia| |].
    + intros Hall. constructor; [done|by apply H3].
    + intros Hu. inversion Hu; subst. by destruct H4 as [-> ->].
Qed.

Lemma fit_plans_passed f shrink p a plans : MIN_SHRUNK_OUTPUT_BYTES <= ft_share f ->
  let '(plans', a') := fit_plans f shrink p a plans in
  passed f a a' (concat plans) (concat plans') /\ (untouchable (concat plans) -> plans' = plans).
Proof.
  intros Hsh. revert p a. induction plans as [|l plans IH]; intros p a; cbn [fit_plans].
  { split; [|done]. split_and!; [cbn; lia|cbn; lia|by constructor|done]. }
  pose proof (fit_steps_passed f (shrink p) 0 a l Hsh) as Hl. destruct (fit_steps f (shrink p) 0 a l) as [l' a1].
  specialize (IH (S p) a1). destruct (fit_plans f shrink (S p) a1 plans) as [plans' a'].
  destruct Hl as (H1 & H2 & H3 & H4). destruct IH as [(H5 & H6 & H7 & H8) H9].
  cbn [concat]. unfold passed. rewrite touchable_sizes_app, fixed_sizes_app, map_app, !total_app, fit_cost_app, length_app.
  rewrite H1 in *. split; [split_and!|].
  - lia.
  - lia.
  - intros Hall. apply Forall_app. split; [apply H3|apply H7]; lia.
  - intros [Hu1 Hu2]%Forall_app. destruct (H4 Hu1) as [-> ->], (H8 Hu2) as [-> ->]. done.
  - intros [Hu1 Hu2]%Forall_app. destruct (H4 Hu1) as [-> _]. by rewrite H9.
Qed.

(** Steps whose sizes memory can hold. *)
Definition sized (l : list RenderedStep) : Prop := Forall (fun s => 0 <= rs_bytes s) l /\ total (map rs_bytes l) <= USIZE_MAX.

Lemma total_elem (l : list Z) x : Forall (Z.le 0) l -> x ∈ l -> x <= total l.
Proof.
  induction 1 as [|y l Hy Hl IH]; [by intros ?%elem_of_nil|]. pose proof (total_nonneg l Hl). rewrite total_cons.
  intros [->|Hx]%elem_of_cons; [lia|]. specialize (IH Hx). lia.
Qed.

Lemma sizes_nonneg (P : RenderedStep -> bool) l : Forall (fun s => 0 <= rs_bytes s) l -> Forall (Z.le 0) (map rs_bytes (List.filter P l)).
Proof.
  intros Hl. apply Forall_map. apply list.Forall_forall. intros s Hs%list_elem_of_In%List.filter_In.
  apply (proj1 (list.Forall_forall _ _) Hl). apply list_elem_of_In, Hs.
Qed.

Lemma sizes_split l : total (map rs_bytes l) = total (touchable_sizes l) + total (fixed_sizes l).
Proof.
  induction l as [|s l IH]; [done|]. rewrite touchable_sizes_cons, fixed_sizes_cons. cbn [map].
  destruct (touchable s); rewrite !total_cons; lia.
Qed.

Lemma sized_touchable l : sized l ->
  Forall (fun x => 0 <= x <= USIZE_MAX) (touchable_sizes l) /\ total (map floor_cost (touchable_sizes l)) <= USIZE_MAX /\
  0 <= total (fixed_sizes l) <= USIZE_MAX.
Proof.
  intros [Hn Ht]. pose proof (sizes_nonneg touchable l Hn) as Ha. pose proof (sizes_nonneg (fun s => negb (touchable s)) l Hn) as Hb.
  fold (touchable_sizes l) in Ha. fold (fixed_sizes l) in Hb. rewrite sizes_split in Ht.
  pose proof (total_nonneg _ Ha). pose proof (total_nonneg _ Hb). split_and!; [| |lia|lia].
  - apply list.Forall_forall. intros x Hx. pose proof (total_elem _ _ Ha Hx). pose proof (proj1 (list.Forall_forall _ _) Ha x Hx). lia.
  - transitivity (total (map id (touchable_sizes l))); [|rewrite map_id; lia]. apply total_le, Forall_true.
    intros x. unfold floor_cost, id. lia.
Qed.

Lemma touchable_size_pos l : Forall (fun x => marker < x) (touchable_sizes l).
Proof.
  apply Forall_map, list.Forall_forall. intros s Hs%list_elem_of_In%List.filter_In. destruct Hs as [_ Ht].
  by apply andb_true_iff in Ht as [_ ?%Z.ltb_lt].
Qed.

Lemma capped_pos share l : 0 < share -> Forall (fun x => 0 < x) l -> l <> [] -> 0 < capped share l.
Proof.
  intros Hs Hl Hne. destruct Hl as [|x l Hx Hl]; [done|]. rewrite capped_cons.
  assert (0 <= capped share l) by (apply total_nonneg, Forall_map; eapply list.Forall_impl; [exact Hl|]; simpl; lia). lia.
Qed.

Lemma summary_budget_spec plans budget shrink : sized (concat plans) -> 0 <= budget < USIZE_MAX ->
  let plans' := (apply_summary_budget plans budget shrink).1 in
  total (map rs_bytes (concat plans')) <= budget \/ untouchable (concat plans').
Proof.
  intros Hsz Hb. unfold apply_summary_budget, bytes_of. set (steps := concat plans) in *.
  destruct (sized_touchable steps Hsz) as (Hr & Hfl & Hfx). destruct Hsz as [Hn Ht].
  rewrite (sat_total_min (map rs_bytes steps)) by (by apply Forall_map).
  destruct (Z.leb_spec (Z.min (total (map rs_bytes steps)) USIZE_MAX) budget) as [Hfit|_]; [left; change (total (map rs_bytes steps) <= budget); lia|].
  rewrite (sat_total_min (fixed_sizes steps)) by (by apply sizes_nonneg). rewrite (Z.min_l (total (fixed_sizes steps))) by lia.
  set (room := sat_sub budget (total (fixed_sizes steps))). assert (0 <= room <= budget) as Hroom by (unfold room, sat_sub; lia).
  pose proof marker_small as Hm.
  pose proof (plan_fit_ok (touchable_sizes steps) room marker Hr ltac:(lia) ltac:(lia) Hfl) as [F1 F2 F3 F4 F5].
  set (f := plan_fit _ _ _) in *. pose proof (fit_plans_passed f shrink 0 (mkPassing 0 (mkFitted 0 0 0)) plans F5) as Hp.
  destruct (fit_plans f shrink 0 _ plans) as [plans' a']. destruct Hp as [(P1 & P2 & P3 & P4) _]. cbn [fst pa_seen Nat.add] in *.
  fold steps in P1, P2, P3, P4. destruct (decide (ft_elide f < length (touchable_sizes steps))%nat) as [He|He].
  - left. specialize (F3 He). rewrite fit_cost_from in P2 by (rewrite Nat.sub_0_r; lia). rewrite Nat.sub_0_r in P2.
    assert (0 < capped (ft_share f) (drop (ft_elide f) (touchable_sizes steps))).
    { apply capped_pos; [unfold MIN_SHRUNK_OUTPUT_BYTES in *; lia| |].
      - apply Forall_drop. eapply list.Forall_impl; [apply touchable_size_pos|]. cbn beta. lia.
      - intros Hnil. apply (f_equal length) in Hnil. rewrite length_drop in Hnil. simpl in Hnil. lia. }
    unfold room, sat_sub in F3. lia.
  - right. apply P3. lia.
Qed.

Lemma summary_budget_untouchable plans budget shrink : untouchable (concat plans) -> 0 <= budget ->
  apply_summary_budget plans budget shrink = (plans, mkFitted 0 0 0).
Proof.
  intros Hu Hb. unfold apply_summary_budget. destruct (_ <=? _); [done|].
  assert (touchable_sizes (concat plans) = []) as ->.
  { clear Hb. induction Hu as [|s l Hs _ IH]; [done|]. by rewrite touchable_sizes_cons, Hs. }
  assert (forall room, 0 <= room -> plan_fit [] room marker = mkFit 0 USIZE_MAX) as ->.
  { intros room Hr. unfold plan_fit. cbn [sat_total fold_left]. by rewrite (proj2 (Z.leb_le 0 room)). }
  2: unfold sat_sub; lia.
  pose proof (fit_plans_passed (mkFit 0 USIZE_MAX) shrink 0 (mkPassing 0 (mkFitted 0 0 0)) plans usize_large) as Hp.
  destruct (fit_plans _ shrink 0 _ plans) as [plans' a']. destruct Hp as [(_ & _ & _ & P4) P5].
  rewrite (P5 Hu). by rewrite (proj2 (P4 Hu)).
Qed.

Lemma summary_budget_within plans budget shrink : sized (concat plans) -> total (map rs_bytes (concat plans)) <= budget ->
  apply_summary_budget plans budget shrink = (plans, mkFitted 0 0 0).
Proof.
  intros [Hn Ht] Hb. unfold apply_summary_budget, bytes_of. rewrite sat_total_min by (by apply Forall_map).
  by rewrite (proj2 (Z.leb_le _ budget)) by lia.
Qed.

(** ** The calls *)

Definition cost_of (c : option Value) : Z := match c with Some c => call_cost c | None => 0 end.

Definition in_order (c : option Value) : Prop := match c with Some (Object m) => keys_sorted m.*1 = true | _ => True end.

(** Dropping its parameters would not shrink the call. *)
Definition irreducible (c : option Value) : Prop :=
  match c with
  | Some c => match without_parameters c with Some s => call_cost c <= call_cost s | None => True end
  | None => True
  end.

Lemma call_cost_nonneg c : 0 <= call_cost c.
Proof. unfold call_cost, sat_add, size_of, CALL_FRAMING_BYTES, USIZE_MAX. lia. Qed.

Lemma cost_nonneg c : 0 <= cost_of c.
Proof. destruct c; [apply call_cost_nonneg|done]. Qed.

Lemma without_parameters_twice c s : in_order (Some c) -> without_parameters c = Some s -> without_parameters s = None.
Proof.
  unfold without_parameters. destruct c as [| | | | |m]; try done. destruct (map_get PARAMETERS_KEY m); [|done]. intros Hk [= <-].
  rewrite map_get_insert_ne by done. by rewrite map_get_remove.
Qed.

Lemma shrink_call_spec budget other c : 0 <= other -> in_order c ->
  let '(c', total') := shrink_call budget (other + cost_of c) c in
  total' = other + cost_of c' /\ total' <= other + cost_of c /\ (total' <= budget \/ irreducible c').
Proof.
  intros Ho Hk. destruct c as [c|]; cbn [shrink_call cost_of irreducible]; [|split_and!; [done..|by right]].
  destruct (Z.leb_spec (other + call_cost c) budget); [split_and!; [done..|by left]|].
  destruct (without_parameters c) as [s|] eqn:Es; [|split_and!; [done..|right; cbn; by rewrite Es]].
  destruct (Z.ltb_spec (call_cost s) (call_cost c)); [|split_and!; [done..|right; cbn; by rewrite Es]].
  pose proof (call_cost_nonneg s). unfold sat_sub. cbn [cost_of]. split_and!; [lia|lia|]. right. cbn.
  by rewrite (without_parameters_twice c s Hk Es).
Qed.

Definition costs (l : list (option Value)) : Z := total (map cost_of l).

Lemma costs_nonneg l : 0 <= costs l.
Proof. apply total_nonneg, Forall_map, Forall_true. intros c. apply cost_nonneg. Qed.

Lemma shrink_calls_spec budget l other : 0 <= other -> Forall in_order l ->
  let '(l', total') := shrink_calls budget (other + costs l) l in
  total' = other + costs l' /\ total' <= other + costs l /\ (total' <= budget \/ Forall irreducible l').
Proof.
  intros Ho Hk. revert other Ho. induction Hk as [|c l Hc Hl IH]; intros other Ho; cbn [shrink_calls].
  { split_and!; [done..|]. by right. }
  assert (Ec : costs (c :: l) = cost_of c + costs l) by done. pose proof (costs_nonneg l) as Hn.
  pose proof (shrink_call_spec budget (other + costs l) c ltac:(lia) Hc) as H1.
  replace (other + costs (c :: l)) with (other + costs l + cost_of c) by lia.
  destruct (shrink_call budget _ c) as [c' t1]. destruct H1 as (H1 & H2 & H3). pose proof (cost_nonneg c').
  specialize (IH (other + cost_of c') ltac:(lia)). replace (other + cost_of c' + costs l) with t1 in IH by lia.
  destruct (shrink_calls budget t1 l) as [l' t2]. destruct IH as (H4 & H5 & H6).
  assert (costs (c' :: l') = cost_of c' + costs l') by done. split_and!; [lia|lia|].
  destruct H6 as [?|H6]; [by left|]. destruct H3 as [?|H3]; [left; lia|]. right. by constructor.
Qed.

Lemma call_budget_spec budget cs other : 0 <= other -> Forall (Forall in_order) cs ->
  let cs' := apply_call_budget cs (other + costs (concat cs)) budget in
  other + costs (concat cs') <= other + costs (concat cs) /\
  (other + costs (concat cs') <= budget \/ Forall irreducible (concat cs')).
Proof.
  intros Ho Hk. revert other Ho. induction Hk as [|l cs Hl Hcs IH]; intros other Ho; cbn [apply_call_budget concat].
  { split; [done|]. right. by constructor. }
  assert (Ec : forall a b, costs (a ++ b) = costs a + costs b) by (intros a b; unfold costs; by rewrite map_app, total_app).
  pose proof (costs_nonneg (concat cs)). pose proof (shrink_calls_spec budget l (other + costs (concat cs)) ltac:(lia) Hl) as H1.
  rewrite Ec. replace (other + (costs l + costs (concat cs))) with (other + costs (concat cs) + costs l) by lia.
  destruct (shrink_calls budget _ l) as [l' t1]. destruct H1 as (H1 & H2 & H3). pose proof (costs_nonneg l').
  specialize (IH (other + costs l') ltac:(lia)). replace (other + costs l' + costs (concat cs)) with t1 in IH by lia.
  cbn [concat]. rewrite Ec. set (cs' := apply_call_budget cs t1 budget) in *. destruct IH as [Hle IH]. split; [lia|].
  destruct IH as [?|H4]; [left; lia|]. destruct H3 as [?|H3]; [left; lia|]. right. by apply Forall_app.
Qed.

(** ** Where the fitted steps and calls come from *)

(** [s'] stands where [s] stood: as it was, elided, or rendered again. *)
Definition refit (shrink : Z -> RenderedStep) (s s' : RenderedStep) : Prop := s' = s \/ s' = rs_elided \/ exists cap, s' = shrink cap.

Lemma fit_step_refit f shrink a s : refit shrink s (fit_step f shrink a s).1.
Proof.
  unfold fit_step, refit. destruct (negb (touchable s)); [by left|]. destruct (Nat.leb _ _); [by right; left|].
  destruct (_ <? _); [|by left]. destruct (_ && _); [right; right; by eexists|by right; left].
Qed.

Lemma fit_steps_refit f shrink i a l k s' : (fit_steps f shrink i a l).1 !! k = Some s' ->
  exists s, l !! k = Some s /\ refit (shrink (i + k)%nat) s s'.
Proof.
  revert i a k. induction l as [|s l IH]; intros i a k; cbn [fit_steps]; [done|].
  pose proof (fit_step_refit f (shrink i) a s) as Hs. destruct (fit_step f (shrink i) a s) as [x a1].
  specialize (IH (S i) a1). destruct (fit_steps f shrink (S i) a1 l) as [l' a']. cbn [fst] in *.
  destruct k as [|k]; cbn; [intros [= <-]; exists s; by rewrite Nat.add_0_r|].
  intros Hk. rewrite Nat.add_succ_r. by apply IH.
Qed.

Lemma fit_plans_refit f shrink p a plans k l' i s' :
  (fit_plans f shrink p a plans).1 !! k = Some l' -> l' !! i = Some s' ->
  exists l s, plans !! k = Some l /\ l !! i = Some s /\ refit (shrink (p + k)%nat i) s s'.
Proof.
  revert p a k. induction plans as [|l plans IH]; intros p a k; cbn [fit_plans]; [done|].
  pose proof (fit_steps_refit f (shrink p) 0 a l i s') as Hl. destruct (fit_steps f (shrink p) 0 a l) as [x a1].
  specialize (IH (S p) a1). destruct (fit_plans f shrink (S p) a1 plans) as [plans' a']. cbn [fst] in *.
  destruct k as [|k]; cbn.
  - intros [= <-] Hi. destruct (Hl Hi) as (s & Hs & Hr). exists l, s. rewrite Nat.add_0_r. done.
  - intros Hk Hi. rewrite Nat.add_succ_r. by apply IH.
Qed.

Lemma summary_budget_refit plans budget shrink k l' i s' :
  (apply_summary_budget plans budget shrink).1 !! k = Some l' -> l' !! i = Some s' ->
  exists l s, plans !! k = Some l /\ l !! i = Some s /\ refit (shrink k i) s s'.
Proof.
  unfold apply_summary_budget. destruct (_ <=? _); [intros Hk Hi; exists l', s'; split_and!; [done|done|by left]|].
  set (f := plan_fit _ _ _). pose proof (fit_plans_refit f shrink 0 (mkPassing 0 (mkFitted 0 0 0)) plans k l' i s') as Hf.
  by destruct (fit_plans f shrink 0 _ plans).
Qed.

Lemma summary_budget_le plans budget shrink : sized (concat plans) -> 0 <= budget < USIZE_MAX ->
  total (map rs_bytes (concat (apply_summary_budget plans budget shrink).1)) <= total (map rs_bytes (concat plans)).
Proof.
  intros Hsz Hb. unfold apply_summary_budget. destruct (_ <=? _); [done|].
  destruct (sized_touchable _ Hsz) as (Hr & Hfl & Hfx). pose proof marker_small.
  set (room := sat_sub _ _). assert (0 <= room <= budget).
  { unfold room, sat_sub. rewrite sat_total_min by (by apply sizes_nonneg, Hsz). lia. }
  pose proof (plan_fit_ok (touchable_sizes (concat plans)) room marker Hr ltac:(lia) ltac:(lia) Hfl) as [F1 F2 F3 F4 F5].
  set (f := plan_fit _ _ _) in *. pose proof (fit_plans_passed f shrink 0 (mkPassing 0 (mkFitted 0 0 0)) plans F5) as Hp.
  destruct (fit_plans f shrink 0 _ plans) as [plans' a']. destruct Hp as [(_ & P2 & _) _]. cbn [fst].
  rewrite (sizes_split (concat plans)).
  assert (forall seen l, Forall (fun x => marker < x) l -> fit_cost f seen l <= total l) as Hle.
  { intros seen l Hl. revert seen. induction Hl as [|x l Hx _ IH]; intros seen; cbn [fit_cost]; [done|].
    rewrite total_cons. specialize (IH (S seen)). cbn beta in Hx. destruct (Nat.leb _ _); lia. }
  specialize (Hle (pa_seen (mkPassing 0 (mkFitted 0 0 0))) _ (touchable_size_pos (concat plans))). lia.
Qed.

(** A call after the budget: as it was, or without its parameters. *)
Definition recall (c c' : option Value) : Prop :=
  c' = c \/ exists v s, c = Some v /\ without_parameters v = Some s /\ c' = Some s.

Lemma shrink_call_recall budget t c : recall c (shrink_call budget t c).1.
Proof.
  unfold shrink_call, recall. destruct c as [c|]; [|by left]. destruct (_ <=? _); [by left|].
  destruct (without_parameters c) as [s|] eqn:E; [|by left]. destruct (_ <? _); [right; by exists c, s|by left].
Qed.

Lemma shrink_calls_recall budget t l : Forall2 recall l (shrink_calls budget t l).1.
Proof.
  revert t. induction l as [|c l IH]; intros t; cbn [shrink_calls]; [constructor|].
  pose proof (shrink_call_recall budget t c) as Hc. destruct (shrink_call budget t c) as [c' t'].
  specialize (IH t'). destruct (shrink_calls budget t' l). by constructor.
Qed.

Lemma call_budget_recall budget t cs : Forall2 (Forall2 recall) cs (apply_call_budget cs t budget).
Proof.
  revert t. induction cs as [|l cs IH]; intros t; cbn [apply_call_budget]; [constructor|].
  pose proof (shrink_calls_recall budget t l) as Hl. destruct (shrink_calls budget t l) as [l' t']. by constructor.
Qed.

(** * Theorems *)

Section Theorems.
Context `{UnicodeChar} `{Sha256}.

#[local] Opaque sink_screen_with render screen_text.

Definition cleared (profile : GuardProfile) (text : bytes) : Prop := sink_screen_with profile text = None.

Definition cleared_decision (r : PlanRecord) (v : Value) : Prop :=
  v = String WITHHELD_MARKER \/ (v = String (pl_decision (rec_plan r)) /\ cleared Strict (pl_decision (rec_plan r))).

Definition cleared_call (step : option PlannedStep) (c : option Value) : Prop :=
  match step, c with
  | Some s, Some v =>
      v = String WITHHELD_MARKER \/
      (cleared Strict (screen_text (call_value s)) /\ cleared Strict (screen_text (call_parameters s)) /\
       (v = call_value s \/ without_parameters (call_value s) = Some v))
  | None, None => True
  | _, _ => False
  end.

(** What the planner may see of outcome [i]. *)
Definition cleared_outcome (r : PlanRecord) (i : nat) (v : Value) : Prop :=
  let tool := (step_tool_and_method (rec_plan r) i).1 in
  v = withheld_value \/ v = elided_outcome \/
  (exists res cap, let view := render (without_screen_audit_fields res) cap in
     rec_outcomes r !! i = Some (StepOk res) /\ v = output_value view /\ cleared (for_tool tool) (screen_text view)) \/
  (exists code detail shown, rec_outcomes r !! i = Some (StepErr code detail) /\ v = err_value code shown /\
     (shown = WITHHELD_MARKER \/ (shown = shown_detail detail /\ cleared (for_tool tool) shown))).

Lemma screen_value_cleared v also : let s := screen_value v also in
  (sd_value s = String WITHHELD_MARKER /\ is_Some (sd_sink_block s)) \/
  (sd_value s = v /\ sd_sink_block s = None /\ Forall (cleared MODEL_AUTHORED_PROFILE) (screen_text v :: also)).
Proof.
  unfold screen_value. set (texts := screen_text v :: also). clearbody texts.
  destruct (first_block MODEL_AUTHORED_PROFILE texts) as [b|] eqn:E; [left; cbn; by eauto|right]. split_and!; [done..|].
  induction texts as [|t texts IH]; [constructor|]. cbn in E. destruct (sink_screen_with MODEL_AUTHORED_PROFILE t) eqn:Et; [done|].
  constructor; [done|by apply IH].
Qed.

Lemma render_ok_cleared r i res cap : rec_outcomes r !! i = Some (StepOk res) ->
  cleared_outcome r i (rs_value (render_ok (step_tool_and_method (rec_plan r) i).1 res cap)).
Proof.
  intros Ho. unfold render_ok, sink_screen. destruct (sink_screen_with _ _) eqn:E; [by left|]. right; right; left.
  by exists res, (Z.to_nat (cap (without_screen_audit_fields res))).
Qed.

Lemma rendered_cleared r i s : rendered r !! i = Some s -> cleared_outcome r i (rs_value s).
Proof.
  unfold rendered. rewrite list_lookup_imap. destruct (rec_outcomes r !! i) as [o|] eqn:Ho; [|done]. cbn. intros [= <-].
  destruct (step_tool_and_method (rec_plan r) i) as [tool method] eqn:Et. destruct o as [v|code detail]; cbn [render_step_outcome].
  - pose proof (render_ok_cleared r i v (ok_summary_cap method) Ho) as Hc. by rewrite Et in Hc.
  - right; right; right. exists code, detail. unfold sink_screen. rewrite Et. cbn [fst].
    destruct (sink_screen_with _ _) eqn:E; eexists; split_and!; [done|done|by left|done|done|by right].
Qed.

Lemma shrunk_cleared r i cap : cleared_outcome r i (rs_value (shrunk_output r i cap)).
Proof.
  unfold shrunk_output. destruct (rec_outcomes r !! i) as [[v|code detail]|] eqn:Ho; [|by right; left..].
  destruct (bool_decide _); [by right; left|]. by apply render_ok_cleared.
Qed.

Lemma calls_cleared r i c : calls r !! i = Some c -> cleared_call (pl_steps (rec_plan r) !! i) (sd_value <$> c).
Proof.
  unfold calls. rewrite list_lookup_imap. destruct (rec_outcomes r !! i); [|done]. cbn. intros [= <-].
  destruct (pl_steps (rec_plan r) !! i) as [st|]; [|done]. cbn. unfold render_call.
  destruct (screen_value_cleared (call_value st) [screen_text (call_parameters st)]) as [[E _]|(E & _ & Hall)]; [by left|].
  right. inversion Hall as [|? ? Ha Hrest]. inversion Hrest. split_and!; [done|done|by left].
Qed.

Lemma call_value_in_order s : in_order (Some (call_value s)).
Proof. reflexivity. Qed.

Lemma recall_cleared step c c' : recall c c' -> cleared_call step c -> cleared_call step c'.
Proof.
  intros [->|(v & sm & -> & Es & ->)]; [done|]. destruct step as [step|]; cbn; [|done].
  intros [->|(H1 & H2 & [->|H3])]; [done|right; split_and!; [done|done|by right]|].
  by rewrite (without_parameters_twice _ _ (call_value_in_order step) H3) in Es.
Qed.

Lemma shrink_of_cleared plans p i r cap : plans !! p = Some r -> cleared_outcome r i (rs_value (shrink_of plans p i cap)).
Proof. intros Hp. unfold shrink_of. rewrite Hp. apply shrunk_cleared. Qed.

Lemma fitted_cleared plans budget p i r l s :
  plans !! p = Some r -> (apply_summary_budget (map rendered plans) budget (shrink_of plans)).1 !! p = Some l -> l !! i = Some s ->
  cleared_outcome r i (rs_value s).
Proof.
  intros Hr Hl Hs. destruct (summary_budget_refit _ _ _ _ _ _ _ Hl Hs) as (l0 & s0 & Hl0 & Hs0 & Href).
  rewrite list_lookup_fmap, Hr in Hl0. injection Hl0 as <-. destruct Href as [->|[->|[cap ->]]].
  - by apply rendered_cleared.
  - by right; left.
  - by apply shrink_of_cleared.
Qed.

Lemma screen_text_string_clear d : Forall (cleared MODEL_AUTHORED_PROFILE) [screen_text (String d)] -> cleared Strict d.
Proof. intros Hd. inversion Hd as [|? ? Hc _]. by destruct d. Qed.

Lemma decision_cleared r : cleared_decision r (sd_value (decision_shown r)).
Proof.
  unfold decision_shown, render_decision.
  destruct (screen_value_cleared (String (pl_decision (rec_plan r))) []) as [[E _]|(E & _ & Hall)]; [by left|].
  right. split; [done|]. by apply screen_text_string_clear.
Qed.

(** C14. Nothing reaches the planner unscreened: in every entry of the summary of
    its earlier plans, the decision and each call are either the marker or text
    the strict screen cleared, and each outcome is the fixed withheld or elided
    shape, a failure's code with a detail the tool's own screen cleared (or the
    marker), or a view of the raw result, less the screen's audit fields, whose
    whole text that screen cleared; also after the budget has rendered it again
    smaller. *)
Theorem planner_summary_is_screened plans entry :
  entry ∈ render_plans_summary plans ->
  exists r decision outs, r ∈ plans /\
    entry = object [(bs "decision", decision); (bs "step_outcomes", Array outs)] /\ cleared_decision r decision /\
    forall i o, outs !! i = Some o -> exists base call, o = with_call base call /\
      cleared_outcome r i base /\ cleared_call (pl_steps (rec_plan r) !! i) call.
Proof.
  unfold render_plans_summary, fit_summary. set (cs := map (fun r => map (fmap sd_value) (calls r)) plans). set (budget := sat_sub _ _).
  pose proof (fitted_cleared plans budget) as Hfit. destruct (apply_summary_budget _ _ _) as [steps fitted]. cbn [fst] in Hfit.
  set (cs' := apply_call_budget _ _ _). pose proof (call_budget_recall PLANS_SUMMARY_BUDGET (sat_add (sat_total (bytes_of steps)) (call_bytes cs)) cs) as Hre.
  fold cs' in Hre. clearbody cs'. intros [p Hp]%list_elem_of_lookup. apply lookup_zip_with_Some in Hp as (r & [l c] & -> & Hr & Hlc).
  apply lookup_zip_with_Some in Hlc as (l0 & c0 & [= <- <-] & Hl & Hc). exists r, (sd_value (decision_shown r)), (zip_with (fun s c => with_call (rs_value s) c) l c).
  split_and!; [by apply list_elem_of_lookup_2 with p|done|apply decision_cleared|].
  intros i o Ho. apply lookup_zip_with_Some in Ho as (s & x & -> & Hs & Hx). exists (rs_value s), x. split_and!; [done| |].
  - by apply (Hfit p i r l).
  - destruct (Forall2_lookup_r _ _ _ _ _ Hre Hc) as (c1 & Hc1 & Hf). unfold cs in Hc1. rewrite list_lookup_fmap, Hr in Hc1. injection Hc1 as <-.
    destruct (Forall2_lookup_r _ _ _ _ _ Hf Hx) as (x1 & Hx1 & Hrec). rewrite list_lookup_fmap in Hx1.
    destruct (calls r !! i) as [x2|] eqn:Ex2; [|done]. injection Hx1 as <-. eapply recall_cleared; [exact Hrec|]. by apply calls_cleared.
Qed.

Definition call_values (plans : list PlanRecord) : list (list (option Value)) := map (fun r => map (fmap sd_value) (calls r)) plans.

Lemma measured_render_ok tool v cap : 0 <= rs_bytes (render_ok tool v cap).
Proof. unfold render_ok. destruct (sink_screen _ _); cbn [rs_bytes rs_withheld rs_output measured]; unfold size_of; lia. Qed.

Lemma rendered_nonneg r : Forall (fun s => 0 <= rs_bytes s) (rendered r).
Proof.
  apply list.Forall_forall. intros s [i Hi]%list_elem_of_lookup. unfold rendered in Hi. rewrite list_lookup_imap in Hi.
  destruct (rec_outcomes r !! i) as [o|]; [|done]. cbn in Hi. injection Hi as <-.
  destruct (step_tool_and_method (rec_plan r) i) as [tool method]. destruct o as [v|code detail]; cbn [render_step_outcome].
  - apply measured_render_ok.
  - destruct (sink_screen _ _); cbn [rs_bytes rs_err measured]; unfold size_of; lia.
Qed.

Lemma shrink_of_nonneg plans p i cap : 0 <= rs_bytes (shrink_of plans p i cap).
Proof.
  pose proof marker_small. unfold shrink_of. destruct (plans !! p) as [r|]; [|lia]. unfold shrunk_output.
  destruct (rec_outcomes r !! i) as [[v|]|]; [|lia..]. destruct (bool_decide _); [lia|]. apply measured_render_ok.
Qed.

Lemma fitted_nonneg plans budget : Forall (fun s => 0 <= rs_bytes s)
  (concat (apply_summary_budget (map rendered plans) budget (shrink_of plans)).1).
Proof.
  apply Forall_concat, list.Forall_forall. intros l [p Hl]%list_elem_of_lookup. apply list.Forall_forall. intros s [i Hs]%list_elem_of_lookup.
  destruct (summary_budget_refit _ _ _ _ _ _ _ Hl Hs) as (l0 & s0 & Hl0 & Hs0 & [->|[->|[cap ->]]]).
  - rewrite list_lookup_fmap in Hl0. destruct (plans !! p) as [r|]; [|done]. injection Hl0 as <-.
    apply (proj1 (list.Forall_forall _ _) (rendered_nonneg r)). by apply list_elem_of_lookup_2 with i.
  - pose proof marker_small. lia.
  - apply shrink_of_nonneg.
Qed.

Lemma call_values_in_order plans : Forall (Forall in_order) (call_values plans).
Proof.
  apply Forall_map, Forall_true. intros r. apply Forall_map, list.Forall_forall. intros c [i Hi]%list_elem_of_lookup.
  unfold calls in Hi. rewrite list_lookup_imap in Hi. destruct (rec_outcomes r !! i); [|done]. cbn in Hi. injection Hi as <-.
  destruct (pl_steps (rec_plan r) !! i) as [st|]; [|done]. cbn. unfold render_call, screen_value.
  destruct (first_block _ _); [done|]. apply call_value_in_order.
Qed.

Lemma call_bytes_costs cs : costs (concat cs) <= USIZE_MAX -> call_bytes cs = costs (concat cs).
Proof.
  unfold call_bytes. generalize (concat cs). intros l Hl.
  assert (forall a, 0 <= a -> a + costs l <= USIZE_MAX -> fold_left (fun t c => sat_add t (call_cost c)) (omap id l) a = a + costs l) as Hg.
  { clear Hl. induction l as [|c l IH]; intros a Ha Hb; [cbn; unfold costs; cbn; lia|].
    assert (costs (c :: l) = cost_of c + costs l) as Ec by done. pose proof (costs_nonneg l). pose proof (cost_nonneg c).
    destruct c as [c|]; cbn [omap list_omap id fold_left cost_of] in *; [|rewrite IH; lia].
    rewrite IH; unfold sat_add; lia. }
  rewrite Hg; lia.
Qed.

(** The summary keeps to its budget: when the two passes are done, its outcomes
    and calls together take at most [PLANS_SUMMARY_BUDGET] bytes, or there is
    nothing left to cut: every output larger than the elision mark is gone, and
    no call would get smaller by dropping its parameters. *)
Theorem plan_summary_fits_or_is_bare plans :
  total (map rs_bytes (concat (map rendered plans))) + costs (concat (call_values plans)) <= USIZE_MAX ->
  let '(steps, cs) := fit_summary plans in
  total (map rs_bytes (concat steps)) + costs (concat cs) <= PLANS_SUMMARY_BUDGET \/
  (untouchable (concat steps) /\ Forall irreducible (concat cs)).
Proof.
  intros Hm. assert (Hn : Forall (fun s => 0 <= rs_bytes s) (concat (map rendered plans))).
  { apply Forall_concat, Forall_map, Forall_true. intros r. apply rendered_nonneg. }
  pose proof (total_nonneg (map rs_bytes (concat (map rendered plans))) ltac:(by apply Forall_map)) as Ht.
  pose proof (costs_nonneg (concat (call_values plans))) as Hc.
  unfold fit_summary. fold (call_values plans). rewrite call_bytes_costs by lia. set (budget := sat_sub _ _).
  assert (sized (concat (map rendered plans))) as Hsz by (split; [done|lia]).
  assert (0 <= budget < USIZE_MAX) as Hb by (unfold budget, sat_sub, PLANS_SUMMARY_BUDGET, USIZE_MAX in *; lia).
  pose proof (summary_budget_spec _ budget (shrink_of plans) Hsz Hb) as Hs. pose proof (summary_budget_le _ budget (shrink_of plans) Hsz Hb) as Hle.
  pose proof (fitted_nonneg plans budget) as Hn'. destruct (apply_summary_budget _ _ _) as [steps fitted]. cbn [fst] in *.
  unfold bytes_of. rewrite sat_total_min by (by apply Forall_map). pose proof (total_nonneg (map rs_bytes (concat steps)) ltac:(by apply Forall_map)).
  replace (sat_add _ _) with (total (map rs_bytes (concat steps)) + costs (concat (call_values plans))) by (unfold sat_add; lia).
  destruct (call_budget_spec PLANS_SUMMARY_BUDGET (call_values plans) (total (map rs_bytes (concat steps))) ltac:(lia) (call_values_in_order plans)) as [Hcs [Hok|Hirr]]; [by left|].
  destruct Hs as [Hs|Hs]; [|by right]. destruct (decide (costs (concat (call_values plans)) <= PLANS_SUMMARY_BUDGET)) as [Hd|Hd].
  - left. unfold budget, sat_sub in Hs. lia.
  - right. split; [|done]. assert (total (map rs_bytes (concat steps)) <= 0) as Hz by (unfold budget, sat_sub in Hs; lia).
    apply list.Forall_forall. intros s Hin. unfold touchable. destruct (rs_elidable s); [|done]. apply Z.ltb_ge.
    pose proof (total_elem (map rs_bytes (concat steps)) (rs_bytes s) ltac:(by apply Forall_map) ltac:(by apply list_elem_of_fmap_2)). pose proof marker_small. lia.
Qed.

(** The budget is idempotent: fitting a fitted summary again changes nothing. *)
Theorem summary_budget_idempotent plans budget shrink shrink' :
  Forall (fun s => 0 <= rs_bytes s) (concat (apply_summary_budget plans budget shrink).1) ->
  sized (concat plans) -> 0 <= budget < USIZE_MAX ->
  apply_summary_budget (apply_summary_budget plans budget shrink).1 budget shrink' =
    ((apply_summary_budget plans budget shrink).1, mkFitted 0 0 0).
Proof.
  intros Hn Hsz Hb. pose proof (summary_budget_le plans budget shrink Hsz Hb). destruct (summary_budget_spec plans budget shrink Hsz Hb) as [Hs|Hs].
  - apply summary_budget_within; [|done]. split; [done|]. destruct Hsz. lia.
  - apply summary_budget_untouchable; [done|lia].
Qed.

(** C31. The fit is the best one: the fewest of the oldest outputs are dropped for
    every later one to keep [MIN_SHRUNK_OUTPUT_BYTES] (or its own size), and what
    is left is shared by water-filling, so that one byte more for each would not
    fit; a share is never below that floor. *)
Theorem plan_fit_is_water_filling sizes room mark :
  Forall (fun x => 0 <= x <= USIZE_MAX) sizes -> 0 <= mark -> 0 <= room < USIZE_MAX ->
  total (map floor_cost sizes) <= USIZE_MAX -> fit_ok sizes room mark (plan_fit sizes room mark).
Proof. apply plan_fit_ok. Qed.
End Theorems.

(** * Witnesses *)

(** A mail sent, then a search that brought back an injection. *)
Definition summary_demo : list PlanRecord :=
  [mkRecord demo_plan [StepOk (object [(bs "id", String (bs "m-1"))])];
   mkRecord demo_replan [StepOk (object [(bs "body", String demo_bad)])]].

Lemma planner_summary_is_screened_witness :
  exists r, r ∈ summary_demo /\ cleared_decision r (String (bs "send it")).
Proof.
  destruct (render_plans_summary summary_demo) as [|e l] eqn:E; [vm_compute in E; discriminate|].
  destruct (planner_summary_is_screened summary_demo e) as (r & d & outs & Hr & He & Hd & _).
  { rewrite E. apply elem_of_cons; by left. }
  exists r. split; [exact Hr|]. replace (String (bs "send it")) with d; [exact Hd|].
  assert (Hget : get (bs "decision") e = Some (String (bs "send it"))).
  { assert (head (render_plans_summary summary_demo) ≫= get (bs "decision") = Some (String (bs "send it"))) as Hh by (vm_compute; reflexivity).
    rewrite E in Hh. exact Hh. }
  rewrite He in Hget. injection Hget as ->. reflexivity.
Defined.

Lemma plan_summary_fits_or_is_bare_witness :
  let '(steps, cs) := fit_summary summary_demo in
  total (map rs_bytes (concat steps)) + costs (concat cs) <= PLANS_SUMMARY_BUDGET \/
  (untouchable (concat steps) /\ Forall irreducible (concat cs)).
Proof. apply (plan_summary_fits_or_is_bare summary_demo). vm_compute. discriminate. Defined.

(** Three outputs of 5000, 100 and 9000 bytes, and a budget for two floors. *)
Definition big_step (n : Z) : RenderedStep := mkRendered Null n true None.

Lemma summary_budget_idempotent_witness :
  apply_summary_budget (apply_summary_budget [[big_step 5000; big_step 100]; [big_step 9000]] 4500 (fun _ _ cap => big_step cap)).1 4500
    (fun _ _ _ => rs_elided) =
  ((apply_summary_budget [[big_step 5000; big_step 100]; [big_step 9000]] 4500 (fun _ _ cap => big_step cap)).1, mkFitted 0 0 0).
Proof.
  apply summary_budget_idempotent; [repeat constructor; vm_compute; discriminate| |split; [discriminate|reflexivity]].
  split; [repeat constructor; discriminate|vm_compute; discriminate].
Defined.

Lemma plan_fit_is_water_filling_witness : fit_ok [5000; 100; 9000] 4500 80 (mkFit 0 2200).
Proof.
  apply (plan_fit_is_water_filling [5000; 100; 9000] 4500 80);
    [repeat constructor; vm_compute; discriminate|discriminate|split; [discriminate|reflexivity]|vm_compute; discriminate].
Defined.
