(* ===== verification/Sift.v ===== *)
(** The sift's pure parts (src/core/src/scheduler/notebook/sift/): its
    parameters and references, the operator's knobs, each item's reads, the
    sorter's message and reply, the chain of sifts and the summary the planner
    sees.

    A scrapbook's rows are those of src/db/src/scrapbook.rs.  [params_error] and
    [read_error] are the wordings of a JSON decoding error, and [str_debug] the
    [{:?}] of a string; the decoders read a struct from an object. *)

From stdpp Require Import base list numbers strings option.
From Stdlib Require Import ZArith Lia.
From S2P Require Import Prelude RustStr Json EgressConfig AuditLog NulRule Fingerprint Cassandra PlanJson InjectionGuard ResultView Asks AskMessage Conversation LoopPure Handoff InnerLoop Notebook NotebookView PlanSummary.
Local Open Scope nat_scope.

(** * Constants *)

Definition SIFT_METHOD : bytes := bs "sift.run".
Definition MAX_FIELDS : nat := 16.
Definition KEEP_IF_MAX_CHARS : nat := 1024.
Definition MAX_READS_NAMED : nat := 3.
Definition DEFAULT_MAX_READS : Z := Z.of_nat MAX_STEPS_PER_PLAN.
Definition DEFAULT_READ_METHODS : list bytes := [bs "mail.get_message"; bs "mail.get_attachment_text"; bs "handoff.fetch"].
Definition IMAGE_EXTENSIONS : list bytes := [bs "png"; bs "jpg"; bs "jpeg"; bs "gif"; bs "bmp"; bs "webp"; bs "heic"].
Definition SORTER_ITEM_CAP : Z := 8 * 1024.
Definition SAMPLE_ROWS : nat := 3.
Definition SUMMARY_SCREEN_CAP : Z := 64 * 1024.
Definition SOURCE_KEYS : list bytes := [bs "message_id"; bs "id"; bs "url"; bs "path"; bs "handoff_ref"].

Definition contains_byte (c : Z) (s : bytes) : bool := existsb (Z.eqb c) s.
Definition mem (s : bytes) (l : list bytes) : bool := existsb (bytes_eqb s) l.

(** * Scrapbook references (params.rs) *)

Record ScrapRef := mkRef { sr_task_id : Z; sr_sift : Z }.
#[global] Instance ScrapRef_eq_dec : EqDecision ScrapRef.
Proof. solve_decision. Defined.

Definition bad_ref (s : bytes) : bytes := bs "`" ++ s ++ bs "` is not a scrapbook ref (`sb:<task>:<sift>`)".

Definition parse_scrap_ref (s : bytes) : result ScrapRef bytes :=
  match strip_prefix (bs "sb:") s ≫= split_once 58%Z with
  | Some (task, sift) =>
      if negb (all_digits task) || negb (all_digits sift) then Err (bad_ref s)
      else
        match parse_i64 task, from_str_radix 10 i32_max sift with
        | Some t, Some n => if ((t <? 1) || (n <? 1))%Z then Err (bad_ref s) else Ok (mkRef t n)
        | _, _ => Err (bad_ref s)
        end
  | None => Err (bad_ref s)
  end.

Definition ref_str (r : ScrapRef) : bytes := bs "sb:" ++ show_z (sr_task_id r) ++ bs ":" ++ show_z (sr_sift r).

(** * The knobs (config.rs) *)

Record SiftConfig := mkSiftConfig { sc_max_reads : Z; sc_read_methods : list bytes }.

Definition default_config : SiftConfig := mkSiftConfig DEFAULT_MAX_READS DEFAULT_READ_METHODS.

(** [tool.method], unless the method already carries its namespace. *)
Definition read_key (tool method : bytes) : bytes :=
  if starts_with (tool ++ bs ".") method then method else tool ++ bs "." ++ method.

Definition never_a_read (key : bytes) : bool :=
  bytes_eqb key SIFT_TOOL || starts_with (bs "sift.") key || contains (bs "invoke_skill") key.

Section Config.
Context `{UnicodeStr}.
Variable str_debug : bytes -> bytes.

Definition known_read (advertised : list (bytes * bytes)) (m : bytes) : bool :=
  bytes_eqb m (bs "handoff.fetch") || existsb (fun tm => bytes_eqb (read_key tm.1 tm.2) m) advertised.

Fixpoint check_methods (advertised : list (bytes * bytes)) (listed : list bytes) : result () bytes :=
  match listed with
  | [] => Ok tt
  | m :: rest =>
      if never_a_read m then
        Err (bs "KASTELLAN_SIFT_READ_METHODS: `" ++ m ++ bs "` can never be a sift's read (a sift or a skill)")
      else if negb (known_read advertised m) then
        Err (bs "KASTELLAN_SIFT_READ_METHODS: `" ++ m ++ bs "` is not an advertised method")
      else check_methods advertised rest
  end.

Definition sift_max_reads (v : option bytes) : result Z bytes :=
  match v with
  | None => Ok DEFAULT_MAX_READS
  | Some v =>
      match from_str_radix 10 u64_max (str_trim v) with
      | Some n => if (0 <? n)%Z then Ok n
                  else Err (bs "KASTELLAN_SIFT_MAX_READS=" ++ str_debug v ++ bs " is not a whole number of reads above 0")
      | None => Err (bs "KASTELLAN_SIFT_MAX_READS=" ++ str_debug v ++ bs " is not a whole number of reads above 0")
      end
  end.

Definition sift_read_methods (v : option bytes) (advertised : list (bytes * bytes)) : result (list bytes) bytes :=
  match v with
  | None => Ok DEFAULT_READ_METHODS
  | Some v =>
      let listed := List.filter (fun m => negb (bytes_eqb m [])) (map str_trim (split 44%Z v)) in
      if bool_decide (listed = []) then Err (bs "KASTELLAN_SIFT_READ_METHODS=" ++ str_debug v ++ bs " names no method")
      else match check_methods advertised listed with Ok _ => Ok listed | Err e => Err e end
  end.

Definition sift_config (max_reads methods : option bytes) (advertised : list (bytes * bytes)) : result SiftConfig bytes :=
  match sift_max_reads max_reads with
  | Err e => Err e
  | Ok n => match sift_read_methods methods advertised with Ok l => Ok (mkSiftConfig n l) | Err e => Err e end
  end.
End Config.

(** * Parameters (params.rs) *)

Inductive Over := OverStep (n : Z) | OverScrapbook (r : ScrapRef).

Record ReadTemplate := mkTemplate { rt_tool : bytes; rt_method : bytes; rt_parameters : Value }.

Record SiftParams := mkParams {
  pm_over : Over; pm_items : option bytes; pm_from : Z; pm_read : list ReadTemplate; pm_keep_if : bytes;
  pm_fields : list bytes }.

Inductive RawOver := RawStep (n : Z) | RawScrapbook (r : bytes).

Record RawParams := mkRaw {
  rw_over : RawOver; rw_items : option bytes; rw_from : Z; rw_read : option Value; rw_keep_if : bytes; rw_fields : list bytes }.

Definition raw_over_from_value (v : Value) : option RawOver :=
  match v with
  | Object [(k, w)] =>
      if bytes_eqb k (bs "step") then RawStep <$> u32_from_value w
      else if bytes_eqb k (bs "scrapbook") then RawScrapbook <$> as_str w
      else None
  | _ => None
  end.

Definition raw_params_from_value (v : Value) : option RawParams :=
  _ ← deny_unknown [bs "over"; bs "items"; bs "from"; bs "read"; bs "keep_if"; bs "fields"; bs "continues"; bs "chain"] v;
  over ← req_field (bs "over") raw_over_from_value v;
  items ← option_field (bs "items") as_str v;
  from ← default_field (bs "from") 0%Z (uint_from_value u64_max) v;
  read ← option_field (bs "read") (fun w => Some w) v;
  keep_if ← req_field (bs "keep_if") as_str v;
  fields ← req_field (bs "fields") (array_of as_str) v;
  Some (mkRaw over items from read keep_if fields).

Definition template_from_value (v : Value) : option ReadTemplate :=
  _ ← deny_unknown [bs "tool"; bs "method"; bs "parameters"] v;
  tool ← req_field (bs "tool") as_str v;
  method ← req_field (bs "method") as_str v;
  parameters ← req_field (bs "parameters") (fun w => Some w) v;
  Some (mkTemplate tool method parameters).

Section Params.
Context `{UnicodeStr}.
Variables (params_error read_error : Value -> bytes).

Definition one_read (v : Value) : result ReadTemplate bytes :=
  match template_from_value v with
  | Some t => Ok t
  | None => Err (bs "the sift's `read` is not usable: " ++ read_error v)
  end.

Fixpoint all_reads (l : list Value) : result (list ReadTemplate) bytes :=
  match l with
  | [] => Ok []
  | v :: rest =>
      match one_read v with
      | Err e => Err e
      | Ok t => match all_reads rest with Ok ts => Ok (t :: ts) | Err e => Err e end
      end
  end.

Definition parse_read (v : option Value) : result (list ReadTemplate) bytes :=
  match v with
  | None | Some Null => Ok []
  | Some (Array l) =>
      if Nat.eqb (length l) 0 || Nat.ltb MAX_READS_NAMED (length l)
      then Err (bs "`read` must list 1 to " ++ show_nat MAX_READS_NAMED ++ bs " reads, not " ++ show_nat (length l))
      else all_reads l
  | Some v => match one_read v with Ok t => Ok [t] | Err e => Err e end
  end.

Fixpoint check_fields (seen fields : list bytes) : result () bytes :=
  match fields with
  | [] => Ok tt
  | f :: rest =>
      if is_blank f then Err (bs "a field name in `fields` is blank")
      else if Nat.ltb FIELD_NAME_MAX_CHARS (char_count f)
      then Err (bs "the field name `" ++ f ++ bs "` is longer than " ++ show_nat FIELD_NAME_MAX_CHARS ++ bs " characters")
      else if mem f seen then Err (bs "`fields` names `" ++ f ++ bs "` twice")
      else check_fields (f :: seen) rest
  end.

Definition resolve_raw_over (o : RawOver) : result Over bytes :=
  match o with
  | RawStep n => Ok (OverStep n)
  | RawScrapbook r => match parse_scrap_ref r with Ok r => Ok (OverScrapbook r) | Err e => Err e end
  end.

Definition check_raw (raw : RawParams) : result () bytes :=
  if is_blank (rw_keep_if raw) then Err (bs "`keep_if` is blank: say what an item must contain to be kept")
  else if Nat.ltb KEEP_IF_MAX_CHARS (char_count (rw_keep_if raw))
  then Err (bs "`keep_if` is longer than " ++ show_nat KEEP_IF_MAX_CHARS ++ bs " characters: say it shorter")
  else if Nat.eqb (length (rw_fields raw)) 0 || Nat.ltb MAX_FIELDS (length (rw_fields raw))
  then Err (bs "`fields` must name 1 to " ++ show_nat MAX_FIELDS ++ bs " fields, not " ++ show_nat (length (rw_fields raw)))
  else check_fields [] (rw_fields raw).

Definition parse_params (v : Value) : result SiftParams bytes :=
  match raw_params_from_value v with
  | None => Err (bs "the sift's parameters are not usable: " ++ params_error v)
  | Some raw =>
      match check_raw raw with
      | Err e => Err e
      | Ok _ =>
          match resolve_raw_over (rw_over raw) with
          | Err e => Err e
          | Ok over =>
              match parse_read (rw_read raw) with
              | Err e => Err e
              | Ok read => Ok (mkParams over (rw_items raw) (rw_from raw) read (rw_keep_if raw) (rw_fields raw))
              end
          end
      end
  end.
End Params.

Definition has_brace (s : bytes) : bool := contains_byte 123 s || contains_byte 125 s.

Definition check_read (t : ReadTemplate) (cfg : SiftConfig) : result () bytes :=
  if has_brace (rt_tool t) || has_brace (rt_method t)
  then Err (bs "a read's `tool` and `method` are fixed text, never placeholders")
  else
    let key := read_key (rt_tool t) (rt_method t) in
    if bytes_eqb (rt_tool t) SIFT_TOOL || never_a_read key then Err (bs "`" ++ key ++ bs "` can never be a sift's read")
    else if negb (mem key (sc_read_methods cfg))
    then Err (bs "`" ++ key ++ bs "` is not a method a sift may read with (allowed: " ++ join (bs ", ") (sc_read_methods cfg) ++ bs ")")
    else Ok tt.

(** * The items and their reads (template.rs) *)

Fixpoint value_at_segments (v : Value) (segs : list bytes) : option Value :=
  match segs with
  | [] => Some v
  | seg :: rest =>
      match v with
      | Array a => i ← from_str_radix 10 u64_max seg; w ← a !! Z.to_nat i; value_at_segments w rest
      | Object m => w ← map_get seg m; value_at_segments w rest
      | _ => None
      end
  end.

Definition value_at (v : Value) (path : bytes) : option Value := value_at_segments v (split 46%Z path).

Definition items_at (res : Value) (path : option bytes) : result (list Value) bytes :=
  let not_a_list named := Err (named ++ bs " is not a list") in
  match path with
  | Some p =>
      match value_at res p with
      | None => Err (bs "the result has no `" ++ p ++ bs "`")
      | Some (Array l) => Ok l
      | Some _ => not_a_list (bs "`" ++ p ++ bs "`")
      end
  | None => match res with Array l => Ok l | _ => not_a_list (bs "the result (name where its list is with `items`)") end
  end.

Definition is_image (name : bytes) : bool :=
  match rsplit_once 46%Z (to_ascii_lowercase name) with
  | Some (stem, ext) => negb (bytes_eqb stem []) && mem ext IMAGE_EXTENSIONS
  | None => false
  end.

Definition strip_suffix_byte (c : Z) (s : bytes) : option bytes :=
  match reverse s with x :: r => if (x =? c)%Z then Some (reverse r) else None | [] => None end.

Definition split_star (path : bytes) : bytes * bytes :=
  let '(prefix, suffix) := default (path, []) (split_once 42%Z path) in
  (trim_end_matches (Z.eqb 46) prefix, drop_while (Z.eqb 46) suffix).

Section Template.
Context `{CharClass}.

(** The path inside a placeholder string. *)
Definition placeholder (s : bytes) : option bytes :=
  inner ← strip_prefix [123%Z] s ≫= strip_suffix_byte 125%Z;
  if negb (bytes_eqb inner []) && negb (has_brace inner) && negb (existsb is_space (groups inner)) then Some inner else None.

Definition star_placeholder (s : bytes) : option bytes := p ← placeholder s; if contains_byte 42 p then Some p else None.

Fixpoint collect_star_paths (v : Value) : list bytes :=
  match v with
  | String s => match star_placeholder s with Some p => [p] | None => [] end
  | Array a => flat_map collect_star_paths a
  | Object m => flat_map (fun kv => collect_star_paths kv.2) m
  | _ => []
  end.

Fixpoint all_some {A} (l : list (option A)) : option (list A) :=
  match l with [] => Some [] | o :: rest => x ← o; xs ← all_some rest; Some (x :: xs) end.

Fixpoint fill (item : Value) (star : option Value) (v : Value) : option Value :=
  match v with
  | String s =>
      match placeholder s with
      | Some p => if contains_byte 42 p then star else value_at item p
      | None => Some v
      end
  | Array a => Array <$> all_some (map (fill item star) a)
  | Object m => Object <$> all_some (map (fun kv => (fun x => (kv.1, x)) <$> fill item star kv.2) m)
  | other => Some other
  end.

Definition fanned_read (t : ReadTemplate) (item : Value) (suffix : bytes) (el : Value) : option Value :=
  picked ← (if bytes_eqb suffix [] then Some el else value_at el suffix);
  if match picked with String s => is_image s | _ => false end then None else fill item (Some picked) (rt_parameters t).

Definition expand_reads (t : ReadTemplate) (item : Value) : list Value :=
  match collect_star_paths (rt_parameters t) with
  | [] => match fill item None (rt_parameters t) with Some v => [v] | None => [] end
  | [path] =>
      let '(prefix, suffix) := split_star path in
      match value_at item prefix with Some (Array l) => omap (fanned_read t item suffix) l | _ => [] end
  | _ => []
  end.

Fixpoint first_reads_from (i : nat) (reads : list ReadTemplate) (item : Value) : list (nat * Value) :=
  match reads with
  | [] => []
  | t :: rest =>
      match expand_reads t item with
      | [] => first_reads_from (S i) rest item
      | l => map (fun v => (i, v)) l
      end
  end.

Definition first_reads (reads : list ReadTemplate) (item : Value) : list (nat * Value) := first_reads_from 0 reads item.

(** * The batch (reads.rs) *)

(** The reads, and the range of each item taken. *)
Record Batch := mkBatch { ba_reads : list (nat * Value); ba_per_item : list (nat * nat); ba_cut : nat }.

Fixpoint plan_reads_from (read : list ReadTemplate) (cap : nat) (b : Batch) (items : list Value) : Batch :=
  match items with
  | [] => b
  | item :: rest =>
      if Nat.leb (Nat.max cap 1) (length (ba_per_item b)) then b
      else
        let reads := first_reads read item in
        let start := length (ba_reads b) in
        if Nat.ltb cap (start + length reads) then
          if bool_decide (ba_per_item b = []) then
            let kept := take cap reads in
            plan_reads_from read cap
              (mkBatch (ba_reads b ++ kept) (ba_per_item b ++ [(start, start + length kept)]) (length reads - cap)) rest
          else b
        else plan_reads_from read cap
               (mkBatch (ba_reads b ++ reads) (ba_per_item b ++ [(start, start + length reads)]) (ba_cut b)) rest
  end.

Definition plan_reads (read : list ReadTemplate) (items : list Value) (cap : nat) : Batch :=
  plan_reads_from read cap (mkBatch [] [] 0) items.
End Template.

(** * The scrapbook's rows (src/db/src/scrapbook.rs) *)

Inductive RowKind := Kept | Withheld.
#[global] Instance RowKind_eq_dec : EqDecision RowKind.
Proof. solve_decision. Defined.

Definition row_kind_str (k : RowKind) : bytes := match k with Kept => bs "kept" | Withheld => bs "withheld" end.
Definition row_kind_parse (s : bytes) : option RowKind :=
  if bytes_eqb s (bs "kept") then Some Kept else if bytes_eqb s (bs "withheld") then Some Withheld else None.

Record NewRow := mkNewRow { nw_kind : RowKind; nw_source : Value; nw_fields : Value; nw_classification : bytes }.
Record ScrapRow := mkScrapRow {
  sw_task_id : Z; sw_sift : Z; sw_row : Z; sw_kind : bytes; sw_source : Value; sw_fields : Value; sw_classification : bytes }.
Record Row := mkRow { rw_kind : RowKind; rw_source : Value; rw_row_fields : Value; rw_classification : bytes }.

(** The table is keyed by task, sift and row: a second append of a sift is refused whole. *)
Definition append_rows (t : list ScrapRow) (task_id sift : Z) (rows : list NewRow) : option (list ScrapRow) :=
  let new := imap (fun i r => mkScrapRow task_id sift (Z.of_nat i + 1) (row_kind_str (nw_kind r)) (escape_json (nw_source r)).1
                                (escape_json (nw_fields r)).1 (nw_classification r)) rows in
  let same a b := ((sw_task_id a =? sw_task_id b) && (sw_sift a =? sw_sift b) && (sw_row a =? sw_row b))%Z in
  if existsb (fun r => existsb (same r) t) new then None else Some (t ++ new).

Fixpoint insert_by_row (r : ScrapRow) (l : list ScrapRow) : list ScrapRow :=
  match l with [] => [r] | x :: rest => if (sw_row r <=? sw_row x)%Z then r :: l else x :: insert_by_row r rest end.

Definition row_of (r : ScrapRow) : option Row :=
  k ← row_kind_parse (sw_kind r); Some (mkRow k (sw_source r) (sw_fields r) (sw_classification r)).

Definition scrap_rows (t : list ScrapRow) (task_id sift : Z) : option (list Row) :=
  all_some (map row_of (fold_right insert_by_row []
    (List.filter (fun r => (sw_task_id r =? task_id) && (sw_sift r =? sift))%Z t))).

Definition is_kept (k : RowKind) : bool := bool_decide (k = Kept).

(** * What a table shows of rows (table.rs) *)

Definition scalar (v : Value) : bytes := match v with Null => [] | String s => s | other => to_string other end.

Definition mergeable (fields : Value) : bool :=
  match fields with Object m => existsb (fun kv => negb (bytes_eqb (scalar kv.2) [])) m | _ => false end.

Fixpoint distinct_from (seen : list Value) (alone : nat) (fields : list Value) : nat :=
  match fields with
  | [] => length seen + alone
  | f :: rest =>
      if negb (mergeable f) then distinct_from seen (S alone) rest
      else if existsb (value_eqb f) seen then distinct_from seen alone rest
      else distinct_from (seen ++ [f]) alone rest
  end.

Definition distinct_kept (fields : list Value) : nat := distinct_from [] 0 fields.

(** * The chain (chain.rs) *)

Definition at_key (k : bytes) (v : Value) : Value := default Null (get k v).
Definition at_u64 (k : bytes) (v : Value) : option Z := uint_from_value u64_max (at_key k v).
Definition at_str (k : bytes) (v : Value) : option bytes := as_str (at_key k v).

Definition sift_of (r : PlanRecord) : option (Value * Value) :=
  match pl_steps (rec_plan r), rec_outcomes r with
  | s :: _, StepOk v :: _ => if bytes_eqb (st_tool s) SIFT_TOOL then Some (st_parameters s, v) else None
  | _, _ => None
  end.

(** Newest first. *)
Definition sifts (plans : list PlanRecord) : list (Value * Value) := omap sift_of (reverse plans).

Definition last_sift (plans : list PlanRecord) : option Value := snd <$> head (sifts plans).

Definition named (name : bytes) (ps : Value * Value) : bool := bool_decide (at_str (bs "scrapbook") ps.2 = Some name).

Definition summary_of (plans : list PlanRecord) (name : bytes) : option Value := snd <$> List.find (named name) (sifts plans).

Definition is_sift_plan (p : Plan) : bool :=
  starts_with SIFT_READS_DECISION (pl_decision p) ||
  match pl_steps p with s :: _ => bytes_eqb (st_tool s) SIFT_TOOL | [] => false end.

Definition may_read (ctx : TaskContext) (r : ScrapRef) : bool :=
  (sr_task_id r =? cx_task_id ctx)%Z ||
  match cx_conversation_task_ids ctx with Some ids => existsb (Z.eqb (sr_task_id r)) ids | None => false end.

(** The chain so far with the link found last at its head; [None] out of fuel. *)
Fixpoint expand_from (fuel : nat) (plans : list PlanRecord) (chain : list bytes) (cur : bytes) : option (list bytes) :=
  match fuel with
  | O => None
  | S fuel' =>
      match summary_of plans cur ≫= at_str (bs "continues") with
      | None => Some chain
      | Some prev => if mem prev chain then Some chain else expand_from fuel' plans (prev :: chain) prev
      end
  end.

Definition expand (plans : list PlanRecord) (name : bytes) : list bytes :=
  default [name] (expand_from (S (length plans)) plans [name] name).

Definition sum_links (k : bytes) (links : list Value) : Z := fold_right Z.add 0%Z (omap (at_u64 k) links).

Definition totals (plans : list PlanRecord) (prev : bytes) (looked_at kept : Z) (distinct : option nat) : Value :=
  let links := omap (summary_of plans) (expand plans prev) in
  object ([(bs "sifts", int_value (Z.of_nat (length links) + 1)); (bs "looked_at", int_value (sum_links (bs "looked_at") links + looked_at));
           (bs "kept", int_value (sum_links (bs "kept") links + kept))] ++
          match distinct with Some d => [(bs "distinct", int_value (Z.of_nat d))] | None => [] end).

Section Chain.
Context `{UnicodeStr}.
Variables (params_error read_error : Value -> bytes).

Definition template_eqb (a b : ReadTemplate) : bool :=
  bytes_eqb (rt_tool a) (rt_tool b) && bytes_eqb (rt_method a) (rt_method b) && value_eqb (rt_parameters a) (rt_parameters b).

Fixpoint templates_eqb (a b : list ReadTemplate) : bool :=
  match a, b with
  | [], [] => true
  | x :: a', y :: b' => template_eqb x y && templates_eqb a' b'
  | _, _ => false
  end.

Definition over_eqb (a b : Over) : bool :=
  match a, b with
  | OverStep n, OverStep m => (n =? m)%Z
  | OverScrapbook r, OverScrapbook r' => bool_decide (r = r')
  | _, _ => false
  end.

Definition params_eqb (a b : SiftParams) : bool :=
  over_eqb (pm_over a) (pm_over b) && bool_decide (pm_items a = pm_items b) && (pm_from a =? pm_from b)%Z &&
  templates_eqb (pm_read a) (pm_read b) && bytes_eqb (pm_keep_if a) (pm_keep_if b) && bool_decide (pm_fields a = pm_fields b).

Definition but_from (params : Value) : option SiftParams :=
  match parse_params params_error read_error params with
  | Ok p => Some (mkParams (pm_over p) (pm_items p) 0 (pm_read p) (pm_keep_if p) (pm_fields p))
  | Err _ => None
  end.

Definition continued (plans : list PlanRecord) (params : Value) (from : Z) : option bytes :=
  if (from =? 0)%Z then None
  else
    mine ← but_from params;
    ps ← List.find (fun ps => bool_decide (at_u64 (bs "next_from") ps.2 = Some from) &&
                              match but_from ps.1 with Some p => params_eqb p mine | None => false end) (sifts plans);
    at_str (bs "scrapbook") ps.2.
End Chain.

(** * The sorter (sorter.rs) *)

Inductive SortReply := SortNo | SortYes (fields : list (bytes * Value)) | Undecided.

Definition sorter_message (criterion : bytes) (fields : list bytes) (now : option bytes) (item : list Value) : bytes :=
  let key k := json_string k ++ bs ":" in
  bs "{" ++ key (bs "keep_if") ++ to_string (String criterion) ++ bs "," ++ key (bs "fields") ++ to_string (Array (map String fields)) ++
  bs "," ++ match now with Some n => key (bs "now") ++ to_string (String n) ++ bs "," | None => [] end ++
  key (bs "item") ++ to_string (Array item) ++ bs "}".

Definition pick (fields : list bytes) (got : list (bytes * Value)) : list (bytes * Value) :=
  fold_left (fun m f => map_insert f (default Null (map_get f got)) m) fields [].

Definition parse_sort_reply `{SerdeJson} (raw : bytes) (fields : list bytes) : SortReply :=
  match parse_json_lenient (fun v => Some (to_value v)) raw with
  | Some (Object reply) =>
      match map_get (bs "keep") reply, map_get (bs "fields") reply with
      | Some (Bool false), _ => SortNo
      | Some (Bool true), Some (Object got) => SortYes (pick fields got)
      | Some (Bool true), (None | Some Null) => SortYes (pick fields [])
      | _, _ => Undecided
      end
  | _ => Undecided
  end.

(** * The summary (summary.rs) *)

Inductive Stop := StopTime | StopCancelled | StopSorterFailed | StopReadsNotRun.
#[global] Instance Stop_eq_dec : EqDecision Stop.
Proof. solve_decision. Defined.

Definition stop_str (s : Stop) : bytes :=
  match s with
  | StopTime => bs "time" | StopCancelled => bs "cancelled" | StopSorterFailed => bs "sorter_failed"
  | StopReadsNotRun => bs "reads_not_run"
  end.

Record Counts := mkCounts {
  ct_looked_at : nat; ct_kept : nat; ct_withheld : nat; ct_undecided : nat; ct_failed_reads : nat; ct_remaining : nat }.
Definition no_counts : Counts := mkCounts 0 0 0 0 0 0.

Record Reads := mkReads { rd_made : nat; rd_unread : nat; rd_cut : nat; rd_per_read : list nat }.

Definition nat_value (n : nat) : Value := int_value (Z.of_nat n).

Definition set_key (k : bytes) (w : Value) (v : Value) : Value := match v with Object m => Object (map_insert k w m) | _ => v end.

Section Summarise.
Context `{UnicodeChar} `{Sha256}.

(** Every string of the value that the planner-text screen blocks, replaced. *)
Fixpoint screened_value (v : Value) : Value * list SinkBlock :=
  match v with
  | String t => match screen_model_text t with Some b => (String WITHHELD_MARKER, [b]) | None => (v, []) end
  | Array a => let l := map screened_value a in (Array (map fst l), flat_map snd l)
  | Object m => let l := map (fun kv => (kv.1, screened_value kv.2)) m in
                (Object (map (fun kx => (kx.1, kx.2.1)) l), flat_map (fun kx => kx.2.2) l)
  | other => (other, [])
  end.

Definition kept_rows (rows : list NewRow) : list NewRow := List.filter (fun r => is_kept (nw_kind r)) rows.

Definition sample_of (r : NewRow) : Value * list SinkBlock :=
  let '(f, b1) := screened_value (nw_fields r) in
  let '(s, b2) := screened_value (nw_source r) in
  (object [(bs "fields", f); (bs "source", s)], b1 ++ b2).

Definition summary_value (scrap : ScrapRef) (p : SiftParams) (c : Counts) (reads : Reads) (rows : list NewRow) (remaining : nat)
    (stopped : option Stop) (sample : list Value) : Value :=
  object ([(bs "scrapbook", String (ref_str scrap)); (bs "criterion", String (pm_keep_if p));
           (bs "fields", Array (map String (pm_fields p)));
           (bs "looked_at", nat_value (ct_looked_at c)); (bs "kept", nat_value (ct_kept c));
           (bs "withheld", nat_value (ct_withheld c)); (bs "undecided", nat_value (ct_undecided c));
           (bs "failed_reads", nat_value (ct_failed_reads c)); (bs "reads", nat_value (rd_made reads));
           (bs "unread", nat_value (rd_unread reads));
           (bs "distinct", nat_value (distinct_kept (map nw_fields (kept_rows rows))));
           (bs "remaining", nat_value remaining); (bs "sample", Array sample)] ++
          (if Nat.ltb 0 remaining then [(bs "next_from", int_value (pm_from p + Z.of_nat (ct_looked_at c)))] else []) ++
          (if Nat.ltb 1 (length (rd_per_read reads)) then [(bs "items_per_read", Array (map nat_value (rd_per_read reads)))] else []) ++
          (if Nat.ltb 0 (rd_cut reads) then [(bs "reads_cut", nat_value (rd_cut reads))] else []) ++
          match stopped with Some why => [(bs "stopped", String (stop_str why))] | None => [] end).

Definition drop_keys (ks : list bytes) (v : Value) : Value :=
  match v with Object m => Object (fold_left (fun m k => map_remove k m) ks m) | _ => v end.

Definition summary (scrap : ScrapRef) (p : SiftParams) (c : Counts) (reads : Reads) (rows : list NewRow) (remaining : nat)
    (stopped : option Stop) : Value * list SinkBlock :=
  let sample := map sample_of (take SAMPLE_ROWS (kept_rows rows)) in
  let blocks := flat_map snd sample in
  let s := summary_value scrap p c reads rows remaining stopped (map fst sample) in
  match sorter_view SIFT_TOOL s SUMMARY_SCREEN_CAP with
  | Ok _ => (s, blocks)
  | Err b => (set_key (bs "sample_withheld") (Bool true) (drop_keys [bs "sample"; bs "criterion"; bs "fields"] s), blocks ++ [b])
  end.
End Summarise.

(** * References read back *)

Lemma digits_no_colon s : all_digits s = true -> 58%Z ∉ s.
Proof.
  unfold all_digits. intros [_ Hd]%andb_true_iff Hin. pose proof (proj1 (forallb_forall _ s) Hd 58%Z) as Hc.
  specialize (Hc (proj1 (list_elem_of_In _ _) Hin)). done.
Qed.

Lemma parse_i64_digits s : all_digits s = true -> parse_i64 s = parse_digits 10 i64_max 0 s.
Proof.
  intros Hd. rewrite <- (from_str_radix_digits i64_max s Hd). destruct s as [|c s]; [done|].
  unfold all_digits in Hd. apply andb_true_iff in Hd as [_ Hd]. cbn [forallb] in Hd. apply andb_true_iff in Hd as [Hc _].
  unfold is_ascii_digit in Hc. unfold parse_i64. destruct (decide (c = 45%Z)) as [->|Hne]; [done|].
  destruct c as [|p|p]; try done. repeat (destruct p as [p|p|]; try done).
Qed.

(** A scrapbook's reference means one thing: what a reference prints to is
    read back as the reference, and whatever text is read as a reference names a
    positive task and sift, within their column's range. *)
Theorem scrap_ref_reads_back r :
  (1 <= sr_task_id r <= i64_max)%Z -> (1 <= sr_sift r <= i32_max)%Z ->
  parse_scrap_ref (ref_str r) = Ok r /\
  forall s r', parse_scrap_ref s = Ok r' -> (1 <= sr_task_id r')%Z /\ (1 <= sr_sift r')%Z.
Proof.
  intros Ht Hn. split.
  - unfold parse_scrap_ref, ref_str. rewrite (proj2 (strip_prefix_Some (bs "sb:") _ _) eq_refl). cbn [mbind option_bind].
    assert (split_once 58 (show_z (sr_task_id r) ++ bs ":" ++ show_z (sr_sift r)) = Some (show_z (sr_task_id r), show_z (sr_sift r))) as ->.
    { apply split_once_Some. split; [done|]. apply digits_no_colon, show_z_digits. lia. }
    rewrite !show_z_digits by lia. cbn [negb orb]. rewrite parse_i64_digits by (apply show_z_digits; lia).
    rewrite from_str_radix_digits by (apply show_z_digits; lia). rewrite !parse_show_z by lia.
    rewrite !(proj2 (Z.ltb_ge _ 1)) by lia. by destruct r.
  - clear r Ht Hn. intros s r. unfold parse_scrap_ref. destruct (_ ≫= _) as [[task sift]|]; [|done].
    destruct (_ || _); [done|]. destruct (parse_i64 task) as [t|]; [|done]. destruct (from_str_radix 10 i32_max sift) as [n|]; [|done].
    destruct ((t <? 1)%Z || (n <? 1)%Z) eqn:E; [done|]. intros [= <-]. apply orb_false_iff in E as [?%Z.ltb_ge ?%Z.ltb_ge]. done.
Qed.

(** * The reads of a sift *)

Lemma mem_true s l : mem s l = true <-> s ∈ l.
Proof.
  unfold mem. rewrite existsb_exists. split.
  - intros (x & Hx & E%bytes_eqb_eq). subst. by apply list_elem_of_In.
  - intros Hs. exists s. split; [by apply list_elem_of_In|by apply bytes_eqb_eq].
Qed.

Lemma check_methods_Ok advertised l : check_methods advertised l = Ok () ->
  Forall (fun m => never_a_read m = false /\ known_read advertised m = true) l.
Proof.
  induction l as [|m l IH]; [constructor|]. cbn [check_methods]. destruct (never_a_read m) eqn:E1; [done|].
  destruct (known_read advertised m) eqn:E2; [|done]. cbn [negb]. intros Hl. constructor; [done|by apply IH].
Qed.

(** A sift reads with nothing else: whatever the operator's settings say, when
    the daemon accepts them, a read that passes the check names its tool and
    method in fixed text, its method is one of the default ones or an advertised
    method of the operator's list (or [handoff.fetch]), and it is neither a sift
    nor a skill. *)
Theorem accepted_read_is_allowlisted `{UnicodeStr} str_debug max_reads methods advertised cfg t :
  sift_config str_debug max_reads methods advertised = Ok cfg -> check_read t cfg = Ok () ->
  let key := read_key (rt_tool t) (rt_method t) in
  has_brace (rt_tool t) = false /\ has_brace (rt_method t) = false /\
  rt_tool t <> SIFT_TOOL /\ never_a_read key = false /\ (0 < sc_max_reads cfg)%Z /\
  (key ∈ DEFAULT_READ_METHODS \/ (is_Some methods /\ known_read advertised key = true)).
Proof.
  intros Hc Hr key. unfold check_read in Hr. fold key in Hr. destruct (has_brace (rt_tool t)) eqn:E1; [done|].
  destruct (has_brace (rt_method t)) eqn:E2; [done|]. cbn [orb] in Hr.
  destruct (bytes_eqb (rt_tool t) SIFT_TOOL) eqn:E3; [done|]. cbn [orb] in Hr. destruct (never_a_read key) eqn:E4; [done|].
  destruct (mem key (sc_read_methods cfg)) eqn:E5; [|done]. apply mem_true in E5.
  assert (rt_tool t <> SIFT_TOOL) by (intros E; rewrite E in E3; by rewrite (proj2 (bytes_eqb_eq _ _) eq_refl) in E3).
  unfold sift_config in Hc. destruct (sift_max_reads str_debug max_reads) as [n|] eqn:En; [|done].
  destruct (sift_read_methods str_debug methods advertised) as [l|] eqn:El; [|done]. injection Hc as <-. cbn [sc_max_reads sc_read_methods] in *.
  split_and!; try done.
  - unfold sift_max_reads in En. destruct max_reads as [v|]; [|by injection En as <-].
    destruct (from_str_radix _ _ _) as [m|]; [|done]. destruct (Z.ltb_spec 0 m); [by injection En as <-|done].
  - unfold sift_read_methods in El. destruct methods as [v|]; [|left; by injection El as <-]. right. split; [done|].
    destruct (bool_decide _); [done|]. destruct (check_methods advertised _) eqn:Ec; [|done]. injection El as <-.
    destruct a. exact (proj2 (proj1 (list.Forall_forall _ _) (check_methods_Ok _ _ Ec) key E5)).
Qed.

(** ** The batch *)

Fixpoint ranges {A} (start : nat) (parts : list (list A)) : list (nat * nat) :=
  match parts with [] => [] | p :: rest => (start, start + length p) :: ranges (start + length p) rest end.

Lemma ranges_app {A} start (a b : list (list A)) : ranges start (a ++ b) = ranges start a ++ ranges (start + length (concat a)) b.
Proof.
  revert start. induction a as [|p a IH]; intros start; cbn [ranges app concat length]; [by rewrite Nat.add_0_r|].
  by rewrite IH, length_app, Nat.add_assoc.
Qed.

Lemma ranges_length {A} start (parts : list (list A)) : length (ranges start parts) = length parts.
Proof. revert start. induction parts; intros start; cbn; [done|by f_equal]. Qed.

Section Batch.
Context `{CharClass} (read : list ReadTemplate) (cap : nat).

(** An item's reads, no more than the cap. *)
Definition part_of_item (item : Value) : list (nat * Value) := take cap (first_reads read item).

Definition batch_of (items : list Value) : Batch :=
  let parts := map part_of_item items in
  mkBatch (concat parts) (ranges 0 parts) match items with [] => 0 | item :: _ => length (first_reads read item) - cap end.

(** Why a batch ends after the items [pre], [rest] being left. *)
Definition batch_full (pre rest : list Value) : Prop :=
  match rest with
  | [] => True
  | item :: _ => length pre = Nat.max cap 1 \/ (pre <> [] /\ cap < length (ba_reads (batch_of pre)) + length (first_reads read item))
  end.

Lemma batch_snoc pre item : length (first_reads read item) <= cap \/ pre = [] ->
  batch_of (pre ++ [item]) =
    mkBatch (ba_reads (batch_of pre) ++ part_of_item item)
      (ba_per_item (batch_of pre) ++ [(length (ba_reads (batch_of pre)), length (ba_reads (batch_of pre)) + length (part_of_item item))])
      (match pre with [] => length (first_reads read item) - cap | _ => ba_cut (batch_of pre) end).
Proof.
  intros Hc. unfold batch_of. cbn [ba_reads ba_per_item ba_cut]. rewrite map_app, concat_app, ranges_app. cbn [map concat ranges].
  rewrite app_nil_r. f_equal. by destruct pre.
Qed.

Lemma plan_reads_from_spec items pre : length (ba_reads (batch_of pre)) <= cap -> length pre <= Nat.max cap 1 ->
  exists k, k <= length items /\ plan_reads_from read cap (batch_of pre) items = batch_of (pre ++ take k items) /\
    length (ba_reads (batch_of (pre ++ take k items))) <= cap /\ length (pre ++ take k items) <= Nat.max cap 1 /\
    batch_full (pre ++ take k items) (drop k items).
Proof.
  revert pre. induction items as [|item items IH]; intros pre Hr Hl; cbn [plan_reads_from].
  { exists 0. cbn. rewrite app_nil_r. done. }
  assert (Hper : length (ba_per_item (batch_of pre)) = length pre) by (unfold batch_of; cbn; by rewrite ranges_length, length_map).
  assert (Hstop : batch_full pre (item :: items) -> exists k, k <= length (item :: items) /\
            batch_of pre = batch_of (pre ++ take k (item :: items)) /\ length (ba_reads (batch_of (pre ++ take k (item :: items)))) <= cap /\
            length (pre ++ take k (item :: items)) <= Nat.max cap 1 /\ batch_full (pre ++ take k (item :: items)) (drop k (item :: items))).
  { intros Hf. exists 0. cbn [take drop]. rewrite app_nil_r. split_and!; try done; lia. }
  assert (Hgo : forall b, batch_of (pre ++ [item]) = b -> length (ba_reads b) <= cap -> S (length pre) <= Nat.max cap 1 ->
            exists k, k <= length (item :: items) /\ plan_reads_from read cap b items = batch_of (pre ++ take k (item :: items)) /\
            length (ba_reads (batch_of (pre ++ take k (item :: items)))) <= cap /\
            length (pre ++ take k (item :: items)) <= Nat.max cap 1 /\ batch_full (pre ++ take k (item :: items)) (drop k (item :: items))).
  { intros b <- Hb Hlen. destruct (IH (pre ++ [item])) as (k & H1 & H2 & H3); [done|rewrite length_app; simpl; lia|].
    exists (S k). cbn [take drop length]. replace (pre ++ item :: take k items) with ((pre ++ [item]) ++ take k items) by (by rewrite <- app_assoc).
    split; [lia|done]. }
  rewrite Hper. destruct (Nat.leb_spec (Nat.max cap 1) (length pre)); [apply Hstop; left; lia|].
  destruct (Nat.ltb_spec cap (length (ba_reads (batch_of pre)) + length (first_reads read item))) as [Hbig|Hfit].
  - destruct (bool_decide (ba_per_item (batch_of pre) = [])) eqn:Ee.
    + apply bool_decide_eq_true in Ee. rewrite Ee in Hper. destruct pre; [|done]. apply Hgo; [|cbn; rewrite length_take; lia|simpl; lia].
      rewrite (batch_snoc [] item) by (by right). done.
    + apply bool_decide_eq_false in Ee. apply Hstop. right. split; [|done]. intros ->. by destruct Ee.
  - assert (part_of_item item = first_reads read item) as Ep by (apply take_ge; lia).
    apply Hgo; [|cbn [ba_reads]; rewrite length_app; lia|lia]. rewrite batch_snoc by (left; lia). rewrite Ep. f_equal.
    destruct pre; [cbn; lia|done].
Qed.

(** A sift's batch is the longest that fits: it takes items in list order, at
    most [cap] of them (one, when [cap] is 0) and at most [cap] reads; an item's
    reads stay together and are those of the first template that applies to it,
    only the first item's being cut to the cap, and the cut counted; the batch
    ends at the end of the list, at the cap, or before an item whose reads would
    not fit; and with items to take it always takes one. *)
Theorem batch_is_the_longest_that_fits items :
  exists n, n <= length items /\ plan_reads read items cap = batch_of (take n items) /\
    length (ba_reads (plan_reads read items cap)) <= cap /\ n <= Nat.max cap 1 /\
    batch_full (take n items) (drop n items) /\ (items <> [] -> 1 <= n).
Proof.
  destruct (plan_reads_from_spec items []) as (k & H1 & H2 & H3 & H4 & H5); [cbn; lia|cbn; lia|].
  exists k. change (plan_reads_from read cap (batch_of []) items) with (plan_reads read items cap) in H2.
  cbn [app] in *. rewrite H2. split_and!; try done.
  - rewrite length_take in H4. lia.
  - intros Hne. destruct k; [|lia]. cbn [take drop] in H5. destruct items as [|item items]; [done|].
    destruct H5 as [H5|[H5 _]]; [cbn in H5; lia|done].
Qed.
End Batch.

(** ** The chain *)

Section Expand.
Variable plans : list PlanRecord.

(** Every reference a summary of this run continues. *)
Definition continued_refs : list bytes := omap (fun ps => at_str (bs "continues") ps.2) (sifts plans).

Lemma omap_length {A B} (f : A -> option B) l : length (omap f l) <= length l.
Proof. induction l as [|x l IH]; cbn; [done|]. destruct (f x); simpl; lia. Qed.

Lemma continued_refs_length : length continued_refs <= length plans.
Proof. unfold continued_refs, sifts. rewrite omap_length, omap_length, length_reverse. done. Qed.

Lemma continues_in cur prev : summary_of plans cur ≫= at_str (bs "continues") = Some prev -> prev ∈ continued_refs.
Proof.
  unfold summary_of. destruct (List.find (named cur) (sifts plans)) as [ps|] eqn:E; [|done]. cbn. intros Hp.
  apply List.find_some in E as [Hin _]. apply list_elem_of_omap. exists ps. split; [by apply list_elem_of_In|done].
Qed.

(** Each link is the one the next continues. *)
Fixpoint linked (chain : list bytes) : Prop :=
  match chain with
  | a :: ((b :: _) as rest) => (summary_of plans b ≫= at_str (bs "continues") = Some a) /\ linked rest
  | _ => True
  end.

Lemma expand_from_spec name fuel pre cur : NoDup (pre ++ [name]) -> pre ⊆ continued_refs ->
  length continued_refs < fuel + length pre -> head (pre ++ [name]) = Some cur -> linked (pre ++ [name]) ->
  exists pre', expand_from fuel plans (pre ++ [name]) cur = Some (pre' ++ [name]) /\ NoDup (pre' ++ [name]) /\ linked (pre' ++ [name]).
Proof.
  revert pre cur. induction fuel as [|fuel IH]; intros pre cur Hnd Hsub Hf Hcur Hl.
  { exfalso. apply list.NoDup_app in Hnd as [Hnd _]. pose proof (submseteq_length _ _ (NoDup_submseteq _ _ Hnd Hsub)). simpl in Hf. lia. }
  cbn [expand_from]. destruct (summary_of plans cur ≫= at_str (bs "continues")) as [prev|] eqn:E; [|by exists pre].
  destruct (mem prev (pre ++ [name])) eqn:Em; [by exists pre|].
  assert (prev ∉ pre ++ [name]) by (intros ?%mem_true; congruence).
  apply (IH (prev :: pre)); cbn [app length]; [by constructor| |lia|done|].
  - intros x [->|Hx]%elem_of_cons; [by apply (continues_in cur)|by apply Hsub].
  - destruct (pre ++ [name]) as [|b rest] eqn:Ep; [done|]. injection Hcur as ->. done.
Qed.

(** Expanding a chain ends: following the [continues] links of a sift stops
    after at most one step for each plan of the run, even when the links form a
    loop, with the sift named last, no link twice, and each link the one the next
    says it continues. *)
Theorem chain_expansion_ends name :
  exists pre, expand_from (S (length plans)) plans [name] name = Some (pre ++ [name]) /\
    expand plans name = pre ++ [name] /\ NoDup (expand plans name) /\ linked (expand plans name).
Proof.
  pose proof continued_refs_length as Hlen.
  destruct (expand_from_spec name (S (length plans)) [] name) as (pre & H1 & H2 & H3); [apply NoDup_singleton|intros ? []%elem_of_nil|simpl; lia|done|done|].
  exists pre. cbn [app] in *. unfold expand. by rewrite H1.
Qed.
End Expand.

(** ** The summary *)

(** The keys the screen can take away. *)
Definition screened_away : list bytes := [bs "sample"; bs "criterion"; bs "fields"; bs "sample_withheld"].

Lemma map_get_remove_all k ks (m : list (bytes * Value)) : k ∉ ks -> map_get k (fold_left (fun m k => map_remove k m) ks m) = map_get k m.
Proof.
  revert m. induction ks as [|x ks IH]; intros m Hk; cbn [fold_left]; [done|]. apply not_elem_of_cons in Hk as [Hx Hk].
  rewrite IH by done. by apply map_get_remove_ne.
Qed.

Lemma map_get_change k k' (v v' : Value) a b : k <> k' -> map_get k (a ++ (k', v) :: b) = map_get k (a ++ (k', v') :: b).
Proof.
  intros Hk. induction a as [|[x w] a IH]; cbn [app map_get]; [|by rewrite IH].
  destruct (bytes_eqb k k') eqn:E; [apply bytes_eqb_eq in E; congruence|done].
Qed.

Section SummaryLaws.
Context `{UnicodeChar} `{Sha256} (scrap : ScrapRef) (p : SiftParams) (c : Counts) (reads : Reads) (rows : list NewRow)
  (remaining : nat) (stopped : option Stop).

(** The fields of the summary after the sample. *)
Definition summary_more : list (bytes * Value) :=
  (if Nat.ltb 0 remaining then [(bs "next_from", int_value (pm_from p + Z.of_nat (ct_looked_at c)))] else []) ++
  (if Nat.ltb 1 (length (rd_per_read reads)) then [(bs "items_per_read", Array (map nat_value (rd_per_read reads)))] else []) ++
  (if Nat.ltb 0 (rd_cut reads) then [(bs "reads_cut", nat_value (rd_cut reads))] else []) ++
  match stopped with Some why => [(bs "stopped", String (stop_str why))] | None => [] end.

Definition summary_head : list (bytes * Value) :=
  [(bs "scrapbook", String (ref_str scrap)); (bs "criterion", String (pm_keep_if p)); (bs "fields", Array (map String (pm_fields p)));
   (bs "looked_at", nat_value (ct_looked_at c)); (bs "kept", nat_value (ct_kept c)); (bs "withheld", nat_value (ct_withheld c));
   (bs "undecided", nat_value (ct_undecided c)); (bs "failed_reads", nat_value (ct_failed_reads c)); (bs "reads", nat_value (rd_made reads));
   (bs "unread", nat_value (rd_unread reads)); (bs "distinct", nat_value (distinct_kept (map nw_fields (kept_rows rows))));
   (bs "remaining", nat_value remaining)].

Lemma summary_get sample k :
  get k (summary_value scrap p c reads rows remaining stopped sample) = map_get k (summary_head ++ (bs "sample", Array sample) :: summary_more).
Proof.
  change (summary_value scrap p c reads rows remaining stopped sample) with (object (summary_head ++ (bs "sample", Array sample) :: summary_more)).
  apply object_map_get. unfold summary_more. destruct (Nat.ltb 0 remaining), (Nat.ltb 1 _), (Nat.ltb 0 _), stopped;
    apply (bool_decide_unpack _); vm_compute; exact I.
Qed.

Lemma summary_get_after k : k ∉ screened_away ->
  get k (summary scrap p c reads rows remaining stopped).1 = get k (summary_value scrap p c reads rows remaining stopped []).
Proof.
  intros Hk. assert (Hs : forall sample, get k (summary_value scrap p c reads rows remaining stopped sample) =
                                         get k (summary_value scrap p c reads rows remaining stopped [])).
  { intros sample. rewrite !summary_get. apply map_get_change. intros ->. apply Hk, elem_of_cons. by left. }
  unfold summary. set (sample := map sample_of _). destruct (sorter_view _ _ _); cbn [fst]; [apply Hs|].
  rewrite <- (Hs (map fst sample)). destruct (summary_value scrap p c reads rows remaining stopped (map fst sample)); try done.
  cbn [drop_keys set_key get]. rewrite map_get_insert_ne.
  - apply map_get_remove_all. intros Hin. apply Hk. by apply elem_of_app with (l1 := [bs "sample"; bs "criterion"; bs "fields"]) (l2 := [bs "sample_withheld"]); left.
  - intros ->. apply Hk. vm_compute. repeat constructor.
Qed.

(** A sift's reference and counts always reach the planner: the screen of the
    summary can only take away the sample, the criterion and the field names, so
    that every other field (the scrapbook, the counts, [remaining] and
    [next_from]) is there as written, and [next_from] is where the sift stopped. *)
Theorem summary_keeps_its_counts k : k ∉ screened_away ->
  get k (summary scrap p c reads rows remaining stopped).1 = get k (summary_value scrap p c reads rows remaining stopped []) /\
  get (bs "scrapbook") (summary scrap p c reads rows remaining stopped).1 = Some (String (ref_str scrap)) /\
  get (bs "next_from") (summary scrap p c reads rows remaining stopped).1 =
    (if Nat.ltb 0 remaining then Some (int_value (pm_from p + Z.of_nat (ct_looked_at c))) else None).
Proof.
  intros Hk. split_and!; [by apply summary_get_after| |].
  - rewrite summary_get_after, summary_get by (apply (bool_decide_unpack _); vm_compute; exact I). done.
  - rewrite summary_get_after, summary_get by (apply (bool_decide_unpack _); vm_compute; exact I). unfold summary_more.
    destruct (Nat.ltb 0 remaining), (Nat.ltb 1 _), (Nat.ltb 0 _), stopped; reflexivity.
Qed.
End SummaryLaws.

Lemma templates_eqb_eq a b : templates_eqb a b = true -> a = b.
Proof.
  revert b. induction a as [|x a IH]; intros [|y b]; try done. cbn. intros [Hx Hr]%andb_true_iff. f_equal; [|by apply IH].
  unfold template_eqb in Hx. apply andb_true_iff in Hx as [[H1 H2]%andb_true_iff H3].
  apply bytes_eqb_eq in H1, H2. apply value_eqb_eq in H3. destruct x, y; cbn in *. by subst.
Qed.

Lemma params_eqb_eq a b : params_eqb a b = true -> a = b.
Proof.
  unfold params_eqb. rewrite !andb_true_iff. intros (((((H1 & H2) & H3) & H4) & H5) & H6).
  apply bool_decide_eq_true in H2, H6. apply Z.eqb_eq in H3. apply templates_eqb_eq in H4. apply bytes_eqb_eq in H5.
  assert (pm_over a = pm_over b).
  { destruct (pm_over a), (pm_over b); try done; cbn in H1; [apply Z.eqb_eq in H1; congruence|apply bool_decide_eq_true in H1; congruence]. }
  destruct a, b; cbn in *. by subst.
Qed.

(** The parameters as parsed, but for where the sift starts. *)
Definition same_sift (a b : SiftParams) : Prop :=
  pm_over a = pm_over b /\ pm_items a = pm_items b /\ pm_read a = pm_read b /\ pm_keep_if a = pm_keep_if b /\ pm_fields a = pm_fields b.

(** A sift that continues another goes on exactly where it stopped: the one it
    continues is a sift of this run over the same list, with the same reads, criterion
    and fields, and the place it left off is where this one starts. *)
Theorem continued_sift_goes_on_where_the_last_stopped `{UnicodeStr} params_error read_error plans params from name :
  continued params_error read_error plans params from = Some name ->
  exists q s a b, (q, s) ∈ sifts plans /\ at_str (bs "scrapbook") s = Some name /\ at_u64 (bs "next_from") s = Some from /\
    parse_params params_error read_error params = Ok a /\ parse_params params_error read_error q = Ok b /\ same_sift a b.
Proof.
  unfold continued, but_from. destruct (from =? 0)%Z; [done|].
  destruct (parse_params params_error read_error params) as [a|] eqn:Ea; cbn [mbind option_bind]; [|done].
  intros ([q s] & Hf & Hn)%bind_Some. apply List.find_some in Hf as [Hin Hm].
  apply andb_true_iff in Hm as [Hfrom%bool_decide_eq_true Hp]. cbn [fst snd] in *.
  destruct (parse_params params_error read_error q) as [b|] eqn:Eb; [|done]. apply params_eqb_eq in Hp. injection Hp as E1 E2 E3 E4 E5.
  exists q, s, a, b. split; [by apply list_elem_of_In|]. unfold same_sift. split_and!; try done; congruence.
Qed.

(** * Witnesses *)

Lemma scrap_ref_reads_back_witness : parse_scrap_ref (ref_str (mkRef 9 4)) = Ok (mkRef 9 4).
Proof. refine (proj1 (scrap_ref_reads_back (mkRef 9 4) _ _)); vm_compute; split; discriminate. Defined.

Definition mail_read : ReadTemplate := mkTemplate (bs "mail") (bs "mail.get_message") (object [(bs "id", String (bs "{message_id}"))]).

Lemma accepted_read_is_allowlisted_witness : never_a_read (bs "mail.get_message") = false.
Proof.
  refine (proj1 (proj2 (proj2 (proj2 (accepted_read_is_allowlisted id None (Some (bs "mail.get_message, handoff.fetch"))
            [(bs "mail", bs "mail.get_message")] (mkSiftConfig 64 [bs "mail.get_message"; bs "handoff.fetch"]) mail_read _ _)))));
    vm_compute; reflexivity.
Defined.

Definition sift_demo_params (from : Z) : Value :=
  object [(bs "over", object [(bs "step", int_value 1)]); (bs "keep_if", String (bs "an invoice"));
          (bs "fields", Array [String (bs "amount")]); (bs "from", int_value from)].

(** A sift of this run that stopped after thirty items. *)
Definition sift_demo_plans : list PlanRecord :=
  [mkRecord (mkPlan [] (bs "kept") [] [mkStep SIFT_TOOL SIFT_METHOD (sift_demo_params 0) (bs "kept") (bs "sorted") Personal]
      None (Some Personal) None None None None None None)
    [StepOk (object [(bs "scrapbook", String (bs "sb:9:2")); (bs "next_from", int_value 30); (bs "looked_at", int_value 30)])]].

Lemma continued_sift_goes_on_where_the_last_stopped_witness :
  exists s, at_u64 (bs "next_from") s = Some 30%Z /\ at_str (bs "scrapbook") s = Some (bs "sb:9:2").
Proof.
  destruct (continued_sift_goes_on_where_the_last_stopped (fun _ => []) (fun _ => []) sift_demo_plans (sift_demo_params 30) 30 (bs "sb:9:2"))
    as (q & s & a & b & _ & H1 & H2 & _); [vm_compute; reflexivity|]. exact (ex_intro _ s (conj H2 H1)).
Defined.

Lemma summary_keeps_its_counts_witness :
  get (bs "kept") (summary (mkRef 9 2) (mkParams (OverStep 1) None 0 [] (bs "an invoice") [bs "amount"]) (mkCounts 30 4 1 2 0 0)
    (mkReads 0 0 0 []) [] 12 None).1 = Some (int_value 4).
Proof.
  rewrite (proj1 (summary_keeps_its_counts (mkRef 9 2) (mkParams (OverStep 1) None 0 [] (bs "an invoice") [bs "amount"])
    (mkCounts 30 4 1 2 0 0) (mkReads 0 0 0 []) [] 12 None (bs "kept") ltac:(apply (bool_decide_unpack _); vm_compute; exact I))).
  vm_compute. reflexivity.
Defined.
