(* ===== verification/SiftTable.v ===== *)
(** An answer's table (src/core/src/scheduler/notebook/sift/table.rs and the
    pure parts of answer.rs): a scrapbook's rows, ordered, merged, screened and
    escaped by code.

    [f64_key] reads a text as [str::parse::<f64>] does and gives the integer
    that [f64::total_cmp] compares. *)

From stdpp Require Import base list numbers strings option sorting.
From Stdlib Require Import ZArith Lia.
From S2P Require Import Prelude RustStr Json NulRule Fingerprint Cassandra PlanJson InjectionGuard ResultView Asks AskMessage Conversation LoopPure InnerLoop Notebook NotebookView PlanSummary Sift.
Local Open Scope nat_scope.

Definition SOURCE_COLUMN : bytes := bs "source".
Definition TABLE_REFS_MAX : nat := SCRAPBOOKS_PER_TURN.
Definition OWN_TABLE_NOTE : bytes := bs "(a table written in the answer is left out: its rows are in the table above)".

Definition eq_ignore_ascii_case (a b : bytes) : bool := bytes_eqb (to_ascii_lowercase a) (to_ascii_lowercase b).

(** * Cells *)

Definition cell_text (row : Row) (column : bytes) : bytes :=
  if bytes_eqb column SOURCE_COLUMN then
    match rw_source row with
    | Object m => join (bs ", ") (map (fun kv => scalar kv.2) m)
    | other => scalar other
    end
  else
    match rw_row_fields row with
    | Object m =>
        match map_get column m with
        | Some v => scalar v
        | None => match List.find (fun kv => eq_ignore_ascii_case kv.1 column) m with Some kv => scalar kv.2 | None => [] end
        end
    | _ => []
    end.

Definition escaped (text : bytes) : bytes :=
  map (fun c => if (c =? 10) || (c =? 13) then 32 else c)%Z (flat_map (fun c => if (c =? 124)%Z then [92; 124]%Z else [c]) text).

Fixpoint bytes_cmp (a b : bytes) : comparison :=
  match a, b with
  | [], [] => Eq
  | [], _ => Lt
  | _, [] => Gt
  | x :: a', y :: b' => match (x ?= y)%Z with Eq => bytes_cmp a' b' | c => c end
  end.

Definition bool_cmp (a b : bool) : comparison := match a, b with false, true => Lt | true, false => Gt | _, _ => Eq end.

Definition is_digit_byte (c : Z) : bool := ((48 <=? c) && (c <=? 57))%Z.
Definition not_numeric (c : Z) : bool := negb (is_digit_byte c || (c =? 45)%Z || (c =? 46)%Z).

Section Order.
Variable f64_key : bytes -> option Z.

Definition as_number (s : bytes) : option Z :=
  let core := trim_end_matches not_numeric (drop_while not_numeric s) in
  if existsb is_digit_byte core then f64_key (List.filter (fun c => negb (c =? 44)%Z) core) else None.

Definition cell_order (a b : bytes) (desc : bool) : comparison :=
  let x := as_number a in
  let y := as_number b in
  let within := match x, y with Some x, Some y => (x ?= y)%Z | _, _ => bytes_cmp a b end in
  match bool_cmp (negb (is_some x)) (negb (is_some y)) with
  | Eq => if desc then CompOpp within else within
  | c => c
  end.

Definition row_order (o : OrderBy) (a b : Row) : comparison :=
  cell_order (cell_text a (ob_column o)) (cell_text b (ob_column o)) (ob_desc o).

(** A stable sort: [r] goes before the first row it does not follow. *)
Fixpoint insert_row (o : OrderBy) (r : Row) (l : list Row) : list Row :=
  match l with
  | [] => [r]
  | x :: rest => match row_order o r x with Gt => x :: insert_row o r rest | _ => r :: l end
  end.

Definition sort_rows (o : option OrderBy) (rows : list Row) : list Row :=
  match o with Some o => fold_right (insert_row o) [] rows | None => rows end.
End Order.

(** * Groups *)

Definition row_kept (r : Row) : bool := is_kept (rw_kind r).

(** A group is its first row and the rows that joined it. *)
Abbreviation Group := (Row * list Row)%type.

Definition alike_row (r : Row) (g : Group) : bool := row_kept g.1 && value_eqb (rw_row_fields g.1) (rw_row_fields r).

Fixpoint join_group (r : Row) (gs : list Group) : option (list Group) :=
  match gs with
  | [] => None
  | g :: rest =>
      if alike_row r g then Some ((g.1, g.2 ++ [r]) :: rest)
      else match join_group r rest with Some rest' => Some (g :: rest') | None => None end
  end.

Definition add_row (gs : list Group) (r : Row) : list Group :=
  match (if row_kept r && mergeable (rw_row_fields r) then join_group r gs else None) with
  | Some gs' => gs'
  | None => gs ++ [(r, [])]
  end.

Definition alike_rows (rows : list Row) : list Group := fold_left add_row rows [].

Definition group_rows (g : Group) : list Row := g.1 :: g.2.

(** * Rendering *)

Section Render.
Context `{UnicodeChar} `{Sha256}.

Definition screened_cell (text : bytes) : bytes * list SinkBlock :=
  match screen_model_text text with Some b => (WITHHELD_MARKER, [b]) | None => (escaped text, []) end.

Definition shown (g : Group) (column : bytes) : bytes * list SinkBlock :=
  if negb (row_kept g.1) then (WITHHELD_MARKER, [])
  else if bytes_eqb column SOURCE_COLUMN then
    let l := map (fun r => screened_cell (cell_text r column)) (group_rows g) in
    (join (bs ", ") (map fst l), flat_map snd l)
  else screened_cell (cell_text g.1 column).

Definition table_line (cells : list bytes) : bytes := bs "| " ++ join (bs " | ") cells ++ bs " |".

Definition note (c : Counts) (merged : nat) (cut : option (nat * nat)) (order : option (bytes * bool)) : bytes :=
  let parts :=
    [show_nat (ct_kept c) ++ bs " kept of " ++ show_nat (ct_looked_at c) ++ bs " looked at"] ++
    (if Nat.ltb 0 (ct_withheld c) then [show_nat (ct_withheld c) ++ bs " withheld by the safety screen"] else []) ++
    (if Nat.ltb 0 (ct_failed_reads c) then [show_nat (ct_failed_reads c) ++ bs " could not be read"] else []) ++
    (if Nat.ltb 0 (ct_undecided c) then [show_nat (ct_undecided c) ++ bs " undecided"] else []) ++
    (if Nat.ltb 0 (ct_remaining c) then [show_nat (ct_remaining c) ++ bs " not yet looked at"] else []) ++
    (if Nat.ltb 0 merged then [show_nat merged ++ bs " duplicate" ++ (if Nat.eqb merged 1 then [] else bs "s") ++ bs " shown once"] else []) ++
    match cut with
    | Some (n, all) =>
        let by_ := match order with
                   | Some (column, desc) => bs ", by `" ++ column ++ bs "` " ++ (if desc then bs "descending" else bs "ascending")
                   | None => []
                   end in
        [bs "showing the first " ++ show_nat n ++ bs " of " ++ show_nat all ++ bs " rows" ++ by_]
    | None => []
    end in
  join (bs "; ") parts ++ bs ".".

Definition shown_rows (limit : option Z) (groups : nat) : nat :=
  match limit with
  | Some n => if (0 <? n)%Z then Z.to_nat (Z.min n (Z.of_nat groups)) else groups
  | None => groups
  end.

Definition order_name (columns : list bytes) (o : OrderBy) : bytes :=
  match List.find (bytes_eqb (ob_column o)) columns with
  | Some c => c
  | None => match List.find (fun c => eq_ignore_ascii_case c (ob_column o)) columns with Some c => c | None => ob_column o end
  end.

(** The lines of the table, less its note. *)
Definition table_lines (columns : list bytes) (groups : list Group) : list bytes :=
  [table_line (map escaped columns); table_line (map (fun _ => bs "---") columns)] ++
  map (fun g => table_line (map (fun c => (shown g c).1) columns)) groups.

Definition render_table (f64_key : bytes -> option Z) (rows : list Row) (columns : list bytes) (order_by : option OrderBy)
    (limit : option Z) (counts : Counts) : bytes * list SinkBlock :=
  let groups := alike_rows (sort_rows f64_key order_by rows) in
  let n := shown_rows limit (length groups) in
  let top := take n groups in
  let merged := sum_nat (map (fun g => length g.2) top) in
  let cut := if Nat.ltb n (length groups) then Some (n, length groups) else None in
  let by_ := (fun o => (order_name columns o, ob_desc o)) <$> order_by in
  (join (bs "
") (table_lines columns top) ++ bs "

" ++ note counts merged cut by_,
   flat_map (fun g => flat_map (fun c => (shown g c).2) columns) top).
End Render.

(** * The default order *)

Definition iso_date (c : bytes) : bool :=
  is_char_boundary c 10 && Nat.leb 10 (length c) &&
  forallb (fun ib => if Nat.eqb ib.1 4 || Nat.eqb ib.1 7 then (ib.2 =? 45)%Z else is_digit_byte ib.2) (imap pair (take 10 c)).

Definition is_ascii_lower (c : Z) : bool := ((97 <=? c) && (c <=? 122))%Z.
Definition is_ascii_letter (c : Z) : bool := is_ascii_lower c || ((65 <=? c) && (c <=? 90))%Z.

Definition ends_in_date_word (name : bytes) : bool :=
  if Nat.leb 4 (length name) && is_char_boundary name (length name - 4) then
    let i := length name - 4 in
    let word := drop i name in
    match list.last (take i name) with
    | None => false
    | Some last =>
        eq_ignore_ascii_case word (bs "date") &&
        (negb (is_ascii_letter last) || (starts_with (bs "D") word && is_ascii_lower last))
    end
  else false.

Definition default_order (columns : list bytes) (rows : list Row) : option OrderBy :=
  column ← match List.find (fun c => eq_ignore_ascii_case c (bs "date")) columns with
           | Some c => Some c
           | None => List.find ends_in_date_word columns
           end;
  if forallb (fun r => let c := cell_text r column in bytes_eqb c [] || iso_date c) rows then Some (mkOrderBy column true) else None.

Definition orders_anything (o : OrderBy) (rows : list Row) : bool :=
  existsb (fun r => negb (bytes_eqb (cell_text r (ob_column o)) [])) rows.

(** * The answer's own tables (answer.rs) *)

Definition strip_cr (s : bytes) : bytes := default s (strip_suffix_byte 13 s).

(** [str::lines] *)
Definition str_lines (s : bytes) : list bytes :=
  let parts := split 10%Z s in
  map strip_cr (removelast parts) ++ match list.last parts with Some (c :: l) => [c :: l] | _ => [] end.

Section OwnTables.
Context `{CharClass}.

Definition str_trim_end (s : bytes) : bytes := concat (reverse (drop_groups char_is_whitespace (reverse (groups s)))).

(** [l.trim().is_empty()] *)
Definition blank_line (l : bytes) : bool := forallb is_space (groups l).

Definition piped (l : bytes) : bool := starts_with (bs "|") (str_trim_start l).

Definition delimiter (l : bytes) : bool :=
  let t := str_trim_end (str_trim_start l) in
  contains_byte 45 t && forallb (fun c => bool_decide (c ∈ [124; 45; 58; 32]%Z)) t.

Definition fence (l : bytes) : bool :=
  let t := str_trim_start l in
  starts_with (bs "~~~") t ||
  match strip_prefix (bs "```") t with Some r => negb (contains_byte 96 (drop_while (Z.eqb 96) r)) | None => false end.

Fixpoint drop_lines (f : bytes -> bool) (l : list bytes) : list bytes :=
  match l with x :: rest => if f x then drop_lines f rest else l | [] => [] end.

Definition opens_table (lines : list bytes) : bool :=
  match lines with a :: b :: _ => piped a && piped b && delimiter b | _ => false end.

(** [kept] has the last line kept at its head. *)
Fixpoint cut_tables (fuel : nat) (kept : list bytes) (cut fenced : bool) (lines : list bytes) : option (list bytes * bool) :=
  match fuel with
  | O => None
  | S fuel' =>
      match lines with
      | [] => Some (kept, cut)
      | l :: rest =>
          if fence l then cut_tables fuel' (l :: kept) cut (negb fenced) rest
          else if negb fenced && opens_table lines then
            let after := drop_lines piped lines in
            let separated := match kept with [] => true | k :: _ => blank_line k end in
            cut_tables fuel' kept true fenced (if separated then drop_lines blank_line after else after)
          else cut_tables fuel' (l :: kept) cut fenced rest
      end
  end.

Definition without_own_tables (body : bytes) : option bytes :=
  let lines := str_lines body in
  match cut_tables (S (length lines)) [] false false lines with
  | Some (kept, true) => Some (str_trim_end (join (bs "
") (reverse kept)))
  | _ => None
  end.
End OwnTables.

(** * The order is a total one *)

Lemma bytes_cmp_opp a b : bytes_cmp b a = CompOpp (bytes_cmp a b).
Proof.
  revert b. induction a as [|x a IH]; intros [|y b]; try done. cbn. rewrite (Z.compare_antisym x y).
  destruct (x ?= y)%Z; [apply IH|done|done].
Qed.

Lemma bytes_cmp_trans a b c : bytes_cmp a b <> Gt -> bytes_cmp b c <> Gt -> bytes_cmp a c <> Gt.
Proof.
  revert b c. induction a as [|x a IH]; intros [|y b] [|z c]; try done. cbn.
  destruct (Z.compare_spec x y) as [->|Hxy|Hxy]; [|intros _|done].
  - destruct (Z.compare_spec y z); [apply IH|done|done].
  - destruct (Z.compare_spec y z) as [->|Hyz|Hyz]; [|intros _|done]; destruct (Z.compare_spec x z); try done; lia.
Qed.

Section Ordered.
Variable f64_key : bytes -> option Z.

Lemma cell_order_opp a b desc : cell_order f64_key b a desc = CompOpp (cell_order f64_key a b desc).
Proof.
  unfold cell_order. destruct (as_number f64_key a) as [x|], (as_number f64_key b) as [y|]; cbn; try done.
  - rewrite (Z.compare_antisym x y). by destruct desc, (x ?= y)%Z.
  - rewrite bytes_cmp_opp. by destruct desc, (bytes_cmp a b).
Qed.

Lemma not_gt_opp c : CompOpp c <> Gt <-> c <> Lt.
Proof. by destruct c. Qed.

Lemma cell_order_trans a b c desc :
  cell_order f64_key a b desc <> Gt -> cell_order f64_key b c desc <> Gt -> cell_order f64_key a c desc <> Gt.
Proof.
  unfold cell_order. destruct (as_number f64_key a) as [x|], (as_number f64_key b) as [y|], (as_number f64_key c) as [z|]; cbn; try done.
  - destruct desc; rewrite ?not_gt_opp; destruct (Z.compare_spec x y), (Z.compare_spec y z), (Z.compare_spec x z); try done; lia.
  - destruct desc; [|apply bytes_cmp_trans]. rewrite <- !bytes_cmp_opp. intros Hba Hcb. by apply (bytes_cmp_trans c b a).
Qed.

(** The order of a table's cells is a total one, so that sorting by it is
    well defined: swapping two cells swaps the answer, and it is transitive;
    numbers come before text, and [desc] reverses each of the two, never them. *)
Theorem cell_order_is_total a b c desc :
  cell_order f64_key b a desc = CompOpp (cell_order f64_key a b desc) /\
  (cell_order f64_key a b desc <> Gt -> cell_order f64_key b c desc <> Gt -> cell_order f64_key a c desc <> Gt) /\
  (is_some (as_number f64_key a) = true -> is_some (as_number f64_key b) = false -> cell_order f64_key a b desc = Lt).
Proof.
  split_and!; [apply cell_order_opp|apply cell_order_trans|].
  unfold cell_order. by destruct (as_number f64_key a), (as_number f64_key b).
Qed.

Variable o : OrderBy.

Definition follows (a b : Row) : Prop := row_order f64_key o a b <> Gt.

Lemma follows_trans a b c : follows a b -> follows b c -> follows a c.
Proof. apply cell_order_trans. Qed.

Lemma insert_row_perm r l : insert_row f64_key o r l ≡ₚ r :: l.
Proof.
  induction l as [|x l IH]; cbn; [done|]. destruct (row_order f64_key o r x); [done|done|]. rewrite IH. apply perm_swap.
Qed.

Lemma insert_row_sorted r l : StronglySorted follows l -> StronglySorted follows (insert_row f64_key o r l).
Proof.
  induction 1 as [|x l Hs IH Hx]; cbn; [repeat constructor|].
  destruct (row_order f64_key o r x) eqn:E.
  1, 2: assert (follows r x) as Hr by (unfold follows; congruence);
    constructor; [by constructor|constructor; [done|]]; eapply list.Forall_impl; [exact Hx|]; intros y; by apply follows_trans.
  constructor; [done|]. rewrite insert_row_perm. constructor; [|done]. unfold follows, row_order in *.
  rewrite cell_order_opp. by rewrite E.
Qed.

Definition ties (r x : Row) : bool := bool_decide (row_order f64_key o r x = Eq).

Lemma insert_row_stable r x l : List.filter (ties r) (insert_row f64_key o x l) = List.filter (ties r) (x :: l).
Proof.
  induction l as [|y l IH]; [done|]. cbn [insert_row]. destruct (row_order f64_key o x y) eqn:E; [done|done|].
  cbn [List.filter] in *. rewrite IH. destruct (ties r x) eqn:Ex, (ties r y) eqn:Ey; try done. exfalso.
  apply bool_decide_eq_true in Ex, Ey. unfold row_order in *.
  assert (cell_order f64_key (cell_text x (ob_column o)) (cell_text y (ob_column o)) (ob_desc o) <> Gt); [|done].
  apply (cell_order_trans _ (cell_text r (ob_column o))); [|by rewrite Ey]. rewrite cell_order_opp. by rewrite Ex.
Qed.

Lemma sort_rows_spec rows : let s := sort_rows f64_key (Some o) rows in
  s ≡ₚ rows /\ StronglySorted follows s /\ forall r, List.filter (ties r) s = List.filter (ties r) rows.
Proof.
  cbn. induction rows as [|x rows (H1 & H2 & H3)]; cbn [fold_right]; [split_and!; [done|constructor|done]|]. split_and!.
  - by rewrite insert_row_perm, H1.
  - by apply insert_row_sorted.
  - intros r. rewrite insert_row_stable. cbn [List.filter]. by rewrite H3.
Qed.
End Ordered.

(** * Every row is in one group *)

Lemma join_group_Some r gs gs' : join_group r gs = Some gs' ->
  concat (map group_rows gs') ≡ₚ r :: concat (map group_rows gs) /\ map fst gs' = map fst gs.
Proof.
  revert gs'. induction gs as [|g gs IH]; intros gs'; cbn; [done|]. destruct (alike_row r g).
  - intros [= <-]. cbn. split; [|done]. rewrite <- app_assoc. cbn.
    symmetry. apply (Permutation_middle (g.1 :: g.2)).
  - destruct (join_group r gs) as [rest|] eqn:E; [|done]. intros [= <-]. destruct (IH rest eq_refl) as [Hp Hf]. cbn. split; [|by f_equal].
    rewrite Hp. symmetry. apply (Permutation_middle (g.1 :: g.2)).
Qed.

Lemma add_row_perm gs r : concat (map group_rows (add_row gs r)) ≡ₚ r :: concat (map group_rows gs).
Proof.
  unfold add_row. destruct (row_kept r && _); [destruct (join_group r gs) as [gs'|] eqn:E; [by apply join_group_Some in E as [? _]|]|].
  all: rewrite map_app, concat_app; cbn; by rewrite <- Permutation_cons_append.
Qed.

Lemma alike_rows_perm rows : concat (map group_rows (alike_rows rows)) ≡ₚ rows.
Proof.
  unfold alike_rows. assert (forall gs, concat (map group_rows (fold_left add_row rows gs)) ≡ₚ concat (map group_rows gs) ++ rows) as Hg.
  { induction rows as [|r rows IH]; intros gs; cbn [fold_left]; [by rewrite app_nil_r|].
    rewrite IH, add_row_perm. cbn. apply Permutation_middle. }
  rewrite Hg. done.
Qed.

(** * The summary's count is the table's *)

Lemma same_elements_length {A} `{EqDecision A} (l l' : list A) : (forall x, x ∈ l <-> x ∈ l') ->
  length (remove_dups l) = length (remove_dups l').
Proof.
  intros Hl. apply Permutation_length, NoDup_Permutation; [apply NoDup_remove_dups..|].
  intros x. rewrite !elem_of_remove_dups. apply Hl.
Qed.

Lemma value_mem f (l : list Value) : existsb (value_eqb f) l = true <-> f ∈ l.
Proof.
  rewrite existsb_exists. split.
  - intros (x & Hx & ->%value_eqb_eq). by apply list_elem_of_In.
  - intros Hf. exists f. split; [by apply list_elem_of_In|by apply value_eqb_eq].
Qed.

Lemma remove_dups_NoDup {A} `{EqDecision A} (l : list A) : NoDup l -> remove_dups l = l.
Proof. induction 1 as [|x l Hx _ IH]; [done|]. cbn. destruct (decide_rel _ x l); [done|by rewrite IH]. Qed.

Lemma distinct_from_count fs seen alone : NoDup seen ->
  distinct_from seen alone fs =
  alone + length (List.filter (fun f => negb (mergeable f)) fs) + length (remove_dups (seen ++ List.filter mergeable fs)).
Proof.
  revert seen alone. induction fs as [|f fs IH]; intros seen alone Hs; cbn [distinct_from List.filter].
  { rewrite app_nil_r, remove_dups_NoDup by done. simpl. lia. }
  destruct (mergeable f) eqn:Em; cbn [negb]; [|rewrite IH by done; simpl; lia].
  destruct (existsb (value_eqb f) seen) eqn:Es.
  - rewrite IH by done. f_equal. apply value_mem in Es. apply same_elements_length. intros x.
    rewrite !elem_of_app, elem_of_cons. naive_solver.
  - assert (f ∉ seen) by (intros ?%value_mem; congruence). rewrite IH, <- app_assoc; [done|].
    apply list.NoDup_app. split_and!; [done| |apply NoDup_singleton]. intros x Hx ->%list_elem_of_singleton. done.
Qed.

Lemma distinct_kept_count fs :
  distinct_kept fs = length (List.filter (fun f => negb (mergeable f)) fs) + length (remove_dups (List.filter mergeable fs)).
Proof. unfold distinct_kept. rewrite distinct_from_count by constructor. done. Qed.

Lemma filter_perm {A} (f : A -> bool) l l' : l ≡ₚ l' -> List.filter f l ≡ₚ List.filter f l'.
Proof. induction 1; cbn; repeat case_match; try done; [by constructor|by constructor|by etransitivity]. Qed.

Lemma distinct_kept_perm fs fs' : fs ≡ₚ fs' -> distinct_kept fs = distinct_kept fs'.
Proof.
  intros Hp. rewrite !distinct_kept_count. f_equal; [apply Permutation_length; by apply filter_perm|].
  apply same_elements_length. intros x. by rewrite (filter_perm mergeable _ _ Hp).
Qed.

(** The heads of groups, by what can join them. *)
Definition merging (r : Row) : bool := row_kept r && mergeable (rw_row_fields r).
Definition heads_seen (gs : list Group) : list Value := map rw_row_fields (List.filter merging (map fst gs)).
Definition heads_other (gs : list Group) : nat := length (List.filter (fun r => negb (merging r)) (map fst gs)).

Lemma groups_length gs : length gs = length (heads_seen gs) + heads_other gs.
Proof.
  unfold heads_seen, heads_other. rewrite length_map, <- (length_map fst gs). induction (map fst gs) as [|r l IH]; [done|].
  cbn. destruct (merging r); simpl; lia.
Qed.

Lemma join_group_iff r gs : mergeable (rw_row_fields r) = true ->
  is_Some (join_group r gs) <-> rw_row_fields r ∈ heads_seen gs.
Proof.
  intros Hm. unfold heads_seen. induction gs as [|g gs IH]; cbn [join_group map List.filter].
  { split; [by intros []|by intros ?%elem_of_nil]. }
  unfold alike_row, merging at 1. destruct (row_kept g.1) eqn:Ek; cbn [andb].
  - destruct (value_eqb (rw_row_fields g.1) (rw_row_fields r)) eqn:Ev.
    + apply value_eqb_eq in Ev. rewrite Ev, Hm. cbn [map]. rewrite Ev. split; [intros _; apply elem_of_cons; by left|by eauto].
    + assert (rw_row_fields r <> rw_row_fields g.1) as Hne by (intros E; rewrite E, (proj2 (value_eqb_eq _ _) eq_refl) in Ev; done).
      transitivity (is_Some (join_group r gs)); [destruct (join_group r gs); split; by intros []|]. rewrite IH.
      destruct (mergeable (rw_row_fields g.1)); [|done]. cbn [map]. rewrite elem_of_cons. naive_solver.
  - rewrite <- IH. destruct (join_group r gs); split; by intros [].
Qed.

Lemma alike_from_length rows gs : NoDup (heads_seen gs) ->
  length (fold_left add_row rows gs) =
  distinct_from (heads_seen gs) (heads_other gs) (map rw_row_fields (List.filter row_kept rows)) +
  length (List.filter (fun r => negb (row_kept r)) rows).
Proof.
  revert gs. induction rows as [|r rows IH]; intros gs Hs; cbn [fold_left List.filter map distinct_from].
  { rewrite groups_length. simpl. lia. }
  assert (Hnew : merging r = false -> heads_seen (gs ++ [(r, [])]) = heads_seen gs /\ heads_other (gs ++ [(r, [])]) = S (heads_other gs)).
  { intros Em. unfold heads_seen, heads_other. rewrite !map_app, !List.filter_app. cbn. rewrite Em. cbn. rewrite app_nil_r, length_app. simpl. split; [done|lia]. }
  unfold add_row. fold (merging r). destruct (merging r) eqn:Em.
  - pose proof Em as Hmr. unfold merging in Em. apply andb_true_iff in Em as [Ek Em]. rewrite Ek. cbn [map negb]. cbn [distinct_from]. rewrite Em. cbn [negb].
    pose proof (join_group_iff r gs Em) as Hj. destruct (join_group r gs) as [gs'|] eqn:Ej.
    + rewrite (proj2 (value_mem _ _) (proj1 Hj (ex_intro _ gs' eq_refl))). apply join_group_Some in Ej as [_ Hf].
      assert (heads_seen gs' = heads_seen gs) as E1 by (unfold heads_seen; by rewrite Hf).
      assert (heads_other gs' = heads_other gs) as E2 by (unfold heads_other; by rewrite Hf). rewrite IH, E1, E2; [done|by rewrite E1].
    + assert (rw_row_fields r ∉ heads_seen gs) as Hnot by (intros Hin; apply Hj in Hin; by destruct Hin).
      destruct (existsb (value_eqb (rw_row_fields r)) (heads_seen gs)) eqn:Ex; [apply value_mem in Ex; done|].
      assert (heads_seen (gs ++ [(r, [])]) = heads_seen gs ++ [rw_row_fields r] /\ heads_other (gs ++ [(r, [])]) = heads_other gs) as [E1 E2].
      { unfold heads_seen, heads_other. rewrite !map_app, !List.filter_app. cbn. rewrite Hmr. cbn.
        split; [by rewrite map_app|by rewrite app_nil_r]. }
      rewrite IH, E1, E2; [done|]. rewrite E1. apply list.NoDup_app. split_and!; [done| |apply NoDup_singleton].
      intros x Hx ->%list_elem_of_singleton. done.
  - destruct (Hnew eq_refl) as [E1 E2]. rewrite IH, E1, E2 by (by rewrite E1). unfold merging in Em.
    destruct (row_kept r) eqn:Ek; cbn [negb map distinct_from length]; [|rewrite !distinct_from_count by done; lia]. cbn [andb] in Em. rewrite Em. cbn [negb]. done.
Qed.

Lemma sort_rows_perm f64_key o rows : sort_rows f64_key o rows ≡ₚ rows.
Proof. destruct o as [o|]; [|done]. apply (sort_rows_spec f64_key o rows). Qed.

(** The table shows what the summary counted: under whatever order, every row of
    the scrapbook is in exactly one line of the table, and the lines are as many as
    the summary's [distinct] for the kept rows and one for each withheld row. *)
Theorem table_shows_what_was_counted f64_key order rows :
  let groups := alike_rows (sort_rows f64_key order rows) in
  concat (map group_rows groups) ≡ₚ rows /\
  length groups = distinct_kept (map rw_row_fields (List.filter row_kept rows)) + length (List.filter (fun r => negb (row_kept r)) rows).
Proof.
  intros groups. pose proof (sort_rows_perm f64_key order rows) as Hp. split; [unfold groups; by rewrite alike_rows_perm|].
  unfold groups, alike_rows. rewrite alike_from_length by constructor.
  f_equal; [|apply Permutation_length; by apply filter_perm].
  apply (distinct_kept_perm _ (map rw_row_fields (List.filter row_kept rows))). apply Permutation_map. by apply filter_perm.
Qed.

(** * A cell stays in its cell *)

(** The pipes of a line that no backslash escapes. *)
Fixpoint bare_pipes (prev : Z) (s : bytes) : nat :=
  match s with
  | [] => 0
  | c :: rest => (if (c =? 124)%Z && negb (prev =? 92)%Z then 1 else 0) + bare_pipes c rest
  end.

(** Text that neither ends a row nor a cell. *)
Definition tame (s : bytes) : Prop := 10%Z ∉ s /\ 13%Z ∉ s /\ forall prev, bare_pipes prev s = 0.

Lemma bare_pipes_then c a b prev : (c =? 124)%Z = false -> bare_pipes prev (a ++ c :: b) = bare_pipes prev a + bare_pipes c b.
Proof.
  intros Hc. revert prev. induction a as [|x a IH]; intros prev; cbn [app bare_pipes]; [by rewrite Hc|]. rewrite IH. lia.
Qed.

Lemma tame_join a b : tame a -> tame b -> tame (a ++ bs ", " ++ b).
Proof.
  intros (H1 & H2 & H3) (H4 & H5 & H6). split_and!.
  1, 2: rewrite !elem_of_app; intros [Hx|[Hx|Hx]]; [done| |done]; vm_compute in Hx; repeat (apply elem_of_cons in Hx as [?|Hx]; [done|]); by apply elem_of_nil in Hx.
  intros prev. change (bs ", " ++ b) with (44%Z :: 32%Z :: b).
  rewrite bare_pipes_then by done. cbn. by rewrite H3, H6.
Qed.

Lemma escaped_pipes prev t : bare_pipes prev (escaped t) = 0.
Proof.
  revert prev. induction t as [|c t IH]; intros prev; [done|]. unfold escaped in *. cbn [flat_map].
  destruct (Z.eqb_spec c 124) as [->|Hne]; cbn; [by rewrite IH|].
  destruct ((c =? 10)%Z || (c =? 13)%Z); cbn [bare_pipes]; [by rewrite IH|]. rewrite (proj2 (Z.eqb_neq c 124) Hne). cbn. apply IH.
Qed.

Lemma escaped_tame t : tame (escaped t).
Proof.
  assert (Hn : forall x, (x =? 10)%Z || (x =? 13)%Z = true -> x ∉ escaped t).
  { intros x Hx. unfold escaped. rewrite list_elem_of_fmap. intros (c & E & _). destruct ((c =? 10)%Z || (c =? 13)%Z) eqn:Ec; [by subst x|]. subst. congruence. }
  split_and!; [by apply Hn|by apply Hn|]. intros prev. apply escaped_pipes.
Qed.

Section Cells.
Context `{UnicodeChar} `{Sha256}.

#[local] Opaque screen_model_text.

Lemma marker_tame : tame WITHHELD_MARKER.
Proof. split_and!; [apply (bool_decide_unpack _); vm_compute; exact I..|]. intros prev. vm_compute. reflexivity. Qed.

Lemma screened_cell_tame t : tame (screened_cell t).1.
Proof. unfold screened_cell. destruct (screen_model_text t); [apply marker_tame|apply escaped_tame]. Qed.

Lemma shown_tame g c : tame (shown g c).1.
Proof.
  unfold shown. destruct (row_kept g.1); cbn [negb]; [|apply marker_tame]. destruct (bytes_eqb c SOURCE_COLUMN); [|apply screened_cell_tame].
  cbn [fst]. rewrite map_map. unfold group_rows. cbn [map]. generalize g.1. induction g.2 as [|r l IH]; intros r0; [apply screened_cell_tame|].
  cbn [map join]. apply tame_join; [apply screened_cell_tame|apply (IH r)].
Qed.

Lemma join_pipes cells : Forall tame cells -> cells <> [] -> forall prev,
  bare_pipes prev (join (bs " | ") cells ++ bs " |") = length cells.
Proof.
  induction 1 as [|c cells Hc Hcs IH]; intros Hne prev; [done|]. destruct Hc as (_ & _ & Hc). destruct cells as [|d cells].
  - cbn [join]. change (bs " |") with [32; 124]%Z. rewrite bare_pipes_then by done. cbn. by rewrite Hc.
  - change (join (bs " | ") (c :: d :: cells)) with (c ++ [32; 124; 32]%Z ++ join (bs " | ") (d :: cells)). rewrite <- !app_assoc.
    cbn [app]. rewrite bare_pipes_then by done. rewrite Hc. cbn [bare_pipes]. rewrite IH by done. done.
Qed.

Lemma join_lines (cells : list bytes) x : (x ∉ bs " | ") -> Forall (fun c => x ∉ c) cells -> x ∉ join (bs " | ") cells.
Proof.
  intros Hx. induction 1 as [|c cells Hc Hcs IH]; [by intros ?%elem_of_nil|]. destruct cells as [|d cells]; [done|].
  change (join (bs " | ") (c :: d :: cells)) with (c ++ bs " | " ++ join (bs " | ") (d :: cells)). rewrite !elem_of_app. tauto.
Qed.

(** A line of the table: its columns and no others. *)
Definition line_of (n : nat) (l : bytes) : Prop := 10%Z ∉ l /\ 13%Z ∉ l /\ bare_pipes 0 l = S n.

Lemma table_line_of cells : Forall tame cells -> cells <> [] -> line_of (length cells) (table_line cells).
Proof.
  intros Ht Hne. unfold table_line. split_and!.
  1, 2: rewrite !elem_of_app; intros [Hx|[Hx|Hx]]; [by vm_compute in Hx; repeat (apply elem_of_cons in Hx as [?|Hx]; [done|]); apply elem_of_nil in Hx
    |revert Hx; apply join_lines; [apply (bool_decide_unpack _); vm_compute; exact I|eapply list.Forall_impl; [exact Ht|]; intros c Hc; apply Hc]
    |by vm_compute in Hx; repeat (apply elem_of_cons in Hx as [?|Hx]; [done|]); apply elem_of_nil in Hx].
  change (bs "| " ++ join (bs " | ") cells ++ bs " |") with (124%Z :: 32%Z :: (join (bs " | ") cells ++ bs " |")).
  cbn [bare_pipes]. rewrite join_pipes by done. done.
Qed.

(** The text of a row cannot break the table: with at least one column, every
    line of a rendered table has no line break and exactly its columns' separators,
    whatever the fields and sources hold, and the lines are one for each group under
    the two of the header. *)
Theorem table_rows_keep_their_shape columns groups :
  columns <> [] -> Forall (line_of (length columns)) (table_lines columns groups) /\ length (table_lines columns groups) = 2 + length groups.
Proof.
  intros Hne. assert (Hm : forall f : bytes -> bytes, (forall c, tame (f c)) -> line_of (length columns) (table_line (map f columns))).
  { intros f Hf. rewrite <- (length_map f columns). apply table_line_of; [apply Forall_map, Forall_true, Hf|by destruct columns]. }
  split; [|cbn; by rewrite length_map]. constructor; [apply Hm, escaped_tame|]. constructor.
  { apply Hm. intros _. split_and!; [apply (bool_decide_unpack _); vm_compute; exact I..|]. intros prev. vm_compute. reflexivity. }
  apply Forall_map, Forall_true. intros g. apply (Hm (fun c => (shown g c).1)). intros c. apply shown_tame.
Qed.

(** Nothing the screen blocks is shown in a table: each cell other than a source
    is the marker or the escaped text of a cell the screen cleared, a withheld row
    shows nothing but markers, and a source shows each of its rows' sources so. *)
Theorem blocked_cells_are_withheld g column :
  let cleared_cell r t := t = WITHHELD_MARKER \/ (t = escaped (cell_text r column) /\ screen_model_text (cell_text r column) = None) in
  (row_kept g.1 = false -> (shown g column).1 = WITHHELD_MARKER) /\
  (row_kept g.1 = true ->
   (column <> SOURCE_COLUMN -> cleared_cell g.1 (shown g column).1) /\
   (column = SOURCE_COLUMN -> exists cells, (shown g column).1 = join (bs ", ") cells /\ Forall2 cleared_cell (group_rows g) cells)).
Proof.
  intros cleared_cell. assert (Hc : forall r, cleared_cell r (screened_cell (cell_text r column)).1).
  { intros r. unfold cleared_cell, screened_cell. destruct (screen_model_text (cell_text r column)); [by left|by right]. }
  unfold shown. split; [by intros ->|]. intros ->. cbn [negb]. split.
  - intros Hne. destruct (bytes_eqb column SOURCE_COLUMN) eqn:E; [by apply bytes_eqb_eq in E|apply Hc].
  - intros Es. rewrite (proj2 (bytes_eqb_eq column SOURCE_COLUMN) Es). cbn [fst]. eexists. split; [done|]. rewrite map_map.
    induction (group_rows g) as [|r l IH]; [constructor|]. cbn [map]. constructor; [apply Hc|done].
Qed.
End Cells.

(** * The answer's own tables *)

Section Cut.
Context `{CharClass}.

(** Whether a table stands outside the fences. *)
Fixpoint has_table (fenced : bool) (lines : list bytes) : bool :=
  match lines with
  | [] => false
  | l :: rest => if fence l then has_table (negb fenced) rest else (negb fenced && opens_table lines) || has_table fenced rest
  end.

Fixpoint fenced_after (fenced : bool) (lines : list bytes) : bool :=
  match lines with [] => fenced | l :: rest => fenced_after (if fence l then negb fenced else fenced) rest end.

Definition delimits (l : bytes) : bool := piped l && delimiter l.

Lemma fence_not_piped l : fence l = true -> piped l = false.
Proof.
  unfold fence, piped. generalize (str_trim_start l). intros t Hf. destruct (starts_with (bs "|") t) eqn:E; [|done].
  apply starts_with_true in E as [r ->]. done.
Qed.

Lemma blank_not_piped l : blank_line l = true -> piped l = false.
Proof.
  unfold blank_line, piped, str_trim_start. intros Hb. assert (drop_groups char_is_whitespace (groups l) = []) as ->; [|done].
  induction (groups l) as [|g gs IH]; [done|]. cbn in *. apply andb_true_iff in Hb as [Hg Hgs]. unfold is_space in Hg. rewrite Hg. by apply IH.
Qed.

Lemma fenced_after_app f a b : fenced_after f (a ++ b) = fenced_after (fenced_after f a) b.
Proof. revert f. induction a as [|x a IH]; intros f; [done|]. apply IH. Qed.

Lemma has_table_snoc f a x :
  has_table f (a ++ [x]) = has_table f a || match list.last a with Some k => negb (fenced_after f a) && piped k && delimits x | None => false end.
Proof.
  revert f. induction a as [|l a IH]; intros f; cbn [app has_table fenced_after].
  { cbn. by destruct (fence x), f. }
  destruct (fence l) eqn:Ef.
  - rewrite IH. destruct a as [|y a]; cbn [list.last]; [|done]. by rewrite (fence_not_piped l Ef), andb_false_r.
  - destruct a as [|y a]; [|rewrite IH; cbn [list.last app]; by rewrite orb_assoc].
    cbn. unfold delimits. by destruct (fence x), f, (piped l), (piped x), (delimiter x).
Qed.

(** The last line kept does not open a table with the next. *)
Definition apart (fenced : bool) (kept lines : list bytes) : Prop :=
  match kept, lines with k :: _, x :: _ => negb fenced && piped k && delimits x = false | _, _ => True end.

Lemma drop_lines_suffix f l : exists a, l = a ++ drop_lines f l /\ Forall (fun x => f x = true) a.
Proof.
  induction l as [|x l (a & E & Ha)]; [by exists []|]. cbn. destruct (f x) eqn:Ef; [|by exists []].
  exists (x :: a). split; [by rewrite E at 1|by constructor].
Qed.

Lemma drop_lines_length f l : length (drop_lines f l) <= length l.
Proof. destruct (drop_lines_suffix f l) as (a & E & _). rewrite E at 2. rewrite length_app. lia. Qed.

Lemma drop_lines_head f l : match drop_lines f l with x :: _ => f x = false | [] => True end.
Proof. induction l as [|x l IH]; [done|]. cbn. destruct (f x) eqn:E; done. Qed.

(** The lines left after a table. *)
Definition after_table (kept lines : list bytes) : list bytes :=
  let after := drop_lines piped lines in
  if match kept with [] => true | k :: _ => blank_line k end then drop_lines blank_line after else after.

Lemma after_table_spec fenced kept lines : opens_table lines = true ->
  length (after_table kept lines) < length lines /\ after_table kept lines `sublist_of` lines /\ apart fenced kept (after_table kept lines).
Proof.
  intros Ho. unfold after_table. destruct (drop_lines_suffix piped lines) as (a & E & Ha).
  assert (a <> []) as Hne.
  { intros ->. destruct lines as [|x l]; [done|]. assert (piped x = true) as Hx by (destruct l; [done|]; cbn in Ho; by destruct (piped x)).
    cbn in E. rewrite Hx in E. pose proof (drop_lines_length piped l) as Hl. rewrite <- E in Hl. simpl in Hl. lia. }
  assert (Hlen : length (drop_lines piped lines) < length lines).
  { rewrite E at 2. rewrite length_app. destruct a; [done|simpl; lia]. }
  assert (Hsub : drop_lines piped lines `sublist_of` lines) by (rewrite E at 2; by apply sublist_inserts_l).
  pose proof (drop_lines_head piped lines) as Hh.
  destruct (match kept with [] => true | k :: _ => blank_line k end) eqn:Es.
  - destruct (drop_lines_suffix blank_line (drop_lines piped lines)) as (b & Eb & _). split_and!.
    + pose proof (drop_lines_length blank_line (drop_lines piped lines)). lia.
    + etransitivity; [|exact Hsub]. rewrite Eb at 2. by apply sublist_inserts_l.
    + destruct kept as [|k kept]; [done|]. cbn. destruct (drop_lines blank_line _); [done|]. by rewrite (blank_not_piped k Es), andb_false_r.
  - split_and!; [done..|]. destruct kept as [|k kept]; [done|]. cbn. destruct (drop_lines piped lines) as [|x l]; [done|].
    unfold delimits. by rewrite Hh, andb_false_r.
Qed.

Lemma cut_tables_spec fuel kept cut fenced lines : length lines < fuel ->
  has_table false (reverse kept) = false -> fenced_after false (reverse kept) = fenced -> apart fenced kept lines ->
  exists kept', cut_tables fuel kept cut fenced lines = Some (kept', cut || has_table fenced lines) /\
    has_table false (reverse kept') = false /\ (has_table fenced lines = false -> reverse kept' = reverse kept ++ lines) /\
    reverse kept' `sublist_of` (reverse kept ++ lines).
Proof.
  revert kept cut fenced lines. induction fuel as [|fuel IH]; intros kept cut fenced lines Hf Hk Hs Ha; [lia|]. cbn [cut_tables].
  destruct lines as [|l rest]; [exists kept; cbn; rewrite orb_false_r, app_nil_r; done|].
  assert (Hpush : forall cut fenced', (if fence l then negb fenced else fenced) = fenced' -> apart fenced' (l :: kept) rest ->
    exists kept', cut_tables fuel (l :: kept) cut fenced' rest = Some (kept', cut || has_table fenced' rest) /\
      has_table false (reverse kept') = false /\ (has_table fenced' rest = false -> reverse kept' = reverse kept ++ l :: rest) /\
      reverse kept' `sublist_of` (reverse kept ++ l :: rest)).
  { intros c' f' Ef Hap. destruct (IH (l :: kept) c' f' rest) as (kept' & H1 & H2 & H3 & H4); [simpl in Hf; lia| | |done|].
    - rewrite reverse_cons, has_table_snoc, Hk, Hs, last_reverse. cbn. destruct kept as [|k kept0]; [done|]. exact Ha.
    - rewrite reverse_cons, fenced_after_app, Hs. exact Ef.
    - rewrite reverse_cons, <- app_assoc in H3, H4. by exists kept'. }
  cbn [has_table]. destruct (fence l) eqn:El.
  - apply Hpush; [done|]. destruct rest; [done|]. cbn. by rewrite (fence_not_piped l El), andb_false_r.
  - destruct (negb fenced && opens_table (l :: rest)) eqn:Eo; cbn [orb].
    + apply andb_true_iff in Eo as [Ef Eo]. destruct (after_table_spec fenced kept (l :: rest) Eo) as (H1 & H2 & H3).
      fold (after_table kept (l :: rest)). destruct (IH kept true fenced (after_table kept (l :: rest))) as (kept' & H4 & H5 & _ & H7); [lia|done..|].
      exists kept'. rewrite orb_true_r. split_and!; [exact H4|done|done|]. etransitivity; [exact H7|]. by apply sublist_app.
    + apply Hpush; [done|]. destruct rest as [|x rest]; [done|]. cbn in Eo |- *. unfold delimits. by destruct fenced, (piped l), (piped x), (delimiter x).
Qed.

(** Taking out the answer's own tables ends, and takes out all of them and
    nothing else: the scan always finishes, what it keeps is a part of the lines in
    their order with no table left outside a code fence, and an answer without one
    is kept whole. *)
Theorem own_tables_are_taken_out lines :
  exists kept, cut_tables (S (length lines)) [] false false lines = Some (kept, has_table false lines) /\
    has_table false (reverse kept) = false /\ reverse kept `sublist_of` lines /\ (has_table false lines = false -> reverse kept = lines).
Proof.
  destruct (cut_tables_spec (S (length lines)) [] false false lines) as (kept & H1 & H2 & H3 & H4); [lia|done..|].
  exists kept. cbn in *. done.
Qed.
End Cut.

(** * Which tables an answer names (answer.rs) *)

Definition newest_kept (plans : list PlanRecord) : option (bytes * Z) :=
  s ← last_sift plans;
  let count v := match at_u64 (bs "distinct") v with Some n => Some n | None => at_u64 (bs "kept") v end in
  let kept := match count (at_key (bs "chain") s) with Some n => n | None => default 0%Z (count s) end in
  name ← at_str (bs "scrapbook") s;
  if (0 <? kept)%Z then Some (name, kept) else None.

Definition names_no_table (a : AnswerSpec) : bool :=
  match as_table a with Some t => bool_decide (refs (tb_scrapbook t) = []) | None => true end.

Definition missing_table (r : NotebookReply) (plans : list PlanRecord) : option (bytes * Z) :=
  match rp_answer r with
  | Some a => if names_no_table a && negb (is_some (as_refused a)) then newest_kept plans else None
  | None => None
  end.

Definition forced_table (r : NotebookReply) (plans : list PlanRecord) : option TableSpec :=
  match missing_table r plans with Some (name, _) => Some (mkTable (One name) None None None) | None => None end.

Definition may_show (ctx : TaskContext) (raw : bytes) : bool :=
  match parse_scrap_ref raw with
  | Ok r => may_read ctx r && (negb (sr_task_id r =? cx_task_id ctx)%Z || is_some (summary_of (cx_plans ctx) (ref_str r)))
  | Err _ => false
  end.

Definition table_of_no_scrapbook (r : NotebookReply) (ctx : TaskContext) : option (list bytes) :=
  a ← rp_answer r;
  if is_some (as_refused a) then None
  else
    t ← as_table a;
    let rs := refs (tb_scrapbook t) in
    if negb (bool_decide (rs = [])) && negb (existsb (may_show ctx) rs) then Some rs else None.

Definition quoted (s : bytes) : bytes := [34%Z] ++ s ++ [34%Z].

Definition table_left_out (r : NotebookReply) (ctx : TaskContext) : result () bytes :=
  match table_of_no_scrapbook r ctx with
  | Some named =>
      let fix_ := match newest_kept (cx_plans ctx) with
                  | Some (name, kept) => bs "sift " ++ name ++ bs " kept " ++ show_z kept ++ bs " items; to show them, name `"
                                         ++ quoted (bs "scrapbook") ++ bs ": " ++ quoted name ++ bs "`"
                  | None => bs "this run's newest sift, if any, has no rows, so write the items in `body` and leave `table` out"
                  end in
      Err (bs "the `answer`'s `table` names " ++ join (bs ", ") named ++
           bs ", but a table shows the rows of a `sift` this conversation ran, named `sb:<task>:<sift>`: " ++ fix_)
  | None =>
      match missing_table r (cx_plans ctx) with
      | None => Ok tt
      | Some (name, kept) =>
          Err (bs "the `answer` shows no `table`, but sift " ++ name ++ bs " kept " ++ show_z kept ++ bs " items. To show them, add `"
               ++ quoted (bs "table") ++ bs ": {" ++ quoted (bs "scrapbook") ++ bs ": " ++ quoted name
               ++ bs "}` to the `answer`; to answer without them, send the same answer again")
      end
  end.

(** Each text once, in the order of its first appearance. *)
Definition once (l : list bytes) : list bytes := fold_left (fun acc r => if mem r acc then acc else acc ++ [r]) l [].

Definition canonical_ref (raw : bytes) : bytes := match parse_scrap_ref raw with Ok r => ref_str r | Err _ => raw end.

Definition past_refs (r : bytes) : bytes :=
  bs "(table " ++ r ++ bs " could not be included: a table names at most " ++ show_nat TABLE_REFS_MAX ++ bs ")".

Definition table_refs (plans : list PlanRecord) (named : list bytes) : list bytes * list bytes :=
  let distinct := once (map canonical_ref named) in
  (once (flat_map (expand plans) (take TABLE_REFS_MAX distinct)), map past_refs (drop TABLE_REFS_MAX distinct)).

Definition own_summary (ctx : TaskContext) (r : ScrapRef) : option Value := summary_of (cx_plans ctx) (ref_str r).

Definition summary_fields (v : Value) : option (list bytes) := array_of as_str (at_key (bs "fields") v).

Definition first_row_fields (rows : list Row) : option (list bytes) :=
  r ← List.find row_kept rows;
  match rw_row_fields r with Object m => Some m.*1 | _ => None end.

Definition at_usize (k : bytes) (s : option Value) : option nat := v ← s; Z.to_nat <$> at_u64 k v.

Definition add_counts (c : Counts) (rows : list Row) (summary : option Value) : Counts :=
  let kept := length (List.filter row_kept rows) in
  mkCounts (ct_looked_at c + default (length rows) (at_usize (bs "looked_at") summary)) (ct_kept c + kept)
    (ct_withheld c + (length rows - kept)) (ct_undecided c + default 0 (at_usize (bs "undecided") summary))
    (ct_failed_reads c + default 0 (at_usize (bs "failed_reads") summary)) (ct_remaining c).

Record Link := mkLink { lk_name : bytes; lk_remaining : nat; lk_continues : option bytes }.

Definition link_of (name : bytes) (summary : option Value) : Link :=
  mkLink name (default 0 (at_usize (bs "remaining") summary)) (summary ≫= at_str (bs "continues")).

Definition links_remaining (links : list Link) : nat :=
  let continued := omap lk_continues links in
  sum_nat (map lk_remaining (List.filter (fun l => negb (mem (lk_name l) continued)) links)).

Definition row_class (r : Row) : DataClass := default Secret (class_from_value (String (rw_classification r))).

(** A forced answer never loses the sift's rows: the code attaches a table
    exactly when the reply answers, refuses nothing and names no scrapbook while the
    newest sift of the run (or the chain it ends) kept something, and the table it
    attaches names that sift, with the default columns, order and limit. *)
Theorem forced_table_iff r plans t :
  forced_table r plans = Some t <->
  exists a name kept, rp_answer r = Some a /\ as_refused a = None /\ names_no_table a = true /\
    newest_kept plans = Some (name, kept) /\ (0 < kept)%Z /\ t = mkTable (One name) None None None.
Proof.
  unfold forced_table, missing_table. split.
  - destruct (rp_answer r) as [a|]; [|done]. destruct (names_no_table a) eqn:En; [|done]. destruct (as_refused a) eqn:Er; [done|]. cbn.
    destruct (newest_kept plans) as [[name kept]|] eqn:Ek; [|done]. intros [= <-]. exists a, name, kept. split_and!; try done.
    unfold newest_kept in Ek. apply bind_Some in Ek as (s & _ & Ek). apply bind_Some in Ek as (nm & _ & Ek).
    match type of Ek with (if (0 <? ?n)%Z then _ else _) = _ => destruct (Z.ltb_spec 0 n) end; [by injection Ek as <- <-|done].
  - intros (a & name & kept & -> & Er & En & Ek & _ & ->). by rewrite En, Er, Ek.
Qed.

Lemma once_from l acc : NoDup acc -> let r := fold_left (fun acc r => if mem r acc then acc else acc ++ [r]) l acc in
  NoDup r /\ forall x, x ∈ r <-> x ∈ acc \/ x ∈ l.
Proof.
  revert acc. induction l as [|y l IH]; intros acc Hn; cbn [fold_left].
  { split; [done|]. intros x. rewrite elem_of_nil. tauto. }
  destruct (mem y acc) eqn:Em.
  - apply mem_true in Em. destruct (IH acc Hn) as [H1 H2]. split; [done|]. intros x. rewrite H2, elem_of_cons. naive_solver.
  - assert (y ∉ acc) by (intros ?%mem_true; congruence). destruct (IH (acc ++ [y])) as [H1 H2].
    { apply list.NoDup_app. split_and!; [done| |apply NoDup_singleton]. intros x Hx ->%list_elem_of_singleton. done. }
    split; [done|]. intros x. rewrite H2, elem_of_app, !elem_of_cons, elem_of_nil. tauto.
Qed.

Lemma once_spec l : NoDup (once l) /\ forall x, x ∈ once l <-> x ∈ l.
Proof. destruct (once_from l [] (NoDup_nil_2 (A := bytes))) as [H1 H2]. split; [done|]. intros x. rewrite H2, elem_of_nil. tauto. Qed.

(** A table joins whole chains and no scrapbook twice: the references it reads
    are the expansion of each distinct one named, at most [TABLE_REFS_MAX] of them,
    each of the rest answered by a line that says so; so naming the last sift of a
    chain shows every link of it. *)
Theorem table_joins_whole_chains plans named :
  let '(joined, refused) := table_refs plans named in
  NoDup joined /\
  (forall x, x ∈ joined <-> exists name, name ∈ take TABLE_REFS_MAX (once (map canonical_ref named)) /\ x ∈ expand plans name) /\
  length (once (map canonical_ref named)) = Nat.min TABLE_REFS_MAX (length (once (map canonical_ref named))) + length refused.
Proof.
  unfold table_refs. set (d := once (map canonical_ref named)). destruct (once_spec (flat_map (expand plans) (take TABLE_REFS_MAX d))) as [H1 H2].
  split_and!; [done| |rewrite length_map, length_drop; lia]. intros x. rewrite H2, list_elem_of_In, in_flat_map.
  split; intros (name & Hn & Hx); exists name; by rewrite ?list_elem_of_In in *.
Qed.

(** * Witness *)

Definition table_demo_row : Row := mkRow Kept (object [(bs "id", String (bs "m|1"))]) (object [(bs "amount", String (bs "30 | EUR"))]) (bs "Personal").

Lemma table_rows_keep_their_shape_witness :
  Forall (line_of 2) (table_lines [bs "amount"; SOURCE_COLUMN] [(table_demo_row, [])]).
Proof. apply (table_rows_keep_their_shape [bs "amount"; SOURCE_COLUMN] [(table_demo_row, [])]). discriminate. Defined.
