(* ===== verification/SiftRun.v ===== *)
(** A sift in the notebook loop (src/core/src/scheduler/notebook/sift/run.rs) and
    an answer's table (answer.rs [with_table]), as programs over the world of the
    loop.

    [SiftEnv] is what they need besides [Env]: the knobs, the sorter, the
    scrapbook's rows, the handoff cache's whole values, the turn's [now] and the
    wordings and floats the pure parts leave open.  A record with an outcome and no
    step, which the source holds to be unreachable, is refused here. *)

From stdpp Require Import base list numbers strings option.
From Stdlib Require Import ZArith Lia.
From S2P Require Import Prelude RustStr Json NulRule Fingerprint Effects Cassandra PlanJson InjectionGuard ResultView Asks AskMessage Conversation LoopPure Handoff InnerLoop Notebook NotebookView PlanSummary Sift SiftTable.
Local Open Scope nat_scope.
Local Open Scope prog_scope.

Record SiftEnv (W : Type) := mkSiftEnv {
  sv_config : SiftConfig;
  sv_sort : option (TaskContext -> bytes -> W -> result bytes AgentError * W);
  sv_rows : Z -> Z -> W -> result (list Row) DbError * W;
  sv_append_rows : Z -> Z -> list NewRow -> W -> result () DbError * W;
  sv_stashed : Z -> bytes -> W -> option Value;
  sv_now : W -> option bytes;
  sv_f32 : Z -> Value;
  sv_f64_key : bytes -> option Z;
  sv_params_error : Value -> bytes;
  sv_read_error : Value -> bytes }.
Arguments sv_config {W}. Arguments sv_sort {W}. Arguments sv_rows {W}. Arguments sv_append_rows {W}. Arguments sv_stashed {W}.
Arguments sv_now {W}. Arguments sv_f32 {W}. Arguments sv_f64_key {W}. Arguments sv_params_error {W}. Arguments sv_read_error {W}.
Arguments mkSiftEnv {W}.

Definition ACTION_SIFT_STARTED : bytes := bs "sift.started".
Definition ACTION_SIFT_FINISHED : bytes := bs "sift.finished".
Definition ACTION_SIFT_REFUSED : bytes := bs "sift.refused".
Definition REFUSED_REASON_MAX_CHARS : nat := 512.

(** [u32 as i32] *)
Definition as_i32 (z : Z) : Z := ((z + 2147483648) mod 4294967296 - 2147483648)%Z.

Record OverList := mkOver { ol_items : list Value; ol_tool : bytes; ol_class : DataClass }.

Definition check_from (from : Z) (n : nat) : result () bytes :=
  if ((0 <? from) && (Z.of_nat n <=? from))%Z
  then Err (bs "`from` " ++ show_z from ++ bs " is at or past the end of this list (" ++ show_nat n ++
            bs " items): `next_from` counts items of the list it came from")
  else Ok tt.

Definition sift_plan (decision : bytes) (step : Z) (steps : list PlannedStep) (class : DataClass) : Plan :=
  mkPlan [] decision (NOTEBOOK_STEP_RATIONALE ++ show_z step) steps None (Some class) None None None None None None.

Definition read_step (p : SiftParams) (class : DataClass) (r : nat * Value) : PlannedStep :=
  let t := default (mkTemplate [] [] Null) (pm_read p !! r.1) in
  mkStep (rt_tool t) (rt_method t) r.2 (bs "one candidate's text, for the sift's decision") (bs "read") class.

Definition reads_plan (call : CallSpec) (p : SiftParams) (reads : list (nat * Value)) (class : DataClass) : Plan :=
  sift_plan (SIFT_READS_DECISION ++ pm_keep_if p) (cs_step call) (map (read_step p class) reads) class.

Definition source_of (item : Value) : Value :=
  match get (bs "source") item, get (bs "fields") item with
  | Some source, Some _ => source
  | _, _ =>
      object (omap (fun k => match get k item with
                             | Some (String s) => Some (k, String s)
                             | Some (Number n) => Some (k, Number n)
                             | _ => None
                             end) SOURCE_KEYS)
  end.

Definition items_per_read (p : SiftParams) (b : Batch) (looked_at : nat) : list nat :=
  fold_left (fun acc (range : nat * nat) =>
               if Nat.ltb range.1 range.2 then match ba_reads b !! range.1 with Some r => alter S r.1 acc | None => acc end else acc)
    (take looked_at (ba_per_item b)) (replicate (length (pm_read p)) 0).

(** What the sorter is shown of an item: the views, what the screen blocked, and the
    reads that failed. *)
Record ItemView := mkItemView { iv_views : list Value; iv_blocks : list SinkBlock; iv_failed : nat }.

(** The sorting so far. *)
Record Sorting := mkSorting {
  sg_counts : Counts; sg_rows : list NewRow; sg_stopped : option Stop; sg_calls : Z; sg_unread : nat; sg_failed_llm : Z }.

Definition count_item (c : Counts) (kept withheld undecided failed_reads : nat) : Counts :=
  mkCounts (S (ct_looked_at c)) (ct_kept c + kept) (ct_withheld c + withheld) (ct_undecided c + undecided)
    (ct_failed_reads c + failed_reads) (ct_remaining c).

Section Run.
Context `{UnicodeStr} `{UnicodeChar} `{CharClass} `{Sha256} `{SerdeJson} {W : Type} (env : Env W) (senv : SiftEnv W).

Abbreviation M := (prog W Event DbError).

Definition sift_audit (action : bytes) (payload : Value) : M () := row_best_effort env (EvSift action payload).

Definition audit_blocks (task_id step : Z) (part : bytes) (blocks : list SinkBlock) : M () :=
  sink_rows env (map (notebook_block_audit_payload (sv_f32 senv) task_id step part) blocks).

(** * Checking the call *)

Definition over_step (ctx : TaskContext) (p : SiftParams) (n : Z) : M (result OverList bytes) :=
  let candidates := List.filter (fun r => bool_decide (notebook_step_of (rec_plan r) = Some n) && negb (is_sift_plan (rec_plan r)))
                      (reverse (cx_plans ctx)) in
  match List.find (fun r => match rec_outcomes r with StepOk _ :: _ => true | _ => false end) candidates with
  | None => ret (Err (bs "step " ++ show_z n ++ bs " has no successful result to sift"))
  | Some record =>
      match rec_outcomes record, pl_steps (rec_plan record) with
      | StepOk res :: _, step :: _ =>
          let finish res :=
            match items_at res (pm_items p) with
            | Ok items => Ok (mkOver items (st_tool step) (st_classification step))
            | Err e => Err e
            end in
          match placeholder_ref res with
          | None => ret (finish res)
          | Some h =>
              let* whole := effect (fun w => (sv_stashed senv (cx_task_id ctx) h w, w)) in
              match whole with
              | Some v => ret (finish v)
              | None => ret (Err (bs "step " ++ show_z n ++
                  bs "'s result was too big to show and is no longer held: list the same call in `steps` under a new id, call it, and sift `over` that id"))
              end
          end
      | _, _ => ret (Err (bs "unreachable"))
      end
  end.

Definition over_scrapbook (ctx : TaskContext) (r : ScrapRef) : M (result OverList bytes) :=
  if negb (may_read ctx r) then ret (Err (bs "scrapbook " ++ ref_str r ++ bs " is not from this conversation"))
  else
    let* got := effect (sv_rows senv (sr_task_id r) (sr_sift r)) in
    match got with
    | Err _ => ret (Err (bs "scrapbook " ++ ref_str r ++ bs " could not be read"))
    | Ok rows =>
        let kept := List.filter row_kept rows in
        ret (Ok (mkOver (map (fun row => object [(bs "fields", rw_row_fields row); (bs "source", rw_source row)]) kept) SIFT_TOOL
                   (fold_left max_class (map row_class kept) (cx_floor ctx))))
    end.

Definition resolve_over (ctx : TaskContext) (p : SiftParams) : M (result OverList bytes) :=
  match pm_over p with OverStep n => over_step ctx p n | OverScrapbook r => over_scrapbook ctx r end.

Fixpoint check_reads (cfg : SiftConfig) (l : list ReadTemplate) : result () bytes :=
  match l with [] => Ok tt | t :: rest => match check_read t cfg with Ok _ => check_reads cfg rest | Err e => Err e end end.

Abbreviation Sorter := (TaskContext -> bytes -> W -> result bytes AgentError * W).

Definition check_sift (ctx : TaskContext) (call : CallSpec) : M (result (SiftParams * Sorter * OverList) bytes) :=
  if negb (bytes_eqb (cs_method call) SIFT_METHOD)
  then ret (Err (bs "`" ++ cs_method call ++ bs "` is not a method of `" ++ SIFT_TOOL ++ bs "`: its one method is `" ++ SIFT_METHOD ++ bs "`"))
  else
    match sv_sort senv with
    | None => ret (Err (bs "this planner has no sorter, so it cannot sift"))
    | Some sorter =>
        match parse_params (sv_params_error senv) (sv_read_error senv) (cs_parameters call) with
        | Err e => ret (Err e)
        | Ok p =>
            match check_reads (sv_config senv) (pm_read p) with
            | Err e => ret (Err e)
            | Ok _ =>
                let* over := resolve_over ctx p in
                match over with
                | Err e => ret (Err e)
                | Ok over =>
                    match check_from (pm_from p) (length (ol_items over)) with
                    | Ok _ => ret (Ok (p, sorter, over))
                    | Err e => ret (Err e)
                    end
                end
            end
        end
    end.

(** * One item *)

Definition add_view (tool : bytes) (cap : Z) (v : Value) (iv : ItemView) : ItemView :=
  match sorter_view tool v cap with
  | Ok x => mkItemView (iv_views iv ++ [x]) (iv_blocks iv) (iv_failed iv)
  | Err b => mkItemView (iv_views iv) (iv_blocks iv ++ [b]) (iv_failed iv)
  end.

Definition fail_read (iv : ItemView) : ItemView := mkItemView (iv_views iv) (iv_blocks iv) (S (iv_failed iv)).

Definition add_read (stashed : bytes -> option Value) (cap : Z) (outcomes : list StepOutcome) (tools : list bytes) (iv : ItemView)
    (i : nat) : ItemView :=
  match outcomes !! i, tools !! i with
  | Some (StepOk v), Some tool =>
      match placeholder_ref v with
      | None => add_view tool cap v iv
      | Some h => match stashed h with Some whole => add_view tool cap whole iv | None => fail_read iv end
      end
  | Some (StepErr _ _), _ => fail_read iv
  | _, _ => iv
  end.

Definition item_cap (range : nat * nat) : Z := (SORTER_ITEM_CAP / (1 + Z.of_nat (range.2 - range.1)))%Z.

Definition item_view (stashed : bytes -> option Value) (over_tool : bytes) (outcomes : list StepOutcome) (tools : list bytes)
    (item : Value) (range : nat * nat) : ItemView :=
  let cap := item_cap range in
  fold_left (add_read stashed cap outcomes tools) (seq range.1 (range.2 - range.1)) (add_view over_tool cap item (mkItemView [] [] 0)).

Definition sorted_item (p : SiftParams) (row : RowKind -> Value -> NewRow) (raw : bytes) (unread failed : nat) (s : Sorting) : Sorting :=
  let next kept undecided rows :=
    mkSorting (count_item (sg_counts s) kept 0 undecided failed) rows (sg_stopped s) (sg_calls s + 1) (sg_unread s + unread)
      (sg_failed_llm s) in
  match parse_sort_reply raw (pm_fields p) with
  | SortYes fields => next 1 0 (sg_rows s ++ [row Kept (Object fields)])
  | SortNo => next 0 0 (sg_rows s)
  | Undecided => next 0 1 (sg_rows s)
  end.

Definition stop_sorting (s : Sorting) (why : Stop) (called : bool) : Sorting :=
  mkSorting (sg_counts s) (sg_rows s) (Some why) (if called then sg_calls s + 1 else sg_calls s)%Z (sg_unread s)
    (if called then sat_succ (sg_failed_llm s) else sg_failed_llm s).

Definition unread_item (p : SiftParams) (range : nat * nat) : nat :=
  if negb (bool_decide (pm_read p = [])) && negb (Nat.ltb range.1 range.2) then 1 else 0.

(** The sorter's call for an item the screen cleared. *)
Definition sort_item (ctx : TaskContext) (p : SiftParams) (sorter : Sorter) (now : option bytes) (row : RowKind -> Value -> NewRow) (views : list Value)
    (unread failed : nat) (s : Sorting) : M (Sorting * bool) :=
  let msg := sorter_message (pm_keep_if p) (pm_fields p) now views in
  emit (EvSort msg);;;
  let* reply := effect (sorter ctx msg) in
  match reply with
  | Err _ => ret (stop_sorting s StopSorterFailed true, false)
  | Ok raw => ret (sorted_item p row raw unread failed s, true)
  end.

(** One item: whether to go on. *)
Definition one_item (ctx : TaskContext) (call : CallSpec) (p : SiftParams) (sorter : Sorter) (now : option bytes) (over : OverList) (class : DataClass)
    (outcomes : list StepOutcome) (tools : list bytes) (item : Value) (range : nat * nat) (s : Sorting) : M (Sorting * bool) :=
  let* late := match cx_deadline ctx with
               | Some d => let* t := effect (e_now env) in ret (d <=? t)%Z
               | None => ret false
               end in
  if late then ret (stop_sorting s StopTime false, false)
  else
    let* state := fallible (e_observe_state env) in
    if bytes_eqb state (bs "cancelled") then ret (stop_sorting s StopCancelled false, false)
    else
      let unread := unread_item p range in
      let row k fields := mkNewRow k (source_of item) fields (as_pascal_str class) in
      let* iv := effect (fun w => (item_view (fun h => sv_stashed senv (cx_task_id ctx) h w) (ol_tool over) outcomes tools item range, w)) in
      if bool_decide (iv_blocks iv = []) then sort_item ctx p sorter now row (iv_views iv) unread (iv_failed iv) s
      else
        audit_blocks (cx_task_id ctx) (cs_step call) (bs "sift_item") (iv_blocks iv);;;
        ret (mkSorting (count_item (sg_counts s) 0 1 0 (iv_failed iv)) (sg_rows s ++ [row Withheld (Object [])]) (sg_stopped s)
               (sg_calls s) (sg_unread s + unread) (sg_failed_llm s), true).

Fixpoint sort_items (ctx : TaskContext) (call : CallSpec) (p : SiftParams) (sorter : Sorter) (now : option bytes) (over : OverList) (class : DataClass)
    (outcomes : list StepOutcome) (tools : list bytes) (l : list (Value * (nat * nat))) (s : Sorting) : M Sorting :=
  match l with
  | [] => ret s
  | (item, range) :: rest =>
      let* (s', go) := one_item ctx call p sorter now over class outcomes tools item range s in
      if go then sort_items ctx call p sorter now over class outcomes tools rest s' else ret s'
  end.

(** * The chain's table rows *)

Fixpoint links_fields (names : list bytes) : M (option (list Value)) :=
  match names with
  | [] => ret (Some [])
  | name :: rest =>
      match parse_scrap_ref name with
      | Err _ => ret None
      | Ok r =>
          let* got := effect (sv_rows senv (sr_task_id r) (sr_sift r)) in
          match got with
          | Err _ => ret None
          | Ok rows =>
              let* more := links_fields rest in
              ret (match more with Some l => Some (map rw_row_fields (List.filter row_kept rows) ++ l) | None => None end)
          end
      end
  end.

Definition chain_distinct (ctx : TaskContext) (prev : bytes) (own : list NewRow) : M (option nat) :=
  let* fields := links_fields (expand (cx_plans ctx) prev) in
  ret (match fields with Some l => Some (distinct_kept (l ++ map nw_fields (kept_rows own))) | None => None end).

Definition with_chain (ctx : TaskContext) (call : CallSpec) (p : SiftParams) (c : Counts) (rows : list NewRow) (s : Value) : M Value :=
  match continued (sv_params_error senv) (sv_read_error senv) (cx_plans ctx) (cs_parameters call) (pm_from p) with
  | None => ret s
  | Some prev =>
      let* distinct := chain_distinct ctx prev rows in
      ret (set_key (bs "continues") (String prev)
             (set_key (bs "chain") (totals (cx_plans ctx) prev (Z.of_nat (ct_looked_at c)) (Z.of_nat (ct_kept c)) distinct) s))
  end.

(** * The run *)

Definition started_payload (ctx : TaskContext) (scrap : ScrapRef) (p : SiftParams) (items reads : nat) (m : FormulationMeta) : Value :=
  object ([(bs "task_id", int_value (cx_task_id ctx)); (bs "plan_count", int_value (cx_plan_count ctx));
           (bs "scrapbook", String (ref_str scrap)); (bs "criterion_sha256", String (sha256_hex (sha256 (pm_keep_if p))));
           (bs "items", nat_value items); (bs "reads", nat_value reads);
           (bs "read_methods", Array (map (fun t => String (read_key (rt_tool t) (rt_method t))) (pm_read p)))] ++
          (if Nat.eqb reads 0 then [(bs "latency_ms", int_value (fm_latency_ms m)); (bs "llm_usage", stats_to_value (fm_usage m))] else [])).

Definition elapsed_ms (started now : Z) : Z := (Z.max 0 (now - started) / 1000000)%Z.

Definition not_run_payload (ctx : TaskContext) (scrap : ScrapRef) (ms : Z) : Value :=
  object [(bs "task_id", int_value (cx_task_id ctx)); (bs "plan_count", int_value (cx_plan_count ctx));
          (bs "scrapbook", String (ref_str scrap)); (bs "stopped", String (stop_str StopReadsNotRun)); (bs "ms", int_value ms)].

Definition finished_payload (ctx : TaskContext) (scrap : ScrapRef) (s : Sorting) (r : Reads) (remaining : nat) (ms : Z) : Value :=
  let c := sg_counts s in
  object [(bs "task_id", int_value (cx_task_id ctx)); (bs "plan_count", int_value (cx_plan_count ctx));
          (bs "scrapbook", String (ref_str scrap)); (bs "looked_at", nat_value (ct_looked_at c)); (bs "kept", nat_value (ct_kept c));
          (bs "withheld", nat_value (ct_withheld c)); (bs "undecided", nat_value (ct_undecided c));
          (bs "failed_reads", nat_value (ct_failed_reads c)); (bs "reads", nat_value (rd_made r)); (bs "unread", nat_value (rd_unread r));
          (bs "reads_cut", nat_value (rd_cut r)); (bs "items_per_read", Array (map nat_value (rd_per_read r)));
          (bs "remaining", nat_value remaining); (bs "stopped", opt_value (fun w => String (stop_str w)) (sg_stopped s));
          (bs "sorter_calls", int_value (sg_calls s)); (bs "ms", int_value ms)].

Definition push_summary (ctx : TaskContext) (call : CallSpec) (class : DataClass) (summary : Value) : M TaskContext :=
  let step := mkStep SIFT_TOOL SIFT_METHOD (cs_parameters call) (cs_returns call) (cs_done_when call) class in
  let record := mkRecord (sift_plan (cs_returns call) (cs_step call) [step] class) [StepOk summary] in
  sink_rows env (e_sink_block_payloads env record (cx_task_id ctx) (cx_plan_count ctx));;;
  ret (push_plan ctx record).

(** From the reads' outcomes to the summary. *)
Definition sort_and_record (ctx : TaskContext) (call : CallSpec) (p : SiftParams) (sorter : Sorter) (now : option bytes) (over : OverList)
    (class : DataClass) (scrap : ScrapRef) (items : list Value) (batch : Batch) (started : Z) (st : ExecState) (failed : Z)
    (outcomes : list StepOutcome) (tools : list bytes) : M (Executed * TaskContext * ExecState * Z) :=
  let* s := sort_items ctx call p sorter now over class outcomes tools (zip items (ba_per_item batch)) (mkSorting no_counts [] None 0 0 failed) in
  (if bool_decide (sg_rows s = []) then ret tt else fallible (sv_append_rows senv (cx_task_id ctx) (sr_sift scrap) (sg_rows s)));;;
  let c := sg_counts s in
  let remaining := length items - ct_looked_at c in
  let reads := mkReads (length (ba_reads batch)) (sg_unread s) (ba_cut batch) (items_per_read p batch (ct_looked_at c)) in
  let '(sum, blocks) := summary scrap p c reads (sg_rows s) remaining (sg_stopped s) in
  let* sum' := with_chain ctx call p c (sg_rows s) sum in
  audit_blocks (cx_task_id ctx) (cs_step call) (bs "sift_summary") blocks;;;
  let* done_at := effect (e_now env) in
  sift_audit ACTION_SIFT_FINISHED (finished_payload ctx scrap s reads remaining (elapsed_ms started done_at));;;
  if bool_decide (sg_stopped s = Some StopCancelled) then ret (InnerLoop.finished Cancelled, ctx, st, sg_failed_llm s)
  else
    let* ctx' := push_summary ctx call class sum' in
    ret (Dispatched, ctx', mkExec (ex_dispatch_count st) (ex_invoke_used st) (ex_gathered st || Nat.ltb 0 (ct_kept c)), sg_failed_llm s).

Definition run_sift (ctx : TaskContext) (call : CallSpec) (m : FormulationMeta) (st : ExecState) (failed : Z)
    : M (Executed * TaskContext * ExecState * Z) :=
  let* now := effect (fun w => (sv_now senv w, w)) in
  let* started := effect (e_now env) in
  let* checked := check_sift ctx call in
  match checked with
  | Err why =>
      sift_audit ACTION_SIFT_REFUSED
        (object [(bs "task_id", int_value (cx_task_id ctx)); (bs "plan_count", int_value (cx_plan_count ctx));
                 (bs "reason", String (take_chars REFUSED_REASON_MAX_CHARS why))]);;;
      ret (Again, push_blocks ctx [bs "sift_refused: " ++ why], st, failed)
  | Ok (p, sorter, over) =>
      let items := drop (Z.to_nat (pm_from p)) (ol_items over) in
      let batch := plan_reads (pm_read p) items (Z.to_nat (sc_max_reads (sv_config senv))) in
      let scrap := mkRef (cx_task_id ctx) (as_i32 (cx_plan_count ctx)) in
      let class := max_class (max_class (cs_classification call) (cx_floor ctx)) (ol_class over) in
      sift_audit ACTION_SIFT_STARTED (started_payload ctx scrap p (length items) (length (ba_reads batch)) m);;;
      if bool_decide (ba_reads batch = [])
      then sort_and_record ctx call p sorter now over class scrap items batch started st failed [] []
      else
        let* (ex, ctx1, st1) := review_and_dispatch env ctx (reads_plan call p (ba_reads batch) class) false None st
                                  (SiftReads (Z.to_nat (sc_max_reads (sv_config senv)))) in
        match ex with
        | Dispatched =>
            let '(outcomes, tools) := match list.last (cx_plans ctx1) with
                                      | Some r => (rec_outcomes r, map st_tool (pl_steps (rec_plan r)))
                                      | None => ([], [])
                                      end in
            sort_and_record ctx1 call p sorter now over class scrap items batch started st1 failed outcomes tools
        | other =>
            let* done_at := effect (e_now env) in
            sift_audit ACTION_SIFT_FINISHED (not_run_payload ctx1 scrap (elapsed_ms started done_at));;;
            ret (other, ctx1, st1, failed)
        end
  end.

(** * An answer's table (answer.rs) *)

Definition not_included (raw why : bytes) : bytes := bs "(table " ++ raw ++ bs " could not be included: " ++ why ++ bs ")".
Definition DEFAULT_ORDER_NOTE : bytes := bs "(the order named matches no column: the table is in its default order)".

(** The rows gathered so far. *)
Record Gathered := mkGathered {
  ga_rows : list Row; ga_counts : Counts; ga_fields : option (list bytes); ga_included : bool; ga_refused : list bytes; ga_links : list Link }.

Definition refuse (g : Gathered) (line : bytes) : Gathered :=
  mkGathered (ga_rows g) (ga_counts g) (ga_fields g) (ga_included g) (ga_refused g ++ [line]) (ga_links g).

Definition include (g : Gathered) (raw : bytes) (sum : option Value) (got : list Row) : Gathered :=
  mkGathered (ga_rows g ++ got) (add_counts (ga_counts g) got sum)
    (match ga_fields g with
     | Some f => Some f
     | None => match sum ≫= summary_fields with Some f => Some f | None => first_row_fields got end
     end)
    true (ga_refused g) (ga_links g ++ [link_of raw sum]).

Definition gather_ref (ctx : TaskContext) (raw : bytes) (g : Gathered) : M Gathered :=
  match parse_scrap_ref raw with
  | Err e => ret (refuse g (not_included raw e))
  | Ok r =>
      if negb (may_read ctx r) then ret (refuse g (not_included raw (bs "it is not from this conversation")))
      else
        let* got := effect (sv_rows senv (sr_task_id r) (sr_sift r)) in
        ret (match got with
             | Err _ => refuse g (not_included raw (bs "it could not be read"))
             | Ok rows =>
                 if bool_decide (rows = []) && negb (is_some (own_summary ctx r)) then refuse g (not_included raw (bs "it has no rows"))
                 else include g raw (own_summary ctx r) rows
             end)
  end.

Fixpoint gather_refs (ctx : TaskContext) (named : list bytes) (g : Gathered) : M Gathered :=
  match named with
  | [] => ret g
  | raw :: rest => let* g' := gather_ref ctx raw g in gather_refs ctx rest g'
  end.

Definition table_columns (t : TableSpec) (g : Gathered) : list bytes :=
  match tb_columns t with
  | Some (c :: cs) => c :: cs
  | _ => default [] (ga_fields g) ++ [SOURCE_COLUMN]
  end.

Definition said_below (lines : list bytes) : bytes := concat (map (fun l => bs "

" ++ l) lines).

Definition with_table (ctx : TaskContext) (body : bytes) (t : TableSpec) (strip_own : bool) : M (bytes * DataClass) :=
  let '(named, past) := table_refs (cx_plans ctx) (refs (tb_scrapbook t)) in
  let* g := gather_refs ctx named (mkGathered [] no_counts None false past []) in
  let rows := ga_rows g in
  let c := ga_counts g in
  let counts := mkCounts (ct_looked_at c) (ct_kept c) (ct_withheld c) (ct_undecided c) (ct_failed_reads c) (links_remaining (ga_links g)) in
  let class := fold_left max_class (map row_class rows) (cx_floor ctx) in
  let columns := table_columns t g in
  let own := if strip_own && negb (bool_decide (rows = [])) then without_own_tables body else None in
  let out := default body own in
  let refused := ga_refused g ++ (if is_some own then [OWN_TABLE_NOTE] else []) in
  if ga_included g then
    let asked := match tb_order_by t with Some o => if orders_anything o rows then Some o else None | None => None end in
    let refused := refused ++ (if is_some (tb_order_by t) && negb (is_some asked) && negb (bool_decide (rows = []))
                               then [DEFAULT_ORDER_NOTE] else []) in
    let order := match asked with Some o => Some o | None => default_order columns rows end in
    let '(table, blocks) := render_table (sv_f64_key senv) rows columns order (tb_limit t) counts in
    audit_blocks (cx_task_id ctx) 0 (bs "answer_table_cell") blocks;;;
    ret (out ++ bs "

" ++ table ++ said_below refused, class)
  else ret (out ++ said_below refused, class).
End Run.
