(* ===== verification/NotebookLoop.v ===== *)
(** The notebook loop: [run_notebook_to_terminal]
    (src/core/src/scheduler/notebook/run.rs) and one turn's model call with its
    recoveries ([ask], notebook/ask.rs), as programs over an abstract world.

    The loop shares [review_and_dispatch], the trace and the audit rows of
    InnerLoop; what it needs besides is [NbEnv]: the formulator's notebook door,
    the rows of [task_notebook] and what the sift and the answer's table need
    ([SiftEnv], whose [sv_stashed] is the handoff cache too).  Of [plan.discarded], the prompt's and
    the model's names are left out, as [FormulationMeta] leaves them out. *)

From stdpp Require Import base list numbers strings option.
From Stdlib Require Import ZArith Lia.
From S2P Require Import Prelude RustStr Json Fingerprint Effects Cassandra PlanJson InjectionGuard Asks LoopPure Notebook NotebookView InnerLoop InnerLoopSpec PlanSummary SiftTable SiftRun.
Local Open Scope nat_scope.
Local Open Scope prog_scope.

(** * The environment *)

Record NbEnv (W : Type) := mkNbEnv {
  nv_turn : TaskContext -> (Z -> option bytes -> bytes) -> option (bytes * bytes) -> ThinkingPolicy -> W ->
    result (bytes * FormulationMeta) AgentError * W;
  nv_thinks_by_default : bool;
  nv_tool_doc : bytes -> option bytes;
  nv_entries : W -> result (list Entry) DbError * W;
  nv_append : EntryKind -> Value -> W -> result Z DbError * W;
  nv_sift_env : SiftEnv W;
  nv_to_string : Value -> bytes;
  nv_from_value_error : EntryKind -> Value -> bytes }.
Arguments mkNbEnv {W}.
Arguments nv_turn {W}. Arguments nv_thinks_by_default {W}. Arguments nv_tool_doc {W}. Arguments nv_entries {W}.
Arguments nv_append {W}. Arguments nv_sift_env {W}. Arguments nv_to_string {W}. Arguments nv_from_value_error {W}.

Inductive Asked := AskedReply (r : NotebookReply) (m : FormulationMeta) | AskedForceAnswer | AskedFailed (detail : bytes).

Record TurnGuard := mkGuard { tg_gathered : bool; tg_answer_attempted : bool; tg_answer_turn : bool; tg_kind : TurnKind }.

Record LastCall := mkLastCall { lc_step : Z; lc_classification : DataClass; lc_failed : bool }.

(** The loop's variables. *)
Record NbLoop := mkNbLoop {
  nl_ctx : TaskContext; nl_st : ExecState; nl_failed : Z; nl_force_answer : bool; nl_answer_attempted : bool;
  nl_seen : Z; nl_last_call : option LastCall; nl_replan_due : bool; nl_write_answer : bool }.

Definition with_instruction (c : TaskContext) (s : bytes) : TaskContext :=
  mkCtx (cx_task_id c) (cx_lane c) s (cx_floor c) (cx_floor_source c) (cx_floor_signals c) (cx_plans c) (cx_advisories c)
    (cx_blocks c) (cx_plan_count c) (cx_max_plans c) (cx_deadline c) (cx_resolved_asks c) (cx_origin c) (cx_conversation c)
    (cx_conversation_task_ids c).

Definition with_max_plans (c : TaskContext) (n : Z) : TaskContext :=
  mkCtx (cx_task_id c) (cx_lane c) (cx_instruction c) (cx_floor c) (cx_floor_source c) (cx_floor_signals c) (cx_plans c)
    (cx_advisories c) (cx_blocks c) (cx_plan_count c) n (cx_deadline c) (cx_resolved_asks c) (cx_origin c)
    (cx_conversation c) (cx_conversation_task_ids c).

Definition ANSWER_DIRECTIVE : bytes :=
  bs "Your turn budget is spent. Do NOT call another tool. Reply now with `answer`, written from the findings (and the current step's last result, if it has one); if they are incomplete, say what is missing. If nothing can be said, reply `infeasible` with the reason.".

Definition WRITE_ANSWER_DIRECTIVE : bytes :=
  bs "You have gathered enough to answer. Write the final answer now, from the findings (and the current step's last result, if it has one): complete, clearly laid out, in the order and shape the instruction asks for, saying what is missing or uncertain. Reply with ONLY `answer` — no `tick`, no `steps`, no `call`.".

Definition directive_of (k : TurnKind) : option bytes :=
  match k with TkForcedAnswer => Some ANSWER_DIRECTIVE | TkWriteAnswer => Some WRITE_ANSWER_DIRECTIVE | _ => None end.

Definition is_ok_outcome (o : StepOutcome) : bool := negb (is_err o).

Section Loop.
Context `{UnicodeStr} `{UnicodeChar} `{CharClass} `{Sha256} `{SerdeJson} {W : Type} (env : Env W) (nenv : NbEnv W).

Abbreviation M := (prog W Event DbError).

(** * One turn's model call (ask.rs) *)

Definition nb_turn (ctx : TaskContext) (msg : Z -> option bytes -> bytes) (prior : option (bytes * bytes)) (t : ThinkingPolicy)
    : M (result (bytes * FormulationMeta) AgentError) :=
  emit (EvCall CallNotebook);;; effect (nv_turn nenv ctx msg prior t).

Abbreviation Checked := (result (NotebookReply * FormulationMeta * bytes) AgentError).

Definition nb_check (k : TurnKind) (n : NotebookState) (sent : result (bytes * FormulationMeta) AgentError) : Checked :=
  match sent with
  | Err e => Err e
  | Ok (raw, meta) =>
      match check_reply k n raw with
      | Ok r => Ok (r, meta, raw)
      | Err detail => Err (Decode detail raw (fm_usage meta) (fm_latency_ms meta))
      end
  end.

Definition record (ctx : TaskContext) (g : TurnGuard) (failed : Z) (e : AgentError) (suppressed : bool) : M Z :=
  record_failed_formulation env ctx (tg_answer_turn g) suppressed e;;; ret (sat_succ failed).

(** The one re-ask for a table that is missing or names nothing it can show. *)
Definition ask_for_table (ctx : TaskContext) (n : NotebookState) msg (g : TurnGuard) (failed : Z) (first : Checked)
    : M (Checked * bool * Z) :=
  match shows_back_a_missing_table (tg_kind g) (nv_thinks_by_default nenv), first with
  | true, Ok (reply, _, raw) =>
      match table_left_out reply ctx with
      | Err reason =>
          let* again := nb_turn ctx msg (Some (raw, reason)) Suppress in
          match nb_check (tg_kind g) n again with
          | Ok x => ret (Ok x, true, failed)
          | Err e => let* failed' := record ctx g failed e true in ret (first, false, failed')
          end
      | Ok _ => ret (first, false, failed)
      end
  | _, _ => ret (first, false, failed)
  end.

(** The failure detail of an error that ends the task. *)
Definition nb_failure_detail (ctx : TaskContext) (reasked : bool) (e : AgentError) : bytes :=
  let detail :=
    if is_request_timeout e then timeout_failure_detail (from_plans (cx_plans ctx)) (agent_error_str e)
    else if ran_out_of_tokens e then token_cap_failure_detail (agent_error_str e)
    else match e with
         | Decode _ raw _ _ => decode_failure_detail (is_blank raw) (agent_error_str e)
         | _ => bs "llm: " ++ agent_error_str e
         end in
  if reasked && negb (is_some (non_plan_answer e))
  then bs "The language model's first reply could not be used, so it was asked again. " ++ detail
  else detail.

Definition conclude_ask (ctx : TaskContext) (g : TurnGuard) (failed : Z) (retried reasked : bool) (r : Checked) : M (Asked * Z) :=
  match r with
  | Ok (reply, meta, _) =>
      ret (AskedReply reply
             (if retried then mkMeta (fm_latency_ms meta) (sat_succ (fm_retry_count meta)) (fm_usage meta) else meta), failed)
  | Err e =>
      let* failed' := record ctx g failed e reasked in
      if should_force_synthesis (is_request_timeout e || ran_out_of_tokens e) (tg_gathered g) (tg_answer_attempted g)
      then ret (AskedForceAnswer, failed')
      else ret (AskedFailed (nb_failure_detail ctx reasked e), failed')
  end.

Definition reask_reason (e : AgentError) : bytes := match e with Decode detail _ _ _ => detail | _ => agent_error_str e end.

Definition ask (ctx : TaskContext) (n : NotebookState) msg (g : TurnGuard) (failed : Z) : M (Asked * Z) :=
  let thinking := turn_thinking (tg_kind g) in
  let* sent := nb_turn ctx msg None thinking in
  let* (first, retried, failed1) := ask_for_table ctx n msg g failed (nb_check (tg_kind g) n sent) in
  match first with
  | Ok x => conclude_ask ctx g failed1 retried false (Ok x)
  | Err e =>
      if is_empty_completion e then
        let* failed2 := record ctx g failed1 e false in
        let* again := nb_turn ctx msg None thinking in
        conclude_ask ctx g failed2 true false (nb_check (tg_kind g) n again)
      else
        match non_plan_answer e with
        | Some reply =>
            let* failed2 := record ctx g failed1 e false in
            let* again := nb_turn ctx msg (Some (reply, reask_reason e)) Suppress in
            conclude_ask ctx g failed2 true true (nb_check (tg_kind g) n again)
        | None => conclude_ask ctx g failed1 retried false (Err e)
        end
  end.

(** * The loop (run.rs) *)

Definition append_terminal (k : EntryKind) (payload : Value) : M () := effect (nv_append nenv k payload);;; ret tt.

(** The message of the turn. *)
Definition turn_message (ls : NbLoop) (ctx : TaskContext) (n : NotebookState) (k : TurnKind) : Z -> option bytes -> bytes :=
  let current := current_step n in
  let last_record := list.last (cx_plans ctx) in
  let last_failure :=
    match nl_last_call ls, last_record with
    | Some l, Some r => if lc_failed l then Some (lc_step l, r) else None
    | _, _ => None
    end in
  let last_result :=
    match nl_last_call ls, current with
    | Some l, Some c => if negb (lc_failed l) && (ss_id c =? lc_step l)%Z then last_record else None
    | _, _ => None
    end in
  let budget := mkBudget (sat_succ (cx_plan_count ctx)) (cx_max_plans ctx) (directive_of k) in
  render_turn (nv_to_string nenv) last_step_view ctx n (nl_seen ls) last_failure
    ((fun c => mkCurrent c (nv_tool_doc nenv (ss_tool c)) last_result) <$> current) budget.

Definition tick_class (ls : NbLoop) (floor : DataClass) (step : Z) : DataClass :=
  match nl_last_call ls with
  | Some l => if (lc_step l =? step)%Z then lc_classification l else floor
  | None => floor
  end.

(** The class the loop stamps on the reply's tick. *)
Definition reply_class (ls : NbLoop) (ctx : TaskContext) (r : NotebookReply) : DataClass :=
  match rp_tick r with Some t => tick_class ls (cx_floor ctx) (ts_step t) | None => cx_floor ctx end.

(** Write the reply's [tick] and [steps], and apply them to the copy. *)
Definition write_tick (ctx : TaskContext) (r : NotebookReply) (c : DataClass) (n : NotebookState) : M (result NotebookState bytes) :=
  match rp_tick r, tick_payload r c with
  | Some t, Some payload =>
      sink_rows env (screened_tick_rows (sv_f32 (nv_sift_env nenv)) (cx_task_id ctx) t);;;
      fallible (nv_append nenv EkTick (tick_payload_value payload));;;
      ret match apply_tick n payload with
          | Ok n' => Ok n'
          | Err e => Err (bs "the task notebook rejected its own tick: " ++ e)
          end
  | _, _ => ret (Ok n)
  end.

Definition write_steps (ctx : TaskContext) (r : NotebookReply) (before n : NotebookState) : M (result NotebookState bytes) :=
  match rp_steps r with
  | Some steps =>
      sink_rows env (screened_steps_rows (sv_f32 (nv_sift_env nenv)) (cx_task_id ctx) before steps);;;
      fallible (nv_append nenv EkSteps (steps_payload_value steps));;;
      ret match apply_steps n steps with
          | Ok n' => Ok n'
          | Err e => Err (bs "the task notebook rejected its own steps: " ++ e)
          end
  | None => ret (Ok n)
  end.

Definition discarded_payload (ctx : TaskContext) (reason : bytes) (method : option bytes) (m : FormulationMeta) : Value :=
  object [(bs "task_id", int_value (cx_task_id ctx)); (bs "plan_count", int_value (cx_plan_count ctx));
          (bs "reason", String reason); (bs "method", opt_value String method);
          (bs "latency_ms", int_value (fm_latency_ms m)); (bs "retry_count", int_value (fm_retry_count m));
          (bs "llm_usage", stats_to_value (fm_usage m))].

Definition audit_discarded_turn (ctx : TaskContext) (reason : bytes) (method : option bytes) (m : FormulationMeta) : M () :=
  row_best_effort env (EvDiscarded (discarded_payload ctx reason method m)).

(** What the reply comes to: set aside (with the context and whether a replan is
    due and an answer to be rewritten), or a plan; [None] when it has none. *)
Inductive Decided := Discarded (ctx : TaskContext) (replan write : bool) | ToExecute (p : Plan) | NoEnd.

Definition repeated_call (ctx : TaskContext) (plan : Plan) (w : W) : option PlannedStep :=
  match pl_steps plan with
  | s :: _ =>
      let s := qualify_step env s in
      if already_made (cx_plans ctx) s (fun h => is_some (sv_stashed (nv_sift_env nenv) (cx_task_id ctx) h w)) then Some s else None
  | [] => None
  end.

Definition answer_body (ctx : TaskContext) (k : TurnKind) (r : NotebookReply) (a : AnswerSpec) : M (bytes * list DataClass) :=
  let forced := if bool_decide (k = TkForcedAnswer) then forced_table r (cx_plans ctx) else None in
  match match forced with Some t => Some t | None => as_table a end with
  | Some t =>
      let* (body, c) := with_table env (nv_sift_env nenv) ctx (as_body a) t (is_some forced) in ret (body, [c])
  | None => ret (as_body a, [])
  end.

Definition decide_reply (ctx : TaskContext) (k : TurnKind) (r : NotebookReply) (m : FormulationMeta) (after : NotebookState)
    : M Decided :=
  if is_some (rp_answer r) && rewrite_answer k (nv_thinks_by_default nenv) then
    audit_discarded_turn ctx (bs "answer_rewritten") None m;;; ret (Discarded ctx false true)
  else
    match rp_call r, rp_answer r, rp_infeasible r with
    | Some call, _, _ =>
        let plan := call_plan r call (cx_floor ctx) in
        let* repeated := effect (fun w => (repeated_call ctx plan w, w)) in
        match repeated with
        | Some s =>
            audit_discarded_turn ctx (bs "repeated_call") (Some (st_method s)) m;;;
            ret (Discarded (push_blocks ctx [repeated_call_reason (st_method s)]) true false)
        | None => ret (ToExecute plan)
        end
    | None, Some a, _ =>
        let* (body, more) := answer_body ctx k r a in
        ret (ToExecute (answer_plan body (answer_ceiling (cx_floor ctx) (touched after (cx_plans ctx) ++ more) (as_data_ceiling a))
               (as_refused a)))
    | None, None, Some reason =>
        ret (ToExecute (answer_plan reason (answer_ceiling (cx_floor ctx) (touched after (cx_plans ctx)) None) None))
    | None, None, None => ret NoEnd
    end.

Definition execute_reply (ctx : TaskContext) (r : NotebookReply) (m : FormulationMeta) (plan : Plan) (answer_turn : bool)
    (exh : option Exhausted) (st : ExecState) (failed : Z) : M (Executed * TaskContext * ExecState * Z) :=
  match rp_call r with
  | Some call =>
      if bytes_eqb (cs_tool call) SIFT_TOOL then run_sift env (nv_sift_env nenv) ctx call m st failed
      else let* (ex, ctx', st') := review_and_dispatch env ctx plan answer_turn exh st PlanPolicy in ret (ex, ctx', st', failed)
  | None => let* (ex, ctx', st') := review_and_dispatch env ctx plan answer_turn exh st PlanPolicy in ret (ex, ctx', st', failed)
  end.

Definition terminal_entry (o : Outcome) (r : NotebookReply) : option (EntryKind * Value) :=
  match o with
  | Completed _ | Refused _ _ _ =>
      match rp_answer r, rp_infeasible r with
      | Some a, _ => Some (EkAnswer, answer_payload_value (as_body a))
      | None, Some reason => Some (EkInfeasible, infeasible_payload_value reason)
      | None, None => None
      end
  | Cancelled => Some (EkCancelled, Object [])
  | _ => None
  end.

(** After the execution: the end of the run, or the last call and whether a replan is due. *)
Definition conclude_execution (ls : NbLoop) (r : NotebookReply) (ex : Executed) (ctx : TaskContext) (st : ExecState)
    (failed : Z) : M (InnerLoopResult + (option LastCall * bool)) :=
  match ex with
  | ExFinished f =>
      match terminal_entry (fi_outcome f) r with
      | Some (k, payload) => append_terminal k payload
      | None => ret tt
      end;;;
      ret (inl (finish env ctx st failed f))
  | Again =>
      match rp_call r with
      | Some call =>
          fallible (nv_append nenv EkFailedStep (failed_payload_value
            (mkFailed (cs_step call) (bs "BLOCKED") (clamp (default [] (list.last (cx_blocks ctx)))) (cx_floor ctx))));;;
          ret (inr (None, true))
      | None => ret (inr (nl_last_call ls, nl_replan_due ls))
      end
  | Dispatched =>
      match rp_call r with
      | None => ret (inr (nl_last_call ls, nl_replan_due ls))
      | Some call =>
          let prev := match nl_last_call ls with
                      | Some l => if (lc_step l =? cs_step call)%Z && negb (lc_failed l) then Some (lc_classification l) else None
                      | None => None
                      end in
          let c := match prev with Some p => Conversation.max_class p (cs_classification call) | None => cs_classification call end in
          match list.last (cx_plans ctx) ≫= (fun rec => head (rec_outcomes rec)) with
          | Some (StepErr code detail) =>
              fallible (nv_append nenv EkFailedStep (failed_payload_value (mkFailed (cs_step call) code (clamp detail) c)));;;
              ret (inr (Some (mkLastCall (cs_step call) c true), true))
          | _ => ret (inr (Some (mkLastCall (cs_step call) c false), nl_replan_due ls))
          end
      end
  end.

(** From a checked reply to the next turn. *)
Definition act_on_reply (ls : NbLoop) (ctx : TaskContext) (n : NotebookState) (k : TurnKind) (r : NotebookReply)
    (m : FormulationMeta) (answer_turn : bool) (exh : option Exhausted) : M (InnerLoopResult + NbLoop) :=
  let st := nl_st ls in
  let failed := nl_failed ls in
  let fail d := ret (inl (finish_with env ctx st failed (Failed d))) in
  let next c st f last replan write :=
    ret (inr (mkNbLoop c st f (nl_force_answer ls) (nl_answer_attempted ls) (nl_seen ls) last replan write)) in
  let* ticked := write_tick ctx r (reply_class ls ctx r) n in
  match ticked with
  | Err d => fail d
  | Ok n1 =>
      let* stepped := write_steps ctx r n n1 in
      match stepped with
      | Err d => fail d
      | Ok after =>
          let* decided := decide_reply ctx k r m after in
          match decided with
          | NoEnd => fail (bs "notebook reply had no call or answer")
          | Discarded ctx' replan write => next ctx' st failed (nl_last_call ls) (nl_replan_due ls || replan) write
          | ToExecute plan =>
              let* (ex, ctx', st', failed') := execute_reply ctx r m plan answer_turn exh st failed in
              let* c := conclude_execution ls r ex ctx' st' failed' in
              match c with
              | inl res => ret (inl res)
              | inr (last, replan) => next ctx' st' failed' last replan false
              end
          end
      end
  end.

(** One pass of the loop, from the budget on. *)
Definition nb_planning (base : bytes) (ls : NbLoop) (answer_turn : bool) (exh : option Exhausted) : M (InnerLoopResult + NbLoop) :=
  let attempted := nl_answer_attempted ls || answer_turn in
  let* es := fallible (nv_entries nenv) in
  match Notebook.fold (nv_from_value_error nenv) es with
  | Err e =>
      ret (inl (finish_with env (nl_ctx ls) (nl_st ls) (nl_failed ls)
                  (Failed (bs "the task notebook could not be read: " ++ fold_error_str e))))
  | Ok n =>
      let ctx := with_instruction (nl_ctx ls) (with_corrections base (nb_corrections n)) in
      let k := turn_kind answer_turn (nl_write_answer ls) (bool_decide (nb_steps n = [])) (nl_replan_due ls) in
      let guard := mkGuard (ex_gathered (nl_st ls)) attempted answer_turn k in
      let* (asked, failed) := ask ctx n (turn_message ls ctx n k) guard (nl_failed ls) in
      let seen := match list.last (nb_corrections n) with Some c => co_seq c | None => nl_seen ls end in
      let replan := nl_replan_due ls && negb (bool_decide (k = TkReplan)) in
      match asked with
      | AskedFailed detail => ret (inl (finish_with env ctx (nl_st ls) failed (Failed detail)))
      | AskedForceAnswer => ret (inr (mkNbLoop ctx (nl_st ls) failed true attempted seen (nl_last_call ls) replan false))
      | AskedReply r m =>
          let ctx1 := with_plan_count ctx (cx_plan_count ctx + 1) in
          effect (e_increment_plan_count env (cx_plan_count ctx1));;;
          act_on_reply (mkNbLoop ctx1 (nl_st ls) failed (nl_force_answer ls) attempted seen (nl_last_call ls) replan false)
            ctx1 n k r m answer_turn exh
      end
  end.

Definition nb_iteration (base : bytes) (ls : NbLoop) : M (InnerLoopResult + NbLoop) :=
  let ctx := nl_ctx ls in
  let* state := fallible (e_observe_state env) in
  if bytes_eqb state (bs "cancelled") then
    append_terminal EkCancelled (Object []);;; ret (inl (finish_with env ctx (nl_st ls) (nl_failed ls) Cancelled))
  else
    let* now := effect (e_now env) in
    let exh := exhausted (cx_plan_count ctx) (cx_max_plans ctx) (cx_deadline ctx) now in
    let answer_turn := (is_some exh || nl_force_answer ls) && ex_gathered (nl_st ls) && negb (nl_answer_attempted ls) in
    match exh, answer_turn with
    | Some which, false =>
        ret (inl (finish_with env ctx (nl_st ls) (nl_failed ls) (Failed (exhausted_detail which (cx_max_plans ctx) false))))
    | _, _ => nb_planning base ls answer_turn exh
    end.

Fixpoint nb_run_loop (base : bytes) (fuel : nat) (ls : NbLoop) : M (option InnerLoopResult) :=
  match fuel with
  | O => ret None
  | S fuel' =>
      let* r := nb_iteration base ls in
      match r with inl res => ret (Some res) | inr ls' => nb_run_loop base fuel' ls' end
  end.

Definition nb_init (ctx : TaskContext) : NbLoop :=
  let ctx := with_max_plans ctx (turn_cap (cx_plan_count ctx) (cx_max_plans ctx)) in
  mkNbLoop ctx (mkExec 0 false (existsb (fun r => existsb is_ok_outcome (rec_outcomes r)) (cx_plans ctx))) 0 false false 0 None false false.

(** Three iterations more than the turns left, as the classic loop needs. *)
Definition nb_fuel (ctx : TaskContext) : nat := Z.to_nat (turn_cap (cx_plan_count ctx) (cx_max_plans ctx) - cx_plan_count ctx) + 3.

Definition run_notebook_to_terminal (ctx : TaskContext) : M (option InnerLoopResult) :=
  nb_run_loop (cx_instruction ctx) (nb_fuel ctx) (nb_init ctx).
End Loop.
