(* ===== verification/NotebookLoopSpec.v ===== *)
(** What the notebook loop guarantees, whatever the model, the reviewer, the
    workers, the sift and the database do: it ends, nothing it dispatches goes
    unreviewed, and what it writes to the task's notebook folds again. *)

From stdpp Require Import base list numbers strings option.
From Stdlib Require Import ZArith Lia.
From S2P Require Import Prelude RustStr Json NulRule Fingerprint Effects Cassandra PlanJson InjectionGuard Asks AskMessage LoopPure Notebook NotebookView InnerLoop InnerLoopSpec LoopWorld Sift SiftTable SiftRun SiftRunSpec NotebookLoop.
Local Open Scope nat_scope.
Local Open Scope prog_scope.

(** * The trace *)

(** The instructions the reviewer may be shown: the task's, with corrections. *)
Definition told_with (base : bytes) (s : bytes) : Prop := exists cs, s = with_corrections base cs.

Section Trace.
Context `{UnicodeStr} `{UnicodeChar} `{CharClass} `{Sha256} `{SerdeJson} {W : Type} (env : Env W) (nenv : NbEnv W).
Variables (ctx0 : TaskContext) (base : bytes) (cap : nat).
Hypothesis cap_plan : MAX_STEPS_PER_PLAN <= cap.

Abbreviation told := (told_with base).
Abbreviation T := (tallied (e_to_vec env) (e_review env) ctx0 told cap).
Abbreviation OK := (trace_ok (e_to_vec env) (e_review env) ctx0 told cap).
Abbreviation exec_ok := (InnerLoopSpec.exec_ok).

Hypothesis cap_reads : Z.to_nat (sc_max_reads (sv_config (nv_sift_env nenv))) <= cap.

Abbreviation quiet := (quiet env ctx0 told cap).
Abbreviation ran := (ran env ctx0 told cap).

Lemma nb_turn_spec ctx msg prior th c d i :
  spec (T c d i) (nb_turn nenv ctx msg prior th) (fun r t => match r with Ok _ => T (c + 1) d i t | Err _ => False end).
Proof. eapply spec_bind_emit; [intros t; apply tallied_call|by apply spec_effect]. Qed.

Lemma record_spec ctx g failed e b c d i :
  spec (T c d i) (record env ctx g failed e b) (fun r t => match r with Ok _ => T c d i t | Err _ => False end).
Proof. apply spec_bind_best_effort; [eauto with loop|]. by apply spec_ret. Qed.

(** A reply that [ask] hands on was accepted against the notebook it was shown. *)
Definition accepted (k : TurnKind) (n : NotebookState) (r : NotebookReply) : Prop := exists raw, check_reply k n raw = Ok r.

Abbreviation Checked := (result (NotebookReply * FormulationMeta * bytes) AgentError).

Definition checked_ok (k : TurnKind) (n : NotebookState) (r : Checked) : Prop :=
  match r with Ok (reply, _, _) => accepted k n reply | Err _ => True end.

Lemma nb_check_ok k n sent : checked_ok k n (nb_check k n sent).
Proof.
  unfold nb_check. destruct sent as [[raw meta]|e]; [|done]. destruct (check_reply k n raw) eqn:E; [by exists raw|done].
Qed.

(** One turn makes one or two calls to the model. *)
Definition ask_post (g : TurnGuard) (n : NotebookState) (c0 d i : Z) (r : result (Asked * Z) DbError) (t : list Event) : Prop :=
  match r with
  | Ok (a, _) =>
      exists c', T c' d i t /\ (c0 < c' <= c0 + 2)%Z /\
        match a with
        | AskedReply reply _ => accepted (tg_kind g) n reply
        | AskedForceAnswer => tg_gathered g = true /\ tg_answer_attempted g = false
        | AskedFailed _ => True
        end
  | Err _ => False
  end.

Lemma conclude_ask_spec ctx g n failed retried reasked r c c0 d i :
  (c0 < c <= c0 + 2)%Z -> checked_ok (tg_kind g) n r ->
  spec (T c d i) (conclude_ask env ctx g failed retried reasked r) (ask_post g n c0 d i).
Proof.
  intros Hc Hr. destruct r as [[[reply meta] raw]|e]; unfold conclude_ask.
  - apply spec_ret. intros t Ht. by exists c.
  - eapply spec_bind; [apply record_spec|done|]. intros failed'.
    destruct (should_force_synthesis _ _ _) eqn:Ef; apply spec_ret; intros t Ht; exists c; split_and!; try done; try lia;
      unfold should_force_synthesis in Ef.
    + by apply andb_true_iff in Ef as [[_ ?]%andb_true_iff _].
    + by apply andb_true_iff in Ef as [_ ?%negb_true_iff].
Qed.

Lemma ask_for_table_spec ctx n msg g failed first c d i : checked_ok (tg_kind g) n first ->
  spec (T c d i) (ask_for_table env nenv ctx n msg g failed first)
    (fun r t => match r with
                | Ok (x, _, _) => checked_ok (tg_kind g) n x /\
                    match x with Ok _ => exists c', T c' d i t /\ (c <= c' <= c + 1)%Z | Err _ => T c d i t end
                | Err _ => False
                end).
Proof.
  intros Hf. unfold ask_for_table. destruct first as [[[reply meta] raw]|e].
  - destruct (shows_back_a_missing_table _ _); [|apply spec_ret; intros t Ht; split; [done|exists c; split; [done|lia]]].
    destruct (table_left_out reply ctx) as [|reason]; [apply spec_ret; intros t Ht; split; [done|exists c; split; [done|lia]]|].
    eapply spec_bind; [apply nb_turn_spec|done|]. intros again.
    pose proof (nb_check_ok (tg_kind g) n again) as Hn. destruct (nb_check (tg_kind g) n again) as [[[r m] raw']|e].
    + apply spec_ret. intros t Ht. split; [done|]. exists (c + 1)%Z. split; [done|lia].
    + eapply spec_bind; [apply record_spec|done|]. intros f. apply spec_ret. intros t Ht.
      split; [done|]. exists (c + 1)%Z. split; [done|lia].
  - destruct (shows_back_a_missing_table _ _); by apply spec_ret.
Qed.

Lemma ask_spec ctx n msg g failed c d i : spec (T c d i) (ask env nenv ctx n msg g failed) (ask_post g n c d i).
Proof.
  unfold ask. eapply spec_bind; [apply nb_turn_spec|done|]. intros sent.
  eapply spec_bind; [apply ask_for_table_spec, nb_check_ok|done|]. intros [[first retried] failed1].
  destruct first as [[[reply meta] raw]|e].
  - intros w t [Hok (c' & Ht & Hc)]. revert w t Ht. apply conclude_ask_spec; [lia|done].
  - intros w t [_ Ht]. revert w t Ht. destruct (is_empty_completion e); [|destruct (non_plan_answer e)].
    + eapply spec_bind; [apply record_spec|done|]. intros f. eapply spec_bind; [apply nb_turn_spec|done|]. intros again.
      apply conclude_ask_spec; [lia|apply nb_check_ok].
    + eapply spec_bind; [apply record_spec|done|]. intros f. eapply spec_bind; [apply nb_turn_spec|done|]. intros again.
      apply conclude_ask_spec; [lia|apply nb_check_ok].
    + apply conclude_ask_spec; [lia|done].
Qed.

Lemma quiet_write_tick ctx r cl n : quiet (write_tick env nenv ctx r cl n).
Proof.
  unfold write_tick. destruct (rp_tick r); [|apply quiet_ret]. destruct (tick_payload r cl); [|apply quiet_ret].
  apply quiet_bind; [apply quiet_sink_rows|]. intros _. apply quiet_bind; [apply quiet_fallible|]. intros _. apply quiet_ret.
Qed.

Lemma quiet_write_steps ctx r before n : quiet (write_steps env nenv ctx r before n).
Proof.
  unfold write_steps. destruct (rp_steps r); [|apply quiet_ret].
  apply quiet_bind; [apply quiet_sink_rows|]. intros _. apply quiet_bind; [apply quiet_fallible|]. intros _. apply quiet_ret.
Qed.

(** What a reply is decided to be keeps the context, but for a block added. *)
Definition decided_same (ctx : TaskContext) (d : Decided) : Prop :=
  match d with Discarded ctx' _ _ => same_task ctx ctx' | _ => True end.

Lemma decide_reply_spec ctx k r m after c d i :
  spec (T c d i) (decide_reply env nenv ctx k r m after)
    (fun x t => match x with Ok dec => T c d i t /\ decided_same ctx dec | Err _ => OK t end).
Proof.
  unfold decide_reply. destruct (is_some (rp_answer r) && _).
  { eapply spec_bind; [by apply quiet_row_best_effort|done|]. intros []. apply spec_ret. intros t Ht. split; [done|apply same_task_refl]. }
  destruct (rp_call r) as [call|].
  { apply spec_bind_effect. intros [s|]; [|by apply spec_ret].
    eapply spec_bind; [by apply quiet_row_best_effort|done|]. intros []. apply spec_ret. intros t Ht. split; [done|apply same_task_history]. }
  destruct (rp_answer r) as [a|].
  { eapply (spec_bind _ _ (fun x t => match x with Ok _ => T c d i t | Err _ => OK t end)); [|done|].
    - unfold answer_body. destruct (match _ with Some t => Some t | None => as_table a end); [|apply quiet_ret].
      apply quiet_bind; [apply quiet_with_table|]. intros []. apply quiet_ret.
    - intros [body more]. by apply spec_ret. }
  destruct (rp_infeasible r); by apply spec_ret.
Qed.

Lemma execute_reply_spec ctx r m plan answer_turn exh st failed c d i :
  task_ok ctx0 told ctx -> (0 <= d)%Z -> exec_ok st d i ->
  spec (T c d i) (execute_reply env nenv ctx r m plan answer_turn exh st failed) (ran ctx).
Proof.
  intros Hok Hd Hex.
  assert (Hrd : spec (T c d i) (let* (ex, ctx', st') := review_and_dispatch env ctx plan answer_turn exh st PlanPolicy in
                                ret (ex, ctx', st', failed)) (ran ctx)).
  { eapply spec_bind; [by apply review_and_dispatch_spec|done|]. intros [[ex ctx'] st']. apply spec_ret.
    intros t (d' & i' & Ha & Hb & Hc & _). by exists c, d', i'. }
  unfold execute_reply. destruct (rp_call r) as [call|]; [|done]. destruct (bytes_eqb _ _); [|done]. by apply run_sift_spec.
Qed.

Lemma quiet_conclude ls r ex ctx st failed : quiet (conclude_execution env nenv ls r ex ctx st failed).
Proof.
  unfold conclude_execution. destruct ex as [f| |].
  - apply quiet_bind; [|intros _; apply quiet_ret]. destruct (terminal_entry _ r) as [[k p]|]; [|apply quiet_ret].
    apply quiet_bind; [apply quiet_effect|]. intros _. apply quiet_ret.
  - destruct (rp_call r); [|apply quiet_ret]. apply quiet_bind; [apply quiet_fallible|]. intros _. apply quiet_ret.
  - destruct (rp_call r); [|apply quiet_ret]. destruct (_ ≫= _) as [[v|code detail]|]; try apply quiet_ret.
    apply quiet_bind; [apply quiet_fallible|]. intros _. apply quiet_ret.
Qed.

(** Where the loop stands at the head of an iteration. *)
Definition nb_inv (ls : NbLoop) (t : list Event) : Prop :=
  exists c d i, T c d i t /\ exec_ok (nl_st ls) d i /\ task_ok ctx0 told (nl_ctx ls).

Definition acted (ls : NbLoop) (ctx : TaskContext) (r : result (InnerLoopResult + NbLoop) DbError) (t : list Event) : Prop :=
  match r with
  | Ok (inr ls') => nb_inv ls' t /\ same_task ctx (nl_ctx ls') /\ nl_answer_attempted ls' = nl_answer_attempted ls /\
                    nl_force_answer ls' = nl_force_answer ls
  | _ => OK t
  end.

Lemma act_on_reply_spec ls ctx n k r m answer_turn exh c d i :
  task_ok ctx0 told ctx -> (0 <= d)%Z -> exec_ok (nl_st ls) d i ->
  spec (T c d i) (act_on_reply env nenv ls ctx n k r m answer_turn exh) (acted ls ctx).
Proof.
  intros Hok Hd Hex. unfold act_on_reply.
  assert (Hfail : forall dt, spec (W := W) (T c d i) (ret (inl (finish_with env ctx (nl_st ls) (nl_failed ls) (Failed dt)))) (acted ls ctx)).
  { intros dt. apply spec_ret. intros t Ht. by apply T_weak in Ht. }
  eapply spec_bind; [apply quiet_write_tick|done|]. intros [n1|dt]; [|done].
  eapply spec_bind; [apply quiet_write_steps|done|]. intros [after|dt]; [|done].
  eapply spec_bind; [apply decide_reply_spec|done|]. intros dec. apply spec_pure. intros Hdec.
  destruct dec as [ctx' replan write|plan|]; [|..|done].
  - apply spec_ret. intros t Ht. split; [|split; [exact Hdec|done]]. exists c, d, i. split_and!; try done.
    by apply (task_ok_same _ _ ctx).
  - eapply spec_bind; [by apply execute_reply_spec|done|]. intros [[[ex ctx'] st'] failed'].
    apply spec_exists; intros c'. apply spec_exists; intros d'. apply spec_exists; intros i'. apply spec_pure. intros [Hex' Hs].
    eapply spec_bind; [apply quiet_conclude|done|]. intros [res|[last replan]]; apply spec_ret; intros t Ht.
    + by apply T_weak in Ht.
    + split; [|split; [exact Hs|done]]. exists c', d', i'. split_and!; try done. by apply (task_ok_same _ _ ctx).
Qed.

(** Iterations left. *)
Definition nb_measure (ls : NbLoop) : nat :=
  Z.to_nat (cx_max_plans (nl_ctx ls) - cx_plan_count (nl_ctx ls)) +
  (if nl_answer_attempted ls then 0 else 1) + (if nl_force_answer ls then 0 else 1).

Definition nb_post (ls : NbLoop) (r : result (InnerLoopResult + NbLoop) DbError) (t : list Event) : Prop :=
  match r with
  | Ok (inr ls') => nb_inv ls' t /\ nb_measure ls' < nb_measure ls
  | _ => OK t
  end.

Lemma task_ok_told ctx cs : task_ok ctx0 told ctx -> task_ok ctx0 told (with_instruction ctx (with_corrections base cs)).
Proof. intros (_ & E2 & E3 & E4). split_and!; [by exists cs|done..]. Qed.

Lemma nb_planning_spec ls answer_turn exh c d i :
  exec_ok (nl_st ls) d i -> task_ok ctx0 told (nl_ctx ls) -> (0 <= d)%Z ->
  (answer_turn = true -> nl_answer_attempted ls = false) ->
  (ex_gathered (nl_st ls) = true -> nl_answer_attempted ls = false -> answer_turn = false -> nl_force_answer ls = false) ->
  (answer_turn = false -> (cx_plan_count (nl_ctx ls) < cx_max_plans (nl_ctx ls))%Z) ->
  spec (T c d i) (nb_planning env nenv base ls answer_turn exh) (nb_post ls).
Proof.
  intros Hex Hok Hd Hsa Hforce Hlt. unfold nb_planning. apply spec_bind_fallible; [by intros e t [? _]|]. intros es.
  destruct (Notebook.fold _ es) as [n|e]; [|apply spec_ret; intros t Ht; by apply T_weak in Ht].
  set (ctx := with_instruction _ _). assert (task_ok ctx0 told ctx) as Hok' by (by apply task_ok_told).
  eapply spec_bind; [apply ask_spec|done|]. intros [asked failed].
  apply spec_exists; intros c'. apply spec_pure. intros [_ Ha]. destruct asked as [r m| |detail].
  - apply spec_bind_effect. intros _. set (ls1 := mkNbLoop _ _ _ _ _ _ _ _ _).
    eapply spec_weaken; [apply (act_on_reply_spec ls1 _ n _ r m answer_turn exh c' d i)|done|]; try done.
    intros [[res|ls']|e] t; try done. intros (Hinv & Hs & Eatt & Eforce). split; [done|].
    destruct Hs as (_ & _ & _ & Em & Ec & _). unfold nb_measure. rewrite Em, Ec, Eatt, Eforce. subst ls1 ctx. cbn.
    destruct answer_turn.
    + rewrite (Hsa eq_refl). cbn. destruct (nl_force_answer ls); lia.
    + specialize (Hlt eq_refl). rewrite orb_false_r. destruct (nl_answer_attempted ls), (nl_force_answer ls); lia.
  - destruct Ha as [Hg Hatt]. cbn [tg_gathered tg_answer_attempted] in *. apply orb_false_iff in Hatt as [Hatt Hans].
    apply spec_ret. intros t Ht. split; [by exists c', d, i|]. unfold nb_measure. subst ctx. cbn.
    rewrite Hatt, Hans, (Hforce Hg Hatt Hans). cbn. lia.
  - apply spec_ret. intros t Ht. by apply T_weak in Ht.
Qed.

Lemma nb_iteration_spec ls : spec (nb_inv ls) (nb_iteration env nenv base ls) (nb_post ls).
Proof.
  unfold nb_inv. apply spec_exists; intros c. apply spec_exists; intros d. apply spec_exists; intros i.
  apply spec_pure. intros [Hex Hok]. apply (spec_assume _ _ _ _ (InnerLoopSpec.T_nonneg env ctx0 told cap c d i)). intros Hnn.
  unfold nb_iteration. apply spec_bind_fallible; [by intros e t [? _]|]. intros state. destruct (bytes_eqb state _).
  { eapply spec_bind; [apply quiet_bind; [apply quiet_effect|intros _; apply quiet_ret]|done|]. intros [].
    apply spec_ret. intros t Ht. by apply T_weak in Ht. }
  apply spec_bind_effect. intros now. destruct (exhausted _ _ _ now) as [which|] eqn:Ex; cbn [is_some orb].
  - destruct (ex_gathered (nl_st ls)) eqn:Eg; [destruct (nl_answer_attempted ls) eqn:Ea|]; cbn [andb negb].
    + apply spec_ret. intros t Ht. by apply T_weak in Ht.
    + apply (nb_planning_spec ls true (Some which) c d i); done || lia.
    + apply spec_ret. intros t Ht. by apply T_weak in Ht.
  - assert (Hlt : (cx_plan_count (nl_ctx ls) < cx_max_plans (nl_ctx ls))%Z).
    { unfold exhausted in Ex. by destruct (Z.leb_spec (cx_max_plans (nl_ctx ls)) (cx_plan_count (nl_ctx ls))). }
    apply (nb_planning_spec ls _ None c d i); [done|done|lia| | |done].
    + intros Es. by apply andb_true_iff in Es as [_ ?%negb_true_iff].
    + intros -> ->. by destruct (nl_force_answer ls).
Qed.

Lemma nb_run_loop_spec fuel ls : nb_measure ls < fuel ->
  spec (nb_inv ls) (nb_run_loop env nenv base fuel ls) (fun r t => OK t /\ ended r).
Proof.
  revert ls. induction fuel as [|fuel IH]; intros ls Hm; [lia|]. cbn [nb_run_loop].
  eapply spec_bind; [apply nb_iteration_spec|by intros e t Ht|]. intros [res|ls']; [apply spec_ret; intros t Ht; by split|].
  apply (spec_pure (nb_inv ls')). intros Hlt. apply IH. lia.
Qed.
End Trace.

(** * The notebook *)

(** The detail of a failure that is not the notebook's own. *)
Definition NOTEBOOK_FAULT : bytes := bs "the task notebook ".
Definition sound_outcome (o : Outcome) : Prop := match o with Failed d => starts_with NOTEBOOK_FAULT d = false | _ => True end.

Section Store.
Context `{UnicodeStr} `{UnicodeChar} `{CharClass} `{Sha256} `{SerdeJson} {W : Type} (env : Env W) (nenv : NbEnv W).

(** The task's entries in a world. *)
Variables (task : Z) (rows : W -> list Entry).

Abbreviation fve := (nv_from_value_error nenv).

Definition corrections_only (cs : list Entry) : Prop := Forall (fun e => exists text, stored (EvCorrection text) e) cs.

(** Between two worlds only the operator wrote to the notebook. *)
Definition extends (w w' : W) : Prop := exists cs, corrections_only cs /\ rows w' = rows w ++ cs.

Definition closed (I : W -> Prop) : Prop := forall w w', I w -> extends w w' -> I w'.

(** What the loop relies on: a read returns the rows, an append adds the one
    NUL-escaped row, and no other effect writes to the notebook, though the
    operator may at any time. *)
Record nb_store : Prop := {
  ns_entries : forall w, match nv_entries nenv w with
    | (Ok es, w') => exists cs cs', corrections_only cs /\ corrections_only cs' /\ es = rows w ++ cs /\ rows w' = es ++ cs'
    | (Err _, w') => extends w w'
    end;
  ns_append : forall k v w, match nv_append nenv k v w with
    | (Ok q, w') => exists cs cs', corrections_only cs /\ corrections_only cs' /\
        rows w' = rows w ++ cs ++ mkEntry task q k (nul_free v) :: cs'
    | (Err _, w') => extends w w'
    end;
  ns_turn : forall ctx msg prior th w, extends w (nv_turn nenv ctx msg prior th w).2;
  ns_env : forall I, closed I -> env_keeps env I I;
  ns_sift : forall I, closed I -> sift_keeps (nv_sift_env nenv) I }.

Hypothesis Hst : nb_store.

(** The notebook in the world folds to a state with the steps of [m]. *)
Definition holds (m : NotebookState) (w : W) : Prop := exists n, Notebook.fold fve (rows w) = Ok n /\ alike m n.

Definition open_notebook (w : W) : Prop := exists n, Notebook.fold fve (rows w) = Ok n /\ nb_terminal n = false.

Definition foldable (w : W) : Prop := exists n, Notebook.fold fve (rows w) = Ok n.

Lemma alike_sym n m : alike n m -> alike m n.
Proof.
  intros [Ha Hb]. split; [|done]. clear Hb. induction Ha as [|x y xs ys [Hx Hy] _ IH]; constructor; [|done]. by split.
Qed.

Lemma same_step_trans a b c : same_step a b -> same_step b c -> same_step a c.
Proof. unfold same_step. intros [] []. split; congruence. Qed.

Lemma alike_trans n m p : alike n m -> alike m p -> alike n p.
Proof.
  intros [Hx3 Hx4] [Hx5 Hx6]. split; [|congruence]. clear Hx4 Hx6. revert Hx5. generalize (nb_steps p).
  induction Hx3 as [|x y xs ys Hxy _ IH]; intros l Hl; inversion Hl; subst; constructor; [by eapply same_step_trans|by apply IH].
Qed.

Lemma fold_corrections n cs : corrections_only cs -> exists m, fold_from fve n cs = Ok m /\ alike n m.
Proof.
  intros Hcs. assert (exists texts, Forall2 stored (map EvCorrection texts) cs) as [texts Ht].
  { induction Hcs as [|e cs [text He] _ [texts IH]]; [by exists []|]. exists (text :: texts). by constructor. }
  apply (fold_shuffled fve n [] n (map EvCorrection texts) (map EvCorrection texts) cs (applies_nil n)); [|..|done|apply alike_refl].
  - clear Ht. induction texts; by constructor.
  - apply List.Forall_map, Forall_true. done.
Qed.

Lemma fold_more es n cs : Notebook.fold fve es = Ok n -> corrections_only cs ->
  exists m, Notebook.fold fve (es ++ cs) = Ok m /\ alike n m.
Proof.
  intros Hf Hcs. destruct (fold_corrections n cs Hcs) as (m & Hm & Ha). exists m. split; [|done].
  unfold Notebook.fold in *. by rewrite fold_from_app, Hf.
Qed.

Lemma holds_closed m : closed (holds m).
Proof.
  intros w w' (n & Hn & Ha) (cs & Hcs & Hr). destruct (fold_more _ n cs Hn Hcs) as (n' & Hn' & Ha').
  exists n'. rewrite Hr. split; [done|by eapply alike_trans].
Qed.

Lemma holds_foldable m w : holds m w -> foldable w.
Proof. intros (n & Hn & _). by exists n. Qed.

Lemma holds_open m w : nb_terminal m = false -> holds m w -> open_notebook w.
Proof. intros Ht (n & Hn & [_ Ha]). exists n. split; [done|congruence]. Qed.

(** A row the loop appends moves the notebook as it moves the copy in memory. *)
Lemma append_holds m ev m' q0 : event_wf ev -> nb_terminal m = false -> apply_event m q0 ev = Ok m' ->
  forall w, holds m w -> match nv_append nenv (event_row ev).1 (event_row ev).2 w with
                         | (Ok _, w') => holds m' w'
                         | (Err _, w') => holds m w'
                         end.
Proof.
  intros Hwf Ht Hev w Hw. pose proof (ns_append Hst (event_row ev).1 (event_row ev).2 w) as Ha.
  destruct (nv_append nenv _ _ w) as [[q|e] w']; [|by apply (holds_closed m w w')].
  destruct Ha as (cs & cs' & Hx3 & Hx4 & Hr). destruct Hw as (n & Hn & Hal).
  destruct (fold_more _ n cs Hn Hx3) as (n1 & Hn1 & Ha1). set (e := mkEntry task q _ _) in *.
  assert (alike m n1) as Hm1 by (by eapply alike_trans).
  destruct (apply_event_alike m n1 ev (clean_event ev) q0 q m' Hm1 (clean_event_alike ev) Hev) as (n2 & Hn2 & Ha2).
  assert (Notebook.fold fve ((rows w ++ cs) ++ [e]) = Ok (at_seq n2 q)) as Hn3.
  { unfold Notebook.fold in *. rewrite fold_from_app, Hn1. cbn [fold_from].
    rewrite (fold_stored fve n1 e ev); [|by split_and!|rewrite <- (proj2 Hm1), Ht; done]. cbn [e en_seq]. by rewrite Hn2. }
  destruct (fold_more _ _ cs' Hn3 Hx4) as (n4 & Hn4 & Ha4). exists n4. rewrite Hr.
  replace (rows w ++ cs ++ e :: cs') with (((rows w ++ cs) ++ [e]) ++ cs') by (by rewrite <- !app_assoc).
  split; [done|]. eapply alike_trans; [exact Ha2|exact Ha4].
Qed.

(** ** Facts of results alone *)

Lemma nb_failure_detail_sound ctx reasked e : starts_with NOTEBOOK_FAULT (nb_failure_detail ctx reasked e) = false.
Proof.
  unfold nb_failure_detail. destruct (reasked && _); [reflexivity|]. destruct (is_request_timeout e).
  { unfold timeout_failure_detail. destruct (gw_calls _ =? 0); reflexivity. }
  destruct (ran_out_of_tokens e); [reflexivity|]. destruct e; try reflexivity. unfold decode_failure_detail.
  destruct (is_blank _); reflexivity.
Qed.

Definition asked_sound (k : TurnKind) (n : NotebookState) (r : result (Asked * Z) DbError) : Prop :=
  match r with
  | Ok (AskedReply reply _, _) => accepted k n reply
  | Ok (AskedFailed d, _) => starts_with NOTEBOOK_FAULT d = false
  | _ => True
  end.

Lemma conclude_ask_sound ctx g n failed retried reasked r : checked_ok (tg_kind g) n r ->
  rspec (conclude_ask env ctx g failed retried reasked r) (asked_sound (tg_kind g) n).
Proof.
  intros Hr. destruct r as [[[reply meta] raw]|e]; unfold conclude_ask; [by apply rspec_ret|].
  apply rspec_then; [done|]. intros f. destruct (should_force_synthesis _ _ _); apply rspec_ret; [done|].
  apply nb_failure_detail_sound.
Qed.

Lemma ask_sound ctx n msg g failed : rspec (ask env nenv ctx n msg g failed) (asked_sound (tg_kind g) n).
Proof.
  unfold ask. apply rspec_then; [done|]. intros sent.
  eapply (rspec_bind _ _ (fun r => match r with Ok (x, _, _) => checked_ok (tg_kind g) n x | Err _ => True end)); [|done|].
  - pose proof (nb_check_ok (tg_kind g) n sent) as Hc. unfold ask_for_table.
    destruct (shows_back_a_missing_table _ _), (nb_check (tg_kind g) n sent) as [[[reply meta] raw]|e]; try by apply rspec_ret.
    destruct (table_left_out reply ctx); [by apply rspec_ret|]. apply rspec_then; [done|]. intros again.
    pose proof (nb_check_ok (tg_kind g) n again) as Hn. destruct (nb_check (tg_kind g) n again) as [[[r' m'] raw']|e']; [by apply rspec_ret|].
    apply rspec_then; [done|]. intros f. by apply rspec_ret.
  - intros [[first retried] f1] Hf. destruct first as [x|e]; [by apply conclude_ask_sound|].
    destruct (is_empty_completion e); [|destruct (non_plan_answer e)].
    + do 2 (apply rspec_then; [done|]; intros ?). apply conclude_ask_sound, nb_check_ok.
    + do 2 (apply rspec_then; [done|]; intros ?). apply conclude_ask_sound, nb_check_ok.
    + by apply conclude_ask_sound.
Qed.

Definition executed_sound (r : result (Executed * TaskContext * ExecState) DbError) : Prop :=
  match r with Ok (ExFinished f, _, _) => sound_outcome (fi_outcome f) | _ => True end.

Lemma exhausted_detail_sound which n b : starts_with NOTEBOOK_FAULT (exhausted_detail which n b) = false.
Proof. unfold exhausted_detail. destruct which, b; reflexivity. Qed.

Lemma proceed_sound ctx p invoke synth exh st policy : rspec (proceed env ctx p invoke synth exh st policy) executed_sound.
Proof.
  unfold proceed. destruct (pl_refused p); [by apply rspec_ret|]. destruct (is_terminal p); [by apply rspec_ret|].
  destruct synth.
  { destruct exh; apply rspec_ret; [apply exhausted_detail_sound|reflexivity]. }
  unfold execute_steps. destruct (_ <? _)%nat; [by apply rspec_ret|]. apply rspec_then; [done|]. intros [[os|] st1]; [|by apply rspec_ret].
  do 3 (apply rspec_then; [done|]; intros ?). by apply rspec_ret.
Qed.

Lemma review_and_dispatch_sound ctx p synth exh st policy :
  rspec (review_and_dispatch env ctx p synth exh st policy) executed_sound.
Proof.
  assert (Hrp : forall ctx p invoke st, rspec (review_phase env ctx p invoke synth exh st policy) executed_sound).
  { intros c q invoke s. unfold review_phase. do 2 (apply rspec_then; [done|]; intros ?).
    destruct (stage_review _ _ _); try apply proceed_sound; try by apply rspec_ret.
    - destruct (is_refused _); [apply proceed_sound|]. destruct (approval_for _ _).
      + apply rspec_then; [done|]. intros _. apply proceed_sound.
      + apply rspec_then; [done|]. intros [ask|e]; [|by apply rspec_ret]. apply rspec_then; [done|]. intros _. by apply rspec_ret.
    - destruct (is_refused _); [apply proceed_sound|by apply rspec_ret]. }
  unfold review_and_dispatch. apply rspec_then; [done|]. intros _. destruct (pl_invoke_skill _); [|apply Hrp].
  apply rspec_then; [done|]. intros [reasons|steps m n]; [by apply rspec_ret|]. apply Hrp.
Qed.

Definition sift_sound (r : result (Executed * TaskContext * ExecState * Z) DbError) : Prop :=
  match r with Ok (ExFinished f, _, _, _) => sound_outcome (fi_outcome f) | _ => True end.

Lemma run_sift_sound senv ctx call m st failed : rspec (run_sift env senv ctx call m st failed) sift_sound.
Proof.
  assert (Hrec : forall ctx p sorter now over class scrap items batch started st os tools,
    rspec (sort_and_record env senv ctx call p sorter now over class scrap items batch started st failed os tools) sift_sound).
  { intros. unfold sort_and_record. do 2 (apply rspec_then; [done|]; intros ?). destruct (summary _ _ _ _ _ _ _).
    do 4 (apply rspec_then; [done|]; intros ?). destruct (bool_decide _); [by apply rspec_ret|].
    apply rspec_then; [done|]. intros ?. by apply rspec_ret. }
  unfold run_sift. do 3 (apply rspec_then; [done|]; intros ?). destruct a1 as [[[p sorter] over]|why].
  - apply rspec_then; [done|]. intros _. destruct (bool_decide _); [apply Hrec|].
    eapply rspec_bind; [apply review_and_dispatch_sound|done|]. intros [[ex ctx1] st1] Hex. destruct ex as [f| |].
    + do 2 (apply rspec_then; [done|]; intros ?). by apply rspec_ret.
    + do 2 (apply rspec_then; [done|]; intros ?). by apply rspec_ret.
    + destruct (match list.last _ with Some _ => _ | None => _ end). apply Hrec.
  - apply rspec_then; [done|]. intros _. by apply rspec_ret.
Qed.

(** ** The loop keeps the notebook *)

Section Kept.
Variables (I : W -> Prop) (HI : closed I).

Lemma nb_turn_keeps ctx msg prior th : keeps I (nb_turn nenv ctx msg prior th).
Proof.
  unfold nb_turn. apply keeps_bind; [apply keeps_emit|]. intros _. apply keeps_effect. intros w Hw.
  eapply HI; [exact Hw|]. apply (ns_turn Hst).
Qed.

Lemma record_keeps ctx g failed e b : keeps I (record env ctx g failed e b).
Proof. unfold record. apply keeps_bind; [by apply (record_failed_keeps env I I), (ns_env Hst)|intros _; apply keeps_ret]. Qed.

Lemma conclude_ask_keeps ctx g failed a b r : keeps I (conclude_ask env ctx g failed a b r).
Proof.
  unfold conclude_ask. destruct r as [[[reply meta] raw]|e]; [apply keeps_ret|].
  apply keeps_bind; [apply record_keeps|]. intros f. destruct (should_force_synthesis _ _ _); apply keeps_ret.
Qed.

Lemma ask_keeps ctx n msg g failed : keeps I (ask env nenv ctx n msg g failed).
Proof.
  pose proof record_keeps. pose proof nb_turn_keeps. pose proof conclude_ask_keeps. unfold ask.
  apply keeps_bind; [auto|]. intros sent. apply keeps_bind.
  - unfold ask_for_table. destruct (shows_back_a_missing_table _ _), (nb_check _ _ _) as [[[]]|]; try apply keeps_ret.
    destruct (table_left_out _ _); [apply keeps_ret|]. apply keeps_bind; [auto|]. intros again.
    destruct (nb_check _ _ again); [apply keeps_ret|]. apply keeps_bind; [auto|]. intros ?. apply keeps_ret.
  - intros [[first retried] f1]. destruct first as [x|e]; [auto|].
    destruct (is_empty_completion e); [|destruct (non_plan_answer e)]; auto;
      apply keeps_bind; auto; intros ?; apply keeps_bind; auto.
Qed.

Lemma decide_reply_keeps ctx k r m after : keeps I (decide_reply env nenv ctx k r m after).
Proof.
  pose proof (ns_env Hst I HI) as Hk. pose proof (ek_audit _ _ _ Hk) as Ha.
  unfold decide_reply, audit_discarded_turn, row_best_effort. destruct (is_some _ && _); [keep|]. destruct (rp_call r) as [call|].
  { apply keeps_bind; [by apply keeps_effect|]. intros [s|]; keep. }
  destruct (rp_answer r) as [a|]; [|destruct (rp_infeasible r); apply keeps_ret]. apply keeps_bind; [|intros []; apply keeps_ret].
  unfold answer_body. destruct (match _ with Some t => Some t | None => as_table a end); [|apply keeps_ret].
  apply keeps_bind; [|intros []; apply keeps_ret]. by apply with_table_keeps, (ns_sift Hst).
Qed.

Lemma execute_reply_keeps ctx r m plan answer_turn exh st failed :
  wspec I (execute_reply env nenv ctx r m plan answer_turn exh st failed)
    (fun x w => I w /\ match x with Ok (ExFinished f, _, _, _) => sound_outcome (fi_outcome f) | _ => True end).
Proof.
  pose proof (ns_env Hst I HI) as Hk.
  assert (Hrd : wspec I (let* (ex, ctx', st') := review_and_dispatch env ctx plan answer_turn exh st PlanPolicy in
                         ret (ex, ctx', st', failed))
    (fun x w => I w /\ match x with Ok (ExFinished f, _, _, _) => sound_outcome (fi_outcome f) | _ => True end)).
  { eapply wspec_bind_post.
    - apply wspec_result; [apply review_and_dispatch_sound|by apply (review_and_dispatch_world env I I)].
    - intros e w [Hw _]. by split.
    - intros [[ex ctx'] st']. apply wspec_ret. intros w [Hw Hs]. split; [|by destruct ex].
      cbn in Hw. destruct ex as [f| |]; try exact Hw. unfold outcome_world in Hw. by destruct (fi_outcome f). }
  unfold execute_reply. destruct (rp_call r) as [call|]; [|done]. destruct (bytes_eqb _ _); [|done].
  eapply wspec_weaken; [apply wspec_result; [apply run_sift_sound|by apply run_sift_keeps, (ns_sift Hst)]|].
  intros [[[[ex c] s] f]|e] w1; done.
Qed.
End Kept.

Lemma sink_rows_holds m l : keeps (holds m) (sink_rows env l).
Proof. apply (sink_rows_keeps env (holds m) (holds m)), (ns_env Hst), holds_closed. Qed.

(** Append a row and go on. *)
Lemma wspec_append {B} m ev m' q0 (k : Z -> prog W Event DbError B) Q :
  event_wf ev -> nb_terminal m = false -> apply_event m q0 ev = Ok m' ->
  (forall e w, holds m w -> Q (Err e) w) -> (forall q, wspec (holds m') (k q) Q) ->
  wspec (holds m) (let* q := fallible (nv_append nenv (event_row ev).1 (event_row ev).2) in k q) Q.
Proof.
  intros Hwf Ht Hev He Hk w t Hw. unfold bind, fallible. pose proof (append_holds m ev m' q0 Hwf Ht Hev w Hw) as Ha.
  destruct (nv_append nenv _ _ w) as [[q|e] w']; [by apply Hk|by apply He].
Qed.

(** The same, when losing the row is not an error. *)
Lemma append_terminal_foldable m ev m' q0 : event_wf ev -> nb_terminal m = false -> apply_event m q0 ev = Ok m' ->
  wspec (holds m) (append_terminal nenv (event_row ev).1 (event_row ev).2) (fun _ w => foldable w).
Proof.
  intros Hwf Ht Hev w t Hw. unfold append_terminal, bind, effect. pose proof (append_holds m ev m' q0 Hwf Ht Hev w Hw) as Ha.
  destruct (nv_append nenv _ _ w) as [[q|e] w']; by eapply holds_foldable.
Qed.

Definition wrote (m : NotebookState) (x : result (result NotebookState bytes) DbError) (w : W) : Prop :=
  match x with Ok (Ok n) => n = m /\ holds m w | Ok (Err _) => False | Err _ => foldable w end.

Lemma write_tick_holds ctx r c n ticked : reply_wf r -> nb_terminal n = false -> apply_reply_tick r c n = Ok ticked ->
  wspec (holds n) (write_tick env nenv ctx r c n) (wrote ticked).
Proof.
  intros (Hr & _) Ht Ha. unfold write_tick. unfold apply_reply_tick, tick_payload in *. destruct (rp_tick r) as [tk|]; cbn [mbind option_bind] in *.
  - apply wspec_bind; [apply sink_rows_holds|intros e w Hw; by apply holds_foldable in Hw|]. intros _.
    match type of Ha with apply_tick n ?p = _ =>
      apply (wspec_append n (EvTick p) ticked 0%Z); [by apply Hr|done|exact Ha|intros e w Hw; by apply holds_foldable in Hw|] end.
    intros q. rewrite Ha. by apply wspec_ret.
  - injection Ha as <-. by apply wspec_ret.
Qed.

Lemma write_steps_holds ctx r before n after : reply_wf r -> nb_terminal n = false -> apply_reply_steps r n = Ok after ->
  wspec (holds n) (write_steps env nenv ctx r before n) (wrote after).
Proof.
  intros (_ & Hr & _) Ht Ha. unfold write_steps, apply_reply_steps in *. destruct (rp_steps r) as [steps|].
  - apply wspec_bind; [apply sink_rows_holds|intros e w Hw; by apply holds_foldable in Hw|]. intros _.
    apply (wspec_append n (EvSteps steps) after 0%Z); [by apply Hr|done|exact Ha|intros e w Hw; by apply holds_foldable in Hw|].
    intros q. rewrite Ha. by apply wspec_ret.
  - injection Ha as <-. by apply wspec_ret.
Qed.

(** Where the world stands after a pass: the notebook folds, and is open if the run goes on. *)
Definition passed {A} (x : result (InnerLoopResult + A) DbError) (w : W) : Prop :=
  match x with
  | Ok (inl res) => foldable w /\ sound_outcome (ir_outcome res)
  | Ok (inr _) => open_notebook w
  | Err _ => foldable w
  end.

Lemma terminal_entry_event o r k v : terminal_entry o r = Some (k, v) ->
  exists ev, event_row ev = (k, v) /\ event_wf ev /\ forall n q, apply_event n q ev = Ok (end_notebook n).
Proof.
  assert (Ha : forall body, exists ev, event_row ev = (EkAnswer, answer_payload_value body) /\ event_wf ev /\
                 forall n q, apply_event n q ev = Ok (end_notebook n)) by (intros body; by exists (EvAnswer body)).
  assert (Hi : forall reason, exists ev, event_row ev = (EkInfeasible, infeasible_payload_value reason) /\ event_wf ev /\
                 forall n q, apply_event n q ev = Ok (end_notebook n)) by (intros reason; by exists (EvInfeasible reason)).
  unfold terminal_entry. destruct o; try done; try (destruct (rp_answer r); [intros [= <- <-]; apply Ha|];
    destruct (rp_infeasible r); [intros [= <- <-]; apply Hi|done]).
  intros [= <- <-]. by exists EvCancelled.
Qed.

Lemma conclude_world ls r ex ctx st failed after :
  reply_wf r -> nb_terminal after = false -> NoDup (step_ids after) -> check_call r after = Ok () ->
  match ex with ExFinished f => sound_outcome (fi_outcome f) | _ => True end ->
  wspec (holds after) (conclude_execution env nenv ls r ex ctx st failed) passed.
Proof.
  intros Hwf Ht Hnd Hc Hs. unfold conclude_execution.
  assert (Hgo : forall x, wspec (holds after) (ret (inr x) : prog W Event DbError (InnerLoopResult + option LastCall * bool)) passed).
  { intros x. apply wspec_ret. intros w Hw. by apply (holds_open after). }
  assert (Hfail : forall call p x, rp_call r = Some call -> fp_step p = cs_step call ->
    wspec (holds after) (fallible (nv_append nenv EkFailedStep (failed_payload_value p));;;
                         (ret (inr x) : prog W Event DbError (InnerLoopResult + option LastCall * bool))) passed).
  { intros call p x Hr Hp. destruct (check_call_pending r after call Hc Hr) as (s & Hx3 & Hx4 & Hx5).
    destruct (fail_pending after s p Hnd Hx3 ltac:(congruence) Hx5) as [after' Hf].
    assert (u32 (fp_step p)) as Hu by (rewrite Hp; by apply Hwf).
    apply (wspec_append after (EvFailedStep p) after' 0%Z); [done|done|exact Hf|intros e w Hw; by apply holds_foldable in Hw|].
    intros q. apply wspec_ret. intros w Hw. apply (holds_open after'); [|done].
    unfold fail_step in Hf. destruct (step_mut after (fp_step p) false); [|done]. by injection Hf as <-. }
  destruct ex as [f| |].
  - eapply (wspec_bind_post _ _ _ (fun _ w => foldable w)); [|done|].
    + destruct (terminal_entry (fi_outcome f) r) as [[k v]|] eqn:E.
      * destruct (terminal_entry_event _ _ _ _ E) as (ev & Hev & Hw & Ha). pose proof (append_terminal_foldable after ev _ 0%Z Hw Ht (Ha after 0%Z)) as Hap.
        by rewrite Hev in Hap.
      * apply wspec_ret. intros w Hw. by apply holds_foldable in Hw.
    + intros []. apply wspec_ret. intros w Hw. by split.
  - destruct (rp_call r) as [call|] eqn:Er; [|apply Hgo]. by apply (Hfail call).
  - destruct (rp_call r) as [call|] eqn:Er; [|apply Hgo].
    destruct (_ ≫= _) as [[v|code detail]|]; try apply Hgo. by apply (Hfail call).
Qed.

Lemma validate_one_end r n : validate r n = Ok () -> rp_call r = None -> rp_answer r = None -> rp_infeasible r = None -> False.
Proof. unfold validate. intros Hv E1 E2 E3. by rewrite E1, E2, E3 in Hv. Qed.

Lemma decide_reply_end ctx k r m after n : validate r n = Ok () ->
  rspec (decide_reply env nenv ctx k r m after) (fun x => match x with Ok NoEnd => False | _ => True end).
Proof.
  intros Hv. unfold decide_reply. destruct (is_some _ && _); [apply rspec_then; [done|]; intros _; by apply rspec_ret|].
  destruct (rp_call r) as [call|] eqn:E1.
  { apply rspec_then; [done|]. intros [s|]; [|by apply rspec_ret]. apply rspec_then; [done|]. intros _. by apply rspec_ret. }
  destruct (rp_answer r) as [a|] eqn:E2; [apply rspec_then; [done|]; intros []; by apply rspec_ret|].
  destruct (rp_infeasible r) as [s|] eqn:E3; [by apply rspec_ret|]. destruct (validate_one_end r n Hv E1 E2 E3).
Qed.

Lemma act_on_reply_world ls ctx n k r m answer_turn exh :
  notebook_wf n -> nb_terminal n = false -> accepted k n r ->
  wspec (holds n) (act_on_reply env nenv ls ctx n k r m answer_turn exh) passed.
Proof.
  intros Hn Ht [raw Hraw]. destruct (check_reply_Ok k n raw r Hn Hraw) as [Hwf Hv].
  destruct (validated_applies r n (reply_class ls ctx r) Hv Ht) as (ticked & after & E1 & E2 & E3 & _ & E5).
  pose proof (applied_wf r n _ ticked after Hn Hwf E1 E2) as Hwf'.
  assert (nb_terminal ticked = false) as Ht1.
  { unfold apply_reply_tick in E1. destruct (tick_payload r _) as [p|]; [by rewrite (apply_tick_terminal n p ticked E1)|by injection E1 as <-]. }
  unfold act_on_reply. eapply wspec_bind_post; [by apply write_tick_holds|done|].
  intros [n1|d]; [|by intros w t Hf]. eapply (wspec_pre _ (fun w => n1 = ticked /\ holds ticked w)); [done|].
  intros w t [-> Hw]. revert w t Hw. eapply wspec_bind_post; [by apply write_steps_holds|done|].
  intros [n2|d]; [|by intros w t Hf]. intros w t [-> Hw]. revert w t Hw.
  eapply wspec_bind_post; [apply wspec_result; [by apply (decide_reply_end _ _ _ _ _ n)|apply (decide_reply_keeps (holds after)), holds_closed]| |].
  { intros e w [Hw _]. by apply holds_foldable in Hw. }
  intros dec w t [Hw Hdec]. revert w t Hw. destruct dec as [ctx' replan write|plan|]; [| |done].
  - apply wspec_ret. intros w Hw. by apply (holds_open after).
  - eapply wspec_bind_post; [apply (execute_reply_keeps (holds after)), holds_closed| |].
    { intros e w [Hw _]. by apply holds_foldable in Hw. }
    intros [[[ex ctx'] st'] failed'] w t [Hw Hs]. revert w t Hw.
    eapply wspec_bind_post; [apply (conclude_world ls r ex ctx' st' failed' after); try done; apply Hwf'|done|].
    intros [res|[last replan]]; by apply wspec_ret.
Qed.

Lemma nb_planning_world base ls answer_turn exh : wspec open_notebook (nb_planning env nenv base ls answer_turn exh) passed.
Proof.
  unfold nb_planning. intros w t (n0 & Hn0 & Ht0). unfold bind at 1, fallible at 1. pose proof (ns_entries Hst w) as He.
  destruct (nv_entries nenv w) as [[es|e] w'].
  2: { destruct He as (cs & Hcs & Hr). destruct (fold_more _ n0 cs Hn0 Hcs) as (m & Hm & _). exists m. by rewrite Hr. }
  destruct He as (cs & cs' & Hcs & Hcs' & -> & Hr). destruct (fold_more _ n0 cs Hn0 Hcs) as (n & Hn & Hal). rewrite Hn.
  assert (nb_terminal n = false) as Ht by (by rewrite <- (proj2 Hal)).
  assert (holds n w') as Hw'.
  { destruct (fold_more _ n cs' Hn Hcs') as (m & Hm & Ha). exists m. by rewrite Hr. }
  clear Hr Hcs' cs'. revert w' t Hw'. eapply wspec_bind_post; [apply wspec_result; [apply ask_sound|apply (ask_keeps (holds n)), holds_closed]| |].
  { intros e w' [Hw _]. by apply holds_foldable in Hw. }
  intros [asked failed] w' t [Hw Hs]. revert w' t Hw. destruct asked as [r m| |d]; cbn [asked_sound tg_kind] in Hs.
  - apply wspec_bind; [apply keeps_effect; intros w' Hw; by apply (ek_count _ _ _ (ns_env Hst (holds n) (holds_closed n)))|
                       intros e w' Hw; by apply holds_foldable in Hw|]. intros _.
    apply act_on_reply_world; [by apply (fold_wf fve (rows w ++ cs))|done|done].
  - apply wspec_ret. intros w' Hw. by apply (holds_open n).
  - apply wspec_ret. intros w' Hw. split; [by apply holds_foldable in Hw|done].
Qed.

Lemma open_closed : closed open_notebook.
Proof.
  intros w w' (n & Hn & Ht) He. apply (holds_open n); [done|]. apply (holds_closed n w); [|done]. exists n. split; [done|apply alike_refl].
Qed.

Lemma open_foldable w : open_notebook w -> foldable w.
Proof. intros (n & Hn & _). by exists n. Qed.

Lemma nb_iteration_world base ls : wspec open_notebook (nb_iteration env nenv base ls) passed.
Proof.
  pose proof (ns_env Hst open_notebook open_closed) as Hk. unfold nb_iteration.
  apply wspec_bind; [apply keeps_fallible, (ek_observe _ _ _ Hk)|intros e w Hw; by apply open_foldable|]. intros state.
  destruct (bytes_eqb state _).
  { intros w t (n & Hn & Ht). assert (holds n w) as Hw by (exists n; split; [done|apply alike_refl]).
    pose proof (append_terminal_foldable n EvCancelled _ 0%Z Logic.I Ht eq_refl w t Hw) as Ha. unfold bind at 1.
    change (append_terminal nenv EkCancelled (Object [])) with (append_terminal nenv (event_row EvCancelled).1 (event_row EvCancelled).2).
    destruct (append_terminal nenv _ _ w t) as [[[[]|e] w'] t']; [|exact Ha]. split; [exact Ha|done]. }
  apply wspec_bind; [apply keeps_effect, (ek_now _ _ _ Hk)|intros e w Hw; by apply open_foldable|]. intros now.
  destruct (exhausted _ _ _ now) as [which|]; [|apply nb_planning_world]. destruct (_ && _); [apply nb_planning_world|].
  apply wspec_ret. intros w Hw. split; [by apply open_foldable|apply exhausted_detail_sound].
Qed.

Lemma nb_run_loop_world base fuel ls :
  wspec open_notebook (nb_run_loop env nenv base fuel ls)
    (fun r w => foldable w /\ match r with Ok (Some res) => sound_outcome (ir_outcome res) | _ => True end).
Proof.
  revert ls. induction fuel as [|fuel IH]; intros ls; cbn [nb_run_loop].
  { apply wspec_ret. intros w Hw. split; [by apply open_foldable|done]. }
  eapply wspec_bind_post; [apply nb_iteration_world|by intros e w Hw|]. intros [res|ls']; [|apply IH].
  apply wspec_ret. by intros w [Hw Hs].
Qed.
End Store.

(** * Theorems *)

Section Theorems.
Context `{UnicodeStr} `{UnicodeChar} `{CharClass} `{Sha256} `{SerdeJson} {W : Type} (env : Env W) (nenv : NbEnv W).
Variable ctx0 : TaskContext.

(** The most steps of a plan, a sift's reads included. *)
Definition steps_cap : nat := MAX_STEPS_PER_PLAN `max` Z.to_nat (sc_max_reads (sv_config (nv_sift_env nenv))).

(** The context the loop works in: the task's, with the turns its cap gives it. *)
Definition capped : TaskContext := with_max_plans ctx0 (turn_cap (cx_plan_count ctx0) (cx_max_plans ctx0)).

Lemma run_notebook_spec w r w' t : run_notebook_to_terminal env nenv ctx0 w [] = (r, w', t) ->
  trace_ok (e_to_vec env) (e_review env) capped (told_with (cx_instruction ctx0)) steps_cap t /\ ended r.
Proof.
  intros E. pose proof (nb_run_loop_spec env nenv capped (cx_instruction ctx0) steps_cap (Nat.le_max_l _ _) (Nat.le_max_r _ _)
    (nb_fuel ctx0) (nb_init ctx0)) as Hs.
  specialize (Hs ltac:(unfold nb_measure, nb_fuel, nb_init; cbn; lia) w []). unfold run_notebook_to_terminal in E. rewrite E in Hs. refine (Hs _).
  exists 0%Z, 0%Z, 0%Z. split; [done|]. split; [done|]. split; [by exists []|done].
Qed.

(** C2. Nothing the notebook loop runs goes unreviewed: each step it dispatches, a
    sift's reads included, belongs to the plan most recently reviewed, whose review
    was under the task's own instruction with the operator's corrections appended
    and a floor at least as high as the task's, with a verdict of [Approve] or
    [Advisory], or [Escalate] with an operator's approval of exactly this plan;
    the plan is no refusal, has a ceiling, and has no more steps than the plan's or
    the sift's cap. *)
Theorem notebook_dispatches_were_reviewed w r w' t1 task s t2 :
  run_notebook_to_terminal env nenv ctx0 w [] = (r, w', t1 ++ EvDispatch task s :: t2) ->
  exists p rc v cs, last_review t2 = Some (p, rc, v) /\ s ∈ pl_steps p /\
    v = stage_review (e_review env) p rc /\ permits (e_to_vec env) ctx0 p v /\
    pl_refused p = None /\ is_Some (pl_data_ceiling p) /\ length (pl_steps p) <= steps_cap /\
    rx_instruction rc = with_corrections (cx_instruction ctx0) cs /\
    (rank (cx_floor ctx0) <= rank (rx_classification_floor rc))%Z.
Proof.
  intros [E _]%run_notebook_spec. apply trace_ok_app in E as [(p & rc & v & Hl & Hs & Hr & Hn & Hp) Ht].
  destruct (last_review_ok _ _ _ _ _ _ _ _ _ Ht Hl) as (Hv & [cs Hi] & Hf & Hc).
  exists p, rc, v, cs. by split_and!.
Qed.

(** C19. The notebook loop ends: with as many iterations as it has turns left, and
    three, a run reaches a result or a database error whatever the model, the
    sorter, the workers and the database do; a forced answer, a reply set aside and
    a sift that stops included. *)
Theorem notebook_run_terminates w : ended (run_notebook_to_terminal env nenv ctx0 w []).1.1.
Proof.
  destruct (run_notebook_to_terminal env nenv ctx0 w []) as [[r w'] t] eqn:E. by apply run_notebook_spec in E as [_ ?].
Qed.

(** C9. The notebook never breaks: from an open notebook that folds, and with the
    operator free to append corrections at any moment, every row the loop writes
    folds again, so that a later run, or the operator's view, can always rebuild the
    state, and the task never fails with a fault of its own notebook. *)
Theorem notebook_stays_foldable task rows w t r w' t' :
  nb_store env nenv task rows -> open_notebook nenv rows w ->
  run_notebook_to_terminal env nenv ctx0 w t = (r, w', t') ->
  foldable nenv rows w' /\ match r with Ok (Some res) => sound_outcome (ir_outcome res) | _ => True end.
Proof.
  intros Hst Ho E. pose proof (nb_run_loop_world env nenv task rows Hst (cx_instruction ctx0) (nb_fuel ctx0) (nb_init ctx0) w t Ho) as Hw.
  unfold run_notebook_to_terminal in E. by rewrite E in Hw.
Qed.
End Theorems.

(** * Witnesses *)

(** A task of two turns, in a world that is its notebook: the first reply lists a
    step and calls it, the second ticks the step and answers. *)
Definition notebook_doc (s : bytes) : option Value :=
  if bytes_eqb s (bs "{plan}") then
    Some (Object [(bs "steps", Array [Object [(bs "id", int_value 1); (bs "purpose", String (bs "p")); (bs "tool", String (bs "web"));
                                              (bs "done_when", String (bs "d")); (bs "status", String (bs "pending"))]]);
                  (bs "call", Object [(bs "step", int_value 1); (bs "tool", String (bs "web")); (bs "method", String (bs "web.get"));
                                      (bs "parameters", Object [(bs "id", int_value 38996)]); (bs "returns", String (bs "page"));
                                      (bs "done_when", String (bs "d")); (bs "classification", String (bs "Public"))])])
  else if bytes_eqb s (bs "{answer}") then
    Some (Object [(bs "tick", Object [(bs "step", int_value 1); (bs "note", String (bs "n")); (bs "summary", String (bs "s"))]);
                  (bs "answer", Object [(bs "body", String (bs "all done"))])])
  else None.

#[local] Instance notebook_serde : SerdeJson :=
  {| json_doc := notebook_doc; json_first := fun _ => None; reply_error := fun _ => []; lifted_error := fun _ => [] |}.

Definition notebook_env : Env (list Entry) :=
  mkEnv (fun w => (0%Z, w)) (fun w => (Ok (bs "running"), w)) (fun w => (Ok tt, w)) (fun _ w => (Ok tt, w))
    (fun _ w => (Ok (demo_terminal, demo_meta), w)) (fun _ w => (Ok (demo_terminal, demo_meta), w)) (fun _ w => (None, w))
    (fun _ _ _ w => (None, w)) (fun _ _ w => (StepOk (String (bs "page")), w)) (fun _ _ => None) [] (fun _ w => (Ok None, w))
    (fun _ w => (Ok None, w)) (fun _ _ _ _ => Ok []) (fun _ _ _ _ => Ok []) (fun _ _ _ _ w => (Ok 1%Z, w)) (fun _ _ _ => [])
    (fun _ _ => Null) demo_to_vec (ChainReviewStage production_chain).

Definition notebook_sift_env : SiftEnv (list Entry) :=
  mkSiftEnv (mkSiftConfig 64 []) None (fun _ _ w => (Ok [], w)) (fun _ _ _ w => (Ok tt, w)) (fun _ _ _ => None) (fun _ => None)
    (fun z => int_value z) (fun _ => None) (fun _ => []) (fun _ => []).

Definition notebook_nenv : NbEnv (list Entry) :=
  mkNbEnv (fun _ _ _ _ w => (Ok (if bool_decide (w = []) then bs "{plan}" else bs "{answer}", demo_meta), w)) false (fun _ => None)
    (fun w => (Ok w, w)) (fun k v w => (Ok (Z.of_nat (length w) + 1)%Z, w ++ [mkEntry 3 (Z.of_nat (length w) + 1) k (nul_free v)]))
    notebook_sift_env (fun _ => []) (fun _ _ => []).

Definition notebook_run := run_notebook_to_terminal notebook_env notebook_nenv demo_ctx [] [].
Definition notebook_trace : list Event := snd notebook_run.
Fixpoint dispatch_at (t : list Event) : nat := match t with [] => 0 | e :: t' => if is_dispatch e then 0 else S (dispatch_at t') end.
Definition before_dispatch : list Event := drop (S (dispatch_at notebook_trace)) notebook_trace.
Definition web_step : PlannedStep :=
  match notebook_trace !! dispatch_at notebook_trace with Some (EvDispatch _ s) => s | _ => mkStep [] [] Null [] [] Public end.

Lemma notebook_dispatches_were_reviewed_witness :
  exists p rc v, last_review before_dispatch = Some (p, rc, v) /\ web_step ∈ pl_steps p.
Proof.
  assert (E : run_notebook_to_terminal notebook_env notebook_nenv demo_ctx [] [] = (notebook_run.1, take (dispatch_at notebook_trace) notebook_trace ++ EvDispatch 3 web_step :: before_dispatch))
    by (vm_compute; reflexivity).
  revert E. generalize (take (dispatch_at notebook_trace) notebook_trace), web_step, before_dispatch, (notebook_run.1).
  intros t1 s t2 [r w'] E.
  destruct (notebook_dispatches_were_reviewed notebook_env notebook_nenv demo_ctx [] r w' t1 3 s t2 E)
    as (p & rc & v & cs & Hl & Hs & _).
  exact (ex_intro _ p (ex_intro _ rc (ex_intro _ v (conj Hl Hs)))).
Defined.

(** In this world nobody else writes. *)
Lemma notebook_demo_store : nb_store notebook_env notebook_nenv 3 (fun w => w).
Proof.
  assert (Hx : forall w, extends (fun w => w) w w) by (intros w; exists []; split; [constructor|by rewrite app_nil_r]).
  constructor.
  - intros w. exists [], []. rewrite !app_nil_r. split_and!; try done; constructor.
  - intros k v w. exists [], []. split_and!; try done; constructor.
  - intros. apply Hx.
  - intros I HI. constructor; done.
  - intros I HI. constructor; done.
Qed.

Lemma notebook_stays_foldable_witness : foldable notebook_nenv (fun w => w) notebook_run.1.2.
Proof.
  assert (E : run_notebook_to_terminal notebook_env notebook_nenv demo_ctx [] [] = (notebook_run.1.1, notebook_run.1.2, notebook_trace)) by (vm_compute; reflexivity).
  revert E. generalize (notebook_run.1.1), (notebook_run.1.2), notebook_trace. intros r w' t' E.
  refine (proj1 (notebook_stays_foldable notebook_env notebook_nenv demo_ctx 3 (fun w => w) [] [] r w' t' notebook_demo_store _ E)).
  exists empty_notebook. split; reflexivity.
Defined.
