(* ===== verification/EnvFile.v ===== *)
(** Service names and environment files
    (src/supervisor/src/service_name.rs, src/supervisor/src/env_file.rs,
    src/core/src/install/env_diff.rs): the gate on the name of a service, the
    grammar of an environment file, the merge of several files, and the reports
    on the operator's overlay and on what an install would drop.

    Text is UTF-8 bytes and a path any bytes; the file system is a function from
    paths to contents or an error.  The trims are those of four ASCII characters,
    so they act on bytes.  [Debug] of a character outside ASCII is the class
    [UnicodeDebug] of Sandbox. *)

From stdpp Require Import base list gmap sets numbers strings pretty.
From Stdlib Require Import ZArith Lia.
From S2P Require Import Prelude RustStr Json InjectionGuard AskMessage ResultView Sandbox Sift SiftTable.
Local Open Scope nat_scope.

(** * Errors and names *)

Inductive SupervisorError :=
| NotImplemented (what : bytes)
| InvalidName (why : bytes)
| Probe (why : bytes)
| Io (why : bytes)
| Backend (why : bytes).

#[export] Instance SupervisorError_eq_dec : EqDecision SupervisorError.
Proof. solve_decision. Defined.

Definition supervisor_error_text (e : SupervisorError) : bytes :=
  match e with
  | NotImplemented m => bs "not yet implemented: " ++ m
  | InvalidName m => bs "invalid service name: " ++ m
  | Probe m => bs "supervisor probe failed: " ++ m
  | Io m => bs "supervisor I/O error: " ++ m
  | Backend m => bs "supervisor backend command failed: " ++ m
  end.

Definition MAX_NAME_LEN : nat := 200.

Definition service_char (c : Z) : bool :=
  is_ascii_alphanumeric c || (c =? 46)%Z || (c =? 95)%Z || (c =? 45)%Z.

(** A character of more than one byte is not ASCII. *)
Definition service_group (g : bytes) : bool := match g with [c] => service_char c | _ => false end.

Section Names.
Context `{UnicodeDebug}.

(** [{:?}] of a character: a single quote is escaped and a double one is not. *)
Definition char_debug (g : bytes) : bytes :=
  [39%Z] ++ match g with
            | [c] => if (c =? 39)%Z then [92%Z; 39%Z] else if (c =? 34)%Z then [34%Z] else debug_ascii c
            | _ => escape_unicode g
            end ++ [39%Z].

Definition validate_service_name (name : bytes) : result () SupervisorError :=
  if bytes_eqb name [] then Err (InvalidName (bs "service name must not be empty"))
  else if MAX_NAME_LEN <? length name
  then Err (InvalidName (bs "service name longer than " ++ show_nat MAX_NAME_LEN ++ bs " chars"))
  else if bytes_eqb name (bs ".") || bytes_eqb name (bs "..")
  then Err (InvalidName (bs ". and .. are not valid service names"))
  else if starts_with (bs ".") name then Err (InvalidName (bs "service name must not start with '.'"))
  else if starts_with (bs "-") name then Err (InvalidName (bs "service name must not start with '-'"))
  else match List.find (fun g => negb (service_group g)) (groups name) with
       | Some g => Err (InvalidName (bs "service name contains illegal character: " ++ char_debug g))
       | None => Ok tt
       end.

End Names.

(** * The grammar *)

Definition systemd_space (c : Z) : bool := ((c =? 32) || (c =? 9) || (c =? 10) || (c =? 13))%Z.

(** [trim_matches(SYSTEMD_WHITESPACE)] and [trim_start_matches]. *)
Definition sys_trim_start (s : bytes) : bytes := drop_while systemd_space s.
Definition sys_trim (s : bytes) : bytes := trim_end_matches systemd_space (sys_trim_start s).

Definition is_quote (c : Z) : bool := ((c =? 34) || (c =? 39))%Z.

(** [unquote]; each round of the loop takes at least the opening quote. *)
Fixpoint unquote_loop (fuel : nat) (out rest : bytes) : bytes :=
  match fuel, rest with
  | S fuel', q :: after_open =>
      if is_quote q then
        match split_once q after_open with
        | None => out ++ after_open
        | Some (inside, after) => unquote_loop fuel' (out ++ inside) (sys_trim_start after)
        end
      else out ++ rest
  | _, _ => out ++ rest
  end.

Definition unquote (v : bytes) : bytes := unquote_loop (length v) [] v.

(** What one line is. *)
Inductive EnvLine :=
| Quiet
| Ignored
| Declares (k v : bytes).

Definition parse_env_line (raw : bytes) : EnvLine :=
  let line := sys_trim raw in
  if bytes_eqb line [] || starts_with (bs "#") line || starts_with (bs ";") line then Quiet
  else match split_once 61%Z line with
       | None => Ignored
       | Some (k, v) =>
           let k := sys_trim k in
           if bytes_eqb k [] || existsb is_space (groups k) then Ignored
           else Declares k (unquote (sys_trim v))
       end.

Record ParsedEnv := mkParsedEnv { pairs : list (bytes * bytes); ignored_lines : list nat }.

(** The loop over the lines; [n] is the index of the first of them. *)
Fixpoint parse_env_lines (n : nat) (lines : list bytes) : ParsedEnv :=
  match lines with
  | [] => mkParsedEnv [] []
  | raw :: rest =>
      let p := parse_env_lines (S n) rest in
      match parse_env_line raw with
      | Quiet => p
      | Ignored => mkParsedEnv (pairs p) (S n :: ignored_lines p)
      | Declares k v => mkParsedEnv ((k, v) :: pairs p) (ignored_lines p)
      end
  end.

Definition parse_env_file_reporting (contents : bytes) : ParsedEnv := parse_env_lines 0 (str_lines contents).
Definition parse_env_file (contents : bytes) : list (bytes * bytes) := pairs (parse_env_file_reporting contents).

(** * Merging *)

(** The slot of a key, or a new one at the end. *)
Fixpoint set_slot (k v : bytes) (env : list (bytes * bytes)) : list (bytes * bytes) :=
  match env with
  | [] => [(k, v)]
  | (ek, ev) :: env' => if bytes_eqb ek k then (ek, v) :: env' else (ek, ev) :: set_slot k v env'
  end.

Definition merge_env (into from : list (bytes * bytes)) : list (bytes * bytes) :=
  foldl (fun env kv => set_slot kv.1 kv.2 env) into from.

Record EnvFileRef := mkEnvFileRef { ef_path : bytes; ef_optional : bool }.

Definition FileRead := bytes -> result bytes IoError.

Section Files.
Variable read_to_string : FileRead.

Fixpoint fold_env_files (into : list (bytes * bytes)) (files : list EnvFileRef) : result (list (bytes * bytes)) SupervisorError :=
  match files with
  | [] => Ok into
  | ef :: rest =>
      match read_to_string (ef_path ef) with
      | Ok c => fold_env_files (merge_env into (parse_env_file c)) rest
      | Err e =>
          if ef_optional ef && match e with NotFound _ => true | _ => false end then fold_env_files into rest
          else Err (Io (bs "read environment_file " ++ from_utf8_lossy (ef_path ef) ++ bs ": " ++ io_text e))
      end
  end.

End Files.

(** [s.contains(|c| c.is_control())] *)
Definition has_control (s : bytes) : bool := existsb (fun g => char_is_control (decode_group g)) (groups s).

Definition validate_env_file_path `{UnicodeDebug} (path : bytes) : result () SupervisorError :=
  if negb (is_absolute path)
  then Err (Io (bs "environment_file must be absolute, got " ++ from_utf8_lossy path))
  else if negb (is_utf8 path)
  then Err (Io (bs "environment_file must be valid UTF-8 (the unit renderer would substitute U+FFFD and systemd would open a different path), got " ++ path_debug path))
  else if has_control path
  then Err (Io (bs "environment_file must not contain control characters, got " ++ path_debug path))
  else Ok tt.

(** * The operator's overlay *)

Inductive OverlayState :=
| Absent
| Present (keys : nat) (ignored : list nat)
| Unreadable (reason : bytes).

Definition resolved_pairs (ps : list (bytes * bytes)) : list (bytes * bytes) := merge_env [] ps.

Definition inspect_overlay (read_to_string : FileRead) (path : bytes) : OverlayState :=
  match read_to_string path with
  | Ok c => let parsed := parse_env_file_reporting c in
            Present (length (resolved_pairs (pairs parsed))) (ignored_lines parsed)
  | Err (NotFound _) => Absent
  | Err e => Unreadable (io_text e)
  end.

Definition ignored_suffix (ignored : list nat) : bytes :=
  match ignored with
  | [] => []
  | [l] => bs ", 1 line ignored (line " ++ show_nat l ++ bs ")"
  | _ => bs ", " ++ show_nat (length ignored) ++ bs " lines ignored (lines " ++ join (bs ", ") (map show_nat ignored) ++ bs ")"
  end.

Definition render_overlay_found (path : bytes) (state : OverlayState) : bytes :=
  let p := from_utf8_lossy path in
  match state with
  | Present 0 ignored =>
      bs "operator overlay: " ++ p ++ bs " declares NO keys" ++ ignored_suffix ignored
      ++ bs " — nothing in it can apply; note that `export KEY=value` and lines without `=` are ignored"
  | Present keys ignored =>
      bs "operator overlay: " ++ p ++ bs " (" ++ show_nat keys ++ bs " keys" ++ ignored_suffix ignored
      ++ bs ") — applied after kastellan.env, so these values win"
  | Absent =>
      bs "operator overlay: none at " ++ p
      ++ bs " — tuned settings put there survive a reinstall; see docs/deploy/operator-env.md"
  | Unreadable reason =>
      bs "operator overlay: " ++ p ++ bs " UNREADABLE (" ++ reason
      ++ bs ") — kastellan cannot confirm any of its values applied"
  end.

Definition unapplied_keys (keys : list (bytes * bytes)) (live : bytes -> option bytes) : list bytes :=
  map fst (filter (fun kv => live kv.1 <> Some kv.2) (merge_env [] keys)).

Definition render_overlay_applied (path : bytes) (total : nat) (unapplied : list bytes) (ignored : list nat) : bytes :=
  let p := from_utf8_lossy path in
  let ign := ignored_suffix ignored in
  match unapplied with
  | [] => bs "operator overlay applied: " ++ p ++ bs " (" ++ show_nat total ++ bs " keys, all present in this process" ++ ign ++ bs ")"
  | _ => bs "operator overlay NOT fully applied: " ++ p ++ bs " — " ++ show_nat (length unapplied) ++ bs " of "
         ++ show_nat total ++ bs " keys did not reach this process" ++ ign ++ bs ": " ++ join (bs ", ") unapplied
  end.

Inductive OverlayCheck :=
| CheckAbsent
| CheckUnreadable (reason : bytes)
| Checked (declared : nat) (unapplied : list bytes) (ignored : list nat).

Inductive OverlaySeverity := Info | Warn.

Definition check_overlay (read_to_string : FileRead) (path : bytes) (live : bytes -> option bytes) : OverlayCheck :=
  match read_to_string path with
  | Ok c => let parsed := parse_env_file_reporting c in
            let declared := resolved_pairs (pairs parsed) in
            Checked (length declared) (unapplied_keys declared live) (ignored_lines parsed)
  | Err (NotFound _) => CheckAbsent
  | Err e => CheckUnreadable (io_text e)
  end.

Definition render_overlay_check (path : bytes) (check : OverlayCheck) : OverlaySeverity * bytes :=
  match check with
  | CheckAbsent => (Info, render_overlay_found path Absent)
  | CheckUnreadable reason => (Warn, render_overlay_found path (Unreadable reason))
  | Checked 0 _ ignored => (Warn, render_overlay_found path (Present 0 ignored))
  | Checked declared unapplied ignored =>
      (match unapplied, ignored with [], [] => Info | _, _ => Warn end,
       render_overlay_applied path declared unapplied ignored)
  end.

(** * What an install would drop (env_diff.rs) *)

Record EnvDiff := mkEnvDiff { lost : list bytes; changed : list bytes }.

Definition diff_is_empty (d : EnvDiff) : bool := match lost d, changed d with [], [] => true | _, _ => false end.

(** [collect] into a [HashMap]: the last value of a key stays. *)
Definition collect_env (ps : list (bytes * bytes)) : gmap bytes bytes := foldl (fun m kv => <[kv.1 := kv.2]> m) ∅ ps.

(** The loop over the pairs of the old file. *)
Fixpoint diff_loop (new_values old_values : gmap bytes bytes) (seen : gset bytes) (ps : list (bytes * bytes)) : EnvDiff :=
  match ps with
  | [] => mkEnvDiff [] []
  | (key, _) :: rest =>
      if bool_decide (key ∈ seen) then diff_loop new_values old_values seen rest
      else let d := diff_loop new_values old_values ({[key]} ∪ seen) rest in
           match new_values !! key with
           | None => mkEnvDiff (key :: lost d) (changed d)
           | Some new_value =>
               if bool_decide (Some new_value = old_values !! key) then d else mkEnvDiff (lost d) (key :: changed d)
           end
  end.

Definition diff_env_files (old new : bytes) : EnvDiff :=
  let old_pairs := parse_env_file old in
  diff_loop (collect_env (parse_env_file new)) (collect_env old_pairs) ∅ old_pairs.

(** * Lemmas *)

Fixpoint env_get (k : bytes) (env : list (bytes * bytes)) : option bytes :=
  match env with
  | [] => None
  | (ek, ev) :: env' => if bytes_eqb ek k then Some ev else env_get k env'
  end.

Lemma bytes_eqb_true a b : bytes_eqb a b = true <-> a = b.
Proof. unfold bytes_eqb. apply bool_decide_eq_true. Qed.

Lemma bytes_eqb_spec a b : reflect (a = b) (bytes_eqb a b).
Proof. unfold bytes_eqb. apply bool_decide_reflect. Qed.

Lemma set_slot_get k v env k' : env_get k' (set_slot k v env) = if decide (k' = k) then Some v else env_get k' env.
Proof.
  induction env as [|[ek ev] env IH]; cbn.
  - destruct (bytes_eqb_spec k k'), (decide (k' = k)); naive_solver.
  - destruct (bytes_eqb_spec ek k) as [->|Hne]; cbn.
    + destruct (bytes_eqb_spec k k'), (decide (k' = k)); naive_solver.
    + destruct (bytes_eqb_spec ek k') as [->|?]; [by rewrite decide_False by congruence|done].
Qed.

Lemma set_slot_keys k v env : map fst (set_slot k v env) = map fst env ++ if decide (k ∈ map fst env) then [] else [k].
Proof.
  induction env as [|[ek ev] env IH]; cbn; [by rewrite decide_False by apply not_elem_of_nil|].
  destruct (bytes_eqb_spec ek k) as [->|Hne]; cbn.
  - rewrite decide_True by (left; done). by rewrite app_nil_r.
  - rewrite IH. destruct (decide (k ∈ map fst env)), (decide (k ∈ ek :: map fst env)) as [Hin|]; try done.
    + exfalso. naive_solver set_solver.
    + exfalso. apply elem_of_cons in Hin as [->|]; done.
Qed.

Lemma merge_env_snoc into from k v : merge_env into (from ++ [(k, v)]) = set_slot k v (merge_env into from).
Proof. unfold merge_env. by rewrite foldl_app. Qed.

Lemma collect_env_snoc ps k v : collect_env (ps ++ [(k, v)]) = <[k := v]> (collect_env ps).
Proof. unfold collect_env. by rewrite foldl_app. Qed.

(** The value of a key after a merge: its last one in the batch, or the old one. *)
Lemma merge_env_get into from k :
  env_get k (merge_env into from) = match collect_env from !! k with Some v => Some v | None => env_get k into end.
Proof.
  induction from as [|[k' v] from IH] using rev_ind; [done|].
  rewrite merge_env_snoc, collect_env_snoc, set_slot_get, IH.
  destruct (decide (k = k')) as [->|Hne]; [by rewrite lookup_insert_eq|by rewrite lookup_insert_ne by congruence].
Qed.

Lemma merge_env_prefix into from : map fst into `prefix_of` map fst (merge_env into from).
Proof.
  induction from as [|[k' v] from IH] using rev_ind; [done|].
  rewrite merge_env_snoc, set_slot_keys. by apply prefix_app_r.
Qed.

Lemma collect_env_keys ps k : is_Some (collect_env ps !! k) <-> k ∈ map fst ps.
Proof.
  induction ps as [|[k' v] ps IH] using rev_ind.
  { cbn. rewrite lookup_empty. split; [intros [? [=]]|intros H; by apply not_elem_of_nil in H]. }
  rewrite collect_env_snoc, map_app, elem_of_app, <- IH. cbn. rewrite list_elem_of_singleton.
  destruct (decide (k = k')) as [->|Hne]; [rewrite lookup_insert_eq; naive_solver|].
  rewrite lookup_insert_ne by congruence. naive_solver.
Qed.

Lemma resolved_get ps k : env_get k (resolved_pairs ps) = collect_env ps !! k.
Proof. unfold resolved_pairs. rewrite merge_env_get. by destruct (collect_env ps !! k). Qed.

Lemma resolved_keys_nodup ps : NoDup (map fst (resolved_pairs ps)).
Proof.
  unfold resolved_pairs. induction ps as [|[k v] ps IH] using rev_ind; [constructor|].
  rewrite merge_env_snoc, set_slot_keys. case_decide; [by rewrite app_nil_r|].
  apply NoDup_app. split_and!; [done|set_solver|apply NoDup_singleton].
Qed.

Lemma env_get_nodup env k v : NoDup (map fst env) -> (env_get k env = Some v <-> (k, v) ∈ env).
Proof.
  induction env as [|[ek ev] env IH]; intros Hnd; cbn.
  { split; [done|intros H; by apply not_elem_of_nil in H]. }
  apply NoDup_cons in Hnd as [Hk Hnd]. rewrite elem_of_cons. destruct (bytes_eqb_spec ek k) as [->|Hne].
  - split; [naive_solver|]. intros [[=]|Hin]; [by subst|]. destruct Hk. apply list_elem_of_fmap. by exists (k, v).
  - rewrite IH by done. naive_solver.
Qed.

(** The pairs a file resolves to are its keys with their last values. *)
Lemma resolved_pair_elem ps k v : (k, v) ∈ resolved_pairs ps <-> collect_env ps !! k = Some v.
Proof. rewrite <- env_get_nodup by apply resolved_keys_nodup. by rewrite resolved_get. Qed.

Lemma resolved_nil ps : resolved_pairs ps = [] <-> ps = [].
Proof.
  split; [|by intros ->]. destruct ps as [|[k v] ps]; [done|]. intros Hr.
  destruct (collect_env_keys ((k, v) :: ps) k) as [_ [v' Hv]]; [by left|].
  apply resolved_pair_elem in Hv. rewrite Hr in Hv. by apply not_elem_of_nil in Hv.
Qed.

Lemma merge_nodup env : NoDup (map fst env) -> merge_env [] env = env.
Proof.
  induction env as [|[k v] env IH] using rev_ind; [done|]. rewrite map_app. intros Hnd%NoDup_app.
  destruct Hnd as (Hnd & Hk & _). rewrite merge_env_snoc, IH by done.
  assert (Hn : k ∉ map fst env) by (intros Hin; by apply (Hk k Hin), list_elem_of_singleton).
  clear -Hn. induction env as [|[ek ev] env IH]; [done|]. cbn in *. apply not_elem_of_cons in Hn as [Hne Hn].
  destruct (bytes_eqb_spec ek k); [by subst|]. by rewrite IH.
Qed.

(** * Several files *)

(** A file that counts: it was read, or it is optional and not there. *)
Definition resolvable (read : FileRead) (ef : EnvFileRef) : Prop :=
  match read (ef_path ef) with
  | Ok _ => True
  | Err (NotFound _) => ef_optional ef = true
  | Err (OtherIo _) => False
  end.

(** The value of a key that a list of files leaves, over the value [before]. *)
Definition last_declared (read : FileRead) (k : bytes) (before : option bytes) (files : list EnvFileRef) : option bytes :=
  foldl (fun acc ef =>
    match read (ef_path ef) with
    | Ok c => match collect_env (parse_env_file c) !! k with Some v => Some v | None => acc end
    | Err _ => acc
    end) before files.

(** Environment files resolve to the last value declared: when the fold
    succeeds, every file was read or is an absent optional one, each key has the
    value of the last file that declares it, and within a file its last line, or
    else the value it had, and no key that was there moves; when it fails, some
    file is missing and required, or is there and unreadable. *)
Theorem env_files_resolve read into files :
  match fold_env_files read into files with
  | Ok env => Forall (resolvable read) files /\ (forall k, env_get k env = last_declared read k (env_get k into) files) /\
              map fst into `prefix_of` map fst env
  | Err _ => Exists (fun ef => ~ resolvable read ef) files
  end.
Proof.
  revert into. induction files as [|ef files IH]; intros into; cbn; [by split_and!|].
  destruct (read (ef_path ef)) as [c|e] eqn:Hr.
  - specialize (IH (merge_env into (parse_env_file c))). destruct (fold_env_files _ _ _); [|by right].
    destruct IH as (Hf & Hg & Hp). split_and!.
    + constructor; [|done]. unfold resolvable. by rewrite Hr.
    + intros k. by rewrite Hg, merge_env_get.
    + etrans; [|done]. apply merge_env_prefix.
  - destruct (ef_optional ef && _) eqn:Ho; [|constructor; unfold resolvable; rewrite Hr; destruct e, (ef_optional ef); naive_solver].
    specialize (IH into). destruct (fold_env_files _ _ _); [|by right]. destruct IH as (Hf & Hg & Hp). split_and!; [|done|done].
    constructor; [|done]. unfold resolvable. rewrite Hr. by destruct e, (ef_optional ef).
Qed.

(** * Lines *)

Definition declares (l : EnvLine) : option (bytes * bytes) := match l with Declares k v => Some (k, v) | _ => None end.

Lemma parse_env_lines_spec n lines :
  pairs (parse_env_lines n lines) = omap (fun raw => declares (parse_env_line raw)) lines /\
  (forall i, i ∈ ignored_lines (parse_env_lines n lines) <-> exists j raw, i = S (n + j) /\ lines !! j = Some raw /\ parse_env_line raw = Ignored).
Proof.
  revert n. induction lines as [|raw lines IH]; intros n; cbn.
  { split; [done|]. intros i. split; [intros H; by apply not_elem_of_nil in H|by intros (? & ? & _ & [=] & _)]. }
  destruct (IH (S n)) as [Hp Hi]. clear IH.
  assert (Hsh : forall i, (exists j r, i = S (n + j) /\ (raw :: lines) !! j = Some r /\ parse_env_line r = Ignored) <->
    (i = S n /\ parse_env_line raw = Ignored) \/ i ∈ ignored_lines (parse_env_lines (S n) lines)).
  { intros i. rewrite Hi. split.
    - intros ([|j] & r & -> & Hj & Hr); cbn in Hj; [left; split; [lia|congruence]|right; exists j, r; split; [lia|done]].
    - intros [[-> Hr]|(j & r & -> & Hj & Hr)]; [exists 0, raw; split; [lia|done]|exists (S j), r; split; [lia|done]]. }
  destruct (parse_env_line raw) eqn:E; cbn; (split; [by rewrite Hp|]); intros i; rewrite Hsh; [naive_solver| |naive_solver].
  rewrite elem_of_cons. naive_solver.
Qed.

Lemma no_ignored_lines n lines : ignored_lines (parse_env_lines n lines) = [] <-> Forall (fun raw => parse_env_line raw <> Ignored) lines.
Proof.
  revert n. induction lines as [|raw lines IH]; intros n; cbn; [done|]. rewrite Forall_cons, <- (IH (S n)).
  destruct (parse_env_line raw); cbn; naive_solver.
Qed.

(** * The reports *)

Lemma unapplied_none ps live : unapplied_keys (resolved_pairs ps) live = [] <-> (forall k v, collect_env ps !! k = Some v -> live k = Some v).
Proof.
  unfold unapplied_keys. rewrite merge_nodup by apply resolved_keys_nodup. split.
  - intros Hn%fmap_nil_inv k v Hk%resolved_pair_elem. destruct (decide (live k = Some v)) as [|Hl]; [done|].
    assert (Hin : (k, v) ∈ filter (fun kv => live kv.1 <> Some kv.2) (resolved_pairs ps)) by (by apply list_elem_of_filter).
    rewrite Hn in Hin. by apply not_elem_of_nil in Hin.
  - intros Hall. destruct (filter _ _) as [|[k v] l] eqn:E; [done|]. exfalso.
    assert (Hin : (k, v) ∈ filter (fun kv => live kv.1 <> Some kv.2) (resolved_pairs ps)) by (rewrite E; left).
    apply list_elem_of_filter in Hin as [Hne Hin%resolved_pair_elem]. apply Hne, Hall, Hin.
Qed.

(** The daemon's line on the overlay is quiet only when it may be: the severity is
    [Info] exactly when there is no overlay, or it was read, declares a key, every
    line of it that is not blank or a comment declares one, and each key's last
    value is what the process has. *)
Theorem overlay_is_quiet_only_if_applied read path live :
  (render_overlay_check path (check_overlay read path live)).1 = Info <->
  (exists text, read path = Err (NotFound text)) \/
  (exists c, read path = Ok c /\ parse_env_file c <> [] /\ Forall (fun raw => parse_env_line raw <> Ignored) (str_lines c) /\
     forall k v, collect_env (parse_env_file c) !! k = Some v -> live k = Some v).
Proof.
  unfold check_overlay. destruct (read path) as [c|[t|t]] eqn:Hr; cbn; [|naive_solver..].
  assert (Hu := unapplied_none (parse_env_file c) live). fold (parse_env_file c).
  assert (Hi := no_ignored_lines 0 (str_lines c)). fold (parse_env_file_reporting c) in Hi.
  trans (parse_env_file c <> [] /\ unapplied_keys (resolved_pairs (parse_env_file c)) live = [] /\
         ignored_lines (parse_env_file_reporting c) = []).
  2: { split; [intros (? & ? & ?); right; exists c; split_and!; [done|done|by apply Hi|by apply Hu]|].
       by intros [[? [=]]|(c' & [= <-] & ? & ?%Hi & ?%Hu)]. }
  destruct (length (resolved_pairs (parse_env_file c))) as [|n] eqn:Hl; cbn.
  - apply length_zero_iff_nil in Hl. apply (proj1 (resolved_nil _)) in Hl. split; [done|intros [? _]; congruence].
  - assert (parse_env_file c <> []) by (intros H; rewrite H in Hl; done).
    destruct (unapplied_keys _ _), (ignored_lines _); (split; [done|by intros (? & ? & ?)]).
Qed.

(** * What a diff names *)

(** The keys of a list in the order of their first appearance. *)
Fixpoint fresh_keys (seen : gset bytes) (ps : list (bytes * bytes)) : list bytes :=
  match ps with
  | [] => []
  | (k, _) :: rest => if bool_decide (k ∈ seen) then fresh_keys seen rest else k :: fresh_keys ({[k]} ∪ seen) rest
  end.

Lemma merge_env_keys env ps : map fst (merge_env env ps) = map fst env ++ fresh_keys (list_to_set (map fst env)) ps.
Proof.
  revert env. induction ps as [|[k v] ps IH]; intros env; [by rewrite app_nil_r|].
  change (merge_env env ((k, v) :: ps)) with (merge_env (set_slot k v env) ps). rewrite IH, set_slot_keys. cbn.
  case_decide as Hk; case_bool_decide as Hs; [by rewrite app_nil_r|set_solver|set_solver|].
  rewrite <- app_assoc. cbn. do 3 f_equal. rewrite list_to_set_app_L. set_solver.
Qed.

Lemma diff_loop_spec nv ov seen ps :
  diff_loop nv ov seen ps =
  mkEnvDiff (filter (fun k => nv !! k = None) (fresh_keys seen ps))
            (filter (fun k => is_Some (nv !! k) /\ nv !! k <> ov !! k) (fresh_keys seen ps)).
Proof.
  revert seen. induction ps as [|[k v] ps IH]; intros seen; [done|]. cbn. case_bool_decide; [apply IH|]. rewrite IH. cbn [lost changed].
  destruct (nv !! k) as [v'|] eqn:Hn.
  - rewrite filter_cons_False by (rewrite Hn; done). case_bool_decide as He.
    + rewrite filter_cons_False by (rewrite Hn; naive_solver). done.
    + rewrite filter_cons_True by (rewrite Hn; split; [by eexists|done]). done.
  - rewrite filter_cons_True by done. rewrite filter_cons_False by (rewrite Hn; intros [[? [=]] _]). done.
Qed.

Lemma diff_env_files_spec old new :
  let ov := collect_env (parse_env_file old) in let nv := collect_env (parse_env_file new) in
  let keys := map fst (resolved_pairs (parse_env_file old)) in
  lost (diff_env_files old new) = filter (fun k => nv !! k = None) keys /\
  changed (diff_env_files old new) = filter (fun k => is_Some (nv !! k) /\ nv !! k <> ov !! k) keys.
Proof.
  cbn zeta. unfold diff_env_files, resolved_pairs. rewrite diff_loop_spec, (merge_env_keys []). by split.
Qed.

Lemma resolved_keys ps k : k ∈ map fst (resolved_pairs ps) <-> is_Some (collect_env ps !! k).
Proof.
  unfold resolved_pairs. rewrite list_elem_of_fmap. split.
  - intros ([k' v] & -> & Hin%resolved_pair_elem). by exists v.
  - intros [v Hv%resolved_pair_elem]. by exists (k, v).
Qed.

Lemma filter_nil_iff {A} (P : A -> Prop) `{!forall x, Decision (P x)} l : filter P l = [] <-> (forall x, x ∈ l -> ~ P x).
Proof.
  split.
  - intros Hf x Hx HP. assert (Hin : x ∈ filter P l) by by apply list_elem_of_filter. rewrite Hf in Hin. by apply not_elem_of_nil in Hin.
  - intros Hall. destruct (filter P l) as [|x l'] eqn:E; [done|]. exfalso.
    assert (Hin : x ∈ filter P l) by (rewrite E; left). apply list_elem_of_filter in Hin as [HP Hx]. by apply (Hall x).
Qed.

Lemma diff_empty old new :
  diff_is_empty (diff_env_files old new) = true <->
  collect_env (parse_env_file old) ⊆ collect_env (parse_env_file new).
Proof.
  destruct (diff_env_files_spec old new) as [Hl Hc]. cbn zeta in *. unfold diff_is_empty.
  trans (lost (diff_env_files old new) = [] /\ changed (diff_env_files old new) = []).
  { by destruct (lost _), (changed _); naive_solver. }
  rewrite Hl, Hc, !filter_nil_iff, map_subseteq_spec. split.
  - intros [H1 H2] k v Hk. assert (Hin : k ∈ map fst (resolved_pairs (parse_env_file old))) by (apply resolved_keys; by exists v).
    destruct (collect_env (parse_env_file new) !! k) as [v'|] eqn:Hn; [|by destruct (H1 k Hin)].
    destruct (decide (v' = v)) as [->|Hne]; [done|]. destruct (H2 k Hin). rewrite Hn, Hk. split; [by eexists|congruence].
  - intros Hs. split; intros k [v Hv]%resolved_keys; rewrite (Hs k v Hv); [done|]. rewrite Hv. by intros [_ ?].
Qed.

(** An install names what it would destroy: the keys it reports as lost are those
    the old file declares and the new one does not, the keys it reports as changed
    those whose last value differs, each once and in the order of the old file; it
    reports nothing exactly when every setting of the old file is in the new one. *)
Theorem diff_names_what_is_destroyed old new :
  let ov := collect_env (parse_env_file old) in let nv := collect_env (parse_env_file new) in
  let d := diff_env_files old new in
  lost d `sublist_of` map fst (resolved_pairs (parse_env_file old)) /\
  changed d `sublist_of` map fst (resolved_pairs (parse_env_file old)) /\
  (forall k, k ∈ lost d <-> is_Some (ov !! k) /\ nv !! k = None) /\
  (forall k, k ∈ changed d <-> exists v v', ov !! k = Some v /\ nv !! k = Some v' /\ v' <> v) /\
  (diff_is_empty d = true <-> ov ⊆ nv).
Proof.
  cbn zeta. destruct (diff_env_files_spec old new) as [Hl Hc]. cbn zeta in *.
  split_and!; [rewrite Hl; apply sublist_filter|rewrite Hc; apply sublist_filter| | |apply diff_empty].
  - intros k. rewrite Hl, list_elem_of_filter, resolved_keys. naive_solver.
  - intros k. rewrite Hc, list_elem_of_filter, resolved_keys. split.
    + intros [[[v' Hn] Hne] [v Ho]]. rewrite Hn, Ho in Hne. exists v, v'. split_and!; congruence.
    + intros (v & v' & -> & -> & Hne). split; [split; [by eexists|congruence]|by eexists].
Qed.

(** * Names and paths *)

(** A name passes exactly when it is a file stem that needs no quoting: ASCII
    letters, digits, [.], [_] and [-] only, at most [MAX_NAME_LEN] of them, and
    the first is neither [.] nor [-]. *)
Theorem valid_service_names `{UnicodeDebug} name :
  validate_service_name name = Ok tt <->
  1 <= length name <= MAX_NAME_LEN /\ forallb service_char name = true /\ head name <> Some 46%Z /\ head name <> Some 45%Z.
Proof.
  assert (Hg : List.find (fun g => negb (service_group g)) (groups name) = None <-> forallb service_char name = true).
  { split.
    - intros Hf. assert (Ha : Forall (fun g => exists c, g = [c] /\ service_char c = true) (groups name)).
      { apply list.Forall_forall. intros g Hin. assert (Hn := List.find_none _ _ Hf g). apply list_elem_of_In in Hin.
        specialize (Hn Hin). apply negb_false_iff in Hn. destruct g as [|c [|]]; try done. by exists c. }
      rewrite <- (groups_concat name). clear -Ha. induction Ha as [|g gs (c & -> & Hc) _ IH]; [done|]. cbn. by rewrite Hc, IH.
    - intros Hs. assert (Ha : ascii_text name).
      { apply list.Forall_forall. intros c Hin%list_elem_of_In. rewrite forallb_forall in Hs. specialize (Hs c Hin).
        unfold service_char, is_ascii_alphanumeric in Hs. lia. }
      rewrite groups_ascii by done. clear Ha. induction name as [|c name IH]; [done|]. cbn in *.
      apply andb_true_iff in Hs as [-> Hs]. by apply IH. }
  unfold validate_service_name. destruct (bytes_eqb_spec name []) as [->|Hne]; [split; [done|cbn; lia]|].
  destruct (MAX_NAME_LEN <? length name) eqn:Hl; [apply Nat.ltb_lt in Hl; split; [done|lia]|]. apply Nat.ltb_ge in Hl.
  assert (H1 : 1 <= length name) by (destruct name; [done|cbn; lia]). rewrite <- Hg.
  destruct (bytes_eqb_spec name (bs ".")) as [->|_]; [split; [done|intros (_ & _ & Hh & _); by destruct Hh]|].
  destruct (bytes_eqb_spec name (bs "..")) as [->|_]; [split; [done|intros (_ & _ & Hh & _); by destruct Hh]|]. cbn [orb].
  destruct name as [|c name]; [done|]. unfold starts_with. change (bs ".") with [46%Z]. change (bs "-") with [45%Z].
  cbn [strip_prefix head].
  destruct (Z.eqb_spec 46 c) as [<-|H46]; [split; [done|intros (_ & _ & Hh & _); by destruct Hh]|].
  destruct (Z.eqb_spec 45 c) as [<-|H45]; [split; [done|intros (_ & _ & _ & Hh); by destruct Hh]|].
  destruct (List.find _ _); [split; [done|intros (_ & [=] & _)]|]. split; [|done]. intros _.
  split_and!; [done|done|done|congruence|congruence].
Qed.

(** ** UTF-8 *)

Lemma utf8_next_start s : s <> [] -> (utf8_next s).1 = true -> starts_char s.
Proof.
  destruct s as [|b s]; [done|]. intros _. unfold utf8_next, starts_char, is_char_start. cbn [byte_at lookup list_lookup default].
  change (byte_at (b :: s) 0) with b.
  destruct (128 <=? b)%Z eqn:H1, (b <? 192)%Z eqn:H2; cbn; try done.
  assert (b <? 128 = false)%Z as -> by lia. assert (0xc2 <=? b = false)%Z as -> by lia.
  assert (0xe0 <=? b = false)%Z as -> by lia. assert (0xf0 <=? b = false)%Z as -> by lia. done.
Qed.

Lemma second_ok_high b c : second_ok3 b c = true \/ second_ok4 b c = true -> (128 <= c)%Z.
Proof. unfold second_ok3, second_ok4. intros [H|H]; repeat case_match; lia. Qed.

Lemma utf8_next_length s n : utf8_next s = (true, n) -> 1 <= n /\
  forall i, 1 <= i < n -> (128 <= byte_at s i)%Z.
Proof.
  unfold utf8_next, is_cont. intros H.
  repeat match goal with
         | H : (if ?b then _ else _) = _ |- _ => destruct b eqn:?; try discriminate
         | H : negb (second_ok3 _ _) = false |- _ => apply negb_false_iff in H; assert (Hs := second_ok_high _ _ (or_introl H)); clear H
         | H : negb (second_ok4 _ _) = false |- _ => apply negb_false_iff in H; assert (Hs := second_ok_high _ _ (or_intror H)); clear H
         end; injection H as <-; (split; [lia|]); intros i Hi;
    (assert (i = 1 \/ i = 2 \/ i = 3) as [->|[->| ->]] by lia); lia.
Qed.

(** In UTF-8 text what follows an ASCII byte starts a character. *)
Lemma utf8_after_ascii fuel s a c b : length s <= fuel -> utf8_loop fuel s = true -> s = a ++ c :: b -> (0 <= c < 128)%Z -> starts_char b.
Proof.
  revert s a. induction fuel as [|fuel IH]; intros s a Hf Hu Hs Hc; [by subst; rewrite length_app in Hf; cbn in Hf; lia|].
  destruct s as [|x s]; [by destruct a|]. cbn [utf8_loop] in Hu. destruct (utf8_next (x :: s)) as [ok n] eqn:Hn.
  apply andb_true_iff in Hu as [-> Hu]. destruct (utf8_next_length _ _ Hn) as [H1 Hi].
  destruct (decide (length a < n)) as [Hlt|Hge].
  - destruct a as [|y a].
    + injection Hs as -> ->. assert (n = 1) as ->.
      { unfold utf8_next in Hn. change (byte_at (c :: b) 0) with c in Hn. rewrite (proj2 (Z.ltb_lt c 128)) in Hn by lia. by injection Hn. }
      change (drop 1 (c :: b)) with b in Hu. destruct b as [|y b]; [done|]. destruct fuel as [|fuel]; [cbn in Hf; lia|]. cbn [utf8_loop] in Hu.
      destruct (utf8_next (y :: b)) as [ok m] eqn:Hm. apply andb_true_iff in Hu as [-> _]. apply utf8_next_start; [done|by rewrite Hm].
    + specialize (Hi (length (y :: a))). unfold byte_at in Hi. rewrite Hs, list_lookup_middle in Hi by done. cbn in Hi, Hlt. lia.
  - apply (IH (drop n (x :: s)) (drop n a)); [rewrite length_drop; lia|done| |done]. rewrite Hs, drop_app_le by lia. done.
Qed.

Lemma utf8_lossy_id s : is_utf8 s = true -> from_utf8_lossy s = s.
Proof.
  unfold is_utf8, from_utf8_lossy. generalize (Nat.le_refl (length s)). generalize (length s) at 2 3 4 as fuel.
  intros fuel. revert s. induction fuel as [|fuel IH]; intros s Hf Hu; [by destruct s; [|cbn in Hf; lia]|].
  destruct s as [|x s]; [done|]. cbn [utf8_loop lossy_loop] in *. destruct (utf8_next (x :: s)) as [ok n] eqn:Hn.
  apply andb_true_iff in Hu as [-> Hu]. destruct (utf8_next_length _ _ Hn) as [H1 _].
  rewrite IH by (rewrite ?length_drop; cbn in *; lia || done). apply take_drop.
Qed.

Lemma no_control_no_newline s : is_utf8 s = true -> has_control s = false -> 10%Z ∉ s.
Proof.
  intros Hu Hc (a & b & ->)%list_elem_of_split. revert Hc. apply not_false_iff_true.
  assert (Hb : starts_char b) by (eapply utf8_after_ascii; [|exact Hu| |]; [done|done|lia]).
  unfold has_control. rewrite groups_app by done. change (10%Z :: b) with ([10%Z] ++ b). rewrite groups_app by done.
  rewrite !existsb_app. cbn. by rewrite orb_true_r.
Qed.

Lemma valid_env_path `{UnicodeDebug} p : validate_env_file_path p = Ok tt ->
  is_absolute p = true /\ from_utf8_lossy p = p /\ 10%Z ∉ p.
Proof.
  unfold validate_env_file_path. destruct (is_absolute p); cbn; [|done]. destruct (is_utf8 p) eqn:Hu; cbn; [|done].
  destruct (has_control p) eqn:Hc; [done|]. intros _. split_and!; [done|by apply utf8_lossy_id|by apply no_control_no_newline].
Qed.

(** * What is written reads back *)

Definition key_char (c : Z) : bool := is_ascii_alphanumeric c || (c =? 95)%Z.
Definition identifier (k : bytes) : Prop := k <> [] /\ Forall (fun c => key_char c = true) k.

(** No white space at either end. *)
Definition not_space (o : option Z) : Prop := match o with Some c => systemd_space c = false | None => True end.
Definition trimmed (s : bytes) : Prop := not_space (head s) /\ not_space (list.last s).

Lemma trimmed_id s : trimmed s -> sys_trim s = s.
Proof.
  intros [Hh Hl]. unfold sys_trim, sys_trim_start, trim_end_matches. rewrite (drop_while_fix _ s) by by destruct s.
  rewrite drop_while_fix; [apply reverse_involutive|].
  rewrite <- (reverse_involutive s), last_reverse in Hl. by destruct (reverse s).
Qed.

Lemma key_not_space k : Forall (fun c => key_char c = true) k -> Forall (fun c => systemd_space c = false) k.
Proof. intros Hk. eapply Forall_impl; [exact Hk|]. intros c Hc. cbn in Hc. unfold key_char, is_ascii_alphanumeric, systemd_space in *. lia. Qed.

Lemma not_space_head s : Forall (fun c => systemd_space c = false) s -> not_space (head s).
Proof. by intros [|]. Qed.

Lemma not_space_last s : Forall (fun c => systemd_space c = false) s -> not_space (list.last s).
Proof. intros H. destruct (list.last s) eqn:E; [|done]. apply last_Some_elem_of in E. rewrite list.Forall_forall in H. by apply H. Qed.

(** A line [k=v] declares [k]. *)
Lemma assignment_line k v : identifier k -> not_space (list.last v) -> parse_env_line (k ++ [61%Z] ++ v) = Declares k (unquote (sys_trim v)).
Proof.
  intros [Hne Hk] Hv. unfold parse_env_line. assert (Hns := key_not_space k Hk).
  assert (Htk : trimmed k) by (split; [by apply not_space_head|by apply not_space_last]).
  rewrite (trimmed_id (k ++ [61%Z] ++ v)).
  2: { split; [by destruct k; [|destruct Htk]|]. rewrite app_assoc, last_app. destruct (list.last v); [done|]. by rewrite last_snoc. }
  assert (H61 : 61%Z ∉ k).
  { intros Hin. rewrite list.Forall_forall in Hk. specialize (Hk _ Hin). unfold key_char, is_ascii_alphanumeric in Hk. lia. }
  assert (Hq : bytes_eqb (k ++ [61%Z] ++ v) [] || starts_with (bs "#") (k ++ [61%Z] ++ v) || starts_with (bs ";") (k ++ [61%Z] ++ v) = false).
  { destruct k as [|c k]; [done|]. apply Forall_cons in Hk as [Hc _]. unfold starts_with.
    change (bs "#") with [35%Z]. change (bs ";") with [59%Z]. cbn [app strip_prefix bytes_eqb].
    unfold key_char, is_ascii_alphanumeric in Hc. rewrite !(proj2 (Z.eqb_neq _ _)) by lia. done. }
  rewrite Hq. rewrite (proj2 (split_once_Some _ _ k v)) by done. rewrite (trimmed_id k Htk).
  destruct (bytes_eqb_spec k []); [done|]. cbn [orb]. destruct (existsb is_space (groups k)) eqn:Hs; [|done].
  exfalso. apply existsb_exists in Hs as (g & Hin & Hg). rewrite groups_ascii in Hin.
  - apply in_map_iff in Hin as (c & <- & Hin). apply list_elem_of_In in Hin. rewrite list.Forall_forall in Hk. specialize (Hk _ Hin).
    unfold is_space, decode_group, char_is_whitespace, key_char, is_ascii_alphanumeric in *. lia.
  - eapply Forall_impl; [exact Hk|]. intros c Hc. unfold key_char, is_ascii_alphanumeric in Hc. cbn in *. lia.
Qed.

Lemma unquote_plain v : match head v with Some q => is_quote q = false | None => True end -> unquote v = v.
Proof. destruct v as [|q v]; [done|]. unfold unquote. cbn. by intros ->. Qed.

Lemma unquote_section q v : is_quote q = true -> q ∉ v -> unquote ([q] ++ v ++ [q]) = v.
Proof.
  intros Hq Hv. unfold unquote. cbn [app length unquote_loop]. rewrite Hq.
  rewrite (proj2 (split_once_Some q (v ++ [q]) v [])) by done. cbn [app sys_trim_start drop_while].
  destruct (length (v ++ [q])); cbn [unquote_loop]; apply app_nil_r.
Qed.

Lemma str_lines_concat ls : Forall (fun l => 10%Z ∉ l) ls -> str_lines (concat (map (fun l => l ++ [10%Z]) ls)) = map strip_cr ls.
Proof.
  intros Hl. unfold str_lines.
  assert (Hs : split 10%Z (concat (map (fun l => l ++ [10%Z]) ls)) = ls ++ [[]]).
  { induction Hl as [|l ls Hl _ IH]; [done|]. cbn. rewrite <- app_assoc. cbn. by rewrite split_app, IH. }
  rewrite Hs, removelast_last, last_snoc. apply app_nil_r.
Qed.

Lemma strip_cr_id s : list.last s <> Some 13%Z -> strip_cr s = s.
Proof.
  intros H. unfold strip_cr, strip_suffix_byte. rewrite <- (reverse_involutive s), last_reverse in H.
  destruct (reverse s) as [|c s'] eqn:E; [done|]. cbn in *. destruct (Z.eqb_spec c 13) as [->|]; done.
Qed.

(** A value in quotes that it does not hold. *)
Definition env_quote (v : bytes) : bytes := if bool_decide (34%Z ∈ v) then [39%Z] ++ v ++ [39%Z] else [34%Z] ++ v ++ [34%Z].

(** A quoted setting reads back: a file of lines [KEY="value"], with single quotes
    where the value holds double ones, parses to exactly those settings in order,
    white space and comment characters in the values included, and no line of it
    is ignored. *)
Theorem quoted_settings_read_back ps :
  Forall (fun kv => identifier kv.1 /\ 10%Z ∉ kv.2 /\ ~ (34%Z ∈ kv.2 /\ 39%Z ∈ kv.2)) ps ->
  parse_env_file_reporting (concat (map (fun kv => kv.1 ++ [61%Z] ++ env_quote kv.2 ++ [10%Z]) ps)) = mkParsedEnv ps [].
Proof.
  intros Hps. unfold parse_env_file_reporting.
  rewrite (map_ext _ (fun kv => (fun l => l ++ [10%Z]) (kv.1 ++ [61%Z] ++ env_quote kv.2))) by (intros kv; by rewrite <- !app_assoc).
  rewrite <- (map_map (fun kv => kv.1 ++ [61%Z] ++ env_quote kv.2) (fun l => l ++ [10%Z])).
  assert (Hq : forall kv, exists q, env_quote kv.2 = [q] ++ kv.2 ++ [q] /\ is_quote q = true /\ (~ (34%Z ∈ kv.2 /\ 39%Z ∈ kv.2) -> q ∉ (kv : bytes * bytes).2)).
  { intros kv. unfold env_quote. case_bool_decide; [exists 39%Z|exists 34%Z]; naive_solver. }
  assert (Hk10 : forall k, identifier k -> 10%Z ∉ k).
  { intros k [_ Hk%key_not_space] Hin. rewrite list.Forall_forall in Hk. by specialize (Hk _ Hin). }
  rewrite str_lines_concat.
  2: { apply Forall_fmap. eapply Forall_impl; [exact Hps|]. intros kv (Hk & Hv & _). cbn. destruct (Hq kv) as (q & -> & Hqq & _).
       specialize (Hk10 _ Hk). assert (Hq10 : q <> 10%Z) by (intros ->; done). apply not_elem_of_app. split; [done|]. cbn.
       rewrite !not_elem_of_cons, not_elem_of_app, list_elem_of_singleton. by split_and!. }
  rewrite map_map. generalize 0 as n. induction Hps as [|[k v] ps (Hk & Hv & Hno) _ IH]; intros n; [done|]. cbn [map fst snd] in *.
  destruct (Hq (k, v)) as (q & Hqe & Hqq & Hqv). cbn [snd] in *. rewrite Hqe. specialize (Hqv Hno).
  assert (Hlast : list.last (k ++ [61%Z] ++ [q] ++ v ++ [q]) = Some q) by (rewrite !app_assoc; apply last_snoc).
  assert (Hsp : systemd_space q = false) by (unfold is_quote, systemd_space in *; lia).
  rewrite strip_cr_id by (rewrite Hlast; intros [= ->]; done). cbn [parse_env_lines].
  rewrite assignment_line by (done || by rewrite app_assoc, last_snoc).
  rewrite (trimmed_id ([q] ++ v ++ [q])) by (split; [done|by rewrite app_assoc, last_snoc]).
  rewrite unquote_section by done. by rewrite IH.
Qed.

(** * Witnesses *)

Lemma quoted_settings_read_back_witness :
  let ps := [(bs "MODEL", bs " a # b "); (bs "URL_2", [34%Z] ++ bs "x")] in
  parse_env_file_reporting (concat (map (fun kv => kv.1 ++ [61%Z] ++ env_quote kv.2 ++ [10%Z]) ps)) = mkParsedEnv ps [].
Proof.
  cbn zeta. apply quoted_settings_read_back.
  repeat constructor; cbn; try discriminate; try (intros H; vm_compute in H; set_solver); try (intros [H1 H2]; vm_compute in H1, H2; set_solver).
Defined.
