(* ===== verification/UnitFile.v ===== *)
(** Unit files (src/supervisor/src/lib.rs, specs.rs,
    systemd_user/builder.rs, launchd_agents/builders.rs): the declarative spec of
    a service, the specs of the agent's own services, and the two renderings of a
    spec, a systemd unit and a launchd property list.

    Paths are bytes, rendered through [from_utf8_lossy]; the quoting and the
    escaping replace ASCII characters only, so they act on bytes. *)

From stdpp Require Import base list gmap sets numbers strings pretty.
From Stdlib Require Import ZArith Lia.
From S2P Require Import Prelude RustStr Json AskMessage ResultView Sandbox EnvFile.
Local Open Scope nat_scope.

(** * Specs (lib.rs, specs.rs) *)

Record RestartBackoff := mkRestartBackoff { max_delay_sec : N; steps : N }.

Record ServiceSpec := mkServiceSpec {
  ss_name : bytes;
  ss_program : bytes;
  ss_args : list bytes;
  ss_env : list (bytes * bytes);
  ss_working_dir : option bytes;
  ss_keep_alive : bool;
  ss_stdout_log : option bytes;
  ss_stderr_log : option bytes;
  ss_after : list bytes;
  ss_part_of : option bytes;
  ss_restart_backoff : option RestartBackoff;
  ss_environment_files : list EnvFileRef }.

Record TargetSpec := mkTargetSpec { ts_name : bytes; ts_members : list bytes }.

Definition CORE_SERVICE_NAME : bytes := bs "kastellan-core".
Definition POSTGRES_SERVICE_NAME : bytes := bs "kastellan-postgres".
Definition GUARD_SERVICE_NAME : bytes := bs "kastellan-guard".
Definition GUARD_CONTEXT_TOKENS : N := 131072.
Definition KASTELLAN_TARGET_NAME : bytes := bs "kastellan".

Definition show_N (n : N) : bytes := bs (pretty n).

Definition core_service_spec (binary log_dir : bytes) : ServiceSpec :=
  mkServiceSpec CORE_SERVICE_NAME binary [] [(bs "KASTELLAN_EGRESS_FORCE_ROUTING", bs "1")] None true
    (Some (path_join log_dir (CORE_SERVICE_NAME ++ bs ".out"))) (Some (path_join log_dir (CORE_SERVICE_NAME ++ bs ".err")))
    [POSTGRES_SERVICE_NAME] (Some KASTELLAN_TARGET_NAME) (Some (mkRestartBackoff 300 8)) [].

Definition postgres_service_spec (postgres_binary data_dir log_dir : bytes) : ServiceSpec :=
  mkServiceSpec POSTGRES_SERVICE_NAME postgres_binary [bs "-D"; from_utf8_lossy data_dir] [] None true
    (Some (path_join log_dir (POSTGRES_SERVICE_NAME ++ bs ".out"))) (Some (path_join log_dir (POSTGRES_SERVICE_NAME ++ bs ".err")))
    [] (Some KASTELLAN_TARGET_NAME) (Some (mkRestartBackoff 300 8)) [].

Definition guard_service_spec (server model alias : bytes) (port : N) (log_dir : bytes) : ServiceSpec :=
  mkServiceSpec GUARD_SERVICE_NAME server
    [bs "-m"; from_utf8_lossy model; bs "--alias"; alias; bs "--host"; bs "127.0.0.1"; bs "--port"; show_N port;
     bs "-c"; show_N GUARD_CONTEXT_TOKENS; bs "-ngl"; bs "99"]
    [] None true
    (Some (path_join log_dir (GUARD_SERVICE_NAME ++ bs ".out"))) (Some (path_join log_dir (GUARD_SERVICE_NAME ++ bs ".err")))
    [] (Some KASTELLAN_TARGET_NAME) (Some (mkRestartBackoff 300 8)) [].

Definition kastellan_target_spec : TargetSpec :=
  mkTargetSpec KASTELLAN_TARGET_NAME [POSTGRES_SERVICE_NAME; CORE_SERVICE_NAME].

(** * systemd (builder.rs) *)

Definition DEFAULT_TIMEOUT_STOP_SEC : N := 10.
Definition DEFAULT_RESTART_SEC : N := 5.

Definition fragile (c : Z) : bool := ((c =? 32) || (c =? 9) || (c =? 34) || (c =? 92) || (c =? 10) || (c =? 13))%Z.

Definition escape_char (c : Z) : bytes :=
  if ((c =? 34) || (c =? 92))%Z then [92%Z; c]
  else if (c =? 10)%Z then bs "\n"
  else if (c =? 13)%Z then bs "\r"
  else [c].

Definition quote_if_needed (s : bytes) : bytes :=
  if bytes_eqb s [] || existsb fragile s then [34%Z] ++ concat (map escape_char s) ++ [34%Z] else s.

(** A line of the file. *)
Definition ln (s : bytes) : bytes := s ++ [10%Z].

Definition opt_ln {A} (o : option A) (f : A -> bytes) : bytes := match o with Some x => ln (f x) | None => [] end.

Definition exec_start (spec : ServiceSpec) : bytes :=
  bs "ExecStart=" ++ quote_if_needed (from_utf8_lossy (ss_program spec))
  ++ concat (map (fun a => [32%Z] ++ quote_if_needed a) (ss_args spec)).

Definition environment_line (kv : bytes * bytes) : bytes := bs "Environment=" ++ quote_if_needed (kv.1 ++ [61%Z] ++ kv.2).

Definition environment_file_line (ef : EnvFileRef) : bytes :=
  bs "EnvironmentFile=" ++ (if ef_optional ef then bs "-" else []) ++ from_utf8_lossy (ef_path ef).

Definition build_unit_file (spec : ServiceSpec) : bytes :=
  ln (bs "[Unit]")
  ++ ln (bs "Description=kastellan service: " ++ ss_name spec)
  ++ concat (map (fun dep => ln (bs "After=" ++ dep ++ bs ".service")) (ss_after spec))
  ++ opt_ln (ss_part_of spec) (fun target => bs "PartOf=" ++ target ++ bs ".target")
  ++ ln []
  ++ ln (bs "[Service]")
  ++ ln (bs "Type=simple")
  ++ ln (exec_start spec)
  ++ concat (map (fun kv => ln (environment_line kv)) (ss_env spec))
  ++ concat (map (fun ef => ln (environment_file_line ef)) (ss_environment_files spec))
  ++ opt_ln (ss_working_dir spec) (fun d => bs "WorkingDirectory=" ++ quote_if_needed (from_utf8_lossy d))
  ++ opt_ln (ss_stdout_log spec) (fun l => bs "StandardOutput=append:" ++ quote_if_needed (from_utf8_lossy l))
  ++ opt_ln (ss_stderr_log spec) (fun l => bs "StandardError=append:" ++ quote_if_needed (from_utf8_lossy l))
  ++ (if ss_keep_alive spec then
        ln (bs "Restart=on-failure") ++ ln (bs "RestartSec=" ++ show_N DEFAULT_RESTART_SEC)
        ++ match ss_restart_backoff spec with
           | Some b => ln (bs "RestartSteps=" ++ show_N (steps b)) ++ ln (bs "RestartMaxDelaySec=" ++ show_N (max_delay_sec b))
           | None => []
           end
      else [])
  ++ ln (bs "TimeoutStopSec=" ++ show_N DEFAULT_TIMEOUT_STOP_SEC)
  ++ ln []
  ++ ln (bs "[Install]")
  ++ match ss_part_of spec with
     | Some target => ln (bs "WantedBy=" ++ target ++ bs ".target")
     | None => ln (bs "WantedBy=default.target")
     end.

Definition build_target_unit (target : TargetSpec) : bytes :=
  ln (bs "[Unit]")
  ++ ln (bs "Description=kastellan service bundle: " ++ ts_name target)
  ++ match ts_members target with
     | [] => []
     | ms => ln (bs "Wants=" ++ join [32%Z] (map (fun m => m ++ bs ".service") ms))
     end
  ++ ln []
  ++ ln (bs "[Install]")
  ++ ln (bs "WantedBy=default.target").

(** * launchd (builders.rs) *)

Definition DEFAULT_EXIT_TIMEOUT_SEC : N := 10.

Definition xml_escape_char (c : Z) : bytes :=
  if (c =? 38)%Z then bs "&amp;"
  else if (c =? 60)%Z then bs "&lt;"
  else if (c =? 62)%Z then bs "&gt;"
  else if (c =? 34)%Z then bs "&quot;"
  else if (c =? 39)%Z then bs "&apos;"
  else [c].

Definition xml_escape (s : bytes) : bytes := concat (map xml_escape_char s).

Definition key_line (indent s : bytes) : bytes := ln (indent ++ bs "<key>" ++ s ++ bs "</key>").
Definition string_line (indent s : bytes) : bytes := ln (indent ++ bs "<string>" ++ s ++ bs "</string>").

(** A key with the path it holds, when it is set. *)
Definition path_entry (key : bytes) (o : option bytes) : bytes :=
  match o with
  | Some p => key_line (bs "    ") key ++ string_line (bs "    ") (xml_escape (from_utf8_lossy p))
  | None => []
  end.

Definition Q : bytes := [34%Z].

Definition build_plist (spec : ServiceSpec) : bytes :=
  ln (bs "<?xml version=" ++ Q ++ bs "1.0" ++ Q ++ bs " encoding=" ++ Q ++ bs "UTF-8" ++ Q ++ bs "?>")
  ++ ln (bs "<!DOCTYPE plist PUBLIC " ++ Q ++ bs "-//Apple//DTD PLIST 1.0//EN" ++ Q ++ bs " " ++ Q
         ++ bs "http://www.apple.com/DTD/PropertyList-1.0.dtd" ++ Q ++ bs ">")
  ++ ln (bs "<plist version=" ++ Q ++ bs "1.0" ++ Q ++ bs ">")
  ++ ln (bs "<dict>")
  ++ key_line (bs "    ") (bs "Label") ++ string_line (bs "    ") (xml_escape (ss_name spec))
  ++ key_line (bs "    ") (bs "ProgramArguments")
  ++ ln (bs "    <array>")
  ++ string_line (bs "        ") (xml_escape (from_utf8_lossy (ss_program spec)))
  ++ concat (map (fun a => string_line (bs "        ") (xml_escape a)) (ss_args spec))
  ++ ln (bs "    </array>")
  ++ match ss_env spec with
     | [] => []
     | env => key_line (bs "    ") (bs "EnvironmentVariables") ++ ln (bs "    <dict>")
              ++ concat (map (fun kv => key_line (bs "        ") (xml_escape kv.1) ++ string_line (bs "        ") (xml_escape kv.2)) env)
              ++ ln (bs "    </dict>")
     end
  ++ path_entry (bs "WorkingDirectory") (ss_working_dir spec)
  ++ path_entry (bs "StandardOutPath") (ss_stdout_log spec)
  ++ path_entry (bs "StandardErrorPath") (ss_stderr_log spec)
  ++ key_line (bs "    ") (bs "RunAtLoad") ++ ln (bs "    <true/>")
  ++ key_line (bs "    ") (bs "KeepAlive") ++ (if ss_keep_alive spec then ln (bs "    <true/>") else ln (bs "    <false/>"))
  ++ key_line (bs "    ") (bs "ExitTimeOut") ++ ln (bs "    <integer>" ++ show_N DEFAULT_EXIT_TIMEOUT_SEC ++ bs "</integer>")
  ++ ln (bs "</dict>")
  ++ ln (bs "</plist>").

(** * The driver's checks (systemd_user.rs, launchd_agents.rs) *)

Section Checks.
Context `{UnicodeDebug}.

Fixpoint each_name (names : list bytes) : result () SupervisorError :=
  match names with
  | [] => Ok tt
  | n :: rest => match validate_service_name n with Ok _ => each_name rest | Err e => Err e end
  end.

Fixpoint each_env_file (files : list EnvFileRef) : result () SupervisorError :=
  match files with
  | [] => Ok tt
  | ef :: rest => match validate_env_file_path (ef_path ef) with Ok _ => each_env_file rest | Err e => Err e end
  end.

Definition must_be_absolute (field : bytes) (p : bytes) : result () SupervisorError :=
  if is_absolute p then Ok tt else Err (Io (field ++ bs " must be absolute, got " ++ from_utf8_lossy p)).

Fixpoint each_path (check : bytes -> bytes -> result () SupervisorError) (fields : list (bytes * bytes)) : result () SupervisorError :=
  match fields with
  | [] => Ok tt
  | (field, p) :: rest => match check field p with Ok _ => each_path check rest | Err e => Err e end
  end.

Definition no_control_chars (field p : bytes) : result () SupervisorError :=
  if has_control (from_utf8_lossy p) then Err (Io (field ++ bs " must not contain control characters, got " ++ path_debug p)) else Ok tt.

Definition optional_paths (spec : ServiceSpec) : list (bytes * bytes) :=
  map (fun p => (bs "working_dir", p)) (opt_list (ss_working_dir spec))
  ++ map (fun p => (bs "stdout_log", p)) (opt_list (ss_stdout_log spec))
  ++ map (fun p => (bs "stderr_log", p)) (opt_list (ss_stderr_log spec)).

(** The checks both backends make on paths. *)
Definition check_paths (spec : ServiceSpec) : result () SupervisorError :=
  match each_path must_be_absolute (optional_paths spec ++ [(bs "program", ss_program spec)]) with
  | Err e => Err e
  | Ok _ => each_env_file (ss_environment_files spec)
  end.

(** What [write_unit_file] checks before it writes. *)
Definition check_unit_spec (spec : ServiceSpec) : result () SupervisorError :=
  match each_name (ss_name spec :: ss_after spec ++ opt_list (ss_part_of spec)) with
  | Err e => Err e
  | Ok _ =>
      match check_paths spec with
      | Err e => Err e
      | Ok _ => each_path no_control_chars ((bs "program", ss_program spec) :: optional_paths spec)
      end
  end.

End Checks.

(** * Lemmas *)

Lemma show_N_decimal n : Forall (fun c => is_decimal c = true) (show_N n).
Proof.
  unfold show_N, pretty, pretty_N. case_decide; [by repeat constructor|]. apply pretty_go_decimal. constructor.
Qed.

Lemma show_N_no_newline n : 10%Z ∉ show_N n.
Proof. intros Hin. assert (Hd := show_N_decimal n). rewrite list.Forall_forall in Hd. by specialize (Hd _ Hin). Qed.

Lemma valid_name_no_newline `{UnicodeDebug} n : validate_service_name n = Ok tt -> 10%Z ∉ n.
Proof.
  intros (_ & Hs & _)%valid_service_names Hin%list_elem_of_In. rewrite forallb_forall in Hs. by specialize (Hs _ Hin).
Qed.

Lemma each_name_Forall `{UnicodeDebug} names : each_name names = Ok tt -> Forall (fun n => validate_service_name n = Ok tt) names.
Proof.
  induction names as [|n names IH]; cbn; [done|]. destruct (validate_service_name n) as [[]|] eqn:E; [|done].
  intros Hr. constructor; [done|by apply IH].
Qed.

Lemma each_env_file_Forall `{UnicodeDebug} files : each_env_file files = Ok tt ->
  Forall (fun ef => validate_env_file_path (ef_path ef) = Ok tt) files.
Proof.
  induction files as [|ef files IH]; cbn; [done|]. destruct (validate_env_file_path (ef_path ef)) as [[]|] eqn:E; [|done].
  intros Hr. constructor; [done|by apply IH].
Qed.

Lemma each_path_Forall check fields : each_path check fields = Ok tt -> Forall (fun fp => check fp.1 fp.2 = Ok tt) fields.
Proof.
  induction fields as [|[f p] fields IH]; cbn; [done|]. destruct (check f p) as [[]|] eqn:E; [|done].
  intros Hr. constructor; [done|by apply IH].
Qed.

(** ** Quoting *)

Lemma quoted_no_newline s : 10%Z ∉ quote_if_needed s.
Proof.
  unfold quote_if_needed. destruct (bytes_eqb s [] || existsb fragile s) eqn:E.
  - intros [Hin|[Hin|Hin]%elem_of_app]%elem_of_app; [set_solver| |set_solver].
    apply list_elem_of_In, in_concat in Hin as (x & (c & <- & _)%in_map_iff & Hin). unfold escape_char in Hin.
    destruct ((c =? 34) || (c =? 92))%Z eqn:E1; [cbn in Hin; lia|]. destruct (c =? 10)%Z eqn:E2; [vm_compute in Hin; lia|].
    destruct (c =? 13)%Z eqn:E3; [vm_compute in Hin; lia|cbn in Hin; lia].
  - intros Hin%list_elem_of_In. apply orb_false_iff in E as [_ E]. assert (existsb fragile s = true); [|congruence].
    apply existsb_exists. by exists 10%Z.
Qed.

(** The word at the head of a text, and what follows it. *)
Fixpoint read_quoted (s : bytes) : option (bytes * bytes) :=
  match s with
  | [] => None
  | c :: rest =>
      if (c =? 34)%Z then Some ([], rest)
      else if (c =? 92)%Z then
        match rest with
        | [] => None
        | e :: rest' =>
            match read_quoted rest' with
            | Some (w, r) => Some ((if (e =? 110)%Z then 10%Z else if (e =? 114)%Z then 13%Z else e) :: w, r)
            | None => None
            end
        end
      else match read_quoted rest with Some (w, r) => Some (c :: w, r) | None => None end
  end.

Fixpoint read_bare (s : bytes) : bytes * bytes :=
  match s with
  | [] => ([], [])
  | c :: rest => if (c =? 32)%Z then ([], s) else let '(w, r) := read_bare rest in (c :: w, r)
  end.

Definition read_word (s : bytes) : option (bytes * bytes) :=
  match s with
  | c :: rest => if (c =? 34)%Z then read_quoted rest else Some (read_bare s)
  | [] => Some ([], [])
  end.

Lemma read_quoted_escaped w rest : read_quoted (concat (map escape_char w) ++ [34%Z] ++ rest) = Some (w, rest).
Proof.
  induction w as [|c w IH]; [done|]. cbn [map concat]. rewrite <- app_assoc. unfold escape_char at 1.
  destruct ((c =? 34) || (c =? 92))%Z eqn:E1.
  { cbn [app read_quoted]. cbn. cbn in IH. rewrite IH. assert ((c =? 110)%Z = false) as -> by lia. assert ((c =? 114)%Z = false) as -> by lia. done. }
  destruct (c =? 10)%Z eqn:E2; [assert (c = 10%Z) as -> by lia; cbn; cbn in IH; by rewrite IH|].
  destruct (c =? 13)%Z eqn:E3; [assert (c = 13%Z) as -> by lia; cbn; cbn in IH; by rewrite IH|].
  apply orb_false_iff in E1 as [E34 E92]. cbn [app read_quoted]. rewrite E34, E92. cbn in IH. cbn. by rewrite IH.
Qed.

Lemma read_bare_word w rest : Forall (fun c => c <> 32%Z) w -> (rest = [] \/ exists r, rest = 32%Z :: r) -> read_bare (w ++ rest) = (w, rest).
Proof.
  intros Hw Hr. induction Hw as [|c w Hc _ IH]; cbn; [by destruct Hr as [->|[r ->]]|].
  rewrite (proj2 (Z.eqb_neq c 32)) by done. by rewrite IH.
Qed.

Lemma read_word_quoted w rest : (rest = [] \/ exists r, rest = 32%Z :: r) -> read_word (quote_if_needed w ++ rest) = Some (w, rest).
Proof.
  intros Hr. unfold quote_if_needed. destruct (bytes_eqb_spec w []) as [->|Hne]; [done|]. cbn [orb].
  destruct (existsb fragile w) eqn:E.
  - rewrite <- app_assoc. cbn [app read_word]. cbn. rewrite <- app_assoc. apply read_quoted_escaped.
  - assert (Hf : Forall (fun c => fragile c = false) w).
    { apply list.Forall_forall. intros c Hc%list_elem_of_In. apply not_true_iff_false. intros Hx.
      assert (existsb fragile w = true); [apply existsb_exists; by exists c|congruence]. }
    destruct w as [|c w]; [done|]. unfold read_word. cbn [app]. assert (Hc := Forall_inv Hf). unfold fragile in Hc.
    assert ((c =? 34)%Z = false) as -> by lia. f_equal. apply (read_bare_word (c :: w)); [|done].
    eapply Forall_impl; [exact Hf|]. intros x Hx. unfold fragile in Hx. cbn in Hx. lia.
Qed.

Definition arg_words (args : list bytes) : bytes := concat (map (fun a => [32%Z] ++ quote_if_needed a) args).

Lemma arg_words_head l : arg_words l = [] \/ exists r, arg_words l = 32%Z :: r.
Proof. destruct l as [|a l]; [by left|right; by eexists]. Qed.

Lemma read_args args args' : arg_words args = arg_words args' -> args = args'.
Proof.
  revert args'. induction args as [|a args IH]; intros [|a' args'] Heq; [done|done|done|].
  change (32%Z :: quote_if_needed a ++ arg_words args = 32%Z :: quote_if_needed a' ++ arg_words args') in Heq. injection Heq as Heq.
  assert (Hw := read_word_quoted a _ (arg_words_head args)). rewrite Heq, read_word_quoted in Hw by apply arg_words_head.
  injection Hw as -> Hw. by rewrite (IH args').
Qed.

(** The command line of a unit is unambiguous: two specs with the same ExecStart
    line run the same program with the same arguments, whatever white space,
    quotes, backslashes and line breaks those hold. *)
Theorem exec_start_is_unambiguous spec spec' :
  exec_start spec = exec_start spec' ->
  from_utf8_lossy (ss_program spec) = from_utf8_lossy (ss_program spec') /\ ss_args spec = ss_args spec'.
Proof.
  unfold exec_start. fold (arg_words (ss_args spec)) (arg_words (ss_args spec')). intros Heq%app_inv_head.
  assert (Hw := read_word_quoted (from_utf8_lossy (ss_program spec)) _ (arg_words_head (ss_args spec))).
  rewrite Heq, read_word_quoted in Hw by apply arg_words_head. injection Hw as Hp Ha. split; [done|]. by apply read_args.
Qed.

(** A word with a single quote and none of the other characters the builder looks
    for is written as it is, without quotes around it. *)
Theorem single_quote_is_not_quoted s : 39%Z ∈ s -> existsb fragile s = false -> quote_if_needed s = s.
Proof. intros Hin Hf. unfold quote_if_needed. destruct (bytes_eqb_spec s []) as [->|_]; [by apply not_elem_of_nil in Hin|]. by rewrite Hf. Qed.

(** ** Lines *)

(** The lines a spec asks for. *)
Definition unit_lines (spec : ServiceSpec) : list bytes :=
  [bs "[Unit]"; bs "Description=kastellan service: " ++ ss_name spec]
  ++ map (fun dep => bs "After=" ++ dep ++ bs ".service") (ss_after spec)
  ++ map (fun target => bs "PartOf=" ++ target ++ bs ".target") (opt_list (ss_part_of spec))
  ++ [[]; bs "[Service]"; bs "Type=simple"; exec_start spec]
  ++ map environment_line (ss_env spec)
  ++ map environment_file_line (ss_environment_files spec)
  ++ map (fun d => bs "WorkingDirectory=" ++ quote_if_needed (from_utf8_lossy d)) (opt_list (ss_working_dir spec))
  ++ map (fun l => bs "StandardOutput=append:" ++ quote_if_needed (from_utf8_lossy l)) (opt_list (ss_stdout_log spec))
  ++ map (fun l => bs "StandardError=append:" ++ quote_if_needed (from_utf8_lossy l)) (opt_list (ss_stderr_log spec))
  ++ (if ss_keep_alive spec then
        [bs "Restart=on-failure"; bs "RestartSec=" ++ show_N DEFAULT_RESTART_SEC]
        ++ concat (map (fun b => [bs "RestartSteps=" ++ show_N (steps b); bs "RestartMaxDelaySec=" ++ show_N (max_delay_sec b)])
             (opt_list (ss_restart_backoff spec)))
      else [])
  ++ [bs "TimeoutStopSec=" ++ show_N DEFAULT_TIMEOUT_STOP_SEC; []; bs "[Install]";
      match ss_part_of spec with Some target => bs "WantedBy=" ++ target ++ bs ".target" | None => bs "WantedBy=default.target" end].

Lemma opt_ln_lines {A} (o : option A) f : opt_ln o f = concat (map ln (map f (opt_list o))).
Proof. destruct o; cbn; [by rewrite app_nil_r|done]. Qed.

Lemma map_ln {A} (f : A -> bytes) l : concat (map (fun x => ln (f x)) l) = concat (map ln (map f l)).
Proof. by rewrite map_map. Qed.

Lemma build_unit_file_lines spec : build_unit_file spec = concat (map ln (unit_lines spec)).
Proof.
  unfold build_unit_file, unit_lines. rewrite !opt_ln_lines, (map_ln (fun dep => bs "After=" ++ dep ++ bs ".service")).
  rewrite (map_ln environment_line), (map_ln environment_file_line), !map_app, !concat_app.
  cbn [map concat]. rewrite !app_nil_r, <- !app_assoc.
  destruct (ss_keep_alive spec), (ss_part_of spec), (ss_restart_backoff spec);
    cbn [opt_list map concat app]; rewrite ?app_nil_r, <- ?app_assoc; reflexivity.
Qed.

(** No line break in a text made of literals and of parts already known. *)
Ltac no_newline :=
  repeat lazymatch goal with
         | |- 10%Z ∉ _ ++ _ => apply not_elem_of_app; split
         | |- 10%Z ∉ bs _ => apply (bool_decide_unpack (10%Z ∉ _)); vm_compute; exact I
         | |- 10%Z ∉ quote_if_needed _ => apply quoted_no_newline
         | |- 10%Z ∉ show_N _ => apply show_N_no_newline
         | |- 10%Z ∉ [] => apply not_elem_of_nil
         | |- 10%Z ∉ _ => assumption
         end.

Lemma Forall_map_no_newline {A} (f : A -> bytes) l : (forall x, x ∈ l -> 10%Z ∉ f x) -> Forall (fun l => 10%Z ∉ l) (map f l).
Proof. intros Hf. apply Forall_fmap, list.Forall_forall. exact Hf. Qed.

Lemma exec_start_no_newline spec : 10%Z ∉ exec_start spec.
Proof.
  unfold exec_start. no_newline. intros Hin%list_elem_of_In. apply in_concat in Hin as (x & (a & <- & _)%in_map_iff & Hin).
  apply list_elem_of_In in Hin. revert Hin. apply not_elem_of_app. split; [set_solver|apply quoted_no_newline].
Qed.

Lemma split_lines ls : Forall (fun l => 10%Z ∉ l) ls -> split 10%Z (concat (map ln ls)) = ls ++ [[]].
Proof. induction 1 as [|l ls Hl _ IH]; [done|]. cbn [map concat]. unfold ln at 1. rewrite <- app_assoc. cbn [app]. by rewrite split_app, IH. Qed.

Lemma checked_spec `{UnicodeDebug} spec : check_unit_spec spec = Ok tt ->
  10%Z ∉ ss_name spec /\ (forall n, n ∈ ss_after spec -> 10%Z ∉ n) /\ (forall n, n ∈ opt_list (ss_part_of spec) -> 10%Z ∉ n) /\
  (forall ef, ef ∈ ss_environment_files spec -> 10%Z ∉ from_utf8_lossy (ef_path ef)).
Proof.
  unfold check_unit_spec, check_paths. destruct (each_name _) as [[]|] eqn:Hn; [|done]. destruct (each_path must_be_absolute _) as [[]|]; [|done].
  destruct (each_env_file _) as [[]|] eqn:He; [|done]. intros _. apply each_name_Forall in Hn. apply each_env_file_Forall in He.
  apply Forall_cons in Hn as [Hname Hn]. apply Forall_app in Hn as [Ha Hp]. rewrite list.Forall_forall in Ha, Hp. rewrite list.Forall_forall in He.
  split_and!; [by apply valid_name_no_newline|intros n Hin; apply valid_name_no_newline; auto..|].
  intros ef Hin. destruct (valid_env_path _ (He ef Hin)) as (_ & -> & Hnl). done.
Qed.

Lemma unit_lines_no_newline `{UnicodeDebug} spec : check_unit_spec spec = Ok tt -> Forall (fun l => 10%Z ∉ l) (unit_lines spec).
Proof.
  intros (Hname & Hafter & Hpart & Hfiles)%checked_spec. unfold unit_lines.
  repeat (apply Forall_app; split); repeat (apply Forall_cons; split); try apply Forall_nil_2; try (apply Forall_map_no_newline; intros x Hx);
    try (unfold environment_line); try (no_newline; fail).
  - specialize (Hafter x Hx). no_newline.
  - specialize (Hpart x Hx). no_newline.
  - apply exec_start_no_newline.
  - specialize (Hfiles x Hx). unfold environment_file_line. destruct (ef_optional x); no_newline.
  - destruct (ss_keep_alive spec); [|constructor]. destruct (ss_restart_backoff spec); cbn [opt_list map concat app];
      repeat (apply Forall_cons; split); try apply Forall_nil_2; no_newline.
  - destruct (ss_part_of spec) as [p|]; [specialize (Hpart p ltac:(left)); no_newline|no_newline].
Qed.

Lemma filter_map_none {A} (p : bytes -> bool) (f : A -> bytes) l : (forall x, p (f x) = false) -> List.filter p (map f l) = [].
Proof. intros Hf. induction l as [|x l IH]; cbn; [done|]. by rewrite Hf. Qed.

(** A unit file says what its spec says and nothing else: for a spec that passed
    the driver's checks, the lines of the file are those of the spec one for one,
    whatever line breaks its arguments, its environment and its paths hold, and
    the only directive that names a command to run is the spec's own. *)
Theorem unit_directives_are_the_specs `{UnicodeDebug} spec : check_unit_spec spec = Ok tt ->
  split 10%Z (build_unit_file spec) = unit_lines spec ++ [[]] /\
  List.filter (starts_with (bs "Exec")) (split 10%Z (build_unit_file spec)) = [exec_start spec].
Proof.
  intros Hc. assert (Hs : split 10%Z (build_unit_file spec) = unit_lines spec ++ [[]]).
  { rewrite build_unit_file_lines. by apply split_lines, unit_lines_no_newline. }
  split; [done|]. rewrite Hs. unfold unit_lines. rewrite !List.filter_app. cbn [List.filter].
  rewrite !filter_map_none by done.
  destruct (ss_keep_alive spec), (ss_part_of spec), (ss_restart_backoff spec); reflexivity.
Qed.

(** The unit of a bundle wants its members and nothing else. *)
Lemma target_unit_lines `{UnicodeDebug} t : each_name (ts_name t :: ts_members t) = Ok tt -> ts_members t <> [] ->
  split 10%Z (build_target_unit t) =
  [bs "[Unit]"; bs "Description=kastellan service bundle: " ++ ts_name t;
   bs "Wants=" ++ join [32%Z] (map (fun m => m ++ bs ".service") (ts_members t)); []; bs "[Install]"; bs "WantedBy=default.target"; []].
Proof.
  intros Hn Hne. apply each_name_Forall, Forall_cons in Hn as [Hname Hm]. unfold build_target_unit. destruct (ts_members t) as [|m ms] eqn:E; [done|].
  set (wants := join _ _). assert (Hw : 10%Z ∉ wants).
  { unfold wants. clear wants E Hne. induction Hm as [|x l Hx Hl IH]; [apply not_elem_of_nil|].
    assert (10%Z ∉ x) by by apply valid_name_no_newline. cbn [map join]. destruct (map _ l) eqn:El; [no_newline|].
    no_newline; set_solver. }
  assert (10%Z ∉ ts_name t) by by apply valid_name_no_newline.
  change (split 10%Z (concat (map ln [bs "[Unit]"; bs "Description=kastellan service bundle: " ++ ts_name t; bs "Wants=" ++ wants; [];
    bs "[Install]"; bs "WantedBy=default.target"])) = [bs "[Unit]"; bs "Description=kastellan service bundle: " ++ ts_name t; bs "Wants=" ++ wants; [];
    bs "[Install]"; bs "WantedBy=default.target"] ++ [[]]).
  apply split_lines. repeat (apply Forall_cons; split); try apply Forall_nil_2; no_newline.
Qed.

(** ** Property lists *)

Lemma xml_escape_markup s : 60%Z ∉ xml_escape s /\ 62%Z ∉ xml_escape s.
Proof.
  assert (Hc : forall c, 60%Z ∉ xml_escape_char c /\ 62%Z ∉ xml_escape_char c).
  { intros c. unfold xml_escape_char.
    repeat case_match; (split; intros Hin%list_elem_of_In; vm_compute in Hin; lia). }
  unfold xml_escape. split; intros Hin%list_elem_of_In; apply in_concat in Hin as (x & (c & <- & _)%in_map_iff & Hin);
    apply list_elem_of_In in Hin; [by apply (proj1 (Hc c))|by apply (proj2 (Hc c))].
Qed.

Lemma xml_escape_inj s s' : xml_escape s = xml_escape s' -> s = s'.
Proof.
  assert (Hc : forall a b x y, xml_escape_char a ++ x = xml_escape_char b ++ y -> a = b /\ x = y).
  { intros a b x y. unfold xml_escape_char.
    change (bs "&amp;") with [38; 97; 109; 112; 59]%Z.
    change (bs "&lt;") with [38; 108; 116; 59]%Z.
    change (bs "&gt;") with [38; 103; 116; 59]%Z.
    change (bs "&quot;") with [38; 113; 117; 111; 116; 59]%Z.
    change (bs "&apos;") with [38; 97; 112; 111; 115; 59]%Z.
    repeat case_match; cbn [app]; intros Heq; try discriminate; injection Heq as; subst; split; try done; lia. }
  revert s'. induction s as [|a s IH]; intros [|b s'] Heq; [done| | |].
  - exfalso. revert Heq. unfold xml_escape. cbn. unfold xml_escape_char. repeat case_match; discriminate.
  - exfalso. revert Heq. unfold xml_escape. cbn. unfold xml_escape_char. repeat case_match; discriminate.
  - apply Hc in Heq as [-> Heq]. by rewrite (IH s').
Qed.

(** A reader of markup: inside a tag, or in the text after one. *)
Inductive XmlState := InTag (w : bytes) | InText (tag t : bytes).

Fixpoint xml_scan (st : XmlState) (s : bytes) : list (bytes * bytes) * XmlState :=
  match s with
  | [] => ([], st)
  | c :: s' =>
      match st with
      | InTag w => if (c =? 62)%Z then xml_scan (InText w []) s' else xml_scan (InTag (w ++ [c])) s'
      | InText tag t =>
          if (c =? 60)%Z then let '(l, st') := xml_scan (InTag []) s' in ((tag, t) :: l, st')
          else xml_scan (InText tag (t ++ [c])) s'
      end
  end.

Definition value_tag (tag : bytes) : bool := bytes_eqb tag (bs "key") || bytes_eqb tag (bs "string").

Definition node_values (nodes : list (bytes * bytes)) : list bytes := map snd (List.filter (fun n => value_tag n.1) nodes).

(** Every tag of a document, and the texts of its keys and strings. *)
Definition xml_tags (s : bytes) : list bytes :=
  let '(nodes, st) := xml_scan (InText [] []) s in
  tail (map fst nodes ++ match st with InText tag _ => [tag] | InTag w => [w] end).
Definition xml_values (s : bytes) : list bytes := node_values (xml_scan (InText [] []) s).1.

Lemma xml_scan_app st a b : xml_scan st (a ++ b) = let '(l, st') := xml_scan st a in let '(l', st'') := xml_scan st' b in (l ++ l', st'').
Proof.
  revert st. induction a as [|c a IH]; intros st; cbn; [by destruct (xml_scan st b)|].
  destruct st as [w|tag t]; [destruct (c =? 62)%Z; apply IH|]. destruct (c =? 60)%Z; [|apply IH].
  rewrite IH. destruct (xml_scan (InTag []) a) as [l st']. by destruct (xml_scan st' b).
Qed.

Lemma scan_text tag t a : 60%Z ∉ a -> xml_scan (InText tag t) a = ([], InText tag (t ++ a)).
Proof.
  revert t. induction a as [|c a IH]; intros t Ha; cbn; [by rewrite app_nil_r|]. apply not_elem_of_cons in Ha as [Hc Ha].
  rewrite (proj2 (Z.eqb_neq c 60)) by congruence. rewrite IH by done. by rewrite <- app_assoc.
Qed.

Lemma scan_open tag t a r : 60%Z ∉ a -> xml_scan (InText tag t) (a ++ 60%Z :: r) =
  let '(l, st) := xml_scan (InTag []) r in ((tag, t ++ a) :: l, st).
Proof. intros Ha. rewrite xml_scan_app, scan_text by done. cbn. by destruct (xml_scan (InTag []) r). Qed.

Lemma scan_tag v w r : 62%Z ∉ w -> xml_scan (InTag v) (w ++ 62%Z :: r) = xml_scan (InText (v ++ w) []) r.
Proof.
  revert v. induction w as [|c w IH]; intros v Hw; cbn; [by rewrite app_nil_r|]. apply not_elem_of_cons in Hw as [Hc Hw].
  rewrite (proj2 (Z.eqb_neq c 62)) by congruence. rewrite IH by done. by rewrite <- app_assoc.
Qed.

(** A block of a document: read after a tag that holds no value, it opens the tags
    [ts], the last of which holds none, and holds the values [vs]. *)
Definition block (s : bytes) (ts vs : list bytes) : Prop := forall g t, value_tag g = false ->
  exists nodes g' t', xml_scan (InText g t) s = (nodes, InText g' t') /\ value_tag g' = false /\
    map fst nodes ++ [g'] = g :: ts /\ node_values nodes = vs.

Lemma block_nil : block [] [] [].
Proof. intros g t Hg. by exists [], g, t. Qed.

Lemma block_app a b ts ts' vs vs' : block a ts vs -> block b ts' vs' -> block (a ++ b) (ts ++ ts') (vs ++ vs').
Proof.
  intros Ha Hb g t Hg. destruct (Ha g t Hg) as (na & g1 & t1 & Hs1 & Hg1 & Ht1 & Hv1).
  destruct (Hb g1 t1 Hg1) as (nb & g2 & t2 & Hs2 & Hg2 & Ht2 & Hv2). exists (na ++ nb), g2, t2.
  rewrite xml_scan_app, Hs1, Hs2. split_and!; [done|done| |].
  - rewrite map_app, <- app_assoc, Ht2. change (g :: ts ++ ts') with ((g :: ts) ++ ts'). rewrite <- Ht1, <- app_assoc. done.
  - unfold node_values in *. by rewrite List.filter_app, map_app, Hv1, Hv2.
Qed.

Lemma block_concat {A} (f : A -> bytes) (ft fv : A -> list bytes) l : (forall x, block (f x) (ft x) (fv x)) ->
  block (concat (map f l)) (concat (map ft l)) (concat (map fv l)).
Proof. intros Hf. induction l as [|x l IH]; [apply block_nil|]. by apply block_app. Qed.

(** A line with one tag. *)
Lemma block_markup i w : 60%Z ∉ i -> 62%Z ∉ w -> value_tag w = false -> block (ln (i ++ [60%Z] ++ w ++ [62%Z])) [w] [].
Proof.
  intros Hi Hw Hv g t Hg. exists [(g, t ++ i)], w, [10%Z]. unfold ln. rewrite <- !app_assoc. cbn [app].
  rewrite scan_open, scan_tag by done. cbn. split_and!; [done|done|done|]. unfold node_values. cbn. by rewrite Hg.
Qed.

(** A line with an element. *)
Lemma block_element i w v : 60%Z ∉ i -> 62%Z ∉ w -> 60%Z ∉ v -> value_tag ([47%Z] ++ w) = false ->
  block (ln (i ++ [60%Z] ++ w ++ [62%Z] ++ v ++ [60%Z; 47%Z] ++ w ++ [62%Z])) [w; [47%Z] ++ w] (if value_tag w then [v] else []).
Proof.
  intros Hi Hw Hvv Hv g t Hg. exists [(g, t ++ i); (w, v)], ([47%Z] ++ w), [10%Z]. unfold ln. rewrite <- !app_assoc. cbn [app].
  rewrite scan_open, scan_tag, scan_open by done. change (47%Z :: w ++ [62%Z; 10%Z]) with ((47%Z :: w) ++ 62%Z :: [10%Z]).
  rewrite scan_tag by (apply not_elem_of_cons; by split). cbn. split_and!; [done|done|done|].
  unfold node_values. cbn. rewrite Hg. by destruct (value_tag w).
Qed.

(** ** The list of a spec *)

Definition string_tags : list bytes := [bs "string"; bs "/string"].
Definition key_tags : list bytes := [bs "key"; bs "/key"].

Lemma block_key i s : 60%Z ∉ i -> 60%Z ∉ s -> block (key_line i s) key_tags [s].
Proof. intros Hi Hs. apply (block_element i (bs "key") s); [done| |done|done]. apply (bool_decide_unpack _). by vm_compute. Qed.

Lemma block_string i s : 60%Z ∉ i -> 60%Z ∉ s -> block (string_line i s) string_tags [s].
Proof. intros Hi Hs. apply (block_element i (bs "string") s); [done| |done|done]. apply (bool_decide_unpack _). by vm_compute. Qed.

Lemma block_eq s ts vs ts' vs' : block s ts vs -> ts = ts' -> vs = vs' -> block s ts' vs'.
Proof. by intros Hb <- <-. Qed.

Lemma block_reads s ts vs : block s ts vs -> xml_tags s = ts /\ xml_values s = vs.
Proof.
  intros Hb. destruct (Hb [] [] eq_refl) as (nodes & g & t & Hs & _ & Ht & Hv). unfold xml_tags, xml_values. by rewrite Hs, Ht.
Qed.

(** The elements of a spec's list, which depend on its shape only, and what its
    keys and strings say. *)
Definition plist_tags (spec : ServiceSpec) : list bytes :=
  [bs "?xml version=" ++ Q ++ bs "1.0" ++ Q ++ bs " encoding=" ++ Q ++ bs "UTF-8" ++ Q ++ bs "?";
   bs "!DOCTYPE plist PUBLIC " ++ Q ++ bs "-//Apple//DTD PLIST 1.0//EN" ++ Q ++ bs " " ++ Q
   ++ bs "http://www.apple.com/DTD/PropertyList-1.0.dtd" ++ Q;
   bs "plist version=" ++ Q ++ bs "1.0" ++ Q; bs "dict"]
  ++ key_tags ++ string_tags ++ key_tags ++ [bs "array"] ++ string_tags
  ++ concat (map (fun _ => string_tags) (ss_args spec)) ++ [bs "/array"]
  ++ match ss_env spec with
     | [] => []
     | env => key_tags ++ [bs "dict"] ++ concat (map (fun _ => key_tags ++ string_tags) env) ++ [bs "/dict"]
     end
  ++ concat (map (fun _ => key_tags ++ string_tags)
       (opt_list (ss_working_dir spec) ++ opt_list (ss_stdout_log spec) ++ opt_list (ss_stderr_log spec)))
  ++ key_tags ++ [bs "true/"] ++ key_tags ++ [if ss_keep_alive spec then bs "true/" else bs "false/"]
  ++ key_tags ++ [bs "integer"; bs "/integer"; bs "/dict"; bs "/plist"].

Definition plist_values (spec : ServiceSpec) : list bytes :=
  [bs "Label"; ss_name spec; bs "ProgramArguments"; from_utf8_lossy (ss_program spec)] ++ ss_args spec
  ++ match ss_env spec with [] => [] | env => bs "EnvironmentVariables" :: concat (map (fun kv => [kv.1; kv.2]) env) end
  ++ concat (map (fun d => [bs "WorkingDirectory"; from_utf8_lossy d]) (opt_list (ss_working_dir spec)))
  ++ concat (map (fun l => [bs "StandardOutPath"; from_utf8_lossy l]) (opt_list (ss_stdout_log spec)))
  ++ concat (map (fun l => [bs "StandardErrorPath"; from_utf8_lossy l]) (opt_list (ss_stderr_log spec)))
  ++ [bs "RunAtLoad"; bs "KeepAlive"; bs "ExitTimeOut"].

Ltac plain_text := first [apply (proj1 (xml_escape_markup _)) | apply (bool_decide_unpack _); vm_compute; exact I].

(** One line of a list. *)
Ltac xml_line :=
  first [apply block_key; plain_text | apply block_string; plain_text | apply block_nil].

Lemma block_path key o : 60%Z ∉ key ->
  block (path_entry key o) (concat (map (fun _ => key_tags ++ string_tags) (opt_list o)))
    (concat (map (fun p => [key; xml_escape (from_utf8_lossy p)]) (opt_list o))).
Proof.
  intros Hk. destruct o as [p|]; [|apply block_nil]. cbn [path_entry opt_list map concat]. rewrite !app_nil_r.
  apply (block_app _ _ key_tags string_tags [key] [xml_escape (from_utf8_lossy p)]); [apply block_key|apply block_string]; try done; plain_text.
Qed.

Lemma block_env env : env <> [] ->
  block (key_line (bs "    ") (bs "EnvironmentVariables") ++ ln (bs "    <dict>")
         ++ concat (map (fun kv => key_line (bs "        ") (xml_escape kv.1) ++ string_line (bs "        ") (xml_escape kv.2)) env)
         ++ ln (bs "    </dict>"))
    (key_tags ++ [bs "dict"] ++ concat (map (fun _ => key_tags ++ string_tags) env) ++ [bs "/dict"])
    (bs "EnvironmentVariables" :: concat (map (fun kv => [xml_escape kv.1; xml_escape kv.2]) env)).
Proof.
  intros _. eapply block_eq.
  - apply block_app; [xml_line|]. apply block_app; [apply (block_markup (bs "    ") (bs "dict")); (plain_text || done)|].
    apply block_app; [|apply (block_markup (bs "    ") (bs "/dict")); (plain_text || done)].
    apply (block_concat _ (fun _ => key_tags ++ string_tags) (fun kv => [xml_escape kv.1; xml_escape kv.2])).
    intros kv. apply (block_app _ _ key_tags string_tags [xml_escape kv.1] [xml_escape kv.2]); xml_line.
  - done.
  - cbn [app]. by rewrite app_nil_r.
Qed.

Lemma map_concat_pair {A} (f : A -> bytes) (g : A -> bytes) l : map xml_escape (concat (map (fun x => [f x; g x]) l)) =
  concat (map (fun x => [xml_escape (f x); xml_escape (g x)]) l).
Proof. induction l as [|x l IH]; cbn; [done|]. by rewrite IH. Qed.

Lemma block_plist spec : block (build_plist spec) (plist_tags spec) (map xml_escape (plist_values spec)).
Proof.
  unfold build_plist. eapply block_eq.
  - apply block_app; [apply (block_markup [] (bs "?xml version=" ++ Q ++ bs "1.0" ++ Q ++ bs " encoding=" ++ Q ++ bs "UTF-8" ++ Q ++ bs "?")); (plain_text || done)|].
    apply block_app; [apply (block_markup [] (bs "!DOCTYPE plist PUBLIC " ++ Q ++ bs "-//Apple//DTD PLIST 1.0//EN" ++ Q ++ bs " " ++ Q
       ++ bs "http://www.apple.com/DTD/PropertyList-1.0.dtd" ++ Q)); (plain_text || done)|].
    apply block_app; [apply (block_markup [] (bs "plist version=" ++ Q ++ bs "1.0" ++ Q)); (plain_text || done)|].
    apply block_app; [apply (block_markup [] (bs "dict")); (plain_text || done)|].
    do 3 (apply block_app; [xml_line|]). apply block_app; [apply (block_markup (bs "    ") (bs "array")); (plain_text || done)|].
    apply block_app; [xml_line|]. apply block_app; [apply (block_concat _ (fun _ => string_tags) (fun a => [xml_escape a])); intros a; xml_line|].
    apply block_app; [apply (block_markup (bs "    ") (bs "/array")); (plain_text || done)|].
    eapply (block_app _ _ (match ss_env spec with [] => [] | env => key_tags ++ [bs "dict"] ++ concat (map (fun _ => key_tags ++ string_tags) env) ++ [bs "/dict"] end) _
      (match ss_env spec with [] => [] | env => bs "EnvironmentVariables" :: concat (map (fun kv => [xml_escape kv.1; xml_escape kv.2]) env) end));
      [destruct (ss_env spec) as [|e env]; [apply block_nil|by apply (block_env (e :: env))]|].
    do 3 (apply block_app; [apply block_path; plain_text|]).
    apply block_app; [xml_line|]. apply block_app; [apply (block_markup (bs "    ") (bs "true/")); (plain_text || done)|].
    apply block_app; [xml_line|].
    eapply (block_app _ _ [if ss_keep_alive spec then bs "true/" else bs "false/"] _ []);
      [destruct (ss_keep_alive spec); [apply (block_markup (bs "    ") (bs "true/"))|apply (block_markup (bs "    ") (bs "false/"))]; (plain_text || done)|].
    apply block_app; [xml_line|].
    apply block_app; [apply (block_element (bs "    ") (bs "integer") (show_N DEFAULT_EXIT_TIMEOUT_SEC)); (plain_text || done)|].
    apply block_app; [apply (block_markup [] (bs "/dict")); (plain_text || done)|apply (block_markup [] (bs "/plist")); (plain_text || done)].
  - unfold plist_tags. rewrite !map_app, !concat_app, <- !app_assoc. reflexivity.
  - unfold plist_values. rewrite !map_app, !(map_concat_pair (fun _ => _)). cbn [map app]. rewrite ?app_nil_r.
    assert (Ha : forall l, concat (map (fun a => [xml_escape a]) l) = map xml_escape l) by (induction l as [|a l IH]; cbn; [done|by rewrite IH]).
    rewrite Ha. destruct (ss_env spec) as [|e env]; [reflexivity|]. 
    change (map xml_escape (bs "EnvironmentVariables" :: ?l)) with (bs "EnvironmentVariables" :: map xml_escape l).
    change ([e.1; e.2] :: map ?f env) with (map f (e :: env)). rewrite (map_concat_pair fst snd). reflexivity.
Qed.

(** A property list says what its spec says and nothing else: its elements are
    those of the shape of the spec, whatever its strings hold, the texts of its
    keys and strings are the spec's escaped, and escaping loses nothing. *)
Theorem plist_says_what_the_spec_says spec :
  xml_tags (build_plist spec) = plist_tags spec /\
  xml_values (build_plist spec) = map xml_escape (plist_values spec) /\
  (forall s s', xml_escape s = xml_escape s' -> s = s').
Proof. destruct (block_reads _ _ _ (block_plist spec)). split_and!; [done|done|apply xml_escape_inj]. Qed.

(** * Witnesses *)

#[local] Instance unit_demo_debug : UnicodeDebug := {| escape_unicode c := c |}.

(** A service whose environment tries to add a directive. *)
Definition hostile_spec : ServiceSpec :=
  mkServiceSpec (bs "svc") (bs "/opt/my app/run") [bs "a b"; bs "c"] [(bs "A", bs "1" ++ [10%Z] ++ bs "ExecStartPre=/evil")] (Some (bs "/srv"))
    true None None [bs "db"] (Some (bs "all")) (Some (mkRestartBackoff 300 8)) [mkEnvFileRef (bs "/etc/svc env") true].

Lemma exec_start_is_unambiguous_witness :
  from_utf8_lossy (ss_program hostile_spec) = from_utf8_lossy (bs "/opt/my app/run") /\ ss_args hostile_spec = [bs "a b"; bs "c"].
Proof.
  apply (exec_start_is_unambiguous hostile_spec
    (mkServiceSpec [] (bs "/opt/my app/run") [bs "a b"; bs "c"] [] None false None None [] None None [])). vm_compute. reflexivity.
Defined.

Lemma single_quote_is_not_quoted_witness : quote_if_needed (bs "it's") = bs "it's".
Proof. apply single_quote_is_not_quoted; [apply (bool_decide_unpack _); vm_compute; exact I|reflexivity]. Defined.

Lemma unit_directives_are_the_specs_witness :
  split 10%Z (build_unit_file hostile_spec) = unit_lines hostile_spec ++ [[]] /\
  List.filter (starts_with (bs "Exec")) (split 10%Z (build_unit_file hostile_spec)) = [exec_start hostile_spec].
Proof. apply unit_directives_are_the_specs. vm_compute. reflexivity. Defined.
