(* ===== verification/Supervisor.v ===== *)
(** The Linux service driver (src/supervisor/src/systemd_user.rs with
    systemctl.rs, atomic_write.rs, remove_after.rs and status.rs, and the bundle
    defaults of lib.rs): what installing, starting, stopping and removing a
    service does to the unit files and asks of the user's systemd.

    The world is the files, a clock of the calls made and the staging counter of
    the process.  What the operating system answers is a parameter of the clock:
    a call on a file may fail, a write may stop half way, and [systemctl] may not
    run, time out, or answer anything.  The trace holds every change of the files
    and every answer of [systemctl].  Directories and the modes of files are left
    out, and so is the launchd driver. *)

From stdpp Require Import base list gmap sets numbers strings pretty.
From Stdlib Require Import ZArith Lia.
From S2P Require Import Prelude RustStr Effects Json InjectionGuard LoopPure AskMessage ResultView Sandbox SiftTable EnvFile UnitFile.
Local Open Scope nat_scope.
Local Open Scope prog_scope.

(** * The world *)

Notation Files := (@gmap bytes (@list_eq_dec Z Z.eq_dec) (@list_countable Z Z.eq_dec Z_countable) bytes).

Record Host := mkHost { files : Files; clock : nat; counter : N }.

(** [std::process::Output] and what a bounded command comes to. *)
Record Output := mkOutput { code : option Z; stdout : bytes; stderr : bytes }.

Inductive CappedOutcome := Completed (out : Output) | TimedOut.

Inductive SupEv :=
| Changed (after : Files)
| Asked (args : list bytes) (answer : result Output SupervisorError).

Inductive ServiceStatus := Active | Inactive | Transitioning | Failed | NotInstalled.

#[export] Instance ServiceStatus_eq_dec : EqDecision ServiceStatus.
Proof. solve_decision. Defined.

(** What the operating system does at each call. *)
Record Os := mkOs {
  fs_fault : nat -> option bytes;
  short_write : nat -> nat;
  run_capped : nat -> list bytes -> result CappedOutcome bytes;
  env_home : option bytes;
  process_id : N }.

Section HostCalls.
Context {E : Type}.
Variable os : Os.

Notation sup A := (prog Host SupEv E A).

(** A call on a file: the clock goes on, and the call may fail. *)
Definition fs_call {A : Type} (f : Files -> result A IoError * Files) : sup (result A IoError) := fun h t =>
  match fs_fault os (clock h) with
  | Some text => (Ok (Err (OtherIo text)), mkHost (files h) (S (clock h)) (counter h), t)
  | None =>
      let '(r, fs) := f (files h) in
      (Ok r, mkHost fs (S (clock h)) (counter h), if bool_decide (fs = files h) then t else Changed fs :: t)
  end.

Definition display (p : bytes) : bytes := from_utf8_lossy p.

Definition create_dir_all (p : bytes) : sup (result () IoError) := fs_call (fun fs => (Ok tt, fs)).

(** [open] with [create_new]. *)
Definition fs_create_new (p : bytes) : sup (result () IoError) :=
  fs_call (fun fs => match fs !! p with Some _ => (Err (OtherIo (bs "File exists (os error 17)")), fs) | None => (Ok tt, <[p := []]> fs) end).

(** [write_all] on a file just created: a failing one may leave a prefix. *)
Definition fs_write_all (p data : bytes) : sup (result () IoError) := fun h t =>
  match fs_fault os (clock h) with
  | Some text =>
      let fs := <[p := take (short_write os (clock h)) data]> (files h) in
      (Ok (Err (OtherIo text)), mkHost fs (S (clock h)) (counter h), if bool_decide (fs = files h) then t else Changed fs :: t)
  | None => fs_call (fun fs => (Ok tt, <[p := data]> fs)) h t
  end.

Definition fs_sync (p : bytes) : sup (result () IoError) := fs_call (fun fs => (Ok tt, fs)).

Definition not_found : IoError := NotFound (bs "No such file or directory (os error 2)").

Definition fs_rename (a b : bytes) : sup (result () IoError) :=
  fs_call (fun fs => match fs !! a with None => (Err not_found, fs) | Some data => (Ok tt, <[b := data]> (delete a fs)) end).

Definition fs_remove_file (p : bytes) : sup (result () IoError) :=
  fs_call (fun fs => match fs !! p with None => (Err not_found, fs) | Some _ => (Ok tt, delete p fs) end).

Definition fs_try_exists (p : bytes) : sup (result bool IoError) :=
  fs_call (fun fs => (Ok (bool_decide (is_Some (fs !! p))), fs)).

(** * Triples on files and trace *)

Definition hs {A : Type} (P : Files -> list SupEv -> Prop) (m : sup A) (Q : result A E -> Files -> list SupEv -> Prop) : Prop :=
  forall h t, P (files h) t -> let '(r, h', t') := m h t in Q r (files h') t'.

Lemma hs_ret {A : Type} (a : A) (P : Files -> list SupEv -> Prop) (Q : result A E -> Files -> list SupEv -> Prop) :
  (forall fs t, P fs t -> Q (Ok a) fs t) -> hs P (ret a) Q.
Proof. intros Hq h t Hp. by apply Hq. Qed.

Lemma hs_throw {A : Type} (e : E) (P : Files -> list SupEv -> Prop) (Q : result A E -> Files -> list SupEv -> Prop) :
  (forall fs t, P fs t -> Q (Err e) fs t) -> hs P (throw e) Q.
Proof. intros Hq h t Hp. by apply Hq. Qed.

Lemma hs_bind {A B : Type} P (m : sup A) (R : result A E -> Files -> list SupEv -> Prop) (k : A -> sup B) Q :
  hs P m R -> (forall e fs t, R (Err e) fs t -> Q (Err e) fs t) -> (forall a, hs (R (Ok a)) (k a) Q) -> hs P (bind m k) Q.
Proof.
  intros Hm He Hk h t Hp. unfold bind. specialize (Hm h t Hp). destruct (m h t) as [[[a|e] h'] t']; [by apply Hk|by apply He].
Qed.

Lemma hs_conseq {A : Type} (P P' : Files -> list SupEv -> Prop) (m : sup A) (Q Q' : result A E -> Files -> list SupEv -> Prop) :
  hs P m Q -> (forall fs t, P' fs t -> P fs t) -> (forall r fs t, Q r fs t -> Q' r fs t) -> hs P' m Q'.
Proof. intros Hm HP HQ h t Hp. specialize (Hm h t (HP _ _ Hp)). destruct (m h t) as [[r h'] t']. by apply HQ. Qed.

Lemma hs_pure {A : Type} (phi : Prop) P (m : sup A) Q : (phi -> hs P m Q) -> hs (fun fs t => phi /\ P fs t) m Q.
Proof. intros Hm h t [Hphi Hp]. by apply Hm. Qed.

(** The trace [t] is [t0] and then events that satisfy [J]. *)
Definition since (J : SupEv -> Prop) (t0 t : list SupEv) : Prop := exists new, t = new ++ t0 /\ Forall J new.

Lemma since_refl J t : since J t t.
Proof. by exists []. Qed.

Lemma since_cons J e t0 t : J e -> since J t0 t -> since J t0 (e :: t).
Proof. intros He (new & -> & Hn). exists (e :: new). split; [done|by constructor]. Qed.

Lemma since_trans J t0 t1 t2 : since J t0 t1 -> since J t1 t2 -> since J t0 t2.
Proof. intros (n1 & -> & H1) (n2 & -> & H2). exists (n2 ++ n1). split; [by rewrite app_assoc|by apply Forall_app]. Qed.

(** A call on a file: it fails and changes nothing, or it does what it does. *)
Lemma hs_call {A : Type} (f : Files -> result A IoError * Files) (P : Files -> list SupEv -> Prop) Q :
  (forall fs t e, P fs t -> Q (Ok (Err (OtherIo e))) fs t) ->
  (forall fs t t', P fs t -> t' = (if bool_decide ((f fs).2 = fs) then t else Changed (f fs).2 :: t) -> Q (Ok (f fs).1) (f fs).2 t') ->
  hs P (fs_call f) Q.
Proof.
  intros He Ho h t Hp. unfold fs_call. destruct (fs_fault os (clock h)); [by apply He|].
  specialize (Ho (files h) t _ Hp eq_refl). by destruct (f (files h)) as [r fs].
Qed.

Lemma hs_assume {A : Type} (phi : Prop) P (m : sup A) Q : (forall fs t, P fs t -> phi) -> (phi -> hs P m Q) -> hs P m Q.
Proof. intros H1 H2 h t Hp. exact (H2 (H1 _ _ Hp) h t Hp). Qed.

End HostCalls.

Section Driver.
Context `{UnicodeDebug}.
Variable os : Os.

Notation sup A := (prog Host SupEv SupervisorError A).

(** [m?] of an inner result, and a program whose error is a value. *)
Definition or_throw {A : Type} (r : result A IoError) (msg : bytes -> bytes) : sup A :=
  match r with Ok a => ret a | Err e => throw (Io (msg (io_text e))) end.

Definition try {A : Type} (m : sup A) : sup (result A SupervisorError) := fun h t =>
  let '(r, h', t') := m h t in (Ok r, h', t').

Definition lift {A : Type} (r : result A SupervisorError) : sup A := match r with Ok a => ret a | Err e => throw e end.

(** * Atomic writes (atomic_write.rs) *)

(** [Path::with_file_name] of a path that has one. *)
Definition with_file_name (p name : bytes) : bytes := path_join (default [] (path_parent p)) name.

Definition tmp_suffix (pid n : N) : bytes := bs ".tmp." ++ show_N pid ++ bs "." ++ show_N n.

(** A 64-bit counter that wraps. *)
Definition fetch_counter : sup N := fun h t =>
  (Ok (counter h), mkHost (files h) (clock h) ((counter h + 1) mod 2 ^ 64)%N, t).

Definition tmp_path_for (path : bytes) : sup bytes :=
  match path_file_name path with
  | None => throw (Io (display path ++ bs " has no file name"))
  | Some name => let* n := fetch_counter in ret (with_file_name path (name ++ tmp_suffix (process_id os) n))
  end.

Definition create_staging (tmp : bytes) : sup () :=
  let* r := fs_create_new os tmp in or_throw r (fun e => bs "create " ++ display tmp ++ bs ": " ++ e).

Definition write_and_sync (tmp data : bytes) : sup () :=
  let* r := fs_write_all os tmp data in
  or_throw r (fun e => bs "write " ++ display tmp ++ bs ": " ++ e) ;;;
  let* r := fs_sync os tmp in
  or_throw r (fun e => bs "fsync " ++ display tmp ++ bs ": " ++ e).

Definition write_atomic (path data : bytes) : sup () :=
  let* tmp := tmp_path_for path in
  create_staging tmp ;;;
  let* w := try (write_and_sync tmp data) in
  match w with
  | Err e => let* _ := fs_remove_file os tmp in throw e
  | Ok _ =>
      let* r := fs_rename os tmp path in
      match r with
      | Err e => let* _ := fs_remove_file os tmp in
                 throw (Io (bs "rename " ++ display tmp ++ bs " -> " ++ display path ++ bs ": " ++ io_text e))
      | Ok _ => ret tt
      end
  end.

(** * systemctl (systemctl.rs) *)

Definition SYSTEMCTL_TIMEOUT : N := 60.

Definition timed_out_message (args : list bytes) : bytes :=
  bs "systemctl --user " ++ join [32%Z] args ++ bs " did not finish within " ++ show_N SYSTEMCTL_TIMEOUT
  ++ bs "s (the per-user systemd manager is not answering, or the call is still in progress)".

Definition run_bounded_answer (n : nat) (args : list bytes) : result CappedOutcome SupervisorError :=
  match run_capped os n (bs "--user" :: args) with Ok o => Ok o | Err e => Err (Io (bs "run systemctl: " ++ e)) end.

Definition run_user (args : list bytes) : sup Output := fun h t =>
  let answer := match run_bounded_answer (clock h) args with
                | Ok (Completed out) => Ok out
                | Ok TimedOut => Err (Backend (timed_out_message args))
                | Err e => Err e
                end in
  (answer, mkHost (files h) (S (clock h)) (counter h), Asked args answer :: t).

Definition success (out : Output) : bool := bool_decide (code out = Some 0%Z).

Definition exit_word (out : Output) : bytes := match code out with Some c => show_z c | None => bs "signal" end.

Definition lossy_trim (s : bytes) : bytes := trim_matches char_is_whitespace (from_utf8_lossy s).

(** What [run_systemctl_user] makes of an output. *)
Definition read_exit (args : list bytes) (out : Output) : result bytes SupervisorError :=
  if success out then Ok (from_utf8_lossy (stdout out))
  else Err (Backend (bs "systemctl --user " ++ join [32%Z] args ++ bs " (exit " ++ exit_word out ++ bs "): " ++ lossy_trim (stderr out))).

Definition run_systemctl_user (args : list bytes) : sup bytes :=
  let* out := run_user args in lift (read_exit args out).

Definition probe : sup () := fun h t =>
  let '(r, h', t') := run_user [bs "show-environment"] h t in
  match r with
  | Err (Io m) => (Err (Probe m), h', t')
  | Err (Backend m) => (Err (Probe m), h', t')
  | Err e => (Err (Probe (supervisor_error_text e)), h', t')
  | Ok out =>
      if success out then (Ok tt, h', t')
      else let err := from_utf8_lossy (stderr out) in
           let hint := if contains (bs "Failed to connect") err || contains (bs "No such file") err
                       then [10%Z; 10%Z] ++ bs "The per-user systemd manager does not appear to be running. On a normal desktop session it starts automatically; on headless hosts run `loginctl enable-linger $USER` and re-login."
                       else [] in
           (Err (Probe (bs "systemctl --user show-environment failed: " ++ lossy_trim (stderr out) ++ hint)), h', t')
  end.

Definition is_not_loaded_answer (msg unit : bytes) : bool := contains (bs "Unit " ++ unit ++ bs " not loaded.") msg.
Definition is_no_unit_file_answer (msg unit : bytes) : bool := contains (bs "Unit file " ++ unit ++ bs " does not exist.") msg.

Definition stop_outcome (unit : bytes) (stop : result bytes SupervisorError) : result () SupervisorError :=
  match stop with
  | Ok _ => Ok tt
  | Err (Backend msg) => if is_not_loaded_answer msg unit then Ok tt else Err (Backend msg)
  | Err e => Err e
  end.

Definition disable_outcome (unit : bytes) (disable : result bytes SupervisorError) : result () SupervisorError :=
  match disable with
  | Ok _ => Ok tt
  | Err (Backend msg) => if is_no_unit_file_answer msg unit then Ok tt else Err (Backend msg)
  | Err e => Err e
  end.

Definition stop_and_disable (unit : bytes) : sup () :=
  let* stop := try (run_systemctl_user [bs "stop"; unit]) in
  lift (stop_outcome unit stop) ;;;
  let* disable := try (run_systemctl_user [bs "disable"; unit]) in
  lift (disable_outcome unit disable).

Definition status_from_is_active (unit : bytes) (out : Output) : result (ServiceStatus * option bytes) SupervisorError :=
  let word := lossy_trim (stdout out) in
  if bytes_eqb word (bs "active") || bytes_eqb word (bs "reloading") || bytes_eqb word (bs "refreshing") then Ok (Active, Some word)
  else if bytes_eqb word (bs "inactive") || bytes_eqb word (bs "maintenance") then Ok (Inactive, Some word)
  else if bytes_eqb word (bs "failed") then Ok (Failed, Some word)
  else if bytes_eqb word []
  then Err (Backend (bs "systemctl --user is-active " ++ unit ++ bs " (exit " ++ exit_word out
                     ++ bs ") answered no state, so its state is unknown: " ++ lossy_trim (stderr out)))
  else Ok (Transitioning, Some word).

Definition CRASH_EVIDENCE_PROPS : bytes := bs "LoadState,NRestarts,Result,ExecMainStatus".

Definition evidence_from_show (out : bytes) : option bytes :=
  match List.filter (fun l => negb (bytes_eqb l [])) (map (trim_matches char_is_whitespace) (str_lines out)) with
  | [] => None
  | props => Some (join (bs ", ") props)
  end.

(** * Removal after a stop (remove_after.rs) *)

Definition kept (path m : bytes) : sup bytes :=
  let* r := fs_try_exists os path in
  ret (match r with
       | Ok false => m
       | _ => m ++ bs "; kept " ++ display path ++ bs " so `uninstall` can be retried"
       end).

Definition remove_after_stop (stopped : result () SupervisorError) (path : bytes) : sup () :=
  match stopped with
  | Err (Backend m) => let* m' := kept path m in throw (Backend m')
  | Err (Io m) => let* m' := kept path m in throw (Io m')
  | Err e => throw e
  | Ok _ =>
      let* r := fs_remove_file os path in
      match r with
      | Err (OtherIo e) => throw (Io (bs "remove " ++ display path ++ bs ": " ++ e))
      | _ => ret tt
      end
  end.

(** * The driver (systemd_user.rs) *)

Record SystemdUser := mkSystemdUser { units_dir : bytes }.

Definition user_units_dir (home : bytes) : bytes :=
  path_join (path_join (path_join home (bs ".config")) (bs "systemd")) (bs "user").

(** [SystemdUser::new] *)
Definition systemd_user_new : SystemdUser := mkSystemdUser (user_units_dir (default (bs "/") (env_home os))).

Variable drv : SystemdUser.

Definition unit_path (name : bytes) : bytes := path_join (units_dir drv) (name ++ bs ".service").
Definition target_path (name : bytes) : bytes := path_join (units_dir drv) (name ++ bs ".target").

Definition is_default_units_dir : bool :=
  match env_home os with
  | Some home => path_eqb (units_dir drv) (user_units_dir home)
  | None => false
  end.

Definition daemon_reload : sup () := let* _ := run_systemctl_user [bs "daemon-reload"] in ret tt.
Definition enable (unit : bytes) : sup () := let* _ := run_systemctl_user [bs "enable"; unit] in ret tt.

Definition make_units_dir : sup () :=
  let* r := create_dir_all os (units_dir drv) in
  or_throw r (fun e => bs "create " ++ display (units_dir drv) ++ bs ": " ++ e).

Definition write_unit_file (spec : ServiceSpec) : sup () :=
  lift (check_unit_spec spec) ;;;
  make_units_dir ;;;
  write_atomic (unit_path (ss_name spec)) (build_unit_file spec).

Definition when (b : bool) (m : sup ()) : sup () := if b then m else ret tt.

Definition install (spec : ServiceSpec) : sup () :=
  write_unit_file spec ;;;
  when is_default_units_dir (daemon_reload ;;; enable (ss_name spec ++ bs ".service")).

Definition start (name : bytes) : sup () :=
  lift (validate_service_name name) ;;;
  let* _ := run_systemctl_user [bs "start"; name ++ bs ".service"] in ret tt.

Definition stop (name : bytes) : sup () :=
  lift (validate_service_name name) ;;;
  let* _ := run_systemctl_user [bs "stop"; name ++ bs ".service"] in ret tt.

Definition uninstall (name : bytes) : sup () :=
  lift (validate_service_name name) ;;;
  let* stopped := try (when is_default_units_dir (stop_and_disable (name ++ bs ".service"))) in
  remove_after_stop stopped (unit_path name) ;;;
  when is_default_units_dir daemon_reload.

Definition status_with_word (name : bytes) : sup (ServiceStatus * option bytes) :=
  lift (validate_service_name name) ;;;
  let path := unit_path name in
  let* r := fs_try_exists os path in
  let* there := or_throw r (fun e => bs "stat " ++ display path ++ bs ": " ++ e) in
  if there then let* out := run_user [bs "is-active"; name ++ bs ".service"] in lift (status_from_is_active (name ++ bs ".service") out)
  else ret (NotInstalled, None).

Definition crash_evidence (name : bytes) : sup (option bytes) :=
  lift (validate_service_name name) ;;;
  let* show := run_systemctl_user [bs "show"; bs "-p"; CRASH_EVIDENCE_PROPS; name ++ bs ".service"] in
  ret (evidence_from_show show).

Fixpoint each {A : Type} (f : A -> sup ()) (l : list A) : sup () :=
  match l with [] => ret tt | x :: l' => f x ;;; each f l' end.

Definition install_target (target : TargetSpec) (members : list ServiceSpec) : sup () :=
  lift (validate_service_name (ts_name target)) ;;;
  lift (each_name (ts_members target)) ;;;
  each write_unit_file members ;;;
  make_units_dir ;;;
  write_atomic (target_path (ts_name target)) (build_target_unit target) ;;;
  when is_default_units_dir (daemon_reload ;;; enable (ts_name target ++ bs ".target")).

Definition start_target (target : TargetSpec) : sup () :=
  lift (validate_service_name (ts_name target)) ;;;
  let* _ := run_systemctl_user [bs "start"; ts_name target ++ bs ".target"] in ret tt.

Definition stop_target (target : TargetSpec) : sup () :=
  lift (validate_service_name (ts_name target)) ;;;
  let* _ := run_systemctl_user [bs "stop"; ts_name target ++ bs ".target"] in ret tt.

Definition uninstall_target (target : TargetSpec) : sup () :=
  lift (validate_service_name (ts_name target)) ;;;
  lift (each_name (ts_members target)) ;;;
  let* torn_down := try (when is_default_units_dir (stop_and_disable (ts_name target ++ bs ".target")) ;;;
                         each uninstall (reverse (ts_members target))) in
  remove_after_stop torn_down (target_path (ts_name target)) ;;;
  when is_default_units_dir daemon_reload.

(** * Statuses in messages (status.rs) *)

Definition status_debug (s : ServiceStatus) : bytes :=
  match s with
  | Active => bs "Active" | Inactive => bs "Inactive" | Transitioning => bs "Transitioning" | Failed => bs "Failed"
  | NotInstalled => bs "NotInstalled"
  end.

Definition describe_status (status : ServiceStatus) (word evidence : option bytes) : bytes :=
  match map (fun w => bs "state word: " ++ w) (opt_list word) ++ opt_list evidence with
  | [] => status_debug status
  | details => status_debug status ++ bs " (" ++ join (bs "; ") details ++ bs ")"
  end.

Definition evidence_text (read : result (option bytes) SupervisorError) : option bytes :=
  match read with
  | Ok evidence => evidence
  | Err e => Some (bs "crash evidence unreadable: " ++ supervisor_error_text e)
  end.

Definition describe_last_status (name : bytes) (status : ServiceStatus) (word : option bytes) : sup bytes :=
  match status with
  | NotInstalled => ret (describe_status status word None)
  | _ => let* read := try (crash_evidence name) in ret (describe_status status word (evidence_text read))
  end.

(** * Triples of the driver *)

Lemma hs_try {A : Type} P (m : sup A) Q : hs P m (fun r => Q (Ok r)) -> hs P (try m) Q.
Proof. intros Hm h t Hp. unfold try. specialize (Hm h t Hp). by destruct (m h t) as [[r h'] t']. Qed.

Lemma hs_lift {A : Type} (r : result A SupervisorError) P Q : (forall fs t, P fs t -> Q r fs t) -> hs P (lift r) Q.
Proof. intros Hq. destruct r; [by apply hs_ret|by apply hs_throw]. Qed.

Lemma hs_when b (P : Files -> list SupEv -> Prop) m Q : (b = true -> hs P m Q) -> (b = false -> forall fs t, P fs t -> Q (Ok tt) fs t) -> hs P (when b m) Q.
Proof. intros H1 H2. destruct b; [by apply H1|by apply hs_ret, H2]. Qed.

Lemma hs_run_user args (P : Files -> list SupEv -> Prop) Q :
  (forall r fs t, P fs t -> Q r fs (Asked args r :: t)) -> hs P (run_user args) Q.
Proof. intros Hq h t Hp. unfold run_user. by apply Hq. Qed.

Lemma hs_systemctl args (P : Files -> list SupEv -> Prop) Q :
  (forall r fs t, P fs t -> Q (match r with Ok out => read_exit args out | Err e => Err e end) fs (Asked args r :: t)) ->
  hs P (run_systemctl_user args) Q.
Proof.
  intros Hq. unfold run_systemctl_user.
  apply (hs_bind _ _ (fun r fs t => exists t', t = Asked args r :: t' /\ P fs t')).
  - apply hs_run_user. intros r fs t Hp. by exists t.
  - intros e fs t (t' & -> & Hp). by apply (Hq (Err e)).
  - intros out. apply hs_lift. intros fs t (t' & -> & Hp). by apply (Hq (Ok out)).
Qed.

(** * Paths *)

Lemma split_last c x n : c ∉ n -> split c (x ++ c :: n) = split c x ++ [n].
Proof.
  intros Hn. induction x as [|y x IH]; cbn.
  - rewrite Z.eqb_refl. f_equal. clear -Hn. induction n as [|y n IH]; [done|]. apply not_elem_of_cons in Hn as [Hy Hn]. cbn.
    rewrite (proj2 (Z.eqb_neq y c)) by congruence. by rewrite IH.
  - rewrite IH. destruct (y =? c)%Z; [done|]. assert (Hne : split c x <> []).
    { clear. destruct x as [|z x]; cbn; [done|]. destruct (z =? c)%Z; [done|]. by destruct (split c x). }
    by destruct (split c x).
Qed.

Lemma split_whole c n : c ∉ n -> split c n = [n].
Proof. intros Hn. assert (Hs := split_last c [] n Hn). cbn in Hs. rewrite Z.eqb_refl in Hs. by injection Hs. Qed.

(** A name a path can end in. *)
Definition file_stem (n : bytes) : Prop := SLASH ∉ n /\ n <> [] /\ n <> bs "." /\ n <> bs "..".

Lemma file_name_of_body p X n : path_body p = X ++ [n] -> file_stem n -> path_file_name p = Some n.
Proof.
  intros Hb (_ & Hne & Hd & Hdd). unfold path_file_name. rewrite Hb, reverse_snoc. cbn [trim_right].
  unfold skipped. rewrite bool_decide_false by done. destruct (bytes_eqb_spec n (bs ".")); [done|]. cbn [orb].
  by destruct (bytes_eqb_spec n (bs "..")).
Qed.

Lemma file_name_join d n : file_stem n -> path_file_name (path_join d n) = Some n.
Proof.
  intros Hn. assert (Hs := Hn). destruct Hs as (Hsl & Hne & Hd & Hdd).
  assert (Habs : is_absolute n = false).
  { destruct n as [|c n]; [done|]. unfold is_absolute, starts_with. cbn [strip_prefix]. destruct (Z.eqb_spec SLASH c) as [<-|]; [|done].
    exfalso. apply Hsl. left. }
  assert (Hjoin : forall x, path_file_name (x ++ SLASH :: n) = Some n).
  { intros x. unfold path_body, path_head. destruct (is_absolute (x ++ SLASH :: n)) eqn:E1.
    - destruct x as [|c x].
      + apply (file_name_of_body _ []); [|done]. unfold path_body, path_head. rewrite E1. cbn. by apply split_whole.
      + apply (file_name_of_body _ (split SLASH x)); [|done]. unfold path_body, path_head. rewrite E1. cbn [length drop app]. by apply split_last.
    - destruct (include_cur_dir (x ++ SLASH :: n)) eqn:E2.
      + destruct x as [|c x]; [done|].
        apply (file_name_of_body _ (split SLASH x)); [|done]. unfold path_body, path_head. rewrite E1, E2. cbn [length drop app bs]. by apply split_last.
      + apply (file_name_of_body _ (split SLASH x)); [|done]. unfold path_body, path_head. rewrite E1, E2. by apply split_last. }
  unfold path_join. rewrite Habs. destruct (list.last d) as [c|] eqn:El.
  - apply last_Some in El as (d' & ->). destruct (Z.eqb_spec c SLASH) as [->|_]; [|by apply Hjoin]. rewrite <- app_assoc. by apply Hjoin.
  - apply (file_name_of_body _ []); [|done]. unfold path_body, path_head. rewrite Habs.
    assert (include_cur_dir n = false) as ->.
    { unfold include_cur_dir. destruct n as [|c [|c' n]]; [done| |].
      - destruct (decide (c = 46%Z)) as [->|]; [done|]. repeat case_match; done.
      - destruct (decide (c' = 47%Z)) as [->|]; [exfalso; apply Hsl; right; left|]. repeat case_match; done. }
    by apply split_whole.
Qed.

Lemma path_join_inj d n n' : is_absolute n = false -> is_absolute n' = false -> path_join d n = path_join d n' -> n = n'.
Proof.
  unfold path_join. intros -> ->. destruct (list.last d) as [c|]; [|done]. destruct (c =? SLASH)%Z; intros Heq%app_inv_head; congruence.
Qed.

Lemma file_name_slash p n : path_file_name p = Some n -> SLASH ∉ n /\ n <> [].
Proof.
  unfold path_file_name. intros Hp.
  assert (Ht : forall l x r, trim_right l = x :: r -> x ∈ l /\ x <> []).
  { induction l as [|y l IH]; intros x r; cbn [trim_right]; [done|]. destruct (skipped y) eqn:E.
    - intros Hx. apply IH in Hx as [Hin Hne]. split; [by right|done].
    - intros [= -> _]. split; [left|]. by intros ->. }
  destruct (trim_right _) as [|x r] eqn:E; [done|]. apply Ht in E as [Hin Hne]. destruct (bytes_eqb x (bs "..")); [done|].
  injection Hp as <-. split; [|done]. rewrite elem_of_reverse in Hin. unfold path_body in Hin. clear -Hin.
  revert Hin. generalize (drop (length (path_head p)) p). intros s. revert x. induction s as [|y s IH]; intros x; cbn.
  - intros ->%list_elem_of_singleton. set_solver.
  - destruct (Z.eqb_spec y SLASH) as [->|Hy].
    + intros [->|Hin]%elem_of_cons; [set_solver|by apply IH].
    + destruct (split SLASH s) as [|z zs] eqn:Es; [intros ->%list_elem_of_singleton; set_solver|].
      intros [->|Hin]%elem_of_cons; [|apply IH; by right]. apply not_elem_of_cons. split; [done|]. apply IH. left.
Qed.

(** * Atomic writes *)

Lemma show_N_no_slash n : SLASH ∉ show_N n.
Proof. intros Hin. assert (Hd := show_N_decimal n). rewrite list.Forall_forall in Hd. by specialize (Hd _ Hin). Qed.

Lemma tmp_name name pid n : SLASH ∉ name -> name <> [] -> file_stem (name ++ tmp_suffix pid n).
Proof.
  intros Hs Hne. unfold tmp_suffix. split_and!.
  - intros [?|[Hin|[Hin|[Hin|Hin]%elem_of_app]%elem_of_app]%elem_of_app]%elem_of_app; [done| |by apply show_N_no_slash in Hin| |by apply show_N_no_slash in Hin];
      revert Hin; apply (bool_decide_unpack (SLASH ∉ _)); vm_compute; exact I.
  - by destruct name.
  - destruct name as [|c [|c' name]]; [done| |]; cbn; discriminate.
  - destruct name as [|c [|c' name]]; [done| |]; cbn; [discriminate|]. destruct name; cbn; discriminate.
Qed.

Lemma tmp_path_spec path fs0 t0 :
  hs (fun fs t => fs = fs0 /\ t = t0) (tmp_path_for path)
     (fun r fs t => (fs = fs0 /\ t = t0) /\ match r with Ok tmp => tmp <> path | Err _ => True end).
Proof.
  unfold tmp_path_for. destruct (path_file_name path) as [name|] eqn:Hn; [|apply hs_throw; by intros fs t [-> ->]].
  intros h t [<- <-]. unfold bind, fetch_counter, ret. cbn beta iota zeta delta [files]. split; [done|]. intros Heq. destruct (file_name_slash _ _ Hn) as [Hs Hne].
  assert (Hf : path_file_name (with_file_name path (name ++ tmp_suffix (process_id os) (counter h))) = Some (name ++ tmp_suffix (process_id os) (counter h)))
    by (apply file_name_join; by apply tmp_name).
  rewrite Heq, Hn in Hf. injection Hf as Hf. apply (f_equal length) in Hf. rewrite length_app in Hf. unfold tmp_suffix in Hf. cbn in Hf. lia.
Qed.

(** What one atomic write may show: the old contents of the path or the new ones,
    and nothing changed but the staging file. *)
Definition publishes (fs0 : Files) (path data tmp : bytes) (e : SupEv) : Prop :=
  match e with
  | Changed fs => (fs !! path = fs0 !! path \/ fs !! path = Some data) /\ forall q, q <> path -> q <> tmp -> fs !! q = fs0 !! q
  | Asked _ _ => False
  end.

(** The staging file holds [part] and nothing else changed. *)
Definition staged (fs0 : Files) (tmp part : bytes) (fs : Files) : Prop := fs0 !! tmp = None /\ fs = <[tmp := part]> fs0.

Definition written (fs0 : Files) (path data : bytes) (r : result () SupervisorError) (tmp : bytes) (fs : Files) : Prop :=
  match r with
  | Ok _ => fs = <[path := data]> fs0
  | Err _ => fs = fs0 \/ exists part, staged fs0 tmp part fs
  end.

Section Atomic.
Variables (path data tmp : bytes) (fs0 : Files) (t0 : list SupEv).
Hypothesis Htmp : tmp <> path.

Notation J := (publishes fs0 path data tmp).

Lemma staged_publishes part fs : staged fs0 tmp part fs -> J (Changed fs).
Proof.
  intros [_ ->]. unfold publishes. rewrite lookup_insert_ne by done. split; [by left|]. intros q _ Hq. by rewrite lookup_insert_ne.
Qed.

Lemma since_note fs fs' t : J (Changed fs') -> since J t0 t -> since J t0 (if bool_decide (fs' = fs) then t else Changed fs' :: t).
Proof. intros Hj Hs. case_bool_decide; [done|by apply since_cons]. Qed.

Lemma create_staging_spec :
  hs (fun fs t => fs = fs0 /\ t = t0) (create_staging tmp)
     (fun r fs t => since J t0 t /\ match r with Ok _ => staged fs0 tmp [] fs | Err _ => fs = fs0 end).
Proof.
  unfold create_staging. apply (hs_bind _ _ (fun r fs t => since J t0 t /\ match r with Ok (Ok _) => staged fs0 tmp [] fs | _ => fs = fs0 end)).
  - apply hs_call; [intros fs t e [-> ->]; split; [apply since_refl|done]|]. intros fs t t' [-> ->] ->.
    destruct (fs0 !! tmp) eqn:E; cbn [fst snd].
    + rewrite bool_decide_true by done. split; [apply since_refl|done].
    + split; [|by split]. apply since_note; [|apply since_refl]. by apply (staged_publishes []).
  - by intros e fs t.
  - intros [[]|e]; [by apply hs_ret|by apply hs_throw].
Qed.

Lemma write_and_sync_spec part :
  hs (fun fs t => since J t0 t /\ staged fs0 tmp part fs) (write_and_sync tmp data)
     (fun r fs t => since J t0 t /\ exists part', staged fs0 tmp part' fs /\ (r = Ok tt -> part' = data)).
Proof.
  unfold write_and_sync.
  assert (Hst : forall p fs x, staged fs0 tmp p fs -> staged fs0 tmp x (<[tmp := x]> fs)).
  { intros p fs x [Hn ->]. split; [done|]. by rewrite insert_insert_eq. }
  apply (hs_bind _ _ (fun r fs t => since J t0 t /\ exists part', staged fs0 tmp part' fs /\ (forall u, r = Ok (Ok u) -> part' = data))).
  - intros h t (Hs & Hp). unfold fs_write_all, fs_call. destruct (fs_fault os (clock h)); cbn.
    + assert (Hx := Hst _ _ (take (short_write os (clock h)) data) Hp). split; [|by exists (take (short_write os (clock h)) data)].
      apply since_note; [|done]. by eapply staged_publishes.
    + assert (Hx := Hst _ _ data Hp). split; [|by exists data]. apply since_note; [|done]. by eapply staged_publishes.
  - intros e fs t (Hs & p & Hp & _). split; [done|]. by exists p.
  - intros r. apply (hs_bind _ _ (fun r' fs t => since J t0 t /\ exists part', staged fs0 tmp part' fs /\ (r' = Ok tt -> part' = data))).
    + destruct r as [[]|e]; [apply hs_ret|apply hs_throw]; intros fs t (Hs & p & Hp & He); (split; [done|]); exists p; (split; [done|]);
        [intros _; by eapply He|done].
    + intros e fs t (Hs & p & Hp & _). split; [done|]. by exists p.
    + intros []. apply (hs_bind _ _ (fun r' fs t => since J t0 t /\ staged fs0 tmp data fs)).
      * apply hs_call; [|cbn; intros fs t t' (Hs & p & Hp & He) ->; rewrite bool_decide_true by done; by rewrite (He eq_refl) in Hp].
        intros fs t e (Hs & p & Hp & He). by rewrite (He eq_refl) in Hp.
      * intros e fs t [Hs Hp]. split; [done|]. by exists data.
      * intros [[]|e]; [apply hs_ret|apply hs_throw]; intros fs t [Hs Hp]; (split; [done|]); by exists data.
Qed.

(** Whatever happens to the staging file, at worst it stays. *)
Lemma remove_staging_spec part e :
  hs (fun fs t => since J t0 t /\ staged fs0 tmp part fs) (let* _ := fs_remove_file os tmp in throw e)
     (fun r fs t => since J t0 t /\ written fs0 path data r tmp fs).
Proof.
  apply (hs_bind _ _ (fun r fs t => since J t0 t /\ (fs = fs0 \/ staged fs0 tmp part fs))).
  - apply hs_call; [intros fs t e' [Hs Hp]; split; [done|by right]|]. intros fs t t' [Hs [Hn ->]] ->.
    rewrite lookup_insert_eq. cbn [fst snd]. rewrite delete_insert_id by done. split; [|by left].
    apply since_note; [|done]. cbn. split; [by left|done].
  - intros e' fs t [Hs Hp]. split; [done|]. cbn. destruct Hp as [->|Hp]; [by left|right; by exists part].
  - intros r. apply hs_throw. intros fs t [Hs Hp]. split; [done|]. cbn. destruct Hp as [->|Hp]; [by left|right; by exists part].
Qed.

End Atomic.

Lemma write_atomic_spec path data fs0 t0 :
  hs (fun fs t => fs = fs0 /\ t = t0) (write_atomic path data)
     (fun r fs t => exists tmp, tmp <> path /\ since (publishes fs0 path data tmp) t0 t /\ written fs0 path data r tmp fs).
Proof.
  unfold write_atomic. eapply hs_bind; [apply tmp_path_spec| |].
  { intros e fs t [[-> ->] _]. exists (SLASH :: path). split_and!; [|apply since_refl|by left].
    intros Heq. apply (f_equal length) in Heq. cbn in Heq. lia. }
  intros tmp. apply (hs_assume (tmp <> path)); [by intros fs t [_ ?]|]. intros Hne.
  apply (hs_conseq (fun fs t => fs = fs0 /\ t = t0) _ _ (fun r fs t => since (publishes fs0 path data tmp) t0 t /\ written fs0 path data r tmp fs));
    [|by intros fs t [? _]|intros r fs t ?; by exists tmp].
  eapply hs_bind; [by apply create_staging_spec|intros e fs t [Hs ->]; split; [done|by left]|]. intros u.
  apply (hs_bind _ _ (fun w fs t => since (publishes fs0 path data tmp) t0 t /\
    exists part, staged fs0 tmp part fs /\ (w = Ok (Ok tt) -> part = data))).
  { apply hs_try. eapply hs_conseq; [by apply (write_and_sync_spec path data tmp fs0 t0 Hne [])|done|].
    intros r fs t (Hs & part & Hp & He). split; [done|]. exists part. split; [done|]. intros [= ->]. by apply He. }
  { intros e fs t (Hs & part & Hp & _). split; [done|]. right. by exists part. }
  intros [[]|e]; [|intros h t (Hs & part & Hp & _); apply (remove_staging_spec path data tmp fs0 t0 part); by split].
  apply (hs_bind _ _ (fun r fs t => since (publishes fs0 path data tmp) t0 t /\
    match r with Ok (Ok _) => fs = <[path := data]> fs0 | _ => staged fs0 tmp data fs end)).
  - apply hs_call.
    + intros fs t e (Hs & part & Hp & He). by rewrite (He eq_refl) in Hp.
    + intros fs t t' (Hs & part & Hp & He) ->. rewrite (He eq_refl) in Hp. destruct Hp as [Hn ->]. rewrite lookup_insert_eq. cbn [fst snd].
      rewrite delete_insert_id by done. split; [|done]. apply since_note; [|done]. unfold publishes.
      split; [right; by rewrite lookup_insert_eq|]. intros q Hq _. by rewrite lookup_insert_ne.
  - intros e fs t [Hs Hp]. split; [done|]. right. by exists data.
  - intros [[]|e]; [by apply hs_ret|]. apply (remove_staging_spec path data tmp fs0 t0 data).
Qed.

(** A unit file is never torn: at every moment of an atomic write its path holds
    what it held before or all of the new contents; when the write succeeds the
    files are the old ones with the path set, and when it fails they are the old
    ones, or the old ones and a staging file that could not be removed. *)
Theorem write_is_atomic path data h t :
  let '(r, h', t') := write_atomic path data h t in
  exists tmp, tmp <> path /\ since (publishes (files h) path data tmp) t t' /\ written (files h) path data r tmp (files h').
Proof. exact (write_atomic_spec path data (files h) t h t (conj eq_refl eq_refl)). Qed.

(** * Installing *)

Definition changes (e : SupEv) : Prop := match e with Changed _ => True | Asked _ _ => False end.

(** The manager was told of the file and asked to start the unit with the next
    session, after the file was written. *)
Definition armed (unit : bytes) (t0 t : list SupEv) : Prop :=
  exists new o1 o2, t = Asked [bs "enable"; unit] (Ok o2) :: Asked [bs "daemon-reload"] (Ok o1) :: new ++ t0 /\
    Forall changes new /\ success o1 = true /\ success o2 = true.

Lemma since_impl (J J' : SupEv -> Prop) t0 t : (forall e, J e -> J' e) -> since J t0 t -> since J' t0 t.
Proof. intros Hj (new & -> & Hn). exists new. split; [done|]. by eapply Forall_impl. Qed.

Lemma published_changes fs0 path data tmp t0 t : since (publishes fs0 path data tmp) t0 t -> since changes t0 t.
Proof. apply since_impl. by intros []. Qed.

Lemma make_units_dir_spec P : hs P make_units_dir (fun _ => P).
Proof.
  unfold make_units_dir. apply (hs_bind _ _ (fun _ => P)); [|done|intros [[]|e]; [by apply hs_ret|by apply hs_throw]].
  apply hs_call; [done|]. intros fs t t' Hp ->. cbn. by rewrite bool_decide_true.
Qed.

Lemma write_unit_file_spec spec fs0 t0 :
  hs (fun fs t => fs = fs0 /\ t = t0) (write_unit_file spec)
     (fun r fs t => since changes t0 t /\
        match r with
        | Ok _ => check_unit_spec spec = Ok tt /\ fs = <[unit_path (ss_name spec) := build_unit_file spec]> fs0
        | Err _ => fs !! unit_path (ss_name spec) = fs0 !! unit_path (ss_name spec)
        end).
Proof.
  unfold write_unit_file.
  apply (hs_bind _ _ (fun r fs t => (fs = fs0 /\ t = t0) /\ r = check_unit_spec spec)); [apply hs_lift; by intros fs t ?| |].
  { intros e fs t [[-> ->] _]. split; [apply since_refl|done]. }
  intros []. apply (hs_assume (check_unit_spec spec = Ok tt)); [by intros fs t [_ <-]|]. intros Hc.
  eapply hs_bind; [apply make_units_dir_spec|intros e fs t [[-> ->] _]; split; [apply since_refl|done]|]. intros u.
  eapply hs_conseq; [apply (write_atomic_spec (unit_path (ss_name spec)) (build_unit_file spec) fs0 t0)|by intros fs t [? _]|].
  intros r fs t (tmp & Hne & Hs & Hw). split; [by eapply published_changes|]. destruct r; [by split|].
  destruct Hw as [->|(part & _ & ->)]; [done|]. by rewrite lookup_insert_ne.
Qed.

Lemma reload_enable_spec unit fs0 t0 :
  hs (fun fs t => fs = fs0 /\ since changes t0 t) (daemon_reload ;;; enable unit)
     (fun r fs t => fs = fs0 /\ (r = Ok tt -> armed unit t0 t)).
Proof.
  unfold daemon_reload, enable.
  assert (Hok : forall args out b, read_exit args out = Ok b -> success out = true) by (intros args out b; unfold read_exit; by destruct (success out)).
  apply (hs_bind _ _ (fun r fs t => fs = fs0 /\ (r = Ok tt -> exists o1 t1, t = Asked [bs "daemon-reload"] (Ok o1) :: t1 /\ success o1 = true /\ since changes t0 t1))).
  - apply (hs_bind _ _ (fun r fs t => fs = fs0 /\ ((exists b, r = Ok b) -> exists o1 t1, t = Asked [bs "daemon-reload"] (Ok o1) :: t1 /\ success o1 = true /\ since changes t0 t1))).
    + apply hs_systemctl. intros r fs t [-> Hs]. split; [done|]. intros [b Hr]. destruct r as [o|e]; [|done]. exists o, t. split_and!; [done|by eapply Hok|done].
    + by intros e fs t [-> _].
    + intros b. apply hs_ret. intros fs t [-> Hx]. split; [done|]. intros _. by apply Hx; exists b.
  - by intros e fs t [-> _].
  - intros []. apply (hs_bind _ _ (fun r fs t => fs = fs0 /\ ((exists b, r = Ok b) -> armed unit t0 t))).
    + apply hs_systemctl. intros r fs t [-> Hx]. split; [done|]. destruct (Hx eq_refl) as (o1 & t1 & -> & Ho1 & (new & -> & Hn)).
      intros [b Hr]. destruct r as [o|e]; [|done]. exists new, o1, o. split_and!; [done|done|done|by eapply Hok].
    + by intros e fs t [-> _].
    + intros b. apply hs_ret. intros fs t [-> Hx]. split; [done|]. intros _. by apply Hx; exists b.
Qed.

(** Installing a service writes what its spec says and arms it: when it succeeds
    the spec passed every check, the unit file and nothing else changed, and, in
    the manager's own directory, the manager was told of the file and then asked
    to start the unit with every session; when it fails the unit file is the old
    one, or the new one with the manager still to be told. *)
Theorem install_writes_and_arms spec h t :
  let '(r, h', t') := install spec h t in
  match r with
  | Ok _ => check_unit_spec spec = Ok tt /\ files h' = <[unit_path (ss_name spec) := build_unit_file spec]> (files h) /\
            (is_default_units_dir = true -> armed (ss_name spec ++ bs ".service") t t')
  | Err _ => files h' !! unit_path (ss_name spec) = files h !! unit_path (ss_name spec) \/
             (check_unit_spec spec = Ok tt /\ files h' = <[unit_path (ss_name spec) := build_unit_file spec]> (files h))
  end.
Proof.
  assert (Hi : hs (fun fs t1 => fs = files h /\ t1 = t) (install spec) (fun r fs t' =>
    match r with
    | Ok _ => check_unit_spec spec = Ok tt /\ fs = <[unit_path (ss_name spec) := build_unit_file spec]> (files h) /\
              (is_default_units_dir = true -> armed (ss_name spec ++ bs ".service") t t')
    | Err _ => fs !! unit_path (ss_name spec) = files h !! unit_path (ss_name spec) \/
               (check_unit_spec spec = Ok tt /\ fs = <[unit_path (ss_name spec) := build_unit_file spec]> (files h))
    end)).
  { unfold install. eapply hs_bind; [apply write_unit_file_spec|intros e fs t' [_ Hf]; by left|]. intros u.
    apply (hs_assume (check_unit_spec spec = Ok tt)); [by intros fs t' (_ & ? & _)|]. intros Hc.
    apply hs_when; [|intros Hd fs t' (_ & _ & ->); by rewrite Hd].
    intros Hd. eapply hs_conseq; [apply (reload_enable_spec _ (<[unit_path (ss_name spec) := build_unit_file spec]> (files h)) t)| |].
    - intros fs t' (Hs & _ & ->). done.
    - intros [[]|e] fs t' [-> Ha]; [split_and!; [done|done|intros _; by apply Ha]|by right]. }
  exact (Hi h t (conj eq_refl eq_refl)).
Qed.

(** * Removing *)

(** What a call of [systemctl] was taken to say. *)
Definition answer_text (args : list bytes) (r : result Output SupervisorError) : result bytes SupervisorError :=
  match r with Ok out => read_exit args out | Err e => Err e end.

(** Since [t0] the manager said that nothing of the unit runs, and then that no
    link starts it. *)
Definition released (unit : bytes) (t0 t : list SupEv) : Prop :=
  exists post pre a1 a2, t = post ++ Asked [bs "disable"; unit] a2 :: Asked [bs "stop"; unit] a1 :: pre ++ t0 /\
    stop_outcome unit (answer_text [bs "stop"; unit] a1) = Ok tt /\
    disable_outcome unit (answer_text [bs "disable"; unit] a2) = Ok tt.

Definition later (t0 t : list SupEv) : Prop := exists new, t = new ++ t0.

Lemma later_refl t : later t t.
Proof. by exists []. Qed.

Lemma later_trans t0 t1 t2 : later t0 t1 -> later t1 t2 -> later t0 t2.
Proof. intros [n1 ->] [n2 ->]. exists (n2 ++ n1). by rewrite app_assoc. Qed.

Lemma later_cons e t0 t : later t0 t -> later t0 (e :: t).
Proof. intros [n ->]. by exists (e :: n). Qed.

Lemma released_later unit t0 t1 t2 t3 : later t0 t1 -> released unit t1 t2 -> later t2 t3 -> released unit t0 t3.
Proof.
  intros [n1 ->] (post & pre & a1 & a2 & -> & H1 & H2) [n3 ->]. exists (n3 ++ post), (pre ++ n1), a1, a2. split_and!; [|done|done].
  by rewrite <- !app_assoc.
Qed.

Lemma reload_later (Q : list SupEv -> Prop) fs0 : (forall e t, Q t -> Q (e :: t)) ->
  hs (fun fs t => fs = fs0 /\ Q t) daemon_reload (fun _ fs t => fs = fs0 /\ Q t).
Proof.
  intros HQ. unfold daemon_reload. apply (hs_bind _ _ (fun _ fs t => fs = fs0 /\ Q t)); [|done|intros b; by apply hs_ret].
  apply hs_systemctl. intros r fs t [-> Hq]. split; [done|by apply HQ].
Qed.

Lemma stop_and_disable_spec unit fs0 t0 :
  hs (fun fs t => fs = fs0 /\ t = t0) (stop_and_disable unit) (fun r fs t => fs = fs0 /\ later t0 t /\ (r = Ok tt -> released unit t0 t)).
Proof.
  unfold stop_and_disable.
  apply (hs_bind _ _ (fun w fs t => fs = fs0 /\ exists a, t = Asked [bs "stop"; unit] a :: t0 /\ w = Ok (answer_text [bs "stop"; unit] a))).
  { apply hs_try, hs_systemctl. intros r fs t [-> ->]. split; [done|]. by exists r. }
  { by intros e fs t (_ & a & _ & [=]). }
  intros w. apply (hs_bind _ _ (fun r fs t => fs = fs0 /\ exists a, t = Asked [bs "stop"; unit] a :: t0 /\ r = stop_outcome unit (answer_text [bs "stop"; unit] a))).
  { apply hs_lift. intros fs t (-> & a & -> & [= ->]). split; [done|]. by exists a. }
  { intros e fs t (-> & a & -> & _). split_and!; [done|apply later_cons, later_refl|done]. }
  intros []. apply (hs_bind _ _ (fun w fs t => fs = fs0 /\ exists a a', t = Asked [bs "disable"; unit] a' :: Asked [bs "stop"; unit] a :: t0 /\
    Ok tt = stop_outcome unit (answer_text [bs "stop"; unit] a) /\ w = Ok (answer_text [bs "disable"; unit] a'))).
  { apply hs_try, hs_systemctl. intros r fs t (-> & a & -> & Hs). split; [done|]. by exists a, r. }
  { by intros e fs t (_ & a & a' & _ & _ & [=]). }
  intros w'. apply hs_lift. intros fs t (-> & a & a' & -> & Hs & [= ->]). split_and!; [done|by apply later_cons, later_cons, later_refl|].
  intros Hd. by exists [], [], a, a'.
Qed.

Lemma remove_after_stop_spec stopped path fs0 (Q : list SupEv -> Prop) : (forall e t, Q t -> Q (e :: t)) ->
  hs (fun fs t => fs = fs0 /\ Q t) (remove_after_stop stopped path)
     (fun r fs t => Q t /\ ((fs = fs0 /\ r <> Ok tt) \/ (fs = delete path fs0 /\ stopped = Ok tt))).
Proof.
  intros HQ. unfold remove_after_stop.
  assert (Hk : forall m (e : bytes -> SupervisorError), hs (fun fs t => fs = fs0 /\ Q t) (let* m' := kept path m in throw (e m'))
    (fun (r : result () SupervisorError) fs t => Q t /\ ((fs = fs0 /\ r <> Ok tt) \/ (fs = delete path fs0 /\ stopped = Ok tt)))).
  { intros m e. unfold kept. apply (hs_bind _ _ (fun _ fs t => fs = fs0 /\ Q t)).
    - apply (hs_bind _ _ (fun _ fs t => fs = fs0 /\ Q t)); [|done|intros r; by apply hs_ret].
      apply hs_call; [by intros fs t e' ?|]. intros fs t t' [-> Hq] ->. cbn. by rewrite bool_decide_true.
    - intros e' fs t [-> Hq]. split; [done|by left].
    - intros m'. apply hs_throw. intros fs t [-> Hq]. split; [done|by left]. }
  destruct stopped as [[]|[]]; try (apply Hk; fail); try (apply hs_throw; intros fs t [-> Hq]; split; [done|by left]).
  apply (hs_bind _ _ (fun r fs t => Q t /\ match r with Ok (Err (OtherIo _)) => fs = fs0 | Ok _ => fs = delete path fs0 | Err _ => fs = fs0 end)).
  - apply hs_call; [by intros fs t e [-> Hq]|]. intros fs t t' [-> Hq] ->. destruct (fs0 !! path) eqn:E; cbn [fst snd].
    + split; [|done]. case_bool_decide; [done|by apply HQ].
    + rewrite bool_decide_true by done. split; [done|]. by rewrite delete_id.
  - intros e fs t [Hq ->]. split; [done|by left].
  - intros [[]|[e|e]]; [apply hs_ret|apply hs_ret|apply hs_throw]; intros fs t [Hq ->]; (split; [done|]); [by right|by right|by left].
Qed.

Lemma uninstall_spec name fs0 t0 :
  hs (fun fs t => fs = fs0 /\ t = t0) (uninstall name)
     (fun r fs t => later t0 t /\ ((fs = fs0 /\ r <> Ok tt) \/
        (fs = delete (unit_path name) fs0 /\ (is_default_units_dir = true -> released (name ++ bs ".service") t0 t)))).
Proof.
  unfold uninstall. apply (hs_bind _ _ (fun _ fs t => fs = fs0 /\ t = t0)); [apply hs_lift; by intros fs t ?| |].
  { intros e fs t [-> ->]. split; [apply later_refl|by left]. }
  intros u. set (REL := fun t => is_default_units_dir = true -> released (name ++ bs ".service") t0 t).
  apply (hs_bind _ _ (fun w fs t => fs = fs0 /\ later t0 t /\ (w = Ok (Ok tt) -> REL t) /\ exists s, w = Ok s)).
  { apply hs_try, hs_when.
    - intros Hd. eapply hs_conseq; [apply (stop_and_disable_spec _ fs0 t0)|done|]. intros r fs t (-> & Hl & Hr).
      split_and!; [done|done|intros [= ->] _; by apply Hr|by exists r].
    - intros Hd fs t [-> ->]. split_and!; [done|apply later_refl|by intros _; unfold REL; rewrite Hd|by eexists]. }
  { by intros e fs t (_ & _ & _ & s & [=]). }
  intros stopped.
  apply (hs_bind _ _ (fun r fs t => (later t0 t /\ (stopped = Ok tt -> REL t)) /\ ((fs = fs0 /\ r <> Ok tt) \/ (fs = delete (unit_path name) fs0 /\ stopped = Ok tt)))).
  { eapply hs_conseq; [apply (remove_after_stop_spec stopped (unit_path name) fs0 (fun t => later t0 t /\ (stopped = Ok tt -> REL t)))| |by intros r fs t ?].
    - intros e t [Hl Hr]. split; [by apply later_cons|]. intros Hs Hd. eapply released_later; [apply later_refl|by apply Hr|apply later_cons, later_refl].
    - intros fs t (-> & Hl & Hr & _). split_and!; [done|done|]. intros ->. by apply Hr. }
  { intros e fs t ((Hl & Hr) & [[-> _]|[-> Hs]]); (split; [done|]); [by left|right; split; [done|by apply Hr]]. }
  intros []. apply hs_when.
  - intros Hd. apply (hs_assume (stopped = Ok tt)); [intros fs t (_ & [[_ Hx]|[_ Hx]]); [done|done]|]. intros Hs.
    eapply hs_conseq; [apply (reload_later (fun t => later t0 t /\ REL t) (delete (unit_path name) fs0))| |].
    + intros e t [Hl Hr]. split; [by apply later_cons|]. intros _. eapply released_later; [apply later_refl|by apply Hr|apply later_cons, later_refl].
    + intros fs t ((Hl & Hr) & [[_ Hx]|[-> _]]); [done|]. split_and!; [done|done|by apply Hr].
    + intros r fs t (-> & Hl & Hr). split; [done|]. right. by split.
  - intros Hd fs t ((Hl & Hr) & [[_ Hx]|[-> _]]); [done|]. split; [done|]. right. split; [done|]. by rewrite Hd.
Qed.

(** A unit that may still run keeps its file: whatever the manager answers,
    removing a service changes nothing but its own unit file, and in the
    manager's own directory that file goes only after the manager said that
    nothing of the unit runs and then that nothing starts it again; when the
    removal succeeds the file is gone. *)
Theorem uninstall_keeps_a_running_unit name h t :
  let '(r, h', t') := uninstall name h t in
  (files h' = files h /\ r <> Ok tt) \/
  (files h' = delete (unit_path name) (files h) /\ (is_default_units_dir = true -> released (name ++ bs ".service") t t')).
Proof.
  assert (Hu := uninstall_spec name (files h) t h t (conj eq_refl eq_refl)). destruct (uninstall name h t) as [[r h'] t']. by destruct Hu.
Qed.

(** ** Bundles *)

Lemma valid_name_head name : validate_service_name name = Ok tt -> forall sfx, is_absolute (name ++ sfx) = false.
Proof.
  intros (Hl & Hs & _)%valid_service_names sfx. destruct name as [|c name]; [cbn in Hl; lia|]. cbn in Hs. apply andb_true_iff in Hs as [Hc _].
  unfold is_absolute, starts_with. cbn [app strip_prefix]. destruct (Z.eqb_spec SLASH c) as [<-|]; done.
Qed.

Lemma target_not_unit name m : validate_service_name name = Ok tt -> validate_service_name m = Ok tt -> target_path name <> unit_path m.
Proof.
  intros Hn Hm Heq. unfold target_path, unit_path in Heq. apply path_join_inj in Heq; [|by apply valid_name_head..].
  apply (f_equal list.last) in Heq. rewrite !last_app in Heq. discriminate.
Qed.

(** What taking down some members leaves. *)
Definition taken_down (names : list bytes) (fs0 : Files) (t0 : list SupEv) (r : result () SupervisorError) (fs : Files) (t : list SupEv) : Prop :=
  fs ⊆ fs0 /\ (forall q, (forall m, m ∈ names -> q <> unit_path m) -> fs !! q = fs0 !! q) /\
  (forall m, m ∈ names -> r = Ok tt -> fs !! unit_path m = None) /\
  (forall m, m ∈ names -> r = Ok tt \/ fs !! unit_path m <> fs0 !! unit_path m -> is_default_units_dir = true ->
     exists m', m' ∈ names /\ unit_path m' = unit_path m /\ released (m' ++ bs ".service") t0 t).

Lemma each_uninstall_spec names fs0 t0 :
  hs (fun fs t => fs = fs0 /\ t = t0) (each uninstall names) (fun r fs t => later t0 t /\ taken_down names fs0 t0 r fs t).
Proof.
  revert fs0 t0. induction names as [|m names IH]; intros fs0 t0; cbn [each].
  { apply hs_ret. intros fs t [-> ->]. split; [apply later_refl|]. unfold taken_down. split_and!; [done|done| |];
      intros m Hm; by apply not_elem_of_nil in Hm. }
  intros h t [Hf Ht]. unfold bind. assert (Hu := uninstall_spec m fs0 t0 h t (conj Hf Ht)).
  destruct (uninstall m h t) as [[r h1] t1]. destruct Hu as [Hl Hu]. destruct r as [[]|e].
  - destruct Hu as [[_ Hx]|[Hf1 Hr]]; [done|].
    assert (Hi := IH (files h1) t1 h1 t1 (conj eq_refl eq_refl)). destruct (each uninstall names h1 t1) as [[r h2] t2].
    destruct Hi as [Hl2 (Hsub & Hout & Hgone & Hrel)]. split; [by eapply later_trans|]. unfold taken_down.
    assert (Hm : files h2 !! unit_path m = None).
    { destruct (files h2 !! unit_path m) eqn:E; [|done]. assert (Hx := lookup_weaken _ _ _ _ E Hsub). rewrite Hf1, lookup_delete_eq in Hx. done. }
    split_and!.
    + etrans; [exact Hsub|]. rewrite Hf1. apply delete_subseteq.
    + intros q Hq. rewrite Hout by (intros m' Hm'; apply Hq; by right). rewrite Hf1, lookup_delete_ne; [done|]. apply not_eq_sym, Hq. left.
    + intros m' [->|Hm']%elem_of_cons Hr'; [done|by apply Hgone].
    + intros m' Hm' Hc Hd. destruct (decide (unit_path m' = unit_path m)) as [Heq|Hne].
      * exists m. split_and!; [left|done|]. eapply released_later; [apply later_refl|by apply Hr|done].
      * apply elem_of_cons in Hm' as [->|Hm']; [done|]. destruct (Hrel m' Hm') as (m2 & Hm2 & Hp & Hrl); [|done|].
        { destruct Hc as [->|Hc]; [by left|right]. by rewrite Hf1, lookup_delete_ne by done. }
        exists m2. split_and!; [by right|done|]. eapply released_later; [exact Hl|exact Hrl|apply later_refl].
  - split; [done|]. unfold taken_down. destruct Hu as [[Hf1 _]|[Hf1 Hr]]; rewrite Hf1.
    + split_and!; [done|done|done|]. intros m' Hm' [Hx|Hx]; done.
    + split_and!; [apply delete_subseteq| |done|].
      * intros q Hq. rewrite lookup_delete_ne; [done|]. apply not_eq_sym, Hq. left.
      * intros m' Hm' [Hx|Hx] Hd; [done|]. exists m. split_and!; [left| |by apply Hr].
        destruct (decide (unit_path m = unit_path m')); [done|]. by rewrite lookup_delete_ne in Hx.
Qed.

Lemma taken_down_earlier names fs0 t0 t1 r fs t : later t0 t1 -> taken_down names fs0 t1 r fs t -> taken_down names fs0 t0 r fs t.
Proof.
  intros Hl (H1 & H2 & H3 & H4). unfold taken_down. split_and!; [done|done|done|]. intros m Hm Hc Hd.
  destruct (H4 m Hm Hc Hd) as (m' & Hm' & Hp & Hr). exists m'. split_and!; [done|done|]. eapply released_later; [done|done|apply later_refl].
Qed.

(** What removing a bundle leaves: no new file, no file touched but the bundle's
    and its members', and the bundle's gone only with every member's gone and all
    of them released. *)
Definition bundle_left (target : TargetSpec) (fs0 : Files) (t0 : list SupEv) (r : result () SupervisorError) (fs : Files) (t : list SupEv) : Prop :=
  let tp := target_path (ts_name target) in
  fs ⊆ fs0 /\
  (forall q, q <> tp -> (forall m, m ∈ ts_members target -> q <> unit_path m) -> fs !! q = fs0 !! q) /\
  (r = Ok tt \/ fs !! tp <> fs0 !! tp ->
     fs !! tp = None /\
     (is_default_units_dir = true -> released (ts_name target ++ bs ".target") t0 t) /\
     forall m, m ∈ ts_members target -> fs !! unit_path m = None /\
       (is_default_units_dir = true -> exists m', unit_path m' = unit_path m /\ released (m' ++ bs ".service") t0 t)).

Section Bundle.
Variables (target : TargetSpec) (fs0 : Files) (t0 : list SupEv).
Let tp := target_path (ts_name target).
Let ms := ts_members target.
Hypothesis Htp : forall m, m ∈ ms -> tp <> unit_path m.

Lemma tear_down_spec :
  hs (fun fs t => fs = fs0 /\ t = t0)
     (when is_default_units_dir (stop_and_disable (ts_name target ++ bs ".target")) ;;; each uninstall (reverse ms))
     (fun r fs t => later t0 t /\ taken_down (reverse ms) fs0 t0 r fs t /\
        (r = Ok tt -> is_default_units_dir = true -> released (ts_name target ++ bs ".target") t0 t)).
Proof.
  apply (hs_bind _ _ (fun r fs t => fs = fs0 /\ later t0 t /\ (r = Ok tt -> is_default_units_dir = true -> released (ts_name target ++ bs ".target") t0 t))).
  - apply hs_when.
    + intros Hd. eapply hs_conseq; [apply (stop_and_disable_spec _ fs0 t0)|by intros fs t ?|]. intros r fs t (-> & Hl & Hr).
      split_and!; [done|done|]. intros -> _. by apply Hr.
    + intros Hd fs t [-> ->]. split_and!; [done|apply later_refl|by rewrite Hd].
  - intros e fs t (-> & Hl & _). split_and!; [done| |done]. unfold taken_down. split_and!; [done|done|done|]. intros m Hm [Hx|Hx]; done.
  - intros [] h1 t1 (Hf & Hl & Hr). assert (Hu := each_uninstall_spec (reverse ms) fs0 t1 h1 t1 (conj Hf eq_refl)).
    destruct (each uninstall (reverse ms) h1 t1) as [[r h2] t2]. destruct Hu as [Hl2 Hu]. split_and!; [by eapply later_trans|by eapply taken_down_earlier|].
    intros _ Hd. eapply released_later; [apply later_refl|by apply Hr|done].
Qed.

Lemma keeps_bundle_file r fs t : taken_down (reverse ms) fs0 t0 r fs t ->
  fs ⊆ fs0 /\ fs !! tp = fs0 !! tp /\ (forall q, (forall m, m ∈ ms -> q <> unit_path m) -> fs !! q = fs0 !! q).
Proof.
  intros (Hsub & Hout & _ & _).
  assert (Hq : forall q, (forall m, m ∈ ms -> q <> unit_path m) -> fs !! q = fs0 !! q).
  { intros q Hq. apply Hout. intros m Hm. apply Hq. by rewrite elem_of_reverse in Hm. }
  split_and!; [done|by apply Hq|done].
Qed.

Lemma kept_bundle fs1 t1 e t2 r : taken_down (reverse ms) fs0 t0 r fs1 t1 -> bundle_left target fs0 t0 (Err e) fs1 t2.
Proof.
  intros (Hsub & Hkeep & Hq)%keeps_bundle_file. unfold bundle_left. fold tp ms. split_and!; [done|intros q _; apply Hq|]. by intros [|].
Qed.

Lemma removed_bundle fs1 t1 r t2 : taken_down (reverse ms) fs0 t0 (Ok tt) fs1 t1 -> later t1 t2 ->
  (is_default_units_dir = true -> released (ts_name target ++ bs ".target") t0 t1) -> bundle_left target fs0 t0 r (delete tp fs1) t2.
Proof.
  intros Hd Hl Hr. destruct (keeps_bundle_file _ _ _ Hd) as (Hsub & _ & Hq). destruct Hd as (_ & _ & Hgone & Hrelm).
  unfold bundle_left. fold tp ms. split_and!.
  - etrans; [apply delete_subseteq|done].
  - intros q Hqt Hqm. rewrite lookup_delete_ne by done. by apply Hq.
  - intros _. split_and!; [apply lookup_delete_eq| |].
    + intros Hdef. eapply released_later; [apply later_refl|by apply Hr|done].
    + intros m Hm. assert (Hm' : m ∈ reverse ms) by by rewrite elem_of_reverse. split.
      * rewrite lookup_delete_ne by by apply Htp. by apply Hgone.
      * intros Hdef. destruct (Hrelm m Hm' (or_introl eq_refl) Hdef) as (m' & _ & Hp & Hrl). exists m'. split; [done|].
        eapply released_later; [apply later_refl|done|done].
Qed.

Lemma take_down_spec :
  hs (fun fs t => fs = fs0 /\ t = t0)
     (let* torn_down := try (when is_default_units_dir (stop_and_disable (ts_name target ++ bs ".target")) ;;; each uninstall (reverse ms)) in
      remove_after_stop torn_down tp ;;; when is_default_units_dir daemon_reload)
     (bundle_left target fs0 t0).
Proof.
  intros h t [Hf Ht]. unfold bind at 1, try. assert (Hd := tear_down_spec h t (conj Hf Ht)).
  destruct (bind _ _ h t) as [[torn h1] t1]. destruct Hd as (Hl & Hdown & Hrel). unfold bind.
  assert (Hrm := remove_after_stop_spec torn tp (files h1) (fun t2 => later t1 t2) (fun e t2 Hx => later_cons e t1 t2 Hx) h1 t1 (conj eq_refl (later_refl t1))).
  destruct (remove_after_stop torn tp h1 t1) as [[r2 h2] t2]. destruct Hrm as [Hl2 Hrm].
  destruct r2 as [[]|e]; [destruct Hrm as [[_ Hx]|[Hf2 ->]]; [done|]|destruct Hrm as [[-> _]|[-> ->]]; [by eapply kept_bundle|]].
  - destruct is_default_units_dir eqn:Hdef; cbn [when].
    + assert (Hre := reload_later (fun t3 => later t2 t3) (files h2) (fun e t3 Hx => later_cons e t2 t3 Hx) h2 t2 (conj eq_refl (later_refl t2))).
      destruct (daemon_reload h2 t2) as [[r3 h3] t3]. destruct Hre as [-> Hl3]. rewrite Hf2. eapply removed_bundle; [done|by eapply later_trans|].
      intros _. by apply Hrel.
    + cbn. rewrite Hf2. eapply removed_bundle; [done|done|by rewrite Hdef].
  - eapply removed_bundle; [done|done|by apply Hrel].
Qed.

End Bundle.

(** C37. A bundle is taken down from its members up: removing it removes files only,
    touches no file but its own and its members', and removes its own only when
    every member's file is gone and, in the manager's own directory, the manager
    released the bundle and each of them; when it succeeds all of them are gone. *)
Theorem bundle_goes_after_its_members target h t :
  let '(r, h', t') := uninstall_target target h t in bundle_left target (files h) t r (files h') t'.
Proof.
  cut (hs (fun fs t1 => fs = files h /\ t1 = t) (uninstall_target target) (bundle_left target (files h) t));
    [intros Hi; exact (Hi h t (conj eq_refl eq_refl))|].
  assert (Hsame : forall e t', bundle_left target (files h) t (Err e) (files h) t') by (intros e t'; unfold bundle_left; split_and!; [done|done|by intros [|]]).
  unfold uninstall_target.
  apply (hs_bind _ _ (fun r fs t1 => (fs = files h /\ t1 = t) /\ r = validate_service_name (ts_name target)));
    [apply hs_lift; by intros fs t1 ?|intros e fs t1 [[-> ->] _]; apply Hsame|].
  intros []. apply (hs_assume (validate_service_name (ts_name target) = Ok tt)); [by intros fs t1 [_ <-]|]. intros Hname.
  apply (hs_bind _ _ (fun r fs t1 => (fs = files h /\ t1 = t) /\ r = each_name (ts_members target)));
    [apply hs_lift; by intros fs t1 [? _]|intros e fs t1 [[-> ->] _]; apply Hsame|].
  intros []. apply (hs_assume (each_name (ts_members target) = Ok tt)); [by intros fs t1 [_ <-]|]. intros Hms%each_name_Forall.
  rewrite list.Forall_forall in Hms.
  eapply hs_conseq; [apply (take_down_spec target (files h) t)|by intros fs t1 [? _]|done].
  intros m Hm. apply target_not_unit; [done|by apply Hms].
Qed.

(** ** Installing a bundle *)

Definition with_unit (fs : Files) (spec : ServiceSpec) : Files := <[unit_path (ss_name spec) := build_unit_file spec]> fs.

Lemma each_write_spec specs fs0 t0 t00 : since changes t00 t0 ->
  hs (fun fs t => fs = fs0 /\ t = t0) (each write_unit_file specs)
     (fun r fs t => r = Ok tt -> since changes t00 t /\ Forall (fun s => check_unit_spec s = Ok tt) specs /\ fs = foldl with_unit fs0 specs).
Proof.
  revert fs0 t0. induction specs as [|s specs IH]; intros fs0 t0 Hs; cbn [each].
  { apply hs_ret. intros fs t [-> ->] _. by split_and!. }
  intros h t [Hf Ht]. unfold bind. assert (Hw := write_unit_file_spec s fs0 t0 h t (conj Hf Ht)).
  destruct (write_unit_file s h t) as [[[[]|e] h1] t1]; [|done]. destruct Hw as (Hs1 & Hc & Hf1).
  assert (Hs2 : since changes t00 t1) by by eapply since_trans.
  assert (Hi := IH (files h1) t1 Hs2 h1 t1 (conj eq_refl eq_refl)). destruct (each write_unit_file specs h1 t1) as [[r h2] t2].
  intros ->. destruct (Hi eq_refl) as (Hs3 & Hall & Hf2). split_and!; [done|by constructor|]. rewrite Hf2, Hf1. done.
Qed.

(** Installing a bundle writes a checked unit for each member and then the unit
    that wants them, and arms the bundle: when it succeeds, the files are the old
    ones with those set, in order, and in the manager's own directory the manager
    was told and asked to start the bundle after all of them were written. *)
Theorem bundle_is_written_and_armed target members h t :
  let '(r, h', t') := install_target target members h t in
  r = Ok tt ->
  each_name (ts_name target :: ts_members target) = Ok tt /\ Forall (fun s => check_unit_spec s = Ok tt) members /\
  files h' = <[target_path (ts_name target) := build_target_unit target]> (foldl with_unit (files h) members) /\
  (is_default_units_dir = true -> armed (ts_name target ++ bs ".target") t t').
Proof.
  set (body := foldl with_unit (files h) members).
  cut (hs (fun fs t1 => fs = files h /\ t1 = t) (install_target target members) (fun r fs t' => r = Ok tt ->
    each_name (ts_name target :: ts_members target) = Ok tt /\ Forall (fun s => check_unit_spec s = Ok tt) members /\
    fs = <[target_path (ts_name target) := build_target_unit target]> body /\
    (is_default_units_dir = true -> armed (ts_name target ++ bs ".target") t t')));
    [intros Hi; exact (Hi h t (conj eq_refl eq_refl))|].
  unfold install_target. cbn [each_name].
  apply (hs_bind _ _ (fun r fs t1 => (fs = files h /\ t1 = t) /\ r = validate_service_name (ts_name target))); [apply hs_lift; by intros fs t1 ?|done|].
  intros []. apply (hs_assume (validate_service_name (ts_name target) = Ok tt)); [by intros fs t1 [_ <-]|]. intros ->.
  apply (hs_bind _ _ (fun r fs t1 => (fs = files h /\ t1 = t) /\ r = each_name (ts_members target))); [apply hs_lift; by intros fs t1 [? _]|done|].
  intros []. apply (hs_assume (each_name (ts_members target) = Ok tt)); [by intros fs t1 [_ <-]|]. intros ->.
  apply (hs_bind _ _ (fun r fs t1 => r = Ok tt -> since changes t t1 /\ Forall (fun s => check_unit_spec s = Ok tt) members /\ fs = body)).
  { eapply hs_conseq; [apply (each_write_spec members (files h) t t (since_refl _ _))|by intros fs t1 [? _]|done]. }
  { done. }
  intros []. apply (hs_assume (Forall (fun s => check_unit_spec s = Ok tt) members)); [intros fs t1 Hx; by destruct (Hx eq_refl) as (_ & ? & _)|].
  intros Hall. eapply hs_bind; [apply make_units_dir_spec|done|]. intros u.
  apply (hs_bind _ _ (fun r fs t1 => r = Ok tt -> since changes t t1 /\ fs = <[target_path (ts_name target) := build_target_unit target]> body)).
  { intros h1 t1 Hx. destruct (Hx eq_refl) as (Hs & _ & Hf).
    assert (Hw := write_atomic_spec (target_path (ts_name target)) (build_target_unit target) body t1 h1 t1 (conj Hf eq_refl)).
    destruct (write_atomic _ _ h1 t1) as [[r h2] t2]. intros ->. destruct Hw as (tmp & _ & Hs2 & Hw). split; [|done].
    eapply since_trans; [done|]. by eapply published_changes. }
  { done. }
  intros []. apply hs_when; [|intros Hd fs t1 Hx _; destruct (Hx eq_refl) as [_ ->]; by rewrite Hd].
  intros _. eapply hs_conseq; [apply (reload_enable_spec _ (<[target_path (ts_name target) := build_target_unit target]> body) t)| |].
  - intros fs t1 Hx. by destruct (Hx eq_refl).
  - intros r fs t1 [-> Ha] Hr. split_and!; [done|done|done|intros _; by apply Ha].
Qed.

End Driver.

(** * Witnesses *)

#[local] Instance supervisor_demo_debug : UnicodeDebug := {| escape_unicode c := c |}.

(** A manager that answers every call, and one that cannot be reached. *)
Definition demo_os : Os := mkOs (fun _ => None) (fun _ => 0) (fun _ _ => Ok (Completed (mkOutput (Some 0%Z) [] []))) (Some (bs "/home/me")) 7.
Definition silent_os : Os := mkOs (fun _ => None) (fun _ => 0) (fun _ _ => Ok TimedOut) (Some (bs "/home/me")) 7.

Definition demo_spec : ServiceSpec := core_service_spec (bs "/home/me/bin/kastellan") (bs "/home/me/log").
Definition demo_host : Host := mkHost ∅ 0 0.

Lemma bundle_is_written_and_armed_witness :
  let drv := systemd_user_new demo_os in
  let '(r, h', t') := install_target demo_os drv kastellan_target_spec [demo_spec] demo_host [] in
  r = Ok tt /\ files h' = <[target_path drv KASTELLAN_TARGET_NAME := build_target_unit kastellan_target_spec]> (foldl (with_unit drv) ∅ [demo_spec]) /\
  armed (KASTELLAN_TARGET_NAME ++ bs ".target") [] t'.
Proof.
  assert (Hr : (install_target demo_os (systemd_user_new demo_os) kastellan_target_spec [demo_spec] demo_host []).1.1 = Ok tt) by (vm_compute; reflexivity).
  assert (Hd : is_default_units_dir demo_os (systemd_user_new demo_os) = true) by (vm_compute; reflexivity).
  assert (Hb := bundle_is_written_and_armed demo_os (systemd_user_new demo_os) kastellan_target_spec [demo_spec] demo_host []).
  cbn zeta. revert Hr Hb. generalize (install_target demo_os (systemd_user_new demo_os) kastellan_target_spec [demo_spec] demo_host []).
  intros [[r h'] t'] Hr Hb. cbn in Hr. destruct (Hb Hr) as (_ & _ & Hf & Ha). split_and!; [exact Hr|exact Hf|exact (Ha Hd)].
Defined.

(** An unreachable manager keeps the file of the unit it may still run. *)
Example silent_manager_keeps_the_file :
  let drv := systemd_user_new silent_os in let p := unit_path drv CORE_SERVICE_NAME in
  let '(r, h', _) := uninstall silent_os drv CORE_SERVICE_NAME (mkHost {[p := bs "unit"]} 0 0) [] in
  files h' !! p = Some (bs "unit") /\ match r with Ok _ => False | Err _ => True end.
Proof. vm_compute. split; [reflexivity|exact I]. Qed.

Example answering_manager_lets_it_go :
  let drv := systemd_user_new demo_os in let p := unit_path drv CORE_SERVICE_NAME in
  let '(r, h', _) := uninstall demo_os drv CORE_SERVICE_NAME (mkHost {[p := bs "unit"]} 0 0) [] in
  files h' !! p = None /\ r = Ok tt.
Proof. vm_compute. split; reflexivity. Qed.
